(* ===== verification/_CoqProject ===== *)
-Q . S2P
Prelude.v
Effects.v
GoErrors.v
GoStrings.v
Trim.v
NetAddr.v
Decimal.v
Json.v
Pattern.v
Predicate.v
Router.v
RouterTrie.v
RouterSearch.v
RouterCorrect.v
RouterExamples.v
Heap.v
Apportion.v
Wrr.v
HashKey.v
Chash.v
Url.v
Duration.v
DurationText.v
FloatMath.v
FilePath.v
Resources.v
UpstreamConfig.v
X509.v
Fingerprint.v
TlsMaterial.v
MaterialLoad.v
Health.v
HealthScheduler.v
Budget.v
RefTable.v
Plan.v
Attempts.v
Registry.v
RegistryTx.v
Lifecycle.v
LifecycleSafe.v
HttpHeader.v
ProxyHeaders.v
WebSocket.v
Session.v
Tunnel.v
Plugins.v
BuiltinPlugins.v
DownstreamTLS.v
Builder.v
Config.v
ConfigCorrect.v
Manager.v
ManagerSafe.v
ManagerFrame.v
ManagerExamples.v
Commit.v
Handler.v
Telemetry.v
HandlerSafe.v
ServeSafe.v
ServeExamples.v
TelemetryCorrect.v
Transport.v
LifecycleObserver.v
Resilience.v
Gateway.v
GatewaySafe.v
GatewayLive.v
GatewayExamples.v
GatewayStart.v
Dataset.v
DatasetCorrect.v
DatasetAccepted.v
Render.v
RenderCorrect.v
TestUpstream.v
Report.v
ReportCorrect.v
