(* ===== verification/Prelude.v ===== *)
(** * Verification of the g-gateway data plane

    g-gateway is an HTTP gateway written in Go: it reads a configuration file,
    compiles it into immutable snapshots, and proxies requests and WebSocket
    upgrades to upstream endpoints while new revisions replace old ones. This
    library translates the program into executable definitions, named after the
    functions of [src/], and proves what makes it correct.

    ** The program and its model

    A configuration document is decoded, converted and validated
    ([internal/config]: [Duration], [Config], [ConfigCorrect]), with the TLS
    material it names ([internal/tlsmaterial]: [X509], [TlsMaterial],
    [MaterialLoad]). [New] and [Start] ([internal/gateway]: [GatewayStart])
    construct the gateway from it. A set of resources ([internal/model]:
    [Resources]) then goes through
    - the upstream configuration and its sharing keys ([internal/upstream]:
      [UpstreamConfig], [Url], [Fingerprint]),
    - the balancers and hash keys ([Heap], [Apportion], [Wrr], [HashKey], [Chash]),
    - the upstream registry, which shares transports, health trackers, selection
      states and retry budgets between revisions by reference counts
      ([RefTable], [Health], [Budget], [Plan], [Registry], [RegistryTx]), and the
      life of plan sets, the reaper and tunnel leases ([Lifecycle],
      [LifecycleSafe]); active health checks are [HealthScheduler],
    - the router ([internal/router]: [Pattern], [Predicate], [Router], proved in
      [RouterTrie], [RouterSearch], [RouterCorrect], run in [RouterExamples]),
    - plugins ([internal/plugin]: [Plugins], [BuiltinPlugins]) and certificate
      selection ([internal/downstreamtls]: [DownstreamTLS]),
    - the snapshot builder and the manager ([internal/runtime]: [Builder],
      [Manager], proved in [ManagerSafe] and [ManagerFrame], run in
      [ManagerExamples]).

    A request is served by the proxy ([internal/proxy]): [Handler] is
    [ServeHTTP] with the upgrade path, [Attempts] the retry loop,
    [ProxyHeaders] the headers, [Commit] the arbitration between a commit and a
    cancellation; [internal/websocket] is [WebSocket], [internal/tunnel] is
    [Tunnel] (registry) and [Session] (copying). [HandlerSafe], [ServeSafe] and
    [ServeExamples] hold the theorems on handlers. [Gateway] composes the
    manager, the handlers, the tunnel registry and [Shutdown] into one machine;
    its theorems are in [GatewaySafe] and [GatewayLive], a run of it in
    [GatewayExamples].

    Connections to upstreams are made by the transports and the TLS dialer of
    [internal/upstream/transport.go] ([Transport]). What is observed goes to
    telemetry ([internal/telemetry]: [Telemetry], proved in [TelemetryCorrect],
    and [Resilience] for the gauges read when metrics are scraped) and, through
    the lifecycle observer of [internal/gateway], to the log
    ([LifecycleObserver]).

    The benchmark tools are modelled as well: the generator of datasets
    ([internal/benchdataset]: [Dataset], proved in [DatasetCorrect] and
    [DatasetAccepted]), the configuration files rendered from them ([Render],
    [RenderCorrect]), the report on measured runs ([internal/benchreport]:
    [Report], [ReportCorrect]) and the upstream used in tests
    ([internal/testupstream]: [TestUpstream]).

    The parts of the Go standard library the program relies on are modelled too:
    strings and Unicode classes ([GoStrings], [Trim]), decimal numbers
    ([Decimal]), errors ([GoErrors]), addresses ([NetAddr]), JSON encoding
    ([Json]), [container/heap] ([Heap]), [net/url] ([Url]), [time.ParseDuration]
    with its double-precision fractions ([Duration]) and the text of durations it
    reads back ([DurationText]), double-precision arithmetic and its rounding
    ([FloatMath]), [path/filepath] ([FilePath]), [http.Header] ([HttpHeader]),
    host name verification of [crypto/x509] ([X509]).

    ** Conventions

    A Go value is the value of its fields: structs are records, enumerations
    inductive types or the strings they are, slices lists, maps [gmap]s; where
    identity matters (runtimes, plan sets, leases, registrations) objects live in
    a store and are named by numbers. [(T, error)] is [result E T]; the free text
    of errors is dropped and what callers can tell apart is kept. Integers are
    [Z], with wrap-around written out ([wrap8] to [wrap64]) where the code relies
    on a width. Iteration over a map takes the order as an argument, constrained
    to be an enumeration of the keys.

    Code that talks to the outside is a finite tree of calls ([Effects]); a
    theorem on all its runs holds for every behaviour of the callees and every
    interleaving between calls. Shared state is a machine: every atomic
    operation, critical section and channel operation of a goroutine is one
    event, [exec] runs an event on a state (blocking, panicking or done), the
    reachable states are an inductive predicate, and the theorems are invariants
    of it. [Lifecycle] is a layer of [Manager], which is a layer of [Gateway];
    the upper machine performs events of the lower one, so that theorems of the
    lower machine hold in every state of the upper one.

    ** What is proved

    - Routing: the compiled tries with their pruned search return what the
      precedence rule over all routes prescribes, independently of the order of
      declaration, and the handler answers accordingly ([Match_reference],
      [Match_order_independent], [request_routed]).
    - Balancing: schedules are proportional, the continuum selects clockwise and
      draining an endpoint moves only its keys, selection finds an eligible
      endpoint whenever there is one.
    - Upstream runtimes: reference counts are exact, what is in use is in
      service, [Prepare] is a transaction, budgets stay within their bounds,
      health trackers refine an automaton, probes are neither lost nor doubled,
      the coordinator can always be closed.
    - Snapshots: revisions increase, [Apply] terminates with one result, a leased
      snapshot keeps its runtimes alive, handshakes get certificates that verify.
    - Requests: every request gives its lease back and is answered once;
      attempts respect the retry policy and are accounted for; upgrades are
      transactions; commit and cancellation exclude each other; tunnels copy
      exactly and end.
    - The gateway: leases never leak across components, [Shutdown] returns with
      everything released, and it can always be completed.
    - Configuration: accepted documents can be put into service, and every
      version embeds into the next.
    - Connections: a TLS connection is handed out only when it is verified for
      the right name and roots and speaks the protocol the upstream demands; a
      failed dial leaves nothing open and is counted and logged once
      ([dial_verified], [tls_failure_once], [dial_recorded]).
    - Telemetry: upgrades are counted by result, the gauge of tunnels is right
      under every interleaving, and a scrape counts every tracked endpoint once
      ([handshake_counted], [tunnel_gauge], [resilience_gauges]).
    - Benchmarks: datasets have the distribution they announce, the gateway
      accepts them, and the file rendered from one decodes to the same resources
      ([dataset_distribution], [dataset_accepted], [dataset_roundtrip]); a report
      is backed by its evidence, its percentiles are exact although ranks are
      computed in double precision, and it always returns ([report_sound],
      [percentile_exact], [Generate_returns]); frames come back from the echo
      endpoint as they were sent ([echo_upgrade]).

    ** Bounds and fuel

    Recursion that is not structural takes fuel, and for each such definition a
    lemma shows that the fuel given by its caller is enough: the length of the
    rest of the input for scanners ([trim_left_n_done], [cookieLoop_segments],
    [parseTerms_fuel], [parseBundle_total]), the number of path segments for the
    trie search ([search_fuel], [visit_err]), the length of the heap for
    [heap_up] and [heap_down], the number of bits for [uvarint_loop] and
    [gcdLoop], the number of slots for [emitLoop], the length of the input for
    the frames of [echoLoop] ([echo_frames]). Datasets have at most 10^17 routes,
    for which the percentages of the route count do not overflow, and request
    logs fewer than 2^46 records, for which a rank in double precision is exact
    ([percent_rank]). [finish_apply] takes seven
    steps because that is the highest rank of a program counter of [Apply]. The
    machines have no bound on goroutines, requests, tunnels or revisions.

    ** Parameters and hypotheses

    xxHash64, SHA-256 and SHA-1 are arguments; theorems on keys and fingerprints
    are about the bytes hashed. PEM, DER and YAML decoding, the JSON encoder of
    plugin options, name resolution and the file system are arguments of the
    definitions that use them; so are the JSON decoder and encoder of reports and
    the YAML encoder of rendered files, with the laws [json_reads], [yaml_reads]
    and [marshal_rejects_nan], the random source of datasets, and the TCP dial
    and TLS handshake, with the law [tls_verifies]. Unicode case folding and spaces beyond ASCII are a
    class with its laws and an instance. Plugins are arbitrary functions on the
    request and the response; the environment of a program or of a machine
    answers arbitrarily.

    ** Not modelled

    - The HTTP servers, [httputil.ReverseProxy] (one call of the handler), the
      connection pools of [net/http] and the probes' network exchange: library
      code, whose answers are arbitrary here.
    - The registry, exposition and profiling handlers of the Prometheus client
      behind [internal/telemetry]; a metric is the calls made on its series.
    - [internal/requestctx], which carries values between handlers: they are the
      effects of [Handler].
    - [Wait] and the channel of serve errors, and the three [Serve] goroutines.
    - Deep copies of resources, which are identities on values.
    - The endpoints of the test upstream that only move bytes through [net/http]
      (body echo, header dump, stream, trailers, close) and its route table.
    - The commands ([cmd]): flag parsing and process start-up around the
      functions above. *)

From stdpp Require Export base gmap strings list list_numbers sorting.
From Stdlib Require Export ZArith Lia Ascii.

(** ** Results: Go's [(value, error)] pairs

    A Go function returning [(T, error)] becomes a function into
    [result E T]: exactly one of the two components is meaningful. *)

Inductive result (E A : Type) : Type :=
| Ok (value : A)
| Err (error : E).
Arguments Ok {E A} _.
Arguments Err {E A} _.

#[global] Instance result_ret {E} : MRet (result E) := fun _ x => Ok x.
#[global] Instance result_bind {E} : MBind (result E) :=
  fun _ _ f r => match r with Ok x => f x | Err e => Err e end.
#[global] Instance result_fmap {E} : FMap (result E) :=
  fun _ _ f r => match r with Ok x => Ok (f x) | Err e => Err e end.

Definition is_ok {E A} (r : result E A) : bool :=
  match r with Ok _ => true | Err _ => false end.

(** The error of one layer wrapped by the next one ([fmt.Errorf("...: %w")]). *)
Definition map_err {E F A} (f : E → F) (r : result E A) : result F A :=
  match r with Ok x => Ok x | Err e => Err (f e) end.

Lemma bind_ok_inv {E A B} (r : result E A) (f : A → result E B) b :
  r ≫= f = Ok b → ∃ a, r = Ok a ∧ f a = Ok b.
Proof. destruct r; [by eauto|done]. Qed.

Lemma map_err_ok_inv {E F A} (f : E → F) (r : result E A) a :
  map_err f r = Ok a → r = Ok a.
Proof. destruct r; simpl; congruence. Qed.

(** ** Tactics *)

Create HintDb gw.

(** Split the boolean connectives and comparisons of every hypothesis. *)
Ltac bool_hyps :=
  repeat match goal with
  | H : _ && _ = true |- _ => apply andb_true_iff in H; destruct H
  | H : _ || _ = false |- _ => apply orb_false_iff in H; destruct H
  | H : negb _ = true |- _ => apply negb_true_iff in H
  | H : negb _ = false |- _ => apply negb_false_iff in H
  | H : bool_decide _ = true |- _ => apply bool_decide_eq_true in H
  | H : bool_decide _ = false |- _ => apply bool_decide_eq_false in H
  | H : Is_true _ |- _ => apply Is_true_true in H
  | H : Nat.eqb _ _ = true |- _ => apply Nat.eqb_eq in H
  | H : Nat.eqb _ _ = false |- _ => apply Nat.eqb_neq in H
  | H : Nat.ltb _ _ = true |- _ => apply Nat.ltb_lt in H
  | H : Nat.ltb _ _ = false |- _ => apply Nat.ltb_ge in H
  | H : Nat.leb _ _ = true |- _ => apply Nat.leb_le in H
  | H : Nat.leb _ _ = false |- _ => apply Nat.leb_gt in H
  | H : Z.eqb _ _ = true |- _ => apply Z.eqb_eq in H
  | H : Z.eqb _ _ = false |- _ => apply Z.eqb_neq in H
  | H : Z.ltb _ _ = true |- _ => apply Z.ltb_lt in H
  | H : Z.ltb _ _ = false |- _ => apply Z.ltb_ge in H
  | H : Z.leb _ _ = true |- _ => apply Z.leb_le in H
  | H : Z.leb _ _ = false |- _ => apply Z.leb_gt in H
  | H : Z.geb _ _ = true |- _ => rewrite Z.geb_leb in H
  | H : Z.geb _ _ = false |- _ => rewrite Z.geb_leb in H
  | H : Z.gtb _ _ = true |- _ => rewrite Z.gtb_ltb in H
  | H : Z.gtb _ _ = false |- _ => rewrite Z.gtb_ltb in H
  end.

(** Case analysis on the scrutinee of an [if] or [match], keeping the equation
    and reflecting it. *)
Ltac case_scrutinee :=
  match goal with
  | |- context [if ?b then _ else _] => destruct b eqn:?
  | |- context [match ?x with _ => _ end] => destruct x eqn:?
  end.

Ltac case_scrutinee_in H :=
  match type of H with
  | context [if ?b then _ else _] => destruct b eqn:?
  | context [match ?x with _ => _ end] => destruct x eqn:?
  end.

(** Invert a chain of monadic binds that returned [Ok]. *)
Ltac inv_ok :=
  repeat match goal with
  | H : mbind _ _ = Ok _ |- _ => apply bind_ok_inv in H; destruct H as (? & ? & H)
  | H : map_err _ _ = Ok _ |- _ => apply map_err_ok_inv in H
  | H : Ok _ = Ok _ |- _ => injection H as H; subst
  | H : Err _ = Ok _ |- _ => discriminate H
  | H : Ok _ = Err _ |- _ => discriminate H
  end.

(** ** Machine integers

    Go's unsigned integers are values of [Z] reduced modulo their width. *)

Definition wrap8 (x : Z) : Z := (x mod 2 ^ 8)%Z.
Definition wrap16 (x : Z) : Z := (x mod 2 ^ 16)%Z.
Definition wrap32 (x : Z) : Z := (x mod 2 ^ 32)%Z.
Definition wrap64 (x : Z) : Z := (x mod 2 ^ 64)%Z.

Lemma wrap32_id x : (0 ≤ x < 2 ^ 32)%Z → wrap32 x = x.
Proof. apply Z.mod_small. Qed.
Lemma wrap64_id x : (0 ≤ x < 2 ^ 64)%Z → wrap64 x = x.
Proof. apply Z.mod_small. Qed.
Lemma wrap64_range x : (0 ≤ wrap64 x < 2 ^ 64)%Z.
Proof. by apply Z.mod_pos_bound. Qed.
Lemma wrap32_range x : (0 ≤ wrap32 x < 2 ^ 32)%Z.
Proof. by apply Z.mod_pos_bound. Qed.

(** ** Sorting

    [sort.Slice values less] is specified by the standard library only for a
    strict weak order and is not stable; every order the gateway sorts by is
    total on the values it sorts, so the result is the one sorted permutation,
    which a merge sort computes. *)

Section Sort.
Context {A : Type} (less : A → A → bool).

Definition not_after (x y : A) : Prop := less y x = false.

#[global] Instance not_after_dec x y : Decision (not_after x y).
Proof. apply bool_eq_dec. Defined.

Definition sort_slice (l : list A) : list A := merge_sort not_after l.

Lemma sort_slice_perm l : sort_slice l ≡ₚ l.
Proof. apply merge_sort_Permutation. Qed.

Lemma elem_of_sort_slice x l : x ∈ sort_slice l ↔ x ∈ l.
Proof. by rewrite sort_slice_perm. Qed.

Lemma length_sort_slice l : length (sort_slice l) = length l.
Proof. by rewrite sort_slice_perm. Qed.

Lemma sort_slice_sorted l :
  (∀ x y, less x y = true → less y x = false) →
  (∀ x y z, less y x = false → less z y = false → less z x = false) →
  StronglySorted not_after (sort_slice l).
Proof.
  intros Hasym Htrans.
  assert (Total not_after).
  { intros x y. unfold not_after. destruct (less y x) eqn:E; [right|left]; auto. }
  assert (Transitive not_after).
  { intros x y z. unfold not_after. eauto. }
  apply (StronglySorted_merge_sort _ _).
Qed.
End Sort.

(** Sorted lists of strings ([sort.Strings]). *)
Definition sort_strings (l : list string) : list string := sort_slice String.ltb l.

(** ** The byte order on strings *)

Lemma string_leb_le s t : String.leb s t = true ↔ String.le s t.
Proof. unfold String.le. by rewrite Is_true_true. Qed.

Lemma string_ltb_leb s t : String.ltb s t = negb (String.leb t s).
Proof.
  unfold String.ltb, String.leb. rewrite String.compare_antisym.
  by destruct (String.compare t s).
Qed.

Lemma string_ltb_spec s t : String.ltb s t = true ↔ String.le s t ∧ s ≠ t.
Proof.
  rewrite string_ltb_leb, negb_true_iff. split.
  - intros H. split.
    + destruct (String.leb_total s t) as [?|?]; [by apply string_leb_le|congruence].
    + intros ->. assert (String.leb t t = true) by (by apply string_leb_le). congruence.
  - intros [Hle Hne]. destruct (String.leb t s) eqn:E; [|done].
    exfalso. apply Hne. apply (anti_symm String.le); [done|by apply string_leb_le].
Qed.

Lemma string_ltb_trans s t u :
  String.ltb s t = true → String.ltb t u = true → String.ltb s u = true.
Proof.
  rewrite !string_ltb_spec. intros [? Hst] [? Htu]. split; [by etrans|].
  intros ->. apply Hst. by apply (anti_symm String.le).
Qed.

Lemma string_ltb_irrefl s : String.ltb s s = false.
Proof. apply not_true_is_false. rewrite string_ltb_spec. naive_solver. Qed.

Lemma string_ltb_asym s t : String.ltb s t = true → String.ltb t s = false.
Proof.
  intros H. apply not_true_is_false. intros H'.
  pose proof (string_ltb_trans _ _ _ H H'). by rewrite string_ltb_irrefl in *.
Qed.

Lemma string_ltb_total s t : String.ltb s t = false → String.ltb t s = false → s = t.
Proof.
  rewrite !string_ltb_leb, !negb_false_iff. intros.
  by apply (anti_symm String.le); apply string_leb_le.
Qed.


Lemma string_ltb_false_trans s t u :
  String.ltb s t = false → String.ltb t u = false → String.ltb s u = false.
Proof.
  rewrite !string_ltb_leb, !negb_false_iff, !string_leb_le. intros. by etrans.
Qed.

Lemma StronglySorted_weaken {A} (R R' : relation A) l :
  (∀ x y, R x y → R' x y) → StronglySorted R l → StronglySorted R' l.
Proof.
  intros HR. induction 1 as [|x l Hs IH Hx]; constructor; [done|].
  eapply Forall_impl; [exact Hx|]. auto.
Qed.

Lemma sort_strings_sorted l : StronglySorted String.le (sort_strings l).
Proof.
  eapply StronglySorted_weaken; [|apply sort_slice_sorted].
  - intros x y. unfold not_after. by rewrite string_ltb_leb, negb_false_iff, string_leb_le.
  - intros x y. apply string_ltb_asym.
  - intros x y z H1 H2. by eapply string_ltb_false_trans.
Qed.

Lemma elem_of_sort_strings x l : x ∈ sort_strings l ↔ x ∈ l.
Proof. apply elem_of_sort_slice. Qed.

Lemma NoDup_sort_strings l : NoDup l → NoDup (sort_strings l).
Proof. unfold sort_strings. by rewrite sort_slice_perm. Qed.

(** ** Sums over lists *)

Lemma nonempty_length {A} (l : list A) : l ≠ [] → (0 < Z.of_nat (length l))%Z.
Proof. destruct l; [done|simpl; lia]. Qed.

Definition zsum {A} (f : A → Z) (l : list A) : Z := foldr (fun x sum => f x + sum)%Z 0%Z l.

Lemma zsum_cons {A} (f : A → Z) x l : zsum f (x :: l) = (f x + zsum f l)%Z.
Proof. done. Qed.

Lemma zsum_app {A} (f : A → Z) l k : zsum f (l ++ k) = (zsum f l + zsum f k)%Z.
Proof. induction l as [|x l IH]; simpl; lia. Qed.

Lemma zsum_perm {A} (f : A → Z) l k : l ≡ₚ k → zsum f l = zsum f k.
Proof. induction 1; simpl; lia. Qed.

Lemma zsum_fmap {A B} (f : B → Z) (g : A → B) l : zsum f (g <$> l) = zsum (f ∘ g) l.
Proof. induction l as [|x l IH]; csimpl; [done|]. by rewrite IH. Qed.

Lemma zsum_ext {A} (f g : A → Z) l : (∀ x, x ∈ l → f x = g x) → zsum f l = zsum g l.
Proof.
  induction l as [|x l IH]; intros Hfg; simpl; [done|].
  rewrite Hfg by left. rewrite IH; [done|]. intros y Hy. apply Hfg. by right.
Qed.

Lemma zsum_bounds {A} (f : A → Z) lo hi l : Forall (fun x => lo ≤ f x ≤ hi)%Z l →
  (lo * Z.of_nat (length l) ≤ zsum f l ≤ hi * Z.of_nat (length l))%Z.
Proof. induction 1; simpl; lia. Qed.

Lemma zsum_scale {A} (f : A → Z) c l : zsum (fun x => f x * c)%Z l = (zsum f l * c)%Z.
Proof. induction l as [|x l IH]; simpl; lia. Qed.

Lemma zsum_add {A} (f g : A → Z) l : zsum (fun x => f x + g x)%Z l = (zsum f l + zsum g l)%Z.
Proof. induction l as [|x l IH]; simpl; lia. Qed.

Lemma zsum_elem_le {A} (f : A → Z) l x :
  Forall (fun y => 0 ≤ f y)%Z l → x ∈ l → (f x ≤ zsum f l)%Z.
Proof.
  intros Hl. induction 1 as [x l|x y l Hx IH]; inversion_clear Hl; simpl.
  - assert (0 ≤ zsum f l)%Z; [|lia]. clear -H0. induction H0; simpl; lia.
  - specialize (IH H0). lia.
Qed.

Lemma zsum_alter {A} (f : A → Z) (g : A → A) l i x : l !! i = Some x →
  zsum f (alter g i l) = (zsum f l + (f (g x) - f x))%Z.
Proof.
  revert i. induction l as [|y l IH]; intros [|i] Hi; simplify_eq/=; [lia|].
  rewrite (IH _ Hi). lia.
Qed.

Lemma zsum_insert {A} (f : A → Z) l i x y : l !! i = Some x →
  zsum f (<[i := y]> l) = (zsum f l + (f y - f x))%Z.
Proof.
  revert i. induction l as [|z l IH]; intros [|i] Hi; simplify_eq/=; [lia|].
  rewrite (IH _ Hi). lia.
Qed.

Lemma zsum_delete {A} (f : A → Z) l i x : l !! i = Some x → zsum f (delete i l) = (zsum f l - f x)%Z.
Proof.
  revert i. induction l as [|z l IH]; intros [|i] Hi; simplify_eq/=; [lia|].
  rewrite (IH _ Hi). lia.
Qed.

Lemma zsum_nonneg {A} (f : A → Z) l : (∀ x, 0 ≤ f x)%Z → (0 ≤ zsum f l)%Z.
Proof. intros Hf. induction l as [|x l IH]; simpl; [done|]. specialize (Hf x). lia. Qed.

(** The prefix of a sorted list precedes the rest. *)
Lemma StronglySorted_take_drop {A} (R : relation A) l k x y :
  StronglySorted R l → x ∈ take k l → y ∈ drop k l → R x y.
Proof.
  intros Hs Hx Hy. rewrite <-(take_drop k l) in Hs.
  by eapply StronglySorted_app_1_elem_of.
Qed.

Lemma Forall2_compose {A B C} (P : A → B → Prop) (Q : B → C → Prop) (R : A → C → Prop) l k m :
  (∀ x y z, P x y → Q y z → R x z) → Forall2 P l k → Forall2 Q k m → Forall2 R l m.
Proof.
  intros HR Hlk. revert m. induction Hlk; intros m Hkm; inversion_clear Hkm; constructor; eauto.
Qed.

(** Distinct integers of a range are at most as many as the range holds. *)
Lemma NoDup_range_length (l : list Z) lo hi : (lo ≤ hi)%Z →
  NoDup l → Forall (fun x => lo ≤ x < hi)%Z l → (Z.of_nat (length l) ≤ hi - lo)%Z.
Proof.
  intros Hlh Hnd Hr. assert (Hsub : l ⊆+ seqZ lo (hi - lo)).
  { apply NoDup_submseteq; [done|]. intros x Hx. apply elem_of_seqZ.
    eapply Forall_forall in Hr; [|done]. simpl in Hr. lia. }
  apply submseteq_length in Hsub. rewrite length_seqZ in Hsub. lia.
Qed.

(** ** Counting in finite maps *)

Section CountMap.
Context `{Countable K} {A : Type} (P : A → bool).

(** The number of values of [m] that satisfy [P]. *)
Definition count_map (m : gmap K A) : Z := Z.of_nat (size (filter (fun kv => P kv.2 = true) m)).

Definition count_at (o : option A) : Z :=
  match o with Some x => if P x then 1 else 0 | None => 0 end%Z.

Lemma count_map_empty : count_map ∅ = 0%Z.
Proof. unfold count_map. by rewrite map_filter_empty, map_size_empty. Qed.

Lemma count_map_delete m k : (count_map m = count_map (delete k m) + count_at (m !! k))%Z.
Proof.
  destruct (m !! k) as [x|] eqn:E; simpl; [|rewrite delete_id by done; lia].
  rewrite <-(insert_delete_id m k x E) at 1. unfold count_map.
  destruct (P x) eqn:Ep.
  - rewrite map_filter_insert_True by done. rewrite map_size_insert_None; [lia|].
    apply map_lookup_filter_None. left. by rewrite lookup_delete_eq.
  - rewrite map_filter_insert_False by (simpl; congruence). rewrite delete_delete_eq. lia.
Qed.

Lemma count_map_insert m k x :
  (count_map (<[k := x]> m) = count_map m - count_at (m !! k) + count_at (Some x))%Z.
Proof.
  rewrite (count_map_delete (<[k := x]> m) k), (count_map_delete m k), delete_insert_eq,
    lookup_insert_eq. lia.
Qed.

Lemma count_map_nonneg m : (0 ≤ count_map m)%Z.
Proof. unfold count_map. lia. Qed.

Lemma count_at_range o : (0 ≤ count_at o ≤ 1)%Z.
Proof. destruct o as [x|]; simpl; [destruct (P x)|]; lia. Qed.
End CountMap.

(** ** Sums over the values of a map *)

Section MapSum.
Context {K A : Type} `{Countable K} (f : A → Z).
Implicit Types m : gmap K A.

Definition map_sum m : Z := zsum (fun kx => f kx.2) (map_to_list m).

Lemma map_sum_empty : map_sum ∅ = 0%Z.
Proof. unfold map_sum. by rewrite map_to_list_empty. Qed.

Lemma map_sum_insert_new m k x : m !! k = None → map_sum (<[k := x]> m) = (f x + map_sum m)%Z.
Proof. intros Hk. unfold map_sum. by rewrite (zsum_perm _ _ _ (map_to_list_insert _ _ x Hk)). Qed.

Lemma map_sum_delete m k x : m !! k = Some x → map_sum m = (f x + map_sum (delete k m))%Z.
Proof. intros Hk. unfold map_sum. by rewrite <-(zsum_perm _ _ _ (map_to_list_delete _ _ _ Hk)). Qed.

Lemma map_sum_update m k x y : m !! k = Some x →
  map_sum (<[k := y]> m) = (map_sum m - f x + f y)%Z.
Proof.
  intros Hk. rewrite (map_sum_delete _ _ _ Hk), (map_sum_delete (<[k := y]> m) k y) by apply lookup_insert_eq.
  rewrite delete_insert_eq. lia.
Qed.

Lemma map_sum_nonneg m : (∀ x, 0 ≤ f x)%Z → (0 ≤ map_sum m)%Z.
Proof.
  intros Hf. unfold map_sum. induction (map_to_list m) as [|kx l IH]; simpl; [done|].
  specialize (Hf kx.2). lia.
Qed.

Lemma map_sum_elem_le m k x : (∀ x, 0 ≤ f x)%Z → m !! k = Some x → (f x ≤ map_sum m)%Z.
Proof.
  intros Hf Hk. rewrite (map_sum_delete _ _ _ Hk). pose proof (map_sum_nonneg (delete k m) Hf). lia.
Qed.

Lemma map_sum_zero m : (∀ k x, m !! k = Some x → f x = 0%Z) → map_sum m = 0%Z.
Proof.
  intros Hz. unfold map_sum. assert (Hl : ∀ kx, kx ∈ map_to_list m → f kx.2 = 0%Z).
  { intros [k x] Hin%elem_of_map_to_list. by eapply Hz. }
  induction (map_to_list m) as [|kx l IH]; simpl; [done|].
  rewrite IH, (Hl kx); [done|by left|]. intros y Hy. apply Hl. by right.
Qed.
End MapSum.
