(* ===== verification/Effects.v ===== *)
(** * Programs with effects

    Handlers of the proxy talk to the rest of the gateway. Such a handler is a
    finite tree of calls here, each with a continuation for every answer; a run
    is one path through the tree, with any answers, and [ensures] follows all
    of them. What is proved of every run holds whatever the callees do and
    however other goroutines interleave between the calls. *)

From S2P Require Import Prelude.
#[local] Open Scope list_scope.

Section Programs.
Context {E : Type → Type}.

Inductive program (A : Type) : Type :=
| Ret (a : A)
| Call {X : Type} (e : E X) (k : X → program A).

Inductive interaction : Type :=
| Did {X : Type} (e : E X) (x : X).
End Programs.

Arguments program E A : clear implicits.
Arguments interaction E : clear implicits.
Arguments Ret {E A} a.
Arguments Call {E A X} e k.

#[global] Instance program_ret {E} : MRet (program E) := @Ret E.

#[global] Instance program_bind {E} : MBind (program E) :=
  fun A B f =>
    fix bind p := match p with Ret a => f a | Call e k => Call e (fun x => bind (k x)) end.

Definition call {E X} (e : E X) : program E X := Call e Ret.

Section Runs.
Context {E : Type → Type} {A : Type}.
Implicit Types (p : program E A) (tr h : list (interaction E)).

(** [p] may make the calls [tr], with these answers, and return [a]. *)
Fixpoint runs p tr (a : A) : Prop :=
  match p with
  | Ret b => tr = [] ∧ a = b
  | Call e k => ∃ x rest, tr = Did e x :: rest ∧ runs (k x) rest a
  end.

(** Every run of [p] after [h] ends with a history and a result such that [Q]. *)
Fixpoint ensures p h (Q : list (interaction E) → A → Prop) : Prop :=
  match p with
  | Ret a => Q h a
  | Call e k => ∀ x, ensures (k x) (h ++ [Did e x]) Q
  end.

Lemma ensures_runs p h Q tr a : ensures p h Q → runs p tr a → Q (h ++ tr) a.
Proof.
  revert h tr. induction p as [b|X e k IH]; intros h tr Hp Hr; simpl in *.
  - destruct Hr as [-> ->]. by rewrite app_nil_r.
  - destruct Hr as (x & rest & -> & Hr). apply (IH x (h ++ [Did e x])) in Hr; [|done]. by rewrite <-app_assoc in Hr.
Qed.

Lemma runs_ensures p h Q : (∀ tr a, runs p tr a → Q (h ++ tr) a) → ensures p h Q.
Proof.
  revert h. induction p as [b|X e k IH]; intros h Hp; simpl; [rewrite <-(app_nil_r h); by apply Hp|].
  intros x. apply IH. intros tr a Hr. rewrite <-app_assoc. apply Hp. by eexists _, _.
Qed.

(** What holds of a program's own calls holds of them after any history. *)
Lemma ensures_after p h Q : ensures p [] Q → ensures p h (fun tr a => ∃ own, tr = h ++ own ∧ Q own a).
Proof. intros Hp. apply runs_ensures. intros tr a Hr. exists tr. split; [done|]. exact (ensures_runs p [] Q tr a Hp Hr). Qed.

(** Callees that answer from the history. *)
Definition callees : Type := ∀ X, list (interaction E) → E X → X.

Fixpoint perform_calls (env : callees) h p : list (interaction E) * A :=
  match p with
  | Ret a => (h, a)
  | Call e k => let x := env _ h e in perform_calls env (h ++ [Did e x]) (k x)
  end.

(** Whoever answers, the program comes to an end. *)
Lemma perform_runs env p : ∀ h, ∃ tr, (perform_calls env h p).1 = h ++ tr ∧ runs p tr (perform_calls env h p).2.
Proof.
  induction p as [a|X e k IH]; intros h; simpl; [exists []; by rewrite app_nil_r|].
  destruct (IH (env X h e) (h ++ [Did e (env X h e)])) as (tr & -> & Hr). exists (Did e (env X h e) :: tr).
  split; [by rewrite <-app_assoc|]. by eexists _, _.
Qed.
End Runs.

Lemma ensures_mono {E A} (p : program E A) h (Q Q' : list (interaction E) → A → Prop) :
  ensures p h Q → (∀ tr a, Q tr a → Q' tr a) → ensures p h Q'.
Proof. revert h. induction p as [a|X e k IH]; simpl; eauto. Qed.

Lemma ensures_bind {E A B} (p : program E A) (f : A → program E B) h Q :
  ensures p h (fun tr a => ensures (f a) tr Q) → ensures (p ≫= f) h Q.
Proof.
  revert h. induction p as [a|X e k IH]; intros h Hp; [exact Hp|].
  intros x. apply IH, Hp.
Qed.

Lemma ensures_call {E B X} (e : E X) (f : X → program E B) h Q :
  (∀ x, ensures (f x) (h ++ [Did e x]) Q) → ensures (call e ≫= f) h Q.
Proof. done. Qed.

Lemma ensures_last {E X} (e : E X) h (Q : list (interaction E) → X → Prop) :
  (∀ x, Q (h ++ [Did e x]) x) → ensures (call e) h Q.
Proof. done. Qed.

Lemma ensures_ret {E A} (a : A) h (Q : list (interaction E) → A → Prop) : Q h a → ensures (Ret a) h Q.
Proof. done. Qed.

Lemma ensures_bind_ret {E A B} (a : A) (f : A → program E B) h Q : ensures (f a) h Q → ensures (Ret a ≫= f) h Q.
Proof. done. Qed.

(** Follows a program to its ends, trying every answer it looks at. *)
Ltac walk :=
  repeat lazymatch goal with
    | |- ensures (Ret _) _ _ => apply ensures_ret; cbv beta
    | |- ensures (call _) _ _ => apply ensures_last; intros; cbv beta
    | |- ensures (mbind _ (call _)) _ _ => apply ensures_call; intros
    | |- ensures (mbind _ (Ret _)) _ _ => apply ensures_bind_ret; cbv beta
    | |- ensures (mbind _ _) _ _ => apply ensures_bind
    | |- ensures (if negb ?x then _ else _) _ _ => destruct x eqn:?; cbn [negb]
    | |- ensures (match ?x with _ => _ end) _ _ => destruct x eqn:?
    | |- ensures (let _ := _ in _) _ _ => cbv zeta
    end.

(** ** Protocols

    A protocol says which calls are allowed in which state; a program follows
    it when no run makes a call that is not allowed, and [Q] holds of the state
    and the result at its ends. *)
Section Protocol.
Context {E : Type → Type} {S : Type} (allowed : ∀ X, S → E X → X → option S).

Fixpoint follows {A} (s : S) (p : program E A) (Q : S → A → Prop) : Prop :=
  match p with
  | Ret a => Q s a
  | Call e k => ∀ x, match allowed _ s e x with Some s' => follows s' (k x) Q | None => False end
  end.

Lemma follows_mono {A} s (p : program E A) (Q Q' : S → A → Prop) : follows s p Q → (∀ s a, Q s a → Q' s a) → follows s p Q'.
Proof.
  revert s. induction p as [a|X e k IH]; simpl; [eauto|]. intros s Hp HQ x. specialize (Hp x). destruct (allowed X s e x); [eauto|done].
Qed.

Lemma follows_bind {A B} s (p : program E A) (f : A → program E B) Q : follows s p (fun s a => follows s (f a) Q) → follows s (p ≫= f) Q.
Proof.
  revert s. induction p as [a|X e k IH]; intros s Hp; [exact Hp|]. intros x. specialize (Hp x). cbn [mbind program_bind].
  destruct (allowed X s e x); [by apply IH|done].
Qed.

Lemma follows_call {B X} s (e : E X) (f : X → program E B) Q :
  (∀ x, match allowed _ s e x with Some s' => follows s' (f x) Q | None => False end) → follows s (call e ≫= f) Q.
Proof. done. Qed.

Lemma follows_last {X} s (e : E X) (Q : S → X → Prop) :
  (∀ x, match allowed _ s e x with Some s' => Q s' x | None => False end) → follows s (call e) Q.
Proof. done. Qed.

Lemma follows_ret {A} s (a : A) (Q : S → A → Prop) : Q s a → follows s (Ret a) Q.
Proof. done. Qed.

Lemma follows_bind_ret {A B} s (a : A) (f : A → program E B) Q : follows s (f a) Q → follows s (Ret a ≫= f) Q.
Proof. done. Qed.
End Protocol.

(** Follows a program under a protocol; [step] computes the states. *)
Ltac obey step :=
  repeat lazymatch goal with
    | |- follows _ _ (Ret _) _ => apply follows_ret; cbv beta
    | |- follows _ _ (call _) _ => apply follows_last; intros; step
    | |- follows _ _ (mbind _ (call _)) _ => apply follows_call; intros; step
    | |- follows _ _ (mbind _ (Ret _)) _ => apply follows_bind_ret; cbv beta
    | |- follows _ _ (mbind _ _) _ => apply follows_bind
    | |- follows _ _ (if negb ?x then _ else _) _ => destruct x eqn:?; cbn [negb]
    | |- follows _ _ (match ?x with _ => _ end) _ => destruct x eqn:?
    | |- follows _ _ (let _ := _ in _) _ => cbv zeta
    end.

