(* ===== verification/GoErrors.v ===== *)
(** * Errors and upstream TLS failures ([internal/upstream/tls_error.go])

    A Go error is the chain of values [errors.Is] and [errors.As] walk through:
    the error itself, what it unwraps to, and so on. Of each value the code
    asks three things: which sentinels it equals or answers to in an [Is]
    method, whether it is a [net.Error] and then what [Timeout] returns, and
    which of the error types the code looks for it has. The nil error is the
    [None] of [option goError]; [*TLSFailureError] pointers inside errors are
    never nil. *)

From S2P Require Import Prelude.
#[local] Open Scope Z_scope.
#[local] Open Scope list_scope.

(** ** The errors package *)

Inductive sentinel :=
| Canceled | DeadlineExceeded | EOF | UnexpectedEOF | ECONNRESET | EPIPE
| HTTP2Required | NoHealthyEndpoint | NoEndpoint | UpgradeProtocol | InvalidQuery.

#[global] Instance sentinel_eq_dec : EqDecision sentinel.
Proof. solve_decision. Defined.

Inductive TLSFailureClass :=
| TLSFailureTrust | TLSFailureHostname | TLSFailureClientIdentity | TLSFailureProtocol | TLSFailureHandshake.

Inductive errType :=
| TLSFailureError (class : TLSFailureClass)
| HostnameError
| UnknownAuthorityError
| CertificateInvalidError
| CertificateVerificationError
| AlertError (alert : Z)
| RecordHeaderError
| OpError (op : string)
| MaxBytesError
| ResponsePluginError
| ResponseStreamError
| OtherError.

Record errNode := mkErr { en_is : list sentinel; en_net : option bool; en_type : errType }.

Definition goError : Type := list errNode.

Definition errors_Is (err : goError) (s : sentinel) : bool := existsb (fun n => bool_decide (s ∈ en_is n)) err.

(** The first value of the chain that [pick] accepts. *)
Fixpoint errors_As {A} (pick : errType → option A) (err : goError) : option A :=
  match err with
  | [] => None
  | n :: err => match pick (en_type n) with Some a => Some a | None => errors_As pick err end
  end.

(** [errors.As(err, &networkError) && networkError.Timeout()] *)
Fixpoint networkTimeout (err : goError) : bool :=
  match err with
  | [] => false
  | n :: err => match en_net n with Some timeout => timeout | None => networkTimeout err end
  end.

Definition is_hostname (t : errType) : option unit := match t with HostnameError => Some tt | _ => None end.
Definition is_unknownAuthority (t : errType) : option unit := match t with UnknownAuthorityError => Some tt | _ => None end.
Definition is_certificateInvalid (t : errType) : option unit := match t with CertificateInvalidError => Some tt | _ => None end.
Definition is_verification (t : errType) : option unit := match t with CertificateVerificationError => Some tt | _ => None end.
Definition is_alert (t : errType) : option Z := match t with AlertError alert => Some alert | _ => None end.
Definition is_recordHeader (t : errType) : option unit := match t with RecordHeaderError => Some tt | _ => None end.
Definition is_op (t : errType) : option string := match t with OpError op => Some op | _ => None end.
Definition is_tlsFailure (t : errType) : option TLSFailureClass := match t with TLSFailureError class => Some class | _ => None end.
Definition is_maxBytes (t : errType) : option unit := match t with MaxBytesError => Some tt | _ => None end.
Definition is_responsePlugin (t : errType) : option unit := match t with ResponsePluginError => Some tt | _ => None end.

Definition found {A} (o : option A) : bool := match o with Some _ => true | None => false end.

(** ** Classification *)

Definition TLSFailureClassOf (err : goError) : option TLSFailureClass := errors_As is_tlsFailure err.

Definition IsTLSFailure (err : goError) : bool := found (TLSFailureClassOf err).

(** [&TLSFailureError{Class: class, Err: err}] as an error. *)
Definition tlsFailure (class : TLSFailureClass) (err : goError) : goError :=
  mkErr [] None (TLSFailureError class) :: err.

(** The part of the chain that starts with the failure already in it. *)
Fixpoint existingFailure (err : goError) : option (TLSFailureClass * goError) :=
  match err with
  | [] => None
  | n :: rest =>
      match en_type n with
      | TLSFailureError class => Some (class, err)
      | _ => existingFailure rest
      end
  end.

Definition isClientIdentityAlert (alert : Z) : bool := bool_decide (alert ∈ [42; 43; 44; 45; 46; 48; 116]).

(** The class and the error [classifyTLSFailure] returns, if any. *)
Definition classifyTLSFailure (err : option goError) (mtls : bool) : option (TLSFailureClass * goError) :=
  match err with
  | None => None
  | Some err =>
      let failure class := Some (class, tlsFailure class err) in
      if errors_Is err Canceled || errors_Is err DeadlineExceeded then None
      else if networkTimeout err then None
      else if errors_Is err HTTP2Required then failure TLSFailureProtocol
      else
        match existingFailure err with
        | Some existing => Some existing
        | None =>
            if found (errors_As is_hostname err) then failure TLSFailureHostname
            else if found (errors_As is_unknownAuthority err) then failure TLSFailureTrust
            else if found (errors_As is_certificateInvalid err) then failure TLSFailureTrust
            else if found (errors_As is_verification err) then failure TLSFailureTrust
            else
              match errors_As is_alert err with
              | Some alert =>
                  failure (if mtls && isClientIdentityAlert alert then TLSFailureClientIdentity else TLSFailureHandshake)
              | None =>
                  if found (errors_As is_recordHeader err) then failure TLSFailureHandshake
                  else if bool_decide (errors_As is_op err = Some "remote error"%string) then failure TLSFailureHandshake
                  else None
              end
        end
  end.

(** [transportRuntime.classifyRoundTripError]: the error and the class
    reported to the observer. *)
Definition classifyRoundTripError (mtls : bool) (err : option goError) : option goError * option TLSFailureClass :=
  match err with
  | None => (None, None)
  | Some e =>
      if IsTLSFailure e then (err, None)
      else
        match classifyTLSFailure err mtls with
        | None => (err, None)
        | Some (class, failure) => (Some failure, Some class)
        end
  end.

(** ** Facts *)

Lemma found_existing err : found (existingFailure err) = IsTLSFailure err.
Proof.
  unfold IsTLSFailure, TLSFailureClassOf. induction err as [|n err IH]; [done|]. simpl. by destruct (en_type n).
Qed.

Lemma tlsFailure_Is class err s : errors_Is (tlsFailure class err) s = errors_Is err s.
Proof. done. Qed.

Lemma tlsFailure_timeout class err : networkTimeout (tlsFailure class err) = networkTimeout err.
Proof. done. Qed.

(** A classified error wraps the original. *)
Lemma classifyTLSFailure_wraps err mtls class failure : IsTLSFailure err = false →
  classifyTLSFailure (Some err) mtls = Some (class, failure) →
  failure = tlsFailure class err ∧ errors_Is err Canceled = false ∧ errors_Is err DeadlineExceeded = false ∧
  networkTimeout err = false.
Proof.
  rewrite <-found_existing. unfold classifyTLSFailure.
  destruct (errors_Is err Canceled), (errors_Is err DeadlineExceeded); try done.
  destruct (networkTimeout err); [done|]. destruct (existingFailure err); [done|]. intros _ Hc.
  split; [|done]. revert Hc. repeat case_match; congruence.
Qed.

(** The classification of a round-trip error keeps everything the retry
    decision and the error handler look at and is stable: cancellations and
    timeouts pass unchanged, any other error is returned as it is or wrapped
    once, with the sentinels and the timeout of the original, and classifying
    the result again changes and reports nothing. *)
Lemma classifyRoundTripError_stable mtls err : let '(result, report) := classifyRoundTripError mtls (Some err) in
  (result = Some err ∧ report = None ∨
   ∃ class, result = Some (tlsFailure class err) ∧ report = Some class ∧ IsTLSFailure err = false ∧
     errors_Is err Canceled = false ∧ errors_Is err DeadlineExceeded = false ∧ networkTimeout err = false) ∧
  classifyRoundTripError mtls result = (result, None).
Proof.
  unfold classifyRoundTripError. destruct (IsTLSFailure err) eqn:Ht.
  { split; [by left|]. by rewrite Ht. }
  destruct (classifyTLSFailure (Some err) mtls) as [[class failure]|] eqn:Hc.
  - apply classifyTLSFailure_wraps in Hc as (-> & Hcan & Hdl & Hto); [|done]. split; [right; by exists class|done].
  - split; [by left|]. by rewrite Ht, Hc.
Qed.
