(* ===== verification/GoStrings.v ===== *)
(** * Go strings

    A Go string is a byte sequence; it is a [string] here, each [ascii] one
    byte.  This file holds the operations of the packages [strings], [bytes],
    [net/textproto] and [net/url] the gateway uses, and the lemmas on slicing
    and splitting that the components share. *)

From S2P Require Import Prelude.
#[local] Open Scope string_scope.
#[local] Open Scope nat_scope.
#[local] Open Scope list_scope.

(** ** Bytes *)

Definition byte_val (c : ascii) : N := N_of_ascii c.

(** [lo <= c && c <= hi] *)
Definition byte_between (lo hi c : ascii) : bool :=
  (byte_val lo <=? byte_val c)%N && (byte_val c <=? byte_val hi)%N.

Definition is_ascii_byte (c : ascii) : bool := (byte_val c <? 128)%N.
Definition is_lower (c : ascii) : bool := byte_between "a" "z" c.
Definition is_upper (c : ascii) : bool := byte_between "A" "Z" c.
Definition is_digit (c : ascii) : bool := byte_between "0" "9" c.

Definition lower_byte (c : ascii) : ascii :=
  if is_upper c then ascii_of_N (byte_val c + 32) else c.
Definition upper_byte (c : ascii) : ascii :=
  if is_lower c then ascii_of_N (byte_val c - 32) else c.

(** ** Traversals *)

Fixpoint string_map (f : ascii → ascii) (s : string) : string :=
  match s with
  | EmptyString => EmptyString
  | String c s => String (f c) (string_map f s)
  end.

Fixpoint string_forallb (p : ascii → bool) (s : string) : bool :=
  match s with
  | EmptyString => true
  | String c s => p c && string_forallb p s
  end.

Definition is_ascii (s : string) : bool := string_forallb is_ascii_byte s.

Fixpoint contains_byte (c : ascii) (s : string) : bool :=
  match s with
  | EmptyString => false
  | String d s => Ascii.eqb c d || contains_byte c s
  end.

(** [strings.ContainsAny] for ASCII [chars]. *)
Definition contains_any (chars s : string) : bool :=
  negb (string_forallb (fun c => negb (contains_byte c chars)) s).

(** [strings.Count s sep] for a one-byte [sep]. *)
Fixpoint count_byte (c : ascii) (s : string) : nat :=
  match s with
  | EmptyString => 0
  | String d s => (if Ascii.eqb c d then 1 else 0) + count_byte c s
  end.

(** ** Slicing *)

Fixpoint stake (n : nat) (s : string) : string :=
  match n, s with
  | S n, String c s => String c (stake n s)
  | _, _ => EmptyString
  end.

Fixpoint sdrop (n : nat) (s : string) : string :=
  match n, s with
  | 0, _ => s
  | S n, String _ s => sdrop n s
  | S _, EmptyString => EmptyString
  end.

(** [s[a:b]]; the callers establish [a <= b <= len(s)]. *)
Definition slice (s : string) (a b : nat) : string := stake (b - a) (sdrop a s).

(** [s[i]] *)
Definition byte_at (s : string) (i : nat) : option ascii := String.get i s.

Definition last_byte (s : string) : option ascii := byte_at s (String.length s - 1).

Definition has_prefix (s p : string) : bool := String.prefix p s.

Definition has_suffix (s p : string) : bool :=
  (String.length p <=? String.length s) &&
  String.eqb (sdrop (String.length s - String.length p) s) p.

(** [strings.IndexByte], [None] for -1. *)
Fixpoint index_byte (c : ascii) (s : string) : option nat :=
  match s with
  | EmptyString => None
  | String d s => if Ascii.eqb c d then Some 0 else S <$> index_byte c s
  end.

(** [strings.LastIndexByte] *)
Fixpoint last_index_byte (c : ascii) (s : string) : option nat :=
  match s with
  | EmptyString => None
  | String d s =>
      match last_index_byte c s with
      | Some k => Some (S k)
      | None => if Ascii.eqb c d then Some 0 else None
      end
  end.

(** [strings.Split s sep] for a one-byte [sep]: always at least one element. *)
Fixpoint split_byte (c : ascii) (s : string) : list string :=
  match s with
  | EmptyString => [EmptyString]
  | String d s =>
      if Ascii.eqb c d then EmptyString :: split_byte c s
      else match split_byte c s with
           | piece :: rest => String d piece :: rest
           | [] => [String d EmptyString]
           end
  end.

(** [strings.Cut s sep]: before, after, found. *)
Definition cut_byte (c : ascii) (s : string) : string * string * bool :=
  match index_byte c s with
  | Some k => (stake k s, sdrop (S k) s, true)
  | None => (s, EmptyString, false)
  end.

(** [strings.Join] with a one-byte separator. *)
Fixpoint join_byte (c : ascii) (l : list string) : string :=
  match l with
  | [] => EmptyString
  | [s] => s
  | s :: l => s +:+ String c (join_byte c l)
  end.

(** ** Case mapping

    [strings.ToLower], [strings.ToUpper] and [strings.EqualFold] work byte by
    byte on ASCII strings; on other strings they consult the Unicode tables of
    the Go toolchain, which are an interface here. *)

Class Unicode := {
  unicode_to_lower : string → string;
  unicode_to_upper : string → string;
  unicode_equal_fold : string → string → bool;
}.

Definition to_upper_ascii (s : string) : string := string_map upper_byte s.
Definition to_lower_ascii (s : string) : string := string_map lower_byte s.

Definition to_lower `{Unicode} (s : string) : string :=
  if is_ascii s then to_lower_ascii s else unicode_to_lower s.

Definition to_upper `{Unicode} (s : string) : string :=
  if is_ascii s then to_upper_ascii s else unicode_to_upper s.

Definition equal_fold `{Unicode} (s t : string) : bool :=
  if is_ascii s && is_ascii t then String.eqb (to_lower_ascii s) (to_lower_ascii t)
  else unicode_equal_fold s t.

(** An instance without any non-ASCII case pairs, for concrete evaluations. *)
Definition ascii_only_unicode : Unicode :=
  {| unicode_to_lower := to_lower_ascii; unicode_to_upper := to_upper_ascii;
     unicode_equal_fold := String.eqb |}.

(** ** [strings.TrimSpace]: the UTF-8 encodings of [unicode.IsSpace] runes *)

Definition bytes (l : list N) : string := String.string_of_list_ascii (map ascii_of_N l).

Definition white_space : list string :=
  map bytes
    ([[9]; [10]; [11]; [12]; [13]; [32]; [194; 133]; [194; 160]; [225; 154; 128]] ++
     map (fun b => [226; 128; b]) [128; 129; 130; 131; 132; 133; 134; 135; 136; 137; 138] ++
     [[226; 128; 168]; [226; 128; 169]; [226; 128; 175]; [226; 129; 159]; [227; 128; 128]])%N.

(** Each round removes one whitespace rune; [length s] rounds remove them all. *)
Fixpoint trim_left_n (fuel : nat) (s : string) : string :=
  match fuel with
  | 0 => s
  | S fuel =>
      match list_find (fun w => has_prefix s w = true) white_space with
      | Some (_, w) => trim_left_n fuel (sdrop (String.length w) s)
      | None => s
      end
  end.

Fixpoint trim_right_n (fuel : nat) (s : string) : string :=
  match fuel with
  | 0 => s
  | S fuel =>
      match list_find (fun w => has_suffix s w = true) white_space with
      | Some (_, w) => trim_right_n fuel (stake (String.length s - String.length w) s)
      | None => s
      end
  end.

Definition trim_space (s : string) : string :=
  let s := trim_left_n (String.length s) s in trim_right_n (String.length s) s.

(** ** HTTP tokens and canonical header names ([net/textproto]) *)

Definition is_token_byte (c : ascii) : bool :=
  is_lower c || is_upper c || is_digit c || contains_byte c "!#$%&'*+-.^_`|~".

Fixpoint canonical_header_loop (upper : bool) (s : string) : string :=
  match s with
  | EmptyString => EmptyString
  | String c s =>
      let c := if upper then upper_byte c else lower_byte c in
      String c (canonical_header_loop (Ascii.eqb c "-") s)
  end.

(** [textproto.CanonicalMIMEHeaderKey]: a name with an invalid byte is returned
    unchanged. *)
Definition canonical_header_key (s : string) : string :=
  if string_forallb is_token_byte s then canonical_header_loop true s else s.

(** ** [url.QueryUnescape] *)

Definition unhex (c : ascii) : option N :=
  if is_digit c then Some (byte_val c - 48)%N
  else if byte_between "a" "f" c then Some (byte_val c - 87)%N
  else if byte_between "A" "F" c then Some (byte_val c - 55)%N
  else None.

Fixpoint query_unescape (s : string) : option string :=
  match s with
  | EmptyString => Some EmptyString
  | String "%" (String h (String l s)) =>
      match unhex h, unhex l with
      | Some h, Some l => String (ascii_of_N (16 * h + l)) <$> query_unescape s
      | _, _ => None
      end
  | String "%" _ => None
  | String c s =>
      String (if Ascii.eqb c "+" then " "%char else c) <$> query_unescape s
  end.

(** ** Slicing lemmas *)

#[global] Arguments String.append !_ _ / : simpl nomatch.

Lemma length_stake n s : String.length (stake n s) = n `min` String.length s.
Proof. revert s. induction n; intros []; simpl; auto. Qed.

Lemma length_sdrop n s : String.length (sdrop n s) = String.length s - n.
Proof. revert s. induction n; intros []; simpl; auto. Qed.

Lemma sdrop_sdrop n m s : sdrop n (sdrop m s) = sdrop (m + n) s.
Proof. revert s. induction m; intros []; simpl; auto. by destruct n. Qed.

Lemma sdrop_ge n s : String.length s ≤ n → sdrop n s = EmptyString.
Proof. revert s. induction n; intros []; simpl; auto with lia. Qed.

Lemma stake_ge n s : String.length s ≤ n → stake n s = s.
Proof. revert s. induction n; intros []; simpl; auto with lia. intros. f_equal. auto with lia. Qed.

Lemma stake_sdrop_app n s : stake n s +:+ sdrop n s = s.
Proof. revert s. induction n as [|n IH]; intros []; simpl; auto. by rewrite IH. Qed.

Lemma length_string_app s t : String.length (s +:+ t) = String.length s + String.length t.
Proof. induction s; simpl; auto. Qed.

Lemma sdrop_app s t : sdrop (String.length s) (s +:+ t) = t.
Proof. by induction s. Qed.

Lemma stake_app s t : stake (String.length s) (s +:+ t) = s.
Proof. induction s; simpl; [by destruct t|congruence]. Qed.

Lemma slice_to_end s a : slice s a (String.length s) = sdrop a s.
Proof. unfold slice. apply stake_ge. by rewrite length_sdrop. Qed.

Lemma length_slice s a b : b ≤ String.length s → String.length (slice s a b) = b - a.
Proof. intros. unfold slice. rewrite length_stake, length_sdrop. lia. Qed.

Lemma contains_byte_app c s t :
  contains_byte c (s +:+ t) = contains_byte c s || contains_byte c t.
Proof. induction s as [|d s IH]; simpl; [done|]. by rewrite IH, orb_assoc. Qed.

Lemma index_byte_none c s : index_byte c s = None ↔ contains_byte c s = false.
Proof.
  induction s as [|d s IH]; simpl; [done|].
  destruct (Ascii.eqb c d); simpl; [done|].
  rewrite <-IH. by destruct (index_byte c s).
Qed.

Lemma index_byte_some c s k :
  index_byte c s = Some k →
  k < String.length s ∧ contains_byte c (stake k s) = false ∧
  sdrop k s = String c (sdrop (S k) s).
Proof.
  revert k. induction s as [|d s IH]; intros k; simpl; [done|].
  destruct (Ascii.eqb_spec c d) as [->|Hne].
  - intros [= <-]. split_and!; [lia|done|done].
  - destruct (index_byte c s) as [j|]; [|done]. intros [= <-]; simpl.
    destruct (IH j eq_refl) as (?&?&?). split_and!; [lia| |done].
    apply orb_false_iff. split; [by apply Ascii.eqb_neq|done].
Qed.

Lemma index_byte_app c s t :
  contains_byte c s = false → index_byte c (s +:+ String c t) = Some (String.length s).
Proof.
  induction s as [|d s IH]; simpl; [by rewrite Ascii.eqb_refl|].
  rewrite orb_false_iff. intros [-> ?]. by rewrite IH.
Qed.

Lemma split_byte_no_sep c s : contains_byte c s = false → split_byte c s = [s].
Proof.
  induction s as [|d s IH]; simpl; [done|].
  rewrite orb_false_iff. intros [-> ?]. by rewrite IH.
Qed.

Lemma split_byte_app c s t :
  contains_byte c s = false → split_byte c (s +:+ String c t) = s :: split_byte c t.
Proof.
  induction s as [|d s IH]; simpl; [by rewrite Ascii.eqb_refl|].
  rewrite orb_false_iff. intros [-> ?]. by rewrite IH.
Qed.

(** One step of [strings.Split], as an index search followed by a slice. *)
Lemma split_byte_index c s :
  split_byte c s =
    match index_byte c s with
    | Some k => stake k s :: split_byte c (sdrop (S k) s)
    | None => [s]
    end.
Proof.
  destruct (index_byte c s) as [k|] eqn:E.
  - apply index_byte_some in E as (Hk&Hc&Hd).
    rewrite <-(stake_sdrop_app k s) at 1. rewrite Hd. by apply split_byte_app.
  - apply split_byte_no_sep. by apply index_byte_none.
Qed.

Lemma split_byte_nonempty c s : split_byte c s ≠ [].
Proof. rewrite split_byte_index. by destruct (index_byte c s). Qed.

Lemma split_byte_join c s t : split_byte c (s +:+ String c t) = split_byte c s ++ split_byte c t.
Proof.
  induction s as [|d s IH]; simpl; [by rewrite Ascii.eqb_refl|]. rewrite IH.
  destruct (Ascii.eqb c d); [done|]. destruct (split_byte c s) eqn:E; [by destruct (split_byte_nonempty _ _ E)|done].
Qed.

Lemma join_split_byte c s : join_byte c (split_byte c s) = s.
Proof.
  induction s as [|d s IH]; simpl; [done|].
  pose proof (split_byte_nonempty c s).
  destruct (Ascii.eqb_spec c d) as [->|?].
  - destruct (split_byte d s) eqn:E; [done|]. simpl in *. by rewrite <-IH.
  - destruct (split_byte c s) as [|p [|q r]] eqn:E; [done| |]; simpl in *; by rewrite <-IH.
Qed.

Lemma split_byte_pieces c s : Forall (fun p => contains_byte c p = false) (split_byte c s).
Proof.
  induction s as [|d s IH]; simpl; [by repeat constructor|].
  destruct (Ascii.eqb c d) eqn:E; [by constructor|].
  destruct IH; constructor; simpl; try done; by rewrite E.
Qed.

Lemma split_join_byte c l :
  l ≠ [] → Forall (fun s => contains_byte c s = false) l → split_byte c (join_byte c l) = l.
Proof.
  intros Hne Hl. induction Hl as [|s l Hs Hl IH]; [done|]. destruct l as [|t l].
  - by apply split_byte_no_sep.
  - cbn [join_byte]. rewrite split_byte_app by done. f_equal. by apply IH.
Qed.

Lemma length_split_byte c s : length (split_byte c s) = S (count_byte c s).
Proof.
  induction s as [|d s IH]; simpl; [done|].
  destruct (Ascii.eqb c d); simpl; [by rewrite IH|].
  destruct (split_byte c s); simpl in *; lia.
Qed.

Lemma has_prefix_spec s p : has_prefix s p = true ↔ ∃ t, s = p +:+ t.
Proof.
  unfold has_prefix. revert s. induction p as [|c p IH]; intros s; simpl.
  - split; [by eexists|by destruct s].
  - destruct s as [|d s]; simpl; [split; [done|by intros [? ?]]|].
    destruct (ascii_dec c d) as [->|Hne].
    + rewrite IH. split; intros [t Ht]; exists t; simpl in *; congruence.
    + split; [done|]. intros [? [=]]. congruence.
Qed.

Lemma has_suffix_spec s p : has_suffix s p = true ↔ ∃ t, s = t +:+ p.
Proof.
  unfold has_suffix. rewrite andb_true_iff, Nat.leb_le, String.eqb_eq. split.
  - intros [Hle Hd]. exists (stake (String.length s - String.length p) s).
    rewrite <-Hd at 2. by rewrite stake_sdrop_app.
  - intros [t ->]. rewrite length_string_app. split; [lia|].
    by replace (String.length t + String.length p - String.length p) with
      (String.length t) by lia; rewrite sdrop_app.
Qed.

Lemma string_forallb_app p s t : string_forallb p (s +:+ t) = string_forallb p s && string_forallb p t.
Proof. induction s as [|c s IH]; simpl; [done|]. by rewrite IH, andb_assoc. Qed.

Lemma string_forallb_forall p s :
  string_forallb p s = true ↔ ∀ i c, byte_at s i = Some c → p c = true.
Proof.
  unfold byte_at. induction s as [|d s IH]; simpl.
  - split; [by intros _ []|done].
  - rewrite andb_true_iff, IH. split.
    + intros [? H] [|i] c; [by intros [= <-]|]. apply H.
    + intros H. split; [by apply (H 0)|]. intros i. apply (H (S i)).
Qed.

Lemma string_app_nil_r s : s +:+ "" = s.
Proof. induction s; simpl; congruence. Qed.

Lemma string_app_assoc s t u : (s +:+ t) +:+ u = s +:+ (t +:+ u).
Proof. induction s; simpl; congruence. Qed.

Lemma sdrop_app_cons s c t : sdrop (S (String.length s)) (s +:+ String c t) = t.
Proof. by rewrite <-Nat.add_1_r, <-sdrop_sdrop, sdrop_app. Qed.

Lemma cut_byte_app c s t :
  contains_byte c s = false → cut_byte c (s +:+ String c t) = (s, t, true).
Proof.
  intros Hs. unfold cut_byte. by rewrite index_byte_app, stake_app, sdrop_app_cons by done.
Qed.
