(* ===== verification/Trim.v ===== *)
(** * Trimming and comma-separated lists

    [strings.TrimSpace] returns a string without white space at its ends and
    leaves such strings alone; joining trimmed parts with a comma and a space,
    splitting at commas and trimming gives the parts back. *)

From S2P Require Import Prelude GoStrings.
#[local] Open Scope string_scope.
#[local] Open Scope nat_scope.
#[local] Open Scope list_scope.

(** ** Trimmed strings *)

Definition trimmed_left (s : string) : Prop := Forall (fun w => has_prefix s w = false) white_space.
Definition trimmed_right (s : string) : Prop := Forall (fun w => has_suffix s w = false) white_space.

Lemma white_space_nonempty : Forall (fun w => 0 < String.length w) white_space.
Proof. repeat constructor; simpl; lia. Qed.

Lemma find_none (P : string → bool) : list_find (fun w => P w = true) white_space = None ↔ Forall (fun w => P w = false) white_space.
Proof.
  rewrite list_find_None. apply Forall_iff. intros w. by rewrite not_true_iff_false.
Qed.

Lemma find_some (P : string → bool) i w : list_find (fun w => P w = true) white_space = Some (i, w) → P w = true ∧ 0 < String.length w.
Proof.
  intros (Hi & HP & _)%list_find_Some. split; [done|]. exact (Forall_lookup_1 _ _ _ _ white_space_nonempty Hi).
Qed.

Lemma trim_left_n_drop fuel s : ∃ k, trim_left_n fuel s = sdrop k s.
Proof.
  revert s. induction fuel as [|fuel IH]; intros s; cbn [trim_left_n]; [by exists 0|].
  destruct (list_find (fun w => has_prefix s w = true) white_space) as [[i w]|]; [|by exists 0]. destruct (IH (sdrop (String.length w) s)) as [k ->].
  exists (String.length w + k). by rewrite sdrop_sdrop.
Qed.

Lemma trim_right_n_take fuel s : ∃ k, trim_right_n fuel s = stake k s.
Proof.
  revert s. induction fuel as [|fuel IH]; intros s; cbn [trim_right_n]; [exists (String.length s); by rewrite stake_ge|].
  destruct (list_find (fun w => has_suffix s w = true) white_space) as [[i w]|]; [|exists (String.length s); by rewrite stake_ge].
  destruct (IH (stake (String.length s - String.length w)%nat s)) as [k ->].
  exists (Nat.min k (String.length s - String.length w)%nat). generalize (String.length s - String.length w)%nat as n. clear. intros n.
  revert k n. induction s as [|c s IH]; intros [|k] [|n]; simpl; try done. by rewrite IH.
Qed.

Lemma trim_left_n_done fuel s : String.length s ≤ fuel → trimmed_left (trim_left_n fuel s).
Proof.
  revert s. induction fuel as [|fuel IH]; intros s Hs; cbn [trim_left_n].
  { destruct s; [|simpl in Hs; lia]. unfold trimmed_left. repeat constructor. }
  destruct (list_find (fun w => has_prefix s w = true) white_space) as [[i w]|] eqn:E; [|by apply (find_none (has_prefix s))].
  apply (find_some (has_prefix s)) in E as [Hp Hw]. apply IH. rewrite length_sdrop. lia.
Qed.

Lemma trim_right_n_done fuel s : String.length s ≤ fuel → trimmed_right (trim_right_n fuel s).
Proof.
  revert s. induction fuel as [|fuel IH]; intros s Hs; cbn [trim_right_n].
  { destruct s; [|simpl in Hs; lia]. unfold trimmed_right. repeat constructor. }
  destruct (list_find (fun w => has_suffix s w = true) white_space) as [[i w]|] eqn:E; [|by apply (find_none (has_suffix s))].
  apply (find_some (has_suffix s)) in E as [Hp Hw]. apply IH. rewrite length_stake.
  apply has_suffix_spec in Hp as [t ->]. rewrite length_string_app in *. lia.
Qed.

Lemma trimmed_left_stake k s : trimmed_left s → trimmed_left (stake k s).
Proof.
  intros Hs. eapply Forall_impl; [exact Hs|]. intros w Hw. apply not_true_iff_false. apply not_true_iff_false in Hw.
  intros [t Ht]%has_prefix_spec. apply Hw, has_prefix_spec. exists (t +:+ sdrop k s).
  by rewrite <-string_app_assoc, <-Ht, stake_sdrop_app.
Qed.

Definition trimmed (s : string) : Prop := trimmed_left s ∧ trimmed_right s.

Lemma trim_space_trimmed s : trimmed (trim_space s).
Proof.
  unfold trim_space. split; [|by apply trim_right_n_done].
  destruct (trim_right_n_take (String.length (trim_left_n (String.length s) s)) (trim_left_n (String.length s) s)) as [k ->].
  by apply trimmed_left_stake, trim_left_n_done.
Qed.

Lemma trim_left_n_id fuel s : trimmed_left s → trim_left_n fuel s = s.
Proof. intros Hs. destruct fuel; [done|]. cbn [trim_left_n]. by rewrite (proj2 (find_none (has_prefix s)) Hs). Qed.

Lemma trim_right_n_id fuel s : trimmed_right s → trim_right_n fuel s = s.
Proof. intros Hs. destruct fuel; [done|]. cbn [trim_right_n]. by rewrite (proj2 (find_none (has_suffix s)) Hs). Qed.

Lemma trim_space_id s : trimmed s → trim_space s = s.
Proof. intros [Hl Hr]. unfold trim_space. by rewrite (trim_left_n_id _ s), trim_right_n_id. Qed.

Lemma trimmed_iff s : trim_space s = s ↔ trimmed s.
Proof. split; [intros <-; apply trim_space_trimmed|apply trim_space_id]. Qed.

Lemma trim_space_idemp s : trim_space (trim_space s) = trim_space s.
Proof. apply trim_space_id, trim_space_trimmed. Qed.

(** A leading blank makes no difference. *)
Lemma trim_space_blank s : trim_space (String " " s) = trim_space s.
Proof.
  unfold trim_space. change (String.length (String " " s)) with (S (String.length s)).
  assert (trim_left_n (S (String.length s)) (String " " s) = trim_left_n (String.length s) s) as ->; [|done].
  cbn [trim_left_n]. assert (list_find (fun w => has_prefix (String " " s) w = true) white_space = Some (5, " ")) as -> by (by destruct s).
  done.
Qed.

(** Trimming does not bring bytes in. *)
Lemma contains_byte_stake c k s : contains_byte c s = false → contains_byte c (stake k s) = false.
Proof.
  revert k. induction s as [|d s IH]; intros [|k]; simpl; try done. destruct (Ascii.eqb c d); [done|]. apply IH.
Qed.

Lemma contains_byte_sdrop c k s : contains_byte c s = false → contains_byte c (sdrop k s) = false.
Proof.
  revert k. induction s as [|d s IH]; intros [|k]; simpl; try done. destruct (Ascii.eqb c d); [done|]. apply IH.
Qed.

Lemma contains_byte_trim c s : contains_byte c s = false → contains_byte c (trim_space s) = false.
Proof.
  intros Hs. unfold trim_space. destruct (trim_left_n_drop (String.length s) s) as [k ->].
  destruct (trim_right_n_take (String.length (sdrop k s)) (sdrop k s)) as [n ->].
  by apply contains_byte_stake, contains_byte_sdrop.
Qed.

(** ** Lists *)

(** [strings.Join(parts, ", ")] *)
Fixpoint join_comma (parts : list string) : string :=
  match parts with
  | [] => ""
  | [s] => s
  | s :: parts => s +:+ ", " +:+ join_comma parts
  end.

Lemma split_join_comma parts : Forall (fun p => contains_byte "," p = false ∧ trimmed p) parts → parts ≠ [] →
  trim_space <$> split_byte "," (join_comma parts) = parts.
Proof.
  intros Hall Hne. induction Hall as [|p parts [Hp Ht] Hall IH]; [done|]. clear Hne. destruct parts as [|q parts].
  - cbn [join_comma]. rewrite split_byte_no_sep by done. simpl. by rewrite trim_space_id.
  - change (join_comma (p :: q :: parts)) with (p +:+ String "," (String " " (join_comma (q :: parts)))).
    rewrite split_byte_app by done. rewrite fmap_cons, trim_space_id by done. f_equal.
    rewrite <-(IH ltac:(done)) at 2. generalize (join_comma (q :: parts)) as rest. intros rest.
    cbn [split_byte]. change (Ascii.eqb "," " ") with false. cbv iota.
    destruct (split_byte "," rest) as [|piece pieces] eqn:E; [by apply split_byte_nonempty in E|].
    by rewrite !fmap_cons, trim_space_blank.
Qed.
