(* ===== verification/NetAddr.v ===== *)
(** * Addresses: [net.SplitHostPort], [strconv.Atoi] and [netip.ParseAddr]

    The parts of the Go standard library that the router and the TLS selector
    call to recognise ports and IP literals, as executable definitions. *)

From stdpp Require Export pretty.
From S2P Require Import Prelude GoStrings.
#[local] Open Scope string_scope.
#[local] Open Scope nat_scope.
#[local] Open Scope list_scope.

(** ** [net.SplitHostPort] *)

Definition split_host_port (hostport : string) : option (string * string) :=
  match last_index_byte ":" hostport with
  | None => None
  | Some i =>
      let tail host j k :=
        if contains_byte "[" (sdrop j hostport) then None
        else if contains_byte "]" (sdrop k hostport) then None
        else Some (host, sdrop (S i) hostport) in
      if has_prefix hostport "[" then
        match index_byte "]" hostport with
        | None => None
        | Some end_ =>
            if Nat.eqb (S end_) i then tail (slice hostport 1 end_) 1 (S end_) else None
        end
      else
        let host := stake i hostport in
        if contains_byte ":" host then None else tail host 0 0
  end.

(** ** [strconv.Atoi] on a 64-bit platform *)

Fixpoint decimal_digits (acc : Z) (s : string) : option Z :=
  match s with
  | EmptyString => Some acc
  | String c s =>
      if is_digit c then decimal_digits (10 * acc + (Z.of_N (byte_val c) - 48))%Z s else None
  end.

Definition atoi (s : string) : option Z :=
  let '(negative, digits) :=
    match s with
    | String "+" t => (false, t)
    | String "-" t => (true, t)
    | _ => (false, s)
    end in
  match digits with
  | EmptyString => None
  | _ =>
      match decimal_digits 0 digits with
      | None => None
      | Some n =>
          let n := if negative then (- n)%Z else n in
          if (Z.leb (- 2 ^ 63) n && Z.ltb n (2 ^ 63))%Z then Some n else None
      end
  end.

(** ** [netip.ParseAddr] *)

Inductive addr :=
| Addr4 (fields : list N)
| Addr6 (octets : list N) (zone : string).

(** The loop of [parseIPv4Fields]: [prev_dot] is the guard on [s[i-1]] and on
    [i == 0], [digits] the digits of the current octet. *)
Fixpoint parse_ipv4_loop (s : string) (prev_dot : bool) (digits : nat) (val : N)
    (fields : list N) : option (list N) :=
  match s with
  | EmptyString => if length fields <? 3 then None else Some (fields ++ [val])
  | String c s =>
      if is_digit c then
        if Nat.eqb digits 1 && N.eqb val 0 then None
        else
          let val := (10 * val + (byte_val c - 48))%N in
          if (255 <? val)%N then None else parse_ipv4_loop s false (S digits) val fields
      else if Ascii.eqb c "." then
        if prev_dot || String.eqb s "" then None
        else if Nat.eqb (length fields) 3 then None
        else parse_ipv4_loop s true 0 0 (fields ++ [val])
      else None
  end.

Definition parse_ipv4_fields (s : string) : option (list N) := parse_ipv4_loop s true 0 0 [].

(** The hexadecimal group at the head of [s]: its value, its length and the
    rest; [None] when a fifth digit follows. *)
Fixpoint hex_group (s : string) (off : nat) (acc : N) : option (N * nat * string) :=
  match s with
  | EmptyString => Some (acc, off, s)
  | String c rest =>
      match unhex c with
      | Some d => if 3 <? off then None else hex_group rest (S off) (16 * acc + d)%N
      | None => Some (acc, off, s)
      end
  end.

(** The loop of [parseIPv6]; each round appends at least two octets, so the
    bound of 16 octets is reached within eight rounds. *)
Fixpoint parse_ipv6_loop (fuel : nat) (s : string) (octets : list N) (ellipsis : option nat)
    : option (string * list N * option nat) :=
  match fuel with
  | 0 => Some (s, octets, ellipsis)
  | S fuel =>
      match hex_group s 0 0 with
      | None => None
      | Some (_, 0, _) => None
      | Some (acc, _, rest) =>
          if has_prefix rest "." then
            if bool_decide (ellipsis = None) && negb (Nat.eqb (length octets) 12) then None
            else if 16 <? length octets + 4 then None
            else match parse_ipv4_fields s with
                 | None => None
                 | Some fields => Some ("", octets ++ fields, ellipsis)
                 end
          else
            let octets := octets ++ [N.div acc 256; N.modulo acc 256] in
            match rest with
            | EmptyString => Some ("", octets, ellipsis)
            | String ":" EmptyString => None
            | String ":" (String ":" more) =>
                match ellipsis with
                | Some _ => None
                | None =>
                    match more with
                    | EmptyString => Some ("", octets, Some (length octets))
                    | _ => parse_ipv6_loop fuel more octets (Some (length octets))
                    end
                end
            | String ":" more => parse_ipv6_loop fuel more octets ellipsis
            | _ => None
            end
      end
  end.

Definition parse_ipv6 (in_ : string) : option addr :=
  let split :=
    match index_byte "%" in_ with
    | None => Some (in_, "")
    | Some i => if String.eqb (sdrop (S i) in_) "" then None
                else Some (stake i in_, sdrop (S i) in_)
    end in
  match split with
  | None => None
  | Some (s, zone) =>
      let '(s, ellipsis) :=
        if has_prefix s "::" then (sdrop 2 s, Some 0) else (s, None) in
      if bool_decide (ellipsis = Some 0) && String.eqb s "" then
        Some (Addr6 (replicate 16 0%N) zone)
      else
        match parse_ipv6_loop 8 s [] ellipsis with
        | None => None
        | Some (rest, octets, ellipsis) =>
            if negb (String.eqb rest "") then None
            else if length octets <? 16 then
              match ellipsis with
              | None => None
              | Some at_ =>
                  Some (Addr6 (take at_ octets ++ replicate (16 - length octets) 0%N
                               ++ drop at_ octets) zone)
              end
            else match ellipsis with
                 | Some _ => None
                 | None => Some (Addr6 octets zone)
                 end
        end
  end.

(** [netip.ParseAddr]: the first of ['.'], [':'] and ['%'] decides the family. *)
Fixpoint parse_addr_scan (whole s : string) : option addr :=
  match s with
  | EmptyString => None
  | String c s =>
      if Ascii.eqb c "." then Addr4 <$> parse_ipv4_fields whole
      else if Ascii.eqb c ":" then parse_ipv6 whole
      else if Ascii.eqb c "%" then None
      else parse_addr_scan whole s
  end.

Definition parse_addr (s : string) : option addr := parse_addr_scan s s.

Example parse_addr_v4 : parse_addr "192.168.0.1" = Some (Addr4 [192; 168; 0; 1]%N).
Proof. reflexivity. Qed.
Example parse_addr_leading_zero : parse_addr "192.168.00.1" = None.
Proof. reflexivity. Qed.
Example parse_addr_v6 :
  parse_addr "fe80::1:2.3.4.5%eth0" =
    Some (Addr6 [254; 128; 0; 0; 0; 0; 0; 0; 0; 0; 0; 1; 2; 3; 4; 5]%N "eth0").
Proof. reflexivity. Qed.
Example parse_addr_v6_long : parse_addr "1:2:3:4:5:6:7:8:9" = None.
Proof. reflexivity. Qed.
Example split_host_port_v6 : split_host_port "[::1]:443" = Some ("::1", "443").
Proof. reflexivity. Qed.

(** ** [netip.Addr.Unmap] and [AppendTo] *)

(** The IPv4 address inside [::ffff:0:0/96]. *)
Definition addr_unmap (a : addr) : addr :=
  match a with
  | Addr6 octets _ =>
      if bool_decide (take 12 octets = replicate 10 0%N ++ [255%N; 255%N])
      then Addr4 (drop 12 octets) else a
  | Addr4 _ => a
  end.

Definition addr_zone (a : addr) : string := match a with Addr4 _ => "" | Addr6 _ zone => zone end.

Fixpoint groups16 (octets : list N) : list N :=
  match octets with
  | hi :: lo :: octets => (256 * hi + lo)%N :: groups16 octets
  | _ => []
  end.

Definition hex_digit_lower (n : N) : ascii :=
  if (n <? 10)%N then ascii_of_N (48 + n) else ascii_of_N (87 + n).

(** Lower-case hexadecimal without leading zeros, for 16-bit values. *)
Definition hex_string (n : N) : string :=
  let d3 := (n / 4096)%N in let d2 := (n / 256 mod 16)%N in
  let d1 := (n / 16 mod 16)%N in let d0 := (n mod 16)%N in
  let digits := hex_digit_lower <$> [d3; d2; d1; d0] in
  String.string_of_list_ascii
    (if (4096 <=? n)%N then digits
     else if (256 <=? n)%N then drop 1 digits
     else if (16 <=? n)%N then drop 2 digits
     else drop 3 digits).

(** The number of zero groups at the head of [groups]. *)
Fixpoint zero_run (groups : list N) : nat :=
  match groups with
  | 0%N :: groups => S (zero_run groups)
  | _ => 0
  end.

(** The first longest run of at least two zero groups: its start and end. *)
Fixpoint longest_zeros (fuel i : nat) (groups : list N) (best : option (nat * nat))
    : option (nat * nat) :=
  match fuel with
  | 0 => best
  | S fuel =>
      let run := zero_run (drop i groups) in
      let best_len := match best with Some (s, e) => e - s | None => 0 end in
      let best := if (2 <=? run) && (best_len <? run) then Some (i, i + run) else best in
      longest_zeros fuel (S i) groups best
  end.

Definition addr_string (a : addr) : string :=
  match a with
  | Addr4 fields => join_byte "." ((fun n => pretty n) <$> fields)
  | Addr6 octets zone =>
      let groups := groups16 octets in
      let hex l := join_byte ":" (hex_string <$> l) in
      let body :=
        match longest_zeros 8 0 groups None with
        | None => hex groups
        | Some (s, e) => hex (take s groups) +:+ "::" +:+ hex (drop e groups)
        end in
      if String.eqb zone "" then body else body +:+ "%" +:+ zone
  end.

Example addr_string_v6 :
  addr_string <$> parse_addr "2001:DB8:0:0:1:0:0:0" = Some "2001:db8:0:0:1::".
Proof. vm_compute. reflexivity. Qed.
Example addr_string_mapped :
  (addr_string ∘ addr_unmap) <$> parse_addr "::ffff:10.0.0.1" = Some "10.0.0.1".
Proof. vm_compute. reflexivity. Qed.
