(* ===== verification/Decimal.v ===== *)
(** * Decimal notation

    A number printed in decimal consists of digits only, is as long as its
    magnitude asks for, and is read back by the digit loop of
    [strconv.ParseInt], with or without leading zeros. *)

From S2P Require Import Prelude GoStrings NetAddr.
#[local] Open Scope string_scope.
#[local] Open Scope Z_scope.

Lemma byte_val_digit x : (x < 10)%N →
  is_digit (pretty_N_char x) = true ∧ Z.of_N (byte_val (pretty_N_char x)) = 48 + Z.of_N x.
Proof.
  intros Hx.
  assert (x = 0 ∨ x = 1 ∨ x = 2 ∨ x = 3 ∨ x = 4 ∨ x = 5 ∨ x = 6 ∨ x = 7 ∨ x = 8 ∨ x = 9)%N as Hcases by lia.
  repeat destruct Hcases as [->|Hcases]; try (by vm_compute). subst. by vm_compute.
Qed.

Lemma pretty_N_go_read x s : decimal_digits 0 (pretty_N_go x s) = decimal_digits (Z.of_N x) s.
Proof.
  revert s. induction (N.lt_wf_0 x) as [x _ IH]; intros s.
  destruct (decide (x = 0)%N) as [->|Hx]; [by rewrite pretty_N_go_0|].
  rewrite pretty_N_go_step by lia. rewrite IH by (apply N.div_lt; lia). cbn [decimal_digits].
  destruct (byte_val_digit (x mod 10)) as [-> ->]; [by apply N.mod_lt|]. f_equal.
  rewrite (N.div_mod x 10) at 3 by done. lia.
Qed.

Lemma pretty_N_go_digits x s : string_forallb is_digit (pretty_N_go x s) = string_forallb is_digit s.
Proof.
  revert s. induction (N.lt_wf_0 x) as [x _ IH]; intros s.
  destruct (decide (x = 0)%N) as [->|Hx]; [by rewrite pretty_N_go_0|].
  rewrite pretty_N_go_step by lia. rewrite IH by (apply N.div_lt; lia). simpl.
  by destruct (byte_val_digit (x mod 10)) as [-> _]; [apply N.mod_lt|].
Qed.

Lemma pretty_N_go_length k x s : (x < 10 ^ N.of_nat k)%N →
  (String.length (pretty_N_go x s) ≤ k + String.length s)%nat.
Proof.
  revert x s. induction k as [|k IH]; intros x s Hx.
  { replace x with 0%N by (simpl in Hx; lia). by rewrite pretty_N_go_0. }
  destruct (decide (x = 0)%N) as [->|Hx0]; [rewrite pretty_N_go_0; lia|].
  rewrite pretty_N_go_step by lia. etrans; [apply IH|simpl; lia].
  apply N.Div0.div_lt_upper_bound. by rewrite <-N.pow_succ_r', <-Nat2N.inj_succ.
Qed.

Lemma pretty_nonneg z : 0 ≤ z → pretty z = pretty (Z.to_N z).
Proof. by destruct z. Qed.

Lemma pretty_read z : 0 ≤ z → decimal_digits 0 (pretty z) = Some z.
Proof.
  intros Hz. rewrite pretty_nonneg by done. unfold pretty, pretty_N. case_decide as H0.
  - replace z with 0 by lia. done.
  - rewrite pretty_N_go_read. simpl. f_equal. lia.
Qed.

Lemma pretty_digits z : 0 ≤ z → string_forallb is_digit (pretty z) = true.
Proof.
  intros Hz. rewrite pretty_nonneg by done. unfold pretty, pretty_N. case_decide; [done|].
  by rewrite pretty_N_go_digits.
Qed.

Lemma pretty_length k z : 0 ≤ z < 10 ^ Z.of_nat k → (0 < k)%nat → (String.length (pretty z) ≤ k)%nat.
Proof.
  intros Hz Hk. rewrite pretty_nonneg by lia. unfold pretty, pretty_N. case_decide; [simpl; lia|].
  etrans; [apply (pretty_N_go_length k)|simpl; lia].
  apply N2Z.inj_lt. rewrite N2Z.inj_pow, Z2N.id by lia. rewrite nat_N_Z. simpl. lia.
Qed.

(** ** Leading zeros *)

Definition zeros (count : nat) : string := String.string_of_list_ascii (replicate count "0"%char).

Lemma decimal_digits_zeros k s : decimal_digits 0 (zeros k +:+ s) = decimal_digits 0 s.
Proof. induction k as [|k IH]; [done|]. exact IH. Qed.

Lemma zeros_digits k : string_forallb is_digit (zeros k) = true.
Proof. by induction k. Qed.

Lemma length_zeros k : String.length (zeros k) = k.
Proof. induction k as [|k IH]; [done|]. unfold zeros in *. simpl. by rewrite IH. Qed.
