(* ===== verification/Json.v ===== *)
(** * [encoding/json] for strings, integers, arrays and objects

    The fragment of [json.Marshal] that the route signature uses: HTML-escaped
    strings over arbitrary bytes, decimal integers, arrays and structs. *)

From stdpp Require Import pretty.
From S2P Require Import Prelude GoStrings.
#[local] Open Scope string_scope.
#[local] Open Scope nat_scope.
#[local] Open Scope list_scope.

Definition quote : ascii := ascii_of_N 34.
Definition quoted (s : string) : string := String quote (s +:+ String quote "").

Definition lower_hex (n : N) : ascii := ascii_of_N (if (n <? 10)%N then n + 48 else n + 87)%N.

(** [utf8.DecodeRuneInString] on a non-ASCII lead byte: the length of the
    encoding, or [None] for the invalid byte that decodes to [RuneError]. *)
Definition rune_length (lead : N) (tail : list N) : option nat :=
  let cont b := (128 <=? b)%N && (b <=? 191)%N in
  match tail with
  | b1 :: tail =>
      if (194 <=? lead)%N && (lead <=? 223)%N then if cont b1 then Some 2 else None
      else
        match tail with
        | b2 :: tail =>
            let lo := if (lead =? 224)%N then 160%N else 128%N in
            let hi := if (lead =? 237)%N then 159%N else 191%N in
            if (224 <=? lead)%N && (lead <=? 239)%N then
              if (lo <=? b1)%N && (b1 <=? hi)%N && cont b2 then Some 3 else None
            else
              match tail with
              | b3 :: _ =>
                  let lo := if (lead =? 240)%N then 144%N else 128%N in
                  let hi := if (lead =? 244)%N then 143%N else 191%N in
                  if (240 <=? lead)%N && (lead <=? 244)%N &&
                     (lo <=? b1)%N && (b1 <=? hi)%N && cont b2 && cont b3
                  then Some 4 else None
              | [] => None
              end
        | [] => None
        end
  | [] => None
  end.

Definition byte_values (s : string) : list N := byte_val <$> String.list_ascii_of_string s.

(** The escape of one ASCII byte, HTML-safe. *)
Definition json_ascii (c : ascii) : string :=
  let b := byte_val c in
  if Ascii.eqb c quote then String "\" (String quote "")
  else if Ascii.eqb c "\" then "\\"
  else if (b =? 8)%N then "\b"
  else if (b =? 12)%N then "\f"
  else if (b =? 10)%N then "\n"
  else if (b =? 13)%N then "\r"
  else if (b =? 9)%N then "\t"
  else if (b <? 32)%N || Ascii.eqb c "<" || Ascii.eqb c ">" || Ascii.eqb c "&" then
    "\u00" +:+ String (lower_hex (b / 16)) (String (lower_hex (b mod 16)) "")
  else String c "".

(** [skip] counts the continuation bytes of a rune already emitted. *)
Fixpoint json_body (s : string) (skip : nat) : string :=
  match s with
  | EmptyString => ""
  | String c rest =>
      match skip with
      | S skip => json_body rest skip
      | 0 =>
          if is_ascii_byte c then json_ascii c +:+ json_body rest 0
          else match rune_length (byte_val c) (byte_values (stake 3 rest)) with
               | None => "\" +:+ "ufffd" +:+ json_body rest 0
               | Some size =>
                   let rune := stake size s in
                   if String.eqb rune (bytes [226; 128; 168]%N) then "\" +:+ "u2028" +:+ json_body rest (size - 1)
                   else if String.eqb rune (bytes [226; 128; 169]%N) then "\" +:+ "u2029" +:+ json_body rest (size - 1)
                   else rune +:+ json_body rest (size - 1)
               end
      end
  end.

Definition json_string (s : string) : string := quoted (json_body s 0).

Definition json_int (n : Z) : string := pretty n.

Definition json_array (items : list string) : string := "[" +:+ join_byte "," items +:+ "]".

Definition json_object (fields : list (string * string)) : string :=
  "{" +:+ join_byte "," ((fun '(name, value) => quoted name +:+ ":" +:+ value) <$> fields) +:+ "}".

Example json_string_example :
  json_string (bytes [60; 34; 10; 195; 169; 255; 226; 128; 168]%N) =
    quoted ("\" +:+ "u003c" +:+ String "\" (String quote "") +:+ "\n" +:+ bytes [195; 169]%N +:+ "\" +:+ "ufffd" +:+ "\" +:+ "u2028").
Proof. reflexivity. Qed.
