(* ===== verification/Pattern.v ===== *)
(** * Path and host patterns ([internal/router/pattern.go])

    Compilation of route path patterns and host patterns, the positional path
    matcher, request-host normalisation, and their specifications: a path
    pattern matches exactly the segment lists its syntax denotes, the captured
    spans are slices of the request path, and a compiled host pattern accepts
    exactly the hosts the router's two host indexes find it under. *)

From S2P Require Import Prelude GoStrings NetAddr.
#[local] Open Scope string_scope.
#[local] Open Scope nat_scope.
#[local] Open Scope list_scope.

(** ** Data *)

Inductive segmentKind := segmentStatic | segmentParameter | segmentPrefix | segmentCatchAll.

#[global] Instance segmentKind_eq_dec : EqDecision segmentKind.
Proof. solve_decision. Defined.

Record pathSegment := mkSegment { seg_kind : segmentKind; seg_text : string }.

#[global] Instance pathSegment_eq_dec : EqDecision pathSegment.
Proof. solve_decision. Defined.

Record pathSpecificity := mkSpecificity {
  staticSegments : nat;
  path_kindRank : nat;
  segmentCount : nat;
  patternBytes : nat;
}.

Record compiledPathPattern := mkPath {
  path_raw : string;
  path_segments : list pathSegment;
  path_specificity : pathSpecificity;
  paramCount : nat;
}.

(** [requestctx.ParamSpan] *)
Record ParamSpan := mkSpan { span_name : string; span_start : nat; span_end : nat }.

#[global] Instance ParamSpan_eq_dec : EqDecision ParamSpan.
Proof. solve_decision. Defined.

Inductive patternError :=
| PathNotAbsolute
| PathHasQueryOrFragment
| PrefixNotFinal
| CatchAllNotFinal
| InvalidCatchAllName
| InvalidParameterName
| MixedAsterisk
| MisplacedBraces
| DuplicateParameter (name : string).

#[global] Instance patternError_eq_dec : EqDecision patternError.
Proof. solve_decision. Defined.

(** ** Compilation of path patterns *)

Definition name_start_byte (c : ascii) : bool := is_lower c || is_upper c || Ascii.eqb c "_".

Definition validParameterName (name : string) : bool :=
  match name with
  | EmptyString => false
  | String c rest =>
      name_start_byte c && string_forallb (fun d => name_start_byte d || is_digit d) rest
  end.

Definition braced (open raw : string) : bool :=
  has_prefix raw open && has_suffix raw "}" &&
  Nat.eqb (count_byte "{" raw) 1 && Nat.eqb (count_byte "}" raw) 1.

Definition compilePathSegment (raw : string) (final : bool) : result patternError pathSegment :=
  if String.eqb raw "*" then
    if negb final then Err PrefixNotFinal else Ok (mkSegment segmentPrefix "")
  else if braced "{*" raw then
    if negb final then Err CatchAllNotFinal
    else
      let name := slice raw 2 (String.length raw - 1) in
      if negb (validParameterName name) then Err InvalidCatchAllName
      else Ok (mkSegment segmentCatchAll name)
  else if braced "{" raw then
    let name := slice raw 1 (String.length raw - 1) in
    if negb (validParameterName name) then Err InvalidParameterName
    else Ok (mkSegment segmentParameter name)
  else if contains_byte "*" raw then Err MixedAsterisk
  else if contains_any "{}" raw then Err MisplacedBraces
  else Ok (mkSegment segmentStatic raw).

Definition add_segment (p : compiledPathPattern) (segment : pathSegment)
    (static rank params : nat) : compiledPathPattern :=
  {| path_raw := path_raw p;
     path_segments := path_segments p ++ [segment];
     path_specificity :=
       {| staticSegments := static;
          path_kindRank := rank;
          segmentCount := segmentCount (path_specificity p);
          patternBytes := patternBytes (path_specificity p) |};
     paramCount := params |}.

(** One iteration of the loop over the raw segments: the [switch segment.kind]. *)
Definition compileStep (p : compiledPathPattern) (names : gset string) (segment : pathSegment)
    : result patternError (compiledPathPattern * gset string) :=
  let static := staticSegments (path_specificity p) in
  let rank := path_kindRank (path_specificity p) in
  match seg_kind segment with
  | segmentStatic =>
      let static := if String.eqb (seg_text segment) "" then static else S static in
      Ok (add_segment p segment static rank (paramCount p), names)
  | segmentParameter | segmentCatchAll =>
      if bool_decide (seg_text segment ∈ names) then Err (DuplicateParameter (seg_text segment))
      else
        let rank :=
          match seg_kind segment with
          | segmentCatchAll => 1
          | _ => if 2 <? rank then 2 else rank
          end in
        Ok (add_segment p segment static rank (S (paramCount p)),
            {[ seg_text segment ]} ∪ names)
  | segmentPrefix => Ok (add_segment p segment static 1 (paramCount p), names)
  end.

Fixpoint compileSegments (raws : list string) (p : compiledPathPattern) (names : gset string)
    : result patternError compiledPathPattern :=
  match raws with
  | [] => Ok p
  | raw :: raws =>
      segment ← compilePathSegment raw (match raws with [] => true | _ => false end);
      '(p, names) ← compileStep p names segment;
      compileSegments raws p names
  end.

Definition compilePathPattern (pattern : string) : result patternError compiledPathPattern :=
  if negb (has_prefix pattern "/") then Err PathNotAbsolute
  else if contains_any "?#" pattern then Err PathHasQueryOrFragment
  else
    let rawSegments :=
      if String.eqb pattern "/" then [] else split_byte "/" (sdrop 1 pattern) in
    compileSegments rawSegments
      {| path_raw := pattern;
         path_segments := [];
         path_specificity :=
           {| staticSegments := 0; path_kindRank := 3;
              segmentCount := length rawSegments; patternBytes := String.length pattern |};
         paramCount := 0 |} ∅.

(** ** The positional matcher *)

(** [end]: the position of the next slash at or after [position], or the end. *)
Definition segmentEnd (path : string) (position : nat) : nat :=
  match index_byte "/" (sdrop position path) with
  | Some offset => position + offset
  | None => String.length path
  end.

Fixpoint matchSegments (path : string) (segments : list pathSegment) (position : nat)
    (params : list ParamSpan) : bool * list ParamSpan :=
  match segments with
  | [] => (false, [])
  | segment :: rest =>
      if String.length path <? position then (false, [])
      else match seg_kind segment with
      | segmentPrefix => (true, params)
      | segmentCatchAll =>
          (true, params ++ [mkSpan (seg_text segment) position (String.length path)])
      | kind =>
          let end_ := segmentEnd path position in
          let step :=
            match kind with
            | segmentStatic =>
                if String.eqb (slice path position end_) (seg_text segment)
                then Some params else None
            | _ =>
                if Nat.eqb end_ position then None
                else Some (params ++ [mkSpan (seg_text segment) position end_])
            end in
          match step with
          | None => (false, [])
          | Some params =>
              match rest with
              | [] =>
                  if Nat.eqb end_ (String.length path) then (true, params) else (false, params)
              | _ =>
                  if Nat.eqb end_ (String.length path) then (false, [])
                  else matchSegments path rest (S end_) params
              end
          end
      end
  end.

Definition pattern_match (p : compiledPathPattern) (path : string) : bool * list ParamSpan :=
  if negb (has_prefix path "/") then (false, [])
  else match path_segments p with
       | [] => (String.eqb path "/", [])
       | segments => matchSegments path segments 1 []
       end.

(** ** Hosts *)

Inductive hostPatternKind := hostPatternExact | hostPatternWildcard.

#[global] Instance hostPatternKind_eq_dec : EqDecision hostPatternKind.
Proof. solve_decision. Defined.

#[global] Instance hostPatternKind_countable : Countable hostPatternKind.
Proof.
  apply (inj_countable' (fun k => match k with hostPatternExact => true | _ => false end)
    (fun b : bool => if b then hostPatternExact else hostPatternWildcard)).
  by intros [].
Defined.

Record hostSpecificity := mkHostSpecificity { host_kindRank : nat; host_labels : nat }.

Record compiledHostPattern := mkHost {
  host_raw : string;
  host_kind : hostPatternKind;
  host_value : string;
  host_specificity : hostSpecificity;
}.

Inductive hostError :=
| HostEmptyOrPadded
| HostMalformed
| HostBadBracket
| HostBadPort
| HostEmptyLabel
| WildcardTooShort
| HostNotDNS.

#[global] Instance hostError_eq_dec : EqDecision hostError.
Proof. solve_decision. Defined.

Section Hosts.
Context `{Unicode}.

(** The authority without its port, before lower-casing. *)
Definition authorityHost (authority : string) : result hostError string :=
  let colonCount := count_byte ":" authority in
  if (1 <? colonCount) && negb (has_prefix authority "[") then
    match parse_addr authority with
    | None => Err HostMalformed
    | Some _ => Ok authority
    end
  else if has_prefix authority "[" || Nat.eqb colonCount 1 then
    match split_host_port authority with
    | None => Err HostMalformed
    | Some (parsedHost, port) =>
        if has_prefix authority "[" && bool_decide (parse_addr parsedHost = None)
        then Err HostBadBracket
        else match atoi port with
             | None => Err HostBadPort
             | Some number =>
                 if (number <? 0)%Z || (65535 <? number)%Z then Err HostBadPort
                 else Ok parsedHost
             end
    end
  else Ok authority.

Definition NormalizeRequestHost (authority : string) : result hostError string :=
  if String.eqb authority "" || negb (String.eqb (trim_space authority) authority)
  then Err HostEmptyOrPadded
  else
    host ← authorityHost authority;
    let host := to_lower host in
    let host :=
      if has_suffix host "." then stake (String.length host - 1) host else host in
    if String.eqb host "" || has_suffix host "." then Err HostEmptyLabel else Ok host.

Definition isASCIIAlphaNumeric (value : ascii) : bool :=
  is_lower value || is_upper value || is_digit value.

Definition validLabel (label : string) : bool :=
  negb (Nat.eqb (String.length label) 0) && (String.length label <=? 63) &&
  match byte_at label 0, last_byte label with
  | Some first, Some last => isASCIIAlphaNumeric first && isASCIIAlphaNumeric last
  | _, _ => false
  end &&
  string_forallb (fun c => isASCIIAlphaNumeric c || Ascii.eqb c "-")
    (slice label 1 (String.length label - 1)).

Definition validDNSName (host : string) : bool :=
  if Nat.eqb (String.length host) 0 || (253 <? String.length host) then false
  else forallb validLabel (split_byte "." host).

Definition compileHostPattern (pattern : string) : result hostError compiledHostPattern :=
  if has_prefix pattern "*." then
    suffix ← NormalizeRequestHost (sdrop 2 pattern);
    if negb (validDNSName suffix) || (count_byte "." suffix <? 1) then Err WildcardTooShort
    else Ok {| host_raw := pattern; host_kind := hostPatternWildcard; host_value := suffix;
               host_specificity :=
                 {| host_kindRank := 1; host_labels := count_byte "." suffix + 1 |} |}
  else
    host ← NormalizeRequestHost pattern;
    if negb (validDNSName host) then Err HostNotDNS
    else Ok {| host_raw := pattern; host_kind := hostPatternExact; host_value := host;
               host_specificity :=
                 {| host_kindRank := 2; host_labels := count_byte "." host + 1 |} |}.

Definition host_match (p : compiledHostPattern) (host : string) : bool :=
  match host_kind p with
  | hostPatternExact => String.eqb host (host_value p)
  | hostPatternWildcard =>
      (* suffixStart is a Go int: it is negative, hence <= 1, for a short host *)
      let suffixStart := String.length host - String.length (host_value p) in
      if (suffixStart <=? 1)
         || negb (String.eqb (sdrop suffixStart host) (host_value p))
         || negb (bool_decide (byte_at host (suffixStart - 1) = Some "."%char))
      then false
      else negb (contains_byte "." (stake (suffixStart - 1) host))
  end.
End Hosts.

(** ** Reference semantics of a path pattern

    A pattern denotes a relation between the segments of a request path and
    the bindings of its parameters: a static segment accepts itself, a
    parameter any non-empty segment, [*] any remaining segments and a
    catch-all binds them all. *)

Fixpoint segment_bindings (segments : list pathSegment) (pieces : list string)
    : option (list (string * string)) :=
  match segments, pieces with
  | [], [] => Some []
  | segment :: segments, piece :: rest =>
      match seg_kind segment with
      | segmentPrefix => Some []
      | segmentCatchAll => Some [(seg_text segment, join_byte "/" pieces)]
      | segmentStatic =>
          if String.eqb piece (seg_text segment) then segment_bindings segments rest else None
      | segmentParameter =>
          if String.eqb piece "" then None
          else cons (seg_text segment, piece) <$> segment_bindings segments rest
      end
  | _, _ => None
  end.

Definition path_reference (p : compiledPathPattern) (path : string)
    : option (list (string * string)) :=
  if has_prefix path "/" then
    match path_segments p with
    | [] => if String.eqb path "/" then Some [] else None
    | segments => segment_bindings segments (split_byte "/" (sdrop 1 path))
    end
  else None.

(** The bindings a list of spans denotes. *)
Definition captures (path : string) (spans : list ParamSpan) : list (string * string) :=
  (fun s => (span_name s, slice path (span_start s) (span_end s))) <$> spans.

Definition match_bindings (path : string) (m : bool * list ParamSpan)
    : option (list (string * string)) :=
  if fst m then Some (captures path (snd m)) else None.

(** ** Correctness of the matcher *)

Lemma segmentEnd_bounds path position :
  position ≤ String.length path → position ≤ segmentEnd path position ≤ String.length path.
Proof.
  intros Hp. unfold segmentEnd. destruct (index_byte "/" _) as [k|] eqn:E; [|lia].
  apply index_byte_some in E as (Hk&_&_). rewrite length_sdrop in Hk. lia.
Qed.

(** Splitting the rest of the path at [position]: its first segment ends at
    [segmentEnd], and the others start behind the slash there. *)
Lemma split_at_position path position :
  position ≤ String.length path →
  split_byte "/" (sdrop position path) =
    slice path position (segmentEnd path position) ::
    (if Nat.eqb (segmentEnd path position) (String.length path) then []
     else split_byte "/" (sdrop (S (segmentEnd path position)) path)).
Proof.
  intros Hp. rewrite split_byte_index. unfold segmentEnd.
  destruct (index_byte "/" (sdrop position path)) as [k|] eqn:E.
  - apply index_byte_some in E as (Hk&_&_). rewrite length_sdrop in Hk.
    destruct (Nat.eqb_spec (position + k) (String.length path)); [lia|].
    unfold slice. rewrite sdrop_sdrop.
    replace (position + k - position) with k by lia.
    by replace (position + S k) with (S (position + k)) by lia.
  - by rewrite Nat.eqb_refl, slice_to_end.
Qed.

Lemma captures_app path l1 l2 : captures path (l1 ++ l2) = captures path l1 ++ captures path l2.
Proof. apply fmap_app. Qed.

Lemma segment_bindings_nil pieces : pieces ≠ [] → segment_bindings [] pieces = None.
Proof. by destruct pieces. Qed.

Lemma matchSegments_spec path segments position params :
  segments ≠ [] → position ≤ String.length path →
  match_bindings path (matchSegments path segments position params) =
    (app (captures path params)) <$>
      segment_bindings segments (split_byte "/" (sdrop position path)).
Proof.
  revert position params.
  induction segments as [|segment rest IH]; intros position params Hne Hp; [done|].
  pose proof (segmentEnd_bounds path position Hp) as [Hlo Hhi].
  simpl. destruct (Nat.ltb_spec (String.length path) position) as [?|_]; [lia|].
  rewrite split_at_position by done. set (e := segmentEnd path position) in *.
  assert (Hrest : ∀ params',
    match_bindings path
      match rest with
      | [] => if Nat.eqb e (String.length path) then (true, params') else (false, params')
      | _ => if Nat.eqb e (String.length path) then (false, [])
             else matchSegments path rest (S e) params'
      end =
    app (captures path params') <$>
      segment_bindings rest
        (if Nat.eqb e (String.length path) then [] else split_byte "/" (sdrop (S e) path))).
  { intros params'. destruct rest as [|r rest'].
    - destruct (Nat.eqb_spec e (String.length path)).
      + unfold match_bindings. simpl. by rewrite app_nil_r.
      + rewrite segment_bindings_nil by apply split_byte_nonempty. done.
    - destruct (Nat.eqb_spec e (String.length path)).
      + done.
      + by rewrite IH by (done || lia). }
  destruct (seg_kind segment).
  - destruct (String.eqb (slice path position e) (seg_text segment)); [apply Hrest|done].
  - destruct (Nat.eqb_spec e position) as [->|Hepos].
    + unfold slice. by rewrite Nat.sub_diag.
    + assert (String.eqb (slice path position e) "" = false) as ->.
      { apply String.eqb_neq. intros Hs. apply (f_equal String.length) in Hs.
        rewrite length_slice in Hs by lia. simpl in Hs. lia. }
      rewrite Hrest, captures_app. destruct (segment_bindings rest _); simpl; [|done].
      by rewrite <-(assoc app).
  - unfold match_bindings. simpl. by rewrite app_nil_r.
  - pose proof (join_split_byte "/" (sdrop position path)) as Hj.
    rewrite split_at_position in Hj by done. fold e in Hj.
    unfold match_bindings. cbn -[join_byte slice Nat.eqb captures split_byte sdrop]. rewrite Hj, captures_app. simpl.
    by rewrite slice_to_end.
Qed.

(** the positional matcher agrees with the reference semantics of patterns:
    it accepts a path exactly when the pattern's segments accept the path's
    segments, and its spans slice out the bound segments. *)
Theorem pattern_match_reference p path :
  match_bindings path (pattern_match p path) = path_reference p path.
Proof.
  unfold pattern_match, path_reference.
  destruct (has_prefix path "/") eqn:E; cbn [negb]; [|done].
  destruct (path_segments p) as [|s segs] eqn:Es.
  - by destruct (String.eqb path "/").
  - rewrite matchSegments_spec; [by destruct (segment_bindings _ _)|done|].
    apply has_prefix_spec in E as [t ->]. simpl. lia.
Qed.

(** ** Captured spans *)

Definition span_ok (path : string) (s : ParamSpan) : Prop :=
  1 ≤ span_start s ≤ span_end s ∧ span_end s ≤ String.length path.

Lemma matchSegments_spans path segments position params :
  1 ≤ position → Forall (span_ok path) params →
  Forall (span_ok path) (snd (matchSegments path segments position params)).
Proof.
  revert position params.
  induction segments as [|segment rest IH]; intros position params Hp Hok; [done|].
  simpl. destruct (Nat.ltb_spec (String.length path) position) as [?|Hle]; [done|].
  pose proof (segmentEnd_bounds path position Hle) as [Hlo Hhi].
  set (e := segmentEnd path position) in *.
  assert (Hrest : ∀ params', Forall (span_ok path) params' →
    Forall (span_ok path)
      (snd match rest with
       | [] => if Nat.eqb e (String.length path) then (true, params') else (false, params')
       | _ => if Nat.eqb e (String.length path) then (false, [])
              else matchSegments path rest (S e) params'
       end)).
  { intros params' Hok'. destruct rest; destruct (Nat.eqb e _); simpl; auto.
    by apply IH; [lia|]. }
  assert (Hsnoc : ∀ name e', position ≤ e' ≤ String.length path →
    Forall (span_ok path) (params ++ [mkSpan name position e'])).
  { intros. apply Forall_app. split; [done|]. repeat constructor; simpl; lia. }
  destruct (seg_kind segment); simpl; auto.
  - destruct (String.eqb _ _); auto.
  - destruct (Nat.eqb e position); auto.
Qed.

(** ** The printed form of a compiled pattern *)

Definition segment_source (segment : pathSegment) : string :=
  match seg_kind segment with
  | segmentStatic => seg_text segment
  | segmentParameter => "{" +:+ seg_text segment +:+ "}"
  | segmentPrefix => "*"
  | segmentCatchAll => "{*" +:+ seg_text segment +:+ "}"
  end.

Definition pattern_source (segments : list pathSegment) : string :=
  "/" +:+ join_byte "/" (segment_source <$> segments).

Lemma slice_between a s b :
  slice (a +:+ s +:+ b) (String.length a) (String.length (a +:+ s +:+ b) - String.length b) = s.
Proof.
  unfold slice. rewrite sdrop_app, !length_string_app.
  replace (_ - _ - _) with (String.length s) by lia. apply stake_app.
Qed.

Lemma has_suffix_app_r a t p :
  String.length p ≤ String.length t → has_suffix (a +:+ t) p = has_suffix t p.
Proof.
  intros Hlen. unfold has_suffix. rewrite length_string_app.
  replace (String.length a + String.length t - String.length p)
    with (String.length a + (String.length t - String.length p)) by lia.
  rewrite <-sdrop_sdrop, sdrop_app. f_equal.
  rewrite (proj2 (Nat.leb_le _ _)), (proj2 (Nat.leb_le _ _)); [done|lia|lia].
Qed.

Lemma braced_split open raw :
  has_suffix open "}" = false → braced open raw = true → ∃ name, raw = open +:+ name +:+ "}".
Proof.
  intros Hopen Hb. unfold braced in Hb. bool_hyps.
  match goal with H : has_prefix _ _ = true |- _ => apply has_prefix_spec in H as [t ->] end.
  destruct t as [|c t]; [rewrite string_app_nil_r in *; congruence|].
  match goal with H : has_suffix _ _ = true |- _ =>
    rewrite has_suffix_app_r in H by (simpl; lia); apply has_suffix_spec in H as [name ->] end.
  by exists name.
Qed.

Lemma compilePathSegment_source raw final segment :
  compilePathSegment raw final = Ok segment → segment_source segment = raw.
Proof.
  unfold compilePathSegment, segment_source. intros Hc.
  destruct (String.eqb_spec raw "*") as [->|_].
  { destruct final; simpl in Hc; by inv_ok. }
  destruct (braced "{*" raw) eqn:Hb.
  { apply braced_split in Hb as [name ->]; [|done].
    destruct final; cbn [negb] in Hc; [|done].
    assert (Hs : slice ("{*" +:+ name +:+ "}") 2
              (String.length ("{*" +:+ name +:+ "}") - 1) = name)
      by apply (slice_between "{*" name "}").
    rewrite Hs in Hc.
    destruct (validParameterName name); simpl in Hc; by inv_ok. }
  clear Hb. destruct (braced "{" raw) eqn:Hb.
  { apply braced_split in Hb as [name ->]; [|done].
    assert (Hs : slice ("{" +:+ name +:+ "}") 1
              (String.length ("{" +:+ name +:+ "}") - 1) = name)
      by apply (slice_between "{" name "}").
    rewrite Hs in Hc.
    destruct (validParameterName name); simpl in Hc; by inv_ok. }
  destruct (contains_byte "*" raw); [done|]. destruct (contains_any _ _); by inv_ok.
Qed.

(** What one accepted segment adds to the accumulated pattern. *)
Lemma compileStep_segments p names segment p' names' :
  compileStep p names segment = Ok (p', names') →
  path_segments p' = path_segments p ++ [segment] ∧ path_raw p' = path_raw p.
Proof.
  unfold compileStep. intros Hs.
  destruct (seg_kind segment); try (case_bool_decide; [done|]); by inv_ok.
Qed.

Lemma compileSegments_source raws p names c :
  compileSegments raws p names = Ok c →
  path_raw c = path_raw p ∧
  ∃ segments, path_segments c = path_segments p ++ segments ∧
              segment_source <$> segments = raws.
Proof.
  revert p names. induction raws as [|raw raws IH]; intros p names Hc; simpl in Hc.
  { inv_ok. split; [done|]. exists []. by rewrite app_nil_r. }
  inv_ok. destruct x0 as [p' names'].
  apply IH in Hc as (Hraw & segments & Hsegs & Hsrc).
  match goal with H : compileStep _ _ _ = _ |- _ =>
    apply compileStep_segments in H as [Hp' Hr'] end.
  split; [congruence|]. exists (x :: segments). rewrite Hsegs, Hp', <-(assoc app). split; [done|].
  simpl. f_equal; [by eapply compilePathSegment_source|done].
Qed.

Lemma compilePathPattern_source pattern c :
  compilePathPattern pattern = Ok c →
  path_raw c = pattern ∧ pattern_source (path_segments c) = pattern.
Proof.
  unfold compilePathPattern. destruct (has_prefix pattern "/") eqn:Hp; simpl; [|done].
  destruct (contains_any _ _); [done|]. intros Hc.
  apply compileSegments_source in Hc as (Hraw & segments & Hsegs & Hsrc).
  split; [done|]. simpl in Hsegs. rewrite Hsegs. unfold pattern_source. rewrite Hsrc.
  destruct (String.eqb_spec pattern "/") as [->|_]; [done|].
  rewrite join_split_byte. by apply has_prefix_spec in Hp as [t ->].
Qed.

(** ** Well-formed compiled patterns *)

Definition is_wild (s : pathSegment) : bool :=
  match seg_kind s with segmentPrefix | segmentCatchAll => true | _ => false end.

(** [*] and catch-alls occur in the last position only. *)
Fixpoint wild_final (segments : list pathSegment) : bool :=
  match segments with
  | [] => true
  | s :: rest => (negb (is_wild s) || bool_decide (rest = [])) && wild_final rest
  end.

Definition binds (s : pathSegment) : bool :=
  match seg_kind s with segmentParameter | segmentCatchAll => true | _ => false end.

Definition param_names (segments : list pathSegment) : list string :=
  seg_text <$> filter (fun s => binds s = true) segments.

Definition counts_static (s : pathSegment) : bool :=
  match seg_kind s with segmentStatic => negb (String.eqb (seg_text s) "") | _ => false end.

Definition static_count (segments : list pathSegment) : nat :=
  length (filter (fun s => counts_static s = true) segments).

(** 3 for an exact pattern, 2 with parameters, 1 with a wildcard tail. *)
Definition kind_rank (segments : list pathSegment) : nat :=
  if existsb is_wild segments then 1 else if existsb binds segments then 2 else 3.

Record pattern_wf (c : compiledPathPattern) : Prop := {
  wf_wild : wild_final (path_segments c) = true;
  wf_names : NoDup (param_names (path_segments c));
  wf_params : paramCount c = length (param_names (path_segments c));
  wf_static : staticSegments (path_specificity c) = static_count (path_segments c);
  wf_rank : path_kindRank (path_specificity c) = kind_rank (path_segments c);
  wf_count : segmentCount (path_specificity c) = length (path_segments c);
  wf_bytes : patternBytes (path_specificity c) = String.length (path_raw c);
}.

(** The invariant of the compilation loop: the counters describe the segments
    accepted so far and [names] their parameter names. *)
Record partial_wf (p : compiledPathPattern) (names : gset string) : Prop := {
  pw_names : NoDup (param_names (path_segments p));
  pw_set : ∀ n, n ∈ names ↔ n ∈ param_names (path_segments p);
  pw_params : paramCount p = length (param_names (path_segments p));
  pw_static : staticSegments (path_specificity p) = static_count (path_segments p);
  pw_rank : path_kindRank (path_specificity p) = kind_rank (path_segments p);
}.

Lemma existsb_snoc {A} (f : A → bool) l x : existsb f (l ++ [x]) = existsb f l || f x.
Proof. rewrite existsb_app. simpl. by rewrite orb_false_r. Qed.

Lemma param_names_snoc l s :
  param_names (l ++ [s]) = param_names l ++ (if binds s then [seg_text s] else []).
Proof.
  unfold param_names. rewrite filter_app, fmap_app. f_equal.
  rewrite filter_cons. case_decide as Hb; destruct (binds s); congruence || done.
Qed.

Lemma static_count_snoc l s :
  static_count (l ++ [s]) = static_count l + (if counts_static s then 1 else 0).
Proof.
  unfold static_count. rewrite filter_app, length_app. f_equal.
  rewrite filter_cons. case_decide as Hb; destruct (counts_static s); congruence || done.
Qed.

Lemma kind_rank_snoc l s :
  kind_rank (l ++ [s]) =
    if is_wild s then 1 else if binds s then kind_rank l `min` 2 else kind_rank l.
Proof.
  unfold kind_rank. rewrite !existsb_snoc.
  destruct (existsb is_wild l), (existsb binds l), (is_wild s), (binds s); done.
Qed.

Lemma compileStep_partial p names segment p' names' :
  partial_wf p names → compileStep p names segment = Ok (p', names') → partial_wf p' names'.
Proof.
  intros [Hn Hset Hp Hs Hr] Hc. unfold compileStep in Hc.
  assert (Hrank : kind_rank (path_segments p) ≤ 3) by (unfold kind_rank; repeat case_scrutinee; lia).
  destruct (seg_kind segment) eqn:Hk; try (case_bool_decide as Hin; [done|]); inv_ok.
  all: assert (Hb : binds segment = match seg_kind segment with
             segmentParameter | segmentCatchAll => true | _ => false end) by done.
  all: constructor; simpl; rewrite ?param_names_snoc, ?static_count_snoc, ?kind_rank_snoc;
       unfold binds, is_wild, counts_static; rewrite ?Hk, ?app_nil_r, ?Nat.add_0_r; auto.
  all: try (destruct (String.eqb (seg_text segment) ""); simpl; lia).
  all: try (apply NoDup_app; split_and!; [done| |by apply NoDup_singleton];
            intros n Hx ->%list_elem_of_singleton; by apply Hin, Hset).
  all: try (intros n; rewrite elem_of_app, list_elem_of_singleton, elem_of_union,
            elem_of_singleton, Hset; tauto).
  all: rewrite ?length_app; simpl; try lia.
  rewrite Hr. destruct (2 <? kind_rank _) eqn:E; bool_hyps; lia.
Qed.

Lemma compilePathSegment_final raw segment :
  compilePathSegment raw false = Ok segment → is_wild segment = false.
Proof.
  unfold compilePathSegment. intros Hc.
  repeat (case_scrutinee_in Hc; try discriminate Hc); by inv_ok.
Qed.

Lemma compileSegments_partial raws p names c :
  partial_wf p names → compileSegments raws p names = Ok c →
  (∃ names', partial_wf c names') ∧
  path_specificity c = {| staticSegments := staticSegments (path_specificity c);
                          path_kindRank := path_kindRank (path_specificity c);
                          segmentCount := segmentCount (path_specificity p);
                          patternBytes := patternBytes (path_specificity p) |} ∧
  ∃ segments, path_segments c = path_segments p ++ segments ∧ wild_final segments = true
              ∧ length segments = length raws.
Proof.
  revert p names. induction raws as [|raw raws IH]; intros p names Hw Hc; simpl in Hc.
  { inv_ok. split_and!; [by eauto|by destruct (path_specificity c)|].
    exists []. by rewrite app_nil_r. }
  inv_ok. destruct x0 as [p' names'].
  assert (Hkeep : segmentCount (path_specificity p') = segmentCount (path_specificity p) ∧
                  patternBytes (path_specificity p') = patternBytes (path_specificity p)).
  { match goal with H : compileStep _ _ _ = _ |- _ => revert H; clear end.
    unfold compileStep. destruct (seg_kind x); try case_bool_decide; intros; by inv_ok. }
  destruct Hkeep as [Hk1 Hk2]. rewrite <-Hk1, <-Hk2.
  match goal with H : compileStep _ _ _ = _ |- _ =>
    pose proof (compileStep_partial _ _ _ _ _ Hw H) as Hw';
    apply compileStep_segments in H as [Hp' _] end.
  destruct (IH _ _ Hw' Hc) as (? & ? & segments & Hsegs & Hwild & Hlen).
  split_and!; [done|done|]. exists (x :: segments).
  rewrite Hsegs, Hp', <-(assoc app). split_and!; [done| |by simpl; rewrite Hlen].
  simpl. rewrite Hwild, andb_true_r.
  destruct raws as [|raw' raws].
  - destruct segments; [|done]. by rewrite orb_true_r.
  - match goal with H : compilePathSegment _ _ = _ |- _ =>
      apply compilePathSegment_final in H as -> end. done.
Qed.

Lemma compilePathPattern_wf pattern c : compilePathPattern pattern = Ok c → pattern_wf c.
Proof.
  intros Hc. pose proof (compilePathPattern_source _ _ Hc) as [Hraw _].
  unfold compilePathPattern in Hc. destruct (negb _); [done|]. destruct (contains_any _ _); [done|].
  apply compileSegments_partial in Hc as ((names & Hw) & Hspec & segments & Hsegs & Hwild & Hlen).
  2: { constructor; simpl; [constructor|set_solver|done|done|done]. }
  simpl in Hspec, Hsegs. destruct Hw. constructor; try done.
  - by rewrite Hsegs.
  - by rewrite Hspec, Hsegs, Hlen.
  - by rewrite Hspec, Hraw.
Qed.

(** a compiled path pattern prints back to the source it was compiled from,
    so no two sources compile to the same segments. *)
Theorem compilePathPattern_roundtrip pattern c :
  compilePathPattern pattern = Ok c →
  path_raw c = pattern ∧ pattern_source (path_segments c) = pattern.
Proof. apply compilePathPattern_source. Qed.

(** a compiled path pattern is well formed: wildcards come last, parameter
    names are distinct, and the specificity counters that decide precedence
    describe its segments. *)
Theorem compilePathPattern_well_formed pattern c :
  compilePathPattern pattern = Ok c → pattern_wf c.
Proof. apply compilePathPattern_wf. Qed.

Lemma param_names_cons s rest :
  param_names (s :: rest) = (if binds s then [seg_text s] else []) ++ param_names rest.
Proof.
  unfold param_names. rewrite filter_cons. case_decide as Hb; destruct (binds s); congruence || done.
Qed.

Lemma matchSegments_names path segments position params spans :
  wild_final segments = true →
  matchSegments path segments position params = (true, spans) →
  span_name <$> spans = (span_name <$> params) ++ param_names segments.
Proof.
  revert position params.
  induction segments as [|[k t] rest IH]; intros position params Hw; [done|].
  rewrite param_names_cons. simpl in Hw |- *. unfold binds, is_wild in *. simpl in *.
  destruct (_ <? position); [done|]. set (e := segmentEnd path position).
  assert (Hrest : ∀ params',
    match rest with
    | [] => if Nat.eqb e (String.length path) then (true, params') else (false, params')
    | _ => if Nat.eqb e (String.length path) then (false, [])
           else matchSegments path rest (S e) params'
    end = (true, spans) →
    span_name <$> spans = (span_name <$> params') ++ param_names rest).
  { intros params'. bool_hyps. destruct rest as [|x rest].
    - destruct (Nat.eqb _ _); [|done]. intros [= ->]. by rewrite app_nil_r.
    - destruct (Nat.eqb _ _); [done|]. by apply IH. }
  destruct k; simpl in *.
  - destruct (String.eqb _ t); [apply Hrest|done].
  - destruct (Nat.eqb e position); [done|]. intros Hm%Hrest. rewrite Hm, fmap_app.
    by rewrite <-(assoc app).
  - bool_hyps. subst rest. intros [= <-]. by rewrite app_nil_r.
  - bool_hyps. subst rest. intros [= <-]. by rewrite fmap_app.
Qed.

(** a match captures one span per parameter of the pattern, in order and
    under its name, and every span lies within the request path. *)
Theorem pattern_match_spans pattern p path spans :
  compilePathPattern pattern = Ok p → pattern_match p path = (true, spans) →
  Forall (span_ok path) spans ∧ span_name <$> spans = param_names (path_segments p) ∧
  length spans = paramCount p.
Proof.
  intros Hc Hm. apply compilePathPattern_wf in Hc as [Hw _ Hp _ _ _ _].
  assert (Hn : span_name <$> spans = param_names (path_segments p)).
  { unfold pattern_match in Hm. destruct (negb _); [done|].
    destruct (path_segments p) as [|s rest]; [by injection Hm as _ <-|].
    by apply matchSegments_names in Hm. }
  split_and!; [|done|by rewrite Hp, <-Hn, length_fmap].
  unfold pattern_match in Hm. destruct (negb _); [done|].
  destruct (path_segments p) as [|s rest]; [injection Hm as _ <-; constructor|].
  pose proof (matchSegments_spans path (s :: rest) 1 []) as Hs. rewrite Hm in Hs.
  apply Hs; [lia|constructor].
Qed.

(** ** Host lookup

    The router finds a wildcard pattern by the part of the host behind its
    first dot; that is exactly the set of hosts the pattern matches. *)

Definition wildcard_suffix (host : string) : option string :=
  match index_byte "." host with
  | Some separator => if 0 <? separator then Some (sdrop (S separator) host) else None
  | None => None
  end.

Lemma byte_at_sdrop s k c : byte_at s k = Some c ↔ sdrop k s = String c (sdrop (S k) s).
Proof.
  unfold byte_at. revert k. induction s as [|d s IH]; intros [|k]; simpl; try (split; congruence).
  apply IH.
Qed.

Lemma wildcard_suffix_spec host suffix :
  wildcard_suffix host = Some suffix ↔
  ∃ label, host = label +:+ String "." suffix ∧ label ≠ "" ∧ contains_byte "." label = false.
Proof.
  unfold wildcard_suffix. split.
  - destruct (index_byte "." host) as [k|] eqn:E; [|done].
    apply index_byte_some in E as (Hk & Hc & Hd).
    destruct (Nat.ltb_spec 0 k) as [Hpos|_]; [|done]. intros [= <-].
    exists (stake k host). split_and!; [|intros Hs|done].
    + rewrite <-(stake_sdrop_app k host) at 1. by rewrite Hd.
    + apply (f_equal String.length) in Hs. rewrite length_stake in Hs. simpl in Hs. lia.
  - intros (label & -> & Hne & Hc). rewrite index_byte_app by done.
    destruct label as [|c label]; [done|]. cbn [String.length Nat.ltb Nat.leb]. f_equal.
    rewrite <-Nat.add_1_r, <-sdrop_sdrop.
    change (S (String.length label)) with (String.length (String c label)).
    by rewrite sdrop_app.
Qed.

Lemma host_match_wildcard p host :
  host_kind p = hostPatternWildcard →
  host_match p host = bool_decide (wildcard_suffix host = Some (host_value p)).
Proof.
  intros Hk. unfold host_match. rewrite Hk. apply eq_true_iff_eq.
  rewrite bool_decide_eq_true, wildcard_suffix_spec.
  set (n := String.length host - String.length (host_value p)). split.
  - destruct (_ || _) eqn:E; [done|]. intros Hc. bool_hyps.
    apply String.eqb_eq in H1. apply byte_at_sdrop in H0.
    replace (S (n - 1)) with n in H0 by lia. rewrite H1 in H0.
    exists (stake (n - 1) host). split_and!; [by rewrite <-H0, stake_sdrop_app| |done].
    intros Hs. apply (f_equal String.length) in Hs. rewrite length_stake in Hs. simpl in Hs. lia.
  - intros (label & Hh & Hne & Hc).
    assert (Hn : n = S (String.length label)).
    { unfold n. rewrite Hh, length_string_app. simpl. lia. }
    assert (Hl : 0 < String.length label) by (destruct label; [done|simpl; lia]).
    rewrite Hn, Hh. replace (S (String.length label) - 1) with (String.length label) by lia.
    rewrite stake_app, Hc.
    rewrite (proj2 (Nat.leb_gt _ _)) by lia.
    rewrite <-Nat.add_1_r, <-sdrop_sdrop, sdrop_app. simpl.
    rewrite String.eqb_refl, bool_decide_eq_true_2; [done|].
    apply byte_at_sdrop. by rewrite <-Nat.add_1_r, <-sdrop_sdrop, sdrop_app.
Qed.

(** ** Instances at concrete patterns *)

Definition demo_pattern : string := "/users/{id}/files/{*rest}".

Lemma compilePathPattern_roundtrip_witness :
  match compilePathPattern demo_pattern with
  | Ok c => path_raw c = demo_pattern ∧ pattern_source (path_segments c) = demo_pattern
  | Err _ => False
  end.
Proof.
  destruct (compilePathPattern demo_pattern) as [c|] eqn:Hc; [|vm_compute in Hc; discriminate Hc].
  exact (compilePathPattern_roundtrip demo_pattern c Hc).
Defined.

Lemma compilePathPattern_well_formed_witness :
  match compilePathPattern demo_pattern with Ok c => pattern_wf c | Err _ => False end.
Proof.
  destruct (compilePathPattern demo_pattern) as [c|] eqn:Hc; [|vm_compute in Hc; discriminate Hc].
  exact (compilePathPattern_well_formed demo_pattern c Hc).
Defined.

Lemma pattern_match_spans_witness :
  match compilePathPattern demo_pattern with
  | Ok c =>
      match pattern_match c "/users/7/files/a/b" with
      | (true, spans) =>
          Forall (span_ok "/users/7/files/a/b") spans ∧
          span_name <$> spans = param_names (path_segments c) ∧ length spans = paramCount c
      | (false, _) => False
      end
  | Err _ => False
  end.
Proof.
  destruct (compilePathPattern demo_pattern) as [c|] eqn:Hc; [|vm_compute in Hc; discriminate Hc].
  destruct (pattern_match c "/users/7/files/a/b") as [[] spans] eqn:Hm.
  - exact (pattern_match_spans demo_pattern c _ spans Hc Hm).
  - vm_compute in Hc. injection Hc as <-. vm_compute in Hm. discriminate Hm.
Defined.
