(* ===== verification/Predicate.v ===== *)
(** * Predicates, methods and queries
    ([internal/router/predicate.go], [internal/router/query.go])

    Header and query predicates compiled from [model.Predicate], the method
    bit set, the raw-query scanner, and what each of them decides. *)

From S2P Require Import Prelude GoStrings NetAddr Pattern.
#[local] Open Scope string_scope.
#[local] Open Scope nat_scope.
#[local] Open Scope list_scope.

(** ** The parts of [http.Request] the gateway inspects *)

Record request := mkRequest {
  req_method : string;
  req_host : string;
  req_path : string;
  req_rawQuery : string;
  req_header : gmap string (list string);
  req_remoteAddr : string;
}.

(** ** [model.Predicate] *)

(** A [model.PredicateOperator] is a string; any other string is [Unsupported]. *)
Inductive PredicateOperator :=
| PredicateExists
| PredicateNotExists
| PredicateEquals
| PredicateNotEquals
| PredicateOneOf
| PredicateUnsupported (name : string).

Definition operator_string (o : PredicateOperator) : string :=
  match o with
  | PredicateExists => "exists"
  | PredicateNotExists => "not_exists"
  | PredicateEquals => "equals"
  | PredicateNotEquals => "not_equals"
  | PredicateOneOf => "one_of"
  | PredicateUnsupported name => name
  end.

Record Predicate := mkPredicate {
  pred_name : string;
  pred_operator : PredicateOperator;
  pred_values : list string;
}.

Inductive fieldKind := fieldHeader | fieldQuery.

Record compiledPredicate := mkCompiledPredicate {
  cp_kind : fieldKind;
  cp_name : string;
  cp_operator : PredicateOperator;
  cp_values : gset string;
}.

Inductive predicateError :=
| PredicateNameEmpty
| PredicateValueCount
| PredicateBadOperator
| PredicateBadHeaderName.

(** ** Compilation *)

Definition compilePredicate (kind : fieldKind) (predicate : Predicate)
    : result predicateError compiledPredicate :=
  if String.eqb (trim_space (pred_name predicate)) "" then Err PredicateNameEmpty
  else
    let count := length (pred_values predicate) in
    let arity :=
      match pred_operator predicate with
      | PredicateExists | PredicateNotExists =>
          if negb (Nat.eqb count 0) then Err PredicateValueCount else Ok tt
      | PredicateEquals | PredicateNotEquals =>
          if negb (Nat.eqb count 1) then Err PredicateValueCount else Ok tt
      | PredicateOneOf => if Nat.eqb count 0 then Err PredicateValueCount else Ok tt
      | PredicateUnsupported _ => Err PredicateBadOperator
      end in
    _ ← arity;
    name ←
      match kind with
      | fieldHeader =>
          let name := canonical_header_key (pred_name predicate) in
          if String.eqb name "" then Err PredicateBadHeaderName else Ok name
      | fieldQuery => Ok (pred_name predicate)
      end;
    Ok {| cp_kind := kind; cp_name := name; cp_operator := pred_operator predicate;
          cp_values := list_to_set (pred_values predicate) |}.

Fixpoint compilePredicateList (kind : fieldKind) (l : list Predicate)
    : result predicateError (list compiledPredicate) :=
  match l with
  | [] => Ok []
  | predicate :: l =>
      instruction ← compilePredicate kind predicate;
      rest ← compilePredicateList kind l;
      Ok (instruction :: rest)
  end.

Definition compilePredicates (headers queries : list Predicate)
    : result predicateError (list compiledPredicate) :=
  hs ← compilePredicateList fieldHeader headers;
  qs ← compilePredicateList fieldQuery queries;
  Ok (hs ++ qs).

(** ** Queries *)

Inductive queryError := ErrInvalidQuery.

(** The loop over the [&]-separated pairs; [query] is the map built so far. *)
Fixpoint scanPairs (pairs : list string) (query : gmap string (list string))
    : result queryError (gmap string (list string)) :=
  match pairs with
  | [] => Ok query
  | item :: pairs =>
      if String.eqb item "" then scanPairs pairs query
      else
        let '(keyRaw, valueRaw, _) := cut_byte "=" item in
        match query_unescape keyRaw, query_unescape valueRaw with
        | Some key, Some value =>
            scanPairs pairs (<[ key := default [] (query !! key) ++ [value] ]> query)
        | _, _ => Err ErrInvalidQuery
        end
  end.

Definition scanRawQuery (raw : string) : result queryError (gmap string (list string)) :=
  if String.eqb raw "" then Ok ∅ else scanPairs (split_byte "&" raw) ∅.

(** [evaluation.queryValues]: the [sync.Once] memoises a function of the
    immutable request, so recomputing it gives the same answer. *)
Definition queryValues (r : request) (name : string)
    : result queryError (list string * bool) :=
  query ← scanRawQuery (req_rawQuery r);
  Ok (match query !! name with Some values => (values, true) | None => ([], false) end).

(** ** Evaluation *)

Definition anyValueMatches (values : list string) (expected : gset string) : bool :=
  existsb (fun value => bool_decide (value ∈ expected)) values.

Section Evaluate.
Context `{Unicode}.

(** One iteration of the loop over the header map. *)
Definition headerStep (name : string) (acc : list string * bool)
    (entry : string * list string) : list string * bool :=
  let '(values, present) := acc in
  let '(key, candidate) := entry in
  if String.eqb key name || negb (equal_fold key name) then acc
  else if negb present then (candidate, true)
  else (values ++ candidate, present).

Definition headerValues (header : gmap string (list string)) (name : string)
    : list string * bool :=
  let first :=
    match header !! name with Some values => (values, true) | None => ([], false) end in
  foldl (headerStep name) first (map_to_list header).

Definition operatorMatches (operator : PredicateOperator) (expected : gset string)
    (values : list string) (present : bool) : bool :=
  match operator with
  | PredicateExists => present
  | PredicateNotExists => negb present
  | PredicateEquals | PredicateOneOf => present && anyValueMatches values expected
  | PredicateNotEquals => present && negb (anyValueMatches values expected)
  | PredicateUnsupported _ => false
  end.

Fixpoint evaluate (p : list compiledPredicate) (r : request) : result queryError bool :=
  match p with
  | [] => Ok true
  | predicate :: p =>
      field ←
        match cp_kind predicate with
        | fieldHeader => Ok (headerValues (req_header r) (cp_name predicate))
        | fieldQuery => queryValues r (cp_name predicate)
        end;
      let '(values, present) := field in
      if operatorMatches (cp_operator predicate) (cp_values predicate) values present
      then evaluate p r else Ok false
  end.
End Evaluate.

(** ** Methods *)

Record methodSet := mkMethodSet { method_standard : N; method_custom : gset string }.

Definition standardMethods : list string :=
  ["CONNECT"; "DELETE"; "GET"; "HEAD"; "OPTIONS"; "PATCH"; "POST"; "PUT"; "TRACE"].

Definition standardMethodBit (method : string) : option N :=
  if String.eqb method "CONNECT" then Some (N.shiftl 1 0)
  else if String.eqb method "DELETE" then Some (N.shiftl 1 1)
  else if String.eqb method "GET" then Some (N.shiftl 1 2)
  else if String.eqb method "HEAD" then Some (N.shiftl 1 3)
  else if String.eqb method "OPTIONS" then Some (N.shiftl 1 4)
  else if String.eqb method "PATCH" then Some (N.shiftl 1 5)
  else if String.eqb method "POST" then Some (N.shiftl 1 6)
  else if String.eqb method "PUT" then Some (N.shiftl 1 7)
  else if String.eqb method "TRACE" then Some (N.shiftl 1 8)
  else None.

Definition validHTTPToken (value : string) : bool :=
  negb (String.eqb value "") &&
  string_forallb (fun c =>
    is_ascii_byte c && negb ((byte_val c <? 32)%N || (byte_val c =? 127)%N) &&
    negb (contains_byte c "()<>@,;:\/[]?={} "
          || Ascii.eqb c (ascii_of_N 34) || Ascii.eqb c (ascii_of_N 9)))
    value.

Inductive methodError :=
| MethodsEmpty
| MethodInvalidToken
| MethodDuplicate (method : string).

Fixpoint compileMethodLoop (methods : list string) (compiled : methodSet) (seen : gset string)
    : result methodError methodSet :=
  match methods with
  | [] => Ok compiled
  | configured :: methods =>
      if negb (validHTTPToken configured) then Err MethodInvalidToken
      else
        let method := to_upper_ascii configured in
        if bool_decide (method ∈ seen) then Err (MethodDuplicate method)
        else
          let seen := {[ method ]} ∪ seen in
          match standardMethodBit method with
          | Some bit =>
              compileMethodLoop methods
                (mkMethodSet (N.lor (method_standard compiled) bit) (method_custom compiled)) seen
          | None =>
              compileMethodLoop methods
                (mkMethodSet (method_standard compiled) ({[ method ]} ∪ method_custom compiled)) seen
          end
  end.

Definition compileMethods (methods : list string) : result methodError methodSet :=
  match methods with
  | [] => Err MethodsEmpty
  | _ => compileMethodLoop methods (mkMethodSet 0 ∅) ∅
  end.

Definition method_contains (m : methodSet) (method : string) : bool :=
  match standardMethodBit method with
  | Some bit => negb (N.land (method_standard m) bit =? 0)%N
  | None => bool_decide (method ∈ method_custom m)
  end.

(** The methods of a set, unsorted: [addAllow] and [sortedValues] walk it so. *)
Definition method_values (m : methodSet) : list string :=
  filter (fun method => method_contains m method = true) standardMethods
  ++ elements (method_custom m).

Definition sortedValues (m : methodSet) : list string := sort_strings (method_values m).

(** ** The method set *)

Definition method_index (method : string) : option N :=
  (fun p => N.of_nat (fst p)) <$> list_find (fun m => m = method) standardMethods.

Lemma standardMethodBit_index method :
  standardMethodBit method = N.shiftl 1 <$> method_index method.
Proof.
  unfold standardMethodBit, method_index, standardMethods.
  repeat match goal with |- context [String.eqb method ?m] =>
    destruct (String.eqb_spec method m) as [->|?]; [reflexivity|] end.
  rewrite (proj2 (list_find_None _ _)); [done|]. repeat (constructor; [congruence|]). constructor.
Qed.

Lemma method_index_inj m1 m2 i :
  method_index m1 = Some i → method_index m2 = Some i → m1 = m2.
Proof.
  unfold method_index. intros ([i1 x1] & H1 & ->)%fmap_Some ([i2 x2] & H2 & Hi)%fmap_Some.
  apply list_find_Some in H1 as (H1 & <- & _). apply list_find_Some in H2 as (H2 & <- & _).
  simpl in Hi. apply Nat2N.inj in Hi as ->. congruence.
Qed.

Lemma land_bit_zero s i : (N.land s (N.shiftl 1 i) =? 0)%N = negb (N.testbit s i).
Proof.
  destruct (N.testbit s i) eqn:E; simpl.
  - apply N.eqb_neq. intros H0. assert (N.testbit (N.land s (N.shiftl 1 i)) i = true) as Ht.
    { rewrite N.land_spec, E, N.shiftl_spec_high' by lia. by rewrite N.sub_diag. }
    by rewrite H0, N.bits_0 in Ht.
  - apply N.eqb_eq, N.bits_inj_iff. intros j. rewrite N.land_spec, N.bits_0.
    destruct (decide (i = j)) as [->|Hne]; [by rewrite E|].
    assert (N.testbit (N.shiftl 1 i) j = false) as ->; [|by rewrite andb_false_r].
    rewrite N.shiftl_1_l. by apply N.pow2_bits_false.
Qed.

Lemma method_contains_add_standard s c bit method x :
  standardMethodBit method = Some bit →
  method_contains (mkMethodSet (N.lor s bit) c) x =
    method_contains (mkMethodSet s c) x || String.eqb method x.
Proof.
  rewrite standardMethodBit_index. intros (i & Hi & ->)%fmap_Some.
  unfold method_contains. rewrite standardMethodBit_index.
  destruct (method_index x) as [j|] eqn:Hj; simpl.
  - rewrite !land_bit_zero, !negb_involutive, N.lor_spec, N.shiftl_1_l, N.pow2_bits_eqb.
    f_equal. destruct (N.eqb_spec i j) as [->|Hne].
    + symmetry. apply String.eqb_eq. by eapply method_index_inj.
    + symmetry. apply String.eqb_neq. congruence.
  - destruct (String.eqb_spec method x) as [->|?]; [congruence|]. by rewrite orb_false_r.
Qed.

Lemma method_contains_add_custom s c method x :
  standardMethodBit method = None →
  method_contains (mkMethodSet s ({[ method ]} ∪ c)) x =
    method_contains (mkMethodSet s c) x || String.eqb method x.
Proof.
  intros Hm. unfold method_contains. simpl.
  destruct (standardMethodBit x) eqn:Hx.
  - destruct (String.eqb_spec method x) as [->|?]; [congruence|]. by rewrite orb_false_r.
  - apply eq_true_iff_eq.
    rewrite orb_true_iff, !bool_decide_eq_true, String.eqb_eq. set_solver.
Qed.

Lemma compileMethodLoop_contains methods compiled seen m x :
  compileMethodLoop methods compiled seen = Ok m →
  method_contains m x = method_contains compiled x ||
                        bool_decide (x ∈ to_upper_ascii <$> methods).
Proof.
  revert compiled seen.
  induction methods as [|configured methods IH]; intros compiled seen Hc; simpl in Hc.
  { inv_ok. simpl. by rewrite orb_false_r. }
  destruct (validHTTPToken configured); simpl in Hc; [|done].
  case_bool_decide; [done|].
  assert (Hcons : bool_decide (x ∈ to_upper_ascii <$> configured :: methods) =
    String.eqb (to_upper_ascii configured) x || bool_decide (x ∈ to_upper_ascii <$> methods)).
  { apply eq_true_iff_eq.
    rewrite orb_true_iff, !bool_decide_eq_true, String.eqb_eq, fmap_cons, elem_of_cons.
    naive_solver. }
  rewrite Hcons, orb_assoc. destruct compiled as [s c].
  destruct (standardMethodBit (to_upper_ascii configured)) eqn:Hb; rewrite (IH _ _ Hc); f_equal.
  - by apply method_contains_add_standard.
  - by apply method_contains_add_custom.
Qed.

Lemma compileMethods_members methods m x :
  compileMethods methods = Ok m →
  method_contains m x = bool_decide (x ∈ to_upper_ascii <$> methods).
Proof.
  intros Hc. assert (Hl : compileMethodLoop methods (mkMethodSet 0 ∅) ∅ = Ok m)
    by (destruct methods; done).
  rewrite (compileMethodLoop_contains _ _ _ _ x Hl).
  unfold method_contains at 1. simpl.
  destruct (standardMethodBit x); rewrite ?N.land_0_l; simpl; done.
Qed.

(** The custom part of a compiled set holds no standard method. *)
Definition custom_only (m : methodSet) : Prop :=
  ∀ x, x ∈ method_custom m → standardMethodBit x = None.

Lemma compileMethodLoop_custom methods compiled seen m :
  custom_only compiled → compileMethodLoop methods compiled seen = Ok m → custom_only m.
Proof.
  revert compiled seen.
  induction methods as [|configured methods IH]; intros compiled seen Hw Hc; simpl in Hc.
  { by inv_ok. }
  destruct (validHTTPToken configured); simpl in Hc; [|done]. case_bool_decide; [done|].
  destruct (standardMethodBit (to_upper_ascii configured)) eqn:Hb;
    (eapply IH; [|exact Hc]); [done|].
  intros x. simpl. rewrite elem_of_union, elem_of_singleton. naive_solver.
Qed.

Lemma compileMethods_custom methods m : compileMethods methods = Ok m → custom_only m.
Proof.
  intros Hc. assert (Hl : compileMethodLoop methods (mkMethodSet 0 ∅) ∅ = Ok m)
    by (destruct methods; done).
  eapply compileMethodLoop_custom; [|exact Hl]. intros x. simpl. set_solver.
Qed.

Lemma elem_of_method_values m x :
  custom_only m → x ∈ method_values m ↔ method_contains m x = true.
Proof.
  intros Hw. unfold method_values.
  rewrite elem_of_app, list_elem_of_filter, elem_of_elements.
  assert (Hstd : x ∈ standardMethods ↔ is_Some (standardMethodBit x)).
  { split.
    - unfold standardMethods. rewrite !elem_of_cons, elem_of_nil.
      intros Hx. destruct_or?; subst; by eexists.
    - rewrite standardMethodBit_index. intros [b (i & Hi & _)%fmap_Some].
      unfold method_index in Hi. apply fmap_Some in Hi as ([k y] & Hf & _).
      apply list_find_Some in Hf as (Hl & <- & _). by eapply list_elem_of_lookup_2. }
  split.
  - intros [[? _]|Hx]; [done|]. unfold method_contains. rewrite (Hw _ Hx).
    by apply bool_decide_eq_true.
  - intros Hc. destruct (standardMethodBit x) eqn:E.
    + left. split; [done|]. apply Hstd. eauto.
    + right. unfold method_contains in Hc. rewrite E in Hc. by apply bool_decide_eq_true in Hc.
Qed.

(** ** Header lookup *)

Section Headers.
Context `{Unicode}.

(** A header entry that a predicate on [name] consults. *)
Definition header_key_matches (name key : string) : bool :=
  String.eqb key name || equal_fold key name.

(** The entries the loop adds to the exact one. *)
Definition other_spelling (name : string) (entry : string * list string) : bool :=
  negb (String.eqb (fst entry) name) && equal_fold (fst entry) name.

Lemma headerStep_fold name l values present :
  (present = false → values = []) →
  foldl (headerStep name) (values, present) l =
    (values ++ concat (snd <$> filter (fun e => other_spelling name e = true) l),
     present || existsb (other_spelling name) l).
Proof.
  revert values present.
  induction l as [|[k vs] l IH]; intros values present Hinv.
  { simpl. by rewrite app_nil_r, orb_false_r. }
  rewrite filter_cons. cbn [foldl existsb].
  assert (Ho : other_spelling name (k, vs) = negb (String.eqb k name || negb (equal_fold k name)))
    by (unfold other_spelling; simpl; by rewrite negb_orb, negb_involutive).
  rewrite Ho. unfold headerStep at 2.
  destruct (String.eqb k name || negb (equal_fold k name)); simpl.
  - by rewrite IH.
  - destruct present; simpl.
    + rewrite IH by done. by rewrite <-(assoc app).
    + rewrite (Hinv eq_refl), IH by done. done.
Qed.

Lemma header_key_other name key vs :
  header_key_matches name key = String.eqb key name || other_spelling name (key, vs).
Proof.
  unfold header_key_matches, other_spelling. simpl.
  by destruct (String.eqb key name), (equal_fold key name).
Qed.

(** a header predicate is present exactly when the request has some
    spelling of its name, and sees the values of all of them. *)
Theorem headerValues_spec header name :
  (snd (headerValues header name) = true ↔
     ∃ k vs, header !! k = Some vs ∧ header_key_matches name k = true) ∧
  (∀ v, v ∈ fst (headerValues header name) ↔
     ∃ k vs, header !! k = Some vs ∧ header_key_matches name k = true ∧ v ∈ vs).
Proof.
  unfold headerValues.
  assert (Hfold : foldl (headerStep name)
      match header !! name with Some vs => (vs, true) | None => ([], false) end
      (map_to_list header) =
    (default [] (header !! name) ++
       concat (snd <$> filter (fun e => other_spelling name e = true) (map_to_list header)),
     bool_decide (is_Some (header !! name)) || existsb (other_spelling name) (map_to_list header))).
  { by destruct (header !! name); rewrite headerStep_fold. }
  rewrite Hfold. clear Hfold. simpl. split.
  - rewrite orb_true_iff, bool_decide_eq_true, existsb_exists.
    setoid_rewrite <-list_elem_of_In. split.
    + intros [[vs Hvs]|([k vs] & Hin & Ho)].
      * exists name, vs. by rewrite (header_key_other _ _ vs), String.eqb_refl.
      * exists k, vs. rewrite elem_of_map_to_list in Hin.
        rewrite (header_key_other _ _ vs). by rewrite Ho, orb_true_r.
    + intros (k & vs & Hk & Hm). rewrite (header_key_other _ _ vs) in Hm.
      apply orb_true_iff in Hm as [->%String.eqb_eq|Ho]; [left; by eauto|right].
      exists (k, vs). by rewrite elem_of_map_to_list.
  - intros v. rewrite elem_of_app, (list_elem_of_In (concat _)), in_concat. split.
    + intros [Hv|(vs & Hvs & Hv)].
      * destruct (header !! name) as [vs|] eqn:E; [|by apply elem_of_nil in Hv].
        exists name, vs. by rewrite (header_key_other _ _ vs), String.eqb_refl.
      * apply list_elem_of_In, list_elem_of_fmap in Hvs as ([k vs'] & -> & Hin).
        apply list_elem_of_filter in Hin as [Ho Hin]. rewrite elem_of_map_to_list in Hin.
        exists k, vs'. rewrite (header_key_other _ _ vs'), Ho, orb_true_r.
        by rewrite list_elem_of_In.
    + intros (k & vs & Hk & Hm & Hv). rewrite (header_key_other _ _ vs) in Hm.
      apply orb_true_iff in Hm as [->%String.eqb_eq|Ho]; [left; by rewrite Hk|right].
      exists vs. rewrite <-!list_elem_of_In. split; [|done].
      apply list_elem_of_fmap. exists (k, vs). split; [done|].
      apply list_elem_of_filter. by rewrite elem_of_map_to_list.
Qed.

(** ** Predicate evaluation *)

Definition predicate_holds (r : request) (query : gmap string (list string))
    (p : compiledPredicate) : bool :=
  let '(values, present) :=
    match cp_kind p with
    | fieldHeader => headerValues (req_header r) (cp_name p)
    | fieldQuery =>
        match query !! cp_name p with Some values => (values, true) | None => ([], false) end
    end in
  operatorMatches (cp_operator p) (cp_values p) values present.

Lemma evaluate_ok p r query :
  scanRawQuery (req_rawQuery r) = Ok query →
  evaluate p r = Ok (forallb (predicate_holds r query) p).
Proof.
  intros Hq. induction p as [|predicate p IH]; simpl; [done|].
  unfold predicate_holds at 1, queryValues. rewrite Hq, IH.
  destruct (cp_kind predicate); simpl.
  - destruct (headerValues _ _). by destruct (operatorMatches _ _ _ _).
  - destruct (query !! cp_name predicate); by destruct (operatorMatches _ _ _ _).
Qed.

Lemma evaluate_err p r e :
  evaluate p r = Err e → scanRawQuery (req_rawQuery r) = Err e.
Proof.
  intros He. destruct (scanRawQuery (req_rawQuery r)) as [query|[]] eqn:E; [|by destruct e].
  by rewrite (evaluate_ok _ _ _ E) in He.
Qed.
End Headers.

(** ** Query scanning: a round trip through percent-encoding *)

Definition hex_digit (n : N) : ascii :=
  ascii_of_N (if (n <? 10)%N then n + 48 else n + 55)%N.

Fixpoint percent_encode (s : string) : string :=
  match s with
  | EmptyString => EmptyString
  | String c s =>
      String "%" (String (hex_digit (byte_val c / 16)) (String (hex_digit (byte_val c mod 16))
        (percent_encode s)))
  end.

Definition encode_pair (p : string * string) : string :=
  percent_encode (fst p) +:+ String "=" (percent_encode (snd p)).

Definition encode_query (pairs : list (string * string)) : string :=
  join_byte "&" (encode_pair <$> pairs).

(** The values of [key], in order. *)
Definition query_lookup (pairs : list (string * string)) (key : string) : option (list string) :=
  match snd <$> filter (fun p => fst p = key) pairs with
  | [] => None
  | values => Some values
  end.

Lemma unhex_hex_digit n : (n < 16)%N → unhex (hex_digit n) = Some n.
Proof.
  intros Hn. rewrite <-(N2Nat.id n). assert (Hk : N.to_nat n < 16) by lia. revert Hk.
  generalize (N.to_nat n) as k. intros k Hk. do 16 (destruct k as [|k]; [reflexivity|]). lia.
Qed.

Lemma query_unescape_encode s : query_unescape (percent_encode s) = Some s.
Proof.
  induction s as [|c s IH]; [done|]. cbn [percent_encode query_unescape].
  assert (Hc : (byte_val c < 256)%N) by apply N_ascii_bounded.
  rewrite !unhex_hex_digit by (apply N.mod_lt || apply N.Div0.div_lt_upper_bound; lia).
  rewrite IH. simpl. rewrite <-(N.div_mod (byte_val c) 16) by lia.
  unfold byte_val. by rewrite ascii_N_embedding.
Qed.

Lemma percent_encode_avoids c s :
  c ≠ "%"%char → unhex c = None → contains_byte c (percent_encode s) = false.
Proof.
  intros Hne Hhex. induction s as [|d s IH]; simpl; [done|].
  assert (Hd : (byte_val d < 256)%N) by apply N_ascii_bounded.
  assert (Hh : ∀ n, (n < 16)%N → Ascii.eqb c (hex_digit n) = false).
  { intros n Hn. apply Ascii.eqb_neq. intros ->. by rewrite unhex_hex_digit in Hhex. }
  rewrite !Hh by (apply N.mod_lt || apply N.Div0.div_lt_upper_bound; lia).
  rewrite IH. destruct (Ascii.eqb_spec c "%"); done.
Qed.

(** Scanning appends the value of each pair to the values of its key. *)
Lemma query_lookup_snoc pairs k v key :
  query_lookup (pairs ++ [(k, v)]) key =
    if decide (k = key) then Some (default [] (query_lookup pairs key) ++ [v])
    else query_lookup pairs key.
Proof.
  unfold query_lookup. rewrite filter_app, filter_cons, fmap_app. simpl.
  case_decide; simpl; [|by rewrite app_nil_r].
  by destruct (snd <$> filter _ pairs).
Qed.

Lemma scanPairs_encode done_ pairs query :
  (∀ key, query !! key = query_lookup done_ key) →
  ∃ query', scanPairs (encode_pair <$> pairs) query = Ok query' ∧
            ∀ key, query' !! key = query_lookup (done_ ++ pairs) key.
Proof.
  revert done_ query. induction pairs as [|[k v] pairs IH]; intros done_ query Hq; simpl.
  { exists query. by rewrite app_nil_r. }
  assert (Hne : String.eqb (encode_pair (k, v)) "" = false).
  { unfold encode_pair. simpl. destruct k; done. }
  rewrite Hne. unfold encode_pair at 1. cbn [fst snd].
  rewrite cut_byte_app by (apply percent_encode_avoids; done).
  rewrite !query_unescape_encode.
  destruct (IH (done_ ++ [(k, v)]) (<[k := default [] (query !! k) ++ [v]]> query))
    as (query' & Hs & Hl).
  { intros key. rewrite query_lookup_snoc, <-!Hq. case_decide as Hk.
    - subst. by rewrite lookup_insert_eq.
    - by rewrite lookup_insert_ne. }
  exists query'. split; [done|]. intros key. by rewrite Hl, <-(assoc app).
Qed.

(** scanning a percent-encoded query never fails and gives back its pairs,
    the values of each key in order. *)
Theorem scanRawQuery_encode pairs :
  ∃ query, scanRawQuery (encode_query pairs) = Ok query ∧
           ∀ key, query !! key = query_lookup pairs key.
Proof.
  destruct (decide (pairs = [])) as [->|Hne]; [by exists ∅|].
  destruct (scanPairs_encode [] pairs ∅) as (query & Hs & Hl); [done|].
  exists query. split; [|done]. unfold scanRawQuery, encode_query.
  assert (Hsplit : split_byte "&" (join_byte "&" (encode_pair <$> pairs)) = encode_pair <$> pairs).
  { apply split_join_byte; [by destruct pairs|]. apply Forall_fmap, Forall_forall.
    intros [k v] _. unfold encode_pair; simpl. rewrite contains_byte_app. simpl.
    by rewrite !percent_encode_avoids. }
  destruct (String.eqb_spec (join_byte "&" (encode_pair <$> pairs)) "") as [Hj|_].
  - rewrite Hj in Hsplit. destruct pairs as [|[k v] [|? ?]]; [done| |done].
    unfold encode_pair in Hsplit. simpl in Hsplit. by destruct k.
  - by rewrite Hsplit.
Qed.

(** ** The method set accepts what was configured *)

(** the compiled method set, a bit mask with a set of custom methods,
    accepts exactly the upper-cased configured methods. *)
Theorem compileMethods_contains methods m x :
  compileMethods methods = Ok m →
  method_contains m x = bool_decide (x ∈ to_upper_ascii <$> methods).
Proof. apply compileMethods_members. Qed.

Lemma compileMethods_contains_witness :
  match compileMethods ["get"; "PURGE"] with
  | Ok m => method_contains m "PURGE" = bool_decide ("PURGE" ∈ to_upper_ascii <$> ["get"; "PURGE"])
  | Err _ => False
  end.
Proof.
  destruct (compileMethods ["get"; "PURGE"]) as [m|] eqn:Hc; [|vm_compute in Hc; discriminate Hc].
  exact (compileMethods_contains ["get"; "PURGE"] m "PURGE" Hc).
Defined.
