(* ===== verification/Router.v ===== *)
(** * The compiled router ([internal/router/router.go])

    Compilation of route specifications into three families of path tries
    (exact hosts, wildcard hosts, hostless), the precedence order, the pruned
    trie search and the [Match] entry point. *)

From S2P Require Import Prelude GoStrings NetAddr Json Pattern Predicate.
#[local] Open Scope string_scope.
#[local] Open Scope nat_scope.
#[local] Open Scope list_scope.

(** ** Data *)

(** [model.RouteMatch] *)
Record RouteMatch := mkRouteMatch {
  match_hosts : list string;
  match_path : string;
  match_methods : list string;
  match_headers : list Predicate;
  match_queries : list Predicate;
}.

Record RouteSpec := mkRouteSpec {
  spec_index : Z;
  spec_id : string;
  spec_priority : Z;
  spec_match : RouteMatch;
}.

Record precedenceKey := mkKey {
  key_priority : Z;
  key_hostRank : nat;
  key_pathKind : nat;
  key_staticSegments : nat;
  key_patternBytes : nat;
  key_predicateCount : nat;
  key_routeID : string;
}.

Record candidate := mkCandidate {
  cand_routeIndex : Z;
  cand_routeID : string;
  cand_priority : Z;
  cand_hostRank : nat;
  cand_path : compiledPathPattern;
  cand_methods : methodSet;
  cand_predicates : list compiledPredicate;
  cand_key : precedenceKey;
}.

(** A trie node; [static] is a Go map, an absent one being empty. *)
Inductive pathNode := mkNode {
  node_static : gmap string pathNode;
  node_parameter : option pathNode;
  node_terminal : list candidate;
  node_prefix : list candidate;
  node_catchAll : list candidate;
  node_upper : precedenceKey;
  node_upperValid : bool;
}.

Definition zeroKey : precedenceKey := mkKey 0 0 0 0 0 0 "".
Definition emptyNode : pathNode := mkNode ∅ None [] [] [] zeroKey false.

Record Router := mkRouter {
  exactHosts : gmap string pathNode;
  wildcardHosts : gmap string pathNode;
  hostless : pathNode;
}.

(** ** Precedence *)

(** The loop over the integer pairs: 1, -1, or 0 when all are equal. *)
Fixpoint compareInts (pairs : list (Z * Z)) : Z :=
  match pairs with
  | [] => 0
  | (l, r) :: pairs => if (r <? l)%Z then 1 else if (l <? r)%Z then -1 else compareInts pairs
  end.

Definition comparePrecedence (left right : precedenceKey) : Z :=
  let ints :=
    compareInts
      [(key_priority left, key_priority right);
       (Z.of_nat (key_hostRank left), Z.of_nat (key_hostRank right));
       (Z.of_nat (key_pathKind left), Z.of_nat (key_pathKind right));
       (Z.of_nat (key_staticSegments left), Z.of_nat (key_staticSegments right));
       (Z.of_nat (key_patternBytes left), Z.of_nat (key_patternBytes right));
       (Z.of_nat (key_predicateCount left), Z.of_nat (key_predicateCount right))] in
  if negb (ints =? 0)%Z then ints
  else if String.ltb (key_routeID left) (key_routeID right) then 1
  else if String.ltb (key_routeID right) (key_routeID left) then -1
  else 0.

Definition makePrecedenceKey (value : candidate) : precedenceKey :=
  {| key_priority := cand_priority value;
     key_hostRank := cand_hostRank value;
     key_pathKind := path_kindRank (path_specificity (cand_path value));
     key_staticSegments := staticSegments (path_specificity (cand_path value));
     key_patternBytes := patternBytes (path_specificity (cand_path value));
     key_predicateCount := length (cand_predicates value);
     key_routeID := cand_routeID value |}.

(** ** Building the tries *)

Definition set_static (n : pathNode) (text : string) (child : pathNode) : pathNode :=
  mkNode (<[ text := child ]> (node_static n)) (node_parameter n) (node_terminal n)
    (node_prefix n) (node_catchAll n) (node_upper n) (node_upperValid n).
Definition set_parameter (n child : pathNode) : pathNode :=
  mkNode (node_static n) (Some child) (node_terminal n)
    (node_prefix n) (node_catchAll n) (node_upper n) (node_upperValid n).
Definition add_terminal (n : pathNode) (value : candidate) : pathNode :=
  mkNode (node_static n) (node_parameter n) (node_terminal n ++ [value])
    (node_prefix n) (node_catchAll n) (node_upper n) (node_upperValid n).
Definition add_prefix (n : pathNode) (value : candidate) : pathNode :=
  mkNode (node_static n) (node_parameter n) (node_terminal n)
    (node_prefix n ++ [value]) (node_catchAll n) (node_upper n) (node_upperValid n).
Definition add_catchAll (n : pathNode) (value : candidate) : pathNode :=
  mkNode (node_static n) (node_parameter n) (node_terminal n)
    (node_prefix n) (node_catchAll n ++ [value]) (node_upper n) (node_upperValid n).

(** [insertCandidate], descending along the candidate's segments. *)
Fixpoint insertAt (segments : list pathSegment) (node : pathNode) (value : candidate) : pathNode :=
  match segments with
  | [] => add_terminal node value
  | segment :: rest =>
      match seg_kind segment with
      | segmentPrefix => add_prefix node value
      | segmentCatchAll => add_catchAll node value
      | segmentParameter =>
          set_parameter node (insertAt rest (default emptyNode (node_parameter node)) value)
      | segmentStatic =>
          let child := default emptyNode (node_static node !! seg_text segment) in
          set_static node (seg_text segment) (insertAt rest child value)
      end
  end.

Definition insertCandidate (root : pathNode) (value : candidate) : pathNode :=
  insertAt (path_segments (cand_path value)) root value.

Definition candidate_before (left right : candidate) : bool :=
  (0 <? comparePrecedence (cand_key left) (cand_key right))%Z.

Definition sortCandidates (values : list candidate) : list candidate :=
  sort_slice candidate_before values.

(** [includeUpper] on the pair [(upper, upperValid)]. *)
Definition includeUpper (upper : precedenceKey * bool) (key : precedenceKey)
    : precedenceKey * bool :=
  if negb (snd upper) || (0 <? comparePrecedence key (fst upper))%Z then (key, true) else upper.

Definition includeChild (upper : precedenceKey * bool) (child : pathNode) : precedenceKey * bool :=
  if node_upperValid child then includeUpper upper (node_upper child) else upper.

Fixpoint finalizeNode (node : pathNode) : pathNode :=
  let terminal := sortCandidates (node_terminal node) in
  let prefix := sortCandidates (node_prefix node) in
  let catchAll := sortCandidates (node_catchAll node) in
  let upper :=
    foldl includeUpper (node_upper node, node_upperValid node)
      (cand_key <$> (terminal ++ prefix ++ catchAll)) in
  let parameter :=
    match node_parameter node with None => None | Some p => Some (finalizeNode p) end in
  let upper := match parameter with None => upper | Some p => includeChild upper p end in
  let static := finalizeNode <$> node_static node in
  let upper := map_fold (fun _ child upper => includeChild upper child) upper static in
  mkNode static parameter terminal prefix catchAll (fst upper) (snd upper).

(** ** Route signatures *)

Definition canonicalPredicate (p : compiledPredicate) : string :=
  json_object
    [("kind", json_int (match cp_kind p with fieldHeader => 0 | fieldQuery => 1 end));
     ("name", json_string (cp_name p));
     ("operator", json_string (operator_string (cp_operator p)));
     ("values", json_array (json_string <$> sort_strings (elements (cp_values p))))].

Definition routeSignature (priority : Z) (path : string) (hosts : list compiledHostPattern)
    (methods : methodSet) (predicates : list compiledPredicate) : string :=
  let host_string h :=
    match host_kind h with
    | hostPatternExact => "=" +:+ host_value h
    | hostPatternWildcard => "*." +:+ host_value h
    end in
  json_object
    [("priority", json_int priority);
     ("path", json_string path);
     ("hosts", json_array (json_string <$> sort_strings (host_string <$> hosts)));
     ("methods", json_array (json_string <$> sortedValues methods));
     ("predicates", json_array (sort_strings (canonicalPredicate <$> predicates)))].

(** ** Compilation *)

Inductive compileError :=
| RoutesEmpty
| RouteIDEmpty (index : nat)
| RouteIDDuplicate (id : string)
| RoutePath (id : string) (e : patternError)
| RouteMethods (id : string) (e : methodError)
| RoutePredicates (id : string) (e : predicateError)
| RouteHosts (id : string) (e : hostError)
| RouteHostDuplicate (id : string) (pattern : string)
| RouteMatchDuplicate (previous id : string).

Section Compile.
Context `{Unicode}.

Fixpoint compileHostLoop (id : string) (raw : list string)
    (hosts : list compiledHostPattern) (seen : gset (hostPatternKind * string))
    : result compileError (list compiledHostPattern) :=
  match raw with
  | [] => Ok hosts
  | pattern :: raw =>
      host ← map_err (RouteHosts id) (compileHostPattern pattern);
      let key := (host_kind host, host_value host) in
      if bool_decide (key ∈ seen) then Err (RouteHostDuplicate id pattern)
      else compileHostLoop id raw (hosts ++ [host]) ({[ key ]} ∪ seen)
  end.

Definition compileRouteHosts (id : string) (raw : list string)
    : result compileError (list compiledHostPattern) := compileHostLoop id raw [] ∅.

Definition with_host_rank (base : candidate) (rank : nat) : candidate :=
  let current :=
    mkCandidate (cand_routeIndex base) (cand_routeID base) (cand_priority base) rank
      (cand_path base) (cand_methods base) (cand_predicates base) (cand_key base) in
  mkCandidate (cand_routeIndex base) (cand_routeID base) (cand_priority base) rank
    (cand_path base) (cand_methods base) (cand_predicates base) (makePrecedenceKey current).

(** One iteration of the loop over a route's hosts. *)
Definition insertHost (base : candidate) (compiled : Router) (host : compiledHostPattern)
    : Router :=
  let current := with_host_rank base (host_kindRank (host_specificity host)) in
  let insert trees :=
    <[ host_value host :=
         insertCandidate (default emptyNode (trees !! host_value host)) current ]> trees in
  match host_kind host with
  | hostPatternExact =>
      mkRouter (insert (exactHosts compiled)) (wildcardHosts compiled) (hostless compiled)
  | hostPatternWildcard =>
      mkRouter (exactHosts compiled) (insert (wildcardHosts compiled)) (hostless compiled)
  end.

Definition insertRoute (compiled : Router) (base : candidate)
    (hosts : list compiledHostPattern) : Router :=
  match hosts with
  | [] =>
      mkRouter (exactHosts compiled) (wildcardHosts compiled)
        (insertCandidate (hostless compiled) (with_host_rank base 0))
  | _ => foldl (insertHost base) compiled hosts
  end.

(** The compiled parts of one route. *)
Definition compileRoute (route : RouteSpec)
    : result compileError (candidate * list compiledHostPattern) :=
  let id := spec_id route in
  let m := spec_match route in
  path ← map_err (RoutePath id) (compilePathPattern (match_path m));
  methods ← map_err (RouteMethods id) (compileMethods (match_methods m));
  predicates ← map_err (RoutePredicates id)
                 (compilePredicates (match_headers m) (match_queries m));
  hosts ← compileRouteHosts id (match_hosts m);
  Ok (mkCandidate (spec_index route) id (spec_priority route) 0 path methods predicates zeroKey,
      hosts).

Definition signature_of (base : candidate) (hosts : list compiledHostPattern) : string :=
  routeSignature (cand_priority base) (path_raw (cand_path base)) hosts
    (cand_methods base) (cand_predicates base).

Fixpoint compileRoutes (i : nat) (routes : list RouteSpec) (compiled : Router)
    (routeIDs : gset string) (signatures : gmap string string)
    : result compileError Router :=
  match routes with
  | [] => Ok compiled
  | route :: routes =>
      let id := spec_id route in
      if String.eqb (trim_space id) "" then Err (RouteIDEmpty i)
      else if bool_decide (id ∈ routeIDs) then Err (RouteIDDuplicate id)
      else
        '(base, hosts) ← compileRoute route;
        let signature := signature_of base hosts in
        match signatures !! signature with
        | Some previous => Err (RouteMatchDuplicate previous id)
        | None =>
            compileRoutes (S i) routes (insertRoute compiled base hosts)
              ({[ id ]} ∪ routeIDs) (<[ signature := id ]> signatures)
        end
  end.

Definition finalizeRouter (compiled : Router) : Router :=
  mkRouter (finalizeNode <$> exactHosts compiled) (finalizeNode <$> wildcardHosts compiled)
    (finalizeNode (hostless compiled)).

Definition Compile (routes : list RouteSpec) : result compileError Router :=
  match routes with
  | [] => Err RoutesEmpty
  | _ => compiled ← compileRoutes 0 routes (mkRouter ∅ ∅ emptyNode) ∅ ∅;
         Ok (finalizeRouter compiled)
  end.
End Compile.

(** ** Matching *)

Record Result := mkResult {
  Found : bool;
  MethodNotAllowed : bool;
  RouteIndex : Z;
  Params : list ParamSpan;
  Allow : list string;
}.

Definition noMatch : Result := mkResult false false 0 [] [].

(** [MatchOutOfFuel] marks a search deeper than the path allows; the search
    bound given below is never reached. *)
Inductive matchError :=
| MatchHost (e : hostError)
| MatchQuery (e : queryError)
| MatchOutOfFuel.

Record matcherState := mkState {
  found : bool;
  best : precedenceKey;
  routeIndex : Z;
  params : list ParamSpan;
  allow : gset string;
}.

Definition addAllow (s : matcherState) (methods : methodSet) : matcherState :=
  mkState (found s) (best s) (routeIndex s) (params s)
    (list_to_set (method_values methods) ∪ allow s).

Section Match.
Context `{Unicode}.
(** The request and its path, ["/"] when the URL path is empty. *)
Context (r : request) (path : string).

Fixpoint consider (values : list candidate) (s : matcherState)
    : result matchError matcherState :=
  match values with
  | [] => Ok s
  | value :: values =>
      if found s && (comparePrecedence (cand_key value) (best s) <=? 0)%Z then Ok s
      else
        let '(pathMatches, spans) := pattern_match (cand_path value) path in
        if negb pathMatches then consider values s
        else
          predicatesMatch ← map_err MatchQuery (evaluate (cand_predicates value) r);
          if negb predicatesMatch then consider values s
          else if method_contains (cand_methods value) (req_method r) then
            consider values
              (mkState true (cand_key value) (cand_routeIndex value) spans (allow s))
          else consider values (addAllow s (cand_methods value))
  end.

Definition compareNodeUpper (left right : pathNode) : Z :=
  if negb (node_upperValid left) then -1
  else if negb (node_upperValid right) then 1
  else comparePrecedence (node_upper left) (node_upper right).

Definition prune (s : matcherState) (node : pathNode) : bool :=
  negb (node_upperValid node)
  || (found s && (comparePrecedence (node_upper node) (best s) <=? 0)%Z).

Fixpoint visit (fuel : nat) (node : option pathNode) (position : nat) (s : matcherState)
    : result matchError matcherState :=
  match fuel, node with
  | 0, _ => Err MatchOutOfFuel
  | S _, None => Ok s
  | S fuel, Some node =>
      if prune s node then Ok s
      else
        s ← consider (node_terminal node) s;
        s ← consider (node_prefix node) s;
        s ← consider (node_catchAll node) s;
        if String.length path <? position then Ok s
        else
          let end_ := segmentEnd path position in
          let nextPosition :=
            if end_ <? String.length path then S end_ else S (String.length path) in
          let staticChild := node_static node !! slice path position end_ in
          let parameterChild := if position <? end_ then node_parameter node else None in
          let parameterFirst :=
            match staticChild, parameterChild with
            | Some sc, Some pc => (0 <? compareNodeUpper pc sc)%Z
            | _, _ => false
            end in
          if parameterFirst then
            s ← visit fuel parameterChild nextPosition s;
            visit fuel staticChild nextPosition s
          else
            s ← visit fuel staticChild nextPosition s;
            visit fuel parameterChild nextPosition s
  end.

(** A position behind the end of the path is visited at most once, and every
    visit before it advances the position. *)
Definition search_fuel : nat := S (S (String.length path)).
End Match.

Section MatchEntry.
Context `{Unicode}.

Definition effective_path (r : request) : string :=
  if String.eqb (req_path r) "" then "/" else req_path r.

Definition finish (s : matcherState) : Result :=
  if found s then mkResult true false (routeIndex s) (params s) []
  else if bool_decide (allow s = ∅) then noMatch
  else mkResult false true 0 [] (sort_strings (elements (allow s))).

Definition visitRoot (r : request) (node : option pathNode) (s : matcherState)
    : result matchError matcherState :=
  visit r (effective_path r) (search_fuel (effective_path r)) node 1 s.

(** The lookups in the two host indexes; a router without hosts does not
    inspect the request host. *)
Definition visitHosts (router : Router) (r : request) (s : matcherState)
    : result matchError matcherState :=
  if bool_decide (exactHosts router = ∅) && bool_decide (wildcardHosts router = ∅) then Ok s
  else
    host ← map_err MatchHost (NormalizeRequestHost (req_host r));
    s ← visitRoot r (exactHosts router !! host) s;
    match index_byte "." host with
    | Some separator =>
        if 0 <? separator
        then visitRoot r (wildcardHosts router !! sdrop (S separator) host) s
        else Ok s
    | None => Ok s
    end.

Definition Match (router : Router) (r : request) : result matchError Result :=
  s ← visitHosts router r (mkState false zeroKey 0 [] ∅);
  s ← visitRoot r (Some (hostless router)) s;
  Ok (finish s).
End MatchEntry.
