(* ===== verification/RouterTrie.v ===== *)
(** * The precedence order and the path tries

    [comparePrecedence] is a total order; the tries hold exactly the inserted
    candidates; finalisation keeps them, sorts them and bounds every subtree
    by its [upper] key. *)

From S2P Require Import Prelude GoStrings Pattern Predicate Router.
#[local] Open Scope string_scope.
#[local] Open Scope nat_scope.
#[local] Open Scope list_scope.

(** ** The precedence order *)

Lemma compareInts_swap l :
  compareInts ((fun p => (snd p, fst p)) <$> l) = (- compareInts l)%Z.
Proof.
  induction l as [|[a b] l IH]; csimpl; [done|]. rewrite IH.
  destruct (Z.ltb_spec a b), (Z.ltb_spec b a); lia.
Qed.

Lemma compareInts_zero l : compareInts l = 0%Z → Forall (fun p => fst p = snd p) l.
Proof.
  induction l as [|[a b] l IH]; simpl; [by constructor|].
  destruct (Z.ltb_spec b a); [done|]. destruct (Z.ltb_spec a b); [done|].
  constructor; [simpl; lia|auto].
Qed.

Lemma compareInts_trans la lb lc :
  length la = length lb → length lb = length lc →
  (compareInts (zip la lb) ≤ 0 → compareInts (zip lb lc) ≤ 0 →
   compareInts (zip la lc) ≤ 0 ∧
   (compareInts (zip la lc) = 0 → compareInts (zip la lb) = 0 ∧ compareInts (zip lb lc) = 0))%Z.
Proof.
  revert lb lc. induction la as [|a la IH]; intros [|b lb] [|c lc] H1 H2; try done; simpl in *.
  specialize (IH lb lc ltac:(lia) ltac:(lia)).
  repeat match goal with |- context [Z.ltb ?x ?y] => destruct (Z.ltb_spec x y) end; lia.
Qed.

Definition key_ints (k : precedenceKey) : list Z :=
  [key_priority k; Z.of_nat (key_hostRank k); Z.of_nat (key_pathKind k);
   Z.of_nat (key_staticSegments k); Z.of_nat (key_patternBytes k);
   Z.of_nat (key_predicateCount k)].

Lemma comparePrecedence_zip l r :
  comparePrecedence l r =
    let ints := compareInts (zip (key_ints l) (key_ints r)) in
    if negb (ints =? 0)%Z then ints
    else if String.ltb (key_routeID l) (key_routeID r) then 1%Z
    else if String.ltb (key_routeID r) (key_routeID l) then (-1)%Z else 0%Z.
Proof. reflexivity. Qed.

Lemma comparePrecedence_antisym l r : comparePrecedence l r = (- comparePrecedence r l)%Z.
Proof.
  rewrite !comparePrecedence_zip. cbv zeta.
  assert (Hz : compareInts (zip (key_ints l) (key_ints r)) =
               (- compareInts (zip (key_ints r) (key_ints l)))%Z)
    by (rewrite <-compareInts_swap; reflexivity).
  rewrite Hz. set (z := compareInts (zip (key_ints r) (key_ints l))).
  destruct (Z.eqb_spec z 0) as [->|Hne]; simpl.
  - destruct (String.ltb (key_routeID l) (key_routeID r)) eqn:E1;
      destruct (String.ltb (key_routeID r) (key_routeID l)) eqn:E2; try done.
    by rewrite (string_ltb_asym _ _ E1) in E2.
  - destruct (Z.eqb_spec (- z) 0); simpl; lia.
Qed.

Lemma comparePrecedence_zero l r : comparePrecedence l r = 0%Z ↔ l = r.
Proof.
  rewrite comparePrecedence_zip. cbv zeta. split.
  - destruct (Z.eqb_spec (compareInts (zip (key_ints l) (key_ints r))) 0) as [Hz|]; simpl; [|done].
    destruct (String.ltb (key_routeID l) (key_routeID r)) eqn:E1; [done|].
    destruct (String.ltb (key_routeID r) (key_routeID l)) eqn:E2; [done|]. intros _.
    apply compareInts_zero in Hz. pose proof (string_ltb_total _ _ E1 E2) as Hid.
    destruct l, r; simpl in *. repeat (apply Forall_cons in Hz as [? Hz]). simpl in *.
    f_equal; lia || done.
  - intros ->. assert (compareInts (zip (key_ints r) (key_ints r)) = 0%Z) as ->.
    { unfold key_ints. simpl. by rewrite !Z.ltb_irrefl. }
    simpl. by rewrite string_ltb_irrefl.
Qed.

(** [key_le a b]: [a] does not beat [b]. *)
Definition key_le (a b : precedenceKey) : Prop := (comparePrecedence a b ≤ 0)%Z.

#[global] Instance key_le_dec a b : Decision (key_le a b).
Proof. unfold key_le. apply _. Defined.

Lemma compareInts_range l : (-1 ≤ compareInts l ≤ 1)%Z.
Proof. induction l as [|[a b] l IH]; simpl; repeat case_scrutinee; lia. Qed.

Lemma key_le_refl k : key_le k k.
Proof. unfold key_le. by rewrite (proj2 (comparePrecedence_zero k k)). Qed.

Lemma key_le_antisym a b : key_le a b → key_le b a → a = b.
Proof.
  unfold key_le. intros. apply comparePrecedence_zero.
  pose proof (comparePrecedence_antisym a b). lia.
Qed.

Lemma key_le_total a b : key_le a b ∨ key_le b a.
Proof. unfold key_le. rewrite (comparePrecedence_antisym b a). lia. Qed.

Lemma key_le_trans a b c : key_le a b → key_le b c → key_le a c.
Proof.
  unfold key_le. rewrite !comparePrecedence_zip. cbv zeta.
  pose proof (compareInts_trans (key_ints a) (key_ints b) (key_ints c) eq_refl eq_refl) as Ht.
  pose proof (string_ltb_false_trans (key_routeID a) (key_routeID b) (key_routeID c)) as Hs.
  revert Ht. generalize (compareInts (zip (key_ints a) (key_ints b))) as ab.
  generalize (compareInts (zip (key_ints b) (key_ints c))) as bc.
  generalize (compareInts (zip (key_ints a) (key_ints c))) as ac. intros ac bc ab Ht.
  destruct (Z.eqb_spec ab 0), (Z.eqb_spec bc 0), (Z.eqb_spec ac 0); simpl; try lia.
  destruct (String.ltb (key_routeID a) (key_routeID b)); [done|].
  destruct (String.ltb (key_routeID b) (key_routeID c)); [done|].
  rewrite Hs by done. by destruct (String.ltb (key_routeID c) (key_routeID a)).
Qed.

(** ** What a trie stores *)

(** The trie address of a segment list: parameter names do not count, and
    nothing follows a wildcard. *)
Fixpoint shape (segments : list pathSegment) : list pathSegment :=
  match segments with
  | [] => []
  | s :: rest =>
      match seg_kind s with
      | segmentPrefix => [mkSegment segmentPrefix ""]
      | segmentCatchAll => [mkSegment segmentCatchAll ""]
      | segmentParameter => mkSegment segmentParameter "" :: shape rest
      | segmentStatic => s :: shape rest
      end
  end.

(** [stored n segments c]: [c] is in the list of the node that [segments]
    leads to from [n]. *)
Fixpoint stored (n : pathNode) (segments : list pathSegment) (c : candidate) : Prop :=
  match segments with
  | [] => c ∈ node_terminal n
  | s :: rest =>
      match seg_kind s with
      | segmentPrefix => c ∈ node_prefix n
      | segmentCatchAll => c ∈ node_catchAll n
      | segmentParameter => ∃ child, node_parameter n = Some child ∧ stored child rest c
      | segmentStatic => ∃ child, node_static n !! seg_text s = Some child ∧ stored child rest c
      end
  end.

Lemma exists_some {A} (P : A → Prop) x : (∃ y, Some x = Some y ∧ P y) ↔ P x.
Proof. split; [by intros (? & [= <-] & ?)|by eauto]. Qed.

Lemma exists_none {A} (P : A → Prop) : (∃ y, None = Some y ∧ P y) ↔ False.
Proof. naive_solver. Qed.

Lemma stored_empty segments c : ¬ stored emptyNode segments c.
Proof.
  destruct segments as [|s rest]; simpl; [by apply not_elem_of_nil|].
  destruct (seg_kind s); try apply not_elem_of_nil; by intros (? & ? & _).
Qed.

Lemma stored_default o segments c :
  stored (default emptyNode o) segments c ↔ ∃ n, o = Some n ∧ stored n segments c.
Proof.
  destruct o as [n|]; simpl; [naive_solver|].
  split; [by intros ?%stored_empty|naive_solver].
Qed.

Lemma segment_static_eq s t :
  seg_kind s = segmentStatic → seg_kind t = segmentStatic → seg_text s = seg_text t → s = t.
Proof. destruct s, t; simpl. congruence. Qed.

(** Insertion adds the candidate at its own address and nowhere else. *)
Lemma stored_insertAt segments n value segments' c :
  stored (insertAt segments n value) segments' c ↔
  stored n segments' c ∨ (shape segments' = shape segments ∧ c = value).
Proof.
  assert (Hno : ∀ A B : Prop, ¬ B → A ↔ A ∨ B) by tauto.
  assert (Hcons : ∀ (x : pathSegment) l l', x :: l = x :: l' ↔ l = l').
  { intros. split; [by intros [=]|by intros ->]. }
  revert n segments'. induction segments as [|[k t] rest IH]; intros n segments'.
  - destruct segments' as [|[k' t'] rest'].
    + simpl. rewrite elem_of_app, list_elem_of_singleton. tauto.
    + destruct k'; apply Hno; by intros [? _].
  - destruct segments' as [|[k' t'] rest']; [destruct k; apply Hno; by intros [? _]|].
    destruct k, k'; try (apply Hno; by intros [? _]); simpl.
    + destruct (decide (t' = t)) as [->|Ht].
      * by rewrite lookup_insert_eq, exists_some, IH, stored_default, Hcons.
      * rewrite lookup_insert_ne by done. apply Hno. by intros [[=] _].
    + by rewrite exists_some, IH, stored_default, Hcons.
    + rewrite elem_of_app, list_elem_of_singleton. tauto.
    + rewrite elem_of_app, list_elem_of_singleton. tauto.
Qed.

(** ** Finalisation *)

Lemma finalizeNode_unfold n :
  let u := map_fold (fun _ child upper => includeChild upper child)
             (let upper := foldl includeUpper (node_upper n, node_upperValid n)
                (cand_key <$> (sortCandidates (node_terminal n)
                  ++ sortCandidates (node_prefix n) ++ sortCandidates (node_catchAll n))) in
              match finalizeNode <$> node_parameter n with
              | None => upper | Some p => includeChild upper p end)
             (finalizeNode <$> node_static n) in
  finalizeNode n =
    mkNode (finalizeNode <$> node_static n) (finalizeNode <$> node_parameter n)
      (sortCandidates (node_terminal n)) (sortCandidates (node_prefix n))
      (sortCandidates (node_catchAll n)) (fst u) (snd u).
Proof. by destruct n as [? [] ? ? ? ? ?]. Qed.

Lemma finalizeNode_static n : node_static (finalizeNode n) = finalizeNode <$> node_static n.
Proof. by rewrite finalizeNode_unfold. Qed.
Lemma finalizeNode_parameter n :
  node_parameter (finalizeNode n) = finalizeNode <$> node_parameter n.
Proof. by rewrite finalizeNode_unfold. Qed.

Lemma elem_of_sortCandidates c l : c ∈ sortCandidates l ↔ c ∈ l.
Proof. apply elem_of_sort_slice. Qed.

Lemma stored_finalize n segments c : stored (finalizeNode n) segments c ↔ stored n segments c.
Proof.
  revert n. induction segments as [|[k t] rest IH]; intros n; simpl.
  - rewrite finalizeNode_unfold. apply elem_of_sortCandidates.
  - destruct k; simpl.
    + rewrite finalizeNode_static, lookup_fmap.
      destruct (node_static n !! t) as [ch|]; simpl; [|by rewrite !exists_none].
      by rewrite !exists_some.
    + rewrite finalizeNode_parameter.
      destruct (node_parameter n) as [ch|]; simpl; [|by rewrite !exists_none].
      by rewrite !exists_some.
    + rewrite finalizeNode_unfold. apply elem_of_sortCandidates.
    + rewrite finalizeNode_unfold. apply elem_of_sortCandidates.
Qed.

(** [bounded u k]: the upper bound [u] is valid and at least [k]. *)
Definition bounded (u : precedenceKey * bool) (k : precedenceKey) : Prop :=
  snd u = true ∧ key_le k (fst u).

Lemma includeUpper_new u k : bounded (includeUpper u k) k.
Proof.
  unfold includeUpper, bounded, key_le. destruct u as [key []]; simpl.
  - destruct (Z.ltb_spec 0 (comparePrecedence k key)); simpl; [|by split].
    split; [done|apply key_le_refl].
  - split; [done|apply key_le_refl].
Qed.

Lemma includeUpper_mono u k k' : bounded u k' → bounded (includeUpper u k) k'.
Proof.
  unfold includeUpper, bounded. destruct u as [key valid]; simpl. intros [-> Hle]. simpl.
  destruct (Z.ltb_spec 0 (comparePrecedence k key)); simpl; [|by split].
  split; [done|]. apply (key_le_trans _ key); [done|].
  unfold key_le. rewrite comparePrecedence_antisym. lia.
Qed.

Lemma includeChild_mono u ch k' : bounded u k' → bounded (includeChild u ch) k'.
Proof. unfold includeChild. destruct (node_upperValid ch); [apply includeUpper_mono|done]. Qed.

Definition node_bound (n : pathNode) : precedenceKey * bool := (node_upper n, node_upperValid n).

Lemma includeChild_new u ch k : bounded (node_bound ch) k → bounded (includeChild u ch) k.
Proof.
  unfold bounded, includeChild. simpl. intros [-> Hle].
  destruct (includeUpper_new u (node_upper ch)) as [? ?]. split; [done|].
  by apply (key_le_trans _ (node_upper ch)).
Qed.

Lemma foldl_includeUpper_mono ks u k' : bounded u k' → bounded (foldl includeUpper u ks) k'.
Proof. revert u. induction ks; simpl; auto using includeUpper_mono. Qed.

Lemma foldl_includeUpper_in ks u k : k ∈ ks → bounded (foldl includeUpper u ks) k.
Proof.
  revert u. induction ks as [|k0 ks IH]; intros u; simpl; [by intros ?%elem_of_nil|].
  intros [->|Hin]%elem_of_cons; [|by apply IH].
  apply foldl_includeUpper_mono, includeUpper_new.
Qed.

Lemma map_fold_includeChild_mono (m : gmap string pathNode) u k' :
  bounded u k' → bounded (map_fold (fun _ child upper => includeChild upper child) u m) k'.
Proof.
  intros Hb. rewrite map_fold_foldr. induction (map_to_list m) as [|[t ch] l IH]; simpl; [done|].
  by apply includeChild_mono.
Qed.

Lemma map_fold_includeChild_in (m : gmap string pathNode) u t ch k :
  m !! t = Some ch → bounded (node_bound ch) k →
  bounded (map_fold (fun _ child upper => includeChild upper child) u m) k.
Proof.
  rewrite <-elem_of_map_to_list, map_fold_foldr. intros Hin Hb.
  induction (map_to_list m) as [|[t' ch'] l IH]; simpl; [by apply elem_of_nil in Hin|].
  apply elem_of_cons in Hin as [[= <- <-]|Hin].
  - by apply includeChild_new.
  - by apply includeChild_mono, IH.
Qed.

(** The upper key of a finalised node bounds everything stored below it. *)
Lemma finalizeNode_bounds n segments c :
  stored n segments c → bounded (node_bound (finalizeNode n)) (cand_key c).
Proof.
  assert (Hlist : ∀ n c, c ∈ node_terminal n ++ node_prefix n ++ node_catchAll n →
                         bounded (node_bound (finalizeNode n)) (cand_key c)).
  { clear. intros n c Hin. unfold node_bound. rewrite finalizeNode_unfold. simpl.
    apply map_fold_includeChild_mono.
    assert (bounded (foldl includeUpper (node_upper n, node_upperValid n)
              (cand_key <$> (sortCandidates (node_terminal n)
                ++ sortCandidates (node_prefix n) ++ sortCandidates (node_catchAll n))))
              (cand_key c)).
    { apply foldl_includeUpper_in, list_elem_of_fmap_2.
      rewrite !elem_of_app, !elem_of_sortCandidates in *. done. }
    destruct (node_parameter n); simpl; [by apply includeChild_mono|done]. }
  revert n. induction segments as [|[k t] rest IH]; intros n; simpl.
  { intros Hin. apply Hlist. rewrite elem_of_app. by left. }
  destruct k; simpl.
  - intros (ch & Hch & Hst). unfold node_bound. rewrite finalizeNode_unfold. simpl.
    apply (map_fold_includeChild_in _ _ t (finalizeNode ch)); [|by apply IH].
    by rewrite lookup_fmap, Hch.
  - intros (ch & Hch & Hst). unfold node_bound. rewrite finalizeNode_unfold. simpl.
    apply map_fold_includeChild_mono. rewrite Hch. simpl. by apply includeChild_new, IH.
  - intros Hin. apply Hlist. rewrite !elem_of_app. by right; left.
  - intros Hin. apply Hlist. rewrite !elem_of_app. by right; right.
Qed.

(** The lists of a finalised node are sorted, best first. *)
Lemma sortCandidates_sorted l :
  StronglySorted (fun a b => key_le (cand_key b) (cand_key a)) (sortCandidates l).
Proof.
  unfold sortCandidates.
  assert (Hs : StronglySorted (not_after candidate_before) (sort_slice candidate_before l)).
  { apply sort_slice_sorted; unfold candidate_before.
    - intros x y. rewrite comparePrecedence_antisym, Z.ltb_lt, Z.ltb_ge. lia.
    - intros x y z. rewrite !Z.ltb_ge. intros. by apply (key_le_trans _ (cand_key y)). }
  eapply StronglySorted_weaken; [|exact Hs]. unfold not_after, candidate_before, key_le.
  intros a b. by rewrite Z.ltb_ge.
Qed.

(** ** The two facts the search relies on *)

(** [comparePrecedence] orders keys totally: it is antisymmetric, zero only
    on equal keys, and transitive; so a set of candidates with distinct keys
    has one winner. *)
Theorem comparePrecedence_total_order a b c :
  comparePrecedence a b = (- comparePrecedence b a)%Z ∧
  (comparePrecedence a b = 0%Z ↔ a = b) ∧
  (comparePrecedence a b ≤ 0 → comparePrecedence b c ≤ 0 → comparePrecedence a c ≤ 0)%Z.
Proof.
  split_and!; [apply comparePrecedence_antisym|apply comparePrecedence_zero|].
  apply key_le_trans.
Qed.

(** finalisation keeps the candidates of a trie, sorts the lists of its
    nodes best first, and bounds each subtree by a valid upper key. *)
Theorem finalizeNode_correct n segments c :
  (stored (finalizeNode n) segments c ↔ stored n segments c) ∧
  (stored n segments c →
     node_upperValid (finalizeNode n) = true ∧
     (comparePrecedence (cand_key c) (node_upper (finalizeNode n)) ≤ 0)%Z) ∧
  Forall (StronglySorted (fun a b => comparePrecedence (cand_key b) (cand_key a) ≤ 0)%Z)
    [node_terminal (finalizeNode n); node_prefix (finalizeNode n); node_catchAll (finalizeNode n)].
Proof.
  split_and!; [apply stored_finalize|apply finalizeNode_bounds|].
  rewrite finalizeNode_unfold. simpl. repeat (constructor; [apply sortCandidates_sorted|]).
  constructor.
Qed.
