(* ===== verification/RouterSearch.v ===== *)
(** * The trie search

    [consider] and [visit] leave a state that describes all candidates below
    the visited node: the sorted lists, the [upper] bounds and the walk down
    the path skip only candidates that cannot change the outcome. *)

From S2P Require Import Prelude GoStrings Pattern Predicate Router RouterTrie.
#[local] Open Scope string_scope.
#[local] Open Scope nat_scope.
#[local] Open Scope list_scope.

(** ** The search *)

Section Search.
Context `{Unicode}.
Context (r : request) (path : string) (query : gmap string (list string)).

(** Everything but the method accepts the request. *)
Definition eligible (c : candidate) : bool :=
  fst (pattern_match (cand_path c) path)
  && forallb (predicate_holds r query) (cand_predicates c).

Definition hits (c : candidate) : bool :=
  eligible c && method_contains (cand_methods c) (req_method r).

(** [describes P s]: [s] is the outcome of considering the candidates [P]. *)
Record describes (P : candidate → Prop) (s : matcherState) : Prop := {
  describes_best :
    found s = true →
    ∃ c, P c ∧ hits c = true ∧ best s = cand_key c ∧ routeIndex s = cand_routeIndex c ∧
         params s = snd (pattern_match (cand_path c) path);
  describes_max : ∀ c, P c → hits c = true → found s = true ∧ key_le (cand_key c) (best s);
  describes_allow :
    found s = false →
    ∀ m, m ∈ allow s ↔ ∃ c, P c ∧ eligible c = true ∧ m ∈ method_values (cand_methods c);
}.

Lemma describes_iff P Q s : (∀ c, P c ↔ Q c) → describes P s → describes Q s.
Proof.
  intros HPQ [Hb Hm Ha]. constructor.
  - intros Hf. destruct (Hb Hf) as (c & Hc & ?). exists c. by rewrite <-HPQ.
  - intros c Hc. apply Hm. by apply HPQ.
  - intros Hf m. rewrite (Ha Hf). by setoid_rewrite HPQ.
Qed.

(** Candidates that cannot win do not change what a state describes. *)
Lemma describes_skip P Q s :
  describes P s →
  (∀ c, Q c → eligible c = false ∨ (found s = true ∧ key_le (cand_key c) (best s))) →
  describes (fun c => P c ∨ Q c) s.
Proof.
  intros [Hb Hm Ha] HQ. constructor.
  - intros Hf. destruct (Hb Hf) as (c & Hc & ?). exists c. by auto.
  - intros c [Hc|Hc] Hh; [by apply Hm|]. destruct (HQ c Hc) as [He|?]; [|done].
    unfold hits in Hh. by rewrite He in Hh.
  - intros Hf m. rewrite (Ha Hf). split; [naive_solver|].
    intros (c & [Hc|Hc] & He & Hin); [by eauto|].
    destruct (HQ c Hc) as [?|[? _]]; congruence.
Qed.

Lemma describes_initial : describes (fun _ => False) (mkState false zeroKey 0 [] ∅).
Proof. constructor; simpl; [done|done|]. intros _ m. set_solver. Qed.

(** One candidate that beats the best so far, or meets no best. *)
Lemma describes_win P s c :
  describes P s → hits c = true →
  (found s = true → key_le (best s) (cand_key c)) →
  describes (fun d => P d ∨ d = c)
    (mkState true (cand_key c) (cand_routeIndex c) (snd (pattern_match (cand_path c) path))
       (allow s)).
Proof.
  intros [Hb Hm Ha] Hh Hle. constructor; simpl; [|intros d [Hd| ->] Hdh; split; try done|done].
  - intros _. exists c. by auto.
  - destruct (Hm d Hd Hdh) as [Hf ?]. apply (key_le_trans _ (best s)); auto.
  - apply key_le_refl.
Qed.

Lemma describes_reject P s c :
  describes P s → eligible c = true → hits c = false →
  describes (fun d => P d ∨ d = c) (addAllow s (cand_methods c)).
Proof.
  intros [Hb Hm Ha] He Hh. constructor; simpl.
  - intros Hf. destruct (Hb Hf) as (d & Hd & ?). exists d. by auto.
  - intros d [Hd| ->] Hdh; [by apply Hm|congruence].
  - intros Hf m. rewrite elem_of_union, elem_of_list_to_set, (Ha Hf). naive_solver.
Qed.

(** *** Descending the trie *)

(** The position behind the segment that starts at [position]. *)
Definition next_position (position : nat) : nat :=
  if segmentEnd path position <? String.length path
  then S (segmentEnd path position) else S (String.length path).

(** The rest of a pattern accepts the path from [position] on. *)
Definition walks (segments : list pathSegment) (position : nat) : Prop :=
  segments = [] ∨ fst (matchSegments path segments position []) = true.

Lemma matchSegments_params segments position ps ps' :
  fst (matchSegments path segments position ps) =
  fst (matchSegments path segments position ps').
Proof.
  revert position ps ps'. induction segments as [|[k t] rest IH]; intros position ps ps'; [done|].
  simpl. destruct (_ <? position); [done|].
  destruct k; [|  |done|done].
  - destruct (String.eqb _ t); [|done]. destruct rest; destruct (Nat.eqb _ _); done || apply IH.
  - destruct (Nat.eqb _ position); [done|].
    destruct rest; destruct (Nat.eqb _ _); done || apply IH.
Qed.

Lemma shape_nil segments : shape segments = [] → segments = [].
Proof. destruct segments as [|[k t] rest]; simpl; [done|]. by destruct k. Qed.

Lemma matchSegments_shape segments segments' position ps :
  shape segments = shape segments' →
  fst (matchSegments path segments position ps) =
  fst (matchSegments path segments' position ps).
Proof.
  revert segments' position ps.
  induction segments as [|[k t] rest IH]; intros [|[k' t'] rest'] position ps Hs;
    [done|by destruct k'|by destruct k|].
  simpl. destruct (_ <? position); [done|].
  assert (Hrest : ∀ e qs qs', shape rest = shape rest' →
    fst match rest with
        | [] => if Nat.eqb e (String.length path) then (true, qs) else (false, qs)
        | _ => if Nat.eqb e (String.length path) then (false, [])
               else matchSegments path rest (S e) qs
        end =
    fst match rest' with
        | [] => if Nat.eqb e (String.length path) then (true, qs') else (false, qs')
        | _ => if Nat.eqb e (String.length path) then (false, [])
               else matchSegments path rest' (S e) qs'
        end).
  { intros e qs qs' Hsh. destruct rest as [|x rest], rest' as [|x' rest'].
    - by destruct (Nat.eqb _ _).
    - by apply symmetry, shape_nil in Hsh.
    - by apply shape_nil in Hsh.
    - destruct (Nat.eqb _ _); [done|].
      etrans; [apply (matchSegments_params _ _ _ qs')|]. by apply IH. }
  destruct k, k'; simpl in Hs; try done.
  - injection Hs as -> Hs. destruct (String.eqb _ t'); [by apply Hrest|done].
  - injection Hs as Hs. destruct (Nat.eqb _ position); [done|by apply Hrest].
Qed.

Lemma walks_shape segments segments' position :
  shape segments = shape segments' → walks segments position → walks segments' position.
Proof.
  intros Hs [->|Hm]; [left; by apply shape_nil|]. right.
  by rewrite <-(matchSegments_shape _ _ _ _ Hs).
Qed.

(** A step below a static or a parameter segment. *)
Lemma walks_step s rest position :
  is_wild s = false → walks (s :: rest) position →
  position ≤ String.length path ∧ walks rest (next_position position) ∧
  match seg_kind s with
  | segmentStatic => seg_text s = slice path position (segmentEnd path position)
  | _ => position < segmentEnd path position
  end.
Proof.
  intros Hw [?|Hm]; [done|]. simpl in Hm.
  destruct (Nat.ltb_spec (String.length path) position) as [?|Hle]; [done|]. split; [done|].
  pose proof (segmentEnd_bounds path position Hle) as [Hlo Hhi]. unfold next_position.
  set (e := segmentEnd path position) in *.
  assert (Hrest : ∀ qs,
    fst match rest with
        | [] => if Nat.eqb e (String.length path) then (true, qs) else (false, qs)
        | _ => if Nat.eqb e (String.length path) then (false, [])
               else matchSegments path rest (S e) qs
        end = true →
    walks rest (if e <? String.length path then S e else S (String.length path))).
  { intros qs. destruct rest as [|x rest]; [by left|].
    destruct (Nat.eqb_spec e (String.length path)); [done|].
    destruct (Nat.ltb_spec e (String.length path)); [|lia].
    intros Hx. right. by rewrite (matchSegments_params _ _ _ qs). }
  unfold is_wild in Hw. destruct (seg_kind s); try done.
  - destruct (String.eqb_spec (slice path position e) (seg_text s)); [|done].
    split; [by eapply Hrest|done].
  - destruct (Nat.eqb_spec e position); [done|]. split; [by eapply Hrest|lia].
Qed.

(** Every candidate below [n] that accepts the request also accepts the path
    from [position] on. *)
Definition linked (n : pathNode) (position : nat) : Prop :=
  ∀ segments c, stored n segments c → eligible c = true → walks segments position.

Lemma linked_static n t ch position :
  linked n position → node_static n !! t = Some ch → linked ch (next_position position).
Proof.
  intros Hl Ht segments c Hst He.
  assert (Hw : walks (mkSegment segmentStatic t :: segments) position)
    by (apply (Hl _ c); [by exists ch|done]).
  by apply walks_step in Hw as (_ & ? & _).
Qed.

Lemma linked_parameter n ch position :
  linked n position → node_parameter n = Some ch → linked ch (next_position position).
Proof.
  intros Hl Ht segments c Hst He.
  assert (Hw : walks (mkSegment segmentParameter "" :: segments) position)
    by (apply (Hl _ c); [by exists ch|done]).
  by apply walks_step in Hw as (_ & ? & _).
Qed.

Definition below (o : option pathNode) (c : candidate) : Prop :=
  ∃ n segments, o = Some n ∧ stored n segments c.

(** A candidate below [n] is in one of its lists, below the child the search
    descends to, or cannot accept the request. *)
Lemma below_cases n position c :
  linked n position → below (Some n) c →
  c ∈ node_terminal n ++ node_prefix n ++ node_catchAll n ∨ eligible c = false ∨
  (position ≤ String.length path ∧
   (below (node_static n !! slice path position (segmentEnd path position)) c ∨
    (position < segmentEnd path position ∧ below (node_parameter n) c))).
Proof.
  intros Hl (n' & segments & [= <-] & Hst). rewrite !elem_of_app.
  destruct (eligible c) eqn:He; [|by auto].
  pose proof (Hl _ _ Hst He) as Hw.
  destruct segments as [|s rest]; simpl in Hst; [by auto|].
  destruct (is_wild s) eqn:Hwild.
  { unfold is_wild in Hwild. destruct (seg_kind s); by auto. }
  apply walks_step in Hw as (Hle & _ & Hk); [|done]. right; right. split; [done|].
  destruct (seg_kind s) eqn:Ek; unfold is_wild in Hwild; rewrite ?Ek in Hwild; try done;
    destruct Hst as (ch & Hch & Hst).
  - left. rewrite <-Hk. by exists ch, rest.
  - right. split; [done|]. by exists ch, rest.
Qed.

(** A node ready to be searched from [position]. *)
Definition searchable (o : option pathNode) (position : nat) : Prop :=
  ∀ m, o = Some m → (∃ n, m = finalizeNode n) ∧ linked m position.

Lemma searchable_static m n position t :
  m = finalizeNode n → linked m position →
  searchable (node_static m !! t) (next_position position).
Proof.
  intros -> Hl ch Hch. split; [|by eapply linked_static].
  rewrite finalizeNode_static, lookup_fmap in Hch.
  destruct (node_static n !! t) as [n'|]; [|done]. injection Hch as <-. by eauto.
Qed.

Lemma searchable_parameter m n position :
  m = finalizeNode n → linked m position →
  searchable (node_parameter m) (next_position position).
Proof.
  intros -> Hl ch Hch. split; [|by eapply linked_parameter].
  rewrite finalizeNode_parameter in Hch.
  destruct (node_parameter n) as [n'|]; [|done]. injection Hch as <-. by eauto.
Qed.

Lemma prune_describes P s n :
  describes P s → prune s (finalizeNode n) = true →
  describes (fun c => P c ∨ below (Some (finalizeNode n)) c) s.
Proof.
  intros Hd Hp. apply describes_skip; [done|]. intros c (m & segments & [= <-] & Hst).
  rewrite stored_finalize in Hst. apply finalizeNode_bounds in Hst as [Hv Hle]. right.
  unfold prune in Hp. simpl in Hv. rewrite Hv in Hp. simpl in Hp. bool_hyps. split; [done|].
  by apply (key_le_trans _ (node_upper (finalizeNode n))).
Qed.

(** *** The search, when the raw query of the request scans *)

Hypothesis query_scans : scanRawQuery (req_rawQuery r) = Ok query.

Lemma consider_describes values P s :
  describes P s →
  StronglySorted (fun a b => key_le (cand_key b) (cand_key a)) values →
  ∃ s', consider r path values s = Ok s' ∧ describes (fun c => P c ∨ c ∈ values) s'.
Proof.
  revert P s. induction values as [|v values IH]; intros P s Hd Hs; simpl.
  { exists s. split; [done|]. eapply describes_iff; [|exact Hd]. set_solver. }
  inversion_clear Hs as [|? ? Hs' Hv].
  destruct (found s && (comparePrecedence (cand_key v) (best s) <=? 0)%Z) eqn:Hcut.
  { bool_hyps. exists s. split; [done|]. apply describes_skip; [done|].
    intros c Hc. right. split; [done|]. apply elem_of_cons in Hc as [->|Hc]; [done|].
    apply (key_le_trans _ (cand_key v)); [|done]. by eapply Forall_forall in Hv. }
  assert (Hbeat : found s = true → key_le (best s) (cand_key v)).
  { intros Hf. rewrite Hf in Hcut. simpl in Hcut. bool_hyps. unfold key_le.
    rewrite comparePrecedence_antisym. lia. }
  assert (Hstep : ∀ s1, describes (fun d => P d ∨ d = v) s1 →
    ∃ s', consider r path values s1 = Ok s' ∧ describes (fun c => P c ∨ c ∈ v :: values) s').
  { intros s1 H1. destruct (IH _ _ H1 Hs') as (s' & ? & H2). exists s'. split; [done|].
    eapply describes_iff; [|exact H2]. intros c. rewrite elem_of_cons. tauto. }
  assert (Hskip : eligible v = false →
    ∃ s', consider r path values s = Ok s' ∧ describes (fun c => P c ∨ c ∈ v :: values) s').
  { intros He. apply Hstep, describes_skip; [done|]. intros c ->. by left. }
  destruct (pattern_match (cand_path v) path) as [ok spans] eqn:Hpm.
  destruct ok; cbn [negb]; [|apply Hskip; unfold eligible; by rewrite Hpm].
  rewrite (evaluate_ok _ _ query) by done. simpl.
  destruct (forallb (predicate_holds r query) (cand_predicates v)) eqn:Hpred; cbn [negb];
    [|apply Hskip; unfold eligible; by rewrite Hpm, Hpred].
  assert (He : eligible v = true) by (unfold eligible; by rewrite Hpm, Hpred).
  destruct (method_contains (cand_methods v) (req_method r)) eqn:Hmeth.
  - apply Hstep. replace spans with (snd (pattern_match (cand_path v) path)) by (by rewrite Hpm).
    apply describes_win; [done| |done]. unfold hits. by rewrite He, Hmeth.
  - apply Hstep, describes_reject; [done|done|]. unfold hits. by rewrite He, Hmeth.
Qed.

Lemma consider_node P s n :
  describes P s →
  ∃ s', (s ← consider r path (node_terminal (finalizeNode n)) s;
         s ← consider r path (node_prefix (finalizeNode n)) s;
         consider r path (node_catchAll (finalizeNode n)) s) = Ok s' ∧
        describes (fun c => P c ∨ c ∈ node_terminal (finalizeNode n)
                     ++ node_prefix (finalizeNode n) ++ node_catchAll (finalizeNode n)) s'.
Proof.
  intros Hd. rewrite finalizeNode_unfold. simpl.
  destruct (consider_describes (sortCandidates (node_terminal n)) P s) as (s1 & -> & H1);
    [done|apply sortCandidates_sorted|]. simpl.
  eapply consider_describes in H1 as (s2 & -> & H2); [|apply sortCandidates_sorted]. simpl.
  eapply consider_describes in H2 as (s3 & -> & H3); [|apply sortCandidates_sorted].
  eexists. split; [done|]. eapply describes_iff; [|exact H3].
  intros c. rewrite !elem_of_app. tauto.
Qed.

(** The child nodes the search descends to from [position]. *)
Definition static_child (m : pathNode) (position : nat) : option pathNode :=
  node_static m !! slice path position (segmentEnd path position).
Definition parameter_child (m : pathNode) (position : nat) : option pathNode :=
  if position <? segmentEnd path position then node_parameter m else None.

Definition descended (m : pathNode) (position : nat) (c : candidate) : Prop :=
  position ≤ String.length path ∧
  (below (static_child m position) c ∨ below (parameter_child m position) c).

(** The lists of a node and its two children account for all that can match. *)
Lemma describes_below m position P s :
  linked m position →
  describes (fun c => (P c ∨ c ∈ node_terminal m ++ node_prefix m ++ node_catchAll m) ∨
                      descended m position c) s →
  describes (fun c => P c ∨ below (Some m) c) s.
Proof.
  intros Hl Hd. eapply describes_iff; [|apply (describes_skip _
    (fun c => below (Some m) c ∧ eligible c = false) _ Hd); intros c [_ ?]; by left].
  intros c. unfold descended, static_child, parameter_child. split.
  - intros [[[Hc|Hc]|[_ [Hc|Hc]]]|[Hc _]]; auto; right.
    + rewrite !elem_of_app in Hc. destruct Hc as [Hc|[Hc|Hc]].
      * by exists m, [].
      * by exists m, [mkSegment segmentPrefix ""].
      * by exists m, [mkSegment segmentCatchAll ""].
    + destruct Hc as (ch & segments & Hch & Hst).
      exists m, (mkSegment segmentStatic (slice path position (segmentEnd path position))
                 :: segments). split; [done|]. by exists ch.
    + destruct (position <? _); [|by destruct Hc as (? & ? & ? & _)].
      destruct Hc as (ch & segments & Hch & Hst).
      exists m, (mkSegment segmentParameter "" :: segments). split; [done|]. by exists ch.
  - intros [Hc|Hc]; [by auto|].
    destruct (below_cases m position c Hl Hc) as [?|[?|(Hle & [?|[Hlt ?]])]]; auto.
    left. right. split; [done|]. right. by rewrite (proj2 (Nat.ltb_lt _ _)).
Qed.

Lemma next_position_bounds position :
  position ≤ String.length path →
  position < next_position position ≤ S (String.length path).
Proof.
  intros Hle. pose proof (segmentEnd_bounds path position Hle). unfold next_position.
  destruct (_ <? _) eqn:E; bool_hyps; lia.
Qed.

Lemma visit_describes fuel o position P s :
  String.length path + 2 ≤ fuel + position → position ≤ S (String.length path) →
  searchable o position → describes P s →
  ∃ s', visit r path fuel o position s = Ok s' ∧ describes (fun c => P c ∨ below o c) s'.
Proof.
  revert o position P s.
  induction fuel as [|fuel IH]; intros o position P s Hfuel Hpos Hs Hd; [lia|].
  destruct o as [m|]; simpl.
  2: { exists s. split; [done|]. eapply describes_iff; [|exact Hd].
       unfold below. naive_solver. }
  destruct (Hs m eq_refl) as [[n Hm] Hl].
  destruct (prune s m) eqn:Hp.
  { exists s. split; [done|]. subst m. by apply prune_describes. }
  destruct (consider_node P s n Hd) as (s1 & Hc & H1). rewrite <-Hm in Hc, H1.
  destruct (consider r path (node_terminal m) s) as [t1|]; simpl in Hc |- *; [|done].
  destruct (consider r path (node_prefix m) t1) as [t2|]; simpl in Hc |- *; [|done].
  rewrite Hc. simpl.
  destruct (Nat.ltb_spec (String.length path) position) as [Hgt|Hle].
  { exists s1. split; [done|]. apply (describes_below m position); [done|].
    eapply describes_iff; [|exact H1]. intros c. unfold descended.
    split; [by auto|]. intros [?|[? _]]; [done|lia]. }
  pose proof (next_position_bounds position Hle) as Hnext.
  assert (Hss : searchable (static_child m position) (next_position position))
    by (by eapply searchable_static).
  assert (Hsp : searchable (parameter_child m position) (next_position position)).
  { unfold parameter_child. destruct (_ <? _); [by eapply searchable_parameter|done]. }
  fold (next_position position) (static_child m position) (parameter_child m position).
  destruct (match static_child m position with Some _ => _ | None => _ end).
  - destruct (IH _ (next_position position) _ s1 ltac:(lia) ltac:(lia) Hsp H1) as (s2 & -> & H2).
    destruct (IH _ (next_position position) _ s2 ltac:(lia) ltac:(lia) Hss H2) as (s3 & Hv & H3).
    exists s3. split; [exact Hv|]. apply (describes_below m position); [done|].
    eapply describes_iff; [|exact H3]. intros c. unfold descended. tauto.
  - destruct (IH _ (next_position position) _ s1 ltac:(lia) ltac:(lia) Hss H1) as (s2 & -> & H2).
    destruct (IH _ (next_position position) _ s2 ltac:(lia) ltac:(lia) Hsp H2) as (s3 & Hv & H3).
    exists s3. split; [exact Hv|]. apply (describes_below m position); [done|].
    eapply describes_iff; [|exact H3]. intros c. unfold descended. tauto.
Qed.
End Search.

(** ** Errors of the search *)

Section Errors.
Context `{Unicode} (r : request) (path : string).

Lemma consider_err values s e :
  consider r path values s = Err e →
  ∃ qe, e = MatchQuery qe ∧ scanRawQuery (req_rawQuery r) = Err qe.
Proof.
  revert s. induction values as [|v values IH]; intros s; simpl; [done|].
  destruct (_ && _); [done|]. destruct (pattern_match _ _) as [[] spans]; simpl; [|apply IH].
  destruct (evaluate (cand_predicates v) r) as [[]|qe] eqn:He; simpl.
  - destruct (method_contains _ _); apply IH.
  - apply IH.
  - intros [= <-]. exists qe. split; [done|]. by eapply evaluate_err.
Qed.

(** With the fuel [Match] gives it, a search stops only at a malformed query. *)
Lemma visit_err fuel o position s e :
  String.length path + 2 ≤ fuel + position → position ≤ S (String.length path) →
  visit r path fuel o position s = Err e →
  ∃ qe, e = MatchQuery qe ∧ scanRawQuery (req_rawQuery r) = Err qe.
Proof.
  revert o position s. induction fuel as [|fuel IH]; intros o position s Hfuel Hpos; [lia|].
  destruct o as [m|]; simpl; [|done]. destruct (prune s m); [done|].
  destruct (consider r path (node_terminal m) s) as [s1|] eqn:E1; simpl;
    [|intros [= <-]; by eapply consider_err].
  destruct (consider r path (node_prefix m) s1) as [s2|] eqn:E2; simpl;
    [|intros [= <-]; by eapply consider_err].
  destruct (consider r path (node_catchAll m) s2) as [s3|] eqn:E3; simpl;
    [|intros [= <-]; by eapply consider_err].
  destruct (Nat.ltb_spec (String.length path) position) as [Hgt|Hle]; [done|].
  fold (next_position path position).
  pose proof (next_position_bounds path position Hle) as Hnext.
  assert (IH' : ∀ o s, visit r path fuel o (next_position path position) s = Err e →
    ∃ qe, e = MatchQuery qe ∧ scanRawQuery (req_rawQuery r) = Err qe).
  { intros o' s'. apply IH; lia. }
  destruct (match node_static m !! _ with Some _ => _ | None => _ end).
  - destruct (visit r path fuel (if _ <? _ then _ else _) _ s3) as [s4|] eqn:E4; simpl.
    + apply IH'.
    + intros [= ->]. by eapply IH'.
  - destruct (visit r path fuel (node_static m !! _) _ s3) as [s4|] eqn:E4; simpl.
    + apply IH'.
    + intros [= ->]. by eapply IH'.
Qed.
End Errors.
