(* ===== verification/RouterCorrect.v ===== *)
(** * Correctness of the compiled router

    The compiled tries hold exactly the entries of the routes, and [Match]
    returns what a linear scan over them would: the highest-precedence
    candidate that accepts the request, or the methods of those that reject
    only its method.  Hence the result does not depend on the declaration order
    of the routes. *)

From S2P Require Import Prelude GoStrings Pattern Predicate Router RouterTrie RouterSearch.
#[local] Open Scope string_scope.
#[local] Open Scope nat_scope.
#[local] Open Scope list_scope.

(** ** The compiled tries *)

(** A compiled route contributes one entry per host, or one without a host. *)
Definition entry : Type := option compiledHostPattern * candidate.

Definition host_entries (base : candidate) (hosts : list compiledHostPattern) : list entry :=
  match hosts with
  | [] => [(None, with_host_rank base 0)]
  | _ => (fun h => (Some h, with_host_rank base (host_kindRank (host_specificity h)))) <$> hosts
  end.

Section Entries.
Context `{Unicode}.

Definition route_entries (route : RouteSpec) : list entry :=
  match compileRoute route with
  | Ok (base, hosts) => host_entries base hosts
  | Err _ => []
  end.

Definition all_entries (routes : list RouteSpec) : list entry := routes ≫= route_entries.

(** The host index a pattern lives in. *)
Definition tree_key (h : option compiledHostPattern) : option (hostPatternKind * string) :=
  (fun h => (host_kind h, host_value h)) <$> h.

Definition router_tree (router : Router) (k : option (hostPatternKind * string))
    : option pathNode :=
  match k with
  | None => Some (hostless router)
  | Some (hostPatternExact, v) => exactHosts router !! v
  | Some (hostPatternWildcard, v) => wildcardHosts router !! v
  end.

(** [contains router k segments c]: [c] is stored at [segments] in tree [k]. *)
Definition contains (router : Router) (k : option (hostPatternKind * string))
    (segments : list pathSegment) (c : candidate) : Prop :=
  ∃ n, router_tree router k = Some n ∧ stored n segments c.

Definition at_own_address (segments : list pathSegment) (c : candidate) : Prop :=
  shape segments = shape (path_segments (cand_path c)).

Lemma contains_insertHost base router h k segments c :
  contains (insertHost base router h) k segments c ↔
  contains router k segments c ∨
  (k = Some (host_kind h, host_value h) ∧ at_own_address segments c ∧
   c = with_host_rank base (host_kindRank (host_specificity h))).
Proof.
  unfold contains, insertHost, at_own_address.
  set (current := with_host_rank base _).
  assert (Htree : ∀ (trees : gmap string pathNode) v,
    (∃ n, (<[host_value h := insertCandidate (default emptyNode (trees !! host_value h))
              current]> trees) !! v = Some n ∧ stored n segments c) ↔
    (∃ n, trees !! v = Some n ∧ stored n segments c) ∨
    (v = host_value h ∧ shape segments = shape (path_segments (cand_path c)) ∧ c = current)).
  { intros trees v. destruct (decide (v = host_value h)) as [->|Hv].
    - rewrite lookup_insert_eq, exists_some. unfold insertCandidate.
      rewrite stored_insertAt, stored_default. naive_solver.
    - rewrite lookup_insert_ne by done. naive_solver. }
  destruct (host_kind h), k as [[[] v]|]; simpl; rewrite ?Htree; naive_solver.
Qed.

Lemma contains_insertHosts base hosts router k segments c :
  contains (foldl (insertHost base) router hosts) k segments c ↔
  contains router k segments c ∨
  (at_own_address segments c ∧
   ∃ h, h ∈ hosts ∧ k = tree_key (Some h) ∧
        c = with_host_rank base (host_kindRank (host_specificity h))).
Proof.
  revert router. induction hosts as [|h hosts IH]; intros router; simpl; [set_solver|].
  rewrite IH, contains_insertHost. setoid_rewrite elem_of_cons. unfold tree_key. simpl.
  naive_solver.
Qed.

Lemma contains_insertRoute base hosts router k segments c :
  contains (insertRoute router base hosts) k segments c ↔
  contains router k segments c ∨
  (at_own_address segments c ∧ ∃ h, (h, c) ∈ host_entries base hosts ∧ k = tree_key h).
Proof.
  unfold insertRoute. destruct hosts as [|h hosts].
  - unfold contains, at_own_address. destruct k as [[[] v]|]; simpl.
    + split; [by auto|]. intros [?|(_ & h & [= -> _]%list_elem_of_singleton & ?)]; done.
    + split; [by auto|]. intros [?|(_ & h & [= -> _]%list_elem_of_singleton & ?)]; done.
    + rewrite !exists_some. unfold insertCandidate. rewrite stored_insertAt.
      setoid_rewrite list_elem_of_singleton. naive_solver.
  - rewrite contains_insertHosts. f_equiv. f_equiv. unfold host_entries.
    setoid_rewrite list_elem_of_fmap. naive_solver.
Qed.

(** ** What [Compile] accepts *)

Definition route_ok (route : RouteSpec) : Prop :=
  trim_space (spec_id route) ≠ "" ∧ is_ok (compileRoute route) = true.

Definition route_signature (route : RouteSpec) : string :=
  match compileRoute route with Ok (base, hosts) => signature_of base hosts | Err _ => "" end.

Lemma compileRoutes_contents i routes router ids sigs router' :
  compileRoutes i routes router ids sigs = Ok router' →
  ∀ k segments c, contains router' k segments c ↔
    contains router k segments c ∨
    (at_own_address segments c ∧ ∃ h, (h, c) ∈ all_entries routes ∧ k = tree_key h).
Proof.
  revert i router ids sigs.
  induction routes as [|route routes IH]; intros i router ids sigs Hc k segments c; simpl in Hc.
  { inv_ok. split; [by left|]. intros [?|(_ & h & Hin & _)]; [done|].
    by apply elem_of_nil in Hin. }
  destruct (String.eqb _ _); [done|]. case_bool_decide; [done|].
  destruct (compileRoute route) as [[base hosts]|] eqn:Hr; simpl in Hc; [|done].
  destruct (sigs !! _); [done|]. rewrite (IH _ _ _ _ Hc), contains_insertRoute.
  unfold all_entries. rewrite bind_cons. unfold route_entries at 2. rewrite Hr.
  setoid_rewrite elem_of_app. naive_solver.
Qed.

Lemma compileRoutes_accepts i routes router ids sigs :
  is_ok (compileRoutes i routes router ids sigs) = true ↔
    Forall route_ok routes ∧
    NoDup (spec_id <$> routes) ∧ Forall (fun route => spec_id route ∉ ids) routes ∧
    NoDup (route_signature <$> routes) ∧
    Forall (fun route => sigs !! route_signature route = None) routes.
Proof.
  revert i router ids sigs.
  induction routes as [|route routes IH]; intros i router ids sigs.
  { simpl. split; [|done]. intros _. split_and!; constructor. }
  rewrite !fmap_cons, !NoDup_cons, !Forall_cons. cbn [compileRoutes].
  unfold route_ok at 1. destruct (String.eqb_spec (trim_space (spec_id route)) "") as [->|Hid].
  { simpl. naive_solver. }
  case_bool_decide as Hin; [simpl; naive_solver|].
  destruct (compileRoute route) as [[base hosts]|] eqn:Hr; simpl; [|naive_solver].
  assert (Hsig : route_signature route = signature_of base hosts)
    by (unfold route_signature; by rewrite Hr).
  rewrite Hsig. destruct (sigs !! signature_of base hosts) eqn:Hs.
  { split; [done|]. intros (_ & _ & _ & _ & [Hn _]). congruence. }
  rewrite IH. rewrite !list_elem_of_fmap, !Forall_forall.
  setoid_rewrite not_elem_of_union. setoid_rewrite not_elem_of_singleton.
  split.
  - intros (H1 & H2 & H3 & H4 & H5). split_and!; try done; try (by apply H3).
    + intros (x & Hx & Hxin). by destruct (H3 x Hxin).
    + intros (x & Hx & Hxin). specialize (H5 x Hxin).
      rewrite <-Hx, lookup_insert_eq in H5. done.
    + intros x Hxin. specialize (H5 x Hxin). by apply lookup_insert_None in H5 as [? _].
  - intros ((_ & H1) & (H2 & H3) & (_ & H4) & (H5 & H6) & (_ & H7)). split_and!; try done.
    + intros x Hx. split; [|by apply H4]. intros Heq. apply H2. by exists x.
    + intros x Hx. apply lookup_insert_None. split; [by apply H7|].
      intros Heq. apply H5. by exists x.
Qed.
End Entries.

(** ** The reference matcher *)

Section Reference.
Context `{Unicode}.

Definition host_ok (host : string) (h : option compiledHostPattern) : bool :=
  match h with None => true | Some p => host_match p host end.

(** The candidates whose host accepts [host]. *)
Definition candidates_for (routes : list RouteSpec) (host : string) : list candidate :=
  snd <$> filter (fun e => host_ok host (fst e) = true) (all_entries routes).

Definition better (best : option candidate) (c : candidate) : option candidate :=
  match best with
  | None => Some c
  | Some b => if (0 <? comparePrecedence (cand_key c) (cand_key b))%Z then Some c else best
  end.

(** The best candidate that accepts the request, else the allowed methods. *)
Definition reference_match (r : request) (query : gmap string (list string))
    (cands : list candidate) : Result :=
  let path := effective_path r in
  match foldl better None (filter (fun c => hits r path query c = true) cands) with
  | Some c =>
      mkResult true false (cand_routeIndex c) (snd (pattern_match (cand_path c) path)) []
  | None =>
      let methods : gset string :=
        list_to_set (filter (fun c => eligible r path query c = true) cands
                       ≫= fun c => method_values (cand_methods c)) in
      if bool_decide (methods = ∅) then noMatch
      else mkResult false true 0 [] (sort_strings (elements methods))
  end.

Lemma foldl_better l b :
  match foldl better b l with
  | Some c => (c ∈ l ∨ b = Some c) ∧
              ∀ d, d ∈ l ∨ b = Some d → key_le (cand_key d) (cand_key c)
  | None => l = [] ∧ b = None
  end.
Proof.
  revert b. induction l as [|x l IH]; intros b; simpl.
  { destruct b as [b|]; [|done]. split; [by right|].
    intros d [Hd|[= ->]]; [by apply elem_of_nil in Hd|apply key_le_refl]. }
  specialize (IH (better b x)). destruct (foldl better (better b x) l) as [c|].
  2: { destruct IH as [_ Hb]. unfold better in Hb. by repeat case_scrutinee_in Hb. }
  destruct IH as [Hin Hmax].
  assert (Hx : key_le (cand_key x) (cand_key c) ∧
               ∀ d, b = Some d → key_le (cand_key d) (cand_key c)).
  { unfold better in Hmax, Hin. destruct b as [b|].
    2: { split; [apply Hmax; by right|done]. }
    destruct (Z.ltb_spec 0 (comparePrecedence (cand_key x) (cand_key b))).
    - assert (Hxc : key_le (cand_key x) (cand_key c)) by (apply Hmax; by right).
      split; [done|]. intros d [= <-]. eapply key_le_trans; [|exact Hxc].
      unfold key_le. rewrite comparePrecedence_antisym. lia.
    - assert (Hbc : key_le (cand_key b) (cand_key c)) by (apply Hmax; by right).
      split; [by eapply key_le_trans|]. by intros d [= <-]. }
  destruct Hx as [Hx Hb]. setoid_rewrite elem_of_cons. split.
  - destruct Hin as [?|Hin]; [by auto|]. unfold better in Hin.
    destruct b as [b|]; [|injection Hin as <-; by auto].
    destruct (Z.ltb _ _); injection Hin as <-; by auto.
  - intros d [[->|Hd]|Hd]; [done|apply Hmax; by left|by apply Hb].
Qed.

(** A state that describes candidates with consistent keys finishes as the
    reference does. *)
Lemma finish_reference r query cands s :
  (∀ c d, c ∈ cands → d ∈ cands → cand_key c = cand_key d →
     cand_routeIndex c = cand_routeIndex d ∧ cand_path c = cand_path d) →
  describes r (effective_path r) query (fun c => c ∈ cands) s →
  finish s = reference_match r query cands.
Proof.
  intros Huniq [Hb Hm Ha]. unfold finish, reference_match. cbv zeta.
  set (path := effective_path r) in *.
  pose proof (foldl_better (filter (fun c => hits r path query c = true) cands) None) as Hf.
  destruct (foldl better None _) as [c|].
  - destruct Hf as [[Hc|?] Hmax]; [|done]. apply list_elem_of_filter in Hc as [Hh Hc].
    destruct (Hm c Hc Hh) as [Hfound Hle]. rewrite Hfound.
    destruct (Hb Hfound) as (d & Hd & Hdh & Hbest & -> & ->).
    rewrite Hbest in Hle.
    assert (Heq : cand_key d = cand_key c).
    { apply key_le_antisym; [|done]. apply Hmax. left. by apply list_elem_of_filter. }
    destruct (Huniq d c Hd Hc Heq) as [-> ->]. done.
  - destruct Hf as [Hnil _].
    destruct (found s) eqn:Hfound.
    { destruct (Hb eq_refl) as (d & Hd & Hdh & _).
      assert (Hin : d ∈ filter (fun c => hits r path query c = true) cands)
        by (by apply list_elem_of_filter).
      rewrite Hnil in Hin. by apply elem_of_nil in Hin. }
    assert (Hallow : allow s =
      list_to_set (filter (fun c => eligible r path query c = true) cands
                     ≫= fun c => method_values (cand_methods c))).
    { apply set_eq. intros m. rewrite (Ha eq_refl), elem_of_list_to_set, list_elem_of_bind.
      setoid_rewrite list_elem_of_filter. naive_solver. }
    by rewrite Hallow.
Qed.

(** ** Candidates of a compiled router *)

Lemma host_entries_base base hosts h c :
  (h, c) ∈ host_entries base hosts →
  cand_routeIndex c = cand_routeIndex base ∧ cand_path c = cand_path base ∧
  cand_methods c = cand_methods base ∧ key_routeID (cand_key c) = cand_routeID base.
Proof.
  unfold host_entries. destruct hosts as [|h0 hosts].
  - by intros [= _ ->]%list_elem_of_singleton.
  - by intros (h' & [= _ ->] & _)%list_elem_of_fmap.
Qed.

Lemma all_entries_route routes h c :
  (h, c) ∈ all_entries routes →
  ∃ route base hosts, route ∈ routes ∧ compileRoute route = Ok (base, hosts) ∧
    cand_routeIndex c = cand_routeIndex base ∧ cand_path c = cand_path base ∧
    cand_methods c = cand_methods base ∧ key_routeID (cand_key c) = spec_id route.
Proof.
  unfold all_entries. intros (route & Hin & Hr)%list_elem_of_bind. unfold route_entries in Hin.
  destruct (compileRoute route) as [[base hosts]|] eqn:Hc; [|by apply elem_of_nil in Hin].
  exists route, base, hosts. apply host_entries_base in Hin as (-> & -> & -> & ->).
  split_and!; try done. unfold compileRoute in Hc. by inv_ok.
Qed.

Lemma candidates_methods routes host c :
  c ∈ candidates_for routes host → custom_only (cand_methods c).
Proof.
  intros ([h c'] & -> & Hc)%list_elem_of_fmap. apply list_elem_of_filter in Hc as [_ Hc].
  apply all_entries_route in Hc as (route & base & hosts & _ & Hc & _ & _ & Hm & _).
  simpl. rewrite Hm. unfold compileRoute in Hc. inv_ok. simpl.
  by eapply compileMethods_custom.
Qed.

(** Distinct route identifiers make the keys identify the route. *)
Lemma all_entries_consistent routes h h' c d :
  NoDup (spec_id <$> routes) →
  (h, c) ∈ all_entries routes → (h', d) ∈ all_entries routes → cand_key c = cand_key d →
  cand_routeIndex c = cand_routeIndex d ∧ cand_path c = cand_path d.
Proof.
  intros Hnd (r1 & b1 & hs1 & Hr1 & Hc1 & -> & -> & _ & Hid1)%all_entries_route
    (r2 & b2 & hs2 & Hr2 & Hc2 & -> & -> & _ & Hid2)%all_entries_route Hkey.
  assert (Hid : spec_id r1 = spec_id r2) by congruence.
  apply list_elem_of_lookup in Hr1 as [i Hi]. apply list_elem_of_lookup in Hr2 as [j Hj].
  assert (i = j) as ->.
  { eapply NoDup_lookup; [exact Hnd| |]; rewrite list_lookup_fmap; [by rewrite Hi|].
    rewrite Hj. simpl. by rewrite Hid. }
  rewrite Hi in Hj. injection Hj as ->. rewrite Hc1 in Hc2. by injection Hc2 as -> ->.
Qed.

Lemma Compile_inv routes router :
  Compile routes = Ok router →
  ∃ compiled, router = finalizeRouter compiled ∧ NoDup (spec_id <$> routes) ∧
    ∀ k segments c, contains compiled k segments c ↔
      at_own_address segments c ∧ ∃ h, (h, c) ∈ all_entries routes ∧ k = tree_key h.
Proof.
  unfold Compile. destruct routes as [|route routes]; [done|].
  intros (compiled & Hc & [= <-])%bind_ok_inv. exists compiled. split; [done|].
  pose proof (proj1 (compileRoutes_accepts 0 (route :: routes) (mkRouter ∅ ∅ emptyNode) ∅ ∅))
    as Hacc. rewrite Hc in Hacc. destruct (Hacc eq_refl) as (_ & Hnd & _).
  split; [done|]. intros k segments c. rewrite (compileRoutes_contents _ _ _ _ _ _ Hc).
  split; [|by auto]. intros [(n & Hn & Hst)|?]; [|done]. exfalso.
  destruct k as [[[] v]|]; simpl in Hn; [done|done|]. injection Hn as <-.
  by eapply stored_empty.
Qed.

Lemma router_tree_finalize compiled k :
  router_tree (finalizeRouter compiled) k = finalizeNode <$> router_tree compiled k.
Proof. destruct k as [[[] v]|]; simpl; by rewrite ?lookup_fmap. Qed.

(** Every tree of a compiled router can be searched from position 1. *)
Lemma tree_searchable r query compiled k :
  (∀ segments c, contains compiled k segments c → at_own_address segments c) →
  searchable r (effective_path r) query (router_tree (finalizeRouter compiled) k) 1.
Proof.
  intros Hown m Hm. rewrite router_tree_finalize in Hm.
  destruct (router_tree compiled k) as [n|] eqn:Hn; [|done]. injection Hm as <-.
  split; [by eauto|]. intros segments c Hst He. rewrite stored_finalize in Hst.
  assert (Ha : at_own_address segments c) by (apply Hown; by exists n).
  eapply walks_shape; [symmetry; exact Ha|].
  unfold eligible in He. bool_hyps. unfold pattern_match in *.
  destruct (has_prefix (effective_path r) "/"); simpl in *; [|done].
  destruct (path_segments (cand_path c)) eqn:Hs; [by left|by right].
Qed.

Lemma below_tree compiled k c :
  below (router_tree (finalizeRouter compiled) k) c ↔ ∃ segments, contains compiled k segments c.
Proof.
  unfold below, contains. rewrite router_tree_finalize. split.
  - intros (m & segments & Hm & Hst). destruct (router_tree compiled k) as [n|]; [|done].
    injection Hm as <-. rewrite stored_finalize in Hst. by eauto.
  - intros (segments & n & -> & Hst). exists (finalizeNode n), segments.
    by rewrite stored_finalize.
Qed.

(** The wildcard index consulted for a host. *)
Definition wildcard_tree (router : Router) (host : string) : option pathNode :=
  match wildcard_suffix host with
  | Some suffix => router_tree router (Some (hostPatternWildcard, suffix))
  | None => None
  end.

Lemma candidates_below routes compiled host c :
  (∀ k segments c, contains compiled k segments c ↔
     at_own_address segments c ∧ ∃ h, (h, c) ∈ all_entries routes ∧ k = tree_key h) →
  let router := finalizeRouter compiled in
  c ∈ candidates_for routes host ↔
    below (router_tree router (Some (hostPatternExact, host))) c ∨
    below (wildcard_tree router host) c ∨ below (router_tree router None) c.
Proof.
  intros Hcont router.
  assert (Hbelow : ∀ k, below (router_tree router k) c ↔
            ∃ h, (h, c) ∈ all_entries routes ∧ k = tree_key h).
  { intros k. unfold router. rewrite below_tree. setoid_rewrite Hcont.
    split; [by intros (? & _ & ?)|]. intros Hh. by exists (path_segments (cand_path c)). }
  assert (Hwild : below (wildcard_tree router host) c ↔
            ∃ h, (h, c) ∈ all_entries routes ∧
                 ∃ suffix, wildcard_suffix host = Some suffix ∧
                           tree_key h = Some (hostPatternWildcard, suffix)).
  { unfold wildcard_tree. destruct (wildcard_suffix host) as [suffix|].
    - rewrite Hbelow. naive_solver.
    - split; [by intros (? & ? & ? & _)|naive_solver]. }
  rewrite !Hbelow, Hwild. unfold candidates_for. rewrite list_elem_of_fmap.
  setoid_rewrite list_elem_of_filter. split.
  - intros ([h c'] & -> & Hok & Hin). simpl in *. destruct h as [p|]; [|by eauto 6].
    simpl in Hok. destruct (host_kind p) eqn:Hk.
    + left. exists (Some p). unfold host_match in Hok. rewrite Hk in Hok.
      apply String.eqb_eq in Hok as ->. unfold tree_key. simpl. by rewrite Hk.
    + right; left. rewrite host_match_wildcard in Hok by done. bool_hyps.
      exists (Some p). split; [done|]. exists (host_value p). split; [done|].
      unfold tree_key. simpl. by rewrite Hk.
  - intros [(h & Hin & Hk)|[(h & Hin & suffix & Hs & Hk)|(h & Hin & Hk)]];
      exists (h, c); (split; [done|]); (split; [|done]); destruct h as [p|]; try done;
      injection Hk as Hk Hv; simpl.
    + unfold host_match. rewrite <-Hk, Hv. apply String.eqb_refl.
    + rewrite host_match_wildcard by done. apply bool_decide_eq_true. by rewrite Hv.
Qed.

Section Outcome.
Context (routes : list RouteSpec) (compiled : Router) (r : request) (host : string).
Context (query : gmap string (list string)).
Hypothesis compiled_contents : ∀ k segments c, contains compiled k segments c ↔
  at_own_address segments c ∧ ∃ h, (h, c) ∈ all_entries routes ∧ k = tree_key h.
Hypothesis host_normalizes : NormalizeRequestHost (req_host r) = Ok host.
Hypothesis query_scans : scanRawQuery (req_rawQuery r) = Ok query.

#[local] Abbreviation router := (finalizeRouter compiled).
#[local] Abbreviation describes := (describes r (effective_path r) query).

Lemma visitRoot_describes k P s :
  describes P s →
  ∃ s', visitRoot r (router_tree router k) s = Ok s' ∧
        describes (fun c => P c ∨ below (router_tree router k) c) s'.
Proof.
  intros Hd. apply visit_describes; try done; try (unfold search_fuel; lia).
  apply tree_searchable. intros segments c Hc. by apply compiled_contents in Hc as [? _].
Qed.

Lemma visitHosts_describes :
  ∃ s, visitHosts router r (mkState false zeroKey 0 [] ∅) = Ok s ∧
    describes (fun c => below (router_tree router (Some (hostPatternExact, host))) c ∨
                        below (wildcard_tree router host) c) s.
Proof.
  pose proof (describes_initial r (effective_path r) query) as H0. unfold visitHosts.
  destruct (bool_decide (exactHosts router = ∅) && bool_decide (wildcardHosts router = ∅))
    eqn:Hempty.
  - apply andb_true_iff in Hempty as [Hex%bool_decide_eq_true Hwc%bool_decide_eq_true].
    eexists. split; [done|]. eapply describes_iff; [|exact H0]. intros c. split; [done|].
    unfold wildcard_tree, router_tree. rewrite Hex, lookup_empty.
    destruct (wildcard_suffix host); rewrite ?Hwc, ?lookup_empty;
      by intros [(? & ? & ? & _)|(? & ? & ? & _)].
  - rewrite host_normalizes. cbn [map_err mbind result_bind].
    destruct (visitRoot_describes (Some (hostPatternExact, host)) _ _ H0) as (s1 & Hv1 & H1).
    cbn [router_tree] in Hv1. rewrite Hv1. cbn [mbind result_bind].
    unfold wildcard_tree, wildcard_suffix.
    destruct (index_byte "." host) as [k|]; [destruct (0 <? k)|].
    + destruct (visitRoot_describes (Some (hostPatternWildcard, sdrop (S k) host)) _ _ H1)
        as (s2 & Hv2 & H2). exists s2. split; [exact Hv2|].
      eapply describes_iff; [|exact H2]. intros c. tauto.
    + exists s1. split; [done|]. eapply describes_iff; [|exact H1]. intros c.
      unfold below at 3. naive_solver.
    + exists s1. split; [done|]. eapply describes_iff; [|exact H1]. intros c.
      unfold below at 3. naive_solver.
Qed.

(** The final state describes the candidates of the request's host. *)
Lemma Match_describes :
  ∃ s, Match router r = Ok (finish s) ∧ describes (fun c => c ∈ candidates_for routes host) s.
Proof.
  destruct visitHosts_describes as (s1 & Hs1 & H1).
  destruct (visitRoot_describes None _ _ H1) as (s2 & Hv2 & H2).
  exists s2. unfold Match. rewrite Hs1. cbn [mbind result_bind].
  cbn [router_tree] in Hv2. rewrite Hv2. split; [done|].
  eapply describes_iff; [|exact H2]. intros c.
  rewrite (candidates_below routes compiled host c compiled_contents). tauto.
Qed.
End Outcome.

Lemma candidates_consistent routes host c d :
  NoDup (spec_id <$> routes) →
  c ∈ candidates_for routes host → d ∈ candidates_for routes host →
  cand_key c = cand_key d →
  cand_routeIndex c = cand_routeIndex d ∧ cand_path c = cand_path d.
Proof.
  intros Hnd ([h c'] & -> & Hc)%list_elem_of_fmap ([h' d'] & -> & Hd)%list_elem_of_fmap.
  apply list_elem_of_filter in Hc as [_ Hc], Hd as [_ Hd]. by eapply all_entries_consistent.
Qed.

Lemma Match_is_reference routes router r host query :
  Compile routes = Ok router →
  NormalizeRequestHost (req_host r) = Ok host →
  scanRawQuery (req_rawQuery r) = Ok query →
  Match router r = Ok (reference_match r query (candidates_for routes host)).
Proof.
  intros (compiled & -> & Hnd & Hcont)%Compile_inv Hhost Hquery.
  destruct (Match_describes routes compiled r host query Hcont Hhost Hquery) as (s & -> & Hs).
  f_equal. apply finish_reference; [|done]. intros c d. by apply candidates_consistent.
Qed.

(** ** Where a result comes from, also for requests that do not normalise *)

Definition state_from (P : candidate → Prop) (s : matcherState) : Prop :=
  found s = true → ∃ c, P c ∧ routeIndex s = cand_routeIndex c.

Lemma consider_from P r path values s s' : (∀ c, c ∈ values → P c) → state_from P s →
  consider r path values s = Ok s' → state_from P s'.
Proof.
  revert s. induction values as [|v values IH]; intros s Hv Hs; simpl; [by intros [= <-]|].
  assert (Hvs : ∀ c, c ∈ values → P c) by (intros c Hc; apply Hv; by right).
  destruct (_ && _); [by intros [= <-]|]. destruct (pattern_match _ _) as [[] spans]; simpl; [|by apply IH].
  destruct (evaluate _ _) as [[]|]; simpl; [|by apply IH|done].
  destruct (method_contains _ _); apply IH; try done. intros _. exists v. split; [apply Hv; by left|done].
Qed.

Lemma visit_from P r path fuel o position s s' : (∀ c, below o c → P c) → state_from P s →
  visit r path fuel o position s = Ok s' → state_from P s'.
Proof.
  revert o position s s'. induction fuel as [|fuel IH]; intros o position s s' HP Hs; [done|].
  destruct o as [n|]; cbn [visit]; [|by intros [= <-]]. destruct (prune s n); [by intros [= <-]|].
  assert (Hlists : ∀ k c, c ∈ match k with segmentPrefix => node_prefix n | segmentCatchAll => node_catchAll n
                              | _ => node_terminal n end → P c).
  { intros k c Hc. apply HP. destruct k; [exists n, []|exists n, []|exists n, [mkSegment segmentPrefix ""]|
      exists n, [mkSegment segmentCatchAll ""]]; done. }
  assert (Hstatic : ∀ t c, below (node_static n !! t) c → P c).
  { intros t c (m & segments & Hm & Hst). apply HP. exists n, (mkSegment segmentStatic t :: segments). simpl. by eauto. }
  assert (Hparam : ∀ (b : bool) c, below (if b then node_parameter n else None) c → P c).
  { intros [] c (m & segments & Hm & Hst); [|done]. apply HP. exists n, (mkSegment segmentParameter "" :: segments). simpl. by eauto. }
  intros (s1 & H1 & (s2 & H2 & (s3 & H3 & Hrest)%bind_ok_inv)%bind_ok_inv)%bind_ok_inv.
  apply (consider_from P) in H1; [|exact (Hlists segmentStatic)|done].
  apply (consider_from P) in H2; [|exact (Hlists segmentPrefix)|done].
  apply (consider_from P) in H3; [|exact (Hlists segmentCatchAll)|done].
  destruct (String.length path <? position); [by injection Hrest as <-|].
  destruct (match _ with Some _ => _ | None => _ end); apply bind_ok_inv in Hrest as (s4 & H4 & H5).
  - eapply IH; [|eapply IH; [| |exact H4]|exact H5]; eauto.
  - eapply IH; [|eapply IH; [| |exact H4]|exact H5]; eauto.
Qed.

(** A found index is that of a compiled route. *)
Lemma Match_index routes router r res : Compile routes = Ok router → Match router r = Ok res → Found res = true →
  ∃ route, route ∈ routes ∧ RouteIndex res = spec_index route.
Proof.
  intros (compiled & -> & _ & Hcont)%Compile_inv Hm Hf.
  set (P := fun c => ∃ route, route ∈ routes ∧ cand_routeIndex c = spec_index route).
  assert (Htree : ∀ k c, below (router_tree (finalizeRouter compiled) k) c → P c).
  { intros k c (segments & [_ (h & Hin & _)]%Hcont)%below_tree.
    apply all_entries_route in Hin as (route & base & hosts & Hr & Hc & Hi & _). exists route. split; [done|].
    rewrite Hi. unfold compileRoute in Hc. by inv_ok. }
  assert (Hinit : state_from P (mkState false zeroKey 0 [] ∅)) by (intros [=]).
  unfold Match in Hm. apply bind_ok_inv in Hm as (s1 & H1 & (s2 & H2 & [= <-])%bind_ok_inv).
  assert (Hs1 : state_from P s1).
  { unfold visitHosts in H1. destruct (_ && _); [by injection H1 as <-|].
    apply bind_ok_inv in H1 as (host & _ & (s0 & H0 & H1)%bind_ok_inv).
    assert (Hs0 : state_from P s0) by (eapply visit_from; [|exact Hinit|exact H0];
      exact (Htree (Some (hostPatternExact, host)))).
    destruct (index_byte "." host) as [k|]; [|by injection H1 as <-]. destruct (0 <? k); [|by injection H1 as <-].
    eapply visit_from; [|exact Hs0|exact H1]. exact (Htree (Some (hostPatternWildcard, sdrop (S k) host))). }
  assert (Hs2 : state_from P s2) by (eapply visit_from; [exact (Htree None)|exact Hs1|exact H2]).
  unfold finish in *. destruct (found s2) eqn:E; [|by destruct (bool_decide _)]. simpl.
  destruct (Hs2 E) as (c & (route & Hr & Hc) & ->). by exists route.
Qed.

Lemma Compile_ok_iff routes :
  is_ok (Compile routes) = true ↔
    routes ≠ [] ∧ Forall route_ok routes ∧
    NoDup (spec_id <$> routes) ∧ NoDup (route_signature <$> routes).
Proof.
  unfold Compile. destruct routes as [|route routes]; [naive_solver|].
  assert (Hb : is_ok (compiled ← compileRoutes 0 (route :: routes) (mkRouter ∅ ∅ emptyNode) ∅ ∅;
                      Ok (finalizeRouter compiled)) =
               is_ok (compileRoutes 0 (route :: routes) (mkRouter ∅ ∅ emptyNode) ∅ ∅))
    by (by destruct (compileRoutes _ _ _ _ _)).
  rewrite Hb, compileRoutes_accepts. split; [naive_solver|].
  intros (_ & ? & ? & ?). split_and!; try done; apply Forall_true; set_solver.
Qed.

(** [Match] fails only on a malformed host, when some route restricts
    hosts, or on a malformed query; its search bound always suffices. *)
Theorem Match_errors router r e :
  Match router r = Err e →
  (∃ he, e = MatchHost he ∧ NormalizeRequestHost (req_host r) = Err he ∧
         ¬ (exactHosts router = ∅ ∧ wildcardHosts router = ∅)) ∨
  (∃ qe, e = MatchQuery qe ∧ scanRawQuery (req_rawQuery r) = Err qe).
Proof.
  assert (Hroot : ∀ o s e, visitRoot r o s = Err e →
    ∃ qe, e = MatchQuery qe ∧ scanRawQuery (req_rawQuery r) = Err qe).
  { intros o s e'. apply visit_err; unfold search_fuel; lia. }
  unfold Match. destruct (visitHosts router r _) as [s|e'] eqn:Hh; simpl.
  { destruct (visitRoot r _ s) as [s'|e'] eqn:Hv; simpl; [done|].
    intros [= <-]. right. by eapply Hroot. }
  intros [= <-]. unfold visitHosts in Hh.
  destruct (_ && _) eqn:Hempty; [done|].
  destruct (NormalizeRequestHost (req_host r)) as [host|he] eqn:Hn; simpl in Hh.
  - right. destruct (visitRoot r (exactHosts router !! host) _) as [s1|] eqn:Hv; simpl in Hh.
    + destruct (index_byte "." host) as [k|]; [|done]. destruct (0 <? k); [|done].
      by eapply Hroot.
    + injection Hh as ->. by eapply Hroot.
  - left. injection Hh as <-. exists he. split_and!; [done|done|]. intros [Hx Hy].
    by rewrite !bool_decide_eq_true_2 in Hempty.
Qed.

Lemma reference_match_permutation r query cands cands' :
  cands ≡ₚ cands' →
  (∀ c d, c ∈ cands → d ∈ cands → cand_key c = cand_key d →
     cand_routeIndex c = cand_routeIndex d ∧ cand_path c = cand_path d) →
  reference_match r query cands = reference_match r query cands'.
Proof.
  intros Hp Huniq. unfold reference_match. cbv zeta. set (path := effective_path r).
  pose proof (foldl_better (filter (fun c => hits r path query c = true) cands) None) as Hf.
  pose proof (foldl_better (filter (fun c => hits r path query c = true) cands') None) as Hf'.
  assert (Hfp : filter (fun c => hits r path query c = true) cands
                ≡ₚ filter (fun c => hits r path query c = true) cands') by (by rewrite Hp).
  destruct (foldl better None (filter _ cands)) as [c|];
    destruct (foldl better None (filter _ cands')) as [c'|].
  - destruct Hf as [[Hc|?] Hm]; [|done]. destruct Hf' as [[Hc'|?] Hm']; [|done].
    assert (Heq : cand_key c = cand_key c').
    { apply key_le_antisym; [apply Hm'|apply Hm]; left; [by rewrite <-Hfp|by rewrite Hfp]. }
    rewrite <-Hfp in Hc'. apply list_elem_of_filter in Hc as [_ Hc], Hc' as [_ Hc'].
    destruct (Huniq c c') as [-> ->]; done.
  - destruct Hf as [[Hc|?] _]; [|done]. destruct Hf' as [Hn _].
    rewrite Hfp, Hn in Hc. by apply elem_of_nil in Hc.
  - destruct Hf' as [[Hc|?] _]; [|done]. destruct Hf as [Hn _].
    rewrite <-Hfp, Hn in Hc. by apply elem_of_nil in Hc.
  - assert (Hset : (list_to_set (filter (fun c => eligible r path query c = true) cands
                      ≫= (fun c => method_values (cand_methods c))) : gset string) =
                   list_to_set (filter (fun c => eligible r path query c = true) cands'
                      ≫= fun c => method_values (cand_methods c))).
    { apply set_eq. intros m. by rewrite !elem_of_list_to_set, Hp. }
    by rewrite Hset.
Qed.

(** the declaration order of routes does not influence routing. *)
Theorem Match_order_independent routes routes' router :
  Compile routes = Ok router → routes ≡ₚ routes' →
  ∃ router', Compile routes' = Ok router' ∧
    ∀ r host query, NormalizeRequestHost (req_host r) = Ok host →
      scanRawQuery (req_rawQuery r) = Ok query → Match router' r = Match router r.
Proof.
  intros Hc Hp.
  assert (Hok : is_ok (Compile routes) = true) by (by rewrite Hc).
  assert (Hok' : is_ok (Compile routes') = true).
  { apply Compile_ok_iff in Hok as (Hne & Hall & Hid & Hsig). apply Compile_ok_iff.
    split_and!; [|by rewrite <-Hp|by rewrite <-Hp|by rewrite <-Hp]. intros ->. by apply Permutation_nil_r in Hp. }
  destruct (Compile routes') as [router'|] eqn:Hc'; [|done].
  exists router'. split; [done|]. intros r host query Hh Hq.
  rewrite (Match_is_reference _ _ _ _ _ Hc Hh Hq), (Match_is_reference _ _ _ _ _ Hc' Hh Hq).
  f_equal. apply reference_match_permutation.
  - unfold candidates_for, all_entries. by rewrite Hp.
  - destruct (Compile_inv _ _ Hc') as (_ & _ & Hnd & _). intros c d.
    by apply candidates_consistent.
Qed.

(** a 405 result lists, sorted and without repetition, the methods of the
    routes that reject the request only for its method. *)
Theorem Match_method_not_allowed routes router r host query res :
  Compile routes = Ok router →
  NormalizeRequestHost (req_host r) = Ok host →
  scanRawQuery (req_rawQuery r) = Ok query →
  Match router r = Ok res → MethodNotAllowed res = true →
  Found res = false ∧ Allow res ≠ [] ∧ NoDup (Allow res) ∧
  StronglySorted String.le (Allow res) ∧ req_method r ∉ Allow res ∧
  ∀ m, m ∈ Allow res ↔
    ∃ c, c ∈ candidates_for routes host ∧
         eligible r (effective_path r) query c = true ∧ m ∈ method_values (cand_methods c).
Proof.
  intros Hc Hh Hq Hm Hna. destruct (Compile_inv _ _ Hc) as (compiled & -> & Hnd & Hcont).
  destruct (Match_describes routes compiled r host query Hcont Hh Hq) as (s & Hms & Hd).
  rewrite Hms in Hm. injection Hm as <-. unfold finish in *.
  destruct (found s) eqn:Hf; [done|]. case_bool_decide as Hempty; [done|]. simpl in *.
  assert (Hin : ∀ m, m ∈ sort_strings (elements (allow s)) ↔
    ∃ c, c ∈ candidates_for routes host ∧
         eligible r (effective_path r) query c = true ∧ m ∈ method_values (cand_methods c)).
  { intros m. rewrite elem_of_sort_strings, elem_of_elements.
    by apply (describes_allow _ _ _ _ _ Hd). }
  split_and!; [done| | | | |done].
  - intros Hnil. apply Hempty, elem_of_equiv_empty_L. intros m Hm.
    apply elem_of_elements, elem_of_sort_strings in Hm. rewrite Hnil in Hm.
    by apply elem_of_nil in Hm.
  - apply NoDup_sort_strings, NoDup_elements.
  - apply sort_strings_sorted.
  - intros (c & Hcin & He & Hmeth)%Hin.
    apply elem_of_method_values in Hmeth; [|by eapply candidates_methods].
    destruct (describes_max _ _ _ _ _ Hd c Hcin) as [? _]; [|congruence].
    unfold hits. by rewrite He, Hmeth.
Qed.

(** C5: on a request whose host and query are well formed, the pruned trie
    search of the compiled router returns exactly what a linear scan over all
    candidates of the host returns: the winner of the precedence order with
    its captured spans, else the allowed methods, else no match. *)
Theorem Match_reference routes router r host query :
  Compile routes = Ok router →
  NormalizeRequestHost (req_host r) = Ok host →
  scanRawQuery (req_rawQuery r) = Ok query →
  Match router r = Ok (reference_match r query (candidates_for routes host)).
Proof. apply Match_is_reference. Qed.

(** [Compile] accepts a route set exactly when it is non-empty, every
    route has a non-blank identifier and compiles, and neither identifiers
    nor canonical signatures repeat. *)
Theorem Compile_accepts routes :
  is_ok (Compile routes) = true ↔
    routes ≠ [] ∧ Forall route_ok routes ∧
    NoDup (spec_id <$> routes) ∧ NoDup (route_signature <$> routes).
Proof. apply Compile_ok_iff. Qed.
End Reference.
