(* ===== verification/RouterExamples.v ===== *)
(** * The router on concrete routes

    Evaluations of [Compile] and [Match] on a small configuration, and the
    router theorems instantiated there. *)

From S2P Require Import Prelude GoStrings Pattern Predicate Router RouterTrie RouterSearch RouterCorrect.
#[local] Open Scope string_scope.
#[local] Open Scope nat_scope.
#[local] Open Scope list_scope.

#[local] Existing Instance ascii_only_unicode.

Definition demo_routes : list RouteSpec :=
  [ mkRouteSpec 10 "users-exact" 0
      (mkRouteMatch ["api.example.com"] "/users/{id}" ["get"] [] []);
    mkRouteSpec 11 "users-wild" 0
      (mkRouteMatch ["*.example.com"; "example.org"] "/users/*" ["GET"; "POST"] [] []);
    mkRouteSpec 12 "me" 0
      (mkRouteMatch [] "/users/me" ["PUT"; "PURGE"]
         [mkPredicate "x-tenant" PredicateEquals ["blue"]]
         [mkPredicate "v" PredicateOneOf ["1"; "2"]]);
    mkRouteSpec 13 "files" 5 (mkRouteMatch [] "/files/{*rest}" ["GET"] [] []) ].

Definition demo_request : request :=
  mkRequest "GET" "API.example.com:8443" "/users/42" "v=1&v=%32" ∅ "".

Definition demo_put : request :=
  mkRequest "DELETE" "shop.example.net" "/users/me" "v=2" {[ "X-Tenant" := ["blue"] ]} "".

Definition demo_result (r : request) : result matchError Result :=
  match Compile demo_routes with
  | Ok router => Match router r
  | Err _ => Err MatchOutOfFuel
  end.

Example demo_match :
  demo_result demo_request = Ok (mkResult true false 10 [mkSpan "id" 7 9] []).
Proof. vm_compute. reflexivity. Qed.

Example demo_wildcard :
  demo_result (mkRequest "POST" "shop.example.com" "/users/1/2" "" ∅ "") =
    Ok (mkResult true false 11 [] []).
Proof. vm_compute. reflexivity. Qed.

Example demo_not_allowed :
  demo_result demo_put = Ok (mkResult false true 0 [] ["PURGE"; "PUT"]).
Proof. vm_compute. reflexivity. Qed.

Example demo_catch_all :
  demo_result (mkRequest "GET" "other" "/files/a/b" "" ∅ "") =
    Ok (mkResult true false 13 [mkSpan "rest" 7 10] []).
Proof. vm_compute. reflexivity. Qed.

Example demo_bad_query :
  demo_result (mkRequest "PUT" "other" "/users/me" "v=%zz" {[ "X-Tenant" := ["blue"] ]} "") =
    Err (MatchQuery ErrInvalidQuery).
Proof. vm_compute. reflexivity. Qed.

(** Case analysis on a computation that evaluates to [Ok]. *)
Ltac compute_ok t H :=
  let x := fresh "value" in
  destruct t as [x|x] eqn:H; [|vm_compute in H; discriminate H].

Lemma Match_reference_witness :
  match Compile demo_routes, NormalizeRequestHost (req_host demo_request),
        scanRawQuery (req_rawQuery demo_request) with
  | Ok router, Ok host, Ok query =>
      Match router demo_request =
        Ok (reference_match demo_request query (candidates_for demo_routes host))
  | _, _, _ => False
  end.
Proof.
  compute_ok (Compile demo_routes) Hc.
  compute_ok (NormalizeRequestHost (req_host demo_request)) Hh.
  compute_ok (scanRawQuery (req_rawQuery demo_request)) Hq.
  exact (Match_reference demo_routes value demo_request value0 value1 Hc Hh Hq).
Defined.

Lemma Match_order_independent_witness :
  match Compile demo_routes with
  | Ok router =>
      ∃ router', Compile (reverse demo_routes) = Ok router' ∧
        ∀ r host query, NormalizeRequestHost (req_host r) = Ok host →
          scanRawQuery (req_rawQuery r) = Ok query → Match router' r = Match router r
  | Err _ => False
  end.
Proof.
  compute_ok (Compile demo_routes) Hc.
  apply (Match_order_independent demo_routes (reverse demo_routes) value Hc).
  symmetry. apply reverse_Permutation.
Defined.

Lemma Match_errors_witness :
  match Compile demo_routes with
  | Ok router =>
      (∃ he, MatchHost HostEmptyOrPadded = MatchHost he ∧
             NormalizeRequestHost "" = Err he ∧
             ¬ (exactHosts router = ∅ ∧ wildcardHosts router = ∅)) ∨
      (∃ qe, MatchHost HostEmptyOrPadded = MatchQuery qe ∧ scanRawQuery "" = Err qe)
  | Err _ => False
  end.
Proof.
  compute_ok (Compile demo_routes) Hc.
  apply (Match_errors value (mkRequest "GET" "" "/" "" ∅ "") (MatchHost HostEmptyOrPadded)).
  vm_compute in Hc. injection Hc as <-. vm_compute. reflexivity.
Defined.

Lemma Match_method_not_allowed_witness :
  match Compile demo_routes with
  | Ok router =>
      match Match router demo_put with
      | Ok res => Found res = false ∧ Allow res ≠ [] ∧ req_method demo_put ∉ Allow res
      | Err _ => False
      end
  | Err _ => False
  end.
Proof.
  compute_ok (Compile demo_routes) Hc.
  compute_ok (NormalizeRequestHost (req_host demo_put)) Hh.
  compute_ok (scanRawQuery (req_rawQuery demo_put)) Hq.
  pose proof (Match_method_not_allowed demo_routes value demo_put value0 value1) as Hm.
  assert (Hres : Match value demo_put = demo_result demo_put)
    by (unfold demo_result; rewrite Hc; reflexivity).
  rewrite Hres.
  assert (Hval : demo_result demo_put = Ok (mkResult false true 0 [] ["PURGE"; "PUT"]))
    by (vm_compute; reflexivity).
  rewrite Hval. rewrite Hval in Hres.
  destruct (Hm _ Hc Hh Hq Hres eq_refl) as (H1 & H2 & _ & _ & H3 & _). auto.
Defined.
