(* ===== verification/Heap.v ===== *)
(** * Binary heaps ([container/heap])

    The weighted round-robin compiler builds its schedule with the standard
    library's array heap.  The operations are transcribed on lists indexed
    like the slice: [Init], [Push] and [Pop] over [up] and [down].  For an
    element order that is a total preorder on the stored values, [Pop] returns
    a least element and all three keep the heap order and the contents.

    [down] and [up] move along one branch of the tree, so the length of the
    slice bounds their iterations; the order they establish below is what
    running out of that bound would break. *)

From S2P Require Import Prelude.
#[local] Open Scope nat_scope.

Section Heap.
Context {A : Type} `{Inhabited A} (less : A → A → bool).

(** ** Operations *)

Definition heap_parent (j : nat) : nat := (j - 1) / 2.

Definition heap_Less (h : list A) (i j : nat) : bool := less (h !!! i) (h !!! j).

Definition heap_Swap (h : list A) (i j : nat) : list A := <[i := h !!! j]> (<[j := h !!! i]> h).

(** The smaller of the children [2i+1] and [2i+2] below [n]. *)
Definition heap_child (h : list A) (i n : nat) : nat :=
  let j1 := 2 * i + 1 in
  if (S j1 <? n) && heap_Less h (S j1) j1 then S j1 else j1.

Fixpoint heap_down (fuel : nat) (h : list A) (i n : nat) : list A :=
  match fuel with
  | 0 => h
  | S fuel =>
      if n <=? 2 * i + 1 then h
      else
        let j := heap_child h i n in
        if negb (heap_Less h j i) then h
        else heap_down fuel (heap_Swap h i j) j n
  end.

Fixpoint heap_up (fuel : nat) (h : list A) (j : nat) : list A :=
  match fuel with
  | 0 => h
  | S fuel =>
      let i := heap_parent j in
      if Nat.eqb i j || negb (heap_Less h j i) then h
      else heap_up fuel (heap_Swap h i j) i
  end.

(** The loop [for i := n/2 - 1; i >= 0; i--], with [k] the number of
    iterations left. *)
Fixpoint heap_init_loop (k : nat) (h : list A) : list A :=
  match k with
  | 0 => h
  | S i => heap_init_loop i (heap_down (length h) h i (length h))
  end.

Definition heap_Init (h : list A) : list A := heap_init_loop (length h / 2) h.

Definition heap_Push (h : list A) (x : A) : list A :=
  let h := h ++ [x] in heap_up (length h) h (length h - 1).

(** [None] stands for the panic of [Pop] on an empty slice. *)
Definition heap_Pop (h : list A) : option (A * list A) :=
  match h with
  | [] => None
  | _ =>
      let n := length h - 1 in
      let h := heap_down n (heap_Swap h 0 n) 0 n in
      Some (h !!! n, take n h)
  end.

(** ** Contents *)

Lemma heap_parent_spec j : j = 0 ∧ heap_parent j = 0 ∨
  j = 2 * heap_parent j + 1 ∨ j = 2 * heap_parent j + 2.
Proof.
  unfold heap_parent. pose proof (Nat.div_mod_eq (j - 1) 2).
  pose proof (Nat.mod_upper_bound (j - 1) 2). destruct j; [by left|lia].
Qed.

Lemma heap_Swap_length h i j : length (heap_Swap h i j) = length h.
Proof. unfold heap_Swap. by rewrite !length_insert. Qed.

Lemma heap_Swap_lookup h i j k : i < length h → j < length h →
  heap_Swap h i j !!! k =
    if decide (k = i) then h !!! j else if decide (k = j) then h !!! i else h !!! k.
Proof.
  intros Hi Hj. unfold heap_Swap. rewrite !list_lookup_total_alt.
  repeat case_decide; subst.
  - by rewrite list_lookup_insert_eq by (rewrite length_insert; lia).
  - by rewrite list_lookup_insert_ne, list_lookup_insert_eq by lia.
  - by rewrite !list_lookup_insert_ne by lia.
Qed.

Lemma heap_Swap_perm h i j : i < length h → j < length h → heap_Swap h i j ≡ₚ h.
Proof.
  intros Hi Hj. destruct (decide (i = j)) as [->|Hne].
  - unfold heap_Swap. rewrite list_insert_insert_eq, list_insert_id; [done|].
    by apply list_lookup_lookup_total_lt.
  - apply Permutation_inj. split; [by rewrite heap_Swap_length|].
    exists (fun k : nat => if decide (k = i) then j else if decide (k = j) then i else k). split.
    + intros x y. repeat case_decide; congruence.
    + intros k. unfold heap_Swap. repeat case_decide; subst.
      * rewrite list_lookup_insert_eq by (rewrite length_insert; lia).
        by rewrite list_lookup_lookup_total_lt.
      * rewrite list_lookup_insert_ne, list_lookup_insert_eq by lia.
        by rewrite list_lookup_lookup_total_lt.
      * by rewrite !list_lookup_insert_ne by lia.
Qed.

Lemma heap_child_range h i n :
  2 * i + 1 < n → i < heap_child h i n < n ∧ heap_parent (heap_child h i n) = i.
Proof.
  intros Hn. unfold heap_child.
  case_scrutinee; bool_hyps; split; try lia;
    match goal with |- heap_parent ?j = _ => pose proof (heap_parent_spec j); lia end.
Qed.

Lemma heap_down_perm fuel h i n : n ≤ length h → heap_down fuel h i n ≡ₚ h.
Proof.
  revert h i. induction fuel as [|fuel IH]; intros h i Hn; simpl; [done|].
  case_scrutinee; [done|]. bool_hyps.
  pose proof (heap_child_range h i n ltac:(lia)).
  case_scrutinee; [done|]. rewrite IH by (rewrite heap_Swap_length; lia).
  apply heap_Swap_perm; lia.
Qed.

Lemma heap_down_length fuel h i n : n ≤ length h → length (heap_down fuel h i n) = length h.
Proof. intros. by rewrite heap_down_perm. Qed.

Lemma heap_up_perm fuel h j : j < length h → heap_up fuel h j ≡ₚ h.
Proof.
  revert h j. induction fuel as [|fuel IH]; intros h j Hj; cbn [heap_up]; [done|].
  case_scrutinee; [done|]. pose proof (heap_parent_spec j).
  rewrite IH by (rewrite heap_Swap_length; lia). apply heap_Swap_perm; lia.
Qed.

Lemma heap_init_loop_perm k h : heap_init_loop k h ≡ₚ h.
Proof.
  revert h. induction k as [|k IH]; intros h; [done|]. cbn [heap_init_loop].
  by rewrite IH, heap_down_perm.
Qed.

(** ** Order

    [P] singles out the values the order is known to be a total preorder on. *)

Context (P : A → Prop).

Definition heap_le (x y : A) : Prop := less y x = false.

Hypothesis less_asym : ∀ x y, P x → P y → less x y = true → less y x = false.
Hypothesis le_trans : ∀ x y z, P x → P y → P z → heap_le x y → heap_le y z → heap_le x z.

Lemma le_refl x : P x → heap_le x x.
Proof. intros Hx. unfold heap_le. destruct (less x x) eqn:E; [|done]. 
  rewrite <-E. by apply less_asym. Qed.

Definition le_at (h : list A) (i j : nat) : Prop := heap_le (h !!! i) (h !!! j).

(** Every element is at least its parent. *)
Definition heap_ordered (h : list A) : Prop :=
  ∀ j, 0 < j < length h → le_at h (heap_parent j) j.

Lemma P_at h i : Forall P h → i < length h → P (h !!! i).
Proof. intros Hh Hi. rewrite Forall_lookup in Hh. apply (Hh i). by apply list_lookup_lookup_total_lt. Qed.

Lemma le_at_trans h i j k : Forall P h → i < length h → j < length h → k < length h →
  le_at h i j → le_at h j k → le_at h i k.
Proof. intros Hh Hi Hj Hk. apply le_trans; by apply P_at. Qed.

(** The order below [n] on the parents from [lo] on, [hole] excepted as a
    parent; what stands above the hole is at most the hole's children. *)
Definition ordered_but (lo hole n : nat) (h : list A) : Prop :=
  (∀ j, 0 < j < n → lo ≤ heap_parent j → heap_parent j ≠ hole → le_at h (heap_parent j) j) ∧
  (∀ j, 0 < j < n → 0 < hole → lo ≤ heap_parent hole → heap_parent j = hole →
     le_at h (heap_parent hole) j).

Lemma heap_child_least h i n j : Forall P h → n ≤ length h →
  0 < j < n → heap_parent j = i → le_at h (heap_child h i n) j.
Proof.
  intros Hh Hn Hj Hi. pose proof (heap_parent_spec j) as Hcases.
  unfold le_at, heap_le, heap_child, heap_Less.
  destruct ((S (2 * i + 1) <? n) && less (h !!! S (2 * i + 1)) (h !!! (2 * i + 1))) eqn:E.
  - bool_hyps. assert (j = 2 * i + 1 ∨ j = S (2 * i + 1)) as [-> | ->] by lia.
    + apply less_asym; [by apply P_at; [|lia]..|done].
    + apply le_refl, P_at; [done|lia].
  - apply andb_false_iff in E. assert (j = 2 * i + 1 ∨ j = S (2 * i + 1)) as [-> | ->] by lia.
    + apply le_refl, P_at; [done|lia].
    + destruct E as [E|E]; [bool_hyps; lia|done].
Qed.

Lemma heap_down_step lo i n h : Forall P h → n ≤ length h → lo ≤ i → 2 * i + 1 < n →
  ordered_but lo i n h → heap_Less h (heap_child h i n) i = true →
  ordered_but lo (heap_child h i n) n (heap_Swap h i (heap_child h i n)).
Proof.
  intros Hh Hn Hlo Hi [Hord Habove] Hless.
  pose proof (heap_child_range h i n Hi) as [Hc Hpc]. set (c := heap_child h i n) in *.
  assert (Hleast := fun j => heap_child_least h i n j Hh Hn). fold c in Hleast.
  split; intros j Hj; unfold le_at; rewrite !heap_Swap_lookup by lia.
  - intros Hlo' Hjc. pose proof (heap_parent_spec j). repeat case_decide; try lia.
    + subst j. apply less_asym; [apply P_at; [done|lia]..|done].
    + by apply Hleast; [lia|].
    + subst j. apply Habove; [lia..|done].
    + subst j. congruence.
    + apply Hord; lia.
  - rewrite Hpc. intros _ _ Hjc. pose proof (heap_parent_spec j). repeat case_decide; try lia.
    rewrite <-Hjc. apply Hord; lia.
Qed.

Lemma heap_down_ordered fuel lo i n h : Forall P h → n ≤ length h → lo ≤ i → n ≤ fuel + i →
  ordered_but lo i n h →
  ∀ j, 0 < j < n → lo ≤ heap_parent j →
    le_at (heap_down fuel h i n) (heap_parent j) j.
Proof.
  revert h i. induction fuel as [|fuel IH]; intros h i Hh Hn Hlo Hfuel Hbut j Hj Hloj.
  - pose proof (heap_parent_spec j). apply Hbut; lia.
  - cbn [heap_down]. destruct (n <=? 2 * i + 1) eqn:Hleaf; bool_hyps.
    { pose proof (heap_parent_spec j). apply Hbut; lia. }
    pose proof (heap_child_range h i n ltac:(lia)) as [Hc Hpc].
    destruct (heap_Less h (heap_child h i n) i) eqn:Hless; simpl.
    + apply IH; rewrite ?heap_Swap_length; try lia.
      * by rewrite heap_Swap_perm by lia.
      * apply heap_down_step; done || lia.
    + destruct (decide (heap_parent j = i)) as [Hji|Hji]; [|by apply Hbut].
      rewrite Hji. apply le_at_trans with (heap_child h i n); try done; try lia.
      by apply heap_child_least.
Qed.

Lemma heap_init_loop_ordered k h : Forall P h → k ≤ length h →
  (∀ j, 0 < j < length h → k ≤ heap_parent j → le_at h (heap_parent j) j) →
  heap_ordered (heap_init_loop k h).
Proof.
  revert h. induction k as [|k IH]; intros h Hh Hk Hord.
  - intros j Hj. cbn [heap_init_loop] in *. apply Hord; lia.
  - cbn [heap_init_loop]. apply IH.
    + by rewrite heap_down_perm.
    + rewrite heap_down_length; lia.
    + rewrite heap_down_length by lia. apply heap_down_ordered; try lia; [done|].
      split; [intros; apply Hord; lia|]. pose proof (heap_parent_spec k). lia.
Qed.

(** [Init] orders any slice. *)
Lemma heap_Init_spec h : Forall P h → heap_Init h ≡ₚ h ∧ heap_ordered (heap_Init h).
Proof.
  intros Hh. split; [apply heap_init_loop_perm|]. apply heap_init_loop_ordered; [done| |].
  - apply Nat.Div0.div_le_upper_bound. lia.
  - intros j Hj Hhalf. pose proof (Nat.div_mod_eq (length h) 2).
    pose proof (Nat.mod_upper_bound (length h) 2). pose proof (heap_parent_spec j). lia.
Qed.

(** The root of an ordered slice is least. *)
Lemma heap_root_least h i : Forall P h → heap_ordered h → i < length h → le_at h 0 i.
Proof.
  intros Hh Hord. induction (lt_wf i) as [i _ IH]. intros Hi.
  destruct (decide (i = 0)) as [->|Hne]; [apply le_refl, P_at; [done|lia]|].
  pose proof (heap_parent_spec i).
  apply le_at_trans with (heap_parent i); try done; try lia; [apply IH; lia|apply Hord; lia].
Qed.

Definition ordered_but_up (hole : nat) (h : list A) : Prop :=
  (∀ j, 0 < j < length h → j ≠ hole → le_at h (heap_parent j) j) ∧
  (∀ j, 0 < j < length h → 0 < hole → heap_parent j = hole → le_at h (heap_parent hole) j).

Lemma heap_up_step j h : Forall P h → 0 < j < length h →
  ordered_but_up j h → heap_Less h j (heap_parent j) = true →
  ordered_but_up (heap_parent j) (heap_Swap h (heap_parent j) j).
Proof.
  intros Hh Hj [Hord Habove] Hless. pose proof (heap_parent_spec j) as Hp.
  set (i := heap_parent j) in *.
  assert (Hji : le_at h j i) by (apply less_asym; [apply P_at; [done|lia]..|done]).
  split; rewrite heap_Swap_length; intros k Hk; unfold le_at; rewrite !heap_Swap_lookup by lia;
    pose proof (heap_parent_spec k).
  - intros Hki. repeat case_decide; try lia.
    + by subst k.
    + apply le_at_trans with i; try done; try lia. replace i with (heap_parent k) by lia.
      apply Hord; lia.
    + apply Habove; lia.
    + apply Hord; lia.
  - intros Hi Hki. pose proof (heap_parent_spec i).
    assert (Hpi : le_at h (heap_parent i) i) by (apply Hord; lia).
    repeat case_decide; try lia; [done|].
    apply le_at_trans with i; try done; try lia. rewrite <-Hki. apply Hord; lia.
Qed.

Lemma heap_up_ordered fuel j h : Forall P h → j < length h → j < fuel →
  ordered_but_up j h → heap_ordered (heap_up fuel h j).
Proof.
  revert h j. induction fuel as [|fuel IH]; intros h j Hh Hj Hfuel Hbut; [lia|].
  cbn [heap_up]. pose proof (heap_parent_spec j).
  destruct (Nat.eqb _ _ || negb _) eqn:E.
  - intros k Hk. destruct (decide (k = j)) as [->|Hne]; [|by apply Hbut].
    apply orb_true_iff in E as [E|E]; bool_hyps; [lia|done].
  - bool_hyps. apply IH; rewrite ?heap_Swap_length; try lia.
    + by rewrite heap_Swap_perm by lia.
    + apply heap_up_step; done || lia.
Qed.

(** [Push] adds one element. *)
Lemma heap_Push_spec h x : Forall P h → P x → heap_ordered h →
  heap_Push h x ≡ₚ x :: h ∧ heap_ordered (heap_Push h x).
Proof.
  intros Hh Hx Hord. unfold heap_Push. rewrite length_app, Nat.add_sub. simpl. split.
  - rewrite heap_up_perm by (rewrite length_app; simpl; lia). by rewrite Permutation_app_comm.
  - apply heap_up_ordered; rewrite ?length_app; simpl; try lia.
    + apply Forall_app. by repeat constructor.
    + split; rewrite length_app; simpl; intros j Hj; pose proof (heap_parent_spec j); [|lia].
      intros Hne. unfold le_at. rewrite !lookup_total_app_l by lia. apply Hord. lia.
Qed.

Lemma heap_down_above fuel h i n k : n ≤ length h → n ≤ k →
  heap_down fuel h i n !!! k = h !!! k.
Proof.
  revert h i. induction fuel as [|fuel IH]; intros h i Hn Hk; cbn [heap_down]; [done|].
  case_scrutinee; [done|]. bool_hyps.
  pose proof (heap_child_range h i n ltac:(lia)) as [Hc _]. case_scrutinee; [done|].
  rewrite IH by (rewrite ?heap_Swap_length; lia).
  rewrite heap_Swap_lookup by lia. repeat case_decide; done || lia.
Qed.

Lemma take_last (h : list A) n : length h = S n → h = take n h ++ [h !!! n].
Proof.
  intros Hlen. rewrite <-(take_drop n h) at 1. f_equal.
  assert (Hn : h !! n = Some (h !!! n)) by (apply list_lookup_lookup_total_lt; lia).
  by rewrite (drop_S _ _ _ Hn), drop_ge by lia.
Qed.

Lemma le_at_take h n i j : i < n → j < n → n ≤ length h → le_at h i j → le_at (take n h) i j.
Proof. intros Hi Hj _ Hle. unfold le_at. by rewrite !lookup_total_take_lt. Qed.

(** [Pop] takes a least element out. *)
Lemma heap_Pop_spec h : Forall P h → heap_ordered h → h ≠ [] →
  ∃ x rest, heap_Pop h = Some (x, rest) ∧ x :: rest ≡ₚ h ∧ heap_ordered rest ∧
    Forall (heap_le x) rest.
Proof.
  intros Hh Hord Hne. destruct (length h) as [|n] eqn:Hlen; [by destruct h|].
  set (h1 := heap_Swap h 0 n). set (h2 := heap_down n h1 0 n).
  assert (Hlen1 : length h1 = S n) by (unfold h1; rewrite heap_Swap_length; lia).
  assert (Hlen2 : length h2 = S n) by (unfold h2; rewrite heap_down_length; lia).
  assert (Hlast : h2 !!! n = h !!! 0).
  { unfold h2, h1. rewrite heap_down_above by (rewrite ?heap_Swap_length; lia).
    rewrite heap_Swap_lookup by lia. repeat case_decide; congruence. }
  assert (Hperm : h !!! 0 :: take n h2 ≡ₚ h).
  { rewrite <-Hlast, Permutation_cons_append, <-take_last by done.
    unfold h2. rewrite heap_down_perm by lia. apply heap_Swap_perm; lia. }
  exists (h !!! 0), (take n h2). split_and!; [|done| |].
  - rewrite <-Hlast. unfold heap_Pop, h2, h1. rewrite Hlen, Nat.sub_succ, Nat.sub_0_r.
    by destruct h.
  - intros j. rewrite length_take, Hlen2. intros Hj. pose proof (heap_parent_spec j).
    apply le_at_take; try lia. apply (heap_down_ordered _ 0); try lia.
    + unfold h1. by rewrite heap_Swap_perm by lia.
    + split; [|lia]. intros k Hk _ Hroot. unfold le_at, h1.
      rewrite !heap_Swap_lookup by lia. pose proof (heap_parent_spec k).
      repeat case_decide; try lia. apply Hord. lia.
  - apply Forall_forall. intros y Hy.
    assert (y ∈ h) as Hyh by (rewrite <-Hperm; by right).
    apply list_elem_of_lookup in Hyh as [k Hk].
    rewrite <-(list_lookup_total_correct _ _ _ Hk).
    apply heap_root_least; [done..|]. by eapply lookup_lt_Some.
Qed.

(** What [Pop] takes out is the root. *)
Lemma heap_Pop_root h x rest : heap_Pop h = Some (x, rest) → x = h !!! 0.
Proof.
  destruct h as [|y h]; [done|]. unfold heap_Pop. set (l := y :: h). assert (Hl : 0 < length l) by (simpl; lia). clearbody l.
  intros [= <- _]. rewrite heap_down_above by (rewrite ?heap_Swap_length; lia).
  rewrite heap_Swap_lookup by lia. repeat case_decide; congruence || (f_equal; lia).
Qed.
End Heap.
