(* ===== verification/Apportion.v ===== *)
(** * Apportionment of schedule slots and hash points
    ([internal/upstream/wrr.go], [internal/upstream/chash.go])

    Both balancers first drop the endpoints of weight zero, divide the weights
    by their greatest common divisor and, when the exact number of slots or
    points would exceed the limit, hand out the bounded number by largest
    remainder: one to every active endpoint, the rest in proportion to the
    weights.  The two files hold the same code on two record types; [share]
    is their common part. *)

From S2P Require Import Prelude.
#[local] Open Scope Z_scope.

Record weightedEndpoint := mkWeighted { we_identity : string; we_weight : Z }.

Record share := mkShare {
  sh_index : Z;
  sh_identity : string;
  sh_weight : Z;
  sh_assigned : Z;
  sh_remainder : Z;
}.

#[global] Instance share_inhabited : Inhabited share := populate (mkShare 0 "" 0 0 0).

(** ** Operations *)

(** The loop that collects the endpoints of positive weight. *)
Fixpoint activeShares (index : nat) (endpoints : list weightedEndpoint) : list share :=
  match endpoints with
  | [] => []
  | endpoint :: endpoints =>
      if we_weight endpoint =? 0 then activeShares (S index) endpoints
      else mkShare (wrap32 (Z.of_nat index)) (we_identity endpoint) (we_weight endpoint) 0 0
             :: activeShares (S index) endpoints
  end.

Fixpoint gcdLoop (fuel : nat) (left right : Z) : Z :=
  match fuel with
  | O => left
  | S fuel => if right =? 0 then left else gcdLoop fuel right (left mod right)
  end.

(** Two iterations halve [right], a 32-bit value. *)
Definition greatestCommonDivisor (left right : Z) : Z := gcdLoop 65 left right.

Definition weightDivisor (active : list share) : Z :=
  match active with
  | [] => 0
  | first :: rest =>
      foldl (fun divisor s => greatestCommonDivisor divisor (sh_weight s)) (sh_weight first) rest
  end.

Definition set_weight (weight : Z) (s : share) : share :=
  mkShare (sh_index s) (sh_identity s) weight (sh_assigned s) (sh_remainder s).

Definition set_assigned (assigned : Z) (s : share) : share :=
  mkShare (sh_index s) (sh_identity s) (sh_weight s) assigned (sh_remainder s).

Definition normalizeShares (active : list share) : list share :=
  let divisor := weightDivisor active in
  (fun s => set_weight (sh_weight s / divisor) s) <$> active.

Definition normalizedSum (active : list share) : Z :=
  foldl (fun sum s => wrap64 (sum + sh_weight s)) 0 active.

(** The first loop of the capped assignment, on one endpoint. *)
Definition assignQuota (remaining sum : Z) (s : share) : share :=
  let numerator := wrap64 (sh_weight s * remaining) in
  mkShare (sh_index s) (sh_identity s) (sh_weight s)
    (wrap32 (1 + wrap32 (numerator / sum))) (numerator mod sum).

Definition quotaExtra (remaining sum : Z) (s : share) : Z :=
  wrap64 (sh_weight s * remaining) / sum.

Definition remainder_before (left right : share) : bool :=
  if negb (sh_remainder left =? sh_remainder right) then sh_remainder right <? sh_remainder left
  else if negb (String.eqb (sh_identity left) (sh_identity right))
  then String.ltb (sh_identity left) (sh_identity right)
  else sh_index left <? sh_index right.

Definition remainderOrder (slots : list share) : list nat :=
  sort_slice (fun i j => remainder_before (slots !!! i) (slots !!! j)) (seq 0 (length slots)).

Definition bumpAssigned (slots : list share) (index : nat) : list share :=
  alter (fun s => set_assigned (wrap32 (sh_assigned s + 1)) s) index slots.

(** The number of slots left to hand out: the bound of [order[:count-allocated]]. *)
Definition leftover (slots : list share) (sum count : Z) : Z :=
  let remaining := wrap64 (count - Z.of_nat (length slots)) in
  count - (Z.of_nat (length slots) + zsum (quotaExtra remaining sum) slots).

Definition assignCapped (slots : list share) (sum count : Z) : list share :=
  let remaining := wrap64 (count - Z.of_nat (length slots)) in
  let quotas := assignQuota remaining sum <$> slots in
  foldl bumpAssigned quotas (take (Z.to_nat (leftover slots sum count)) (remainderOrder quotas)).

(** ** The greatest common divisor *)

Lemma gcdLoop_correct k fuel left right :
  0 ≤ left → 0 ≤ right < 2 ^ Z.of_nat k → (2 * k + 1 ≤ fuel)%nat →
  gcdLoop fuel left right = Z.gcd left right.
Proof.
  revert fuel left right. induction k as [|k IH]; intros fuel left right Hl Hr Hfuel.
  - change (2 ^ Z.of_nat 0) with 1 in Hr. destruct fuel as [|fuel]; [lia|]. simpl.
    replace right with 0 by lia. rewrite Z.eqb_refl, Z.gcd_0_r. lia.
  - rewrite Nat2Z.inj_succ, Z.pow_succ_r in Hr by lia.
    destruct fuel as [|[|fuel]]; try lia. cbn [gcdLoop].
    destruct (right =? 0) eqn:E1; bool_hyps; [subst; rewrite Z.gcd_0_r; lia|].
    set (m := left mod right).
    assert (Hm : 0 ≤ m < right) by (apply Z.mod_pos_bound; lia).
    assert (Hgcd : Z.gcd left right = Z.gcd right m).
    { unfold m. by rewrite Z.gcd_comm, <-Z.gcd_mod, Z.gcd_comm by lia. }
    destruct (m =? 0) eqn:E2; bool_hyps; [rewrite Hgcd, E2, Z.gcd_0_r; lia|].
    rewrite Hgcd, IH.
    + by rewrite (Z.gcd_comm right m), <-(Z.gcd_mod right m), Z.gcd_comm by lia.
    + lia.
    + split; [apply Z.mod_pos_bound; lia|].
      assert (2 * (right mod m) < right); [|lia].
      pose proof (Z.div_mod right m ltac:(lia)). pose proof (Z.mod_pos_bound right m ltac:(lia)).
      assert (1 ≤ right / m) by (apply Z.div_le_lower_bound; lia). nia.
    + lia.
Qed.

Lemma greatestCommonDivisor_gcd left right : 0 ≤ left → 0 ≤ right < 2 ^ 32 →
  greatestCommonDivisor left right = Z.gcd left right.
Proof. intros. by apply (gcdLoop_correct 32); [|done|lia]. Qed.

Definition weight_ok (s : share) : Prop := 0 < sh_weight s < 2 ^ 32.

Lemma gcd_fold_correct rest d : 0 < d < 2 ^ 32 → Forall weight_ok rest →
  let g := foldl (fun divisor s => greatestCommonDivisor divisor (sh_weight s)) d rest in
  0 < g < 2 ^ 32 ∧ (g | d) ∧ Forall (fun s => (g | sh_weight s)) rest ∧
  (∀ e, (e | d) → Forall (fun s => (e | sh_weight s)) rest → (e | g)).
Proof.
  revert d. induction rest as [|s rest IH]; intros d Hd Hrest g.
  { subst g. simpl. split_and!; [lia|lia|reflexivity|constructor|by intros e He _]. }
  inversion_clear Hrest as [|?? Hs Hrest'].
  assert (Hg : greatestCommonDivisor d (sh_weight s) = Z.gcd d (sh_weight s)).
  { unfold weight_ok in Hs. apply greatestCommonDivisor_gcd; lia. }
  assert (Hpos : 0 < Z.gcd d (sh_weight s) < 2 ^ 32).
  { pose proof (Z.gcd_nonneg d (sh_weight s)).
    pose proof (Z.divide_pos_le (Z.gcd d (sh_weight s)) d (proj1 Hd) (Z.gcd_divide_l _ _)).
    assert (Z.gcd d (sh_weight s) ≠ 0) by (rewrite Z.gcd_eq_0; lia). lia. }
  subst g. simpl. rewrite Hg.
  destruct (IH _ Hpos Hrest') as (? & Hgd & Hall & Hmost). split_and!; try lia.
  - etrans; [exact Hgd|apply Z.gcd_divide_l].
  - constructor; [|done]. etrans; [exact Hgd|apply Z.gcd_divide_r].
  - intros e He Hes. inversion_clear Hes. apply Hmost; [by apply Z.gcd_greatest|done].
Qed.

Lemma weightDivisor_correct active : active ≠ [] → Forall weight_ok active →
  0 < weightDivisor active < 2 ^ 32 ∧
  Forall (fun s => (weightDivisor active | sh_weight s)) active ∧
  (∀ e, Forall (fun s => (e | sh_weight s)) active → (e | weightDivisor active)).
Proof.
  destruct active as [|s rest]; intros Hne Hok; [done|]. inversion_clear Hok as [|?? Hs Hrest].
  destruct (gcd_fold_correct rest (sh_weight s) Hs Hrest) as (Hg & ? & ? & Hmost).
  split; [exact Hg|]. split; [by constructor|]. intros e He. inversion_clear He. by apply Hmost.
Qed.

(** ** Normalised weights *)

Lemma normalizeShares_weights active : active ≠ [] → Forall weight_ok active →
  Forall2 (fun s s' => sh_index s' = sh_index s ∧ sh_identity s' = sh_identity s ∧
      sh_weight s = weightDivisor active * sh_weight s') active (normalizeShares active) ∧
  Forall weight_ok (normalizeShares active).
Proof.
  intros Hne Hok. destruct (weightDivisor_correct active Hne Hok) as (Hd & Hdiv & _).
  unfold normalizeShares. set (d := weightDivisor active) in *. clearbody d. clear Hne.
  induction Hok as [|s rest Hs Hrest IH]; csimpl; [by split; constructor|].
  inversion_clear Hdiv as [|?? Hds Hdrest]. destruct (IH Hdrest) as [IH1 IH2].
  assert (Hw : sh_weight s = d * (sh_weight s / d)).
  { destruct Hds as [q Hq]. rewrite Hq, Z.div_mul by lia. lia. }
  unfold weight_ok in Hs. split; constructor; try done. unfold weight_ok. simpl.
  split; [nia|]. assert (sh_weight s / d ≤ sh_weight s) by (apply Z.div_le_upper_bound; nia). lia.
Qed.

Lemma normalizedSum_exact active : Forall weight_ok active → Z.of_nat (length active) ≤ 2 ^ 16 →
  normalizedSum active = zsum sh_weight active.
Proof.
  intros Hok Hlen. unfold normalizedSum.
  assert (Hgen : ∀ l acc, Forall weight_ok l → 0 ≤ acc →
    acc + 2 ^ 32 * Z.of_nat (length l) < 2 ^ 64 →
    foldl (fun sum s => wrap64 (sum + sh_weight s)) acc l = acc + zsum sh_weight l).
  { induction l as [|s l IH]; intros acc Hl Hacc Hb; simpl; [lia|].
    inversion_clear Hl as [|?? Hs Hl']. unfold weight_ok in Hs. simpl in Hb.
    rewrite wrap64_id by lia. rewrite IH; [lia|done|lia|lia]. }
  rewrite Hgen; [done|done|lia|lia].
Qed.

(** ** Capped assignment *)

Section Capped.
Context (slots : list share) (count : Z).
Let n : Z := Z.of_nat (length slots).
Let sum : Z := zsum sh_weight slots.

(** The exact share of the slots beyond the first one, rounded down. *)
Definition quota (s : share) : Z := sh_weight s * (count - n) / sum.

Hypothesis slots_ne : slots ≠ [].
Hypothesis slots_ok : Forall weight_ok slots.
Hypothesis count_ok : n ≤ count ≤ 2 ^ 16.

Lemma n_nonneg : 0 ≤ n.
Proof. unfold n. lia. Qed.

Lemma weights_sum_pos : 0 < sum.
Proof.
  assert (H : Forall (fun s => 1 ≤ sh_weight s ≤ 2 ^ 32) slots).
  { eapply Forall_impl; [exact slots_ok|]. unfold weight_ok. intros x Hx. lia. }
  pose proof (zsum_bounds _ _ _ _ H). pose proof (nonempty_length _ slots_ne). unfold sum. lia.
Qed.

Lemma remaining_exact : wrap64 (count - n) = count - n.
Proof. apply wrap64_id. pose proof n_nonneg. lia. Qed.

Lemma numerator_exact s : s ∈ slots →
  wrap64 (sh_weight s * (count - n)) = sh_weight s * (count - n).
Proof.
  intros Hs. rewrite Forall_forall in slots_ok. specialize (slots_ok s Hs).
  unfold weight_ok in *. apply wrap64_id. pose proof n_nonneg. nia.
Qed.

Lemma quota_bounds s : s ∈ slots → 0 ≤ quota s ≤ count - n.
Proof.
  intros Hs. pose proof weights_sum_pos. unfold quota.
  assert (sh_weight s ≤ sum).
  { apply zsum_elem_le; [|done]. eapply Forall_impl; [exact slots_ok|].
    unfold weight_ok. intros x Hx. lia. }
  rewrite Forall_forall in slots_ok. specialize (slots_ok s Hs). unfold weight_ok in *. split.
  - apply Z.div_pos; [pose proof n_nonneg; nia|lia].
  - apply Z.div_le_upper_bound; [lia|]. pose proof n_nonneg; nia.
Qed.

Lemma assignQuota_exact s : s ∈ slots →
  assignQuota (wrap64 (count - n)) sum s =
    mkShare (sh_index s) (sh_identity s) (sh_weight s) (1 + quota s)
      (sh_weight s * (count - n) mod sum).
Proof.
  intros Hs. pose proof (quota_bounds s Hs). unfold assignQuota.
  rewrite remaining_exact, numerator_exact by done. fold (quota s).
  rewrite (wrap32_id (quota s)), wrap32_id by (pose proof n_nonneg; lia). done.
Qed.

(** The quotas leave fewer slots than there are endpoints, so the slice of the
    order that receives one more is in range. *)
Lemma leftover_range :
  leftover slots sum count = count - n - zsum quota slots ∧ 0 ≤ leftover slots sum count < n.
Proof.
  pose proof weights_sum_pos as Hsum.
  assert (Hl : leftover slots sum count = count - n - zsum quota slots).
  { unfold leftover. fold n. rewrite (zsum_ext _ quota); [lia|].
    intros s Hs. unfold quotaExtra. by rewrite remaining_exact, numerator_exact. }
  split; [done|]. rewrite Hl.
  assert (Hdm : zsum (fun s => sh_weight s * (count - n)) slots =
    zsum quota slots * sum + zsum (fun s => sh_weight s * (count - n) mod sum) slots).
  { rewrite <-zsum_scale, <-zsum_add. apply zsum_ext. intros s Hs. unfold quota.
    pose proof (Z.div_mod (sh_weight s * (count - n)) sum). lia. }
  rewrite zsum_scale in Hdm. fold sum in Hdm.
  pose proof (zsum_bounds (fun s => sh_weight s * (count - n) mod sum) 0 (sum - 1) slots) as Hb.
  assert (Hn : 0 < n) by (by apply nonempty_length).
  assert (0 * n ≤ zsum (fun s => sh_weight s * (count - n) mod sum) slots ≤ (sum - 1) * n).
  { apply Hb, Forall_forall. intros s Hs.
    pose proof (Z.mod_pos_bound (sh_weight s * (count - n)) sum Hsum). lia. }
  nia.
Qed.
End Capped.

(** ** Largest remainders first *)

Lemma remainder_before_asym a b : remainder_before a b = true → remainder_before b a = false.
Proof.
  unfold remainder_before. rewrite (Z.eqb_sym (sh_remainder b)), (String.eqb_sym (sh_identity b)).
  repeat case_scrutinee; bool_hyps; try lia; try apply string_ltb_asym; intros; bool_hyps; try lia.
Qed.

Lemma remainder_before_trans a b c :
  remainder_before b a = false → remainder_before c b = false → remainder_before c a = false.
Proof.
  unfold remainder_before. intros H1 H2.
  destruct (sh_remainder c =? sh_remainder a) eqn:Eca, (sh_remainder b =? sh_remainder a) eqn:Eba,
    (sh_remainder c =? sh_remainder b) eqn:Ecb; simpl in *; bool_hyps; try lia.
  destruct (String.eqb_spec (sh_identity c) (sh_identity a)) as [Hca|Hca],
    (String.eqb_spec (sh_identity b) (sh_identity a)) as [Hba|Hba],
    (String.eqb_spec (sh_identity c) (sh_identity b)) as [Hcb|Hcb]; simpl in *; bool_hyps;
    try congruence; try lia.
  - exfalso. apply Hba. apply string_ltb_total; congruence.
  - by eapply string_ltb_false_trans.
Qed.

Lemma remainderOrder_perm slots : remainderOrder slots ≡ₚ seq 0 (length slots).
Proof. apply sort_slice_perm. Qed.

Lemma remainderOrder_chosen slots k i j :
  i ∈ take k (remainderOrder slots) → (j < length slots)%nat →
  j ∉ take k (remainderOrder slots) →
  sh_remainder (slots !!! j) ≤ sh_remainder (slots !!! i).
Proof.
  intros Hi Hj Hnj.
  assert (Hjo : j ∈ remainderOrder slots).
  { rewrite remainderOrder_perm. apply elem_of_seq. lia. }
  rewrite <-(take_drop k (remainderOrder slots)), elem_of_app in Hjo.
  destruct Hjo as [Hjo|Hjo]; [done|].
  assert (Hs : StronglySorted (not_after (fun i j => remainder_before (slots !!! i) (slots !!! j)))
    (remainderOrder slots)).
  { apply sort_slice_sorted; intros; [by apply remainder_before_asym|].
    by eapply remainder_before_trans. }
  pose proof (StronglySorted_take_drop _ _ _ _ _ Hs Hi Hjo) as Hij.
  unfold not_after, remainder_before in Hij.
  destruct (sh_remainder (slots !!! j) =? sh_remainder (slots !!! i)) eqn:E; simpl in Hij;
    bool_hyps; lia.
Qed.

Definition bumped (s : share) : share := set_assigned (wrap32 (sh_assigned s + 1)) s.

Lemma bump_lookup l slots i : NoDup l →
  foldl bumpAssigned slots l !! i = (if decide (i ∈ l) then bumped else id) <$> slots !! i.
Proof.
  revert slots. induction l as [|j l IH]; intros slots Hnd; simpl.
  - destruct (decide (i ∈ [])) as [Hi|_]; [by apply elem_of_nil in Hi|]. by destruct (slots !! i).
  - apply NoDup_cons in Hnd as [Hj Hnd]. rewrite IH by done. unfold bumpAssigned.
    destruct (decide (i = j)) as [->|Hne].
    + rewrite list_lookup_alter_eq, decide_False, decide_True by (done || left).
      by destruct (slots !! j).
    + rewrite list_lookup_alter_ne by done.
      destruct (decide (i ∈ l)) as [Hi|Hi].
      * by rewrite decide_True by (by right).
      * rewrite decide_False; [done|]. rewrite elem_of_cons. tauto.
Qed.

Lemma bump_length l slots : length (foldl bumpAssigned slots l) = length slots.
Proof.
  revert slots. induction l as [|j l IH]; intros slots; simpl; [done|].
  rewrite IH. apply length_alter.
Qed.

Lemma bump_sum l slots bound :
  Forall (fun s => 0 ≤ sh_assigned s ≤ bound) slots →
  Forall (fun i => (i < length slots)%nat) l → bound + Z.of_nat (length l) < 2 ^ 32 →
  zsum sh_assigned (foldl bumpAssigned slots l) =
    zsum sh_assigned slots + Z.of_nat (length l).
Proof.
  revert slots bound. induction l as [|i l IH]; intros slots bound Hs Hl Hb; [simpl; lia|].
  inversion_clear Hl as [|?? Hi Hl']. cbn [foldl length] in *.
  destruct (lookup_lt_is_Some_2 _ _ Hi) as [s Hsi].
  assert (Has : 0 ≤ sh_assigned s ≤ bound).
  { rewrite Forall_lookup in Hs. by apply (Hs i). }
  rewrite (IH _ (bound + 1)).
  - unfold bumpAssigned. rewrite (zsum_alter _ _ _ _ _ Hsi). simpl. rewrite wrap32_id by lia. lia.
  - unfold bumpAssigned. apply Forall_lookup. intros k x Hk.
    destruct (decide (k = i)) as [->|Hne].
    + rewrite list_lookup_alter_eq, Hsi in Hk. injection Hk as <-. simpl. rewrite wrap32_id; lia.
    + rewrite list_lookup_alter_ne in Hk by done.
      rewrite Forall_lookup in Hs. specialize (Hs k x Hk). simpl in Hs. lia.
  - unfold bumpAssigned. by rewrite length_alter.
  - lia.
Qed.

(** ** What the capped assignment promises *)

(** The remainder that the rounding of [quota] drops. *)
Definition quota_remainder (slots : list share) (count : Z) (s : share) : Z :=
  sh_weight s * (count - Z.of_nat (length slots)) mod zsum sh_weight slots.

Definition same_endpoint (s s' : share) : Prop :=
  sh_index s' = sh_index s ∧ sh_identity s' = sh_identity s ∧ sh_weight s' = sh_weight s.

(** Exactly [count] slots are assigned; an endpoint gets one slot, the rounded
    proportional share of the others, and possibly one more; the endpoints that
    get one more are those with the largest remainders. *)
Record capped (slots slots' : list share) (count : Z) : Prop := {
  capped_endpoints : Forall2 same_endpoint slots slots';
  capped_sum : zsum sh_assigned slots' = count;
  capped_quota : Forall2 (fun s s' =>
    sh_assigned s' = 1 + quota slots count s ∨ sh_assigned s' = 2 + quota slots count s)
    slots slots';
  capped_largest : ∀ i j s t s' t',
    slots !! i = Some s → slots' !! i = Some s' → sh_assigned s' = 2 + quota slots count s →
    slots !! j = Some t → slots' !! j = Some t' → sh_assigned t' = 1 + quota slots count t →
    quota_remainder slots count t ≤ quota_remainder slots count s;
}.

Section CappedResult.
Context (slots : list share) (count : Z).
Hypothesis slots_ne : slots ≠ [].
Hypothesis slots_ok : Forall weight_ok slots.
Hypothesis count_ok : Z.of_nat (length slots) ≤ count ≤ 2 ^ 16.

Let quotas : list share :=
  assignQuota (wrap64 (count - Z.of_nat (length slots))) (zsum sh_weight slots) <$> slots.
Let chosen : list nat :=
  take (Z.to_nat (leftover slots (zsum sh_weight slots) count)) (remainderOrder quotas).

Lemma quotas_lookup i s : slots !! i = Some s → quotas !! i = Some
  (mkShare (sh_index s) (sh_identity s) (sh_weight s) (1 + quota slots count s)
     (quota_remainder slots count s)).
Proof.
  intros Hi. unfold quotas. rewrite list_lookup_fmap, Hi. simpl. f_equal.
  apply assignQuota_exact; [done..|]. by eapply list_elem_of_lookup_2.
Qed.

Lemma length_quotas : length quotas = length slots.
Proof. apply length_fmap. Qed.

Lemma chosen_NoDup : NoDup chosen.
Proof.
  eapply sublist_NoDup; [|apply sublist_take]. rewrite remainderOrder_perm. apply NoDup_seq.
Qed.

Lemma chosen_length : Z.of_nat (length chosen) = leftover slots (zsum sh_weight slots) count.
Proof.
  pose proof (leftover_range slots count slots_ne slots_ok count_ok) as [_ Hrange].
  unfold chosen. rewrite length_take, remainderOrder_perm, length_seq, length_quotas. lia.
Qed.

Lemma assignCapped_lookup i s : slots !! i = Some s →
  assignCapped slots (zsum sh_weight slots) count !! i = Some
    (mkShare (sh_index s) (sh_identity s) (sh_weight s)
       ((if decide (i ∈ chosen) then 2 else 1) + quota slots count s)
       (quota_remainder slots count s)).
Proof.
  intros Hi. unfold assignCapped. fold quotas. fold chosen.
  rewrite bump_lookup by apply chosen_NoDup. rewrite (quotas_lookup _ _ Hi). simpl.
  pose proof (quota_bounds slots count slots_ne slots_ok count_ok s
    (list_elem_of_lookup_2 _ _ _ Hi)).
  destruct (decide (i ∈ chosen)); simpl; [|done]. unfold bumped, set_assigned. simpl.
  rewrite wrap32_id by lia. do 2 f_equal. lia.
Qed.

Lemma length_assignCapped :
  length (assignCapped slots (zsum sh_weight slots) count) = length slots.
Proof.
  unfold assignCapped. by rewrite bump_length, length_fmap.
Qed.

Lemma assignCapped_sum : zsum sh_assigned (assignCapped slots (zsum sh_weight slots) count) = count.
Proof.
  pose proof (leftover_range slots count slots_ne slots_ok count_ok) as [Hleft _].
  unfold assignCapped. fold quotas. fold chosen. rewrite (bump_sum _ _ (1 + count)).
  - rewrite chosen_length, Hleft. unfold quotas. rewrite zsum_fmap.
    rewrite (zsum_ext _ (fun s => 1 + quota slots count s)).
    + rewrite zsum_add. pose proof (zsum_bounds (fun _ : share => 1) 1 1 slots) as Hone.
      assert (1 * Z.of_nat (length slots) ≤ zsum (fun _ => 1) slots ≤ 1 * Z.of_nat (length slots)).
      { apply Hone, Forall_forall. lia. }
      lia.
    + intros s Hs. unfold compose. by rewrite assignQuota_exact.
  - apply Forall_forall. intros s Hs. apply list_elem_of_fmap in Hs as (s0 & -> & Hs0).
    rewrite assignQuota_exact by done. simpl.
    pose proof (quota_bounds slots count slots_ne slots_ok count_ok s0 Hs0). lia.
  - apply Forall_take, Forall_forall. intros i. rewrite remainderOrder_perm, elem_of_seq. lia.
  - rewrite chosen_length. pose proof (leftover_range slots count slots_ne slots_ok count_ok). lia.
Qed.

Lemma assignCapped_capped :
  capped slots (assignCapped slots (zsum sh_weight slots) count) count.
Proof.
  split.
  - apply Forall2_same_length_lookup_2; [by rewrite length_assignCapped|].
    intros i s s' Hi. rewrite (assignCapped_lookup _ _ Hi). by intros [= <-].
  - apply assignCapped_sum.
  - apply Forall2_same_length_lookup_2; [by rewrite length_assignCapped|].
    intros i s s' Hi. rewrite (assignCapped_lookup _ _ Hi). intros [= <-]. simpl.
    destruct (decide _); auto.
  - intros i j s t s' t' Hi. rewrite (assignCapped_lookup _ _ Hi). intros [= <-] Hs Hj.
    rewrite (assignCapped_lookup _ _ Hj). intros [= <-] Ht. simpl in *.
    destruct (decide (i ∈ chosen)) as [Hic|]; [|lia].
    destruct (decide (j ∈ chosen)) as [|Hjc]; [lia|].
    assert (Hjl : (j < length quotas)%nat).
    { rewrite length_quotas. by eapply lookup_lt_Some. }
    pose proof (remainderOrder_chosen quotas _ _ _ Hic Hjl Hjc) as Hle.
    by rewrite !(list_lookup_total_correct _ _ _ (quotas_lookup _ _ Hi)),
      !(list_lookup_total_correct _ _ _ (quotas_lookup _ _ Hj)) in Hle.
Qed.
End CappedResult.

(** ** Active endpoints *)

Definition weight_u32 (e : weightedEndpoint) : Prop := 0 ≤ we_weight e < 2 ^ 32.

Lemma elem_of_activeShares index endpoints s :
  s ∈ activeShares index endpoints ↔ ∃ k e, endpoints !! k = Some e ∧ we_weight e ≠ 0 ∧
    s = mkShare (wrap32 (Z.of_nat (index + k))) (we_identity e) (we_weight e) 0 0.
Proof.
  revert index. induction endpoints as [|e endpoints IH]; intros index; simpl.
  - rewrite elem_of_nil. split; [done|]. by intros (k & e & ? & _).
  - assert (Hrest : s ∈ activeShares (S index) endpoints ↔ ∃ k e', (e :: endpoints) !! S k = Some e' ∧
      we_weight e' ≠ 0 ∧
      s = mkShare (wrap32 (Z.of_nat (index + S k))) (we_identity e') (we_weight e') 0 0).
    { rewrite IH. simpl. by setoid_rewrite Nat.add_succ_r. }
    destruct (we_weight e =? 0) eqn:E; bool_hyps; rewrite ?elem_of_cons, Hrest; split.
    + intros (k & e' & ?). by exists (S k), e'.
    + intros ([|k] & e' & He' & ? & ?); [simplify_eq/=; lia|]. by exists k, e'.
    + intros [->|(k & e' & ?)]; [|by exists (S k), e']. exists 0%nat, e. by rewrite Nat.add_0_r.
    + intros ([|k] & e' & He' & Hw & ->); [|right; by exists k, e'].
      injection He' as <-. left. by rewrite Nat.add_0_r.
Qed.

Lemma activeShares_ok index endpoints :
  Forall weight_u32 endpoints → Forall weight_ok (activeShares index endpoints).
Proof.
  intros Hw. apply Forall_forall. intros s (k & e & He & Hne & ->)%elem_of_activeShares.
  rewrite Forall_lookup in Hw. specialize (Hw k e He). unfold weight_u32, weight_ok in *. simpl. lia.
Qed.

Lemma activeShares_NoDup index endpoints :
  Z.of_nat (index + length endpoints) ≤ 2 ^ 32 →
  NoDup (sh_index <$> activeShares index endpoints).
Proof.
  revert index. induction endpoints as [|e endpoints IH]; intros index Hlen; simpl; [constructor|].
  simpl in Hlen. assert (NoDup (sh_index <$> activeShares (S index) endpoints)) by (apply IH; lia).
  destruct (we_weight e =? 0); [done|]. csimpl. constructor; [|done].
  intros (s & Hs & Hin)%list_elem_of_fmap.
  apply elem_of_activeShares in Hin as (k & e' & Hk & _ & ->). simpl in Hs.
  apply lookup_lt_Some in Hk. rewrite !wrap32_id in Hs by lia. lia.
Qed.

Lemma length_activeShares index endpoints :
  (length (activeShares index endpoints) ≤ length endpoints)%nat.
Proof.
  revert index. induction endpoints as [|e endpoints IH]; intros index; simpl; [done|].
  case_scrutinee; simpl; specialize (IH (S index)); lia.
Qed.

Definition positive_endpoints (endpoints : list weightedEndpoint) : list weightedEndpoint :=
  filter (fun e => we_weight e ≠ 0) endpoints.

Lemma length_positive_endpoints index endpoints :
  length (activeShares index endpoints) = length (positive_endpoints endpoints).
Proof.
  revert index. induction endpoints as [|e endpoints IH]; intros index; simpl; [done|].
  unfold positive_endpoints. rewrite filter_cons. specialize (IH (S index)).
  destruct (we_weight e =? 0) eqn:E; bool_hyps; case_decide; try lia; simpl; by rewrite IH.
Qed.

(** The ordinals a balancer chooses among. *)
Definition active_ordinal (endpoints : list weightedEndpoint) (o : Z) : Prop :=
  ∃ k e, endpoints !! k = Some e ∧ we_weight e ≠ 0 ∧ o = Z.of_nat k.

Lemma elem_of_active_ordinals endpoints o : Z.of_nat (length endpoints) ≤ 2 ^ 32 →
  o ∈ sh_index <$> activeShares 0 endpoints ↔ active_ordinal endpoints o.
Proof.
  intros Hlen. rewrite list_elem_of_fmap. setoid_rewrite elem_of_activeShares. split.
  - intros (s & -> & k & e & He & Hwe & ->). exists k, e. split_and!; [done..|]. simpl.
    apply lookup_lt_Some in He. by rewrite wrap32_id by lia.
  - intros (k & e & He & Hwe & ->). eexists. split; [|by exists k, e]. simpl.
    apply lookup_lt_Some in He. by rewrite wrap32_id by lia.
Qed.

(** ** What a balancer promises

    Both balancers choose an endpoint under a health and attempt filter.  The
    plan relies on this interface only: a choice is a positive-weight endpoint
    that passes the filter, and no choice means that none passes. *)
Class Selector (members : Z → Prop) (choose : (Z → bool) → option Z) : Prop := {
  selector_sound selectable o : choose selectable = Some o → members o ∧ selectable o = true;
  selector_complete selectable : choose selectable = None →
    ∀ o, members o → selectable o = false;
}.

(** The first selectable element of a list of the members is such a choice. *)
Lemma head_filter_selector (members : Z → Prop) (order : list Z) (choose : (Z → bool) → option Z) :
  (∀ o, o ∈ order ↔ members o) →
  (∀ selectable, choose selectable = head (filter (fun o => selectable o = true) order)) →
  Selector members choose.
Proof.
  intros Hin Hchoose. split; intros selectable; rewrite Hchoose.
  - intros o Ho. assert (Hf : o ∈ filter (fun o => selectable o = true) order).
    { destruct (filter _ order); [done|]. injection Ho as ->. left. }
    apply list_elem_of_filter in Hf as [Hs Hf]. split; [by apply Hin|done].
  - intros Hnone%head_None o Ho. apply not_true_is_false. intros Hs.
    eapply (filter_nil_not_elem_of _ _ o); [exact Hnone|done|by apply Hin].
Qed.

(** ** Property *)

(** the capped assignment hands out exactly the allowed number of slots or
    points, at least one to every endpoint and within one of the proportional
    share, the extra ones to the largest remainders; the slice it takes of the
    order is in range. *)
Theorem assignCapped_apportions slots count :
  slots ≠ [] → Forall weight_ok slots → Z.of_nat (length slots) ≤ count ≤ 2 ^ 16 →
  0 ≤ leftover slots (zsum sh_weight slots) count < Z.of_nat (length slots) ∧
  capped slots (assignCapped slots (zsum sh_weight slots) count) count.
Proof.
  intros Hne Hok Hcount. split; [by apply leftover_range|by apply assignCapped_capped].
Qed.

Definition demo_shares : list share :=
  [mkShare 0 "a" 5 0 0; mkShare 1 "b" 3 0 0; mkShare 2 "c" 1 0 0].

Example demo_assignCapped : sh_assigned <$> assignCapped demo_shares 9 7 = [3; 2; 2].
Proof. vm_compute. reflexivity. Qed.

Lemma assignCapped_apportions_witness :
  zsum sh_assigned (assignCapped demo_shares 9 7) = 7.
Proof.
  destruct (assignCapped_apportions demo_shares 7) as [_ H].
  - discriminate.
  - repeat constructor; vm_compute; congruence.
  - vm_compute. split; congruence.
  - exact (capped_sum _ _ _ H).
Defined.
