(* ===== verification/Wrr.v ===== *)
(** * Weighted round robin ([internal/upstream/wrr.go])

    Compilation of the endpoint weights into a cyclic schedule by an
    earliest-deadline heap, and the selection that walks it with a shared
    64-bit sequence number. *)

From S2P Require Import Prelude Heap Apportion.
#[local] Open Scope Z_scope.

Definition MaxWRRSchedule : Z := 8192.

(** ** Data *)

Record wrrSlot := mkSlot { slot_share : share; slot_emitted : Z }.

#[global] Instance wrrSlot_inhabited : Inhabited wrrSlot := populate (mkSlot inhabitant 0).

Definition slot_index (s : wrrSlot) : Z := sh_index (slot_share s).
Definition slot_identity (s : wrrSlot) : string := sh_identity (slot_share s).
Definition slot_assigned (s : wrrSlot) : Z := sh_assigned (slot_share s).
Definition set_emitted (emitted : Z) (s : wrrSlot) : wrrSlot := mkSlot (slot_share s) emitted.

(** [state] names the shared sequence counter the selector advances. *)
Record wrrSelector := mkSelector {
  wrr_state : nat;
  wrr_schedule : list Z;
  wrr_direct : Z;
}.

Inductive wrrError :=
| SelectionStateRequired
| NoPositiveWeight
| TooManyActiveEndpoints
| ScheduleUnfinished.

(** ** Operations *)

(** [wrrDeadlineHeap.Less] *)
Definition wrr_Less (a b : wrrSlot) : bool :=
  let left := wrap64 (wrap32 (slot_emitted a + 1) * slot_assigned b) in
  let right := wrap64 (wrap32 (slot_emitted b + 1) * slot_assigned a) in
  if negb (left =? right) then left <? right
  else if negb (String.eqb (slot_identity a) (slot_identity b))
  then String.ltb (slot_identity a) (slot_identity b)
  else slot_index a <? slot_index b.

(** The loop that pops the slot of the earliest deadline; [None] when slots are
    left after [fuel] iterations. *)
Fixpoint emitLoop (fuel : nat) (deadlines : list wrrSlot) (schedule : list Z) : option (list Z) :=
  match deadlines, fuel with
  | [], _ => Some schedule
  | _, O => None
  | _, S fuel =>
      '(slot, rest) ← heap_Pop wrr_Less deadlines;
      let next := set_emitted (wrap32 (slot_emitted slot + 1)) slot in
      emitLoop fuel
        (if slot_emitted next <? slot_assigned next then heap_Push wrr_Less rest next else rest)
        (schedule ++ [slot_index slot])
  end.

(** The slots per schedule of each active endpoint, and the schedule length. *)
Definition assignWRRSlots (active : list share) : list share * Z :=
  let active := normalizeShares active in
  let sum := normalizedSum active in
  if sum <=? MaxWRRSchedule
  then ((fun s => set_assigned (sh_weight s) s) <$> active, sum)
  else (assignCapped active sum MaxWRRSchedule, MaxWRRSchedule).

Definition compileWRR (endpoints : list weightedEndpoint) (state : option nat)
    : result wrrError wrrSelector :=
  match state with
  | None => Err SelectionStateRequired
  | Some state =>
      let active := activeShares 0 endpoints in
      match active with
      | [] => Err NoPositiveWeight
      | [only] => Ok (mkSelector state [] (sh_index only))
      | _ =>
          if MaxWRRSchedule <? Z.of_nat (length active) then Err TooManyActiveEndpoints
          else
            let '(assigned, scheduleLength) := assignWRRSlots active in
            let deadlines := (fun s => mkSlot s 0) <$> assigned in
            match emitLoop (Z.to_nat scheduleLength) (heap_Init wrr_Less deadlines) [] with
            | None => Err ScheduleUnfinished
            | Some schedule => Ok (mkSelector state schedule 0)
            end
      end
  end.

(** [sequence.Add(1) - 1]: the new value of the counter and the claimed one. *)
Definition claimSequence (sequence : Z) : Z * Z :=
  let next := wrap64 (sequence + 1) in (next, wrap64 (next - 1)).

Definition scheduleAt (s : wrrSelector) (position : Z) : Z :=
  default 0 (wrr_schedule s !! Z.to_nat (position mod Z.of_nat (length (wrr_schedule s)))).

(** The selected ordinal and the new sequence. *)
Definition wrr_selectIndex (s : wrrSelector) (sequence : Z) : Z * Z :=
  match wrr_schedule s with
  | [] => (wrr_direct s, sequence)
  | _ => let '(sequence, next) := claimSequence sequence in (scheduleAt s next, sequence)
  end.

(** The probe loop over the [count] offsets from [offset] on. *)
Fixpoint wrr_probe (s : wrrSelector) (selectable : Z → bool) (start : Z) (offset : nat)
    (count : nat) : option Z :=
  match count with
  | O => None
  | S count =>
      let ordinal := scheduleAt s (wrap64 (start + Z.of_nat offset)) in
      if selectable ordinal then Some ordinal
      else wrr_probe s selectable start (S offset) count
  end.

Definition wrr_selectNext (s : wrrSelector) (selectable : Z → bool) (sequence : Z)
    : option Z * Z :=
  match wrr_schedule s with
  | [] => (if selectable (wrr_direct s) then Some (wrr_direct s) else None, sequence)
  | schedule =>
      let '(sequence, start) := claimSequence sequence in
      (wrr_probe s selectable start 0 (length schedule), sequence)
  end.

(** ** The deadline order *)

(** The slots the compiler keeps in the heap: the machine products of [Less]
    are exact on them. *)
Definition slot_ok (s : wrrSlot) : Prop := 0 ≤ slot_emitted s < slot_assigned s ∧ slot_assigned s ≤ 2 ^ 16.

(** [a]'s next deadline [(emitted + 1) / assigned] is before [b]'s, or equal
    and [a] comes first by identity and index. *)
Definition deadline_before (a b : wrrSlot) : Prop :=
  (slot_emitted a + 1) * slot_assigned b < (slot_emitted b + 1) * slot_assigned a ∨
  (slot_emitted a + 1) * slot_assigned b = (slot_emitted b + 1) * slot_assigned a ∧
  (String.ltb (slot_identity a) (slot_identity b) = true ∨
   slot_identity a = slot_identity b ∧ slot_index a < slot_index b).

Lemma wrr_Less_spec a b : slot_ok a → slot_ok b → wrr_Less a b = true ↔ deadline_before a b.
Proof.
  intros [Ha Ha'] [Hb Hb']. unfold wrr_Less, deadline_before.
  rewrite !wrap32_id, !wrap64_id by nia.
  set (l := (slot_emitted a + 1) * _). set (r := (slot_emitted b + 1) * _).
  destruct (l =? r) eqn:E; simpl; bool_hyps.
  - rewrite E. destruct (String.eqb_spec (slot_identity a) (slot_identity b)) as [Hid|Hid]; simpl.
    + rewrite Z.ltb_lt, Hid, string_ltb_irrefl. intuition (congruence || lia).
    + intuition (congruence || lia).
  - rewrite Z.ltb_lt. intuition lia.
Qed.

Lemma wrr_Less_asym a b : slot_ok a → slot_ok b → wrr_Less a b = true → wrr_Less b a = false.
Proof.
  intros Ha Hb H. apply not_true_is_false. intros H'.
  apply wrr_Less_spec in H, H'; try done. unfold deadline_before in *.
  destruct H as [?|(? & [Hs|[Hs ?]])], H' as [?|(? & [Hs'|[Hs' ?]])]; try lia.
  - apply string_ltb_asym in Hs. congruence.
  - rewrite Hs', string_ltb_irrefl in Hs. done.
  - rewrite Hs, string_ltb_irrefl in Hs'. done.
Qed.

(** The converse comparison: [a]'s deadline is not after [b]'s. *)
Definition deadline_le (a b : wrrSlot) : Prop :=
  (slot_emitted a + 1) * slot_assigned b < (slot_emitted b + 1) * slot_assigned a ∨
  (slot_emitted a + 1) * slot_assigned b = (slot_emitted b + 1) * slot_assigned a ∧
  String.ltb (slot_identity b) (slot_identity a) = false ∧
  (slot_identity a = slot_identity b → slot_index a ≤ slot_index b).

Lemma heap_le_deadline a b : slot_ok a → slot_ok b → heap_le wrr_Less a b ↔ deadline_le a b.
Proof.
  intros Ha Hb. unfold heap_le. rewrite <-not_true_iff_false, wrr_Less_spec by done.
  unfold deadline_before, deadline_le. rewrite <-not_true_iff_false.
  set (l := (slot_emitted a + 1) * _). set (r := (slot_emitted b + 1) * _).
  destruct (Z.lt_trichotomy l r) as [Hlr|[Hlr|Hlr]]; [intuition lia| |intuition lia].
  destruct (decide (slot_identity a = slot_identity b)) as [Hid|Hid].
  - rewrite Hid, string_ltb_irrefl. split; [|intuition (congruence || lia)].
    intros Hn. right. split_and!; [done|done|]. intros _.
    destruct (Z.le_gt_cases (slot_index a) (slot_index b)); [done|]. exfalso. apply Hn.
    right. split; [done|]. right. split; [done|lia].
  - assert (Htot : String.ltb (slot_identity b) (slot_identity a) =
      negb (String.ltb (slot_identity a) (slot_identity b))).
    { destruct (String.ltb (slot_identity a) _) eqn:E; [by apply string_ltb_asym|].
      destruct (String.ltb (slot_identity b) _) eqn:E'; [done|].
      by apply string_ltb_total in E. }
    rewrite Htot, negb_true_iff, not_false_iff_true.
    destruct (String.ltb (slot_identity a) _); intuition (congruence || lia).
Qed.

Lemma deadline_le_trans a b c : slot_ok a → slot_ok b → slot_ok c →
  deadline_le a b → deadline_le b c → deadline_le a c.
Proof.
  unfold slot_ok, deadline_le. intros [Ha _] [Hb _] [Hc _] Hab Hbc.
  set (ea := slot_emitted a + 1) in *. set (eb := slot_emitted b + 1) in *.
  set (ec := slot_emitted c + 1) in *.
  set (wa := slot_assigned a) in *. set (wb := slot_assigned b) in *. set (wc := slot_assigned c) in *.
  assert (Hpos : 0 < wa ∧ 0 < wb ∧ 0 < wc) by lia.
  assert (Hle : ea * wb ≤ eb * wa ∧ eb * wc ≤ ec * wb) by lia.
  assert (Hcancel : (ea * wc) * wb ≤ (ec * wa) * wb) by nia.
  assert (Hac : ea * wc ≤ ec * wa) by (eapply Z.mul_le_mono_pos_r; [|exact Hcancel]; lia).
  destruct (decide (ea * wc = ec * wa)) as [Heq|Hne]; [right|left; lia].
  assert (Heqs : ea * wb = eb * wa ∧ eb * wc = ec * wb).
  { split; apply Z.le_antisymm; try lia; apply Z.nlt_ge; intros Hlt; nia. }
  destruct Hab as [?|(_ & Hab & Hab')]; [lia|]. destruct Hbc as [?|(_ & Hbc & Hbc')]; [lia|].
  split_and!; [done|by eapply string_ltb_false_trans|]. intros Hid.
  assert (slot_identity a = slot_identity b).
  { apply string_ltb_total; [|done]. by rewrite Hid. }
  assert (slot_identity b = slot_identity c) by congruence. specialize (Hab' ltac:(done)).
  specialize (Hbc' ltac:(done)). lia.
Qed.

(** ** The emission loop *)

(** The deadlines a slot still has to meet, each as the slot at that point. *)
Definition tokens (s : wrrSlot) : list wrrSlot :=
  (fun k => set_emitted (Z.of_nat k) s) <$>
    seq (Z.to_nat (slot_emitted s)) (Z.to_nat (slot_assigned s - slot_emitted s)).

Lemma elem_of_tokens s t :
  slot_ok s → t ∈ tokens s ↔ ∃ k, slot_emitted s ≤ k < slot_assigned s ∧ t = set_emitted k s.
Proof.
  intros [Hs _]. unfold tokens. rewrite list_elem_of_fmap. setoid_rewrite elem_of_seq. split.
  - intros (k & -> & Hk). exists (Z.of_nat k). split; [lia|done].
  - intros (k & Hk & ->). exists (Z.to_nat k). split; [by rewrite Z2Nat.id by lia|lia].
Qed.

Lemma tokens_unfold s : slot_ok s → tokens s = s ::
  (if slot_emitted s + 1 <? slot_assigned s then tokens (set_emitted (slot_emitted s + 1) s) else []).
Proof.
  intros [Hs _]. unfold tokens. destruct s as [sh e]. unfold slot_assigned in *. simpl in *.
  replace (Z.to_nat (sh_assigned sh - e)) with (S (Z.to_nat (sh_assigned sh - (e + 1)))) by lia.
  csimpl. rewrite Z2Nat.id by lia. f_equal.
  destruct (e + 1 <? sh_assigned sh) eqn:E; bool_hyps.
  - by replace (Z.to_nat (e + 1)) with (S (Z.to_nat e)) by lia.
  - by replace (Z.to_nat (sh_assigned sh - (e + 1))) with 0%nat by lia.
Qed.

Lemma token_ok s t : slot_ok s → t ∈ tokens s → slot_ok t.
Proof.
  intros Hs (k & Hk & ->)%elem_of_tokens; [|done]. destruct Hs as [? ?].
  unfold slot_ok, slot_assigned in *. simpl. lia.
Qed.

(** The deadlines of one slot only move later. *)
Lemma token_le s t : slot_ok s → t ∈ tokens s → deadline_le s t.
Proof.
  intros Hs (k & Hk & ->)%elem_of_tokens; [|done]. destruct Hs as [? ?].
  unfold deadline_le, slot_assigned, slot_identity, slot_index in *. simpl.
  destruct (decide (slot_emitted s = k)) as [->|]; [right|left; nia].
  split_and!; [done|apply string_ltb_irrefl|lia].
Qed.

(** The deadlines outstanding in a heap. *)
Definition pending (deadlines : list wrrSlot) : list wrrSlot := deadlines ≫= tokens.

Lemma pending_perm h k : h ≡ₚ k → pending h ≡ₚ pending k.
Proof. intros Hp. unfold pending. by rewrite Hp. Qed.

Lemma length_pending h : Forall slot_ok h →
  Z.of_nat (length (pending h)) = zsum (fun s => slot_assigned s - slot_emitted s) h.
Proof.
  induction 1 as [|s h [Hs _] _ IH]; csimpl; [done|].
  rewrite length_app, Nat2Z.inj_add. fold (pending h). rewrite IH. unfold tokens.
  rewrite length_fmap, length_seq. lia.
Qed.

Lemma elem_of_pending h t : t ∈ pending h ↔ ∃ s, s ∈ h ∧ t ∈ tokens s.
Proof. unfold pending. rewrite list_elem_of_bind. naive_solver. Qed.

Lemma wrr_heap_le_trans x y z : slot_ok x → slot_ok y → slot_ok z →
  heap_le wrr_Less x y → heap_le wrr_Less y z → heap_le wrr_Less x z.
Proof. intros Hx Hy Hz. rewrite !heap_le_deadline by done. by apply deadline_le_trans. Qed.

(** One iteration: the slot popped, and the heap with that slot's next deadline
    in its place. *)
Lemma emit_step h : Forall slot_ok h → heap_ordered wrr_Less h → h ≠ [] →
  ∃ slot rest, heap_Pop wrr_Less h = Some (slot, rest) ∧ slot_ok slot ∧
    let next := set_emitted (wrap32 (slot_emitted slot + 1)) slot in
    let h' := if slot_emitted next <? slot_assigned next
              then heap_Push wrr_Less rest next else rest in
    Forall slot_ok h' ∧ heap_ordered wrr_Less h' ∧ pending h ≡ₚ slot :: pending h' ∧
    Forall (deadline_le slot) (pending h').
Proof.
  intros Hok Hord Hne.
  destruct (heap_Pop_spec wrr_Less slot_ok wrr_Less_asym wrr_heap_le_trans h Hok Hord Hne)
    as (slot & rest & Hpop & Hperm & Hrest & Hleast).
  rewrite <-Hperm in Hok. inversion_clear Hok as [|?? Hslot Hokr].
  exists slot, rest. split; [done|]. split; [done|]. intros next h'.
  assert (Hnext : next = set_emitted (slot_emitted slot + 1) slot).
  { unfold next. destruct Hslot. by rewrite wrap32_id by lia. }
  assert (Hh' : h' ≡ₚ (if slot_emitted slot + 1 <? slot_assigned slot then [next] else []) ++ rest ∧
    Forall slot_ok h' ∧ heap_ordered wrr_Less h').
  { unfold h'. rewrite Hnext. change (slot_assigned (set_emitted _ slot)) with (slot_assigned slot).
    simpl. destruct (slot_emitted slot + 1 <? slot_assigned slot) eqn:E; [|done]. bool_hyps.
    assert (Hn : slot_ok (set_emitted (slot_emitted slot + 1) slot)).
    { destruct Hslot. unfold slot_ok, slot_assigned in *. simpl. lia. }
    destruct (heap_Push_spec wrr_Less slot_ok wrr_Less_asym wrr_heap_le_trans rest _ Hokr Hn Hrest)
      as [Hp Ho]. split; [exact Hp|]. split; [|done]. rewrite Hp. by constructor. }
  destruct Hh' as (Hp' & Hok' & Hord'). split_and!; [done..| |].
  - rewrite (pending_perm _ _ (symmetry Hperm)), (pending_perm _ _ Hp'). csimpl. fold (pending rest).
    rewrite tokens_unfold by done. simpl. constructor.
    destruct (slot_emitted slot + 1 <? slot_assigned slot); csimpl; [|done]. by rewrite <-Hnext.
  - apply Forall_forall. intros t (s & Hs & Ht)%elem_of_pending.
    assert (Hsok : slot_ok s) by (by eapply Forall_forall in Hok').
    apply (deadline_le_trans slot s t); [done..|by eapply token_ok| |by apply token_le].
    rewrite Hp', elem_of_app in Hs. destruct Hs as [Hs|Hs].
    + destruct (slot_emitted slot + 1 <? slot_assigned slot) eqn:E; [|by apply elem_of_nil in Hs].
      apply list_elem_of_singleton in Hs as ->. apply token_le; [done|]. bool_hyps.
      rewrite Hnext, elem_of_tokens by done. exists (slot_emitted slot + 1). split; [|done].
      lia.
    + apply heap_le_deadline; [done..|]. by eapply Forall_forall in Hleast.
Qed.

(** The loop emits every outstanding deadline once, earliest first. *)
Lemma emitLoop_spec fuel h schedule : Forall slot_ok h → heap_ordered wrr_Less h →
  (length (pending h) ≤ fuel)%nat →
  ∃ out, emitLoop fuel h schedule = Some (schedule ++ (slot_index <$> out)) ∧
    out ≡ₚ pending h ∧ StronglySorted deadline_le out.
Proof.
  revert h schedule. induction fuel as [|fuel IH]; intros h schedule Hok Hord Hfuel.
  - destruct h as [|s h]; [exists []; rewrite app_nil_r; split_and!; try done; constructor|].
    exfalso. inversion_clear Hok as [|?? Hs _]. unfold pending in Hfuel. csimpl in Hfuel.
    rewrite tokens_unfold in Hfuel by done. simpl in Hfuel. lia.
  - destruct h as [|s h]; [exists []; rewrite app_nil_r; split_and!; try done; constructor|].
    destruct (emit_step (s :: h) Hok Hord ltac:(done))
      as (slot & rest & Hpop & Hslot & Hok' & Hord' & Hp & Hle).
    cbn [emitLoop]. rewrite Hpop. cbn [mbind option_bind].
    destruct (IH _ (schedule ++ [slot_index slot]) Hok' Hord') as (out & Hout & Hpo & Hso).
    { apply le_S_n. by rewrite Hp in Hfuel. }
    exists (slot :: out). split_and!.
    + rewrite Hout. by rewrite <-app_assoc.
    + rewrite Hpo. by symmetry.
    + constructor; [done|]. by rewrite Hpo.
Qed.

(** ** What a compiled schedule contains *)

Definition start_slots (assigned : list share) : list wrrSlot := (fun s => mkSlot s 0) <$> assigned.

Definition assigned_ok (s : share) : Prop := 1 ≤ sh_assigned s ≤ MaxWRRSchedule.

Lemma start_slots_ok assigned : Forall assigned_ok assigned → Forall slot_ok (start_slots assigned).
Proof.
  intros Ha. apply Forall_fmap. eapply Forall_impl; [exact Ha|].
  unfold assigned_ok, slot_ok, slot_assigned, compose, MaxWRRSchedule. simpl. lia.
Qed.

(** The result of [assignWRRSlots]: the slots of the endpoints add up to the
    schedule length; they are the weights divided by their greatest common
    divisor, or the capped apportionment of [MaxWRRSchedule]. *)
Record assignment (active assigned : list share) (len : Z) : Prop := {
  assignment_endpoints : Forall2 (fun s s' =>
    sh_index s' = sh_index s ∧ sh_identity s' = sh_identity s) active assigned;
  assignment_positive : Forall assigned_ok assigned;
  assignment_length : zsum sh_assigned assigned = len ∧ len ≤ MaxWRRSchedule;
  assignment_exact : zsum sh_weight (normalizeShares active) ≤ MaxWRRSchedule →
    Forall2 (fun s s' => sh_weight s = weightDivisor active * sh_assigned s') active assigned;
  assignment_capped : MaxWRRSchedule < zsum sh_weight (normalizeShares active) →
    capped (normalizeShares active) assigned MaxWRRSchedule;
}.

Lemma length_normalizeShares active : length (normalizeShares active) = length active.
Proof. apply length_fmap. Qed.

Lemma normalizeShares_sum active : active ≠ [] → Forall weight_ok active →
  Z.of_nat (length active) ≤ 2 ^ 16 →
  normalizedSum (normalizeShares active) = zsum sh_weight (normalizeShares active).
Proof.
  intros Hne Hok Hlen. apply normalizedSum_exact; [by apply normalizeShares_weights|].
  by rewrite length_normalizeShares.
Qed.

Lemma capped_positive slots slots' count : slots ≠ [] → Forall weight_ok slots →
  Z.of_nat (length slots) ≤ count ≤ 2 ^ 16 → capped slots slots' count →
  Forall (fun s => 1 ≤ sh_assigned s ≤ count) slots'.
Proof.
  intros Hne Hok Hcount [_ Hsum Hq _].
  assert (Hpos : Forall (fun s => 1 ≤ sh_assigned s) slots').
  { apply Forall_lookup. intros i s' Hi. apply (Forall2_lookup_r _ _ _ _ _ Hq) in Hi as (s & Hs & H).
    pose proof (quota_bounds slots count Hne Hok Hcount s (list_elem_of_lookup_2 _ _ _ Hs)). lia. }
  apply Forall_forall. intros s Hs. split.
  - by eapply Forall_forall in Hpos.
  - rewrite <-Hsum. apply zsum_elem_le; [|done]. eapply Forall_impl; [exact Hpos|]. simpl. lia.
Qed.

Lemma assignWRRSlots_spec active : active ≠ [] → Forall weight_ok active →
  Z.of_nat (length active) ≤ MaxWRRSchedule →
  assignment active (assignWRRSlots active).1 (assignWRRSlots active).2.
Proof.
  intros Hne Hok Hlen. unfold MaxWRRSchedule in Hlen.
  destruct (normalizeShares_weights active Hne Hok) as [Hnorm Hnok].
  assert (Hnne : normalizeShares active ≠ []) by (by destruct active).
  unfold assignWRRSlots. rewrite normalizeShares_sum by (done || lia).
  destruct (_ <=? MaxWRRSchedule) eqn:E; bool_hyps; unfold MaxWRRSchedule in *; simpl.
  - assert (Hle : Forall (fun s => 1 ≤ sh_weight s ≤ 8192) (normalizeShares active)).
    { apply Forall_forall. intros s Hs. split.
      - eapply Forall_forall in Hnok; [|done]. unfold weight_ok in Hnok. lia.
      - etrans; [|exact E]. apply zsum_elem_le; [|done].
        eapply Forall_impl; [exact Hnok|]. unfold weight_ok. intros; lia. }
    split.
    + apply Forall2_fmap_r. eapply Forall2_impl; [exact Hnorm|]. intros s s' (? & ? & _). done.
    + by apply Forall_fmap.
    + rewrite zsum_fmap. by split.
    + intros _. apply Forall2_fmap_r. eapply Forall2_impl; [exact Hnorm|]. by intros s s' (_ & _ & ?).
    + unfold MaxWRRSchedule. lia.
  - pose proof (assignCapped_capped (normalizeShares active) 8192 Hnne Hnok) as Hc.
    rewrite length_normalizeShares in Hc. specialize (Hc ltac:(lia)).
    split; [|by apply (capped_positive (normalizeShares active)); rewrite ?length_normalizeShares; try lia
      |by split; [apply Hc|]|unfold MaxWRRSchedule; lia|done].
    destruct Hc as [Hends _ _ _].
    eapply Forall2_compose; [|exact Hnorm|exact Hends].
    intros s s' s'' (? & ? & _) (? & ? & _). split; congruence.
Qed.

(** ** Schedules *)

(** How often [x] occurs in [l]. *)
Definition occurrences (x : Z) (l : list Z) : Z :=
  Z.of_nat (length (filter (fun y => y = x) l)).

(** The deadlines of the endpoint with ordinal [x] among [l]. *)
Definition slots_of (x : Z) (l : list wrrSlot) : list wrrSlot :=
  filter (fun t => slot_index t = x) l.

Lemma occurrences_slots x l : occurrences x (slot_index <$> l) = Z.of_nat (length (slots_of x l)).
Proof.
  unfold occurrences, slots_of. induction l as [|t l IH]; [done|]. csimpl.
  rewrite !filter_cons. repeat case_decide; try congruence; simpl; lia.
Qed.

Lemma slots_of_start x s : assigned_ok s → length (slots_of x (tokens (mkSlot s 0))) =
  if decide (sh_index s = x) then Z.to_nat (sh_assigned s) else 0%nat.
Proof.
  intros Hs. unfold slots_of, tokens, slot_assigned. simpl. rewrite Z.sub_0_r.
  assert (Hgen : ∀ n k, length (filter (fun t => slot_index t = x)
    ((fun k => set_emitted (Z.of_nat k) (mkSlot s 0)) <$> seq k n)) =
    if decide (sh_index s = x) then n else 0%nat); [|apply Hgen].
  induction n as [|n IH]; intros k; csimpl; [by case_decide|].
  rewrite filter_cons. specialize (IH (S k)).
  change (slot_index (set_emitted (Z.of_nat k) (mkSlot s 0))) with (sh_index s).
  case_decide; simpl; by rewrite IH.
Qed.

Lemma slots_of_pending_none x assigned : Forall assigned_ok assigned →
  x ∉ sh_index <$> assigned → length (slots_of x (pending (start_slots assigned))) = 0%nat.
Proof.
  induction 1 as [|s assigned Hs Hok IH]; intros Hx; [done|]. csimpl in *.
  apply not_elem_of_cons in Hx as [Hx Hrest]. unfold pending. csimpl.
  unfold slots_of. rewrite filter_app, length_app. fold (slots_of x (tokens (mkSlot s 0))).
  rewrite slots_of_start, decide_False by done. by apply IH.
Qed.

Lemma slots_of_pending s assigned : Forall assigned_ok assigned →
  NoDup (sh_index <$> assigned) → s ∈ assigned →
  Z.of_nat (length (slots_of (sh_index s) (pending (start_slots assigned)))) = sh_assigned s.
Proof.
  intros Hok Hnd Hs. induction Hok as [|s' assigned Hs' Hok IH]; [by apply elem_of_nil in Hs|].
  csimpl in *. apply NoDup_cons in Hnd as [Hn Hnd]. unfold pending. csimpl.
  unfold slots_of. rewrite filter_app, length_app.
  fold (slots_of (sh_index s) (tokens (mkSlot s' 0))). rewrite slots_of_start by done.
  fold (pending (start_slots assigned)). fold (slots_of (sh_index s) (pending (start_slots assigned))).
  apply elem_of_cons in Hs as [->|Hs].
  - rewrite decide_True, slots_of_pending_none by done. unfold assigned_ok in Hs'. lia.
  - rewrite decide_False; [by apply IH|]. intros He. apply Hn. rewrite He.
    by apply list_elem_of_fmap_2.
Qed.

Lemma pending_NoDup assigned : Forall assigned_ok assigned → NoDup (sh_index <$> assigned) →
  NoDup (pending (start_slots assigned)).
Proof.
  intros Hok Hnd. apply start_slots_ok in Hok. unfold pending. apply NoDup_bind.
  - intros a b t Ha Hb Hta Htb.
    eapply Forall_forall in Ha as Hoka; [|exact Hok]. eapply Forall_forall in Hb as Hokb; [|exact Hok].
    apply elem_of_tokens in Hta as (ka & _ & ->); [|done].
    apply elem_of_tokens in Htb as (kb & _ & [= Hshare _]); [|done].
    apply list_elem_of_fmap in Ha as (sa & -> & _). apply list_elem_of_fmap in Hb as (sb & -> & _).
    simpl in Hshare. congruence.
  - intros s _. apply NoDup_fmap_2; [|apply NoDup_seq]. intros a b [= ?]. lia.
  - apply NoDup_fmap_2; [intros a b; congruence|]. by apply NoDup_fmap_1 in Hnd.
Qed.

(** The slots behind a compiled schedule: every deadline of the assignment,
    once, in deadline order. *)
Record schedule_of (endpoints : list weightedEndpoint) (schedule : list Z)
    (assigned : list share) (slots : list wrrSlot) : Prop := {
  schedule_active : activeShares 0 endpoints ≠ [];
  schedule_count : Z.of_nat (length (activeShares 0 endpoints)) ≤ MaxWRRSchedule;
  schedule_assignment : assignment (activeShares 0 endpoints) assigned (Z.of_nat (length schedule));
  schedule_slots : schedule = slot_index <$> slots;
  schedule_pending : slots ≡ₚ pending (start_slots assigned);
  schedule_sorted : StronglySorted deadline_le slots;
}.

Lemma length_start_pending assigned : Forall assigned_ok assigned →
  Z.of_nat (length (pending (start_slots assigned))) = zsum sh_assigned assigned.
Proof.
  intros Hok. rewrite length_pending by (by apply start_slots_ok). unfold start_slots.
  rewrite zsum_fmap. apply zsum_ext. intros s _. unfold slot_assigned, compose. simpl. lia.
Qed.

Lemma compileWRR_many endpoints state :
  Forall weight_u32 endpoints → (2 ≤ length (activeShares 0 endpoints))%nat →
  Z.of_nat (length (activeShares 0 endpoints)) ≤ MaxWRRSchedule →
  ∃ schedule assigned slots,
    compileWRR endpoints (Some state) = Ok (mkSelector state schedule 0) ∧
    schedule_of endpoints schedule assigned slots.
Proof.
  intros Hw Hmany Hmax. pose proof (activeShares_ok 0 endpoints Hw) as Hok.
  set (active := activeShares 0 endpoints) in *.
  assert (Hne : active ≠ []) by (intros E; rewrite E in Hmany; simpl in Hmany; lia).
  pose proof (assignWRRSlots_spec active Hne Hok Hmax) as Ha.
  destruct (assignWRRSlots active) as [assigned len] eqn:E. simpl in Ha.
  pose proof (start_slots_ok assigned (assignment_positive _ _ _ Ha)) as Hsok.
  destruct (heap_Init_spec wrr_Less slot_ok wrr_Less_asym wrr_heap_le_trans _ Hsok) as [Hp Hord].
  assert (Hlen : len = Z.of_nat (length (pending (start_slots assigned)))).
  { rewrite length_start_pending by apply Ha. symmetry. apply Ha. }
  destruct (emitLoop_spec (Z.to_nat len) (heap_Init wrr_Less (start_slots assigned)) [])
    as (slots & Hemit & Hps & Hsort); [by rewrite Hp|done| |].
  { rewrite (pending_perm _ _ Hp). lia. }
  rewrite (pending_perm _ _ Hp) in Hps.
  exists (slot_index <$> slots), assigned, slots. split.
  - unfold compileWRR. fold active. destruct active as [|a1 [|a2 active']]; simpl in Hmany; try lia.
    replace (MaxWRRSchedule <? _) with false by (symmetry; by apply Z.ltb_ge).
    rewrite E. unfold start_slots in Hemit. by rewrite Hemit.
  - split; [done..| |done|done|done]. fold active. rewrite length_fmap, Hps, <-Hlen. done.
Qed.

Lemma compileWRR_inv endpoints state sel : Forall weight_u32 endpoints →
  compileWRR endpoints (Some state) = Ok sel → wrr_schedule sel ≠ [] →
  ∃ assigned slots, schedule_of endpoints (wrr_schedule sel) assigned slots.
Proof.
  intros Hw Hc Hne.
  destruct (activeShares 0 endpoints) as [|a1 [|a2 active]] eqn:E.
  - unfold compileWRR in Hc. rewrite E in Hc. done.
  - unfold compileWRR in Hc. rewrite E in Hc. injection Hc as <-. done.
  - destruct (decide (Z.of_nat (length (activeShares 0 endpoints)) ≤ MaxWRRSchedule)) as [Hm|Hm].
    + destruct (compileWRR_many endpoints state Hw) as (schedule & assigned & slots & Hok & Hs);
        [rewrite E; simpl; lia|done|]. rewrite Hc in Hok. injection Hok as ->. eauto.
    + unfold compileWRR in Hc. rewrite E in Hc. rewrite E in Hm.
      replace (MaxWRRSchedule <? _) with true in Hc by (symmetry; apply Z.ltb_lt; lia). done.
Qed.

Lemma assignment_NoDup endpoints assigned len : Z.of_nat (length endpoints) ≤ 2 ^ 32 →
  assignment (activeShares 0 endpoints) assigned len → NoDup (sh_index <$> assigned).
Proof.
  intros Hlen Ha. replace (sh_index <$> assigned) with (sh_index <$> activeShares 0 endpoints);
    [by apply activeShares_NoDup|].
  destruct Ha as [Hends _ _ _ _]. clear -Hends.
  induction Hends as [|s s' l l' [Hi _] _ IH]; csimpl; congruence.
Qed.

Lemma schedule_occurrences endpoints schedule assigned slots s :
  Z.of_nat (length endpoints) ≤ 2 ^ 32 → schedule_of endpoints schedule assigned slots →
  s ∈ assigned → occurrences (sh_index s) schedule = sh_assigned s.
Proof.
  intros Hlen [_ _ Ha -> Hp _] Hs. rewrite occurrences_slots. unfold slots_of. rewrite Hp.
  apply slots_of_pending; [apply Ha|by eapply assignment_NoDup|done].
Qed.

Lemma elem_of_schedule endpoints schedule assigned slots i :
  schedule_of endpoints schedule assigned slots → i ∈ schedule →
  ∃ s, s ∈ assigned ∧ i = sh_index s.
Proof.
  intros [_ _ Ha -> Hp _] (t & -> & Ht)%list_elem_of_fmap. rewrite Hp in Ht.
  apply elem_of_pending in Ht as (s0 & Hs0 & Ht).
  pose proof (start_slots_ok _ (assignment_positive _ _ _ Ha)) as Hsok.
  rewrite Forall_forall in Hsok. specialize (Hsok _ Hs0).
  apply elem_of_tokens in Ht as (k & _ & ->); [|done].
  apply list_elem_of_fmap in Hs0 as (s & -> & Hs). by exists s.
Qed.

(** The schedule holds exactly the active ordinals. *)
Lemma elem_of_compiled_schedule endpoints state sel o : Forall weight_u32 endpoints →
  Z.of_nat (length endpoints) ≤ 2 ^ 32 → compileWRR endpoints (Some state) = Ok sel →
  wrr_schedule sel ≠ [] → o ∈ wrr_schedule sel ↔ active_ordinal endpoints o.
Proof.
  intros Hw Hlen Hc Hne. destruct (compileWRR_inv _ _ _ Hw Hc Hne) as (assigned & slots & Hs).
  pose proof (schedule_assignment _ _ _ _ Hs) as Ha.
  rewrite <-elem_of_active_ordinals by done.
  replace (sh_index <$> activeShares 0 endpoints) with (sh_index <$> assigned).
  - rewrite list_elem_of_fmap. split; [intros Ho; by destruct (elem_of_schedule _ _ _ _ _ Hs Ho) as (s & ? & ->); eauto|].
    intros (s & -> & Hin). pose proof (schedule_occurrences _ _ _ _ _ Hlen Hs Hin) as Hocc.
    pose proof (assignment_positive _ _ _ Ha) as Hpos. rewrite Forall_forall in Hpos.
    specialize (Hpos _ Hin). unfold assigned_ok, occurrences in *.
    destruct (filter _ _) as [|x l] eqn:E; [simpl in Hocc; lia|].
    assert (Hx : x ∈ filter (.= sh_index s) (wrr_schedule sel)) by (rewrite E; left).
    by apply list_elem_of_filter in Hx as [-> ?].
  - destruct Ha as [Hends _ _ _ _]. clear -Hends.
    induction Hends as [|a b l k [Hi _] _ IH]; csimpl; congruence.
Qed.

(** ** Fairness of every prefix *)

Section Prefix.
Context (assigned : list share) (slots : list wrrSlot).
Hypothesis assigned_pos : Forall assigned_ok assigned.
Hypothesis assigned_nodup : NoDup (sh_index <$> assigned).
Hypothesis slots_all : slots ≡ₚ pending (start_slots assigned).
Hypothesis slots_sorted : StronglySorted deadline_le slots.

(** A deadline of an assigned endpoint. *)
Lemma slots_of_token s t l k : s ∈ assigned → l ++ k ≡ₚ slots → t ∈ slots_of (sh_index s) l →
  ∃ e, 0 ≤ e < sh_assigned s ∧ t = mkSlot s e ∧ t ∈ l.
Proof.
  intros Hs Hl (Ht & Htl)%list_elem_of_filter.
  assert (Hin : t ∈ slots) by (rewrite <-Hl, elem_of_app; by left). rewrite slots_all in Hin.
  apply elem_of_pending in Hin as (s0 & Hs0 & Htok).
  pose proof (start_slots_ok _ assigned_pos) as Hok. eapply Forall_forall in Hok; [|exact Hs0].
  apply elem_of_tokens in Htok as (e & He & ->); [|done].
  apply list_elem_of_fmap in Hs0 as (s' & -> & Hs'). simpl in *.
  assert (s' = s) as ->.
  { apply list_elem_of_lookup in Hs as [i Hi]. apply list_elem_of_lookup in Hs' as [j Hj].
    assert (i = j) as ->; [|congruence]. eapply NoDup_lookup; [exact assigned_nodup| |].
    - by rewrite list_lookup_fmap, Hi.
    - rewrite list_lookup_fmap, Hj. simpl. by f_equal. }
  by exists e.
Qed.

(** The deadlines of one endpoint inside a part of the schedule carry distinct
    emission counts. *)
Lemma slots_of_emitted s l k : s ∈ assigned → l ++ k ≡ₚ slots →
  NoDup (slot_emitted <$> slots_of (sh_index s) l).
Proof.
  intros Hs Hl. assert (Hnd : NoDup l).
  { eapply (NoDup_app l k). rewrite Hl, slots_all. by apply pending_NoDup. }
  assert (Hndf : NoDup (slots_of (sh_index s) l)) by (by apply NoDup_filter).
  apply NoDup_fmap_2_strong; [|done]. intros a b Ha Hb Hab.
  destruct (slots_of_token s a l k Hs Hl Ha) as (ea & _ & -> & _).
  destruct (slots_of_token s b l k Hs Hl Hb) as (eb & _ & -> & _). simpl in Hab. by subst.
Qed.

Lemma parts_count u l k : u ∈ assigned → l ++ k ≡ₚ slots →
  Z.of_nat (length (slots_of (sh_index u) l)) + Z.of_nat (length (slots_of (sh_index u) k)) =
  sh_assigned u.
Proof.
  intros Hu Hl. rewrite <-(slots_of_pending u assigned) by done. unfold slots_of at 3.
  rewrite <-slots_all, <-Hl, filter_app, length_app. unfold slots_of. lia.
Qed.

(** A part with [c] deadlines of an endpoint holds one with at least [c - 1]
    earlier emissions, *)
Lemma slots_of_high s l k : s ∈ assigned → l ++ k ≡ₚ slots → slots_of (sh_index s) l ≠ [] →
  ∃ e, Z.of_nat (length (slots_of (sh_index s) l)) - 1 ≤ e ∧ mkSlot s e ∈ l.
Proof.
  intros Hs Hl Hne. set (c := Z.of_nat (length (slots_of (sh_index s) l))).
  destruct (decide (Exists (fun t => c - 1 ≤ slot_emitted t) (slots_of (sh_index s) l))) as [Hex|Hn].
  - apply Exists_exists in Hex as (t & Ht & Hc).
    destruct (slots_of_token s t l k Hs Hl Ht) as (e & _ & -> & Hin). by exists e.
  - exfalso. apply not_Exists_Forall in Hn; [|solve_decision].
    pose proof (nonempty_length _ Hne). fold c in H.
    pose proof (NoDup_range_length (slot_emitted <$> slots_of (sh_index s) l) 0 (c - 1)) as Hlen.
    rewrite length_fmap in Hlen. fold c in Hlen. cut (c ≤ c - 1 - 0); [lia|].
    apply Hlen; [lia|by eapply slots_of_emitted|]. apply Forall_fmap, Forall_forall.
    intros t Ht. eapply Forall_forall in Hn; [|exact Ht].
    destruct (slots_of_token s t l k Hs Hl Ht) as (e & He & -> & _). simpl in *. lia.
Qed.

(** and the rest, unless exhausted, one with at most [c]. *)
Lemma slots_of_low s l k : s ∈ assigned → l ++ k ≡ₚ slots → slots_of (sh_index s) k ≠ [] →
  ∃ e, e ≤ Z.of_nat (length (slots_of (sh_index s) l)) ∧ mkSlot s e ∈ k.
Proof.
  intros Hs Hl Hne. assert (Hl' : k ++ l ≡ₚ slots) by (by rewrite Permutation_app_comm).
  set (c := Z.of_nat (length (slots_of (sh_index s) l))).
  pose proof (parts_count s l k Hs Hl) as Hsum. fold c in Hsum.
  destruct (decide (Exists (fun t => slot_emitted t ≤ c) (slots_of (sh_index s) k))) as [Hex|Hn].
  - apply Exists_exists in Hex as (t & Ht & Hc).
    destruct (slots_of_token s t k l Hs Hl' Ht) as (e & _ & -> & Hin). by exists e.
  - exfalso. apply not_Exists_Forall in Hn; [|solve_decision].
    pose proof (nonempty_length _ Hne).
    pose proof (NoDup_range_length (slot_emitted <$> slots_of (sh_index s) k) (c + 1) (sh_assigned s))
      as Hlen.
    rewrite length_fmap in Hlen.
    cut (Z.of_nat (length (slots_of (sh_index s) k)) ≤ sh_assigned s - (c + 1)); [lia|].
    apply Hlen; [lia|by eapply slots_of_emitted|]. apply Forall_fmap, Forall_forall.
    intros t Ht. eapply Forall_forall in Hn; [|exact Ht].
    destruct (slots_of_token s t k l Hs Hl' Ht) as (e & He & -> & _). simpl in *. lia.
Qed.

Lemma prefix_fair s t n : s ∈ assigned → t ∈ assigned →
  Z.of_nat (length (slots_of (sh_index s) (take n slots))) * sh_assigned t ≤
  (Z.of_nat (length (slots_of (sh_index t) (take n slots))) + 1) * sh_assigned s.
Proof.
  intros Hs Ht. assert (Hl : take n slots ++ drop n slots ≡ₚ slots) by (by rewrite take_drop).
  assert (Has : assigned_ok s) by (by eapply Forall_forall in assigned_pos).
  assert (Hat : assigned_ok t) by (by eapply Forall_forall in assigned_pos).
  unfold assigned_ok in *.
  set (cs := Z.of_nat (length (slots_of (sh_index s) (take n slots)))).
  set (ct := Z.of_nat (length (slots_of (sh_index t) (take n slots)))).
  pose proof (parts_count s _ _ Hs Hl) as Hcs. pose proof (parts_count t _ _ Ht Hl) as Hct.
  fold cs in Hcs. fold ct in Hct.
  destruct (decide (slots_of (sh_index s) (take n slots) = [])) as [E|Hse].
  { subst cs. rewrite E. simpl. lia. }
  destruct (decide (slots_of (sh_index t) (drop n slots) = [])) as [E|Hte].
  { rewrite E in Hct. simpl in Hct. nia. }
  destruct (slots_of_high s _ _ Hs Hl Hse) as (e & He & Hin). fold cs in He.
  destruct (slots_of_low t _ _ Ht Hl Hte) as (e' & He' & Hin'). fold ct in He'.
  pose proof (StronglySorted_take_drop _ _ _ _ _ slots_sorted Hin Hin') as Hle.
  assert (Hle' : (e + 1) * sh_assigned t ≤ (e' + 1) * sh_assigned s).
  { unfold deadline_le, slot_assigned in Hle. simpl in Hle. lia. }
  nia.
Qed.
End Prefix.

(** ** Selection *)

Lemma claimSequence_id sequence : 0 ≤ sequence < 2 ^ 64 → (claimSequence sequence).2 = sequence.
Proof.
  intros Hs. unfold claimSequence, wrap64. cbn [snd].
  by rewrite Zminus_mod_idemp_l, Z.add_simpl_r, Z.mod_small.
Qed.

(** The schedule from the claimed position on, once around. *)
Definition rotated (s : wrrSelector) (sequence : Z) : list Z :=
  rotate (Z.to_nat (sequence mod Z.of_nat (length (wrr_schedule s)))) (wrr_schedule s).

Lemma rotated_lookup s sequence i : 0 ≤ sequence → (i < length (wrr_schedule s))%nat →
  rotated s sequence !! i = Some (scheduleAt s (sequence + Z.of_nat i)).
Proof.
  intros Hs Hi. unfold rotated, scheduleAt. rewrite lookup_rotate_r by done.
  unfold rotate_nat_add. set (len := Z.of_nat (length (wrr_schedule s))).
  rewrite Z2Nat.id by (apply Z.mod_pos_bound; lia).
  rewrite Z.add_mod_idemp_l by lia.
  destruct (lookup_lt_is_Some_2 (wrr_schedule s)
    (Z.to_nat ((sequence + Z.of_nat i) mod len))) as [x ->]; [|done].
  pose proof (Z.mod_pos_bound (sequence + Z.of_nat i) len ltac:(lia)). lia.
Qed.

Lemma wrr_probe_spec s selectable sequence offset count :
  0 ≤ sequence → (offset + count = length (wrr_schedule s))%nat →
  sequence + Z.of_nat (length (wrr_schedule s)) ≤ 2 ^ 64 →
  wrr_probe s selectable sequence offset count =
    head (filter (fun o => selectable o = true) (drop offset (rotated s sequence))).
Proof.
  intros Hs. revert offset. induction count as [|count IH]; intros offset Hlen Hmax; simpl.
  - rewrite drop_ge; [done|]. unfold rotated. rewrite length_rotate. lia.
  - rewrite wrap64_id by lia.
    rewrite (drop_S _ _ _ (rotated_lookup s sequence offset Hs ltac:(lia))), filter_cons.
    destruct (selectable _) eqn:E; [by rewrite decide_True|].
    rewrite decide_False by congruence. apply IH; lia.
Qed.

(** [n] consecutive selections. *)
Fixpoint selections (s : wrrSelector) (n : nat) (sequence : Z) : list Z :=
  match n with
  | O => []
  | S n => let '(ordinal, sequence) := wrr_selectIndex s sequence in
           ordinal :: selections s n sequence
  end.

Lemma selections_lookup s n sequence i : wrr_schedule s ≠ [] →
  0 ≤ sequence → sequence + Z.of_nat n ≤ 2 ^ 64 → (i < n)%nat →
  selections s n sequence !! i = Some (scheduleAt s (sequence + Z.of_nat i)).
Proof.
  intros Hne. revert sequence i. induction n as [|n IH]; intros sequence i Hs Hmax Hi; [lia|].
  cbn [selections].
  assert (Hsel : wrr_selectIndex s sequence = (scheduleAt s sequence, wrap64 (sequence + 1))).
  { unfold wrr_selectIndex. destruct (wrr_schedule s) eqn:E; [done|].
    pose proof (claimSequence_id sequence ltac:(lia)) as Hc. unfold claimSequence in *.
    simpl in Hc. by rewrite Hc. }
  rewrite Hsel. destruct i as [|i]; simpl; [by rewrite Z.add_0_r|].
  rewrite wrap64_id by lia. rewrite IH by lia. do 2 f_equal. lia.
Qed.

Lemma length_selections s n sequence : length (selections s n sequence) = n.
Proof.
  revert sequence. induction n as [|n IH]; intros sequence; simpl; [done|].
  destruct (wrr_selectIndex s sequence). simpl. by rewrite IH.
Qed.

Lemma wrr_selectNext_rotated sel selectable sequence : wrr_schedule sel ≠ [] → 0 ≤ sequence →
  sequence + Z.of_nat (length (wrr_schedule sel)) ≤ 2 ^ 64 →
  wrr_selectNext sel selectable sequence =
    (head (filter (fun o => selectable o = true) (rotated sel sequence)), wrap64 (sequence + 1)).
Proof.
  intros Hne Hs Hmax.
  assert (Hsel : wrr_selectNext sel selectable sequence =
    (wrr_probe sel selectable sequence 0 (length (wrr_schedule sel)), wrap64 (sequence + 1))).
  { pose proof (nonempty_length _ Hne). unfold wrr_selectNext.
    destruct (wrr_schedule sel) eqn:E; [done|]. rewrite <-E in *.
    pose proof (claimSequence_id sequence ltac:(lia)) as Hc. unfold claimSequence in *.
    simpl in Hc. by rewrite Hc. }
  by rewrite Hsel, (wrr_probe_spec _ _ _ 0), drop_0 by (done || lia).
Qed.

(** A compiled selector keeps the promise of a balancer, short of the
    wrap-around of its sequence. *)
Lemma wrr_Selector endpoints state sel sequence : Forall weight_u32 endpoints →
  Z.of_nat (length endpoints) ≤ 2 ^ 32 → compileWRR endpoints (Some state) = Ok sel →
  0 ≤ sequence → sequence + MaxWRRSchedule ≤ 2 ^ 64 →
  Selector (active_ordinal endpoints) (fun selectable => (wrr_selectNext sel selectable sequence).1).
Proof.
  intros Hw Hlen Hc Hs Hmax. destruct (decide (wrr_schedule sel = [])) as [Hnil|Hne].
  - apply (head_filter_selector _ [wrr_direct sel]).
    + intros o. rewrite <-elem_of_active_ordinals by done.
      destruct (activeShares 0 endpoints) as [|a1 [|a2 active]] eqn:E.
      * unfold compileWRR in Hc. rewrite E in Hc. done.
      * unfold compileWRR in Hc. rewrite E in Hc. injection Hc as <-. done.
      * destruct (decide (Z.of_nat (length (activeShares 0 endpoints)) ≤ MaxWRRSchedule)) as [Hm|Hm].
        -- destruct (compileWRR_many endpoints state Hw) as (schedule & assigned & slots & Hok & Hsch);
             [rewrite E; simpl; lia|done|]. rewrite Hc in Hok. injection Hok as ->. simpl in Hnil. subst.
           pose proof (schedule_assignment _ _ _ _ Hsch) as [Hends Hpos [Hsum _] _ _].
           rewrite E in Hends. apply Forall2_cons_inv_l in Hends as (a & l & _ & _ & ->).
           pose proof (zsum_bounds sh_assigned 1 MaxWRRSchedule _ Hpos). simpl in *. lia.
        -- unfold compileWRR in Hc. rewrite E in Hc. rewrite E in Hm.
           replace (MaxWRRSchedule <? _) with true in Hc by (symmetry; apply Z.ltb_lt; lia). done.
    + intros selectable. unfold wrr_selectNext. rewrite Hnil. simpl.
      rewrite filter_cons, filter_nil. by destruct (selectable _); case_decide.
  - destruct (compileWRR_inv _ _ _ Hw Hc Hne) as (assigned & slots & Hsch).
    pose proof (assignment_length _ _ _ (schedule_assignment _ _ _ _ Hsch)) as [_ Hlong].
    apply (head_filter_selector _ (rotated sel sequence)).
    + intros o. unfold rotated. rewrite elem_of_rotate. by eapply elem_of_compiled_schedule.
    + intros selectable. by rewrite wrr_selectNext_rotated by (done || lia).
Qed.

(** ** Properties *)

(** compilation fails exactly when the selection state is missing, when no
    endpoint has a positive weight, or when there are more than 8192 of them;
    it always finishes its schedule.  A single active endpoint is selected
    directly, several by a non-empty schedule of at most 8192 slots. *)
Theorem compileWRR_outcome endpoints state : Forall weight_u32 endpoints →
  let active := Z.of_nat (length (positive_endpoints endpoints)) in
  match compileWRR endpoints state with
  | Ok sel => state = Some (wrr_state sel) ∧
      (active = 1 ∧ wrr_schedule sel = [] ∧
         sh_index <$> activeShares 0 endpoints = [wrr_direct sel] ∨
       2 ≤ active ≤ MaxWRRSchedule ∧ active ≤ Z.of_nat (length (wrr_schedule sel)) ≤ MaxWRRSchedule)
  | Err SelectionStateRequired => state = None
  | Err NoPositiveWeight => state ≠ None ∧ active = 0
  | Err TooManyActiveEndpoints => state ≠ None ∧ MaxWRRSchedule < active
  | Err ScheduleUnfinished => False
  end.
Proof.
  intros Hw active. unfold active. rewrite <-(length_positive_endpoints 0).
  destruct state as [state|]; [|done].
  destruct (activeShares 0 endpoints) as [|a1 [|a2 rest]] eqn:E.
  - unfold compileWRR. by rewrite E.
  - unfold compileWRR. rewrite E. split; [done|]. by left.
  - destruct (decide (Z.of_nat (length (activeShares 0 endpoints)) ≤ MaxWRRSchedule)) as [Hm|Hm].
    + destruct (compileWRR_many endpoints state Hw) as (schedule & assigned & slots & Hok & Hs);
        [rewrite E; simpl; lia|done|]. rewrite Hok. split; [done|]. right. rewrite <-E.
      assert (2 ≤ length (activeShares 0 endpoints))%nat by (rewrite E; simpl; lia).
      destruct Hs as [_ _ [Hends Hpos [Hsum Hmax] _ _] _ _ _]. split; [lia|].
      cbn [wrr_schedule]. split; [|done]. rewrite <-Hsum, (Forall2_length _ _ _ Hends).
      pose proof (zsum_bounds sh_assigned 1 MaxWRRSchedule assigned Hpos). lia.
    + unfold compileWRR. rewrite E. rewrite E in Hm.
      replace (MaxWRRSchedule <? _) with true by (symmetry; apply Z.ltb_lt; lia). split; [done|lia].
Qed.


(** every prefix of the schedule is fair to within one slot: between any
    two scheduled endpoints, the emissions of one relative to its share never
    run ahead of the next emission of the other relative to its share. *)
Theorem compileWRR_fair endpoints state sel i j n :
  Forall weight_u32 endpoints → Z.of_nat (length endpoints) ≤ 2 ^ 32 →
  compileWRR endpoints (Some state) = Ok sel → i ∈ wrr_schedule sel → j ∈ wrr_schedule sel →
  occurrences i (take n (wrr_schedule sel)) * occurrences j (wrr_schedule sel) ≤
  (occurrences j (take n (wrr_schedule sel)) + 1) * occurrences i (wrr_schedule sel).
Proof.
  intros Hw Hlen Hc Hi Hj.
  assert (Hne : wrr_schedule sel ≠ []) by (intros E; by rewrite E, elem_of_nil in Hi).
  destruct (compileWRR_inv _ _ _ Hw Hc Hne) as (assigned & slots & Hs).
  destruct (elem_of_schedule _ _ _ _ _ Hs Hi) as (s & Hsin & ->).
  destruct (elem_of_schedule _ _ _ _ _ Hs Hj) as (t & Htin & ->).
  rewrite !(schedule_occurrences _ _ _ _ _ Hlen Hs) by done.
  destruct Hs as [_ _ Ha -> Hp Hsorted].
  rewrite <-fmap_take, !occurrences_slots.
  apply (prefix_fair assigned); [apply Ha|by eapply assignment_NoDup|done..].
Qed.

(** as many consecutive selections as the schedule is long, short of the
    sequence counter's wrap-around, pick every endpoint as often as the
    schedule holds it, whatever the counter starts from. *)
Theorem selectIndex_window sel sequence :
  wrr_schedule sel ≠ [] → 0 ≤ sequence →
  sequence + Z.of_nat (length (wrr_schedule sel)) ≤ 2 ^ 64 →
  selections sel (length (wrr_schedule sel)) sequence ≡ₚ wrr_schedule sel.
Proof.
  intros Hne Hs Hmax.
  assert (Hrot : selections sel (length (wrr_schedule sel)) sequence = rotated sel sequence).
  { apply list_eq_same_length with (length (wrr_schedule sel)).
    - unfold rotated. by rewrite length_rotate.
    - apply length_selections.
    - intros i x y Hi. rewrite selections_lookup, rotated_lookup by (done || lia). congruence. }
  rewrite Hrot. unfold rotated, rotate. by rewrite Permutation_app_comm, take_drop.
Qed.

(** short of the counter's wrap-around, [selectNext] returns the first
    selectable ordinal of the schedule read cyclically from the claimed
    position; it fails only when no scheduled endpoint is selectable. *)
Theorem selectNext_first sel selectable sequence :
  wrr_schedule sel ≠ [] → 0 ≤ sequence →
  sequence + Z.of_nat (length (wrr_schedule sel)) ≤ 2 ^ 64 →
  let '(choice, next) := wrr_selectNext sel selectable sequence in
  choice = head (filter (fun o => selectable o = true) (rotated sel sequence)) ∧
  next = wrap64 (sequence + 1) ∧
  (is_Some choice ↔ ∃ o, o ∈ wrr_schedule sel ∧ selectable o = true).
Proof.
  intros Hne Hs Hmax. rewrite wrr_selectNext_rotated by done.
  split_and!; [done|done|]. rewrite head_is_Some. split.
  - intros Hf. destruct (filter _ _) as [|o l] eqn:E; [done|]. exists o.
    assert (Ho : o ∈ filter (fun o => selectable o = true) (rotated sel sequence)) by (rewrite E; left).
    apply list_elem_of_filter in Ho as [Ho Hin]. split; [|done].
    by apply elem_of_rotate in Hin.
  - intros (o & Hin & Ho) E. eapply (filter_nil_not_elem_of _ _ o); [exact E|done|].
    by apply elem_of_rotate.
Qed.

(** ** Examples *)

Definition demo_weights : list weightedEndpoint :=
  [mkWeighted "a" 6; mkWeighted "b" 0; mkWeighted "c" 2; mkWeighted "d" 4].

Definition demo_selector : wrrSelector := mkSelector 7 [0; 3; 0; 0; 2; 3] 0.

Example demo_compileWRR : compileWRR demo_weights (Some 7%nat) = Ok demo_selector.
Proof. vm_compute. reflexivity. Qed.

(** The sequence counter wraps at [2^64], which the schedule length need not
    divide: a probe that crosses the wrap-around can skip the only selectable
    position. *)
Lemma selectNext_wraparound_gap :
  let sel := mkSelector 0 [10; 11; 12] 0 in
  let selectable o := o =? 11 in
  Exists (fun o => selectable o = true) (wrr_schedule sel) ∧
  wrr_selectNext sel selectable (2 ^ 64 - 2) = (None, 2 ^ 64 - 1).
Proof. split; [right; left; reflexivity|vm_compute; reflexivity]. Qed.

Lemma demo_weights_u32 : Forall weight_u32 demo_weights.
Proof. repeat constructor; vm_compute; congruence. Qed.

Lemma compileWRR_outcome_witness :
  compileWRR demo_weights (Some 7%nat) = Ok demo_selector ∧
  3 ≤ Z.of_nat (length (wrr_schedule demo_selector)) ≤ MaxWRRSchedule.
Proof.
  pose proof (compileWRR_outcome demo_weights (Some 7%nat) demo_weights_u32) as H.
  rewrite demo_compileWRR in *. split; [reflexivity|].
  destruct H as [_ [(H & _)|(_ & H)]]; [vm_compute in H; discriminate|exact H].
Defined.


Lemma compileWRR_fair_witness :
  occurrences 0 [0; 3; 0] * occurrences 2 [0; 3; 0; 0; 2; 3] ≤
  (occurrences 2 [0; 3; 0] + 1) * occurrences 0 [0; 3; 0; 0; 2; 3].
Proof.
  apply (compileWRR_fair demo_weights 7 demo_selector 0 2 3 demo_weights_u32).
  - vm_compute. congruence.
  - exact demo_compileWRR.
  - left.
  - do 4 right. left.
Defined.

Lemma selectIndex_window_witness : selections demo_selector 6 100 ≡ₚ [0; 3; 0; 0; 2; 3].
Proof. apply (selectIndex_window demo_selector 100); vm_compute; congruence. Defined.

Lemma selectNext_first_witness :
  wrr_selectNext demo_selector (fun o => o =? 2) 4 = (Some 2, 5) ∧
  is_Some (wrr_selectNext demo_selector (fun o => o =? 2) 4).1.
Proof.
  pose proof (selectNext_first demo_selector (fun o => o =? 2) 4) as H. split; [reflexivity|].
  destruct (wrr_selectNext demo_selector (fun o => o =? 2) 4) as [choice next].
  destruct H as (_ & _ & H); [discriminate|vm_compute; congruence..|].
  apply H. exists 2. split; [do 4 right; left|reflexivity].
Defined.
