(* ===== verification/HashKey.v ===== *)
(** * Hash keys of requests ([internal/upstream/hashkey.go])

    A consistent-hash upstream names up to eight sources (headers, cookies, the
    remote address, literals).  The key of a request is the 64-bit digest of a
    length-prefixed encoding of what the sources yield.  The digest function
    ([xxhash], a third-party package) is a parameter of the model: a
    [xxhash.Digest] holds the bytes written so far, and [Sum64] applies the
    parameter to them.  The theorems are about those bytes: the encoding
    determines the components, and the fallback to the remote address happens
    exactly when every component is missing. *)

From S2P Require Import Prelude GoStrings NetAddr Predicate.
#[local] Open Scope string_scope.
#[local] Open Scope nat_scope.
#[local] Open Scope list_scope.

(** ** Configuration ([model.HashKeySource], [internal/upstream/config.go]) *)

Definition HashSourceHeader : string := "header".
Definition HashSourceCookie : string := "cookie".
Definition HashSourceRemoteAddr : string := "remote_addr".
Definition HashSourceLiteral : string := "literal".

Record HashKeySource := mkHashSource { hs_type : string; hs_name : string; hs_value : string }.

Record ConfigError := mkConfigError { ce_code : string; ce_field : string; ce_upstream : string }.

Definition MaxHashKeySources : nat := 8.
Definition maxHashSourceNameBytes : nat := 256.
Definition maxHashSourceValueBytes : Z := 4096.

(** [validToken] of the upstream configuration is the router's token check. *)
Definition validToken (value : string) : bool := validHTTPToken value.

Definition normalizeHashSource (source : HashKeySource) (field upstreamID : string)
    : result ConfigError HashKeySource :=
  let invalid := Err (mkConfigError "HASH_KEY_INVALID" field upstreamID) in
  let '(mkHashSource type name value) := source in
  if (maxHashSourceNameBytes <? String.length name)
     || (maxHashSourceValueBytes <? Z.of_nat (String.length value))%Z then invalid
  else if String.eqb type HashSourceHeader then
    if negb (validToken name) || negb (String.eqb value "") then invalid
    else Ok (mkHashSource type (canonical_header_key name) value)
  else if String.eqb type HashSourceCookie then
    if negb (validToken name) || negb (String.eqb value "") then invalid else Ok source
  else if String.eqb type HashSourceRemoteAddr then
    if negb (String.eqb name "") || negb (String.eqb value "") then invalid else Ok source
  else if String.eqb type HashSourceLiteral then
    if negb (String.eqb name "") || String.eqb value "" then invalid else Ok source
  else Err (mkConfigError "HASH_KEY_INVALID" (field +:+ ".type") upstreamID).

Fixpoint compileHashSources (index : nat) (sources : list HashKeySource)
    : result ConfigError (list HashKeySource) :=
  match sources with
  | [] => Ok []
  | source :: sources =>
      source ← normalizeHashSource source
                 ("hash_key.sources[" +:+ pretty (Z.of_nat index) +:+ "]") "";
      sources ← compileHashSources (S index) sources;
      Ok (source :: sources)
  end.

(** The extractor is the list of its compiled sources. *)
Definition compileHashKey (sources : list HashKeySource) : result ConfigError (list HashKeySource) :=
  if Nat.eqb (length sources) 0 || (MaxHashKeySources <? length sources)
  then Err (mkConfigError "HASH_KEY_INVALID" "hash_key.sources" "")
  else compileHashSources 0 sources.

(** ** The digest writers *)

Definition hash_byte (value : N) : string := String (ascii_of_N value) EmptyString.

(** [binary.PutUvarint]: seven bits per byte, low groups first. *)
Fixpoint uvarint_loop (fuel : nat) (x : N) : string :=
  match fuel with
  | 0 => EmptyString
  | S fuel =>
      if (x <? 128)%N then hash_byte x
      else String (ascii_of_N (N.lor (N.land x 255) 128)) (uvarint_loop fuel (N.shiftr x 7))
  end.

Definition uvarint (x : N) : string := uvarint_loop (S (N.size_nat x)) x.

Definition writeHashByte (digest : string) (value : N) : string := digest +:+ hash_byte value.

Definition writeHashUvarint (digest : string) (value : N) : string := digest +:+ uvarint value.

Definition writeHashString (digest value : string) : string :=
  writeHashUvarint digest (N.of_nat (String.length value)) +:+ value.

(** [writeHashString] on a byte slice. *)
Definition writeHashBytes (digest value : string) : string :=
  writeHashUvarint digest (N.of_nat (String.length value)) +:+ value.

Definition writeMissingHashComponent (digest : string) : string :=
  writeHashUvarint (writeHashByte digest 0) 0.

Definition writeHashRemoteAddr (digest remoteAddr : string) : string :=
  let host := match split_host_port remoteAddr with
              | Some (parsedHost, _) => parsedHost
              | None => remoteAddr
              end in
  match parse_addr host with
  | None => writeHashString digest remoteAddr
  | Some address => writeHashBytes digest (addr_string (addr_unmap address))
  end.

Definition hashSourceTag (sourceType : string) : N :=
  if String.eqb sourceType HashSourceHeader then 1
  else if String.eqb sourceType HashSourceCookie then 2
  else if String.eqb sourceType HashSourceRemoteAddr then 3
  else if String.eqb sourceType HashSourceLiteral then 4
  else 0.

(** ** Cookies *)

Definition quote : ascii := ascii_of_N 34.

Definition validCookieValue (value : string) : option string :=
  let value :=
    if (2 <=? String.length value) && bool_decide (byte_at value 0 = Some quote)
       && bool_decide (last_byte value = Some quote)
    then slice value 1 (String.length value - 1) else value in
  if string_forallb (fun c =>
       negb ((byte_val c <? 32)%N || (127 <=? byte_val c)%N || Ascii.eqb c quote
             || Ascii.eqb c ";" || Ascii.eqb c "\")) value
  then Some value else None.

(** The value a [name=value] segment yields for [target]. *)
Definition cookieSegment (target segment : string) : option string :=
  let segment := trim_space segment in
  match index_byte "=" segment with
  | Some separator =>
      if (0 <? separator) && String.eqb (stake separator segment) target
      then validCookieValue (sdrop (S separator) segment) else None
  | None => None
  end.

(** The inner loop on one header; every iteration consumes a byte of
    [remaining] or ends it. *)
Fixpoint cookieLoop (fuel : nat) (target remaining : string) : option string :=
  match fuel with
  | 0 => None
  | S fuel =>
      let '(segment, rest) :=
        match index_byte ";" remaining with
        | Some separator => (stake separator remaining, sdrop (S separator) remaining)
        | None => (remaining, EmptyString)
        end in
      match cookieSegment target segment with
      | Some value => Some value
      | None => if String.eqb rest "" then None else cookieLoop fuel target rest
      end
  end.

Fixpoint firstValidCookie (headers : list string) (target : string) : option string :=
  match headers with
  | [] => None
  | header :: headers =>
      match cookieLoop (S (String.length header)) target header with
      | Some value => Some value
      | None => firstValidCookie headers target
      end
  end.

(** ** [sum64] *)

Definition headerOf (r : option request) (name : string) : list string :=
  match r with Some r => default [] (req_header r !! name) | None => [] end.

Fixpoint writeAllStrings (digest : string) (values : list string) : string :=
  match values with
  | [] => digest
  | value :: values => writeAllStrings (writeHashString digest value) values
  end.

(** The body of the loop over the sources: the digest and whether the source
    was present. *)
Definition writeSource (r : option request) (digest : string) (source : HashKeySource)
    : string * bool :=
  let kind := hs_type source in
  let digest := writeHashByte digest (hashSourceTag kind) in
  if String.eqb kind HashSourceHeader then
    match headerOf r (hs_name source) with
    | [] => (writeMissingHashComponent digest, false)
    | values =>
        let digest := writeHashUvarint (writeHashByte digest 1) (N.of_nat (length values)) in
        (writeAllStrings digest values, true)
    end
  else if String.eqb kind HashSourceCookie then
    match firstValidCookie (headerOf r "Cookie") (hs_name source) with
    | None => (writeMissingHashComponent digest, false)
    | Some value => (writeHashString (writeHashUvarint (writeHashByte digest 1) 1) value, true)
    end
  else if String.eqb kind HashSourceRemoteAddr then
    match r with
    | None => (writeMissingHashComponent digest, false)
    | Some r =>
        if String.eqb (req_remoteAddr r) "" then (writeMissingHashComponent digest, false)
        else (writeHashRemoteAddr (writeHashUvarint (writeHashByte digest 1) 1)
                (req_remoteAddr r), true)
    end
  else if String.eqb kind HashSourceLiteral then
    (writeHashString (writeHashUvarint (writeHashByte digest 1) 1) (hs_value source), true)
  else (digest, false).

Fixpoint writeSources (r : option request) (sources : list HashKeySource) (digest : string)
    (anyPresent : bool) : string * bool :=
  match sources with
  | [] => (digest, anyPresent)
  | source :: sources =>
      let '(digest, present) := writeSource r digest source in
      writeSources r sources digest (anyPresent || present)
  end.

Definition fallbackBytes (r : option request) : string :=
  let digest := writeHashUvarint EmptyString 1 in
  let digest := writeHashByte digest (hashSourceTag HashSourceRemoteAddr) in
  let digest := writeHashUvarint (writeHashByte digest 1) 1 in
  match r with
  | None => writeHashString digest ""
  | Some r => writeHashRemoteAddr digest (req_remoteAddr r)
  end.

(** The bytes digested for a request, and whether they are the fallback's. *)
Definition keyBytes (sources : list HashKeySource) (r : option request) : string * bool :=
  let '(digest, anyPresent) :=
    writeSources r sources (writeHashUvarint EmptyString (N.of_nat (length sources))) false in
  if anyPresent then (digest, false) else (fallbackBytes r, true).

(** [xxh64]: the digest of a byte string. *)
Definition sum64 (xxh64 : string → Z) (sources : list HashKeySource) (r : option request)
    : Z * bool :=
  let '(bytes, fallback) := keyBytes sources r in (xxh64 bytes, fallback).

(** ** Prefix codes

    An encoding that can be read back from the front of any byte string. *)

Class PrefixCode {A} (encode : A → string) : Prop :=
  prefix_code : ∀ x y s t, encode x +:+ s = encode y +:+ t → x = y ∧ s = t.

Lemma N_pred_forall (P : N → bool) b x :
  forallb P (N.of_nat <$> seq 0 b) = true → (x < N.of_nat b)%N → P x = true.
Proof.
  intros Hall Hx. rewrite forallb_forall in Hall. apply Hall, list_elem_of_In.
  apply list_elem_of_fmap. exists (N.to_nat x). split; [lia|]. apply elem_of_seq. lia.
Qed.

(** The continuation byte carries the low seven bits. *)
Lemma continuation_byte x : (N.lor (N.land x 255) 128 = 128 + x mod 128)%N.
Proof.
  assert (Hb : ∀ b, (b < 256)%N → N.eqb (N.lor b 128) (128 + b mod 128) = true).
  { intros b Hb. apply (N_pred_forall (fun b => N.eqb (N.lor b 128) (128 + b mod 128)) 256); [|done].
    vm_compute. reflexivity. }
  rewrite (N.land_ones x 8 : N.land x 255 = _).
  rewrite (proj1 (N.eqb_eq _ _) (Hb (x mod 2 ^ 8)%N (N.mod_lt x (2 ^ 8) ltac:(done)))). f_equal.
  change (2 ^ 8)%N with (128 * 2)%N. rewrite N.Div0.mod_mul_r.
  rewrite N.Div0.add_mod, N.Div0.mod_mod, (N.mul_comm 128), N.Div0.mod_mul, N.add_0_r.
  by rewrite !N.Div0.mod_mod.
Qed.

Lemma ascii_of_N_inj a b : (a < 256)%N → (b < 256)%N → ascii_of_N a = ascii_of_N b → a = b.
Proof. intros Ha Hb H. by rewrite <-(N_ascii_embedding a Ha), <-(N_ascii_embedding b Hb), H. Qed.

Lemma uvarint_loop_prefix f g x y s t : 0 < f → 0 < g →
  (x < 128 ^ N.of_nat f)%N → (y < 128 ^ N.of_nat g)%N →
  uvarint_loop f x +:+ s = uvarint_loop g y +:+ t → x = y ∧ s = t.
Proof.
  assert (Hlow : ∀ z, (z mod 128 < 128)%N) by (intros z; by apply N.mod_lt).
  revert g x y. induction f as [|f IH]; intros [|g] x y Hf Hg Hx Hy; try lia.
  cbn [uvarint_loop]. rewrite !continuation_byte, !N.shiftr_div_pow2.
  change (2 ^ 7)%N with 128%N.
  destruct (x <? 128)%N eqn:Ex, (y <? 128)%N eqn:Ey;
    rewrite ?N.ltb_lt, ?N.ltb_ge in *; unfold hash_byte; cbn [String.append];
    intros Hcons; injection Hcons as Hc Heq.
  - apply ascii_of_N_inj in Hc; [done|lia..].
  - apply ascii_of_N_inj in Hc; [|lia|specialize (Hlow y); lia].
    pose proof (N.le_add_r 128 (y mod 128)) as Hge. rewrite <-Hc in Hge. exfalso. lia.
  - apply ascii_of_N_inj in Hc; [|specialize (Hlow x); lia|lia].
    pose proof (N.le_add_r 128 (x mod 128)) as Hge. rewrite Hc in Hge. exfalso. lia.
  - apply ascii_of_N_inj in Hc; [|specialize (Hlow x); lia|specialize (Hlow y); lia].
    rewrite Nat2N.inj_succ, N.pow_succ_r in Hx, Hy by lia.
    apply IH in Heq as [Hdiv ->].
    + split; [|done]. rewrite (N.div_mod x 128), (N.div_mod y 128) by done. lia.
    + destruct f; [simpl in Hx; lia|lia].
    + destruct g; [simpl in Hy; lia|lia].
    + apply N.Div0.div_lt_upper_bound. lia.
    + apply N.Div0.div_lt_upper_bound. lia.
Qed.

Lemma uvarint_fuel x : (x < 128 ^ N.of_nat (S (N.size_nat x)))%N.
Proof.
  destruct x as [|p]; [done|].
  assert (H : (N.pos p < 2 ^ N.size (N.pos p))%N) by apply N.size_gt.
  eapply N.lt_le_trans; [exact H|].
  replace (N.size (N.pos p)) with (N.of_nat (N.size_nat (N.pos p))).
  - etrans; [apply (N.pow_le_mono_l 2 128); lia|]. apply N.pow_le_mono_r; lia.
  - clear H. simpl. induction p; simpl in *; lia.
Qed.

#[global] Instance uvarint_prefix : PrefixCode uvarint.
Proof.
  intros x y s t. apply uvarint_loop_prefix; [lia..| |]; apply uvarint_fuel.
Qed.

Lemma string_app_inj_length s s' t t' : String.length s = String.length s' →
  s +:+ t = s' +:+ t' → s = s' ∧ t = t'.
Proof.
  revert s'. induction s as [|c s IH]; intros [|c' s'] Hlen Heq; try discriminate Hlen; [done|].
  injection Heq as -> Heq. injection Hlen as Hlen. by destruct (IH _ Hlen Heq) as [-> ->].
Qed.

Definition encodeString (value : string) : string :=
  uvarint (N.of_nat (String.length value)) +:+ value.

#[global] Instance encodeString_prefix : PrefixCode encodeString.
Proof.
  intros x y s t. unfold encodeString. rewrite !string_app_assoc.
  intros [Hlen Heq]%prefix_code. apply string_app_inj_length; [lia|done].
Qed.

Fixpoint encodeAll (values : list string) : string :=
  match values with
  | [] => EmptyString
  | value :: values => encodeString value +:+ encodeAll values
  end.

Lemma encodeAll_prefix l k s t : length l = length k →
  encodeAll l +:+ s = encodeAll k +:+ t → l = k ∧ s = t.
Proof.
  revert k. induction l as [|x l IH]; intros [|y k] Hlen Heq; try discriminate Hlen; [done|].
  injection Hlen as Hlen. cbn [encodeAll] in Heq. rewrite !string_app_assoc in Heq. apply prefix_code in Heq as [-> Heq].
  by destruct (IH _ Hlen Heq) as [-> ->].
Qed.

(** ** Components

    What a source yields for a request: [None] when it is missing. *)

Definition encodeComponent (component : option (list string)) : string :=
  match component with
  | None => hash_byte 0 +:+ uvarint 0
  | Some values => hash_byte 1 +:+ uvarint (N.of_nat (length values)) +:+ encodeAll values
  end.

#[global] Instance encodeComponent_prefix : PrefixCode encodeComponent.
Proof.
  intros [l|] [k|] s t; simpl; rewrite ?string_app_assoc; intros [= Heq]; [|done].
  apply prefix_code in Heq as [Hlen Heq].
  apply encodeAll_prefix in Heq as [-> ->]; [done|lia].
Qed.

(** The remote address as it is hashed: the canonical form of its IP address
    when it has one. *)
Definition remoteKey (remoteAddr : string) : string :=
  let host := match split_host_port remoteAddr with
              | Some (parsedHost, _) => parsedHost
              | None => remoteAddr
              end in
  match parse_addr host with
  | None => remoteAddr
  | Some address => addr_string (addr_unmap address)
  end.

Definition component (r : option request) (source : HashKeySource) : option (list string) :=
  let kind := hs_type source in
  if String.eqb kind HashSourceHeader then
    match headerOf r (hs_name source) with [] => None | values => Some values end
  else if String.eqb kind HashSourceCookie then
    (fun value => [value]) <$> firstValidCookie (headerOf r "Cookie") (hs_name source)
  else if String.eqb kind HashSourceRemoteAddr then
    match r with
    | Some r => if String.eqb (req_remoteAddr r) "" then None else Some [remoteKey (req_remoteAddr r)]
    | None => None
    end
  else Some [hs_value source].

Definition source_ok (source : HashKeySource) : Prop :=
  hs_type source ∈ [HashSourceHeader; HashSourceCookie; HashSourceRemoteAddr; HashSourceLiteral].

Definition encodeSource (r : option request) (source : HashKeySource) : string :=
  hash_byte (hashSourceTag (hs_type source)) +:+ encodeComponent (component r source).

Fixpoint encodeSources (r : option request) (sources : list HashKeySource) : string :=
  match sources with
  | [] => EmptyString
  | source :: sources => encodeSource r source +:+ encodeSources r sources
  end.

(** ** The writers produce the encoding *)

Lemma writeHashString_encode digest value :
  writeHashString digest value = digest +:+ encodeString value.
Proof. unfold writeHashString, writeHashUvarint, encodeString. by rewrite string_app_assoc. Qed.

Lemma writeAllStrings_encode digest values :
  writeAllStrings digest values = digest +:+ encodeAll values.
Proof.
  revert digest. induction values as [|v values IH]; intros digest; cbn [writeAllStrings encodeAll].
  - by rewrite string_app_nil_r.
  - by rewrite IH, writeHashString_encode, string_app_assoc.
Qed.

Lemma writeHashRemoteAddr_encode digest remoteAddr :
  writeHashRemoteAddr digest remoteAddr = digest +:+ encodeString (remoteKey remoteAddr).
Proof.
  unfold writeHashRemoteAddr, remoteKey.
  destruct (parse_addr _); [change writeHashBytes with writeHashString|];
    apply writeHashString_encode.
Qed.

Lemma encodeComponent_one digest value :
  writeHashUvarint (writeHashByte digest 1) 1 +:+ encodeString value =
  digest +:+ encodeComponent (Some [value]).
Proof.
  unfold writeHashUvarint, writeHashByte. cbn [encodeComponent encodeAll length].
  by rewrite string_app_nil_r, !string_app_assoc.
Qed.

Lemma encodeComponent_missing digest :
  writeMissingHashComponent digest = digest +:+ encodeComponent None.
Proof. unfold writeMissingHashComponent, writeHashUvarint, writeHashByte. by rewrite string_app_assoc. Qed.

Lemma writeSource_encode r digest source : source_ok source →
  writeSource r digest source =
    (digest +:+ encodeSource r source, bool_decide (is_Some (component r source))).
Proof.
  intros Hok. unfold writeSource, encodeSource, component. rewrite <-string_app_assoc.
  fold (writeHashByte digest (hashSourceTag (hs_type source))).
  set (d := writeHashByte digest (hashSourceTag (hs_type source))).
  rewrite ?encodeComponent_missing, ?writeHashRemoteAddr_encode, ?writeHashString_encode.
  repeat (case_scrutinee; rewrite ?encodeComponent_missing, ?writeHashRemoteAddr_encode,
    ?writeHashString_encode, ?encodeComponent_one; try done).
  - unfold writeHashUvarint, writeHashByte. rewrite writeAllStrings_encode.
    cbn [encodeComponent]. by rewrite !string_app_assoc.
  - exfalso. unfold source_ok in Hok. rewrite !elem_of_cons, elem_of_nil in Hok.
    repeat match goal with H : String.eqb _ _ = false |- _ => apply String.eqb_neq in H end. tauto.
Qed.

Lemma writeSources_encode r sources digest any : Forall source_ok sources →
  writeSources r sources digest any =
    (digest +:+ encodeSources r sources,
     any || existsb (fun source => bool_decide (is_Some (component r source))) sources).
Proof.
  intros Hok. revert digest any. induction Hok as [|source sources Hs _ IH]; intros digest any;
    cbn [writeSources encodeSources existsb].
  - by rewrite string_app_nil_r, orb_false_r.
  - by rewrite writeSource_encode, IH, string_app_assoc, orb_assoc.
Qed.

Lemma encodeSources_components r r' sources s t :
  encodeSources r sources +:+ s = encodeSources r' sources +:+ t →
  component r <$> sources = component r' <$> sources ∧ s = t.
Proof.
  induction sources as [|source sources IH]; cbn [encodeSources]; [done|].
  unfold encodeSource. rewrite !string_app_assoc. intros [= Heq].
  apply prefix_code in Heq as [Hc Heq]. destruct (IH Heq) as [Hrest ->]. csimpl. by rewrite Hc, Hrest.
Qed.

(** ** Compiled sources *)

Lemma normalizeHashSource_ok source field id source' :
  normalizeHashSource source field id = Ok source' → source_ok source'.
Proof.
  destruct source as [type name value]. unfold normalizeHashSource, source_ok.
  repeat case_scrutinee; intros [= <-];
    match goal with H : String.eqb _ _ = true |- _ => apply String.eqb_eq in H; subst end;
    simpl; repeat (left || right).
Qed.

Lemma compileHashSources_ok index sources compiled :
  compileHashSources index sources = Ok compiled →
  Forall source_ok compiled ∧ length compiled = length sources.
Proof.
  revert index compiled. induction sources as [|source sources IH]; intros index compiled H;
    cbn [compileHashSources] in H; inv_ok; [done|].
  match goal with H : compileHashSources _ _ = Ok _ |- _ => apply IH in H as [? ?] end.
  split; [|by simpl; f_equal]. constructor; [|done]. by eapply normalizeHashSource_ok.
Qed.

(** ** Cookie lookup *)

(** The cookie segments of the header values, in order. *)
Definition cookieSegments (headers : list string) : list string := headers ≫= split_byte ";".

Lemma cookieSegment_empty target : cookieSegment target "" = None.
Proof. done. Qed.

Lemma cookieLoop_segments fuel target remaining : String.length remaining < fuel →
  cookieLoop fuel target remaining = head (omap (cookieSegment target) (split_byte ";" remaining)).
Proof.
  revert remaining. induction fuel as [|fuel IH]; intros remaining Hf; [lia|].
  cbn [cookieLoop]. rewrite split_byte_index. destruct (index_byte ";" remaining) as [k|] eqn:E.
  - apply index_byte_some in E as (Hk & _ & _).
    assert (Hrest : (if String.eqb (sdrop (S k) remaining) "" then None
      else cookieLoop fuel target (sdrop (S k) remaining)) =
      head (omap (cookieSegment target) (split_byte ";" (sdrop (S k) remaining)))).
    { destruct (String.eqb_spec (sdrop (S k) remaining) "") as [->|Hne]; [done|].
      apply IH. rewrite length_sdrop. lia. }
    csimpl. by destruct (cookieSegment target (stake k remaining)).
  - csimpl. by destruct (cookieSegment target remaining).
Qed.

Lemma head_app_options {A} (l k : list A) :
  head (l ++ k) = match head l with Some x => Some x | None => head k end.
Proof. by destruct l. Qed.

Lemma firstValidCookie_segments headers target :
  firstValidCookie headers target = head (omap (cookieSegment target) (cookieSegments headers)).
Proof.
  induction headers as [|header headers IH]; cbn [firstValidCookie]; [done|].
  rewrite cookieLoop_segments, IH by lia. unfold cookieSegments. csimpl.
  by rewrite omap_app, head_app_options.
Qed.

(** ** Properties *)

(** The address the fallback key is built from. *)
Definition fallbackKey (r : option request) : string :=
  match r with Some r => remoteKey (req_remoteAddr r) | None => "" end.

Lemma fallbackBytes_encode r : fallbackBytes r =
  uvarint 1 +:+ hash_byte 3 +:+ encodeComponent (Some [fallbackKey r]).
Proof.
  unfold fallbackBytes, fallbackKey.
  destruct r as [r|]; rewrite ?writeHashRemoteAddr_encode, ?writeHashString_encode,
    encodeComponent_one; unfold writeHashByte, writeHashUvarint; by rewrite !string_app_assoc.
Qed.

Lemma keyBytes_encode sources r : Forall source_ok sources → keyBytes sources r =
  if existsb (fun source => bool_decide (is_Some (component r source))) sources
  then (uvarint (N.of_nat (length sources)) +:+ encodeSources r sources, false)
  else (fallbackBytes r, true).
Proof. intros Hok. unfold keyBytes. by rewrite writeSources_encode. Qed.

Lemma compileHashKey_ok sources compiled :
  compileHashKey sources = Ok compiled → Forall source_ok compiled.
Proof.
  unfold compileHashKey. case_scrutinee; [done|]. intros H. by eapply compileHashSources_ok.
Qed.

(** a compiled key falls back to the remote address exactly when every
    source is missing from the request. *)
Theorem keyBytes_fallback sources compiled r : compileHashKey sources = Ok compiled →
  (keyBytes compiled r).2 = true ↔ Forall (fun source => component r source = None) compiled.
Proof.
  intros Hok%compileHashKey_ok. rewrite keyBytes_encode by done. rewrite Forall_forall.
  destruct (existsb _ compiled) eqn:E; simpl; split; try done.
  - intros Hall. exfalso. apply existsb_exists in E as (source & Hin & Hs). bool_hyps.
    apply list_elem_of_In in Hin. rewrite (Hall _ Hin) in Hs. by destruct Hs.
  - intros _ source Hin. destruct (component r source) eqn:Ec; [|done].
    exfalso. apply not_true_iff_false in E. apply E. apply existsb_exists. exists source.
    split; [by apply list_elem_of_In|]. apply bool_decide_eq_true. by rewrite Ec.
Qed.

(** the digested bytes determine the key: two requests with the same bytes
    have the same value, or the same absence, for every source, or both fall
    back with the same remote address.  In particular differently partitioned
    values never produce the same bytes. *)
Theorem keyBytes_injective sources compiled r r' : compileHashKey sources = Ok compiled →
  keyBytes compiled r = keyBytes compiled r' →
  component r <$> compiled = component r' <$> compiled ∧
  ((keyBytes compiled r).2 = true → fallbackKey r = fallbackKey r').
Proof.
  intros Hc Heq. pose proof (compileHashKey_ok _ _ Hc) as Hok.
  assert (Hmissing : ∀ r0, existsb (fun source => bool_decide (is_Some (component r0 source))) compiled
    = false → component r0 <$> compiled = (fun _ => None) <$> compiled).
  { intros r0 Hex. apply list_fmap_ext. intros i source Hi.
    destruct (component r0 source) eqn:Ec; [|done]. exfalso. apply not_true_iff_false in Hex.
    apply Hex, existsb_exists. exists source. 
    split; [by eapply list_elem_of_In, list_elem_of_lookup_2|].
    apply bool_decide_eq_true. by rewrite Ec. }
  rewrite !keyBytes_encode in * by done.
  destruct (existsb _ compiled) eqn:E, (existsb (fun source => bool_decide (is_Some (component r' _))) compiled)
    eqn:E'; try done; injection Heq as Heq; simpl.
  - split; [|done]. apply string_app_inj_length in Heq as [_ Heq]; [|done].
    rewrite <-(string_app_nil_r (encodeSources r _)), <-(string_app_nil_r (encodeSources r' _)) in Heq.
    by apply encodeSources_components in Heq as [? _].
  - rewrite !Hmissing by done. split; [done|]. intros _. rewrite !fallbackBytes_encode in Heq.
    apply string_app_inj_length in Heq as [_ Heq]; [|done].
    apply string_app_inj_length in Heq as [_ Heq]; [|done].
    rewrite <-(string_app_nil_r (encodeComponent (Some [fallbackKey r]))),
      <-(string_app_nil_r (encodeComponent (Some [fallbackKey r']))) in Heq.
    apply prefix_code in Heq as [[= ->] _]. done.
Qed.

(** a cookie source yields the first well-formed value of that name among
    the [;]-separated segments of all [Cookie] headers. *)
Theorem firstValidCookie_first headers target :
  firstValidCookie headers target =
  head (omap (cookieSegment target) (headers ≫= split_byte ";")).
Proof. apply firstValidCookie_segments. Qed.

(** ** Examples *)

Definition demo_sources : list HashKeySource :=
  [mkHashSource "header" "x-user" ""; mkHashSource "cookie" "sid" ""].

Definition demo_compiled : list HashKeySource :=
  [mkHashSource "header" "X-User" ""; mkHashSource "cookie" "sid" ""].

Example demo_compileHashKey : compileHashKey demo_sources = Ok demo_compiled.
Proof. vm_compute. reflexivity. Qed.

Definition demo_key_request (header : gmap string (list string)) : option request :=
  Some (mkRequest "GET" "h" "/" "" header "[::ffff:10.0.0.1]:5000").

Example demo_cookie :
  component (demo_key_request {[ "Cookie" := ["a=1; sid=bad;; sid=x\y"; "sid=ok; sid=2"] ]})
    (mkHashSource "cookie" "sid" "") = Some ["bad"].
Proof. vm_compute. reflexivity. Qed.

Example demo_remote : fallbackKey (demo_key_request ∅) = "10.0.0.1".
Proof. vm_compute. reflexivity. Qed.

Lemma keyBytes_fallback_witness :
  (keyBytes demo_compiled (demo_key_request ∅)).2 = true ∧
  Forall (fun source => component (demo_key_request ∅) source = None) demo_compiled.
Proof.
  split; [vm_compute; reflexivity|].
  apply (keyBytes_fallback demo_sources demo_compiled (demo_key_request ∅) demo_compileHashKey).
  vm_compute. reflexivity.
Defined.

Definition demo_user : gmap string (list string) := {[ "X-User" := ["u"; "v"] ]}.

Lemma keyBytes_injective_witness :
  keyBytes demo_compiled (demo_key_request demo_user) =
    keyBytes demo_compiled (demo_key_request (<[ "Accept" := ["*"] ]> demo_user)) ∧
  component (demo_key_request demo_user) <$> demo_compiled =
    component (demo_key_request (<[ "Accept" := ["*"] ]> demo_user)) <$> demo_compiled.
Proof.
  split; [vm_compute; reflexivity|].
  apply (keyBytes_injective demo_sources demo_compiled (demo_key_request demo_user)
    (demo_key_request (<[ "Accept" := ["*"] ]> demo_user)) demo_compileHashKey).
  vm_compute. reflexivity.
Defined.
