(* ===== verification/Chash.v ===== *)
(** * Consistent hashing ([internal/upstream/chash.go])

    Compilation of the endpoint weights into a sorted continuum of virtual
    points, and the selection of the successor of a key by binary search, then
    of the next selectable endpoint clockwise. *)

From S2P Require Import Prelude GoStrings Apportion HashKey.
#[local] Open Scope Z_scope.

Definition MaxContinuumPoints : Z := 65536.
Definition continuumPointsPerWeight : Z := 64.

(** ** Data *)

Record continuum := mkContinuum {
  c_hashes : list Z;
  c_indexes : list Z;
  c_direct : Z;
}.

Record continuumPoint := mkPoint {
  pt_hash : Z;
  pt_identity : string;
  pt_virtualIndex : Z;
  pt_endpointIndex : Z;
}.

Inductive continuumError :=
| ContinuumNoPositiveWeight
| ContinuumTooManyActive.

(** ** [sort.Search] *)

(** Binary search for the least index in [i, j) where [f] holds, [j] when there
    is none; the distance [j - i] bounds the iterations. *)
Fixpoint searchLoop (fuel : nat) (f : nat → bool) (i j : nat) : nat :=
  match fuel with
  | O => i
  | S fuel =>
      if (i <? j)%nat then
        let h := ((i + j) / 2)%nat in
        if negb (f h) then searchLoop fuel f (S h) j else searchLoop fuel f i h
      else i
  end.

Definition sort_Search (n : nat) (f : nat → bool) : nat := searchLoop n f 0 n.

(** ** Operations *)

(** [binary.BigEndian.PutUint64] *)
Definition be64 (x : Z) : string :=
  bytes ((fun k => Z.to_N (Z.land (Z.shiftr x (8 * k)) 255)) <$> [7; 6; 5; 4; 3; 2; 1; 0]).

Section Hash.
(** The third-party digest. *)
Context (xxh64 : string → Z).

Definition continuumPointHash (identity : string) (virtualIndex : Z) : Z :=
  xxh64 (String.append (writeHashString EmptyString identity) (be64 virtualIndex)).

(** The points of one endpoint. *)
Definition endpointPoints (s : share) : list continuumPoint :=
  (fun k => mkPoint (continuumPointHash (sh_identity s) (Z.of_nat k)) (sh_identity s)
              (Z.of_nat k) (sh_index s)) <$> seq 0 (Z.to_nat (sh_assigned s)).

Definition point_before (a b : continuumPoint) : bool :=
  if negb (pt_hash a =? pt_hash b) then pt_hash a <? pt_hash b
  else if negb (String.eqb (pt_identity a) (pt_identity b))
  then String.ltb (pt_identity a) (pt_identity b)
  else pt_virtualIndex a <? pt_virtualIndex b.

Definition sortContinuumPoints (points : list continuumPoint) : list continuumPoint :=
  sort_slice point_before points.

(** The points of each active endpoint. *)
Definition assignContinuumPoints (active : list share) : list share :=
  let active := normalizeShares active in
  let sum := normalizedSum active in
  if wrap64 (sum * continuumPointsPerWeight) <=? MaxContinuumPoints
  then (fun s => set_assigned (wrap32 (sh_weight s * continuumPointsPerWeight)) s) <$> active
  else assignCapped active sum MaxContinuumPoints.

Definition compileContinuum (endpoints : list weightedEndpoint) : result continuumError continuum :=
  let active := activeShares 0 endpoints in
  match active with
  | [] => Err ContinuumNoPositiveWeight
  | [only] => Ok (mkContinuum [] [] (sh_index only))
  | _ =>
      if MaxContinuumPoints <? Z.of_nat (length active) then Err ContinuumTooManyActive
      else
        let points := sortContinuumPoints (assignContinuumPoints active ≫= endpointPoints) in
        Ok (mkContinuum (pt_hash <$> points) (pt_endpointIndex <$> points) 0)
  end.
End Hash.

(** The position of the successor of [sum], the first point after the last. *)
Definition continuumStart (c : continuum) (sum : Z) : nat :=
  let len := length (c_hashes c) in
  let index := sort_Search len (fun i => sum <=? default 0 (c_hashes c !! i)) in
  if Nat.eqb index len then O else index.

Definition continuumAt (c : continuum) (position : nat) : Z :=
  default 0 (c_indexes c !! position).

Definition chash_selectIndex (c : continuum) (sum : Z) : Z :=
  match c_hashes c with
  | [] => c_direct c
  | _ => continuumAt c (continuumStart c sum)
  end.

(** The loop over the following points; [count] is the number of offsets left. *)
Fixpoint chash_probe (c : continuum) (selectable : Z → bool) (endpointCount : Z) (start : nat)
    (offset count : nat) (seen : list bool) (distinct : Z) : option Z :=
  match count with
  | O => None
  | S count =>
      if negb (distinct <? endpointCount) then None
      else
        let ordinal := continuumAt c ((start + offset) mod length (c_hashes c))%nat in
        if (Z.of_nat (length seen) <=? ordinal) || default false (seen !! Z.to_nat ordinal)
        then chash_probe c selectable endpointCount start (S offset) count seen distinct
        else if selectable ordinal then Some ordinal
        else chash_probe c selectable endpointCount start (S offset) count
               (<[ Z.to_nat ordinal := true ]> seen) (distinct + 1)
  end.

Definition chash_selectNext (c : continuum) (sum endpointCount : Z) (selectable : Z → bool)
    : option Z :=
  match c_hashes c with
  | [] => if selectable (c_direct c) then Some (c_direct c) else None
  | _ =>
      let start := continuumStart c sum in
      let first := continuumAt c start in
      if selectable first then Some first
      else
        let seen := replicate (Z.to_nat endpointCount) false in
        let seen := if first <? Z.of_nat (length seen)
                    then <[ Z.to_nat first := true ]> seen else seen in
        chash_probe c selectable endpointCount start 1 (length (c_hashes c) - 1) seen 1
  end.

(** ** Binary search *)

Lemma searchLoop_spec f n fuel i j :
  (∀ a b, (a ≤ b < n)%nat → f a = true → f b = true) →
  (i ≤ j ≤ n)%nat → (j - i ≤ fuel)%nat →
  (∀ k, (k < i)%nat → f k = false) → (∀ k, (j ≤ k < n)%nat → f k = true) →
  let r := searchLoop fuel f i j in
  (i ≤ r ≤ j)%nat ∧ (∀ k, (k < r)%nat → f k = false) ∧ (∀ k, (r ≤ k < n)%nat → f k = true).
Proof.
  intros Hmono. revert i j. induction fuel as [|fuel IH]; intros i j Hij Hfuel Hlo Hhi.
  - assert (i = j) as -> by lia. simpl. split_and!; [lia|lia|done|done].
  - cbn [searchLoop]. destruct (i <? j)%nat eqn:E; bool_hyps;
      [|assert (i = j) as -> by lia; split_and!; [lia|lia|done|done]].
    set (h := ((i + j) / 2)%nat).
    assert (Hh : (i ≤ h < j)%nat).
    { unfold h. split; [apply Nat.div_le_lower_bound; lia|apply Nat.Div0.div_lt_upper_bound; lia]. }
    destruct (f h) eqn:Ef; simpl.
    + destruct (IH i h) as (? & ? & ?); [lia|lia|done| |split_and!; [lia|lia|done|done]].
      intros k Hk. apply (Hmono h); [lia|done].
    + destruct (IH (S h) j) as (? & ? & ?); [lia|lia| |done|split_and!; [lia|lia|done|done]].
      intros k Hk. destruct (f k) eqn:Ek; [|done]. rewrite <-Ef. symmetry. apply (Hmono k); [lia|done].
Qed.

Lemma sort_Search_spec n f : (∀ a b, (a ≤ b < n)%nat → f a = true → f b = true) →
  (sort_Search n f ≤ n)%nat ∧ (∀ k, (k < sort_Search n f)%nat → f k = false) ∧
  (∀ k, (sort_Search n f ≤ k < n)%nat → f k = true).
Proof.
  intros Hmono. destruct (searchLoop_spec f n n 0 n) as ([_ ?] & ? & ?); [done|lia..|].
  by split_and!.
Qed.

(** ** Selection from a well-formed continuum *)

Record continuum_wf (c : continuum) (endpointCount : Z) : Prop := {
  wf_nonempty : c_hashes c ≠ [];
  wf_length : length (c_indexes c) = length (c_hashes c);
  wf_sorted : StronglySorted Z.le (c_hashes c);
  wf_indexes : Forall (fun i => 0 ≤ i < endpointCount) (c_indexes c);
}.

(** The endpoints clockwise from the key: those of the points at or after it in
    hash order, then those of the points before it. *)
Definition successors (c : continuum) (sum : Z) : list Z :=
  let points := zip (c_hashes c) (c_indexes c) in
  (filter (fun p => sum ≤ p.1) points).*2 ++ (filter (fun p => ¬ sum ≤ p.1) points).*2.

Lemma filter_split {A} (P : A → Prop) `{∀ x, Decision (P x)} l r :
  (∀ k x, (k < r)%nat → l !! k = Some x → ¬ P x) →
  (∀ k x, (r ≤ k)%nat → l !! k = Some x → P x) →
  filter P l = drop r l ∧ filter (fun x => ¬ P x) l = take r l.
Proof.
  revert r. induction l as [|x l IH]; intros r Hlo Hhi; [by rewrite drop_nil, take_nil|].
  rewrite !filter_cons. destruct r as [|r].
  - destruct (IH 0%nat) as [IH1 IH2]; [lia|by intros k y _ Hk; apply (Hhi (S k)); [lia|]|].
    assert (P x) by (by apply (Hhi 0%nat)). rewrite decide_True, decide_False by tauto.
    rewrite IH1, IH2. by rewrite !drop_0.
  - destruct (IH r) as [IH1 IH2].
    + intros k y Hk Hl. apply (Hlo (S k)); [lia|done].
    + intros k y Hk Hl. apply (Hhi (S k)); [lia|done].
    + assert (¬ P x) by (apply (Hlo 0%nat); [lia|done]).
      rewrite decide_False, decide_True by done. simpl. by rewrite IH1, IH2.
Qed.

Lemma StronglySorted_lookup {A} (R : relation A) l i j x y :
  StronglySorted R l → (i < j)%nat → l !! i = Some x → l !! j = Some y → R x y.
Proof.
  intros Hs. revert i j. induction Hs as [|z l Hs IH Hz]; intros i j Hij Hi Hj; [done|].
  destruct j as [|j]; [lia|]. destruct i as [|i]; simplify_eq/=.
  - eapply Forall_lookup_1 in Hz; [|exact Hj]. done.
  - eapply IH; [|done|done]. lia.
Qed.

Lemma continuumStart_successors c n sum : continuum_wf c n →
  (continuumStart c sum < length (c_indexes c))%nat ∧
  successors c sum = rotate (continuumStart c sum) (c_indexes c).
Proof.
  intros [Hne Hlen Hsorted _]. unfold continuumStart, successors.
  pose proof (nonempty_length _ Hne) as Hpos.
  set (f := fun i => sum <=? default 0 (c_hashes c !! i)).
  destruct (sort_Search_spec (length (c_hashes c)) f) as (Hr & Hlo & Hhi).
  { intros a b Hab. unfold f. rewrite !Z.leb_le. intros Ha.
    destruct (lookup_lt_is_Some_2 (c_hashes c) a) as [x Hx]; [lia|].
    destruct (lookup_lt_is_Some_2 (c_hashes c) b) as [y Hy]; [lia|]. rewrite Hx in Ha. rewrite Hy.
    destruct (decide (a = b)) as [->|]; [simpl in *; congruence|].
    assert (x ≤ y) by (eapply StronglySorted_lookup; [done| |done|done]; lia). simpl in *. lia. }
  set (r := sort_Search _ f) in *.
  set (points := zip (c_hashes c) (c_indexes c)).
  assert (Hsnd : points.*2 = c_indexes c) by (apply snd_zip; lia).
  destruct (filter_split (fun p : Z * Z => sum ≤ p.1) points r) as [-> ->].
  { intros k [hash index] Hk Hp. unfold points in Hp. apply lookup_zip_Some in Hp as [Hp _].
    specialize (Hlo k Hk). unfold f in Hlo. rewrite Hp in Hlo. simpl in *. bool_hyps. lia. }
  { intros k [hash index] Hk Hp. unfold points in Hp. apply lookup_zip_Some in Hp as [Hp _].
    assert (Hkl : (k < length (c_hashes c))%nat) by (by eapply lookup_lt_Some).
    specialize (Hhi k ltac:(lia)). unfold f in Hhi. rewrite Hp in Hhi. simpl in *. bool_hyps. lia. }
  rewrite fmap_drop, fmap_take, Hsnd. unfold rotate. destruct (Nat.eqb r _) eqn:E; bool_hyps.
  - split; [lia|]. rewrite Nat.Div0.mod_0_l, drop_0, take_0, app_nil_r.
    by rewrite drop_ge, take_ge by lia.
  - split; [lia|]. by rewrite Nat.mod_small by lia.
Qed.

Lemma continuumAt_rotate c n sum offset : continuum_wf c n →
  (offset < length (c_hashes c))%nat →
  rotate (continuumStart c sum) (c_indexes c) !! offset =
    Some (continuumAt c ((continuumStart c sum + offset) mod length (c_hashes c))).
Proof.
  intros Hwf Ho. destruct Hwf as [_ Hlen _ _]. rewrite lookup_rotate_r by lia.
  unfold rotate_nat_add, continuumAt. rewrite Hlen.
  replace (Z.to_nat _) with ((continuumStart c sum + offset) mod length (c_hashes c))%nat.
  - destruct (lookup_lt_is_Some_2 (c_indexes c)
      ((continuumStart c sum + offset) mod length (c_hashes c))) as [x ->]; [|done].
    rewrite Hlen. apply Nat.mod_upper_bound. lia.
  - apply Nat2Z.inj. rewrite Nat2Z.inj_mod, Nat2Z.inj_add, Z2Nat.id; [done|].
    apply Z.mod_pos_bound. lia.
Qed.

(** ** The probe loop *)

Definition count_true (seen : list bool) : Z := Z.of_nat (length (filter (.= true) seen)).

Lemma count_true_insert seen i : seen !! i = Some false →
  count_true (<[i := true]> seen) = count_true seen + 1.
Proof.
  unfold count_true. revert i. induction seen as [|b seen IH]; intros [|i] Hi; simplify_eq/=.
  - rewrite !filter_cons. simpl. lia.
  - rewrite !filter_cons. specialize (IH _ Hi). case_decide; simpl; lia.
Qed.

Lemma count_true_all seen i :
  Z.of_nat (length seen) ≤ count_true seen → (i < length seen)%nat → seen !! i = Some true.
Proof.
  unfold count_true. revert i. induction seen as [|b seen IH]; intros i Hc Hi; simpl in *; [lia|].
  assert (Hle : (length (filter (.= true) seen) ≤ length seen)%nat) by apply length_filter.
  rewrite filter_cons in Hc. destruct b; simpl in Hc; [|lia].
  destruct i as [|i]; [done|]. apply IH; lia.
Qed.

Lemma chash_probe_spec c n sum selectable offset count seen distinct : continuum_wf c n →
  (offset + count = length (c_hashes c))%nat →
  Z.of_nat (length seen) = n → distinct = count_true seen →
  (∀ o, seen !! Z.to_nat o = Some true → 0 ≤ o → selectable o = false) →
  chash_probe c selectable n (continuumStart c sum) offset count seen distinct =
  head (filter (fun o => selectable o = true) (drop offset (successors c sum))).
Proof.
  intros Hwf. pose proof (continuumStart_successors c n sum Hwf) as [_ Hsucc].
  revert offset seen distinct. induction count as [|count IH];
    intros offset seen distinct Hoff Hlen Hd Hseen; cbn [chash_probe].
  { rewrite drop_ge; [done|]. rewrite Hsucc, length_rotate.
    destruct Hwf as [_ Hl _ _]. lia. }
  pose proof (continuumAt_rotate c n sum offset Hwf ltac:(lia)) as Hat. rewrite <-Hsucc in Hat.
  set (ordinal := continuumAt c _) in *.
  assert (Hord : 0 ≤ ordinal < n).
  { destruct Hwf as [_ _ _ Hi]. assert (Hin : ordinal ∈ c_indexes c).
    { apply (elem_of_rotate _ (continuumStart c sum)). rewrite <-Hsucc.
      by eapply list_elem_of_lookup_2. }
    by eapply Forall_forall in Hi. }
  destruct (distinct <? n) eqn:Edist; simpl; bool_hyps.
  - rewrite (drop_S _ _ _ Hat), filter_cons.
    replace (Z.of_nat (length seen) <=? ordinal) with false by (symmetry; apply Z.leb_gt; lia).
    simpl. destruct (lookup_lt_is_Some_2 seen (Z.to_nat ordinal)) as [b Hb]; [lia|].
    rewrite Hb. destruct b; simpl.
    + rewrite decide_False by (rewrite (Hseen ordinal); [done|done|lia]). apply IH; done || lia.
    + destruct (selectable ordinal) eqn:Es; [by rewrite decide_True|].
      rewrite decide_False by done. apply IH; rewrite ?length_insert; try done; [lia| |].
      * by rewrite count_true_insert, Hd.
      * intros o. destruct (decide (Z.to_nat o = Z.to_nat ordinal)) as [E|E].
        -- intros _ Ho. by replace o with ordinal by lia.
        -- rewrite list_lookup_insert_ne by done. apply Hseen.
  - (* every endpoint has been seen *)
    assert (Hnone : ∀ o, o ∈ successors c sum → selectable o = false).
    { intros o Ho. rewrite Hsucc, elem_of_rotate in Ho. destruct Hwf as [_ _ _ Hi].
      eapply Forall_forall in Hi; [|exact Ho]. simpl in Hi. apply Hseen; [|lia].
      apply count_true_all; lia. }
    symmetry. apply head_None.
    destruct (filter _ _) as [|o l] eqn:Ef; [done|].
    assert (Ho : o ∈ filter (fun o => selectable o = true) (drop offset (successors c sum)))
      by (rewrite Ef; left).
    apply list_elem_of_filter in Ho as [Ho Hin]. rewrite Hnone in Ho; [done|].
    rewrite <-(take_drop offset (successors c sum)), elem_of_app. by right.
Qed.

Lemma chash_selectNext_successors c n sum selectable : continuum_wf c n →
  chash_selectNext c sum n selectable =
  head (filter (fun o => selectable o = true) (successors c sum)).
Proof.
  intros Hwf. pose proof (wf_nonempty _ _ Hwf) as Hne. pose proof (nonempty_length _ Hne) as Hpos.
  unfold chash_selectNext. destruct (c_hashes c) as [|h hs] eqn:E; [done|]. rewrite <-E in *.
  pose proof (continuumStart_successors c n sum Hwf) as [Hstart Hsucc].
  pose proof (continuumAt_rotate c n sum 0 Hwf ltac:(lia)) as Hat.
  pose proof (wf_length _ _ Hwf) as Hlen.
  rewrite Nat.add_0_r, Nat.mod_small, <-Hsucc in Hat by lia.
  set (first := continuumAt c (continuumStart c sum)) in *.
  assert (Hfirst : 0 ≤ first < n).
  { destruct Hwf as [_ _ _ Hi]. assert (Hin : first ∈ c_indexes c).
    { apply (elem_of_rotate _ (continuumStart c sum)). rewrite <-Hsucc.
      by eapply list_elem_of_lookup_2. }
    by eapply Forall_forall in Hi. }
  pose proof (drop_S _ _ _ Hat) as Hdrop. rewrite drop_0 in Hdrop.
  destruct (selectable first) eqn:Es; [by rewrite Hdrop, filter_cons, decide_True|].
  rewrite length_replicate, Z2Nat.id by lia.
  replace (first <? n) with true by (symmetry; apply Z.ltb_lt; lia).
  assert (Hseen0 : replicate (Z.to_nat n) false !! Z.to_nat first = Some false).
  { apply lookup_replicate. split; [done|lia]. }
  rewrite (chash_probe_spec c n sum); try done.
  - by rewrite Hdrop, filter_cons, decide_False by congruence.
  - lia.
  - rewrite length_insert, length_replicate. lia.
  - rewrite count_true_insert by done. unfold count_true.
    replace (filter (.= true) (replicate (Z.to_nat n) false)) with (@nil bool); [done|].
    clear. induction (Z.to_nat n) as [|k IH]; [done|]. simpl. by rewrite filter_cons.
  - intros o Ho Ho0. destruct (decide (Z.to_nat o = Z.to_nat first)) as [Eo|Eo].
    + by replace o with first by lia.
    + rewrite list_lookup_insert_ne, lookup_replicate in Ho by done. by destruct Ho.
Qed.

(** ** Compiled continua *)

Lemma point_before_asym a b : point_before a b = true → point_before b a = false.
Proof.
  unfold point_before. rewrite (Z.eqb_sym (pt_hash b)), (String.eqb_sym (pt_identity b)).
  repeat case_scrutinee; bool_hyps; try apply string_ltb_asym; intros; bool_hyps; try lia.
Qed.

Lemma point_before_trans a b c :
  point_before b a = false → point_before c b = false → point_before c a = false.
Proof.
  unfold point_before. intros H1 H2.
  destruct (pt_hash c =? pt_hash a) eqn:Eca, (pt_hash b =? pt_hash a) eqn:Eba,
    (pt_hash c =? pt_hash b) eqn:Ecb; simpl in *; bool_hyps; try lia.
  destruct (String.eqb_spec (pt_identity c) (pt_identity a)) as [Hca|Hca],
    (String.eqb_spec (pt_identity b) (pt_identity a)) as [Hba|Hba],
    (String.eqb_spec (pt_identity c) (pt_identity b)) as [Hcb|Hcb]; simpl in *; bool_hyps;
    try congruence; try lia.
  - exfalso. apply Hba. apply string_ltb_total; congruence.
  - by eapply string_ltb_false_trans.
Qed.

Lemma point_before_tie a b : point_before a b = false → point_before b a = false →
  pt_hash a = pt_hash b ∧ pt_identity a = pt_identity b ∧ pt_virtualIndex a = pt_virtualIndex b.
Proof.
  unfold point_before. rewrite (Z.eqb_sym (pt_hash b)), (String.eqb_sym (pt_identity b)).
  destruct (pt_hash a =? pt_hash b) eqn:Eh; simpl; bool_hyps; [|intros; bool_hyps; lia].
  destruct (String.eqb_spec (pt_identity a) (pt_identity b)) as [Hid|Hid]; simpl; intros.
  - bool_hyps. split_and!; [done|done|lia].
  - exfalso. apply Hid. by apply string_ltb_total.
Qed.

Lemma sortContinuumPoints_sorted points :
  StronglySorted (not_after point_before) (sortContinuumPoints points).
Proof.
  apply sort_slice_sorted; [apply point_before_asym|]. intros x y z. apply point_before_trans.
Qed.

Lemma sorted_hashes points : StronglySorted (not_after point_before) points →
  StronglySorted Z.le (pt_hash <$> points).
Proof.
  induction 1 as [|p points _ IH Hp]; csimpl; constructor; [done|].
  apply Forall_fmap. eapply Forall_impl; [exact Hp|]. intros q. unfold not_after, point_before, compose.
  destruct (pt_hash q =? pt_hash p) eqn:E; simpl; intros; bool_hyps; lia.
Qed.

(** The assignment keeps the endpoints and gives each at least one point. *)
Lemma assignContinuumPoints_spec active : active ≠ [] → Forall weight_ok active →
  Z.of_nat (length active) ≤ MaxContinuumPoints →
  Forall2 (fun s s' => sh_index s' = sh_index s ∧ sh_identity s' = sh_identity s)
    active (assignContinuumPoints active) ∧
  Forall (fun s => 1 ≤ sh_assigned s) (assignContinuumPoints active) ∧
  zsum sh_assigned (assignContinuumPoints active) ≤ MaxContinuumPoints.
Proof.
  intros Hne Hok Hlen. unfold MaxContinuumPoints, continuumPointsPerWeight in *.
  destruct (normalizeShares_weights active Hne Hok) as [Hnorm Hnok].
  assert (Hnne : normalizeShares active ≠ []) by (by destruct active).
  assert (Hnlen : length (normalizeShares active) = length active) by apply length_fmap.
  unfold assignContinuumPoints. rewrite (normalizedSum_exact _ Hnok) by lia.
  unfold MaxContinuumPoints, continuumPointsPerWeight.
  pose proof (zsum_bounds sh_weight 1 (2 ^ 32) (normalizeShares active)) as Hb.
  assert (Hb' : 1 * Z.of_nat (length active) ≤ zsum sh_weight (normalizeShares active) ≤ 2 ^ 32 * 65536).
  { rewrite Hnlen in Hb. destruct Hb as [? ?]; [|lia].
    eapply Forall_impl; [exact Hnok|]. unfold weight_ok. intros; lia. }
  rewrite wrap64_id by lia. destruct (_ <=? 65536) eqn:E; bool_hyps.
  - assert (Hle : ∀ s, s ∈ normalizeShares active → 1 ≤ sh_weight s ≤ 1024).
    { intros s Hs. split.
      - eapply Forall_forall in Hnok; [|done]. unfold weight_ok in Hnok. lia.
      - assert (sh_weight s ≤ zsum sh_weight (normalizeShares active)); [|lia].
        apply zsum_elem_le; [|done].
        eapply Forall_impl; [exact Hnok|]. unfold weight_ok. intros; lia. }
    split_and!.
    + apply Forall2_fmap_r. eapply Forall2_impl; [exact Hnorm|]. by intros s s' (? & ? & _).
    + apply Forall_fmap, Forall_forall. intros s Hs. specialize (Hle s Hs). simpl.
      rewrite wrap32_id; lia.
    + rewrite zsum_fmap. rewrite (zsum_ext _ (fun s => sh_weight s * 64)), zsum_scale; [lia|].
      intros s Hs. specialize (Hle s Hs). unfold compose. simpl. rewrite wrap32_id; lia.
  - pose proof (assignCapped_capped (normalizeShares active) 65536 Hnne Hnok) as Hc.
    rewrite Hnlen in Hc. specialize (Hc ltac:(lia)).
    pose proof (quota_bounds (normalizeShares active) 65536 Hnne Hnok) as Hq. rewrite Hnlen in Hq.
    specialize (Hq ltac:(lia)).
    destruct Hc as [Hends Hsum Hquota _]. split_and!; [| |lia].
    + eapply Forall2_compose; [|exact Hnorm|exact Hends].
      intros s s' s'' (? & ? & _) (? & ? & _). split; congruence.
    + apply Forall_lookup. intros i s' Hi.
      apply (Forall2_lookup_r _ _ _ _ _ Hquota) in Hi as (s & Hs & Hcase).
      specialize (Hq s (list_elem_of_lookup_2 _ _ _ Hs)). lia.
Qed.

Section Compiled.
Context (xxh64 : string → Z).

Lemma elem_of_endpointPoints s p : p ∈ endpointPoints xxh64 s ↔ ∃ k,
  0 ≤ k < sh_assigned s ∧
  p = mkPoint (continuumPointHash xxh64 (sh_identity s) k) (sh_identity s) k (sh_index s).
Proof.
  unfold endpointPoints. rewrite list_elem_of_fmap. setoid_rewrite elem_of_seq. split.
  - intros (k & -> & Hk). exists (Z.of_nat k). split; [lia|done].
  - intros (k & Hk & ->). exists (Z.to_nat k). split; [by rewrite Z2Nat.id by lia|lia].
Qed.

Lemma compileContinuum_many endpoints :
  (2 ≤ length (activeShares 0 endpoints))%nat →
  Z.of_nat (length (activeShares 0 endpoints)) ≤ MaxContinuumPoints →
  let points := sortContinuumPoints
    (assignContinuumPoints (activeShares 0 endpoints) ≫= endpointPoints xxh64) in
  compileContinuum xxh64 endpoints =
    Ok (mkContinuum (pt_hash <$> points) (pt_endpointIndex <$> points) 0).
Proof.
  intros Hmany Hmax points. unfold compileContinuum, points.
  destruct (activeShares 0 endpoints) as [|a1 [|a2 active]] eqn:E; simpl in Hmany; try lia.
  replace (MaxContinuumPoints <? _) with false by (symmetry; by apply Z.ltb_ge). done.
Qed.

(** A compiled continuum is direct, or built from several active endpoints. *)
Lemma compileContinuum_cases endpoints c : compileContinuum xxh64 endpoints = Ok c →
  (∃ only, activeShares 0 endpoints = [only] ∧ c = mkContinuum [] [] (sh_index only)) ∨
  (2 ≤ length (activeShares 0 endpoints))%nat ∧
  Z.of_nat (length (activeShares 0 endpoints)) ≤ MaxContinuumPoints.
Proof.
  unfold compileContinuum. destruct (activeShares 0 endpoints) as [|a [|b l]]; [done| |].
  - intros [= <-]. left. by exists a.
  - case_scrutinee; [done|]. bool_hyps. intros _. right. split; [simpl; lia|done].
Qed.

Lemma compileContinuum_wf endpoints c : Forall weight_u32 endpoints →
  Z.of_nat (length endpoints) ≤ 2 ^ 32 → compileContinuum xxh64 endpoints = Ok c →
  c_hashes c = [] ∧ sh_index <$> activeShares 0 endpoints = [c_direct c] ∨
  continuum_wf c (Z.of_nat (length endpoints)).
Proof.
  intros Hw Hlen Hc.
  destruct (compileContinuum_cases _ _ Hc) as [(only & -> & ->)|[Hmany Hm]]; [by left|right].
  rewrite compileContinuum_many in Hc by lia. injection Hc as <-.
  pose proof (activeShares_ok 0 endpoints Hw) as Hok.
  assert (Hne : activeShares 0 endpoints ≠ []) by (intros E; rewrite E in Hmany; simpl in Hmany; lia).
  destruct (assignContinuumPoints_spec _ Hne Hok Hm) as (Hends & Hpos & _).
  set (assigned := assignContinuumPoints _) in *. split; simpl.
  - intros Hnil%fmap_nil_inv. assert (Hp : ∃ s, s ∈ assigned).
    { destruct Hends; [done|]. eexists. left. }
    destruct Hp as [s Hs]. assert (H1 : 1 ≤ sh_assigned s) by (by eapply Forall_forall in Hpos).
    assert (Hin : mkPoint (continuumPointHash xxh64 (sh_identity s) 0) (sh_identity s) 0 (sh_index s)
      ∈ sortContinuumPoints (assigned ≫= endpointPoints xxh64)).
    { apply elem_of_sort_slice, list_elem_of_bind. exists s. split; [|done].
      apply elem_of_endpointPoints. exists 0. split; [lia|done]. }
    by rewrite Hnil, elem_of_nil in Hin.
  - by rewrite !length_fmap.
  - apply sorted_hashes, sortContinuumPoints_sorted.
  - apply Forall_fmap, Forall_forall. intros p Hp.
    apply elem_of_sort_slice, list_elem_of_bind in Hp as (s & Hp & Hs).
    apply elem_of_endpointPoints in Hp as (k & _ & ->). simpl.
    apply list_elem_of_lookup in Hs as [i Hi].
    apply (Forall2_lookup_r _ _ _ _ _ Hends) in Hi as (s0 & Hs0 & -> & _).
    apply list_elem_of_lookup_2, elem_of_activeShares in Hs0 as (k' & e & He & _ & ->). simpl.
    apply lookup_lt_Some in He. rewrite wrap32_id; lia.
Qed.
End Compiled.

(** ** Draining an endpoint *)

(** The configuration with the weight of endpoint [k] set to zero: ordinals are
    unchanged. *)
Definition drain (k : nat) (endpoints : list weightedEndpoint) : list weightedEndpoint :=
  alter (fun e => mkWeighted (we_identity e) 0) k endpoints.

Definition other_share (k : Z) (s : share) : Prop := sh_index s ≠ k.
#[global] Instance other_share_dec k s : Decision (other_share k s).
Proof. unfold other_share. apply _. Defined.

Lemma activeShares_others i k endpoints : Z.of_nat (i + length endpoints) ≤ 2 ^ 32 →
  0 ≤ k < Z.of_nat i → filter (other_share k) (activeShares i endpoints) = activeShares i endpoints.
Proof.
  revert i. induction endpoints as [|e endpoints IH]; intros i Hlen Hk; simpl in *; [done|].
  assert (IH' : filter (other_share k) (activeShares (S i) endpoints) = activeShares (S i) endpoints)
    by (apply IH; lia).
  case_scrutinee; [done|]. rewrite filter_cons, decide_True; [by rewrite IH'|].
  unfold other_share. simpl. rewrite wrap32_id; lia.
Qed.

Lemma activeShares_drain i k endpoints :
  Z.of_nat (i + length endpoints) ≤ 2 ^ 32 → (k < length endpoints)%nat →
  activeShares i (drain k endpoints) =
    filter (other_share (Z.of_nat (i + k))) (activeShares i endpoints).
Proof.
  revert i k. induction endpoints as [|e endpoints IH]; intros i k Hlen Hk; simpl in *; [lia|].
  destruct k as [|k]; simpl.
  - rewrite Nat.add_0_r. case_scrutinee; rewrite ?filter_cons; [symmetry; apply activeShares_others; lia|].
    rewrite decide_False by (unfold other_share; simpl; rewrite wrap32_id by lia; intros []; done).
    symmetry. apply activeShares_others; lia.
  - assert (IH' := IH (S i) k ltac:(lia) ltac:(lia)). replace (S i + k)%nat with (i + S k)%nat in IH' by lia.
    case_scrutinee; [exact IH'|]. rewrite filter_cons, decide_True; [f_equal; exact IH'|].
    unfold other_share. simpl. rewrite wrap32_id; lia.
Qed.

Lemma filter_fmap_index (f : share → share) k (l : list share) : (∀ s, sh_index (f s) = sh_index s) →
  filter (other_share k) (f <$> l) = f <$> filter (other_share k) l.
Proof.
  intros Hf. induction l as [|s l IH]; [done|]. csimpl. rewrite !filter_cons, IH.
  unfold other_share. repeat case_decide; rewrite ?Hf in *; done || congruence.
Qed.

Lemma zsum_filter_le (l : list share) k : Forall weight_ok l →
  0 ≤ zsum sh_weight (filter (other_share k) l) ≤ zsum sh_weight l.
Proof.
  induction 1 as [|s l Hs _ IH]; [done|]. rewrite filter_cons. unfold weight_ok in Hs.
  case_decide; simpl; lia.
Qed.

(** The continuum is not capped: every unit of weight has its 64 points. *)
Definition uncapped (active : list share) : Prop :=
  zsum sh_weight (normalizeShares active) * continuumPointsPerWeight ≤ MaxContinuumPoints.

Lemma assignContinuumPoints_uncapped active : active ≠ [] → Forall weight_ok active →
  Z.of_nat (length active) ≤ MaxContinuumPoints → uncapped active →
  assignContinuumPoints active =
    (fun s => set_assigned (wrap32 (sh_weight s * continuumPointsPerWeight)) s) <$>
      normalizeShares active.
Proof.
  intros Hne Hok Hlen Hun. destruct (normalizeShares_weights active Hne Hok) as [_ Hnok].
  unfold uncapped, MaxContinuumPoints, continuumPointsPerWeight in *.
  assert (Hnlen : length (normalizeShares active) = length active) by apply length_fmap.
  unfold assignContinuumPoints. rewrite (normalizedSum_exact _ Hnok) by lia.
  unfold MaxContinuumPoints, continuumPointsPerWeight.
  pose proof (zsum_filter_le _ 0 Hnok). rewrite wrap64_id by lia.
  by replace (_ <=? 65536) with true by (symmetry; by apply Z.leb_le).
Qed.

Lemma assignContinuumPoints_filter active k :
  Forall weight_ok active → Z.of_nat (length active) ≤ MaxContinuumPoints → uncapped active →
  filter (other_share k) active ≠ [] →
  weightDivisor (filter (other_share k) active) = weightDivisor active →
  assignContinuumPoints (filter (other_share k) active) =
    filter (other_share k) (assignContinuumPoints active).
Proof.
  intros Hok Hlen Hun Hne Hdiv.
  assert (Hne' : active ≠ []) by (by intros ->).
  assert (Hnorm : normalizeShares (filter (other_share k) active) =
    filter (other_share k) (normalizeShares active)).
  { unfold normalizeShares. rewrite Hdiv, filter_fmap_index; done. }
  assert (Hfok : Forall weight_ok (filter (other_share k) active)).
  { apply Forall_forall. intros s [_ Hs]%list_elem_of_filter. by eapply Forall_forall in Hok. }
  destruct (normalizeShares_weights active Hne' Hok) as [_ Hnok].
  pose proof (zsum_filter_le _ k Hnok).
  rewrite !assignContinuumPoints_uncapped; try done.
  - rewrite Hnorm. symmetry. by apply filter_fmap_index.
  - pose proof (length_filter (other_share k) active). lia.
  - unfold uncapped in *. rewrite Hnorm. unfold continuumPointsPerWeight in *. lia.
Qed.

Definition other_point (k : Z) (p : continuumPoint) : Prop := pt_endpointIndex p ≠ k.
#[global] Instance other_point_dec k p : Decision (other_point k p).
Proof. unfold other_point. apply _. Defined.

Lemma points_filter xxh64 k (l : list share) :
  filter (other_share k) l ≫= endpointPoints xxh64 =
  filter (other_point k) (l ≫= endpointPoints xxh64).
Proof.
  induction l as [|s l IH]; [done|]. rewrite filter_cons. csimpl. rewrite filter_app.
  assert (Hs : filter (other_point k) (endpointPoints xxh64 s) =
    if decide (other_share k s) then endpointPoints xxh64 s else []).
  { unfold endpointPoints. generalize (seq 0 (Z.to_nat (sh_assigned s))).
    intros ks. induction ks as [|i ks IHi]; csimpl; [by case_decide|].
    rewrite filter_cons, IHi. unfold other_point, other_share. simpl. by repeat case_decide. }
  rewrite Hs. case_decide; csimpl; by rewrite IH.
Qed.

Lemma StronglySorted_filter {A} (R : relation A) (P : A → Prop) `{∀ x, Decision (P x)} l :
  StronglySorted R l → StronglySorted R (filter P l).
Proof.
  induction 1 as [|x l _ IH Hx]; [constructor|]. rewrite filter_cons.
  case_decide; [|done]. constructor; [done|]. apply Forall_forall.
  intros y [_ Hy]%list_elem_of_filter. by eapply Forall_forall in Hx.
Qed.

(** Sorting commutes with dropping an endpoint's points when points are told
    apart by identity and virtual index. *)
Lemma sort_points_filter points k :
  (∀ p q, p ∈ points → q ∈ points → pt_identity p = pt_identity q →
     pt_virtualIndex p = pt_virtualIndex q → p = q) →
  sortContinuumPoints (filter (other_point k) points) =
  filter (other_point k) (sortContinuumPoints points).
Proof.
  intros Hinj. apply (StronglySorted_unique_strong (not_after point_before)).
  - intros p q Hp Hq H1 H2. apply point_before_tie in H1 as (_ & ? & ?); [|done].
    apply elem_of_sort_slice, list_elem_of_filter in Hp as [_ Hp].
    apply list_elem_of_filter in Hq as [_ Hq]. apply elem_of_sort_slice in Hq. by apply Hinj.
  - apply sortContinuumPoints_sorted.
  - apply StronglySorted_filter, sortContinuumPoints_sorted.
  - unfold sortContinuumPoints. by rewrite !sort_slice_perm.
Qed.

(** The points clockwise from the key. *)
Definition clockwise (sum : Z) (points : list continuumPoint) : list continuumPoint :=
  filter (fun p => sum ≤ pt_hash p) points ++ filter (fun p => ¬ sum ≤ pt_hash p) points.

Lemma successors_points points direct sum :
  successors (mkContinuum (pt_hash <$> points) (pt_endpointIndex <$> points) direct) sum =
  pt_endpointIndex <$> clockwise sum points.
Proof.
  unfold successors, clockwise. simpl. rewrite fmap_app.
  replace (zip (pt_hash <$> points) (pt_endpointIndex <$> points))
    with ((fun p => (pt_hash p, pt_endpointIndex p)) <$> points)
    by (clear; induction points; csimpl; congruence).
  f_equal; (induction points as [|p points IH]; [done|]); csimpl; rewrite !filter_cons; simpl;
    case_decide; csimpl; by rewrite ?IH.
Qed.

Lemma clockwise_filter sum k points :
  clockwise sum (filter (other_point k) points) = filter (other_point k) (clockwise sum points).
Proof.
  unfold clockwise. rewrite filter_app.
  f_equal; (induction points as [|p points IH]; [done|]);
    rewrite !filter_cons; repeat case_decide; rewrite ?filter_cons;
    repeat case_decide; rewrite ?IH; done.
Qed.

Lemma elem_of_clockwise sum points p : p ∈ clockwise sum points ↔ p ∈ points.
Proof.
  unfold clockwise. rewrite elem_of_app, !list_elem_of_filter.
  destruct (decide (sum ≤ pt_hash p)); tauto.
Qed.

Lemma filter_index_other selectable k (points : list continuumPoint) :
  filter (fun o => negb (o =? k) && selectable o = true) (pt_endpointIndex <$> points) =
  filter (fun o => selectable o = true) (pt_endpointIndex <$> filter (other_point k) points).
Proof.
  induction points as [|p points IH]; [done|]. csimpl. rewrite !filter_cons.
  assert (Hp : other_point k p ↔ (pt_endpointIndex p =? k) = false).
  { unfold other_point. by rewrite Z.eqb_neq. }
  destruct (pt_endpointIndex p =? k) eqn:E.
  - rewrite (decide_False (P := other_point k p)) by (rewrite Hp; done). by rewrite decide_False.
  - rewrite (decide_True (P := other_point k p)) by (by rewrite Hp). csimpl.
    rewrite filter_cons, IH. done.
Qed.

Section Draining.
Context (xxh64 : string → Z).

Lemma drained_points endpoints k : Forall weight_u32 endpoints →
  Z.of_nat (length endpoints) ≤ 2 ^ 32 → NoDup (we_identity <$> endpoints) →
  (k < length endpoints)%nat → activeShares 0 (drain k endpoints) ≠ [] →
  Z.of_nat (length (activeShares 0 endpoints)) ≤ MaxContinuumPoints →
  uncapped (activeShares 0 endpoints) →
  weightDivisor (activeShares 0 (drain k endpoints)) = weightDivisor (activeShares 0 endpoints) →
  sortContinuumPoints (assignContinuumPoints (activeShares 0 (drain k endpoints))
    ≫= endpointPoints xxh64) =
  filter (other_point (Z.of_nat k)) (sortContinuumPoints
    (assignContinuumPoints (activeShares 0 endpoints) ≫= endpointPoints xxh64)).
Proof.
  intros Hw Hlen Hnd Hk Hne Hm Hun Hdiv. pose proof (activeShares_ok 0 endpoints Hw) as Hok.
  rewrite (activeShares_drain 0 k endpoints) in * by lia. simpl in *.
  rewrite assignContinuumPoints_filter, points_filter by done. apply sort_points_filter.
  assert (Hne' : activeShares 0 endpoints ≠ []) by (intros E; by rewrite E in Hne).
  destruct (assignContinuumPoints_spec _ Hne' Hok Hm) as (Hends & _ & _).
  intros p q (s & Hp & Hs)%list_elem_of_bind (t & Hq & Ht)%list_elem_of_bind Hid Hv.
  apply elem_of_endpointPoints in Hp as (kp & _ & ->).
  apply elem_of_endpointPoints in Hq as (kq & _ & ->). simpl in *. subst kq.
  assert (Hidx : sh_index s = sh_index t); [|by rewrite Hid, Hidx].
  apply list_elem_of_lookup in Hs as [i Hi]. apply list_elem_of_lookup in Ht as [j Hj].
  apply (Forall2_lookup_r _ _ _ _ _ Hends) in Hi as (s0 & Hs0 & -> & His).
  apply (Forall2_lookup_r _ _ _ _ _ Hends) in Hj as (t0 & Ht0 & -> & Hit).
  apply list_elem_of_lookup_2, elem_of_activeShares in Hs0 as (a & ea & Ha & _ & ->).
  apply list_elem_of_lookup_2, elem_of_activeShares in Ht0 as (b & eb & Hb & _ & ->).
  simpl in *. assert (a = b) as ->; [|done].
  eapply NoDup_lookup; [exact Hnd|by rewrite list_lookup_fmap, Ha|].
  rewrite list_lookup_fmap, Hb. simpl. congruence.
Qed.

Lemma head_filter_constant (selectable : Z → bool) d l : l ≠ [] → Forall (.= d) l →
  head (filter (fun o => selectable o = true) l) =
  head (filter (fun o => selectable o = true) [d]).
Proof.
  intros Hne Hl. rewrite filter_cons. destruct (selectable d) eqn:E.
  - destruct Hl as [|x l -> _]; [done|]. by rewrite filter_cons, !decide_True.
  - rewrite decide_False by done. clear Hne. induction Hl as [|x l -> _ IH]; [done|].
    by rewrite filter_cons, decide_False, IH by congruence.
Qed.

(** All the points of the active endpoints, in hash order. *)
Definition continuumPoints (endpoints : list weightedEndpoint) : list continuumPoint :=
  sortContinuumPoints (assignContinuumPoints (activeShares 0 endpoints) ≫= endpointPoints xxh64).

Lemma elem_of_continuumPoints endpoints o : Forall weight_u32 endpoints →
  activeShares 0 endpoints ≠ [] →
  Z.of_nat (length (activeShares 0 endpoints)) ≤ MaxContinuumPoints →
  (∃ p, p ∈ continuumPoints endpoints ∧ o = pt_endpointIndex p) ↔
  o ∈ sh_index <$> activeShares 0 endpoints.
Proof.
  intros Hw Hne Hm. pose proof (activeShares_ok 0 endpoints Hw) as Hok.
  destruct (assignContinuumPoints_spec _ Hne Hok Hm) as (Hends & Hpos & _).
  rewrite list_elem_of_fmap. unfold continuumPoints.
  setoid_rewrite elem_of_sort_slice. setoid_rewrite list_elem_of_bind. split.
  - intros (p & (s & Hp & Hs) & ->). apply elem_of_endpointPoints in Hp as (k & _ & ->).
    apply list_elem_of_lookup in Hs as [i Hi].
    apply (Forall2_lookup_r _ _ _ _ _ Hends) in Hi as (s0 & Hs0 & Hidx & _).
    exists s0. split; [done|by eapply list_elem_of_lookup_2].
  - intros (s0 & -> & Hs0). apply list_elem_of_lookup in Hs0 as [i Hi].
    apply (Forall2_lookup_l _ _ _ _ _ Hends) in Hi as (s & Hs & Hidx & _).
    exists (mkPoint (continuumPointHash xxh64 (sh_identity s) 0) (sh_identity s) 0 (sh_index s)).
    split; [|done]. exists s. split; [|by eapply list_elem_of_lookup_2].
    apply elem_of_endpointPoints. exists 0. split; [|done].
    rewrite Forall_lookup in Hpos. specialize (Hpos i s Hs). simpl in Hpos. lia.
Qed.

(** A direct continuum selects like the points of its only endpoint would. *)
Lemma selectNext_points endpoints c sum selectable : Forall weight_u32 endpoints →
  Z.of_nat (length endpoints) ≤ 2 ^ 32 → compileContinuum xxh64 endpoints = Ok c →
  chash_selectNext c sum (Z.of_nat (length endpoints)) selectable =
  head (filter (fun o => selectable o = true)
    (pt_endpointIndex <$> clockwise sum (continuumPoints endpoints))).
Proof.
  intros Hw Hlen Hc.
  destruct (compileContinuum_cases _ _ _ Hc) as [(only & Ho & ->)|[Hmany Hm]].
  - assert (Hpts : ∀ o, (∃ p, p ∈ continuumPoints endpoints ∧ o = pt_endpointIndex p) ↔
      o = sh_index only).
    { intros o. rewrite elem_of_continuumPoints, Ho by (rewrite ?Ho; simpl; done).
      csimpl. by rewrite list_elem_of_singleton. }
    rewrite (head_filter_constant _ (sh_index only)).
    + unfold chash_selectNext. simpl. rewrite filter_cons. by destruct (selectable _).
    + intros E%fmap_nil_inv. destruct (proj2 (Hpts _) eq_refl) as (p & Hp & _).
      apply (elem_of_clockwise sum) in Hp. by rewrite E, elem_of_nil in Hp.
    + apply Forall_fmap, Forall_forall. intros p Hp%elem_of_clockwise. apply Hpts. by exists p.
  - destruct (compileContinuum_wf xxh64 endpoints c Hw Hlen Hc) as [[_ E]|Hwf].
    { apply (f_equal length) in E. rewrite length_fmap in E. simpl in E. lia. }
    rewrite (chash_selectNext_successors _ _ _ _ Hwf).
    rewrite compileContinuum_many in Hc by done. injection Hc as <-. by rewrite successors_points.
Qed.

Lemma elem_of_clockwise_ordinals endpoints c sum o : Forall weight_u32 endpoints →
  Z.of_nat (length endpoints) ≤ 2 ^ 32 → compileContinuum xxh64 endpoints = Ok c →
  o ∈ pt_endpointIndex <$> clockwise sum (continuumPoints endpoints) ↔ active_ordinal endpoints o.
Proof.
  intros Hw Hlen Hc.
  assert (activeShares 0 endpoints ≠ [] ∧
    Z.of_nat (length (activeShares 0 endpoints)) ≤ MaxContinuumPoints) as [Hne Hm].
  { destruct (compileContinuum_cases _ _ _ Hc) as [(only & -> & _)|[Hmany Hm]]; [done|].
    split; [|done]. intros E. rewrite E in Hmany. simpl in Hmany. lia. }
  rewrite <-elem_of_active_ordinals, <-elem_of_continuumPoints, list_elem_of_fmap by done.
  setoid_rewrite elem_of_clockwise. split; intros (p & ? & ?); by exists p.
Qed.

(** A compiled continuum keeps the promise of a balancer for every key. *)
Lemma chash_Selector endpoints c sum : Forall weight_u32 endpoints →
  Z.of_nat (length endpoints) ≤ 2 ^ 32 → compileContinuum xxh64 endpoints = Ok c →
  Selector (active_ordinal endpoints) (chash_selectNext c sum (Z.of_nat (length endpoints))).
Proof.
  intros Hw Hlen Hc.
  apply (head_filter_selector _ (pt_endpointIndex <$> clockwise sum (continuumPoints endpoints))).
  - intros o. by eapply elem_of_clockwise_ordinals.
  - intros selectable. by apply selectNext_points.
Qed.

(** ** Properties *)

(** C35: [selectNext] returns the endpoint of the first selectable point
    clockwise from the key, and fails exactly when no endpoint of positive
    weight is selectable; [selectIndex] is the unconditional choice. *)
Theorem chash_selectNext_clockwise endpoints c sum selectable : Forall weight_u32 endpoints →
  Z.of_nat (length endpoints) ≤ 2 ^ 32 → compileContinuum xxh64 endpoints = Ok c →
  let choice := chash_selectNext c sum (Z.of_nat (length endpoints)) selectable in
  choice = head (filter (fun o => selectable o = true)
    (pt_endpointIndex <$> clockwise sum (continuumPoints endpoints))) ∧
  (is_Some choice ↔ ∃ k e, endpoints !! k = Some e ∧ we_weight e ≠ 0 ∧
     selectable (Z.of_nat k) = true) ∧
  (selectable (chash_selectIndex c sum) = true → choice = Some (chash_selectIndex c sum)).
Proof.
  intros Hw Hlen Hc choice.
  assert (Hchoice : choice = head (filter (fun o => selectable o = true)
    (pt_endpointIndex <$> clockwise sum (continuumPoints endpoints)))) by (by apply selectNext_points).
  split; [done|]. split.
  - rewrite Hchoice, head_is_Some.
    assert (Hin : ∀ o, o ∈ pt_endpointIndex <$> clockwise sum (continuumPoints endpoints) ↔
      active_ordinal endpoints o) by (intros o; by eapply elem_of_clockwise_ordinals).
    split.
    + intros Hf. destruct (filter _ _) as [|o l] eqn:E; [done|].
      assert (Ho : o ∈ filter (fun o => selectable o = true)
        (pt_endpointIndex <$> clockwise sum (continuumPoints endpoints))) by (rewrite E; left).
      apply list_elem_of_filter in Ho as [Ho Hl]. apply Hin in Hl as (k & e & ? & ? & ->). by exists k, e.
    + intros (k & e & He & Hwe & Hs) E.
      eapply (filter_nil_not_elem_of _ _ (Z.of_nat k)); [exact E|done|]. apply Hin. by exists k, e.
  - unfold choice, chash_selectIndex, chash_selectNext. destruct (c_hashes c); intros ->; done.
Qed.

(** draining an endpoint moves only the keys it owned: selection from the
    continuum without it is selection from the old continuum with that endpoint
    skipped, as long as the continuum is not capped and the remaining weights
    keep their greatest common divisor. *)
Theorem drain_minimal_disruption endpoints k c c' sum selectable : Forall weight_u32 endpoints →
  Z.of_nat (length endpoints) ≤ 2 ^ 32 → NoDup (we_identity <$> endpoints) →
  (k < length endpoints)%nat →
  compileContinuum xxh64 endpoints = Ok c → compileContinuum xxh64 (drain k endpoints) = Ok c' →
  uncapped (activeShares 0 endpoints) →
  weightDivisor (activeShares 0 (drain k endpoints)) = weightDivisor (activeShares 0 endpoints) →
  chash_selectNext c' sum (Z.of_nat (length endpoints)) selectable =
  chash_selectNext c sum (Z.of_nat (length endpoints))
    (fun o => negb (o =? Z.of_nat k) && selectable o).
Proof.
  intros Hw Hlen Hnd Hk Hc Hc' Hun Hdiv.
  assert (Hlen' : length (drain k endpoints) = length endpoints) by apply length_alter.
  assert (Hw' : Forall weight_u32 (drain k endpoints)).
  { apply Forall_lookup. intros i e. unfold drain. destruct (decide (i = k)) as [->|].
    - rewrite list_lookup_alter_eq. intros (e0 & He0 & ->)%fmap_Some. done.
    - rewrite list_lookup_alter_ne by done. rewrite Forall_lookup in Hw. apply Hw. }
  rewrite <-Hlen' at 1.
  rewrite (selectNext_points _ _ _ _ Hw' ltac:(by rewrite Hlen') Hc').
  rewrite (selectNext_points _ _ _ _ Hw Hlen Hc), filter_index_other, <-clockwise_filter.
  unfold continuumPoints. rewrite drained_points; try done.
  - intros E. unfold compileContinuum in Hc'. by rewrite E in Hc'.
  - destruct (compileContinuum_cases _ _ _ Hc) as [(only & -> & _)|[_ Hm]]; done.
Qed.
End Draining.

(** ** Examples *)

(** A stand-in for the third-party digest. *)
Definition demo_hash (s : string) : Z :=
  foldl (fun h c => Z.lxor (Z.shiftl h 1) (Z.of_N (byte_val c))) 0 (String.list_ascii_of_string s).

Definition demo_endpoints : list weightedEndpoint :=
  [mkWeighted "a" 2; mkWeighted "b" 2; mkWeighted "c" 0].

Definition demo_continuum (endpoints : list weightedEndpoint) : continuum :=
  match compileContinuum demo_hash endpoints with Ok c => c | Err _ => mkContinuum [] [] 0 end.

Example demo_points : length (c_hashes (demo_continuum demo_endpoints)) = 128%nat.
Proof. vm_compute. reflexivity. Qed.

Lemma chash_selectNext_clockwise_witness :
  is_Some (chash_selectNext (demo_continuum demo_endpoints) 12345 3 (fun o => o =? 1)).
Proof.
  apply (chash_selectNext_clockwise demo_hash demo_endpoints (demo_continuum demo_endpoints) 12345
    (fun o => o =? 1)).
  - repeat constructor; vm_compute; congruence.
  - vm_compute. congruence.
  - vm_compute. reflexivity.
  - exists 1%nat, (mkWeighted "b" 2). split; [reflexivity|]. split; [discriminate|reflexivity].
Defined.

Lemma drain_minimal_disruption_witness :
  chash_selectNext (demo_continuum (drain 1 demo_endpoints)) 2 3 (fun _ => true) =
  chash_selectNext (demo_continuum demo_endpoints) 2 3 (fun o => negb (o =? 1) && true).
Proof.
  apply (drain_minimal_disruption demo_hash demo_endpoints 1 (demo_continuum demo_endpoints)
    (demo_continuum (drain 1 demo_endpoints)) 2 (fun _ => true)).
  - repeat constructor; vm_compute; congruence.
  - vm_compute. congruence.
  - apply (bool_decide_unpack (NoDup (we_identity <$> demo_endpoints))). vm_compute. exact I.
  - vm_compute. repeat constructor.
  - vm_compute. reflexivity.
  - vm_compute. reflexivity.
  - vm_compute. congruence.
  - vm_compute. reflexivity.
Defined.
