(* ===== verification/Url.v ===== *)
(** * URLs: [net/url.Parse] (Go 1.26)

    The upstream configuration, its transport profiles and its endpoint
    runtimes parse endpoint URLs with [url.Parse].  This file models that
    function: the fragment and query cuts, the scheme scan, the authority with
    user information, ports and bracketed IPv6 literals, and the percent
    decoding of each part.  Only the presence of the user information is kept,
    since no caller reads more of it. *)

From S2P Require Import Prelude GoStrings NetAddr.
#[local] Open Scope string_scope.
#[local] Open Scope nat_scope.
#[local] Open Scope list_scope.

Record URL := mkURL {
  u_scheme : string;
  u_opaque : string;
  u_user : bool;
  u_host : string;
  u_path : string;
  u_rawPath : string;
  u_rawQuery : string;
  u_fragment : string;
}.

(** ** Percent encoding *)

Inductive encoding := encodePath | encodeUserPassword | encodeHost | encodeZone | encodeFragment.

Definition is_alnum (c : ascii) : bool := is_lower c || is_upper c || is_digit c.

(** Double quote and percent, written by code. *)
Definition dquote : ascii := ascii_of_N 34.
Definition percent25 : string := "%25".

Definition shouldEscape (c : ascii) (mode : encoding) : bool :=
  if is_alnum c then false
  else if match mode with encodeHost | encodeZone => true | _ => false end
          && (contains_byte c "!$&'()*+,;=:[]<>" || Ascii.eqb c dquote) then false
  else if contains_byte c "-_.~" then false
  else if contains_byte c "$&+,/:;=?@" then
    match mode with
    | encodePath => Ascii.eqb c "?"
    | encodeUserPassword => contains_byte c "@/?:"
    | encodeFragment => false
    | _ => true
    end
  else match mode with
       | encodeFragment => negb (contains_byte c "!()*")
       | _ => true
       end.

(** The checks [unescape] makes on one escape and on one plain byte. *)
Definition escape_ok (mode : encoding) (h l : N) : bool :=
  let v := ascii_of_N (16 * h + l) in
  match mode with
  | encodeHost => negb (h <? 8)%N || Ascii.eqb v "%"
  | encodeZone => Ascii.eqb v "%" || Ascii.eqb v " " || negb (shouldEscape v encodeHost)
  | _ => true
  end.

Definition plain_ok (mode : encoding) (c : ascii) : bool :=
  match mode with
  | encodeHost | encodeZone => negb (is_ascii_byte c && shouldEscape c mode)
  | _ => true
  end.

Fixpoint unescape (mode : encoding) (s : string) : option string :=
  match s with
  | EmptyString => Some EmptyString
  | String "%" (String h (String l s)) =>
      match unhex h, unhex l with
      | Some h, Some l =>
          if escape_ok mode h l then String (ascii_of_N (16 * h + l)) <$> unescape mode s else None
      | _, _ => None
      end
  | String "%" _ => None
  | String c s => if plain_ok mode c then String c <$> unescape mode s else None
  end.

Definition upper_hex (n : N) : ascii :=
  if (n <? 10)%N then ascii_of_N (48 + n) else ascii_of_N (55 + n).

Fixpoint escape (mode : encoding) (s : string) : string :=
  match s with
  | EmptyString => EmptyString
  | String c s =>
      if shouldEscape c mode then
        String "%" (String (upper_hex (byte_val c / 16)) (String (upper_hex (byte_val c mod 16))
          (escape mode s)))
      else String c (escape mode s)
  end.

(** ** Scheme, host and authority *)

(** [getScheme]: scheme and rest, [None] for a missing scheme before the colon. *)
Fixpoint schemeEnd (whole s : string) (i : nat) : option (string * string) :=
  match s with
  | EmptyString => Some ("", whole)
  | String c s =>
      if is_lower c || is_upper c then schemeEnd whole s (S i)
      else if is_digit c || contains_byte c "+-." then
        if i =? 0 then Some ("", whole) else schemeEnd whole s (S i)
      else if Ascii.eqb c ":" then if i =? 0 then None else Some (stake i whole, s)
      else Some ("", whole)
  end.

Definition getScheme (rawURL : string) : option (string * string) := schemeEnd rawURL rawURL 0.

Definition validOptionalPort (port : string) : bool :=
  match port with
  | EmptyString => true
  | String ":" digits => string_forallb is_digit digits
  | _ => false
  end.

(** [strings.Index] for a substring. *)
Definition index_string (pat s : string) : option nat := String.index 0 pat s.

Definition parseBracketed (host : string) : option string :=
  close ← last_index_byte "]" host;
  let colonPort := sdrop (S close) host in
  if negb (validOptionalPort colonPort) then None
  else
    port ← unescape encodeHost colonPort;
    let hostname := slice host 1 close in
    name ← match index_string percent25 hostname with
           | Some zone =>
               hostPart ← unescape encodeHost (stake zone hostname);
               zonePart ← unescape encodeZone (sdrop zone hostname);
               Some (hostPart +:+ zonePart)
           | None => unescape encodeHost hostname
           end;
    match parse_addr name with
    | Some (Addr6 _ _) => Some ("[" +:+ name +:+ "]" +:+ port)
    | _ => None
    end.

Definition parseHost (scheme host : string) : option string :=
  match last_index_byte "[" host with
  | Some (S _) => None
  | Some 0 => parseBracketed host
  | None =>
      let strict := String.eqb scheme "http" || String.eqb scheme "https" in
      let colon := if strict then index_byte ":" host else last_index_byte ":" host in
      match colon with
      | Some i =>
          if validOptionalPort (sdrop i host) then unescape encodeHost host else None
      | None => unescape encodeHost host
      end
  end.

Definition validUserinfo (s : string) : bool :=
  string_forallb (fun c => is_alnum c || contains_byte c "-._:~!$&'()*+,;=%@") s.

Definition userinfo_ok (userinfo : string) : bool :=
  validUserinfo userinfo &&
  let '(username, password, _) := cut_byte ":" userinfo in
  bool_decide (is_Some (unescape encodeUserPassword username)) &&
  bool_decide (is_Some (unescape encodeUserPassword password)).

Definition parseAuthority (scheme authority : string) : option (bool * string) :=
  match last_index_byte "@" authority with
  | None => host ← parseHost scheme authority; Some (false, host)
  | Some i =>
      host ← parseHost scheme (sdrop (S i) authority);
      if userinfo_ok (stake i authority) then Some (true, host) else None
  end.

(** ** [parse] and [Parse] *)

Definition is_ctl (c : ascii) : bool := (byte_val c <? 32)%N || (byte_val c =? 127)%N.

Definition cutQuery (rest : string) : string * string :=
  if has_suffix rest "?" && (count_byte "?" rest =? 1)
  then (stake (String.length rest - 1) rest, "")
  else let '(path, query, _) := cut_byte "?" rest in (path, query).

Definition setPath (u : URL) (p : string) : option URL :=
  path ← unescape encodePath p;
  let rawPath := if String.eqb p (escape encodePath path) then "" else p in
  Some (mkURL (u_scheme u) (u_opaque u) (u_user u) (u_host u) path rawPath (u_rawQuery u)
          (u_fragment u)).

Definition parseHierarchy (scheme query rest : string) : option URL :=
  let base user host := mkURL scheme "" user host "" "" query "" in
  if (negb (String.eqb scheme "") || negb (has_prefix rest "///")) && has_prefix rest "//" then
    let authority := sdrop 2 rest in
    let i := default (String.length authority) (index_byte "/" authority) in
    '(user, host) ← parseAuthority scheme (stake i authority);
    setPath (base user host) (sdrop i authority)
  else setPath (base false "") rest.

Definition parse (rawURL : string) : option URL :=
  if negb (string_forallb (fun c => negb (is_ctl c)) rawURL) then None
  else if String.eqb rawURL "*" then Some (mkURL "" "" false "" "*" "" "" "")
  else
    '(scheme, rest) ← getScheme rawURL;
    let scheme := to_lower_ascii scheme in
    let '(rest, query) := cutQuery rest in
    if has_prefix rest "/" then parseHierarchy scheme query rest
    else if negb (String.eqb scheme "") then Some (mkURL scheme rest false "" "" "" query "")
    else let '(segment, _, _) := cut_byte "/" rest in
         if contains_byte ":" segment then None else parseHierarchy scheme query rest.

Definition url_Parse (rawURL : string) : option URL :=
  let '(u, frag, _) := cut_byte "#" rawURL in
  url ← parse u;
  if String.eqb frag "" then Some url
  else
    fragment ← unescape encodeFragment frag;
    Some (mkURL (u_scheme url) (u_opaque url) (u_user url) (u_host url) (u_path url)
            (u_rawPath url) (u_rawQuery url) fragment).

(** [URL.Hostname] and [URL.Port] *)
Definition url_splitHostPort (hostPort : string) : string * string :=
  let '(host, port) :=
    match last_index_byte ":" hostPort with
    | Some colon =>
        if validOptionalPort (sdrop colon hostPort)
        then (stake colon hostPort, sdrop (S colon) hostPort) else (hostPort, "")
    | None => (hostPort, "")
    end in
  if has_prefix host "[" && has_suffix host "]"
  then (slice host 1 (String.length host - 1), port) else (host, port).

Definition url_Hostname (u : URL) : string := (url_splitHostPort (u_host u)).1.
Definition url_Port (u : URL) : string := (url_splitHostPort (u_host u)).2.

(** ** The scheme of a parsed URL *)

Definition http_scheme (scheme : string) : Prop := scheme = "http" ∨ scheme = "https".

Lemma setPath_scheme u p u' : setPath u p = Some u' → u_scheme u' = u_scheme u.
Proof. unfold setPath. destruct (unescape encodePath p); simpl; [|done]. by intros [= <-]. Qed.

Lemma parseHierarchy_scheme scheme query rest u :
  parseHierarchy scheme query rest = Some u → u_scheme u = scheme.
Proof.
  unfold parseHierarchy. destruct (_ && _).
  - destruct (parseAuthority _ _) as [[user host]|]; [|done]. apply setPath_scheme.
  - apply setPath_scheme.
Qed.

Lemma parse_scheme scheme rest u : http_scheme scheme →
  parse (scheme +:+ "://" +:+ rest) = Some u → u_scheme u = scheme.
Proof.
  intros Hs. unfold parse. destruct (negb _); [done|].
  assert (Hg : getScheme (scheme +:+ "://" +:+ rest) = Some (scheme, "//" +:+ rest)) by (by destruct Hs as [-> | ->]).
  rewrite Hg. replace (String.eqb (scheme +:+ "://" +:+ rest) "*") with false by (by destruct Hs as [-> | ->]).
  simpl. replace (to_lower_ascii scheme) with scheme by (by destruct Hs as [-> | ->]).
  destruct (cutQuery _) as [rest' query]. destruct (has_prefix rest' "/"); [apply parseHierarchy_scheme|].
  replace (String.eqb scheme "") with false by (by destruct Hs as [-> | ->]). simpl. by intros [= <-].
Qed.

Lemma url_Parse_scheme scheme rest u : http_scheme scheme →
  url_Parse (scheme +:+ "://" +:+ rest) = Some u → u_scheme u = scheme.
Proof.
  intros Hs. unfold url_Parse.
  assert (Hcut : ∃ rest' frag found, cut_byte "#" (scheme +:+ "://" +:+ rest) =
    (scheme +:+ "://" +:+ rest', frag, found)).
  { unfold cut_byte. destruct Hs as [-> | ->]; simpl; destruct (index_byte "#" rest); simpl; eauto. }
  destruct Hcut as (rest' & frag & found & ->).
  destruct (parse _) as [v|] eqn:Hp; [|done]. apply parse_scheme in Hp; [|done]. simpl.
  destruct (String.eqb frag ""); [by intros [= <-]|].
  destruct (unescape encodeFragment frag); simpl; [|done]. by intros [= <-].
Qed.

Example url_Parse_endpoint :
  url_Parse "HTTP://api.example.com:8080/" =
  Some (mkURL "http" "" false "api.example.com:8080" "/" "" "" "").
Proof. vm_compute. reflexivity. Qed.

Example url_Parse_ipv6 :
  u_host <$> url_Parse "https://[::1]:443" = Some "[::1]:443".
Proof. vm_compute. reflexivity. Qed.

Example url_Parse_colons : url_Parse "http://::1/" = None.
Proof. vm_compute. reflexivity. Qed.
