(* ===== verification/Duration.v ===== *)
(** * Durations: [time.ParseDuration] (Go 1.26)

    Configuration files write durations as decimal numbers with units. The
    parser accumulates an unsigned 64-bit number of nanoseconds with explicit
    overflow checks and computes fractions in double precision; both are
    modelled, with the IEEE 754 operations of [SpecFloat]. *)

From Stdlib Require Import Floats.SpecFloat.
From S2P Require Import Prelude GoStrings.
#[local] Open Scope string_scope.
#[local] Open Scope Z_scope.
#[local] Open Scope list_scope.

(** ** [float64] *)

Definition float64 := spec_float.
Definition float_of_Z (x : Z) : float64 := binary_normalize 53 1024 x 0 false.
Definition float_mul : float64 → float64 → float64 := SFmul 53 1024.
Definition float_div : float64 → float64 → float64 := SFdiv 53 1024.

(** Conversion of a non-negative finite value to [uint64], truncating. *)
Definition uint64_of_float (x : float64) : Z :=
  match x with
  | S754_finite false m e => if 0 <=? e then wrap64 (Z.pos m * 2 ^ e) else Z.pos m / 2 ^ (- e)
  | _ => 0
  end.

(** ** Scanning *)

Definition digit_val (c : ascii) : Z := Z.of_N (byte_val c) - 48.

(** [leadingInt]; [None] is its overflow error. *)
Fixpoint leadingInt (x : Z) (s : string) : option (Z * string) :=
  match s with
  | EmptyString => Some (x, s)
  | String c rest =>
    if negb (is_digit c) then Some (x, s)
    else if 2 ^ 63 / 10 <? x then None
    else
      let x := x * 10 + digit_val c in
      if 2 ^ 63 <? x then None else leadingInt x rest
  end.

Fixpoint leadingFraction (x : Z) (scale : float64) (overflow : bool) (s : string) : Z * float64 * string :=
  match s with
  | EmptyString => (x, scale, s)
  | String c rest =>
    if negb (is_digit c) then (x, scale, s)
    else if overflow then leadingFraction x scale true rest
    else if (2 ^ 63 - 1) / 10 <? x then leadingFraction x scale true rest
    else
      let y := x * 10 + digit_val c in
      if 2 ^ 63 <? y then leadingFraction x scale true rest
      else leadingFraction y (float_mul scale (float_of_Z 10)) false rest
  end.

(** The unit in front of the next digit or period, and the rest. *)
Fixpoint takeUnit (s : string) : string * string :=
  match s with
  | EmptyString => ("", "")
  | String c rest =>
    if Ascii.eqb c "." || is_digit c then ("", s)
    else let '(u, rest) := takeUnit rest in (String c u, rest)
  end.

(** The micro sign and the Greek letter mu in UTF-8. *)
Definition micro_sign : string := String (ascii_of_nat 194) (String (ascii_of_nat 181) "s").
Definition greek_mu : string := String (ascii_of_nat 206) (String (ascii_of_nat 188) "s").

Definition unitMap (u : string) : option Z :=
  if String.eqb u "ns" then Some 1
  else if String.eqb u "us" || String.eqb u micro_sign || String.eqb u greek_mu then Some 1000
  else if String.eqb u "ms" then Some 1000000
  else if String.eqb u "s" then Some 1000000000
  else if String.eqb u "m" then Some 60000000000
  else if String.eqb u "h" then Some 3600000000000
  else None.

(** One number with its unit: its nanoseconds and the rest of the string. *)
Definition parseTerm (s : string) : option (Z * string) :=
  match s with
  | EmptyString => None
  | String c _ =>
    if negb (Ascii.eqb c "." || is_digit c) then None
    else
      '(v, s1) ← leadingInt 0 s;
      let pre := negb (Nat.eqb (String.length s) (String.length s1)) in
      let '(f, scale, s2, post) :=
        match s1 with
        | String "." s' => let '(f, scale, s2) := leadingFraction 0 (float_of_Z 1) false s' in
            (f, scale, s2, negb (Nat.eqb (String.length s') (String.length s2)))
        | _ => (0, float_of_Z 1, s1, false)
        end in
      if negb pre && negb post then None
      else
        let '(u, rest) := takeUnit s2 in
        if String.eqb u "" then None
        else
          unit ← unitMap u;
          if 2 ^ 63 / unit <? v then None
          else
            let v := v * unit in
            if 0 <? f then
              let v := wrap64 (v + uint64_of_float (float_mul (float_of_Z f) (float_div (float_of_Z unit) scale))) in
              if 2 ^ 63 <? v then None else Some (v, rest)
            else Some (v, rest)
  end.

Fixpoint parseTerms (fuel : nat) (d : Z) (s : string) : option Z :=
  match s, fuel with
  | EmptyString, _ => Some d
  | _, O => None
  | _, S fuel =>
    '(v, rest) ← parseTerm s;
    let d := wrap64 (d + v) in
    if 2 ^ 63 <? d then None else parseTerms fuel d rest
  end.

Definition ParseDuration (s : string) : option Z :=
  let '(neg, s) := match s with
    | String "-" s => (true, s)
    | String "+" s => (false, s)
    | _ => (false, s)
    end in
  if String.eqb s "0" then Some 0
  else if String.eqb s "" then None
  else
    d ← parseTerms (String.length s) 0 s;
    if neg then Some (- d) else if 2 ^ 63 - 1 <? d then None else Some d.

Example parse_5s : ParseDuration "5s" = Some 5000000000.
Proof. vm_compute. reflexivity. Qed.
Example parse_mixed : ParseDuration "-1h1.5m250.0005ms" = Some (-3690250000500).
Proof. vm_compute. reflexivity. Qed.
Example parse_largest : ParseDuration "2562047h47m16.854775807s" = Some (2 ^ 63 - 1).
Proof. vm_compute. reflexivity. Qed.
Example parse_overflow : ParseDuration "2562047h47m16.854775808s" = None.
Proof. vm_compute. reflexivity. Qed.
Example parse_rejects : ParseDuration <$> ["1"; ""; "+"; ".s"; "1x"; "5 s"] = [None; None; None; None; None; None].
Proof. vm_compute. reflexivity. Qed.

(** ** Bounds *)

Lemma leadingInt_shrinks s : ∀ x y rest, leadingInt x s = Some (y, rest) → (String.length rest ≤ String.length s)%nat.
Proof.
  induction s as [|c s IH]; intros x y rest; simpl; [by intros [= _ <-]|]. destruct (negb _); [by intros [= _ <-]|].
  destruct (_ <? _); [done|]. destruct (_ <? _); [done|]. intros H%IH. lia.
Qed.

Lemma leadingFraction_shrinks s : ∀ x scale overflow y scale' rest, leadingFraction x scale overflow s = (y, scale', rest) →
  (String.length rest ≤ String.length s)%nat.
Proof.
  induction s as [|c s IH]; intros x scale overflow y scale' rest; simpl; [by intros [= _ _ <-]|].
  destruct (negb _); [by intros [= _ _ <-]|]. destruct overflow; [intros H%IH; lia|].
  destruct (_ <? _); [intros H%IH; lia|]. destruct (_ <? _); intros H%IH; lia.
Qed.

Lemma takeUnit_shrinks s : ∀ u rest, takeUnit s = (u, rest) → (String.length u + String.length rest = String.length s)%nat.
Proof.
  induction s as [|c s IH]; intros u rest; simpl; [by intros [= <- <-]|]. destruct (_ || _); [by intros [= <- <-]|].
  destruct (takeUnit s) as [u' rest'] eqn:E. intros [= <- <-]. specialize (IH _ _ eq_refl). simpl. lia.
Qed.

Lemma leadingInt_range s : ∀ x y rest, 0 ≤ x → leadingInt x s = Some (y, rest) → 0 ≤ y.
Proof.
  induction s as [|c s IH]; intros x y rest Hx; simpl; [by intros [= <- _]|].
  destruct (is_digit c) eqn:Hc; simpl; [|by intros [= <- _]]. destruct (_ <? _); [done|]. destruct (_ <? _); [done|].
  apply IH. unfold digit_val. unfold is_digit, byte_between in Hc. bool_hyps.
  match goal with H : N.leb _ (byte_val c) = true |- _ => apply N.leb_le in H; change (byte_val "0") with 48%N in H end. lia.
Qed.

Lemma unitMap_pos u unit : unitMap u = Some unit → 0 < unit.
Proof. unfold unitMap. repeat (destruct (_ : bool); [intros [= <-]; lia|]). done. Qed.

(** A term is at most 2^63 nanoseconds and consumes some of its input. *)
Lemma parseTerm_ok s v rest : parseTerm s = Some (v, rest) → 0 ≤ v ≤ 2 ^ 63 ∧ (String.length rest < String.length s)%nat.
Proof.
  destruct s as [|c s]; [done|]. unfold parseTerm. destruct (negb _); [done|].
  destruct (leadingInt 0 (String c s)) as [[v0 s1]|] eqn:Ei; [|done]. simpl mbind. unfold option_bind.
  pose proof (leadingInt_shrinks _ _ _ _ Ei) as Hs1. apply leadingInt_range in Ei as Hv0; [|lia].
  set (fraction := match s1 with String "." _ => _ | _ => _ end).
  assert (Hf : ∀ f scale s2 post, fraction = (f, scale, s2, post) → (String.length s2 ≤ String.length s1)%nat).
  { subst fraction. intros f scale s2 post. assert (Hid : (0, float_of_Z 1, s1, false) = (f, scale, s2, post) → (String.length s2 ≤ String.length s1)%nat) by (by intros [= _ _ <- _]).
    destruct s1 as [|c1 s1]; [exact Hid|]. destruct (decide (c1 = "."%char)) as [->|Hne].
    - destruct (leadingFraction _ _ _ s1) as [[f0 sc0] s0] eqn:Ef. apply leadingFraction_shrinks in Ef. intros [= _ _ <- _]. simpl. lia.
    - destruct c1 as [[] [] [] [] [] [] [] []]; first [exact Hid|done]. }
  destruct fraction as [[[f scale] s2] post]. specialize (Hf _ _ _ _ eq_refl). destruct (_ && _); [done|].
  destruct (takeUnit s2) as [u rest0] eqn:Eu. apply takeUnit_shrinks in Eu. destruct (String.eqb_spec u "") as [|Hu]; [done|].
  assert (0 < String.length u)%nat by (destruct u; [done|simpl; lia]).
  destruct (unitMap u) as [unit|] eqn:Em; [cbn [mbind option_bind]|done]. apply unitMap_pos in Em. destruct (Z.ltb_spec (2 ^ 63 / unit) v0) as [|Hle]; [done|].
  assert (v0 * unit ≤ 2 ^ 63).
  { etransitivity; [apply Z.mul_le_mono_nonneg_r; [lia|exact Hle]|]. rewrite Z.mul_comm. apply Z.mul_div_le. lia. }
  destruct (0 <? f).
  - destruct (Z.ltb_spec (2 ^ 63) (wrap64 (v0 * unit + uint64_of_float (float_mul (float_of_Z f) (float_div (float_of_Z unit) scale))))) as [|Hw]; [done|].
    intros [= <- <-]. pose proof (wrap64_range (v0 * unit + uint64_of_float (float_mul (float_of_Z f) (float_div (float_of_Z unit) scale)))).
    split; [lia|]. simpl in *. lia.
  - intros [= <- <-]. split; [nia|]. simpl in *. lia.
Qed.

(** The fuel of [ParseDuration] suffices: more does not change the result. *)
Lemma parseTerms_fuel fuel : ∀ d s, (String.length s ≤ fuel)%nat → parseTerms fuel d s = parseTerms (String.length s) d s.
Proof.
  assert (Hmono : ∀ n m d s, (String.length s ≤ n)%nat → (String.length s ≤ m)%nat → parseTerms n d s = parseTerms m d s).
  { induction n as [|n IH]; intros m d s Hn Hm; (destruct s as [|c s]; [by destruct m|]); [simpl in Hn; lia|].
    destruct m as [|m]; [simpl in Hm; lia|]. cbn [parseTerms]. destruct (parseTerm (String c s)) as [[v rest]|] eqn:E; [|done].
    apply parseTerm_ok in E as [_ E]. simpl. destruct (_ <? _); [done|]. apply IH; simpl in *; lia. }
  intros d s Hs. by apply Hmono.
Qed.

Lemma parseTerms_range fuel : ∀ d s r, 0 ≤ d ≤ 2 ^ 63 → parseTerms fuel d s = Some r → 0 ≤ r ≤ 2 ^ 63.
Proof.
  induction fuel as [|fuel IH]; intros d s r Hd; (destruct s as [|c s]; [by intros [= <-]|]); [done|].
  cbn [parseTerms]. destruct (parseTerm (String c s)) as [[v rest]|]; [|done]. simpl. destruct (Z.ltb_spec (2 ^ 63) (wrap64 (d + v))); [done|].
  apply IH. pose proof (wrap64_range (d + v)). lia.
Qed.

(** A parsed duration is a 64-bit integer. *)
Lemma ParseDuration_range s d : ParseDuration s = Some d → - 2 ^ 63 ≤ d < 2 ^ 63.
Proof.
  unfold ParseDuration. destruct (match s with String "-" s => _ | _ => _ end) as [neg t]. destruct (String.eqb t "0"); [intros [= <-]; lia|].
  destruct (String.eqb t ""); [done|]. destruct (parseTerms _ 0 t) as [r|] eqn:E; [|done]. simpl. apply parseTerms_range in E; [|lia].
  destruct neg; [intros [= <-]; lia|]. destruct (Z.ltb_spec (2 ^ 63 - 1) r); [done|]. intros [= <-]. lia.
Qed.
