(* ===== verification/DurationText.v ===== *)
(** * Durations as text: [time.Duration.String] (Go 1.26)

    The renderer of benchmark configurations writes durations with
    [Duration.String]; the loader reads them with [time.ParseDuration]. Reading
    what was written gives the duration back, for every 64-bit duration: the
    fractions written have few enough digits that the double-precision
    arithmetic of the parser is exact on them. *)

From Stdlib Require Import Floats.SpecFloat.
From S2P Require Import Prelude GoStrings NetAddr Decimal Duration.
#[local] Open Scope string_scope.
#[local] Open Scope Z_scope.
#[local] Open Scope list_scope.

(** [fmtFrac], in front of [out]: the digits without trailing zeros and the
    point, and the integral part. *)
Fixpoint fracDigits (prec : nat) (v : Z) (print : bool) (out : string) : string * Z * bool :=
  match prec with
  | O => (out, v, print)
  | S prec =>
    let digit := v mod 10 in
    let print := print || negb (digit =? 0) in
    fracDigits prec (v / 10) print (if print then pretty digit +:+ out else out)
  end.

Definition fmtFrac (prec : nat) (v : Z) (out : string) : string * Z :=
  let '(out, v, print) := fracDigits prec v false out in (if (print : bool) then "." +:+ out else out, v).

(** [fmtInt] *)
Definition fmtInt (v : Z) (out : string) : string := pretty v +:+ out.

(** [format] of the magnitude. *)
Definition format_magnitude (u : Z) : string :=
  if u <? 1000000000 then
    if u =? 0 then "0s"
    else
      let '(prec, unit) :=
        if u <? 1000 then (0%nat, "ns") else if u <? 1000000 then (3%nat, micro_sign) else (6%nat, "ms") in
      let '(out, u) := fmtFrac prec u unit in
      fmtInt u out
  else
    let '(out, u) := fmtFrac 9 u "s" in
    let out := fmtInt (u mod 60) out in
    let u := u / 60 in
    if 0 <? u then
      let out := fmtInt (u mod 60) ("m" +:+ out) in
      let u := u / 60 in
      if 0 <? u then fmtInt u ("h" +:+ out) else out
    else out.

Definition Duration_String (d : Z) : string :=
  if d <? 0 then "-" +:+ format_magnitude (- d) else format_magnitude d.

Example string_examples :
  Duration_String <$> [0; 3 * 10 ^ 9; 90 * 10 ^ 9; 1500; 250000500; -1; - 2 ^ 63; 2 ^ 63 - 1] =
  ["0s"; "3s"; "1m30s"; "1.5" +:+ micro_sign; "250.0005ms"; "-1ns"; "-2562047h47m16.854775808s"; "2562047h47m16.854775807s"].
Proof. vm_compute. reflexivity. Qed.

(** ** Exact products in double precision *)

Lemma digits2_pos_size p : digits2_pos p = Pos.size p.
Proof. induction p as [p IH|p IH|]; simpl; by rewrite ?IH. Qed.

Definition digits (x : Z) : Z := Z.log2 x + 1.

Lemma digits_pos p : Z.pos (digits2_pos p) = digits (Z.pos p).
Proof. rewrite digits2_pos_size. unfold digits. destruct p; simpl; lia. Qed.

Lemma digits_shift x k : 0 < x → 0 ≤ k → digits (x * 2 ^ k) = digits x + k.
Proof. intros Hx Hk. unfold digits. rewrite Z.log2_mul_pow2 by lia. lia. Qed.

Lemma digits_bound x : 0 < x < 2 ^ 53 → 1 ≤ digits x ≤ 53.
Proof. intros [Hx Hb]. unfold digits. pose proof (Z.log2_nonneg x). apply Z.log2_lt_pow2 in Hb; lia. Qed.

Definition exact_record (m : Z) : shr_record := Build_shr_record m false false.

Lemma iter_pos_nat {A} (f : A → A) p x : SpecFloat.iter_pos f p x = Nat.iter (Pos.to_nat p) f x.
Proof.
  revert x. induction p as [p IH|p IH|]; intros x; cbn [SpecFloat.iter_pos]; rewrite ?IH; [..|done].
  - by rewrite <-Nat.iter_add, <-Nat.iter_succ_r, Pos2Nat.inj_xI; f_equal; lia.
  - by rewrite <-Nat.iter_add, Pos2Nat.inj_xO; f_equal; lia.
Qed.

Lemma shr_1_even m : 0 < m → shr_1 (exact_record (m * 2)) = exact_record m.
Proof. destruct m as [|p|]; [lia| |lia]. intros _. by rewrite Z.mul_comm. Qed.

Lemma shr_exact n m : 0 < m → Nat.iter n shr_1 (exact_record (m * 2 ^ Z.of_nat n)) = exact_record m.
Proof.
  intros Hm. revert m Hm. induction n as [|n IH]; intros m Hm; [simpl; by rewrite Z.mul_1_r|].
  rewrite Nat2Z.inj_succ, Z.pow_succ_r, Z.mul_assoc by lia. rewrite Nat.iter_succ, IH by lia. by apply shr_1_even.
Qed.

Lemma shr_pow2 m e n : 0 < m → 0 ≤ n → shr (exact_record (m * 2 ^ n)) e n = (exact_record m, e + n).
Proof.
  intros Hm Hn. destruct n as [|p|]; [by rewrite Z.mul_1_r, Z.add_0_r| |lia]. unfold shr. f_equal.
  rewrite iter_pos_nat. rewrite <-(positive_nat_Z p). by apply shr_exact.
Qed.

(** The float with the value of an integer that has at most 53 digits. *)
Definition exact_float (x : Z) : float64 := S754_finite false (Z.to_pos (x * 2 ^ (53 - digits x))) (digits x - 53).

Lemma Zdigits2_digits x : 0 < x → Zdigits2 x = digits x.
Proof. destruct x as [|p|]; [lia| |lia]. intros _. apply digits_pos. Qed.

Lemma fexp_small d : 1 ≤ d ≤ 53 → fexp 53 1024 d = d - 53.
Proof. intros Hd. unfold fexp, emin. lia. Qed.

Lemma shr_fexp_exact x k : 0 < x < 2 ^ 53 → 53 - digits x ≤ k →
  shr_fexp 53 1024 (x * 2 ^ k) (- k) loc_Exact = (exact_record (x * 2 ^ (53 - digits x)), digits x - 53).
Proof.
  intros Hx Hk. pose proof (digits_bound x Hx) as Hd. assert (0 < 2 ^ k) by (apply Z.pow_pos_nonneg; lia).
  unfold shr_fexp. rewrite Zdigits2_digits, digits_shift by nia. replace (digits x + k + - k) with (digits x) by lia.
  rewrite fexp_small by done. change (shr_record_of_loc (x * 2 ^ k) loc_Exact) with (exact_record (x * 2 ^ k)).
  replace (x * 2 ^ k) with (x * 2 ^ (53 - digits x) * 2 ^ (digits x - 53 - - k)).
  2:{ rewrite <-Z.mul_assoc, <-Z.pow_add_r by lia. do 2 f_equal. lia. }
  rewrite shr_pow2; [f_equal; lia| |lia]. apply Z.mul_pos_pos; [lia|]. apply Z.pow_pos_nonneg; lia.
Qed.

Lemma round_exact x k : 0 < x < 2 ^ 53 → 53 - digits x ≤ k →
  binary_round_aux 53 1024 false (x * 2 ^ k) (- k) loc_Exact = exact_float x.
Proof.
  intros Hx Hk. pose proof (digits_bound x Hx) as Hd. unfold binary_round_aux. rewrite shr_fexp_exact by done. cbv zeta beta iota.
  change (round_nearest_even (shr_m (exact_record (x * 2 ^ (53 - digits x)))) (loc_of_shr_record (exact_record (x * 2 ^ (53 - digits x)))))
    with (x * 2 ^ (53 - digits x)).
  replace (digits x - 53) with (- (53 - digits x)) by lia. rewrite shr_fexp_exact by lia.
  assert (0 < x * 2 ^ (53 - digits x)) as Hp by (apply Z.mul_pos_pos; [lia|apply Z.pow_pos_nonneg; lia]).
  unfold exact_float. cbn [shr_m exact_record]. destruct (x * 2 ^ (53 - digits x)) as [|m|]; [lia| |lia].
  replace (digits x - 53 <=? 1024 - 53) with true; [done|]. symmetry. apply Z.leb_le. lia.
Qed.

Lemma iter_xO p n : Z.pos (Pos.iter xO p n) = Z.pos p * 2 ^ Z.pos n.
Proof.
  revert p. induction n as [|n IH] using Pos.peano_ind; intros p; [simpl; lia|].
  rewrite Pos.iter_succ, Pos2Z.inj_xO, IH, Pos2Z.inj_succ, Z.pow_succ_r by lia. lia.
Qed.

Lemma float_of_Z_exact x : 0 < x < 2 ^ 53 → float_of_Z x = exact_float x.
Proof.
  intros Hx. pose proof (digits_bound x Hx) as Hd. pose proof (round_exact x (53 - digits x) Hx ltac:(lia)) as Hr.
  unfold float_of_Z, binary_normalize. destruct x as [|p|]; [lia| |lia]. unfold binary_round, shl_align.
  rewrite digits_pos, Z.add_0_r, fexp_small by done.
  destruct (digits (Z.pos p) - 53 - 0) as [|q|q] eqn:Hq; [| lia |].
  - rewrite <-Hr. replace (53 - digits (Z.pos p)) with 0 by lia. by rewrite Z.mul_1_r.
  - rewrite iter_xO, <-Hr. replace (53 - digits (Z.pos p)) with (Z.pos q) by lia. f_equal. lia.
Qed.

(** A product of integers below 2^53 is exact. *)
Lemma float_mul_exact x y : 0 < x → 0 < y → x * y < 2 ^ 53 → float_mul (float_of_Z x) (float_of_Z y) = exact_float (x * y).
Proof.
  intros Hx Hy Hxy. assert (x < 2 ^ 53 ∧ y < 2 ^ 53) as [Hx' Hy'] by nia.
  pose proof (digits_bound x ltac:(lia)) as Hdx. pose proof (digits_bound y ltac:(lia)) as Hdy.
  assert (Hd : digits (x * y) ≤ digits x + digits y).
  { unfold digits. pose proof (Z.log2_mul_above x y ltac:(lia) ltac:(lia)). lia. }
  assert (Hd' : digits x + digits y - 1 ≤ digits (x * y)).
  { unfold digits. pose proof (Z.log2_mul_below x y ltac:(lia) ltac:(lia)). lia. }
  rewrite !float_of_Z_exact by lia. unfold float_mul, SFmul, exact_float at 1 2. cbn [xorb].
  rewrite <-(round_exact (x * y) (106 - digits x - digits y)) by lia. f_equal; [|lia].
  rewrite Pos2Z.inj_mul, !Z2Pos.id by (apply Z.mul_pos_pos; [lia|apply Z.pow_pos_nonneg; lia]).
  replace (106 - digits x - digits y) with ((53 - digits x) + (53 - digits y)) by lia. rewrite Z.pow_add_r by lia. lia.
Qed.

Lemma uint64_exact x : 0 < x < 2 ^ 53 → uint64_of_float (exact_float x) = x.
Proof.
  intros Hx. pose proof (digits_bound x Hx) as Hd. unfold uint64_of_float, exact_float.
  assert (0 < 2 ^ (53 - digits x)) by (apply Z.pow_pos_nonneg; lia).
  destruct (Z.leb_spec 0 (digits x - 53)) as [Hz|Hz].
  - replace (53 - digits x) with 0 by lia. replace (digits x - 53) with 0 by lia. rewrite !Z.mul_1_r, Z2Pos.id by lia.
    unfold wrap64. apply Z.mod_small. lia.
  - rewrite Z2Pos.id by nia. replace (- (digits x - 53)) with (53 - digits x) by lia. apply Z.div_mul. lia.
Qed.

(** ** Reading digits back *)

(** Nothing, or a byte that is not a digit, comes first. *)
Definition no_digit (t : string) : bool := match t with String c _ => negb (is_digit c) | EmptyString => true end.

Lemma decimal_digits_app a s t : decimal_digits a (s +:+ t) = decimal_digits a s ≫= fun x => decimal_digits x t.
Proof. revert a. induction s as [|c s IH]; intros a; simpl; [done|]. destruct (is_digit c); [apply IH|done]. Qed.

Lemma digit_val_range c : is_digit c = true → 0 ≤ digit_val c ≤ 9.
Proof. destruct c as [[] [] [] [] [] [] [] []]; vm_compute; intros; split; discriminate. Qed.

Lemma decimal_digits_ge s : ∀ x y, 0 ≤ x → decimal_digits x s = Some y → x ≤ y.
Proof.
  induction s as [|c s IH]; intros x y Hx; simpl; [by intros [= <-]|]. destruct (is_digit c) eqn:Hc; [|done].
  apply digit_val_range in Hc. unfold digit_val in Hc. intros H%IH; lia.
Qed.

Lemma leadingInt_read s t : ∀ x y, 0 ≤ x → decimal_digits x s = Some y → y ≤ 2 ^ 63 → no_digit t = true →
  leadingInt x (s +:+ t) = Some (y, t).
Proof.
  induction s as [|c s IH]; intros x y Hx Hs Hy Ht; simpl in Hs.
  - injection Hs as <-. destruct t as [|c t]; [done|]. simpl in *. by destruct (is_digit c).
  - destruct (is_digit c) eqn:Hc; [|done]. pose proof (digit_val_range c Hc) as Hv. pose proof Hs as Hs'.
    unfold digit_val in Hv. apply decimal_digits_ge in Hs'; [|lia]. simpl. rewrite Hc. cbn [negb].
    destruct (Z.ltb_spec (2 ^ 63 / 10) x) as [Hlt|_]; [exfalso; pose proof (Z.div_le_lower_bound (2 ^ 63) 10 x); lia|].
    unfold digit_val. destruct (Z.ltb_spec (2 ^ 63) (x * 10 + (Z.of_N (byte_val c) - 48))); [lia|].
    replace (x * 10) with (10 * x) by lia. by apply IH; [lia|..].
Qed.

(** The scale after reading some digits of a fraction. *)
Definition scale_after (k : nat) (scale : float64) : float64 := Nat.iter k (fun s => float_mul s (float_of_Z 10)) scale.

Lemma leadingFraction_read s t : ∀ x y scale, 0 ≤ x → decimal_digits x s = Some y → y < 10 ^ 9 → no_digit t = true →
  leadingFraction x scale false (s +:+ t) = (y, scale_after (String.length s) scale, t).
Proof.
  induction s as [|c s IH]; intros x y scale Hx Hs Hy Ht; simpl in Hs.
  - injection Hs as <-. destruct t as [|c t]; [done|]. simpl in *. by destruct (is_digit c).
  - destruct (is_digit c) eqn:Hc; [|done]. pose proof (digit_val_range c Hc) as Hv. pose proof Hs as Hs'.
    unfold digit_val in Hv. apply decimal_digits_ge in Hs'; [|lia]. simpl String.append. cbn [leadingFraction]. rewrite Hc. cbn [negb].
    destruct (Z.ltb_spec ((2 ^ 63 - 1) / 10) x) as [Hlt|_]; [exfalso; change ((2 ^ 63 - 1) / 10) with 922337203685477580 in Hlt; lia|].
    unfold digit_val. destruct (Z.ltb_spec (2 ^ 63) (x * 10 + (Z.of_N (byte_val c) - 48))); [lia|].
    replace (x * 10) with (10 * x) by lia. rewrite (IH _ y) by (done || lia). unfold scale_after. cbn [String.length].
    by rewrite Nat.iter_succ_r.
Qed.

(** ** Fractions *)

Lemma mod_split v p : 0 ≤ v → v mod 10 ^ Z.of_nat (S p) = 10 * ((v / 10) mod 10 ^ Z.of_nat p) + v mod 10.
Proof.
  intros Hv. rewrite Nat2Z.inj_succ, Z.pow_succ_r by lia. rewrite Z.rem_mul_r by lia. lia.
Qed.

Lemma digit_read a d : 0 ≤ d < 10 → decimal_digits a (pretty d) = Some (10 * a + d).
Proof.
  intros Hd. assert (d = 0 ∨ d = 1 ∨ d = 2 ∨ d = 3 ∨ d = 4 ∨ d = 5 ∨ d = 6 ∨ d = 7 ∨ d = 8 ∨ d = 9) as Hcases by lia.
  destruct_or! Hcases; subst d; vm_compute (pretty _); cbn; f_equal; lia.
Qed.

Lemma digit_length d : 0 ≤ d < 10 → String.length (pretty d) = 1%nat.
Proof.
  intros Hd. assert (d = 0 ∨ d = 1 ∨ d = 2 ∨ d = 3 ∨ d = 4 ∨ d = 5 ∨ d = 6 ∨ d = 7 ∨ d = 8 ∨ d = 9) as Hcases by lia.
  by destruct_or! Hcases; subst d.
Qed.

(** What a fraction written without its trailing zeros means. *)
Definition fraction_of (prec : nat) (v : Z) (ds : string) : Prop :=
  ∃ f, decimal_digits 0 ds = Some f ∧ (String.length ds ≤ prec)%nat ∧ 0 < f ∧
    f * 10 ^ (Z.of_nat prec - Z.of_nat (String.length ds)) = v mod 10 ^ Z.of_nat prec.

Lemma fracDigits_printed prec : ∀ v out, 0 ≤ v →
  ∃ ds, fracDigits prec v true out = (ds +:+ out, v / 10 ^ Z.of_nat prec, true) ∧ String.length ds = prec ∧
    ∀ a, decimal_digits a ds = Some (a * 10 ^ Z.of_nat prec + v mod 10 ^ Z.of_nat prec).
Proof.
  induction prec as [|prec IH]; intros v out Hv.
  { exists "". simpl. rewrite Z.div_1_r, Z.mod_1_r. split_and!; [done..|]. intros a. f_equal. lia. }
  cbn [fracDigits orb]. pose proof (Z.mod_pos_bound v 10 ltac:(lia)) as Hd.
  destruct (IH (v / 10) (pretty (v mod 10) +:+ out)) as (ds & -> & Hl & Hr); [apply Z.div_pos; lia|].
  exists (ds +:+ pretty (v mod 10)). split_and!.
  - rewrite string_app_assoc, Z.div_div by (lia || apply Z.pow_pos_nonneg; lia). do 3 f_equal.
    by rewrite Nat2Z.inj_succ, Z.pow_succ_r by lia.
  - rewrite length_string_app, Hl, digit_length by done. lia.
  - intros a. rewrite decimal_digits_app, Hr. cbn [mbind option_bind]. rewrite digit_read by done. f_equal.
    rewrite mod_split by done. rewrite Nat2Z.inj_succ, Z.pow_succ_r by lia. lia.
Qed.

Lemma fmtFrac_spec prec : ∀ v out, 0 ≤ v →
  (v mod 10 ^ Z.of_nat prec = 0 ∧ fmtFrac prec v out = (out, v / 10 ^ Z.of_nat prec)) ∨
  (∃ ds, fraction_of prec v ds ∧ fmtFrac prec v out = ("." +:+ ds +:+ out, v / 10 ^ Z.of_nat prec)).
Proof.
  unfold fmtFrac. induction prec as [|prec IH]; intros v out Hv.
  { left. simpl. by rewrite Z.div_1_r, Z.mod_1_r. }
  cbn [fracDigits orb]. pose proof (Z.mod_pos_bound v 10 ltac:(lia)) as Hd.
  assert (Hdiv : v / 10 ^ Z.of_nat (S prec) = v / 10 / 10 ^ Z.of_nat prec).
  { rewrite Z.div_div by (lia || apply Z.pow_pos_nonneg; lia). by rewrite Nat2Z.inj_succ, Z.pow_succ_r by lia. }
  rewrite Hdiv, mod_split by done. destruct (Z.eqb_spec (v mod 10) 0) as [H0|H0]; cbn [negb].
  - destruct (IH (v / 10) out) as [[Hz ->]|(ds & (f & Hf & Hl & Hp & He) & ->)]; [apply Z.div_pos; lia|left; split; [lia|done]|].
    right. exists ds. split; [|done]. exists f. split_and!; [done|lia|done|]. rewrite mod_split, <-He by done.
    replace (Z.of_nat (S prec) - Z.of_nat (String.length ds)) with (Z.succ (Z.of_nat prec - Z.of_nat (String.length ds))) by lia.
    rewrite Z.pow_succ_r by lia. lia.
  - destruct (fracDigits_printed prec (v / 10) (pretty (v mod 10) +:+ out)) as (ds & -> & Hl & Hr); [apply Z.div_pos; lia|].
    right. exists (ds +:+ pretty (v mod 10)). split; [|by rewrite string_app_assoc].
    assert (Hlen : String.length (ds +:+ pretty (v mod 10)) = S prec) by (rewrite length_string_app, Hl, digit_length by done; lia).
    pose proof (Z.mod_pos_bound (v / 10) (10 ^ Z.of_nat prec) ltac:(apply Z.pow_pos_nonneg; lia)).
    exists (v mod 10 ^ Z.of_nat (S prec)). rewrite Hlen, Z.sub_diag, Z.mul_1_r, mod_split by done. split_and!; [|lia..].
    rewrite decimal_digits_app, Hr. cbn [mbind option_bind]. rewrite digit_read by done. f_equal; lia.
Qed.

(** ** Terms *)

(** The units of [format], without the bytes that end a number. *)
Definition units : list (string * Z) :=
  [("ns", 1); (micro_sign, 1000); ("ms", 1000000); ("s", 1000000000); ("m", 60000000000); ("h", 3600000000000)].

(** The next term, if there is one, starts with a digit. *)
Definition term_end (rest : string) : bool := match rest with String c _ => is_digit c | EmptyString => true end.

Lemma takeUnit_read u unit rest : (u, unit) ∈ units → term_end rest = true → takeUnit (u +:+ rest) = (u, rest).
Proof.
  intros Hu Hr. assert (Hrest : takeUnit rest = ("", rest)).
  { destruct rest as [|c rest]; [done|]. simpl in *. by rewrite Hr, orb_true_r. }
  unfold units in Hu. rewrite !elem_of_cons, elem_of_nil in Hu. destruct_or! Hu; injection Hu as -> ->; simpl; by rewrite Hrest.
Qed.

Lemma pretty_head v : 0 ≤ v → ∃ c t, pretty v = String c t ∧ is_digit c = true.
Proof.
  intros Hv. pose proof (pretty_digits v Hv) as Hd. pose proof (pretty_read v Hv) as Hr. destruct (pretty v) as [|c t] eqn:Hp.
  - exfalso. rewrite pretty_nonneg in Hp by done. unfold pretty, pretty_N in Hp. case_decide as H0; [done|].
    apply (f_equal (decimal_digits 0)) in Hp. rewrite pretty_N_go_read in Hp. simpl in Hp. injection Hp as Hp. lia.
  - exists c, t. split; [done|]. simpl in Hd. by apply andb_true_iff in Hd as [? _].
Qed.

Lemma number_start v t : 0 ≤ v → match pretty v +:+ t with
  | EmptyString => False | String c _ => Ascii.eqb c "." || is_digit c = true end.
Proof. intros Hv. destruct (pretty_head v Hv) as (c & s & -> & Hc). simpl. by rewrite Hc, orb_true_r. Qed.

Lemma unit_facts u unit rest : (u, unit) ∈ units →
  unitMap u = Some unit ∧ 0 < unit ∧ String.eqb u "" = false ∧ no_digit (u +:+ rest) = true.
Proof.
  unfold units. rewrite !elem_of_cons, elem_of_nil. intros Hu. by destruct_or! Hu; injection Hu as -> ->.
Qed.

(** A number is not followed by a fraction if its unit comes next. *)
Lemma no_fraction {A} u unit rest (f : string → A) (d : A) : (u, unit) ∈ units →
  match u +:+ rest with String "." s => f s | _ => d end = d.
Proof. unfold units. rewrite !elem_of_cons, elem_of_nil. intros Hu. by destruct_or! Hu; injection Hu as -> ->. Qed.

Lemma number_length v t : 0 ≤ v → Nat.eqb (String.length (pretty v +:+ t)) (String.length t) = false.
Proof.
  intros Hv. apply Nat.eqb_neq. rewrite length_string_app. destruct (pretty_head v Hv) as (? & ? & -> & _). simpl. lia.
Qed.

Lemma parseTerm_number v t : 0 ≤ v ≤ 2 ^ 63 → no_digit t = true → parseTerm (pretty v +:+ t) =
  (let '(f, scale, s2, post) :=
     match t with
     | String "." s' => let '(f, scale, s2) := leadingFraction 0 (float_of_Z 1) false s' in
         (f, scale, s2, negb (Nat.eqb (String.length s') (String.length s2)))
     | _ => (0, float_of_Z 1, t, false)
     end in
   let '(u, rest) := takeUnit s2 in
   if String.eqb u "" then None
   else
     unit ← unitMap u;
     if 2 ^ 63 / unit <? v then None
     else if 0 <? f then
       let v := wrap64 (v * unit + uint64_of_float (float_mul (float_of_Z f) (float_div (float_of_Z unit) scale))) in
       if 2 ^ 63 <? v then None else Some (v, rest)
     else Some (v * unit, rest)).
Proof.
  intros Hv Ht. pose proof (number_start v t ltac:(lia)) as Hn. pose proof (number_length v t ltac:(lia)) as Hl.
  assert (Hi : leadingInt 0 (pretty v +:+ t) = Some (v, t)) by (apply leadingInt_read; [lia|apply pretty_read; lia|lia|done]).
  unfold parseTerm. destruct (pretty v +:+ t) as [|c s]; [done|]. rewrite Hn, Hi. cbn [negb mbind option_bind]. rewrite Hl. done.
Qed.

Lemma parseTerm_whole v u unit rest : 0 ≤ v → (u, unit) ∈ units → v * unit ≤ 2 ^ 63 → term_end rest = true →
  parseTerm (pretty v +:+ u +:+ rest) = Some (v * unit, rest).
Proof.
  intros Hv Hu Hb Hr. destruct (unit_facts u unit rest Hu) as (Hm & Hpos & He & Hnd).
  rewrite parseTerm_number by (done || nia). erewrite no_fraction by done. rewrite (takeUnit_read u unit rest Hu Hr), He, Hm.
  cbn [mbind option_bind]. destruct (Z.ltb_spec (2 ^ 63 / unit) v) as [Hlt|_]; [|done].
  exfalso. pose proof (Z.div_le_lower_bound (2 ^ 63) unit v). lia.
Qed.

(** The units that may carry a fraction, with its number of digits. *)
Definition fraction_units : list (nat * string) := [(3%nat, micro_sign); (6%nat, "ms"); (9%nat, "s")].

Lemma fraction_scale prec u k : (prec, u) ∈ fraction_units → (1 ≤ k ≤ prec)%nat →
  (u, 10 ^ Z.of_nat prec) ∈ units ∧
  float_div (float_of_Z (10 ^ Z.of_nat prec)) (scale_after k (float_of_Z 1)) = float_of_Z (10 ^ (Z.of_nat prec - Z.of_nat k)).
Proof.
  unfold fraction_units. rewrite !elem_of_cons, elem_of_nil. intros Hu Hk. destruct_or! Hu; injection Hu as -> ->.
  all: split; [unfold units; rewrite !elem_of_cons; tauto|].
  all: do 10 (destruct k as [|k]; [lia || by vm_compute|]). all: lia.
Qed.

Lemma parseTerm_fraction v prec u x ds rest : 0 ≤ v → (prec, u) ∈ fraction_units → fraction_of prec x ds →
  v * 10 ^ Z.of_nat prec + x mod 10 ^ Z.of_nat prec ≤ 2 ^ 63 → term_end rest = true →
  parseTerm (pretty v +:+ "." +:+ ds +:+ u +:+ rest) = Some (v * 10 ^ Z.of_nat prec + x mod 10 ^ Z.of_nat prec, rest).
Proof.
  intros Hv Hu (f & Hf & Hlen & Hpos & Hx) Hb Hr.
  assert (Hprec : (prec ≤ 9)%nat).
  { unfold fraction_units in Hu. rewrite !elem_of_cons, elem_of_nil in Hu. destruct_or! Hu; injection Hu as -> ->; lia. }
  assert (Hk : (1 ≤ String.length ds)%nat) by (destruct ds; [simpl in Hf; injection Hf as <-; lia|simpl; lia]).
  destruct (fraction_scale prec u (String.length ds) Hu ltac:(lia)) as [Hin Hdiv].
  destruct (unit_facts u _ rest Hin) as (Hm & Hunit & He & Hnd).
  set (p := 10 ^ (Z.of_nat prec - Z.of_nat (String.length ds))) in *.
  assert (0 < p) by (apply Z.pow_pos_nonneg; lia).
  assert (Hp9 : 10 ^ Z.of_nat prec ≤ 10 ^ 9) by (apply Z.pow_le_mono_r; lia).
  pose proof (Z.mod_pos_bound x (10 ^ Z.of_nat prec) Hunit) as Hmod.
  assert (Hf9 : f < 10 ^ 9) by nia.
  rewrite parseTerm_number by (done || nia). change ("." +:+ ds +:+ u +:+ rest) with (String "." (ds +:+ u +:+ rest)). cbv iota beta.
  rewrite (leadingFraction_read ds (u +:+ rest) 0 f) by (done || lia). cbv iota beta zeta.
  rewrite (takeUnit_read u _ rest Hin Hr), He, Hm. cbn [mbind option_bind]. rewrite Hdiv, float_mul_exact by nia.
  rewrite uint64_exact by nia. rewrite Hx. unfold wrap64. rewrite Z.mod_small by lia.
  destruct (Z.ltb_spec (2 ^ 63 / 10 ^ Z.of_nat prec) v) as [Hlt|_].
  { exfalso. pose proof (Z.div_le_lower_bound (2 ^ 63) (10 ^ Z.of_nat prec) v). lia. }
  destruct (Z.ltb_spec 0 f); [|lia]. destruct (Z.ltb_spec (2 ^ 63) (v * 10 ^ Z.of_nat prec + x mod 10 ^ Z.of_nat prec)); [lia|done].
Qed.

(** ** Whole durations *)

Lemma parseTerms_step d v s rest : parseTerm s = Some (v, rest) → 0 ≤ d → 0 ≤ v → d + v ≤ 2 ^ 63 →
  parseTerms (String.length s) d s = parseTerms (String.length rest) (d + v) rest.
Proof.
  intros Hs Hd Hv Hb. destruct (parseTerm_ok _ _ _ Hs) as [_ Hlen]. destruct s as [|c s]; [done|].
  cbn [String.length parseTerms] in *. rewrite Hs. cbn [mbind option_bind]. unfold wrap64. rewrite Z.mod_small by lia.
  destruct (Z.ltb_spec (2 ^ 63) (d + v)); [lia|]. apply parseTerms_fuel. lia.
Qed.

(** The number written by [fmtFrac] and [fmtInt] together, in front of the last unit. *)
Lemma parseTerm_last prec u x : 0 ≤ x ≤ 2 ^ 63 → (prec, u) ∈ fraction_units →
  let '(out, v) := fmtFrac prec x u in
  v = x / 10 ^ Z.of_nat prec ∧ term_end out = false ∧
  ∀ w, 0 ≤ w → w * 10 ^ Z.of_nat prec + x mod 10 ^ Z.of_nat prec ≤ 2 ^ 63 →
    parseTerm (pretty w +:+ out) = Some (w * 10 ^ Z.of_nat prec + x mod 10 ^ Z.of_nat prec, "").
Proof.
  intros Hx Hu. destruct (fraction_scale prec u 1 Hu) as [Hin _].
  { unfold fraction_units in Hu. rewrite !elem_of_cons, elem_of_nil in Hu. destruct_or! Hu; injection Hu as -> ->; lia. }
  destruct (unit_facts u _ "" Hin) as (Hm & Hunit & He & Hnd).
  destruct (fmtFrac_spec prec x u) as [[H0 ->]|(ds & Hds & ->)]; [lia|..]; (split; [done|split]).
  - unfold units in Hin. rewrite !elem_of_cons, elem_of_nil in Hin. by destruct_or! Hin; injection Hin as -> _.
  - intros w Hw Hb. rewrite H0, Z.add_0_r in *. pose proof (parseTerm_whole w u _ "" Hw Hin Hb eq_refl) as Ht. by rewrite string_app_nil_r in Ht.
  - done.
  - intros w Hw Hb. pose proof (parseTerm_fraction w prec u x ds "" Hw Hu Hds Hb eq_refl) as Ht. by rewrite string_app_nil_r in Ht.
Qed.

Lemma term_start v t : 0 ≤ v → term_end (pretty v +:+ t) = true.
Proof. intros Hv. by destruct (pretty_head v Hv) as (c & s & -> & Hc). Qed.

Lemma parseTerms_last d v s : parseTerm s = Some (v, "") → 0 ≤ d → 0 ≤ v → d + v ≤ 2 ^ 63 →
  parseTerms (String.length s) d s = Some (d + v).
Proof. intros Hs Hd Hv Hb. by rewrite (parseTerms_step _ _ _ _ Hs). Qed.

(** What is written for a magnitude: a number and more, read back as the magnitude. *)
Definition reads_back (s : string) (u : Z) : Prop :=
  (∃ w t, 0 ≤ w ∧ s = pretty w +:+ t ∧ t ≠ "") ∧ parseTerms (String.length s) 0 s = Some u.

Lemma small_reads_back prec unit u : 0 ≤ u ≤ 2 ^ 63 → (prec, unit) ∈ fraction_units →
  reads_back (let '(out, v) := fmtFrac prec u unit in fmtInt v out) u.
Proof.
  intros Hu Hin. pose proof (parseTerm_last prec unit u Hu Hin) as Hl. destruct (fmtFrac prec u unit) as [out v].
  destruct Hl as (-> & Hout & Hl). assert (Hp : 0 < 10 ^ Z.of_nat prec) by (apply Z.pow_pos_nonneg; lia).
  assert (Hq : 0 ≤ u / 10 ^ Z.of_nat prec) by (apply Z.div_pos; lia). pose proof (Z.div_mod u (10 ^ Z.of_nat prec) ltac:(lia)) as Hdm.
  unfold reads_back, fmtInt. split; [exists (u / 10 ^ Z.of_nat prec), out; split_and!; [done..|by intros ->]|].
  apply (parseTerms_last 0 u); [|lia..]. rewrite Hl by lia. do 2 f_equal. lia.
Qed.

Lemma large_reads_back u : 1000000000 ≤ u ≤ 2 ^ 63 → reads_back (format_magnitude u) u.
Proof.
  intros Hu. unfold format_magnitude. destruct (Z.ltb_spec u 1000000000); [lia|].
  pose proof (parseTerm_last 9 "s" u ltac:(lia) ltac:(unfold fraction_units; rewrite !elem_of_cons; tauto)) as Hl.
  destruct (fmtFrac 9 u "s") as [out v]. destruct Hl as (-> & Hout & Hl). change (10 ^ Z.of_nat 9) with 1000000000 in *.
  assert (Hne : out ≠ "") by (by intros ->).
  pose proof (Z.div_mod u 1000000000 ltac:(lia)) as Hs. pose proof (Z.mod_pos_bound u 1000000000 ltac:(lia)) as Hsb.
  set (seconds := u / 1000000000) in *. pose proof (Z.div_mod seconds 60 ltac:(lia)) as Hm. pose proof (Z.mod_pos_bound seconds 60 ltac:(lia)) as Hmb.
  set (minutes := seconds / 60) in *. pose proof (Z.div_mod minutes 60 ltac:(lia)) as Hh. pose proof (Z.mod_pos_bound minutes 60 ltac:(lia)) as Hhb.
  set (hours := minutes / 60) in *. assert (0 ≤ seconds ∧ 0 ≤ minutes ∧ 0 ≤ hours) as (Hs0 & Hm0 & Hh0) by (repeat split; repeat apply Z.div_pos; lia).
  assert (Hlast : ∀ d, 0 ≤ d → d + (seconds mod 60 * 1000000000 + u mod 1000000000) ≤ 2 ^ 63 →
    parseTerms (String.length (pretty (seconds mod 60) +:+ out)) d (pretty (seconds mod 60) +:+ out)
      = Some (d + (seconds mod 60 * 1000000000 + u mod 1000000000))).
  { intros d Hd Hb. apply parseTerms_last; [|lia..]. apply Hl; lia. }
  assert (Hstep : ∀ w unit d v rest, 0 ≤ w → (unit, v) ∈ units → 0 ≤ d → d + w * v ≤ 2 ^ 63 → term_end rest = true →
    parseTerms (String.length (pretty w +:+ unit +:+ rest)) d (pretty w +:+ unit +:+ rest) = parseTerms (String.length rest) (d + w * v) rest).
  { intros w unit d v rest Hw Hin Hd Hb Hr. destruct (unit_facts unit v rest Hin) as (_ & Hv & _ & _).
    apply parseTerms_step; [apply parseTerm_whole; [done..|lia|done]|done|nia|lia]. }
  unfold reads_back, fmtInt. destruct (Z.ltb_spec 0 minutes) as [Hm1|Hm1].
  2:{ split; [exists (seconds mod 60), out; done || split_and!; [lia|done..]|]. rewrite Hlast by lia. f_equal. lia. }
  destruct (Z.ltb_spec 0 hours) as [Hh1|Hh1].
  - split; [exists hours; eexists; split_and!; [lia|done|done]|]. rewrite (Hstep _ _ _ 3600000000000);
      [|lia|unfold units; rewrite !elem_of_cons; tauto|lia|lia|apply term_start; lia].
    rewrite (Hstep _ _ _ 60000000000); [|lia|unfold units; rewrite !elem_of_cons; tauto|lia|lia|apply term_start; lia].
    rewrite Hlast by lia. f_equal. lia.
  - split; [exists (minutes mod 60); eexists; split_and!; [lia|done|done]|].
    rewrite (Hstep _ _ _ 60000000000); [|lia|unfold units; rewrite !elem_of_cons; tauto|lia|lia|apply term_start; lia].
    rewrite Hlast by lia. f_equal. lia.
Qed.

Lemma magnitude_reads_back u : 0 ≤ u ≤ 2 ^ 63 → reads_back (format_magnitude u) u.
Proof.
  intros Hu. destruct (Z.le_gt_cases 1000000000 u) as [|Hlt]; [apply large_reads_back; lia|].
  unfold format_magnitude. destruct (Z.ltb_spec u 1000000000); [|lia]. destruct (Z.eqb_spec u 0) as [-> |H0].
  { split; [by exists 0, "s"|done]. }
  destruct (u <? 1000).
  - change (fmtFrac 0 u "ns") with ("ns", u). unfold reads_back, fmtInt. split; [by exists u, "ns"; split_and!; [lia|..]|].
    apply (parseTerms_last 0 u); [|lia..]. rewrite <-(string_app_nil_r "ns"). rewrite <-(Z.mul_1_r u) at 2.
    apply parseTerm_whole; [lia|unfold units; rewrite !elem_of_cons; tauto|lia|done].
  - destruct (u <? 1000000); (apply small_reads_back; [lia|]); unfold fraction_units; rewrite !elem_of_cons; tauto.
Qed.

(** Every duration written by [Duration.String] is read back by [ParseDuration],
    fractions and the smallest duration included. *)
Lemma duration_roundtrip d : - 2 ^ 63 ≤ d < 2 ^ 63 → ParseDuration (Duration_String d) = Some d.
Proof.
  intros Hd. unfold Duration_String.
  assert (Hmag : ∀ neg u s, reads_back s u → 0 ≤ u → (neg = false → u < 2 ^ 63) →
    (if String.eqb s "0" then Some 0 else if String.eqb s "" then None else
       d ← parseTerms (String.length s) 0 s; if (neg : bool) then Some (- d) else if 2 ^ 63 - 1 <? d then None else Some d)
    = Some (if neg then - u else u)).
  { intros neg u s [(w & t & Hw & -> & Ht) Hp] Hu0 Hneg. destruct (pretty_head w Hw) as (c & r & Hr & _).
    assert (2 ≤ String.length (pretty w +:+ t))%nat as Hlen by (rewrite length_string_app, Hr; destruct t; [done|simpl; lia]).
    destruct (String.eqb_spec (pretty w +:+ t) "0") as [He|_]; [rewrite He in Hlen; simpl in Hlen; lia|].
    destruct (String.eqb_spec (pretty w +:+ t) "") as [He|_]; [rewrite He in Hlen; simpl in Hlen; lia|].
    rewrite Hp. cbn [mbind option_bind]. destruct neg; [done|]. destruct (Z.ltb_spec (2 ^ 63 - 1) u); [specialize (Hneg eq_refl); lia|done]. }
  destruct (Z.ltb_spec d 0) as [Hneg|Hpos].
  - unfold ParseDuration. change ("-" +:+ format_magnitude (- d)) with (String "-" (format_magnitude (- d))). cbv iota beta zeta.
    rewrite (Hmag true (- d)); [f_equal; lia|apply magnitude_reads_back; lia|lia|done].
  - pose proof (magnitude_reads_back d ltac:(lia)) as Hb. pose proof Hb as [(w & t & Hw & Hs & _) _].
    specialize (Hmag false d _ Hb Hpos ltac:(lia)). destruct (pretty_head w Hw) as (c & r & Hr & Hc). rewrite Hr in Hs.
    unfold ParseDuration. rewrite Hs in Hmag |- *. cbn [String.append] in *.
    destruct c as [[] [] [] [] [] [] [] []]; try (vm_compute in Hc; discriminate Hc); exact Hmag.
Qed.
