(* ===== verification/FloatMath.v ===== *)
(** * Double precision arithmetic: order, sums, [math.Max], [math.Ceil] and
    fixed-point text

    The operations of [float64] the benchmark report uses beside those of
    [Duration], and the fact that its percentile ranks, computed in double
    precision, are exact. *)

From Stdlib Require Import Floats.SpecFloat.
From stdpp Require Import pretty.
From S2P Require Import Prelude GoStrings Decimal Duration DurationText.
#[local] Open Scope string_scope.
#[local] Open Scope Z_scope.
#[local] Open Scope list_scope.

(** ** Operations *)

Definition float_add : float64 → float64 → float64 := SFadd 53 1024.
Definition float_ltb : float64 → float64 → bool := SFltb.
Definition float_leb : float64 → float64 → bool := SFleb.

Definition isNaN (x : float64) : bool := match x with S754_nan => true | _ => false end.
Definition isInf (x : float64) : bool := match x with S754_infinity _ => true | _ => false end.
Definition float_finite (x : float64) : bool := negb (isNaN x) && negb (isInf x).

(** [math.Max]. *)
Definition math_Max (x y : float64) : float64 :=
  match x, y with
  | S754_infinity false, _ | _, S754_infinity false => S754_infinity false
  | S754_nan, _ | _, S754_nan => S754_nan
  | S754_zero sx, S754_zero _ => if sx then y else x
  | _, _ => if float_ltb y x then x else y
  end.

(** [int(math.Ceil(x))] of a finite value in the range of [int]. *)
Definition ceilInt (x : float64) : Z :=
  match x with
  | S754_finite s m e =>
      let m := cond_Zopp s (Z.pos m) in
      if 0 <=? e then m * 2 ^ e else - ((- m) / 2 ^ (- e))
  | _ => 0
  end.

(** [sort.Float64s]: not-a-number comes first. *)
Definition float_less (x y : float64) : bool := float_ltb x y || (isNaN x && negb (isNaN y)).
Definition sort_floats (l : list float64) : list float64 := sort_slice float_less l.

(** [strconv.FormatFloat x 'f' prec 64] and the verb [%.<prec>f]: the value
    rounded to [prec] decimal places, ties to even. *)
Definition round_ratio (a b : Z) : Z :=
  let q := a / b in
  match Z.compare (2 * (a mod b)) b with Lt => q | Gt => q + 1 | Eq => if Z.even q then q else q + 1 end.

Definition fixed_magnitude (prec : nat) (m : positive) (e : Z) : Z :=
  if 0 <=? e then Z.pos m * 2 ^ e * 10 ^ Z.of_nat prec else round_ratio (Z.pos m * 10 ^ Z.of_nat prec) (2 ^ (- e)).

Definition fixed_digits (prec : nat) (v : Z) : string :=
  let fraction := pretty (v mod 10 ^ Z.of_nat prec) in
  pretty (v / 10 ^ Z.of_nat prec) +:+ "." +:+ zeros (prec - String.length fraction) +:+ fraction.

Definition formatFixed (prec : nat) (x : float64) : string :=
  let sign s := if s : bool then "-" else "" in
  match x with
  | S754_nan => "NaN"
  | S754_infinity s => if s then "-Inf" else "+Inf"
  | S754_zero s => sign s +:+ fixed_digits prec 0
  | S754_finite s m e => sign s +:+ fixed_digits prec (fixed_magnitude prec m e)
  end.

(** ** Rounding *)

Lemma shr_1_nonneg m r s : 0 ≤ m → shr_1 (Build_shr_record m r s) = Build_shr_record (Z.div2 m) (Z.odd m) (r || s).
Proof. by destruct m as [|[]|]. Qed.

(** Shifting keeps the quotient, the first bit dropped and whether another bit
    dropped is set. *)
Lemma shr_quotient n m : 0 ≤ m →
  Nat.iter (S n) shr_1 (exact_record m) =
    Build_shr_record (m / 2 ^ Z.of_nat n / 2) (Z.odd (m / 2 ^ Z.of_nat n)) (negb (m mod 2 ^ Z.of_nat n =? 0)).
Proof.
  intros Hm. induction n as [|n IH].
  - cbn [Nat.iter]. unfold exact_record. rewrite shr_1_nonneg, Z.div2_div by done. by rewrite Z.div_1_r, Z.mod_1_r.
  - rewrite Nat.iter_succ, IH. assert (0 < 2 ^ Z.of_nat n) by (apply Z.pow_pos_nonneg; lia).
    rewrite shr_1_nonneg by (do 2 (apply Z.div_pos; [|lia]); done).
    rewrite Nat2Z.inj_succ, Z.pow_succ_r, (Z.mul_comm 2), <-Z.div_div, Z.div2_div by lia. f_equal.
    rewrite Z.rem_mul_r by lia. pose proof (Z.mod_pos_bound m (2 ^ Z.of_nat n) ltac:(lia)).
    rewrite Zmod_odd. destruct (Z.odd (m / 2 ^ Z.of_nat n)); cbn [orb].
    + symmetry. apply negb_true_iff, Z.eqb_neq. lia.
    + by rewrite Z.mul_0_r, Z.add_0_r.
Qed.

(** Rounding to nearest moves by at most half a unit. *)
Lemma round_near n m : 0 ≤ m → let mrs := Nat.iter (S n) shr_1 (exact_record m) in
  let M := round_nearest_even (shr_m mrs) (loc_of_shr_record mrs) in
  2 * Z.abs (M * 2 ^ Z.of_nat (S n) - m) ≤ 2 ^ Z.of_nat (S n) ∧ m / 2 ^ Z.of_nat (S n) ≤ M ≤ m / 2 ^ Z.of_nat (S n) + 1.
Proof.
  intros Hm. cbv zeta. rewrite shr_quotient by done. cbn [shr_m].
  rewrite Nat2Z.inj_succ, Z.pow_succ_r by lia. assert (0 < 2 ^ Z.of_nat n) by (apply Z.pow_pos_nonneg; lia).
  rewrite (Z.mul_comm 2 (2 ^ _)), <-Z.div_div by lia. set (p := 2 ^ Z.of_nat n) in *.
  pose proof (Z.div_mod m p ltac:(lia)) as Hd. pose proof (Z.mod_pos_bound m p ltac:(lia)) as Hr.
  pose proof (Z.div_mod (m / p) 2 ltac:(lia)) as Hd2. rewrite Zmod_odd in Hd2.
  set (q := m / p) in *. set (h := q / 2) in *. set (r := m mod p) in *.
  destruct (Z.odd q), (Z.eqb_spec r 0) as [Hz|Hz]; cbn [loc_of_shr_record negb round_nearest_even]; try destruct (Z.even h); split; nia.
Qed.

Lemma digits_spec x d : 0 < x → digits x = d ↔ 2 ^ (d - 1) ≤ x < 2 ^ d.
Proof.
  intros Hx. unfold digits. pose proof (Z.log2_nonneg x). pose proof (Z.log2_spec x Hx) as Hl. split.
  - intros <-. by replace (Z.log2 x + 1 - 1) with (Z.log2 x) by lia.
  - intros Hd. assert (1 ≤ d) by (destruct (Z.le_gt_cases 1 d); [done|]; rewrite (Z.pow_neg_r 2 (d - 1)) in Hd by lia;
      destruct (Z.eq_dec d 0) as [->|]; [simpl in Hd; lia|]; rewrite Z.pow_neg_r in Hd by lia; lia).
    rewrite (Z.log2_unique x (d - 1)); [lia|lia|]. by replace (Z.succ (d - 1)) with d by lia.
Qed.

(** What rounding a mantissa with [k] digits too many gives. *)
Lemma round_aux_near m e k : 0 < m → digits m = 53 + k → 1 ≤ k → -1074 ≤ e + k ≤ 900 →
  ∃ r f M, binary_round_aux 53 1024 false m e loc_Exact = S754_finite false r f ∧ e + k ≤ f ≤ e + k + 1 ∧
    Z.pos r * 2 ^ (f - (e + k)) = M ∧ 2 * Z.abs (M * 2 ^ k - m) ≤ 2 ^ k.
Proof.
  intros Hm Hd Hk He. pose proof Hd as Hrange. apply digits_spec in Hrange; [|done].
  assert (Hkn : k = Z.of_nat (S (Z.to_nat (k - 1)))) by lia.
  destruct (round_near (Z.to_nat (k - 1)) m ltac:(lia)) as [Hnear HM]. rewrite <-Hkn in Hnear, HM.
  unfold binary_round_aux. unfold shr_fexp at 1. rewrite Zdigits2_digits, Hd by done.
  replace (fexp 53 1024 (53 + k + e) - e) with k by (unfold fexp, emin; lia).
  change (shr_record_of_loc m loc_Exact) with (exact_record m). unfold shr at 1. destruct k as [|kp|] eqn:Hkp; [lia| |lia]. rewrite <-Hkp in *.
  assert (Hki : SpecFloat.iter_pos shr_1 kp (exact_record m) = Nat.iter (S (Z.to_nat (k - 1))) shr_1 (exact_record m)).
  { rewrite iter_pos_nat. f_equal. lia. }
  rewrite Hki. set (mrs := Nat.iter _ _ _) in *. set (M := round_nearest_even _ _) in *. cbv beta iota.
  assert (HMr : 2 ^ 52 ≤ M ≤ 2 ^ 53).
  { replace (53 + k - 1) with (52 + k) in Hrange by lia. rewrite !Z.pow_add_r in Hrange by lia.
    assert (0 < 2 ^ k) by (apply Z.pow_pos_nonneg; lia).
    pose proof (Z.div_le_lower_bound m (2 ^ k) (2 ^ 52) ltac:(lia) ltac:(lia)).
    pose proof (Z.div_lt_upper_bound m (2 ^ k) (2 ^ 53) ltac:(lia) ltac:(lia)). lia. }
  destruct (Z.eq_dec M (2 ^ 53)) as [Htop|Hlow].
  - exists (Z.to_pos (2 ^ 52)), (e + k + 1), M. rewrite Htop. unfold shr_fexp. change (Zdigits2 (2 ^ 53)) with 54.
    replace (fexp 53 1024 (54 + (e + k)) - (e + k)) with 1 by (unfold fexp, emin; lia).
    cbn -[Z.leb Z.pow Z.sub Z.add Z.mul]. change (shr_m (shr_1 {| shr_m := 2 ^ 53; shr_r := false; shr_s := false |})) with (2 ^ 52).
    rewrite (proj2 (Z.leb_le _ _)) by lia. split; [done|]. split; [lia|]. split; [|congruence].
    replace (e + k + 1 - (e + k)) with 1 by lia. done.
  - exists (Z.to_pos M), (e + k), M. unfold shr_fexp. rewrite Zdigits2_digits by lia.
    assert (digits M = 53) as -> by (apply digits_spec; [lia|]; change (53 - 1) with 52; lia).
    replace (fexp 53 1024 (53 + (e + k)) - (e + k)) with 0 by (unfold fexp, emin; lia). cbn [shr shr_record_of_loc shr_m].
    destruct M as [|Mp|] eqn:HMp; [lia| |lia]. rewrite (proj2 (Z.leb_le _ _)) by lia. split; [done|]. split; [lia|].
    split; [|done]. rewrite Z.sub_diag. simpl. lia.
Qed.

(** The percentiles, in 53rds of a bit: at most forty hundredths of a unit below
    the exact fraction. *)
Definition percent_float (p : Z) : float64 := float_div (float_of_Z p) (float_of_Z 100).

Lemma percent_float_near p : p ∈ [50; 95; 99] →
  ∃ a, percent_float p = S754_finite false a (-53) ∧ 2 ^ 52 ≤ Z.pos a < 2 ^ 53 ∧ p * 2 ^ 53 - 40 ≤ 100 * Z.pos a ≤ p * 2 ^ 53.
Proof. intros Hp. set_unfold. destruct Hp as [->|[->|[->|[]]]]; (eexists; split; [vm_compute; reflexivity|lia]). Qed.

Definition ceil_div (a b : Z) : Z := - ((- a) / b).

Lemma ceil_div_spec a b c : 0 < b → ceil_div a b = c ↔ (c - 1) * b < a ≤ c * b.
Proof.
  intros Hb. unfold ceil_div. pose proof (Z.div_mod (- a) b ltac:(lia)). pose proof (Z.mod_pos_bound (- a) b Hb).
  split; [intros <-; nia|]. intros Hc. assert (- a / b = - c) as ->; [|lia]. symmetry. apply (Z.div_unique _ _ _ (c * b - a)); lia.
Qed.

(** A product of a percentile and a count, rounded to [M] units of [2 ^ k], has
    the ceiling of the exact product. *)
Lemma rank_near p n a d k M : 0 < n < 2 ^ d → 0 ≤ d ≤ 46 → 52 ≤ k ≤ 53 → p * 2 ^ 53 - 40 ≤ 100 * a ≤ p * 2 ^ 53 →
  2 * Z.abs (M * 2 ^ k - a * (n * 2 ^ (53 - d))) ≤ 2 ^ k → ceil_div M (2 ^ (106 - d - k)) = ceil_div (p * n) 100.
Proof.
  intros Hn Hd Hk Ha HM. assert (0 < 2 ^ (106 - d - k)) by (apply Z.pow_pos_nonneg; lia).
  apply ceil_div_spec; [done|]. destruct (proj1 (ceil_div_spec (p * n) 100 _ ltac:(lia)) eq_refl) as [Hlow Hup]. set (c := ceil_div (p * n) 100) in *.
  assert (Hk2 : 0 < 2 ^ k ≤ 2 ^ 53) by (split; [apply Z.pow_pos_nonneg|apply Z.pow_le_mono_r]; lia).
  assert (Hs : 128 ≤ 2 ^ (53 - d)) by (change 128 with (2 ^ 7); apply Z.pow_le_mono_r; lia).
  assert (Hnd : n * 2 ^ (53 - d) ≤ 2 ^ 53).
  { replace (2 ^ 53) with (2 ^ d * 2 ^ (53 - d)); [nia|]. rewrite <-Z.pow_add_r by lia. f_equal. lia. }
  assert (Hunit : 2 ^ (106 - d - k) * 2 ^ k = 2 ^ 53 * 2 ^ (53 - d)).
  { rewrite <-!Z.pow_add_r by lia. f_equal. lia. }
  set (u := 2 ^ k) in *. set (s := 2 ^ (53 - d)) in *. set (w := 2 ^ (106 - d - k)) in *. set (N := n * s) in *.
  assert (Hpn : 100 * (c - 1) * s < p * N ≤ 100 * c * s) by (unfold N; split; nia).
  assert (Hpn1 : 100 * (c - 1) * s + s ≤ p * N) by (unfold N; nia).
  assert (0 < N) by (unfold N; nia). split.
  - apply (Z.mul_lt_mono_pos_r u); [lia|]. rewrite <-Z.mul_assoc, Hunit. nia.
  - destruct (Z.le_gt_cases M (c * w)) as [?|Hgt]; [done|]. exfalso. assert ((c * w + 1) * u ≤ M * u) by nia.
    assert (a * N ≤ c * (2 ^ 53 * s)) by nia. nia.
Qed.

(** The rank of a percentile among [n] values, computed in double precision, is
    exact. *)
Lemma percent_rank p n : p ∈ [50; 95; 99] → 0 < n < 2 ^ 46 →
  ceilInt (float_mul (percent_float p) (float_of_Z n)) = ceil_div (p * n) 100.
Proof.
  intros Hp Hn. destruct (percent_float_near p Hp) as (a & -> & Ha & Hnear). rewrite float_of_Z_exact by lia.
  pose proof (digits_bound n ltac:(lia)) as Hd. set (d := digits n) in *.
  assert (Hdr : 2 ^ (d - 1) ≤ n < 2 ^ d) by (by apply digits_spec; [lia|]).
  assert (Hd46 : d ≤ 46) by (unfold d, digits; pose proof (proj1 (Z.log2_lt_pow2 n 46 ltac:(lia))); lia).
  unfold exact_float. fold d. unfold float_mul, SFmul. cbn [xorb]. rewrite Pos2Z.inj_mul.
  assert (0 < 2 ^ (53 - d)) as Hs by (apply Z.pow_pos_nonneg; lia). rewrite Z2Pos.id by nia.
  assert (HN : 2 ^ 52 ≤ n * 2 ^ (53 - d) < 2 ^ 53).
  { replace (2 ^ 52) with (2 ^ (d - 1) * 2 ^ (53 - d)) by (rewrite <-Z.pow_add_r by lia; f_equal; lia).
    replace (2 ^ 53) with (2 ^ d * 2 ^ (53 - d)) by (rewrite <-Z.pow_add_r by lia; f_equal; lia). nia. }
  assert (Hk : ∃ k, digits (Z.pos a * (n * 2 ^ (53 - d))) = 53 + k ∧ 52 ≤ k ≤ 53).
  { destruct (Z.lt_ge_cases (Z.pos a * (n * 2 ^ (53 - d))) (2 ^ 105)); [exists 52|exists 53]; (split; [|lia]); apply digits_spec; nia. }
  destruct Hk as (k & Hdk & Hk). set (m := Z.pos a * _) in *. assert (0 < m) by (unfold m; nia).
  destruct (round_aux_near m (-53 + (d - 53)) k) as (r & f & M & -> & Hf & HM & Hround); [done|done|lia|lia|].
  unfold ceilInt. cbn [cond_Zopp]. rewrite (proj2 (Z.leb_gt _ _)) by lia. fold (ceil_div (Z.pos r) (2 ^ (- f))).
  rewrite <-(rank_near p n (Z.pos a) d k M) by (try done; lia).
  replace (106 - d - k) with (- f + (f - (-53 + (d - 53) + k))) by lia. rewrite <-HM, Z.pow_add_r by lia. unfold ceil_div.
  rewrite <-Z.mul_opp_l, Z.div_mul_cancel_r; [done|..]; apply Z.pow_nonzero; lia.
Qed.
