(* ===== verification/FilePath.v ===== *)
(** * Paths: [path/filepath] on Unix

    The lexical operations on rooted paths: [Clean], [Join], [Rel] and [Abs].
    A path is read by its elements, the pieces between slashes. *)

From S2P Require Import Prelude GoStrings.
#[local] Open Scope string_scope.
#[local] Open Scope list_scope.

(** ** Operations *)

Definition filepath_IsAbs (path : string) : bool := has_prefix path "/".

(** One element of [Clean], on the elements kept so far, the last one first. *)
Definition clean_element (rooted : bool) (out : list string) (element : string) : list string :=
  if String.eqb element "" || String.eqb element "." then out
  else if String.eqb element ".." then
    match out with
    | last :: before => if String.eqb last ".." then element :: out else before
    | [] => if rooted then [] else [element]
    end
  else element :: out.

Definition clean_elements (rooted : bool) (path : string) : list string :=
  reverse (foldl (clean_element rooted) [] (split_byte "/" path)).

Definition filepath_Clean (path : string) : string :=
  let rooted := filepath_IsAbs path in
  let elements := clean_elements rooted path in
  if rooted then String "/" (join_byte "/" elements)
  else match elements with [] => "." | _ => join_byte "/" elements end.

Fixpoint filepath_Join (elem : list string) : string :=
  match elem with
  | [] => ""
  | e :: rest => if String.eqb e "" then filepath_Join rest else filepath_Clean (join_byte "/" elem)
  end.

(** The elements of a path that has been cleaned. *)
Definition path_elements (path : string) : list string := filter (fun e => e ≠ "") (split_byte "/" path).

Fixpoint strip_common (base targ : list string) : list string * list string :=
  match base, targ with
  | b :: base', t :: targ' => if String.eqb b t then strip_common base' targ' else (base, targ)
  | _, _ => (base, targ)
  end.

(** [Rel] of two rooted paths: up from the elements of the base that are not
    shared, and down again. *)
Definition filepath_Rel (basepath targpath : string) : string :=
  let base := filepath_Clean basepath in
  let targ := filepath_Clean targpath in
  if String.eqb targ base then "."
  else
    let '(up, down) := strip_common (path_elements base) (path_elements targ) in
    join_byte "/" (replicate (length up) ".." ++ down).

(** [Abs], given the working directory. *)
Definition filepath_Abs (cwd path : string) : string :=
  if filepath_IsAbs path then filepath_Clean path else filepath_Join [cwd; path].

(** ** Clean rooted paths *)

(** An element a clean rooted path may have. *)
Definition plain_element (e : string) : Prop := e ≠ "" ∧ e ≠ "." ∧ e ≠ ".." ∧ contains_byte "/" e = false.

Lemma clean_element_plain out e : Forall plain_element out → contains_byte "/" e = false → Forall plain_element (clean_element true out e).
Proof.
  intros Hout He. unfold clean_element. destruct (String.eqb_spec e ""), (String.eqb_spec e "."); cbn [orb]; try done.
  destruct (String.eqb_spec e ".."); [|by constructor].
  destruct Hout as [|last before Hlast Hbefore]; [done|]. destruct (String.eqb_spec last ".."); [|done]. by destruct Hlast as (_ & _ & ? & _).
Qed.

Lemma clean_elements_plain path : Forall plain_element (clean_elements true path).
Proof.
  unfold clean_elements. apply Forall_reverse.
  pose proof (split_byte_pieces "/" path) as Hp. revert Hp. generalize (split_byte "/" path). intros l.
  assert (Hgo : ∀ out, Forall plain_element out → Forall (fun p => contains_byte "/" p = false) l → Forall plain_element (foldl (clean_element true) out l)).
  { induction l as [|e l IH]; intros out Hout Hl; [done|]. apply Forall_cons in Hl as [He Hl]. cbn [foldl]. apply IH; [|done]. by apply clean_element_plain. }
  by apply Hgo.
Qed.

Definition rooted_path (elements : list string) : string := String "/" (join_byte "/" elements).

Lemma rooted_path_abs elements : filepath_IsAbs (rooted_path elements) = true.
Proof. unfold filepath_IsAbs, rooted_path. apply has_prefix_spec. by eexists. Qed.

Lemma clean_rooted path : filepath_IsAbs path = true → filepath_Clean path = rooted_path (clean_elements true path).
Proof. unfold filepath_Clean. by intros ->. Qed.

Lemma split_rooted elements : Forall plain_element elements →
  split_byte "/" (rooted_path elements) = "" :: match elements with [] => [""] | _ => elements end.
Proof.
  intros Hl. unfold rooted_path. cbn [split_byte]. rewrite Ascii.eqb_refl. f_equal. destruct elements as [|e l]; [done|].
  apply split_join_byte; [done|]. eapply Forall_impl; [exact Hl|]. by intros x (_ & _ & _ & ?).
Qed.

Lemma path_elements_rooted elements : Forall plain_element elements → path_elements (rooted_path elements) = elements.
Proof.
  intros Hl. unfold path_elements. rewrite split_rooted by done. rewrite filter_cons_False by naive_solver.
  assert (Hid : ∀ l, Forall plain_element l → filter (fun e => e ≠ "") l = l).
  { induction 1 as [|e l (He & _) _ IH]; [done|]. by rewrite filter_cons_True, IH. }
  destruct elements as [|e l]; [done|]. by apply Hid.
Qed.

Lemma rooted_path_inj l k : Forall plain_element l → Forall plain_element k → rooted_path l = rooted_path k → l = k.
Proof. intros Hl Hk E. by rewrite <-(path_elements_rooted l), E, path_elements_rooted. Qed.

(** Cleaning walks: an element goes down, two dots go up. *)
Lemma clean_elements_rooted out elements : Forall plain_element elements →
  foldl (clean_element true) out elements = reverse elements ++ out.
Proof.
  intros Hl. revert out. induction Hl as [|e l (H1 & H2 & H3 & _) _ IH]; intros out; [done|]. cbn [foldl].
  rewrite IH, reverse_cons, <-app_assoc. unfold clean_element.
  rewrite (proj2 (String.eqb_neq e "")), (proj2 (String.eqb_neq e ".")), (proj2 (String.eqb_neq e "..")) by done. done.
Qed.

Lemma foldl_clean_rooted elements : Forall plain_element elements →
  foldl (clean_element true) [] (split_byte "/" (rooted_path elements)) = reverse elements.
Proof.
  intros Hl. rewrite split_rooted by done. destruct elements as [|e l]; [done|]. cbn [foldl]. change (clean_element true [] "") with (@nil string).
  change (foldl (clean_element true) [] (e :: l) = reverse (e :: l)). by rewrite clean_elements_rooted, app_nil_r.
Qed.

Lemma clean_rooted_path elements : Forall plain_element elements → filepath_Clean (rooted_path elements) = rooted_path elements.
Proof.
  intros Hl. rewrite clean_rooted by apply rooted_path_abs. unfold clean_elements. by rewrite foldl_clean_rooted, reverse_involutive.
Qed.

(** Where a relative path leads from a directory. *)
Definition walk (dir : list string) (relative : string) : list string :=
  reverse (foldl (clean_element true) (reverse dir) (split_byte "/" relative)).

Lemma walk_plain dir relative : Forall plain_element dir → Forall plain_element (walk dir relative).
Proof.
  intros Hd. unfold walk. apply Forall_reverse. pose proof (split_byte_pieces "/" relative) as Hp. apply Forall_reverse in Hd.
  revert Hp Hd. generalize (reverse dir). generalize (split_byte "/" relative). induction l as [|e l IH]; intros out Hl Hout; [done|].
  apply Forall_cons in Hl as [He Hl]. cbn [foldl]. apply IH; [done|]. by apply clean_element_plain.
Qed.

Lemma join_rooted dir relative : Forall plain_element dir → filepath_Join [rooted_path dir; relative] = rooted_path (walk dir relative).
Proof.
  intros Hd. cbn [filepath_Join]. change (String.eqb (rooted_path dir) "") with false. cbv iota. rewrite clean_rooted by (apply has_prefix_spec; by eexists). f_equal.
  change (join_byte "/" [rooted_path dir; relative]) with (rooted_path dir +:+ String "/" relative).
  unfold clean_elements, walk. by rewrite split_byte_join, foldl_app, foldl_clean_rooted.
Qed.

Lemma abs_rooted cwd path : filepath_IsAbs cwd = true → ∃ dir, filepath_Abs cwd path = rooted_path dir ∧ Forall plain_element dir.
Proof.
  intros Hc. unfold filepath_Abs. destruct (filepath_IsAbs path) eqn:Hp.
  - exists (clean_elements true path). split; [by apply clean_rooted|apply clean_elements_plain].
  - assert (cwd ≠ "") by (by intros ->). exists (clean_elements true (join_byte "/" [cwd; path])). split; [|apply clean_elements_plain].
    cbn [filepath_Join]. rewrite (proj2 (String.eqb_neq cwd "")) by done. apply clean_rooted. unfold filepath_IsAbs in *.
    apply has_prefix_spec in Hc as [t ->]. apply has_prefix_spec. by eexists.
Qed.

(** ** Containment *)

(** A relative path that starts by going up. *)
Definition goes_up (rel : string) : bool := String.eqb rel ".." || has_prefix rel "../".

Lemma strip_common_prefix base targ up down : strip_common base targ = (up, down) →
  ∃ common, base = common ++ up ∧ targ = common ++ down ∧ (up = [] ↔ base `prefix_of` targ).
Proof.
  revert targ. induction base as [|b base IH]; intros targ; cbn [strip_common].
  - intros [= <- <-]. exists []. split_and!; [done|done|]. split; [|done]. intros _. apply prefix_nil.
  - destruct targ as [|t targ]; [intros [= <- <-]; exists []; split_and!; [done|done|]; split; [done|intros [? ?]; done]|].
    destruct (String.eqb_spec b t) as [->|Hne].
    + intros (common & -> & -> & Hiff)%IH. exists (t :: common). split_and!; [done|done|]. rewrite Hiff. cbn [app]. split.
      * intros ?. by apply prefix_cons.
      * by apply prefix_cons_inv_2.
    + intros [= <- <-]. exists []. split_and!; [done|done|]. split; [done|]. intros Hp. by apply prefix_cons_inv_1 in Hp.
Qed.

Lemma goes_up_join (up : nat) down : Forall plain_element down →
  goes_up (join_byte "/" (replicate up ".." ++ down)) = negb (Nat.eqb up 0).
Proof.
  intros Hd. destruct up as [|up]; cbn [replicate app].
  - destruct Hd as [|e l (H1 & H2 & H3 & H4) Hl]; [done|]. unfold goes_up.
    assert (Hpre : ∀ t, has_prefix (e +:+ String "/" t) "../" = false ∧ has_prefix e "../" = false ∧ e +:+ String "/" t ≠ "..").
    { intros t. split_and!.
      - apply not_true_iff_false. intros [u Hu]%has_prefix_spec. apply (f_equal (split_byte "/")) in Hu.
        change ("../" +:+ u) with (".." +:+ String "/" u) in Hu. rewrite !split_byte_app in Hu by done. by injection Hu as ?.
      - apply not_true_iff_false. intros [u ->]%has_prefix_spec. done.
      - intros Hu. apply (f_equal (split_byte "/")) in Hu. rewrite split_byte_app in Hu by done. injection Hu as _ Hu. by apply split_byte_nonempty in Hu. }
    destruct l as [|e' l]; cbn [join_byte].
    + destruct (Hpre "") as (_ & -> & _). by rewrite (proj2 (String.eqb_neq e "..")).
    + destruct (Hpre (join_byte "/" (e' :: l))) as (E1 & _ & E3). cbn [join_byte] in E1, E3. rewrite E1. by apply String.eqb_neq in E3 as ->.
  - unfold goes_up. cbn [Nat.eqb negb]. destruct (replicate up ".." ++ down) as [|x l]; [done|].
    apply orb_true_iff. right. apply has_prefix_spec. by eexists.
Qed.

(** The relative path from a directory does not start by going up exactly for the
    paths inside it. *)
Lemma rel_inside base targ : Forall plain_element base → Forall plain_element targ →
  goes_up (filepath_Rel (rooted_path base) (rooted_path targ)) = false ↔ base `prefix_of` targ.
Proof.
  intros Hb Ht. unfold filepath_Rel. rewrite !clean_rooted_path by done. destruct (String.eqb_spec (rooted_path targ) (rooted_path base)) as [E|_].
  - apply rooted_path_inj in E as ->; [|done|done]. split; done.
  - rewrite !path_elements_rooted by done. destruct (strip_common base targ) as [up down] eqn:E.
    apply strip_common_prefix in E as (common & -> & -> & Hiff). apply Forall_app in Ht as [_ Hd]. rewrite goes_up_join by done.
    rewrite <-Hiff. by destruct up.
Qed.
