(* ===== verification/Resources.v ===== *)
(** * Resource records ([internal/model/resources.go])

    The configuration records of upstreams the data plane is built from.
    Durations are nanoseconds; the string enumerations keep their strings. *)

From S2P Require Import Prelude HashKey.
#[local] Open Scope Z_scope.

Definition BalancerWeightedRoundRobin : string := "weighted_round_robin".
Definition BalancerConsistentHash : string := "consistent_hash".
Definition HealthCheckHTTP : string := "http".
Definition HealthCheckTCP : string := "tcp".
Definition TransportProtocolAuto : string := "auto".
Definition TransportProtocolHTTP1 : string := "http1".
Definition TransportProtocolHTTP2 : string := "http2".

Record ActiveHealthPolicy := mkActiveHealth {
  ah_type : string;
  ah_timeout : Z;
  ah_healthyInterval : Z;
  ah_unhealthyInterval : Z;
  ah_healthySuccesses : Z;
  ah_httpFailures : Z;
  ah_transportFailures : Z;
  ah_timeouts : Z;
  ah_healthyStatuses : list Z;
  ah_unhealthyStatuses : list Z;
  ah_path : string;
  ah_host : string;
}.

Record PassiveHealthPolicy := mkPassiveHealth {
  ph_httpFailures : Z;
  ph_transportFailures : Z;
  ph_timeouts : Z;
  ph_unhealthyStatuses : list Z;
}.

Record HealthPolicy := mkHealthPolicy {
  hp_active : option ActiveHealthPolicy;
  hp_passive : option PassiveHealthPolicy;
}.

Record RetryOnPolicy := mkRetryOn {
  ro_connectFailure : bool;
  ro_connectionFailure : bool;
  ro_responseHeaderTimeout : bool;
  ro_statuses : list Z;
}.

Record RetryBudgetPolicy := mkRetryBudget {
  rb_ratioPer1000 : Z;
  rb_burst : Z;
  rb_maxInflight : Z;
}.

Record RetryPolicy := mkRetryPolicy {
  rp_maxAttempts : Z;
  rp_methods : list string;
  rp_retryOn : RetryOnPolicy;
  rp_budget : RetryBudgetPolicy;
  rp_totalTimeout : Z;
}.

Record UpstreamTLSPolicy := mkUpstreamTLS {
  tls_trustBundleRef : string;
  tls_clientCertificateRef : string;
  tls_serverName : string;
}.

Record TransportConfig := mkTransport {
  tc_protocol : string;
  tc_tls : option UpstreamTLSPolicy;
  tc_dialTimeout : Z;
  tc_responseHeaderTimeout : Z;
  tc_idleConnectionTimeout : Z;
  tc_maxIdleConnections : Z;
  tc_maxIdleConnectionsPerHost : Z;
}.

Record Endpoint := mkEndpoint { ep_url : string; ep_weight : Z }.

Record BalancerPolicy := mkBalancer { bp_type : string; bp_sources : list HashKeySource }.

Record Upstream := mkUpstream {
  up_id : string;
  up_endpoints : list Endpoint;
  up_balancer : BalancerPolicy;
  up_transport : TransportConfig;
  up_health : HealthPolicy;
  up_retry : RetryPolicy;
}.

#[global] Instance HashKeySource_eq_dec : EqDecision HashKeySource.
Proof. solve_decision. Defined.
#[global] Instance ActiveHealthPolicy_eq_dec : EqDecision ActiveHealthPolicy.
Proof. solve_decision. Defined.
#[global] Instance PassiveHealthPolicy_eq_dec : EqDecision PassiveHealthPolicy.
Proof. solve_decision. Defined.
#[global] Instance HealthPolicy_eq_dec : EqDecision HealthPolicy.
Proof. solve_decision. Defined.
#[global] Instance RetryOnPolicy_eq_dec : EqDecision RetryOnPolicy.
Proof. solve_decision. Defined.
#[global] Instance RetryBudgetPolicy_eq_dec : EqDecision RetryBudgetPolicy.
Proof. solve_decision. Defined.
#[global] Instance RetryPolicy_eq_dec : EqDecision RetryPolicy.
Proof. solve_decision. Defined.
#[global] Instance UpstreamTLSPolicy_eq_dec : EqDecision UpstreamTLSPolicy.
Proof. solve_decision. Defined.
#[global] Instance TransportConfig_eq_dec : EqDecision TransportConfig.
Proof. solve_decision. Defined.
