(* ===== verification/UpstreamConfig.v ===== *)
(** * Upstream configuration ([internal/upstream/config.go])

    [Normalize] validates the upstream resources of a snapshot and brings them
    into the canonical form the registry shares runtimes by: canonical endpoint
    URLs sorted by identity, defaulted balancer, transport and retry policies,
    sorted duplicate-free status and method sets.  Each definition is the
    function of the source with the same name; [*model.Upstream] arguments that
    are updated in place become results.  Error causes (free text) are left
    out; the code, the field path and the upstream of each error are kept. *)

From S2P Require Import Prelude GoStrings NetAddr Predicate HashKey Url Resources.
#[local] Open Scope string_scope.
#[local] Open Scope Z_scope.
#[local] Open Scope list_scope.

Definition MaxUpstreams : Z := 10000.
Definition MaxSnapshotEndpoints : Z := 100000.
Definition MaxUpstreamEndpoints : Z := 1000.
Definition MaxEndpointWeight : Z := 1000.

Definition Millisecond : Z := 1000000.
Definition Second : Z := 1000 * Millisecond.
Definition Minute : Z := 60 * Second.
Definition Hour : Z := 60 * Minute.

Definition zlen {A} (l : list A) : Z := Z.of_nat (length l).

(** [prefix[index]] as [fmt.Sprintf] prints it. *)
Definition indexed (prefix : string) (index : nat) : string :=
  prefix +:+ "[" +:+ pretty (Z.of_nat index) +:+ "]".

(** ** Hosts and endpoint URLs *)

Definition dnsByte (c : ascii) : bool := is_lower c || is_digit c || Ascii.eqb c "-".

Definition dnsLabel (label : string) : bool :=
  negb (Nat.eqb (String.length label) 0) && Nat.leb (String.length label) 63 &&
  negb (bool_decide (byte_at label 0 = Some "-"%char)) &&
  negb (bool_decide (last_byte label = Some "-"%char)) &&
  string_forallb dnsByte label.

Definition trimSuffixDot (s : string) : string :=
  if has_suffix s "." then stake (String.length s - 1) s else s.

Definition normalizeHost (host : string) : option string :=
  match parse_addr host with
  | Some address =>
      if negb (String.eqb (addr_zone address) "") then None
      else Some (addr_string (addr_unmap address))
  | None =>
      if negb (is_ascii host) then None
      else
        let host := to_lower_ascii (trimSuffixDot host) in
        if Nat.eqb (String.length host) 0 || Nat.ltb 253 (String.length host) then None
        else if forallb dnsLabel (split_byte "." host) then Some host else None
  end.

(** [strconv.ParseUint(port, 10, 16)] *)
Definition parsePort (port : string) : option Z :=
  if String.eqb port "" then None
  else n ← decimal_digits 0 port; if n <? 2 ^ 16 then Some n else None.

(** [net.JoinHostPort] *)
Definition joinHostPort (host port : string) : string :=
  if contains_byte ":" host then "[" +:+ host +:+ "]:" +:+ port else host +:+ ":" +:+ port.

Definition normalizeEndpoint (raw : string) : option string :=
  parsed ← url_Parse raw;
  if negb (String.eqb (u_scheme parsed) "http") && negb (String.eqb (u_scheme parsed) "https")
  then None
  else if negb (String.eqb (u_opaque parsed) "") || u_user parsed
          || negb (String.eqb (u_rawQuery parsed) "") || negb (String.eqb (u_fragment parsed) "")
  then None
  else if negb (String.eqb (u_path parsed) "") && negb (String.eqb (u_path parsed) "/") then None
  else if negb (String.eqb (u_rawPath parsed) "") then None
  else if String.eqb (u_host parsed) "" then None
  else
    let host := url_Hostname parsed in
    if String.eqb host "" then None
    else if has_suffix (u_host parsed) ":" then None
    else
      let port := if String.eqb (url_Port parsed) ""
                  then if String.eqb (u_scheme parsed) "https" then "443" else "80"
                  else url_Port parsed in
      portNumber ← parsePort port;
      if portNumber =? 0 then None
      else
        host ← normalizeHost host;
        Some (u_scheme parsed +:+ "://" +:+ joinHostPort host (pretty portNumber)).

Definition endpointIdentity (upstreamID canonicalURL : string) : string :=
  upstreamID +:+ String Ascii.zero canonicalURL.

(** ** Ordered sets *)

(** The in-place compaction: [kept] holds the values written so far, last
    first. *)
Fixpoint compactLoop {A} `{EqDecision A} (kept : A) (values : list A) : list A :=
  match values with
  | [] => [kept]
  | v :: values =>
      if decide (v = kept) then compactLoop kept values else kept :: compactLoop v values
  end.

Definition compact {A} `{EqDecision A} (values : list A) : list A :=
  match values with [] => [] | v :: values => compactLoop v values end.

Definition compactUint16s (values : list Z) : list Z := compact values.
Definition compactStrings (values : list string) : list string := compact values.

Definition normalizeStatuses (values : list Z) : list Z :=
  compactUint16s (sort_slice Z.ltb values).

Fixpoint statusesOverlapLoop (fuel : nat) (left right : list Z) : bool :=
  match fuel with
  | O => false
  | S fuel =>
      match left, right with
      | l :: left', r :: right' =>
          if l =? r then true
          else if l <? r then statusesOverlapLoop fuel left' right
          else statusesOverlapLoop fuel left right'
      | _, _ => false
      end
  end.

Definition statusesOverlap (left right : list Z) : bool :=
  statusesOverlapLoop (length left + length right) left right.

(** ** Health *)

Definition validThreshold (value : Z) : bool := (1 <=? value) && (value <=? 254).
Definition validOptionalThreshold (value : Z) : bool := (value =? 0) || validThreshold value.

Definition set_activeStatuses (a : ActiveHealthPolicy) (healthy unhealthy : list Z)
    : ActiveHealthPolicy :=
  mkActiveHealth (ah_type a) (ah_timeout a) (ah_healthyInterval a) (ah_unhealthyInterval a)
    (ah_healthySuccesses a) (ah_httpFailures a) (ah_transportFailures a) (ah_timeouts a)
    healthy unhealthy (ah_path a) (ah_host a).

Definition activeBounds (a : ActiveHealthPolicy) : bool :=
  (10 * Millisecond <=? ah_timeout a) && (ah_timeout a <=? 30 * Second) &&
  (100 * Millisecond <=? ah_healthyInterval a) && (ah_healthyInterval a <=? Hour) &&
  (100 * Millisecond <=? ah_unhealthyInterval a) && (ah_unhealthyInterval a <=? Hour) &&
  validThreshold (ah_healthySuccesses a) && validThreshold (ah_transportFailures a) &&
  validThreshold (ah_timeouts a).

Definition normalizeActive (id field : string) (a : ActiveHealthPolicy)
    : result ConfigError ActiveHealthPolicy :=
  let invalid := Err (mkConfigError "ACTIVE_HEALTH_INVALID" (field +:+ ".active") id) in
  if negb (activeBounds a) then invalid
  else if String.eqb (ah_type a) HealthCheckHTTP then
    if negb (validThreshold (ah_httpFailures a)) || (zlen (ah_healthyStatuses a) =? 0)
       || (zlen (ah_unhealthyStatuses a) =? 0) || String.eqb (ah_path a) ""
       || negb (has_prefix (ah_path a) "/") then invalid
    else
      let healthy := normalizeStatuses (ah_healthyStatuses a) in
      let unhealthy := normalizeStatuses (ah_unhealthyStatuses a) in
      if statusesOverlap healthy unhealthy then invalid
      else Ok (set_activeStatuses a healthy unhealthy)
  else if String.eqb (ah_type a) HealthCheckTCP then
    if negb (ah_httpFailures a =? 0) || negb (String.eqb (ah_path a) "")
       || negb (String.eqb (ah_host a) "") || negb (zlen (ah_healthyStatuses a) =? 0)
       || negb (zlen (ah_unhealthyStatuses a) =? 0) then invalid
    else Ok a
  else Err (mkConfigError "ACTIVE_HEALTH_INVALID" (field +:+ ".active.type") id).

Definition normalizePassive (id field : string) (p : PassiveHealthPolicy)
    : result ConfigError PassiveHealthPolicy :=
  let invalid suffix := Err (mkConfigError "PASSIVE_HEALTH_INVALID" (field +:+ suffix) id) in
  if (ph_httpFailures p =? 0) && (ph_transportFailures p =? 0) && (ph_timeouts p =? 0)
  then invalid ".passive"
  else if negb (validOptionalThreshold (ph_httpFailures p))
          || negb (validOptionalThreshold (ph_transportFailures p))
          || negb (validOptionalThreshold (ph_timeouts p)) then invalid ".passive"
  else
    let statuses := normalizeStatuses (ph_unhealthyStatuses p) in
    if (0 <? ph_httpFailures p) && (zlen statuses =? 0) then invalid ".passive.unhealthy_statuses"
    else Ok (mkPassiveHealth (ph_httpFailures p) (ph_transportFailures p) (ph_timeouts p) statuses).

Definition set_health (u : Upstream) (h : HealthPolicy) : Upstream :=
  mkUpstream (up_id u) (up_endpoints u) (up_balancer u) (up_transport u) h (up_retry u).

Definition normalizeHealth (u : Upstream) (field : string) : result ConfigError Upstream :=
  match hp_active (up_health u) with
  | None =>
      match hp_passive (up_health u) with
      | Some _ =>
          Err (mkConfigError "PASSIVE_HEALTH_REQUIRES_ACTIVE" (field +:+ ".passive") (up_id u))
      | None => Ok u
      end
  | Some active =>
      active ← normalizeActive (up_id u) field active;
      match hp_passive (up_health u) with
      | None => Ok (set_health u (mkHealthPolicy (Some active) None))
      | Some passive =>
          passive ← normalizePassive (up_id u) field passive;
          Ok (set_health u (mkHealthPolicy (Some active) (Some passive)))
      end
  end.

(** ** Retry *)

Definition zeroRetryOn : RetryOnPolicy := mkRetryOn false false false [].
Definition zeroRetryBudget : RetryBudgetPolicy := mkRetryBudget 0 0 0.

Definition retryPolicyIsLegacy (p : RetryPolicy) : bool :=
  ((rp_maxAttempts p =? 0) || (rp_maxAttempts p =? 1)) && (zlen (rp_methods p) =? 0) &&
  negb (ro_connectFailure (rp_retryOn p)) && negb (ro_connectionFailure (rp_retryOn p)) &&
  negb (ro_responseHeaderTimeout (rp_retryOn p)) && (zlen (ro_statuses (rp_retryOn p)) =? 0) &&
  bool_decide (rp_budget p = zeroRetryBudget) && (rp_totalTimeout p =? 0).

Definition set_retry (u : Upstream) (p : RetryPolicy) : Upstream :=
  mkUpstream (up_id u) (up_endpoints u) (up_balancer u) (up_transport u) (up_health u) p.

Section retry.
Context `{Unicode}.

Fixpoint normalizeMethods (id field : string) (index : nat) (methods : list string)
    : result ConfigError (list string) :=
  match methods with
  | [] => Ok []
  | m :: methods =>
      let m := to_upper m in
      if negb (validToken m)
      then Err (mkConfigError "RETRY_POLICY_INVALID" (indexed (field +:+ ".methods") index) id)
      else methods ← normalizeMethods id field (S index) methods; Ok (m :: methods)
  end.

Definition retryableStatus (status : Z) : bool :=
  (status =? 408) || (status =? 425) || (status =? 429) || ((500 <=? status) && (status <=? 599)).

Fixpoint checkStatuses (id field : string) (index : nat) (statuses : list Z)
    : result ConfigError () :=
  match statuses with
  | [] => Ok ()
  | s :: statuses =>
      if retryableStatus s then checkStatuses id field (S index) statuses
      else Err (mkConfigError "RETRY_STATUS_INVALID"
                  (indexed (field +:+ ".retry_on.statuses") index) id)
  end.

Definition retryBounds (p : RetryPolicy) : bool :=
  (1 <=? rp_maxAttempts p) && (rp_maxAttempts p <=? 5) &&
  ((rp_totalTimeout p =? 0) ||
   ((Millisecond <=? rp_totalTimeout p) && (rp_totalTimeout p <=? 10 * Minute))) &&
  (rb_ratioPer1000 (rp_budget p) <=? 1000) &&
  (1 <=? rb_burst (rp_budget p)) && (rb_burst (rp_budget p) <=? 1000) &&
  (1 <=? rb_maxInflight (rp_budget p)) && (rb_maxInflight (rp_budget p) <=? 1000).

Definition normalizeRetry (u : Upstream) (field : string) : result ConfigError Upstream :=
  let p := up_retry u in
  if retryPolicyIsLegacy p then
    Ok (set_retry u (mkRetryPolicy 1 [] zeroRetryOn zeroRetryBudget 0))
  else if negb (retryBounds p) then Err (mkConfigError "RETRY_POLICY_INVALID" field (up_id u))
  else
    methods ← normalizeMethods (up_id u) field 0 (rp_methods p);
    let methods := compactStrings (sort_strings methods) in
    let on := rp_retryOn p in
    let statuses := normalizeStatuses (ro_statuses on) in
    _ ← checkStatuses (up_id u) field 0 statuses;
    Ok (set_retry u
          (mkRetryPolicy (rp_maxAttempts p) methods
             (mkRetryOn (ro_connectFailure on) (ro_connectionFailure on)
                (ro_responseHeaderTimeout on) statuses)
             (rp_budget p) (rp_totalTimeout p))).
End retry.

(** ** Balancer and transport *)

Definition set_balancer (u : Upstream) (b : BalancerPolicy) : Upstream :=
  mkUpstream (up_id u) (up_endpoints u) b (up_transport u) (up_health u) (up_retry u).

Definition set_transport (u : Upstream) (t : TransportConfig) : Upstream :=
  mkUpstream (up_id u) (up_endpoints u) (up_balancer u) t (up_health u) (up_retry u).

Fixpoint normalizeHashSources (id field : string) (index : nat) (sources : list HashKeySource)
    : result ConfigError (list HashKeySource) :=
  match sources with
  | [] => Ok []
  | source :: sources =>
      source ← normalizeHashSource source (indexed field index) id;
      sources ← normalizeHashSources id field (S index) sources;
      Ok (source :: sources)
  end.

Definition normalizeBalancer (u : Upstream) (upstreamField : string) : result ConfigError Upstream :=
  let type := if String.eqb (bp_type (up_balancer u)) "" then BalancerWeightedRoundRobin
              else bp_type (up_balancer u) in
  let sources := bp_sources (up_balancer u) in
  let sourcesField := upstreamField +:+ ".balancer.hash_key.sources" in
  if String.eqb type BalancerWeightedRoundRobin then
    if negb (zlen sources =? 0) then Err (mkConfigError "HASH_KEY_INVALID" sourcesField (up_id u))
    else Ok (set_balancer u (mkBalancer type sources))
  else if String.eqb type BalancerConsistentHash then
    if (zlen sources =? 0) || (Z.of_nat MaxHashKeySources <? zlen sources)
    then Err (mkConfigError "HASH_KEY_INVALID" sourcesField (up_id u))
    else
      sources ← normalizeHashSources (up_id u) sourcesField 0 sources;
      Ok (set_balancer u (mkBalancer type sources))
  else Err (mkConfigError "BALANCER_TYPE_INVALID" (upstreamField +:+ ".balancer.type") (up_id u)).

(** The first failing entry of the table of positive transport settings. *)
Definition invalidTransportField (t : TransportConfig) : option string :=
  let checks :=
    [("dial_timeout", 0 <? tc_dialTimeout t);
     ("response_header_timeout", 0 <? tc_responseHeaderTimeout t);
     ("idle_connection_timeout", 0 <? tc_idleConnectionTimeout t);
     ("max_idle_connections", 0 <? tc_maxIdleConnections t);
     ("max_idle_connections_per_host", 0 <? tc_maxIdleConnectionsPerHost t)] in
  '(_, (field, _)) ← list_find (fun check => check.2 = false) checks; Some field.

Definition set_protocol (t : TransportConfig) (protocol : string) (tls : option UpstreamTLSPolicy)
    : TransportConfig :=
  mkTransport protocol tls (tc_dialTimeout t) (tc_responseHeaderTimeout t)
    (tc_idleConnectionTimeout t) (tc_maxIdleConnections t) (tc_maxIdleConnectionsPerHost t).

Definition surrounded (reference : string) : bool :=
  negb (String.eqb reference "") && negb (String.eqb (trim_space reference) reference).

Definition validateTLS (id field : string) (p : UpstreamTLSPolicy)
    : result ConfigError UpstreamTLSPolicy :=
  let invalid suffix := Err (mkConfigError "TRANSPORT_TLS_INVALID" (field +:+ suffix) id) in
  if surrounded (tls_trustBundleRef p) then invalid ".trust_bundle_ref"
  else if surrounded (tls_clientCertificateRef p) then invalid ".client_certificate_ref"
  else if String.eqb (tls_serverName p) "" then Ok p
  else match normalizeHost (tls_serverName p) with
       | None => invalid ".server_name"
       | Some name =>
           Ok (mkUpstreamTLS (tls_trustBundleRef p) (tls_clientCertificateRef p) name)
       end.

Definition knownProtocol (protocol : string) : bool :=
  String.eqb protocol TransportProtocolAuto || String.eqb protocol TransportProtocolHTTP1
  || String.eqb protocol TransportProtocolHTTP2.

Definition validateTransport (u : Upstream) (scheme upstreamField : string)
    : result ConfigError Upstream :=
  let t := up_transport u in
  let error code suffix :=
    Err (mkConfigError code (upstreamField +:+ ".transport" +:+ suffix) (up_id u)) in
  match invalidTransportField t with
  | Some field => error "TRANSPORT_PROFILE_INVALID" ("." +:+ field)
  | None =>
      let protocol := if String.eqb (tc_protocol t) "" then TransportProtocolHTTP1
                      else tc_protocol t in
      if negb (knownProtocol protocol) then error "TRANSPORT_PROTOCOL_INVALID" ".protocol"
      else
        match tc_tls t with
        | None => Ok (set_transport u (set_protocol t protocol None))
        | Some policy =>
            if String.eqb scheme "http" then error "TRANSPORT_TLS_INVALID" ".tls"
            else
              policy ← validateTLS (up_id u) (upstreamField +:+ ".transport.tls") policy;
              Ok (set_transport u (set_protocol t protocol (Some policy)))
        end
  end.

(** ** [Normalize] *)

Record endpointConfig := mkEndpointConfig {
  ec_endpoint : Endpoint;
  ec_identity : string;
  ec_index : nat;
}.

(** The variables of the endpoint loop: identities seen, positive weights
    counted, and their scheme. *)
Record endpointScan := mkScan {
  es_seen : gset string;
  es_active : Z;
  es_scheme : string;
}.

Definition scanScheme (id upstreamField field canonicalURL : string) (weight : Z) (scheme : string)
    : result ConfigError string :=
  if negb (0 <? weight) then Ok scheme
  else
    match url_Parse canonicalURL with
    | None => Err (mkConfigError "UPSTREAM_ENDPOINT_INVALID" (field +:+ ".url") id)
    | Some parsed =>
        if String.eqb scheme "" then Ok (u_scheme parsed)
        else if negb (String.eqb scheme (u_scheme parsed))
        then Err (mkConfigError "UPSTREAM_SCHEME_MIXED" (upstreamField +:+ ".endpoints") id)
        else Ok scheme
    end.

Definition scanEndpoint (id upstreamField : string) (index : nat) (e : Endpoint) (s : endpointScan)
    : result ConfigError (endpointConfig * endpointScan) :=
  let field := indexed (upstreamField +:+ ".endpoints") index in
  let error code suffix := Err (mkConfigError code (field +:+ suffix) id) in
  if MaxEndpointWeight <? ep_weight e then error "UPSTREAM_WEIGHT_INVALID" ".weight"
  else
    match normalizeEndpoint (ep_url e) with
    | None => error "UPSTREAM_ENDPOINT_INVALID" ".url"
    | Some canonicalURL =>
        scheme ← scanScheme id upstreamField field canonicalURL (ep_weight e) (es_scheme s);
        let identity := endpointIdentity id canonicalURL in
        if bool_decide (identity ∈ es_seen s) then error "UPSTREAM_ENDPOINT_DUPLICATE" ".url"
        else
          Ok (mkEndpointConfig (mkEndpoint canonicalURL (ep_weight e)) identity index,
              mkScan ({[identity]} ∪ es_seen s)
                (if 0 <? ep_weight e then es_active s + 1 else es_active s) scheme)
    end.

Fixpoint scanEndpoints (id upstreamField : string) (index : nat) (es : list Endpoint)
    (s : endpointScan) : result ConfigError (list endpointConfig * endpointScan) :=
  match es with
  | [] => Ok ([], s)
  | e :: es =>
      '(c, s) ← scanEndpoint id upstreamField index e s;
      '(cs, s) ← scanEndpoints id upstreamField (S index) es s;
      Ok (c :: cs, s)
  end.

Definition identity_before (a b : endpointConfig) : bool :=
  String.ltb (ec_identity a) (ec_identity b).

Definition set_endpoints (u : Upstream) (es : list Endpoint) : Upstream :=
  mkUpstream (up_id u) es (up_balancer u) (up_transport u) (up_health u) (up_retry u).

Section normalize.
Context `{Unicode}.

(** One round of the loop over the upstreams, after the identifier checks. *)
Definition normalizeUpstream (upstreamField : string) (u : Upstream) : result ConfigError Upstream :=
  '(configs, scan) ← scanEndpoints (up_id u) upstreamField 0 (up_endpoints u) (mkScan ∅ 0 "");
  if es_active scan =? 0 then
    Err (mkConfigError "UPSTREAM_NO_ACTIVE_ENDPOINT" (upstreamField +:+ ".endpoints") (up_id u))
  else
    let u := set_endpoints u (ec_endpoint <$> sort_slice identity_before configs) in
    u ← normalizeBalancer u upstreamField;
    u ← validateTransport u (es_scheme scan) upstreamField;
    u ← normalizeHealth u (upstreamField +:+ ".health");
    normalizeRetry u (upstreamField +:+ ".retry").

Fixpoint normalizeUpstreams (index : nat) (seen : gset string) (total : Z) (us : list Upstream)
    : result ConfigError (list Upstream) :=
  match us with
  | [] => Ok []
  | u :: us =>
      let field := indexed "upstreams" index in
      let error code suffix := Err (mkConfigError code (field +:+ suffix) (up_id u)) in
      let total := total + zlen (up_endpoints u) in
      if String.eqb (up_id u) "" || negb (String.eqb (trim_space (up_id u)) (up_id u))
      then error "UPSTREAM_ID_INVALID" ".id"
      else if bool_decide (up_id u ∈ seen) then error "UPSTREAM_ID_DUPLICATE" ".id"
      else if zlen (up_endpoints u) =? 0 then error "UPSTREAM_ENDPOINTS_EMPTY" ".endpoints"
      else if MaxUpstreamEndpoints <? zlen (up_endpoints u)
      then error "UPSTREAM_ENDPOINT_LIMIT" ".endpoints"
      else if MaxSnapshotEndpoints <? total then error "UPSTREAM_ENDPOINT_LIMIT" ".endpoints"
      else
        u' ← normalizeUpstream field u;
        us ← normalizeUpstreams (S index) ({[up_id u]} ∪ seen) total us;
        Ok (u' :: us)
  end.

Definition Normalize (resources : list Upstream) : result ConfigError (list Upstream) :=
  if MaxUpstreams <? zlen resources
  then Err (mkConfigError "UPSTREAM_ENDPOINT_LIMIT" "upstreams" "")
  else normalizeUpstreams 0 ∅ 0 resources.
End normalize.

(** ** Ordered sets are sorted without repetition *)

Section Compact.
Context {A : Type} `{EqDecision A} (less : A → A → bool).
Hypothesis less_total : ∀ x y, less x y = false → less y x = false → x = y.

Lemma elem_of_compactLoop (kept : A) values x : x ∈ compactLoop kept values ↔ x = kept ∨ x ∈ values.
Proof.
  revert kept. induction values as [|v values IH]; intros kept; simpl.
  - rewrite list_elem_of_singleton, elem_of_nil. tauto.
  - destruct (decide (v = kept)) as [-> |]; rewrite ?elem_of_cons, IH; rewrite ?elem_of_cons; tauto.
Qed.

Lemma compactLoop_sorted kept values : StronglySorted (not_after less) (kept :: values) →
  StronglySorted (fun x y => less x y = true) (compactLoop kept values).
Proof.
  revert kept. induction values as [|v values IH]; intros kept Hs; simpl.
  { constructor; constructor. }
  apply StronglySorted_inv in Hs as [Hs Hk]. apply Forall_cons in Hk as [Hkv Hk].
  destruct (decide (v = kept)) as [-> |Hne].
  - apply IH. done.
  - constructor; [by apply IH|]. apply Forall_forall. intros x Hx%elem_of_compactLoop.
    apply StronglySorted_inv in Hs as [_ Hv]. rewrite Forall_forall in Hk, Hv. unfold not_after in *.
    destruct (less kept x) eqn:E; [done|]. exfalso.
    destruct Hx as [-> | Hx]; [by apply Hne, less_total|].
    assert (kept = x) as -> by (apply less_total; [done|by apply Hk]).
    apply Hne, less_total; [done|]. by apply Hv.
Qed.

Lemma compact_sorted values : StronglySorted (not_after less) values →
  StronglySorted (fun x y => less x y = true) (compact values).
Proof. destruct values; [constructor|apply compactLoop_sorted]. Qed.

Lemma elem_of_compact (values : list A) x : x ∈ compact values ↔ x ∈ values.
Proof. destruct values; simpl; [done|]. by rewrite elem_of_compactLoop, elem_of_cons. Qed.
End Compact.

Definition ascending (l : list Z) : Prop := StronglySorted Z.lt l.

Lemma normalizeStatuses_spec l :
  ascending (normalizeStatuses l) ∧ ∀ x, x ∈ normalizeStatuses l ↔ x ∈ l.
Proof.
  split.
  - assert (Hs : StronglySorted (fun x y => (x <? y) = true) (normalizeStatuses l)).
    { apply compact_sorted; [intros x y ??; bool_hyps; lia|].
      apply sort_slice_sorted; intros; bool_hyps; apply Z.ltb_ge; lia. }
    eapply StronglySorted_weaken; [|exact Hs]. simpl. intros x y ?. by apply Z.ltb_lt.
  - intros x. unfold normalizeStatuses, compactUint16s. by rewrite elem_of_compact, elem_of_sort_slice.
Qed.

Lemma statusesOverlapLoop_spec fuel left right : ascending left → ascending right →
  (length left + length right ≤ fuel)%nat →
  statusesOverlapLoop fuel left right = true ↔ ∃ x, x ∈ left ∧ x ∈ right.
Proof.
  assert (Hskip : ∀ (a b : Z) (l r : list Z), a < b → ascending (b :: r) →
    (∃ x, x ∈ a :: l ∧ x ∈ b :: r) ↔ ∃ x, x ∈ l ∧ x ∈ b :: r).
  { intros a b l r Hab Hr. apply StronglySorted_inv in Hr as [_ Hr]. rewrite Forall_forall in Hr.
    split; intros (x & Hx & Hxr); exists x; (split; [|done]); [|by right].
    apply elem_of_cons in Hx as [-> | ?]; [|done]. exfalso.
    apply elem_of_cons in Hxr as [-> | Hin]; [lia|]. specialize (Hr _ Hin). lia. }
  revert left right. induction fuel as [|fuel IH]; intros left right Hl Hr Hlen.
  { destruct left; [|simpl in Hlen; lia]. split; [done|]. by intros (x & ?%not_elem_of_nil & _). }
  destruct left as [|a l]; simpl.
  { split; [done|]. by intros (x & ?%not_elem_of_nil & _). }
  destruct right as [|b r].
  { split; [done|]. by intros (x & _ & ?%not_elem_of_nil). }
  pose proof (StronglySorted_inv Hl) as [Hl' _]. pose proof (StronglySorted_inv Hr) as [Hr' _].
  simpl in Hlen. destruct (a =? b) eqn:Eab; bool_hyps.
  { subst. split; [|done]. intros _. exists b. split; left. }
  destruct (a <? b) eqn:Elt; bool_hyps.
  - rewrite IH by (done || simpl; lia). by rewrite Hskip.
  - rewrite IH by (done || simpl; lia). setoid_rewrite (and_comm (_ ∈ a :: l)).
    rewrite Hskip by (done || lia). done.
Qed.

Lemma statusesOverlap_disjoint left right : ascending left → ascending right →
  statusesOverlap left right = false → ∀ x, x ∈ left → x ∈ right → False.
Proof.
  intros Hl Hr Ho x Hx Hx'. enough (statusesOverlap left right = true) by congruence.
  apply statusesOverlapLoop_spec; [done..|]. by exists x.
Qed.

(** ** Canonical upstreams *)

Definition canonicalURL (url : string) : Prop := ∃ raw, normalizeEndpoint raw = Some url.

Definition identityOf (id : string) (e : Endpoint) : string := endpointIdentity id (ep_url e).

Record active_ok (a : ActiveHealthPolicy) : Prop := {
  act_timeout : 10 * Millisecond ≤ ah_timeout a ≤ 30 * Second;
  act_healthyInterval : 100 * Millisecond ≤ ah_healthyInterval a ≤ Hour;
  act_unhealthyInterval : 100 * Millisecond ≤ ah_unhealthyInterval a ≤ Hour;
  act_successes : 1 ≤ ah_healthySuccesses a ≤ 254;
  act_transport : 1 ≤ ah_transportFailures a ≤ 254;
  act_timeouts : 1 ≤ ah_timeouts a ≤ 254;
  act_kind :
    ah_type a = HealthCheckHTTP ∧ 1 ≤ ah_httpFailures a ≤ 254 ∧ has_prefix (ah_path a) "/" = true ∧
      ascending (ah_healthyStatuses a) ∧ ascending (ah_unhealthyStatuses a) ∧
      (∀ s, s ∈ ah_healthyStatuses a → s ∈ ah_unhealthyStatuses a → False) ∨
    ah_type a = HealthCheckTCP ∧ ah_httpFailures a = 0;
}.

Record passive_ok (p : PassiveHealthPolicy) : Prop := {
  pas_thresholds : Forall (fun t => t = 0 ∨ 1 ≤ t ≤ 254)
    [ph_httpFailures p; ph_transportFailures p; ph_timeouts p];
  pas_some : ph_httpFailures p ≠ 0 ∨ ph_transportFailures p ≠ 0 ∨ ph_timeouts p ≠ 0;
  pas_statuses : ascending (ph_unhealthyStatuses p);
  pas_http : 0 < ph_httpFailures p → ph_unhealthyStatuses p ≠ [];
}.

Record health_policy_ok (h : HealthPolicy) : Prop := {
  hpo_active a : hp_active h = Some a → active_ok a;
  hpo_passive p : hp_passive h = Some p → passive_ok p ∧ is_Some (hp_active h);
}.

Record retry_ok (p : RetryPolicy) : Prop := {
  ret_attempts : 1 ≤ rp_maxAttempts p ≤ 5;
  ret_methods : StronglySorted (fun a b => String.ltb a b = true) (rp_methods p);
  ret_tokens : Forall (fun m => validToken m = true) (rp_methods p);
  ret_statuses : ascending (ro_statuses (rp_retryOn p));
  ret_retryable : Forall (fun s => retryableStatus s = true) (ro_statuses (rp_retryOn p));
  ret_budget : rp_budget p = zeroRetryBudget ∧ rp_maxAttempts p = 1 ∨
    rb_ratioPer1000 (rp_budget p) ≤ 1000 ∧ 1 ≤ rb_burst (rp_budget p) ≤ 1000 ∧
    1 ≤ rb_maxInflight (rp_budget p) ≤ 1000;
}.

Record transport_ok (t : TransportConfig) : Prop := {
  tra_positive : Forall (fun v => 0 < v)
    [tc_dialTimeout t; tc_responseHeaderTimeout t; tc_idleConnectionTimeout t;
     tc_maxIdleConnections t; tc_maxIdleConnectionsPerHost t];
  tra_protocol : knownProtocol (tc_protocol t) = true;
}.

Definition balancer_ok (b : BalancerPolicy) : Prop :=
  bp_type b = BalancerWeightedRoundRobin ∧ bp_sources b = [] ∨
  bp_type b = BalancerConsistentHash ∧ 1 ≤ zlen (bp_sources b) ≤ 8 ∧
    Forall (fun s => ∃ raw field id, normalizeHashSource raw field id = Ok s) (bp_sources b).

Record upstream_ok (u : Upstream) : Prop := {
  uo_id : up_id u ≠ "" ∧ trim_space (up_id u) = up_id u;
  uo_count : 1 ≤ zlen (up_endpoints u) ≤ MaxUpstreamEndpoints;
  uo_weights : Forall (fun e => ep_weight e ≤ MaxEndpointWeight) (up_endpoints u);
  uo_canonical : Forall (fun e => canonicalURL (ep_url e)) (up_endpoints u);
  uo_sorted : StronglySorted (fun a b => String.ltb a b = true)
    (identityOf (up_id u) <$> up_endpoints u);
  uo_scheme : ∃ scheme, http_scheme scheme ∧
    (∀ e, e ∈ up_endpoints u → 0 < ep_weight e → u_scheme <$> url_Parse (ep_url e) = Some scheme) ∧
    (scheme = "http" → tc_tls (up_transport u) = None);
  uo_active : ∃ e, e ∈ up_endpoints u ∧ 0 < ep_weight e;
  uo_balancer : balancer_ok (up_balancer u);
  uo_transport : transport_ok (up_transport u);
  uo_health : health_policy_ok (up_health u);
  uo_retry : retry_ok (up_retry u);
}.

(** ** [Normalize] produces canonical upstreams *)

Lemma validThreshold_spec v : validThreshold v = true → 1 ≤ v ≤ 254.
Proof. unfold validThreshold. intros. bool_hyps. lia. Qed.

Lemma normalizeActive_ok id field a a' : normalizeActive id field a = Ok a' → active_ok a'.
Proof.
  unfold normalizeActive. destruct (activeBounds a) eqn:Hb; [|done]. simpl.
  unfold activeBounds in Hb. bool_hyps.
  repeat match goal with H : validThreshold _ = true |- _ => apply validThreshold_spec in H end.
  destruct (String.eqb (ah_type a) HealthCheckHTTP) eqn:Ehttp.
  - case_scrutinee; [done|]. bool_hyps. case_scrutinee; [done|]. intros [= <-].
    apply String.eqb_eq in Ehttp.
    destruct (normalizeStatuses_spec (ah_healthyStatuses a)) as [Hh _].
    destruct (normalizeStatuses_spec (ah_unhealthyStatuses a)) as [Hu _].
    split; simpl; try lia. left. split_and!; try done.
    + by apply validThreshold_spec.
    + by apply validThreshold_spec.
    + by apply statusesOverlap_disjoint.
  - destruct (String.eqb (ah_type a) HealthCheckTCP) eqn:Etcp; [|done].
    case_scrutinee; [done|]. bool_hyps. intros [= <-]. apply String.eqb_eq in Etcp.
    split; try lia. by right.
Qed.

Lemma normalizePassive_ok id field p p' : normalizePassive id field p = Ok p' → passive_ok p'.
Proof.
  unfold normalizePassive. case_scrutinee; [done|]. case_scrutinee; [done|]. bool_hyps.
  case_scrutinee; [done|]. intros [= <-].
  assert (Hopt : ∀ v, validOptionalThreshold v = true → v = 0 ∨ 1 ≤ v ≤ 254).
  { intros v Hv. unfold validOptionalThreshold in Hv. apply orb_true_iff in Hv as [Hv|Hv].
    - left. by apply Z.eqb_eq. - right. by apply validThreshold_spec. }
  split; simpl.
  - rewrite !Forall_cons. split_and!; by auto.
  - repeat match goal with
    | H : _ && _ = false |- _ => apply andb_false_iff in H as [H|H]
    end; bool_hyps; lia.
  - apply normalizeStatuses_spec.
  - intros Hpos Hnil. rewrite Hnil in *. unfold zlen in *. simpl in *.
    replace (0 <? ph_httpFailures p) with true in * by (symmetry; by apply Z.ltb_lt). done.
Qed.

(** Two upstreams that differ at most in one policy. *)
Definition same_rest (u u' : Upstream) : Prop := up_id u' = up_id u ∧ up_endpoints u' = up_endpoints u.

Lemma normalizeHealth_ok u field u' : normalizeHealth u field = Ok u' →
  same_rest u u' ∧ up_balancer u' = up_balancer u ∧ up_transport u' = up_transport u ∧
  health_policy_ok (up_health u').
Proof.
  unfold normalizeHealth. destruct (hp_active (up_health u)) as [a|] eqn:Ea.
  - destruct (normalizeActive _ _ a) as [a'|] eqn:Ha; [|done]. simpl. apply normalizeActive_ok in Ha.
    destruct (hp_passive (up_health u)) as [p|] eqn:Ep.
    + destruct (normalizePassive _ _ p) as [p'|] eqn:Hp; [|done]. apply normalizePassive_ok in Hp.
      intros [= <-]. split_and!; try done. split; simpl; intros ? [= <-]; [done|]. by split.
    + intros [= <-]. split_and!; try done. split; simpl; [|done]. by intros ? [= <-].
  - destruct (hp_passive (up_health u)) as [p|] eqn:Ep; [done|]. intros [= <-].
    split_and!; try done. split; congruence.
Qed.

Section NormalizeRetry.
Context `{Unicode}.

Lemma normalizeMethods_tokens id field index methods methods' :
  normalizeMethods id field index methods = Ok methods' → Forall (fun m => validToken m = true) methods'.
Proof.
  revert index methods'. induction methods as [|m methods IH]; intros index methods'; simpl.
  { intros [= <-]. constructor. }
  destruct (validToken (to_upper m)) eqn:Et; [|done]. simpl.
  destruct (normalizeMethods _ _ _ methods) eqn:E; [|done]. intros [= <-]. constructor; eauto.
Qed.

Lemma checkStatuses_ok id field index statuses :
  checkStatuses id field index statuses = Ok () → Forall (fun s => retryableStatus s = true) statuses.
Proof.
  revert index. induction statuses as [|s statuses IH]; intros index; simpl; [constructor|].
  destruct (retryableStatus s) eqn:E; [|done]. intros Hok. constructor; eauto.
Qed.

Lemma sorted_methods (methods : list string) :
  StronglySorted (fun a b => String.ltb a b = true) (compactStrings (sort_strings methods)).
Proof.
  apply compact_sorted; [intros; by apply string_ltb_total|].
  apply sort_slice_sorted; [apply string_ltb_asym|intros x y z ??; by apply (string_ltb_false_trans z y x)].
Qed.

Lemma normalizeRetry_ok u field u' : normalizeRetry u field = Ok u' →
  same_rest u u' ∧ up_balancer u' = up_balancer u ∧ up_transport u' = up_transport u ∧
  up_health u' = up_health u ∧ retry_ok (up_retry u').
Proof.
  unfold normalizeRetry. destruct (retryPolicyIsLegacy _).
  { intros [= <-]. split_and!; try done. split; simpl; [lia|constructor..|by left]. }
  destruct (retryBounds (up_retry u)) eqn:Hb; [|done]. simpl. unfold retryBounds in Hb. bool_hyps.
  intros Hok. inv_ok.
  match goal with H : normalizeMethods _ _ _ _ = _ |- _ => apply normalizeMethods_tokens in H as Ht end.
  match goal with H : checkStatuses _ _ _ _ = Ok ?x |- _ => destruct x; apply checkStatuses_ok in H end.
  split_and!; try done. split; simpl; [lia|apply sorted_methods| |apply normalizeStatuses_spec|done|].
  - apply Forall_forall. intros m Hm. unfold compactStrings in Hm.
    rewrite elem_of_compact, elem_of_sort_strings in Hm. by eapply Forall_forall in Ht.
  - right. split_and!; lia.
Qed.
End NormalizeRetry.

Lemma normalizeEndpoint_scheme raw url : normalizeEndpoint raw = Some url →
  ∃ scheme rest, http_scheme scheme ∧ url = scheme +:+ "://" +:+ rest.
Proof.
  unfold normalizeEndpoint. destruct (url_Parse raw) as [p|]; [|done]. simpl.
  destruct (negb _ && negb _) eqn:Es; [done|].
  assert (Hs : http_scheme (u_scheme p)).
  { apply andb_false_iff in Es as [E|E]; apply negb_false_iff, String.eqb_eq in E; [by left|by right]. }
  repeat (case_scrutinee; [done|]). destruct (parsePort _); [|done]. simpl.
  case_scrutinee; [done|]. destruct (normalizeHost _); [|done]. simpl. intros [= <-]. eauto.
Qed.

Lemma invalidTransportField_None t : invalidTransportField t = None →
  Forall (fun v => 0 < v)
    [tc_dialTimeout t; tc_responseHeaderTimeout t; tc_idleConnectionTimeout t;
     tc_maxIdleConnections t; tc_maxIdleConnectionsPerHost t].
Proof.
  unfold invalidTransportField. destruct (list_find _ _) as [[i [field b]]|] eqn:E; [done|].
  intros _. apply list_find_None in E. rewrite !Forall_cons in *. simpl in E.
  destruct E as (E1 & E2 & E3 & E4 & E5 & _).
  repeat match goal with H : ¬ (_ <? _) = false |- _ => apply not_false_is_true in H end.
  bool_hyps. split_and!; done.
Qed.

Lemma validateTransport_ok u scheme field u' : validateTransport u scheme field = Ok u' →
  same_rest u u' ∧ up_balancer u' = up_balancer u ∧ transport_ok (up_transport u') ∧
  (scheme = "http" → tc_tls (up_transport u') = None).
Proof.
  unfold validateTransport. destruct (invalidTransportField _) eqn:Ef; [done|].
  apply invalidTransportField_None in Ef.
  case_scrutinee; [done|]. bool_hyps. destruct (tc_tls (up_transport u)) as [policy|] eqn:Et.
  - destruct (String.eqb scheme "http") eqn:Es; [done|]. apply String.eqb_neq in Es.
    destruct (validateTLS _ _ policy) as [policy'|]; [|done]. intros [= <-]. by split_and!.
  - intros [= <-]. by split_and!.
Qed.

Lemma normalizeHashSources_ok id field index sources sources' :
  normalizeHashSources id field index sources = Ok sources' →
  length sources' = length sources ∧
  Forall (fun s => ∃ raw field id, normalizeHashSource raw field id = Ok s) sources'.
Proof.
  revert index sources'. induction sources as [|s sources IH]; intros index sources'; simpl.
  { intros [= <-]. by split. }
  destruct (normalizeHashSource _ _ _) as [s'|] eqn:Es; [|done]. simpl.
  destruct (normalizeHashSources _ _ _ sources) as [ss|] eqn:Ess; [|done]. intros [= <-].
  destruct (IH _ _ Ess) as [Hlen Hall]. simpl. split; [lia|]. constructor; eauto.
Qed.

Lemma normalizeBalancer_ok u field u' : normalizeBalancer u field = Ok u' →
  same_rest u u' ∧ up_transport u' = up_transport u ∧ balancer_ok (up_balancer u').
Proof.
  unfold normalizeBalancer. set (type := if String.eqb _ "" then _ else _).
  destruct (String.eqb type BalancerWeightedRoundRobin) eqn:Ew.
  - apply String.eqb_eq in Ew. destruct (zlen _ =? 0) eqn:El; [|done]. intros [= <-]. split_and!; try done.
    left. simpl. split; [done|]. bool_hyps. unfold zlen in El. by apply nil_length_inv; lia.
  - destruct (String.eqb type BalancerConsistentHash) eqn:Ec; [|done]. apply String.eqb_eq in Ec.
    case_scrutinee; [done|]. bool_hyps. destruct (normalizeHashSources _ _ _ _) as [ss|] eqn:Ess; [|done].
    intros [= <-]. apply normalizeHashSources_ok in Ess as [Hlen Hall]. split_and!; try done.
    right. simpl. split_and!; try done; unfold zlen, MaxHashKeySources in *; lia.
Qed.

(** ** The endpoint loop *)

Definition positive (c : endpointConfig) : Prop := 0 < ep_weight (ec_endpoint c).

Record scan_ok (id : string) (cs : list endpointConfig) (s s' : endpointScan) : Prop := {
  sc_weights : Forall (fun c => ep_weight (ec_endpoint c) ≤ MaxEndpointWeight) cs;
  sc_canonical : Forall (fun c => canonicalURL (ep_url (ec_endpoint c))) cs;
  sc_identity : Forall (fun c => ec_identity c = identityOf id (ec_endpoint c)) cs;
  sc_fresh : NoDup (ec_identity <$> cs) ∧ Forall (fun c => ec_identity c ∉ es_seen s) cs;
  sc_scheme : Forall (fun c => positive c →
    u_scheme <$> url_Parse (ep_url (ec_endpoint c)) = Some (es_scheme s')) cs;
  sc_start : es_scheme s ≠ "" → es_scheme s' = es_scheme s;
  sc_set : es_scheme s' = "" ∨ http_scheme (es_scheme s');
  sc_active : es_active s ≤ es_active s' ∧
    (es_active s < es_active s' → ∃ c, c ∈ cs ∧ positive c);
}.

Lemma scanScheme_ok id uf f url w scheme scheme' : canonicalURL url →
  scheme = "" ∨ http_scheme scheme → scanScheme id uf f url w scheme = Ok scheme' →
  (scheme ≠ "" → scheme' = scheme) ∧ (scheme' = "" ∨ http_scheme scheme') ∧
  (0 < w → u_scheme <$> url_Parse url = Some scheme' ∧ http_scheme scheme').
Proof.
  intros [raw Hraw] Hs. unfold scanScheme. destruct (0 <? w) eqn:Ew; bool_hyps; simpl.
  2: { intros [= <-]. split_and!; [done|done|lia]. }
  destruct (url_Parse url) as [parsed|] eqn:Hp; [|done].
  assert (Hsch : http_scheme (u_scheme parsed)).
  { apply normalizeEndpoint_scheme in Hraw as (sc & rest & Hsc & ->).
    by rewrite (url_Parse_scheme _ _ _ Hsc Hp). }
  destruct (String.eqb scheme "") eqn:E0; [apply String.eqb_eq in E0|apply String.eqb_neq in E0].
  - intros [= <-]. subst scheme. split_and!; [done|by right|done].
  - destruct (String.eqb scheme (u_scheme parsed)) eqn:Eq; [|done]. apply String.eqb_eq in Eq.
    intros [= <-]. subst scheme. split_and!; [done|by right|done].
Qed.

Lemma scanEndpoints_ok id uf index es s cs s' :
  es_scheme s = "" ∨ http_scheme (es_scheme s) →
  scanEndpoints id uf index es s = Ok (cs, s') → length cs = length es ∧ scan_ok id cs s s'.
Proof.
  revert index s cs s'. induction es as [|e es IH]; intros index s cs s' Hs; simpl.
  { intros [= <- <-]. split; [done|]. split; [constructor..|split; constructor|constructor|done|done|split; lia]. }
  unfold scanEndpoint. destruct (MaxEndpointWeight <? ep_weight e) eqn:Ew; [done|]. bool_hyps.
  destruct (normalizeEndpoint (ep_url e)) as [url|] eqn:Hurl; [|done].
  assert (Hcan : canonicalURL url) by (by eexists).
  destruct (scanScheme _ _ _ _ _ _) as [scheme|] eqn:Hsch; [|done]. simpl.
  destruct (scanScheme_ok _ _ _ _ _ _ _ Hcan Hs Hsch) as (Hkeep & Hset & Hpos).
  destruct (bool_decide _) eqn:Hdup; [done|]. bool_hyps. simpl.
  set (s1 := mkScan _ _ _). destruct (scanEndpoints _ _ _ es s1) as [[cs1 s2]|] eqn:Hrest; [|done].
  simpl. intros [= <- <-]. destruct (IH _ s1 _ _ Hset Hrest) as [Hlen [Hw Hc Hi [Hnd Hfr] Hsc Hst Hse [Ha1 Ha2]]].
  split; [simpl; lia|]. split.
  - by constructor.
  - by constructor.
  - by constructor.
  - split.
    + rewrite fmap_cons. constructor; [|done]. intros (c & Hc' & Hin)%list_elem_of_fmap.
      rewrite Forall_forall in Hfr. specialize (Hfr _ Hin). rewrite <-Hc' in Hfr. simpl in Hfr. set_solver.
    + constructor; [done|]. eapply Forall_impl; [exact Hfr|]. simpl. set_solver.
  - constructor; [|done]. intros Hp. destruct (Hpos Hp) as [Hparse Hhttp].
    cbn [ec_endpoint ep_url]. rewrite Hparse. f_equal. symmetry. apply Hst. simpl.
    by destruct Hhttp as [-> | ->].
  - intros Hne. rewrite Hst by (simpl; rewrite Hkeep; done). by apply Hkeep.
  - done.
  - simpl in *. split.
    + destruct (0 <? ep_weight e); lia.
    + intros Hlt. destruct (0 <? ep_weight e) eqn:E; bool_hyps.
      * eexists. split; [left|]. unfold positive. done.
      * destruct (Ha2 Hlt) as (c & ? & ?). exists c. split; [by right|done].
Qed.

Lemma sorted_identities (configs : list endpointConfig) : NoDup (ec_identity <$> configs) →
  StronglySorted (fun a b => String.ltb a b = true) (ec_identity <$> sort_slice identity_before configs).
Proof.
  intros Hnd.
  assert (Hs : StronglySorted (not_after identity_before) (sort_slice identity_before configs)).
  { apply sort_slice_sorted; unfold identity_before; [intros; by apply string_ltb_asym|].
    intros x y z ??. by apply (string_ltb_false_trans _ (ec_identity y)). }
  assert (Hnd' : NoDup (ec_identity <$> sort_slice identity_before configs))
    by (by rewrite sort_slice_perm).
  clear Hnd. induction Hs as [|c l Hs IH Hc]; csimpl in *; [constructor|].
  apply NoDup_cons in Hnd' as [Hnot Hnd]. constructor; [by apply IH|].
  apply Forall_fmap, Forall_forall. intros c' Hin. rewrite Forall_forall in Hc.
  specialize (Hc _ Hin). unfold not_after, identity_before, compose in *.
  destruct (String.ltb (ec_identity c) (ec_identity c')) eqn:E; [done|]. exfalso. apply Hnot.
  rewrite (string_ltb_total _ _ E Hc). by apply list_elem_of_fmap_2.
Qed.

Section NormalizeSpec.
Context `{Unicode}.

Lemma normalizeUpstream_ok field u u' :
  up_id u ≠ "" ∧ trim_space (up_id u) = up_id u → 1 ≤ zlen (up_endpoints u) ≤ MaxUpstreamEndpoints →
  normalizeUpstream field u = Ok u' →
  up_id u' = up_id u ∧ zlen (up_endpoints u') = zlen (up_endpoints u) ∧ upstream_ok u'.
Proof.
  intros Hid Hcount Hok. unfold normalizeUpstream in Hok.
  destruct (scanEndpoints _ _ _ _ _) as [[configs scan]|] eqn:Hscan; [|done]. simpl in Hok.
  destruct (es_active scan =? 0) eqn:Ea; [done|]. bool_hyps.
  apply scanEndpoints_ok in Hscan as [Hlen [Hw Hc Hi [Hnd _] Hsc _ Hset [Ha1 Ha2]]]; [|by left].
  simpl in Ha1, Ha2.
  apply bind_ok_inv in Hok as (u1 & [[I1 E1] [T1 B1]]%normalizeBalancer_ok & Hok).
  apply bind_ok_inv in Hok as (u2 & [[I2 E2] (B2 & T2 & S2)]%validateTransport_ok & Hok).
  apply bind_ok_inv in Hok as (u3 & [[I3 E3] (B3 & T3 & H3)]%normalizeHealth_ok & Hok).
  apply normalizeRetry_ok in Hok as [[I4 E4] (B4 & T4 & H4 & R4)].
  simpl in I1, E1.
  assert (Hid' : up_id u' = up_id u) by congruence.
  assert (Hes : up_endpoints u' = ec_endpoint <$> sort_slice identity_before configs) by congruence.
  assert (Hall : ∀ P : endpointConfig → Prop, Forall P configs → ∀ c,
    c ∈ sort_slice identity_before configs → P c).
  { intros P HP c Hin%elem_of_sort_slice. by eapply Forall_forall in HP. }
  assert (Hpos : ∃ c, c ∈ configs ∧ positive c) by (apply Ha2; lia).
  split; [done|]. split.
  { unfold zlen. rewrite Hes, length_fmap, length_sort_slice, Hlen. done. }
  split.
  - by rewrite Hid'.
  - unfold zlen in *. rewrite Hes, length_fmap, length_sort_slice, Hlen. done.
  - rewrite Hes. apply Forall_fmap, Forall_forall. exact (Hall _ Hw).
  - rewrite Hes. apply Forall_fmap, Forall_forall. exact (Hall _ Hc).
  - rewrite Hes, Hid', <-list_fmap_compose.
    rewrite (list_fmap_ext _ ec_identity); [by apply sorted_identities|].
    intros i c Hl. symmetry. apply (Hall _ Hi), (list_elem_of_lookup_2 _ _ _ Hl).
  - exists (es_scheme scan).
    assert (Hhttp : http_scheme (es_scheme scan)).
    { destruct Hset as [Hempty|]; [|done]. exfalso. destruct Hpos as (c & Hin & Hp).
      rewrite Forall_forall in Hsc, Hc. specialize (Hsc _ Hin Hp).
      destruct (Hc _ Hin) as [raw (sc & rest & Hsch & Hurl)%normalizeEndpoint_scheme].
      rewrite Hurl in Hsc.
      destruct (url_Parse _) as [p|] eqn:Hparse; [|done]. apply url_Parse_scheme in Hparse; [|done].
      simpl in Hsc. injection Hsc as Hsc. destruct Hsch; congruence. }
    split_and!; [done| |].
    + intros e. rewrite Hes. intros (c & -> & Hin)%list_elem_of_fmap. exact (Hall _ Hsc _ Hin).
    + intros Hh. rewrite T4, T3. by apply S2.
  - destruct Hpos as (c & Hin & Hp). exists (ec_endpoint c). split; [|done]. rewrite Hes.
    apply list_elem_of_fmap_2. by apply elem_of_sort_slice.
  - by rewrite B4, B3, B2.
  - by rewrite T4, T3.
  - by rewrite H4.
  - done.
Qed.

Lemma normalizeUpstreams_ok index seen total us ns :
  normalizeUpstreams index seen total us = Ok ns →
  up_id <$> ns = up_id <$> us ∧ NoDup (up_id <$> us) ∧ Forall (fun u => up_id u ∉ seen) us ∧
  (us ≠ [] → total + zsum (fun u => zlen (up_endpoints u)) ns ≤ MaxSnapshotEndpoints) ∧
  Forall upstream_ok ns.
Proof.
  revert index seen total ns. induction us as [|u us IH]; intros index seen total ns; simpl.
  { intros [= <-]. split_and!; try done; constructor. }
  case_scrutinee; [done|]. bool_hyps.
  repeat match goal with
  | H : String.eqb _ _ = false |- _ => apply String.eqb_neq in H
  | H : String.eqb _ _ = true |- _ => apply String.eqb_eq in H
  end.
  case_scrutinee; [done|]. case_scrutinee; [done|]. case_scrutinee; [done|]. case_scrutinee; [done|].
  bool_hyps. destruct (normalizeUpstream _ u) as [u'|] eqn:Hu; [|done]. simpl.
  destruct (normalizeUpstreams _ _ _ us) as [ns'|] eqn:Hns; [|done]. intros [= <-].
  apply normalizeUpstream_ok in Hu as (Hid & Hlen & Huok); [|done|unfold zlen in *; lia].
  destruct (IH _ _ _ _ Hns) as (Hids & Hnd & Hfresh & Htot & Hall). split_and!.
  - rewrite !fmap_cons. by rewrite Hid, Hids.
  - constructor; [|done]. intros (v & Hv & Hin)%list_elem_of_fmap.
    rewrite Forall_forall in Hfresh. specialize (Hfresh _ Hin). rewrite <-Hv in Hfresh. set_solver.
  - constructor; [done|]. eapply Forall_impl; [exact Hfresh|]. simpl. set_solver.
  - intros _. unfold zsum in *. cbn [foldr]. rewrite Hlen. destruct us as [|u2 us].
    + destruct ns'; [|done]. simpl. lia.
    + specialize (Htot ltac:(done)). lia.
  - by constructor.
Qed.

(** [Normalize] keeps the upstreams in order with their identifiers, which
    are distinct, stays within the snapshot's endpoint limit, and leaves every
    upstream canonical: canonical endpoint URLs of one scheme strictly sorted
    by identity with at least one positive weight, known balancer and transport
    policies, thresholds, intervals and budgets within their bounds, and
    sorted, duplicate-free and disjoint status sets. *)
Theorem Normalize_canonical us ns : Normalize us = Ok ns →
  up_id <$> ns = up_id <$> us ∧ NoDup (up_id <$> ns) ∧
  zsum (fun u => zlen (up_endpoints u)) ns ≤ MaxSnapshotEndpoints ∧ Forall upstream_ok ns.
Proof.
  unfold Normalize. case_scrutinee; [done|]. intros (Hids & Hnd & _ & Htot & Hall)%normalizeUpstreams_ok.
  split_and!; [done|by rewrite Hids| |done].
  destruct us; [|specialize (Htot ltac:(done)); lia]. destruct ns; [|done].
  unfold MaxSnapshotEndpoints. simpl. lia.
Qed.
End NormalizeSpec.

(** ** A concrete upstream *)

Definition demo_upstream : Upstream :=
  mkUpstream "users" [mkEndpoint "HTTP://B.example.:8080/" 2; mkEndpoint "http://[::ffff:10.0.0.1]" 0]
    (mkBalancer "" []) (mkTransport "" None 1 1 1 1 1)
    (mkHealthPolicy (Some (mkActiveHealth "http" Second Second Second 2 3 3 3 [200; 204; 200] [500] "/" ""))
       None)
    (mkRetryPolicy 2 ["get"; "GET"] (mkRetryOn true false false [503; 502]) (mkRetryBudget 200 10 5) 0).

Example demo_Normalize :
  @Normalize ascii_only_unicode [demo_upstream] =
  Ok [mkUpstream "users" [mkEndpoint "http://10.0.0.1:80" 0; mkEndpoint "http://b.example:8080" 2]
        (mkBalancer "weighted_round_robin" []) (mkTransport "http1" None 1 1 1 1 1)
        (mkHealthPolicy
           (Some (mkActiveHealth "http" Second Second Second 2 3 3 3 [200; 204] [500] "/" "")) None)
        (mkRetryPolicy 2 ["GET"] (mkRetryOn true false false [502; 503]) (mkRetryBudget 200 10 5) 0)].
Proof. vm_compute. reflexivity. Qed.

Lemma Normalize_canonical_witness :
  ∃ ns, @Normalize ascii_only_unicode [demo_upstream] = Ok ns ∧ Forall upstream_ok ns.
Proof.
  destruct (@Normalize ascii_only_unicode [demo_upstream]) as [ns|e] eqn:E;
    [|by rewrite demo_Normalize in E].
  exists ns. split; [done|].
  exact (proj2 (proj2 (proj2 (@Normalize_canonical ascii_only_unicode [demo_upstream] ns E)))).
Defined.
