(* ===== verification/X509.v ===== *)
(** * Certificates ([internal/tlsmaterial], [crypto/x509], [crypto/tls])

    The parsed certificate values the gateway carries, and host name
    verification of [crypto/x509], which the downstream TLS selector calls to
    check that a certificate covers the names bound to it. *)

From S2P Require Import Prelude GoStrings NetAddr.
#[local] Open Scope string_scope.
#[local] Open Scope nat_scope.
#[local] Open Scope list_scope.

(** ** Values *)

(** The fields of [x509.Certificate] the gateway reads. Instants are
    nanoseconds since the zero [time.Time]; addresses are their octets. *)
Record Leaf := mkLeaf {
  lf_raw : string;
  lf_notBefore : Z;
  lf_notAfter : Z;
  lf_dnsNames : list string;
  lf_ipAddresses : list (list N);
}.

(** The fields of [tls.Certificate]: the chain and its parsed first element. *)
Record tlsCertificate := mkTLSCertificate {
  tc_chain : list string;
  tc_leaf : option Leaf;
}.

Record Certificate := mkCertificate {
  cert_id : string;
  cert_certificate : tlsCertificate;
  cert_fingerprint : string;
}.

Record TrustBundle := mkTrustBundle {
  tb_id : string;
  tb_certificates : list Leaf;
  tb_fingerprint : string;
}.

(** ** Host name verification *)

Definition trim_suffix_dot (s : string) : string :=
  if has_suffix s "." then stake (String.length s - 1) s else s.

Definition hostnameByte (first : bool) (c : ascii) : bool :=
  is_lower c || is_digit c || is_upper c || (Ascii.eqb c "-" && negb first) || Ascii.eqb c "_".

Definition validPart (part : string) : bool :=
  match part with
  | EmptyString => false
  | String c part => hostnameByte true c && string_forallb (hostnameByte false) part
  end.

Definition validHostname (host : string) (isPattern : bool) : bool :=
  let host := if isPattern then host else trim_suffix_dot host in
  if String.eqb host "" || String.eqb host "*" then false
  else
    match split_byte "." host with
    | [] => true
    | part :: parts =>
        (isPattern && String.eqb part "*" || validPart part) && forallb validPart parts
    end.

Definition matchExactly (hostA hostB : string) : bool :=
  if String.eqb hostA "" || String.eqb hostA "." || String.eqb hostB "" || String.eqb hostB "." then false
  else String.eqb (to_lower_ascii hostA) (to_lower_ascii hostB).

Fixpoint equalParts (l k : list string) : bool :=
  match l, k with
  | [], [] => true
  | x :: l, y :: k => String.eqb x y && equalParts l k
  | _, _ => false
  end.

Definition matchHostnames (pattern host : string) : bool :=
  let pattern := to_lower_ascii pattern in
  let host := to_lower_ascii (trim_suffix_dot host) in
  if String.eqb pattern "" || String.eqb host "" then false
  else
    match split_byte "." pattern, split_byte "." host with
    | p :: ps, h :: hs => (String.eqb p "*" || String.eqb p h) && equalParts ps hs
    | _, _ => false
    end.

(** [net.ParseIP], in its 16-octet form. *)
Definition v4in6 (fields : list N) : list N := replicate 10 0%N ++ [255%N; 255%N] ++ fields.

Definition ParseIP (s : string) : option (list N) :=
  match parse_addr s with
  | None => None
  | Some (Addr4 fields) => Some (v4in6 fields)
  | Some (Addr6 octets zone) => if String.eqb zone "" then Some octets else None
  end.

(** [net.IP.Equal] for a 16-octet left-hand side. *)
Definition ip_equal (ip other : list N) : bool :=
  bool_decide (ip = other) || (Nat.eqb (length other) 4 && bool_decide (ip = v4in6 other)).

Definition unbracketed (h : string) : string :=
  if (3 <=? String.length h) && has_prefix h "[" && has_suffix h "]"
  then slice h 1 (String.length h - 1) else h.

Definition VerifyHostname (leaf : Leaf) (h : string) : bool :=
  match ParseIP (unbracketed h) with
  | Some ip => existsb (ip_equal ip) (lf_ipAddresses leaf)
  | None =>
      let candidate := to_lower_ascii h in
      let validCandidate := validHostname candidate false in
      existsb (fun pattern =>
        if validCandidate && validHostname pattern true then matchHostnames pattern candidate
        else matchExactly pattern candidate) (lf_dnsNames leaf)
  end.

Example VerifyHostname_wildcard :
  VerifyHostname (mkLeaf "" 0 0 ["*.Example.com"] []) "a.example.com" = true.
Proof. reflexivity. Qed.
Example VerifyHostname_one_label :
  VerifyHostname (mkLeaf "" 0 0 ["*.example.com"] []) "a.b.example.com" = false.
Proof. reflexivity. Qed.
