(* ===== verification/Fingerprint.v ===== *)
(** * Runtime sharing keys ([internal/upstream/{transport,profile,fingerprint}.go])

    The registry shares runtimes between generations by key: transports by
    [transportKey], endpoint health by [healthKey], retry budgets by
    [budgetKey].  This file models how a transport profile is resolved from an
    upstream and its TLS material, and how the keys are computed.  The health
    and budget keys are SHA-256 fingerprints of a byte stream; the digest is a
    parameter and the theorems are about the stream: it determines the policy
    and the transport key, so two trackers share a key only if the digest
    collides or every policy field agrees. *)

From S2P Require Import Prelude GoStrings NetAddr HashKey Chash Url Resources X509.
#[local] Open Scope string_scope.
#[local] Open Scope Z_scope.
#[local] Open Scope list_scope.

(** ** TLS material *)

(** [Fingerprint{}]: the zero array. *)
Definition zeroFingerprint : string :=
  String.string_of_list_ascii (replicate 32 Ascii.zero).

Record materialIndex := mkMaterials {
  mi_certificates : gmap string Certificate;
  mi_trustBundles : gmap string TrustBundle;
}.

(** One entry of the loops of [newMaterialIndex]: [nil] entries and entries
    without identifier are refused, as are identifiers already [seen]. *)
Definition materialID (kind : string) (position : nat) (id : option string) (seen : gset string)
    : result ConfigError string :=
  let field := kind +:+ "[" +:+ pretty (Z.of_nat position) +:+ "].id" in
  match id with
  | None => Err (mkConfigError "TLS_MATERIAL_ID_INVALID" field "")
  | Some id =>
      if String.eqb id "" then Err (mkConfigError "TLS_MATERIAL_ID_INVALID" field "")
      else if bool_decide (id ∈ seen) then Err (mkConfigError "TLS_MATERIAL_ID_DUPLICATE" field "")
      else Ok id
  end.

Fixpoint indexMaterial {A} (kind : string) (id_of : A → string) (position : nat)
    (items : list (option A)) (seen : gset string) (index : gmap string A)
    : result ConfigError (gmap string A * gset string) :=
  match items with
  | [] => Ok (index, seen)
  | item :: items =>
      id ← materialID kind position (id_of <$> item) seen;
      indexMaterial kind id_of (S position) items ({[id]} ∪ seen)
        (match item with Some item => <[id := item]> index | None => index end)
  end.

Definition newMaterialIndex (certificates : list (option Certificate))
    (trustBundles : list (option TrustBundle)) : result ConfigError materialIndex :=
  '(certificates, seen) ← indexMaterial "certificates" cert_id 0 certificates ∅ ∅;
  '(trustBundles, _) ← indexMaterial "trust_bundles" tb_id 0 trustBundles seen ∅;
  Ok (mkMaterials certificates trustBundles).

(** ** Transport profiles ([profile.go]) *)

Record transportProfile := mkProfile {
  pr_scheme : string;
  pr_protocol : string;
  pr_transport : TransportConfig;
  pr_trustBundle : option TrustBundle;
  pr_clientCertificate : option Certificate;
  pr_serverName : string;
}.

Fixpoint profileScheme (id : string) (endpoints : list Endpoint) (scheme : string)
    : result ConfigError string :=
  match endpoints with
  | [] => Ok scheme
  | e :: endpoints =>
      if ep_weight e =? 0 then profileScheme id endpoints scheme
      else
        match url_Parse (ep_url e) with
        | None => Err (mkConfigError "UPSTREAM_ENDPOINT_INVALID" "upstreams.endpoints" id)
        | Some parsed =>
            if String.eqb scheme "" then profileScheme id endpoints (u_scheme parsed)
            else if negb (String.eqb scheme (u_scheme parsed))
            then Err (mkConfigError "UPSTREAM_SCHEME_MIXED" "upstreams.endpoints" id)
            else profileScheme id endpoints scheme
        end
  end.

(** A reference into the material index; the empty reference resolves to none. *)
Definition resolveMaterial {A} (index : gmap string A) (reference field id : string)
    : result ConfigError (option A) :=
  if String.eqb reference "" then Ok None
  else match index !! reference with
       | None => Err (mkConfigError "TLS_MATERIAL_REF_NOT_FOUND" field id)
       | Some material => Ok (Some material)
       end.

Definition compileTransportProfile (u : Upstream) (materials : materialIndex)
    : result ConfigError transportProfile :=
  scheme ← profileScheme (up_id u) (up_endpoints u) "";
  if String.eqb scheme ""
  then Err (mkConfigError "UPSTREAM_NO_ACTIVE_ENDPOINT" "upstreams.endpoints" (up_id u))
  else
    let t := up_transport u in
    match tc_tls t with
    | None => Ok (mkProfile scheme (tc_protocol t) t None None "")
    | Some policy =>
        bundle ← resolveMaterial (mi_trustBundles materials) (tls_trustBundleRef policy)
                   "upstreams.transport.tls.trust_bundle_ref" (up_id u);
        certificate ← resolveMaterial (mi_certificates materials) (tls_clientCertificateRef policy)
                   "upstreams.transport.tls.client_certificate_ref" (up_id u);
        Ok (mkProfile scheme (tc_protocol t) t bundle certificate (tls_serverName policy))
    end.

(** ** Transport keys ([transport.go]) *)

Definition tlsTransportPolicyVersion : Z := 1.
Definition VersionTLS12 : Z := 771.

Record transportKey := mkTransportKey {
  tk_scheme : string;
  tk_serverName : string;
  tk_protocol : string;
  tk_dialTimeout : Z;
  tk_responseHeaderTimeout : Z;
  tk_idleConnectionTimeout : Z;
  tk_maxIdleConnections : Z;
  tk_maxIdleConnectionsPerHost : Z;
  tk_tlsEnabled : bool;
  tk_tlsPolicyVersion : Z;
  tk_trustSystem : bool;
  tk_trustFingerprint : string;
  tk_clientFingerprint : string;
  tk_minTLSVersion : Z;
  tk_disableCompression : bool;
}.

#[global] Instance transportKey_eq_dec : EqDecision transportKey.
Proof. solve_decision. Defined.

#[global] Instance transportKey_countable : Countable transportKey.
Proof.
  refine (inj_countable'
    (fun k => (tk_scheme k, tk_serverName k, tk_protocol k, tk_dialTimeout k,
               tk_responseHeaderTimeout k, tk_idleConnectionTimeout k, tk_maxIdleConnections k,
               tk_maxIdleConnectionsPerHost k, tk_tlsEnabled k, tk_tlsPolicyVersion k,
               tk_trustSystem k, tk_trustFingerprint k, tk_clientFingerprint k,
               tk_minTLSVersion k, tk_disableCompression k))
    (fun '(a, b, c, d, e, f, g, h, i, j, k, l, m, n, o) =>
       mkTransportKey a b c d e f g h i j k l m n o) _).
  by intros [].
Defined.

Definition makeTransportKey (p : transportProfile) : transportKey :=
  let t := pr_transport p in
  let tls := String.eqb (pr_scheme p) "https" in
  mkTransportKey (pr_scheme p) (pr_serverName p) (pr_protocol p)
    (tc_dialTimeout t) (tc_responseHeaderTimeout t) (tc_idleConnectionTimeout t)
    (tc_maxIdleConnections t) (tc_maxIdleConnectionsPerHost t)
    tls (if tls then tlsTransportPolicyVersion else 0)
    (if tls then bool_decide (pr_trustBundle p = None) else false)
    (if tls then from_option tb_fingerprint zeroFingerprint (pr_trustBundle p) else zeroFingerprint)
    (if tls then from_option cert_fingerprint zeroFingerprint (pr_clientCertificate p)
     else zeroFingerprint)
    (if tls then VersionTLS12 else 0) true.

(** ** Fingerprint streams ([fingerprint.go])

    A [hash.Hash] holds the bytes written so far. *)

(** [binary.BigEndian.PutUint16] *)
Definition be16 (x : Z) : string :=
  bytes ((fun k => Z.to_N (Z.land (Z.shiftr x (8 * k)) 255)) <$> [1; 0]).

Definition writeUint64 (dst : string) (value : Z) : string := dst +:+ be64 value.
Definition writeUint16 (dst : string) (value : Z) : string := dst +:+ be16 value.
Definition writeByte (dst : string) (value : Z) : string := dst +:+ hash_byte (Z.to_N value).
Definition writeBool (dst : string) (value : bool) : string := writeByte dst (if value then 1 else 0).

Definition writeString (dst value : string) : string :=
  writeUint64 dst (Z.of_nat (String.length value)) +:+ value.

Definition writeStatuses (dst : string) (values : list Z) : string :=
  foldl writeUint16 (writeUint64 dst (Z.of_nat (length values))) values.

(** [uint64(d)] of a signed 64-bit value. *)
Definition toUint64 (x : Z) : Z := wrap64 x.

Definition writeTransportKey (dst : string) (key : transportKey) : string :=
  let dst := writeString dst (tk_scheme key) in
  let dst := writeString dst (tk_serverName key) in
  let dst := writeString dst (tk_protocol key) in
  let dst := writeUint64 dst (toUint64 (tk_dialTimeout key)) in
  let dst := writeUint64 dst (toUint64 (tk_responseHeaderTimeout key)) in
  let dst := writeUint64 dst (toUint64 (tk_idleConnectionTimeout key)) in
  let dst := writeUint64 dst (toUint64 (tk_maxIdleConnections key)) in
  let dst := writeUint64 dst (toUint64 (tk_maxIdleConnectionsPerHost key)) in
  let dst := writeBool dst (tk_tlsEnabled key) in
  let dst := writeByte dst (tk_tlsPolicyVersion key) in
  let dst := writeBool dst (tk_trustSystem key) in
  let dst := dst +:+ tk_trustFingerprint key in
  let dst := dst +:+ tk_clientFingerprint key in
  let dst := writeUint16 dst (tk_minTLSVersion key) in
  writeBool dst (tk_disableCompression key).

Definition writeActive (dst : string) (active : option ActiveHealthPolicy) : string :=
  match active with
  | None => writeByte dst 0
  | Some a =>
      let dst := writeByte dst 1 in
      let dst := writeString dst (ah_type a) in
      let dst := writeUint64 dst (toUint64 (ah_timeout a)) in
      let dst := writeUint64 dst (toUint64 (ah_healthyInterval a)) in
      let dst := writeUint64 dst (toUint64 (ah_unhealthyInterval a)) in
      let dst := writeByte dst (ah_healthySuccesses a) in
      let dst := writeByte dst (ah_httpFailures a) in
      let dst := writeByte dst (ah_transportFailures a) in
      let dst := writeByte dst (ah_timeouts a) in
      let dst := writeStatuses dst (ah_healthyStatuses a) in
      let dst := writeStatuses dst (ah_unhealthyStatuses a) in
      let dst := writeString dst (ah_path a) in
      writeString dst (ah_host a)
  end.

Definition writePassive (dst : string) (passive : option PassiveHealthPolicy) : string :=
  match passive with
  | None => writeByte dst 0
  | Some p =>
      let dst := writeByte dst 1 in
      let dst := writeByte dst (ph_httpFailures p) in
      let dst := writeByte dst (ph_transportFailures p) in
      let dst := writeByte dst (ph_timeouts p) in
      writeStatuses dst (ph_unhealthyStatuses p)
  end.

(** The bytes [makeHealthKey] digests. *)
Definition healthKeyBytes (policy : HealthPolicy) (transport : transportKey) : string :=
  let dst := writeString "" "gateway/health-key/v2" in
  let dst := writeActive dst (hp_active policy) in
  let dst := writePassive dst (hp_passive policy) in
  writeTransportKey dst transport.

Definition budgetKeyBytes (policy : RetryBudgetPolicy) : string :=
  let dst := writeUint16 "" (rb_ratioPer1000 policy) in
  let dst := writeUint16 dst (rb_burst policy) in
  writeUint16 dst (rb_maxInflight policy).

Definition healthKey : Type := string * string.
Definition budgetKey : Type := string * string.
#[global] Instance healthKey_eq_dec : EqDecision healthKey := prod_eq_dec.
#[global] Instance healthKey_countable : Countable healthKey := prod_countable.
#[global] Instance budgetKey_eq_dec : EqDecision budgetKey := prod_eq_dec.
#[global] Instance budgetKey_countable : Countable budgetKey := prod_countable.

Definition makeHealthKey (sha256 : string → string) (endpointIdentity : string)
    (policy : HealthPolicy) (transport : transportKey) : healthKey :=
  (endpointIdentity, sha256 (healthKeyBytes policy transport)).

Definition makeBudgetKey (sha256 : string → string) (upstreamID : string)
    (policy : RetryBudgetPolicy) : budgetKey :=
  (upstreamID, sha256 (budgetKeyBytes policy)).

(** ** Reading the stream back

    A code for the values of a range [P] that can be read back from the front
    of any stream. *)

Class RangedCode {A} (P : A → Prop) (code : A → string) : Prop :=
  ranged_code : ∀ x y s t, P x → P y → code x +:+ s = code y +:+ t → x = y ∧ s = t.

Definition uint (w x : Z) : Prop := 0 ≤ x < 2 ^ w.
Definition int64 (x : Z) : Prop := - 2 ^ 63 ≤ x < 2 ^ 63.
Definition wire_string (s : string) : Prop := uint 64 (Z.of_nat (String.length s)).
Definition fixed32 (s : string) : Prop := String.length s = 32%nat.

Lemma byte_field_inj x y k : ascii_of_N (Z.to_N (Z.land (Z.shiftr x (8 * k)) 255)) =
  ascii_of_N (Z.to_N (Z.land (Z.shiftr y (8 * k)) 255)) → 0 ≤ k →
  x / 2 ^ (8 * k) mod 256 = y / 2 ^ (8 * k) mod 256.
Proof.
  intros Heq Hk.
  assert (Hf : ∀ z, Z.land (Z.shiftr z (8 * k)) 255 = z / 2 ^ (8 * k) mod 256).
  { intros z. change 255 with (Z.ones 8). rewrite Z.land_ones, Z.shiftr_div_pow2 by lia. done. }
  rewrite !Hf in Heq.
  pose proof (Z.mod_pos_bound (x / 2 ^ (8 * k)) 256 ltac:(lia)).
  pose proof (Z.mod_pos_bound (y / 2 ^ (8 * k)) 256 ltac:(lia)).
  apply ascii_of_N_inj in Heq; [|lia..]. lia.
Qed.

(** A value is determined by its base-256 digits. *)
Lemma digits_inj n x y : (∀ k, 0 ≤ k < Z.of_nat n → x / 2 ^ (8 * k) mod 256 = y / 2 ^ (8 * k) mod 256) →
  0 ≤ x < 2 ^ (8 * Z.of_nat n) → 0 ≤ y < 2 ^ (8 * Z.of_nat n) → x = y.
Proof.
  revert x y. induction n as [|n IH]; intros x y Hd Hx Hy; [simpl in *; lia|].
  assert (Hpow : 2 ^ (8 * Z.of_nat (S n)) = 256 * 2 ^ (8 * Z.of_nat n)).
  { replace (8 * Z.of_nat (S n)) with (8 + 8 * Z.of_nat n) by lia. by rewrite Z.pow_add_r by lia. }
  pose proof (Hd 0 ltac:(lia)) as H0. rewrite Z.mul_0_r, Z.pow_0_r, !Z.div_1_r in H0.
  assert (x / 256 = y / 256) as H1.
  { apply IH.
    - intros k Hk. specialize (Hd (k + 1) ltac:(lia)).
      rewrite !Z.div_div by lia.
      replace (256 * 2 ^ (8 * k)) with (2 ^ (8 * (k + 1))); [done|].
      replace (8 * (k + 1)) with (8 + 8 * k) by lia. by rewrite Z.pow_add_r by lia.
    - split; [apply Z.div_pos; lia|apply Z.div_lt_upper_bound; lia].
    - split; [apply Z.div_pos; lia|apply Z.div_lt_upper_bound; lia]. }
  rewrite (Z.div_mod x 256), (Z.div_mod y 256) by lia. lia.
Qed.

Lemma bytes_cons n l s : bytes (n :: l) +:+ s = String (ascii_of_N n) (bytes l +:+ s).
Proof. reflexivity. Qed.

Lemma bytes_reads (f g : Z → N) ks s t :
  bytes (f <$> ks) +:+ s = bytes (g <$> ks) +:+ t →
  (∀ k, k ∈ ks → ascii_of_N (f k) = ascii_of_N (g k)) ∧ s = t.
Proof.
  induction ks as [|k ks IH]; intros Heq; [split; [by intros ? ?%not_elem_of_nil|done]|].
  rewrite !fmap_cons, !bytes_cons in Heq. inversion Heq as [[Hk Hrest]]. clear Heq.
  destruct (IH Hrest) as [Hks ->]. split; [|done].
  intros k' [-> | ?]%elem_of_cons; auto.
Qed.

#[local] Instance be64_code : RangedCode (uint 64) be64.
Proof.
  intros x y s t Hx Hy [Hks ->]%bytes_reads. split; [|done]. apply (digits_inj 8); [|done..].
  intros k Hk. apply byte_field_inj; [|lia]. apply Hks. rewrite !elem_of_cons. lia.
Qed.

#[local] Instance be16_code : RangedCode (uint 16) be16.
Proof.
  intros x y s t Hx Hy [Hks ->]%bytes_reads. split; [|done]. apply (digits_inj 2); [|done..].
  intros k Hk. apply byte_field_inj; [|lia]. apply Hks. rewrite !elem_of_cons. lia.
Qed.

Definition byteCode (x : Z) : string := hash_byte (Z.to_N x).
Definition boolCode (b : bool) : string := byteCode (if b then 1 else 0).
Definition signedCode (x : Z) : string := be64 (toUint64 x).
Definition stringCode (s : string) : string := be64 (Z.of_nat (String.length s)) +:+ s.
Definition statusesCode (l : list Z) : string :=
  be64 (Z.of_nat (length l)) +:+ foldr (fun x s => be16 x +:+ s) "" l.

#[local] Instance byte_code : RangedCode (uint 8) byteCode.
Proof.
  intros x y s t Hx Hy Heq. unfold uint in *. inversion Heq as [[Hc Hrest]].
  apply ascii_of_N_inj in Hc; [|lia..]. split; [lia|done].
Qed.

#[local] Instance bool_code : RangedCode (fun _ => True) boolCode.
Proof.
  intros x y s t _ _ Heq. apply byte_code in Heq as [Hxy ->].
  - split; [|done]. by destruct x, y.
  - by destruct x.
  - by destruct y.
Qed.

#[local] Instance signed_code : RangedCode int64 signedCode.
Proof.
  intros x y s t Hx Hy Heq. unfold int64, signedCode, toUint64 in *.
  apply be64_code in Heq as [Hxy ->]; [|apply wrap64_range..]. split; [|done].
  unfold wrap64 in Hxy.
  assert (Hm : ∀ z, - 2 ^ 63 ≤ z < 2 ^ 63 → z mod 2 ^ 64 = if z <? 0 then z + 2 ^ 64 else z).
  { intros z Hz. destruct (z <? 0) eqn:E; bool_hyps; [|by rewrite Z.mod_small by lia].
    symmetry. apply (Z.mod_unique _ _ (-1)); lia. }
  rewrite !Hm in Hxy by done. destruct (x <? 0) eqn:?, (y <? 0) eqn:?; bool_hyps; lia.
Qed.

#[local] Instance string_code : RangedCode wire_string stringCode.
Proof.
  intros x y s t Hx Hy Heq. unfold stringCode in Heq. rewrite !string_app_assoc in Heq.
  apply be64_code in Heq as [Hlen Heq]; [|done..]. apply string_app_inj_length; [lia|done].
Qed.

Lemma fixed32_code x y s t : fixed32 x → fixed32 y → x +:+ s = y +:+ t → x = y ∧ s = t.
Proof. intros Hx Hy Heq. apply string_app_inj_length; [by rewrite Hx, Hy|done]. Qed.

Definition wire_statuses (l : list Z) : Prop :=
  uint 64 (Z.of_nat (length l)) ∧ Forall (uint 16) l.

#[local] Instance statuses_code : RangedCode wire_statuses statusesCode.
Proof.
  intros x y s t [Hx Fx] [Hy Fy] Heq. unfold statusesCode in Heq. rewrite !string_app_assoc in Heq.
  apply be64_code in Heq as [Hlen Heq]; [|done..]. clear Hx Hy. apply Nat2Z.inj in Hlen.
  revert y Fy Hlen Heq. induction x as [|a x IH]; intros [|b y] Fy Hlen Heq; try discriminate Hlen;
    [done|].
  apply Forall_cons in Fx as [Fa Fx]. apply Forall_cons in Fy as [Fb Fy].
  cbn [foldr] in Heq. rewrite !string_app_assoc in Heq.
  apply be16_code in Heq as [-> Heq]; [|done..]. injection Hlen as Hlen.
  destruct (IH Fx y Fy Hlen Heq) as [-> ->]. done.
Qed.

(** The writers append their codes. *)
Lemma writeStatuses_code dst l : writeStatuses dst l = dst +:+ statusesCode l.
Proof.
  unfold writeStatuses, statusesCode, writeUint64. rewrite <-string_app_assoc.
  generalize (dst +:+ be64 (Z.of_nat (length l))). induction l as [|x l IH]; intros d; cbn [foldl foldr].
  - by rewrite string_app_nil_r.
  - rewrite IH. unfold writeUint16. by rewrite string_app_assoc.
Qed.

Lemma writeString_code dst s : writeString dst s = dst +:+ stringCode s.
Proof. unfold writeString, writeUint64, stringCode. by rewrite string_app_assoc. Qed.

Lemma writeByte_code dst x : writeByte dst x = dst +:+ byteCode x.
Proof. reflexivity. Qed.
Lemma writeBool_code dst b : writeBool dst b = dst +:+ boolCode b.
Proof. reflexivity. Qed.
Lemma writeSigned_code dst x : writeUint64 dst (toUint64 x) = dst +:+ signedCode x.
Proof. reflexivity. Qed.
Lemma writeUint16_code dst x : writeUint16 dst x = dst +:+ be16 x.
Proof. reflexivity. Qed.
Lemma string_app_nil_l s : "" +:+ s = s.
Proof. reflexivity. Qed.

Create Rewrite HintDb wire.
#[local] Hint Rewrite writeStatuses_code writeString_code writeByte_code writeBool_code
  writeSigned_code writeUint16_code string_app_nil_l string_app_assoc : wire.

#[local] Opaque byteCode boolCode signedCode stringCode statusesCode be16.

(** Read one field of two equal streams. *)
Ltac read_with H code := apply code in H as [? H]; [|done || by split..].
Ltac read_field H :=
  match type of H with
  | byteCode _ +:+ _ = _ => read_with H byte_code
  | boolCode _ +:+ _ = _ => read_with H bool_code
  | signedCode _ +:+ _ = _ => read_with H signed_code
  | stringCode _ +:+ _ = _ => read_with H string_code
  | statusesCode _ +:+ _ = _ => read_with H statuses_code
  | be16 _ +:+ _ = _ => read_with H be16_code
  | _ +:+ _ = _ => read_with H fixed32_code
  end.

Record wire_active (a : ActiveHealthPolicy) : Prop := {
  wa_type : wire_string (ah_type a);
  wa_timeout : int64 (ah_timeout a);
  wa_healthyInterval : int64 (ah_healthyInterval a);
  wa_unhealthyInterval : int64 (ah_unhealthyInterval a);
  wa_healthySuccesses : uint 8 (ah_healthySuccesses a);
  wa_httpFailures : uint 8 (ah_httpFailures a);
  wa_transportFailures : uint 8 (ah_transportFailures a);
  wa_timeouts : uint 8 (ah_timeouts a);
  wa_healthyStatuses : wire_statuses (ah_healthyStatuses a);
  wa_unhealthyStatuses : wire_statuses (ah_unhealthyStatuses a);
  wa_path : wire_string (ah_path a);
  wa_host : wire_string (ah_host a);
}.

Record wire_passive (p : PassiveHealthPolicy) : Prop := {
  wp_httpFailures : uint 8 (ph_httpFailures p);
  wp_transportFailures : uint 8 (ph_transportFailures p);
  wp_timeouts : uint 8 (ph_timeouts p);
  wp_statuses : wire_statuses (ph_unhealthyStatuses p);
}.

Record wire_transport (k : transportKey) : Prop := {
  wt_scheme : wire_string (tk_scheme k);
  wt_serverName : wire_string (tk_serverName k);
  wt_protocol : wire_string (tk_protocol k);
  wt_dialTimeout : int64 (tk_dialTimeout k);
  wt_responseHeaderTimeout : int64 (tk_responseHeaderTimeout k);
  wt_idleConnectionTimeout : int64 (tk_idleConnectionTimeout k);
  wt_maxIdleConnections : int64 (tk_maxIdleConnections k);
  wt_maxIdleConnectionsPerHost : int64 (tk_maxIdleConnectionsPerHost k);
  wt_tlsPolicyVersion : uint 8 (tk_tlsPolicyVersion k);
  wt_trustFingerprint : fixed32 (tk_trustFingerprint k);
  wt_clientFingerprint : fixed32 (tk_clientFingerprint k);
  wt_minTLSVersion : uint 16 (tk_minTLSVersion k);
}.

(** Write the stream out as a concatenation of codes. *)
Ltac unfold_wire := unfold writeActive, writePassive, writeTransportKey; autorewrite with wire.
Ltac unfold_wire_in H :=
  unfold writeActive, writePassive, writeTransportKey in H; autorewrite with wire in H.

Lemma writeActive_append dst a : writeActive dst a = dst +:+ writeActive "" a.
Proof. destruct a; unfold_wire; reflexivity. Qed.
Lemma writePassive_append dst p : writePassive dst p = dst +:+ writePassive "" p.
Proof. destruct p; unfold_wire; reflexivity. Qed.
Lemma writeTransportKey_append dst k : writeTransportKey dst k = dst +:+ writeTransportKey "" k.
Proof. unfold_wire. reflexivity. Qed.

Definition wire_option {A} (P : A → Prop) (o : option A) : Prop := ∀ x, o = Some x → P x.

#[local] Instance active_code : RangedCode (wire_option wire_active) (writeActive "").
Proof.
  intros x y s t Hx Hy Heq.
  destruct x as [x|], y as [y|]; unfold_wire_in Heq.
  - specialize (Hx _ eq_refl). specialize (Hy _ eq_refl).
    destruct x, y, Hx, Hy; simpl in *. repeat read_field Heq. by subst.
  - by apply byte_code in Heq as [? _]; [|split..].
  - by apply byte_code in Heq as [? _]; [|split..].
  - by apply byte_code in Heq as [_ ->]; [|split..].
Qed.

#[local] Instance passive_code : RangedCode (wire_option wire_passive) (writePassive "").
Proof.
  intros x y s t Hx Hy Heq.
  destruct x as [x|], y as [y|]; unfold_wire_in Heq.
  - specialize (Hx _ eq_refl). specialize (Hy _ eq_refl).
    destruct x, y, Hx, Hy; simpl in *. repeat read_field Heq. by subst.
  - by apply byte_code in Heq as [? _]; [|split..].
  - by apply byte_code in Heq as [? _]; [|split..].
  - by apply byte_code in Heq as [_ ->]; [|split..].
Qed.

#[local] Instance transport_code : RangedCode wire_transport (writeTransportKey "").
Proof.
  intros x y s t Hx Hy Heq. unfold_wire_in Heq. destruct x, y, Hx, Hy; simpl in *.
  repeat read_field Heq. by subst.
Qed.

Record wire_health (p : HealthPolicy) : Prop := {
  wh_active : wire_option wire_active (hp_active p);
  wh_passive : wire_option wire_passive (hp_passive p);
}.

(** The stream digested for a health key determines the whole health policy
    and the whole transport key: trackers of one endpoint are shared between
    generations only if both agree (or SHA-256 collides). *)
Theorem healthKey_determines p p' k k' : wire_health p → wire_health p' →
  wire_transport k → wire_transport k' →
  healthKeyBytes p k = healthKeyBytes p' k' → p = p' ∧ k = k'.
Proof.
  intros [Ha Hp] [Ha' Hp'] Hk Hk' Heq. unfold healthKeyBytes in Heq.
  rewrite !(writeTransportKey_append (writePassive _ _)), !(writePassive_append (writeActive _ _)),
    !(writeActive_append (writeString _ _)), !string_app_assoc in Heq.
  apply string_app_inj_length in Heq as [_ Heq]; [|done].
  apply active_code in Heq as [Hact Heq]; [|done..].
  apply passive_code in Heq as [Hpas Heq]; [|done..].
  rewrite <-(string_app_nil_r (writeTransportKey "" k)), <-(string_app_nil_r (writeTransportKey "" k'))
    in Heq.
  apply transport_code in Heq as [-> _]; [|done..].
  destruct p, p'; simpl in *. by subst.
Qed.

(** The stream digested for a retry-budget key determines the budget policy. *)
Theorem budgetKey_determines p p' :
  uint 16 (rb_ratioPer1000 p) → uint 16 (rb_burst p) → uint 16 (rb_maxInflight p) →
  uint 16 (rb_ratioPer1000 p') → uint 16 (rb_burst p') → uint 16 (rb_maxInflight p') →
  budgetKeyBytes p = budgetKeyBytes p' → p = p'.
Proof.
  intros ?????? Heq. unfold budgetKeyBytes in Heq. autorewrite with wire in Heq.
  rewrite <-(string_app_nil_r (be16 (rb_maxInflight p))), <-(string_app_nil_r (be16 (rb_maxInflight p')))
    in Heq.
  destruct p, p'; simpl in *. repeat read_field Heq. by subst.
Qed.

(** ** Concrete keys *)

Definition demo_health_policy : HealthPolicy :=
  mkHealthPolicy (Some (mkActiveHealth "tcp" 1000 2000 3000 1 0 2 2 [] [] "" "")) None.

Definition demo_transport_key : transportKey :=
  makeTransportKey (mkProfile "https" "auto" (mkTransport "auto" None 1 2 3 4 5) None None "").

Lemma healthKey_determines_witness :
  healthKeyBytes demo_health_policy demo_transport_key =
    healthKeyBytes demo_health_policy demo_transport_key ∧
  demo_health_policy = demo_health_policy ∧ demo_transport_key = demo_transport_key.
Proof.
  split; [reflexivity|].
  assert (wire_health demo_health_policy).
  { split; [|by intros ? [=]]. intros x [= <-]. split; simpl; repeat split; try done; by constructor. }
  assert (wire_transport demo_transport_key) by (split; repeat split; done).
  apply (healthKey_determines demo_health_policy demo_health_policy); done.
Defined.

Lemma budgetKey_determines_witness :
  budgetKeyBytes (mkRetryBudget 200 10 5) = budgetKeyBytes (mkRetryBudget 200 10 5) ∧
  mkRetryBudget 200 10 5 = mkRetryBudget 200 10 5.
Proof.
  split; [reflexivity|]. by apply budgetKey_determines.
Defined.
