(* ===== verification/TlsMaterial.v ===== *)
(** * TLS material ([internal/tlsmaterial/material.go])

    Certificates and trust bundles are parsed once and identified by a digest
    of their DER documents. PEM and X.509 parsing and the digest are
    parameters; the theorem shows that the identity of a trust bundle is the
    set of its certificates, whatever their order and repetition in the file
    and whatever the order in which a Go map is traversed. *)

From S2P Require Import Prelude GoStrings NetAddr HashKey Chash Url Resources X509 Fingerprint.
#[local] Open Scope string_scope.
#[local] Open Scope list_scope.

Inductive materialError :=
| MaterialIDInvalid
| KeyPairInvalid
| ChainEmpty
| ChainElementInvalid (index : nat)
| PEMMalformed
| BlockNotCertificate (type : string)
| BundleElementInvalid
| BundleEmpty.

Section Material.
Context (sha256 : string → string).
(** [x509.ParseCertificate] and [pem.Decode]; a decoded block has a type, its
    bytes and the input left. *)
Context (ParseCertificate : string → option Leaf).
Context (pem_Decode : string → option (string * string * string)).

Definition writeLengthPrefixed (destination value : string) : string :=
  (destination +:+ be64 (Z.of_nat (String.length value))) +:+ value.

(** The bytes [fingerprint] digests. *)
Definition fingerprintStream (domain : string) (documents : list string) : string :=
  foldl writeLengthPrefixed (writeLengthPrefixed "" domain) documents.

Definition fingerprint (domain : string) (documents : list string) : string :=
  sha256 (fingerprintStream domain documents).

Definition validMaterialID (id : string) : bool :=
  negb (String.eqb id "") && String.eqb (trim_space id) id.

Fixpoint parseChain (index : nat) (documents : list string) (leaf : option Leaf)
    : result materialError (option Leaf) :=
  match documents with
  | [] => Ok leaf
  | der :: documents =>
      match ParseCertificate der with
      | None => Err (ChainElementInvalid index)
      | Some parsed => parseChain (S index) documents (if Nat.eqb index 0 then Some parsed else leaf)
      end
  end.

(** [tls.X509KeyPair] is [X509KeyPair]. *)
Definition NewCertificate (X509KeyPair : string → string → option tlsCertificate)
    (id certificatePEM privateKeyPEM : string) : result materialError Certificate :=
  if negb (validMaterialID id) then Err MaterialIDInvalid
  else
    match X509KeyPair certificatePEM privateKeyPEM with
    | None => Err KeyPairInvalid
    | Some certificate =>
        match tc_chain certificate with
        | [] => Err ChainEmpty
        | documents =>
            leaf ← parseChain 0 documents (tc_leaf certificate);
            Ok (mkCertificate id (mkTLSCertificate documents leaf)
                  (fingerprint "gateway/certificate/v1" documents))
        end
    end.

(** The decoding loop, [None] when the fuel runs out. *)
Fixpoint parseBundle (fuel : nat) (rest : string) (unique : gmap string Leaf)
    : option (result materialError (gmap string Leaf)) :=
  match fuel with
  | O => None
  | S fuel =>
      match pem_Decode rest with
      | None => Some (if String.eqb (trim_space rest) "" then Ok unique else Err PEMMalformed)
      | Some (type, bytes, remaining) =>
          if negb (String.eqb type "CERTIFICATE") then Some (Err (BlockNotCertificate type))
          else
            match ParseCertificate bytes with
            | None => Some (Err BundleElementInvalid)
            | Some certificate => parseBundle fuel remaining (<[lf_raw certificate := certificate]> unique)
            end
      end
  end.

(** [iterate] lists the keys of the map in the order the loop meets them. *)
Definition finishBundle (iterate : gmap string Leaf → list string) (id : string) (unique : gmap string Leaf)
    : result materialError TrustBundle :=
  if Nat.eqb (size unique) 0 then Err BundleEmpty
  else
    let documents := sort_strings (iterate unique) in
    Ok (mkTrustBundle id (omap (fun document => unique !! document) documents)
          (fingerprint "gateway/trust-bundle/v1" documents)).

Definition NewTrustBundle (iterate : gmap string Leaf → list string) (id caPEM : string)
    : option (result materialError TrustBundle) :=
  if negb (validMaterialID id) then Some (Err MaterialIDInvalid)
  else
    parsed ← parseBundle (S (String.length caPEM)) caPEM ∅;
    Some (parsed ≫= finishBundle iterate id).

(** ** What a bundle file holds *)

Inductive pem_blocks : string → list string → Prop :=
| blocks_end rest : pem_Decode rest = None → trim_space rest = "" → pem_blocks rest []
| blocks_cons rest der remaining ders :
    pem_Decode rest = Some ("CERTIFICATE", der, remaining) → pem_blocks remaining ders →
    pem_blocks rest (der :: ders).

Section Decoding.
(** A decoded block consumes input; a parsed certificate keeps its bytes. *)
Hypothesis pem_shrinks : ∀ s type der remaining,
  pem_Decode s = Some (type, der, remaining) → (String.length remaining < String.length s)%nat.
Hypothesis parse_raw : ∀ der leaf, ParseCertificate der = Some leaf → lf_raw leaf = der.

Definition keyed (unique : gmap string Leaf) : Prop := ∀ k leaf, unique !! k = Some leaf → lf_raw leaf = k.

Lemma parseBundle_total fuel rest unique : (String.length rest < fuel)%nat →
  parseBundle fuel rest unique ≠ None.
Proof.
  revert rest unique. induction fuel as [|fuel IH]; intros rest unique Hlt; [lia|]. simpl.
  destruct (pem_Decode rest) as [[[type der] remaining]|] eqn:E; [|done].
  destruct (negb _); [done|]. destruct (ParseCertificate der); [|done].
  apply pem_shrinks in E. apply IH. lia.
Qed.

Lemma parseBundle_ok fuel rest unique unique' : keyed unique →
  parseBundle fuel rest unique = Some (Ok unique') →
  keyed unique' ∧ ∃ ders, pem_blocks rest ders ∧ Forall (fun d => is_Some (ParseCertificate d)) ders ∧
    ∀ k, is_Some (unique' !! k) ↔ is_Some (unique !! k) ∨ k ∈ ders.
Proof.
  revert rest unique. induction fuel as [|fuel IH]; intros rest unique Hk; simpl; [done|].
  destruct (pem_Decode rest) as [[[type der] remaining]|] eqn:E.
  - destruct (String.eqb_spec type "CERTIFICATE") as [->|]; [|done]. simpl.
    destruct (ParseCertificate der) as [leaf|] eqn:Hp; [|done]. rewrite (parse_raw _ _ Hp). intros Hrun.
    apply IH in Hrun as (Hk' & ders & Hb & Hall & Hdom).
    + split; [done|]. exists (der :: ders). split_and!; [by econstructor|by constructor; [rewrite Hp; eexists|]|].
      intros k. rewrite Hdom, elem_of_cons, lookup_insert_is_Some. destruct (decide (der = k)); intuition congruence.
    + intros k l [[<- <-]|[_ Hl]]%lookup_insert_Some; [by apply parse_raw|by apply Hk].
  - destruct (String.eqb_spec (trim_space rest) "") as [Hr|]; [|done]. intros [= <-]. split; [done|].
    exists []. split_and!; [by constructor|done|]. intros k. rewrite elem_of_nil. tauto.
Qed.

Lemma documents_omap (unique : gmap string Leaf) (l : list string) : keyed unique → (∀ k, k ∈ l → is_Some (unique !! k)) →
  lf_raw <$> omap (fun k => unique !! k) l = l.
Proof.
  intros Hk. induction l as [|k l IH]; intros Hl; [done|].
  destruct (Hl k) as [leaf Hleaf]; [by left|]. simpl. rewrite Hleaf. simpl. f_equal; [by apply Hk|]. apply IH.
  intros k' Hk'. apply Hl. by right.
Qed.

(** The documents of an accepted bundle: the distinct blocks, in order. *)
Lemma NewTrustBundle_ok iterate id pem b : (∀ m, iterate m ≡ₚ elements (dom m)) →
  NewTrustBundle iterate id pem = Some (Ok b) → ∃ ders, pem_blocks pem ders ∧
    (∀ d, d ∈ lf_raw <$> tb_certificates b ↔ d ∈ ders) ∧ NoDup (lf_raw <$> tb_certificates b) ∧
    StronglySorted String.le (lf_raw <$> tb_certificates b) ∧
    tb_fingerprint b = fingerprint "gateway/trust-bundle/v1" (lf_raw <$> tb_certificates b).
Proof.
  intros Hit. unfold NewTrustBundle. destruct (negb _); [done|].
  destruct (parseBundle _ pem ∅) as [[unique|]|] eqn:E; simpl; [|done..]. unfold finishBundle.
  destruct (Nat.eqb _ 0); [done|]. intros [= <-]. simpl.
  apply parseBundle_ok in E as (Hk & ders & Hb & _ & Hdom); [|by intros k l Hl].
  assert (Hin : ∀ k, k ∈ sort_strings (iterate unique) ↔ is_Some (unique !! k)).
  { intros k. by rewrite elem_of_sort_strings, Hit, elem_of_elements, elem_of_dom. }
  rewrite documents_omap by (try done; intros k; apply Hin). exists ders. split_and!; [done| | | |done].
  - intros d. rewrite Hin, Hdom, lookup_empty. split; [intros [[? [=]]|]|]; auto.
  - apply NoDup_sort_strings. rewrite Hit. apply NoDup_elements.
  - apply sort_strings_sorted.
Qed.

Lemma fingerprintStream_append domain documents :
  fingerprintStream domain documents = stringCode domain +:+ foldr (fun d s => stringCode d +:+ s) "" documents.
Proof.
  unfold fingerprintStream. change (writeLengthPrefixed "" domain) with (stringCode domain).
  generalize (stringCode domain). induction documents as [|d documents IH]; intros prefix; cbn [foldl foldr].
  { by rewrite string_app_nil_r. }
  rewrite IH. unfold writeLengthPrefixed, stringCode. by rewrite !string_app_assoc.
Qed.

Lemma stringCode_nonempty d s : stringCode d +:+ s ≠ "".
Proof.
  intros Heq. apply (f_equal String.length) in Heq. unfold stringCode in Heq. rewrite !length_string_app in Heq.
  change (String.length (be64 _)) with 8%nat in Heq. cbn [String.length] in Heq. lia.
Qed.

Lemma documents_code l k : Forall wire_string l → Forall wire_string k →
  foldr (fun d s => stringCode d +:+ s) "" l = foldr (fun d s => stringCode d +:+ s) "" k → l = k.
Proof.
  intros Hl. revert k. induction Hl as [|d l Hd _ IH]; intros [|e k] Hk; cbn [foldr]; [done| | |].
  - intros Heq. by destruct (stringCode_nonempty _ _ (eq_sym Heq)).
  - intros Heq. by destruct (stringCode_nonempty _ _ Heq).
  - inversion Hk; subst. intros Heq. apply string_code in Heq as [-> Heq]; [|done..]. f_equal. by apply IH.
Qed.

(** The identity of a trust bundle is its set of certificates: parsing
    always finishes, the digested stream of an accepted bundle lists the
    distinct blocks of its file in order, and two accepted bundles digest the
    same stream exactly when their files hold the same set of certificates,
    in whatever order and however often. *)
Theorem trust_bundle_identity iterate iterate' id id' pem pem' :
  (∀ m, iterate m ≡ₚ elements (dom m)) → (∀ m, iterate' m ≡ₚ elements (dom m)) →
  NewTrustBundle iterate id pem ≠ None ∧
  ∀ b b', NewTrustBundle iterate id pem = Some (Ok b) → NewTrustBundle iterate' id' pem' = Some (Ok b') →
  ∃ ders ders', pem_blocks pem ders ∧ pem_blocks pem' ders' ∧
    tb_fingerprint b = sha256 (fingerprintStream "gateway/trust-bundle/v1" (lf_raw <$> tb_certificates b)) ∧
    (Forall wire_string ders → Forall wire_string ders' →
     fingerprintStream "gateway/trust-bundle/v1" (lf_raw <$> tb_certificates b) =
       fingerprintStream "gateway/trust-bundle/v1" (lf_raw <$> tb_certificates b') ↔
     ∀ d, d ∈ ders ↔ d ∈ ders').
Proof.
  intros Hit Hit'. split.
  { unfold NewTrustBundle. destruct (negb _); [done|].
    destruct (parseBundle _ pem ∅) eqn:E; [done|]. by apply parseBundle_total in E; [|lia]. }
  intros b b' Hb Hb'. apply NewTrustBundle_ok in Hb as (ders & Hd & Hin & Hnd & Hs & Hf); [|done].
  apply NewTrustBundle_ok in Hb' as (ders' & Hd' & Hin' & Hnd' & Hs' & _); [|done].
  exists ders, ders'. split_and!; [done..|]. intros Hw Hw'. split.
  - intros Heq. rewrite !fingerprintStream_append in Heq. apply string_app_inj_length in Heq as [_ Heq]; [|done].
    assert (Hdocs : lf_raw <$> tb_certificates b = lf_raw <$> tb_certificates b').
    { apply documents_code; [| |done]; apply Forall_forall; intros d.
      - rewrite Hin. by apply Forall_forall.
      - rewrite Hin'. by apply Forall_forall. }
    intros d. by rewrite <-Hin, Hdocs, Hin'.
  - intros Hsame. f_equal. apply (StronglySorted_unique String.le); [done..|]. apply NoDup_Permutation; [done..|].
    intros d. by rewrite Hin, Hin'.
Qed.
End Decoding.
End Material.

(** ** A concrete bundle *)

Section Witness.
(** Blocks of one character each, separated by nothing. *)
Definition demo_decode (s : string) : option (string * string * string) :=
  match s with EmptyString => None | String c s => Some ("CERTIFICATE", String c EmptyString, s) end.
Definition demo_parse (der : string) : option Leaf := Some (mkLeaf der 0 0 [] []).
Definition demo_iterate (m : gmap string Leaf) : list string := elements (dom m).

Lemma trust_bundle_identity_witness : ∃ b b',
  NewTrustBundle (fun s => s) demo_parse demo_decode demo_iterate "ca" "bab" = Some (Ok b) ∧
  NewTrustBundle (fun s => s) demo_parse demo_decode demo_iterate "ca2" "ab" = Some (Ok b') ∧
  ∃ ders ders', pem_blocks demo_decode "bab" ders ∧ pem_blocks demo_decode "ab" ders' ∧
    tb_fingerprint b = fingerprintStream "gateway/trust-bundle/v1" (lf_raw <$> tb_certificates b).
Proof.
  assert (Hshrink : ∀ s type der remaining, demo_decode s = Some (type, der, remaining) →
    (String.length remaining < String.length s)%nat) by (intros [|c s] ???; [done|intros [= <- <- <-]; simpl; lia]).
  assert (Hraw : ∀ der leaf, demo_parse der = Some leaf → lf_raw leaf = der) by (intros der leaf [= <-]; done).
  assert (Hit : ∀ m, demo_iterate m ≡ₚ elements (dom m)) by done.
  destruct (NewTrustBundle (fun s => s) demo_parse demo_decode demo_iterate "ca" "bab") as [[b|]|] eqn:E;
    [|vm_compute in E; discriminate E..].
  destruct (NewTrustBundle (fun s => s) demo_parse demo_decode demo_iterate "ca2" "ab") as [[b'|]|] eqn:E';
    [|vm_compute in E'; discriminate E'..].
  exists b, b'. split; [reflexivity|]. split; [reflexivity|].
  destruct (proj2 (trust_bundle_identity (fun s => s) demo_parse demo_decode Hshrink Hraw demo_iterate demo_iterate
    "ca" "ca2" "bab" "ab" Hit Hit) b b' E E') as (ders & ders' & H1 & H2 & H3 & _).
  exists ders, ders'. split; [exact H1|]. split; [exact H2|exact H3].
Defined.
End Witness.
