(* ===== verification/MaterialLoad.v ===== *)
(** * Loading of TLS material ([internal/tlsmaterial/load.go])

    Certificate, key and CA files are read within byte limits. The file system
    is a parameter: opening a path gives a file, whose [Stat] and [Read] may
    fail, and whose size may differ from what is read later. *)

From S2P Require Import Prelude GoStrings X509 TlsMaterial.
#[local] Open Scope string_scope.
#[local] Open Scope Z_scope.
#[local] Open Scope list_scope.

Definition MaxCAFileBytes : Z := 2 ^ 20.
Definition MaxCertificateFileBytes : Z := 256 * 2 ^ 10.
Definition MaxPrivateKeyFileBytes : Z := 256 * 2 ^ 10.
Definition MaxMaterialResources : Z := 10000.
Definition MaxCandidateSourceBytes : Z := 64 * 2 ^ 20.

(** An open file: whether it is regular and its size, and what reading gives. *)
Record file := mkFile { f_stat : option (bool * Z); f_content : option string }.

Inductive loadError := FileError (field : string) | MaterialInvalid (e : materialError).

Definition slen (s : string) : Z := Z.of_nat (String.length s).

Section Load.
Context (open : string → option file).

Definition readBoundedFile (field path : string) (limit : Z) : result loadError string :=
  if String.eqb path "" then Err (FileError field)
  else
    match open path with
    | None => Err (FileError field)
    | Some file =>
      match f_stat file with
      | None => Err (FileError field)
      | Some (regular, size) =>
        if negb regular then Err (FileError field)
        else if limit <? size then Err (FileError field)
        else
          match f_content file with
          | None => Err (FileError field)
          | Some content =>
            let data := stake (Z.to_nat (limit + 1)) content in
            if limit <? slen data then Err (FileError field) else Ok data
          end
      end
    end.

Context (sha256 : string → string) (ParseCertificate : string → option Leaf).
Context (pem_Decode : string → option (string * string * string)).
Context (X509KeyPair : string → string → option tlsCertificate).
Context (iterate : gmap string Leaf → list string).

Definition LoadCertificate (id certificatePath privateKeyPath : string) : result loadError (Certificate * Z) :=
  certificatePEM ← readBoundedFile "certificate_file" certificatePath MaxCertificateFileBytes;
  privateKeyPEM ← readBoundedFile "private_key_file" privateKeyPath MaxPrivateKeyFileBytes;
  certificate ← map_err MaterialInvalid (NewCertificate sha256 ParseCertificate X509KeyPair id certificatePEM privateKeyPEM);
  Ok (certificate, slen certificatePEM + slen privateKeyPEM).

(** The loop of [NewTrustBundle] has fuel enough for every decoder that consumes
    its input ([parseBundle_total]). *)
Definition LoadTrustBundle (id path : string) : result loadError (TrustBundle * Z) :=
  caPEM ← readBoundedFile "ca_file" path MaxCAFileBytes;
  bundle ← map_err MaterialInvalid (default (Err PEMMalformed) (NewTrustBundle sha256 ParseCertificate pem_Decode iterate id caPEM));
  Ok (bundle, slen caPEM).

(** ** What is loaded *)

Lemma stake_whole n s : (String.length (stake n s) < n)%nat → stake n s = s.
Proof.
  revert n. induction s as [|c s IH]; intros [|n]; simpl; try done; [lia|]. intros Hn. f_equal. apply IH. lia.
Qed.

(** A file is read completely or not at all, and within its limit. *)
Lemma readBoundedFile_ok field path limit data : 0 ≤ limit → readBoundedFile field path limit = Ok data →
  (∃ file size, open path = Some file ∧ f_stat file = Some (true, size) ∧ f_content file = Some data) ∧ slen data ≤ limit.
Proof.
  intros Hl. unfold readBoundedFile. destruct (String.eqb _ _); [done|]. destruct (open path) as [file|] eqn:Eo; [|done].
  destruct (f_stat file) as [[[] size]|] eqn:Es; simpl; try done. destruct (Z.ltb_spec limit size); [done|].
  destruct (f_content file) as [content|] eqn:Ec; [|done]. set (n := Z.to_nat (limit + 1)). assert (Hn : n = Z.to_nat (limit + 1)) by done. clearbody n.
  destruct (Z.ltb_spec limit (slen (stake n content))) as [|Hle]; [done|]. intros [= <-]. split; [|done].
  unfold slen in *. rewrite stake_whole by lia. by exists file, size.
Qed.

Lemma LoadCertificate_ok id certificatePath privateKeyPath certificate count :
  LoadCertificate id certificatePath privateKeyPath = Ok (certificate, count) →
  cert_id certificate = id ∧ validMaterialID id = true ∧ 0 ≤ count ≤ MaxCertificateFileBytes + MaxPrivateKeyFileBytes.
Proof.
  unfold LoadCertificate. destruct (readBoundedFile _ _ MaxCertificateFileBytes) as [pem|] eqn:E1; [|done].
  destruct (readBoundedFile _ _ MaxPrivateKeyFileBytes) as [key|] eqn:E2; [|done].
  apply readBoundedFile_ok in E1 as [_ H1]; [|done]. apply readBoundedFile_ok in E2 as [_ H2]; [|done]. simpl.
  unfold NewCertificate. destruct (validMaterialID id) eqn:Hid; [|done]. cbn [negb]. destruct (X509KeyPair pem key) as [kp|]; [|done].
  destruct (tc_chain kp) as [|d ds]; [done|]. destruct (parseChain _ 0 (d :: ds) _) as [leaf|]; [|done]. simpl. intros [= <- <-].
  unfold slen in *. split_and!; try done; lia.
Qed.

Lemma LoadTrustBundle_ok id path bundle count : LoadTrustBundle id path = Ok (bundle, count) →
  tb_id bundle = id ∧ validMaterialID id = true ∧ 0 ≤ count ≤ MaxCAFileBytes.
Proof.
  unfold LoadTrustBundle. destruct (readBoundedFile _ _ _) as [pem|] eqn:E1; [|done].
  apply readBoundedFile_ok in E1 as [_ H1]; [|done]. simpl. unfold NewTrustBundle. destruct (validMaterialID id) eqn:Hid; [|done]. cbn [negb].
  destruct (parseBundle _ _ _ _ _) as [[unique|]|]; simpl; try done. unfold finishBundle. destruct (Nat.eqb _ _); [done|].
  simpl. intros [= <- <-]. unfold slen in *. split_and!; try done; lia.
Qed.
End Load.
