(* ===== verification/Health.v ===== *)
(** * Endpoint health ([internal/upstream/health.go])

    The health tracker of one endpoint: counters of consecutive outcomes and
    the state they drive.  [Observe] runs under the tracker's mutex, so one call
    is one step; a run of the tracker is a sequence of observations and
    retirements in the order the mutex serialises them. *)

From S2P Require Import Prelude HashKey Resources.
#[local] Open Scope Z_scope.

(** ** Data *)

Inductive HealthState := HealthUnknown | HealthHealthy | HealthUnhealthy.
Inductive ObservationSource := SourceActive | SourcePassive.
Inductive OutcomeKind :=
| OutcomeSuccess
| OutcomeHTTPFailure
| OutcomeTransportFailure
| OutcomeTimeout
| OutcomeNeutral.

#[global] Instance HealthState_eq_dec : EqDecision HealthState.
Proof. solve_decision. Defined.
#[global] Instance ObservationSource_eq_dec : EqDecision ObservationSource.
Proof. solve_decision. Defined.
#[global] Instance OutcomeKind_eq_dec : EqDecision OutcomeKind.
Proof. solve_decision. Defined.

Record Observation := mkObservation {
  ob_source : ObservationSource;
  ob_kind : OutcomeKind;
  ob_status : Z;
}.

Record HealthTransition := mkTransition {
  ht_endpoint : string;
  ht_generation : Z;
  ht_source : ObservationSource;
  ht_from : HealthState;
  ht_to : HealthState;
}.

(** [hooked] tells whether a transition hook is set. *)
Record EndpointHealth := mkHealth {
  eh_state : HealthState;
  eh_generation : Z;
  eh_identity : string;
  eh_policy : HealthPolicy;
  eh_successes : Z;
  eh_http : Z;
  eh_transport : Z;
  eh_timeouts : Z;
  eh_hooked : bool;
  eh_retired : bool;
}.

(** ** Operations *)

Definition newEndpointHealth (identity : string) (policy : HealthPolicy) (generation : Z)
    : EndpointHealth :=
  mkHealth HealthUnknown generation identity policy 0 0 0 0 false false.

Definition State (h : EndpointHealth) : HealthState := eh_state h.

Definition Selectable (h : EndpointHealth) : bool := negb (bool_decide (eh_state h = HealthUnhealthy)).

Definition SetTransitionHook (hooked : bool) (h : EndpointHealth) : EndpointHealth :=
  mkHealth (eh_state h) (eh_generation h) (eh_identity h) (eh_policy h)
    (eh_successes h) (eh_http h) (eh_transport h) (eh_timeouts h) hooked (eh_retired h).

Definition health_Retire (h : EndpointHealth) : EndpointHealth :=
  mkHealth (eh_state h) (eh_generation h) (eh_identity h) (eh_policy h)
    (eh_successes h) (eh_http h) (eh_transport h) (eh_timeouts h) (eh_hooked h) true.

Definition set_counters (successes http transport timeouts : Z) (h : EndpointHealth)
    : EndpointHealth :=
  mkHealth (eh_state h) (eh_generation h) (eh_identity h) (eh_policy h)
    successes http transport timeouts (eh_hooked h) (eh_retired h).

Definition set_state (state : HealthState) (h : EndpointHealth) : EndpointHealth :=
  mkHealth state (eh_generation h) (eh_identity h) (eh_policy h)
    (eh_successes h) (eh_http h) (eh_transport h) (eh_timeouts h) (eh_hooked h) (eh_retired h).

Definition saturatingIncrement (value : Z) : Z := if value =? 255 then value else wrap8 (value + 1).

Definition enabledThreshold (value : Z) : Z := if value =? 0 then 255 else value.

Definition resetCounters (h : EndpointHealth) : EndpointHealth := set_counters 0 0 0 0 h.

Definition failureThreshold (p : HealthPolicy) (source : ObservationSource) (kind : OutcomeKind) : Z :=
  let active :=
    match hp_active p with
    | None => 255
    | Some a =>
        match kind with
        | OutcomeHTTPFailure => enabledThreshold (ah_httpFailures a)
        | OutcomeTransportFailure => enabledThreshold (ah_transportFailures a)
        | OutcomeTimeout => enabledThreshold (ah_timeouts a)
        | _ => 255
        end
    end in
  match source with
  | SourceActive => active
  | SourcePassive =>
      match hp_passive p with
      | None => 255
      | Some q =>
          match kind with
          | OutcomeHTTPFailure => enabledThreshold (ph_httpFailures q)
          | OutcomeTransportFailure => enabledThreshold (ph_transportFailures q)
          | OutcomeTimeout => enabledThreshold (ph_timeouts q)
          | _ => active
          end
      end
  end.

Definition statusIn (status : Z) (statuses : list Z) : bool := bool_decide (status ∈ statuses).

Definition with_kind (o : Observation) (kind : OutcomeKind) : Observation :=
  mkObservation (ob_source o) kind (ob_status o).

Definition classifyHTTP (p : HealthPolicy) (o : Observation) : Observation :=
  if ob_status o =? 0 then o
  else
    let status := wrap16 (ob_status o) in
    match ob_source o with
    | SourcePassive =>
        match hp_passive p with
        | None => with_kind o OutcomeNeutral
        | Some q =>
            with_kind o (if statusIn status (ph_unhealthyStatuses q)
                         then OutcomeHTTPFailure else OutcomeSuccess)
        end
    | SourceActive =>
        match hp_active p with
        | Some a =>
            if String.eqb (ah_type a) HealthCheckHTTP then
              with_kind o (if statusIn status (ah_healthyStatuses a) then OutcomeSuccess
                           else if statusIn status (ah_unhealthyStatuses a) then OutcomeHTTPFailure
                           else OutcomeNeutral)
            else o
        | None => o
        end
    end.

(** The tracker with its counters updated, and the next state. *)
Definition apply (h : EndpointHealth) (state : HealthState) (o : Observation)
    : EndpointHealth * HealthState :=
  match ob_kind o with
  | OutcomeSuccess =>
      let h := set_counters (eh_successes h) 0 0 0 h in
      if bool_decide (state = HealthUnhealthy) && negb (bool_decide (ob_source o = SourceActive))
      then (set_counters 0 0 0 0 h, state)
      else
        let successes := saturatingIncrement (eh_successes h) in
        let h := set_counters successes 0 0 0 h in
        match hp_active (eh_policy h) with
        | Some a => if ah_healthySuccesses a <=? successes then (h, HealthHealthy) else (h, state)
        | None => (h, state)
        end
  | OutcomeHTTPFailure =>
      let http := saturatingIncrement (eh_http h) in
      let h := set_counters 0 http (eh_transport h) (eh_timeouts h) h in
      if failureThreshold (eh_policy h) (ob_source o) OutcomeHTTPFailure <=? http
      then (h, HealthUnhealthy) else (h, state)
  | OutcomeTransportFailure =>
      let transport := saturatingIncrement (eh_transport h) in
      let h := set_counters 0 (eh_http h) transport (eh_timeouts h) h in
      if failureThreshold (eh_policy h) (ob_source o) OutcomeTransportFailure <=? transport
      then (h, HealthUnhealthy) else (h, state)
  | OutcomeTimeout =>
      let timeouts := saturatingIncrement (eh_timeouts h) in
      let h := set_counters 0 (eh_http h) (eh_transport h) timeouts h in
      if failureThreshold (eh_policy h) (ob_source o) OutcomeTimeout <=? timeouts
      then (h, HealthUnhealthy) else (h, state)
  | OutcomeNeutral => (h, state)
  end.

(** The tracker after one observation, and the transition passed to the hook. *)
Definition Observe (h : EndpointHealth) (o : Observation) : EndpointHealth * option HealthTransition :=
  if bool_decide (ob_source o = SourcePassive) && bool_decide (hp_passive (eh_policy h) = None)
  then (h, None)
  else if eh_retired h then (h, None)
  else
    let o := classifyHTTP (eh_policy h) o in
    if bool_decide (ob_kind o = OutcomeNeutral) then (h, None)
    else
      let previous := eh_state h in
      let '(h, next) := apply h previous o in
      if bool_decide (next = previous) then (h, None)
      else
        let transition := mkTransition (eh_identity h) (eh_generation h) (ob_source o) previous next in
        (resetCounters (set_state next h), if eh_hooked h then Some transition else None).

(** ** One observation *)

(** What an observation counts as: [None] when it is ignored. *)
Definition outcome (h : EndpointHealth) (o : Observation) : option OutcomeKind :=
  if bool_decide (ob_source o = SourcePassive) && bool_decide (hp_passive (eh_policy h) = None)
  then None
  else if eh_retired h then None
  else match ob_kind (classifyHTTP (eh_policy h) o) with
       | OutcomeNeutral => None
       | kind => Some kind
       end.

Definition is_failure (kind : OutcomeKind) : bool :=
  match kind with
  | OutcomeHTTPFailure | OutcomeTransportFailure | OutcomeTimeout => true
  | _ => false
  end.

(** The counter of a failure category. *)
Definition counter (kind : OutcomeKind) (h : EndpointHealth) : Z :=
  match kind with
  | OutcomeHTTPFailure => eh_http h
  | OutcomeTransportFailure => eh_transport h
  | OutcomeTimeout => eh_timeouts h
  | _ => 0
  end.

Definition counters_zero (h : EndpointHealth) : Prop :=
  eh_successes h = 0 ∧ eh_http h = 0 ∧ eh_transport h = 0 ∧ eh_timeouts h = 0.

Definition same_tracker (h h' : EndpointHealth) : Prop :=
  eh_generation h' = eh_generation h ∧ eh_identity h' = eh_identity h ∧
  eh_policy h' = eh_policy h ∧ eh_hooked h' = eh_hooked h ∧ eh_retired h' = eh_retired h.

Lemma classifyHTTP_source p o : ob_source (classifyHTTP p o) = ob_source o.
Proof. unfold classifyHTTP. repeat case_scrutinee; done. Qed.

Lemma Observe_ignored h o : outcome h o = None → Observe h o = (h, None).
Proof.
  unfold outcome, Observe. repeat (case_scrutinee; try done).
  all: intros; exfalso; bool_hyps; congruence.
Qed.

(** The counters after an observation that is not ignored, before a transition
    clears them. *)
Definition counted (h : EndpointHealth) (source : ObservationSource) (kind : OutcomeKind)
    : EndpointHealth := (apply h (eh_state h) (mkObservation source kind 0)).1.

Definition next_state (h : EndpointHealth) (source : ObservationSource) (kind : OutcomeKind)
    : HealthState := (apply h (eh_state h) (mkObservation source kind 0)).2.

Lemma Observe_counted h o kind : outcome h o = Some kind →
  let h1 := counted h (ob_source o) kind in
  let next := next_state h (ob_source o) kind in
  Observe h o =
    if bool_decide (next = eh_state h) then (h1, None)
    else (resetCounters (set_state next h1),
          if eh_hooked h
          then Some (mkTransition (eh_identity h) (eh_generation h) (ob_source o) (eh_state h) next)
          else None).
Proof.
  unfold outcome, Observe, counted, next_state. intros Hout.
  destruct (bool_decide (ob_source o = SourcePassive) && _); [done|].
  destruct (eh_retired h); [done|].
  assert (Hk : ob_kind (classifyHTTP (eh_policy h) o) = kind ∧ kind ≠ OutcomeNeutral).
  { destruct (ob_kind (classifyHTTP (eh_policy h) o)); by inversion Hout. }
  destruct Hk as [Hk Hne]. rewrite bool_decide_eq_false_2 by congruence.
  assert (Happly : apply h (eh_state h) (classifyHTTP (eh_policy h) o) =
    apply h (eh_state h) (mkObservation (ob_source o) kind 0)).
  { unfold apply. rewrite Hk, classifyHTTP_source. done. }
  rewrite Happly, classifyHTTP_source.
  assert (Hsame : same_tracker h (apply h (eh_state h) (mkObservation (ob_source o) kind 0)).1).
  { unfold apply, same_tracker. simpl. destruct kind; repeat (case_scrutinee; try done); done. }
  destruct (apply h (eh_state h) _) as [h1 next] in Hsame |- *. simpl in *. destruct Hsame as (-> & -> & _ & -> & _).
  done.
Qed.

Lemma counted_same h source kind : same_tracker h (counted h source kind) ∧
  eh_state (counted h source kind) = eh_state h.
Proof.
  unfold counted, apply, same_tracker. simpl.
  destruct kind; repeat (case_scrutinee; try done); done.
Qed.

Lemma Observe_same h o : same_tracker h (Observe h o).1.
Proof.
  destruct (outcome h o) as [kind|] eqn:E; [|by rewrite Observe_ignored].
  rewrite (Observe_counted h o kind E). pose proof (counted_same h (ob_source o) kind) as [Hs _].
  case_scrutinee; [done|]. simpl. unfold same_tracker in *. done.
Qed.

(** ** The automaton

    The state changes a tracker may make, with their causes. *)

Inductive health_step (h : EndpointHealth) : ObservationSource → OutcomeKind → HealthState → Prop :=
| step_recover source a :
    hp_active (eh_policy h) = Some a →
    (eh_state h = HealthUnknown ∨ eh_state h = HealthUnhealthy ∧ source = SourceActive) →
    ah_healthySuccesses a ≤ saturatingIncrement (eh_successes h) →
    health_step h source OutcomeSuccess HealthHealthy
| step_fail source kind :
    is_failure kind = true → eh_state h ≠ HealthUnhealthy →
    failureThreshold (eh_policy h) source kind ≤ saturatingIncrement (counter kind h) →
    health_step h source kind HealthUnhealthy.

Lemma next_state_step h source kind : kind ≠ OutcomeNeutral →
  next_state h source kind = eh_state h ∨ health_step h source kind (next_state h source kind).
Proof.
  intros Hne. unfold next_state, apply. simpl. destruct kind; try done; simpl.
  - destruct (bool_decide (eh_state h = HealthUnhealthy) && _) eqn:E1; [by left|].
    destruct (hp_active (eh_policy h)) as [a|] eqn:Ea; [|by left].
    destruct (ah_healthySuccesses a <=? _) eqn:E2; [|by left]. bool_hyps. simpl.
    destruct (eh_state h) eqn:Es; [right|by left|right]; eapply step_recover; try done; eauto.
    rewrite bool_decide_eq_true_2 in E1 by done. simpl in E1. bool_hyps. auto.
  - destruct (_ <=? _) eqn:E2; [|by left]. bool_hyps. simpl.
    destruct (eh_state h) eqn:Es; [right|right|by left]; apply step_fail; try done; congruence.
  - destruct (_ <=? _) eqn:E2; [|by left]. bool_hyps. simpl.
    destruct (eh_state h) eqn:Es; [right|right|by left]; apply step_fail; try done; congruence.
  - destruct (_ <=? _) eqn:E2; [|by left]. bool_hyps. simpl.
    destruct (eh_state h) eqn:Es; [right|right|by left]; apply step_fail; try done; congruence.
Qed.

Lemma health_step_changes h source kind next : health_step h source kind next → next ≠ eh_state h.
Proof. destruct 1 as [? ? _ [Hs|[Hs _]] _|]; congruence. Qed.

Lemma health_step_next h source kind next :
  health_step h source kind next → next_state h source kind = next.
Proof.
  destruct 1 as [source a Ha Hs Hle|source kind Hf Hs Hle]; unfold next_state, apply; simpl.
  - assert (Hb : bool_decide (eh_state h = HealthUnhealthy) &&
      negb (bool_decide (source = SourceActive)) = false).
    { destruct Hs as [->|[-> ->]]; [by rewrite bool_decide_eq_false_2|by rewrite andb_false_r]. }
    rewrite Hb, Ha. by replace (_ <=? _) with true by (symmetry; by apply Z.leb_le).
  - destruct kind; try done; simpl;
      by replace (_ <=? _) with true by (symmetry; by apply Z.leb_le).
Qed.

(** ** Runs *)

Definition observe_all (h : EndpointHealth) (os : list Observation) : EndpointHealth :=
  foldl (fun h o => (Observe h o).1) h os.

Lemma observe_all_snoc h os o : observe_all h (os ++ [o]) = (Observe (observe_all h os) o).1.
Proof. unfold observe_all. by rewrite foldl_app. Qed.

Lemma observe_all_same h os : same_tracker h (observe_all h os).
Proof.
  induction os as [|o os IH] using rev_ind; [done|]. rewrite observe_all_snoc.
  pose proof (Observe_same (observe_all h os) o) as Hs. unfold same_tracker in *.
  destruct IH as (? & ? & ? & ? & ?), Hs as (? & ? & ? & ? & ?). split_and!; congruence.
Qed.

Lemma outcome_same h h' o : same_tracker h h' → outcome h' o = outcome h o.
Proof. intros (_ & _ & Hp & _ & Hr). unfold outcome. by rewrite Hp, Hr. Qed.

Definition counter_ok (c : Z) : Prop := 0 ≤ c ≤ 255.

(** The counters stay in a byte, and an endpoint that is not healthy has not
    reached its success threshold. *)
Record health_ok (h : EndpointHealth) : Prop := {
  ok_counters : Forall counter_ok [eh_successes h; eh_http h; eh_transport h; eh_timeouts h];
  ok_streak : ∀ a, hp_active (eh_policy h) = Some a → eh_state h ≠ HealthHealthy →
    eh_successes h < ah_healthySuccesses a;
}.

Lemma saturatingIncrement_spec c : counter_ok c →
  saturatingIncrement c = Z.min 255 (c + 1) ∧ counter_ok (saturatingIncrement c).
Proof.
  unfold counter_ok, saturatingIncrement, wrap8. intros Hc.
  destruct (c =? 255) eqn:E; bool_hyps; [lia|]. rewrite Z.mod_small; lia.
Qed.

Definition policy_ok (p : HealthPolicy) : Prop :=
  ∀ a, hp_active p = Some a → 1 ≤ ah_healthySuccesses a ≤ 254.

Lemma counted_counters h source kind : health_ok h →
  Forall counter_ok [eh_successes (counted h source kind); eh_http (counted h source kind);
    eh_transport (counted h source kind); eh_timeouts (counted h source kind)].
Proof.
  intros [Hc _]. rewrite !Forall_cons in Hc. destruct Hc as (Hs & Hh & Ht & Hm & _).
  assert (H0 : counter_ok 0) by (unfold counter_ok; lia).
  pose proof (saturatingIncrement_spec _ Hs) as [_ ?].
  pose proof (saturatingIncrement_spec _ Hh) as [_ ?].
  pose proof (saturatingIncrement_spec _ Ht) as [_ ?].
  pose proof (saturatingIncrement_spec _ Hm) as [_ ?].
  unfold counted, apply. simpl.
  rewrite !Forall_cons, Forall_nil.
  destruct kind; repeat case_scrutinee; simpl; split_and!; done.
Qed.

Lemma counted_streak h source kind a : hp_active (eh_policy h) = Some a →
  1 ≤ ah_healthySuccesses a → eh_state h ≠ HealthHealthy → next_state h source kind ≠ HealthHealthy →
  eh_successes h < ah_healthySuccesses a →
  eh_successes (counted h source kind) < ah_healthySuccesses a.
Proof.
  intros Ha Hpos Hst Hnext Hlt. unfold counted, next_state, apply in *. simpl in *.
  destruct kind; simpl in *; rewrite ?Ha in *;
    repeat (case_scrutinee; simpl in *; try (bool_hyps; lia); try congruence); try lia.
Qed.

Lemma Observe_ok h o : policy_ok (eh_policy h) → health_ok h → health_ok (Observe h o).1.
Proof.
  intros Hp Hok. destruct (outcome h o) as [kind|] eqn:E; [|by rewrite Observe_ignored].
  rewrite (Observe_counted h o kind E). pose proof (counted_same h (ob_source o) kind) as [Hs Hst].
  destruct Hs as (_ & _ & Hpol & _).
  destruct (bool_decide _) eqn:En; bool_hyps; simpl.
  - split; [by apply counted_counters|]. rewrite Hpol, Hst. intros a Ha Hne.
    apply (counted_streak h _ _ a); try done; [by apply Hp|by rewrite En|by apply Hok].
  - split; simpl; [repeat constructor; lia|]. rewrite Hpol. intros a Ha _. specialize (Hp a Ha). lia.
Qed.

Lemma new_ok identity policy generation :
  policy_ok policy → health_ok (newEndpointHealth identity policy generation).
Proof.
  intros Hp. split; simpl; [repeat constructor; lia|]. intros a Ha _. specialize (Hp a Ha). lia.
Qed.

Lemma observe_all_ok h os : policy_ok (eh_policy h) → health_ok h → health_ok (observe_all h os).
Proof.
  intros Hp Hok. induction os as [|o os IH] using rev_ind; [done|]. rewrite observe_all_snoc.
  apply Observe_ok; [|done]. by destruct (observe_all_same h os) as (_ & _ & -> & _).
Qed.

(** ** Recovery *)

(** The observations that count, in order. *)
Definition counting (h : EndpointHealth) (os : list Observation)
    : list (ObservationSource * OutcomeKind) :=
  omap (fun o => (fun kind => (ob_source o, kind)) <$> outcome h o) os.

Definition active_success : ObservationSource * OutcomeKind := (SourceActive, OutcomeSuccess).

Lemma counted_failure_streak h source kind :
  is_failure kind = true → eh_successes (counted h source kind) = 0.
Proof. unfold counted, apply. simpl. destruct kind; try done; intros _; by case_scrutinee. Qed.

Lemma counted_success_streak h source : eh_state h = HealthUnhealthy →
  eh_successes (counted h source OutcomeSuccess) =
    match source with
    | SourceActive => saturatingIncrement (eh_successes h)
    | SourcePassive => 0
    end.
Proof.
  intros Hst. unfold counted, apply. simpl. rewrite Hst. destruct source; simpl; [|done].
  repeat case_scrutinee; done.
Qed.

Lemma outcome_not_neutral h o : outcome h o ≠ Some OutcomeNeutral.
Proof. unfold outcome. repeat case_scrutinee; done. Qed.

Lemma counting_snoc h os o : counting h (os ++ [o]) =
  counting h os ++ match outcome h o with Some kind => [(ob_source o, kind)] | None => [] end.
Proof. unfold counting. rewrite omap_app. csimpl. by destruct (outcome h o). Qed.

Section Recovery.
Context (h : EndpointHealth) (a : ActiveHealthPolicy).
Hypothesis policy_valid : policy_ok (eh_policy h).
Hypothesis tracker_ok : health_ok h.
Hypothesis active : hp_active (eh_policy h) = Some a.
(** The tracker has just become unhealthy. *)
Hypothesis unhealthy : eh_state h = HealthUnhealthy.
Hypothesis no_streak : eh_successes h = 0.

Definition unhealthy_throughout (os : list Observation) : Prop :=
  ∀ k, (k ≤ length os)%nat → eh_state (observe_all h (take k os)) = HealthUnhealthy.

Lemma unhealthy_snoc os o : unhealthy_throughout (os ++ [o]) →
  unhealthy_throughout os ∧ eh_state (observe_all h (os ++ [o])) = HealthUnhealthy.
Proof.
  intros Hall. split.
  - intros k Hk. specialize (Hall k). rewrite length_app, take_app_le in Hall by done.
    apply Hall. lia.
  - specialize (Hall (length (os ++ [o]))). rewrite take_ge in Hall by done. by apply Hall.
Qed.

(** While unhealthy, the success counter is the number of trailing active
    successes, and below the threshold. *)
Lemma unhealthy_streak os : unhealthy_throughout os →
  eh_successes (observe_all h os) < ah_healthySuccesses a ∧
  ∃ earlier, counting h os =
    earlier ++ replicate (Z.to_nat (eh_successes (observe_all h os))) active_success.
Proof.
  intros Hall. split.
  { apply (ok_streak _ (observe_all_ok h os policy_valid tracker_ok)).
    - by destruct (observe_all_same h os) as (_ & _ & -> & _).
    - specialize (Hall (length os)). rewrite take_ge in Hall by done. by rewrite Hall. }
  induction os as [|o os IH] using rev_ind.
  { exists []. simpl. by rewrite no_streak. }
  apply unhealthy_snoc in Hall as [Hos Hnow]. destruct (IH Hos) as [earlier Hearlier].
  pose proof (Hos (length os) ltac:(lia)) as Hcur. rewrite take_ge in Hcur by lia.
  pose proof (observe_all_ok h os policy_valid tracker_ok) as Hok.
  pose proof (observe_all_same h os) as (_ & _ & Hpol & _).
  rewrite observe_all_snoc in *. set (h1 := observe_all h os) in *.
  assert (Hout : outcome h1 o = outcome h o) by (apply outcome_same, observe_all_same).
  rewrite counting_snoc. destruct (outcome h o) as [kind|] eqn:E.
  2: { rewrite app_nil_r, Observe_ignored by congruence. by exists earlier. }
  rewrite (Observe_counted h1 o kind Hout) in Hnow |- *.
  destruct (bool_decide (next_state h1 (ob_source o) kind = eh_state h1)) eqn:En; bool_hyps;
    [|exfalso; simpl in Hnow; congruence]. simpl.
  destruct (is_failure kind) eqn:Ef.
  { rewrite counted_failure_streak by done. exists (counting h os ++ [(ob_source o, kind)]).
    by rewrite app_nil_r. }
  destruct kind; try done; [|by apply outcome_not_neutral in E].
  rewrite counted_success_streak by done. destruct (ob_source o).
  - assert (Hlt : eh_successes h1 < ah_healthySuccesses a).
    { apply (ok_streak _ Hok); [by rewrite Hpol|congruence]. }
    pose proof (policy_valid a active) as Hpa.
    pose proof (ok_counters _ Hok) as Hc. apply Forall_cons in Hc as [Hc _].
    pose proof (saturatingIncrement_spec _ Hc) as [-> _]. unfold counter_ok in Hc.
    rewrite Z.min_r by lia. exists earlier. rewrite Hearlier, <-app_assoc. f_equal.
    rewrite Z.add_1_r, Z2Nat.inj_succ by lia. by rewrite replicate_S_end.
  - exists (counting h os ++ [(SourcePassive, OutcomeSuccess)]). by rewrite app_nil_r.
Qed.

Lemma recovery_streak os o : unhealthy_throughout os →
  eh_state (observe_all h (os ++ [o])) ≠ HealthUnhealthy →
  eh_state (observe_all h (os ++ [o])) = HealthHealthy ∧
  ∃ earlier, counting h (os ++ [o]) =
    earlier ++ replicate (Z.to_nat (ah_healthySuccesses a)) active_success.
Proof.
  intros Hos Hrec. destruct (unhealthy_streak os Hos) as [Hlt [earlier Hearlier]].
  pose proof (Hos (length os) ltac:(lia)) as Hcur. rewrite take_ge in Hcur by lia.
  pose proof (observe_all_ok h os policy_valid tracker_ok) as Hok.
  pose proof (observe_all_same h os) as (_ & _ & Hpol & _).
  rewrite observe_all_snoc in *. set (h1 := observe_all h os) in *.
  assert (Hout : outcome h1 o = outcome h o) by (apply outcome_same, observe_all_same).
  rewrite counting_snoc. destruct (outcome h o) as [kind|] eqn:E.
  2: { rewrite Observe_ignored in Hrec by congruence. done. }
  rewrite (Observe_counted h1 o kind Hout) in Hrec |- *.
  destruct (next_state_step h1 (ob_source o) kind) as [Hsame|Hstep].
  { intros ->. by apply outcome_not_neutral in E. }
  { rewrite bool_decide_eq_true_2 in Hrec by done. simpl in Hrec.
    by rewrite (proj2 (counted_same _ _ _)) in Hrec. }
  rewrite bool_decide_eq_false_2 in Hrec |- * by (by eapply health_step_changes). simpl in *.
  inversion Hstep as [source a' Ha' [Hs|[_ Hsrc]] Hle Heq Hk Hn|]; [congruence| |congruence].
  split; [done|]. rewrite Hpol, active in Ha'. injection Ha' as <-.
  pose proof (policy_valid a active) as Hp.
  pose proof (ok_counters _ Hok) as Hc. apply Forall_cons in Hc as [Hc _].
  pose proof (saturatingIncrement_spec _ Hc) as [Hsat _]. unfold counter_ok in Hc.
  rewrite Hsat, Z.min_r in Hle by lia. exists earlier. rewrite Hearlier, <-app_assoc. f_equal.
  replace (ah_healthySuccesses a) with (Z.succ (eh_successes h1)) by lia.
  rewrite Z2Nat.inj_succ by lia. rewrite replicate_S_end. by rewrite Hsrc.
Qed.
End Recovery.

(** ** Failure thresholds *)

Lemma failure_next h source kind : is_failure kind = true →
  next_state h source kind =
    (if failureThreshold (eh_policy h) source kind <=? saturatingIncrement (counter kind h)
     then HealthUnhealthy else eh_state h) ∧
  counter kind (counted h source kind) = saturatingIncrement (counter kind h).
Proof.
  unfold next_state, counted, apply. simpl. destruct kind; try done; intros _; simpl;
    by destruct (_ <=? _).
Qed.

(** The configured thresholds are bytes. *)
Definition thresholds_u8 (p : HealthPolicy) : Prop :=
  (∀ q, hp_active p = Some q →
     Forall counter_ok [ah_httpFailures q; ah_transportFailures q; ah_timeouts q]) ∧
  (∀ q, hp_passive p = Some q →
     Forall counter_ok [ph_httpFailures q; ph_transportFailures q; ph_timeouts q]).

Lemma failureThreshold_range p source kind :
  thresholds_u8 p → 1 ≤ failureThreshold p source kind ≤ 255.
Proof.
  intros [Ha Hq].
  assert (He : ∀ v, counter_ok v → 1 ≤ enabledThreshold v ≤ 255).
  { intros v. unfold counter_ok, enabledThreshold. destruct (v =? 0) eqn:E; bool_hyps; lia. }
  assert (Hactive : 1 ≤ match hp_active p with
    | None => 255
    | Some a =>
        match kind with
        | OutcomeHTTPFailure => enabledThreshold (ah_httpFailures a)
        | OutcomeTransportFailure => enabledThreshold (ah_transportFailures a)
        | OutcomeTimeout => enabledThreshold (ah_timeouts a)
        | _ => 255
        end
    end ≤ 255).
  { destruct (hp_active p) as [a|]; [|lia]. specialize (Ha a eq_refl).
    rewrite !Forall_cons in Ha. destruct Ha as (? & ? & ? & _). destruct kind; auto; lia. }
  unfold failureThreshold. destruct source; [done|]. destruct (hp_passive p) as [q|]; [|lia].
  specialize (Hq q eq_refl). rewrite !Forall_cons in Hq. destruct Hq as (? & ? & ? & _).
  destruct kind; auto.
Qed.

Lemma failures_run h o kind t n : outcome h o = Some kind → is_failure kind = true →
  eh_state h ≠ HealthUnhealthy → counter kind h = 0 →
  t = failureThreshold (eh_policy h) (ob_source o) kind → 1 ≤ t ≤ 255 →
  let h' := observe_all h (replicate n o) in
  (Z.of_nat n < t → eh_state h' = eh_state h ∧ counter kind h' = Z.of_nat n) ∧
  (t ≤ Z.of_nat n → eh_state h' = HealthUnhealthy).
Proof.
  intros Hout Hf Hst H0 Ht Hr. induction n as [|n [IHlo IHhi]]; cbn zeta.
  { split; [by intros _|]. simpl. lia. }
  rewrite replicate_S_end, observe_all_snoc.
  pose proof (observe_all_same h (replicate n o)) as Hsame.
  set (h1 := observe_all h (replicate n o)) in *.
  assert (Hout1 : outcome h1 o = Some kind) by (rewrite <-Hout; by apply outcome_same).
  destruct Hsame as (_ & _ & Hpol & _).
  destruct (failure_next h1 (ob_source o) kind Hf) as [Hnext Hcount]. rewrite Hpol, <-Ht in Hnext.
  rewrite (Observe_counted h1 o kind Hout1).
  pose proof (counted_same h1 (ob_source o) kind) as [_ Hsst].
  destruct (decide (Z.of_nat n < t)) as [Hn|Hn].
  - destruct (IHlo Hn) as [Hs Hc].
    destruct (saturatingIncrement_spec (counter kind h1)) as [Hsat _];
      [unfold counter_ok; rewrite Hc; lia|].
    rewrite Hsat, Hc, Z.min_r in * by lia. split; intros Hn'.
    + replace (t <=? Z.of_nat n + 1) with false in Hnext by (symmetry; apply Z.leb_gt; lia).
      rewrite bool_decide_eq_true_2 by done. simpl. split; [congruence|]. rewrite Hcount. lia.
    + replace (t <=? Z.of_nat n + 1) with true in Hnext by (symmetry; apply Z.leb_le; lia).
      rewrite bool_decide_eq_false_2 by congruence. done.
  - split; [lia|]. intros _. specialize (IHhi ltac:(lia)).
    rewrite bool_decide_eq_true_2; [simpl; congruence|]. rewrite Hnext. by destruct (_ <=? _).
Qed.

(** ** Properties *)


(** an unhealthy endpoint becomes selectable again only by active probing:
    the observations that count since it failed end with exactly the configured
    number of consecutive active successes. *)
Theorem recovery_needs_active_successes h a os o :
  policy_ok (eh_policy h) → health_ok h → hp_active (eh_policy h) = Some a →
  eh_state h = HealthUnhealthy → eh_successes h = 0 → unhealthy_throughout h os →
  Selectable (observe_all h (os ++ [o])) = true →
  ∃ earlier, counting h (os ++ [o]) =
    earlier ++ replicate (Z.to_nat (ah_healthySuccesses a)) active_success.
Proof.
  intros Hp Hok Ha Hst H0 Hall Hsel. unfold Selectable in Hsel. bool_hyps.
  by apply (recovery_streak h a).
Qed.

(** a run of [n] identical failures of one category makes a selectable
    endpoint unhealthy exactly when [n] reaches the threshold of that source
    and category (255 for one that is not configured). *)
Theorem failure_threshold_exact h o kind n :
  outcome h o = Some kind → is_failure kind = true → Selectable h = true → counter kind h = 0 →
  thresholds_u8 (eh_policy h) →
  Selectable (observe_all h (replicate n o)) = false ↔
  failureThreshold (eh_policy h) (ob_source o) kind ≤ Z.of_nat n.
Proof.
  intros Hout Hf Hsel H0 Hu8. unfold Selectable in *. bool_hyps.
  pose proof (failureThreshold_range _ (ob_source o) kind Hu8) as Hr.
  destruct (failures_run h o kind _ n Hout Hf Hsel H0 eq_refl Hr) as [Hlo Hhi].
  rewrite negb_false_iff, bool_decide_eq_true. split; [|apply Hhi].
  intros Hu. apply Z.nlt_ge. intros Hlt. destruct (Hlo Hlt) as [Hs _]. congruence.
Qed.

(** every run of a tracker from its creation keeps its counters within a
    byte and an endpoint that is not healthy below its success threshold. *)
Theorem tracker_invariant identity policy generation os : policy_ok policy →
  health_ok (observe_all (newEndpointHealth identity policy generation) os).
Proof. intros Hp. apply observe_all_ok; [done|by apply new_ok]. Qed.

(** ** Examples *)

Definition demo_active : ActiveHealthPolicy :=
  mkActiveHealth HealthCheckHTTP 1 1 1 2 1 3 3 [200] [500; 503] "/health" "".
Definition demo_policy : HealthPolicy :=
  mkHealthPolicy (Some demo_active) (Some (mkPassiveHealth 2 0 0 [502])).
Definition demo_tracker : EndpointHealth := newEndpointHealth "e" demo_policy 1.

Definition probe_ok : Observation := mkObservation SourceActive OutcomeSuccess 200.
Definition probe_other : Observation := mkObservation SourceActive OutcomeSuccess 302.
Definition request_ok : Observation := mkObservation SourcePassive OutcomeSuccess 200.
Definition request_bad : Observation := mkObservation SourcePassive OutcomeSuccess 502.

(** Passive successes of an endpoint whose state is unknown count towards the
    success threshold. *)
Example passive_success_counts_when_unknown :
  eh_state (observe_all demo_tracker [request_ok; request_ok]) = HealthHealthy.
Proof. reflexivity. Qed.

Lemma demo_policy_ok : policy_ok demo_policy.
Proof. intros a [= <-]. vm_compute. split; congruence. Qed.

Definition demo_failed : EndpointHealth := observe_all demo_tracker [request_bad; request_bad].

Lemma tracker_invariant_witness : health_ok demo_failed.
Proof. exact (tracker_invariant "e" demo_policy 1 [request_bad; request_bad] demo_policy_ok). Defined.

Lemma recovery_needs_active_successes_witness : ∃ earlier,
  counting demo_failed [request_ok; probe_ok; probe_other; probe_ok] =
    earlier ++ replicate 2 active_success.
Proof.
  apply (recovery_needs_active_successes demo_failed demo_active [request_ok; probe_ok; probe_other]
    probe_ok demo_policy_ok).
  - apply observe_all_ok; [exact demo_policy_ok|apply new_ok, demo_policy_ok].
  - reflexivity.
  - reflexivity.
  - reflexivity.
  - intros [|[|[|[|k]]]] Hk; try reflexivity.
  - reflexivity.
Defined.

Lemma failure_threshold_exact_witness :
  Selectable (observe_all demo_tracker (replicate 2 request_bad)) = false.
Proof.
  apply (failure_threshold_exact demo_tracker request_bad OutcomeHTTPFailure 2); try reflexivity.
  - split; intros q [= <-]; repeat constructor; vm_compute; congruence.
Defined.
