(* ===== verification/HealthScheduler.v ===== *)
(** * Active health checks ([internal/upstream/health_scheduler.go], [probe_http.go], [probe_tcp.go])

    The coordinator keeps the probes of all endpoints: a heap ordered by due
    time, a bounded queue of probes that are due, one scheduler goroutine and a
    fixed number of workers. Activation, retirement, scheduling and the loops
    of the goroutines are steps of a machine, one for every atomic operation,
    critical section, channel operation and reading of the clock, so that the
    theorems cover every interleaving. Probers are the environment. *)

From S2P Require Import Prelude Heap GoErrors Resources Health.
#[local] Open Scope string_scope.
#[local] Open Scope Z_scope.
#[local] Open Scope list_scope.

(** ** Probes *)

Record ProbeTarget := mkProbeTarget { tg_endpoint : string; tg_generation : Z; tg_policy : ActiveHealthPolicy }.

Record healthRegistration := mkHealthRegistration {
  hg_target : ProbeTarget;
  hg_health : EndpointHealth;
  hg_activated : bool;
  hg_retired : bool;
}.

(** A scheduled probe, with its registration by number. *)
Record scheduledProbe := mkProbe { sp_due : Z; sp_sequence : Z; sp_reg : nat }.
#[global] Instance scheduledProbe_inhabited : Inhabited scheduledProbe := populate (mkProbe 0 0 0).

Definition probe_Less (a b : scheduledProbe) : bool :=
  if negb (sp_due a =? sp_due b) then sp_due a <? sp_due b else sp_sequence a <? sp_sequence b.

(** FNV-1a, 64 bits ([hash/fnv]). *)
Definition fnv64a (s : string) : Z :=
  foldl (fun h c => wrap64 (Z.lxor h (Z.of_N (N_of_ascii c)) * 1099511628211)) 14695981039346656037 (String.list_ascii_of_string s).

Definition initialProbeJitter (target : ProbeTarget) : Z :=
  let interval := ah_healthyInterval (tg_policy target) in
  if interval <=? 0 then 0
  else
    let window := Z.quot interval 10 in
    if window <=? 0 then 0 else fnv64a (tg_endpoint target) mod window.

Definition probeInterval (h : EndpointHealth) : Z :=
  match hp_active (eh_policy h) with
  | None => 1000000000
  | Some active => if bool_decide (State h = HealthUnhealthy) then ah_unhealthyInterval active else ah_healthyInterval active
  end.

(** The delay after which a probe is tried again when the queue is full. *)
Definition queueBackoff (h : EndpointHealth) : Z :=
  let backoff := Z.quot (probeInterval h) 10 in
  if (backoff <=? 0) || (100000000 <? backoff) then 100000000 else backoff.

(** ** Results of probes *)

Definition classifyProbeError (expired : bool) (err : goError) : OutcomeKind :=
  if expired || errors_Is err Canceled || errors_Is err DeadlineExceeded || networkTimeout err
  then OutcomeTimeout else OutcomeTransportFailure.

(** [httpProber.Probe]: without a request, with the error of the round trip and
    whether the probe's context is done, or with a status. *)
Inductive probeExchange := NoExchange | ExchangeFailed (expired : bool) (err : goError) | ExchangeStatus (status : Z).

Definition http_Probe (policy : ActiveHealthPolicy) (x : probeExchange) : Observation :=
  match x with
  | NoExchange => mkObservation SourceActive OutcomeTransportFailure 0
  | ExchangeFailed expired err => mkObservation SourceActive (classifyProbeError expired err) 0
  | ExchangeStatus status =>
    mkObservation SourceActive
      (if bool_decide (wrap16 status ∈ ah_healthyStatuses policy) then OutcomeSuccess
       else if bool_decide (wrap16 status ∈ ah_unhealthyStatuses policy) then OutcomeHTTPFailure
       else OutcomeNeutral) status
  end.

(** [tcpProber.Probe], with the error of the dial, if any. *)
Definition tcp_Probe (x : probeExchange) : Observation :=
  match x with
  | NoExchange => mkObservation SourceActive OutcomeTransportFailure 0
  | ExchangeFailed expired err => mkObservation SourceActive (classifyProbeError expired err) 0
  | ExchangeStatus _ => mkObservation SourceActive OutcomeSuccess 0
  end.

(** The prober of a target; [None] for a type without one. *)
Definition probeResult (target : ProbeTarget) (x : probeExchange) : option Observation :=
  let policy := tg_policy target in
  if String.eqb (ah_type policy) "http" then Some (http_Probe policy x)
  else if String.eqb (ah_type policy) "tcp" then Some (tcp_Probe x)
  else None.

Definition supported (target : ProbeTarget) : bool :=
  String.eqb (ah_type (tg_policy target)) "http" || String.eqb (ah_type (tg_policy target)) "tcp".

(** ** The coordinator *)

(** Calls of [ActivateHealth], [schedule], [Retire] and [signalWake] under way. *)
Inductive scheduling :=
| ToActivate (reg : nat)
| ToCheck (reg : nat) (due : Z)
| ToPush (reg : nat) (due : Z)
| ToRetireHealth (reg : nat)
| ToWake.

Inductive schedulerPC :=
| SNext
| SEmpty
| SArm (due wait : Z)
| SSleep (due fires : Z)
| SPop
| SGot (item : scheduledProbe)
| SSend (item : scheduledProbe)
| SCall (c : scheduling)
| SStopped.

Inductive workerPC :=
| WIdle
| WGot (item : scheduledProbe)
| WProbe (item : scheduledProbe)
| WResult (item : scheduledProbe) (result : Observation)
| WObserve (item : scheduledProbe) (result : Observation)
| WAfter (item : scheduledProbe)
| WCall (c : scheduling)
| WStopped.

Record coordinator := mkCoordinator {
  hc_capacity : nat;
  hc_now : Z;
  hc_stopped : bool;
  hc_canceled : bool;
  hc_heap : list scheduledProbe;
  hc_sequence : Z;
  hc_ready : list scheduledProbe;
  hc_wake : bool;
  hc_reschedules : Z;
  hc_regs : gmap nat healthRegistration;
  hc_scheduler : schedulerPC;
  hc_workers : list workerPC;
  hc_calls : list scheduling;
}.

Definition newHealthCoordinator (workers queueCapacity : Z) (now : Z) : option coordinator :=
  if (workers <? 1) || (256 <? workers) then None
  else if (queueCapacity <? 1) || (65536 <? queueCapacity) then None
  else Some (mkCoordinator (Z.to_nat queueCapacity) now false false [] 0 [] false 0 ∅ SNext (replicate (Z.to_nat workers) WIdle) []).

Section Updates.
Context (c : coordinator).

Definition with_heap (h : list scheduledProbe) (sequence : Z) : coordinator :=
  mkCoordinator (hc_capacity c) (hc_now c) (hc_stopped c) (hc_canceled c) h sequence (hc_ready c) (hc_wake c) (hc_reschedules c)
    (hc_regs c) (hc_scheduler c) (hc_workers c) (hc_calls c).
Definition with_ready (ready : list scheduledProbe) : coordinator :=
  mkCoordinator (hc_capacity c) (hc_now c) (hc_stopped c) (hc_canceled c) (hc_heap c) (hc_sequence c) ready (hc_wake c) (hc_reschedules c)
    (hc_regs c) (hc_scheduler c) (hc_workers c) (hc_calls c).
Definition with_wake (wake : bool) : coordinator :=
  mkCoordinator (hc_capacity c) (hc_now c) (hc_stopped c) (hc_canceled c) (hc_heap c) (hc_sequence c) (hc_ready c) wake (hc_reschedules c)
    (hc_regs c) (hc_scheduler c) (hc_workers c) (hc_calls c).
Definition rescheduled : coordinator :=
  mkCoordinator (hc_capacity c) (hc_now c) (hc_stopped c) (hc_canceled c) (hc_heap c) (hc_sequence c) (hc_ready c) (hc_wake c)
    (wrap64 (hc_reschedules c + 1)) (hc_regs c) (hc_scheduler c) (hc_workers c) (hc_calls c).
Definition with_regs (regs : gmap nat healthRegistration) : coordinator :=
  mkCoordinator (hc_capacity c) (hc_now c) (hc_stopped c) (hc_canceled c) (hc_heap c) (hc_sequence c) (hc_ready c) (hc_wake c)
    (hc_reschedules c) regs (hc_scheduler c) (hc_workers c) (hc_calls c).
Definition with_scheduler (pc : schedulerPC) : coordinator :=
  mkCoordinator (hc_capacity c) (hc_now c) (hc_stopped c) (hc_canceled c) (hc_heap c) (hc_sequence c) (hc_ready c) (hc_wake c)
    (hc_reschedules c) (hc_regs c) pc (hc_workers c) (hc_calls c).
Definition with_worker (i : nat) (pc : workerPC) : coordinator :=
  mkCoordinator (hc_capacity c) (hc_now c) (hc_stopped c) (hc_canceled c) (hc_heap c) (hc_sequence c) (hc_ready c) (hc_wake c)
    (hc_reschedules c) (hc_regs c) (hc_scheduler c) (<[i := pc]> (hc_workers c)) (hc_calls c).
Definition with_calls (calls : list scheduling) : coordinator :=
  mkCoordinator (hc_capacity c) (hc_now c) (hc_stopped c) (hc_canceled c) (hc_heap c) (hc_sequence c) (hc_ready c) (hc_wake c)
    (hc_reschedules c) (hc_regs c) (hc_scheduler c) (hc_workers c) calls.
Definition passed (d : Z) : coordinator :=
  mkCoordinator (hc_capacity c) (hc_now c + d) (hc_stopped c) (hc_canceled c) (hc_heap c) (hc_sequence c) (hc_ready c) (hc_wake c)
    (hc_reschedules c) (hc_regs c) (hc_scheduler c) (hc_workers c) (hc_calls c).
Definition stopping (canceled : bool) : coordinator :=
  mkCoordinator (hc_capacity c) (hc_now c) true canceled (hc_heap c) (hc_sequence c) (hc_ready c) (hc_wake c)
    (hc_reschedules c) (hc_regs c) (hc_scheduler c) (hc_workers c) (hc_calls c).
End Updates.

Definition reg_retired (c : coordinator) (r : nat) : bool :=
  match hc_regs c !! r with Some g => hg_retired g | None => true end.
Definition reg_activated (c : coordinator) (r : nat) : bool :=
  match hc_regs c !! r with Some g => hg_activated g | None => false end.
Definition reg_supported (c : coordinator) (r : nat) : bool :=
  match hc_regs c !! r with Some g => supported (hg_target g) | None => false end.

(** ** Operations *)

Definition signalWake (c : coordinator) : coordinator := with_wake c true.

(** The critical section of [schedule]. *)
Definition pushProbe (c : coordinator) (reg : nat) (due : Z) : coordinator :=
  let sequence := wrap64 (hc_sequence c + 1) in
  with_heap c (heap_Push probe_Less (hc_heap c) (mkProbe due sequence reg)) sequence.

(** One step of a call under way, and what is left of it. *)
Definition advanceCall (c : coordinator) (k : scheduling) : coordinator * option scheduling :=
  match k with
  | ToActivate r =>
    match hc_regs c !! r with
    | Some g =>
      if hg_activated g then (c, None)
      else (with_regs c (<[r := mkHealthRegistration (hg_target g) (hg_health g) true (hg_retired g)]> (hc_regs c)),
            Some (ToCheck r (hc_now c + initialProbeJitter (hg_target g))))
    | None => (c, None)
    end
  | ToCheck r due => if hc_stopped c || reg_retired c r then (c, None) else (c, Some (ToPush r due))
  | ToPush r due => (pushProbe c r due, Some ToWake)
  | ToRetireHealth r =>
    match hc_regs c !! r with
    | Some g => (with_regs c (<[r := mkHealthRegistration (hg_target g) (health_Retire (hg_health g)) (hg_activated g) (hg_retired g)]>
        (hc_regs c)), Some ToWake)
    | None => (c, Some ToWake)
    end
  | ToWake => (signalWake c, None)
  end.

(** [Register] returns a dormant registration. *)
Definition registerHealth (c : coordinator) (r : nat) (target : ProbeTarget) (health : EndpointHealth) : coordinator :=
  with_regs c (<[r := mkHealthRegistration target health false false]> (hc_regs c)).

(** [ActivateHealth] up to the compare-and-swap. *)
Definition ActivateHealth (c : coordinator) (r : nat) : coordinator :=
  if reg_retired c r || hc_stopped c then c else with_calls c (hc_calls c ++ [ToActivate r]).

Definition reg_Retire (c : coordinator) (r : nat) : coordinator :=
  match hc_regs c !! r with
  | Some g =>
    if hg_retired g then c
    else with_calls (with_regs c (<[r := mkHealthRegistration (hg_target g) (hg_health g) (hg_activated g) true]> (hc_regs c)))
      (hc_calls c ++ [ToRetireHealth r])
  | None => c
  end.

Definition StopHealth (c : coordinator) : coordinator :=
  if hc_stopped c then c else with_calls (stopping c (hc_canceled c)) (hc_calls c ++ [ToWake]).

(** [Close] up to its wait; the goroutines see the canceled context. *)
Definition CloseHealth (c : coordinator) : coordinator := stopping (StopHealth c) true.

(** The loop of [nextScheduled] that drops retired probes. *)
Fixpoint dropRetired (fuel : nat) (c : coordinator) (h : list scheduledProbe) : list scheduledProbe :=
  match fuel, h with
  | S fuel, x :: _ =>
    if reg_retired c (sp_reg x) then
      match heap_Pop probe_Less h with Some (_, h) => dropRetired fuel c h | None => h end
    else h
  | _, _ => h
  end.

Definition nextScheduled (c : coordinator) : coordinator * option (Z * Z) :=
  let h := dropRetired (length (hc_heap c)) c (hc_heap c) in
  (with_heap c h (hc_sequence c), match h with [] => None | x :: _ => Some (sp_due x, sp_due x - hc_now c) end).

Definition popDue (c : coordinator) : coordinator * option scheduledProbe :=
  match hc_heap c with
  | [] => (c, None)
  | x :: _ =>
    if 0 <? sp_due x - hc_now c then (c, None)
    else match heap_Pop probe_Less (hc_heap c) with
         | Some (item, h) => (with_heap c h (hc_sequence c), Some item)
         | None => (c, None)
         end
  end.

(** ** The scheduler *)

Inductive choice := TakeWake | TakeTimer | TakeDone | Proceed.

Definition runScheduler (c : coordinator) (x : choice) : option coordinator :=
  match hc_scheduler c, x with
  | SNext, Proceed =>
    let '(c, next) := nextScheduled c in
    Some (with_scheduler c (match next with None => SEmpty | Some (due, wait) => if 0 <? wait then SArm due wait else SPop end))
  | SArm due wait, Proceed => Some (with_scheduler c (SSleep due (hc_now c + wait)))
  | SEmpty, TakeWake | SSleep _ _, TakeWake => if hc_wake c then Some (with_scheduler (with_wake c false) SNext) else None
  | SEmpty, TakeDone | SSleep _ _, TakeDone => if hc_canceled c then Some (with_scheduler c SStopped) else None
  | SSleep _ fires, TakeTimer => if fires <=? hc_now c then Some (with_scheduler c SPop) else None
  | SPop, Proceed =>
    let '(c, item) := popDue c in Some (with_scheduler c (match item with None => SNext | Some item => SGot item end))
  | SGot item, Proceed => Some (with_scheduler c (if reg_retired c (sp_reg item) then SNext else SSend item))
  | SSend item, Proceed =>
    if Nat.ltb (length (hc_ready c)) (hc_capacity c)
    then Some (with_scheduler (with_ready c (hc_ready c ++ [item])) SNext)
    else
      let backoff := match hc_regs c !! sp_reg item with Some g => queueBackoff (hg_health g) | None => 100000000 end in
      Some (with_scheduler (rescheduled c) (SCall (ToCheck (sp_reg item) (hc_now c + backoff))))
  | SCall k, Proceed =>
    let '(c, rest) := advanceCall c k in
    Some (with_scheduler c (match rest with Some k => SCall k | None => SNext end))
  | _, _ => None
  end.

(** ** The workers *)

Inductive workerInput := TakeItem | TakeStop | ProbeReturns (x : probeExchange) | ProbePanics | WorkerStep.

Definition nextDue (c : coordinator) (item : scheduledProbe) : Z :=
  hc_now c + match hc_regs c !! sp_reg item with Some g => probeInterval (hg_health g) | None => 1000000000 end.

Definition runWorker (c : coordinator) (i : nat) (x : workerInput) : option coordinator :=
  match hc_workers c !! i with
  | None => None
  | Some w =>
    match w, x with
    | WIdle, TakeItem =>
      match hc_ready c with item :: ready => Some (with_worker (with_ready c ready) i (WGot item)) | [] => None end
    | WIdle, TakeStop => if hc_canceled c then Some (with_worker c i WStopped) else None
    | WGot item, WorkerStep =>
      if reg_retired c (sp_reg item) || hc_stopped c || negb (reg_supported c (sp_reg item)) then Some (with_worker c i WIdle)
      else Some (with_worker c i (WProbe item))
    | WProbe item, ProbeReturns x =>
      match hc_regs c !! sp_reg item ≫= fun g => probeResult (hg_target g) x with
      | Some result => Some (with_worker c i (WResult item result))
      | None => None
      end
    | WProbe item, ProbePanics =>
      if hc_stopped c || reg_retired c (sp_reg item) then Some (with_worker c i WIdle)
      else Some (with_worker (rescheduled c) i (WCall (ToCheck (sp_reg item) (nextDue c item))))
    | WResult item result, WorkerStep =>
      match hc_regs c !! sp_reg item with
      | Some g =>
        if negb (hg_retired g) && (tg_generation (hg_target g) =? eh_generation (hg_health g))
        then Some (with_worker c i (WObserve item result)) else Some (with_worker c i (WAfter item))
      | None => Some (with_worker c i (WAfter item))
      end
    | WObserve item result, WorkerStep =>
      match hc_regs c !! sp_reg item with
      | Some g => Some (with_worker (with_regs c (<[sp_reg item := mkHealthRegistration (hg_target g) (Observe (hg_health g) result).1
          (hg_activated g) (hg_retired g)]> (hc_regs c))) i (WAfter item))
      | None => Some (with_worker c i (WAfter item))
      end
    | WAfter item, WorkerStep =>
      if hc_stopped c || reg_retired c (sp_reg item) then Some (with_worker c i WIdle)
      else Some (with_worker c i (WCall (ToCheck (sp_reg item) (nextDue c item))))
    | WCall k, WorkerStep =>
      let '(c, rest) := advanceCall c k in
      Some (with_worker c i (match rest with Some k => WCall k | None => WIdle end))
    | _, _ => None
    end
  end.

Definition coordinator_Stats (c : coordinator) : nat * nat * nat * Z :=
  (length (hc_workers c), length (hc_heap c), length (hc_ready c), hc_reschedules c).

(** ** Steps *)

Inductive hevent :=
| HRegister (r : nat) (target : ProbeTarget) (health : EndpointHealth)
| HActivate (r : nat)
| HRetire (r : nat)
| HCall (k : nat)
| HScheduler (x : choice)
| HWorker (i : nat) (x : workerInput)
| HTick (d : Z)
| HStop
| HClose.

Definition hexec (c : coordinator) (e : hevent) : option coordinator :=
  match e with
  | HRegister r target health => if hc_regs c !! r then None else Some (registerHealth c r target health)
  | HActivate r => Some (ActivateHealth c r)
  | HRetire r => Some (reg_Retire c r)
  | HCall k =>
    match hc_calls c !! k with
    | None => None
    | Some call =>
      let '(c, rest) := advanceCall (with_calls c (delete k (hc_calls c))) call in
      Some (with_calls c (hc_calls c ++ option_list rest))
    end
  | HScheduler x => runScheduler c x
  | HWorker i x => runWorker c i x
  | HTick d => if 0 <=? d then Some (passed c d) else None
  | HStop => Some (StopHealth c)
  | HClose => Some (CloseHealth c)
  end.

Inductive hreachable : coordinator → Prop :=
| hreach_new workers queueCapacity now c : newHealthCoordinator workers queueCapacity now = Some c → hreachable c
| hreach_step c e c' : hreachable c → hexec c e = Some c' → hreachable c'.

(** ** The order of probes *)

Lemma probe_Less_spec a b : probe_Less a b = true ↔ sp_due a < sp_due b ∨ sp_due a = sp_due b ∧ sp_sequence a < sp_sequence b.
Proof. unfold probe_Less. destruct (Z.eqb_spec (sp_due a) (sp_due b)); simpl; rewrite Z.ltb_lt; lia. Qed.

Lemma probe_le a b : heap_le probe_Less a b ↔ sp_due a < sp_due b ∨ sp_due a = sp_due b ∧ sp_sequence a ≤ sp_sequence b.
Proof. unfold heap_le. rewrite <-not_true_iff_false, probe_Less_spec. lia. Qed.

Definition any_probe (x : scheduledProbe) : Prop := True.

Lemma probe_Less_asym a b : any_probe a → any_probe b → probe_Less a b = true → probe_Less b a = false.
Proof. intros _ _. rewrite <-not_true_iff_false, !probe_Less_spec. lia. Qed.

Lemma probe_le_trans a b c : any_probe a → any_probe b → any_probe c →
  heap_le probe_Less a b → heap_le probe_Less b c → heap_le probe_Less a c.
Proof. intros _ _ _. rewrite !probe_le. lia. Qed.

Lemma all_probes h : Forall any_probe h.
Proof. by apply Forall_true. Qed.

Lemma probe_Push h x : heap_ordered probe_Less h → heap_Push probe_Less h x ≡ₚ x :: h ∧ heap_ordered probe_Less (heap_Push probe_Less h x).
Proof. intros Hh. by apply (heap_Push_spec probe_Less any_probe probe_Less_asym probe_le_trans h x (all_probes h) I). Qed.

Lemma probe_Pop h : heap_ordered probe_Less h → h ≠ [] → ∃ x rest, heap_Pop probe_Less h = Some (x, rest) ∧ x :: rest ≡ₚ h ∧
  heap_ordered probe_Less rest ∧ Forall (heap_le probe_Less x) rest.
Proof. intros Hh Hne. by apply (heap_Pop_spec probe_Less any_probe probe_Less_asym probe_le_trans h (all_probes h)). Qed.

Lemma probe_root h x rest : heap_ordered probe_Less h → h = x :: rest → Forall (fun y => sp_due x ≤ sp_due y) h.
Proof.
  intros Hh ->. apply Forall_lookup. intros i y Hi.
  assert (Hlt : (i < length (x :: rest))%nat) by (by eapply lookup_lt_Some).
  pose proof (heap_root_least probe_Less any_probe probe_Less_asym probe_le_trans (x :: rest) i (all_probes _) Hh Hlt) as Hle.
  unfold le_at in Hle. rewrite (list_lookup_total_correct _ _ _ Hi) in Hle. simpl in Hle. apply probe_le in Hle. lia.
Qed.

(** ** Tokens *)

(** Where the probe of a registration is: exactly one place, or nowhere. *)
Definition item_token (r : nat) (x : scheduledProbe) : Z := if decide (sp_reg x = r) then 1 else 0.
Definition call_token (r : nat) (k : scheduling) : Z :=
  match k with ToCheck r' _ | ToPush r' _ => if decide (r' = r) then 1 else 0 | _ => 0 end.
Definition scheduler_token (r : nat) (pc : schedulerPC) : Z :=
  match pc with SGot x | SSend x => item_token r x | SCall k => call_token r k | _ => 0 end.
Definition worker_token (r : nat) (w : workerPC) : Z :=
  match w with
  | WGot x | WProbe x | WResult x _ | WObserve x _ | WAfter x => item_token r x
  | WCall k => call_token r k
  | _ => 0
  end.
Definition tokens (r : nat) (c : coordinator) : Z :=
  zsum (item_token r) (hc_heap c) + zsum (item_token r) (hc_ready c) + scheduler_token r (hc_scheduler c) +
  zsum (worker_token r) (hc_workers c) + zsum (call_token r) (hc_calls c).

Definition activated (r : nat) (c : coordinator) : Z := if reg_activated c r then 1 else 0.

(** Probes of such a registration need not go on. *)
Definition gone (c : coordinator) (r : nat) : Prop := hc_stopped c = true ∨ reg_retired c r = true ∨ reg_supported c r = false.

(** From [c] to [c'] a token of [r] appears with its activation and disappears
    only when it may. *)
Record flow (r : nat) (c c' : coordinator) : Prop := {
  fl_most : tokens r c' ≤ tokens r c + (activated r c' - activated r c);
  fl_kept : ¬ gone c' r → tokens r c' = tokens r c + (activated r c' - activated r c);
  fl_gone : gone c r → hc_regs c !! r ≠ None → gone c' r;
}.

Definition rest_token (r : nat) (rest : option scheduling) : Z := match rest with Some k => call_token r k | None => 0 end.

(** What a call leaves alone. *)
Record framed (c c' : coordinator) : Prop := {
  fr_ready : hc_ready c' = hc_ready c;
  fr_scheduler : hc_scheduler c' = hc_scheduler c;
  fr_workers : hc_workers c' = hc_workers c;
  fr_calls : hc_calls c' = hc_calls c;
  fr_capacity : hc_capacity c' = hc_capacity c;
}.

Lemma framed_refl c : framed c c.
Proof. done. Qed.

Lemma with_regs_reg c r g r' : reg_retired (with_regs c (<[r := g]> (hc_regs c))) r' = (if decide (r' = r) then hg_retired g else reg_retired c r') ∧
  reg_activated (with_regs c (<[r := g]> (hc_regs c))) r' = (if decide (r' = r) then hg_activated g else reg_activated c r') ∧
  reg_supported (with_regs c (<[r := g]> (hc_regs c))) r' = (if decide (r' = r) then supported (hg_target g) else reg_supported c r').
Proof.
  unfold reg_retired, reg_activated, reg_supported. simpl. destruct (decide (r' = r)) as [->|Hne]; [by rewrite lookup_insert_eq|by rewrite lookup_insert_ne].
Qed.

(** Replacing a registration by one with the same target that is retired if the
    old one was. *)
Lemma regs_gone c r g g' r' : hc_regs c !! r = Some g → hg_target g' = hg_target g → (hg_retired g = true → hg_retired g' = true) →
  gone c r' → gone (with_regs c (<[r := g']> (hc_regs c))) r'.
Proof.
  intros Hg Ht Hr. destruct (with_regs_reg c r g' r') as (E1 & _ & E3). unfold gone. rewrite E1, E3. simpl.
  destruct (decide (r' = r)) as [->|]; [|done]. unfold reg_retired, reg_supported. rewrite Hg, Ht. tauto.
Qed.

Lemma advance_flow r c k c' rest : heap_ordered probe_Less (hc_heap c) → advanceCall c k = (c', rest) →
  heap_ordered probe_Less (hc_heap c') ∧ framed c c' ∧ (gone c r → hc_regs c !! r ≠ None → gone c' r) ∧
  let before := zsum (item_token r) (hc_heap c) + call_token r k + (activated r c' - activated r c) in
  let after := zsum (item_token r) (hc_heap c') + rest_token r rest in
  after ≤ before ∧ (¬ gone c' r → after = before).
Proof.
  intros Hh. unfold activated. destruct k as [r'|r' due|r' due|r'|]; simpl.
  - destruct (hc_regs c !! r') as [g|] eqn:Hg; [|intros [= <- <-]; simpl; split_and!; try done; lia].
    destruct (hg_activated g) eqn:Ha; intros [= <- <-]; [simpl; split_and!; try done; lia|].
    destruct (with_regs_reg c r' (mkHealthRegistration (hg_target g) (hg_health g) true (hg_retired g)) r) as (E1 & E2 & E3).
    split; [done|]. split; [done|]. split; [intros Hgone _; by eapply regs_gone|]. rewrite E2. simpl.
    destruct (decide (r' = r)) as [->|Hne].
    + rewrite decide_True by done. unfold reg_activated. rewrite Hg, Ha. lia.
    + rewrite decide_False by congruence. lia.
  - destruct (hc_stopped c || reg_retired c r') eqn:E; intros [= <- <-]; simpl; split_and!; try done; try lia.
    + destruct (decide (r' = r)); lia.
    + intros Hn. rewrite decide_False; [lia|]. intros ->. apply Hn. apply orb_true_iff in E as [E|E]; [by left|right; by left].
  - intros [= <- <-]. destruct (probe_Push (hc_heap c) (mkProbe due (wrap64 (hc_sequence c + 1)) r') Hh) as [Hp Ho].
    simpl. rewrite (zsum_perm _ _ _ Hp). rewrite zsum_cons. unfold reg_activated.
    change (item_token r (mkProbe due (wrap64 (hc_sequence c + 1)) r')) with (if decide (r' = r) then 1 else 0). simpl.
    split_and!; try done; lia.
  - destruct (hc_regs c !! r') as [g|] eqn:Hg; intros [= <- <-]; [|simpl; split_and!; try done; lia].
    destruct (with_regs_reg c r' (mkHealthRegistration (hg_target g) (health_Retire (hg_health g)) (hg_activated g) (hg_retired g)) r)
      as (E1 & E2 & E3).
    split; [done|]. split; [done|]. split; [intros Hgone _; by eapply regs_gone|]. rewrite E2. simpl.
    destruct (decide (r = r')) as [->|Hne]; [unfold reg_activated; rewrite Hg|]; lia.
  - intros [= <- <-]. simpl. unfold reg_activated. simpl. split_and!; try done; lia.
Qed.

(** ** Steps keep the tokens *)

Lemma item_token_range r x : 0 ≤ item_token r x ≤ 1.
Proof. unfold item_token. destruct (decide _); lia. Qed.

Lemma item_token_other r x : sp_reg x ≠ r → item_token r x = 0.
Proof. intros Hne. unfold item_token. by rewrite decide_False. Qed.

Lemma dropRetired_spec r c fuel : ∀ h, heap_ordered probe_Less h →
  let h' := dropRetired fuel c h in
  heap_ordered probe_Less h' ∧ zsum (item_token r) h' ≤ zsum (item_token r) h ∧
  (reg_retired c r = false → zsum (item_token r) h' = zsum (item_token r) h).
Proof.
  induction fuel as [|fuel IH]; intros h Hh; cbn [dropRetired]; [split_and!; done|]. destruct h as [|x h]; [split_and!; done|].
  destruct (reg_retired c (sp_reg x)) eqn:Hx; [|split_and!; done].
  destruct (probe_Pop (x :: h) Hh ltac:(done)) as (y & rest & Hpop & Hperm & Ho & Hle). rewrite Hpop.
  pose proof (heap_Pop_root _ _ _ _ Hpop) as ->. simpl in Hperm.
  destruct (IH rest Ho) as (H1 & H2 & H3). rewrite <-(zsum_perm _ _ _ Hperm), zsum_cons.
  pose proof (item_token_range r x). split_and!; [done|lia|]. intros Hr. rewrite (H3 Hr), item_token_other by congruence. lia.
Qed.

Lemma popDue_spec r c c' item : heap_ordered probe_Less (hc_heap c) → popDue c = (c', item) →
  heap_ordered probe_Less (hc_heap c') ∧ framed c c' ∧ hc_regs c' = hc_regs c ∧ hc_stopped c' = hc_stopped c ∧
  zsum (item_token r) (hc_heap c) = zsum (item_token r) (hc_heap c') + match item with Some x => item_token r x | None => 0 end.
Proof.
  intros Hh. unfold popDue. destruct (hc_heap c) as [|x h] eqn:E; [intros [= <- <-]; rewrite E; split_and!; try done; lia|].
  destruct (0 <? _); [intros [= <- <-]; rewrite E; split_and!; try done; lia|].
  destruct (probe_Pop (x :: h) Hh ltac:(done)) as (y & rest & Hpop & Hperm & Ho & Hle). rewrite Hpop. intros [= <- <-].
  cbn [hc_heap with_heap]. rewrite <-(zsum_perm _ _ _ Hperm), zsum_cons. split_and!; try done; lia.
Qed.

Lemma flow_same r c c' : tokens r c' = tokens r c → hc_regs c' = hc_regs c → hc_stopped c' = hc_stopped c → flow r c c'.
Proof.
  intros Ht Hr Hs. assert (Ha : activated r c' = activated r c) by (unfold activated, reg_activated; by rewrite Hr).
  split; [lia|lia|]. unfold gone, reg_retired, reg_supported. by rewrite Hr, Hs.
Qed.

(** A token of [r] that is dropped because its registration is done with. *)
Lemma flow_dropped r c c' : tokens r c' ≤ tokens r c → (¬ gone c r → tokens r c' = tokens r c) →
  hc_regs c' = hc_regs c → hc_stopped c' = hc_stopped c → flow r c c'.
Proof.
  intros Ht Hk Hr Hs. assert (Ha : activated r c' = activated r c) by (unfold activated, reg_activated; by rewrite Hr).
  assert (Hg : gone c' r ↔ gone c r) by (unfold gone, reg_retired, reg_supported; by rewrite Hr, Hs).
  split; [lia| |tauto]. intros Hn. rewrite Hk by tauto. lia.
Qed.

Lemma scheduler_flow r c x c' : heap_ordered probe_Less (hc_heap c) → runScheduler c x = Some c' →
  flow r c c' ∧ heap_ordered probe_Less (hc_heap c').
Proof.
  intros Hh. unfold runScheduler. destruct (hc_scheduler c) as [| |due wait|due fires| |item|item|k|] eqn:Es; destruct x; try done.
  - unfold nextScheduled. set (h := dropRetired _ _ _). destruct (dropRetired_spec r c (length (hc_heap c)) (hc_heap c) Hh) as (H1 & H2 & H3).
    fold h in H1, H2, H3. intros [= <-]. split; [|done].
    assert (Hz : ∀ pc, scheduler_token r pc = 0 → flow r c (with_scheduler (with_heap c h (hc_sequence c)) pc)).
    { intros pc Hpc. apply flow_dropped; try done; unfold tokens; rewrite Es; simpl; [lia|]. intros Hn.
      rewrite H3; [lia|]. destruct (reg_retired c r) eqn:E; [|done]. destruct Hn. right. by left. }
    apply Hz. destruct h; [done|]. by destruct (0 <? _).
  - destruct (hc_wake c); [|done]. intros [= <-]. split; [|done]. apply flow_same; try done. unfold tokens. by rewrite Es.
  - destruct (hc_canceled c); [|done]. intros [= <-]. split; [|done]. apply flow_same; try done. unfold tokens. by rewrite Es.
  - intros [= <-]. split; [|done]. apply flow_same; try done. unfold tokens. by rewrite Es.
  - destruct (hc_wake c); [|done]. intros [= <-]. split; [|done]. apply flow_same; try done. unfold tokens. by rewrite Es.
  - destruct (_ <=? _); [|done]. intros [= <-]. split; [|done]. apply flow_same; try done. unfold tokens. by rewrite Es.
  - destruct (hc_canceled c); [|done]. intros [= <-]. split; [|done]. apply flow_same; try done. unfold tokens. by rewrite Es.
  - destruct (popDue c) as [c1 item] eqn:Ep. destruct (popDue_spec r _ _ _ Hh Ep) as (H1 & [F1 F2 F3 F4 F5] & H3 & H4 & H5).
    intros [= <-]. split; [|done]. apply flow_same; try done. unfold tokens. simpl. rewrite Es, F1, F3, F4, H5.
    destruct item; simpl; lia.
  - intros [= <-]. split; [|done]. destruct (reg_retired c (sp_reg item)) eqn:Er.
    + apply flow_dropped; try done; unfold tokens; simpl; rewrite Es; simpl; [pose proof (item_token_range r item); lia|].
      intros Hn. rewrite (item_token_other r item); [lia|]. intros <-. apply Hn. right. by left.
    + apply flow_same; try done. unfold tokens. by rewrite Es.
  - destruct (_ <? _)%nat; intros [= <-]; (split; [|done]); apply flow_same; try done; unfold tokens; simpl; rewrite Es; simpl.
    + rewrite zsum_app, zsum_cons. simpl. lia.
    + done.
  - destruct (advanceCall c k) as [c1 rest] eqn:Ea. destruct (advance_flow r _ _ _ _ Hh Ea) as (H1 & [F1 F2 F3 F4 F5] & H3 & H4 & H5).
    intros [= <-]. split; [|done]. assert (Hs : scheduler_token r (match rest with Some k => SCall k | None => SNext end) = rest_token r rest) by (by destruct rest).
    split; unfold tokens; cbn [with_scheduler hc_heap hc_ready hc_scheduler hc_workers hc_calls]; rewrite ?Hs, ?F1, ?F3, ?F4, ?Es; cbn [scheduler_token].
    + change (activated r (with_scheduler c1 _)) with (activated r c1). lia.
    + change (activated r (with_scheduler c1 _)) with (activated r c1). intros Hn. specialize (H5 Hn). lia.
    + exact H3.
Qed.

Lemma with_worker_tokens r c i w w' : hc_workers c !! i = Some w →
  tokens r (with_worker c i w') = tokens r c + worker_token r w' - worker_token r w.
Proof. intros Hi. unfold tokens. cbn [with_worker hc_heap hc_ready hc_scheduler hc_workers hc_calls]. rewrite (zsum_insert _ _ _ _ _ Hi). lia. Qed.

(** A worker that keeps its token. *)
Lemma worker_moves r c i w w' : hc_workers c !! i = Some w → worker_token r w' = worker_token r w → flow r c (with_worker c i w').
Proof. intros Hi Hw. apply flow_same; try done. rewrite (with_worker_tokens _ _ _ _ _ Hi). lia. Qed.

(** A worker that drops the token of a registration that is done with. *)
Lemma worker_drops r c i w item w' : hc_workers c !! i = Some w → worker_token r w = item_token r item → worker_token r w' = 0 →
  gone c (sp_reg item) → flow r c (with_worker c i w').
Proof.
  intros Hi Hw Hw' Hg. pose proof (with_worker_tokens r _ _ _ w' Hi) as Ht. pose proof (item_token_range r item).
  apply flow_dropped; try done; [lia|]. intros Hn. rewrite Ht, Hw, Hw', (item_token_other r item) by (intros <-; by apply Hn). lia.
Qed.

Lemma reg_gone c item : (reg_retired c (sp_reg item) || hc_stopped c || negb (reg_supported c (sp_reg item))) = true → gone c (sp_reg item).
Proof.
  intros [[?|?]%orb_true_iff|?%negb_true_iff]%orb_true_iff; [right; by left|by left|by do 2 right].
Qed.

(** An observation changes nothing that tokens depend on. *)
Lemma observe_flow r c i w w' r' g g' : hc_workers c !! i = Some w → worker_token r w' = worker_token r w →
  hc_regs c !! r' = Some g → hg_target g' = hg_target g → hg_activated g' = hg_activated g → hg_retired g' = hg_retired g →
  flow r c (with_worker (with_regs c (<[r' := g']> (hc_regs c))) i w').
Proof.
  intros Hi Hw Hg Ht Ha Hr. set (c1 := with_regs c _). destruct (with_regs_reg c r' g' r) as (E1 & E2 & E3).
  assert (Hact : activated r (with_worker c1 i w') = activated r c).
  { unfold activated. change (reg_activated (with_worker c1 i w') r) with (reg_activated c1 r). unfold c1. rewrite E2.
    destruct (decide (r = r')) as [->|]; [|done]. unfold reg_activated. by rewrite Hg, Ha. }
  assert (Htok : tokens r (with_worker c1 i w') = tokens r c) by (rewrite (with_worker_tokens r c1 i w w' Hi); change (tokens r c1) with (tokens r c); lia).
  split; [lia|lia|]. intros Hgone _. exact (regs_gone c r' g g' r Hg Ht (fun E => eq_trans Hr E) Hgone).
Qed.

Lemma worker_flow r c i x c' : heap_ordered probe_Less (hc_heap c) → runWorker c i x = Some c' →
  flow r c c' ∧ heap_ordered probe_Less (hc_heap c').
Proof.
  intros Hh. unfold runWorker. destruct (hc_workers c !! i) as [w|] eqn:Hi; [|done].
  destruct w as [|item|item|item result|item result|item|k|], x as [| |x| |]; try done.
  - destruct (hc_ready c) as [|item ready] eqn:Er; [done|]. intros [= <-]. split; [|done]. apply flow_same; try done.
    rewrite (with_worker_tokens r (with_ready c ready) i WIdle (WGot item) Hi). unfold tokens. simpl hc_ready. rewrite Er, zsum_cons. simpl. lia.
  - destruct (hc_canceled c); [|done]. intros [= <-]. split; [|done]. by eapply worker_moves.
  - destruct (_ || _) eqn:E; intros [= <-]; (split; [|done]); [|by eapply worker_moves].
    eapply worker_drops; try done. by apply reg_gone.
  - destruct (hc_regs c !! sp_reg item ≫= _) as [result|]; [|done]. intros [= <-]. split; [|done]. by eapply worker_moves.
  - destruct (_ || _) eqn:E; intros [= <-]; (split; [|done]).
    + eapply worker_drops; try done. apply reg_gone. by rewrite (orb_comm (reg_retired _ _)), E.
    + apply flow_same; try done. rewrite (with_worker_tokens r (rescheduled c) i _ _ Hi). change (tokens r (rescheduled c)) with (tokens r c). simpl. unfold item_token. lia.
  - destruct (hc_regs c !! sp_reg item) as [g|]; [destruct (_ && _)|]; intros [= <-]; (split; [|done]); by eapply worker_moves.
  - destruct (hc_regs c !! sp_reg item) as [g|] eqn:Hg; intros [= <-]; (split; [|done]); [by eapply observe_flow|by eapply worker_moves].
  - destruct (_ || _) eqn:E; intros [= <-]; (split; [|done]); [|by eapply worker_moves].
    eapply worker_drops; try done. apply reg_gone. by rewrite (orb_comm (reg_retired _ _)), E.
  - destruct (advanceCall c k) as [c1 rest] eqn:Ea. destruct (advance_flow r _ _ _ _ Hh Ea) as (H1 & [F1 F2 F3 F4 F5] & H3 & H4 & H5).
    intros [= <-]. split; [|done]. set (w' := match rest with Some k => WCall k | None => WIdle end).
    assert (Hs : worker_token r w' = rest_token r rest) by (unfold w'; by destruct rest).
    pose proof (with_worker_tokens r c1 i (WCall k) w' ltac:(by rewrite F3)) as Ht. cbn [worker_token] in Ht.
    assert (Hc : tokens r c1 = tokens r c + zsum (item_token r) (hc_heap c1) - zsum (item_token r) (hc_heap c))
      by (unfold tokens; rewrite F1, F2, F3, F4; lia).
    split; [change (activated r (with_worker c1 i w')) with (activated r c1); lia| |exact H3].
    change (activated r (with_worker c1 i w')) with (activated r c1). intros Hn. specialize (H5 Hn). lia.
Qed.

Lemma call_flow r c k call c1 rest : heap_ordered probe_Less (hc_heap c) → hc_calls c !! k = Some call →
  advanceCall (with_calls c (delete k (hc_calls c))) call = (c1, rest) →
  flow r c (with_calls c1 (hc_calls c1 ++ option_list rest)) ∧ heap_ordered probe_Less (hc_heap c1).
Proof.
  intros Hh Hk Ha. set (c0 := with_calls c _) in Ha. destruct (advance_flow r c0 _ _ _ Hh Ha) as (H1 & [F1 F2 F3 F4 F5] & H3 & H4 & H5).
  split; [|done]. set (c2 := with_calls c1 _).
  assert (Ht : tokens r c2 = tokens r c + zsum (item_token r) (hc_heap c1) - zsum (item_token r) (hc_heap c) - call_token r call + rest_token r rest).
  { unfold tokens. cbn [c2 with_calls hc_heap hc_ready hc_scheduler hc_workers hc_calls]. rewrite F1, F2, F3, F4.
    cbn [c0 with_calls hc_ready hc_scheduler hc_workers hc_calls]. rewrite zsum_app, (zsum_delete _ _ _ _ Hk).
    destruct rest as [k'|]; simpl; lia. }
  change (activated r c0) with (activated r c) in *. change (hc_heap c0) with (hc_heap c) in *.
  split; [change (activated r c2) with (activated r c1); lia| |exact H3].
  change (activated r c2) with (activated r c1). intros Hn. specialize (H5 Hn). lia.
Qed.

(** ** Wake-ups *)

(** A wake-up has been signaled or is about to be. *)
Definition waking (c : coordinator) : Prop := hc_wake c = true ∨ ToWake ∈ hc_calls c ∨ WCall ToWake ∈ hc_workers c.

(** A scheduler that is going to sleep, or asleep, need not wake up earlier. *)
Definition rests (pc : schedulerPC) (h : list scheduledProbe) : Prop :=
  match pc with SEmpty => h = [] | SArm due _ | SSleep due _ => Forall (fun x => due ≤ sp_due x) h | _ => True end.

Definition awake (c : coordinator) : Prop := waking c ∨ rests (hc_scheduler c) (hc_heap c).

Lemma advance_wake c k c' rest : advanceCall c k = (c', rest) →
  (hc_wake c' = true ∨ rest = Some ToWake) ∨ (hc_heap c' = hc_heap c ∧ hc_wake c' = hc_wake c ∧ k ≠ ToWake).
Proof.
  destruct k as [r|r due|r due|r|]; simpl.
  - destruct (hc_regs c !! r) as [g|]; [destruct (hg_activated g)|]; intros [= <- <-]; by right.
  - destruct (_ || _); intros [= <- <-]; by right.
  - intros [= <- <-]. left. by right.
  - destruct (hc_regs c !! r); intros [= <- <-]; left; by right.
  - intros [= <- <-]. left. by left.
Qed.

Lemma call_awake c k call c1 rest : awake c → hc_calls c !! k = Some call →
  advanceCall (with_calls c (delete k (hc_calls c))) call = (c1, rest) → framed (with_calls c (delete k (hc_calls c))) c1 →
  awake (with_calls c1 (hc_calls c1 ++ option_list rest)).
Proof.
  intros Haw Hk Ha [F1 F2 F3 F4 F5]. destruct (advance_wake _ _ _ _ Ha) as [[Hw| ->]|(Hh & Hw & Hne)].
  - left. by left.
  - left. right. left. apply elem_of_app. right. by left.
  - destruct Haw as [[Hw'|[Hin|Hin]]|Hr].
    + left. left. simpl. by rewrite Hw.
    + left. right. left. simpl. rewrite F4. apply elem_of_app. left. simpl. apply list_elem_of_lookup in Hin as [j Hj].
      assert (j ≠ k) by congruence. rewrite delete_take_drop. apply elem_of_app. apply list_elem_of_lookup_2 in Hj as Hin.
      rewrite <-(take_drop_middle _ _ _ Hk), elem_of_app, elem_of_cons in Hin. destruct Hin as [?|[?|?]]; [by left|congruence|by right].
    + left. right. right. simpl. by rewrite F3.
    + right. simpl. by rewrite F2, Hh.
Qed.

(** A worker that does not give up a wake-up. *)
Lemma worker_awake c c1 i w w' : awake c → hc_workers c !! i = Some w → w ≠ WCall ToWake →
  hc_wake c1 = hc_wake c → hc_calls c1 = hc_calls c → hc_workers c1 = hc_workers c → hc_scheduler c1 = hc_scheduler c → hc_heap c1 = hc_heap c →
  awake (with_worker c1 i w').
Proof.
  intros Haw Hi Hne H1 H2 H3 H4 H5. destruct Haw as [[Hw|[Hin|Hin]]|Hr].
  - left. left. simpl. by rewrite H1.
  - left. right. left. simpl. by rewrite H2.
  - left. right. right. simpl. rewrite H3. apply list_elem_of_lookup in Hin as [j Hj].
    apply list_elem_of_lookup. exists j. rewrite list_lookup_insert_ne; [done|congruence].
  - right. simpl. by rewrite H4, H5.
Qed.

Lemma runWorker_awake c i x c' : awake c → heap_ordered probe_Less (hc_heap c) → runWorker c i x = Some c' → awake c'.
Proof.
  intros Haw Hh Hrun. destruct (hc_workers c !! i) as [w|] eqn:Hi; [|unfold runWorker in Hrun; by rewrite Hi in Hrun].
  assert (Hcase : (∃ k, w = WCall k) ∨ ¬ ∃ k, w = WCall k) by (destruct w; try (right; by intros [k' Hk']); left; by eexists).
  destruct Hcase as [[k ->]|Hk].
  - unfold runWorker in Hrun. rewrite Hi in Hrun. destruct x; try done. destruct (advanceCall c k) as [c1 rest] eqn:Ea. injection Hrun as <-.
    destruct (advance_flow 0 _ _ _ _ Hh Ea) as (_ & [F1 F2 F3 F4 F5] & _).
    destruct (advance_wake _ _ _ _ Ea) as [[Hw| ->]|(H1 & H2 & Hne)]; [left; by left| |eapply worker_awake; try done; congruence].
    left. right. right. simpl. rewrite F3. apply list_elem_of_lookup. exists i. apply list_lookup_insert_eq. by eapply lookup_lt_Some.
  - assert (Hne : w ≠ WCall ToWake) by (intros ->; apply Hk; by eexists).
    unfold runWorker in Hrun. rewrite Hi in Hrun.
    destruct w as [|item|item|item result|item result|item|k|], x as [| |x| |]; try done; repeat (case_match; try done);
      simplify_eq; try (by eapply worker_awake); by destruct Hk; eexists.
Qed.

Lemma runScheduler_awake c x c' : awake c → heap_ordered probe_Less (hc_heap c) → runScheduler c x = Some c' → awake c'.
Proof.
  intros Haw Hh. unfold runScheduler. destruct (hc_scheduler c) as [| |due wait|due fires| |item|item|k|] eqn:Es; destruct x; try done.
  - unfold nextScheduled. set (h := dropRetired _ _ _). destruct (dropRetired_spec 0 c (length (hc_heap c)) (hc_heap c) Hh) as (H1 & _).
    fold h in H1. intros [= <-]. right. simpl. clearbody h. destruct h as [|y h]; [done|]. destruct (0 <? _); [|done]. simpl.
    by eapply probe_root.
  - destruct (hc_wake c); [|done]. intros [= <-]. by right.
  - destruct (hc_canceled c); [|done]. intros [= <-]. by right.
  - intros [= <-]. destruct Haw as [Hw|Hr]; [by left|]. right. rewrite Es in Hr. exact Hr.
  - destruct (hc_wake c); [|done]. intros [= <-]. by right.
  - destruct (_ <=? _); [|done]. intros [= <-]. by right.
  - destruct (hc_canceled c); [|done]. intros [= <-]. by right.
  - destruct (popDue c) as [c1 item]. intros [= <-]. right. by destruct item.
  - intros [= <-]. right. simpl. by destruct (reg_retired _ _).
  - destruct (_ <? _)%nat; intros [= <-]; by right.
  - destruct (advanceCall c k) as [c1 rest]. intros [= <-]. right. by destruct rest.
Qed.

(** ** The invariant *)

Record coordinator_ok (c : coordinator) : Prop := {
  hk_heap : heap_ordered probe_Less (hc_heap c);
  hk_most r : tokens r c ≤ activated r c;
  hk_live r : ¬ gone c r → tokens r c = activated r c;
  hk_ready : (length (hc_ready c) ≤ hc_capacity c)%nat;
  hk_awake : awake c;
}.

Lemma call_token_nonneg r k : 0 ≤ call_token r k.
Proof. destruct k; simpl; try lia; destruct (decide _); lia. Qed.

Lemma tokens_nonneg r c : 0 ≤ tokens r c.
Proof.
  assert (Hi : ∀ x, 0 ≤ item_token r x) by (intros x; pose proof (item_token_range r x); lia). pose proof (call_token_nonneg r) as Hc.
  unfold tokens. pose proof (zsum_nonneg _ (hc_heap c) Hi). pose proof (zsum_nonneg _ (hc_ready c) Hi). pose proof (zsum_nonneg _ (hc_calls c) Hc).
  assert (0 ≤ scheduler_token r (hc_scheduler c)) by (destruct (hc_scheduler c); simpl; auto; lia).
  assert (0 ≤ zsum (worker_token r) (hc_workers c)) by (apply zsum_nonneg; intros []; simpl; auto; lia). lia.
Qed.

Lemma flow_ok c c' : coordinator_ok c → (∀ r, flow r c c') → (∀ r, tokens r c' ≤ activated r c') ∧ (∀ r, ¬ gone c' r → tokens r c' = activated r c').
Proof.
  intros Hok Hf. split; intros r; destruct (Hf r) as [F1 F2 F3]; pose proof (hk_most _ Hok r) as Hm; [lia|].
  intros Hn. rewrite (F2 Hn). destruct (hc_regs c !! r) eqn:Hr.
  - rewrite (hk_live _ Hok r); [lia|]. intros Hg. by apply Hn, F3.
  - pose proof (tokens_nonneg r c). unfold activated in *. unfold reg_activated in *. rewrite Hr in *. lia.
Qed.

Lemma newHealthCoordinator_ok workers capacity now c : newHealthCoordinator workers capacity now = Some c → coordinator_ok c.
Proof.
  unfold newHealthCoordinator. destruct (_ || _); [done|]. destruct (_ || _); [done|]. intros [= <-].
  assert (Ht : ∀ r n, zsum (worker_token r) (replicate n WIdle) = 0) by (intros r n; induction n as [|n IH]; [done|]; cbn [replicate]; by rewrite zsum_cons, IH).
  split; simpl; try done.
  - intros r. unfold tokens. simpl. by rewrite Ht.
  - intros r _. unfold tokens. simpl. by rewrite Ht.
  - lia.
  - by right.
Qed.

Lemma ready_bound c e c' : hexec c e = Some c' → (length (hc_ready c) ≤ hc_capacity c)%nat → (length (hc_ready c') ≤ hc_capacity c')%nat.
Proof.
  intros He Hr.
  assert (Hadv : ∀ c k c1 rest, advanceCall c k = (c1, rest) → hc_ready c1 = hc_ready c ∧ hc_capacity c1 = hc_capacity c).
  { intros c0 k c1 rest. destruct k; simpl; repeat case_match; intros [= <- <-]; done. }
  destruct e as [r target health|r|r|k|x|i x|d| |]; simpl in He.
  - destruct (hc_regs c !! r); [done|]. by injection He as <-.
  - injection He as <-. unfold ActivateHealth. by destruct (_ || _).
  - injection He as <-. unfold reg_Retire. destruct (hc_regs c !! r) as [g|]; [by destruct (hg_retired g)|done].
  - destruct (hc_calls c !! k) as [call|]; [|done]. destruct (advanceCall _ call) as [c1 rest] eqn:Ea. injection He as <-.
    destruct (Hadv _ _ _ _ Ea) as [E1 E2]. simpl. by rewrite E1, E2.
  - unfold runScheduler in He. destruct (hc_scheduler c), x; try done; unfold nextScheduled, popDue in He;
      repeat (case_match; simplify_eq/=; try done); try (by edestruct Hadv as [-> ->]; [done|]);
      try (by injection He as <-).
    rewrite length_app. simpl. match goal with H : (_ <? _)%nat = true |- _ => apply Nat.ltb_lt in H end. lia.
  - unfold runWorker in He. destruct (hc_workers c !! i) as [w|]; [|done]. destruct w, x; try done;
      repeat (case_match; simplify_eq/=; try done); try (by edestruct Hadv as [-> ->]; [done|]).
    lia.
  - destruct (0 <=? d); [|done]. by injection He as <-.
  - injection He as <-. unfold StopHealth. by destruct (hc_stopped c).
  - injection He as <-. unfold CloseHealth, StopHealth. by destruct (hc_stopped c).
Qed.

(** A step that keeps the wake-ups under way. *)
Lemma waking_more c c' : waking c → hc_wake c' = hc_wake c → hc_workers c' = hc_workers c → (∀ k, k ∈ hc_calls c → k ∈ hc_calls c') → waking c'.
Proof. intros [?|[?|?]] H1 H2 H3; [left; congruence|right; left; auto|right; right; congruence]. Qed.

Lemma awake_more c c' : awake c → hc_wake c' = hc_wake c → hc_workers c' = hc_workers c → (∀ k, k ∈ hc_calls c → k ∈ hc_calls c') →
  hc_scheduler c' = hc_scheduler c → hc_heap c' = hc_heap c → awake c'.
Proof. intros [Hw|Hr] H1 H2 H3 H4 H5; [left; by eapply waking_more|right; congruence]. Qed.

Lemma StopHealth_stopping c : StopHealth c = stopping (StopHealth c) (hc_canceled c).
Proof. unfold StopHealth. destruct c as [? ? [] ?]; done. Qed.

Lemma stop_step c b : coordinator_ok c →
  (∀ r, flow r c (stopping (StopHealth c) b)) ∧ heap_ordered probe_Less (hc_heap (stopping (StopHealth c) b)) ∧ awake (stopping (StopHealth c) b).
Proof.
  intros Hok. assert (Hc : ∃ calls, (∀ k, k ∈ hc_calls c → k ∈ calls) ∧ (∀ r, zsum (call_token r) calls = zsum (call_token r) (hc_calls c)) ∧
    stopping (StopHealth c) b = with_calls (stopping c b) calls).
  { unfold StopHealth. destruct (hc_stopped c); [by exists (hc_calls c)|].
    exists (hc_calls c ++ [ToWake]). split_and!; [intros k Hk; apply elem_of_app; by left| |done].
    intros r. rewrite zsum_app. simpl. lia. }
  destruct Hc as (calls & Hin & Hz & ->). split_and!; [|exact (hk_heap _ Hok)|by eapply awake_more; [exact (hk_awake _ Hok)|..]].
  intros r. assert (Ht : tokens r (with_calls (stopping c b) calls) = tokens r c) by (unfold tokens; simpl; by rewrite Hz).
  change (activated r c) with (activated r (with_calls (stopping c b) calls)).
  split; rewrite ?Ht; try lia; change (activated r (with_calls (stopping c b) calls)) with (activated r c); try lia. intros _ _. by left.
Qed.

Lemma hexec_flow c e c' : coordinator_ok c → hexec c e = Some c' →
  (∀ r, flow r c c') ∧ heap_ordered probe_Less (hc_heap c') ∧ awake c'.
Proof.
  intros Hok He. pose proof (hk_heap _ Hok) as Hh. pose proof (hk_awake _ Hok) as Haw.
  destruct e as [r target health|r|r|k|x|i x|d| |]; simpl in He.
  - destruct (hc_regs c !! r) as [g|] eqn:Hr; [done|]. injection He as <-. split_and!; [|done|by eapply awake_more].
    intros r'. destruct (with_regs_reg c r (mkHealthRegistration target health false false) r') as (E1 & E2 & E3).
    unfold registerHealth. assert (Ha : activated r' (with_regs c (<[r:=mkHealthRegistration target health false false]> (hc_regs c))) = activated r' c).
    { unfold activated. rewrite E2. destruct (decide (r' = r)) as [->|]; [|done]. unfold reg_activated. by rewrite Hr. }
    split; rewrite ?Ha; unfold tokens; simpl; [lia|lia|]. intros Hg Hne. unfold gone in *. rewrite E1, E3.
    destruct (decide (r' = r)) as [->|]; [by rewrite Hr in Hne|done].
  - injection He as <-. unfold ActivateHealth. destruct (_ || _); [split_and!; try done; intros r'; by apply flow_same|].
    split_and!; [|done|eapply awake_more; try done; intros k Hk; apply elem_of_app; by left].
    intros r'. apply flow_same; try done. unfold tokens. simpl. rewrite zsum_app. simpl. lia.
  - injection He as <-. unfold reg_Retire. destruct (hc_regs c !! r) as [g|] eqn:Hr; [|split_and!; try done; intros r'; by apply flow_same].
    destruct (hg_retired g); [split_and!; try done; intros r'; by apply flow_same|].
    split_and!; [|done|eapply awake_more; try done; intros k Hk; apply elem_of_app; by left]. intros r'.
    set (g' := mkHealthRegistration _ _ _ true). destruct (with_regs_reg c r g' r') as (E1 & E2 & E3).
    assert (Ha : activated r' (with_calls (with_regs c (<[r:=g']> (hc_regs c))) (hc_calls c ++ [ToRetireHealth r])) = activated r' c).
    { unfold activated. change (reg_activated (with_calls ?x ?y) r') with (reg_activated x r'). rewrite E2.
      destruct (decide (r' = r)) as [->|]; [|done]. unfold reg_activated. by rewrite Hr. }
    split; rewrite ?Ha; unfold tokens; simpl; rewrite ?zsum_app; simpl; [lia|lia|]. intros Hg _.
    exact (regs_gone c r g g' r' Hr eq_refl (fun _ => eq_refl) Hg).
  - destruct (hc_calls c !! k) as [call|] eqn:Hk; [|done]. destruct (advanceCall _ call) as [c1 rest] eqn:Ea. injection He as <-.
    split_and!; [intros r; by eapply call_flow|exact (proj2 (call_flow 0 _ _ _ _ _ Hh Hk Ea))|].
    eapply call_awake; try done. exact (proj1 (proj2 (advance_flow 0 (with_calls c _) _ _ _ Hh Ea))).
  - split_and!; [intros r; by eapply scheduler_flow|exact (proj2 (scheduler_flow 0 _ _ _ Hh He))|by eapply runScheduler_awake].
  - split_and!; [intros r; by eapply worker_flow|exact (proj2 (worker_flow 0 _ _ _ _ Hh He))|by eapply runWorker_awake].
  - destruct (0 <=? d); [|done]. injection He as <-. split_and!; try done. intros r. by apply flow_same.
  - injection He as <-. rewrite StopHealth_stopping. by apply stop_step.
  - injection He as <-. by apply stop_step.
Qed.

Lemma hexec_ok c e c' : coordinator_ok c → hexec c e = Some c' → coordinator_ok c'.
Proof.
  intros Hok He. destruct (hexec_flow _ _ _ Hok He) as (Hf & Hh & Haw). destruct (flow_ok _ _ Hok Hf) as [Hm Hl].
  split; try done. exact (ready_bound _ _ _ He (hk_ready _ Hok)).
Qed.

Lemma hreachable_ok c : hreachable c → coordinator_ok c.
Proof. induction 1; [by eapply newHealthCoordinator_ok|by eapply hexec_ok]. Qed.

(** C16: In every interleaving of activations, retirements, the scheduler, the
    workers and a shutdown, an endpoint has at most one probe anywhere in the
    coordinator (scheduled, queued, being dispatched, running or being
    rescheduled), none before its activation; while the coordinator runs, an
    activated endpoint that is not retired and has a prober never loses its
    probe; and the queue of due probes stays within its capacity. *)
Theorem probes_conserved c (Hreach : hreachable c) :
  (∀ r, 0 ≤ tokens r c ≤ 1) ∧
  (∀ r, reg_activated c r = false → tokens r c = 0) ∧
  (∀ r, reg_activated c r = true → reg_retired c r = false → reg_supported c r = true → hc_stopped c = false → tokens r c = 1) ∧
  (length (hc_ready c) ≤ hc_capacity c)%nat.
Proof.
  apply hreachable_ok in Hreach as Hok. split_and!; [| | |exact (hk_ready _ Hok)]; intros r; pose proof (tokens_nonneg r c); pose proof (hk_most _ Hok r) as Hm;
    unfold activated in Hm.
  - destruct (reg_activated c r); lia.
  - intros E. rewrite E in Hm. lia.
  - intros E1 E2 E3 E4. rewrite (hk_live _ Hok r); [unfold activated; by rewrite E1|]. unfold gone. rewrite E2, E3, E4. intuition congruence.
Qed.


(** The first probe of an endpoint is due within a tenth of its interval of
    its activation; a probe that finds the queue full is tried again after a
    positive delay of at most 100 milliseconds, and of at most a tenth of the
    endpoint's interval whenever it is shorter. *)
Theorem probe_timing target h :
  0 ≤ initialProbeJitter target ∧ (0 < ah_healthyInterval (tg_policy target) → 10 * initialProbeJitter target < ah_healthyInterval (tg_policy target)) ∧
  0 < queueBackoff h ≤ 100000000 ∧ (queueBackoff h < 100000000 → 10 * queueBackoff h ≤ probeInterval h).
Proof.
  assert (Hq : ∀ z, 0 < Z.quot z 10 → 10 * Z.quot z 10 ≤ z).
  { intros z Hz. destruct (Z.le_gt_cases 0 z); [apply Z.mul_quot_le; lia|].
    pose proof (Z.quot_opp_l z 10 ltac:(lia)). pose proof (Z.quot_pos (- z) 10 ltac:(lia) ltac:(lia)). lia. }
  unfold initialProbeJitter, queueBackoff. set (i := ah_healthyInterval _). set (p := probeInterval h).
  assert (Hj : 0 ≤ (if i <=? 0 then 0 else let window := Z.quot i 10 in if window <=? 0 then 0 else fnv64a (tg_endpoint target) mod window) ∧
    (0 < i → 10 * (if i <=? 0 then 0 else let window := Z.quot i 10 in if window <=? 0 then 0 else fnv64a (tg_endpoint target) mod window) < i)).
  { destruct (Z.leb_spec i 0); [lia|]. simpl. destruct (Z.leb_spec (Z.quot i 10) 0); [lia|].
    pose proof (Z.mod_pos_bound (fnv64a (tg_endpoint target)) (Z.quot i 10) ltac:(lia)). specialize (Hq i ltac:(lia)). lia. }
  destruct Hj. split_and!; try done; cbv zeta; destruct (Z.leb_spec (Z.quot p 10) 0); simpl; try lia;
    destruct (Z.ltb_spec 100000000 (Z.quot p 10)); try lia; specialize (Hq p ltac:(lia)); lia.
Qed.

(** ** Shutdown *)

Fixpoint hrun (c : coordinator) (es : list hevent) : option coordinator :=
  match es with [] => Some c | e :: es => match hexec c e with Some c' => hrun c' es | None => None end end.

(** A step of one of the goroutines that [Close] waits for. *)
Definition own_step (e : hevent) : bool := match e with HScheduler _ | HWorker _ _ => true | _ => false end.

Definition shut (c : coordinator) : Prop := hc_canceled c = true ∧ hc_stopped c = true.

(** How many steps a call or a goroutine is from its end after a shutdown. *)
Definition callRank (k : scheduling) : nat :=
  match k with ToActivate _ => 3 | ToCheck _ _ => 2 | ToPush _ _ => 2 | ToRetireHealth _ => 2 | ToWake => 1 end.
Definition workerRank (w : workerPC) : Z :=
  match w with
  | WStopped => 0 | WIdle => 1 | WGot _ | WAfter _ => 2 | WObserve _ _ => 3 | WResult _ _ => 4 | WProbe _ => 5
  | WCall k => 1 + Z.of_nat (callRank k)
  end.

Lemma workerRank_nonneg w : 0 ≤ workerRank w.
Proof. destruct w; simpl; lia. Qed.

Lemma advance_shut c k c' rest : shut c → advanceCall c k = (c', rest) →
  shut c' ∧ match rest with Some k' => (callRank k' < callRank k)%nat | None => True end ∧
  hc_workers c' = hc_workers c ∧ hc_scheduler c' = hc_scheduler c.
Proof.
  intros [Hc Hs]. unfold shut. destruct k as [r|r due|r due|r|]; simpl; [| |intros [= <- <-]; simpl; split_and!; try done; lia| |intros [= <- <-]; done].
  - destruct (hc_regs c !! r) as [g|]; [destruct (hg_activated g)|]; intros [= <- <-]; simpl; split_and!; try done; lia.
  - rewrite Hs. intros [= <- <-]. done.
  - destruct (hc_regs c !! r); intros [= <- <-]; simpl; split_and!; try done; lia.
Qed.

(** A worker that has not stopped takes a step towards its end. *)
Lemma worker_step c i w : shut c → hc_workers c !! i = Some w → w ≠ WStopped →
  ∃ x c' w', runWorker c i x = Some c' ∧ shut c' ∧ hc_workers c' = <[i := w']> (hc_workers c) ∧ workerRank w' < workerRank w.
Proof.
  intros [Hc Hs] Hi Hw. assert (Hi' := Hi). unfold runWorker. setoid_rewrite Hi'.
  destruct w as [|item|item|item result|item result|item|k|].
  - exists TakeStop, (with_worker c i WStopped), WStopped. by rewrite Hc.
  - exists WorkerStep, (with_worker c i WIdle), WIdle. by rewrite Hs, orb_true_r.
  - destruct (hc_regs c !! sp_reg item ≫= fun g => probeResult (hg_target g) NoExchange) as [result|] eqn:E.
    + exists (ProbeReturns NoExchange), (with_worker c i (WResult item result)), (WResult item result). by rewrite E.
    + exists ProbePanics, (with_worker c i WIdle), WIdle. by rewrite Hs.
  - exists WorkerStep. destruct (hc_regs c !! sp_reg item) as [g|]; [destruct (_ && _)|]; by do 2 eexists.
  - exists WorkerStep. destruct (hc_regs c !! sp_reg item) as [g|]; by do 2 eexists.
  - exists WorkerStep, (with_worker c i WIdle), WIdle. by rewrite Hs.
  - exists WorkerStep. destruct (advanceCall c k) as [c1 rest] eqn:Ea. destruct (advance_shut c k c1 rest) as (H1 & H2 & H3 & _); [done|done|].
    do 2 eexists. split; [done|]. split; [exact H1|]. split; [simpl; by rewrite H3|]. destruct rest; simpl; [lia|]. destruct k; simpl; lia.
  - done.
Qed.

Lemma workers_stop n : ∀ c, shut c → zsum workerRank (hc_workers c) ≤ Z.of_nat n →
  ∃ es c', Forall (fun e => own_step e = true) es ∧ hrun c es = Some c' ∧ shut c' ∧ Forall (fun w => w = WStopped) (hc_workers c').
Proof.
  induction n as [|n IH]; intros c Hc Hn.
  all: destruct (decide (Forall (fun w => workerRank w = 0) (hc_workers c))) as [Hz|Hz];
    [exists [], c; split_and!; try done; eapply Forall_impl; [exact Hz|]; intros []; simpl; lia || done|].
  all: apply not_Forall_Exists, Exists_exists in Hz as (w & Hin & Hw); [|apply _]; apply list_elem_of_lookup in Hin as [i Hi]; simpl in Hw.
  all: destruct (worker_step c i w Hc Hi) as (x & c1 & w' & Hrun & Hc1 & Hws & Hlt); [by intros ->|].
  all: pose proof (zsum_insert workerRank _ _ _ w' Hi) as Hz; pose proof (zsum_nonneg workerRank (hc_workers c1) workerRank_nonneg) as Hp; rewrite Hws, Hz in Hp.
  - lia.
  - destruct (IH c1 Hc1) as (es & c' & He & Hr & Hs & Hf); [rewrite Hws, Hz; lia|].
    exists (HWorker i x :: es), c'. split_and!; try done; [by constructor|]. simpl. by rewrite Hrun.
Qed.

(** The first probe of the heap is due. *)
Definition headDue (c : coordinator) : bool := match hc_heap c with [] => false | x :: _ => sp_due x - hc_now c <=? 0 end.

Definition schedulerRank (c : coordinator) : nat :=
  match hc_scheduler c with
  | SStopped => 0
  | pc => 6 * length (hc_heap c) +
    match pc with
    | SSleep _ _ | SEmpty => 1 | SArm _ _ => 2 | SNext => 3 | SPop => if headDue c then 2 else 4
    | SGot _ => 7 | SSend _ => 6
    | SCall k => match k with ToActivate _ => 6 | ToCheck _ _ | ToRetireHealth _ => 5 | ToPush _ _ => 11 | ToWake => 4 end
    | SStopped => 0
    end
  end.

Lemma dropRetired_length fuel c h : heap_ordered probe_Less h → (length (dropRetired fuel c h) ≤ length h)%nat.
Proof.
  revert h. induction fuel as [|fuel IH]; intros [|x h] Hh; cbn [dropRetired]; try done. destruct (reg_retired c (sp_reg x)); [|done].
  destruct (probe_Pop (x :: h) Hh) as (y & rest & -> & Hperm & Ho & _); [done|]. apply Permutation_length in Hperm. simpl in Hperm.
  specialize (IH _ Ho). cbn [length]; lia.
Qed.

(** A scheduler that has not stopped takes a step towards its end. *)
Lemma scheduler_step c : shut c → heap_ordered probe_Less (hc_heap c) → hc_scheduler c ≠ SStopped →
  ∃ x c', runScheduler c x = Some c' ∧ shut c' ∧ hc_workers c' = hc_workers c ∧ (schedulerRank c' < schedulerRank c)%nat.
Proof.
  intros [Hc Hs] Hh Hne. unfold runScheduler, schedulerRank. destruct (hc_scheduler c) as [| |due wait|due fires| |item|item|k|] eqn:Es; [..|done].
  - exists Proceed. unfold nextScheduled. pose proof (dropRetired_length (length (hc_heap c)) c (hc_heap c) Hh) as Hl.
    set (h := dropRetired _ _ _) in *. clearbody h. eexists. split; [done|]. split; [done|]. split; [done|]. simpl.
    destruct h as [|x h]; [simpl in *; lia|]. unfold headDue. simpl in *. destruct (Z.ltb_spec 0 (sp_due x - hc_now c)); simpl; [lia|].
    destruct (Z.leb_spec (sp_due x - hc_now c) 0); lia.
  - exists TakeDone. rewrite Hc. eexists. repeat (split; [done|]). simpl. lia.
  - exists Proceed. eexists. repeat (split; [done|]). simpl. lia.
  - exists TakeDone. rewrite Hc. eexists. repeat (split; [done|]). simpl. lia.
  - exists Proceed. unfold popDue, headDue. destruct (hc_heap c) as [|x h] eqn:Eh.
    { eexists. repeat (split; [done|]). simpl. rewrite Eh. simpl. lia. }
    destruct (Z.leb_spec (sp_due x - hc_now c) 0), (Z.ltb_spec 0 (sp_due x - hc_now c)); try lia.
    + destruct (probe_Pop (x :: h) Hh) as (y & rest & -> & Hperm & _ & _); [done|]. apply Permutation_length in Hperm.
      eexists. repeat (split; [done|]). simpl in *. lia.
    + eexists. repeat (split; [done|]). simpl. rewrite Eh. simpl. lia.
  - exists Proceed. eexists. repeat (split; [done|]). simpl. destruct (reg_retired _ _); lia.
  - exists Proceed. destruct (_ <? _)%nat; eexists; repeat (split; [done|]); simpl; lia.
  - exists Proceed. destruct k as [r|r due|r due|r|]; simpl; rewrite ?Hs; simpl.
    + destruct (hc_regs c !! r) as [g|]; [destruct (hg_activated g)|]; eexists; repeat (split; [done|]); simpl; lia.
    + eexists. repeat (split; [done|]). simpl. lia.
    + eexists. repeat (split; [done|]). simpl. destruct (probe_Push (hc_heap c) (mkProbe due (wrap64 (hc_sequence c + 1)) r) Hh) as [Hp _].
      apply Permutation_length in Hp. rewrite Hp. simpl. lia.
    + destruct (hc_regs c !! r); eexists; repeat (split; [done|]); simpl; lia.
    + eexists. repeat (split; [done|]). simpl. lia.
Qed.

Lemma scheduler_stops n : ∀ c, coordinator_ok c → shut c → (schedulerRank c ≤ n)%nat →
  ∃ es c', Forall (fun e => own_step e = true) es ∧ hrun c es = Some c' ∧ hc_scheduler c' = SStopped ∧ hc_workers c' = hc_workers c.
Proof.
  induction n as [|n IH]; intros c Hok Hc Hn; destruct (decide (schedulerRank c = 0%nat)) as [Hz|Hz].
  1,3: exists [], c; split_and!; try done; unfold schedulerRank in Hz; destruct (hc_scheduler c); try done; repeat case_match; lia.
  - lia.
  - destruct (scheduler_step c Hc (hk_heap _ Hok)) as (x & c1 & Hrun & Hc1 & Hw & Hlt); [intros E; apply Hz; unfold schedulerRank; by rewrite E|].
    destruct (IH c1) as (es & c' & He & Hr & Hs & Hw'); [by eapply (hexec_ok c (HScheduler x))|done|lia|].
    exists (HScheduler x :: es), c'. split_and!; try done; [by constructor|simpl; by rewrite Hrun|congruence].
Qed.

Lemma hrun_ok c es c' : coordinator_ok c → hrun c es = Some c' → coordinator_ok c'.
Proof.
  revert c. induction es as [|e es IH]; intros c Hok Hr; simpl in Hr; [congruence|]. destruct (hexec c e) as [c1|] eqn:E; [|done].
  eapply IH; [by eapply hexec_ok|done].
Qed.

Lemma hrun_app c es1 es2 c1 c2 : hrun c es1 = Some c1 → hrun c1 es2 = Some c2 → hrun c (es1 ++ es2) = Some c2.
Proof.
  revert c. induction es1 as [|e es IH]; intros c Hr; simpl in *; [by injection Hr as ->|]. destruct (hexec c e); [|done]. by apply IH.
Qed.

(** [Close] terminates: once it has canceled the coordinator, from any point
    every goroutine it waits for can run to its end, by steps of the scheduler
    and the workers alone and without time passing, provided that the probes
    that are running return or panic. *)
Theorem coordinator_closes c (Hreach : hreachable c) :
  ∃ es c', Forall (fun e => own_step e = true) es ∧ hrun (CloseHealth c) es = Some c' ∧
    hc_scheduler c' = SStopped ∧ Forall (fun w => w = WStopped) (hc_workers c').
Proof.
  assert (Hok : coordinator_ok (CloseHealth c)) by (eapply (hexec_ok c HClose); [by apply hreachable_ok|done]).
  assert (Hshut : shut (CloseHealth c)) by done.
  destruct (workers_stop (Z.to_nat (zsum workerRank (hc_workers (CloseHealth c)))) _ Hshut) as (es1 & c1 & He1 & Hr1 & Hs1 & Hw1).
  { pose proof (zsum_nonneg workerRank (hc_workers (CloseHealth c)) workerRank_nonneg). lia. }
  destruct (scheduler_stops (schedulerRank c1) c1 (hrun_ok _ _ _ Hok Hr1) Hs1 (le_n _)) as (es2 & c2 & He2 & Hr2 & Hs2 & Hw2).
  exists (es1 ++ es2), c2. split_and!; [by apply Forall_app|by eapply hrun_app|done|by rewrite Hw2].
Qed.

(** ** Examples *)

Definition demo_start : coordinator := mkCoordinator 1 0 false false [] 0 [] false 0 ∅ SNext [WIdle] [].
Definition demo_probing : ActiveHealthPolicy :=
  mkActiveHealth HealthCheckHTTP 1000000000 10000000000 5000000000 2 1 3 3 [200] [500; 503] "/health" "".
Definition demo_target : ProbeTarget := mkProbeTarget "e" 1 demo_probing.
Definition demo_probed : EndpointHealth := newEndpointHealth "e" (mkHealthPolicy (Some demo_probing) None) 1.

Definition demo_activation : list hevent := [HRegister 0 demo_target demo_probed; HActivate 0; HCall 0; HCall 0; HCall 0; HCall 0].

(** The scheduler sleeps until the first probe of an endpoint. *)
Definition demo_sleep : list hevent :=
  demo_activation ++ [HScheduler Proceed; HScheduler Proceed].
(** The scheduler hands it to the worker. *)
Definition demo_events : list hevent :=
  demo_sleep ++ [HScheduler TakeWake; HScheduler Proceed; HScheduler Proceed; HTick 1000000000; HScheduler TakeTimer; HScheduler Proceed;
    HScheduler Proceed; HScheduler Proceed; HWorker 0 TakeItem; HWorker 0 WorkerStep].

Definition demo_coordinator : coordinator := Eval vm_compute in default demo_start (hrun demo_start demo_events).
Definition demo_asleep : coordinator := Eval vm_compute in default demo_start (hrun demo_start (demo_sleep ++ [HScheduler TakeWake; HScheduler Proceed; HScheduler Proceed])).

Lemma hrun_reachable c es c' : hreachable c → hrun c es = Some c' → hreachable c'.
Proof.
  revert c. induction es as [|e es IH]; intros c Hc Hr; simpl in Hr; [congruence|]. destruct (hexec c e) as [c1|] eqn:E; [|done].
  eapply IH; [by eapply hreach_step|done].
Qed.

Lemma demo_start_reachable : hreachable demo_start.
Proof. apply (hreach_new 1 1 0). reflexivity. Qed.

Lemma demo_coordinator_reachable : hreachable demo_coordinator.
Proof. apply (hrun_reachable demo_start demo_events); [exact demo_start_reachable|]. vm_compute. reflexivity. Qed.

Lemma demo_asleep_reachable : hreachable demo_asleep.
Proof.
  apply (hrun_reachable demo_start (demo_sleep ++ [HScheduler TakeWake; HScheduler Proceed; HScheduler Proceed])); [exact demo_start_reachable|].
  vm_compute. reflexivity.
Qed.

Lemma probes_conserved_witness : (∃ item, hc_workers demo_coordinator = [WProbe item]) ∧ tokens 0 demo_coordinator = 1.
Proof.
  split; [eexists; vm_compute; reflexivity|].
  exact (proj1 (proj2 (proj2 (probes_conserved demo_coordinator demo_coordinator_reachable))) 0%nat eq_refl eq_refl eq_refl eq_refl).
Defined.


Lemma coordinator_closes_witness : ∃ es c', Forall (fun e => own_step e = true) es ∧ hrun (CloseHealth demo_coordinator) es = Some c' ∧
  hc_scheduler c' = SStopped ∧ Forall (fun w => w = WStopped) (hc_workers c').
Proof. exact (coordinator_closes demo_coordinator demo_coordinator_reachable). Defined.
