(* ===== verification/Budget.v ===== *)
(** * Retry budgets ([internal/upstream/budget.go])

    A retry budget is shared by all requests of an upstream and updated without
    a lock: compare-and-swap loops on a credit balance and on a count of retries
    in flight.  The model interleaves any number of goroutines at the
    granularity of the atomic instructions; a goroutine is the program counter
    inside the method it is executing, with the values it has loaded.

    Every instruction of every interleaving keeps the bounds: the balance never
    exceeds the burst nor the in-flight count its limit, the in-flight count is
    exactly the number of slots held, and retries are paid for by primary
    requests. *)

From S2P Require Import Prelude HashKey Resources.
#[local] Open Scope Z_scope.

Definition retryCreditUnit : Z := 1000.

(** ** Data *)

(** The immutable part of [retryBudget]. *)
Record budgetLimits := mkLimits { bl_ratio : Z; bl_maxCredits : Z; bl_maxInflight : Z }.

Definition newRetryBudget (policy : RetryBudgetPolicy) : budgetLimits :=
  mkLimits (rb_ratioPer1000 policy) (wrap64 (rb_burst policy * retryCreditUnit))
    (rb_maxInflight policy).

(** Where a goroutine stands: between calls, or at an atomic instruction of
    [CreditPrimary], [Acquire] (with [recordMaxObserved] inlined) or
    [Release]. *)
Inductive pc :=
| Idle
| CreditLoad
| CreditCAS (current : Z)
| SlotLoad
| SlotCAS (current : Z)
| MaxLoad (value : Z)
| MaxCAS (value current : Z)
| TokenLoad
| TokenCAS (current : Z)
| SlotUndo
| PermitSwap (permit : nat)
| SlotRelease
| Panicked.

(** The shared words, the permits handed out (with their [released] flags), the
    goroutines, and two counts for the specification: calls of [CreditPrimary]
    that reached their compare-and-swap, and permits acquired. *)
Record budgetState := mkBudget {
  credits : Z;
  inflight : Z;
  maxObserved : Z;
  permits : gmap nat bool;
  threads : gmap nat pc;
  credited : nat;
  acquired : nat;
}.

Definition initialBudget : budgetState := mkBudget 0 0 0 ∅ ∅ 0 0.

Definition goto (t : nat) (p : pc) (s : budgetState) : budgetState :=
  mkBudget (credits s) (inflight s) (maxObserved s) (permits s) (<[t := p]> (threads s))
    (credited s) (acquired s).

Definition set_credits (c : Z) (s : budgetState) : budgetState :=
  mkBudget c (inflight s) (maxObserved s) (permits s) (threads s) (credited s) (acquired s).

Definition set_inflight (n : Z) (s : budgetState) : budgetState :=
  mkBudget (credits s) n (maxObserved s) (permits s) (threads s) (credited s) (acquired s).

Definition set_maxObserved (n : Z) (s : budgetState) : budgetState :=
  mkBudget (credits s) (inflight s) n (permits s) (threads s) (credited s) (acquired s).

Definition set_permit (p : nat) (released : bool) (s : budgetState) : budgetState :=
  mkBudget (credits s) (inflight s) (maxObserved s) (<[p := released]> (permits s)) (threads s)
    (credited s) (acquired s).

Definition count_credited (s : budgetState) : budgetState :=
  mkBudget (credits s) (inflight s) (maxObserved s) (permits s) (threads s)
    (S (credited s)) (acquired s).

Definition count_acquired (s : budgetState) : budgetState :=
  mkBudget (credits s) (inflight s) (maxObserved s) (permits s) (threads s)
    (credited s) (S (acquired s)).

(** ** Instructions *)

Section Machine.
Context (b : budgetLimits).

(** [CreditPrimary] *)
Definition step_CreditPrimary (t : nat) (p : pc) (s : budgetState) : option budgetState :=
  match p with
  | CreditLoad =>
      let current := credits s in
      Some (if bl_maxCredits b <=? current then goto t Idle s else goto t (CreditCAS current) s)
  | CreditCAS current =>
      let next := wrap64 (current + bl_ratio b) in
      let next := if bl_maxCredits b <? next then bl_maxCredits b else next in
      Some (if credits s =? current
            then goto t Idle (count_credited (set_credits next s))
            else goto t CreditLoad s)
  | _ => None
  end.

(** [Acquire] and [recordMaxObserved]; a successful call leaves a fresh permit. *)
Definition step_Acquire (t : nat) (p : pc) (s : budgetState) : option budgetState :=
  match p with
  | SlotLoad =>
      let current := inflight s in
      Some (if bl_maxInflight b <=? current then goto t Idle s else goto t (SlotCAS current) s)
  | SlotCAS current =>
      Some (if inflight s =? current
            then goto t (MaxLoad (wrap32 (current + 1))) (set_inflight (wrap32 (current + 1)) s)
            else goto t SlotLoad s)
  | MaxLoad value =>
      let current := maxObserved s in
      Some (if value <=? current then goto t TokenLoad s else goto t (MaxCAS value current) s)
  | MaxCAS value current =>
      Some (if maxObserved s =? current
            then goto t TokenLoad (set_maxObserved value s)
            else goto t (MaxLoad value) s)
  | TokenLoad =>
      let current := credits s in
      Some (if current <? retryCreditUnit then goto t SlotUndo s else goto t (TokenCAS current) s)
  | TokenCAS current =>
      Some (if credits s =? current
            then goto t Idle (count_acquired
                   (set_permit (acquired s) false (set_credits (wrap64 (current - retryCreditUnit)) s)))
            else goto t TokenLoad s)
  | SlotUndo => Some (goto t Idle (set_inflight (wrap32 (inflight s + (2 ^ 32 - 1))) s))
  | _ => None
  end.

(** [RetryPermit.Release] *)
Definition step_Release (t : nat) (p : pc) (s : budgetState) : option budgetState :=
  match p with
  | PermitSwap permit =>
      match permits s !! permit with
      | None => Some (goto t Panicked s)
      | Some true => Some (goto t Panicked s)
      | Some false => Some (goto t SlotRelease (set_permit permit true s))
      end
  | SlotRelease => Some (goto t Idle (set_inflight (wrap32 (inflight s + (2 ^ 32 - 1))) s))
  | _ => None
  end.

(** One instruction of goroutine [t], or the start of a call by an idle one. *)
Inductive event :=
| StartCredit (t : nat)
| StartAcquire (t : nat)
| StartRelease (t permit : nat)
| Advance (t : nat).

Definition pc_of (s : budgetState) (t : nat) : pc := default Idle (threads s !! t).

Definition is_idle (p : pc) : bool := match p with Idle => true | _ => false end.

Definition exec (s : budgetState) (e : event) : option budgetState :=
  match e with
  | StartCredit t => if is_idle (pc_of s t) then Some (goto t CreditLoad s) else None
  | StartAcquire t => if is_idle (pc_of s t) then Some (goto t SlotLoad s) else None
  | StartRelease t permit =>
      if is_idle (pc_of s t) then Some (goto t (PermitSwap permit) s) else None
  | Advance t =>
      let p := pc_of s t in
      match p with
      | CreditLoad | CreditCAS _ => step_CreditPrimary t p s
      | PermitSwap _ | SlotRelease => step_Release t p s
      | Idle | Panicked => None
      | _ => step_Acquire t p s
      end
  end.

Inductive reachable : budgetState → Prop :=
| reachable_initial : reachable initialBudget
| reachable_step s e s' : reachable s → exec s e = Some s' → reachable s'.
End Machine.

(** ** The invariant *)

(** A goroutine between its slot reservation and the point where the slot is
    given back or handed to a permit. *)
Definition holds_slot (p : pc) : bool :=
  match p with
  | MaxLoad _ | MaxCAS _ _ | TokenLoad | TokenCAS _ | SlotUndo | SlotRelease => true
  | _ => false
  end.

Definition slots_held (s : budgetState) : Z :=
  count_map holds_slot (threads s) + count_map negb (permits s).

(** What a goroutine knows about the values it has loaded. *)
Definition pc_ok (b : budgetLimits) (p : pc) : Prop :=
  match p with
  | CreditCAS current => 0 ≤ current < bl_maxCredits b
  | SlotCAS current => 0 ≤ current < bl_maxInflight b
  | MaxLoad value => 1 ≤ value ≤ bl_maxInflight b
  | MaxCAS value current => 1 ≤ value ≤ bl_maxInflight b ∧ current < value
  | TokenCAS current => retryCreditUnit ≤ current ≤ bl_maxCredits b
  | _ => True
  end.

(** The value a goroutine is about to record as observed. *)
Definition recording (p : pc) : Z :=
  match p with MaxLoad value | MaxCAS value _ => value | _ => 0 end.

(** The limits of a 16-bit policy. *)
Definition limits_ok (b : budgetLimits) : Prop :=
  0 ≤ bl_ratio b < 2 ^ 16 ∧ 0 ≤ bl_maxCredits b ≤ 2 ^ 16 * retryCreditUnit ∧
  0 ≤ bl_maxInflight b < 2 ^ 16.

Record budget_inv (b : budgetLimits) (s : budgetState) : Prop := {
  inv_credits : 0 ≤ credits s ≤ bl_maxCredits b;
  inv_inflight : inflight s = slots_held s ∧ inflight s ≤ bl_maxInflight b;
  inv_observed : 0 ≤ maxObserved s ≤ bl_maxInflight b;
  inv_peak : inflight s ≤ maxObserved s ∨ ∃ t, inflight s ≤ recording (pc_of s t);
  inv_paid : credits s + retryCreditUnit * Z.of_nat (acquired s) ≤ bl_ratio b * Z.of_nat (credited s);
  inv_fresh : ∀ p, p ∈ dom (permits s) → (p < acquired s)%nat;
  inv_threads : ∀ t, pc_ok b (pc_of s t);
}.

Lemma pc_of_goto t p s t' : pc_of (goto t p s) t' = if decide (t = t') then p else pc_of s t'.
Proof. unfold pc_of. simpl. rewrite lookup_insert. by case_decide. Qed.

Lemma count_pc s t : count_at holds_slot (threads s !! t) = if holds_slot (pc_of s t) then 1 else 0.
Proof. unfold pc_of. by destruct (threads s !! t). Qed.

Lemma slots_goto t p s : slots_held (goto t p s) =
  slots_held s - (if holds_slot (pc_of s t) then 1 else 0) + (if holds_slot p then 1 else 0).
Proof. unfold slots_held. simpl. rewrite count_map_insert, count_pc. simpl. lia. Qed.

Lemma slots_nonneg s : 0 ≤ slots_held s.
Proof.
  unfold slots_held. pose proof (count_map_nonneg holds_slot (threads s)).
  pose proof (count_map_nonneg negb (permits s)). lia.
Qed.

(** A goroutine that holds a slot is one of those counted. *)
Lemma slots_holder s t : holds_slot (pc_of s t) = true → 1 ≤ slots_held s.
Proof.
  intros Ht. unfold slots_held. rewrite (count_map_delete holds_slot _ t), count_pc, Ht.
  pose proof (count_map_nonneg holds_slot (delete t (threads s))).
  pose proof (count_map_nonneg negb (permits s)). lia.
Qed.

Lemma slots_permit p released s : slots_held (set_permit p released s) =
  slots_held s - count_at negb (permits s !! p) + (if released then 0 else 1).
Proof. unfold slots_held. simpl. rewrite count_map_insert. simpl. destruct released; simpl; lia. Qed.

Lemma inv_initial b : limits_ok b → budget_inv b initialBudget.
Proof.
  intros (? & ? & ?). split; simpl; try lia.
  - unfold slots_held. simpl. rewrite !count_map_empty. lia.
  - set_solver.
  - intros t. unfold pc_of. simpl. by rewrite lookup_empty.
Qed.

Section Preservation.
Context (b : budgetLimits).
Hypothesis limits : limits_ok b.

(** Control moves that keep the shared words: the goroutine's slot must not
    change hands. *)
Lemma inv_goto t p s : budget_inv b s → pc_ok b p → holds_slot p = holds_slot (pc_of s t) →
  recording (pc_of s t) ≤ Z.max (recording p) (maxObserved s) →
  budget_inv b (goto t p s).
Proof.
  intros [Hc [Hi Hi'] Ho Hpk Hp Hf Ht] Hpc Hslot Hrec. split; try done.
  - change (inflight (goto t p s)) with (inflight s). rewrite slots_goto, Hslot. lia.
  - change (inflight (goto t p s)) with (inflight s).
    change (maxObserved (goto t p s)) with (maxObserved s).
    destruct Hpk as [|[t' Hpk]]; [by left|]. destruct (decide (t' = t)) as [->|Hne].
    + destruct (decide (inflight s ≤ maxObserved s)); [by left|]. right. exists t.
      rewrite pc_of_goto, decide_True by done. lia.
    + right. exists t'. by rewrite pc_of_goto, decide_False by done.
  - intros t'. rewrite pc_of_goto. by case_decide.
Qed.

(** Giving a slot back. *)
Lemma inv_give_back t s : budget_inv b s → holds_slot (pc_of s t) = true →
  recording (pc_of s t) = 0 →
  budget_inv b (goto t Idle (set_inflight (wrap32 (inflight s + (2 ^ 32 - 1))) s)).
Proof.
  intros [Hc [Hi Hi'] Ho Hpk Hp Hf Ht] Hslot Hrec. pose proof (slots_holder s t Hslot) as Hone.
  assert (Hdec : wrap32 (inflight s + (2 ^ 32 - 1)) = inflight s - 1).
  { unfold wrap32. replace (inflight s + (2 ^ 32 - 1)) with (inflight s - 1 + 1 * 2 ^ 32) by lia.
    destruct limits as (_ & _ & Hm). rewrite Z.mod_add, Z.mod_small; lia. }
  rewrite Hdec. split; try done.
  - simpl. rewrite slots_goto. change (pc_of (set_inflight _ s) t) with (pc_of s t).
    rewrite Hslot. change (slots_held (set_inflight _ s)) with (slots_held s). simpl. lia.
  - simpl. destruct Hpk as [|[t' Hpk]]; [left; lia|]. destruct (decide (t' = t)) as [->|Hne].
    + left. lia.
    + right. exists t'. rewrite pc_of_goto, decide_False by done.
      change (pc_of (set_inflight _ s) t') with (pc_of s t'). lia.
  - intros t'. rewrite pc_of_goto. case_decide; [done|]. apply Ht.
Qed.

Lemma inv_credit t s current : budget_inv b s → pc_of s t = CreditCAS current →
  credits s = current →
  let next := wrap64 (current + bl_ratio b) in
  let next := if bl_maxCredits b <? next then bl_maxCredits b else next in
  budget_inv b (goto t Idle (count_credited (set_credits next s))).
Proof.
  intros Hinv Hpc Hcur. pose proof (inv_threads _ _ Hinv t) as Hok. rewrite Hpc in Hok. simpl in Hok.
  destruct limits as (Hr & Hm & _). unfold retryCreditUnit in Hm.
  rewrite wrap64_id by lia. intros sum next.
  assert (Hu : budget_inv b (goto t Idle s)) by (apply inv_goto; [done|done|by rewrite Hpc|rewrite Hpc; simpl; destruct Hinv; lia]).
  destruct Hu as [Hc [Hi Hi'] Ho Hpk Hp Hf Ht]. simpl in *.
  assert (Hnext : 0 ≤ next ≤ bl_maxCredits b ∧ next ≤ current + bl_ratio b).
  { unfold next, sum. destruct (bl_maxCredits b <? current + bl_ratio b) eqn:E; bool_hyps; lia. }
  split; simpl; try done; [lia|]. rewrite Nat2Z.inj_succ. lia.
Qed.

Lemma inv_slot t s current : budget_inv b s → pc_of s t = SlotCAS current →
  inflight s = current →
  budget_inv b (goto t (MaxLoad (wrap32 (current + 1))) (set_inflight (wrap32 (current + 1)) s)).
Proof.
  intros Hinv Hpc Hcur. pose proof (inv_threads _ _ Hinv t) as Hok. rewrite Hpc in Hok. simpl in Hok.
  destruct limits as (_ & _ & Hm). rewrite wrap32_id by lia.
  destruct Hinv as [Hc [Hi Hi'] Ho Hpk Hp Hf Ht]. split; try done.
  - simpl. rewrite slots_goto. change (pc_of (set_inflight _ s) t) with (pc_of s t).
    rewrite Hpc. change (slots_held (set_inflight _ s)) with (slots_held s). simpl. lia.
  - right. exists t. rewrite pc_of_goto, decide_True by done. simpl. lia.
  - intros t'. rewrite pc_of_goto. case_decide; [simpl; lia|]. apply Ht.
Qed.

Lemma inv_observe t s value current : budget_inv b s → pc_of s t = MaxCAS value current →
  maxObserved s = current →
  budget_inv b (goto t TokenLoad (set_maxObserved value s)).
Proof.
  intros Hinv Hpc Hcur. pose proof (inv_threads _ _ Hinv t) as Hok. rewrite Hpc in Hok. simpl in Hok.
  destruct Hinv as [Hc [Hi Hi'] Ho Hpk Hp Hf Ht]. split; try done.
  - simpl. rewrite slots_goto. change (pc_of (set_maxObserved _ s) t) with (pc_of s t).
    rewrite Hpc. change (slots_held (set_maxObserved _ s)) with (slots_held s). simpl. lia.
  - simpl. lia.
  - simpl. destruct Hpk as [|[t' Hpk]]; [left; lia|]. destruct (decide (t' = t)) as [->|Hne].
    + rewrite Hpc in Hpk. simpl in Hpk. by left.
    + right. exists t'. by rewrite pc_of_goto, decide_False by done.
  - intros t'. rewrite pc_of_goto. case_decide; [done|]. apply Ht.
Qed.

Lemma inv_token t s current : budget_inv b s → pc_of s t = TokenCAS current →
  credits s = current →
  budget_inv b (goto t Idle (count_acquired
    (set_permit (acquired s) false (set_credits (wrap64 (current - retryCreditUnit)) s)))).
Proof.
  intros Hinv Hpc Hcur. pose proof (inv_threads _ _ Hinv t) as Hok. rewrite Hpc in Hok. simpl in Hok.
  destruct limits as (_ & Hm & _). unfold retryCreditUnit in *. rewrite wrap64_id by lia.
  destruct Hinv as [Hc [Hi Hi'] Ho Hpk Hp Hf Ht].
  assert (Hnew : permits s !! acquired s = None).
  { apply not_elem_of_dom. intros Hin%Hf. lia. }
  split; simpl; try done.
  - lia.
  - split; [|done]. rewrite slots_goto.
    change (pc_of (count_acquired _) t) with (pc_of s t). rewrite Hpc. simpl.
    change (slots_held (count_acquired ?x)) with (slots_held x). rewrite slots_permit. simpl.
    change (slots_held (set_credits _ s)) with (slots_held s). rewrite Hnew. simpl. lia.
  - destruct Hpk as [|[t' Hpk]]; [by left|]. right. exists t'. rewrite pc_of_goto.
    case_decide; [|done]. subst. rewrite Hpc in Hpk. done.
  - rewrite Nat2Z.inj_succ. unfold retryCreditUnit in *. lia.
  - intros p. rewrite dom_insert, elem_of_union, elem_of_singleton. intros [->|Hin%Hf]; lia.
  - intros t'. rewrite pc_of_goto. case_decide; [done|]. apply Ht.
Qed.

Lemma inv_swap t s permit : budget_inv b s → pc_of s t = PermitSwap permit →
  permits s !! permit = Some false →
  budget_inv b (goto t SlotRelease (set_permit permit true s)).
Proof.
  intros Hinv Hpc Hper. destruct Hinv as [Hc [Hi Hi'] Ho Hpk Hp Hf Ht]. split; simpl; try done.
  - split; [|done]. rewrite slots_goto. change (pc_of (set_permit _ _ s) t) with (pc_of s t).
    rewrite Hpc, slots_permit, Hper. simpl. lia.
  - destruct Hpk as [|[t' Hpk]]; [by left|]. right. exists t'. rewrite pc_of_goto.
    case_decide; [|done]. subst. by rewrite Hpc in Hpk.
  - intros p. rewrite dom_insert, elem_of_union, elem_of_singleton. intros [->|Hin]; [|by apply Hf].
    apply Hf. by eapply elem_of_dom_2.
  - intros t'. rewrite pc_of_goto. case_decide; [done|]. apply Ht.
Qed.

Lemma exec_inv s e s' : budget_inv b s → exec b s e = Some s' → budget_inv b s'.
Proof.
  intros Hinv He.
  assert (Hmove : ∀ t p, pc_ok b p → holds_slot p = holds_slot (pc_of s t) →
    recording (pc_of s t) ≤ Z.max (recording p) (maxObserved s) → budget_inv b (goto t p s))
    by (intros; by apply inv_goto).
  pose proof (inv_credits _ _ Hinv) as Hc. pose proof (inv_observed _ _ Hinv) as Ho.
  destruct (inv_inflight _ _ Hinv) as [Hi Hi']. pose proof (slots_nonneg s) as Hn.
  destruct e as [t|t|t permit|t]; cbn [exec] in He;
    try (destruct (pc_of s t) eqn:Hpc; try discriminate He; injection He as <-;
         apply Hmove; rewrite ?Hpc; simpl; done || lia).
  pose proof (inv_threads _ _ Hinv t) as Hok.
  destruct (pc_of s t) eqn:Hpc; try discriminate He; simpl in He, Hok.
  - destruct (bl_maxCredits b <=? credits s) eqn:E; injection He as <-; bool_hyps;
      apply Hmove; rewrite ?Hpc; simpl; done || lia.
  - destruct (credits s =? current) eqn:E; injection He as <-; bool_hyps;
      [by apply (inv_credit t s current)|apply Hmove; rewrite ?Hpc; simpl; done || lia].
  - destruct (bl_maxInflight b <=? inflight s) eqn:E; injection He as <-; bool_hyps;
      apply Hmove; rewrite ?Hpc; simpl; done || lia.
  - destruct (inflight s =? current) eqn:E; injection He as <-; bool_hyps;
      [by apply inv_slot|apply Hmove; rewrite ?Hpc; simpl; done || lia].
  - destruct (value <=? maxObserved s) eqn:E; injection He as <-; bool_hyps;
      apply Hmove; rewrite ?Hpc; simpl; done || lia.
  - destruct (maxObserved s =? current) eqn:E; injection He as <-; bool_hyps;
      [by eapply inv_observe|apply Hmove; rewrite ?Hpc; simpl; done || lia].
  - destruct (credits s <? retryCreditUnit) eqn:E; injection He as <-; bool_hyps;
      apply Hmove; rewrite ?Hpc; simpl; done || lia.
  - destruct (credits s =? current) eqn:E; injection He as <-; bool_hyps;
      [by apply inv_token|apply Hmove; rewrite ?Hpc; simpl; done || lia].
  - injection He as <-. apply inv_give_back; by rewrite ?Hpc.
  - destruct (permits s !! permit) as [[]|] eqn:E; injection He as <-;
      [apply Hmove; rewrite ?Hpc; simpl; done || lia|by apply inv_swap
      |apply Hmove; rewrite ?Hpc; simpl; done || lia].
  - injection He as <-. apply inv_give_back; by rewrite ?Hpc.
Qed.

Lemma reachable_inv s : reachable b s → budget_inv b s.
Proof.
  induction 1 as [|s e s' _ IH He]; [by apply inv_initial|]. by eapply exec_inv.
Qed.
End Preservation.

(** A finite execution. *)
Fixpoint run (b : budgetLimits) (s : budgetState) (es : list event) : option budgetState :=
  match es with
  | [] => Some s
  | e :: es => s ← exec b s e; run b s es
  end.

(** Over any stretch of an execution, the credits spent and left are covered by
    those present at its start and those of its primary requests. *)
Lemma exec_payment b s e s' : limits_ok b → budget_inv b s → exec b s e = Some s' →
  (credited s ≤ credited s')%nat ∧ (acquired s ≤ acquired s')%nat ∧
  credits s' + retryCreditUnit * (Z.of_nat (acquired s') - Z.of_nat (acquired s)) ≤
  credits s + bl_ratio b * (Z.of_nat (credited s') - Z.of_nat (credited s)).
Proof.
  intros Hl Hinv He. destruct Hl as (Hr & Hm & _). unfold retryCreditUnit in *.
  destruct e as [t|t|t permit|t]; cbn [exec] in He;
    try (destruct (pc_of s t); try discriminate He; injection He as <-; simpl; lia).
  pose proof (inv_threads _ _ Hinv t) as Hok.
  destruct (pc_of s t); try discriminate He; simpl in He, Hok; unfold retryCreditUnit in *;
    repeat case_scrutinee_in He; injection He as <-; bool_hyps; simpl;
    rewrite ?Nat2Z.inj_succ, ?wrap64_id in * by lia; lia.
Qed.

Lemma run_payment b s es s' : limits_ok b → budget_inv b s → run b s es = Some s' →
  budget_inv b s' ∧ (credited s ≤ credited s')%nat ∧ (acquired s ≤ acquired s')%nat ∧
  credits s' + retryCreditUnit * (Z.of_nat (acquired s') - Z.of_nat (acquired s)) ≤
  credits s + bl_ratio b * (Z.of_nat (credited s') - Z.of_nat (credited s)).
Proof.
  intros Hl. revert s. induction es as [|e es IH]; intros s Hinv Hrun; cbn [run] in Hrun.
  { injection Hrun as ->. split_and!; [done|done|done|lia]. }
  destruct (exec b s e) as [s1|] eqn:He; [|done]. cbn [mbind option_bind] in Hrun.
  destruct (exec_payment b s e s1 Hl Hinv He) as (? & ? & ?).
  destruct (IH s1 (exec_inv b Hl _ _ _ Hinv He) Hrun) as (? & ? & ? & ?).
  split_and!; [done|lia|lia|lia].
Qed.

(** ** Properties *)

(** in every interleaving, the credit balance stays within the burst, the
    in-flight count is exactly the number of reserved slots and unreleased
    permits and within its limit, so its unsigned decrements never underflow. *)
Theorem budget_bounds b s : limits_ok b → reachable b s →
  0 ≤ credits s ≤ bl_maxCredits b ∧
  inflight s = slots_held s ∧ 0 ≤ inflight s ≤ bl_maxInflight b ∧
  count_map negb (permits s) ≤ bl_maxInflight b.
Proof.
  intros Hl Hr. destruct (reachable_inv b Hl s Hr) as [Hc [Hi Hi'] _ _ _ _ _].
  pose proof (slots_nonneg s). pose proof (count_map_nonneg holds_slot (threads s)).
  unfold slots_held in *. split_and!; lia.
Qed.

(** C31: retries are paid for: between any two points of an execution, the
    permits acquired cost at most the burst plus the configured fraction of the
    primary requests credited in between. *)
Theorem budget_amplification b s es s' : limits_ok b → reachable b s → run b s es = Some s' →
  retryCreditUnit * (Z.of_nat (acquired s') - Z.of_nat (acquired s)) ≤
  bl_maxCredits b + bl_ratio b * (Z.of_nat (credited s') - Z.of_nat (credited s)) ∧
  retryCreditUnit * Z.of_nat (acquired s') ≤ bl_ratio b * Z.of_nat (credited s').
Proof.
  intros Hl Hr Hrun. pose proof (reachable_inv b Hl s Hr) as Hinv.
  destruct (run_payment b s es s' Hl Hinv Hrun) as (Hinv' & _ & _ & Hpay).
  pose proof (inv_credits _ _ Hinv). pose proof (inv_credits _ _ Hinv').
  pose proof (inv_paid _ _ Hinv'). split; lia.
Qed.

(** the recorded maximum is a true high-water mark: it never exceeds the
    limit, and it is at least the in-flight count whenever no goroutine is
    between reserving a slot and recording it. *)
Theorem budget_high_water b s : limits_ok b → reachable b s →
  maxObserved s ≤ bl_maxInflight b ∧
  ((∀ t, recording (pc_of s t) = 0) → inflight s ≤ maxObserved s).
Proof.
  intros Hl Hr. destruct (reachable_inv b Hl s Hr) as [_ [Hi _] Ho Hpk _ _ _]. split; [lia|].
  intros Hrec. destruct Hpk as [|[t Ht]]; [done|]. rewrite Hrec in Ht. lia.
Qed.

(** a permit is released at most once: releasing one that is unknown or
    already released panics, and a panicking release gives no slot back. *)
Theorem release_once b s t permit s' : pc_of s t = PermitSwap permit →
  exec b s (Advance t) = Some s' →
  inflight s' = inflight s ∧
  (pc_of s' t = SlotRelease ↔ permits s !! permit = Some false) ∧
  (pc_of s' t = Panicked ↔ permits s !! permit ≠ Some false) ∧
  permits s' !! permit ≠ Some false.
Proof.
  intros Hpc He. cbn [exec] in He. rewrite Hpc in He. simpl in He.
  destruct (permits s !! permit) as [[]|] eqn:E; injection He as <-; simpl;
    rewrite pc_of_goto, decide_True by done; rewrite ?lookup_insert_eq, ?E; split_and!;
    try split; congruence.
Qed.

(** ** Examples *)

Definition demo_limits : budgetLimits := newRetryBudget (mkRetryBudget 500 2 1).

Lemma demo_limits_ok : limits_ok demo_limits.
Proof. vm_compute. repeat split; congruence. Qed.

(** Two goroutines: 1 credits twice, then both try to acquire; the second finds
    the only slot taken. *)
Definition demo_events : list event :=
  [StartCredit 1; Advance 1; Advance 1; StartCredit 1; Advance 1; Advance 1;
   StartAcquire 1; StartAcquire 2; Advance 1; Advance 2; Advance 1; Advance 2; Advance 2;
   Advance 1; Advance 1; Advance 1; Advance 1].

Definition demo_state : budgetState := default initialBudget (run demo_limits initialBudget demo_events).

Example demo_acquired :
  (credits demo_state, inflight demo_state, maxObserved demo_state, permits demo_state !! 0%nat,
   pc_of demo_state 2) = (0, 1, 1, Some false, Idle).
Proof. vm_compute. reflexivity. Qed.

Lemma run_reachable b s es s' : reachable b s → run b s es = Some s' → reachable b s'.
Proof.
  revert s. induction es as [|e es IH]; intros s Hr Hrun; cbn [run] in Hrun; [by injection Hrun as ->|].
  destruct (exec b s e) as [s1|] eqn:He; [|done]. eapply IH; [|exact Hrun]. by eapply reachable_step.
Qed.

Lemma demo_reachable : reachable demo_limits demo_state.
Proof.
  apply (run_reachable _ initialBudget demo_events); [constructor|]. vm_compute. reflexivity.
Qed.

Lemma budget_bounds_witness : 0 ≤ inflight demo_state ≤ 1.
Proof.
  destruct (budget_bounds demo_limits demo_state demo_limits_ok demo_reachable) as (_ & _ & H & _).
  exact H.
Defined.

Lemma budget_amplification_witness :
  1000 * Z.of_nat (acquired demo_state) ≤ 500 * Z.of_nat (credited demo_state).
Proof.
  destruct (budget_amplification demo_limits initialBudget demo_events demo_state) as [_ H].
  - exact demo_limits_ok.
  - constructor.
  - vm_compute. reflexivity.
  - exact H.
Defined.

Lemma budget_high_water_witness : maxObserved demo_state ≤ 1.
Proof. exact (proj1 (budget_high_water demo_limits demo_state demo_limits_ok demo_reachable)). Defined.

Lemma release_once_witness :
  inflight (goto 1 Panicked (set_permit 0 true (goto 1 (PermitSwap 0) initialBudget))) = 0.
Proof.
  apply (release_once demo_limits (set_permit 0 true (goto 1 (PermitSwap 0) initialBudget)) 1 0);
    reflexivity.
Defined.
