(* ===== verification/RefTable.v ===== *)
(** * Reference-counted tables

    The registry keeps five maps from sharing keys to runtimes with a reference
    count.  They follow one protocol: acquiring a key creates the entry or
    takes one more reference, releasing it drops one reference and deletes the
    entry with the last one, and a release without reference panics.  The
    operations are defined once here; the lemmas give the count of every key
    after a sequence of them and the inverse laws behind the registry's
    rollback. *)

From S2P Require Import Prelude.
#[local] Open Scope Z_scope.

Record entry (R : Type) := mkEntry { e_runtime : R; e_refs : Z }.
Arguments mkEntry {R} _ _.
Arguments e_runtime {R} _.
Arguments e_refs {R} _.

Section Table.
Context {K R : Type} `{Countable K}.
Implicit Types (t : gmap K (entry R)) (k : K) (ks : list K).

(** Take one reference to [k], creating the entry with [fresh] when absent. *)
Definition table_acquire t k (fresh : R) : gmap K (entry R) :=
  match t !! k with
  | None => <[k := mkEntry fresh 1]> t
  | Some e => <[k := mkEntry (e_runtime e) (e_refs e + 1)]> t
  end.

(** Drop one reference to [k]; the runtime comes back with the last one and
    [None] is the underflow panic. *)
Definition table_release t k : option (gmap K (entry R) * option R) :=
  match t !! k with
  | None => None
  | Some e =>
      if e_refs e <=? 0 then None
      else if e_refs e - 1 =? 0 then Some (delete k t, Some (e_runtime e))
      else Some (<[k := mkEntry (e_runtime e) (e_refs e - 1)]> t, None)
  end.

(** Release the keys in order, collecting the entries that were deleted. *)
Fixpoint table_releaseAll t ks : option (gmap K (entry R) * list (K * R)) :=
  match ks with
  | [] => Some (t, [])
  | k :: ks =>
      '(t, dropped) ← table_release t k;
      '(t, rest) ← table_releaseAll t ks;
      Some (t, match dropped with Some r => (k, r) :: rest | None => rest end)
  end.

(** ** Counts *)

Definition refs_of t k : Z := from_option e_refs 0 (t !! k).
Definition runtime_of t k : option R := e_runtime <$> t !! k.
Definition occurs k ks : Z := Z.of_nat (length (filter (.= k) ks)).

(** Every entry holds at least one reference. *)
Definition table_ok t : Prop := map_Forall (fun _ e => 1 ≤ e_refs e) t.

Lemma refs_nonneg t k : table_ok t → 0 ≤ refs_of t k.
Proof.
  intros Hok. unfold refs_of. destruct (t !! k) as [e|] eqn:E; simpl; [|lia].
  specialize (Hok _ _ E). simpl in Hok. lia.
Qed.

Lemma refs_pos t k : table_ok t → 0 < refs_of t k ↔ is_Some (t !! k).
Proof.
  intros Hok. unfold refs_of. destruct (t !! k) as [e|] eqn:E; simpl.
  - specialize (Hok _ _ E). simpl in Hok. split; [by eauto|lia].
  - split; [lia|]. by intros [? [=]].
Qed.

Lemma runtime_of_Some t k : is_Some (runtime_of t k) ↔ is_Some (t !! k).
Proof. unfold runtime_of. by rewrite fmap_is_Some. Qed.

Lemma table_eq t t' : table_ok t → table_ok t' →
  (∀ k, refs_of t k = refs_of t' k) → (∀ k, is_Some (t !! k) → runtime_of t k = runtime_of t' k) →
  t = t'.
Proof.
  intros Hok Hok' Hrefs Hrun. apply map_eq. intros k.
  specialize (Hrefs k). specialize (Hrun k).
  pose proof (refs_pos t k Hok) as Hp. pose proof (refs_pos t' k Hok') as Hp'.
  rewrite Hrefs in Hp. unfold refs_of, runtime_of in *.
  destruct (t !! k) as [[r n]|] eqn:E, (t' !! k) as [[r' n']|] eqn:E'; simpl in *.
  - specialize (Hrun (mk_is_Some _ _ eq_refl)). simplify_eq. done.
  - assert (is_Some (@None (entry R))) as [? [=]] by (apply Hp', Hp; eauto).
  - assert (is_Some (@None (entry R))) as [? [=]] by (apply Hp, Hp'; eauto).
  - done.
Qed.

Lemma occurs_nil k : occurs k [] = 0.
Proof. done. Qed.
Lemma occurs_cons k k' ks : occurs k (k' :: ks) = (if decide (k' = k) then 1 else 0) + occurs k ks.
Proof. unfold occurs. rewrite filter_cons. destruct (decide _); simpl; lia. Qed.
Lemma occurs_app k ks ks' : occurs k (ks ++ ks') = occurs k ks + occurs k ks'.
Proof. unfold occurs. rewrite filter_app, length_app. lia. Qed.
Lemma occurs_nonneg k ks : 0 ≤ occurs k ks.
Proof. unfold occurs. lia. Qed.
Lemma occurs_pos k ks : 0 < occurs k ks ↔ k ∈ ks.
Proof.
  induction ks as [|k' ks IH]; [rewrite occurs_nil, elem_of_nil; lia|].
  rewrite occurs_cons, elem_of_cons, <-IH. pose proof (occurs_nonneg k ks).
  destruct (decide (k' = k)) as [-> |]; [split; [auto|lia]|].
  split; [intros ?; right; lia|intros [-> | ?]; [done|lia]].
Qed.

(** ** Acquiring *)

Lemma acquire_lookup t k r k' : table_acquire t k r !! k' =
  if decide (k = k') then Some (mkEntry (default r (runtime_of t k)) (refs_of t k + 1))
  else t !! k'.
Proof.
  unfold table_acquire, runtime_of, refs_of. destruct (t !! k) as [e|] eqn:E;
    (destruct (decide (k = k')) as [<-|]; [by rewrite lookup_insert_eq|by rewrite lookup_insert_ne]).
Qed.

Lemma acquire_ok t k r : table_ok t → table_ok (table_acquire t k r).
Proof.
  intros Hok k' e. rewrite acquire_lookup. destruct (decide _); [|by apply Hok].
  intros [= <-]. pose proof (refs_nonneg t k Hok). simpl. lia.
Qed.

Lemma acquire_refs t k r k' :
  refs_of (table_acquire t k r) k' = refs_of t k' + (if decide (k = k') then 1 else 0).
Proof. unfold refs_of at 1. rewrite acquire_lookup. destruct (decide _) as [<-|]; simpl; [done|].
  fold (refs_of t k'). lia. Qed.

Lemma acquire_runtime t k r k' : runtime_of (table_acquire t k r) k' =
  if decide (k = k') then Some (default r (runtime_of t k)) else runtime_of t k'.
Proof. unfold runtime_of at 1. rewrite acquire_lookup. by destruct (decide _). Qed.

(** ** Releasing *)

Lemma release_lookup t k t' dropped k' : table_release t k = Some (t', dropped) →
  t' !! k' = if decide (k = k')
             then (if refs_of t k - 1 =? 0 then None
                   else (fun e => mkEntry (e_runtime e) (e_refs e - 1)) <$> t !! k)
             else t !! k'.
Proof.
  unfold table_release, refs_of. destruct (t !! k) as [e|] eqn:E; [|done]. simpl.
  destruct (e_refs e <=? 0); [done|]. destruct (e_refs e - 1 =? 0); intros [= <- <-];
    (destruct (decide (k = k')) as [<-|];
      [rewrite ?lookup_delete_eq, ?lookup_insert_eq|rewrite ?lookup_delete_ne, ?lookup_insert_ne]; done).
Qed.

Lemma release_total t k : table_ok t → 0 < refs_of t k → is_Some (table_release t k).
Proof.
  intros Hok Hp. pose proof Hp as [e E]%refs_pos; [|done]. unfold table_release, refs_of in *.
  rewrite E in *. simpl in Hp. destruct (e_refs e <=? 0) eqn:?; bool_hyps; [lia|].
  destruct (_ =? 0); eauto.
Qed.

Lemma release_ok t k t' dropped : table_ok t → table_release t k = Some (t', dropped) → table_ok t'.
Proof.
  intros Hok Hr k' e. rewrite (release_lookup _ _ _ _ k' Hr). destruct (decide _) as [<-|]; [|by apply Hok].
  unfold refs_of. destruct (t !! k) as [e0|] eqn:E; simpl; [|by destruct (Z.eqb (0 - 1) 0)].
  specialize (Hok _ _ E). simpl in Hok.
  destruct (e_refs e0 - 1 =? 0) eqn:?; [done|]. bool_hyps. intros [= <-]. simpl. lia.
Qed.

Lemma release_refs t k t' dropped k' : table_ok t → table_release t k = Some (t', dropped) →
  refs_of t' k' = refs_of t k' - (if decide (k = k') then 1 else 0).
Proof.
  intros Hok Hr. unfold refs_of at 1. rewrite (release_lookup _ _ _ _ k' Hr).
  destruct (decide _) as [<-|]; [|unfold refs_of; lia].
  unfold table_release, refs_of in *. destruct (t !! k) as [e|] eqn:E; [|done]. simpl in *.
  destruct (e_refs e - 1 =? 0) eqn:?; bool_hyps; simpl; lia.
Qed.

Lemma release_runtime t k t' dropped k' : table_release t k = Some (t', dropped) →
  is_Some (t' !! k') → runtime_of t' k' = runtime_of t k'.
Proof.
  intros Hr. unfold runtime_of. rewrite (release_lookup _ _ _ _ k' Hr).
  destruct (decide _) as [<-|]; [|done]. destruct (_ =? 0); [by intros [? [=]]|].
  intros _. by destruct (t !! k).
Qed.

Lemma release_dropped t k t' r : table_release t k = Some (t', Some r) →
  runtime_of t k = Some r ∧ t' !! k = None.
Proof.
  unfold table_release, runtime_of. destruct (t !! k) as [e|]; [|done].
  destruct (_ <=? 0); [done|]. destruct (_ =? 0); [|done]. intros [= <- <-].
  by rewrite lookup_delete_eq.
Qed.

Lemma release_runtime_pos t k t' dropped k' : table_ok t → table_release t k = Some (t', dropped) →
  0 < refs_of t' k' → runtime_of t' k' = runtime_of t k'.
Proof.
  intros Hok Hr Hp. apply (release_runtime _ _ _ _ _ Hr), refs_pos; [|done].
  by eapply release_ok.
Qed.

Lemma release_last t k t' dropped : table_ok t → table_release t k = Some (t', dropped) →
  match dropped with
  | Some r => runtime_of t k = Some r ∧ refs_of t' k = 0
  | None => 0 < refs_of t' k
  end.
Proof.
  intros Hok Hr. unfold refs_of. rewrite (release_lookup _ _ _ _ k Hr), decide_True by done.
  unfold table_release, refs_of, runtime_of in *. destruct (t !! k) as [e|] eqn:E; [|done].
  specialize (Hok _ _ E). simpl in *. destruct (e_refs e <=? 0); [done|].
  destruct (e_refs e - 1 =? 0) eqn:?; bool_hyps; simplify_eq; simpl; [done|lia].
Qed.

(** What a sequence of releases does: every key loses its occurrences, the
    surviving entries keep their runtime, and exactly the entries whose last
    reference went are handed back, each once. *)
Record released t ks t' (dropped : list (K * R)) : Prop := {
  released_ok : table_ok t';
  released_refs k : refs_of t' k = refs_of t k - occurs k ks;
  released_runtime k : is_Some (t' !! k) → runtime_of t' k = runtime_of t k;
  released_dropped k r : (k, r) ∈ dropped ↔
    k ∈ ks ∧ runtime_of t k = Some r ∧ refs_of t k = occurs k ks;
  released_once : NoDup dropped.*1;
}.

Lemma releaseAll_released t ks t' dropped : table_ok t →
  table_releaseAll t ks = Some (t', dropped) → released t ks t' dropped.
Proof.
  revert t t' dropped. induction ks as [|k ks IH]; intros t t' dropped Hok Hall; simpl in Hall.
  { simplify_eq. split; [done| | | |constructor]; intros k; rewrite ?occurs_nil; [lia|done|].
    intros r. rewrite !elem_of_nil. split; [done|by intros [? _]]. }
  destruct (table_release t k) as [[t1 d1]|] eqn:Hr; [|done]. simpl in Hall.
  destruct (table_releaseAll t1 ks) as [[t2 d2]|] eqn:Hrs; [|done]. simplify_eq/=.
  pose proof (release_ok _ _ _ _ Hok Hr) as Hok1.
  pose proof (fun k' => release_refs _ _ _ _ k' Hok Hr) as Href1.
  destruct (IH _ _ _ Hok1 Hrs) as [Hok2 Href2 Hrun2 Hd2 Hnd2].
  pose proof (release_last _ _ _ _ Hok Hr) as Hlast.
  pose proof (fun k' => release_runtime_pos _ _ _ _ k' Hok Hr) as Hrun1.
  assert (Hoccurs : refs_of t1 k = 0 → occurs k ks = 0).
  { intros Hz. pose proof (refs_nonneg _ k Hok2). pose proof (occurs_nonneg k ks).
    specialize (Href2 k). lia. }
  assert (Hpos : ∀ k', k' ∈ ks → refs_of t1 k' = occurs k' ks → runtime_of t1 k' = runtime_of t k').
  { intros k' Hin Heq. apply Hrun1. rewrite Heq. by apply occurs_pos. }
  split.
  - done.
  - intros k'. rewrite occurs_cons, Href2, Href1. lia.
  - intros k' Hk'. rewrite Hrun2 by done. apply (release_runtime _ _ _ _ _ Hr).
    apply runtime_of_Some. rewrite <-Hrun2 by done. by apply runtime_of_Some.
  - intros k' r. rewrite occurs_cons, elem_of_cons. specialize (Hpos k'). specialize (Hd2 k' r).
    specialize (Href1 k'). destruct (decide (k = k')) as [<-|Hne] in Href1 |- *.
    + destruct d1 as [r1|]; rewrite ?elem_of_cons, Hd2.
      * destruct Hlast as [Hr1 Hz]. specialize (Hoccurs Hz).
        split; [|intros (_ & ? & _); left; congruence].
        intros [[= ->]|(Hin & ? & ?)]; [split_and!; [by left|done|lia]|apply occurs_pos in Hin; lia].
      * split; [intros (? & ? & ?); rewrite <-Hpos by done; split_and!; [by left|done|lia]|].
        intros (_ & ? & ?). assert (k ∈ ks) by (apply occurs_pos; lia).
        rewrite Hpos by (done || lia). split_and!; [done|done|lia].
    + assert ((k', r) ∈ (match d1 with Some r => (k, r) :: d2 | None => d2 end) ↔ (k', r) ∈ d2) as ->.
      { destruct d1; [|done]. rewrite elem_of_cons. split; [intros [[=] | ?]; done|by right]. }
      rewrite Hd2. split.
      * intros (? & ? & ?). rewrite <-Hpos by done. split_and!; [by right|done|lia].
      * intros ([-> | ?] & ? & ?); [done|]. rewrite Hpos by (done || lia). split_and!; [done|done|lia].
  - destruct d1 as [r1|]; [|done]. rewrite fmap_cons. constructor; [|done].
    intros ([k' r] & Hkk & Hin)%list_elem_of_fmap. simpl in Hkk. subst k'.
    apply Hd2 in Hin as (Hin & _ & Heq). apply occurs_pos in Hin. destruct Hlast. lia.
Qed.

Lemma releaseAll_total t ks : table_ok t → (∀ k, occurs k ks ≤ refs_of t k) →
  is_Some (table_releaseAll t ks).
Proof.
  revert t. induction ks as [|k ks IH]; intros t Hok Hle; [by eexists|].
  destruct (release_total t k Hok) as [[t1 d] Hr].
  { specialize (Hle k). rewrite occurs_cons, decide_True in Hle by done.
    pose proof (occurs_nonneg k ks). lia. }
  cbn [table_releaseAll]. rewrite Hr. simpl.
  destruct (IH t1) as [[t2 d2] ->]; [by eapply release_ok| |by eexists].
  intros k'. specialize (Hle k'). rewrite occurs_cons in Hle. rewrite (release_refs _ _ _ _ k' Hok Hr). lia.
Qed.

(** Releasing what was acquired on top of [t] restores [t]: the counts come
    back, and the runtimes of [t] were never replaced. *)
Definition extends t ks t' : Prop :=
  table_ok t' ∧ (∀ k, refs_of t' k = refs_of t k + occurs k ks) ∧
  (∀ k r, runtime_of t k = Some r → runtime_of t' k = Some r).

Lemma extends_refl t : table_ok t → extends t [] t.
Proof. intros Hok. split_and!; [done| |done]. intros k. rewrite occurs_nil. lia. Qed.

Lemma extends_acquire t ks t' k r : extends t ks t' →
  extends t (ks ++ [k]) (table_acquire t' k r).
Proof.
  intros (Hok & Hrefs & Hrun). split_and!.
  - by apply acquire_ok.
  - intros k'. rewrite acquire_refs, Hrefs, occurs_app, occurs_cons, occurs_nil. lia.
  - intros k' r' Hr'. rewrite acquire_runtime. destruct (decide _) as [<-|]; [|by apply Hrun].
    by rewrite (Hrun _ _ Hr').
Qed.

Lemma extends_trans t ks t' ks' t'' : extends t ks t' → extends t' ks' t'' →
  extends t (ks ++ ks') t''.
Proof.
  intros (_ & Hrefs & Hrun) (Hok & Hrefs' & Hrun'). split_and!; [done| |eauto].
  intros k. rewrite Hrefs', Hrefs, occurs_app. lia.
Qed.

Lemma extends_one t k r : table_ok t → extends t [k] (table_acquire t k r).
Proof. intros Hok. apply (extends_acquire t []). by apply extends_refl. Qed.

Lemma extends_release t ks t' : table_ok t → extends t ks t' →
  ∃ dropped, table_releaseAll t' ks = Some (t, dropped).
Proof.
  intros Hok (Hok' & Hrefs & Hrun).
  destruct (releaseAll_total t' ks Hok') as [[t2 d] Hall].
  { intros k. rewrite Hrefs. pose proof (refs_nonneg t k Hok). lia. }
  exists d. rewrite Hall. do 2 f_equal.
  destruct (releaseAll_released _ _ _ _ Hok' Hall) as [Hok2 Href2 Hrun2 _ _].
  apply table_eq; [done..| |].
  - intros k. rewrite Href2, Hrefs. lia.
  - intros k Hk. rewrite Hrun2 by done.
    assert (is_Some (t !! k)) as Hkt.
    { apply refs_pos; [done|]. apply refs_pos in Hk; [|done]. rewrite Href2, Hrefs in Hk. lia. }
    apply runtime_of_Some in Hkt as [r Hr]. rewrite Hr. by apply Hrun.
Qed.
End Table.
