(* ===== verification/Plan.v ===== *)
(** * Upstream plans and selection ([internal/upstream/plan.go])

    A plan is the immutable balancer of one upstream.  It refers by pointer to
    the mutable runtimes it shares with other generations: transports,
    selection sequences, health trackers, health registrations and retry
    budgets.  Those objects live in the [store] below, addressed by numbers;
    pointer equality is equality of addresses. *)

From S2P Require Import Prelude GoStrings NetAddr Predicate Apportion Wrr HashKey Chash Url Resources UpstreamConfig X509 Fingerprint Health Budget.
#[local] Open Scope string_scope.
#[local] Open Scope Z_scope.
#[local] Open Scope list_scope.

(** ** The shared objects *)

(** [transportRuntime]: what identifies it and whether its idle connections
    have been closed ([closeOnce] makes that happen at most once). *)
Record transportRuntime := mkTransportRuntime {
  tr_key : transportKey;
  tr_mtls : bool;
  tr_upgrade : bool;
  tr_closed : bool;
}.

(** [healthRegistration] *)
Record healthRegistration := mkRegistration {
  hr_identity : string;
  hr_target : URL;
  hr_generation : Z;
  hr_policy : ActiveHealthPolicy;
  hr_transport : nat;
  hr_health : nat;
  hr_activated : bool;
  hr_retired : bool;
}.

Record store := mkStore {
  s_next : nat;
  s_transports : gmap nat transportRuntime;
  s_sequences : gmap nat Z;
  s_trackers : gmap nat EndpointHealth;
  s_registrations : gmap nat healthRegistration;
  s_budgets : gmap nat budgetLimits;
}.

(** ** Attempt sets *)

(** A fixed array of five ordinals and the number in use. *)
Record AttemptSet := mkAttempts { as_ordinals : list Z; as_count : nat }.

Definition emptyAttempts : AttemptSet := mkAttempts (replicate 5 0) 0.

Definition Contains (a : option AttemptSet) (ordinal : Z) : bool :=
  match a with
  | None => false
  | Some a => bool_decide (ordinal ∈ take (as_count a) (as_ordinals a))
  end.

Definition Add (a : option AttemptSet) (ordinal : Z) : option AttemptSet * bool :=
  match a with
  | None => (None, false)
  | Some s =>
      if Contains a ordinal || Nat.leb (length (as_ordinals s)) (as_count s) then (a, false)
      else (Some (mkAttempts (<[as_count s := ordinal]> (as_ordinals s)) (S (as_count s))), true)
  end.

(** ** Plans *)

Record endpointRuntime := mkEndpointRuntime { er_identity : string; er_target : URL }.

Record planEndpoint := mkPlanEndpoint {
  pe_runtime : endpointRuntime;
  pe_health : option nat;
  pe_identity : string;
  pe_weight : Z;
}.

Record Plan := mkPlan {
  p_id : string;
  p_algorithm : string;
  p_endpoints : list planEndpoint;
  p_transport : nat;
  p_transportKey : transportKey;
  p_wrr : wrrSelector;
  p_continuum : continuum;
  p_hashKey : list HashKeySource;
  p_healthRegistrations : list nat;
  p_budget : option nat;
}.

(** The input of the balancer compilers. *)
Definition weightedOf (endpoints : list planEndpoint) : list weightedEndpoint :=
  (fun e => mkWeighted (pe_identity e) (pe_weight e)) <$> endpoints.

Record Selection := mkSelection {
  sel_endpoint : endpointRuntime;
  sel_health : option nat;
  sel_transport : nat;
  sel_transportKey : transportKey;
  sel_ordinal : Z;
  sel_balancer : string;
  sel_hashFallback : bool;
}.

Inductive selectError := ErrNoEndpoint | ErrNoHealthyEndpoint.

Definition trackerSelectable (st : store) (health : option nat) : bool :=
  match health with
  | None => true
  | Some h => from_option Selectable true (s_trackers st !! h)
  end.

Definition selectable (st : store) (p : Plan) (attempted : option AttemptSet) (ordinal : Z) : bool :=
  if (Z.of_nat (length (p_endpoints p)) <=? ordinal) || Contains attempted ordinal then false
  else from_option (fun e => trackerSelectable st (pe_health e)) false
         (p_endpoints p !! Z.to_nat ordinal).

Definition set_sequence (st : store) (address : nat) (sequence : Z) : store :=
  mkStore (s_next st) (s_transports st) (<[address := sequence]> (s_sequences st))
    (s_trackers st) (s_registrations st) (s_budgets st).

Definition sequenceOf (st : store) (address : nat) : Z := default 0 (s_sequences st !! address).

Section Select.
(** The third-party digest. *)
Context (xxh64 : string → Z).

(** The balancer of the plan: the chosen ordinal and whether the hash key fell
    back; the outer [None] is the unknown algorithm. *)
Definition chooseOrdinal (st : store) (p : Plan) (r : option request) (filter : Z → bool)
    : option (option Z * bool * store) :=
  if String.eqb (p_algorithm p) BalancerWeightedRoundRobin then
    let '(choice, sequence) :=
      wrr_selectNext (p_wrr p) filter (sequenceOf st (wrr_state (p_wrr p))) in
    Some (choice, false, set_sequence st (wrr_state (p_wrr p)) sequence)
  else if String.eqb (p_algorithm p) BalancerConsistentHash then
    let '(sum, usedFallback) := sum64 xxh64 (p_hashKey p) r in
    Some (chash_selectNext (p_continuum p) sum (Z.of_nat (length (p_endpoints p))) filter,
          usedFallback, st)
  else None.

Definition SelectNext (st : store) (p : option Plan) (r : option request)
    (attempted : option AttemptSet) : result selectError Selection * store :=
  match p with
  | None => (Err ErrNoEndpoint, st)
  | Some p =>
      match p_endpoints p with
      | [] => (Err ErrNoEndpoint, st)
      | _ =>
          match chooseOrdinal st p r (selectable st p attempted) with
          | None => (Err ErrNoEndpoint, st)
          | Some (None, _, st) => (Err ErrNoHealthyEndpoint, st)
          | Some (Some ordinal, fallback, st) =>
              match p_endpoints p !! Z.to_nat ordinal with
              | None => (Err ErrNoEndpoint, st)
              | Some e =>
                  (Ok (mkSelection (pe_runtime e) (pe_health e) (p_transport p) (p_transportKey p)
                         ordinal (p_algorithm p) fallback), st)
              end
          end
      end
  end.

(** [Selection.Observe] *)
Definition selection_Observe (st : store) (s : Selection) (o : Observation) : store :=
  match sel_health s with
  | None => st
  | Some h =>
      match s_trackers st !! h with
      | None => st
      | Some tracker =>
          mkStore (s_next st) (s_transports st) (s_sequences st)
            (<[h := (Observe tracker o).1]> (s_trackers st)) (s_registrations st) (s_budgets st)
      end
  end.

(** [healthRegistration.ActivateHealth] up to the scheduling of the first
    probe; [stopped] is the flag of the coordinator. *)
Definition activateRegistration (stopped : bool) (st : store) (address : nat) : store :=
  match s_registrations st !! address with
  | None => st
  | Some g =>
      if hr_retired g || stopped || hr_activated g then st
      else mkStore (s_next st) (s_transports st) (s_sequences st) (s_trackers st)
             (<[address := mkRegistration (hr_identity g) (hr_target g) (hr_generation g)
                             (hr_policy g) (hr_transport g) (hr_health g) true false]>
                (s_registrations st)) (s_budgets st)
  end.

Definition ActivateHealth (stopped : bool) (st : store) (p : Plan) : store :=
  foldl (activateRegistration stopped) st (p_healthRegistrations p).
End Select.

(** ** Attempt sets hold distinct ordinals, at most five *)

Definition attempted_list (a : AttemptSet) : list Z := take (as_count a) (as_ordinals a).

Record attempts_ok (a : AttemptSet) : Prop := {
  ao_size : length (as_ordinals a) = 5%nat;
  ao_count : (as_count a ≤ 5)%nat;
  ao_distinct : NoDup (attempted_list a);
}.

Lemma Contains_spec a o : Contains (Some a) o = true ↔ o ∈ attempted_list a.
Proof. simpl. by rewrite bool_decide_eq_true. Qed.

Lemma emptyAttempts_ok : attempts_ok emptyAttempts.
Proof. split; simpl; [done|lia|constructor]. Qed.

Lemma Add_cases a o : attempts_ok a →
  match Add (Some a) o with
  | (Some a', true) => attempts_ok a' ∧ attempted_list a' = attempted_list a ++ [o] ∧ o ∉ attempted_list a
  | (Some a', false) => a' = a ∧ (o ∈ attempted_list a ∨ as_count a = 5%nat)
  | (None, _) => False
  end.
Proof.
  intros [Hsize Hcount Hnd]. unfold Add.
  destruct (Contains (Some a) o) eqn:Hc; simpl.
  { split; [done|]. left. by apply Contains_spec. }
  rewrite Hsize. destruct (Nat.leb 5 (as_count a)) eqn:E; bool_hyps; simpl.
  { split; [done|]. right. lia. }
  assert (Hnew : o ∉ attempted_list a) by (intros Hin; apply Contains_spec in Hin; congruence).
  assert (Hlist : take (S (as_count a)) (<[as_count a:=o]> (as_ordinals a)) = attempted_list a ++ [o]).
  { rewrite (take_S_r _ _ o) by (apply list_lookup_insert_eq; lia).
    by rewrite take_insert_ge by done. }
  split_and!; [|done|done]. split; unfold attempted_list; simpl.
  - by rewrite length_insert.
  - lia.
  - rewrite Hlist. apply NoDup_app. split; [done|]. split; [|apply NoDup_singleton].
    intros x Hx ->%list_elem_of_singleton. done.
Qed.

(** ** Selection *)

Section SelectSpec.
Context (xxh64 : string → Z).

(** The plans the registry prepares: positive weights and a balancer compiled
    from them. *)
Record plan_ok (p : Plan) : Prop := {
  po_nonempty : p_endpoints p ≠ [];
  po_weights : Forall (fun e => 0 < pe_weight e < 2 ^ 32) (p_endpoints p);
  po_count : Z.of_nat (length (p_endpoints p)) ≤ 2 ^ 32;
  po_balancer :
    p_algorithm p = BalancerWeightedRoundRobin ∧
      compileWRR (weightedOf (p_endpoints p)) (Some (wrr_state (p_wrr p))) = Ok (p_wrr p) ∨
    p_algorithm p = BalancerConsistentHash ∧
      compileContinuum xxh64 (weightedOf (p_endpoints p)) = Ok (p_continuum p);
}.

(** The sequence counter is short of its wrap-around. *)
Definition sequence_ok (st : store) (p : Plan) : Prop :=
  0 ≤ sequenceOf st (wrr_state (p_wrr p)) ≤ 2 ^ 64 - MaxWRRSchedule.

Lemma weightedOf_u32 es : Forall (fun e => 0 < pe_weight e < 2 ^ 32) es → Forall weight_u32 (weightedOf es).
Proof.
  intros Hes. apply Forall_fmap. eapply Forall_impl; [exact Hes|]. intros e He.
  unfold weight_u32, compose. simpl in *. lia.
Qed.

Lemma weightedOf_ordinal es o : Forall (fun e => 0 < pe_weight e < 2 ^ 32) es →
  active_ordinal (weightedOf es) o ↔ ∃ k, is_Some (es !! k) ∧ o = Z.of_nat k.
Proof.
  intros Hes. unfold active_ordinal, weightedOf. setoid_rewrite list_lookup_fmap. split.
  - intros (k & e & (e' & He & _)%fmap_Some & _ & ->). by exists k; rewrite He.
  - intros (k & [e He] & ->). exists k. eexists. rewrite He. split_and!; [done| |done].
    pose proof (Forall_lookup_1 _ _ _ _ Hes He) as Hw. simpl in *. lia.
Qed.

(** Both balancers keep the interface. *)
Lemma chooseOrdinal_selector st p r : plan_ok p → sequence_ok st p →
  ∃ choose fallback st', Selector (active_ordinal (weightedOf (p_endpoints p))) choose ∧
    (∀ filter, chooseOrdinal xxh64 st p r filter = Some (choose filter, fallback, st' filter)) ∧
    (∀ filter, s_trackers (st' filter) = s_trackers st).
Proof.
  intros Hp Hseq. pose proof (weightedOf_u32 _ (po_weights p Hp)) as Hw.
  pose proof (po_count p Hp) as Hlen.
  assert (Hlen' : length (weightedOf (p_endpoints p)) = length (p_endpoints p)) by apply length_fmap.
  unfold chooseOrdinal. destruct (po_balancer p Hp) as [[-> Hc]|[-> Hc]].
  - exists (fun filter => (wrr_selectNext (p_wrr p) filter (sequenceOf st (wrr_state (p_wrr p)))).1), false,
      (fun filter => set_sequence st (wrr_state (p_wrr p))
         (wrr_selectNext (p_wrr p) filter (sequenceOf st (wrr_state (p_wrr p)))).2).
    split; [|split].
    + eapply wrr_Selector; [done|by rewrite Hlen'|exact Hc|apply Hseq|]. unfold sequence_ok in Hseq. lia.
    + intros filter. simpl. by destruct (wrr_selectNext _ _ _).
    + done.
  - destruct (sum64 xxh64 (p_hashKey p) r) as [sum fallback] eqn:Hsum.
    exists (chash_selectNext (p_continuum p) sum (Z.of_nat (length (p_endpoints p)))), fallback, (fun _ => st).
    split; [|done].
    rewrite <-Hlen'. apply (chash_Selector xxh64); [done|by rewrite Hlen'|done].
Qed.

Lemma selectable_spec st p a k e : p_endpoints p !! k = Some e →
  selectable st p a (Z.of_nat k) = negb (Contains a (Z.of_nat k)) && trackerSelectable st (pe_health e).
Proof.
  intros He. unfold selectable. rewrite Nat2Z.id, He.
  pose proof (lookup_lt_Some _ _ _ He). destruct (_ <=? _) eqn:E; bool_hyps; [lia|]. simpl.
  by destruct (Contains _ _).
Qed.

(** C33: [SelectNext] on a prepared plan succeeds exactly when an endpoint is
    left that is untried and not unhealthy, and then returns such an endpoint
    with its own runtime, health tracker and transport; it never reports a plan
    without endpoints.  Adding the choice to the attempt set cannot be refused
    as a duplicate, so a request never retries an endpoint. *)
Theorem SelectNext_exact st p r a : plan_ok p → sequence_ok st p → attempts_ok a →
  match (SelectNext xxh64 st (Some p) r (Some a)).1 with
  | Ok s => ∃ k e, p_endpoints p !! k = Some e ∧ sel_ordinal s = Z.of_nat k ∧
      sel_endpoint s = pe_runtime e ∧ sel_health s = pe_health e ∧ sel_transport s = p_transport p ∧
      ¬ (Z.of_nat k ∈ attempted_list a) ∧ trackerSelectable st (pe_health e) = true ∧
      ((as_count a < 5)%nat → (Add (Some a) (sel_ordinal s)).2 = true)
  | Err ErrNoHealthyEndpoint => ∀ k e, p_endpoints p !! k = Some e →
      Z.of_nat k ∈ attempted_list a ∨ trackerSelectable st (pe_health e) = false
  | Err ErrNoEndpoint => False
  end.
Proof.
  intros Hp Hseq Ha. unfold SelectNext. pose proof (po_nonempty p Hp) as Hne.
  destruct (p_endpoints p) as [|e0 es] eqn:Hes; [done|]. rewrite <-Hes in *. clear e0 es Hes Hne.
  destruct (chooseOrdinal_selector st p r Hp Hseq) as (choose & fallback & st' & Hsel & -> & _).
  destruct (choose (selectable st p (Some a))) as [o|] eqn:Ho.
  - apply selector_sound in Ho as [Hact Hs].
    apply weightedOf_ordinal in Hact as (k & [e He] & ->); [|apply Hp].
    rewrite Nat2Z.id, He. cbn [fst sel_ordinal sel_endpoint sel_health sel_transport].
    rewrite (selectable_spec _ _ _ _ _ He) in Hs. bool_hyps.
    exists k, e. split_and!; try done.
    + intros Hin. apply Contains_spec in Hin. congruence.
    + intros Hcount. pose proof (Add_cases a (Z.of_nat k) Ha) as HA.
      destruct (Add _ _) as [[a'|] [|]] in HA |- *; simpl; try done. destruct HA as (_ & [Hin|?]); [|lia].
      apply Contains_spec in Hin. congruence.
  - simpl. intros k e He.
    assert (Hact : active_ordinal (weightedOf (p_endpoints p)) (Z.of_nat k))
      by (apply weightedOf_ordinal; [apply Hp|]; eauto).
    pose proof (selector_complete _ Ho _ Hact) as Hs. rewrite (selectable_spec _ _ _ _ _ He) in Hs.
    apply andb_false_iff in Hs as [Hs|Hs]; [left|by right]. apply negb_false_iff in Hs.
    by apply Contains_spec.
Qed.
End SelectSpec.

(** ** A concrete plan *)

Definition demo_endpoint (name : string) (health : option nat) : planEndpoint :=
  mkPlanEndpoint (mkEndpointRuntime name (mkURL "http" "" false name "" "" "" "")) health name 1.

Definition demo_plan : Plan :=
  mkPlan "u" BalancerWeightedRoundRobin
    [demo_endpoint "a:80" None; demo_endpoint "b:80" (Some 3%nat)] 0 demo_transport_key
    (mkSelector 1 [0; 1] 0) (mkContinuum [] [] 0) [] [] None.

(** The second endpoint is unhealthy. *)
Definition demo_store : store :=
  mkStore 4 ∅ {[1%nat := 0]} {[3%nat := demo_failed]} ∅ ∅.

Lemma SelectNext_exact_witness :
  (∃ s, (SelectNext (fun _ => 0) demo_store (Some demo_plan) None (Some emptyAttempts)).1 = Ok s ∧
     sel_ordinal s = 0) ∧
  (∀ k e, p_endpoints demo_plan !! k = Some e →
     Z.of_nat k ∈ attempted_list (mkAttempts [0; 0; 0; 0; 0] 1) ∨
     trackerSelectable demo_store (pe_health e) = false).
Proof.
  assert (plan_ok (fun _ => 0) demo_plan).
  { split; [done|by repeat constructor|done|]. left. split; reflexivity. }
  assert (sequence_ok demo_store demo_plan) by (split; vm_compute; congruence).
  split.
  - pose proof (SelectNext_exact (fun _ => 0) demo_store demo_plan None emptyAttempts) as Hsel.
    destruct (SelectNext (fun _ => 0) demo_store (Some demo_plan) None (Some emptyAttempts)).1
      as [s|e] eqn:E; [|by vm_compute in E].
    exists s. split; [done|]. vm_compute in E. by injection E as <-.
  - apply (SelectNext_exact (fun _ => 0) demo_store demo_plan None (mkAttempts [0; 0; 0; 0; 0] 1));
      [done..|]. split; simpl; [done|lia|]. apply NoDup_singleton.
Defined.
