(* ===== verification/Attempts.v ===== *)
(** * Attempts of one request ([internal/proxy/attempt.go], [retry.go], [route_transport.go])

    [executeAttempts] talks to the rest of the gateway: it selects endpoints,
    sends requests, takes retry permits, reports observations. It is a finite
    tree of such calls here, each with a continuation for every answer, and
    [play] runs a tree against an environment that answers from the history of
    the calls so far. The theorems hold for every environment, hence for every
    behaviour of the endpoints and every interleaving with other requests; the
    one thing assumed of it is what the plan promises of [SelectNext]. *)

From S2P Require Import Prelude GoStrings NetAddr Predicate Apportion Wrr HashKey Chash Url Resources X509 Fingerprint Health Budget Plan GoErrors.
#[local] Open Scope string_scope.
#[local] Open Scope Z_scope.
#[local] Open Scope list_scope.

(** ** Requests and responses *)

(** No body (nil or [http.NoBody]), one with [GetBody], or one without. *)
Inductive bodyKind := NoBody | ReplayableBody | StreamingBody.

Record outgoing := mkOutgoing { og_request : request; og_url : URL; og_body : bodyKind }.

(** The status, the header and the body, if any, by its number. *)
Record reply := mkReply { ry_status : Z; ry_header : gmap string (list string); ry_body : option nat }.

(** ** Classification ([retry.go]) *)

Inductive retryReason :=
| retryReasonNone | retryReasonConnectFailure | retryReasonConnectionFailure
| retryReasonResponseHeaderTimeout | retryReasonStatus.

Record attemptDecision := mkDecision { ad_retry : bool; ad_reason : retryReason; ad_observation : Observation }.

Definition classifyAttempt (policy : RetryPolicy) (response : option reply) (err : option goError) : attemptDecision :=
  let on := rp_retryOn policy in
  let passive kind status := mkObservation SourcePassive kind status in
  match err with
  | Some err =>
      if networkTimeout err
      then mkDecision (ro_responseHeaderTimeout on) retryReasonResponseHeaderTimeout (passive OutcomeTimeout 0)
      else if IsTLSFailure err
      then mkDecision (ro_connectionFailure on) retryReasonConnectionFailure (passive OutcomeTransportFailure 0)
      else if bool_decide (errors_As is_op err = Some "dial")
      then mkDecision (ro_connectFailure on) retryReasonConnectFailure (passive OutcomeTransportFailure 0)
      else if errors_Is err EOF || errors_Is err UnexpectedEOF || errors_Is err ECONNRESET || errors_Is err EPIPE
      then mkDecision (ro_connectionFailure on) retryReasonConnectionFailure (passive OutcomeTransportFailure 0)
      else mkDecision false retryReasonNone (passive OutcomeTransportFailure 0)
  | None =>
      match response with
      | None => mkDecision false retryReasonNone (passive OutcomeNeutral 0)
      | Some response =>
          if bool_decide (wrap16 (ry_status response) ∈ ro_statuses on)
          then mkDecision true retryReasonStatus (passive OutcomeSuccess (ry_status response))
          else mkDecision false retryReasonNone (passive OutcomeSuccess (ry_status response))
      end
  end.

Definition attemptOutcome (decision : attemptDecision) (err : option goError) : string :=
  match err with
  | Some _ => if bool_decide (ob_kind (ad_observation decision) = OutcomeTimeout) then "timeout" else "transport_failure"
  | None => if ad_retry decision then "retryable_status" else "success"
  end.

(** ** Calls *)

Inductive attemptError :=
| SelectError (e : selectError)
| CloneError
| RoundTripError (e : goError)
| LoopExhausted.

(** What [executeAttempts] leaves in the request state. *)
Record attemptState := mkAttemptState {
  at_attempts : Z;
  at_selection : option Selection;
  at_outcome : string;
  at_suppressed : string;
}.

Record attemptResult := mkAttemptResult {
  ar_response : option reply;
  ar_selection : option Selection;
  ar_error : option attemptError;
  ar_state : attemptState;
}.

Inductive calls :=
| Return (result : attemptResult)
| DoActivate (k : calls)
| DoCredit (k : calls)
| DoSelect (attempted : AttemptSet) (k : result selectError Selection → calls)
| DoGetBody (k : bool → calls)
| DoRoundTrip (selection : Selection) (request : outgoing) (k : option reply → option goError → calls)
| DoContextErr (k : bool → calls)
| DoAcquire (k : option nat → calls)
| DoRelease (permit : nat) (k : calls)
| DoObserve (selection : Selection) (observation : Observation) (k : calls)
| DoDrain (body : nat) (k : calls)
| DoCloseBody (body : nat) (k : calls).

Definition release (permit : option nat) (k : calls) : calls :=
  match permit with Some permit => DoRelease permit k | None => k end.

(** [drainRetryResponse] reads at most 32 KiB and one byte, and closes. *)
Definition drainRetryResponse (response : option reply) (k : calls) : calls :=
  match response ≫= ry_body with Some body => DoDrain body k | None => k end.

Definition closeBody (body : option nat) (k : calls) : calls :=
  match body with Some body => DoCloseBody body k | None => k end.

(** An [attemptClassifier]: its decision, and the response body it closes. *)
Record classifier := mkClassifier {
  cl_decide : RetryPolicy → option reply → option goError → attemptDecision;
  cl_closes : RetryPolicy → option reply → option goError → option nat;
}.

Definition plainClassifier : classifier := mkClassifier classifyAttempt (fun _ _ _ => None).

Section Attempts.
Context `{Unicode}.
Context (classifier : classifier).
#[local] Abbreviation classify := (cl_decide classifier).
Context (policy : RetryPolicy) (r : outgoing).

(** The request of one attempt; [None] when the body cannot be replayed. *)
Definition cloneAttemptRequest (selection : Selection) (attempt : Z) (k : option outgoing → calls) : calls :=
  let target := er_target (sel_endpoint selection) in
  let u := og_url r in
  let url := mkURL (u_scheme target) (u_opaque u) (u_user u) (u_host target) (u_path u) (u_rawPath u) (u_rawQuery u) (u_fragment u) in
  let cloned := mkOutgoing (og_request r) url (og_body r) in
  if (1 <? attempt) && negb (match og_body r with NoBody => true | _ => false end) then
    match og_body r with
    | ReplayableBody => DoGetBody (fun ok => k (if ok then Some cloned else None))
    | _ => k None
    end
  else k (Some cloned).

Definition retryEligible (k : bool → calls) : calls :=
  if rp_maxAttempts policy <=? 1 then k false
  else DoContextErr (fun expired =>
    if expired then k false
    else if negb (bool_decide (to_upper (req_method (og_request r)) ∈ rp_methods policy)) then k false
    else k (match og_body r with StreamingBody => false | _ => true end)).

Definition maxAttempts : Z :=
  let n := rp_maxAttempts policy in let n := if n <? 1 then 1 else n in if 5 <? n then 5 else n.

Definition suppress (st : attemptState) (reason : string) : attemptState :=
  mkAttemptState (at_attempts st) (at_selection st) (at_outcome st) reason.

(** Why an attempt worth retrying is the last. *)
Definition noteSuppression (eligible : bool) (attempt : Z) (decision : attemptDecision) (st : attemptState) : attemptState :=
  if negb eligible && ad_retry decision then suppress st "request_not_replayable"
  else if (attempt =? maxAttempts) && ad_retry decision then suppress st "attempt_limit"
  else st.

(** What the loop returns after the round trip of an attempt. *)
Definition finished (selection : Selection) (response : option reply) (err : option goError) (st : attemptState) : calls :=
  Return (mkAttemptResult response (Some selection) (RoundTripError <$> err) st).

(** The loop, with the rounds it has left. *)
Fixpoint attemptLoop (eligible : bool) (remaining : nat) (attempt : Z) (attempted : AttemptSet) (selection : Selection)
    (permit : option nat) (st : attemptState) : calls :=
  match remaining with
  | O => Return (mkAttemptResult None None (Some LoopExhausted) st)
  | S remaining =>
      match Add (Some attempted) (sel_ordinal selection) with
      | (Some attempted, true) =>
          let st := mkAttemptState attempt (Some selection) (at_outcome st) (at_suppressed st) in
          cloneAttemptRequest selection attempt (fun cloned =>
            match cloned with
            | None =>
                release permit (Return (mkAttemptResult None (Some selection) (Some CloneError) (suppress st "body_not_replayable")))
            | Some cloned =>
                DoRoundTrip selection cloned (fun response err =>
                  release permit (
                    let decision := classify policy response err in
                    closeBody (cl_closes classifier policy response err) (
                    DoObserve selection (ad_observation decision) (
                      let st := mkAttemptState (at_attempts st) (at_selection st) (attemptOutcome decision err) (at_suppressed st) in
                      let stop := finished selection response err (noteSuppression eligible attempt decision st) in
                      if negb eligible || negb (ad_retry decision) || (attempt =? maxAttempts) then stop
                      else DoContextErr (fun expired =>
                        if expired then stop
                        else DoAcquire (fun next =>
                          match next with
                          | None => finished selection response err (suppress st "budget")
                          | Some next =>
                              DoSelect attempted (fun choice =>
                                match choice with
                                | Err _ => DoRelease next (finished selection response err (suppress st "no_untried_endpoint"))
                                | Ok choice =>
                                    drainRetryResponse response
                                      (attemptLoop eligible remaining (attempt + 1) attempted choice (Some next) st)
                                end)
                          end))))))
            end)
      | _ =>
          release permit (Return (mkAttemptResult None (Some selection) (Some (SelectError ErrNoHealthyEndpoint)) st))
      end
  end.

Definition executeAttempts (st : attemptState) : calls :=
  retryEligible (fun eligible =>
    DoActivate (DoCredit (DoSelect emptyAttempts (fun choice =>
      match choice with
      | Err e => Return (mkAttemptResult None None (Some (SelectError e)) st)
      | Ok selection => attemptLoop eligible (Z.to_nat maxAttempts) 1 emptyAttempts selection None st
      end)))).
End Attempts.

(** ** Environments *)

Inductive callEvent :=
| Activated
| Credited
| Selected (attempted : AttemptSet) (choice : result selectError Selection)
| GotBody (ok : bool)
| RoundTripped (selection : Selection) (request : outgoing) (response : option reply) (err : option goError)
| ContextChecked (expired : bool)
| Acquired (permit : option nat)
| Released (permit : nat)
| Observed (selection : Selection) (observation : Observation)
| Drained (body : nat)
| BodyClosed (body : nat).

Record environment := mkEnvironment {
  on_select : list callEvent → AttemptSet → result selectError Selection;
  on_getBody : list callEvent → bool;
  on_roundTrip : list callEvent → Selection → outgoing → option reply * option goError;
  on_contextErr : list callEvent → bool;
  on_acquire : list callEvent → option nat;
}.

(** The calls made, in order, and the result. *)
Fixpoint play (env : environment) (history : list callEvent) (t : calls) : list callEvent * attemptResult :=
  match t with
  | Return result => (history, result)
  | DoActivate k => play env (history ++ [Activated]) k
  | DoCredit k => play env (history ++ [Credited]) k
  | DoSelect attempted k =>
      let choice := on_select env history attempted in play env (history ++ [Selected attempted choice]) (k choice)
  | DoGetBody k => let ok := on_getBody env history in play env (history ++ [GotBody ok]) (k ok)
  | DoRoundTrip selection request k =>
      let '(response, err) := on_roundTrip env history selection request in
      play env (history ++ [RoundTripped selection request response err]) (k response err)
  | DoContextErr k => let expired := on_contextErr env history in play env (history ++ [ContextChecked expired]) (k expired)
  | DoAcquire k => let permit := on_acquire env history in play env (history ++ [Acquired permit]) (k permit)
  | DoRelease permit k => play env (history ++ [Released permit]) k
  | DoObserve selection observation k => play env (history ++ [Observed selection observation]) k
  | DoDrain body k => play env (history ++ [Drained body]) k
  | DoCloseBody body k => play env (history ++ [BodyClosed body]) k
  end.

(** What a client of [SelectNext] relies on. *)
Class FreshSelection (env : environment) : Prop :=
  fresh_selection history a s : on_select env history a = Ok s → sel_ordinal s ∉ attempted_list a.

(** The upstream plan of the route as the environment's balancer; trackers and
    sequences are as the calls so far and all other requests have left them. *)
Definition planEnvironment (xxh64 : string → Z) (p : Plan) (r : request) (store_at : list callEvent → store)
    (env : environment) : environment :=
  mkEnvironment (fun history a => (SelectNext xxh64 (store_at history) (Some p) (Some r) (Some a)).1)
    (on_getBody env) (on_roundTrip env) (on_contextErr env) (on_acquire env).

Lemma wrr_probe_passes s filter start offset count o : wrr_probe s filter start offset count = Some o → filter o = true.
Proof.
  revert offset. induction count as [|count IH]; intros offset; simpl; [done|].
  destruct (filter (scheduleAt _ _)) eqn:E; [by intros [= <-]|apply IH].
Qed.

Lemma chash_probe_passes c filter n start offset count seen distinct o :
  chash_probe c filter n start offset count seen distinct = Some o → filter o = true.
Proof.
  revert offset seen distinct. induction count as [|count IH]; intros offset seen distinct; cbn [chash_probe]; [done|].
  destruct (negb _); [done|]. destruct (_ || _); [apply IH|]. destruct (filter (continuumAt _ _)) eqn:E; [by intros [= <-]|apply IH].
Qed.

Lemma chooseOrdinal_passes xxh64 st p r filter o fallback st' :
  chooseOrdinal xxh64 st p r filter = Some (Some o, fallback, st') → filter o = true.
Proof.
  unfold chooseOrdinal. destruct (String.eqb _ _).
  - unfold wrr_selectNext. destruct (wrr_schedule (p_wrr p)) as [|z l].
    + intros [= Ho _ _]. destruct (filter (wrr_direct _)) eqn:E; congruence.
    + destruct (claimSequence _) as [sequence start]. intros [= Ho _ _]. by apply (wrr_probe_passes (p_wrr p) filter start 0 (S (length l)) o).
  - destruct (String.eqb _ _); [|done]. destruct (sum64 _ _ _) as [sum used]. intros [= Ho _ _].
    unfold chash_selectNext in Ho. destruct (c_hashes _); [destruct (filter (c_direct _)) eqn:E; [congruence|done]|].
    cbv zeta in Ho. destruct (filter (continuumAt _ _)) eqn:E; [congruence|]. by eapply chash_probe_passes.
Qed.

(** The plan keeps the interface, in any state. *)
#[global] Instance planEnvironment_fresh xxh64 p r store_at env : FreshSelection (planEnvironment xxh64 p r store_at env).
Proof.
  intros history a s. cbn [on_select planEnvironment]. unfold SelectNext.
  destruct (p_endpoints p) as [|e0 es] eqn:Hes; [done|]. rewrite <-Hes.
  destruct (chooseOrdinal _ _ _ _ _) as [[[[o|] fallback] st']|] eqn:Hc; [|done|done].
  apply chooseOrdinal_passes in Hc. destruct (p_endpoints p !! Z.to_nat o) as [e|]; [|done]. intros [= <-]. cbn [sel_ordinal].
  unfold selectable in Hc. destruct (_ <=? _); [done|]. destruct (Contains (Some a) o) eqn:Hin; [done|].
  intros Hno%Contains_spec. congruence.
Qed.

(** ** Histories *)

Record trip := mkTrip { tp_selection : Selection; tp_request : outgoing; tp_response : option reply; tp_error : option goError }.

Definition trips (tr : list callEvent) : list trip :=
  omap (fun e => match e with RoundTripped s q response err => Some (mkTrip s q response err) | _ => None end) tr.
Definition acquired (tr : list callEvent) : list nat :=
  omap (fun e => match e with Acquired permit => permit | _ => None end) tr.
Definition released (tr : list callEvent) : list nat :=
  omap (fun e => match e with Released permit => Some permit | _ => None end) tr.
Definition observed (tr : list callEvent) : list (Selection * Observation) :=
  omap (fun e => match e with Observed s o => Some (s, o) | _ => None end) tr.
Definition drained (tr : list callEvent) : list nat :=
  omap (fun e => match e with Drained body => Some body | _ => None end) tr.
Definition tried (tr : list callEvent) : list Z := sel_ordinal ∘ tp_selection <$> trips tr.

Definition is_clone_error (res : attemptResult) : bool :=
  match ar_error res with Some CloneError => true | _ => false end.

(** The trips whose result was given up for another attempt. *)
Definition superseded (tr : list callEvent) (res : attemptResult) : list trip :=
  if is_clone_error res then trips tr else removelast (trips tr).

(** The tree leads to a further history and a result such that [P]. *)
Definition leads (env : environment) (h : list callEvent) (t : calls) (P : list callEvent → attemptResult → Prop) : Prop :=
  ∃ tr res, play env h t = (h ++ tr, res) ∧ P tr res.

Section Leads.
Context (env : environment).
Implicit Types (h : list callEvent) (P : list callEvent → attemptResult → Prop).

Lemma leads_return h res P : P [] res → leads env h (Return res) P.
Proof. intros HP. exists [], res. by rewrite app_nil_r. Qed.

Lemma leads_call h e t t' P : play env h t = play env (h ++ [e]) t' →
  leads env (h ++ [e]) t' (fun tr => P (e :: tr)) → leads env h t P.
Proof. intros Ht (tr & res & Hp & HP). exists (e :: tr), res. rewrite Ht, Hp, <-app_assoc. done. Qed.

Lemma leads_select h a k P : (∀ choice, choice = on_select env h a →
  leads env (h ++ [Selected a choice]) (k choice) (fun tr => P (Selected a choice :: tr))) → leads env h (DoSelect a k) P.
Proof. intros Hk. eapply leads_call; [|by apply Hk]. done. Qed.

Lemma leads_roundTrip h s q k P : (∀ response err,
  leads env (h ++ [RoundTripped s q response err]) (k response err) (fun tr => P (RoundTripped s q response err :: tr))) →
  leads env h (DoRoundTrip s q k) P.
Proof.
  intros Hk. destruct (on_roundTrip env h s q) as [response err] eqn:E.
  apply (leads_call h (RoundTripped s q response err) _ (k response err)); [|apply Hk]. cbn [play]. by rewrite E.
Qed.

Lemma leads_getBody h k P : (∀ ok, leads env (h ++ [GotBody ok]) (k ok) (fun tr => P (GotBody ok :: tr))) → leads env h (DoGetBody k) P.
Proof. intros Hk. eapply leads_call; [|apply Hk]. done. Qed.

Lemma leads_contextErr h k P : (∀ expired, leads env (h ++ [ContextChecked expired]) (k expired) (fun tr => P (ContextChecked expired :: tr))) →
  leads env h (DoContextErr k) P.
Proof. intros Hk. eapply leads_call; [|apply Hk]. done. Qed.

Lemma leads_acquire h k P : (∀ permit, leads env (h ++ [Acquired permit]) (k permit) (fun tr => P (Acquired permit :: tr))) →
  leads env h (DoAcquire k) P.
Proof. intros Hk. eapply leads_call; [|apply Hk]. done. Qed.

Lemma leads_observe h s o k P : leads env (h ++ [Observed s o]) k (fun tr => P (Observed s o :: tr)) → leads env h (DoObserve s o k) P.
Proof. by apply leads_call. Qed.

Lemma leads_activate h k P : leads env (h ++ [Activated]) k (fun tr => P (Activated :: tr)) → leads env h (DoActivate k) P.
Proof. by apply leads_call. Qed.

Lemma leads_credit h k P : leads env (h ++ [Credited]) k (fun tr => P (Credited :: tr)) → leads env h (DoCredit k) P.
Proof. by apply leads_call. Qed.

Lemma leads_released h p k P : leads env (h ++ [Released p]) k (fun tr => P (Released p :: tr)) → leads env h (DoRelease p k) P.
Proof. by apply leads_call. Qed.

Lemma leads_mono h t P P' : leads env h t P → (∀ tr res, P tr res → P' tr res) → leads env h t P'.
Proof. intros (tr & res & Hp & HP) Himp. exists tr, res. auto. Qed.

Definition released_events (permit : option nat) : list callEvent := match permit with Some p => [Released p] | None => [] end.
Definition drained_events (response : option reply) : list callEvent :=
  match response ≫= ry_body with Some body => [Drained body] | None => [] end.

Lemma leads_release h permit k P : leads env (h ++ released_events permit) k (fun tr => P (released_events permit ++ tr)) →
  leads env h (release permit k) P.
Proof. destruct permit as [p|]; simpl; [by apply leads_call|by rewrite app_nil_r]. Qed.

Definition closed_events (body : option nat) : list callEvent := match body with Some body => [BodyClosed body] | None => [] end.

Lemma leads_close h body k P : leads env (h ++ closed_events body) k (fun tr => P (closed_events body ++ tr)) →
  leads env h (closeBody body k) P.
Proof. destruct body as [b|]; simpl; [by apply leads_call|by rewrite app_nil_r]. Qed.

Lemma leads_drain h response k P : leads env (h ++ drained_events response) k (fun tr => P (drained_events response ++ tr)) →
  leads env h (drainRetryResponse response k) P.
Proof.
  unfold drainRetryResponse, drained_events. destruct (response ≫= ry_body); [by apply leads_call|by rewrite app_nil_r].
Qed.
End Leads.

(** ** The loop *)

Lemma superseded_cons t tr tr' res : trips tr = t :: trips tr' → is_clone_error res = true ∨ trips tr' ≠ [] →
  superseded tr res = t :: superseded tr' res.
Proof.
  intros Ht Hor. unfold superseded. rewrite Ht. destruct (is_clone_error res); [done|].
  destruct Hor as [?|Hne]; [done|]. simpl. by destruct (trips tr').
Qed.

(** Calls that leave no mark on the above. *)
Definition silent (tr : list callEvent) : Prop :=
  trips tr = [] ∧ acquired tr = [] ∧ released tr = [] ∧ observed tr = [] ∧ drained tr = [].

Section Loop.
Context `{Unicode}.
Context (classifier : classifier).
#[local] Abbreviation classify := (cl_decide classifier).
Context (policy : RetryPolicy) (r : outgoing).
Context (env : environment) {Hfresh : FreshSelection env}.

#[local] Abbreviation limit := (maxAttempts policy).
#[local] Abbreviation decision t := (classify policy (tp_response t) (tp_error t)).

(** The request of a trip is the client's, sent to the selected endpoint. *)
Definition addressed (t : trip) : Prop :=
  let target := er_target (sel_endpoint (tp_selection t)) in
  og_request (tp_request t) = og_request r ∧ og_body (tp_request t) = og_body r ∧
  u_scheme (og_url (tp_request t)) = u_scheme target ∧ u_host (og_url (tp_request t)) = u_host target ∧
  u_path (og_url (tp_request t)) = u_path (og_url r) ∧ u_rawQuery (og_url (tp_request t)) = u_rawQuery (og_url r).

(** What the loop has done when it returns. *)
Record loop_ok (eligible : bool) (attempt : Z) (attempted : list Z) (permit : option nat)
    (tr : list callEvent) (res : attemptResult) : Prop := {
  lk_distinct : NoDup (attempted ++ tried tr);
  lk_count : attempt - 1 + Z.of_nat (length (trips tr)) ≤ limit;
  lk_first : 1 ≤ Z.of_nat (length (trips tr)) ∨ is_clone_error res = true ∧ 1 < attempt;
  lk_eligible : eligible = false → (length (trips tr) ≤ 1)%nat ∧ is_clone_error res = false;
  lk_permits : released tr = option_list permit ++ acquired tr;
  lk_paid : (length (trips tr) ≤ S (length (acquired tr)))%nat;
  lk_observed : observed tr = (fun t => (tp_selection t, ad_observation (decision t))) <$> trips tr;
  lk_addressed : Forall addressed (trips tr);
  lk_retried : Forall (fun t => ad_retry (decision t) = true) (superseded tr res);
  lk_drained : drained tr = omap (fun t => tp_response t ≫= ry_body) (superseded tr res);
  lk_attempts : at_attempts (ar_state res) = attempt - 1 + Z.of_nat (length (trips tr)) + (if is_clone_error res then 1 else 0);
  lk_result : (is_clone_error res = true ∧ og_body r ≠ NoBody ∧ (og_body r = ReplayableBody → GotBody false ∈ tr)) ∨
    ∃ t, last (trips tr) = Some t ∧ ar_response res = tp_response t ∧ ar_selection res = Some (tp_selection t) ∧
      ar_error res = RoundTripError <$> tp_error t;
}.

(** One trip, after which the loop returns its result. *)
Lemma loop_ok_last eligible attempt attempted permit selection cloned response err tr st :
  NoDup (attempted ++ [sel_ordinal selection]) → attempt ≤ limit → addressed (mkTrip selection cloned response err) →
  at_attempts st = attempt →
  trips tr = [] → observed tr = [] → drained tr = [] → released tr = acquired tr →
  ∀ pre, silent pre →
  loop_ok eligible attempt attempted permit
    (pre ++ RoundTripped selection cloned response err :: released_events permit ++ closed_events (cl_closes classifier policy response err) ++
     Observed selection (ad_observation (classify policy response err)) :: tr)
    (mkAttemptResult response (Some selection) (RoundTripError <$> err) st).
Proof.
  intros Hnd Hle Hadr Hst Htr Hob Hdr Hrel pre (Hpt & Hpa & Hpr & Hpo & Hpd).
  set (full := pre ++ _).
  assert (Hf : trips full = [mkTrip selection cloned response err] ∧ released full = option_list permit ++ released tr ∧
    acquired full = acquired tr ∧ observed full = [(selection, ad_observation (classify policy response err))] ∧ drained full = []).
  { unfold full, trips, released, acquired, observed, drained in *. rewrite !omap_app. rewrite Hpt, Hpa, Hpr, Hpo, Hpd.
    destruct permit, (cl_closes classifier policy response err); csimpl; rewrite Htr, Hob, Hdr; done. }
  destruct Hf as (Et & Er & Ea & Eo & Ed). clearbody full.
  assert (Hclone : is_clone_error (mkAttemptResult response (Some selection) (RoundTripError <$> err) st) = false) by (by destruct err).
  split; unfold superseded, tried; rewrite ?Et, ?Er, ?Ea, ?Eo, ?Ed, ?Hclone, ?Hrel; try done.
  - simpl. lia.
  - by left.
  - simpl. lia.
  - by apply Forall_singleton.
  - simpl. lia.
  - right. by eexists.
Qed.

(** One trip, after which the loop goes on. *)
Lemma loop_ok_next attempt attempted permit selection cloned response err next a choice tr res :
  addressed (mkTrip selection cloned response err) → ad_retry (classify policy response err) = true →
  loop_ok true (attempt + 1) (attempted ++ [sel_ordinal selection]) (Some next) tr res →
  ∀ pre, silent pre →
  loop_ok true attempt attempted permit
    (pre ++ RoundTripped selection cloned response err :: released_events permit ++ closed_events (cl_closes classifier policy response err) ++
     Observed selection (ad_observation (classify policy response err)) :: ContextChecked false ::
     Acquired (Some next) :: Selected a choice :: drained_events response ++ tr) res.
Proof.
  intros Hadr Hretry Hok pre (Hpt & Hpa & Hpr & Hpo & Hpd). set (full := pre ++ _).
  assert (Hf : trips full = mkTrip selection cloned response err :: trips tr ∧ released full = option_list permit ++ released tr ∧
    acquired full = next :: acquired tr ∧
    observed full = (selection, ad_observation (classify policy response err)) :: observed tr ∧
    drained full = option_list (response ≫= ry_body) ++ drained tr).
  { unfold full, trips, released, acquired, observed, drained, drained_events in *. rewrite !omap_app. rewrite Hpt, Hpa, Hpr, Hpo, Hpd.
    destruct permit, (response ≫= ry_body), (cl_closes classifier policy response err); done. }
  assert (Hin : ∀ e, e ∈ tr → e ∈ full).
  { intros e He. unfold full. apply elem_of_app. right. apply list_elem_of_further. apply elem_of_app. right. apply elem_of_app. right.
    do 4 apply list_elem_of_further. apply elem_of_app. by right. }
  clearbody full. destruct Hf as (Et & Er & Ea & Eo & Ed).
  destruct Hok as [K1 K2 K3 K4 K5 K6 K7 K8 K9 K10 K11 K12].
  assert (Hsup : superseded full res = mkTrip selection cloned response err :: superseded tr res).
  { apply superseded_cons; [done|]. destruct K3 as [K3|[? _]]; [|by left]. right. intros Hnil. rewrite Hnil in K3. simpl in K3. lia. }
  split; rewrite ?Hsup, ?Er, ?Ea, ?Eo, ?Ed, ?Et; try done.
  - unfold tried in *. rewrite Et. simpl. by rewrite <-app_assoc in K1.
  - simpl. lia.
  - left. simpl. lia.
  - by rewrite K5.
  - simpl. lia.
  - csimpl. by rewrite K7.
  - by constructor.
  - by constructor.
  - csimpl. rewrite K10. by destruct (response ≫= ry_body).
  - simpl. rewrite K11. lia.
  - destruct K12 as [(? & ? & Hb)|(t & Hl & Hrest)]; [left; split_and!; auto|]. right. exists t. split; [|done].
    rewrite last_cons. by rewrite Hl.
Qed.

(** The body cannot be sent again. *)
Lemma loop_ok_clone attempt attempted permit selection st pre :
  NoDup (attempted ++ []) → 1 < attempt → attempt ≤ limit → at_attempts st = attempt → og_body r ≠ NoBody → (og_body r = ReplayableBody → GotBody false ∈ pre) →
  silent pre →
  loop_ok true attempt attempted permit (pre ++ released_events permit)
    (mkAttemptResult None (Some selection) (Some CloneError) st).
Proof.
  intros Hnd H1 Hle Hst Hsome Hbody (Hpt & Hpa & Hpr & Hpo & Hpd). set (full := pre ++ _).
  assert (Hf : trips full = [] ∧ released full = option_list permit ∧ acquired full = [] ∧ observed full = [] ∧ drained full = []).
  { unfold full, trips, released, acquired, observed, drained in *. rewrite !omap_app. rewrite Hpt, Hpa, Hpr, Hpo, Hpd. by destruct permit. }
  assert (Hin : ∀ e, e ∈ pre → e ∈ full) by (intros e He; apply elem_of_app; by left).
  clearbody full. destruct Hf as (Et & Er & Ea & Eo & Ed).
  split; unfold superseded, tried; rewrite ?Et, ?Er, ?Ea, ?Eo, ?Ed; try done; simpl.
  - lia.
  - by right.
  - by rewrite app_nil_r.
  - lia.
  - lia.
  - left. auto.
Qed.

Lemma leads_clone selection attempt k h P :
  (∀ pre cloned, silent pre → (∀ response err, addressed (mkTrip selection cloned response err)) →
     leads env (h ++ pre) (k (Some cloned)) (fun tr => P (pre ++ tr))) →
  (∀ pre, silent pre → 1 < attempt → og_body r ≠ NoBody → (og_body r = ReplayableBody → GotBody false ∈ pre) →
     leads env (h ++ pre) (k None) (fun tr => P (pre ++ tr))) →
  leads env h (cloneAttemptRequest r selection attempt k) P.
Proof.
  intros Hsome Hnone. unfold cloneAttemptRequest.
  assert (Hplain : ∀ pre cloned, pre = [] → leads env (h ++ pre) (k cloned) (fun tr => P (pre ++ tr)) → leads env h (k cloned) P)
    by (intros pre cloned ->; by rewrite app_nil_r).
  destruct (Z.ltb_spec 1 attempt) as [Hatt|]; [|apply (Hplain []); [done|by apply Hsome]].
  destruct (og_body r) eqn:Hb; cbn [negb andb].
  - apply (Hplain []); [done|]. apply Hsome; [done|]. intros response err. unfold addressed. by rewrite Hb.
  - apply leads_getBody. intros [|].
    + apply (Hsome [GotBody true]); [done|]. intros response err. unfold addressed. by rewrite Hb.
    + apply (Hnone [GotBody false]); [done..|]. intros _. by left.
  - apply (Hplain []); [done|]. by apply Hnone.
Qed.

Lemma attempted_length a : attempts_ok a → length (attempted_list a) = as_count a.
Proof. intros [Hs Hc _]. unfold attempted_list. rewrite length_take. lia. Qed.

(** The loop returns with everything in order, whatever the environment does. *)
Lemma attemptLoop_leads eligible remaining : ∀ attempt attempted selection permit st h,
  attempts_ok attempted → Z.of_nat (as_count attempted) = attempt - 1 → attempt + Z.of_nat remaining = limit + 1 →
  (0 < remaining)%nat → sel_ordinal selection ∉ attempted_list attempted → (1 < attempt → eligible = true) →
  (eligible = true → og_body r ≠ StreamingBody) →
  leads env h (attemptLoop classifier policy r eligible remaining attempt attempted selection permit st)
    (loop_ok eligible attempt (attempted_list attempted) permit).
Proof.
  assert (Hlimit : limit ≤ 5) by (unfold maxAttempts; repeat case_match; bool_hyps; lia).
  induction remaining as [|remaining IH]; intros attempt attempted selection permit st h Ha Hcount Hrem Hpos Hnew Hel Hbody; [lia|].
  cbn [attemptLoop]. pose proof (Add_cases attempted (sel_ordinal selection) Ha) as HA.
  destruct (Add _ _) as [[attempted'|] [|]]; [|exfalso; destruct HA as [_ [?|?]]; [done|lia]|done|done].
  destruct HA as (Ha' & Hlist & _). pose proof (ao_distinct _ Ha') as Hnd. rewrite Hlist in Hnd.
  pose proof (attempted_length _ Ha') as Hlen. rewrite Hlist, length_app, attempted_length in Hlen by done. simpl in Hlen.
  apply leads_clone.
  - intros pre cloned Hpre Hadr. apply leads_roundTrip. intros response err. apply leads_release.
    apply leads_close, leads_observe.
    assert (Hfinish : ∀ st' h tr, at_attempts st' = attempt → trips tr = [] → observed tr = [] → drained tr = [] →
      released tr = acquired tr → leads env h (finished selection response err st')
        (fun tr' => loop_ok eligible attempt (attempted_list attempted) permit
           (pre ++ RoundTripped selection cloned response err :: released_events permit ++ closed_events (cl_closes classifier policy response err) ++
            Observed selection (ad_observation (classify policy response err)) :: tr ++ tr'))).
    { intros st' h' tr Hst H1 H2 H3 H4. apply leads_return. rewrite app_nil_r. apply loop_ok_last; try done. lia. }
    cbv zeta. set (stop := finished _ _ _ (noteSuppression _ _ _ _ _)).
    assert (Hstop : ∀ h tr, silent tr → leads env h stop (fun tr' => loop_ok eligible attempt (attempted_list attempted) permit
      (pre ++ RoundTripped selection cloned response err :: released_events permit ++ closed_events (cl_closes classifier policy response err) ++
       Observed selection (ad_observation (classify policy response err)) :: tr ++ tr'))).
    { intros h' tr (H1 & H2 & H3 & H4 & H5). apply Hfinish; try done; [unfold noteSuppression; by repeat case_match|congruence]. }
    destruct (negb eligible || negb (ad_retry (classify policy response err)) || (attempt =? limit)) eqn:Hcond.
    { by apply (Hstop _ []). }
    bool_hyps. apply leads_contextErr. intros [|]; [by apply (Hstop _ [ContextChecked true])|].
    apply leads_acquire. intros [next|]; [|by apply (Hfinish _ _ [ContextChecked false; Acquired None])].
    apply leads_select. intros [choice|e] Hc;
      [|apply leads_released; by apply (Hfinish _ _ [ContextChecked false; Acquired (Some next); Selected attempted' (Err e); Released next])].
    apply leads_drain. eapply leads_mono; [apply IH; try done; try lia; by eapply Hfresh|].
    intros tr res Hok. rewrite Hlist in Hok. destruct eligible; [|done]. by apply loop_ok_next.
  - intros pre Hpre Hatt Hnone Hgot. rewrite (Hel Hatt). apply leads_release, leads_return. rewrite app_nil_r.
    apply loop_ok_clone; try done; [|lia]. rewrite app_nil_r. apply (ao_distinct _ Ha).
Qed.

Definition eligible_ok (eligible : bool) : Prop := eligible = true →
  1 < rp_maxAttempts policy ∧ to_upper (req_method (og_request r)) ∈ rp_methods policy ∧ og_body r ≠ StreamingBody.

Lemma leads_eligible k h P :
  (∀ pre eligible, silent pre → eligible_ok eligible → leads env (h ++ pre) (k eligible) (fun tr => P (pre ++ tr))) →
  leads env h (retryEligible policy r k) P.
Proof.
  intros Hk. unfold retryEligible. assert (Hnil : ∀ eligible, eligible_ok eligible → leads env h (k eligible) P).
  { intros eligible He. specialize (Hk [] eligible). rewrite app_nil_r in Hk. by apply Hk. }
  destruct (Z.leb_spec (rp_maxAttempts policy) 1); [by apply Hnil|]. apply leads_contextErr. intros [|]; [by apply (Hk [_])|].
  destruct (bool_decide _) eqn:Hm; cbn [negb]; [|by apply (Hk [_])]. bool_hyps.
  apply (Hk [_]); [done|]. unfold eligible_ok. destruct (og_body r); try done; intros _; split_and!; try done; lia.
Qed.

(** How [executeAttempts] ends: without an endpoint, or as the loop does. *)
Inductive attempts_end (tr : list callEvent) (res : attemptResult) : Prop :=
| end_select e : ar_error res = Some (SelectError e) → silent tr → attempts_end tr res
| end_loop eligible pre rest : eligible_ok eligible → silent pre → tr = pre ++ rest → loop_ok eligible 1 [] None rest res →
    attempts_end tr res.

Lemma limit_range : 1 ≤ limit ≤ 5.
Proof. unfold maxAttempts. repeat case_match; bool_hyps; lia. Qed.

Lemma executeAttempts_end st h : leads env h (executeAttempts classifier policy r st) attempts_end.
Proof.
  unfold executeAttempts. apply leads_eligible. intros pre eligible Hpre Hel.
  apply leads_activate, leads_credit, leads_select.
  intros choice Hc.
  assert (Hs : silent (pre ++ [Activated; Credited; Selected emptyAttempts choice])).
  { destruct Hpre as (H1 & H2 & H3 & H4 & H5). unfold silent, trips, acquired, released, observed, drained in *. rewrite !omap_app.
    by rewrite H1, H2, H3, H4, H5. }
  destruct choice as [selection|e].
  - pose proof limit_range. eapply leads_mono.
    + apply attemptLoop_leads; [apply emptyAttempts_ok|done|lia|lia|by eapply Hfresh|lia|]. intros E. by apply (Hel E).
    + intros tr res Hok. apply (end_loop _ _ eligible (pre ++ [Activated; Credited; Selected emptyAttempts (Ok selection)]) tr); [done|done| |done].
      by rewrite <-app_assoc.
  - apply leads_return. by apply (end_select _ _ e).
Qed.
End Loop.

(** ** The transport of the reverse proxy ([route_transport.go]) *)

Section RoundTrip.
Context `{Unicode} (xxh64 : string → Z).

(** [routeTransport.RoundTrip] for a request of a route with plan [p]. *)
Definition RoundTrip (policy : RetryPolicy) (r : outgoing) (st : attemptState) : calls :=
  executeAttempts plainClassifier policy r st.

Context (policy : RetryPolicy) (r : outgoing) (st : attemptState).
Context (p : Plan) (store_at : list callEvent → store) (env : environment).

#[local] Abbreviation history := (play (planEnvironment xxh64 p (og_request r) store_at env) [] (RoundTrip policy r st)).

Lemma history_end : attempts_end plainClassifier policy r history.1 history.2.
Proof.
  destruct (executeAttempts_end plainClassifier policy r (planEnvironment xxh64 p (og_request r) store_at env) st [])
    as (tr & res & Hplay & Hend). unfold RoundTrip. by rewrite Hplay.
Qed.

Lemma silent_app pre rest : silent pre → trips (pre ++ rest) = trips rest ∧ acquired (pre ++ rest) = acquired rest ∧
  released (pre ++ rest) = released rest ∧ observed (pre ++ rest) = observed rest ∧ drained (pre ++ rest) = drained rest.
Proof.
  intros (H1 & H2 & H3 & H4 & H5). unfold trips, acquired, released, observed, drained in *. rewrite !omap_app.
  by rewrite H1, H2, H3, H4, H5.
Qed.

(** C9: Whatever the endpoints answer and other requests do, a proxied request
    is sent to pairwise distinct endpoints, at most five and at most the
    policy's number of times, each time with the client's method, headers, path
    and query and the endpoint's scheme and authority. It is sent more than
    once only when the policy allows its method to be retried and its body can
    be replayed, every further attempt holds a permit of the retry budget, and
    every attempt but the last ended in a way the policy retries on. *)
Theorem attempts_safe : let '(tr, res) := history in
  NoDup (tried tr) ∧ Z.of_nat (length (trips tr)) ≤ Z.min 5 (Z.max 1 (rp_maxAttempts policy)) ∧
  Forall (addressed r) (trips tr) ∧
  ((1 < length (trips tr))%nat → 1 < rp_maxAttempts policy ∧
     to_upper (req_method (og_request r)) ∈ rp_methods policy ∧ og_body r ≠ StreamingBody) ∧
  (length (trips tr) ≤ S (length (acquired tr)))%nat ∧
  Forall (fun t => ad_retry (classifyAttempt policy (tp_response t) (tp_error t)) = true) (removelast (trips tr)).
Proof.
  destruct history_end as [e _ (H1 & _)|eligible pre rest Hel Hpre Etr Hok].
  { destruct history as [tr res]. simpl in *. unfold tried. rewrite H1. simpl. split_and!; try done; [constructor|lia..]. }
  destruct history as [tr res]. simpl in *. destruct (silent_app pre rest Hpre) as (E1 & E2 & _ & _ & _). rewrite <-Etr in *.
  destruct Hok as [K1 K2 K3 K4 K5 K6 K7 K8 K9 K10 K11 K12]. unfold tried in *. rewrite E1, E2. split_and!; try done.
  - assert (limit_min : maxAttempts policy = Z.min 5 (Z.max 1 (rp_maxAttempts policy)))
      by (unfold maxAttempts; repeat case_match; bool_hyps; lia). lia.
  - intros Hmany. apply Hel. destruct eligible; [done|]. destruct (K4 eq_refl). lia.
  - unfold superseded in K9. destruct (is_clone_error res); [|done]. rewrite removelast_firstn_len. by apply Forall_take.
Qed.

(** C13: The bookkeeping of a proxied request is exact: every retry permit it
    acquires is released, in order; every round trip is reported once to the
    health tracker of its endpoint, with its classification; the responses
    given up for another attempt are drained and closed, the others are not.
    The loop never runs out of rounds: the call returns the response and error
    of the last round trip, unless no endpoint could be selected at first or
    the body could not be replayed. *)
Theorem attempts_accounted : let '(tr, res) := history in
  released tr = acquired tr ∧
  observed tr = (fun t => (tp_selection t, ad_observation (classifyAttempt policy (tp_response t) (tp_error t)))) <$> trips tr ∧
  drained tr = omap (fun t => tp_response t ≫= ry_body) (superseded tr res) ∧
  (trips tr = [] ∧ (∃ e, ar_error res = Some (SelectError e)) ∨
   ar_error res = Some CloneError ∧ GotBody false ∈ tr ∧ (1 ≤ length (trips tr))%nat ∨
   ∃ t, last (trips tr) = Some t ∧ ar_response res = tp_response t ∧ ar_error res = RoundTripError <$> tp_error t ∧
     at_attempts (ar_state res) = Z.of_nat (length (trips tr))).
Proof.
  destruct history_end as [e He (H1 & H2 & H3 & H4 & H5)|eligible pre rest Hel Hpre Etr Hok].
  { destruct history as [tr res]. simpl in *. unfold superseded. rewrite H1, H2, H3, H4, H5. split_and!; [done..| |left; eauto].
    by destruct (is_clone_error res). }
  destruct history as [tr res]. simpl in *. destruct (silent_app pre rest Hpre) as (E1 & E2 & E3 & E4 & E5). rewrite <-Etr in *.
  destruct Hok as [K1 K2 K3 K4 K5 K6 K7 K8 K9 K10 K11 K12]. unfold superseded in *. rewrite E1, E2, E3, E4, E5. split_and!; try done.
  right. assert (Hclone : is_clone_error res = true ↔ ar_error res = Some CloneError)
    by (unfold is_clone_error; destruct (ar_error res) as [[]|]; naive_solver).
  destruct K12 as [(Hc & Hbody & Hgot)|(t & Hl & Hresp & _ & Herr)].
  - left. split; [by apply Hclone|]. destruct eligible; [|by destruct (K4 eq_refl) as [_ ?]; congruence].
    destruct (Hel eq_refl) as (_ & _ & Hstream). split; [|destruct K3; [|lia]; lia].
    rewrite Etr. apply elem_of_app. right. apply Hgot. by destruct (og_body r).
  - right. exists t. split_and!; try done. rewrite K11. assert (is_clone_error res = false) as ->; [|lia].
    unfold is_clone_error. rewrite Herr. by destruct (tp_error t).
Qed.
End RoundTrip.
