(* ===== verification/Registry.v ===== *)
(** * The upstream registry ([internal/upstream/registry.go])

    The registry prepares candidate generations transactionally and shares
    endpoint, transport, selection, health and retry runtimes between them by
    key.  This file holds its data and the operations that run under its mutex:
    [Prepare] with its rollback, and the release of owned references.  The
    lifecycle of plan sets, the reaper and the tunnel leases, which interleave
    with them, are in [Lifecycle]. *)

From S2P Require Import Prelude GoStrings NetAddr Predicate Apportion Wrr HashKey Chash Url Resources UpstreamConfig X509 Fingerprint Health Budget RefTable Plan.
#[local] Open Scope string_scope.
#[local] Open Scope Z_scope.
#[local] Open Scope list_scope.

(** ** Data *)

(** [selectionKey]: upstream identifier and algorithm. *)
Definition selectionKey : Type := string * string.
#[global] Instance selectionKey_eq_dec : EqDecision selectionKey := prod_eq_dec.
#[global] Instance selectionKey_countable : Countable selectionKey := prod_countable.

(** The five maps; a health entry holds its tracker and its registration. *)
Record tables := mkTables {
  t_endpoints : gmap string (entry endpointRuntime);
  t_transports : gmap transportKey (entry nat);
  t_selections : gmap selectionKey (entry nat);
  t_health : gmap healthKey (entry (nat * nat));
  t_budgets : gmap budgetKey (entry nat);
}.

Definition emptyTables : tables := mkTables ∅ ∅ ∅ ∅ ∅.

Record resourceRefs := mkRefs {
  o_endpointIDs : list string;
  o_transportKeys : list transportKey;
  o_selectionKeys : list selectionKey;
  o_healthKeys : list healthKey;
  o_budgetKeys : list budgetKey;
}.

Definition noRefs : resourceRefs := mkRefs [] [] [] [] [].

Record RegistryStats := mkRegistryStats {
  LiveEndpoints : Z;
  LiveTransports : Z;
  LiveSelectionStates : Z;
  LiveHealthTrackers : Z;
  LiveRetryBudgets : Z;
  ActivePlanSets : Z;
  RetiredPlanSets : Z;
  LiveTunnelLeases : Z;
}.

Record TransportGenerationDelta := mkDelta {
  d_action : string;
  d_tls : bool;
  d_protocol : string;
  d_count : Z;
}.

(** The counters of [PrepareStats]. *)
Inductive prepareCounter :=
| CreatedEndpoints | ReusedEndpoints | CreatedTransports | ReusedTransports
| CreatedSelections | ReusedSelections | WRRSlots | HashPoints
| CreatedHealthTrackers | ReusedHealthTrackers | CreatedRetryBudgets | ReusedRetryBudgets.

#[global] Instance prepareCounter_eq_dec : EqDecision prepareCounter.
Proof. solve_decision. Defined.

Record PrepareStats := mkPrepareStats {
  ps_count : prepareCounter → Z;
  ps_transportGenerations : list TransportGenerationDelta;
  ps_current : option RegistryStats;
}.

Record CleanupStats := mkCleanup {
  ReleasedEndpoints : Z;
  ReleasedTransports : Z;
  ClosedTransports : Z;
  ReleasedHealthTrackers : Z;
  ReleasedRetryBudgets : Z;
  cs_transportGenerations : list TransportGenerationDelta;
}.

(** The callbacks of the [Observer], with the statistics they receive. *)
Inductive notification :=
| RegistryPrepared (stats : PrepareStats)
| RegistryRolledBack (stats : PrepareStats)
| RegistryRetired (stats : RegistryStats)
| RegistryCleaned (stats : CleanupStats) (current : RegistryStats)
| RegistryError (code : string).

Inductive prepareError :=
| ConfigFailure (e : ConfigError)
| PlainFailure.

Record Registry := mkRegistry {
  r_maxRetiredSnapshots : Z;
  r_observer : bool;
  r_closed : bool;
  r_tables : tables;
  r_store : store;
  r_generation : Z;
  r_activePlanSets : Z;
  r_liveTunnelLeases : Z;
  r_retired : list nat;
}.

Definition MaxSnapshotWRRSlots : Z := 8000000.
Definition MaxSnapshotHashPoints : Z := 8000000.

(** ** Statistics *)

Definition zeroPrepareStats : PrepareStats := mkPrepareStats (fun _ => 0) [] None.
Definition zeroCleanup : CleanupStats := mkCleanup 0 0 0 0 0 [].

Definition bump (c : prepareCounter) (n : Z) (s : PrepareStats) : PrepareStats :=
  mkPrepareStats (fun c' => if decide (c' = c) then ps_count s c + n else ps_count s c')
    (ps_transportGenerations s) (ps_current s).

Fixpoint mergeDelta (deltas : list TransportGenerationDelta) (d : TransportGenerationDelta)
    : list TransportGenerationDelta :=
  match deltas with
  | [] => [d]
  | d' :: deltas =>
      if String.eqb (d_action d') (d_action d) && Bool.eqb (d_tls d') (d_tls d)
         && String.eqb (d_protocol d') (d_protocol d)
      then mkDelta (d_action d') (d_tls d') (d_protocol d') (d_count d' + d_count d) :: deltas
      else d' :: mergeDelta deltas d
  end.

Definition addTransportGenerationDelta (deltas : list TransportGenerationDelta)
    (d : TransportGenerationDelta) : list TransportGenerationDelta :=
  if d_count d <=? 0 then deltas else mergeDelta deltas d.

Definition bumpDelta (action : string) (key : transportKey) (s : PrepareStats) : PrepareStats :=
  mkPrepareStats (ps_count s)
    (addTransportGenerationDelta (ps_transportGenerations s)
       (mkDelta action (tk_tlsEnabled key) (tk_protocol key) 1)) (ps_current s).

Definition with_current (s : PrepareStats) (current : RegistryStats) : PrepareStats :=
  mkPrepareStats (ps_count s) (ps_transportGenerations s) (Some current).

Definition msize {K A} `{Countable K} (m : gmap K A) : Z := Z.of_nat (size m).

Definition statsLocked (r : Registry) : RegistryStats :=
  let t := r_tables r in
  mkRegistryStats (msize (t_endpoints t)) (msize (t_transports t)) (msize (t_selections t))
    (msize (t_health t)) (msize (t_budgets t)) (r_activePlanSets r) (zlen (r_retired r))
    (r_liveTunnelLeases r).

(** ** Construction and admission *)

Definition emptyStore : store := mkStore 0 ∅ ∅ ∅ ∅ ∅.

(** [newHealthCoordinator] refuses the same bounds before starting workers. *)
Definition NewRegistry (maxRetired workers queue : Z) (observer : bool) : option Registry :=
  if (maxRetired <? 1) || (1024 <? maxRetired) then None
  else if (workers <? 1) || (256 <? workers) then None
  else if (queue <? 1) || (65536 <? queue) then None
  else Some (mkRegistry maxRetired observer false emptyTables emptyStore 0 0 0 []).

Definition prepareErrorLocked (r : Registry) : option ConfigError :=
  if r_closed r then Some (mkConfigError "REGISTRY_CLOSED" "upstreams" "")
  else if r_maxRetiredSnapshots r <=? zlen (r_retired r)
  then Some (mkConfigError "RETIRED_SNAPSHOT_LIMIT" "runtime.max_retired_snapshots" "")
  else None.

Definition configErrorCode (e : prepareError) : string :=
  match e with ConfigFailure e => ce_code e | PlainFailure => "REGISTRY_PREPARE_FAILED" end.

(** A notification goes out when an observer is configured. *)
Definition notify (r : Registry) (n : notification) : list notification :=
  if r_observer r then [n] else [].

(** ** Endpoint runtimes ([endpoint.go]) *)

Definition newEndpointRuntime (upstreamID : string) (e : Endpoint) : option endpointRuntime :=
  target ← url_Parse (ep_url e);
  if (negb (String.eqb (u_scheme target) "http") && negb (String.eqb (u_scheme target) "https"))
     || String.eqb (u_host target) "" then None
  else Some (mkEndpointRuntime (endpointIdentity upstreamID (ep_url e)) target).

(** ** The prepare transaction *)

(** The state [preparePlanLocked] threads: the registry's maps, the objects,
    the health generation, and the candidate's references and statistics. *)
Record prepareTx := mkTx {
  x_tables : tables;
  x_store : store;
  x_generation : Z;
  x_owned : resourceRefs;
  x_stats : PrepareStats;
}.

Definition newTransportRuntime (profile : transportProfile) : transportRuntime :=
  mkTransportRuntime (makeTransportKey profile)
    (bool_decide (is_Some (pr_clientCertificate profile)))
    (String.eqb (pr_protocol profile) TransportProtocolAuto
     || String.eqb (pr_protocol profile) TransportProtocolHTTP1) false.

Definition acquireTransport (profile : transportProfile) (x : prepareTx) : nat * prepareTx :=
  let key := makeTransportKey profile in
  let '(mkTables es ts ss hs bs) := x_tables x in
  let st := x_store x in
  let '(address, st, stats) :=
    match ts !! key with
    | None =>
        (s_next st,
         mkStore (S (s_next st)) (<[s_next st := newTransportRuntime profile]> (s_transports st))
           (s_sequences st) (s_trackers st) (s_registrations st) (s_budgets st),
         bumpDelta "create" key (bump CreatedTransports 1 (x_stats x)))
    | Some e => (e_runtime e, st, bumpDelta "reuse" key (bump ReusedTransports 1 (x_stats x)))
    end in
  let o := x_owned x in
  (address,
   mkTx (mkTables es (table_acquire ts key address) ss hs bs) st (x_generation x)
     (mkRefs (o_endpointIDs o) (o_transportKeys o ++ [key]) (o_selectionKeys o) (o_healthKeys o)
        (o_budgetKeys o)) stats).

Definition acquireSelection (key : selectionKey) (x : prepareTx) : nat * prepareTx :=
  let '(mkTables es ts ss hs bs) := x_tables x in
  let st := x_store x in
  let '(address, st, stats) :=
    match ss !! key with
    | None =>
        (s_next st,
         mkStore (S (s_next st)) (s_transports st) (<[s_next st := 0]> (s_sequences st))
           (s_trackers st) (s_registrations st) (s_budgets st),
         bump CreatedSelections 1 (x_stats x))
    | Some e => (e_runtime e, st, bump ReusedSelections 1 (x_stats x))
    end in
  let o := x_owned x in
  (address,
   mkTx (mkTables es ts (table_acquire ss key address) hs bs) st (x_generation x)
     (mkRefs (o_endpointIDs o) (o_transportKeys o) (o_selectionKeys o ++ [key]) (o_healthKeys o)
        (o_budgetKeys o)) stats).

(** The runtime of an endpoint; on failure nothing was acquired for it. *)
Definition acquireEndpoint (upstreamID : string) (e : Endpoint) (x : prepareTx)
    : option (endpointRuntime * prepareTx) :=
  let identity := endpointIdentity upstreamID (ep_url e) in
  let '(mkTables es ts ss hs bs) := x_tables x in
  '(runtime, stats) ←
    match es !! identity with
    | None =>
        runtime ← newEndpointRuntime upstreamID e;
        Some (runtime, bump CreatedEndpoints 1 (x_stats x))
    | Some entry => Some (e_runtime entry, bump ReusedEndpoints 1 (x_stats x))
    end;
  let o := x_owned x in
  Some (runtime,
        mkTx (mkTables (table_acquire es identity runtime) ts ss hs bs) (x_store x) (x_generation x)
          (mkRefs (o_endpointIDs o ++ [identity]) (o_transportKeys o) (o_selectionKeys o)
             (o_healthKeys o) (o_budgetKeys o)) stats).

Section Prepare.
(** The third-party digests. *)
Context (xxh64 : string → Z) (sha256 : string → string).

(** The tracker and registration of a positive-weight endpoint. *)
Definition acquireHealth (identity : string) (runtime : endpointRuntime) (policy : HealthPolicy)
    (active : ActiveHealthPolicy) (key : transportKey) (transport : nat) (x : prepareTx)
    : nat * prepareTx :=
  let healthKey := makeHealthKey sha256 identity policy key in
  let '(mkTables es ts ss hs bs) := x_tables x in
  let st := x_store x in
  let '(runtimes, st, generation, stats) :=
    match hs !! healthKey with
    | None =>
        let generation := wrap64 (x_generation x + 1) in
        let tracker := s_next st in
        let registration := S (s_next st) in
        ((tracker, registration),
         mkStore (S (S (s_next st))) (s_transports st) (s_sequences st)
           (<[tracker := newEndpointHealth identity policy generation]> (s_trackers st))
           (<[registration := mkRegistration identity (er_target runtime) generation active
                                transport tracker false false]> (s_registrations st))
           (s_budgets st),
         generation, bump CreatedHealthTrackers 1 (x_stats x))
    | Some e => (e_runtime e, st, x_generation x, bump ReusedHealthTrackers 1 (x_stats x))
    end in
  let o := x_owned x in
  (runtimes.1,
   mkTx (mkTables es ts ss (table_acquire hs healthKey runtimes) bs) st generation
     (mkRefs (o_endpointIDs o) (o_transportKeys o) (o_selectionKeys o)
        (o_healthKeys o ++ [healthKey]) (o_budgetKeys o)) stats).

Definition acquireBudget (upstreamID : string) (policy : RetryBudgetPolicy) (x : prepareTx)
    : nat * prepareTx :=
  let key := makeBudgetKey sha256 upstreamID policy in
  let '(mkTables es ts ss hs bs) := x_tables x in
  let st := x_store x in
  let '(address, st, stats) :=
    match bs !! key with
    | None =>
        (s_next st,
         mkStore (S (s_next st)) (s_transports st) (s_sequences st) (s_trackers st)
           (s_registrations st) (<[s_next st := newRetryBudget policy]> (s_budgets st)),
         bump CreatedRetryBudgets 1 (x_stats x))
    | Some e => (e_runtime e, st, bump ReusedRetryBudgets 1 (x_stats x))
    end in
  let o := x_owned x in
  (address,
   mkTx (mkTables es ts ss hs (table_acquire bs key address)) st (x_generation x)
     (mkRefs (o_endpointIDs o) (o_transportKeys o) (o_selectionKeys o) (o_healthKeys o)
        (o_budgetKeys o ++ [key])) stats).

(** The health part of one round of the endpoint loop. *)
Definition prepareHealth (u : Upstream) (key : transportKey) (transport : nat) (identity : string)
    (runtime : endpointRuntime) (x : prepareTx) : option nat * prepareTx :=
  match hp_active (up_health u) with
  | None => (None, x)
  | Some active =>
      let '(tracker, x) := acquireHealth identity runtime (up_health u) active key transport x in
      (Some tracker, x)
  end.

Fixpoint prepareEndpoints (u : Upstream) (key : transportKey) (transport : nat)
    (endpoints : list Endpoint) (x : prepareTx) : option (list planEndpoint) * prepareTx :=
  match endpoints with
  | [] => (Some [], x)
  | e :: endpoints =>
      match acquireEndpoint (up_id u) e x with
      | None => (None, x)
      | Some (runtime, x) =>
          if 0 <? ep_weight e then
            let identity := endpointIdentity (up_id u) (ep_url e) in
            let '(health, x) := prepareHealth u key transport identity runtime x in
            let '(rest, x) := prepareEndpoints u key transport endpoints x in
            (cons (mkPlanEndpoint runtime health identity (ep_weight e)) <$> rest, x)
          else prepareEndpoints u key transport endpoints x
      end
  end.

Definition prepareBudget (u : Upstream) (x : prepareTx) : option nat * prepareTx :=
  let policy := rp_budget (up_retry u) in
  if (0 <? rb_burst policy) && (0 <? rb_maxInflight policy) then
    let '(address, x) := acquireBudget (up_id u) policy x in (Some address, x)
  else (None, x).

(** The registrations of the endpoints with a tracker, found by key. *)
Definition planRegistrations (u : Upstream) (key : transportKey) (t : tables)
    (endpoints : list planEndpoint) : list nat :=
  omap (fun e =>
    match pe_health e with
    | None => None
    | Some _ =>
        entry ← t_health t !! makeHealthKey sha256 (pe_identity e) (up_health u) key;
        Some (e_runtime entry).2
    end) endpoints.

Definition noContinuum : continuum := mkContinuum [] [] 0.

(** The balancer of the plan: selector, continuum and hash key. *)
Definition compileBalancer (u : Upstream) (endpoints : list planEndpoint) (selection : nat)
    : result prepareError (wrrSelector * continuum * list HashKeySource) :=
  let weighted := weightedOf endpoints in
  if String.eqb (bp_type (up_balancer u)) BalancerWeightedRoundRobin then
    match compileWRR weighted (Some selection) with
    | Err _ => Err PlainFailure
    | Ok selector => Ok (selector, noContinuum, [])
    end
  else if String.eqb (bp_type (up_balancer u)) BalancerConsistentHash then
    match compileHashKey (bp_sources (up_balancer u)) with
    | Err e => Err (ConfigFailure e)
    | Ok extractor =>
        match compileContinuum xxh64 weighted with
        | Err _ => Err PlainFailure
        | Ok compiled => Ok (mkSelector selection [] 0, compiled, extractor)
        end
    end
  else Err (ConfigFailure (mkConfigError "BALANCER_TYPE_INVALID" "upstreams" (up_id u))).

Definition preparePlanLocked (u : Upstream) (profile : transportProfile) (x : prepareTx)
    : result prepareError Plan * prepareTx :=
  let key := makeTransportKey profile in
  let '(transport, x) := acquireTransport profile x in
  let '(selection, x) := acquireSelection (up_id u, bp_type (up_balancer u)) x in
  match prepareEndpoints u key transport (up_endpoints u) x with
  | (None, x) => (Err PlainFailure, x)
  | (Some endpoints, x) =>
      let '(budget, x) := prepareBudget u x in
      let registrations := planRegistrations u key (x_tables x) endpoints in
      (('(selector, compiled, extractor) ← compileBalancer u endpoints selection;
        Ok (mkPlan (up_id u) (bp_type (up_balancer u)) endpoints transport key selector compiled
              extractor registrations budget)), x)
  end.

Definition add_slots (p : Plan) (x : prepareTx) : prepareTx :=
  mkTx (x_tables x) (x_store x) (x_generation x) (x_owned x)
    (bump HashPoints (zlen (c_hashes (p_continuum p)))
       (bump WRRSlots (zlen (wrr_schedule (p_wrr p))) (x_stats x))).

Definition overBudget (s : PrepareStats) : bool :=
  (MaxSnapshotWRRSlots <? ps_count s WRRSlots) || (MaxSnapshotHashPoints <? ps_count s HashPoints).

(** The loop over the normalised upstreams; on failure the transaction keeps
    what was acquired up to there. *)
Fixpoint prepareUpstreams (materials : materialIndex) (us : list Upstream) (plans : gmap string Plan)
    (x : prepareTx) : result prepareError (gmap string Plan) * prepareTx :=
  match us with
  | [] => (Ok plans, x)
  | u :: us =>
      match compileTransportProfile u materials with
      | Err e => (Err (ConfigFailure e), x)
      | Ok profile =>
          match preparePlanLocked u profile x with
          | (Err e, x) => (Err e, x)
          | (Ok plan, x) =>
              let x := add_slots plan x in
              if overBudget (x_stats x)
              then (Err (ConfigFailure
                      (mkConfigError "BALANCER_BUDGET_EXCEEDED" "upstreams" (up_id u))), x)
              else prepareUpstreams materials us (<[up_id u := plan]> plans) x
          end
      end
  end.

(** ** Releasing owned references *)

(** [healthRegistration.Retire] *)
Definition retireRegistration (st : store) (address : nat) : store :=
  match s_registrations st !! address with
  | None => st
  | Some g =>
      if hr_retired g then st
      else
        mkStore (s_next st) (s_transports st) (s_sequences st)
          (alter health_Retire (hr_health g) (s_trackers st))
          (<[address := mkRegistration (hr_identity g) (hr_target g) (hr_generation g) (hr_policy g)
                          (hr_transport g) (hr_health g) (hr_activated g) true]> (s_registrations st))
          (s_budgets st)
  end.

(** [transportRuntime.CloseIdleConnections] *)
Definition closeTransport (st : store) (address : nat) : store :=
  mkStore (s_next st)
    (alter (fun tr => mkTransportRuntime (tr_key tr) (tr_mtls tr) (tr_upgrade tr) true) address
       (s_transports st))
    (s_sequences st) (s_trackers st) (s_registrations st) (s_budgets st).

Definition closeTransports (st : store) (addresses : list nat) : store :=
  foldl closeTransport st addresses.

Definition retireDelta (deltas : list TransportGenerationDelta) (key : transportKey)
    : list TransportGenerationDelta :=
  addTransportGenerationDelta deltas (mkDelta "retire" (tk_tlsEnabled key) (tk_protocol key) 1).

(** The maps and objects after the release, the deltas, and the transports to
    close once the mutex is free; [None] is a reference underflow panic. *)
Definition releaseRefsLocked (t : tables) (st : store) (owned : resourceRefs)
    : option (tables * store * CleanupStats * list nat) :=
  '(es, _) ← table_releaseAll (t_endpoints t) (o_endpointIDs owned);
  '(ts, closed) ← table_releaseAll (t_transports t) (o_transportKeys owned);
  '(ss, _) ← table_releaseAll (t_selections t) (o_selectionKeys owned);
  '(hs, retired) ← table_releaseAll (t_health t) (o_healthKeys owned);
  '(bs, _) ← table_releaseAll (t_budgets t) (o_budgetKeys owned);
  Some (mkTables es ts ss hs bs,
        foldl retireRegistration st ((fun kr => kr.2.2) <$> retired),
        mkCleanup (zlen (o_endpointIDs owned)) (zlen (o_transportKeys owned)) (zlen closed)
          (zlen (o_healthKeys owned)) (zlen (o_budgetKeys owned))
          (foldl retireDelta [] closed.*1),
        closed.*2).

Definition set_runtime (r : Registry) (t : tables) (st : store) (generation : Z) : Registry :=
  mkRegistry (r_maxRetiredSnapshots r) (r_observer r) (r_closed r) t st generation
    (r_activePlanSets r) (r_liveTunnelLeases r) (r_retired r).

(** ** [Prepare] *)

Record Candidate := mkCandidate {
  c_plans : gmap string Plan;
  c_owned : resourceRefs;
  c_stats : PrepareStats;
  c_done : bool;
}.

(** The outcome of a call: the registry, the notifications in order, and the
    candidate or the error; the outer [None] is a panic. *)
Definition rollbackLocked (r : Registry) (x : prepareTx) (e : prepareError)
    : option (Registry * list notification * result prepareError Candidate) :=
  '(t, st, cleanup, transports) ← releaseRefsLocked (x_tables x) (x_store x) (x_owned x);
  let r := set_runtime r t (closeTransports st transports) (x_generation x) in
  let current := statsLocked r in
  Some (r, notify r (RegistryCleaned cleanup current)
           ++ notify r (RegistryRolledBack (with_current (x_stats x) current))
           ++ notify r (RegistryError (configErrorCode e)),
        Err e).

Definition prepareFails (r : Registry) (e : ConfigError)
    : option (Registry * list notification * result prepareError Candidate) :=
  Some (r, notify r (RegistryError (ce_code e)), Err (ConfigFailure e)).

Context `{Unicode}.

Definition Prepare (r : Registry) (upstreams : list Upstream)
    (certificates : list (option Certificate)) (trustBundles : list (option TrustBundle))
    : option (Registry * list notification * result prepareError Candidate) :=
  match prepareErrorLocked r with
  | Some e => prepareFails r e
  | None =>
      match Normalize upstreams with
      | Err e => prepareFails r e
      | Ok normalized =>
          match newMaterialIndex certificates trustBundles with
          | Err e => prepareFails r e
          | Ok materials =>
              let x := mkTx (r_tables r) (r_store r) (r_generation r) noRefs zeroPrepareStats in
              match prepareUpstreams materials normalized ∅ x with
              | (Err e, x) => rollbackLocked r x e
              | (Ok plans, x) =>
                  let r := set_runtime r (x_tables x) (x_store x) (x_generation x) in
                  let stats := with_current (x_stats x) (statsLocked r) in
                  Some (r, notify r (RegistryPrepared stats),
                        Ok (mkCandidate plans (x_owned x) stats false))
              end
          end
      end
  end.
End Prepare.
