(* ===== verification/RegistryTx.v ===== *)
(** * Prepare transactions of the registry

    What one call of [Prepare] does to the shared maps: every acquisition adds
    exactly the references it records in the candidate, creates runtimes at
    fresh addresses only and never replaces one, so that releasing the recorded
    references after a failure restores the maps. *)

From S2P Require Import Prelude GoStrings NetAddr Predicate Apportion Wrr HashKey Chash Url Resources UpstreamConfig X509 Fingerprint Health Budget RefTable Plan Registry.
#[local] Open Scope Z_scope.
#[local] Open Scope list_scope.

(** ** Objects *)

(** Objects are only added, at addresses not yet in use. *)
Record store_ext (st st' : store) : Prop := {
  se_next : (s_next st ≤ s_next st')%nat;
  se_transports a : (a < s_next st)%nat → s_transports st' !! a = s_transports st !! a;
  se_sequences a : (a < s_next st)%nat → s_sequences st' !! a = s_sequences st !! a;
  se_trackers a : (a < s_next st)%nat → s_trackers st' !! a = s_trackers st !! a;
  se_registrations a : (a < s_next st)%nat → s_registrations st' !! a = s_registrations st !! a;
  se_budgets a : (a < s_next st)%nat → s_budgets st' !! a = s_budgets st !! a;
}.

Lemma store_ext_refl st : store_ext st st.
Proof. by split. Qed.

Lemma store_ext_trans st st' st'' : store_ext st st' → store_ext st' st'' → store_ext st st''.
Proof.
  intros [Hn Ht Hs Hk Hr Hb] [Hn' Ht' Hs' Hk' Hr' Hb'].
  split; [lia|..]; intros a Ha.
  - by rewrite Ht', Ht by lia.
  - by rewrite Hs', Hs by lia.
  - by rewrite Hk', Hk by lia.
  - by rewrite Hr', Hr by lia.
  - by rewrite Hb', Hb by lia.
Qed.

(** The runtimes the maps refer to exist and are in service: transports carry
    the key they are stored under and are open, registrations and their
    trackers are not retired and belong to one key. *)
Definition live_transport (st : store) (k : transportKey) (a : nat) : Prop :=
  (a < s_next st)%nat ∧ ∃ tr, s_transports st !! a = Some tr ∧ tr_key tr = k ∧ tr_closed tr = false.

Definition live_health (st : store) (h g : nat) : Prop :=
  (h < s_next st)%nat ∧ (g < s_next st)%nat ∧
  ∃ reg tracker, s_registrations st !! g = Some reg ∧ hr_health reg = h ∧ hr_retired reg = false ∧
    s_trackers st !! h = Some tracker ∧ eh_retired tracker = false.

Record runtimes_wf (t : tables) (st : store) : Prop := {
  rw_transports k a : runtime_of (t_transports t) k = Some a → live_transport st k a;
  rw_health k h g : runtime_of (t_health t) k = Some (h, g) → live_health st h g;
  rw_distinct k k' h g h' g' : runtime_of (t_health t) k = Some (h, g) →
    runtime_of (t_health t) k' = Some (h', g') → h = h' ∨ g = g' → k = k';
}.

Lemma live_transport_mono st st' k a : store_ext st st' → live_transport st k a → live_transport st' k a.
Proof.
  intros Hext [Ha Htr]. split; [pose proof (se_next _ _ Hext); lia|].
  by rewrite (se_transports _ _ Hext).
Qed.

Lemma live_health_mono st st' h g : store_ext st st' → live_health st h g → live_health st' h g.
Proof.
  intros Hext (Hh & Hg & Hreg). pose proof (se_next _ _ Hext). split_and!; [lia|lia|].
  by rewrite (se_registrations _ _ Hext), (se_trackers _ _ Hext) by done.
Qed.

(** ** Steps of the transaction *)

Definition refs_app (o d : resourceRefs) : resourceRefs :=
  mkRefs (o_endpointIDs o ++ o_endpointIDs d) (o_transportKeys o ++ o_transportKeys d)
    (o_selectionKeys o ++ o_selectionKeys d) (o_healthKeys o ++ o_healthKeys d)
    (o_budgetKeys o ++ o_budgetKeys d).

Record tables_ok (t : tables) : Prop := {
  to_endpoints : table_ok (t_endpoints t);
  to_transports : table_ok (t_transports t);
  to_selections : table_ok (t_selections t);
  to_health : table_ok (t_health t);
  to_budgets : table_ok (t_budgets t);
}.

Record tables_extend (t : tables) (d : resourceRefs) (t' : tables) : Prop := {
  te_endpoints : extends (t_endpoints t) (o_endpointIDs d) (t_endpoints t');
  te_transports : extends (t_transports t) (o_transportKeys d) (t_transports t');
  te_selections : extends (t_selections t) (o_selectionKeys d) (t_selections t');
  te_health : extends (t_health t) (o_healthKeys d) (t_health t');
  te_budgets : extends (t_budgets t) (o_budgetKeys d) (t_budgets t');
}.

Lemma tables_extend_refl t : tables_ok t → tables_extend t noRefs t.
Proof. intros []. split; by apply extends_refl. Qed.

Lemma tables_extend_trans t d t' d' t'' : tables_extend t d t' → tables_extend t' d' t'' →
  tables_extend t (refs_app d d') t''.
Proof. intros [] []. split; by eapply extends_trans. Qed.

Lemma tables_extend_ok t d t' : tables_extend t d t' → tables_ok t'.
Proof. intros [H1 H2 H3 H4 H5]. split; [apply H1|apply H2|apply H3|apply H4|apply H5]. Qed.

(** One step records the references [d] it added; what it created lies at fresh
    addresses. *)
Record tx_step (x : prepareTx) (d : resourceRefs) (x' : prepareTx) : Prop := {
  ts_owned : x_owned x' = refs_app (x_owned x) d;
  ts_tables : tables_extend (x_tables x) d (x_tables x');
  ts_store : store_ext (x_store x) (x_store x');
  ts_transports k a : runtime_of (t_transports (x_tables x')) k = Some a →
    runtime_of (t_transports (x_tables x)) k = Some a ∨ (s_next (x_store x) ≤ a)%nat;
  ts_health k h g : runtime_of (t_health (x_tables x')) k = Some (h, g) →
    runtime_of (t_health (x_tables x)) k = Some (h, g) ∨
    (s_next (x_store x) ≤ h)%nat ∧ (s_next (x_store x) ≤ g)%nat;
  ts_wf : runtimes_wf (x_tables x) (x_store x) → runtimes_wf (x_tables x') (x_store x');
}.

Definition tx_steps (x x' : prepareTx) : Prop := ∃ d, tx_step x d x'.

Lemma refs_app_nil o : refs_app o noRefs = o.
Proof. destruct o. unfold refs_app. simpl. by rewrite !app_nil_r. Qed.

Lemma refs_app_assoc o d e : refs_app (refs_app o d) e = refs_app o (refs_app d e).
Proof. unfold refs_app. simpl. by rewrite <-!app_assoc. Qed.

Lemma tx_steps_refl x : tables_ok (x_tables x) → tx_steps x x.
Proof.
  intros Hok. exists noRefs. split; [by rewrite refs_app_nil|by apply tables_extend_refl|
    apply store_ext_refl|by left|by left|done].
Qed.

Lemma tx_steps_trans x x' x'' : tx_steps x x' → tx_steps x' x'' → tx_steps x x''.
Proof.
  intros [d [Ho Ht Hs Htr Hh Hw]] [d' [Ho' Ht' Hs' Htr' Hh' Hw']]. exists (refs_app d d'). split.
  - by rewrite Ho', Ho, refs_app_assoc.
  - by eapply tables_extend_trans.
  - by eapply store_ext_trans.
  - pose proof (se_next _ _ Hs). intros k a [Ha|Ha]%Htr'; [by apply Htr|right; lia].
  - pose proof (se_next _ _ Hs). intros k h g [Ha|Ha]%Hh'; [by apply Hh|right; lia].
  - auto.
Qed.

Lemma tx_steps_ok x x' : tx_steps x x' → tables_ok (x_tables x').
Proof. intros [d [_ Ht _ _ _ _]]. by eapply tables_extend_ok. Qed.

(** Case analysis on an acquisition: reuse of the entry or creation. *)
Ltac table_steps Hok :=
  destruct Hok; split; simpl; (by apply extends_one) || by apply extends_refl.

Lemma acquireTransport_step profile x a x' : tables_ok (x_tables x) →
  acquireTransport profile x = (a, x') →
  tx_step x (mkRefs [] [makeTransportKey profile] [] [] []) x' ∧
  runtime_of (t_transports (x_tables x')) (makeTransportKey profile) = Some a.
Proof.
  intros Hok Hacq. unfold acquireTransport in Hacq.
  destruct (x_tables x) as [es ts ss hs bs] eqn:Et. set (key := makeTransportKey profile) in *.
  assert (Hrun : ∀ st stats, (a, x') =
      (a, mkTx (mkTables es (table_acquire ts key a) ss hs bs) st (x_generation x)
         (mkRefs (o_endpointIDs (x_owned x)) (o_transportKeys (x_owned x) ++ [key])
            (o_selectionKeys (x_owned x)) (o_healthKeys (x_owned x)) (o_budgetKeys (x_owned x))) stats) →
    store_ext (x_store x) st → default a (runtime_of ts key) = a →
    (runtime_of ts key = Some a ∨ (s_next (x_store x) ≤ a)%nat) →
    (runtimes_wf (x_tables x) (x_store x) → live_transport st key a) →
    tx_step x (mkRefs [] [key] [] [] []) x' ∧ runtime_of (t_transports (x_tables x')) key = Some a).
  { intros st stats [= ->] Hst Hdef Hnew Hlive. split.
    - split; simpl; rewrite ?Et in *.
      + unfold refs_app. simpl. by rewrite !app_nil_r.
      + table_steps Hok.
      + done.
      + intros k b. rewrite acquire_runtime, Hdef. destruct (decide _) as [<-|]; [|by left].
        intros [= <-]. done.
      + by left.
      + intros Hwf. specialize (Hlive Hwf). destruct Hwf as [Ht Hh Hd]. split; simpl; [| |done].
        * intros k b. rewrite acquire_runtime, Hdef. destruct (decide _) as [<-|]; [by intros [= <-]|].
          intros Hb. by eapply live_transport_mono, Ht.
        * intros k h g Hk. by eapply live_health_mono, Hh.
    - simpl. rewrite acquire_runtime, decide_True, Hdef by done. done. }
  destruct (ts !! key) as [e|] eqn:Hk; simpl in Hacq.
  - assert (Hr : runtime_of ts key = Some (e_runtime e)) by (unfold runtime_of; by rewrite Hk).
    injection Hacq as <- Hx. eapply Hrun; [by rewrite <-Hx|apply store_ext_refl| | |].
    + by rewrite Hr.
    + by left.
    + intros [Ht _ _]. apply Ht. by rewrite Et.
  - assert (Hr : runtime_of ts key = None) by (unfold runtime_of; by rewrite Hk).
    injection Hacq as <- Hx. eapply Hrun; [by rewrite <-Hx| | | |].
    + split; simpl; try done; [lia|]. intros b Hb. by rewrite lookup_insert_ne by lia.
    + by rewrite Hr.
    + right. done.
    + intros _. split; simpl; [lia|]. rewrite lookup_insert_eq. eexists. by split_and!.
Qed.

(** Acquisitions that leave the transport and health maps alone. *)
Lemma tx_step_other x d x' : x_owned x' = refs_app (x_owned x) d →
  tables_extend (x_tables x) d (x_tables x') → store_ext (x_store x) (x_store x') →
  t_transports (x_tables x') = t_transports (x_tables x) →
  t_health (x_tables x') = t_health (x_tables x) → tx_step x d x'.
Proof.
  intros Ho Ht Hs Etr Eh. split; [done..| | |]; rewrite ?Etr, ?Eh; [by left|by left|].
  intros [Htr Hh Hd]. split; rewrite ?Etr, ?Eh.
  - intros k a Ha. by eapply live_transport_mono, Htr.
  - intros k h g Hk. by eapply live_health_mono, Hh.
  - done.
Qed.

Ltac refs_done := unfold refs_app; simpl; by rewrite !app_nil_r.

Lemma acquireSelection_step key x a x' : tables_ok (x_tables x) →
  acquireSelection key x = (a, x') → tx_steps x x' ∧ t_transports (x_tables x') = t_transports (x_tables x).
Proof.
  intros Hok Hacq. unfold acquireSelection in Hacq.
  destruct (x_tables x) as [es ts ss hs bs] eqn:Et.
  destruct (ss !! key) as [e|] eqn:Hk; simpl in Hacq; injection Hacq as <- <-;
    (split; [|done]; exists (mkRefs [] [] [key] [] []); apply tx_step_other; simpl; rewrite ?Et;
     [refs_done|table_steps Hok| |done|done]).
  - apply store_ext_refl.
  - split; simpl; try done; [lia|]. intros b Hb. by rewrite lookup_insert_ne by lia.
Qed.

Lemma acquireEndpoint_step uid e x runtime x' : tables_ok (x_tables x) →
  acquireEndpoint uid e x = Some (runtime, x') →
  tx_steps x x' ∧ t_transports (x_tables x') = t_transports (x_tables x).
Proof.
  intros Hok Hacq. unfold acquireEndpoint in Hacq.
  destruct (x_tables x) as [es ts ss hs bs] eqn:Et. apply bind_Some in Hacq as ([r stats] & Hr & Hacq).
  injection Hacq as <- <-. split; [|done]. exists (mkRefs [endpointIdentity uid (ep_url e)] [] [] [] []).
  apply tx_step_other; simpl; rewrite ?Et; [refs_done|table_steps Hok|apply store_ext_refl|done|done].
Qed.

Section Steps.
Context (xxh64 : string → Z) (sha256 : string → string).

Lemma acquireBudget_step uid policy x a x' : tables_ok (x_tables x) →
  acquireBudget sha256 uid policy x = (a, x') →
  tx_steps x x' ∧ t_transports (x_tables x') = t_transports (x_tables x).
Proof.
  intros Hok Hacq. unfold acquireBudget in Hacq. set (key := makeBudgetKey _ _ _) in *.
  destruct (x_tables x) as [es ts ss hs bs] eqn:Et.
  destruct (bs !! key) as [e|] eqn:Hk; simpl in Hacq; injection Hacq as <- <-;
    (split; [|done]; exists (mkRefs [] [] [] [] [key]); apply tx_step_other; simpl; rewrite ?Et;
     [refs_done|table_steps Hok| |done|done]).
  - apply store_ext_refl.
  - split; simpl; try done; [lia|]. intros b Hb. by rewrite lookup_insert_ne by lia.
Qed.

Lemma acquireHealth_step identity runtime policy active key transport x h x' : tables_ok (x_tables x) →
  acquireHealth sha256 identity runtime policy active key transport x = (h, x') →
  tx_steps x x' ∧ t_transports (x_tables x') = t_transports (x_tables x) ∧
  ∃ g, runtime_of (t_health (x_tables x')) (makeHealthKey sha256 identity policy key) = Some (h, g).
Proof.
  intros Hok Hacq. unfold acquireHealth in Hacq. set (hk := makeHealthKey _ _ _ _) in *.
  destruct (x_tables x) as [es ts ss hs bs] eqn:Et.
  destruct (hs !! hk) as [e|] eqn:Hk; simpl in Hacq; injection Hacq as <- <-; simpl.
  - assert (Hr : runtime_of hs hk = Some (e_runtime e)) by (unfold runtime_of; by rewrite Hk).
    assert (Hacq : ∀ k, runtime_of (table_acquire hs hk (e_runtime e)) k = runtime_of hs k).
    { intros k. rewrite acquire_runtime. by destruct (decide _) as [<-|]; rewrite ?Hr. }
    split_and!; [|done|]; [|exists (e_runtime e).2; rewrite Hacq, Hr; by destruct (e_runtime e)].
    exists (mkRefs [] [] [] [hk] []). split; simpl; rewrite ?Et.
    + refs_done.
    + table_steps Hok.
    + apply store_ext_refl.
    + by left.
    + intros k h g. rewrite Hacq. by left.
    + intros [Ht Hh Hd]. split; simpl; [done|..]; setoid_rewrite Hacq; done.
  - assert (Hr : runtime_of hs hk = None) by (unfold runtime_of; by rewrite Hk).
    set (n := s_next (x_store x)). set (fresh := (n, S n)).
    assert (Hacq : ∀ k, runtime_of (table_acquire hs hk fresh) k =
      if decide (hk = k) then Some fresh else runtime_of hs k).
    { intros k. rewrite acquire_runtime, Hr. done. }
    assert (Hext : ∀ tracker reg, store_ext (x_store x)
      (mkStore (S (S n)) (s_transports (x_store x)) (s_sequences (x_store x))
         (<[n := tracker]> (s_trackers (x_store x))) (<[S n := reg]> (s_registrations (x_store x)))
         (s_budgets (x_store x)))).
    { intros tracker reg. split; simpl; try done; [lia|..]; intros b Hb; by rewrite lookup_insert_ne by lia. }
    split_and!; [|done|exists (S n); by rewrite Hacq, decide_True by done].
    exists (mkRefs [] [] [] [hk] []). split; simpl; rewrite ?Et.
    + refs_done.
    + table_steps Hok.
    + apply Hext.
    + by left.
    + intros k h g. rewrite Hacq. destruct (decide _); [|by left]. intros [= <- <-]. right. unfold n. lia.
    + intros [Ht Hh Hd]. split; simpl.
      * intros k a Ha. by eapply live_transport_mono, Ht.
      * intros k h g. rewrite Hacq. destruct (decide _); [|intros Hk'; by eapply live_health_mono, Hh].
        intros [= <- <-]. split_and!; simpl; [lia|lia|]. do 2 eexists. rewrite !lookup_insert_eq. by split_and!.
      * intros k k' h g h' g'. rewrite !Hacq.
        destruct (decide (hk = k)) as [<-|], (decide (hk = k')) as [<-|]; [done| | |by apply Hd].
        -- intros [= <- <-] Hk' Hor. apply Hh in Hk' as (? & ? & _). unfold n in *. lia.
        -- intros Hk' [= <- <-] Hor. apply Hh in Hk' as (? & ? & _). unfold n in *. lia.
Qed.

(** A plan only refers to runtimes its references pin. *)
Definition endpoint_backed (t : tables) (o : resourceRefs) (e : planEndpoint) : Prop :=
  ∀ h, pe_health e = Some h → ∃ k g, k ∈ o_healthKeys o ∧ runtime_of (t_health t) k = Some (h, g).

Record plan_backed (t : tables) (o : resourceRefs) (p : Plan) : Prop := {
  pb_transport : p_transportKey p ∈ o_transportKeys o ∧
    runtime_of (t_transports t) (p_transportKey p) = Some (p_transport p);
  pb_health : Forall (endpoint_backed t o) (p_endpoints p);
}.

Lemma endpoint_backed_mono x x' e : tx_steps x x' →
  endpoint_backed (x_tables x) (x_owned x) e → endpoint_backed (x_tables x') (x_owned x') e.
Proof.
  intros [d [Ho [_ _ _ (_ & _ & Hrun) _] _ _ _ _]] He h Hh.
  destruct (He h Hh) as (k & g & Hk & Hr). exists k, g. split; [|by apply Hrun].
  rewrite Ho. simpl. apply elem_of_app. by left.
Qed.

Lemma plan_backed_mono x x' p : tx_steps x x' →
  plan_backed (x_tables x) (x_owned x) p → plan_backed (x_tables x') (x_owned x') p.
Proof.
  intros Hs [[Hk Hr] Hh]. split.
  - destruct Hs as [d [Ho [_ (_ & _ & Hrun) _ _ _] _ _ _ _]]. split; [|by apply Hrun].
    rewrite Ho. simpl. apply elem_of_app. by left.
  - eapply Forall_impl; [exact Hh|]. intros e. by apply endpoint_backed_mono.
Qed.

Lemma prepareHealth_step u key transport identity runtime x health x' : tables_ok (x_tables x) →
  prepareHealth sha256 u key transport identity runtime x = (health, x') →
  tx_steps x x' ∧ t_transports (x_tables x') = t_transports (x_tables x) ∧
  ∀ r w, endpoint_backed (x_tables x') (x_owned x') (mkPlanEndpoint r health identity w).
Proof.
  intros Hok Hp. unfold prepareHealth in Hp. destruct (hp_active (up_health u)) as [active|].
  - destruct (acquireHealth _ _ _ _ _ _ _ x) as [h x1] eqn:Hacq. injection Hp as <- <-.
    pose proof Hacq as (Hs & Htr & g & Hg)%acquireHealth_step; [|done]. split_and!; [done|done|].
    intros r w h' [= <-]. eexists _, g. split; [|exact Hg].
    unfold acquireHealth in Hacq. destruct (x_tables x). repeat case_scrutinee_in Hacq.
    injection Hacq as <- <-. simpl. apply elem_of_app. right. by left.
  - injection Hp as <- <-. split_and!; [by apply tx_steps_refl|done|]. by intros r w h [=].
Qed.

Lemma prepareEndpoints_step u key transport es x pes x' : tables_ok (x_tables x) →
  prepareEndpoints sha256 u key transport es x = (pes, x') →
  tx_steps x x' ∧ t_transports (x_tables x') = t_transports (x_tables x) ∧
  ∀ l, pes = Some l → Forall (endpoint_backed (x_tables x') (x_owned x')) l ∧
    (length l ≤ length es)%nat ∧
    Forall (fun e => 0 < pe_weight e ∧ ∃ e0, e0 ∈ es ∧ pe_weight e = ep_weight e0) l.
Proof.
  revert x pes x'. induction es as [|e es IH]; intros x pes x' Hok; simpl.
  { intros [= <- <-]. split_and!; [by apply tx_steps_refl|done|]. intros l [= <-]. by split_and!. }
  destruct (acquireEndpoint _ e x) as [[runtime x1]|] eqn:Hacq.
  2: { intros [= <- <-]. split_and!; [by apply tx_steps_refl|done|done]. }
  pose proof Hacq as (Hs1 & Htr1)%acquireEndpoint_step; [|done].
  pose proof (tx_steps_ok _ _ Hs1) as Hok1.
  assert (Hweaken : ∀ l : list planEndpoint,
    Forall (fun e' => 0 < pe_weight e' ∧ ∃ e0, e0 ∈ es ∧ pe_weight e' = ep_weight e0) l →
    Forall (fun e' => 0 < pe_weight e' ∧ ∃ e0, e0 ∈ e :: es ∧ pe_weight e' = ep_weight e0) l).
  { intros l Hl. eapply Forall_impl; [exact Hl|]. intros e' (? & e0 & ? & ?). split; [done|].
    exists e0. split; [by right|done]. }
  destruct (0 <? ep_weight e) eqn:Ew; bool_hyps.
  - destruct (prepareHealth _ _ _ _ _ _ x1) as [health x2] eqn:Hh.
    destruct (prepareHealth_step _ _ _ _ _ _ _ _ Hok1 Hh) as (Hs2 & Htr2 & Hb2).
    pose proof (tx_steps_ok _ _ Hs2) as Hok2.
    destruct (prepareEndpoints _ _ _ _ es x2) as [rest x3] eqn:Hrest. intros [= <- <-].
    destruct (IH _ _ _ Hok2 Hrest) as (Hs3 & Htr3 & Hl). split_and!.
    + by do 2 (eapply tx_steps_trans; [done|]).
    + congruence.
    + intros l (l' & -> & ->)%fmap_Some. destruct (Hl _ eq_refl) as (Hbl & Hlen & Hwl). split_and!.
      * constructor; [|done]. by eapply endpoint_backed_mono.
      * simpl. lia.
      * constructor; [|by apply Hweaken]. simpl. split; [done|]. exists e. split; [left|done].
  - intros Hrest. destruct (IH _ _ _ Hok1 Hrest) as (Hs3 & Htr3 & Hl). split_and!.
    + by eapply tx_steps_trans.
    + congruence.
    + intros l El. destruct (Hl _ El) as (Hbl & Hlen & Hwl). split_and!; [done|simpl; lia|].
      by apply Hweaken.
Qed.

Lemma prepareBudget_step u x budget x' : tables_ok (x_tables x) →
  prepareBudget sha256 u x = (budget, x') →
  tx_steps x x' ∧ t_transports (x_tables x') = t_transports (x_tables x).
Proof.
  intros Hok Hp. unfold prepareBudget in Hp. destruct (_ && _).
  - destruct (acquireBudget _ _ _ x) as [a x1] eqn:Hacq. injection Hp as <- <-.
    by eapply acquireBudget_step.
  - injection Hp as <- <-. split; [by apply tx_steps_refl|done].
Qed.

Lemma compileBalancer_ok u es selection sel c extractor p :
  compileBalancer xxh64 u es selection = Ok (sel, c, extractor) →
  p_algorithm p = bp_type (up_balancer u) → p_endpoints p = es → p_wrr p = sel → p_continuum p = c →
  es ≠ [] ∧ (p_algorithm p = BalancerWeightedRoundRobin ∧
      compileWRR (weightedOf es) (Some (wrr_state sel)) = Ok sel ∨
    p_algorithm p = BalancerConsistentHash ∧ compileContinuum xxh64 (weightedOf es) = Ok c).
Proof.
  unfold compileBalancer. intros Hc Halg Hes Hsel Hcon.
  assert (Hne : es ≠ []).
  { intros ->. simpl in Hc. repeat case_scrutinee_in Hc; done. }
  split; [done|]. rewrite Halg.
  destruct (String.eqb _ BalancerWeightedRoundRobin) eqn:Ew.
  - left. apply String.eqb_eq in Ew. split; [done|].
    destruct (compileWRR (weightedOf es) (Some selection)) as [s|] eqn:Hw; [|done].
    injection Hc as <- _ _. rewrite <-Hw. do 2 f_equal. unfold compileWRR in Hw.
    repeat case_scrutinee_in Hw; try done; by injection Hw as <-.
  - destruct (String.eqb _ BalancerConsistentHash) eqn:Ec; [|done]. right.
    apply String.eqb_eq in Ec. split; [done|].
    destruct (compileHashKey _); [|done]. destruct (compileContinuum _ _) eqn:Hcc; [|done].
    by injection Hc as _ <- _.
Qed.

(** What a successfully prepared plan of an upstream is. *)
Definition plan_of (u : Upstream) (p : Plan) : Prop :=
  p_id p = up_id u ∧ (upstream_ok u → plan_ok xxh64 p).

Lemma plan_of_balancer u es transport key sel c extractor registrations budget selection :
  compileBalancer xxh64 u es selection = Ok (sel, c, extractor) →
  (length es ≤ length (up_endpoints u))%nat →
  Forall (fun e => 0 < pe_weight e ∧ ∃ e0, e0 ∈ up_endpoints u ∧ pe_weight e = ep_weight e0) es →
  plan_of u (mkPlan (up_id u) (bp_type (up_balancer u)) es transport key sel c extractor
               registrations budget).
Proof.
  intros Hc Hlen Hw. split; [done|]. intros Hu. set (p := mkPlan _ _ _ _ _ _ _ _ _ _).
  destruct (compileBalancer_ok _ _ _ _ _ _ p Hc) as [Hne Hbal]; [done..|]. split; [done| | |done]; simpl.
  - eapply Forall_impl; [exact Hw|]. intros e (Hpos & e0 & Hin & He). split; [done|].
    pose proof (uo_weights _ Hu) as Hmax. rewrite Forall_forall in Hmax. specialize (Hmax _ Hin).
    unfold MaxEndpointWeight in Hmax. lia.
  - pose proof (uo_count _ Hu) as Hcount. unfold zlen, MaxUpstreamEndpoints in Hcount. lia.
Qed.

Lemma preparePlanLocked_step u profile x r x' : tables_ok (x_tables x) →
  preparePlanLocked xxh64 sha256 u profile x = (r, x') →
  tx_steps x x' ∧ ∀ p, r = Ok p → plan_backed (x_tables x') (x_owned x') p ∧ plan_of u p.
Proof.
  intros Hok Hp. unfold preparePlanLocked in Hp. set (key := makeTransportKey profile) in *.
  destruct (acquireTransport profile x) as [a x1] eqn:H1.
  destruct (acquireTransport_step _ _ _ _ Hok H1) as (Hs1 & Hrun1). fold key in Hs1, Hrun1.
  assert (Hkey : key ∈ o_transportKeys (x_owned x1)).
  { rewrite (ts_owned _ _ _ Hs1). simpl. apply elem_of_app. right. by left. }
  assert (Ht1 : tx_steps x x1) by (by eexists). clear Hs1.
  destruct (acquireSelection _ x1) as [selection x2] eqn:H2.
  destruct (acquireSelection_step _ _ _ _ (tx_steps_ok _ _ Ht1) H2) as (Hs2 & Htr2).
  assert (Ht2 : tx_steps x x2) by (by eapply tx_steps_trans).
  destruct (prepareEndpoints _ _ _ _ _ x2) as [pes x3] eqn:H3.
  destruct (prepareEndpoints_step _ _ _ _ _ _ _ (tx_steps_ok _ _ Ht2) H3) as (Hs3 & Htr3 & Hl).
  assert (Ht3 : tx_steps x x3) by (by eapply tx_steps_trans).
  destruct pes as [es|]; [|by injection Hp as <- <-].
  destruct (prepareBudget _ _ x3) as [budget x4] eqn:H4. injection Hp as <- <-.
  destruct (prepareBudget_step _ _ _ _ (tx_steps_ok _ _ Ht3) H4) as (Hs4 & Htr4).
  split; [by eapply tx_steps_trans|]. intros p Hres.
  apply bind_ok_inv in Hres as ([[sel c] extractor] & Hc & [= <-]).
  destruct (Hl _ eq_refl) as (Hb & Hlen & Hw). split; [|by eapply plan_of_balancer].
  split; simpl.
  - split; [|congruence].
    destruct (tx_steps_trans _ _ _ Hs2 (tx_steps_trans _ _ _ Hs3 Hs4)) as [d [Ho _ _ _ _ _]].
    rewrite Ho. simpl. apply elem_of_app. by left.
  - eapply Forall_impl; [exact Hb|]. intros e. by apply endpoint_backed_mono.
Qed.

Lemma add_slots_step p x x' : tx_steps x x' → tx_steps x (add_slots p x').
Proof. intros [d [H1 H2 H3 H4 H5 H6]]. by exists d. Qed.

(** Every plan of the collection is backed and belongs to its upstream. *)
Definition plans_ok (t : tables) (o : resourceRefs) (us : list Upstream) (plans : gmap string Plan) : Prop :=
  ∀ id p, plans !! id = Some p →
    plan_backed t o p ∧ ∃ u, u ∈ us ∧ up_id u = id ∧ plan_of u p.

Lemma prepareUpstreams_step materials done us plans x r x' : tables_ok (x_tables x) →
  plans_ok (x_tables x) (x_owned x) done plans → dom plans = list_to_set (up_id <$> done) →
  overBudget (x_stats x) = false → prepareUpstreams xxh64 sha256 materials us plans x = (r, x') →
  tx_steps x x' ∧ ∀ plans', r = Ok plans' →
    plans_ok (x_tables x') (x_owned x') (done ++ us) plans' ∧
    dom plans' = list_to_set (up_id <$> done ++ us) ∧ overBudget (x_stats x') = false.
Proof.
  revert done plans x. induction us as [|u us IH]; intros done plans x Hok Hplans Hdom Hbudget; cbn [prepareUpstreams].
  { intros [= <- <-]. split; [by apply tx_steps_refl|]. intros plans' [= <-]. by rewrite app_nil_r. }
  destruct (compileTransportProfile u materials) as [profile|e].
  2: { intros [= <- <-]. split; [by apply tx_steps_refl|done]. }
  destruct (preparePlanLocked _ _ u profile x) as [[p|e] x1] eqn:Hp.
  2: { intros [= <- <-]. split; [|done]. by destruct (preparePlanLocked_step _ _ _ _ _ Hok Hp). }
  destruct (preparePlanLocked_step _ _ _ _ _ Hok Hp) as (Hs & Hb). destruct (Hb _ eq_refl) as [Hback Hof].
  apply (add_slots_step p) in Hs. destruct (overBudget (x_stats (add_slots p x1))) eqn:Hover; [by intros [= <- <-]|]. intros Hrest.
  destruct (IH (done ++ [u]) (<[up_id u := p]> plans) (add_slots p x1)) as [Hs' Hok']; [| | |done|done|].
  - by eapply tx_steps_ok.
  - intros id q [[<- <-]|[Hne Hq]]%lookup_insert_Some.
    + split; [done|]. exists u. split_and!; [|done|done]. apply elem_of_app. right. by left.
    + destruct (Hplans _ _ Hq) as (Hq' & v & Hv & ?). split; [by apply (plan_backed_mono _ _ _ Hs)|].
      exists v. split; [apply elem_of_app; by left|done].
  - rewrite dom_insert_L, Hdom, fmap_app, list_to_set_app_L. simpl. clear. set_solver.
  - split; [by eapply tx_steps_trans|]. by rewrite <-app_assoc in Hok'.
Qed.
End Steps.

(** ** Releasing *)

Lemma closeTransports_spec st l :
  s_next (closeTransports st l) = s_next st ∧ s_sequences (closeTransports st l) = s_sequences st ∧
  s_trackers (closeTransports st l) = s_trackers st ∧
  s_registrations (closeTransports st l) = s_registrations st ∧
  s_budgets (closeTransports st l) = s_budgets st ∧
  (∀ a, ¬ (a ∈ l) → s_transports (closeTransports st l) !! a = s_transports st !! a) ∧
  (∀ a tr, a ∈ l → s_transports (closeTransports st l) !! a = Some tr → tr_closed tr = true).
Proof.
  unfold closeTransports. revert st. induction l as [|b l IH]; intros st; simpl.
  { split_and!; try done. by intros a tr ?%not_elem_of_nil. }
  destruct (IH (closeTransport st b)) as (-> & -> & -> & -> & -> & Hkeep & Hclosed).
  split_and!; try done.
  - intros a [Hab Hal]%not_elem_of_cons. rewrite Hkeep by done. simpl. by rewrite lookup_alter_ne.
  - intros a tr Hin Htr. destruct (decide (a ∈ l)) as [Hl|Hl]; [by eapply Hclosed|].
    apply elem_of_cons in Hin as [-> | ?]; [|done]. rewrite Hkeep in Htr by done. simpl in Htr.
    rewrite lookup_alter_eq in Htr. apply fmap_Some in Htr as (tr' & _ & ->). done.
Qed.

Lemma retireRegistrations_spec st l :
  let st' := foldl retireRegistration st l in
  s_next st' = s_next st ∧ s_transports st' = s_transports st ∧ s_sequences st' = s_sequences st ∧
  s_budgets st' = s_budgets st ∧
  (∀ g, hr_health <$> s_registrations st' !! g = hr_health <$> s_registrations st !! g) ∧
  (∀ g, ¬ (g ∈ l) → s_registrations st' !! g = s_registrations st !! g) ∧
  (∀ g reg, g ∈ l → s_registrations st' !! g = Some reg → hr_retired reg = true) ∧
  (∀ h, (∀ g reg, g ∈ l → s_registrations st !! g = Some reg → hr_health reg ≠ h) →
     s_trackers st' !! h = s_trackers st !! h).
Proof.
  revert st. induction l as [|b l IH]; intros st; simpl.
  { split_and!; try done. by intros a tr ?%not_elem_of_nil. }
  specialize (IH (retireRegistration st b)). simpl in IH.
  assert (Hstep : s_next (retireRegistration st b) = s_next st ∧
    s_transports (retireRegistration st b) = s_transports st ∧
    s_sequences (retireRegistration st b) = s_sequences st ∧
    s_budgets (retireRegistration st b) = s_budgets st ∧
    (∀ g, hr_health <$> s_registrations (retireRegistration st b) !! g =
          hr_health <$> s_registrations st !! g) ∧
    (∀ g, g ≠ b → s_registrations (retireRegistration st b) !! g = s_registrations st !! g) ∧
    (∀ reg, s_registrations (retireRegistration st b) !! b = Some reg → hr_retired reg = true) ∧
    (∀ h, (∀ reg, s_registrations st !! b = Some reg → hr_health reg ≠ h) →
       s_trackers (retireRegistration st b) !! h = s_trackers st !! h)).
  { unfold retireRegistration. destruct (s_registrations st !! b) as [reg|] eqn:Hb; [|by split_and!; try congruence].
    destruct (hr_retired reg) eqn:Hr; [split_and!; try congruence; done|]. simpl. split_and!; try done.
    - intros g. destruct (decide (g = b)) as [-> |]; [by rewrite lookup_insert_eq, Hb|by rewrite lookup_insert_ne].
    - intros g Hg. by rewrite lookup_insert_ne.
    - intros reg'. rewrite lookup_insert_eq. by intros [= <-].
    - intros h Hh. rewrite lookup_alter_ne; [done|]. by apply Hh. }
  destruct Hstep as (E1 & E2 & E3 & E4 & Hh1 & Hk1 & Hr1 & Ht1).
  destruct IH as (-> & -> & -> & -> & Hh2 & Hk2 & Hr2 & Ht2). split_and!; try done.
  - intros g. by rewrite Hh2, Hh1.
  - intros g [Hgb Hgl]%not_elem_of_cons. by rewrite Hk2, Hk1.
  - intros g reg Hin Hreg. destruct (decide (g ∈ l)) as [Hl|Hl]; [by eapply Hr2|].
    apply elem_of_cons in Hin as [-> | ?]; [|done]. rewrite Hk2 in Hreg by done. by apply Hr1.
  - intros h Hh. rewrite Ht2; [apply Ht1; intros reg; apply Hh; left|].
    intros g reg Hin Hreg Heq.
    assert (Hold : hr_health <$> s_registrations st !! g = Some h) by (by rewrite <-Hh1, Hreg, <-Heq).
    apply fmap_Some in Hold as (reg0 & Hreg0 & ->). by eapply (Hh g reg0); [right|..].
Qed.

(** The maps hold at least the references [o]. *)
Record covers (t : tables) (o : resourceRefs) : Prop := {
  cov_endpoints k : occurs k (o_endpointIDs o) ≤ refs_of (t_endpoints t) k;
  cov_transports k : occurs k (o_transportKeys o) ≤ refs_of (t_transports t) k;
  cov_selections k : occurs k (o_selectionKeys o) ≤ refs_of (t_selections t) k;
  cov_health k : occurs k (o_healthKeys o) ≤ refs_of (t_health t) k;
  cov_budgets k : occurs k (o_budgetKeys o) ≤ refs_of (t_budgets t) k;
}.

(** The effect of [releaseRefsLocked]; [dt] and [dh] are the transports and
    health entries whose last reference went. *)
Record refs_released (t : tables) (o : resourceRefs) (t' : tables)
    (dt : list (transportKey * nat)) (dh : list (healthKey * (nat * nat))) : Prop := {
  rr_endpoints : ∃ d, released (t_endpoints t) (o_endpointIDs o) (t_endpoints t') d;
  rr_transports : released (t_transports t) (o_transportKeys o) (t_transports t') dt;
  rr_selections : ∃ d, released (t_selections t) (o_selectionKeys o) (t_selections t') d;
  rr_health : released (t_health t) (o_healthKeys o) (t_health t') dh;
  rr_budgets : ∃ d, released (t_budgets t) (o_budgetKeys o) (t_budgets t') d;
}.

Definition registrations_of (dh : list (healthKey * (nat * nat))) : list nat := (fun kr => kr.2.2) <$> dh.

Lemma releaseRefsLocked_total t st o : tables_ok t → covers t o → ∃ t' dt dh cleanup,
  releaseRefsLocked t st o =
    Some (t', foldl retireRegistration st (registrations_of dh), cleanup, dt.*2) ∧
  refs_released t o t' dt dh.
Proof.
  intros [He Ht Hs Hh Hb] [Ce Ct Cs Ch Cb]. unfold releaseRefsLocked.
  destruct (releaseAll_total _ _ He Ce) as [[es de] Ee].
  destruct (releaseAll_total _ _ Ht Ct) as [[ts dt] Et].
  destruct (releaseAll_total _ _ Hs Cs) as [[ss ds] Es].
  destruct (releaseAll_total _ _ Hh Ch) as [[hs dh] Eh].
  destruct (releaseAll_total _ _ Hb Cb) as [[bs db] Eb].
  rewrite Ee, Et, Es, Eh, Eb. simpl. do 4 eexists. split; [done|].
  split; simpl; [eexists| |eexists| |eexists]; by apply releaseAll_released.
Qed.

Lemma refs_released_ok t o t' dt dh : refs_released t o t' dt dh → tables_ok t'.
Proof. intros [[? []] [] [? []] [] [? []]]. by split. Qed.

Lemma released_gone {K R} `{Countable K} (t : gmap K (entry R)) ks t' d k r :
  released t ks t' d → (k, r) ∈ d → t' !! k = None.
Proof.
  intros [Hok Hrefs _ Hd _] (_ & _ & Heq)%Hd. destruct (t' !! k) as [e|] eqn:E; [|done].
  assert (0 < refs_of t' k) by (apply refs_pos; [done|by rewrite E]). rewrite Hrefs in *. lia.
Qed.

Lemma released_kept {K R} `{Countable K} (t : gmap K (entry R)) ks t' d k r :
  released t ks t' d → runtime_of t' k = Some r → runtime_of t k = Some r ∧ is_Some (t' !! k).
Proof.
  intros Hrel Hr. assert (Hs : is_Some (t' !! k)) by (apply runtime_of_Some; by rewrite Hr).
  by rewrite <-(released_runtime _ _ _ _ Hrel).
Qed.

(** Closing and retiring what was dropped does not touch what is left. *)
Lemma released_wf t st o t' dt dh : runtimes_wf t st → refs_released t o t' dt dh →
  runtimes_wf t' (closeTransports (foldl retireRegistration st (registrations_of dh)) dt.*2).
Proof.
  intros [Wt Wh Wd] [_ Rt _ Rh _].
  destruct (closeTransports_spec (foldl retireRegistration st (registrations_of dh)) dt.*2)
    as (N1 & _ & K1 & G1 & _ & Keep & _).
  destruct (retireRegistrations_spec st (registrations_of dh)) as (N2 & T2 & _ & _ & _ & Keepg & _ & Keeph).
  assert (Hother : ∀ k h g, runtime_of (t_health t') k = Some (h, g) → ∀ k' h' g',
    (k', (h', g')) ∈ dh → h ≠ h' ∧ g ≠ g').
  { intros k h g [Hk Hs]%(released_kept _ _ _ _ _ _ Rh) k' h' g' Hin.
    assert (Hk' : runtime_of (t_health t) k' = Some (h', g')) by (by apply (released_dropped _ _ _ _ Rh)).
    apply (released_gone _ _ _ _ _ _ Rh) in Hin.
    assert (k ≠ k') by (intros ->; rewrite Hin in Hs; by destruct Hs).
    assert (Hor : ¬ (h = h' ∨ g = g')) by (intros Hor; by pose proof (Wd _ _ _ _ _ _ Hk Hk' Hor)).
    split; intros E; apply Hor; auto. }
  split.
  - intros k a [Ha Hs]%(released_kept _ _ _ _ _ _ Rt). destruct (Wt _ _ Ha) as (Hlt & tr & Htr & Hkey & Hcl).
    split; [congruence|]. exists tr. split_and!; [|done|done]. rewrite Keep, T2; [done|].
    intros ([k' a'] & Heq & Hin)%list_elem_of_fmap. simpl in Heq. subst a'.
    assert (Hk' : runtime_of (t_transports t) k' = Some a) by (by apply (released_dropped _ _ _ _ Rt)).
    apply (released_gone _ _ _ _ _ _ Rt) in Hin.
    destruct (Wt _ _ Hk') as (_ & tr' & Htr' & Hkey' & _).
    assert (k = k') as -> by congruence. rewrite Hin in Hs. by destruct Hs.
  - intros k h g Hk. pose proof (Hother _ _ _ Hk) as Hne.
    apply (released_kept _ _ _ _ _ _ Rh) in Hk as [Hk Hs].
    destruct (Wh _ _ _ Hk) as (Hh & Hg & reg & tracker & Hreg & Hrh & Hrr & Htrk & Hret).
    split_and!; [congruence..|]. exists reg, tracker. rewrite G1, K1. split_and!; try done.
    + rewrite Keepg; [done|]. intros ([k' [h' g']] & Heq & Hin)%list_elem_of_fmap. simpl in Heq.
      by apply Hne in Hin as [_ ?].
    + rewrite Keeph; [done|]. intros g0 reg0 ([k' [h' g']] & Heq & Hin)%list_elem_of_fmap Hreg0 Hh0.
      simpl in Heq. subst g0.
      assert (Hk' : runtime_of (t_health t) k' = Some (h', g')) by (by apply (released_dropped _ _ _ _ Rh)).
      destruct (Wh _ _ _ Hk') as (_ & _ & reg' & _ & Hreg' & Hrh' & _).
      apply Hne in Hin as [Hne' _]. congruence.
  - intros k k' h g h' g' [Hk _]%(released_kept _ _ _ _ _ _ Rh) [Hk' _]%(released_kept _ _ _ _ _ _ Rh).
    by apply Wd.
Qed.

(** Transports are closed after the mutex is free: the maps only refer to open
    ones before and after. *)
Lemma runtimes_wf_unclose t st l : runtimes_wf t (closeTransports st l) → runtimes_wf t st.
Proof.
  destruct (closeTransports_spec st l) as (N & _ & K & G & _ & Keep & Closed). intros [Wt Wh Wd].
  split; [|by unfold live_health in *; rewrite N, K, G in Wh|done].
  intros k a Ha. destruct (Wt _ _ Ha) as (Hlt & tr & Htr & Hkey & Hcl). rewrite N in Hlt.
  split; [done|]. exists tr. split; [|done]. rewrite <-Keep; [done|].
  intros Hin. by rewrite (Closed _ _ Hin Htr) in Hcl.
Qed.

Lemma runtimes_wf_close t st a : (∀ k, runtime_of (t_transports t) k ≠ Some a) →
  runtimes_wf t st → runtimes_wf t (closeTransport st a).
Proof.
  intros Hfree [Wt Wh Wd]. split; [|exact Wh|exact Wd].
  intros k b Hb. destruct (Wt _ _ Hb) as (Hlt & tr & Htr & Hrest). split; [done|].
  exists tr. split; [|done]. simpl. rewrite lookup_alter_ne; [done|]. intros ->. by apply (Hfree k).
Qed.

(** ** Rollback *)

Lemma extends_covers t d t' : tables_ok t → tables_extend t d t' → covers t' d.
Proof.
  intros [He Ht Hs Hh Hb] [(_ & E1 & _) (_ & E2 & _) (_ & E3 & _) (_ & E4 & _) (_ & E5 & _)].
  split; intros k; rewrite ?E1, ?E2, ?E3, ?E4, ?E5.
  - pose proof (refs_nonneg _ k He). lia.
  - pose proof (refs_nonneg _ k Ht). lia.
  - pose proof (refs_nonneg _ k Hs). lia.
  - pose proof (refs_nonneg _ k Hh). lia.
  - pose proof (refs_nonneg _ k Hb). lia.
Qed.

Lemma extends_undo {K R} `{Countable K} (t t' t2 : gmap K (entry R)) ks d : table_ok t →
  extends t ks t' → released t' ks t2 d → t2 = t.
Proof.
  intros Hok (_ & Hrefs & Hrun) [Hok2 Hrefs2 Hrun2 _ _].
  apply table_eq; [done..| |].
  - intros k. rewrite Hrefs2, Hrefs. lia.
  - intros k Hk. rewrite Hrun2 by done.
    assert (is_Some (t !! k)) as Hkt.
    { apply refs_pos; [done|]. apply refs_pos in Hk; [|done]. rewrite Hrefs2, Hrefs in Hk. lia. }
    apply runtime_of_Some in Hkt as [r Hr]. rewrite Hr. by apply Hrun.
Qed.

Lemma extends_undo_new {K R} `{Countable K} (t t' t2 : gmap K (entry R)) ks d k r : table_ok t →
  extends t ks t' → released t' ks t2 d → (k, r) ∈ d → runtime_of t k = None.
Proof.
  intros Hok (_ & Hrefs & _) [_ _ _ Hd _] (_ & _ & Heq)%Hd. rewrite Hrefs in Heq.
  destruct (runtime_of t k) as [r'|] eqn:E; [|done].
  assert (0 < refs_of t k) by (apply refs_pos; [done|apply runtime_of_Some; by rewrite E]). lia.
Qed.

Lemma rollback_tables t d t' t2 dt dh : tables_ok t → tables_extend t d t' →
  refs_released t' d t2 dt dh → t2 = t.
Proof.
  intros [] [] [[? ?] ? [? ?] ? [? ?]]. destruct t, t2; simpl in *.
  f_equal; by eapply extends_undo.
Qed.

(** Rolling back touches only objects created by the transaction. *)
Lemma rollback_store x d x' t2 dt dh : tables_ok (x_tables x) →
  runtimes_wf (x_tables x) (x_store x) → tx_step x d x' → refs_released (x_tables x') d t2 dt dh →
  store_ext (x_store x)
    (closeTransports (foldl retireRegistration (x_store x') (registrations_of dh)) dt.*2).
Proof.
  intros Hok Hwf Hstep Hrel. pose proof Hstep as [_ Htab Hst Htr Hh Hw].
  destruct (Hw Hwf) as [_ Wh _]. destruct Hrel as [_ Rt _ Rh _].
  destruct (closeTransports_spec (foldl retireRegistration (x_store x') (registrations_of dh)) dt.*2)
    as (N1 & S1 & K1 & G1 & B1 & Keep & _).
  destruct (retireRegistrations_spec (x_store x') (registrations_of dh))
    as (N2 & T2 & S2 & B2 & _ & Keepg & _ & Keeph).
  assert (Hnew : ∀ k h g, (k, (h, g)) ∈ dh →
    (s_next (x_store x) ≤ h)%nat ∧ (s_next (x_store x) ≤ g)%nat ∧ live_health (x_store x') h g).
  { intros k h g Hin. pose proof Hin as (_ & Hk & _)%(released_dropped _ _ _ _ Rh).
    apply (extends_undo_new _ _ _ _ _ _ _ (to_health _ Hok) (te_health _ _ _ Htab) Rh) in Hin.
    pose proof (Wh _ _ _ Hk). apply Hh in Hk as [Hk|[? ?]]; [congruence|]. by split_and!. }
  destruct Hst as [Sn St Ss Sk Sr Sb]. split.
  - rewrite N1, N2. done.
  - intros a Ha. rewrite Keep, T2; [by apply St|].
    intros ([k b] & Heq & Hin)%list_elem_of_fmap. simpl in Heq. subst b.
    pose proof Hin as (_ & Hk & _)%(released_dropped _ _ _ _ Rt).
    apply (extends_undo_new _ _ _ _ _ _ _ (to_transports _ Hok) (te_transports _ _ _ Htab) Rt) in Hin.
    apply Htr in Hk as [Hk|?]; [congruence|lia].
  - intros a Ha. rewrite S1, S2. by apply Ss.
  - intros a Ha. rewrite K1, Keeph; [by apply Sk|].
    intros g reg ([k [h g']] & Heq & Hin)%list_elem_of_fmap Hreg Hrh. simpl in Heq. subst g'.
    apply Hnew in Hin as (? & _ & _ & _ & reg' & ? & Hreg' & Hrh' & _).
    assert (a = h) by congruence. lia.
  - intros a Ha. rewrite G1, Keepg; [by apply Sr|].
    intros ([k [h g']] & Heq & Hin)%list_elem_of_fmap. simpl in Heq. subst g'.
    apply Hnew in Hin as (_ & ? & _). lia.
  - intros a Ha. rewrite B1, B2. by apply Sb.
Qed.

(** ** [Prepare] *)

Record registry_ok (r : Registry) : Prop := {
  ro_tables : tables_ok (r_tables r);
  ro_runtimes : runtimes_wf (r_tables r) (r_store r);
}.

(** Everything of the registry but its maps, objects and generation. *)
Definition same_gauges (r r' : Registry) : Prop :=
  r_maxRetiredSnapshots r' = r_maxRetiredSnapshots r ∧ r_observer r' = r_observer r ∧
  r_closed r' = r_closed r ∧ r_activePlanSets r' = r_activePlanSets r ∧
  r_liveTunnelLeases r' = r_liveTunnelLeases r ∧ r_retired r' = r_retired r.

Section PrepareSpec.
Context (xxh64 : string → Z) (sha256 : string → string) `{Unicode}.

Record prepared (r : Registry) (us : list Upstream) (r' : Registry) (c : Candidate) : Prop := {
  pre_pending : c_done c = false;
  pre_owned : tables_extend (r_tables r) (c_owned c) (r_tables r');
  pre_store : store_ext (r_store r) (r_store r');
  pre_transports k a : runtime_of (t_transports (r_tables r')) k = Some a →
    runtime_of (t_transports (r_tables r)) k = Some a ∨ (s_next (r_store r) ≤ a)%nat;
  pre_plans : ∃ ns, Normalize us = Ok ns ∧ dom (c_plans c) = list_to_set (up_id <$> ns) ∧
    plans_ok xxh64 (r_tables r') (c_owned c) ns (c_plans c);
  pre_budget : overBudget (c_stats c) = false;
}.

Definition rejected (r r' : Registry) : Prop :=
  r_tables r' = r_tables r ∧ store_ext (r_store r) (r_store r').

Lemma Prepare_spec r us cs tbs : registry_ok r → ∃ r' ns res,
  Prepare xxh64 sha256 r us cs tbs = Some (r', ns, res) ∧ same_gauges r r' ∧ registry_ok r' ∧
  match res with Ok c => prepared r us r' c | Err _ => rejected r r' end.
Proof.
  intros [Hok Hwf]. unfold Prepare.
  assert (Hfail : ∀ e, ∃ r' ns res, prepareFails r e = Some (r', ns, res) ∧ same_gauges r r' ∧
    registry_ok r' ∧ match res with Ok c => prepared r us r' c | Err _ => rejected r r' end).
  { intros e. do 3 eexists. split; [done|]. split; [done|]. split; [done|]. split; [done|apply store_ext_refl]. }
  destruct (prepareErrorLocked r) as [e|]; [apply Hfail|].
  destruct (Normalize us) as [normalized|e] eqn:Hn; [|apply Hfail].
  destruct (newMaterialIndex cs tbs) as [materials|e]; [|apply Hfail]. clear Hfail.
  set (x := mkTx (r_tables r) (r_store r) (r_generation r) noRefs zeroPrepareStats).
  destruct (prepareUpstreams xxh64 sha256 materials normalized ∅ x) as [res x'] eqn:Hp.
  destruct (prepareUpstreams_step xxh64 sha256 materials [] normalized ∅ x res x') as [[d Hstep] Hres];
    [done|by intros id p; rewrite lookup_empty|by rewrite dom_empty_L|done|done|].
  pose proof (ts_owned _ _ _ Hstep) as Hd. pose proof (ts_tables _ _ _ Hstep) as Htab.
  assert (Ho : x_owned x' = d) by (rewrite Hd; by destruct d).
  destruct res as [plans|e].
  - destruct (Hres _ eq_refl) as (Hplans & Hdom & Hbudget). do 3 eexists. split; [done|]. split; [done|].
    split; [split; [by eapply tables_extend_ok|by apply (ts_wf _ _ _ Hstep)]|].
    split; simpl; rewrite ?Ho in *; [done|done|apply (ts_store _ _ _ Hstep)|
      apply (ts_transports _ _ _ Hstep)| |done].
    by exists normalized.
  - unfold rollbackLocked. rewrite Ho.
    destruct (releaseRefsLocked_total (x_tables x') (x_store x') d) as (t2 & dt & dh & cleanup & Hrel & Hr);
      [by eapply tables_extend_ok|by eapply extends_covers|].
    rewrite Hrel. simpl. do 3 eexists. split; [done|]. split; [done|].
    assert (t2 = r_tables r) as Ht2 by (by eapply (rollback_tables (r_tables r))).
    split; [split; simpl|split; [done|]].
    + by rewrite Ht2.
    + eapply released_wf; [by apply (ts_wf _ _ _ Hstep)|done].
    + by eapply (rollback_store x).
Qed.

(** C12: [Prepare] is a transaction.  It never panics.  When it fails, every map
    of the registry is exactly as before and every object that existed before
    is untouched.  When it succeeds, the maps grew by exactly the references
    the candidate owns, no existing runtime was replaced, there is one plan per
    normalised upstream, each with a compiled balancer and backed by runtimes
    the candidate's references pin, and the balancers fit the snapshot's
    budgets. *)
Theorem Prepare_transaction r us cs tbs : registry_ok r → ∃ r' ns res,
  Prepare xxh64 sha256 r us cs tbs = Some (r', ns, res) ∧ same_gauges r r' ∧ registry_ok r' ∧
  match res with Ok c => prepared r us r' c | Err _ => rejected r r' end.
Proof. apply Prepare_spec. Qed.
End PrepareSpec.

(** ** A concrete transaction *)

Lemma empty_registry_ok maxRetired observer closed generation active leases retired :
  registry_ok (mkRegistry maxRetired observer closed emptyTables emptyStore generation active leases retired).
Proof. split; split; try apply map_Forall_empty; done. Qed.

Definition demo_registry : Registry := mkRegistry 4 true false emptyTables emptyStore 0 0 0 [].

Example demo_Prepare :
  match @Prepare (fun _ => 0) (fun s => s) ascii_only_unicode demo_registry [demo_upstream] [] [] with
  | Some (r, _, Ok c) =>
      (LiveEndpoints (statsLocked r), LiveTransports (statsLocked r), LiveHealthTrackers (statsLocked r),
       LiveRetryBudgets (statsLocked r), length (o_endpointIDs (c_owned c))) = (2, 1, 1, 1, 2%nat)
  | _ => False
  end.
Proof. vm_compute. reflexivity. Qed.

Lemma Prepare_transaction_witness : registry_ok demo_registry ∧ ∃ r' ns res,
  @Prepare (fun _ => 0) (fun s => s) ascii_only_unicode demo_registry [demo_upstream] [] [] =
    Some (r', ns, res) ∧ same_gauges demo_registry r'.
Proof.
  assert (Hok : registry_ok demo_registry) by apply empty_registry_ok. split; [exact Hok|].
  destruct (@Prepare_transaction (fun _ => 0) (fun s => s) ascii_only_unicode demo_registry
              [demo_upstream] [] [] Hok) as (r' & ns & res & Hp & Hg & _).
  exact (ex_intro _ r' (ex_intro _ ns (ex_intro _ res (conj Hp Hg)))).
Defined.
