(* ===== verification/Lifecycle.v ===== *)
(** * The lifecycle of upstream generations ([plan.go], [registry.go], [reaper.go])

    Candidates are committed to plan sets or rolled back, requests take and
    drop references on plan sets without a lock, retired sets are reaped in the
    background once their last reference is gone, and tunnels pin a transport
    beyond the set it came from.  The registry, the candidates, the plan sets,
    the leases and a running reaper pass form a world, and every atomic action
    of a goroutine is an event that [exec] runs on it:

    - a critical section of [Registry.mu] is one event, except that a reaper
      pass reads the lock-free counters of the plan sets one by one while it
      holds the mutex;
    - a compare-and-swap loop is one event, its successful round;
    - what a goroutine does after unlocking, closing transports and notifying
      the observer, is queued as a [tail] and runs at any later time.

    [Prepare] checks admission and normalises before it locks; a call that
    fails there has no effect, so the whole call is one event as well.  The
    transports its rollback closes were created under the same lock and are
    known to nobody else, so closing them belongs to that event too. *)

From S2P Require Import Prelude GoStrings NetAddr Predicate Apportion Wrr HashKey Chash Url Resources UpstreamConfig X509 Fingerprint Health Budget RefTable Plan Registry RegistryTx.
#[local] Open Scope Z_scope.
#[local] Open Scope list_scope.

(** ** Plan sets *)

Record PlanSet := mkPlanSet {
  set_plans : gmap string Plan;
  set_refs : Z;
  set_retired : bool;
  set_finalized : bool;
  set_owned : resourceRefs;
}.

Definition with_refs (s : PlanSet) (refs : Z) : PlanSet :=
  mkPlanSet (set_plans s) refs (set_retired s) (set_finalized s) (set_owned s).

(** [None] when the count is no longer positive. *)
Definition TryAcquire (s : PlanSet) : option PlanSet :=
  if set_refs s <=? 0 then None else Some (with_refs s (set_refs s + 1)).

(** [None] is the underflow panic. *)
Definition set_Release (s : PlanSet) : option PlanSet :=
  if set_refs s <=? 0 then None else Some (with_refs s (set_refs s - 1)).

(** The retired flag after a successful compare-and-swap. *)
Definition mark_retired (s : PlanSet) : PlanSet :=
  mkPlanSet (set_plans s) (set_refs s) true (set_finalized s) (set_owned s).

Definition with_gauges (r : Registry) (active leases : Z) (retired : list nat) : Registry :=
  mkRegistry (r_maxRetiredSnapshots r) (r_observer r) (r_closed r) (r_tables r) (r_store r)
    (r_generation r) active leases retired.

(** [None] is the underflow panic. *)
Definition registerRetired (r : Registry) (set : nat) : option Registry :=
  if r_activePlanSets r <=? 0 then None
  else Some (with_gauges r (r_activePlanSets r - 1) (r_liveTunnelLeases r) (r_retired r ++ [set])).

(** ** Candidates *)

(** Work left to a goroutine once it has unlocked. *)
Record tail := mkTail { tl_close : list nat; tl_notify : list notification }.

Definition noTail : tail := mkTail [] [].

(** [None] when the candidate already reached a terminal state. *)
Definition Commit (r : Registry) (c : Candidate) : option (Registry * Candidate * PlanSet) :=
  if c_done c then None
  else Some (with_gauges r (r_activePlanSets r + 1) (r_liveTunnelLeases r) (r_retired r),
             mkCandidate (c_plans c) noRefs (c_stats c) true,
             mkPlanSet (c_plans c) 1 false false (c_owned c)).

Definition releaseRefs (r : Registry) (owned : resourceRefs)
    : option (Registry * CleanupStats * list nat) :=
  '(t, st, cleanup, transports) ← releaseRefsLocked (r_tables r) (r_store r) owned;
  Some (set_runtime r t st (r_generation r), cleanup, transports).

(** [None] is a reference underflow panic. *)
Definition Rollback (r : Registry) (c : Candidate) : option (Registry * Candidate * tail) :=
  if c_done c then Some (r, c, noTail)
  else
    '(r, cleanup, transports) ← releaseRefs r (c_owned c);
    let current := statsLocked r in
    let stats := with_current (c_stats c) current in
    Some (r, mkCandidate (c_plans c) noRefs stats true,
          mkTail transports
            (notify r (RegistryCleaned cleanup current) ++ notify r (RegistryRolledBack stats))).

(** ** Tunnel leases *)

Record TunnelLease := mkLease { l_key : transportKey; l_runtime : nat; l_released : bool }.

#[global] Instance TunnelLease_eq_dec : EqDecision TunnelLease.
Proof. solve_decision. Defined.

Definition set_transports (t : tables) (ts : gmap transportKey (entry nat)) : tables :=
  mkTables (t_endpoints t) ts (t_selections t) (t_health t) (t_budgets t).

(** [None] is [ErrNoEndpoint]. *)
Definition AcquireTunnelLease (r : Registry) (key : transportKey) (transport : nat)
    : option (Registry * TunnelLease) :=
  match t_transports (r_tables r) !! key with
  | None => None
  | Some e =>
      if negb (Nat.eqb (e_runtime e) transport) || (e_refs e <=? 0) then None
      else
        let t := set_transports (r_tables r)
                   (<[key := mkEntry (e_runtime e) (e_refs e + 1)]> (t_transports (r_tables r))) in
        let r := set_runtime r t (r_store r) (r_generation r) in
        Some (with_gauges r (r_activePlanSets r) (r_liveTunnelLeases r + 1) (r_retired r),
              mkLease key transport false)
  end.

(** [None] is the underflow panic. *)
Definition lease_Release (r : Registry) (l : TunnelLease) : option (Registry * TunnelLease * tail) :=
  if l_released l then Some (r, l, noTail)
  else
    match t_transports (r_tables r) !! l_key l with
    | None => None
    | Some e =>
        if negb (Nat.eqb (e_runtime e) (l_runtime l)) || (e_refs e <=? 0)
           || (r_liveTunnelLeases r <=? 0) then None
        else
          '(ts, dropped) ← table_release (t_transports (r_tables r)) (l_key l);
          let r := set_runtime r (set_transports (r_tables r) ts) (r_store r) (r_generation r) in
          let r := with_gauges r (r_activePlanSets r) (r_liveTunnelLeases r - 1) (r_retired r) in
          let cleanup :=
            match dropped with
            | None => mkCleanup 0 1 0 0 0 []
            | Some _ => mkCleanup 0 1 1 0 0 (retireDelta [] (l_key l))
            end in
          Some (r, mkLease (l_key l) (l_runtime l) true,
                mkTail (option_list dropped) (notify r (RegistryCleaned cleanup (statsLocked r))))
    end.

(** ** The reaper *)

(** A pass under way: sets left to look at, sets kept and sets to finalise. *)
Record reaper := mkReaper {
  q_todo : list nat;
  q_survivors : list nat;
  q_finalized : list nat;
}.

(** Whether the set is finalised by this round, and its flag. *)
Definition checkSet (s : PlanSet) : PlanSet * bool :=
  if negb (set_refs s =? 0) || set_finalized s then (s, false)
  else (mkPlanSet (set_plans s) (set_refs s) (set_retired s) true (set_owned s), true).

Definition mergeCleanup (a b : CleanupStats) : CleanupStats :=
  mkCleanup (ReleasedEndpoints a + ReleasedEndpoints b) (ReleasedTransports a + ReleasedTransports b)
    (ClosedTransports a + ClosedTransports b) (ReleasedHealthTrackers a + ReleasedHealthTrackers b)
    (ReleasedRetryBudgets a + ReleasedRetryBudgets b)
    (foldl addTransportGenerationDelta (cs_transportGenerations a) (cs_transportGenerations b)).

Definition disown (s : PlanSet) : PlanSet :=
  mkPlanSet (set_plans s) (set_refs s) (set_retired s) (set_finalized s) noRefs.

(** Plan sets, each with the number of references handed out and not yet
    released; that number is not part of the program. *)
Notation handles := (gmap nat (PlanSet * Z)).

(** [None] is a reference underflow panic. *)
Fixpoint reapFinalized (r : Registry) (sets : handles) (ids : list nat) (cleanup : CleanupStats)
    (transports : list nat) : option (Registry * handles * CleanupStats * list nat) :=
  match ids with
  | [] => Some (r, sets, cleanup, transports)
  | i :: ids =>
      match sets !! i with
      | None => None
      | Some (s, held) =>
          '(r, released, closed) ← releaseRefs r (set_owned s);
          reapFinalized r (<[i := (disown s, held)]> sets) ids (mergeCleanup cleanup released)
            (transports ++ closed)
      end
  end.

(** The pass after its loop, up to the unlock. *)
Definition reapFinish (r : Registry) (sets : handles) (q : reaper) : option (Registry * handles * tail) :=
  let r := with_gauges r (r_activePlanSets r) (r_liveTunnelLeases r) (q_survivors q) in
  '(r, sets, cleanup, transports) ← reapFinalized r sets (q_finalized q) zeroCleanup [];
  Some (r, sets,
        mkTail transports
          (match q_finalized q with
           | [] => []
           | _ => notify r (RegistryCleaned cleanup (statsLocked r))
           end)).

(** The test of [Close] after each pass. *)
Definition closeReady (s : RegistryStats) : bool :=
  (LiveEndpoints s =? 0) && (LiveTransports s =? 0) && (LiveSelectionStates s =? 0)
  && (LiveHealthTrackers s =? 0) && (LiveRetryBudgets s =? 0) && (ActivePlanSets s =? 0)
  && (RetiredPlanSets s =? 0) && (LiveTunnelLeases s =? 0).

Definition markClosed (r : Registry) : Registry :=
  mkRegistry (r_maxRetiredSnapshots r) (r_observer r) true (r_tables r) (r_store r)
    (r_generation r) (r_activePlanSets r) (r_liveTunnelLeases r) (r_retired r).

(** ** The world *)

(** The mutex is held exactly while a reaper pass is under way. *)
Record world := mkWorld {
  w_registry : Registry;
  w_candidates : gmap nat Candidate;
  w_sets : handles;
  w_leases : gmap nat TunnelLease;
  w_next : nat;
  w_reaper : option reaper;
  w_tails : list tail;
  w_log : list notification;
}.

Inductive event :=
| EPrepare (us : list Upstream) (cs : list (option Certificate)) (tbs : list (option TrustBundle))
| ECommit (candidate : nat)
| ERollback (candidate : nat)
| ETryAcquire (set : nat)
| ERelease (set : nat)
| ERetire (set : nat)
| EReapBegin
| EReapCheck
| EReapFinish
| EAcquireLease (key : transportKey) (transport : nat)
| EReleaseLease (lease : nat)
| EClose
| ETail (index : nat)
| ESelect (set : nat) (upstream : string) (req : option request) (attempted : option AttemptSet)
| EObserve (selection : Selection) (o : Observation)
| EActivate (set : nat) (upstream : string) (stopped : bool).

(** [Blocked]: the action cannot happen now, because the mutex is taken, the
    object does not exist or the caller holds no reference to release. *)
Inductive reaction := Blocked | Panicked | Done (w : world).

Definition with_registry (w : world) (r : Registry) : world :=
  mkWorld r (w_candidates w) (w_sets w) (w_leases w) (w_next w) (w_reaper w) (w_tails w) (w_log w).

Definition with_sets (w : world) (sets : handles) : world :=
  mkWorld (w_registry w) (w_candidates w) sets (w_leases w) (w_next w) (w_reaper w) (w_tails w) (w_log w).

Definition with_reaper (w : world) (q : option reaper) : world :=
  mkWorld (w_registry w) (w_candidates w) (w_sets w) (w_leases w) (w_next w) q (w_tails w) (w_log w).

Definition queue_tail (w : world) (tl : tail) : world :=
  mkWorld (w_registry w) (w_candidates w) (w_sets w) (w_leases w) (w_next w) (w_reaper w)
    (w_tails w ++ [tl]) (w_log w).

Definition with_candidate (w : world) (i : nat) (c : Candidate) : world :=
  mkWorld (w_registry w) (<[i := c]> (w_candidates w)) (w_sets w) (w_leases w) (w_next w)
    (w_reaper w) (w_tails w) (w_log w).

Definition with_store (w : world) (st : store) : world :=
  let r := w_registry w in with_registry w (set_runtime r (r_tables r) st (r_generation r)).

Definition with_lease (w : world) (i : nat) (l : TunnelLease) : world :=
  mkWorld (w_registry w) (w_candidates w) (w_sets w) (<[i := l]> (w_leases w)) (w_next w)
    (w_reaper w) (w_tails w) (w_log w).

(** A new object takes the next number. *)
Definition advance (w : world) : world :=
  mkWorld (w_registry w) (w_candidates w) (w_sets w) (w_leases w) (S (w_next w)) (w_reaper w)
    (w_tails w) (w_log w).

Definition log (w : world) (ns : list notification) : world :=
  mkWorld (w_registry w) (w_candidates w) (w_sets w) (w_leases w) (w_next w) (w_reaper w)
    (w_tails w) (w_log w ++ ns).

(** Runs [k] on an object, or blocks. *)
Definition on {A} (o : option A) (k : A → reaction) : reaction :=
  match o with None => Blocked | Some a => k a end.

(** Runs [k] on the result of a call that panics on [None]. *)
Definition call {A} (o : option A) (k : A → reaction) : reaction :=
  match o with None => Panicked | Some a => k a end.

(** Runs [k] with the mutex. *)
Definition locked (w : world) (k : reaction) : reaction :=
  match w_reaper w with None => k | Some _ => Blocked end.

Section Exec.
Context (xxh64 : string → Z) (sha256 : string → string) `{Unicode}.

Definition exec_Prepare (w : world) us cs tbs : reaction :=
  call (Prepare xxh64 sha256 (w_registry w) us cs tbs) (fun '(r, ns, res) =>
    let w := log (with_registry w r) ns in
    match res with
    | Err _ => Done w
    | Ok c => Done (advance (with_candidate w (w_next w) c))
    end).

Definition exec_Commit (w : world) (i : nat) : reaction :=
  on (w_candidates w !! i) (fun c =>
    match Commit (w_registry w) c with
    | None => Done w
    | Some (r, c, s) =>
        Done (advance (with_sets (with_candidate (with_registry w r) i c)
                         (<[w_next w := (s, 0)]> (w_sets w))))
    end).

Definition exec_Rollback (w : world) (i : nat) : reaction :=
  on (w_candidates w !! i) (fun c =>
    call (Rollback (w_registry w) c) (fun '(r, c, tl) =>
      Done (queue_tail (with_candidate (with_registry w r) i c) tl))).

Definition exec_TryAcquire (w : world) (i : nat) : reaction :=
  on (w_sets w !! i) (fun '(s, held) =>
    match TryAcquire s with
    | None => Done w
    | Some s => Done (with_sets w (<[i := (s, held + 1)]> (w_sets w)))
    end).

Definition exec_Release (w : world) (i : nat) : reaction :=
  on (w_sets w !! i) (fun '(s, held) =>
    if held <=? 0 then Blocked
    else call (set_Release s) (fun s => Done (with_sets w (<[i := (s, held - 1)]> (w_sets w))))).

(** The owner's reference passes to the retiring goroutine, which releases it
    after [registerRetired]. *)
Definition exec_Retire (w : world) (i : nat) : reaction :=
  on (w_sets w !! i) (fun '(s, held) =>
    if set_retired s then Done w
    else locked w (call (registerRetired (w_registry w) i) (fun r =>
      Done (queue_tail (with_sets (with_registry w r) (<[i := (mark_retired s, held + 1)]> (w_sets w)))
              (mkTail [] (notify r (RegistryRetired (statsLocked r)))))))).

Definition exec_ReapBegin (w : world) : reaction :=
  locked w (match r_retired (w_registry w) with
            | [] => Done w
            | l => Done (with_reaper w (Some (mkReaper l [] [])))
            end).

Definition exec_ReapCheck (w : world) : reaction :=
  on (w_reaper w) (fun q =>
    match q_todo q with
    | [] => Blocked
    | i :: todo =>
        on (w_sets w !! i) (fun '(s, held) =>
          let '(s, final) := checkSet s in
          Done (with_reaper (with_sets w (<[i := (s, held)]> (w_sets w)))
                  (Some (if final
                         then mkReaper todo (q_survivors q) (q_finalized q ++ [i])
                         else mkReaper todo (q_survivors q ++ [i]) (q_finalized q)))))
    end).

Definition exec_ReapFinish (w : world) : reaction :=
  on (w_reaper w) (fun q =>
    match q_todo q with
    | _ :: _ => Blocked
    | [] =>
        call (reapFinish (w_registry w) (w_sets w) q) (fun '(r, sets, tl) =>
          Done (queue_tail (with_reaper (with_sets (with_registry w r) sets) None) tl))
    end).

Definition exec_AcquireLease (w : world) (key : transportKey) (transport : nat) : reaction :=
  match AcquireTunnelLease (w_registry w) key transport with
  | None => Done w
  | Some (r, l) => Done (advance (with_lease (with_registry w r) (w_next w) l))
  end.

Definition exec_ReleaseLease (w : world) (i : nat) : reaction :=
  on (w_leases w !! i) (fun l =>
    call (lease_Release (w_registry w) l) (fun '(r, l, tl) =>
      Done (queue_tail (with_lease (with_registry w r) i l) tl))).

Definition exec_Tail (w : world) (i : nat) : reaction :=
  on (w_tails w !! i) (fun tl =>
    let resume w tl := mkWorld (w_registry w) (w_candidates w) (w_sets w) (w_leases w) (w_next w)
                         (w_reaper w) (<[i := tl]> (w_tails w)) (w_log w) in
    match tl_close tl, tl_notify tl with
    | a :: l, ns => Done (resume (with_store w (closeTransport (r_store (w_registry w)) a)) (mkTail l ns))
    | [], n :: ns => Done (resume (log w [n]) (mkTail [] ns))
    | [], [] => Blocked
    end).

(** The plan a request finds in a set. *)
Definition on_plan (w : world) (i : nat) (id : string) (k : Plan → reaction) : reaction :=
  on (w_sets w !! i) (fun '(s, _) => on (set_plans s !! id) k).

Definition exec (w : world) (e : event) : reaction :=
  match e with
  | EPrepare us cs tbs => locked w (exec_Prepare w us cs tbs)
  | ECommit i => locked w (exec_Commit w i)
  | ERollback i => locked w (exec_Rollback w i)
  | ETryAcquire i => exec_TryAcquire w i
  | ERelease i => exec_Release w i
  | ERetire i => exec_Retire w i
  | EReapBegin => exec_ReapBegin w
  | EReapCheck => exec_ReapCheck w
  | EReapFinish => exec_ReapFinish w
  | EAcquireLease key transport => locked w (exec_AcquireLease w key transport)
  | EReleaseLease i => locked w (exec_ReleaseLease w i)
  | EClose => locked w (Done (with_registry w (markClosed (w_registry w))))
  | ETail i => exec_Tail w i
  | ESelect i id req attempted =>
      on_plan w i id (fun p =>
        Done (with_store w (SelectNext xxh64 (r_store (w_registry w)) (Some p) req attempted).2))
  | EObserve s o => Done (with_store w (selection_Observe (r_store (w_registry w)) s o))
  | EActivate i id stopped =>
      on_plan w i id (fun p => Done (with_store w (ActivateHealth stopped (r_store (w_registry w)) p)))
  end.

Definition initial (r : Registry) : world := mkWorld r ∅ ∅ ∅ 0 None [] [].

(** The worlds the program can reach from a new registry. *)
Inductive reachable : world → Prop :=
| reach_initial maxRetired workers queue observer r :
    NewRegistry maxRetired workers queue observer = Some r → reachable (initial r)
| reach_step w e w' : reachable w → exec w e = Done w' → reachable w'.
End Exec.
