(* ===== verification/LifecycleSafe.v ===== *)
(** * Safety of the generation lifecycle

    The invariant of every reachable world of [Lifecycle]: the registry's
    reference counts are exactly the references its owners hold, plan sets
    count their holders, the runtimes of live plans are in service, and what is
    queued for closing is referenced by nobody.  From it follow the absence of
    panics, the liveness of what a request or a tunnel uses, and that a drained
    registry is empty after one reaper pass. *)

From S2P Require Import Prelude GoStrings NetAddr Predicate Apportion Wrr HashKey Chash Url Resources UpstreamConfig X509 Fingerprint Health Budget RefTable Plan Registry RegistryTx Lifecycle.
#[local] Open Scope Z_scope.
#[local] Open Scope list_scope.

(** ** Owners and accounting *)

(** The sets a running pass has marked but not yet released. *)
Definition finalizing (w : world) : list nat :=
  match w_reaper w with None => [] | Some q => q_finalized q end.

(** The plan collections in use, with the references that pin them. *)
Inductive owner (w : world) : gmap string Plan → resourceRefs → Prop :=
| owner_candidate i c : w_candidates w !! i = Some c → c_done c = false →
    owner w (c_plans c) (c_owned c)
| owner_set i s held : w_sets w !! i = Some (s, held) →
    set_finalized s = false ∨ i ∈ finalizing w → owner w (set_plans s) (set_owned s).

(** The total of a measure of references over all owners. *)
Definition owned_sum (f : resourceRefs → Z) (w : world) : Z :=
  map_sum (fun c => f (c_owned c)) (w_candidates w) +
  map_sum (fun h => f (set_owned h.1)) (w_sets w).

Definition lease_on (k : transportKey) (l : TunnelLease) : Z :=
  if l_released l then 0 else if decide (l_key l = k) then 1 else 0.

Definition leases_on (w : world) (k : transportKey) : Z := map_sum (lease_on k) (w_leases w).

(** The counts in the maps are those references, and the leases. *)
Record accounted (t : tables) (sum : (resourceRefs → Z) → Z) (leases : transportKey → Z) : Prop := {
  ac_endpoints k : refs_of (t_endpoints t) k = sum (fun o => occurs k (o_endpointIDs o));
  ac_transports k : refs_of (t_transports t) k = sum (fun o => occurs k (o_transportKeys o)) + leases k;
  ac_selections k : refs_of (t_selections t) k = sum (fun o => occurs k (o_selectionKeys o));
  ac_health k : refs_of (t_health t) k = sum (fun o => occurs k (o_healthKeys o));
  ac_budgets k : refs_of (t_budgets t) k = sum (fun o => occurs k (o_budgetKeys o));
}.

Lemma accounted_same t sum leases sum' leases' : accounted t sum leases →
  (∀ f, f noRefs = 0 → sum' f = sum f) → (∀ k, leases' k = leases k) → accounted t sum' leases'.
Proof. intros [] Hsum Hleases. split; intros k; rewrite Hsum, ?Hleases by done; auto. Qed.

Lemma accounted_extend t d t' sum leases sum' : accounted t sum leases → tables_extend t d t' →
  (∀ f, sum' f = sum f + f d) → accounted t' sum' leases.
Proof.
  intros [A1 A2 A3 A4 A5] [(_ & E1 & _) (_ & E2 & _) (_ & E3 & _) (_ & E4 & _) (_ & E5 & _)] Hsum.
  split; intros k; rewrite Hsum, ?E1, ?E2, ?E3, ?E4, ?E5, ?A1, ?A2, ?A3, ?A4, ?A5; lia.
Qed.

Lemma accounted_release t o t' dt dh sum leases sum' : accounted t sum leases →
  refs_released t o t' dt dh → (∀ f, f noRefs = 0 → sum' f = sum f - f o) →
  accounted t' sum' leases.
Proof.
  intros [A1 A2 A3 A4 A5] [[d1 [_ E1 _ _ _]] [_ E2 _ _ _] [d3 [_ E3 _ _ _]] [_ E4 _ _ _] [d5 [_ E5 _ _ _]]] Hsum.
  split; intros k; rewrite Hsum, ?E1, ?E2, ?E3, ?E4, ?E5, ?A1, ?A2, ?A3, ?A4, ?A5 by done; lia.
Qed.

Lemma owner_share w plans o f : owner w plans o → (∀ o, 0 ≤ f o) → f o ≤ owned_sum f w.
Proof.
  intros Hown Hf. unfold owned_sum.
  pose proof (map_sum_nonneg (fun c => f (c_owned c)) (w_candidates w) (fun c => Hf _)).
  pose proof (map_sum_nonneg (fun h => f (set_owned h.1)) (w_sets w) (fun c => Hf _)).
  destruct Hown as [i c Hc _|i s held Hs _].
  - pose proof (map_sum_elem_le (fun c => f (c_owned c)) _ _ _ (fun c => Hf _) Hc). simpl in *. lia.
  - pose proof (map_sum_elem_le (fun h => f (set_owned h.1)) _ _ _ (fun c => Hf _) Hs). simpl in *. lia.
Qed.

Lemma lease_on_nonneg k l : 0 ≤ lease_on k l.
Proof. unfold lease_on. repeat case_decide; destruct (l_released l); lia. Qed.

Lemma lease_on_open k l : l_released l = false → lease_on k l = if decide (l_key l = k) then 1 else 0.
Proof. intros Hl. unfold lease_on. by rewrite Hl. Qed.

Lemma lease_on_closed k l : l_released l = true → lease_on k l = 0.
Proof. intros Hl. unfold lease_on. by rewrite Hl. Qed.

Lemma leases_on_nonneg w k : 0 ≤ leases_on w k.
Proof. apply map_sum_nonneg, lease_on_nonneg. Qed.

Lemma owner_covers w t plans o : accounted t (fun f => owned_sum f w) (leases_on w) →
  owner w plans o → covers t o.
Proof.
  intros [A1 A2 A3 A4 A5] Hown. split; intros k; rewrite ?A1, ?A2, ?A3, ?A4, ?A5.
  1, 3, 4, 5: eapply (owner_share _ _ _ (fun o => occurs k _) Hown); intros; apply occurs_nonneg.
  pose proof (leases_on_nonneg w k).
  assert (occurs k (o_transportKeys o) ≤ owned_sum (fun o => occurs k (o_transportKeys o)) w); [|lia].
  eapply (owner_share _ _ _ (fun o => occurs k _) Hown). intros. apply occurs_nonneg.
Qed.

(** ** What one step keeps of the maps *)

(** A runtime is never exchanged under a key that stays. *)
Record tables_keep (t t' : tables) : Prop := {
  tk_transports k : is_Some (t_transports t' !! k) → is_Some (t_transports t !! k) →
    runtime_of (t_transports t') k = runtime_of (t_transports t) k;
  tk_health k : is_Some (t_health t' !! k) → is_Some (t_health t !! k) →
    runtime_of (t_health t') k = runtime_of (t_health t) k;
}.

Lemma tables_keep_refl t : tables_keep t t.
Proof. by split. Qed.

Lemma tables_keep_extend t d t' : tables_extend t d t' → tables_keep t t'.
Proof.
  intros [_ (_ & _ & Ht) _ (_ & _ & Hh) _].
  split; intros k _ [e He]%runtime_of_Some; rewrite He; [by apply Ht|by apply Hh].
Qed.

Lemma tables_keep_release t o t' dt dh : refs_released t o t' dt dh → tables_keep t t'.
Proof.
  intros [_ Rt _ Rh _]. split; intros k Hk _.
  - by apply (released_runtime _ _ _ _ Rt).
  - by apply (released_runtime _ _ _ _ Rh).
Qed.

Lemma key_present {K R} `{Countable K} (t : gmap K (entry R)) ks k :
  table_ok t → k ∈ ks → occurs k ks ≤ refs_of t k → is_Some (t !! k).
Proof. intros Hok Hk%occurs_pos Hle. apply refs_pos; [done|lia]. Qed.

Lemma runtime_present {K R} `{Countable K} (t : gmap K (entry R)) k r :
  runtime_of t k = Some r → is_Some (t !! k).
Proof. intros Hr. apply runtime_of_Some. by rewrite Hr. Qed.

Lemma plan_backed_keep t t' o p : tables_keep t t' → tables_ok t' → covers t' o →
  plan_backed t o p → plan_backed t' o p.
Proof.
  intros [Kt Kh] [_ Ot _ Oh _] [_ Ct _ Ch _] [[Hin Hrun] Hhealth]. split.
  - split; [done|]. rewrite Kt; [done|by eapply key_present|by eapply runtime_present].
  - eapply Forall_impl; [exact Hhealth|]. intros e He h Hh. destruct (He h Hh) as (k & g & Hk & Hr).
    exists k, g. split; [done|]. rewrite Kh; [done|by eapply key_present|by eapply runtime_present].
Qed.

(** A transport on its way to being closed is in no map. *)
Definition pending_close (t : tables) (st : store) (a : nat) : Prop :=
  (a < s_next st)%nat ∧ ∀ k, runtime_of (t_transports t) k ≠ Some a.

Lemma pending_close_mono t st t' st' a : (s_next st ≤ s_next st')%nat →
  (∀ k b, runtime_of (t_transports t') k = Some b →
     runtime_of (t_transports t) k = Some b ∨ (s_next st ≤ b)%nat) →
  pending_close t st a → pending_close t' st' a.
Proof. intros Hn Hold [Ha Hk]. split; [lia|]. intros k [Hb|Hb]%Hold; [by apply (Hk k)|lia]. Qed.

(** ** The resource part of the invariant *)

Record resources_ok (w : world) : Prop := {
  rs_registry : registry_ok (w_registry w);
  rs_account : accounted (r_tables (w_registry w)) (fun f => owned_sum f w) (leases_on w);
  rs_backed plans o id p : owner w plans o → plans !! id = Some p →
    plan_backed (r_tables (w_registry w)) o p;
  rs_leases i l : w_leases w !! i = Some l → l_released l = false →
    runtime_of (t_transports (r_tables (w_registry w))) (l_key l) = Some (l_runtime l);
  rs_tails tl a : tl ∈ w_tails w → a ∈ tl_close tl →
    pending_close (r_tables (w_registry w)) (r_store (w_registry w)) a;
}.

(** A key with a lease stays. *)
Lemma lease_present w t i l : table_ok (t_transports t) →
  accounted t (fun f => owned_sum f w) (leases_on w) → w_leases w !! i = Some l →
  l_released l = false → is_Some (t_transports t !! l_key l).
Proof.
  intros Hok [_ A2 _ _ _] Hl Hrel. apply refs_pos; [done|]. rewrite A2.
  pose proof (map_sum_elem_le (lease_on (l_key l)) _ _ _ (lease_on_nonneg _) Hl) as Hle.
  rewrite lease_on_open, decide_True in Hle by done. unfold leases_on.
  assert (0 ≤ owned_sum (fun o => occurs (l_key l) (o_transportKeys o)) w); [|lia].
  unfold owned_sum.
  pose proof (map_sum_nonneg (fun c => occurs (l_key l) (o_transportKeys (c_owned c))) (w_candidates w)
    (fun c => occurs_nonneg _ _)).
  pose proof (map_sum_nonneg (fun h => occurs (l_key l) (o_transportKeys (set_owned h.1))) (w_sets w)
    (fun c => occurs_nonneg _ _)). lia.
Qed.

(** How a step re-establishes it. *)
Lemma resources_step w w' : resources_ok w → registry_ok (w_registry w') →
  accounted (r_tables (w_registry w')) (fun f => owned_sum f w') (leases_on w') →
  tables_keep (r_tables (w_registry w)) (r_tables (w_registry w')) →
  (∀ plans o, owner w' plans o → owner w plans o ∨
     ∀ id p, plans !! id = Some p → plan_backed (r_tables (w_registry w')) o p) →
  (∀ i l, w_leases w' !! i = Some l → l_released l = false → w_leases w !! i = Some l ∨
     runtime_of (t_transports (r_tables (w_registry w'))) (l_key l) = Some (l_runtime l)) →
  (∀ tl a, tl ∈ w_tails w' → a ∈ tl_close tl →
     pending_close (r_tables (w_registry w')) (r_store (w_registry w')) a) →
  resources_ok w'.
Proof.
  intros [Hreg Hacc Hback Hlease Htails] Hreg' Hacc' Hkeep Hown Hl' Ht'. split; [done..| | |done].
  - intros plans o id p Ho Hp. destruct (Hown _ _ Ho) as [Ho'|Hnew]; [|by apply (Hnew id)].
    eapply plan_backed_keep; [done|apply Hreg'|by eapply owner_covers|by eapply Hback].
  - intros i l Hl Hrel. destruct (Hl' _ _ Hl Hrel) as [Hold|?]; [|done].
    pose proof (Hlease _ _ Hold Hrel) as Hr. destruct Hkeep as [Kt _].
    rewrite Kt; [done| |by eapply runtime_present].
    eapply lease_present; [apply (to_transports _ (ro_tables _ Hreg'))|done|exact Hl|done].
Qed.

(** ** Releasing the references of one owner *)

Record release_step (r : Registry) (o : resourceRefs) (r' : Registry) (closed : list nat) : Prop := {
  rl_ok : registry_ok r';
  rl_gauges : same_gauges r r';
  rl_account sum leases sum' : accounted (r_tables r) sum leases →
    (∀ f, f noRefs = 0 → sum' f = sum f - f o) → accounted (r_tables r') sum' leases;
  rl_keep : tables_keep (r_tables r) (r_tables r');
  rl_subset k a : runtime_of (t_transports (r_tables r')) k = Some a →
    runtime_of (t_transports (r_tables r)) k = Some a;
  rl_next : s_next (r_store r') = s_next (r_store r);
  rl_closed a : a ∈ closed → pending_close (r_tables r') (r_store r') a;
}.

(** A transport has one key. *)
Lemma transport_key_unique t st k k' a : runtimes_wf t st →
  runtime_of (t_transports t) k = Some a → runtime_of (t_transports t) k' = Some a → k = k'.
Proof.
  intros [Wt _ _] (_ & tr & Htr & <- & _)%Wt (_ & tr' & Htr' & <- & _)%Wt. congruence.
Qed.

Lemma releaseRefs_ok r o : registry_ok r → covers (r_tables r) o →
  ∃ r' cleanup closed, releaseRefs r o = Some (r', cleanup, closed) ∧ release_step r o r' closed.
Proof.
  intros [Hok Hwf] Hcov. unfold releaseRefs.
  destruct (releaseRefsLocked_total (r_tables r) (r_store r) o Hok Hcov)
    as (t' & dt & dh & cleanup & -> & Hrel). simpl. do 3 eexists. split; [done|].
  pose proof (released_wf _ _ _ _ _ _ Hwf Hrel) as Hwf'. apply runtimes_wf_unclose in Hwf'.
  destruct (retireRegistrations_spec (r_store r) (registrations_of dh)) as (Hnext & _).
  pose proof (rr_transports _ _ _ _ _ Hrel) as Rt.
  assert (Hsub : ∀ k a, runtime_of (t_transports t') k = Some a → runtime_of (t_transports (r_tables r)) k = Some a)
    by (intros k a Ha; by apply (released_kept _ _ _ _ _ _ Rt)).
  split; simpl; [|done| |by eapply tables_keep_release|exact Hsub|exact Hnext|].
  - split; [by eapply refs_released_ok|done].
  - intros sum leases sum' Hacc Hsum. by eapply accounted_release.
  - intros a ([k b] & -> & Hin)%list_elem_of_fmap. simpl.
    pose proof Hin as (_ & Hk & _)%(released_dropped _ _ _ _ Rt).
    apply (released_gone _ _ _ _ _ _ Rt) in Hin. split; [rewrite Hnext; by apply Hwf in Hk as [? _]|].
    intros k' Hk'. assert (k = k') as <- by (eapply (transport_key_unique (r_tables r)); [exact Hwf|exact Hk|by apply Hsub]).
    unfold runtime_of in Hk'. by rewrite Hin in Hk'.
Qed.

(** ** The plan-set part of the invariant *)

Definition active_gauge (h : PlanSet * Z) : Z := if set_retired h.1 then 0 else 1.
Definition lease_gauge (l : TunnelLease) : Z := if l_released l then 0 else 1.

Record sets_ok (sets : handles) (active : Z) (retired final : list nat) : Prop := {
  so_refs i s held : sets !! i = Some (s, held) →
    0 ≤ held ∧ set_refs s = held + (if set_retired s then 0 else 1);
  so_final i s held : sets !! i = Some (s, held) → set_finalized s = true →
    set_retired s = true ∧ set_refs s = 0 ∧ (i ∈ final ∨ set_owned s = noRefs);
  so_listed i : i ∈ retired ↔ ∃ s held, sets !! i = Some (s, held) ∧ set_retired s = true ∧
    (set_finalized s = false ∨ i ∈ final);
  so_distinct : NoDup retired;
  so_active : active = map_sum active_gauge sets;
}.

(** A pass partitions the retired sets. *)
Definition pass_ok (sets : handles) (retired : list nat) (q : reaper) : Prop :=
  q_todo q ++ q_survivors q ++ q_finalized q ≡ₚ retired ∧
  ∀ i s held, i ∈ q_finalized q → sets !! i = Some (s, held) → set_finalized s = true.

Definition unused {A} (m : gmap nat A) (n : nat) : Prop := ∀ i, (n ≤ i)%nat → m !! i = None.

Record world_ok (w : world) : Prop := {
  wo_resources : resources_ok w;
  wo_sets : sets_ok (w_sets w) (r_activePlanSets (w_registry w)) (r_retired (w_registry w)) (finalizing w);
  wo_pass q : w_reaper w = Some q → pass_ok (w_sets w) (r_retired (w_registry w)) q;
  wo_leases : r_liveTunnelLeases (w_registry w) = map_sum lease_gauge (w_leases w);
  wo_candidates i c : w_candidates w !! i = Some c → c_done c = true → c_owned c = noRefs;
  wo_unused : unused (w_candidates w) (w_next w) ∧ unused (w_sets w) (w_next w) ∧
    unused (w_leases w) (w_next w);
}.

Lemma unused_insert {A} (m : gmap nat A) n i x : unused m n → (i < n)%nat → unused (<[i := x]> m) n.
Proof. intros Hm Hi j Hj. rewrite lookup_insert_ne by lia. by apply Hm. Qed.

Lemma unused_next {A} (m : gmap nat A) n x : unused m n → unused (<[n := x]> m) (S n).
Proof. intros Hm j Hj. rewrite lookup_insert_ne by lia. apply Hm. lia. Qed.

Lemma unused_mono {A} (m : gmap nat A) n n' : unused m n → (n ≤ n')%nat → unused m n'.
Proof. intros Hm Hn j Hj. apply Hm. lia. Qed.

Lemma used_lt {A} (m : gmap nat A) n i x : unused m n → m !! i = Some x → (i < n)%nat.
Proof. intros Hm Hi. destruct (decide (i < n)%nat) as [|Hge]; [done|]. rewrite Hm in Hi by lia. done. Qed.

(** Updating one set without touching what it owns. *)
Lemma owned_sum_set w w' i s held s' held' f : w_sets w !! i = Some (s, held) → set_owned s' = set_owned s →
  w_candidates w' = w_candidates w → w_sets w' = <[i := (s', held')]> (w_sets w) →
  owned_sum f w' = owned_sum f w.
Proof.
  intros Hi Ho Hc Hs. unfold owned_sum. rewrite Hc, Hs, (map_sum_update _ _ _ _ _ Hi). simpl. rewrite Ho. lia.
Qed.

(** Steps that leave the maps alone and release no reference. *)
Lemma resources_still w w' : resources_ok w → registry_ok (w_registry w') →
  r_tables (w_registry w') = r_tables (w_registry w) →
  s_next (r_store (w_registry w')) = s_next (r_store (w_registry w)) →
  (∀ f, f noRefs = 0 → owned_sum f w' = owned_sum f w) → w_leases w' = w_leases w →
  (∀ plans o, owner w' plans o → owner w plans o) →
  (∀ tl a, tl ∈ w_tails w' → a ∈ tl_close tl → ∃ tl', tl' ∈ w_tails w ∧ a ∈ tl_close tl') →
  resources_ok w'.
Proof.
  intros Hw Hreg Ht Hn Hsum Hl Hown Htails. apply (resources_step w); try done.
  - rewrite Ht. eapply accounted_same; [apply Hw|done|]. intros k. unfold leases_on. by rewrite Hl.
  - rewrite Ht. apply tables_keep_refl.
  - auto.
  - intros i l. rewrite Hl. auto.
  - intros tl a Htl Ha. destruct (Htails _ _ Htl Ha) as (tl' & Hin & Ha').
    rewrite Ht. apply (pending_close_mono (r_tables (w_registry w)) (r_store (w_registry w)));
      [by rewrite Hn|by left|by eapply (rs_tails _ Hw)].
Qed.

(** ** Requests: taking and dropping references *)

(** A set that changes counters or flags only keeps the resource part. *)
Lemma resources_set w w' i s held s' held' : resources_ok w → w_sets w !! i = Some (s, held) →
  set_owned s' = set_owned s → set_plans s' = set_plans s →
  (set_finalized s' = false ∨ i ∈ finalizing w' → set_finalized s = false ∨ i ∈ finalizing w) →
  (∀ j, j ≠ i → j ∈ finalizing w' → j ∈ finalizing w) →
  w_sets w' = <[i := (s', held')]> (w_sets w) → w_candidates w' = w_candidates w →
  w_leases w' = w_leases w → registry_ok (w_registry w') →
  r_tables (w_registry w') = r_tables (w_registry w) →
  r_store (w_registry w') = r_store (w_registry w) →
  (∀ tl a, tl ∈ w_tails w' → a ∈ tl_close tl → ∃ tl', tl' ∈ w_tails w ∧ a ∈ tl_close tl') →
  resources_ok w'.
Proof.
  intros Hw Hi Ho Hp Hf Hother Hs Hc Hl Hreg Ht Hst Htails. eapply resources_still; try done.
  - by rewrite Hst.
  - intros f _. by eapply owned_sum_set.
  - intros plans o [j c Hj Hd|j t h Hj Hfin].
    + rewrite Hc in Hj. by eapply owner_candidate.
    + rewrite Hs in Hj. apply lookup_insert_Some in Hj as [[<- [= <- <-]]|[Hne Hj]].
      * rewrite Hp, Ho. eapply owner_set; [done|auto].
      * eapply owner_set; [exact Hj|]. destruct Hfin as [?|Hfin]; [by left|]. right. by apply Hother.
Qed.

(** The plan-set part when one set changes its counter. *)
Lemma sets_ok_counter sets active retired final i s held refs held' :
  sets_ok sets active retired final → sets !! i = Some (s, held) → 0 < set_refs s → 0 ≤ held' →
  refs = held' + (if set_retired s then 0 else 1) →
  sets_ok (<[i := (with_refs s refs, held')]> sets) active retired final.
Proof.
  intros [Hrefs Hfinal Hlisted Hnd Hact] Hi Hpos Hheld Href. split; [| | |done|].
  - intros j t h [[<- [= <- <-]]|[_ Hj]]%lookup_insert_Some; [done|eauto].
  - intros j t h [[<- [= <- <-]]|[_ Hj]]%lookup_insert_Some; [|eauto]. simpl. intros Hf.
    destruct (Hfinal _ _ _ Hi Hf) as (_ & ? & _). lia.
  - intros j. rewrite Hlisted. split; intros (t & h & Hj & Hr & Hf).
    + destruct (decide (j = i)) as [->|Hne].
      * rewrite Hi in Hj. injection Hj as <- <-. eexists _, _. by rewrite lookup_insert_eq.
      * exists t, h. by rewrite lookup_insert_ne by done.
    + apply lookup_insert_Some in Hj as [[<- [= <- <-]]|[_ Hj]]; eauto.
  - rewrite (map_sum_update _ _ _ _ _ Hi). unfold active_gauge at 2 3. simpl. lia.
Qed.

Lemma pass_ok_same sets sets' retired q : pass_ok sets retired q →
  (∀ i s held, sets' !! i = Some (s, held) → ∃ s' held', sets !! i = Some (s', held') ∧
     set_finalized s = set_finalized s') → pass_ok sets' retired q.
Proof.
  intros [Hperm Hfin] Hsame. split; [done|]. intros i s held Hi Hs.
  destruct (Hsame _ _ _ Hs) as (s' & held' & Hs' & ->). eauto.
Qed.

Lemma insert_finalized (sets : handles) i s held s' held' : sets !! i = Some (s, held) →
  set_finalized s' = set_finalized s →
  ∀ j t h, <[i := (s', held')]> sets !! j = Some (t, h) →
  ∃ t' h', sets !! j = Some (t', h') ∧ set_finalized t = set_finalized t'.
Proof. intros Hi Hf j t h [[<- [= <- <-]]|[_ Hj]]%lookup_insert_Some; eauto. Qed.

Lemma counter_ok w i s held refs held' : world_ok w → w_sets w !! i = Some (s, held) → 0 < set_refs s →
  0 ≤ held' → refs = held' + (if set_retired s then 0 else 1) →
  world_ok (with_sets w (<[i := (with_refs s refs, held')]> (w_sets w))).
Proof.
  intros [Hres Hsets Hpass Hl Hc (U1 & U2 & U3)] Hi Hpos Hheld Href. split; simpl; try done.
  - apply (resources_set w _ i s held (with_refs s refs) held'); try done; [apply Hres|eauto].
  - by eapply sets_ok_counter.
  - intros q Hq. eapply pass_ok_same; [by apply Hpass|]. by eapply insert_finalized.
  - split_and!; [done|apply unused_insert; [done|exact (used_lt _ _ _ _ U2 Hi)]|done].
Qed.

(** An event neither panics nor leaves the invariant. *)
Definition good (o : reaction) : Prop :=
  match o with Blocked => True | Panicked => False | Done w => world_ok w end.

Lemma on_good {A} (o : option A) k : (∀ a, o = Some a → good (k a)) → good (on o k).
Proof. intros Hk. destruct o; simpl; [by apply Hk|done]. Qed.

Lemma locked_good w k : (w_reaper w = None → good k) → good (locked w k).
Proof. intros Hk. unfold locked. destruct (w_reaper w); [done|by apply Hk]. Qed.

Lemma call_good {A} (o : option A) k : is_Some o → (∀ a, o = Some a → good (k a)) → good (call o k).
Proof. intros [a ->] Hk. by apply Hk. Qed.

Lemma TryAcquire_good w i : world_ok w → good (exec_TryAcquire w i).
Proof.
  intros Hw. apply on_good. intros [s held] Hi. unfold TryAcquire.
  destruct (set_refs s <=? 0) eqn:E; bool_hyps; [done|].
  destruct (so_refs _ _ _ _ (wo_sets _ Hw) _ _ _ Hi) as [Hh Hr]. apply (counter_ok _ _ _ held); [done..|lia|lia].
Qed.

Lemma Release_good w i : world_ok w → good (exec_Release w i).
Proof.
  intros Hw. apply on_good. intros [s held] Hi. destruct (held <=? 0) eqn:E; bool_hyps; [done|].
  destruct (so_refs _ _ _ _ (wo_sets _ Hw) _ _ _ Hi) as [Hh Hr].
  assert (0 < set_refs s) by (destruct (set_retired s); lia).
  unfold set_Release. rewrite (proj2 (Z.leb_gt _ _)) by done. simpl.
  apply (counter_ok _ _ _ held); [done..|lia|lia].
Qed.

(** ** Retirement *)

Lemma active_gauge_nonneg h : 0 ≤ active_gauge h.
Proof. unfold active_gauge. destruct (set_retired h.1); lia. Qed.

Lemma sets_ok_retire sets active retired i s held : sets_ok sets active retired [] →
  sets !! i = Some (s, held) → set_retired s = false →
  sets_ok (<[i := (mark_retired s, held + 1)]> sets) (active - 1) (retired ++ [i]) [].
Proof.
  intros [Hrefs Hfinal Hlisted Hnd Hact] Hi Hr.
  assert (Hf : set_finalized s = false).
  { destruct (set_finalized s) eqn:Hf; [|done]. destruct (Hfinal _ _ _ Hi Hf). congruence. }
  destruct (Hrefs _ _ _ Hi) as [Hh Href]. rewrite Hr in Href. split.
  - intros j t h [[<- [= <- <-]]|[_ Hj]]%lookup_insert_Some; [simpl; lia|eauto].
  - intros j t h [[<- [= <- <-]]|[_ Hj]]%lookup_insert_Some; [|eauto]. simpl. congruence.
  - intros j. rewrite elem_of_app, list_elem_of_singleton, Hlisted.
    destruct (decide (j = i)) as [->|Hne].
    + split; [|by right]. intros _. eexists _, _. rewrite lookup_insert_eq. by split_and!; [| |left].
    + rewrite lookup_insert_ne by done. split; [by intros [?|?]|by left].
  - apply NoDup_app. split_and!; [done| |apply NoDup_singleton].
    intros j Hj ->%list_elem_of_singleton. apply Hlisted in Hj as (t & h & Hj & Ht & _). congruence.
  - rewrite (map_sum_update _ _ _ _ _ Hi), Hact. unfold active_gauge at 3 4. simpl. rewrite Hr. lia.
Qed.

Lemma Retire_good w i : world_ok w → good (exec_Retire w i).
Proof.
  intros [Hres Hsets Hpass Hl Hc (U1 & U2 & U3)]. apply on_good. intros [s held] Hi.
  destruct (set_retired s) eqn:Hr; [done|]. apply locked_good. intros Hq.
  unfold finalizing in Hsets. rewrite Hq in Hsets.
  pose proof (map_sum_elem_le active_gauge _ _ _ active_gauge_nonneg Hi) as Hact.
  rewrite <-(so_active _ _ _ _ Hsets) in Hact. unfold active_gauge in Hact. simpl in Hact. rewrite Hr in Hact.
  unfold registerRetired. rewrite (proj2 (Z.leb_gt _ _)) by lia. simpl. split; simpl; try done.
  - apply (resources_set w _ i s held (mark_retired s) (held + 1)); try done.
    + destruct (rs_registry _ Hres). by split.
    + intros tl a [?| ->%list_elem_of_singleton]%elem_of_app Ha; [eauto|by apply elem_of_nil in Ha].
  - unfold finalizing. simpl. rewrite Hq. by apply sets_ok_retire.
  - intros q. rewrite Hq. done.
  - split_and!; [done|apply unused_insert; [done|exact (used_lt _ _ _ _ U2 Hi)]|done].
Qed.

(** ** The reaper *)

Lemma ReapBegin_good w : world_ok w → good (exec_ReapBegin w).
Proof.
  intros Hw. pose proof Hw as [Hres Hsets Hpass Hl Hc HU]. apply locked_good. intros Hq.
  destruct (r_retired (w_registry w)) as [|i l] eqn:E; [done|].
  unfold finalizing in Hsets. rewrite Hq in Hsets. split; simpl; try done.
  - eapply resources_still; try done; [apply Hres| |eauto].
    intros plans o [j c Hj Hd|j t h Hj Hfin]; [by eapply owner_candidate|]. eapply owner_set; [done|].
    destruct Hfin as [?|Hin]; [by left|by apply elem_of_nil in Hin].
  - by rewrite E.
  - intros q [= <-]. rewrite E. split; simpl; [by rewrite app_nil_r|].
    intros j t h Hj. by apply elem_of_nil in Hj.
Qed.

Lemma sets_ok_finalize sets active retired final i s held : sets_ok sets active retired final →
  sets !! i = Some (s, held) → i ∈ retired → set_refs s = 0 →
  sets_ok (<[i := (mkPlanSet (set_plans s) (set_refs s) (set_retired s) true (set_owned s), held)]> sets)
    active retired (final ++ [i]).
Proof.
  intros [Hrefs Hfinal Hlisted Hnd Hact] Hi Hin Hzero.
  assert (Hr : set_retired s = true).
  { apply Hlisted in Hin as (t & h & Ht & Hr & _). congruence. }
  split; [| | |done|].
  - intros j t h [[<- [= <- <-]]|[_ Hj]]%lookup_insert_Some; [by apply (Hrefs _ _ _ Hi)|eauto].
  - intros j t h [[<- [= <- <-]]|[_ Hj]]%lookup_insert_Some Hf.
    + simpl. split_and!; [done|done|]. left. apply elem_of_app. right. by left.
    + destruct (Hfinal _ _ _ Hj Hf) as (? & ? & [?|?]); split_and!; auto. left. apply elem_of_app. by left.
  - intros j. destruct (decide (j = i)) as [->|Hne].
    + split; [|done]. intros _. eexists _, _. rewrite lookup_insert_eq. split_and!; [done|done|].
      right. apply elem_of_app. right. by left.
    + rewrite Hlisted, lookup_insert_ne by done. setoid_rewrite elem_of_app.
      setoid_rewrite list_elem_of_singleton. by split; intros (t & h & ? & ? & ?); exists t, h; naive_solver.
  - rewrite (map_sum_update _ _ _ _ _ Hi). unfold active_gauge at 2 3. simpl. lia.
Qed.

Lemma ReapCheck_good w : world_ok w → good (exec_ReapCheck w).
Proof.
  intros [Hres Hsets Hpass Hl Hc (U1 & U2 & U3)]. apply on_good. intros [todo survivors final] Hq.
  destruct (Hpass _ Hq) as [Hperm Hfin]. simpl in *. destruct todo as [|i todo]; [done|].
  apply on_good. intros [s held] Hi.
  assert (Hin : i ∈ r_retired (w_registry w)) by (rewrite <-Hperm; by left).
  assert (Hused : (i < w_next w)%nat) by (exact (used_lt _ _ _ _ U2 Hi)).
  unfold finalizing in Hsets. rewrite Hq in Hsets. simpl in Hsets. unfold checkSet.
  destruct (negb (set_refs s =? 0) || set_finalized s) eqn:E.
  - rewrite insert_id by done. split; simpl; try done.
    + eapply resources_still; try done; [apply Hres| |eauto].
      intros plans o [j c Hj Hd|j t h Hj Hf]; [by eapply owner_candidate|]. eapply owner_set; [done|].
      unfold finalizing in *. by rewrite Hq.
    + intros q [= <-]. split; [|done]. rewrite <-Hperm. simpl. solve_Permutation.
  - apply orb_false_iff in E as [Hz Hf]. apply negb_false_iff, Z.eqb_eq in Hz. split; simpl; try done.
    + apply (resources_set w _ i s held
        (mkPlanSet (set_plans s) (set_refs s) (set_retired s) true (set_owned s)) held);
        try done; [auto| |apply Hres|eauto].
      unfold finalizing. simpl. rewrite Hq. simpl. intros j Hne [?| ->%list_elem_of_singleton]%elem_of_app; done.
    + by apply sets_ok_finalize.
    + intros q [= <-]. split; simpl.
      * rewrite <-Hperm. solve_Permutation.
      * intros j t h Hj [[<- [= <- <-]]|[Hne Hj']]%lookup_insert_Some; [done|].
        apply elem_of_app in Hj as [Hj| ->%list_elem_of_singleton]; [by eapply Hfin|done].
    + split_and!; [done|by apply unused_insert|done].
Qed.

(** The world in the middle of the release loop, with [ids] still to do. *)
Definition pass_world (w : world) (r : Registry) (sets : handles) (ids : list nat) : world :=
  with_reaper (with_sets (with_registry w r) sets) (Some (mkReaper [] [] ids)).

Lemma reap_one w r sets i s held ids : resources_ok (pass_world w r sets (i :: ids)) →
  ¬ (i ∈ ids) → sets !! i = Some (s, held) → set_finalized s = true →
  ∃ r' cleanup closed, releaseRefs r (set_owned s) = Some (r', cleanup, closed) ∧
    release_step r (set_owned s) r' closed ∧
    resources_ok (pass_world w r' (<[i := (disown s, held)]> sets) ids).
Proof.
  intros Hw Hni Hi Hf.
  assert (Hown : owner (pass_world w r sets (i :: ids)) (set_plans s) (set_owned s))
    by (eapply owner_set; [exact Hi|right; by left]).
  destruct (releaseRefs_ok r (set_owned s)) as (r' & cleanup & closed & Hr & Hstep);
    [apply (rs_registry _ Hw)|eapply owner_covers; [apply (rs_account _ Hw)|done]|].
  do 3 eexists. split; [done|]. split; [done|].
  apply (resources_step (pass_world w r sets (i :: ids))); try done; simpl.
  - apply Hstep.
  - eapply (rl_account _ _ _ _ Hstep); [apply (rs_account _ Hw)|]. intros f Hz. unfold owned_sum. simpl.
    rewrite (map_sum_update _ _ _ _ _ Hi). simpl. rewrite Hz. lia.
  - apply Hstep.
  - intros plans o [j c Hj Hd|j t h Hj Hfin]; left; [by eapply owner_candidate|].
    simpl in Hj. apply lookup_insert_Some in Hj as [[<- [= <- <-]]|[Hne Hj]].
    + destruct Hfin as [Hfin|Hfin]; simpl in Hfin; [congruence|done].
    + eapply owner_set; [exact Hj|]. destruct Hfin as [?|?]; [by left|right; by right].
  - auto.
  - intros tl a Htl Ha. apply (pending_close_mono (r_tables r) (r_store r)).
    + by rewrite (rl_next _ _ _ _ Hstep).
    + intros k b Hb. left. by apply (rl_subset _ _ _ _ Hstep).
    + by eapply (rs_tails _ Hw).
Qed.

Lemma reapFinalized_ok w ids r sets cleanup closing :
  resources_ok (pass_world w r sets ids) → NoDup ids →
  (∀ i, i ∈ ids → ∃ s held, sets !! i = Some (s, held) ∧ set_finalized s = true) →
  (∀ a, a ∈ closing → pending_close (r_tables r) (r_store r) a) →
  ∃ r' sets' cleanup' closing', reapFinalized r sets ids cleanup closing = Some (r', sets', cleanup', closing') ∧
    same_gauges r r' ∧ resources_ok (pass_world w r' sets' []) ∧
    (∀ a, a ∈ closing' → pending_close (r_tables r') (r_store r') a).
Proof.
  revert r sets cleanup closing. induction ids as [|i ids IH]; intros r sets cleanup closing Hw Hnd Hids Hcl; simpl.
  { do 4 eexists. by split_and!. }
  apply NoDup_cons in Hnd as [Hni Hnd]. destruct (Hids i) as (s & held & Hi & Hf); [by left|]. rewrite Hi.
  destruct (reap_one w r sets i s held ids) as (r1 & c1 & closed & -> & Hstep & Hw1); [done..|]. simpl.
  destruct (IH r1 (<[i := (disown s, held)]> sets) (mergeCleanup cleanup c1) (closing ++ closed))
    as (r' & sets' & c' & cl' & Heq & Hg & Hw' & Hcl'); [done|done| | |].
  - intros j Hj. destruct (Hids j) as (t & h & Ht & Htf); [by right|]. exists t, h.
    rewrite lookup_insert_ne; [done|]. by intros ->.
  - intros a [Ha|Ha]%elem_of_app; [|by apply (rl_closed _ _ _ _ Hstep)].
    apply (pending_close_mono (r_tables r) (r_store r)); [by rewrite (rl_next _ _ _ _ Hstep)| |by apply Hcl].
    intros k b Hb. left. by apply (rl_subset _ _ _ _ Hstep).
  - exists r', sets', c', cl'. split; [done|]. split; [|done].
    pose proof (rl_gauges _ _ _ _ Hstep) as G. unfold same_gauges in *. intuition congruence.
Qed.

Lemma releaseRefs_retired r o r' cleanup closed :
  releaseRefs r o = Some (r', cleanup, closed) → r_retired r' = r_retired r.
Proof.
  unfold releaseRefs. destruct (releaseRefsLocked _ _ _) as [[[[t st] c] l]|]; [|done]. by intros [= <- <- <-].
Qed.

(** The sets after the loop: those finalised own nothing any more. *)
Lemma reapFinalized_sets ids r sets cleanup closing r' sets' cleanup' closing' :
  reapFinalized r sets ids cleanup closing = Some (r', sets', cleanup', closing') →
  (∀ j, sets' !! j = if decide (j ∈ ids) then (fun h => (disown h.1, h.2)) <$> sets !! j else sets !! j) ∧
  (∀ f, (∀ s held, f (disown s, held) = f (s, held)) → map_sum f sets' = map_sum f sets) ∧
  r_retired r' = r_retired r.
Proof.
  revert r sets cleanup closing. induction ids as [|i ids IH]; intros r sets cleanup closing; simpl.
  { intros [= <- <- <- <-]. split; [|done]. intros j.
    destruct (decide (j ∈ [])) as [Hj|]; [by apply elem_of_nil in Hj|done]. }
  destruct (sets !! i) as [[s held]|] eqn:Hi; [|done].
  destruct (releaseRefs r (set_owned s)) as [[[r1 c1] closed]|] eqn:Hrel; [|done]. simpl.
  intros (IHsets & IHsum & IHr)%IH. split_and!; [| |by rewrite IHr, (releaseRefs_retired _ _ _ _ _ Hrel)].
  - intros j. rewrite IHsets. destruct (decide (j = i)) as [->|Hne].
    + rewrite lookup_insert_eq, Hi.
      destruct (decide (i ∈ i :: ids)) as [|Hn]; [by destruct (decide (i ∈ ids))|destruct Hn; by left].
    + rewrite lookup_insert_ne by done. apply decide_ext. rewrite elem_of_cons. by intuition.
  - intros f Hf. rewrite IHsum, (map_sum_update _ _ _ _ _ Hi) by done. rewrite Hf. lia.
Qed.

Lemma sets_ok_reaped sets sets' active retired survivors final :
  sets_ok sets active retired final → survivors ++ final ≡ₚ retired →
  (∀ i s held, i ∈ final → sets !! i = Some (s, held) → set_finalized s = true) →
  (∀ j, sets' !! j = if decide (j ∈ final) then (fun h => (disown h.1, h.2)) <$> sets !! j else sets !! j) →
  map_sum active_gauge sets' = map_sum active_gauge sets →
  sets_ok sets' active survivors [].
Proof.
  intros [Hrefs Hfinal Hlisted Hnd Hact] Hperm Hmark Hsets Hsum.
  assert (Hback : ∀ j t h, sets' !! j = Some (t, h) → ∃ s, sets !! j = Some (s, h) ∧
    set_refs t = set_refs s ∧ set_retired t = set_retired s ∧ set_finalized t = set_finalized s ∧
    (set_owned t = set_owned s ∨ set_owned t = noRefs) ∧ (j ∈ final → set_owned t = noRefs)).
  { intros j t h Hj. rewrite Hsets in Hj. destruct (decide (j ∈ final)).
    - apply fmap_Some in Hj as ([s h'] & Hs & [= -> ->]). exists s. by split_and!; [..|right|].
    - exists t. by split_and!; [..|left|]. }
  rewrite <-Hperm in Hnd. apply NoDup_app in Hnd as (Hnds & Hdisj & _). split; [| | |done|congruence].
  - intros j t h (s & Hs & -> & -> & _)%Hback. eauto.
  - intros j t h (s & Hs & -> & -> & -> & Ho & Hno)%Hback Hf.
    destruct (Hfinal _ _ _ Hs Hf) as (? & ? & Hor). split_and!; [done..|]. right.
    destruct Hor as [Hin|Hnone]; [by apply Hno|]. destruct Ho as [->| ->]; done.
  - intros j. split.
    + intros Hj. assert (Hjr : j ∈ retired) by (rewrite <-Hperm; apply elem_of_app; by left).
      apply Hlisted in Hjr as (s & h & Hs & Hr & [Hf|Hf]); [|by destruct (Hdisj _ Hj)].
      exists s, h. rewrite Hsets, decide_False by (by apply Hdisj). by split_and!; [| |left].
    + intros (t & h & (s & Hs & _ & Hr & Hf & _)%Hback & Ht & [Hfin|Hin]); [|by apply elem_of_nil in Hin].
      assert (Hjr : j ∈ retired).
      { apply Hlisted. exists s, h. split_and!; [done|congruence|left; congruence]. }
      rewrite <-Hperm in Hjr. apply elem_of_app in Hjr as [?|Hin]; [done|].
      rewrite (Hmark _ _ _ Hin Hs) in Hf. congruence.
Qed.

Lemma pass_world_done w r sets tl : resources_ok (pass_world w r sets []) →
  (∀ a, a ∈ tl_close tl → pending_close (r_tables r) (r_store r) a) →
  resources_ok (queue_tail (with_reaper (with_sets (with_registry w r) sets) None) tl).
Proof.
  intros Hw Hcl. apply (resources_step (pass_world w r sets [])); try done.
  - apply Hw.
  - eapply accounted_same; [apply Hw|done|done].
  - intros plans o [j c Hj Hd|j t h Hj Hf]; left; [by eapply owner_candidate|by eapply owner_set].
  - auto.
  - intros tl' a [Hin| ->%list_elem_of_singleton]%elem_of_app Ha; [by eapply (rs_tails _ Hw)|by apply Hcl].
Qed.

Lemma ReapFinish_good w : world_ok w → good (exec_ReapFinish w).
Proof.
  intros [Hres Hsets Hpass Hl Hc (U1 & U2 & U3)]. apply on_good. intros [todo survivors final] Hq.
  destruct (Hpass _ Hq) as [Hperm Hmark]. simpl in *. destruct todo as [|i todo]; [|done]. simpl in Hperm.
  unfold finalizing in Hsets. rewrite Hq in Hsets. simpl in Hsets. unfold reapFinish. simpl.
  set (r := with_gauges _ _ _ _).
  assert (Hw0 : resources_ok (pass_world w r (w_sets w) final)).
  { eapply resources_still; try done; [destruct (rs_registry _ Hres); by split| |eauto].
    intros plans o [j c Hj Hd|j t h Hj Hf]; [by eapply owner_candidate|]. eapply owner_set; [done|].
    unfold finalizing in *. by rewrite Hq. }
  destruct (reapFinalized_ok w final r (w_sets w) zeroCleanup []) as (r' & sets' & c' & cl' & Heq & Hg & Hw' & Hcl').
  { done. }
  { pose proof (so_distinct _ _ _ _ Hsets) as Hnd. rewrite <-Hperm in Hnd. by apply NoDup_app in Hnd as (_ & _ & ?). }
  { intros i Hi. assert (Hin : i ∈ r_retired (w_registry w)) by (rewrite <-Hperm; apply elem_of_app; by right).
    apply (so_listed _ _ _ _ Hsets) in Hin as (s & h & Hs & _). exists s, h. split; [done|by eapply Hmark]. }
  { intros a Ha. by apply elem_of_nil in Ha. }
  rewrite Heq. simpl. destruct (reapFinalized_sets _ _ _ _ _ _ _ _ _ Heq) as (Hsets' & Hsum & _).
  destruct Hg as (_ & _ & _ & Ga & Gl & Gr). simpl in *. split; simpl; try done.
  - by apply pass_world_done.
  - rewrite Ga, Gr. by eapply sets_ok_reaped; [..|apply Hsum].
  - congruence.
  - split_and!; [done| |done]. intros i Hi. rewrite Hsets', U2 by done. by destruct (decide _).
Qed.

(** ** Candidates *)

Lemma owned_sum_candidate w w' i c c' f : w_candidates w !! i = Some c →
  w_candidates w' = <[i := c']> (w_candidates w) →
  owned_sum f w' = f (c_owned c') - f (c_owned c) + map_sum (fun c => f (c_owned c)) (w_candidates w)
    + map_sum (fun h => f (set_owned h.1)) (w_sets w').
Proof. intros Hi Hc. unfold owned_sum. rewrite Hc, (map_sum_update _ _ _ _ _ Hi). lia. Qed.

Lemma sets_ok_new sets active retired n plans owned : unused sets n → sets_ok sets active retired [] →
  sets_ok (<[n := (mkPlanSet plans 1 false false owned, 0)]> sets) (active + 1) retired [].
Proof.
  intros Hun [Hrefs Hfinal Hlisted Hnd Hact]. split; [| | |done|].
  - intros j t h [[<- [= <- <-]]|[_ Hj]]%lookup_insert_Some; [simpl; lia|eauto].
  - intros j t h [[<- [= <- <-]]|[_ Hj]]%lookup_insert_Some; [done|eauto].
  - intros j. rewrite Hlisted. split; intros (t & h & Hj & Hr & Hf); exists t, h.
    + rewrite lookup_insert_ne; [done|]. intros <-. by rewrite Hun in Hj by lia.
    + by apply lookup_insert_Some in Hj as [[<- [= <- <-]]|[_ Hj]].
  - rewrite map_sum_insert_new by (apply Hun; lia). unfold active_gauge at 1. simpl. lia.
Qed.

Lemma Commit_good w i : world_ok w → w_reaper w = None → good (exec_Commit w i).
Proof.
  intros Hw Hq. pose proof Hw as [Hres Hsets Hpass Hl Hc (U1 & U2 & U3)]. apply on_good. intros c Hi. unfold Commit.
  destruct (c_done c) eqn:Hd; [done|]. unfold finalizing in Hsets. rewrite Hq in Hsets.
  assert (Hlt : (i < w_next w)%nat) by exact (used_lt _ _ _ _ U1 Hi).
  split; simpl; try done.
  - eapply resources_still; try done; [destruct (rs_registry _ Hres); by split| | |eauto].
    + intros f Hz. erewrite owned_sum_candidate by done. simpl.
      rewrite map_sum_insert_new by (apply U2; lia). simpl. rewrite Hz. unfold owned_sum. lia.
    + intros plans o [j d Hj Hjd|j t h Hj Hf].
      * simpl in Hj. apply lookup_insert_Some in Hj as [[<- <-]|[_ Hj]]; [done|by eapply owner_candidate].
      * simpl in Hj. apply lookup_insert_Some in Hj as [[<- [= <- <-]]|[_ Hj]]; [by eapply owner_candidate|].
        by eapply owner_set.
  - unfold finalizing. simpl. rewrite Hq. by apply sets_ok_new.
  - rewrite Hq. done.
  - intros j d [[<- <-]|[_ Hj]]%lookup_insert_Some; [done|by eapply Hc].
  - split_and!; [eapply unused_mono; [by apply unused_insert|lia]|by apply unused_next|eapply unused_mono; [done|lia]].
Qed.

Lemma Rollback_good w i : world_ok w → w_reaper w = None → good (exec_Rollback w i).
Proof.
  intros Hw Hq. pose proof Hw as [Hres Hsets Hpass Hl Hc (U1 & U2 & U3)]. apply on_good. intros c Hi. unfold Rollback.
  assert (Hlt : (i < w_next w)%nat) by exact (used_lt _ _ _ _ U1 Hi).
  destruct (c_done c) eqn:Hd.
  { simpl. unfold with_candidate. rewrite insert_id by done. split; simpl; try done.
    eapply resources_still; try done; [apply Hres| |].
    - intros plans o [j d Hj Hjd|j t h Hj Hf]; [by eapply owner_candidate|by eapply owner_set].
    - intros tl a [?| ->%list_elem_of_singleton]%elem_of_app Ha; [eauto|by apply elem_of_nil in Ha]. }
  assert (Hown : owner w (c_plans c) (c_owned c)) by (by eapply owner_candidate).
  destruct (releaseRefs_ok (w_registry w) (c_owned c)) as (r' & cleanup & closed & -> & Hstep);
    [apply Hres|eapply owner_covers; [apply Hres|done]|]. simpl.
  destruct (rl_gauges _ _ _ _ Hstep) as (_ & _ & _ & Ga & Gl & Gr). split; simpl; try done.
  - apply (resources_step w); try done; simpl.
    + apply Hstep.
    + eapply (rl_account _ _ _ _ Hstep); [apply Hres|]. intros f Hz. erewrite owned_sum_candidate by done. simpl.
      rewrite Hz. unfold owned_sum. lia.
    + apply Hstep.
    + intros plans o [j d Hj Hjd|j t h Hj Hf]; left; [|by eapply owner_set].
      simpl in Hj. apply lookup_insert_Some in Hj as [[<- <-]|[_ Hj]]; [done|by eapply owner_candidate].
    + auto.
    + intros tl a [Hin| ->%list_elem_of_singleton]%elem_of_app Ha; [|by apply (rl_closed _ _ _ _ Hstep)].
      apply (pending_close_mono (r_tables (w_registry w)) (r_store (w_registry w)));
        [by rewrite (rl_next _ _ _ _ Hstep)| |by eapply (rs_tails _ Hres)].
      intros k b Hb. left. by apply (rl_subset _ _ _ _ Hstep).
  - by rewrite Ga, Gr.
  - rewrite Hq. done.
  - congruence.
  - intros j d [[<- <-]|[_ Hj]]%lookup_insert_Some; [done|by eapply Hc].
  - split_and!; [by apply unused_insert|done|done].
Qed.

(** ** Preparation *)

(** Replacing the registry by one with the same maps. *)
Lemma registry_step w w' : world_ok w → registry_ok (w_registry w') →
  same_gauges (w_registry w) (w_registry w') →
  r_tables (w_registry w') = r_tables (w_registry w) →
  (s_next (r_store (w_registry w)) ≤ s_next (r_store (w_registry w')))%nat →
  w_candidates w' = w_candidates w → w_sets w' = w_sets w → w_leases w' = w_leases w →
  w_next w' = w_next w → w_reaper w' = w_reaper w →
  (∀ tl a, tl ∈ w_tails w' → a ∈ tl_close tl → ∃ tl', tl' ∈ w_tails w ∧ a ∈ tl_close tl') →
  world_ok w'.
Proof.
  intros [Hres Hsets Hpass Hl Hc HU] Hr (_ & _ & _ & Ga & Gl & Gr) Ht Hn Ec Es El En Eq Etl.
  unfold finalizing in *. split; unfold finalizing; rewrite ?Ec, ?Es, ?El, ?En, ?Eq, ?Ga, ?Gr, ?Gl; try done.
  apply (resources_step w); try done; rewrite ?Ht.
  - eapply accounted_same; [apply Hres| |]; unfold owned_sum, leases_on; by rewrite ?Ec, ?Es, ?El.
  - apply tables_keep_refl.
  - intros plans o [j d Hj Hjd|j t h Hj Hf]; left.
    + rewrite Ec in Hj. by eapply owner_candidate.
    + rewrite Es in Hj. unfold finalizing in Hf. rewrite Eq in Hf. by eapply owner_set.
  - rewrite El. auto.
  - intros tl a Hin Ha. destruct (Etl _ _ Hin Ha) as (tl' & Hin' & Ha').
    apply (pending_close_mono (r_tables (w_registry w)) (r_store (w_registry w)));
      [done|by left|by eapply (rs_tails _ Hres)].
Qed.

Section Events.
Context (xxh64 : string → Z) (sha256 : string → string) `{Unicode}.

Lemma Prepare_good w us cs tbs : world_ok w → w_reaper w = None → good (exec_Prepare xxh64 sha256 w us cs tbs).
Proof.
  intros Hw Hq. pose proof Hw as [Hres Hsets Hpass Hl Hc (U1 & U2 & U3)]. unfold exec_Prepare.
  destruct (Prepare_spec xxh64 sha256 (w_registry w) us cs tbs (rs_registry _ Hres))
    as (r & ns & res & -> & Hg & Hr & Hcase). simpl.
  destruct res as [c|e].
  2: { destruct Hcase as [Ht Hst]. simpl. apply (registry_step w); try done; [apply Hst|eauto]. }
  destruct Hcase as [Hpend Hext Hst Htr (us' & _ & _ & Hplans) _]. destruct Hg as (_ & _ & _ & Ga & Gl & Gr).
  simpl. split; simpl; try done.
  - apply (resources_step w); try done; simpl.
    + eapply accounted_extend; [apply Hres|done|]. intros f. unfold owned_sum. simpl.
      rewrite map_sum_insert_new by (apply U1; lia). lia.
    + by eapply tables_keep_extend.
    + intros plans o [j d Hj Hjd|j t h Hj Hf]; [|left; by eapply owner_set].
      simpl in Hj. apply lookup_insert_Some in Hj as [[<- <-]|[_ Hj]]; [right|left; by eapply owner_candidate].
      intros id p Hp. by apply Hplans in Hp as [? _].
    + auto.
    + intros tl a Hin Ha. apply (pending_close_mono (r_tables (w_registry w)) (r_store (w_registry w)));
        [apply Hst|done|by eapply (rs_tails _ Hres)].
  - by rewrite Ga, Gr.
  - by rewrite Hq.
  - congruence.
  - intros j d [[<- <-]|[_ Hj]]%lookup_insert_Some; [congruence|by eapply Hc].
  - split_and!; [by apply unused_next|eapply unused_mono; [done|lia]..].
Qed.

(** ** Tunnel leases *)

Lemma set_transports_wf t ts st : runtimes_wf t st →
  (∀ k a, runtime_of ts k = Some a → runtime_of (t_transports t) k = Some a) →
  runtimes_wf (set_transports t ts) st.
Proof. intros [Wt Wh Wd] Hsub. split; simpl; [|done|done]. intros k a Ha. by apply Wt, Hsub. Qed.

Lemma set_transports_ok t ts : tables_ok t → table_ok ts → tables_ok (set_transports t ts).
Proof. intros [] Hts. by split. Qed.

Lemma AcquireLease_good w key transport : world_ok w → w_reaper w = None →
  good (exec_AcquireLease w key transport).
Proof.
  intros Hw Hq. pose proof Hw as [Hres Hsets Hpass Hl Hc (U1 & U2 & U3)].
  pose proof (rs_registry _ Hres) as [Hok Hwf]. unfold exec_AcquireLease, AcquireTunnelLease.
  destruct (t_transports (r_tables (w_registry w)) !! key) as [e|] eqn:He; [|done].
  destruct (negb (Nat.eqb (e_runtime e) transport) || (e_refs e <=? 0)) eqn:E; [done|].
  apply orb_false_iff in E as [Ha Hr]. apply negb_false_iff, Nat.eqb_eq in Ha. subst transport. bool_hyps.
  set (ts := <[key := _]> _).
  assert (Hts : ts = table_acquire (t_transports (r_tables (w_registry w))) key (e_runtime e))
    by (unfold ts, table_acquire; by rewrite He).
  assert (Hrt : ∀ k, runtime_of ts k = runtime_of (t_transports (r_tables (w_registry w))) k).
  { intros k. rewrite Hts, acquire_runtime. destruct (decide (key = k)) as [<-|]; [|done].
    unfold runtime_of. by rewrite He. }
  assert (Hok' : table_ok ts) by (rewrite Hts; apply acquire_ok, Hok).
  split; simpl; try done.
  - apply (resources_step w); try done; simpl.
    + split; simpl; [by apply set_transports_ok|]. apply set_transports_wf; [done|]. intros k a. by rewrite Hrt.
    + destruct (rs_account _ Hres) as [A1 A2 A3 A4 A5]. split; simpl; try done.
      intros k. rewrite Hts, acquire_refs, A2. unfold leases_on. simpl.
      rewrite map_sum_insert_new by (apply U3; lia). rewrite lease_on_open by done. unfold owned_sum. simpl. lia.
    + intros plans o [j d Hj Hjd|j t h Hj Hf]; left; [by eapply owner_candidate|by eapply owner_set].
    + intros j l [[<- <-]|[_ Hj]]%lookup_insert_Some _; [right|by left]. simpl. rewrite Hrt.
      unfold runtime_of. by rewrite He.
    + intros tl a Hin Ha. apply (pending_close_mono (r_tables (w_registry w)) (r_store (w_registry w)));
        [done| |by eapply (rs_tails _ Hres)]. simpl. intros k b. rewrite Hrt. by left.
  - rewrite map_sum_insert_new by (apply U3; lia). unfold lease_gauge at 1. simpl. lia.
  - split_and!; [eapply unused_mono; [done|lia]..|by apply unused_next].
Qed.

Lemma lease_gauge_nonneg l : 0 ≤ lease_gauge l.
Proof. unfold lease_gauge. destruct (l_released l); lia. Qed.

Lemma lease_refs w i l e : resources_ok w → w_leases w !! i = Some l → l_released l = false →
  t_transports (r_tables (w_registry w)) !! l_key l = Some e → e_runtime e = l_runtime l ∧ 0 < e_refs e.
Proof.
  intros Hres Hi Hl He. split.
  - pose proof (rs_leases _ Hres _ _ Hi Hl) as Hr. unfold runtime_of in Hr. rewrite He in Hr. by injection Hr.
  - pose proof (to_transports _ (ro_tables _ (rs_registry _ Hres))) as Hok.
    specialize (Hok _ _ He). simpl in Hok. lia.
Qed.

(** What a lease release does to the registry. *)
Lemma lease_Release_ok w i l : resources_ok w → w_leases w !! i = Some l → l_released l = false →
  0 < r_liveTunnelLeases (w_registry w) →
  ∃ r ts dropped note, lease_Release (w_registry w) l =
      Some (r, mkLease (l_key l) (l_runtime l) true, mkTail (option_list dropped) note) ∧
    table_release (t_transports (r_tables (w_registry w))) (l_key l) = Some (ts, dropped) ∧
    r_tables r = set_transports (r_tables (w_registry w)) ts ∧ r_store r = r_store (w_registry w) ∧
    r_activePlanSets r = r_activePlanSets (w_registry w) ∧ r_retired r = r_retired (w_registry w) ∧
    r_liveTunnelLeases r = r_liveTunnelLeases (w_registry w) - 1.
Proof.
  intros Hres Hi Hl Hpos. unfold lease_Release. rewrite Hl.
  pose proof (to_transports _ (ro_tables _ (rs_registry _ Hres))) as Hok.
  destruct (lease_present w _ i l Hok (rs_account _ Hres) Hi Hl) as [e He]. rewrite He.
  destruct (lease_refs w i l e Hres Hi Hl He) as [-> Hr].
  rewrite Nat.eqb_refl, (proj2 (Z.leb_gt _ _) Hr), (proj2 (Z.leb_gt _ _) Hpos). simpl.
  destruct (release_total _ (l_key l) Hok) as [[ts dropped] Hrel].
  { apply refs_pos; [done|by rewrite He]. }
  rewrite Hrel. simpl. by do 4 eexists.
Qed.

Lemma ReleaseLease_good w i : world_ok w → w_reaper w = None → good (exec_ReleaseLease w i).
Proof.
  intros Hw Hq. pose proof Hw as [Hres Hsets Hpass Hl Hc (U1 & U2 & U3)].
  apply on_good. intros l Hi. destruct (l_released l) eqn:Hrel.
  { unfold lease_Release. rewrite Hrel. simpl. unfold with_lease. rewrite insert_id by done.
    split; simpl; try done. eapply resources_still; try done; [apply Hres| |].
    - intros plans o [j d Hj Hjd|j t h Hj Hf]; [by eapply owner_candidate|by eapply owner_set].
    - intros tl a [?| ->%list_elem_of_singleton]%elem_of_app Ha; [eauto|by apply elem_of_nil in Ha]. }
  assert (Hpos : 0 < r_liveTunnelLeases (w_registry w)).
  { rewrite Hl. pose proof (map_sum_elem_le lease_gauge _ _ _ lease_gauge_nonneg Hi) as Hle.
    unfold lease_gauge at 1 in Hle. rewrite Hrel in Hle. lia. }
  destruct (lease_Release_ok w i l Hres Hi Hrel Hpos)
    as (r & ts & dropped & note & -> & Hts & Ht & Hst & Ga & Gr & Gl). simpl.
  pose proof (rs_registry _ Hres) as [Hok Hwf]. pose proof (to_transports _ Hok) as Hokt.
  pose proof (release_ok _ _ _ _ Hokt Hts) as Hok'.
  assert (Hsub : ∀ k a, runtime_of ts k = Some a → runtime_of (t_transports (r_tables (w_registry w))) k = Some a).
  { intros k a Ha. by rewrite <-(release_runtime _ _ _ _ k Hts) by (by eapply runtime_present). }
  split; simpl; try done.
  - apply (resources_step w); try done; simpl; rewrite ?Ht, ?Hst.
    + split; rewrite ?Ht, ?Hst; [by apply set_transports_ok|by apply set_transports_wf].
    + destruct (rs_account _ Hres) as [A1 A2 A3 A4 A5]. split; simpl; try done.
      intros k. rewrite (release_refs _ _ _ _ k Hokt Hts), A2. unfold leases_on. simpl.
      rewrite (map_sum_update _ _ _ _ _ Hi). rewrite (lease_on_open _ l), lease_on_closed by done. unfold owned_sum. simpl. lia.
    + split; simpl; [|done]. intros k Hk _. by apply (release_runtime _ _ _ _ k Hts).
    + intros plans o [j d Hj Hjd|j t h Hj Hf]; left; [by eapply owner_candidate|by eapply owner_set].
    + intros j l' [[<- <-]|[_ Hj]]%lookup_insert_Some Hnot; [done|by left].
    + intros tl a [Hin| ->%list_elem_of_singleton]%elem_of_app Ha.
      * apply (pending_close_mono (r_tables (w_registry w)) (r_store (w_registry w)));
          [done|by left; apply Hsub|by eapply (rs_tails _ Hres)].
      * simpl in Ha. destruct dropped as [b|]; simpl in Ha; [|by apply elem_of_nil in Ha].
        apply list_elem_of_singleton in Ha as ->. destruct (release_dropped _ _ _ _ Hts) as [Hb Hgone].
        split; [by apply Hwf in Hb as [? _]|]. simpl. intros k Hk.
        assert (l_key l = k) as <- by (by eapply transport_key_unique; [| |apply Hsub]).
        unfold runtime_of in Hk. by rewrite Hgone in Hk.
  - by rewrite Ga, Gr.
  - rewrite Hq. done.
  - rewrite Gl, (map_sum_update _ _ _ _ _ Hi), Hl. unfold lease_gauge at 3 4. simpl. rewrite Hrel. lia.
  - split_and!; [done|done|apply unused_insert; [done|exact (used_lt _ _ _ _ U3 Hi)]].
Qed.

(** ** Use of the runtimes *)

(** What selecting, observing and activating change of the objects. *)
Record store_touch (st st' : store) : Prop := {
  touch_next : s_next st' = s_next st;
  touch_transports : s_transports st' = s_transports st;
  touch_registrations g : (fun r => (hr_health r, hr_retired r)) <$> s_registrations st' !! g =
    (fun r => (hr_health r, hr_retired r)) <$> s_registrations st !! g;
  touch_trackers h : eh_retired <$> s_trackers st' !! h = eh_retired <$> s_trackers st !! h;
}.

Lemma store_touch_refl st : store_touch st st.
Proof. by split. Qed.

Lemma store_touch_trans st st' st'' : store_touch st st' → store_touch st' st'' → store_touch st st''.
Proof. intros [H1 H2 H3 H4] [H1' H2' H3' H4']. split; intros; congruence. Qed.

Lemma runtimes_wf_touch t st st' : store_touch st st' → runtimes_wf t st → runtimes_wf t st'.
Proof.
  intros [Hn Ht Hg Hh] [Wt Wh Wd]. split; [| |done].
  - intros k a Ha. unfold live_transport. rewrite Hn, Ht. by apply Wt.
  - intros k h g Hk. destruct (Wh _ _ _ Hk) as (? & ? & reg & tracker & Hreg & Hrh & Hrr & Htrk & Hret).
    specialize (Hg g). specialize (Hh h). rewrite Hreg in Hg. rewrite Htrk in Hh. simpl in *.
    apply fmap_Some in Hg as (reg' & Hreg' & [= Eh Er]). apply fmap_Some in Hh as (tracker' & Htrk' & Et).
    split_and!; [by rewrite Hn..|]. exists reg', tracker'. split_and!; congruence.
Qed.

Lemma SelectNext_touch st p req attempted : store_touch st (SelectNext xxh64 st (Some p) req attempted).2.
Proof.
  unfold SelectNext. destruct (p_endpoints p) as [|e es]; [apply store_touch_refl|].
  unfold chooseOrdinal. destruct (String.eqb _ _).
  - destruct (wrr_selectNext _ _ _) as [[o|] sequence]; simpl; [destruct ((e :: es) !! _)|]; by split.
  - destruct (String.eqb _ _); [|apply store_touch_refl]. destruct (sum64 _ _ _) as [sum fallback].
    destruct (chash_selectNext _ _ _ _) as [o|]; simpl; [destruct ((e :: es) !! _)|]; by split.
Qed.

Lemma selection_Observe_touch st s o : store_touch st (selection_Observe st s o).
Proof.
  unfold selection_Observe. destruct (sel_health s) as [h|]; [|apply store_touch_refl].
  destruct (s_trackers st !! h) as [tracker|] eqn:E; [|apply store_touch_refl]. split; simpl; try done.
  intros h'. destruct (decide (h = h')) as [<-|Hne]; [|by rewrite lookup_insert_ne].
  rewrite lookup_insert_eq, E. simpl. f_equal. apply Observe_same.
Qed.

Lemma ActivateHealth_touch stopped st p : store_touch st (ActivateHealth stopped st p).
Proof.
  unfold ActivateHealth. revert st. induction (p_healthRegistrations p) as [|g l IH]; intros st; [apply store_touch_refl|].
  simpl. eapply store_touch_trans; [|apply IH]. unfold activateRegistration.
  destruct (s_registrations st !! g) as [reg|] eqn:E; [|apply store_touch_refl].
  destruct (hr_retired reg) eqn:Er; [apply store_touch_refl|].
  destruct (_ || hr_activated reg); [apply store_touch_refl|]. split; simpl; try done.
  intros g'. destruct (decide (g = g')) as [<-|Hne]; [|by rewrite lookup_insert_ne].
  rewrite lookup_insert_eq, E. simpl. by rewrite Er.
Qed.

Lemma with_store_good w st : world_ok w → store_touch (r_store (w_registry w)) st → world_ok (with_store w st).
Proof.
  intros Hw Hst. pose proof (rs_registry _ (wo_resources _ Hw)) as [Hok Hwf].
  apply (registry_step w); try done; simpl; [|by rewrite (touch_next _ _ Hst)|eauto].
  split; [done|by eapply runtimes_wf_touch].
Qed.

Lemma Tail_good w i : world_ok w → good (exec_Tail w i).
Proof.
  intros Hw. apply on_good. intros [[|a l] ns] Hi; simpl.
  - destruct ns as [|n ns]; [done|]. apply (registry_step w); try done; [apply Hw|]. simpl.
    intros tl b [j Hj]%list_elem_of_lookup Hb. destruct (decide (j = i)) as [->|Hne].
    + rewrite list_lookup_insert_eq in Hj by (by eapply lookup_lt_Some). injection Hj as <-. by apply elem_of_nil in Hb.
    + rewrite list_lookup_insert_ne in Hj by done. exists tl. split; [by eapply list_elem_of_lookup_2|done].
  - pose proof (list_elem_of_lookup_2 _ _ _ Hi) as Hin. pose proof (wo_resources _ Hw) as Hres.
    destruct (rs_tails _ Hres _ a Hin) as [_ Hfree]; [by left|].
    apply (registry_step w); try done; simpl.
    + destruct (rs_registry _ Hres) as [Hok Hwf]. split; [done|by apply runtimes_wf_close].
    + intros tl b [j Hj]%list_elem_of_lookup Hb. destruct (decide (j = i)) as [->|Hne].
      * rewrite list_lookup_insert_eq in Hj by (by eapply lookup_lt_Some). injection Hj as <-.
        exists (mkTail (a :: l) ns). split; [done|by right].
      * rewrite list_lookup_insert_ne in Hj by done. exists tl. split; [by eapply list_elem_of_lookup_2|done].
Qed.

Lemma on_plan_good w i id k : (∀ p, good (k p)) → good (on_plan w i id k).
Proof. intros Hk. apply on_good. intros [s held] _. by apply on_good. Qed.

(** ** Every event *)

Lemma exec_good w e : world_ok w → good (exec xxh64 sha256 w e).
Proof.
  intros Hw. destruct e; simpl.
  - apply locked_good. intros. by apply Prepare_good.
  - apply locked_good. intros. by apply Commit_good.
  - apply locked_good. intros. by apply Rollback_good.
  - by apply TryAcquire_good.
  - by apply Release_good.
  - by apply Retire_good.
  - by apply ReapBegin_good.
  - by apply ReapCheck_good.
  - by apply ReapFinish_good.
  - apply locked_good. intros. by apply AcquireLease_good.
  - apply locked_good. intros. by apply ReleaseLease_good.
  - apply locked_good. intros Hq. destruct Hw as [Hres Hsets Hpass Hl Hc HU]. split; simpl; try done.
    eapply resources_still; try done; [destruct (rs_registry _ Hres); by split| |eauto].
    intros plans o [j d Hj Hjd|j t h Hj Hf]; [by eapply owner_candidate|by eapply owner_set].
  - by apply Tail_good.
  - apply on_plan_good. intros p. apply with_store_good; [done|apply SelectNext_touch].
  - apply with_store_good; [done|apply selection_Observe_touch].
  - apply on_plan_good. intros p. apply with_store_good; [done|apply ActivateHealth_touch].
Qed.

Lemma initial_ok maxRetired workers queue observer r :
  NewRegistry maxRetired workers queue observer = Some r → world_ok (initial r).
Proof.
  unfold NewRegistry. repeat (case_scrutinee; [done|]). intros [= <-].
  split; simpl; try done.
  - split; simpl; [apply empty_registry_ok| |..].
    + by split.
    + intros plans o id p [j d Hj _|j t h Hj _]; simpl in Hj; by rewrite lookup_empty in Hj.
    + intros i l Hi. by rewrite lookup_empty in Hi.
    + intros tl a Htl. by apply elem_of_nil in Htl.
  - split; simpl; try done; [by intros i s h; rewrite lookup_empty..| |constructor].
    intros i. split; [by intros ?%elem_of_nil|]. intros (s & h & Hi & _). by rewrite lookup_empty in Hi.
Qed.

Lemma reachable_ok w : reachable xxh64 sha256 w → world_ok w.
Proof.
  induction 1 as [|w e w' _ IH He]; [by eapply initial_ok|]. pose proof (exec_good w e IH) as Hg.
  by rewrite He in Hg.
Qed.

(** No sequence of calls and interleavings makes the registry panic: none
    of the underflow checks of [releaseRefsLocked], [registerRetired],
    [PlanSet.Release] and [TunnelLease.Release] ever fires, provided requests
    release only references they took. *)
Theorem lifecycle_never_panics w e : reachable xxh64 sha256 w → exec xxh64 sha256 w e ≠ Panicked.
Proof.
  intros Hw He. pose proof (exec_good w e (reachable_ok w Hw)) as Hg. by rewrite He in Hg.
Qed.

(** C4: In every reachable world the reference count of every shared runtime is
    the number of references held by candidates, plan sets and, for
    transports, tunnel leases; the count of a plan set is the number of
    references handed out plus the owner's; and the gauges count the sets and
    leases in use. *)
Theorem references_exact w : reachable xxh64 sha256 w →
  accounted (r_tables (w_registry w)) (fun f => owned_sum f w) (leases_on w) ∧
  (∀ i s held, w_sets w !! i = Some (s, held) →
     set_refs s = held + (if set_retired s then 0 else 1) ∧ 0 ≤ held) ∧
  r_activePlanSets (w_registry w) = map_sum active_gauge (w_sets w) ∧
  r_liveTunnelLeases (w_registry w) = map_sum lease_gauge (w_leases w).
Proof.
  intros Hw%reachable_ok. split_and!; [apply Hw| |apply (wo_sets _ Hw)|apply Hw].
  intros i s held Hi. by destruct (so_refs _ _ _ _ (wo_sets _ Hw) _ _ _ Hi).
Qed.

(** ** What is in use stays in service *)

Lemma in_use_owner w i s held : world_ok w → w_sets w !! i = Some (s, held) →
  0 < held ∨ set_retired s = false → owner w (set_plans s) (set_owned s).
Proof.
  intros Hw Hi Huse. eapply owner_set; [done|]. left.
  destruct (set_finalized s) eqn:Hf; [|done].
  destruct (so_final _ _ _ _ (wo_sets _ Hw) _ _ _ Hi Hf) as (Hr & Hz & _).
  destruct (so_refs _ _ _ _ (wo_sets _ Hw) _ _ _ Hi) as [_ Href].
  rewrite Hr in Href. destruct Huse; [lia|congruence].
Qed.

Lemma plan_in_service w i s held id p : world_ok w → w_sets w !! i = Some (s, held) →
  0 < held ∨ set_retired s = false → set_plans s !! id = Some p →
  live_transport (r_store (w_registry w)) (p_transportKey p) (p_transport p) ∧
  Forall (fun e => ∀ h, pe_health e = Some h → ∃ tracker,
    s_trackers (r_store (w_registry w)) !! h = Some tracker ∧ eh_retired tracker = false) (p_endpoints p).
Proof.
  intros Hw Hi Huse Hp. pose proof (wo_resources _ Hw) as Hres.
  destruct (rs_backed _ Hres _ _ _ _ (in_use_owner _ _ _ _ Hw Hi Huse) Hp) as [[_ Ht] Hh].
  destruct (rs_registry _ Hres) as [_ [Wt Wh _]]. split; [by apply Wt|].
  eapply Forall_impl; [exact Hh|]. intros e He h Eh. destruct (He h Eh) as (k & g & _ & Hk).
  destruct (Wh _ _ _ Hk) as (_ & _ & reg & tracker & _ & _ & _ & Htrk & Hret). by exists tracker.
Qed.

(** A lease on the transport of a plan in use is granted. *)
Lemma lease_granted w i s held id p : world_ok w → w_sets w !! i = Some (s, held) →
  0 < held ∨ set_retired s = false → set_plans s !! id = Some p → w_reaper w = None →
  ∃ w', exec xxh64 sha256 w (EAcquireLease (p_transportKey p) (p_transport p)) = Done w' ∧
    w_leases w' !! w_next w = Some (mkLease (p_transportKey p) (p_transport p) false).
Proof.
  intros Hw Hi Huse Hp Hq. pose proof (wo_resources _ Hw) as Hres.
  destruct (rs_backed _ Hres _ _ _ _ (in_use_owner _ _ _ _ Hw Hi Huse) Hp) as [[_ Ht] _].
  cbn [exec]. unfold locked. rewrite Hq. unfold exec_AcquireLease, AcquireTunnelLease. unfold runtime_of in Ht.
  destruct (t_transports (r_tables (w_registry w)) !! p_transportKey p) as [e|] eqn:He; [|done].
  injection Ht as Ht. rewrite Ht, Nat.eqb_refl.
  pose proof (to_transports _ (ro_tables _ (rs_registry _ Hres)) _ _ He) as Hpos. simpl in Hpos.
  rewrite (proj2 (Z.leb_gt _ _)) by lia. simpl. eexists. split; [done|]. simpl. apply lookup_insert_eq.
Qed.

(** C7: While a plan set is current, or retired but still referenced by a
    request, the transport of each of its plans is open and stored under the
    plan's key and none of its health trackers is retired; a tunnel lease on
    that transport is granted; and the transport of an unreleased lease stays
    open even after the set is gone. *)
Theorem used_runtimes_live w : reachable xxh64 sha256 w →
  (∀ i s held id p, w_sets w !! i = Some (s, held) → 0 < held ∨ set_retired s = false →
     set_plans s !! id = Some p →
     live_transport (r_store (w_registry w)) (p_transportKey p) (p_transport p) ∧
     Forall (fun e => ∀ h, pe_health e = Some h → ∃ tracker,
       s_trackers (r_store (w_registry w)) !! h = Some tracker ∧ eh_retired tracker = false) (p_endpoints p) ∧
     (w_reaper w = None →
      ∃ w', exec xxh64 sha256 w (EAcquireLease (p_transportKey p) (p_transport p)) = Done w' ∧
        w_leases w' !! w_next w = Some (mkLease (p_transportKey p) (p_transport p) false))) ∧
  (∀ i l, w_leases w !! i = Some l → l_released l = false →
     live_transport (r_store (w_registry w)) (l_key l) (l_runtime l)).
Proof.
  intros Hw%reachable_ok. split.
  - intros i s held id p Hi Huse Hp. destruct (plan_in_service _ _ _ _ _ _ Hw Hi Huse Hp) as [? ?].
    split_and!; [done..|]. by eapply lease_granted.
  - intros i l Hi Hl. pose proof (wo_resources _ Hw) as Hres.
    apply (ro_runtimes _ (rs_registry _ Hres)). by eapply (rs_leases _ Hres).
Qed.

(** ** Draining *)

Fixpoint run (w : world) (es : list event) : option world :=
  match es with
  | [] => Some w
  | e :: es => match exec xxh64 sha256 w e with Done w => run w es | _ => None end
  end.

Lemma run_app w es es' : run w (es ++ es') = run w es ≫= fun w => run w es'.
Proof. revert w. induction es as [|e es IH]; intros w; simpl; [done|]. by destruct (exec _ _ w e). Qed.

Lemma run_ok w es w' : world_ok w → run w es = Some w' → world_ok w'.
Proof.
  revert w. induction es as [|e es IH]; intros w Hw; simpl; [by intros [= <-]|].
  pose proof (exec_good w e Hw) as Hg. destruct (exec _ _ w e); try done. by apply IH.
Qed.

Lemma run_world_reachable w es w' : reachable xxh64 sha256 w → run w es = Some w' → reachable xxh64 sha256 w'.
Proof.
  revert w. induction es as [|e es IH]; intros w Hw; simpl; [by intros [= <-]|].
  destruct (exec _ _ w e) eqn:E; try done. apply IH. by eapply reach_step.
Qed.

(** One call of [reapNow]. *)
Definition reapNow (w : world) : list event :=
  EReapBegin ::
  match r_retired (w_registry w) with
  | [] => []
  | l => replicate (length l) EReapCheck ++ [EReapFinish]
  end.

(** Nobody uses the registry any more. *)
Record drained (w : world) : Prop := {
  dr_sets i s held : w_sets w !! i = Some (s, held) → set_retired s = true ∧ held = 0;
  dr_candidates i c : w_candidates w !! i = Some c → c_done c = true;
  dr_leases i l : w_leases w !! i = Some l → l_released l = true;
}.

Lemma drained_check w i todo final : world_ok w → drained w →
  w_reaper w = Some (mkReaper (i :: todo) [] final) →
  ∃ w', exec xxh64 sha256 w EReapCheck = Done w' ∧ drained w' ∧ w_reaper w' = Some (mkReaper todo [] (final ++ [i])).
Proof.
  intros Hw [Ds Dc Dl] Hq. destruct (wo_pass _ Hw _ Hq) as [Hperm _]. simpl in Hperm.
  pose proof (wo_sets _ Hw) as Hsets. unfold finalizing in Hsets. rewrite Hq in Hsets. simpl in Hsets.
  assert (Hin : i ∈ r_retired (w_registry w)) by (rewrite <-Hperm; by left).
  pose proof (so_distinct _ _ _ _ Hsets) as Hnd. rewrite <-Hperm in Hnd. apply NoDup_cons in Hnd as [Hni _].
  apply (so_listed _ _ _ _ Hsets) in Hin as (s & held & Hi & Hr & Hf).
  destruct Hf as [Hf|Hf]; [|destruct Hni; apply elem_of_app; by right].
  destruct (so_refs _ _ _ _ Hsets _ _ _ Hi) as [_ Href]. destruct (Ds _ _ _ Hi) as [_ ->]. rewrite Hr in Href.
  simpl. unfold exec_ReapCheck. rewrite Hq. simpl. rewrite Hi. simpl. unfold checkSet.
  rewrite Href, Hf. simpl. eexists. split; [done|]. split; [|done]. split; simpl; [|done|done].
  intros j t h [[<- [= <- <-]]|[_ Hj]]%lookup_insert_Some; [done|by eapply Ds].
Qed.

Lemma drained_checks w todo final : world_ok w → drained w →
  w_reaper w = Some (mkReaper todo [] final) →
  ∃ w', run w (replicate (length todo) EReapCheck) = Some w' ∧ world_ok w' ∧ drained w' ∧
    w_reaper w' = Some (mkReaper [] [] (final ++ todo)).
Proof.
  revert w final. induction todo as [|i todo IH]; intros w final Hw Hd Hq.
  { exists w. by rewrite app_nil_r. }
  destruct (drained_check w i todo final Hw Hd Hq) as (w1 & He & Hd1 & Hq1).
  pose proof (exec_good w EReapCheck Hw) as Hw1. rewrite He in Hw1.
  destruct (IH w1 (final ++ [i]) Hw1 Hd1 Hq1) as (w' & Hrun & Hrest). exists w'.
  cbn [length replicate run]. rewrite He. split; [done|]. by rewrite <-app_assoc in Hrest.
Qed.

Lemma table_empty {K R} `{Countable K} (t : gmap K (entry R)) : table_ok t → (∀ k, refs_of t k = 0) → t = ∅.
Proof.
  intros Hok Hz. apply map_eq. intros k. rewrite lookup_empty. apply eq_None_not_Some.
  intros Hs%refs_pos; [|done]. rewrite Hz in Hs. lia.
Qed.

(** With nothing retired left, a drained registry is empty. *)
Lemma drained_empty w : world_ok w → drained w → w_reaper w = None → r_retired (w_registry w) = [] →
  r_tables (w_registry w) = emptyTables ∧ closeReady (statsLocked (w_registry w)) = true.
Proof.
  intros Hw [Ds Dc Dl] Hq Hr. pose proof (wo_sets _ Hw) as Hsets. unfold finalizing in Hsets. rewrite Hq, Hr in Hsets.
  assert (Hown : ∀ i s held, w_sets w !! i = Some (s, held) → set_owned s = noRefs).
  { intros i s held Hi. destruct (Ds _ _ _ Hi) as [Hret _]. destruct (set_finalized s) eqn:Hf.
    - destruct (so_final _ _ _ _ Hsets _ _ _ Hi Hf) as (_ & _ & [Hin|?]); [by apply elem_of_nil in Hin|done].
    - assert (Hin : i ∈ []) by (apply (so_listed _ _ _ _ Hsets); exists s, held; auto). by apply elem_of_nil in Hin. }
  assert (Hsum : ∀ f, f noRefs = 0 → owned_sum f w = 0).
  { intros f Hz. unfold owned_sum. rewrite !map_sum_zero; [done| |].
    - intros i [s held] Hi. simpl. by rewrite (Hown _ _ _ Hi).
    - intros i c Hi. by rewrite (wo_candidates _ Hw _ _ Hi (Dc _ _ Hi)). }
  assert (Hlease : ∀ k, leases_on w k = 0).
  { intros k. apply map_sum_zero. intros i l Hi. apply lease_on_closed. by eapply Dl. }
  destruct (rs_account _ (wo_resources _ Hw)) as [A1 A2 A3 A4 A5].
  assert (Ht : r_tables (w_registry w) = emptyTables).
  { destruct (rs_registry _ (wo_resources _ Hw)) as [[O1 O2 O3 O4 O5] _].
    destruct (r_tables (w_registry w)) as [es ts ss hs bs]. simpl in *. unfold emptyTables.
    f_equal; apply table_empty; try done; intros k; rewrite ?A1, ?A2, ?A3, ?A4, ?A5, Hsum, ?Hlease; done. }
  split; [done|]. unfold closeReady, statsLocked. rewrite Ht, Hr. simpl.
  rewrite (so_active _ _ _ _ Hsets), (wo_leases _ Hw), !map_sum_zero; [done| |].
  - intros i l Hi. unfold lease_gauge. by rewrite (Dl _ _ Hi).
  - intros i [s held] Hi. unfold active_gauge. simpl. by destruct (Ds _ _ _ Hi) as [-> _].
Qed.

Lemma drained_finish w final : world_ok w → drained w → w_reaper w = Some (mkReaper [] [] final) →
  ∃ w', exec xxh64 sha256 w EReapFinish = Done w' ∧ world_ok w' ∧ drained w' ∧ w_reaper w' = None ∧
    r_retired (w_registry w') = [].
Proof.
  intros Hw [Ds Dc Dl] Hq. pose proof (ReapFinish_good w Hw) as Hg. cbn [exec].
  unfold exec_ReapFinish in *. rewrite Hq in *. cbn [on q_todo] in *. unfold reapFinish in *.
  cbn [q_finalized q_survivors] in *.
  destruct (reapFinalized _ _ final zeroCleanup []) as [[[[r sets] cleanup] closing]|] eqn:Hfin; [|done].
  cbn [mbind option_bind call good] in *.
  eexists. split; [done|]. split; [done|]. apply reapFinalized_sets in Hfin as (Hsets & _ & Hr).
  split; [|by split]. split; simpl; [|done|done]. intros j t h Hj. rewrite Hsets in Hj.
  destruct (decide _); [|by eapply Ds]. apply fmap_Some in Hj as ([s held] & Hs & [= -> ->]). exact (Ds _ _ _ Hs).
Qed.

Lemma drained_closes w : world_ok w → drained w → w_reaper w = None →
  ∃ w', run w (reapNow w) = Some w' ∧ r_tables (w_registry w') = emptyTables ∧
    closeReady (statsLocked (w_registry w')) = true ∧ w_reaper w' = None.
Proof.
  intros Hw Hd Hq. unfold reapNow. cbn [run exec]. unfold exec_ReapBegin, locked. rewrite Hq.
  destruct (r_retired (w_registry w)) as [|i l] eqn:Hr.
  { exists w. destruct (drained_empty w) as [? ?]; done. }
  set (w0 := with_reaper w _).
  assert (Hw0 : world_ok w0).
  { pose proof (ReapBegin_good w Hw) as Hg. unfold exec_ReapBegin, locked in Hg. by rewrite Hq, Hr in Hg. }
  destruct (drained_checks w0 (i :: l) [] Hw0) as (w1 & Hrun & Hw1 & Hd1 & Hq1); [|done|].
  { destruct Hd as [D1 D2 D3]. split; [exact D1|exact D2|exact D3]. }
  destruct (drained_finish w1 _ Hw1 Hd1 Hq1) as (w2 & Hfin & Hw2 & Hd2 & Hq2 & Hr2).
  exists w2. rewrite run_app, Hrun. cbn [mbind option_bind run]. rewrite Hfin. split; [done|].
  by destruct (drained_empty w2) as [? ?].
Qed.

(** Once every candidate is terminal, every plan set is retired and
    released by its requests and every lease is released, one reaper pass
    completes, empties every map of the registry and makes the test of [Close]
    succeed. *)
Theorem drained_registry_closes w : reachable xxh64 sha256 w → drained w → w_reaper w = None →
  ∃ w', run w (reapNow w) = Some w' ∧ r_tables (w_registry w') = emptyTables ∧
    closeReady (statsLocked (w_registry w')) = true.
Proof. intros Hw%reachable_ok Hd Hq. destruct (drained_closes w Hw Hd Hq) as (w' & ? & ? & ? & _). by exists w'. Qed.

Lemma closeReady_unused w : world_ok w →
  closeReady (statsLocked (w_registry w)) = true → w_reaper w = None →
  (∀ i s held, w_sets w !! i = Some (s, held) → set_retired s = true ∧ held = 0 ∧ set_owned s = noRefs) ∧
  (∀ i l, w_leases w !! i = Some l → l_released l = true) ∧
  (∀ i c, w_candidates w !! i = Some c → c_plans c = ∅ ∨ c_done c = true).
Proof.
  intros Hw Hclose Hq. pose proof (wo_sets _ Hw) as Hsets. unfold finalizing in Hsets. rewrite Hq in Hsets.
  unfold closeReady, statsLocked in Hclose. cbn [LiveEndpoints LiveTransports LiveSelectionStates LiveHealthTrackers
    LiveRetryBudgets ActivePlanSets RetiredPlanSets LiveTunnelLeases] in Hclose.
  repeat (apply andb_prop in Hclose as [Hclose ?]). rewrite !Z.eqb_eq in *.
  unfold msize, zlen in *. rewrite (so_active _ _ _ _ Hsets), (wo_leases _ Hw) in *. split_and!.
  - intros i s held Hi.
    pose proof (map_sum_elem_le active_gauge _ _ _ active_gauge_nonneg Hi) as Hle. unfold active_gauge at 1 in Hle.
    simpl in Hle. destruct (set_retired s) eqn:Hr; [|lia]. split; [done|].
    assert (Hempty : r_retired (w_registry w) = []) by (apply nil_length_inv; lia). rewrite Hempty in Hsets.
    destruct (set_finalized s) eqn:Hf.
    + destruct (so_final _ _ _ _ Hsets _ _ _ Hi Hf) as (_ & Hz & [Hin|Hno]); [by apply elem_of_nil in Hin|].
      destruct (so_refs _ _ _ _ Hsets _ _ _ Hi) as [_ Href]. rewrite Hr in Href. split; [lia|done].
    + assert (Hin : i ∈ []) by (apply (so_listed _ _ _ _ Hsets); exists s, held; auto). by apply elem_of_nil in Hin.
  - intros i l Hi. pose proof (map_sum_elem_le lease_gauge _ _ _ lease_gauge_nonneg Hi) as Hle.
    unfold lease_gauge at 1 in Hle. destruct (l_released l); [done|lia].
  - intros i c Hi. destruct (c_done c) eqn:Hd; [by right|left]. apply map_empty. intros id.
    destruct (c_plans c !! id) as [p|] eqn:Hp; [|done].
    destruct (rs_backed _ (wo_resources _ Hw) _ _ _ _ (owner_candidate w i c Hi Hd) Hp) as [[_ Ht] _].
    assert (Hsize : size (t_transports (r_tables (w_registry w))) = 0%nat) by lia.
    apply map_size_empty_inv in Hsize. unfold runtime_of in Ht. by rewrite Hsize, lookup_empty in Ht.
Qed.

(** [Close] completes only when no request, candidate or tunnel uses the
    registry: its test succeeds only if every plan set is retired, unreferenced
    and reaped, every lease is released and no candidate or set owns a
    reference. *)
Theorem closed_registry_unused w : reachable xxh64 sha256 w →
  closeReady (statsLocked (w_registry w)) = true → w_reaper w = None →
  (∀ i s held, w_sets w !! i = Some (s, held) → set_retired s = true ∧ held = 0 ∧ set_owned s = noRefs) ∧
  (∀ i l, w_leases w !! i = Some l → l_released l = true) ∧
  (∀ i c, w_candidates w !! i = Some c → c_plans c = ∅ ∨ c_done c = true).
Proof. intros Hw%reachable_ok. by apply closeReady_unused. Qed.
End Events.

(** ** A concrete history *)

Definition demo_run : list event → option world :=
  @run (fun _ => 0) (fun s => s) ascii_only_unicode (initial demo_registry).

(** A generation is prepared, committed and retired while a request uses it. *)
Definition demo_in_use : list event :=
  [EPrepare [demo_upstream] [] []; ECommit 0; ETryAcquire 1; ERetire 1].

Definition demo_drained : list event := demo_in_use ++ [ERelease 1; ERelease 1; ETail 0].

Lemma demo_world_reachable es w : demo_run es = Some w →
  @reachable (fun _ => 0) (fun s => s) ascii_only_unicode w.
Proof.
  intros Hrun. eapply run_world_reachable; [|exact Hrun]. by apply (reach_initial _ _ 4 1 1 true).
Qed.

Definition demo_plan_held (w : world) : bool :=
  match w_sets w !! 1%nat with
  | Some (s, held) => (held =? 2) && set_retired s && bool_decide (is_Some (set_plans s !! "users"%string))
  | None => false
  end && bool_decide (w_reaper w = None).

Lemma demo_in_use_runs : from_option demo_plan_held false (demo_run demo_in_use) = true.
Proof. vm_compute. reflexivity. Qed.

(** All sets are retired and unreferenced, the candidate is terminal. *)
Definition demo_is_drained (w : world) : bool :=
  bool_decide (map_Forall (fun _ h => set_retired h.1 = true ∧ h.2 = 0) (w_sets w)) &&
  bool_decide (map_Forall (fun _ c => c_done c = true) (w_candidates w)) &&
  bool_decide (w_leases w = ∅) && bool_decide (w_reaper w = None) &&
  negb (bool_decide (r_retired (w_registry w) = [])).

Lemma demo_drained_runs : from_option demo_is_drained false (demo_run demo_drained) = true.
Proof. vm_compute. reflexivity. Qed.

Lemma demo_is_drained_sound w : demo_is_drained w = true → drained w ∧ w_reaper w = None.
Proof.
  unfold demo_is_drained. rewrite !andb_true_iff, !bool_decide_eq_true. intros [[[[Hs Hc] Hl] Hq] _].
  split; [|done]. split.
  - intros i s held Hi. apply (Hs _ _ Hi).
  - intros i c Hi. apply (Hc _ _ Hi).
  - intros i l Hi. by rewrite Hl, lookup_empty in Hi.
Qed.

Lemma lifecycle_never_panics_witness : ∃ w, demo_run demo_in_use = Some w ∧
  @exec (fun _ => 0) (fun s => s) ascii_only_unicode w (ERelease 1) ≠ Panicked.
Proof.
  pose proof demo_in_use_runs as Hrun. destruct (demo_run demo_in_use) as [w|] eqn:E; [|discriminate Hrun].
  exists w. split; [reflexivity|].
  exact (@lifecycle_never_panics (fun _ => 0) (fun s => s) ascii_only_unicode w (ERelease 1) (demo_world_reachable _ _ E)).
Defined.

Lemma references_exact_witness : ∃ w, demo_run demo_in_use = Some w ∧
  accounted (r_tables (w_registry w)) (fun f => owned_sum f w) (leases_on w).
Proof.
  pose proof demo_in_use_runs as Hrun. destruct (demo_run demo_in_use) as [w|] eqn:E; [|discriminate Hrun].
  exists w. split; [reflexivity|].
  exact (proj1 (@references_exact (fun _ => 0) (fun s => s) ascii_only_unicode w (demo_world_reachable _ _ E))).
Defined.

Lemma used_runtimes_live_witness : ∃ w s p, demo_run demo_in_use = Some w ∧ w_sets w !! 1%nat = Some (s, 2) ∧
  set_plans s !! "users"%string = Some p ∧
  live_transport (r_store (w_registry w)) (p_transportKey p) (p_transport p).
Proof.
  pose proof demo_in_use_runs as Hrun. destruct (demo_run demo_in_use) as [w|] eqn:E; [|discriminate Hrun].
  cbn [from_option] in Hrun. unfold demo_plan_held in Hrun.
  destruct (w_sets w !! 1%nat) as [[s held]|] eqn:Hs; [|discriminate Hrun].
  apply andb_prop in Hrun as [Hrun Hq]. apply andb_prop in Hrun as [Hrun Hp]. apply andb_prop in Hrun as [Hh _].
  apply Z.eqb_eq in Hh. subst held. apply bool_decide_eq_true in Hp as [p Hp].
  exists w, s, p. split; [reflexivity|]. split; [exact Hs|]. split; [exact Hp|].
  exact (proj1 (proj1 (@used_runtimes_live (fun _ => 0) (fun s => s) ascii_only_unicode w (demo_world_reachable _ _ E))
    1%nat s 2 "users"%string p Hs (or_introl eq_refl) Hp)).
Defined.

Lemma drained_registry_closes_witness : ∃ w w', demo_run demo_drained = Some w ∧
  r_retired (w_registry w) ≠ [] ∧
  @run (fun _ => 0) (fun s => s) ascii_only_unicode w (reapNow w) = Some w' ∧
  r_tables (w_registry w') = emptyTables ∧ closeReady (statsLocked (w_registry w')) = true.
Proof.
  pose proof demo_drained_runs as Hrun. destruct (demo_run demo_drained) as [w|] eqn:E; [|discriminate Hrun].
  destruct (demo_is_drained_sound w Hrun) as [Hd Hq].
  destruct (@drained_registry_closes (fun _ => 0) (fun s => s) ascii_only_unicode w (demo_world_reachable _ _ E) Hd Hq)
    as (w' & Hw').
  exists w, w'. split; [reflexivity|]. split; [|exact Hw'].
  apply andb_prop in Hrun as [_ Hr]. apply negb_true_iff, bool_decide_eq_false in Hr. exact Hr.
Defined.

Definition demo_closed (w : world) : bool :=
  closeReady (statsLocked (w_registry w)) && bool_decide (w_reaper w = None).

Lemma demo_closed_runs : from_option demo_closed false
  (demo_run (demo_drained ++ [EReapBegin; EReapCheck; EReapFinish; ETail 1])) = true.
Proof. vm_compute. reflexivity. Qed.

Lemma closed_registry_unused_witness : ∃ w,
  demo_run (demo_drained ++ [EReapBegin; EReapCheck; EReapFinish; ETail 1]) = Some w ∧
  ∀ i s held, w_sets w !! i = Some (s, held) → set_retired s = true ∧ held = 0 ∧ set_owned s = noRefs.
Proof.
  pose proof demo_closed_runs as Hrun. destruct (demo_run _) as [w|] eqn:E in Hrun |- *; [|discriminate Hrun].
  apply andb_prop in Hrun as [Hc Hq]. apply bool_decide_eq_true in Hq.
  exists w. split; [reflexivity|].
  exact (proj1 (@closed_registry_unused (fun _ => 0) (fun s => s) ascii_only_unicode w (demo_world_reachable _ _ E) Hc Hq)).
Defined.
