(* ===== verification/HttpHeader.v ===== *)
(** * HTTP headers ([net/http.Header])

    A header maps keys to value lists.  The methods of [http.Header] put the
    key into its canonical form; indexing the map directly does not. *)

From S2P Require Import Prelude GoStrings.
#[local] Open Scope string_scope.
#[local] Open Scope list_scope.

Notation Header := (gmap string (list string)).

Definition header_Values (h : Header) (name : string) : list string :=
  default [] (h !! canonical_header_key name).

Definition header_Set (h : Header) (name value : string) : Header :=
  <[canonical_header_key name := [value]]> h.

Definition header_Add (h : Header) (name value : string) : Header :=
  <[canonical_header_key name := header_Values h name ++ [value]]> h.

Definition header_Del (h : Header) (name : string) : Header := delete (canonical_header_key name) h.

(** ** Canonical keys *)

Lemma case_byte_idemp (upper : bool) c :
  let case c := if upper then upper_byte c else lower_byte c in case (case c) = case c.
Proof. by destruct upper, c as [[] [] [] [] [] [] [] []]. Qed.

Lemma case_byte_token (upper : bool) c :
  is_token_byte (if upper then upper_byte c else lower_byte c) = is_token_byte c.
Proof. by destruct upper, c as [[] [] [] [] [] [] [] []]. Qed.

Lemma canonical_header_loop_token upper s :
  string_forallb is_token_byte (canonical_header_loop upper s) = string_forallb is_token_byte s.
Proof.
  revert upper. induction s as [|c s IH]; intros upper; simpl; [done|]. by rewrite case_byte_token, IH.
Qed.

Lemma canonical_header_loop_idemp upper s :
  canonical_header_loop upper (canonical_header_loop upper s) = canonical_header_loop upper s.
Proof.
  revert upper. induction s as [|c s IH]; intros upper; simpl; [done|].
  pose proof (case_byte_idemp upper c) as Hc. simpl in Hc. by rewrite Hc, IH.
Qed.

Lemma canonical_header_key_idemp s : canonical_header_key (canonical_header_key s) = canonical_header_key s.
Proof.
  unfold canonical_header_key at 2 3. destruct (string_forallb is_token_byte s) eqn:E.
  - unfold canonical_header_key. by rewrite canonical_header_loop_token, E, canonical_header_loop_idemp.
  - unfold canonical_header_key. by rewrite E.
Qed.

(** ** Deleting several keys *)

Lemma header_Del_all (h : Header) names k :
  foldl header_Del h names !! k = if decide (k ∈ canonical_header_key <$> names) then None else h !! k.
Proof.
  revert h. induction names as [|name names IH]; intros h; simpl.
  { destruct (decide (k ∈ [])) as [Hk|]; [by apply elem_of_nil in Hk|done]. }
  rewrite IH. unfold header_Del.
  destruct (decide (k ∈ canonical_header_key <$> names)) as [Hin|Hni].
  - rewrite decide_True by (by right). done.
  - destruct (decide (k = canonical_header_key name)) as [->|Hne].
    + by rewrite lookup_delete_eq, decide_True by left.
    + rewrite lookup_delete_ne by done. rewrite decide_False; [done|].
      rewrite elem_of_cons. by intros [?|?].
Qed.
