(* ===== verification/ProxyHeaders.v ===== *)
(** * Header rewriting of the proxy ([internal/proxy/headers.go])

    What crosses the gateway: hop-by-hop fields are removed in both directions,
    and the forwarding fields of an outbound request are rebuilt from what the
    gateway itself knows of the connection. *)

From S2P Require Import Prelude GoStrings NetAddr Predicate HttpHeader.
#[local] Open Scope string_scope.
#[local] Open Scope list_scope.

Definition hopByHopHeaders : list string :=
  ["Connection"; "Proxy-Connection"; "Keep-Alive"; "Proxy-Authenticate"; "Proxy-Authorization";
   "TE"; "Trailer"; "Transfer-Encoding"; "Upgrade"].

Definition forwardingHeaders : list string :=
  ["Forwarded"; "X-Forwarded-For"; "X-Forwarded-Host"; "X-Forwarded-Proto"; "X-Forwarded-Port"].

(** The names listed by the values of a [Connection] field. *)
Definition connectionTokens (values : list string) : list string :=
  values ≫= fun connection => trim_space <$> split_byte "," connection.

(** The values are read before the first deletion. *)
Definition removeHopByHopHeaders (header : Header) : Header :=
  foldl header_Del (foldl header_Del header (connectionTokens (header_Values header "Connection")))
    hopByHopHeaders.

(** [tls] tells whether the inbound connection has a TLS state. *)
Definition requestPort (host : string) (tls : bool) : string :=
  match split_host_port host with
  | Some (_, port) => port
  | None => if tls then "443" else "80"
  end.

Definition rebuildForwardingHeaders (outbound : Header) (inbound : request) (tls : bool) : Header :=
  let outbound := foldl header_Del outbound forwardingHeaders in
  let clientIP :=
    match split_host_port (req_remoteAddr inbound) with
    | Some (host, _) => host
    | None => req_remoteAddr inbound
    end in
  let outbound := if String.eqb clientIP "" then outbound
                  else header_Set outbound "X-Forwarded-For" clientIP in
  let outbound := header_Set outbound "X-Forwarded-Host" (req_host inbound) in
  let outbound := header_Set outbound "X-Forwarded-Proto" (if tls then "https" else "http") in
  header_Set outbound "X-Forwarded-Port" (requestPort (req_host inbound) tls).

(** The header part of the [Rewrite] function of the reverse proxy. *)
Definition rewriteOutbound (outbound : Header) (inbound : request) (tls : bool) : Header :=
  rebuildForwardingHeaders (removeHopByHopHeaders outbound) inbound tls.

(** ** Hop-by-hop fields *)

Definition hop_by_hop (h : Header) : list string :=
  canonical_header_key <$> connectionTokens (header_Values h "Connection") ++ hopByHopHeaders.

Lemma removeHopByHop_lookup h k :
  removeHopByHopHeaders h !! k = if decide (k ∈ hop_by_hop h) then None else h !! k.
Proof.
  unfold removeHopByHopHeaders, hop_by_hop. rewrite !header_Del_all, fmap_app.
  repeat case_decide; try done.
  all: rewrite elem_of_app in *; by intuition.
Qed.

Definition clientIP (inbound : request) : string :=
  match split_host_port (req_remoteAddr inbound) with
  | Some (host, _) => host
  | None => req_remoteAddr inbound
  end.

(** The forwarding fields the gateway states. *)
Definition forwarded (inbound : request) (tls : bool) : Header :=
  list_to_map
    ((if String.eqb (clientIP inbound) "" then [] else [("X-Forwarded-For", [clientIP inbound])]) ++
     [("X-Forwarded-Host", [req_host inbound]);
      ("X-Forwarded-Proto", [if tls then "https" else "http"]);
      ("X-Forwarded-Port", [requestPort (req_host inbound) tls])]).

Lemma rebuildForwarding_lookup h inbound tls k :
  rebuildForwardingHeaders h inbound tls !! k =
    if decide (k ∈ forwardingHeaders) then forwarded inbound tls !! k else h !! k.
Proof.
  unfold rebuildForwardingHeaders, header_Set. fold (clientIP inbound).
  change (canonical_header_key "X-Forwarded-For") with "X-Forwarded-For".
  change (canonical_header_key "X-Forwarded-Host") with "X-Forwarded-Host".
  change (canonical_header_key "X-Forwarded-Proto") with "X-Forwarded-Proto".
  change (canonical_header_key "X-Forwarded-Port") with "X-Forwarded-Port".
  assert (Hdel : ∀ k, foldl header_Del h forwardingHeaders !! k =
    if decide (k ∈ forwardingHeaders) then None else h !! k) by (intros; apply header_Del_all).
  unfold forwarded. destruct (decide (k ∈ forwardingHeaders)) as [Hin|Hni].
  - pose proof (Hdel k) as Hk. rewrite decide_True in Hk by done.
    repeat (apply elem_of_cons in Hin as [->|Hin]); [..|by apply elem_of_nil in Hin];
      destruct (String.eqb (clientIP inbound) ""); by simplify_map_eq.
  - pose proof (Hdel k) as Hk. rewrite decide_False in Hk by done. unfold forwardingHeaders in Hni.
    rewrite !not_elem_of_cons in Hni. destruct Hni as (? & ? & ? & ? & ? & _).
    destruct (String.eqb (clientIP inbound) ""); by rewrite !lookup_insert_ne by done.
Qed.

(** An outbound request carries no hop-by-hop field, neither the standard
    ones nor those the inbound [Connection] field names; its forwarding fields
    are exactly the ones derived from the gateway's own view of the connection,
    whatever the client sent; and every other field is passed on unchanged. *)
Theorem rewriteOutbound_fields h inbound tls k :
  rewriteOutbound h inbound tls !! k =
    if decide (k ∈ forwardingHeaders) then forwarded inbound tls !! k
    else if decide (k ∈ hop_by_hop h) then None else h !! k.
Proof. unfold rewriteOutbound. by rewrite rebuildForwarding_lookup, removeHopByHop_lookup. Qed.
