(* ===== verification/WebSocket.v ===== *)
(** * The WebSocket handshake ([internal/websocket/handshake.go])

    Validation of the client's handshake, the canonical headers sent upstream,
    validation of the upstream's answer and its comparison after the response
    plugins. SHA-1 is an argument of [accept]; base64 is written out. *)

From S2P Require Import Prelude GoStrings Trim NetAddr Predicate HttpHeader ProxyHeaders.
#[local] Open Scope string_scope.
#[local] Open Scope list_scope.

(** ** base64 ([encoding/base64], standard alphabet with padding) *)

Definition base64_value (c : ascii) : option N :=
  if is_upper c then Some (byte_val c - 65)%N
  else if is_lower c then Some (byte_val c - 97 + 26)%N
  else if is_digit c then Some (byte_val c - 48 + 52)%N
  else if Ascii.eqb c "+" then Some 62%N
  else if Ascii.eqb c "/" then Some 63%N
  else None.

(** The decoder skips line breaks. *)
Fixpoint skip_newlines (s : string) : string :=
  match s with
  | EmptyString => EmptyString
  | String c s => if (byte_val c =? 10)%N || (byte_val c =? 13)%N then skip_newlines s else String c (skip_newlines s)
  end.

Fixpoint decode_quanta (s : string) : option (list N) :=
  match s with
  | EmptyString => Some []
  | String a (String b (String c (String d rest))) =>
      va ← base64_value a; vb ← base64_value b;
      let first := (va * 4 + vb / 16)%N in
      if Ascii.eqb c "=" then
        if Ascii.eqb d "=" && String.eqb rest "" then Some [first] else None
      else
        vc ← base64_value c;
        let second := (vb mod 16 * 16 + vc / 4)%N in
        if Ascii.eqb d "=" then if String.eqb rest "" then Some [first; second] else None
        else
          vd ← base64_value d;
          tail ← decode_quanta rest;
          Some (first :: second :: (vc mod 4 * 64 + vd)%N :: tail)
  | _ => None
  end.

Definition base64_decode (s : string) : option (list N) := decode_quanta (skip_newlines s).

Definition base64_digit (v : N) : ascii :=
  if (v <? 26)%N then ascii_of_N (v + 65)
  else if (v <? 52)%N then ascii_of_N (v - 26 + 97)
  else if (v <? 62)%N then ascii_of_N (v - 52 + 48)
  else if (v =? 62)%N then "+" else "/".

Fixpoint base64_encode (s : string) : string :=
  match s with
  | EmptyString => ""
  | String a EmptyString =>
      let a := byte_val a in
      String (base64_digit (a / 4)) (String (base64_digit (a mod 4 * 16)) "==")
  | String a (String b EmptyString) =>
      let a := byte_val a in let b := byte_val b in
      String (base64_digit (a / 4)) (String (base64_digit (a mod 4 * 16 + b / 16)) (String (base64_digit (b mod 16 * 4)) "="))
  | String a (String b (String c rest)) =>
      let a := byte_val a in let b := byte_val b in let c := byte_val c in
      String (base64_digit (a / 4)) (String (base64_digit (a mod 4 * 16 + b / 16))
        (String (base64_digit (b mod 16 * 4 + c / 64)) (String (base64_digit (c mod 64)) (base64_encode rest))))
  end.

(** ** Tokens and lists *)

(** Bytes above 127 are part of, or replaced by, a rune above 127. *)
Definition ws_token_byte (c : ascii) : bool :=
  let v := byte_val c in
  negb ((127 <? v)%N || (v <=? 31)%N || (v =? 127)%N
        || existsb (N.eqb v) [40; 41; 60; 62; 64; 44; 59; 58; 92; 34; 47; 91; 93; 63; 61; 123; 125; 32; 9]%N).

Definition ws_validToken (value : string) : bool := negb (String.eqb value "") && string_forallb ws_token_byte value.

Fixpoint uniqueLoop (seen : gset string) (values : list string) : bool :=
  match values with
  | [] => true
  | value :: values => if bool_decide (value ∈ seen) then false else uniqueLoop ({[value]} ∪ seen) values
  end.
Definition unique (values : list string) : bool := uniqueLoop ∅ values.

(** The parts of all values, trimmed; both list readers go through them in
    order and stop at the first bad one. *)
Definition parts (values : list string) : list string := values ≫= fun value => trim_space <$> split_byte "," value.

Definition commaValues (values : list string) (tokensOnly : bool) : option (list string) :=
  if forallb (fun part => negb (String.eqb part "" || tokensOnly && negb (ws_validToken part))) (parts values)
  then Some (parts values) else None.

(** [slices.Compact] *)
Fixpoint compact_strings (l : list string) : list string :=
  match l with
  | a :: l => match compact_strings l with
              | b :: k => if String.eqb a b then b :: k else a :: b :: k
              | [] => [a]
              end
  | [] => []
  end.

Section Handshake.
Context `{Unicode} (sha1 : string → string).

Definition hasToken (values : list string) (want : string) : bool :=
  existsb (fun value => existsb (fun token => equal_fold (trim_space token) want) (split_byte "," value)) values.

Definition semanticTokens (values : list string) : option (list string) :=
  if forallb (fun token => negb (String.eqb token "" || negb (ws_validToken token))) (parts values)
  then match parts values with
       | [] => None
       | tokens => Some (compact_strings (sort_strings (to_lower <$> tokens)))
       end
  else None.

(** ** Requests *)

(** What the handshake reads of a request; [wq_body] tells whether it has a
    body other than [http.NoBody]. *)
Record wsRequest := mkWsRequest {
  wq_protoMajor : Z;
  wq_protoMinor : Z;
  wq_method : string;
  wq_header : Header;
  wq_contentLength : Z;
  wq_body : bool;
}.

Record RequestHandshake := mkRequestHandshake {
  rh_key : string;
  rh_protocols : list string;
  rh_extensions : list string;
  rh_connectionTokens : list string;
  rh_upgradeTokens : list string;
}.

Definition wsCandidate (header : Header) : bool :=
  hasToken (header_Values header "Connection") "upgrade" || hasToken (header_Values header "Upgrade") "websocket".

Definition validKey (keys : list string) : option string :=
  match keys with
  | [key] =>
      if negb (String.eqb (trim_space key) key) || contains_byte "," key then None
      else match base64_decode key with
           | Some decoded => if Nat.eqb (length decoded) 16 then Some key else None
           | None => None
           end
  | _ => None
  end.

Definition validVersion (values : list string) : bool :=
  match commaValues values true with
  | Some [version] => String.eqb version "13"
  | _ => false
  end.

(** The error is the category of [ErrInvalidHandshake]. *)
Definition ValidateRequest (q : wsRequest) : result string RequestHandshake :=
  let values := header_Values (wq_header q) in
  if negb (Z.eqb (wq_protoMajor q) 1) || negb (Z.eqb (wq_protoMinor q) 1) then Err "request protocol"
  else if negb (String.eqb (wq_method q) "GET") then Err "request method"
  else if negb (hasToken (values "Connection") "upgrade") then Err "request connection"
  else if negb (hasToken (values "Upgrade") "websocket") then Err "request upgrade"
  else
    match semanticTokens (values "Connection"), semanticTokens (values "Upgrade") with
    | None, _ => Err "request connection"
    | _, None => Err "request upgrade"
    | Some connectionTokens, Some upgradeTokens =>
        if negb (validVersion (values "Sec-WebSocket-Version")) then Err "request version"
        else
          match validKey (values "Sec-WebSocket-Key") with
          | None => Err "request key"
          | Some key =>
              if Z.ltb 0 (wq_contentLength q) || wq_body q then Err "request body"
              else
                match commaValues (values "Sec-WebSocket-Protocol") true with
                | None => Err "request subprotocol"
                | Some protocols =>
                    if negb (unique protocols) || negb (forallb ws_validToken protocols) then Err "request subprotocol"
                    else
                      match commaValues (values "Sec-WebSocket-Extensions") false with
                      | None => Err "request extensions"
                      | Some extensions => Ok (mkRequestHandshake key protocols extensions connectionTokens upgradeTokens)
                      end
                end
          end
    end.

#[global] Instance RequestHandshake_eq_dec : EqDecision RequestHandshake.
Proof. solve_decision. Defined.

Definition handshake_Equal (h other : RequestHandshake) : bool := bool_decide (h = other).

Definition controlHeaders : list string :=
  ["Connection"; "Proxy-Connection"; "Keep-Alive"; "Proxy-Authenticate"; "Proxy-Authorization"; "TE"; "Trailer";
   "Transfer-Encoding"; "Upgrade"; "Sec-WebSocket-Key"; "Sec-WebSocket-Version"; "Sec-WebSocket-Protocol";
   "Sec-WebSocket-Extensions"].

Definition CanonicalizeRequestHeaders (header : Header) (captured : RequestHandshake) : Header :=
  let named := filter (fun name => name ≠ "") (parts (header_Values header "Connection")) in
  let header := foldl header_Del (foldl header_Del header named) controlHeaders in
  let header := header_Set header "Connection" "Upgrade" in
  let header := header_Set header "Upgrade" "websocket" in
  let header := header_Set header "Sec-WebSocket-Key" (rh_key captured) in
  let header := header_Set header "Sec-WebSocket-Version" "13" in
  let header := match rh_protocols captured with
                | [] => header
                | l => header_Set header "Sec-WebSocket-Protocol" (join_comma l)
                end in
  match rh_extensions captured with
  | [] => header
  | l => header_Set header "Sec-WebSocket-Extensions" (join_comma l)
  end.

(** ** Responses *)

Record wsResponse := mkWsResponse { wr_status : Z; wr_header : Header }.

Record ResponseHandshake := mkResponseHandshake { sh_accept : string; sh_protocol : string; sh_extensions : list string }.

Definition websocketGUID : string := "258EAFA5-E914-47DA-95CA-C5AB0DC85B11".

Definition accept (key : string) : string := base64_encode (sha1 (key +:+ websocketGUID)).

(** The subprotocol lists of a response: at most one. *)
Definition oneProtocol (header : Header) : option string :=
  match commaValues (header_Values header "Sec-WebSocket-Protocol") true with
  | Some [] => Some ""
  | Some [protocol] => Some protocol
  | _ => None
  end.

Definition ValidateResponse (request : RequestHandshake) (response : option wsResponse) : result string ResponseHandshake :=
  match response with
  | None => Err "response status"
  | Some response =>
      let values := header_Values (wr_header response) in
      if negb (Z.eqb (wr_status response) 101) then Err "response status"
      else if negb (hasToken (values "Connection") "upgrade") then Err "response connection"
      else if negb (hasToken (values "Upgrade") "websocket") then Err "response upgrade"
      else
        let expected := accept (rh_key request) in
        match values "Sec-WebSocket-Accept" with
        | [value] =>
            if negb (String.eqb (trim_space value) value) || negb (String.eqb value expected) then Err "response accept"
            else
              match commaValues (values "Sec-WebSocket-Protocol") true with
              | None => Err "response subprotocol"
              | Some protocols =>
                  let protocol :=
                    match protocols with
                    | [] => Some ""
                    | [protocol] =>
                        if negb (ws_validToken protocol) || negb (bool_decide (protocol ∈ rh_protocols request)) then None
                        else Some protocol
                    | _ => None
                    end in
                  match protocol with
                  | None => Err "response subprotocol"
                  | Some protocol =>
                      match commaValues (values "Sec-WebSocket-Extensions") false with
                      | None => Err "response extensions"
                      | Some extensions => Ok (mkResponseHandshake expected protocol extensions)
                      end
                  end
              end
        | _ => Err "response accept"
        end
  end.

(** The error of [ValidateFinalResponse], if any. *)
Definition ValidateFinalResponse (expected : ResponseHandshake) (response : option wsResponse) : option string :=
  match response with
  | None => Some "response status"
  | Some response =>
      let values := header_Values (wr_header response) in
      if negb (Z.eqb (wr_status response) 101) then Some "response status"
      else if negb (hasToken (values "Connection") "upgrade") then Some "response connection"
      else if negb (hasToken (values "Upgrade") "websocket") then Some "response upgrade"
      else
        match values "Sec-WebSocket-Accept" with
        | [value] =>
            if negb (String.eqb (trim_space value) (sh_accept expected)) then Some "response accept"
            else
              match oneProtocol (wr_header response) with
              | None => Some "response subprotocol"
              | Some protocol =>
                  if negb (String.eqb protocol (sh_protocol expected)) then Some "response subprotocol"
                  else
                    match commaValues (values "Sec-WebSocket-Extensions") false with
                    | None => Some "response extensions"
                    | Some extensions => if bool_decide (extensions = sh_extensions expected) then None else Some "response extensions"
                    end
              end
        | _ => Some "response accept"
        end
  end.
End Handshake.

(** ** Lists survive the canonical form *)

Definition part_ok (p : string) : Prop := contains_byte "," p = false ∧ trimmed p.

Lemma parts_ok values : Forall part_ok (parts values).
Proof.
  apply Forall_forall. intros p (value & Hp & _)%list_elem_of_bind. apply list_elem_of_fmap in Hp as (raw & -> & Hraw).
  split; [|apply trim_space_trimmed]. apply contains_byte_trim. pose proof (split_byte_pieces "," value) as Hall.
  rewrite Forall_forall in Hall. by apply Hall.
Qed.

Lemma parts_join l : Forall part_ok l → l ≠ [] → parts [join_comma l] = l.
Proof. intros Hl Hne. unfold parts. cbn [mbind list_bind]. rewrite app_nil_r. by apply split_join_comma. Qed.

Definition joined (l : list string) : list string := match l with [] => [] | _ => [join_comma l] end.

Lemma commaValues_join values tokensOnly l : commaValues values tokensOnly = Some l →
  commaValues (joined l) tokensOnly = Some l.
Proof.
  unfold commaValues. destruct (forallb _ (parts values)) eqn:Hall; [|done]. intros [= <-].
  pose proof (parts_ok values) as Hok. destruct (parts values) as [|p ps] eqn:E; [done|]. cbn [joined].
  by rewrite parts_join, Hall.
Qed.

Lemma ws_token_byte_tchar c : ws_token_byte c = is_token_byte c.
Proof. by destruct c as [[] [] [] [] [] [] [] []]. Qed.

(** ** The canonical request *)

Section Canonical.
Context `{Unicode}.

(** The fields the canonical form states, the last first. *)
Definition handshakeList (captured : RequestHandshake) : list (string * list string) :=
  match rh_extensions captured with [] => [] | l => [("Sec-Websocket-Extensions", [join_comma l])] end ++
  match rh_protocols captured with [] => [] | l => [("Sec-Websocket-Protocol", [join_comma l])] end ++
  [("Sec-Websocket-Version", ["13"]); ("Sec-Websocket-Key", [rh_key captured]); ("Upgrade", ["websocket"]);
   ("Connection", ["Upgrade"])].
Definition handshakeFields (captured : RequestHandshake) : Header := list_to_map (handshakeList captured).

Definition controlKeys : list string := canonical_header_key <$> controlHeaders.

Definition nominated (header : Header) : list string :=
  canonical_header_key <$> filter (fun name => name ≠ "") (parts (header_Values header "Connection")).

Lemma Canonicalize_union header captured :
  CanonicalizeRequestHeaders header captured = handshakeFields captured ∪
    foldl header_Del (foldl header_Del header (filter (fun name => name ≠ "") (parts (header_Values header "Connection")))) controlHeaders.
Proof.
  unfold CanonicalizeRequestHeaders, handshakeFields, handshakeList. set (base := foldl header_Del _ controlHeaders).
  destruct (rh_extensions captured), (rh_protocols captured); cbn [app list_to_map foldr fst snd];
    rewrite <-!insert_union_l, left_id_L by apply _; reflexivity.
Qed.

Lemma handshake_keys captured k : k ∈ (handshakeList captured).*1 → k ∈ controlKeys.
Proof.
  assert (Hall : ∀ n, n ∈ ["Sec-Websocket-Extensions"; "Sec-Websocket-Protocol"; "Sec-Websocket-Version"; "Sec-Websocket-Key"; "Upgrade"; "Connection"] →
    n ∈ controlKeys).
  { apply Forall_forall. repeat constructor; apply (bool_decide_eq_true_1 _); vm_compute; reflexivity. }
  intros Hk. apply Hall. unfold handshakeList in Hk. destruct (rh_extensions captured), (rh_protocols captured); simpl in Hk;
    rewrite !elem_of_cons, elem_of_nil in *; tauto.
Qed.

Lemma Canonicalize_lookup header captured k :
  CanonicalizeRequestHeaders header captured !! k =
    if decide (k ∈ controlKeys) then handshakeFields captured !! k
    else if decide (k ∈ nominated header) then None else header !! k.
Proof.
  rewrite Canonicalize_union, lookup_union, !header_Del_all. fold controlKeys (nominated header).
  destruct (decide (k ∈ controlKeys)) as [Hin|Hni]; [by destruct (handshakeFields captured !! k)|].
  unfold handshakeFields. rewrite (not_elem_of_list_to_map_1 _ k); [by destruct (decide _), (header !! k)|].
  intros Hk%handshake_keys. done.
Qed.

Lemma canonical_values header captured name : canonical_header_key name ∈ controlKeys →
  header_Values (CanonicalizeRequestHeaders header captured) name = default [] (handshakeFields captured !! canonical_header_key name).
Proof. intros Hin. unfold header_Values. by rewrite Canonicalize_lookup, decide_True. Qed.

Lemma canonical_controls header captured : let values := header_Values (CanonicalizeRequestHeaders header captured) in
  values "Connection" = ["Upgrade"] ∧ values "Upgrade" = ["websocket"] ∧ values "Sec-WebSocket-Version" = ["13"] ∧
  values "Sec-WebSocket-Key" = [rh_key captured] ∧
  values "Sec-WebSocket-Protocol" = joined (rh_protocols captured) ∧
  values "Sec-WebSocket-Extensions" = joined (rh_extensions captured).
Proof.
  cbv zeta. rewrite !canonical_values by (apply (bool_decide_eq_true_1 _); vm_compute; reflexivity).
  unfold handshakeFields, handshakeList.
  change (canonical_header_key "Connection") with "Connection". change (canonical_header_key "Upgrade") with "Upgrade".
  change (canonical_header_key "Sec-WebSocket-Key") with "Sec-Websocket-Key".
  change (canonical_header_key "Sec-WebSocket-Version") with "Sec-Websocket-Version".
  change (canonical_header_key "Sec-WebSocket-Protocol") with "Sec-Websocket-Protocol".
  change (canonical_header_key "Sec-WebSocket-Extensions") with "Sec-Websocket-Extensions".
  destruct (rh_extensions captured), (rh_protocols captured); cbn [app list_to_map foldr fst snd]; by simplify_map_eq.
Qed.

(** What an accepted request has. *)
Record handshake_ok (q : wsRequest) (c : RequestHandshake) : Prop := {
  ho_protocol : wq_protoMajor q = 1%Z ∧ wq_protoMinor q = 1%Z;
  ho_method : wq_method q = "GET";
  ho_connection : hasToken (header_Values (wq_header q) "Connection") "upgrade" = true ∧
    semanticTokens (header_Values (wq_header q) "Connection") = Some (rh_connectionTokens c);
  ho_upgrade : hasToken (header_Values (wq_header q) "Upgrade") "websocket" = true ∧
    semanticTokens (header_Values (wq_header q) "Upgrade") = Some (rh_upgradeTokens c);
  ho_version : validVersion (header_Values (wq_header q) "Sec-WebSocket-Version") = true;
  ho_key : validKey (header_Values (wq_header q) "Sec-WebSocket-Key") = Some (rh_key c);
  ho_body : (wq_contentLength q ≤ 0)%Z ∧ wq_body q = false;
  ho_protocols : commaValues (header_Values (wq_header q) "Sec-WebSocket-Protocol") true = Some (rh_protocols c);
  ho_offers : unique (rh_protocols c) = true ∧ forallb ws_validToken (rh_protocols c) = true;
  ho_extensions : commaValues (header_Values (wq_header q) "Sec-WebSocket-Extensions") false = Some (rh_extensions c);
}.

Lemma ValidateRequest_iff q c : ValidateRequest q = Ok c ↔ handshake_ok q c.
Proof.
  unfold ValidateRequest. split.
  - intros Hv. repeat case_match; simplify_eq; bool_hyps. split; simpl; auto. by apply String.eqb_eq.
  - intros [[-> ->] -> [-> ->] [-> ->] -> -> [Hlen ->] -> [-> ->] ->]. simpl. apply Z.ltb_ge in Hlen. rewrite Hlen. by destruct c.
Qed.

(** Validating a key accepts it as it stands. *)
Lemma validKey_single keys key : validKey keys = Some key → validKey [key] = Some key.
Proof.
  intros Hk. assert (keys = [key]) as <-; [|done]. unfold validKey in Hk. destruct keys as [|k [|]]; try done.
  destruct (_ || _); [done|]. destruct (base64_decode k); [|done]. destruct (Nat.eqb _ _); [|done]. by injection Hk as <-.
Qed.

Definition with_header (q : wsRequest) (header : Header) : wsRequest :=
  mkWsRequest (wq_protoMajor q) (wq_protoMinor q) (wq_method q) header (wq_contentLength q) (wq_body q).

(** The canonical headers of an accepted handshake are themselves an
    accepted handshake with the same key, subprotocols and extensions, in
    order, and with the upgrade to WebSocket as the only connection option,
    whatever other headers the request has; so the upstream is asked exactly
    what the client asked. *)
Theorem canonical_handshake q c header : ValidateRequest q = Ok c →
  ValidateRequest (with_header q (CanonicalizeRequestHeaders header c)) =
    Ok (mkRequestHandshake (rh_key c) (rh_protocols c) (rh_extensions c) ["upgrade"] ["websocket"]).
Proof.
  intros [H1 H2 _ _ _ H6 H7 H8 H9 H10]%ValidateRequest_iff. apply ValidateRequest_iff.
  destruct (canonical_controls header c) as (E1 & E2 & E3 & E4 & E5 & E6).
  split; cbn [with_header wq_header wq_protoMajor wq_protoMinor wq_method wq_contentLength wq_body rh_key rh_protocols rh_extensions
    rh_connectionTokens rh_upgradeTokens]; rewrite ?E1, ?E2, ?E3, ?E4, ?E5, ?E6; try done.
  - by eapply validKey_single.
  - by eapply commaValues_join.
  - by eapply commaValues_join.
Qed.
End Canonical.

Definition demo_handshake : Header :=
  {["Connection" := ["keep-alive, Upgrade"]; "Upgrade" := ["websocket"]; "Sec-Websocket-Version" := ["13"];
    "Sec-Websocket-Key" := ["dGhlIHNhbXBsZSBub25jZQ=="]; "Sec-Websocket-Protocol" := ["chat,superchat"; "mqtt"]]}.
Definition demo_ws : wsRequest := mkWsRequest 1 1 "GET" demo_handshake 0 false.

Lemma canonical_handshake_witness : ∃ c, @ValidateRequest ascii_only_unicode demo_ws = Ok c ∧
  rh_protocols c = ["chat"; "superchat"; "mqtt"] ∧
  @ValidateRequest ascii_only_unicode (with_header demo_ws (CanonicalizeRequestHeaders demo_handshake c)) =
    Ok (mkRequestHandshake (rh_key c) (rh_protocols c) (rh_extensions c) ["upgrade"] ["websocket"]).
Proof.
  destruct (@ValidateRequest ascii_only_unicode demo_ws) as [c|] eqn:E; [|vm_compute in E; discriminate E].
  exists c. split; [reflexivity|]. split; [vm_compute in E; injection E as <-; reflexivity|].
  exact (@canonical_handshake ascii_only_unicode demo_ws c demo_handshake E).
Defined.

(** ** The negotiated response *)

Section Response.
Context `{Unicode} (sha1 : string → string).

(** What an accepted response has. *)
Lemma ValidateResponse_ok request response hs : ValidateResponse sha1 request (Some response) = Ok hs →
  let values := header_Values (wr_header response) in
  wr_status response = 101%Z ∧ hasToken (values "Connection") "upgrade" = true ∧ hasToken (values "Upgrade") "websocket" = true ∧
  values "Sec-WebSocket-Accept" = [accept sha1 (rh_key request)] ∧
  trim_space (accept sha1 (rh_key request)) = accept sha1 (rh_key request) ∧ sh_accept hs = accept sha1 (rh_key request) ∧
  oneProtocol (wr_header response) = Some (sh_protocol hs) ∧ (sh_protocol hs = "" ∨ sh_protocol hs ∈ rh_protocols request) ∧
  commaValues (values "Sec-WebSocket-Extensions") false = Some (sh_extensions hs).
Proof.
  unfold ValidateResponse, oneProtocol. intros Hv. cbv zeta in *.
  destruct (Z.eqb_spec (wr_status response) 101) as [Hst|]; [|done]. cbn [negb] in Hv.
  destruct (hasToken _ "upgrade"); [|done]. destruct (hasToken _ "websocket"); [|done]. cbn [negb] in Hv.
  destruct (header_Values _ "Sec-WebSocket-Accept") as [|value [|]]; try done.
  destruct (String.eqb_spec (trim_space value) value) as [Htrim|]; [|done]. cbn [negb orb] in Hv.
  destruct (String.eqb_spec value (accept sha1 (rh_key request))) as [Hvalue|]; [|done]. cbn [negb] in Hv. rewrite Hvalue in *.
  destruct (commaValues _ true) as [protocols|]; [|done].
  assert (Hp : ∃ protocol, (match protocols with [] => Some "" | [protocol] => Some protocol | _ => None end) = Some protocol ∧
    (protocol = "" ∨ protocol ∈ rh_protocols request) ∧
    ∃ extensions, commaValues (header_Values (wr_header response) "Sec-WebSocket-Extensions") false = Some extensions ∧
      hs = mkResponseHandshake (accept sha1 (rh_key request)) protocol extensions).
  { destruct protocols as [|protocol [|]]; [| |done].
    - exists "". split; [done|]. split; [by left|]. destruct (commaValues _ false) as [extensions|]; [|done]. injection Hv as <-. eauto.
    - destruct (ws_validToken protocol); [|done]. destruct (bool_decide_reflect (protocol ∈ rh_protocols request)); [|done].
      exists protocol. split; [done|]. split; [by right|]. cbn in Hv. destruct (commaValues _ false) as [extensions|]; [|done].
      injection Hv as <-. eauto. }
  destruct Hp as (protocol & -> & Hoffer & extensions & -> & ->). done.
Qed.

(** A switching-protocols response is accepted only with the accept value of
    the client's key and with no subprotocol or one the client offered; the
    response accepted from the upstream passes the check after the plugins, and
    a response that passes it negotiates the same: the plugins cannot change
    the status, the accept value, the subprotocol or the extensions. *)
Theorem negotiation_preserved request response hs :
  ValidateResponse sha1 request (Some response) = Ok hs →
  wr_status response = 101%Z ∧ sh_accept hs = accept sha1 (rh_key request) ∧
  (sh_protocol hs = "" ∨ sh_protocol hs ∈ rh_protocols request) ∧
  ValidateFinalResponse hs (Some response) = None ∧
  ∀ final, ValidateFinalResponse hs (Some final) = None →
    wr_status final = 101%Z ∧ trim_space <$> header_Values (wr_header final) "Sec-WebSocket-Accept" = [sh_accept hs] ∧
    oneProtocol (wr_header final) = oneProtocol (wr_header response) ∧
    commaValues (header_Values (wr_header final) "Sec-WebSocket-Extensions") false =
      commaValues (header_Values (wr_header response) "Sec-WebSocket-Extensions") false.
Proof.
  intros (Hst & Hc & Hu & Ha & Ht & Hacc & Hp & Hoffer & He)%ValidateResponse_ok. split_and!; try done.
  - unfold ValidateFinalResponse. by rewrite Hst, Hc, Hu, Ha, Ht, Hacc, String.eqb_refl, Hp, String.eqb_refl, He, bool_decide_eq_true_2.
  - intros final Hf. unfold ValidateFinalResponse in Hf. cbv zeta in Hf.
    destruct (Z.eqb_spec (wr_status final) 101) as [Hst'|]; [|done]. cbn [negb] in Hf.
    destruct (hasToken (header_Values (wr_header final) "Connection") "upgrade"); [|done].
    destruct (hasToken (header_Values (wr_header final) "Upgrade") "websocket"); [|done]. cbn [negb] in Hf.
    destruct (header_Values (wr_header final) "Sec-WebSocket-Accept") as [|value [|]]; try done.
    destruct (String.eqb_spec (trim_space value) (sh_accept hs)) as [Hv|]; [|done]. cbn [negb] in Hf.
    destruct (oneProtocol (wr_header final)) as [protocol|]; [|done].
    destruct (String.eqb_spec protocol (sh_protocol hs)) as [Hprotocol|]; [|done]. cbn [negb] in Hf. rewrite Hprotocol.
    destruct (commaValues (header_Values (wr_header final) _) false) as [extensions|]; [|done]. destruct (bool_decide_reflect (extensions = sh_extensions hs)) as [Hextensions|]; [|done]. rewrite Hextensions.
    rewrite Hp, He. simpl. by rewrite Hv.
Qed.
End Response.

Definition demo_switch : wsResponse :=
  mkWsResponse 101 {["Connection" := ["Upgrade"]; "Upgrade" := ["websocket"];
    "Sec-Websocket-Accept" := [accept (fun s => s) "dGhlIHNhbXBsZSBub25jZQ=="]; "Sec-Websocket-Protocol" := ["mqtt"]]}.
Definition demo_captured : RequestHandshake :=
  mkRequestHandshake "dGhlIHNhbXBsZSBub25jZQ==" ["chat"; "superchat"; "mqtt"] [] ["keep-alive"; "upgrade"] ["websocket"].

Lemma negotiation_preserved_witness : ∃ hs, @ValidateResponse ascii_only_unicode (fun s => s) demo_captured (Some demo_switch) = Ok hs ∧
  sh_protocol hs = "mqtt" ∧ @ValidateFinalResponse ascii_only_unicode hs (Some demo_switch) = None.
Proof.
  destruct (@ValidateResponse ascii_only_unicode (fun s => s) demo_captured (Some demo_switch)) as [hs|] eqn:E;
    [|vm_compute in E; discriminate E].
  exists hs. split; [reflexivity|]. split; [vm_compute in E; injection E as <-; reflexivity|].
  exact (proj1 (proj2 (proj2 (proj2 (@negotiation_preserved ascii_only_unicode (fun s => s) demo_captured demo_switch hs E))))).
Defined.

(** ** The outbound request ([internal/proxy/websocket.go]) *)

(** The headers [serveWebSocket] sends upstream. *)
Definition wsOutboundHeader (header : Header) (inbound : request) (tls : bool) (captured : RequestHandshake) : Header :=
  CanonicalizeRequestHeaders (rebuildForwardingHeaders header inbound tls) captured.

(** The upgrade request carries exactly the canonical handshake in its
    control fields, none of the fields the client's [Connection] names, and
    otherwise the gateway's forwarding fields and the client's other fields. *)
Theorem wsOutbound_fields header inbound tls captured k :
  wsOutboundHeader header inbound tls captured !! k =
    if decide (k ∈ controlKeys) then handshakeFields captured !! k
    else if decide (k ∈ nominated header) then None
    else if decide (k ∈ forwardingHeaders) then forwarded inbound tls !! k else header !! k.
Proof.
  unfold wsOutboundHeader. rewrite Canonicalize_lookup.
  assert (nominated (rebuildForwardingHeaders header inbound tls) = nominated header) as ->.
  { unfold nominated, header_Values. by rewrite rebuildForwarding_lookup, decide_False by (apply (bool_decide_eq_false_1 _); reflexivity). }
  by rewrite rebuildForwarding_lookup.
Qed.

(** A client that names a forwarding field as a connection option. *)
Definition nominating : Header :=
  <["Connection" := ["Upgrade, X-Forwarded-For"]]> demo_handshake.
Definition nominating_inbound : request := mkRequest "GET" "gateway.example" "/chat" "" nominating "192.0.2.7:4711".

