(* ===== verification/Session.v ===== *)
(** * Tunnel sessions ([internal/tunnel/session.go])

    A session copies opaque bytes between a client and an upstream until both
    directions are done. Three goroutines (two copy loops and the controller
    [Run]) and any number of [ForceClose] callers share it; every read, write,
    atomic operation, critical section and channel operation is a step of its
    own, so the theorems cover every interleaving. Readers and writers are the
    environment: a read returns any bytes that fit the buffer, a write takes
    any part of what it is given. *)

From Stdlib Require Import Strings.Byte.
From S2P Require Import Prelude.
#[local] Open Scope Z_scope.
#[local] Open Scope list_scope.

Inductive Direction := DirectionDownstreamToUpstream | DirectionUpstreamToDownstream.

Inductive CloseReason := ReasonClientEOF | ReasonUpstreamEOF | ReasonIdleTimeout | ReasonShutdown | ReasonIOError.
#[global] Instance CloseReason_eq_dec : EqDecision CloseReason.
Proof. solve_decision. Defined.

(** Which members of an endpoint are set. *)
Record Endpoint := mkEndpoint { ep_Reader : bool; ep_Writer : bool; ep_Closer : bool; ep_CloseWriter : bool }.

Record sessionResult := mkSessionResult {
  rs_Reason : CloseReason;
  rs_Duration : Z;
  rs_DownstreamToUpstream : Z;
  rs_UpstreamToDownstream : Z;
}.

Record copyOutcome := mkOutcome { oc_direction : Direction; oc_eof : bool }.

Definition copyBufferSize : nat := Z.to_nat (Z.shiftl 32 10).

(** ** Copy loops *)

Inductive readError := ReadEOF | ReadFailed.

(** Where a copy loop is: about to read, to record and to signal activity (after
    a read, or after a write with that error), to write what is left of the
    buffer, to count what was written, to half-close the writer, to send its
    outcome. [err] is the error of the last read. *)
Inductive copyPoint :=
| AtRead
| AtSignal (recorded : bool) (rest : list byte) (written : option bool) (err : option readError)
| AtWrite (rest : list byte) (err : option readError)
| AtCount (rest : list byte) (n : nat) (failed : bool) (err : option readError)
| AtCloseWriter
| AtOutcome (eof : bool)
| CopyReturned (eof : bool).

(** A copy loop with its counter, the bytes it has read and written and the
    number of half-closes it has made. *)
Record copier := mkCopier {
  cp_point : copyPoint;
  cp_count : Z;
  cp_read : list byte;
  cp_written : list byte;
  cp_halfCloses : nat;
}.

Definition newCopier : copier := mkCopier AtRead 0 [] [] 0.
Definition at_point (c : copier) (p : copyPoint) : copier := mkCopier p (cp_count c) (cp_read c) (cp_written c) (cp_halfCloses c).

(** What the loop does with the error of a read once its bytes are written. *)
Definition afterRead (err : option readError) : copyPoint :=
  match err with None => AtRead | Some ReadEOF => AtCloseWriter | Some ReadFailed => AtOutcome false end.

(** The head of the write loop. *)
Definition writeHead (rest : list byte) (err : option readError) : copyPoint :=
  match rest with [] => afterRead err | _ => AtWrite rest err end.

Inductive copyInput := IRead (bytes : list byte) (err : option readError) | IWrite (n : nat) (failed : bool) | IStep.

(** ** Sessions *)

(** The variables of [Run]: when it started, the outcomes received, the idle
    timer and whether its channel and the context's are still selected. *)
Record loop := mkLoop {
  lp_startedAt : Z;
  lp_completed : nat;
  lp_timer : option Z;
  lp_idle : bool;
  lp_contextDone : bool;
}.

Inductive runPoint :=
| NotRunning
| AtSelect (l : loop)
| AtIdle (l : loop) (seen : Z)
| AtCloseEndpoints (l : loop)
| AtExit (l : loop)
| AtResult (l : loop)
| Returned (r : sessionResult).

Record session := mkSession {
  ss_idle : Z;
  ss_halfDown : bool;
  ss_halfUp : bool;
  ss_now : Z;
  ss_started : bool;
  ss_down : copier;
  ss_up : copier;
  ss_activity : bool;
  ss_lastActivity : Z;
  ss_closed : bool;
  ss_closes : nat;
  ss_reason : option CloseReason;
  ss_reasons : list CloseReason;
  ss_outcomes : list copyOutcome;
  ss_canceled : bool;
  ss_forcing : nat;
  ss_run : runPoint;
}.

Definition copier_of (s : session) (d : Direction) : copier :=
  match d with DirectionDownstreamToUpstream => ss_down s | DirectionUpstreamToDownstream => ss_up s end.

(** [copy] towards the upstream half-closes the upstream, and conversely. *)
Definition halfCloser (s : session) (d : Direction) : bool :=
  match d with DirectionDownstreamToUpstream => ss_halfUp s | DirectionUpstreamToDownstream => ss_halfDown s end.

Definition with_copier (s : session) (d : Direction) (c : copier) : session :=
  mkSession (ss_idle s) (ss_halfDown s) (ss_halfUp s) (ss_now s) (ss_started s)
    (match d with DirectionDownstreamToUpstream => c | _ => ss_down s end)
    (match d with DirectionUpstreamToDownstream => c | _ => ss_up s end)
    (ss_activity s) (ss_lastActivity s) (ss_closed s) (ss_closes s) (ss_reason s) (ss_reasons s) (ss_outcomes s)
    (ss_canceled s) (ss_forcing s) (ss_run s).

Definition with_activity (s : session) (token : bool) (last : Z) : session :=
  mkSession (ss_idle s) (ss_halfDown s) (ss_halfUp s) (ss_now s) (ss_started s) (ss_down s) (ss_up s)
    token last (ss_closed s) (ss_closes s) (ss_reason s) (ss_reasons s) (ss_outcomes s)
    (ss_canceled s) (ss_forcing s) (ss_run s).

Definition with_outcomes (s : session) (os : list copyOutcome) : session :=
  mkSession (ss_idle s) (ss_halfDown s) (ss_halfUp s) (ss_now s) (ss_started s) (ss_down s) (ss_up s)
    (ss_activity s) (ss_lastActivity s) (ss_closed s) (ss_closes s) (ss_reason s) (ss_reasons s) os
    (ss_canceled s) (ss_forcing s) (ss_run s).

Definition with_run (s : session) (p : runPoint) : session :=
  mkSession (ss_idle s) (ss_halfDown s) (ss_halfUp s) (ss_now s) (ss_started s) (ss_down s) (ss_up s)
    (ss_activity s) (ss_lastActivity s) (ss_closed s) (ss_closes s) (ss_reason s) (ss_reasons s) (ss_outcomes s)
    (ss_canceled s) (ss_forcing s) p.

Definition with_forcing (s : session) (n : nat) : session :=
  mkSession (ss_idle s) (ss_halfDown s) (ss_halfUp s) (ss_now s) (ss_started s) (ss_down s) (ss_up s)
    (ss_activity s) (ss_lastActivity s) (ss_closed s) (ss_closes s) (ss_reason s) (ss_reasons s) (ss_outcomes s)
    (ss_canceled s) n (ss_run s).

Definition canceled (s : session) : session :=
  mkSession (ss_idle s) (ss_halfDown s) (ss_halfUp s) (ss_now s) (ss_started s) (ss_down s) (ss_up s)
    (ss_activity s) (ss_lastActivity s) (ss_closed s) (ss_closes s) (ss_reason s) (ss_reasons s) (ss_outcomes s)
    true (ss_forcing s) (ss_run s).

Definition elapsed (s : session) (d : Z) : session :=
  mkSession (ss_idle s) (ss_halfDown s) (ss_halfUp s) (ss_now s + d) (ss_started s) (ss_down s) (ss_up s)
    (ss_activity s) (ss_lastActivity s) (ss_closed s) (ss_closes s) (ss_reason s) (ss_reasons s) (ss_outcomes s)
    (ss_canceled s) (ss_forcing s) (ss_run s).

(** ** Construction *)

Definition validateEndpoint (e : Endpoint) : bool := ep_Reader e && ep_Writer e && ep_Closer e.

Definition NewSession (downstream upstream : Endpoint) (idleTimeout now : Z) : option session :=
  if negb (validateEndpoint downstream) then None
  else if negb (validateEndpoint upstream) then None
  else if idleTimeout <? 0 then None
  else Some (mkSession idleTimeout (ep_CloseWriter downstream) (ep_CloseWriter upstream) now false newCopier newCopier
    false 0 false 0 None [] [] false 0 NotRunning).

(** ** Close reasons *)

Definition isControllerReason (reason : CloseReason) : bool :=
  match reason with ReasonShutdown | ReasonIdleTimeout => true | _ => false end.

Definition reasonPriority (reason : CloseReason) : Z :=
  match reason with ReasonShutdown => 5 | ReasonIdleTimeout => 4 | _ => 0 end.

Definition nextReason (current : option CloseReason) (reason : CloseReason) : option CloseReason :=
  match current with
  | None => Some reason
  | Some c =>
    if isControllerReason reason && (negb (isControllerReason c) || (reasonPriority c <? reasonPriority reason))
    then Some reason else current
  end.

Definition setReason (s : session) (reason : CloseReason) : session :=
  mkSession (ss_idle s) (ss_halfDown s) (ss_halfUp s) (ss_now s) (ss_started s) (ss_down s) (ss_up s)
    (ss_activity s) (ss_lastActivity s) (ss_closed s) (ss_closes s)
    (nextReason (ss_reason s) reason) (ss_reasons s ++ [reason])
    (ss_outcomes s) (ss_canceled s) (ss_forcing s) (ss_run s).

Definition closeEndpoints (s : session) : session :=
  mkSession (ss_idle s) (ss_halfDown s) (ss_halfUp s) (ss_now s) (ss_started s) (ss_down s) (ss_up s)
    (ss_activity s) (ss_lastActivity s) true (if ss_closed s then ss_closes s else S (ss_closes s))
    (ss_reason s) (ss_reasons s) (ss_outcomes s) (ss_canceled s) (ss_forcing s) (ss_run s).

(** ** The copy loop *)

Definition recordActivity (s : session) (at_ : Z) : session := with_activity s (ss_activity s) at_.

Definition copy (s : session) (d : Direction) (i : copyInput) : option session :=
  let c := copier_of s d in
  match cp_point c, i with
  | AtRead, IRead bytes err =>
    if Nat.leb (length bytes) copyBufferSize then
      let p := match bytes with [] => afterRead err | _ => AtSignal false bytes None err end in
      Some (with_copier s d (mkCopier p (cp_count c) (cp_read c ++ bytes) (cp_written c) (cp_halfCloses c)))
    else None
  | AtSignal false rest written err, IStep =>
    Some (with_copier (recordActivity s (ss_now s)) d (at_point c (AtSignal true rest written err)))
  | AtSignal true rest written err, IStep =>
    let p := match written with
      | None => writeHead rest err
      | Some failed => if failed then AtOutcome false else writeHead rest err
      end in
    Some (with_copier (with_activity s true (ss_lastActivity s)) d (at_point c p))
  | AtWrite rest err, IWrite n failed =>
    if Nat.leb n (length rest) then
      let p := match n with O => AtOutcome false | _ => AtCount (drop n rest) n failed err end in
      Some (with_copier s d (mkCopier p (cp_count c) (cp_read c) (cp_written c ++ take n rest) (cp_halfCloses c)))
    else None
  | AtCount rest n failed err, IStep =>
    Some (with_copier s d (mkCopier (AtSignal false rest (Some failed) err) (wrap64 (cp_count c + Z.of_nat n))
      (cp_read c) (cp_written c) (cp_halfCloses c)))
  | AtCloseWriter, IStep =>
    Some (with_copier s d (mkCopier (AtOutcome true) (cp_count c) (cp_read c) (cp_written c)
      (if halfCloser s d then S (cp_halfCloses c) else cp_halfCloses c)))
  | AtOutcome eof, IStep =>
    Some (with_outcomes (with_copier s d (at_point c (CopyReturned eof))) (ss_outcomes s ++ [mkOutcome d eof]))
  | _, _ => None
  end.

(** ** The controller *)

Definition currentReason (s : session) : option CloseReason := ss_reason s.
Definition activityTime (s : session) : Z := ss_lastActivity s.

(** [Run] up to its loop; a second call returns at once. *)
Definition Run (s : session) : session * option sessionResult :=
  if ss_started s then (s, Some (mkSessionResult ReasonIOError 0 0 0))
  else
    let l := mkLoop (ss_now s) 0 (if 0 <? ss_idle s then Some (ss_now s + ss_idle s) else None) (0 <? ss_idle s) true in
    (mkSession (ss_idle s) (ss_halfDown s) (ss_halfUp s) (ss_now s) true (ss_down s) (ss_up s)
      (ss_activity s) (ss_now s) (ss_closed s) (ss_closes s) (ss_reason s) (ss_reasons s) (ss_outcomes s)
      (ss_canceled s) (ss_forcing s) (AtSelect l), None).

Definition loopHead (l : loop) : runPoint := if Nat.ltb (lp_completed l) 2 then AtSelect l else AtExit l.

Definition outcomeReason (o : copyOutcome) : CloseReason :=
  if oc_eof o then match oc_direction o with DirectionDownstreamToUpstream => ReasonClientEOF | _ => ReasonUpstreamEOF end
  else ReasonIOError.

Inductive branch := BOutcome | BActivity | BIdle | BContext | BNext.

(** One step of the loop: a ready case of the select, or the rest of one. *)
Definition runStep (s : session) (b : branch) : option session :=
  match ss_run s, b with
  | AtSelect l, BOutcome =>
    match ss_outcomes s with
    | [] => None
    | o :: os =>
      let l := mkLoop (lp_startedAt l) (S (lp_completed l)) (lp_timer l) (lp_idle l) (lp_contextDone l) in
      Some (with_run (setReason (with_outcomes s os) (outcomeReason o)) (if oc_eof o then loopHead l else AtCloseEndpoints l))
    end
  | AtSelect l, BActivity =>
    if ss_activity s then
      let timer := if 0 <? ss_idle s then Some (ss_now s + ss_idle s) else lp_timer l in
      Some (with_run (with_activity s false (ss_lastActivity s))
        (loopHead (mkLoop (lp_startedAt l) (lp_completed l) timer (lp_idle l) (lp_contextDone l))))
    else None
  | AtSelect l, BIdle =>
    match lp_timer l with
    | Some deadline =>
      if lp_idle l && (deadline <=? ss_now s) then
        Some (with_run s (AtIdle (mkLoop (lp_startedAt l) (lp_completed l) None (lp_idle l) (lp_contextDone l)) (activityTime s)))
      else None
    | None => None
    end
  | AtIdle l seen, BNext =>
    let remaining := ss_idle s - (ss_now s - seen) in
    if 0 <? remaining then
      Some (with_run s (loopHead (mkLoop (lp_startedAt l) (lp_completed l) (Some (ss_now s + remaining)) true (lp_contextDone l))))
    else
      Some (with_run (setReason s ReasonIdleTimeout)
        (AtCloseEndpoints (mkLoop (lp_startedAt l) (lp_completed l) (lp_timer l) false (lp_contextDone l))))
  | AtSelect l, BContext =>
    if lp_contextDone l && ss_canceled s then
      Some (with_run (setReason s ReasonShutdown)
        (AtCloseEndpoints (mkLoop (lp_startedAt l) (lp_completed l) (lp_timer l) (lp_idle l) false)))
    else None
  | AtCloseEndpoints l, BNext => Some (with_run (closeEndpoints s) (loopHead l))
  | AtExit l, BNext => Some (with_run (closeEndpoints s) (AtResult l))
  | AtResult l, BNext =>
    let reason := default ReasonIOError (currentReason s) in
    Some (with_run s (Returned (mkSessionResult reason (ss_now s - lp_startedAt l) (cp_count (ss_down s)) (cp_count (ss_up s)))))
  | _, _ => None
  end.

(** [ForceClose] before its second half, [closeEndpoints]. *)
Definition ForceClose (s : session) (reason : CloseReason) : session :=
  with_forcing (setReason s reason) (S (ss_forcing s)).

Definition forceCloseFinish (s : session) : option session :=
  match ss_forcing s with O => None | S n => Some (with_forcing (closeEndpoints s) n) end.

(** ** Steps *)

Inductive sevent :=
| SRun
| STick (d : Z)
| SCancel
| SForceClose (reason : CloseReason)
| SForceFinish
| SCopy (d : Direction) (i : copyInput)
| SLoop (b : branch).

Definition isRunning (s : session) : bool := match ss_run s with NotRunning => false | _ => true end.

(** Callers of [ForceClose] pass [ReasonShutdown] or [ReasonIOError]. *)
Definition sexec (s : session) (e : sevent) : option session :=
  match e with
  | SRun => Some (Run s).1
  | STick d => if 0 <=? d then Some (elapsed s d) else None
  | SCancel => Some (canceled s)
  | SForceClose reason =>
    match reason with ReasonShutdown | ReasonIOError => Some (ForceClose s reason) | _ => None end
  | SForceFinish => forceCloseFinish s
  | SCopy d i => if isRunning s then copy s d i else None
  | SLoop b => runStep s b
  end.

Inductive sreachable : session → Prop :=
| sreach_new downstream upstream idle now s : NewSession downstream upstream idle now = Some s → sreachable s
| sreach_step s e s' : sreachable s → sexec s e = Some s' → sreachable s'.

Fixpoint srun (s : session) (es : list sevent) : option session :=
  match es with [] => Some s | e :: es => match sexec s e with Some s => srun s es | None => None end end.

(** ** Close reasons *)

(** The documented precedence: shutdown, then idle timeout, then the first
    natural cause. *)
Definition reported (reasons : list CloseReason) : option CloseReason :=
  if bool_decide (ReasonShutdown ∈ reasons) then Some ReasonShutdown
  else if bool_decide (ReasonIdleTimeout ∈ reasons) then Some ReasonIdleTimeout
  else head reasons.

Lemma elem_of_snoc {A} (x y : A) l : x ∈ l ++ [y] ↔ x ∈ l ∨ x = y.
Proof. by rewrite elem_of_app, list_elem_of_singleton. Qed.

Lemma reported_natural reasons c : ReasonShutdown ∉ reasons → ReasonIdleTimeout ∉ reasons →
  head reasons = Some c → isControllerReason c = false.
Proof. intros H1 H2 Hc. destruct reasons as [|x l]; [done|]. injection Hc as ->. destruct c; try done; exfalso; [apply H2|apply H1]; left. Qed.

(** Setting reasons one after the other gives the documented precedence. *)
Lemma nextReason_reported reasons r : nextReason (reported reasons) r = reported (reasons ++ [r]).
Proof.
  unfold reported. rewrite !(bool_decide_ext _ _ (elem_of_snoc _ r reasons)).
  case_bool_decide as H1; [rewrite bool_decide_eq_true_2 by auto; simpl; by destruct r|].
  case_bool_decide as H2.
  - rewrite (bool_decide_eq_true_2 (_ ∨ ReasonIdleTimeout = r)) by auto. simpl. case_bool_decide as H3; [by destruct H3 as [|<-]|].
    destruct r; try done. exfalso. apply H3. by right.
  - destruct reasons as [|x l]; simpl; [by destruct r|].
    pose proof (reported_natural (x :: l) x H1 H2 eq_refl) as Hx. rewrite Hx. simpl. rewrite andb_true_r.
    case_bool_decide as H3; [destruct H3 as [|<-]; [done|]|case_bool_decide as H4; [destruct H4 as [|<-]; [done|]|]].
    + done.
    + done.
    + destruct r; try done; exfalso; [apply H4|apply H3]; by right.
Qed.

(** ** Copy loops *)

Definition uncounted (p : copyPoint) : Z := match p with AtCount _ n _ _ => Z.of_nat n | _ => 0 end.

(** Whether [rest] is what the loop has read and not yet written. *)
Definition unwritten (p : copyPoint) (rest : list byte) : Prop :=
  match p with
  | AtRead | AtCloseWriter => rest = []
  | AtSignal _ r None _ => r = rest
  | AtSignal _ r (Some _) _ | AtCount r _ _ _ => r = rest
  | AtWrite r _ => r = rest
  | AtOutcome eof | CopyReturned eof => eof = true → rest = []
  end.

Definition ended (p : copyPoint) : bool := match p with AtOutcome eof | CopyReturned eof => eof | _ => false end.

Record copier_ok (half : bool) (c : copier) : Prop := {
  co_data : ∃ rest, cp_read c = cp_written c ++ rest ∧ (length rest ≤ copyBufferSize)%nat ∧ unwritten (cp_point c) rest;
  co_uncounted : uncounted (cp_point c) ≤ Z.of_nat (length (cp_written c));
  co_count : cp_count c = wrap64 (Z.of_nat (length (cp_written c)) - uncounted (cp_point c));
  co_half : cp_halfCloses c = if ended (cp_point c) && half then 1%nat else 0%nat;
}.

Definition returned (c : copier) : bool := match cp_point c with CopyReturned _ => true | _ => false end.

Lemma unwritten_head rest err : unwritten (writeHead rest err) rest.
Proof. destruct rest; [by destruct err as [[]|]|done]. Qed.
Lemma uncounted_head rest err : uncounted (writeHead rest err) = 0.
Proof. destruct rest; [by destruct err as [[]|]|done]. Qed.
Lemma ended_head rest err : ended (writeHead rest err) = false.
Proof. destruct rest; [by destruct err as [[]|]|done]. Qed.
Lemma returned_head rest err c : returned (at_point c (writeHead rest err)) = false.
Proof. destruct rest; [by destruct err as [[]|]|done]. Qed.

(** Moving on without reading, writing or counting. *)
Lemma at_point_ok half c p : copier_ok half c → uncounted (cp_point c) = 0 → uncounted p = 0 →
  ended (cp_point c) = ended p → (∀ rest, unwritten (cp_point c) rest → unwritten p rest) → copier_ok half (at_point c p).
Proof.
  intros [(rest & G1 & G1' & G1'') G2 G3 G4] H1 H2 H3 H4. split; simpl.
  - exists rest. auto.
  - rewrite H2. lia.
  - by rewrite H2, <-H1.
  - by rewrite <-H3.
Qed.

Lemma read_ok half c bytes err p : copier_ok half c → cp_point c = AtRead → (length bytes ≤ copyBufferSize)%nat →
  p = match bytes with [] => afterRead err | _ => AtSignal false bytes None err end →
  copier_ok half (mkCopier p (cp_count c) (cp_read c ++ bytes) (cp_written c) (cp_halfCloses c)).
Proof.
  intros [(rest & G1 & G1' & G1'') G2 G3 G4] Hp Hb ->. rewrite Hp in *. simpl in *. subst rest. rewrite app_nil_r in G1.
  destruct bytes as [|b bytes].
  - rewrite app_nil_r. split; simpl.
    + exists []. rewrite app_nil_r. split_and!; [done|apply Nat.le_0_l|]. by destruct err as [[]|].
    + destruct err as [[]|]; simpl; lia.
    + by destruct err as [[]|].
    + by destruct err as [[]|].
  - split; simpl; try done. exists (b :: bytes). split_and!; [by rewrite G1|done|done].
Qed.

Lemma write_ok half c rest err n failed p : copier_ok half c → cp_point c = AtWrite rest err → (n ≤ length rest)%nat →
  p = match n with O => AtOutcome false | _ => AtCount (drop n rest) n failed err end →
  copier_ok half (mkCopier p (cp_count c) (cp_read c) (cp_written c ++ take n rest) (cp_halfCloses c)).
Proof.
  intros [(rest' & G1 & G1' & G1'') G2 G3 G4] Hp Hn ->. rewrite Hp in *. simpl in *. subst rest'.
  split; simpl.
  - exists (drop n rest). rewrite <-app_assoc, take_drop, length_drop. split_and!; [done|lia|]. by destruct n.
  - rewrite length_app, length_take. destruct n; cbn [uncounted]; lia.
  - rewrite G3, length_app, length_take. f_equal. destruct n; cbn [uncounted]; lia.
  - by destruct n.
Qed.

Lemma count_ok half c rest n failed err : copier_ok half c → cp_point c = AtCount rest n failed err →
  copier_ok half (mkCopier (AtSignal false rest (Some failed) err) (wrap64 (cp_count c + Z.of_nat n))
    (cp_read c) (cp_written c) (cp_halfCloses c)).
Proof.
  intros [G1 G2 G3 G4] Hp. rewrite Hp in *. simpl in *. split; simpl; [done|lia| |done].
  rewrite G3. unfold wrap64. rewrite Zplus_mod_idemp_l. f_equal. lia.
Qed.

Lemma closeWriter_ok half c : copier_ok half c → cp_point c = AtCloseWriter →
  copier_ok half (mkCopier (AtOutcome true) (cp_count c) (cp_read c) (cp_written c) (if half then S (cp_halfCloses c) else cp_halfCloses c)).
Proof.
  intros [(rest & G1 & G1' & G1'') G2 G3 G4] Hp. rewrite Hp in *. simpl in *. subst rest. split; simpl; try done.
  - by exists [].
  - rewrite G4. by destruct half.
Qed.

Lemma activity_frame s d c token last : with_copier (with_activity s token last) d c =
  with_outcomes (with_copier (with_activity s token last) d c) (ss_outcomes s).
Proof. done. Qed.
Lemma copier_frame s d c : with_copier s d c =
  with_outcomes (with_copier (with_activity s (ss_activity s) (ss_lastActivity s)) d c) (ss_outcomes s).
Proof. done. Qed.
Lemma outcome_frame s d c outs : with_outcomes (with_copier s d c) outs =
  with_outcomes (with_copier (with_activity s (ss_activity s) (ss_lastActivity s)) d c) outs.
Proof. done. Qed.

(** What a step of a copy loop changes. *)
Lemma copy_inv s d i s' : copy s d i = Some s' → ∃ c' token last outs,
  s' = with_outcomes (with_copier (with_activity s token last) d c') outs ∧
  (last = ss_lastActivity s ∨ last = ss_now s) ∧ returned (copier_of s d) = false ∧
  (outs = ss_outcomes s ∧ returned c' = false ∨ ∃ eof, outs = ss_outcomes s ++ [mkOutcome d eof] ∧ cp_point c' = CopyReturned eof) ∧
  (copier_ok (halfCloser s d) (copier_of s d) → copier_ok (halfCloser s d) c').
Proof.
  unfold copy. set (c := copier_of s d).
  assert (Hret : ∀ p, cp_point c = p → match p with CopyReturned _ => False | _ => True end → returned c = false).
  { intros p <- Hp. unfold returned. by destruct (cp_point c). }
  destruct (cp_point c) as [|[] rest written err|rest err|rest n failed err| |eof|eof] eqn:Hp; destruct i as [bytes err'|n' failed'|]; try done.
  - destruct (Nat.leb_spec (length bytes) copyBufferSize); [|done]. intros [= <-]. eexists _, (ss_activity s), (ss_lastActivity s), (ss_outcomes s). split; [apply copier_frame|].
    split_and!; [by left|by apply (Hret _ eq_refl)|left; split; [done|]; by destruct bytes; [destruct err' as [[]|]|]|].
    intros Hc. by eapply read_ok.
  - intros [= <-]. eexists _, true, (ss_lastActivity s), (ss_outcomes s). split; [apply activity_frame|]. split_and!; [by left|by apply (Hret _ eq_refl)|left; split; [done|]|].
    + destruct written as [[]|]; [done|apply returned_head|apply returned_head].
    + intros Hc. apply at_point_ok; try done; rewrite ?Hp; destruct written as [[]|]; simpl; rewrite ?uncounted_head, ?ended_head; try done;
        intros ? ->; by apply unwritten_head.
  - intros [= <-]. eexists _, (ss_activity s), (ss_now s), (ss_outcomes s). split; [exact (activity_frame s d _ _ _)|]. split_and!; [by right|by apply (Hret _ eq_refl)|by left|].
    intros Hc. apply at_point_ok; try done; rewrite ?Hp; done.
  - destruct (Nat.leb_spec n' (length rest)); [|done]. intros [= <-]. eexists _, (ss_activity s), (ss_lastActivity s), (ss_outcomes s). split; [apply copier_frame|].
    split_and!; [by left|by apply (Hret _ eq_refl)|left; split; [done|]; by destruct n'|]. intros Hc. by eapply write_ok.
  - intros [= <-]. eexists _, (ss_activity s), (ss_lastActivity s), (ss_outcomes s). split; [apply copier_frame|]. split_and!; [by left|by apply (Hret _ eq_refl)|by left|]. intros Hc. by eapply count_ok.
  - intros [= <-]. eexists _, (ss_activity s), (ss_lastActivity s), (ss_outcomes s). split; [apply copier_frame|]. split_and!; [by left|by apply (Hret _ eq_refl)|by left|]. intros Hc. by eapply closeWriter_ok.
  - intros [= <-]. eexists _, (ss_activity s), (ss_lastActivity s), (ss_outcomes s ++ [mkOutcome d eof]). split; [apply outcome_frame|]. split_and!; [by left|by apply (Hret _ eq_refl)|right; by eexists|].
    intros Hc. apply at_point_ok; try done; by rewrite Hp.
Qed.

(** ** The invariant *)

Definition received (p : runPoint) : nat :=
  match p with
  | NotRunning => 0
  | AtSelect l | AtIdle l _ | AtCloseEndpoints l | AtExit l | AtResult l => lp_completed l
  | Returned _ => 2
  end.

Definition tally (c : copier) : nat := if returned c then 1 else 0.

(** The idle timer is armed at most one idle period ahead. *)
Definition armed (s : session) (l : loop) : Prop :=
  lp_idle l = true → 0 < ss_idle s ∧ ∃ deadline, lp_timer l = Some deadline ∧ deadline ≤ ss_now s + ss_idle s.

Definition expired (s : session) (l : loop) : Prop :=
  lp_idle l = false → 0 < ss_idle s → ReasonIdleTimeout ∈ ss_reasons s.

Definition result_ok (s : session) (r : sessionResult) : Prop :=
  ss_closed s = true ∧
  (∃ reasons, reasons `prefix_of` ss_reasons s ∧ reported reasons = Some (rs_Reason r)) ∧
  rs_DownstreamToUpstream r = cp_count (ss_down s) ∧ rs_UpstreamToDownstream r = cp_count (ss_up s).

Definition loop_ok (s : session) : Prop :=
  match ss_run s with
  | NotRunning => ss_down s = newCopier ∧ ss_up s = newCopier
  | AtSelect l => (lp_completed l < 2)%nat ∧ armed s l ∧ expired s l ∧ (lp_idle l = false → 0 < ss_idle s → ss_closed s = true)
  | AtIdle l seen => (lp_completed l < 2)%nat ∧ 0 < ss_idle s ∧ seen ≤ ss_lastActivity s
  | AtCloseEndpoints l => (lp_completed l ≤ 2)%nat ∧ armed s l ∧ expired s l
  | AtExit l => lp_completed l = 2%nat
  | AtResult l => lp_completed l = 2%nat ∧ ss_closed s = true
  | Returned r => result_ok s r
  end.

(** What stands behind a close reason. *)
Definition justified (s : session) (r : CloseReason) : Prop :=
  match r with
  | ReasonClientEOF => cp_point (ss_down s) = CopyReturned true
  | ReasonUpstreamEOF => cp_point (ss_up s) = CopyReturned true
  | ReasonIdleTimeout => 0 < ss_idle s
  | _ => True
  end.

Record session_ok (s : session) : Prop := {
  so_copier d : copier_ok (halfCloser s d) (copier_of s d);
  so_reason : ss_reason s = reported (ss_reasons s);
  so_closes : ss_closes s = if ss_closed s then 1%nat else 0%nat;
  so_started : ss_started s = isRunning s;
  so_last : isRunning s = true → ss_lastActivity s ≤ ss_now s;
  so_outcome o : o ∈ ss_outcomes s → cp_point (copier_of s (oc_direction o)) = CopyReturned (oc_eof o);
  so_tally : (received (ss_run s) + length (ss_outcomes s))%nat = (tally (ss_down s) + tally (ss_up s))%nat;
  so_justified r : r ∈ ss_reasons s → justified s r;
  so_heard : (received (ss_run s) ≤ length (ss_reasons s))%nat;
  so_loop : loop_ok s;
}.

Lemma newCopier_ok half : copier_ok half newCopier.
Proof. split; simpl; try done. exists []. split_and!; [done|apply Nat.le_0_l|done]. Qed.

Lemma NewSession_ok downstream upstream idle now s : NewSession downstream upstream idle now = Some s → session_ok s.
Proof.
  unfold NewSession. destruct (validateEndpoint downstream), (validateEndpoint upstream), (idle <? 0); try done. intros [= <-]. split; simpl; try done.
  - intros []; apply newCopier_ok.
  - by intros o Ho%elem_of_nil.
  - by intros r Hr%elem_of_nil.
Qed.

Lemma reported_some reasons : (0 < length reasons)%nat → is_Some (reported reasons).
Proof. intros H. unfold reported. repeat case_bool_decide; eauto. destruct reasons; simpl in *; [lia|eauto]. Qed.

(** *** Copy loops *)

Lemma copy_ok s d i s' : session_ok s → isRunning s = true → copy s d i = Some s' → session_ok s'.
Proof.
  intros Hs Hrun (c' & token & last & outs & -> & Hlast & Hret & Houts & Hc)%copy_inv.
  destruct Hs as [G1 G2 G3 G4 G5 G6 G7 G8 G9 G10]. specialize (Hc (G1 d)).
  assert (Hl : last ≤ ss_now s) by (destruct Hlast as [->| ->]; [auto|lia]).
  assert (Hkeep : ∀ d', cp_point (copier_of s d') = CopyReturned true → cp_point (copier_of (with_copier s d c') d') = CopyReturned true).
  { intros d' Hd'. unfold returned in Hret. destruct d, d'; simpl in *; try done; by rewrite Hd' in Hret. }
  split; try done.
  - intros d'. destruct d, d'; try exact Hc; try apply (G1 DirectionUpstreamToDownstream); apply (G1 DirectionDownstreamToUpstream).
  - intros o Ho. assert (Ho' : o ∈ ss_outcomes s ∨ o = mkOutcome d (oc_eof o) ∧ cp_point c' = CopyReturned (oc_eof o)).
    { destruct Houts as [[-> _]|(eof & -> & Hp)]; [by left|]. apply elem_of_snoc in Ho as [Ho| ->]; [by left|by right]. }
    destruct Ho' as [Ho'|[-> Hp]]; [|by destruct d].
    pose proof (G6 _ Ho') as Hp. unfold returned in Hret. destruct d, (oc_direction o); simpl in *; try done; by rewrite Hp in Hret.
  - simpl. assert (Ht : (length outs = length (ss_outcomes s) + tally c')%nat).
    { unfold tally. destruct Houts as [[-> ->]|(eof & -> & Hp)]; [lia|]. unfold returned. rewrite length_app, Hp. simpl. lia. }
    unfold tally in *. destruct d; simpl in *; rewrite Hret in G7; lia.
  - intros r Hr. specialize (G8 r Hr). destruct r; try done; simpl in *.
    + apply (Hkeep DirectionDownstreamToUpstream) in G8. by destruct d.
    + apply (Hkeep DirectionUpstreamToDownstream) in G8. by destruct d.
  - unfold loop_ok in *. cbn in *. unfold isRunning in *. cbn in *. destruct (ss_run s) eqn:Er; try done.
    + destruct G10 as (?&?&?). split_and!; try done. destruct Hlast as [->| ->]; [done|]. specialize (G5 Hrun). lia.
    + assert (returned (ss_down s) = true ∧ returned (ss_up s) = true) as [Hd Hu].
      { simpl in G7. unfold tally in G7. destruct (returned (ss_down s)), (returned (ss_up s)); [done|..]; simpl in G7; lia. }
      destruct d; simpl in Hret; congruence.
Qed.

(** *** The controller *)

Lemma setReason_ok s r : session_ok s → justified s r → session_ok (setReason s r).
Proof.
  intros [G1 G2 G3 G4 G5 G6 G7 G8 G9 G10] Hr. split; try done; simpl.
  - by rewrite G2, nextReason_reported.
  - intros r' [Hr'| ->]%elem_of_snoc; [by apply G8|done].
  - rewrite length_app. lia.
  - assert (Hexp : ∀ l, expired s l → expired (setReason s r) l).
    { intros l Hl H1 H2. simpl. apply elem_of_snoc. left. by apply Hl. }
    unfold loop_ok in *. simpl. destruct (ss_run s); try done.
    + destruct G10 as (?&?&?&?). split_and!; try done. by apply Hexp.
    + destruct G10 as (?&?&?). split_and!; try done. by apply Hexp.
    + destruct G10 as (?&(log & Hlog & ?)&?&?). split_and!; try done. exists log. split; [|done]. simpl. by apply prefix_app_r.
Qed.

Lemma closeEndpoints_ok s : session_ok s → session_ok (closeEndpoints s).
Proof.
  intros [G1 G2 G3 G4 G5 G6 G7 G8 G9 G10]. split; try done; simpl.
  - rewrite G3. by destruct (ss_closed s).
  - unfold loop_ok in *. simpl. destruct (ss_run s); try done.
    + destruct G10 as (?&?&?&?). by split_and!.
    + by destruct G10.
    + destruct G10 as (?&?&?&?). by split_and!.
Qed.

Lemma with_activity_ok s token : session_ok s → session_ok (with_activity s token (ss_lastActivity s)).
Proof. by intros []. Qed.

Lemma with_run_ok s p : session_ok s → isRunning s = true → isRunning (with_run s p) = true →
  received p = received (ss_run s) → loop_ok (with_run s p) → session_ok (with_run s p).
Proof.
  intros [G1 G2 G3 G4 G5 G6 G7 G8 G9 G10] Hrun Hrun' Hp Hl. split; try done; simpl.
  - by rewrite G4, Hrun, Hrun'.
  - intros _. by apply G5.
  - by rewrite Hp.
  - by rewrite Hp.
Qed.

Lemma received_head l : received (loopHead l) = lp_completed l.
Proof. unfold loopHead. by destruct (_ <? _)%nat. Qed.

Lemma running_head s l : isRunning (with_run s (loopHead l)) = true.
Proof. unfold isRunning, loopHead. simpl. by destruct (_ <? _)%nat. Qed.

Lemma loopHead_ok s l : (lp_completed l ≤ 2)%nat → armed s l → expired s l → (lp_idle l = false → 0 < ss_idle s → ss_closed s = true) →
  loop_ok (with_run s (loopHead l)).
Proof. intros. unfold loop_ok, loopHead. simpl. destruct (Nat.ltb_spec (lp_completed l) 2); [by split_and!|lia]. Qed.

Lemma outcome_justified s o os : session_ok s → ss_outcomes s = o :: os → justified s (outcomeReason o).
Proof.
  intros Hs Ho. assert (Hin : o ∈ ss_outcomes s) by (rewrite Ho; left). pose proof (so_outcome _ Hs _ Hin) as Hp.
  unfold outcomeReason. destruct o as [[] []]; simpl in *; done.
Qed.

(** Receiving an outcome. *)
Lemma outcome_ok s l o os p : session_ok s → ss_run s = AtSelect l → ss_outcomes s = o :: os →
  received p = S (lp_completed l) → isRunning (with_run s p) = true →
  loop_ok (with_run (setReason (with_outcomes s os) (outcomeReason o)) p) →
  session_ok (with_run (setReason (with_outcomes s os) (outcomeReason o)) p).
Proof.
  intros Hs Hl Ho Hp Hrun Hloop. pose proof (outcome_justified _ _ _ Hs Ho) as Hj.
  destruct Hs as [G1 G2 G3 G4 G5 G6 G7 G8 G9 G10]. split; try done; simpl.
  - by rewrite G2, nextReason_reported.
  - rewrite G4. unfold isRunning in *. simpl in *. rewrite Hl. done.
  - intros _. apply G5. unfold isRunning. by rewrite Hl.
  - intros o' Ho'. apply G6. rewrite Ho. by right.
  - rewrite Hp. rewrite Hl, Ho in G7. simpl in G7. lia.
  - intros r' [Hr'| ->]%elem_of_snoc; [by apply G8|done].
  - rewrite Hp, length_app. rewrite Hl in G9. simpl in *. lia.
Qed.

Lemma selecting_completed s l : session_ok s → ss_run s = AtSelect l → (lp_completed l < 2)%nat ∧ armed s l ∧ expired s l ∧
  (lp_idle l = false → 0 < ss_idle s → ss_closed s = true).
Proof. intros Hs Hl. pose proof (so_loop _ Hs) as Hloop. unfold loop_ok in Hloop. by rewrite Hl in Hloop. Qed.

Lemma expired_setReason s r l : expired s l → expired (setReason s r) l.
Proof. intros Hl H1 H2. simpl. apply elem_of_snoc. left. by apply Hl. Qed.

Lemma runOutcome_ok s l s' : session_ok s → ss_run s = AtSelect l → runStep s BOutcome = Some s' → session_ok s'.
Proof.
  intros Hs Hl. destruct (selecting_completed _ _ Hs Hl) as (Hc & Ha & He & Hx).
  unfold runStep. rewrite Hl. destruct (ss_outcomes s) as [|o os] eqn:Ho; [done|]. cbv zeta.
  set (l' := mkLoop _ _ _ _ _). intros [= <-]. eapply outcome_ok; try done.
  - destruct (oc_eof o); [by rewrite received_head|done].
  - destruct (oc_eof o); [apply running_head|done].
  - destruct (oc_eof o).
    + apply loopHead_ok; [simpl; lia|exact Ha|by apply (expired_setReason (with_outcomes s os))|exact Hx].
    + unfold loop_ok. cbn [ss_run with_run]. split_and!; [simpl; lia|exact Ha|by apply (expired_setReason (with_outcomes s os))].
Qed.

Lemma runActivity_ok s l s' : session_ok s → ss_run s = AtSelect l → runStep s BActivity = Some s' → session_ok s'.
Proof.
  intros Hs Hl. destruct (selecting_completed _ _ Hs Hl) as (Hc & Ha & He & Hx). pose proof (so_last _ Hs) as Hlast.
  assert (Hrun : isRunning s = true) by (unfold isRunning; by rewrite Hl).
  unfold runStep. rewrite Hl. destruct (ss_activity s); [|done]. cbv zeta. set (l' := mkLoop _ _ _ _ _). intros [= <-].
  apply with_run_ok; [by apply with_activity_ok|done|apply running_head| |].
  - rewrite received_head. simpl. by rewrite Hl.
  - apply loopHead_ok; [simpl; lia| |exact He|exact Hx]. intros Hi. destruct (Ha Hi) as (H0 & dl & Hd & Hle). split; [done|].
    simpl. rewrite (proj2 (Z.ltb_lt 0 (ss_idle s))) by done. eexists. split; [done|]. lia.
Qed.

Lemma runIdle_ok s l s' : session_ok s → ss_run s = AtSelect l → runStep s BIdle = Some s' → session_ok s'.
Proof.
  intros Hs Hl. destruct (selecting_completed _ _ Hs Hl) as (Hc & Ha & He & Hx).
  unfold runStep. rewrite Hl. destruct (lp_timer l) as [dl|] eqn:Ht; [|done].
  destruct (lp_idle l) eqn:Hi; [|done]. destruct (_ <=? _); [|done]. intros [= <-]. destruct (Ha Hi) as [H0 _].
  apply with_run_ok; [done|unfold isRunning; by rewrite Hl|done|simpl; by rewrite Hl|].
  unfold loop_ok. cbn. by split_and!.
Qed.

Lemma runContext_ok s l s' : session_ok s → ss_run s = AtSelect l → runStep s BContext = Some s' → session_ok s'.
Proof.
  intros Hs Hl. destruct (selecting_completed _ _ Hs Hl) as (Hc & Ha & He & Hx).
  unfold runStep. rewrite Hl. destruct (_ && _); [|done]. intros [= <-].
  apply with_run_ok; [by apply setReason_ok|unfold isRunning; simpl; by rewrite Hl|done|simpl; by rewrite Hl|].
  unfold loop_ok. cbn [ss_run with_run]. split_and!; [simpl; lia|exact Ha|by apply expired_setReason].
Qed.

(** The second half of a case. *)
Lemma runNext_ok s s' : session_ok s → runStep s BNext = Some s' → session_ok s'.
Proof.
  intros Hs. pose proof (so_loop _ Hs) as Hl. pose proof (so_last _ Hs) as Hlast. unfold runStep, loop_ok, isRunning in *.
  assert (Hrun : isRunning s = match ss_run s with NotRunning => false | _ => true end) by done.
  destruct (ss_run s) as [|l|l seen|l|l|l|r] eqn:Er; try done.
  - destruct Hl as (Hc & H0 & Hseen). specialize (Hlast eq_refl). destruct (Z.ltb_spec 0 (ss_idle s - (ss_now s - seen))).
    + intros [= <-]. apply with_run_ok; [done|done|apply running_head|rewrite received_head; by rewrite Er|].
      apply loopHead_ok; [simpl; lia| |done|done]. intros _. split; [done|]. eexists. split; [done|]. simpl. lia.
    + intros [= <-]. apply with_run_ok; [by apply setReason_ok|done|done|simpl; by rewrite Er|].
      unfold loop_ok. cbn [ss_run with_run]. split_and!; [simpl; lia|done|]. intros _ _. simpl. apply elem_of_snoc. by right.
  - destruct Hl as (Hc & Ha & He). intros [= <-]. apply with_run_ok; [by apply closeEndpoints_ok|done|apply running_head|rewrite received_head; simpl; by rewrite Er|].
    by apply loopHead_ok.
  - intros [= <-]. apply with_run_ok; [by apply closeEndpoints_ok|done|done|simpl; by rewrite Er|]. by unfold loop_ok.
  - destruct Hl as [Hc Hclosed]. intros [= <-]. apply with_run_ok; [done|done|done|simpl; by rewrite Er|].
    unfold loop_ok, result_ok. simpl. split_and!; [done| |done|done]. exists (ss_reasons s). split; [done|].
    unfold currentReason. rewrite (so_reason _ Hs). destruct (reported_some (ss_reasons s)) as [r Hr]; [|by rewrite Hr].
    pose proof (so_heard _ Hs) as Hh. rewrite Er in Hh. simpl in Hh. lia.
Qed.

Lemma runStep_ok s b s' : session_ok s → runStep s b = Some s' → session_ok s'.
Proof.
  intros Hs H. destruct b; [| | | |by eapply runNext_ok]; destruct (ss_run s) as [|l|l seen|l|l|l|r] eqn:Er;
    try (unfold runStep in H; rewrite Er in H; discriminate H).
  - by eapply runOutcome_ok.
  - by eapply runActivity_ok.
  - by eapply runIdle_ok.
  - by eapply runContext_ok.
Qed.

(** *** All steps *)

Lemma Run_ok s : session_ok s → session_ok (Run s).1.
Proof.
  intros Hs. unfold Run. destruct (ss_started s) eqn:Hst; [done|]. pose proof (so_loop _ Hs) as Hl.
  destruct Hs as [G1 G2 G3 G4 G5 G6 G7 G8 G9 G10]. rewrite Hst in G4. unfold loop_ok, isRunning in *.
  destruct (ss_run s) eqn:Er; try done. simpl in *. destruct Hl as [Hd Hu]. split; try done; simpl.
  unfold loop_ok. simpl. split_and!; [lia| | |].
  - intros Hi%Z.ltb_lt. split; [done|]. simpl. rewrite (proj2 (Z.ltb_lt _ _) Hi). eexists. by split.
  - intros Hi%Z.ltb_ge ?. simpl in *. lia.
  - intros Hi%Z.ltb_ge ?. simpl in *. lia.
Qed.

Lemma elapsed_ok s d : 0 ≤ d → session_ok s → session_ok (elapsed s d).
Proof.
  intros Hd [G1 G2 G3 G4 G5 G6 G7 G8 G9 G10]. assert (Ha : ∀ l, armed s l → armed (elapsed s d) l).
  { intros l Hl Hi. destruct (Hl Hi) as (H0 & dl & Ht & Hle). split; [done|]. exists dl. simpl. split; [done|lia]. }
  split; try done; simpl.
  - intros Hrun. specialize (G5 Hrun). lia.
  - unfold loop_ok in *. simpl. destruct (ss_run s); try done; destruct G10 as (?&?&?); split_and!; try done; try apply Ha; tauto.
Qed.

Lemma sexec_ok s e s' : session_ok s → sexec s e = Some s' → session_ok s'.
Proof.
  intros Hs. destruct e as [|d| |reason| |d i|b]; simpl.
  - intros [= <-]. by apply Run_ok.
  - destruct (Z.leb_spec 0 d); [|done]. intros [= <-]. by apply elapsed_ok.
  - intros [= <-]. by destruct Hs.
  - assert (Hf : justified s reason → session_ok (ForceClose s reason)).
    { intros Hj. unfold ForceClose. by destruct (setReason_ok s reason Hs Hj). }
    destruct reason; try done; intros [= <-]; by apply Hf.
  - unfold forceCloseFinish. destruct (ss_forcing s); [done|]. intros [= <-]. by destruct (closeEndpoints_ok s Hs).
  - destruct (isRunning s) eqn:Hr; [|done]. by apply copy_ok.
  - by apply runStep_ok.
Qed.

Lemma sreachable_ok s : sreachable s → session_ok s.
Proof. induction 1; [by eapply NewSession_ok|by eapply sexec_ok]. Qed.

(** C15: A session delivers bytes unchanged: in either direction, under every
    interleaving, what was written is a prefix of what was read, at most one
    buffer is in flight, the counter agrees with the bytes written, the other
    side is half-closed at most once and only after everything read has been
    written, and a direction that reports the end of its stream has delivered
    all of it. *)
Theorem copies_exact s d : sreachable s →
  let c := copier_of s d in
  cp_written c `prefix_of` cp_read c ∧ (length (cp_read c) ≤ length (cp_written c) + copyBufferSize)%nat ∧
  cp_count c = wrap64 (Z.of_nat (length (cp_written c)) - uncounted (cp_point c)) ∧
  (cp_halfCloses c ≤ 1)%nat ∧ (cp_halfCloses c = 1%nat → halfCloser s d = true ∧ cp_written c = cp_read c) ∧
  (cp_point c = CopyReturned true → cp_written c = cp_read c).
Proof.
  intros Hs%sreachable_ok c. destruct (so_copier _ Hs d) as [(rest & G1 & G1' & G1'') G2 G3 G4]. fold c in G1, G1'', G2, G3, G4.
  assert (Hend : ended (cp_point c) = true → cp_written c = cp_read c).
  { intros He. rewrite G1. destruct (cp_point c); try done; simpl in *; rewrite (G1'' He); by rewrite app_nil_r. }
  split_and!; [rewrite G1; by apply prefix_app_r|rewrite G1, length_app; lia|done|..].
  - rewrite G4. destruct (_ && _); lia.
  - rewrite G4. destruct (ended (cp_point c)), (halfCloser s d); try done. auto.
  - intros Hp. apply Hend. by rewrite Hp.
Qed.


(** ** Termination *)

(** Events of a session that is being closed: its own steps, and reads and
    writes that fail because the endpoints are closed. *)
Definition closing (s : session) (e : sevent) : Prop :=
  match e with
  | SCopy _ (IRead [] (Some ReadFailed)) | SCopy _ (IWrite 0 true) => ss_closed s = true
  | SCopy _ IStep | SLoop _ => True
  | _ => False
  end.

Fixpoint closingRun (s : session) (es : list sevent) (s' : session) : Prop :=
  match es with
  | [] => s' = s
  | e :: es => closing s e ∧ ∃ s1, sexec s e = Some s1 ∧ closingRun s1 es s'
  end.

Definition copyRank (p : copyPoint) : nat :=
  match p with
  | CopyReturned _ => 0
  | AtOutcome _ => 1
  | AtRead | AtWrite _ _ | AtCloseWriter => 2
  | AtSignal true _ _ _ => 3
  | AtSignal false _ _ _ => 4
  | AtCount _ _ _ _ => 5
  end.

Definition loopRank (p : runPoint) : nat :=
  match p with
  | NotRunning | Returned _ => 0
  | AtResult _ => 1
  | AtExit _ => 2
  | AtSelect l => 3 * (2 - lp_completed l) + 2
  | AtCloseEndpoints l => 3 * (2 - lp_completed l) + 3
  | AtIdle l _ => 3 * (2 - lp_completed l) + 4
  end.

Definition sessionRank (s : session) : nat :=
  copyRank (cp_point (ss_down s)) + copyRank (cp_point (ss_up s)) + loopRank (ss_run s).

Lemma copyRank_head rest err : (copyRank (writeHead rest err) ≤ 2)%nat.
Proof. destruct rest; [destruct err as [[]|]|]; simpl; lia. Qed.

Lemma loopRank_head l : (lp_completed l ≤ 2)%nat → (loopRank (loopHead l) ≤ 3 * (2 - lp_completed l) + 2)%nat.
Proof. unfold loopHead. destruct (Nat.ltb_spec (lp_completed l) 2); cbn [loopRank]; lia. Qed.

(** A copy loop that has not returned can take a step towards it. *)
Lemma copy_progress s d : ss_closed s = true → returned (copier_of s d) = false →
  ∃ i s', closing s (SCopy d i) ∧ copy s d i = Some s' ∧
    (copyRank (cp_point (copier_of s' d)) < copyRank (cp_point (copier_of s d)))%nat ∧
    (∀ d', d' ≠ d → copier_of s' d' = copier_of s d') ∧
    ss_run s' = ss_run s ∧ ss_closed s' = ss_closed s ∧ ss_reasons s' = ss_reasons s.
Proof.
  intros Hc Hr. unfold returned in Hr. unfold copy.
  destruct (cp_point (copier_of s d)) as [|[] rest written err|rest err|rest n failed err| |eof|eof] eqn:Hp; [..|done].
  - exists (IRead [] (Some ReadFailed)). eexists. simpl. split_and!; [done|done|destruct d; simpl; lia|by intros [] ?; destruct d|done..].
  - exists IStep. eexists. split_and!; [done|done| |by intros [] ?; destruct d|done..].
    pose proof (copyRank_head rest err). destruct written as [[]|], d; simpl; lia.
  - exists IStep. eexists. split_and!; [done|done|destruct d; simpl; lia|by intros [] ?; destruct d|done..].
  - exists (IWrite 0 true). eexists. simpl. split_and!; [done|done|destruct d; simpl; lia|by intros [] ?; destruct d|done..].
  - exists IStep. eexists. split_and!; [done|done|destruct d; simpl; lia|by intros [] ?; destruct d|done..].
  - exists IStep. eexists. split_and!; [done|done|destruct d; simpl; lia|by intros [] ?; destruct d|done..].
  - exists IStep. eexists. split_and!; [done|done|destruct d; simpl; lia|by intros [] ?; destruct d|done..].
Qed.

(** Once both have, so can the controller. *)
Lemma run_progress s : session_ok s → isRunning s = true → (∀ r, ss_run s ≠ Returned r) →
  returned (ss_down s) = true → returned (ss_up s) = true →
  ∃ b s', runStep s b = Some s' ∧ (loopRank (ss_run s') < loopRank (ss_run s))%nat ∧ ss_down s' = ss_down s ∧ ss_up s' = ss_up s ∧
    (ss_closed s = true → ss_closed s' = true) ∧ ss_reasons s `prefix_of` ss_reasons s' ∧
    (∀ r, ss_run s' = Returned r → reported (ss_reasons s') = Some (rs_Reason r)).
Proof.
  intros Hs Hrun Hnot Hd Hu. pose proof (so_loop _ Hs) as Hl. pose proof (so_tally _ Hs) as Ht. pose proof (so_heard _ Hs) as Hh.
  unfold tally in Ht. rewrite Hd, Hu in Ht. unfold loop_ok, isRunning in *. unfold runStep.
  assert (Hhead : ∀ l r, loopHead l ≠ Returned r) by (intros l r; unfold loopHead; by destruct (_ <? _)%nat).
  destruct (ss_run s) as [|l|l seen|l|l|l|r] eqn:Er; [done|..|by destruct (Hnot r)].
  - destruct Hl as (Hc & _). simpl in Ht. destruct (ss_outcomes s) as [|o os] eqn:Eo; [simpl in Ht; lia|].
    exists BOutcome. eexists. split; [done|]. split_and!; [|done|done|done|by apply prefix_app_r|cbn [ss_run with_run]; destruct (oc_eof o); [by intros r ?%Hhead|done]].
    set (l' := mkLoop _ _ _ _ _). cbn [ss_run with_run]. pose proof (loopRank_head l'). destruct (oc_eof o); cbn [loopRank lp_completed l'] in *; lia.
  - destruct Hl as (Hc & _). exists BNext. destruct (0 <? _); eexists; (split; [done|]).
    + split_and!; [|done|done|done|done|by intros r ?%Hhead]. set (l' := mkLoop _ _ _ _ _). cbn [ss_run with_run]. pose proof (loopRank_head l').
      cbn [loopRank lp_completed l'] in *. lia.
    + split_and!; [|done|done|done|by apply prefix_app_r|done]. cbn [ss_run with_run loopRank lp_completed]. lia.
  - destruct Hl as (Hc & _). exists BNext. eexists. split; [done|]. split_and!; [|done..|by intros r ?%Hhead].
    cbn [ss_run with_run]. pose proof (loopRank_head l Hc). cbn [loopRank]. lia.
  - exists BNext. eexists. split; [done|]. split_and!; [simpl; lia|done..].
  - exists BNext. eexists. split; [done|]. split_and!; [simpl; lia|done..|]. intros r [= <-]. simpl. unfold currentReason.
    rewrite (so_reason _ Hs). destruct (reported_some (ss_reasons s)) as [x Hx]; [simpl in Hh; lia|]. by rewrite Hx.
Qed.

(** Within [n] steps of closing, [Run] returns the reason that is due. *)
Definition returnsWithin (n : nat) (s : session) : Prop :=
  ∃ es s' r, (length es ≤ n)%nat ∧ closingRun s es s' ∧ ss_run s' = Returned r ∧
    ss_reasons s `prefix_of` ss_reasons s' ∧ reported (ss_reasons s') = Some (rs_Reason r).

Lemma returnsWithin_step n s e s1 : closing s e → sexec s e = Some s1 → ss_reasons s `prefix_of` ss_reasons s1 →
  returnsWithin n s1 → returnsWithin (S n) s.
Proof.
  intros He Hex Hpre (es & s' & r & H1 & H2 & H3 & H4 & H5). exists (e :: es), s', r.
  split_and!; [simpl; lia|split; [done|by exists s1]|done|by etrans|done].
Qed.

Lemma returned_dec s : (∃ r, ss_run s = Returned r) ∨ (∀ r, ss_run s ≠ Returned r).
Proof. destruct (ss_run s); [by right..|]. left. by eexists. Qed.

(** Some event of a session that is being closed brings it nearer to the end. *)
Lemma closing_progress s : session_ok s → isRunning s = true → (∀ r, ss_run s ≠ Returned r) → ss_closed s = true →
  ∃ e s1, closing s e ∧ sexec s e = Some s1 ∧ (sessionRank s1 < sessionRank s)%nat ∧ ss_closed s1 = true ∧
    ss_reasons s `prefix_of` ss_reasons s1 ∧ (∀ r, ss_run s1 = Returned r → reported (ss_reasons s1) = Some (rs_Reason r)).
Proof.
  intros Hs Hrun Hnot Hc.
  assert (Hcopy : ∀ d, returned (copier_of s d) = false → ∃ e s1, closing s e ∧ sexec s e = Some s1 ∧ (sessionRank s1 < sessionRank s)%nat ∧
    ss_closed s1 = true ∧ ss_reasons s `prefix_of` ss_reasons s1 ∧ (∀ r, ss_run s1 = Returned r → reported (ss_reasons s1) = Some (rs_Reason r))).
  { intros d Hd. destruct (copy_progress s d Hc Hd) as (i & s1 & Hcl & Hstep & Hrank & Hother & Hr & Hc1 & Hrs).
    exists (SCopy d i), s1. split_and!; [done|simpl; by rewrite Hrun| |by rewrite Hc1|by rewrite Hrs|].
    - unfold sessionRank. rewrite Hr. destruct d; simpl in Hrank.
      + pose proof (Hother DirectionUpstreamToDownstream ltac:(done)) as Ho. simpl in Ho. rewrite Ho. lia.
      + pose proof (Hother DirectionDownstreamToUpstream ltac:(done)) as Ho. simpl in Ho. rewrite Ho. lia.
    - rewrite Hr. intros r Hx. by destruct (Hnot r). }
  destruct (returned (ss_down s)) eqn:Hd; [|by apply (Hcopy DirectionDownstreamToUpstream)].
  destruct (returned (ss_up s)) eqn:Hu; [|by apply (Hcopy DirectionUpstreamToDownstream)].
  destruct (run_progress s Hs Hrun Hnot Hd Hu) as (b & s1 & Hstep & Hrank & H1 & H2 & H3 & H4 & H5).
  exists (SLoop b), s1. split_and!; auto; [done|unfold sessionRank; rewrite H1, H2; lia].
Qed.

Lemma sexec_running s e s' : session_ok s → isRunning s = true → sexec s e = Some s' → isRunning s' = true.
Proof.
  intros Hs Hrun Hex. rewrite <-(so_started _ (sexec_ok _ _ _ Hs Hex)). rewrite <-(so_started _ Hs) in Hrun.
  destruct e as [|d| |reason| |d i|b]; simpl in Hex.
  - injection Hex as <-. unfold Run. by rewrite Hrun.
  - destruct (_ <=? _); [|done]. by injection Hex as <-.
  - by injection Hex as <-.
  - destruct reason; try done; by injection Hex as <-.
  - unfold forceCloseFinish in Hex. destruct (ss_forcing s); [done|]. by injection Hex as <-.
  - destruct (isRunning s); [|done]. by apply copy_inv in Hex as (?&?&?&?&->&_).
  - unfold runStep in Hex. destruct (ss_run s), b; simplify_eq/=; repeat (case_match; simplify_eq/=); done.
Qed.

Lemma closed_returns n : ∀ s, (sessionRank s ≤ n)%nat → session_ok s → isRunning s = true → (∀ r, ss_run s ≠ Returned r) →
  ss_closed s = true → returnsWithin n s.
Proof.
  induction n as [|n IH]; intros s Hn Hs Hrun Hnot Hc.
  { exfalso. unfold sessionRank in Hn. unfold isRunning in Hrun. destruct (ss_run s) eqn:Er; cbn [loopRank] in Hn; try lia. by eapply Hnot. }
  destruct (closing_progress s Hs Hrun Hnot Hc) as (e & s1 & He & Hex & Hrank & Hc1 & Hpre & Hret).
  apply (returnsWithin_step n s e s1 He Hex Hpre). destruct (returned_dec s1) as [[r Hr]|Hn1].
  - exists [], s1, r. split_and!; [simpl; lia|done|done|done|by apply Hret].
  - apply IH; [lia|by eapply sexec_ok|by eapply sexec_running|done|done].
Qed.

Lemma sessionRank_bound s : (sessionRank s ≤ 20)%nat.
Proof.
  unfold sessionRank. assert (∀ p, (copyRank p ≤ 5)%nat) as Hc by (intros [|[]| | | | |]; simpl; lia).
  pose proof (Hc (cp_point (ss_down s))). pose proof (Hc (cp_point (ss_up s))). destruct (ss_run s); cbn [loopRank]; lia.
Qed.

(** Closing a session ends it: from every state of a running session whose
    endpoints are closed, at most twenty further steps of its goroutines, with
    reads and writes that now fail, make [Run] return; the reason is shutdown
    if that had been requested by then. *)
Theorem closed_session_returns s : sreachable s → isRunning s = true → (∀ r, ss_run s ≠ Returned r) → ss_closed s = true →
  ∃ es s' r, (length es ≤ 20)%nat ∧ closingRun s es s' ∧ ss_run s' = Returned r ∧
    (ReasonShutdown ∈ ss_reasons s → rs_Reason r = ReasonShutdown).
Proof.
  intros Hs%sreachable_ok Hrun Hnot Hc.
  destruct (closed_returns 20 s (sessionRank_bound s) Hs Hrun Hnot Hc) as (es & s' & r & H1 & H2 & H3 & H4 & H5).
  exists es, s', r. split_and!; try done. intros Hin. pose proof (elem_of_prefix _ _ _ Hin H4) as Hin'.
  unfold reported in H5. rewrite bool_decide_eq_true_2 in H5 by done. by injection H5.
Qed.

Lemma reported_idle reasons r : ReasonIdleTimeout ∈ reasons → reported reasons = Some r → r = ReasonIdleTimeout ∨ r = ReasonShutdown.
Proof. intros Hin. unfold reported. case_bool_decide; [intros [= <-]; by right|]. rewrite bool_decide_eq_true_2 by done. intros [= <-]. by left. Qed.

(** A silent session does not last: when a session with an idle timeout waits
    for events and the timeout passes without any, the controller times it out,
    closes its endpoints and, with reads and writes that now fail, [Run]
    returns with the idle timeout as its reason unless shutdown was requested. *)
Theorem silent_session_ends s l : sreachable s → ss_run s = AtSelect l → 0 < ss_idle s →
  ∃ es s' r, closingRun (elapsed s (ss_idle s)) es s' ∧ ss_run s' = Returned r ∧
    (rs_Reason r = ReasonIdleTimeout ∨ rs_Reason r = ReasonShutdown).
Proof.
  intros Hs%sreachable_ok Hl H0. set (s0 := elapsed s (ss_idle s)).
  assert (Hs0 : session_ok s0) by (apply elapsed_ok; [lia|done]).
  destruct (selecting_completed _ _ Hs Hl) as (Hc & Ha & He & Hx).
  assert (Hend : ∀ s1, session_ok s1 → isRunning s1 = true → (∀ r, ss_run s1 ≠ Returned r) → ss_closed s1 = true →
    ReasonIdleTimeout ∈ ss_reasons s1 → ∃ es s' r, closingRun s1 es s' ∧ ss_run s' = Returned r ∧ (rs_Reason r = ReasonIdleTimeout ∨ rs_Reason r = ReasonShutdown)).
  { intros s1 Hs1 Hrun Hnot Hcl Hin. destruct (closed_returns 20 s1 (sessionRank_bound s1) Hs1 Hrun Hnot Hcl) as (es & s' & r & H1 & H2 & H3 & H4 & H5).
    exists es, s', r. split_and!; try done. eapply reported_idle; [|done]. by eapply elem_of_prefix. }
  destruct (lp_idle l) eqn:Hi.
  - destruct (Ha Hi) as (_ & dl & Ht & Hle). set (l1 := mkLoop (lp_startedAt l) (lp_completed l) None true (lp_contextDone l)).
    assert (H1 : sexec s0 (SLoop BIdle) = Some (with_run s0 (AtIdle l1 (ss_lastActivity s)))).
    { simpl. unfold runStep. simpl. rewrite Hl, Ht, Hi, (proj2 (Z.leb_le dl (ss_now s + ss_idle s))) by done. done. }
    set (s1 := with_run s0 _) in H1. pose proof (sexec_ok _ _ _ Hs0 H1) as Hs1.
    assert (Hlast : ss_lastActivity s ≤ ss_now s) by (apply (so_last _ Hs); unfold isRunning; by rewrite Hl).
    set (s2 := with_run (setReason s1 ReasonIdleTimeout) (AtCloseEndpoints (mkLoop (lp_startedAt l) (lp_completed l) None false (lp_contextDone l)))).
    assert (H2 : sexec s1 (SLoop BNext) = Some s2).
    { simpl. unfold runStep. simpl. destruct (Z.ltb_spec 0 (ss_idle s - (ss_now s + ss_idle s - ss_lastActivity s))); [lia|done]. }
    pose proof (sexec_ok _ _ _ Hs1 H2) as Hs2. eassert (H3 : sexec s2 (SLoop BNext) = Some _) by reflexivity.
    pose proof (sexec_ok _ _ _ Hs2 H3) as Hs3. destruct (Hend _ Hs3) as (es & s' & r & H4 & H5 & H6).
    + apply running_head.
    + intros r. cbn [ss_run with_run]. unfold loopHead. by destruct (_ <? _)%nat.
    + done.
    + simpl. apply elem_of_snoc. by right.
    + exists (SLoop BIdle :: SLoop BNext :: SLoop BNext :: es), s', r. split_and!; try done. cbn [closingRun].
      split; [done|]. exists s1. split; [done|]. split; [done|]. exists s2. split; [done|]. split; [done|]. by eexists.
  - apply (Hend s0); try done.
    + unfold isRunning. simpl. by rewrite Hl.
    + simpl. by rewrite Hl.
    + by apply Hx.
    + by apply He.
Qed.

(** ** A concrete session *)

Definition demo_endpoint : Endpoint := mkEndpoint true true true true.

(** The client sends one byte and ends its stream, then the upstream ends its own. *)
Definition demo_session_events : list sevent :=
  [SRun; SCopy DirectionDownstreamToUpstream (IRead [x41] (Some ReadEOF))] ++
  map (SCopy DirectionDownstreamToUpstream) [IStep; IStep; IWrite 1 false; IStep; IStep; IStep; IStep; IStep] ++
  map (SCopy DirectionUpstreamToDownstream) [IRead [] (Some ReadEOF); IStep; IStep] ++
  map SLoop [BOutcome; BActivity; BOutcome; BNext; BNext].

Lemma srun_reachable s es s' : sreachable s → srun s es = Some s' → sreachable s'.
Proof.
  revert s. induction es as [|e es IH]; intros s Hs; cbn [srun]; [by intros [= <-]|].
  destruct (sexec s e) eqn:E; [|done]. apply IH. by eapply sreach_step.
Qed.

Definition newDemo : session := default (mkSession 0 false false 0 false newCopier newCopier false 0 false 0 None [] [] false 0 NotRunning)
  (NewSession demo_endpoint demo_endpoint 60 100).
Definition demo_session (es : list sevent) : session := default newDemo (srun newDemo es).

Lemma demo_session_reachable es : is_Some (srun newDemo es) → sreachable (demo_session es).
Proof.
  intros [s Hs]. unfold demo_session. rewrite Hs. eapply srun_reachable; [|done]. apply (sreach_new demo_endpoint demo_endpoint 60 100). reflexivity.
Qed.

Lemma demo_result_reachable : sreachable (demo_session demo_session_events).
Proof. apply demo_session_reachable. vm_compute. by eexists. Qed.

Lemma copies_exact_witness :
  let c := copier_of (demo_session demo_session_events) DirectionDownstreamToUpstream in
  cp_written c = [x41] ∧ cp_written c `prefix_of` cp_read c.
Proof.
  split; [vm_compute; reflexivity|].
  exact (proj1 (copies_exact (demo_session demo_session_events) DirectionDownstreamToUpstream demo_result_reachable)).
Defined.


Lemma closed_session_returns_witness : ∃ es s' r,
  closingRun (demo_session [SRun; SForceClose ReasonShutdown; SForceFinish]) es s' ∧ ss_run s' = Returned r ∧ rs_Reason r = ReasonShutdown.
Proof.
  destruct (closed_session_returns (demo_session [SRun; SForceClose ReasonShutdown; SForceFinish])) as (es & s' & r & _ & H1 & H2 & H3).
  - apply demo_session_reachable. vm_compute. by eexists.
  - reflexivity.
  - intros r. vm_compute. done.
  - reflexivity.
  - exists es, s', r. split; [exact H1|]. split; [exact H2|]. apply H3. vm_compute. left.
Defined.

Lemma silent_session_ends_witness : ∃ es s' r,
  closingRun (elapsed (demo_session [SRun]) 60) es s' ∧ ss_run s' = Returned r.
Proof.
  edestruct (silent_session_ends (demo_session [SRun])) as (es & s' & r & H1 & H2 & _).
  - apply demo_session_reachable. vm_compute. by eexists.
  - vm_compute. reflexivity.
  - vm_compute. reflexivity.
  - exists es, s', r. split; [exact H1|exact H2].
Defined.
