(* ===== verification/Tunnel.v ===== *)
(** * Tunnel ownership ([internal/tunnel/registry.go])

    The registry of WebSocket tunnels. A registration is pending until its
    handshake is flushed, then active while its session runs; whoever finishes
    it runs its clean-up, which releases the transport lease and the wait
    group. Critical sections and atomic effects are single steps; the parts of
    a call after the mutex are tasks that any goroutine may perform later, so
    the theorems cover every interleaving of handlers, sessions and [Drain]. *)

From S2P Require Import Prelude Session.
#[local] Open Scope Z_scope.
#[local] Open Scope list_scope.

Inductive registrationState := registrationPending | registrationActive | registrationDone.
#[global] Instance registrationState_eq_dec : EqDecision registrationState.
Proof. solve_decision. Defined.

(** A registration: the session it owns, its state and whether its [cleanup]
    has run. *)
Record Registration := mkRegistrationT { rg_session : nat; rg_state : registrationState; rg_cleaned : bool }.

(** The [Result] a clean-up reports; nothing is the zero [Result] of a session
    that has not run. *)
Definition tunnelResult : Type := option sessionResult.

Definition tr_downstreamToUpstream (r : tunnelResult) : Z := default 0 (rs_DownstreamToUpstream <$> r).
Definition tr_upstreamToDownstream (r : tunnelResult) : Z := default 0 (rs_UpstreamToDownstream <$> r).

(** What observers and release callbacks see. *)
Inductive tunnelEvent :=
| TunnelOpened (id : nat)
| TunnelBytes (id : nat) (down up : Z)
| TunnelClosed (id : nat) (result : tunnelResult)
| LeaseReleased (id : nat)
| ForceClosed (session : nat).

(** Calls a goroutine still has to make after leaving the mutex. *)
Inductive task :=
| ToFinish (id : nat) (active : bool) (result : tunnelResult)
| ToForceClose (session : nat).

Record tunnels := mkTunnels {
  tn_admissionClosed : bool;
  tn_nextID : nat;
  tn_registrations : gset nat;
  tn_objects : gmap nat Registration;
  tn_wait : Z;
  tn_tasks : list task;
  tn_log : list tunnelEvent;
}.

Definition NewTunnels : tunnels := mkTunnels false 0 ∅ ∅ 0 [] [].

Definition set_state (g : Registration) (s : registrationState) : Registration :=
  mkRegistrationT (rg_session g) s (rg_cleaned g).

Definition noResult : tunnelResult := None.

(** ** Operations *)

Section Registry.
Context (observer : bool).

Definition observe (l : list tunnelEvent) : list tunnelEvent := if observer then l else [].

(** [Register]: the new identifier, or nothing once admission is closed. *)
Definition Register (t : tunnels) (session : nat) : tunnels * option nat :=
  if tn_admissionClosed t then (t, None)
  else
    let id := S (tn_nextID t) in
    (mkTunnels false id ({[id]} ∪ tn_registrations t)
       (<[id := mkRegistrationT session registrationPending false]> (tn_objects t)) (tn_wait t + 1) (tn_tasks t) (tn_log t), Some id).

Definition CloseAdmission (t : tunnels) : tunnels :=
  mkTunnels true (tn_nextID t) (tn_registrations t) (tn_objects t) (tn_wait t) (tn_tasks t) (tn_log t).

(** Takes a registration out of the map; its [finish] is still to run. *)
Definition retire (t : tunnels) (id : nat) (g : Registration) (active : bool) (result : tunnelResult) : tunnels :=
  mkTunnels (tn_admissionClosed t) (tn_nextID t) (tn_registrations t ∖ {[id]})
    (<[id := set_state g registrationDone]> (tn_objects t)) (tn_wait t) (tn_tasks t ++ [ToFinish id active result]) (tn_log t).

(** [Activate] and whether it succeeded; the session's goroutine runs then. *)
Definition Activate (t : tunnels) (id : nat) : tunnels * bool :=
  match tn_objects t !! id with
  | Some g =>
      if bool_decide (rg_state g = registrationPending) then
        (mkTunnels (tn_admissionClosed t) (tn_nextID t) (tn_registrations t)
           (<[id := set_state g registrationActive]> (tn_objects t)) (tn_wait t) (tn_tasks t)
           (tn_log t ++ observe [TunnelOpened id]), true)
      else (t, false)
  | None => (t, false)
  end.

Definition tunnel_Rollback (t : tunnels) (id : nat) : tunnels :=
  match tn_objects t !! id with
  | Some g => if bool_decide (rg_state g = registrationPending) then retire t id g false noResult else t
  | None => t
  end.

(** The goroutine of an active session after [Run] has returned. *)
Definition runReturned (t : tunnels) (id : nat) (result : sessionResult) : option tunnels :=
  match tn_objects t !! id with
  | Some g => if bool_decide (rg_state g = registrationActive) then Some (retire t id g true (Some result)) else None
  | None => None
  end.

(** [finish]; [None] is the panic of a negative wait group. *)
Definition finish (t : tunnels) (id : nat) (active : bool) (result : tunnelResult) : option tunnels :=
  match tn_objects t !! id with
  | None => Some t
  | Some g =>
      if rg_cleaned g then Some t
      else if tn_wait t - 1 <? 0 then None
      else
        let seen := if active then observe [TunnelBytes id (tr_downstreamToUpstream result) (tr_upstreamToDownstream result); TunnelClosed id result]
                    else [] in
        Some (mkTunnels (tn_admissionClosed t) (tn_nextID t) (tn_registrations t)
                (<[id := mkRegistrationT (rg_session g) (rg_state g) true]> (tn_objects t)) (tn_wait t - 1) (tn_tasks t)
                (tn_log t ++ seen ++ [LeaseReleased id]))
  end.

(** The critical section of [Drain] after its context has expired: pending
    registrations are finished, active sessions are to be closed. *)
Definition sweepOne (t : tunnels) (id : nat) : tunnels :=
  match tn_objects t !! id with
  | Some g =>
      match rg_state g with
      | registrationPending =>
          let t := retire t id g false noResult in
          mkTunnels (tn_admissionClosed t) (tn_nextID t) (tn_registrations t) (tn_objects t) (tn_wait t)
            (tn_tasks t ++ [ToForceClose (rg_session g)]) (tn_log t)
      | registrationActive =>
          mkTunnels (tn_admissionClosed t) (tn_nextID t) (tn_registrations t) (tn_objects t) (tn_wait t)
            (tn_tasks t ++ [ToForceClose (rg_session g)]) (tn_log t)
      | registrationDone => t
      end
  | None => t
  end.

Definition sweep (t : tunnels) : tunnels := foldl sweepOne t (elements (tn_registrations t)).

(** A goroutine performs one of its tasks. *)
Definition perform (t : tunnels) (k : nat) : option tunnels :=
  let without := mkTunnels (tn_admissionClosed t) (tn_nextID t) (tn_registrations t) (tn_objects t) (tn_wait t)
                   (delete k (tn_tasks t)) (tn_log t) in
  match tn_tasks t !! k with
  | None => Some t
  | Some (ToFinish id active result) => finish without id active result
  | Some (ToForceClose session) =>
      Some (mkTunnels (tn_admissionClosed t) (tn_nextID t) (tn_registrations t) (tn_objects t) (tn_wait t)
              (delete k (tn_tasks t)) (tn_log t ++ [ForceClosed session]))
  end.

(** [Drain] returns when the wait group is down to zero. *)
Definition drainReturns (t : tunnels) : bool := tn_wait t =? 0.

(** [Stats]: pending and active registrations of the map. *)
Definition tunnel_Stats (t : tunnels) : nat * nat :=
  let states := omap (fun id => rg_state <$> tn_objects t !! id) (elements (tn_registrations t)) in
  (length (filter (fun s => s = registrationPending) states), length (filter (fun s => s = registrationActive) states)).

(** ** Steps *)

Inductive tevent :=
| TRegister (session : nat)
| TActivate (id : nat)
| TRollback (id : nat)
| TRunReturned (id : nat) (result : sessionResult)
| TPerform (k : nat)
| TCloseAdmission
| TSweep.

Inductive treaction := TBlocked | TPanicked | TDone (t : tunnels).

Definition texec (t : tunnels) (e : tevent) : treaction :=
  match e with
  | TRegister session => TDone (Register t session).1
  | TActivate id => TDone (Activate t id).1
  | TRollback id => TDone (tunnel_Rollback t id)
  | TRunReturned id result => match runReturned t id result with Some t => TDone t | None => TBlocked end
  | TPerform k => match perform t k with Some t => TDone t | None => TPanicked end
  | TCloseAdmission => TDone (CloseAdmission t)
  | TSweep => if tn_admissionClosed t then TDone (sweep t) else TBlocked
  end.

Inductive treachable : tunnels → Prop :=
| treach_initial : treachable NewTunnels
| treach_step t e t' : treachable t → texec t e = TDone t' → treachable t'.
End Registry.

(** ** Counting *)

Definition occurrences {A} (P : A → bool) (l : list A) : Z := Z.of_nat (length (List.filter P l)).

Lemma occurrences_app {A} (P : A → bool) l k : occurrences P (l ++ k) = occurrences P l + occurrences P k.
Proof. unfold occurrences. rewrite List.filter_app, length_app. lia. Qed.

Lemma occurrences_delete {A} (P : A → bool) l i x : l !! i = Some x →
  occurrences P (delete i l) = occurrences P l - (if P x then 1 else 0).
Proof.
  intros Hi. assert (Hl : occurrences P l = occurrences P (take i l) + ((if P x then 1 else 0) + occurrences P (drop (S i) l))).
  { rewrite <-(take_drop_middle _ _ _ Hi) at 1. rewrite occurrences_app. f_equal. unfold occurrences. simpl.
    destruct (P x); simpl; lia. }
  rewrite delete_take_drop, occurrences_app. lia.
Qed.

Lemma occurrences_nonneg {A} (P : A → bool) l : 0 ≤ occurrences P l.
Proof. unfold occurrences. lia. Qed.

Definition finishes (id : nat) (x : task) : bool := match x with ToFinish id' _ _ => Nat.eqb id id' | _ => false end.
Definition releases (id : nat) (e : tunnelEvent) : bool := match e with LeaseReleased id' => Nat.eqb id id' | _ => false end.
Definition opens (id : nat) (e : tunnelEvent) : bool := match e with TunnelOpened id' => Nat.eqb id id' | _ => false end.
Definition closes (id : nat) (e : tunnelEvent) : bool := match e with TunnelClosed id' _ => Nat.eqb id id' | _ => false end.

(** ** The invariant *)

Section Safe.
Context (observer : bool).

Definition uncleaned (g : Registration) : Z := if rg_cleaned g then 0 else 1.

(** How often the registration has been announced as opened. *)
Definition announced (t : tunnels) (id : nat) : Z := occurrences (opens id) (tn_log t).

(** What the tasks and the log hold for one registration. *)
Record registration_ok (t : tunnels) (id : nat) (g : Registration) : Prop := {
  gk_map : id ∈ tn_registrations t ↔ rg_state g ≠ registrationDone;
  gk_cleaned : rg_cleaned g = true → rg_state g = registrationDone;
  gk_tasks : occurrences (finishes id) (tn_tasks t) =
    (if bool_decide (rg_state g = registrationDone) then uncleaned g else 0);
  gk_released : occurrences (releases id) (tn_log t) = 1 - uncleaned g;
  gk_opened : announced t id = 0 ∨ observer = true ∧ announced t id = 1;
  gk_pending : rg_state g = registrationPending → announced t id = 0;
  gk_active : rg_state g = registrationActive → observer = true → announced t id = 1;
  gk_flag active result : ToFinish id active result ∈ tn_tasks t → observer = true → active = bool_decide (announced t id = 1);
  gk_closed : occurrences (closes id) (tn_log t) = if rg_cleaned g then announced t id else 0;
}.

Record tunnels_ok (t : tunnels) : Prop := {
  tk_objects id g : tn_objects t !! id = Some g → registration_ok t id g;
  tk_absent id : tn_objects t !! id = None → id ∉ tn_registrations t ∧ occurrences (finishes id) (tn_tasks t) = 0 ∧
    occurrences (releases id) (tn_log t) = 0 ∧ announced t id = 0 ∧ occurrences (closes id) (tn_log t) = 0;
  tk_fresh id : (tn_nextID t < id)%nat → tn_objects t !! id = None;
  tk_wait : tn_wait t = map_sum uncleaned (tn_objects t);
}.

Definition tgood (o : treaction) : Prop := match o with TBlocked => True | TPanicked => False | TDone t => tunnels_ok t end.

Lemma NewTunnels_ok : tunnels_ok NewTunnels.
Proof. split; simpl; try done. Qed.

(** Nothing changes for registration [id]. *)
Record unchanged (t t' : tunnels) (id : nat) : Prop := {
  uc_map : id ∈ tn_registrations t' ↔ id ∈ tn_registrations t;
  uc_tasks : occurrences (finishes id) (tn_tasks t') = occurrences (finishes id) (tn_tasks t);
  uc_flags active result : ToFinish id active result ∈ tn_tasks t' → ToFinish id active result ∈ tn_tasks t;
  uc_released : occurrences (releases id) (tn_log t') = occurrences (releases id) (tn_log t);
  uc_announced : announced t' id = announced t id;
  uc_closed : occurrences (closes id) (tn_log t') = occurrences (closes id) (tn_log t);
}.

Lemma registration_frame t t' id g : unchanged t t' id → registration_ok t id g → registration_ok t' id g.
Proof.
  intros [Hmap Htasks Hin Hrel Hann Hcl] [G1 G2 G3 G4 G5 G6 G7 G8 G9].
  split; rewrite ?Hmap, ?Htasks, ?Hrel, ?Hann, ?Hcl; auto. intros active result Ht Ho. eapply G8; eauto.
Qed.

(** A step about one registration. *)
Lemma update_ok t t' id g : tunnels_ok t → tn_objects t' = <[id := g]> (tn_objects t) → registration_ok t' id g →
  (∀ j, j ≠ id → unchanged t t' j) → (tn_nextID t ≤ tn_nextID t')%nat → (id ≤ tn_nextID t')%nat →
  tn_wait t' = map_sum uncleaned (tn_objects t') → tunnels_ok t'.
Proof.
  intros [T1 T2 T3 T4] Hobj Hg Hother Hnext Hid Hwait. split; [..|done]; rewrite Hobj.
  - intros j g' [[<- <-]|[Hne Hj]]%lookup_insert_Some; [done|]. eapply registration_frame; [by apply Hother|by apply T1].
  - intros j [Hj Hne]%lookup_insert_None. destruct (T2 j Hj) as (H1 & H2 & H3 & H4 & H5).
    destruct (Hother j (not_eq_sym Hne)) as [Hmap Htasks _ Hrel Hann Hcl]. rewrite Hmap, Htasks, Hrel, Hann, Hcl. done.
  - intros j Hj. rewrite lookup_insert_ne by lia. apply T3. lia.
Qed.

(** The registrations that exist have small numbers. *)
Lemma object_id t id g : tunnels_ok t → tn_objects t !! id = Some g → (id ≤ tn_nextID t)%nat.
Proof. intros Ht Hg. destruct (decide (id ≤ tn_nextID t)%nat) as [|Hgt]; [done|]. by rewrite (tk_fresh _ Ht id) in Hg by lia. Qed.

Lemma finishes_in id active result l : ToFinish id active result ∈ l → 0 < occurrences (finishes id) l.
Proof.
  intros [k Hk]%list_elem_of_lookup. pose proof (occurrences_delete (finishes id) _ _ _ Hk) as Hd.
  simpl in Hd. rewrite Nat.eqb_refl in Hd. pose proof (occurrences_nonneg (finishes id) (delete k l)). lia.
Qed.

(** ** The operations *)

Lemma Register_ok t session : tunnels_ok t → tunnels_ok (Register t session).1.
Proof.
  intros Ht. unfold Register. destruct (tn_admissionClosed t); [done|]. cbn [fst].
  assert (Hnone : tn_objects t !! S (tn_nextID t) = None) by (apply (tk_fresh _ Ht); lia).
  destruct (tk_absent _ Ht _ Hnone) as (Hm & Htasks & Hrel & Hann & Hcl).
  apply (update_ok t _ (S (tn_nextID t)) (mkRegistrationT session registrationPending false)); simpl; try done; try lia.
  - split; simpl; unfold announced in *; simpl; try done.
    + split; [done|]. intros _. apply elem_of_union. left. by apply elem_of_singleton.
    + by left.
    + intros active result Hin%finishes_in. lia.
  - intros j Hj. split; simpl; try done. rewrite elem_of_union, elem_of_singleton. intuition lia.
  - rewrite map_sum_insert_new by done. rewrite (tk_wait _ Ht). simpl. unfold uncleaned at 2. simpl. lia.
Qed.

Lemma wait_same t id g g' : tunnels_ok t → tn_objects t !! id = Some g → rg_cleaned g' = rg_cleaned g →
  tn_wait t = map_sum uncleaned (<[id := g']> (tn_objects t)).
Proof.
  intros Ht Hg Hc. rewrite (map_sum_update _ _ _ _ _ Hg), (tk_wait _ Ht).
  assert (uncleaned g' = uncleaned g) as -> by (unfold uncleaned; by rewrite Hc). lia.
Qed.

Lemma Activate_ok t id : tunnels_ok t → tunnels_ok (Activate observer t id).1.
Proof.
  intros Ht. unfold Activate. destruct (tn_objects t !! id) as [g|] eqn:Hg; [|done].
  destruct (bool_decide_reflect (rg_state g = registrationPending)) as [Hp|]; [|done]. cbn [fst].
  destruct (tk_objects _ Ht _ _ Hg) as [G1 G2 G3 G4 G5 G6 G7 G8 G9].
  assert (Hclean : rg_cleaned g = false) by (destruct (rg_cleaned g); [rewrite G2 in Hp by done; done|done]).
  assert (Htasks : occurrences (finishes id) (tn_tasks t) = 0) by (by rewrite G3, Hp).
  assert (Hann : ∀ j, occurrences (opens j) (tn_log t ++ observe observer [TunnelOpened id]) =
    announced t j + if observer && Nat.eqb j id then 1 else 0).
  { intros j. rewrite occurrences_app. unfold announced, observe. destruct observer; [|done]. unfold occurrences at 2. simpl.
    by destruct (Nat.eqb j id). }
  assert (Hlog : ∀ P, (∀ j, P (TunnelOpened j) = false) → occurrences P (tn_log t ++ observe observer [TunnelOpened id]) = occurrences P (tn_log t)).
  { intros P HP. rewrite occurrences_app. unfold observe. destruct observer; unfold occurrences at 2; simpl; rewrite ?HP; simpl; lia. }
  eapply (update_ok t _ id (set_state g registrationActive)); try done; simpl.
  - unfold announced in *. split; simpl; unfold announced; simpl; rewrite ?Hann, ?Hlog by done; rewrite ?G6, ?Nat.eqb_refl, ?andb_true_r by done.
    + rewrite G1, Hp. done.
    + congruence.
    + done.
    + done.
    + destruct observer; [by right|by left].
    + done.
    + by intros _ ->.
    + intros active result Hin%finishes_in. lia.
    + rewrite G9, Hclean. done.
  - intros j Hj. split; simpl; unfold announced; simpl; rewrite ?Hann, ?Hlog by done; try done.
    rewrite (proj2 (Nat.eqb_neq j id)), andb_false_r by done. unfold announced. lia.
  - by eapply object_id.
  - by eapply wait_same.
Qed.

(** A registration leaves the map; [active] tells in which state it was. *)
Lemma retire_ok t id g (active : bool) result : tunnels_ok t → tn_objects t !! id = Some g →
  rg_state g = (if active then registrationActive else registrationPending) → tunnels_ok (retire t id g active result).
Proof.
  intros Ht Hg Hs. destruct (tk_objects _ Ht _ _ Hg) as [G1 G2 G3 G4 G5 G6 G7 G8 G9].
  assert (Hnd : rg_state g ≠ registrationDone) by (rewrite Hs; by destruct active).
  assert (Hclean : rg_cleaned g = false) by (destruct (rg_cleaned g); [by rewrite G2 in Hnd|done]).
  assert (Htasks : occurrences (finishes id) (tn_tasks t) = 0) by (rewrite G3; by rewrite bool_decide_eq_false_2).
  eapply (update_ok t _ id (set_state g registrationDone)); try done; simpl.
  - unfold announced in *. split; simpl; unfold announced; simpl; try done.
    + rewrite elem_of_difference, elem_of_singleton. tauto.
    + rewrite occurrences_app, Htasks. unfold occurrences, uncleaned. simpl. by rewrite Nat.eqb_refl, Hclean.
    + intros active' result' [Hin|Hin]%elem_of_app Ho; [by apply finishes_in in Hin; lia|].
      apply list_elem_of_singleton in Hin. injection Hin as -> ->. symmetry. destruct active.
      * by apply bool_decide_eq_true_2, G7.
      * apply bool_decide_eq_false_2. rewrite G6 by done. lia.
  - intros j Hj. split; simpl; try done.
    + rewrite elem_of_difference, elem_of_singleton. tauto.
    + rewrite occurrences_app. unfold occurrences at 2. simpl. rewrite (proj2 (Nat.eqb_neq j id)) by done. simpl. lia.
    + intros active' result' [Hin|Hin]%elem_of_app; [done|]. apply list_elem_of_singleton in Hin. by injection Hin as ->.
  - by eapply object_id.
  - by eapply wait_same.
Qed.

(** A step about no registration. *)
Lemma neutral_ok t t' : tunnels_ok t → tn_objects t' = tn_objects t → tn_nextID t' = tn_nextID t → tn_wait t' = tn_wait t →
  (∀ j, unchanged t t' j) → tunnels_ok t'.
Proof.
  intros [T1 T2 T3 T4] Ho Hn Hw Hu. split; rewrite ?Ho, ?Hn, ?Hw; try done.
  - intros id g Hg. eapply registration_frame; [apply Hu|by apply T1].
  - intros id Hid. destruct (T2 id Hid) as (? & ? & ? & ? & ?). destruct (Hu id) as [-> -> _ -> -> ->]. done.
Qed.

Lemma force_task_ok t session : tunnels_ok t →
  tunnels_ok (mkTunnels (tn_admissionClosed t) (tn_nextID t) (tn_registrations t) (tn_objects t) (tn_wait t)
    (tn_tasks t ++ [ToForceClose session]) (tn_log t)).
Proof.
  intros Ht. eapply neutral_ok; try done. intros j. split; simpl; try done.
  - rewrite occurrences_app. unfold occurrences at 2. simpl. lia.
  - intros active result [?|Hin]%elem_of_app; [done|]. by apply list_elem_of_singleton in Hin.
Qed.

Lemma CloseAdmission_ok t : tunnels_ok t → tunnels_ok (CloseAdmission t).
Proof. intros Ht. by eapply neutral_ok. Qed.

Lemma Rollback_ok t id : tunnels_ok t → tunnels_ok (tunnel_Rollback t id).
Proof.
  intros Ht. unfold tunnel_Rollback. destruct (tn_objects t !! id) as [g|] eqn:Hg; [|done].
  destruct (bool_decide_reflect (rg_state g = registrationPending)); [|done]. by apply retire_ok.
Qed.

Lemma runReturned_ok t id result t' : tunnels_ok t → runReturned t id result = Some t' → tunnels_ok t'.
Proof.
  intros Ht. unfold runReturned. destruct (tn_objects t !! id) as [g|] eqn:Hg; [|done].
  destruct (bool_decide_reflect (rg_state g = registrationActive)); [|done]. intros [= <-]. by apply retire_ok.
Qed.

Lemma sweepOne_ok t id : tunnels_ok t → tunnels_ok (sweepOne t id).
Proof.
  intros Ht. unfold sweepOne. destruct (tn_objects t !! id) as [g|] eqn:Hg; [|done].
  destruct (rg_state g) eqn:Hs; [|by apply force_task_ok|done]. apply (force_task_ok (retire t id g false noResult)). by apply retire_ok.
Qed.

Lemma sweep_ok t : tunnels_ok t → tunnels_ok (sweep t).
Proof.
  unfold sweep. generalize (elements (tn_registrations t)) as ids. intros ids. revert t.
  induction ids as [|id ids IH]; intros t Ht; [done|]. apply IH. by apply sweepOne_ok.
Qed.

Lemma in_delete {A} (l : list A) k x : x ∈ delete k l → x ∈ l.
Proof. apply sublist_subseteq, sublist_delete. Qed.

(** A queued clean-up is the first and the wait group is positive. *)
Lemma queued_finish t k id active result : tunnels_ok t → tn_tasks t !! k = Some (ToFinish id active result) →
  ∃ g, tn_objects t !! id = Some g ∧ rg_state g = registrationDone ∧ rg_cleaned g = false ∧ 1 ≤ tn_wait t ∧
    occurrences (finishes id) (tn_tasks t) = 1.
Proof.
  intros Ht Hk. assert (Hin : ToFinish id active result ∈ tn_tasks t) by (by eapply list_elem_of_lookup_2).
  apply finishes_in in Hin. destruct (tn_objects t !! id) as [g|] eqn:Hg.
  - destruct (tk_objects _ Ht _ _ Hg) as [_ _ G3 _ _ _ _ _ _]. exists g.
    destruct (bool_decide_reflect (rg_state g = registrationDone)) as [Hd|]; [|lia]. unfold uncleaned in G3.
    destruct (rg_cleaned g) eqn:Hc; [lia|]. split_and!; try done. rewrite (tk_wait _ Ht).
    assert (Hnn : ∀ x, 0 ≤ uncleaned x) by (intros x; unfold uncleaned; by destruct (rg_cleaned x)).
    pose proof (map_sum_elem_le uncleaned _ _ _ Hnn Hg) as Hle. unfold uncleaned at 1 in Hle. by rewrite Hc in Hle.
  - destruct (tk_absent _ Ht _ Hg) as (_ & ? & _). lia.
Qed.

Lemma perform_force_ok t k session : tunnels_ok t → tn_tasks t !! k = Some (ToForceClose session) →
  tunnels_ok (mkTunnels (tn_admissionClosed t) (tn_nextID t) (tn_registrations t) (tn_objects t) (tn_wait t)
    (delete k (tn_tasks t)) (tn_log t ++ [ForceClosed session])).
Proof.
  intros Ht Hk. eapply neutral_ok; try done. intros j. split; unfold announced; simpl; try done.
  - rewrite (occurrences_delete _ _ _ _ Hk). simpl. lia.
  - intros active result. apply in_delete.
  - rewrite occurrences_app. unfold occurrences at 2. simpl. lia.
  - rewrite occurrences_app. unfold occurrences at 2. simpl. lia.
  - rewrite occurrences_app. unfold occurrences at 2. simpl. lia.
Qed.

(** What a clean-up writes. *)
Definition finishLog (id : nat) (active : bool) (result : tunnelResult) : list tunnelEvent :=
  (if active then observe observer [TunnelBytes id (tr_downstreamToUpstream result) (tr_upstreamToDownstream result); TunnelClosed id result]
   else []) ++ [LeaseReleased id].

Lemma finishLog_counts id active result j :
  occurrences (opens j) (finishLog id active result) = 0 ∧
  occurrences (releases j) (finishLog id active result) = (if Nat.eqb j id then 1 else 0) ∧
  occurrences (closes j) (finishLog id active result) = (if observer && active && Nat.eqb j id then 1 else 0).
Proof. unfold finishLog, observe. destruct active, observer; unfold occurrences; simpl; by destruct (Nat.eqb j id). Qed.

Lemma perform_finish_ok t k id active result : tunnels_ok t → tn_tasks t !! k = Some (ToFinish id active result) →
  ∃ t', perform observer t k = Some t' ∧ tunnels_ok t' ∧ tn_wait t' = tn_wait t - 1.
Proof.
  intros Ht Hk. destruct (queued_finish _ _ _ _ _ Ht Hk) as (g & Hg & Hdone & Hclean & Hwait & Hone).
  unfold perform. rewrite Hk. unfold finish. simpl. rewrite Hg, Hclean.
  rewrite (proj2 (Z.ltb_ge (tn_wait t - 1) 0)) by lia. eexists. split; [done|]. split; [|done].
  fold (finishLog id active result).
  destruct (tk_objects _ Ht _ _ Hg) as [G1 G2 G3 G4 G5 G6 G7 G8 G9]. rewrite Hclean in *.
  eapply (update_ok t _ id (mkRegistrationT (rg_session g) (rg_state g) true)); try done; simpl.
  - destruct (finishLog_counts id active result id) as (L1 & L2 & L3). rewrite Nat.eqb_refl, ?andb_true_r in *.
    assert (Hann : occurrences (opens id) (tn_log t ++ finishLog id active result) = announced t id)
      by (rewrite occurrences_app, L1; unfold announced; lia).
    split; unfold announced; simpl; rewrite ?Hann; try done.
    + rewrite (occurrences_delete _ _ _ _ Hk), Hone. simpl. rewrite Nat.eqb_refl. by destruct (bool_decide _).
    + rewrite occurrences_app, L2, G4. unfold uncleaned. by rewrite Hclean.
    + intros active' result' Hin%in_delete. by eapply G8.
    + rewrite occurrences_app, L3, G9. assert (Hin : ToFinish id active result ∈ tn_tasks t) by (by eapply list_elem_of_lookup_2).
      destruct observer; simpl; [|destruct G5 as [->|[? _]]; done].
      rewrite (G8 _ _ Hin eq_refl). destruct G5 as [->|[_ ->]]; done.
  - intros j Hj. destruct (finishLog_counts id active result j) as (L1 & L2 & L3).
    rewrite (proj2 (Nat.eqb_neq j id)), ?andb_false_r in * by done.
    split; unfold announced; simpl; rewrite ?occurrences_app, ?L1, ?L2, ?L3; try done; try lia.
    + rewrite (occurrences_delete _ _ _ _ Hk). simpl. rewrite (proj2 (Nat.eqb_neq j id)) by done. lia.
    + intros active' result'. apply in_delete.
  - by eapply object_id.
  - rewrite (map_sum_update _ _ _ _ _ Hg), (tk_wait _ Ht).
    assert (uncleaned g = 1) by (unfold uncleaned; by rewrite Hclean).
    assert (uncleaned (mkRegistrationT (rg_session g) (rg_state g) true) = 0) by done. lia.
Qed.

Lemma texec_good t e : tunnels_ok t → tgood (texec observer t e).
Proof.
  intros Ht. destruct e as [session|id|id|id result|k| |]; cbn [texec].
  - by apply Register_ok.
  - by apply Activate_ok.
  - by apply Rollback_ok.
  - destruct (runReturned t id result) as [t'|] eqn:E; [|done]. by eapply runReturned_ok.
  - destruct (tn_tasks t !! k) as [[id active result|session]|] eqn:Hk.
    + destruct (perform_finish_ok _ _ _ _ _ Ht Hk) as (t' & -> & Hok & _). done.
    + unfold perform. rewrite Hk. by apply perform_force_ok.
    + unfold perform. by rewrite Hk.
  - by apply CloseAdmission_ok.
  - destruct (tn_admissionClosed t); [|done]. by apply sweep_ok.
Qed.

Lemma treachable_ok t : treachable observer t → tunnels_ok t.
Proof.
  induction 1 as [|t e t' _ IH Hexec]; [apply NewTunnels_ok|]. pose proof (texec_good t e IH) as Hg. by rewrite Hexec in Hg.
Qed.

(** C14: Tunnel ownership is exact under every interleaving of handlers, sessions
    and [Drain]: the wait group counts the registrations whose clean-up is
    still to come and never goes negative, the map holds those that are not
    finished, every clean-up releases the transport lease exactly once, and
    every tunnel announced as opened is announced as closed once, by its
    clean-up. Nothing is registered after admission has closed. *)
Theorem tunnel_ownership t : treachable observer t →
  tn_wait t = map_sum uncleaned (tn_objects t) ∧
  (∀ id g, tn_objects t !! id = Some g →
     (id ∈ tn_registrations t ↔ rg_state g ≠ registrationDone) ∧
     occurrences (releases id) (tn_log t) = (if rg_cleaned g then 1 else 0) ∧
     occurrences (closes id) (tn_log t) = (if rg_cleaned g then occurrences (opens id) (tn_log t) else 0) ∧
     occurrences (opens id) (tn_log t) ≤ 1) ∧
  (∀ e, texec observer t e ≠ TPanicked) ∧
  (∀ session, tn_admissionClosed t = true → Register t session = (t, None)).
Proof.
  intros Ht%treachable_ok. split_and!; [apply Ht| | |].
  - intros id g Hg. destruct (tk_objects _ Ht _ _ Hg) as [G1 G2 G3 G4 G5 G6 G7 G8 G9]. split_and!; [done| |done|].
    + rewrite G4. unfold uncleaned. by destruct (rg_cleaned g).
    + unfold announced in G5. destruct G5 as [->|[_ ->]]; done.
  - intros e. pose proof (texec_good t e Ht) as Hg. by destruct (texec observer t e).
  - intros session Hc. unfold Register. by rewrite Hc.
Qed.

(** ** Draining *)

Fixpoint trun (t : tunnels) (es : list tevent) : option tunnels :=
  match es with
  | [] => Some t
  | e :: es => match texec observer t e with TDone t => trun t es | _ => None end
  end.

Lemma trun_app t es es' : trun t (es ++ es') = trun t es ≫= fun t => trun t es'.
Proof. revert t. induction es as [|e es IH]; intros t; simpl; [done|]. destruct (texec observer t e); [done|done|apply IH]. Qed.

(** What [Drain] waits for: its own sweep, sessions that return, clean-ups. *)
Definition settling (e : tevent) : Prop :=
  match e with TSweep | TRunReturned _ _ | TPerform _ => True | _ => False end.

Definition not_pending (o : option Registration) : Prop := ∀ g, o = Some g → rg_state g ≠ registrationPending.

Lemma sweepOne_pending t i : not_pending (tn_objects (sweepOne t i) !! i) ∧
  ∀ j, not_pending (tn_objects t !! j) → not_pending (tn_objects (sweepOne t i) !! j).
Proof.
  assert (Hset : ∀ g j, not_pending (tn_objects t !! j) → not_pending (<[i := set_state g registrationDone]> (tn_objects t) !! j)).
  { intros g j Hj. destruct (decide (i = j)) as [<-|Hne]; [rewrite lookup_insert_eq; by intros ? [= <-]|by rewrite lookup_insert_ne]. }
  unfold sweepOne. destruct (tn_objects t !! i) as [g|] eqn:Hg; [|split; [by rewrite Hg|done]].
  destruct (rg_state g) eqn:Hs; simpl.
  - split; [|apply Hset]. rewrite lookup_insert_eq. by intros ? [= <-].
  - split; [|done]. rewrite Hg. intros ? [= <-]. congruence.
  - split; [|done]. rewrite Hg. intros ? [= <-]. congruence.
Qed.

Lemma sweep_pending_loop ids : ∀ t j, j ∈ ids ∨ not_pending (tn_objects t !! j) → not_pending (tn_objects (foldl sweepOne t ids) !! j).
Proof.
  induction ids as [|i ids IH]; intros t j [Hj|Hj]; simpl; [by apply elem_of_nil in Hj|done|..]; apply IH.
  - apply elem_of_cons in Hj as [->|Hj]; [right; exact (proj1 (sweepOne_pending t i))|by left].
  - right. by apply (proj2 (sweepOne_pending t i)).
Qed.

(** After the sweep only running sessions are left in the map. *)
Lemma sweep_active t id g : tunnels_ok t → tn_objects (sweep t) !! id = Some g → rg_state g ≠ registrationPending.
Proof.
  intros Ht Hg. apply (sweep_pending_loop (elements (tn_registrations t)) t id); [|done]. rewrite elem_of_elements.
  destruct (tn_objects t !! id) as [g'|] eqn:Hg'; [|by right].
  destruct (decide (rg_state g' = registrationPending)) as [Hp|Hp]; [left|right; by intros ? [= <-]].
  apply (gk_map _ _ _ (tk_objects _ Ht _ _ Hg')). by rewrite Hp.
Qed.

(** The running sessions return one after the other. *)
Lemma return_all n : ∀ t, size (tn_registrations t) = n → tunnels_ok t →
  (∀ id g, tn_objects t !! id = Some g → rg_state g ≠ registrationPending) →
  ∃ es t', Forall settling es ∧ trun t es = Some t' ∧ tunnels_ok t' ∧ tn_registrations t' = ∅.
Proof.
  induction n as [|n IH]; intros t Hn Ht Hact.
  { exists [], t. split_and!; try done. by apply size_empty_inv, leibniz_equiv in Hn. }
  destruct (size_pos_elem_of (tn_registrations t)) as [id Hid]; [lia|].
  destruct (tn_objects t !! id) as [g|] eqn:Hg; [|by destruct (tk_absent _ Ht _ Hg)].
  assert (Hs : rg_state g = registrationActive).
  { pose proof (Hact _ _ Hg). pose proof (proj1 (gk_map _ _ _ (tk_objects _ Ht _ _ Hg)) Hid). by destruct (rg_state g). }
  set (result := mkSessionResult ReasonShutdown 0 0 0).
  assert (Hret : runReturned t id result = Some (retire t id g true (Some result)))
    by (unfold runReturned; by rewrite Hg, bool_decide_eq_true_2).
  destruct (IH (retire t id g true (Some result))) as (es & t' & Hes & Hrun & Hok & Hempty).
  - simpl. rewrite size_difference, size_singleton; [lia|]. by apply singleton_subseteq_l.
  - by eapply runReturned_ok.
  - intros j g' Hj. simpl in Hj. apply lookup_insert_Some in Hj as [[<- <-]|[_ Hj]]; [done|by eapply Hact].
  - exists (TRunReturned id result :: es), t'. split_and!; try done; [by constructor|]. cbn [trun texec]. by rewrite Hret.
Qed.

(** The clean-ups run one after the other. *)
Lemma perform_all n : ∀ t, length (tn_tasks t) = n → tunnels_ok t → tn_registrations t = ∅ →
  ∃ es t', Forall settling es ∧ trun t es = Some t' ∧ tunnels_ok t' ∧ tn_registrations t' = ∅ ∧ tn_tasks t' = [].
Proof.
  induction n as [|n IH]; intros t Hn Ht Hempty.
  { exists [], t. split_and!; try done. by apply nil_length_inv. }
  assert (Hstep : ∃ t1, perform observer t 0 = Some t1 ∧ tunnels_ok t1 ∧ tn_registrations t1 = ∅ ∧ length (tn_tasks t1) = n).
  { destruct (tn_tasks t) as [|x l] eqn:El; [done|]. assert (Hk : tn_tasks t !! 0%nat = Some x) by (by rewrite El).
    destruct x as [id active result|session].
    - destruct (perform_finish_ok _ _ _ _ _ Ht Hk) as (t1 & Hp & Hok & _). exists t1. split; [done|]. split; [done|].
      destruct (queued_finish _ _ _ _ _ Ht Hk) as (g & Hg & _ & Hc & Hw & _). unfold perform in Hp. rewrite Hk in Hp.
      unfold finish in Hp. simpl in Hp. rewrite Hg, Hc, (proj2 (Z.ltb_ge (tn_wait t - 1) 0)) in Hp by lia.
      injection Hp as <-. simpl. rewrite El. split; [done|]. simpl in Hn. simpl. lia.
    - eexists. unfold perform. rewrite Hk. split; [done|]. split; [by apply perform_force_ok|]. simpl. rewrite El. split; [done|].
      simpl in Hn. simpl. lia. }
  destruct Hstep as (t1 & Hp & Hok1 & He1 & Hn1). destruct (IH t1 Hn1 Hok1 He1) as (es & t' & Hes & Hrun & Hrest).
  exists (TPerform 0 :: es), t'. split; [by constructor|]. split; [|done]. cbn [trun texec]. by rewrite Hp.
Qed.

(** [Drain] comes to an end: after admission has closed, its sweep, the
    return of the sessions it has closed and the clean-ups that follow bring
    the wait group to zero, leave the map empty and have released the lease of
    every tunnel that was ever registered exactly once. *)
Theorem drain_completes t : treachable observer t → tn_admissionClosed t = true →
  ∃ es t', Forall settling es ∧ trun t (TSweep :: es) = Some t' ∧ drainReturns t' = true ∧ tn_registrations t' = ∅ ∧
    ∀ id g, tn_objects t' !! id = Some g → occurrences (releases id) (tn_log t') = 1.
Proof.
  intros Ht%treachable_ok Hclosed. pose proof (sweep_ok _ Ht) as Hs.
  destruct (return_all _ (sweep t) eq_refl Hs (fun id g Hg => sweep_active t id g Ht Hg)) as (es1 & t1 & Hes1 & Hrun1 & Hok1 & He1).
  destruct (perform_all _ t1 eq_refl Hok1 He1) as (es2 & t2 & Hes2 & Hrun2 & Hok2 & He2 & Htasks).
  assert (Hdone : ∀ id g, tn_objects t2 !! id = Some g → rg_cleaned g = true).
  { intros id g Hg. destruct (tk_objects _ Hok2 _ _ Hg) as [G1 _ G3 _ _ _ _ _ _]. rewrite He2 in G1.
    destruct (decide (rg_state g = registrationDone)) as [Hd|Hd]; [|by apply G1, elem_of_empty in Hd].
    rewrite Htasks, bool_decide_eq_true_2 in G3 by done. unfold uncleaned in G3. by destruct (rg_cleaned g). }
  exists (es1 ++ es2), t2. split; [by apply Forall_app|]. split.
  { cbn [trun texec]. by rewrite Hclosed, trun_app, Hrun1. }
  split; [|split; [done|]].
  - unfold drainReturns. rewrite (tk_wait _ Hok2), map_sum_zero; [done|]. intros id g Hg. unfold uncleaned. by rewrite (Hdone _ _ Hg).
  - intros id g Hg. rewrite (gk_released _ _ _ (tk_objects _ Hok2 _ _ Hg)). unfold uncleaned. by rewrite (Hdone _ _ Hg).
Qed.
End Safe.

(** ** A concrete history *)

(** Two tunnels, one of them still pending, when the gateway stops admission. *)
Definition demo_tunnel_events : list tevent := [TRegister 10; TRegister 11; TActivate 1; TCloseAdmission].

Lemma trun_reachable observer t es t' : treachable observer t → trun observer t es = Some t' → treachable observer t'.
Proof.
  revert t. induction es as [|e es IH]; intros t Ht; cbn [trun]; [by intros [= <-]|].
  destruct (texec observer t e) eqn:E; [done|done|]. apply IH. by eapply treach_step.
Qed.

Definition demo_tunnels : tunnels := default NewTunnels (trun true NewTunnels demo_tunnel_events).

Lemma demo_tunnels_reachable : treachable true demo_tunnels.
Proof. eapply (trun_reachable true NewTunnels demo_tunnel_events); [constructor|reflexivity]. Qed.

Lemma tunnel_ownership_witness : tn_wait demo_tunnels = 2 ∧ tn_wait demo_tunnels = map_sum uncleaned (tn_objects demo_tunnels).
Proof. split; [reflexivity|]. exact (proj1 (tunnel_ownership true demo_tunnels demo_tunnels_reachable)). Defined.

Lemma drain_completes_witness : ∃ es t', trun true demo_tunnels (TSweep :: es) = Some t' ∧ drainReturns t' = true.
Proof.
  destruct (drain_completes true demo_tunnels demo_tunnels_reachable eq_refl) as (es & t' & _ & Hrun & Hd & _).
  exists es, t'. split; [exact Hrun|exact Hd].
Defined.
