(* ===== verification/Plugins.v ===== *)
(** * Plugin registry and chains ([internal/plugin/registry.go], [chain.go])

    Definitions are registered once with distinct names and orders; a route's
    chain is compiled from the attachments of its service and its own, and runs
    request hooks until one of them stops the request, and all response hooks.
    Hooks mutate the request or response they are given; [Q] and [R] are the
    states they work on. *)

From S2P Require Import Prelude GoStrings HttpHeader.
#[local] Open Scope string_scope.
#[local] Open Scope Z_scope.
#[local] Open Scope list_scope.

(** ** Data *)

Record ShortCircuitResponse := mkShortCircuit {
  sc_status : Z;
  sc_headers : Header;
  sc_body : string;
  sc_code : string;
}.

(** [Action] is a byte; other values are invalid. *)
Inductive Action := Continue | ShortCircuit | InvalidAction (value : Z).

Record RequestResult := mkRequestResult {
  rr_action : Action;
  rr_response : option ShortCircuitResponse;
  rr_err : option string;
}.

Record PluginAttachment := mkAttachment {
  pa_name : string;
  pa_enabled : bool;
  pa_rawConfig : string;
}.

(** The errors of compilation and of the request phase. *)
Inductive pluginError :=
| DefinitionInvalid (index : nat)
| AttachmentNameEmpty (scope : string) (index : nat)
| AttachmentDuplicate (scope name : string)
| PluginUnknown (name : string)
| PluginCompileFailed (name cause : string)
| ScratchNegative (name : string).

Inductive hookError :=
| HookFailed (plugin cause : string)
| HookInvalidAction (plugin : string) (action : Z)
| ShortCircuitMissing (plugin : string)
| ShortCircuitStatusInvalid (plugin : string)
| ShortCircuitBodyTooLarge (plugin : string).

Definition maxShortCircuitBodyBytes : Z := 64 * 1024.

Section Plugins.
Context {Q R : Type}.

Definition RequestHook : Type := Q → RequestResult * Q.
Definition ResponseHook : Type := R → option string * R.

Record CompiledPlugin := mkCompiledPlugin {
  cpl_request : option RequestHook;
  cpl_response : option ResponseHook;
  cpl_scratchSlots : Z;
}.

(** [Definition]; a missing compiler is [None]. *)
Record PluginDefinition := mkDefinition {
  def_name : string;
  def_version : string;
  def_requestOrder : Z;
  def_responseOrder : Z;
  def_compile : option (string → result string CompiledPlugin);
}.

(** The scratch offsets of an entry are written and never read; they are left
    out. *)
Record compiledEntry := mkEntryOf {
  ce_name : string;
  ce_definition : PluginDefinition;
  ce_plugin : CompiledPlugin;
}.

Record requestEntry := mkRequestEntry { qe_name : string; qe_order : Z; qe_hook : RequestHook }.
Record responseEntry := mkResponseEntry { se_name : string; se_order : Z; se_hook : ResponseHook }.

Record Chain := mkChain {
  ch_names : list string;
  ch_request : list requestEntry;
  ch_response : list responseEntry;
  ch_scratchSlots : Z;
}.

(** ** Registration *)

(** The registry and the two order maps. *)
Definition registryMaps : Type := gmap string PluginDefinition * gmap Z string * gmap Z string.

Definition registerDefinition (d : PluginDefinition) (m : registryMaps) : option registryMaps :=
  let '(definitions, requestOrders, responseOrders) := m in
  if String.eqb (trim_space (def_name d)) "" || String.eqb (trim_space (def_version d)) ""
     || bool_decide (def_compile d = None)
     || bool_decide (is_Some (definitions !! def_name d))
     || bool_decide (is_Some (requestOrders !! def_requestOrder d))
     || bool_decide (is_Some (responseOrders !! def_responseOrder d)) then None
  else Some (<[def_name d := d]> definitions, <[def_requestOrder d := def_name d]> requestOrders,
             <[def_responseOrder d := def_name d]> responseOrders).

Fixpoint registerAll (index : nat) (ds : list PluginDefinition) (m : registryMaps)
    : result pluginError registryMaps :=
  match ds with
  | [] => Ok m
  | d :: ds =>
      match registerDefinition d m with
      | None => Err (DefinitionInvalid index)
      | Some m => registerAll (S index) ds m
      end
  end.

Definition NewPluginRegistry (ds : list PluginDefinition)
    : result pluginError (gmap string PluginDefinition) :=
  m ← registerAll 0 ds (∅, ∅, ∅); Ok m.1.1.

(** ** Compilation *)

Fixpoint validateScopeLoop (scope : string) (index : nat) (seen : gset string)
    (attachments : list PluginAttachment) : result pluginError unit :=
  match attachments with
  | [] => Ok tt
  | a :: attachments =>
      if String.eqb (trim_space (pa_name a)) "" then Err (AttachmentNameEmpty scope index)
      else if bool_decide (pa_name a ∈ seen) then Err (AttachmentDuplicate scope (pa_name a))
      else validateScopeLoop scope (S index) ({[pa_name a]} ∪ seen) attachments
  end.

Definition validateAttachmentScope (scope : string) (attachments : list PluginAttachment)
    : result pluginError unit := validateScopeLoop scope 0 ∅ attachments.

Definition inheritAttachment (m : gmap string PluginAttachment) (a : PluginAttachment)
    : gmap string PluginAttachment := if pa_enabled a then <[pa_name a := a]> m else m.

Definition overrideAttachment (m : gmap string PluginAttachment) (a : PluginAttachment)
    : gmap string PluginAttachment :=
  if pa_enabled a then <[pa_name a := a]> m else delete (pa_name a) m.

Definition effectiveAttachments (service route : list PluginAttachment)
    : gmap string PluginAttachment :=
  foldl overrideAttachment (foldl inheritAttachment ∅ service) route.

(** [sortStrings] moves each value down from its place past the greater ones;
    [sorted] is the part before it, last value first. *)
Fixpoint sinkString (x : string) (sorted : list string) : list string :=
  match sorted with
  | [] => [x]
  | y :: sorted => if String.ltb x y then y :: sinkString x sorted else x :: y :: sorted
  end.

Definition sortStrings (values : list string) : list string :=
  reverse (foldl (fun sorted x => sinkString x sorted) [] values).

Fixpoint compileEntries (definitions : gmap string PluginDefinition)
    (effective : gmap string PluginAttachment) (names : list string)
    : result pluginError (list compiledEntry) :=
  match names with
  | [] => Ok []
  | name :: names =>
      match definitions !! name with
      | None => Err (PluginUnknown name)
      | Some d =>
          match def_compile d with
          | None => Err (PluginCompileFailed name "compiler is nil")
          | Some compile =>
              match compile (from_option pa_rawConfig "" (effective !! name)) with
              | Err e => Err (PluginCompileFailed name e)
              | Ok p =>
                  if cpl_scratchSlots p <? 0 then Err (ScratchNegative name)
                  else
                    entries ← compileEntries definitions effective names;
                    Ok (mkEntryOf name d p :: entries)
              end
          end
      end
  end.

Definition ordered_before (order : Z) (name : string) (order' : Z) (name' : string) : bool :=
  if negb (order =? order') then order <? order' else String.ltb name name'.

Definition entry_before (a b : compiledEntry) : bool :=
  ordered_before (def_requestOrder (ce_definition a)) (ce_name a)
    (def_requestOrder (ce_definition b)) (ce_name b).

Definition response_before (a b : responseEntry) : bool :=
  ordered_before (se_order a) (se_name a) (se_order b) (se_name b).

Definition requestEntryOf (e : compiledEntry) : option requestEntry :=
  mkRequestEntry (ce_name e) (def_requestOrder (ce_definition e)) <$> cpl_request (ce_plugin e).

Definition responseEntryOf (e : compiledEntry) : option responseEntry :=
  mkResponseEntry (ce_name e) (def_responseOrder (ce_definition e)) <$> cpl_response (ce_plugin e).

Definition buildChain (entries : list compiledEntry) : Chain :=
  let entries := sort_slice entry_before entries in
  mkChain (ce_name <$> entries) (omap requestEntryOf entries)
    (sort_slice response_before (omap responseEntryOf entries))
    (foldl (fun slots e => slots + cpl_scratchSlots (ce_plugin e)) 0 entries).

(** [iterate] lists the keys of the map in the order the loop meets them. *)
Definition compileEffective (iterate : gmap string PluginAttachment → list string)
    (definitions : gmap string PluginDefinition) (effective : gmap string PluginAttachment)
    : result pluginError Chain :=
  entries ← compileEntries definitions effective (sortStrings (iterate effective));
  Ok (buildChain entries).

Definition CompileChain (iterate : gmap string PluginAttachment → list string)
    (definitions : gmap string PluginDefinition) (service route : list PluginAttachment)
    : result pluginError Chain :=
  _ ← validateAttachmentScope "service" service;
  _ ← validateAttachmentScope "route" route;
  compileEffective iterate definitions (effectiveAttachments service route).

(** ** Running *)

Definition cloneAndValidateShortCircuit (plugin : string) (response : option ShortCircuitResponse)
    : result hookError ShortCircuitResponse :=
  match response with
  | None => Err (ShortCircuitMissing plugin)
  | Some r =>
      if (sc_status r <? 100) || (599 <? sc_status r) then Err (ShortCircuitStatusInvalid plugin)
      else if maxShortCircuitBodyBytes <? Z.of_nat (String.length (sc_body r))
      then Err (ShortCircuitBodyTooLarge plugin)
      else Ok r
  end.

(** [Ok None] lets the request pass. *)
Fixpoint runRequestHooks (entries : list requestEntry) (q : Q)
    : result hookError (option ShortCircuitResponse) * Q :=
  match entries with
  | [] => (Ok None, q)
  | e :: entries =>
      let '(r, q) := qe_hook e q in
      match rr_err r with
      | Some cause => (Err (HookFailed (qe_name e) cause), q)
      | None =>
          match rr_action r with
          | Continue => runRequestHooks entries q
          | ShortCircuit =>
              (Some <$> cloneAndValidateShortCircuit (qe_name e) (rr_response r), q)
          | InvalidAction n => (Err (HookInvalidAction (qe_name e) n), q)
          end
      end
  end.

(** A nil chain is [None]. *)
Definition RunRequest (c : option Chain) (q : Q)
    : result hookError (option ShortCircuitResponse) * Q :=
  match c with None => (Ok None, q) | Some c => runRequestHooks (ch_request c) q end.

Fixpoint runResponseHooks (entries : list responseEntry) (r : R) : option hookError * R :=
  match entries with
  | [] => (None, r)
  | e :: entries =>
      match se_hook e r with
      | (Some cause, r) => (Some (HookFailed (se_name e) cause), r)
      | (None, r) => runResponseHooks entries r
      end
  end.

Definition RunResponse (c : option Chain) (r : R) : option hookError * R :=
  match c with None => (None, r) | Some c => runResponseHooks (ch_response c) r end.

(** ** Effective attachments *)

(** The attachment a chain uses: the route's, or the service's unless the route
    has one of that name. *)
Definition in_effect (service route : list PluginAttachment) (a : PluginAttachment) : Prop :=
  pa_enabled a = true ∧
  (a ∈ route ∨ a ∈ service ∧ ¬ (pa_name a ∈ pa_name <$> route)).

Lemma NoDup_name_inj (l : list PluginAttachment) a b : NoDup (pa_name <$> l) → a ∈ l → b ∈ l →
  pa_name a = pa_name b → a = b.
Proof.
  induction l as [|c l IH]; intros Hnd Ha Hb Hab; [by apply elem_of_nil in Ha|].
  apply NoDup_cons in Hnd as [Hni Hnd].
  apply elem_of_cons in Ha as [->|Ha]; apply elem_of_cons in Hb as [->|Hb]; try done; [| |by apply IH].
  - destruct Hni. rewrite Hab. by apply list_elem_of_fmap_2.
  - destruct Hni. rewrite <-Hab. by apply list_elem_of_fmap_2.
Qed.

Lemma inherit_lookup service m n a : NoDup (pa_name <$> service) → (∀ b, b ∈ service → m !! pa_name b = None) →
  foldl inheritAttachment m service !! n = Some a ↔
    m !! n = Some a ∨ a ∈ service ∧ pa_enabled a = true ∧ pa_name a = n.
Proof.
  revert m. induction service as [|b service IH]; intros m Hnd Hfree; simpl.
  { rewrite elem_of_nil. by intuition. }
  apply NoDup_cons in Hnd as [Hni Hnd].
  assert (Hb : m !! pa_name b = None) by (apply Hfree; by left).
  rewrite IH, elem_of_cons; [|done|].
  - unfold inheritAttachment. destruct (pa_enabled b) eqn:Eb.
    + rewrite lookup_insert_Some. split.
      * intros [[[<- <-]|[? ?]]|?]; by intuition.
      * intros [Hm|[[->|Hin] [He Hn]]]; [|by auto|by auto].
        left. right. split; [|done]. intros <-. congruence.
    + split; [by intuition|]. intros [?|[[->|?] [? ?]]]; [by left|congruence|by right].
  - intros c Hc. unfold inheritAttachment. destruct (pa_enabled b); [|apply Hfree; by right].
    rewrite lookup_insert_ne; [apply Hfree; by right|]. intros Heq. destruct Hni. rewrite Heq.
    by apply list_elem_of_fmap_2.
Qed.

Lemma override_lookup route m n a : NoDup (pa_name <$> route) →
  foldl overrideAttachment m route !! n = Some a ↔
    a ∈ route ∧ pa_enabled a = true ∧ pa_name a = n ∨ ¬ (n ∈ pa_name <$> route) ∧ m !! n = Some a.
Proof.
  revert m. induction route as [|b route IH]; intros m Hnd; simpl.
  { rewrite !elem_of_nil. by intuition. }
  apply NoDup_cons in Hnd as [Hni Hnd]. rewrite IH by done. rewrite !elem_of_cons.
  unfold overrideAttachment. destruct (decide (n = pa_name b)) as [->|Hne].
  - destruct (pa_enabled b) eqn:Eb.
    + rewrite lookup_insert_eq. split.
      * intros [?|[_ [= <-]]]; [by intuition|by auto].
      * intros [[[->|?] [? ?]]|[[] _]]; [by auto|by auto|by left].
    + rewrite lookup_delete_eq. split; [intros [?|[_ ?]]; [by intuition|done]|].
      intros [[[->|?] [? ?]]|[[] _]]; [congruence|by auto|by left].
  - destruct (pa_enabled b); [rewrite lookup_insert_ne by done|rewrite lookup_delete_ne by done];
      split; intros [(Hin & ? & ?)|[Hno ?]].
    all: try (left; by intuition; fail).
    all: try (right; split; [|done]; by intuition; fail).
    all: destruct Hin as [->|?]; [congruence|by auto].
Qed.

Lemma effective_lookup service route n a : NoDup (pa_name <$> service) → NoDup (pa_name <$> route) →
  effectiveAttachments service route !! n = Some a ↔ in_effect service route a ∧ pa_name a = n.
Proof.
  intros Hs Hr. unfold effectiveAttachments, in_effect. rewrite override_lookup by done.
  rewrite inherit_lookup by (done || (intros; apply lookup_empty)). rewrite lookup_empty. split.
  - intros [(? & ? & <-)|[Hno [[=]|(? & ? & <-)]]]; by split_and!; auto.
  - intros [[He [?|[? ?]]] <-]; [by left|]. right. split; [done|]. by right.
Qed.

Lemma validateScopeLoop_spec scope index seen l : validateScopeLoop scope index seen l = Ok tt ↔
  Forall (fun a => trim_space (pa_name a) ≠ "") l ∧ NoDup (pa_name <$> l) ∧
  Forall (fun a => ¬ (pa_name a ∈ seen)) l.
Proof.
  revert index seen. induction l as [|a l IH]; intros index seen; simpl.
  { split; [|done]. intros _. split_and!; constructor. }
  rewrite !Forall_cons, NoDup_cons. destruct (String.eqb_spec (trim_space (pa_name a)) "") as [E|E].
  { split; [done|]. by intros [[? _] _]. }
  case_bool_decide as Hin; [split; [done|]; by intros (_ & _ & ? & _)|].
  rewrite IH, !Forall_forall. split.
  - intros (Hb & Hnd & Hseen). split_and!; try done.
    + intros (b & Hb' & Hbl)%list_elem_of_fmap. apply (Hseen _ Hbl). rewrite Hb'. apply elem_of_union. left.
      by apply elem_of_singleton.
    + intros b Hb' Hs. apply (Hseen _ Hb'). apply elem_of_union. by right.
  - intros ([_ Hb] & [Hni Hnd] & [_ Hseen]). split_and!; [done..|].
    intros b Hb' [Hs%elem_of_singleton|Hs]%elem_of_union; [|by apply (Hseen _ Hb')].
    apply Hni. rewrite <-Hs. by apply list_elem_of_fmap_2.
Qed.

Lemma validateAttachmentScope_spec scope l : validateAttachmentScope scope l = Ok tt ↔
  Forall (fun a => trim_space (pa_name a) ≠ "") l ∧ NoDup (pa_name <$> l).
Proof.
  unfold validateAttachmentScope. rewrite validateScopeLoop_spec. split; [by intros (? & ? & _)|].
  intros [? ?]. split_and!; [done..|]. apply Forall_forall. intros a _. apply not_elem_of_empty.
Qed.

(** ** Sorting by insertion *)

Lemma sinkString_perm x l : sinkString x l ≡ₚ x :: l.
Proof.
  induction l as [|y l IH]; simpl; [done|]. destruct (String.ltb x y); [|done]. rewrite IH. by constructor.
Qed.

Lemma sinkString_sorted x l : StronglySorted (flip String.le) l → StronglySorted (flip String.le) (sinkString x l).
Proof.
  induction 1 as [|y l Hs IH Hy]; simpl; [by repeat constructor|].
  destruct (String.ltb x y) eqn:E.
  - constructor; [done|]. rewrite sinkString_perm. constructor; [|done].
    apply string_ltb_spec in E as [? _]. done.
  - assert (Hle : String.le y x) by (rewrite string_ltb_leb, negb_false_iff in E; by apply string_leb_le).
    constructor; [by constructor|]. constructor; [done|]. eapply Forall_impl; [exact Hy|].
    intros z Hz. simpl in *. by etrans.
Qed.

Lemma StronglySorted_reverse {A} (P : relation A) l : StronglySorted (flip P) l → StronglySorted P (reverse l).
Proof.
  induction 1 as [|x l Hs IH Hx]; [constructor|]. rewrite reverse_cons.
  apply StronglySorted_app. split_and!; [|done|by repeat constructor].
  intros y z Hy ->%list_elem_of_singleton. rewrite elem_of_reverse in Hy. rewrite Forall_forall in Hx. by apply Hx.
Qed.

(** The insertion sort computes the sorted permutation. *)
Lemma sortStrings_sorts l : sortStrings l = sort_strings l.
Proof.
  apply (StronglySorted_unique String.le).
  - apply StronglySorted_reverse. assert (∀ acc, StronglySorted (flip String.le) acc →
      StronglySorted (flip String.le) (foldl (fun sorted x => sinkString x sorted) acc l)) as Hgen; [|apply Hgen; constructor].
    induction l as [|x l IH]; intros acc Hacc; simpl; [done|]. by apply IH, sinkString_sorted.
  - apply sort_strings_sorted.
  - unfold sortStrings. rewrite reverse_Permutation. unfold sort_strings. rewrite sort_slice_perm.
    assert (∀ acc, foldl (fun sorted x => sinkString x sorted) acc l ≡ₚ acc ++ l) as Hgen; [|by rewrite Hgen].
    induction l as [|x l IH]; intros acc; simpl; [by rewrite app_nil_r|].
    rewrite IH, sinkString_perm. by rewrite <-Permutation_middle.
Qed.

(** ** Registries *)

Record registry_wf (definitions : gmap string (PluginDefinition)) : Prop := {
  rg_name n d : definitions !! n = Some d → def_name d = n ∧ def_compile d ≠ None;
  rg_request n n' d d' : definitions !! n = Some d → definitions !! n' = Some d' →
    def_requestOrder d = def_requestOrder d' → n = n';
  rg_response n n' d d' : definitions !! n = Some d → definitions !! n' = Some d' →
    def_responseOrder d = def_responseOrder d' → n = n';
}.

(** The order maps hold the orders in use. *)
Definition maps_wf (m : registryMaps) : Prop :=
  registry_wf m.1.1 ∧
  ∀ n d, m.1.1 !! n = Some d → m.1.2 !! def_requestOrder d = Some n ∧ m.2 !! def_responseOrder d = Some n.

Lemma registerDefinition_wf d m m' : maps_wf m → registerDefinition d m = Some m' → maps_wf m'.
Proof.
  destruct m as [[definitions reqs] resps]. intros [[Hname Hreq Hresp] Hmaps]. unfold registerDefinition.
  destruct (_ || _) eqn:E; [done|]. rewrite !orb_false_iff, !bool_decide_eq_false in E.
  destruct E as [[[[[_ _] Hc] Hn] Hq] Hp]. rewrite <-eq_None_not_Some in *.
  intros [= <-]. simpl in *.
  assert (Horders : ∀ n e, definitions !! n = Some e →
    def_requestOrder e ≠ def_requestOrder d ∧ def_responseOrder e ≠ def_responseOrder d).
  { intros n e He. destruct (Hmaps _ _ He). split; congruence. }
  split; [split|]; simpl.
  - intros n e [[<- <-]|[_ He]]%lookup_insert_Some; [done|by apply Hname].
  - intros n n' e e' [[<- <-]|[_ He]]%lookup_insert_Some [[<- <-]|[_ He']]%lookup_insert_Some Ho; try done.
    + by destruct (Horders _ _ He') as [[] _].
    + by destruct (Horders _ _ He) as [[] _].
    + by eapply Hreq.
  - intros n n' e e' [[<- <-]|[_ He]]%lookup_insert_Some [[<- <-]|[_ He']]%lookup_insert_Some Ho; try done.
    + by destruct (Horders _ _ He') as [_ []].
    + by destruct (Horders _ _ He) as [_ []].
    + by eapply Hresp.
  - intros n e [[<- <-]|[_ He]]%lookup_insert_Some; [by rewrite !lookup_insert_eq|].
    destruct (Horders _ _ He). rewrite !lookup_insert_ne by done. by apply Hmaps.
Qed.

Lemma NewPluginRegistry_wf ds definitions : NewPluginRegistry ds = Ok definitions → registry_wf definitions.
Proof.
  unfold NewPluginRegistry. destruct (registerAll 0 ds (∅, ∅, ∅)) as [m|] eqn:E; [|done]. intros [= <-].
  assert (Hgen : ∀ index ds m0 m, maps_wf m0 → registerAll index ds m0 = Ok m → maps_wf m).
  { clear. intros index ds. revert index. induction ds as [|d ds IH]; intros index m0 m Hm; simpl.
    - by intros [= <-].
    - destruct (registerDefinition d m0) as [m1|] eqn:E; [|done]. apply IH. by eapply registerDefinition_wf. }
  eapply Hgen in E; [apply E|]. split; [split|]; simpl; intros *; by rewrite lookup_empty.
Qed.

(** ** Compiled chains *)

Lemma compileEntries_spec definitions effective names entries :
  compileEntries definitions effective names = Ok entries →
  ce_name <$> entries = names ∧
  Forall (fun e => definitions !! ce_name e = Some (ce_definition e) ∧ 0 ≤ cpl_scratchSlots (ce_plugin e) ∧
    ∃ compile raw, def_compile (ce_definition e) = Some compile ∧ compile raw = Ok (ce_plugin e)) entries.
Proof.
  revert entries. induction names as [|n names IH]; intros entries; simpl; [by intros [= <-]|].
  destruct (definitions !! n) as [d|] eqn:Hd; [|done]. destruct (def_compile d) as [compile|] eqn:Hf; [|done].
  destruct (compile _) as [p|] eqn:Hp; [|done]. destruct (cpl_scratchSlots p <? 0) eqn:Es; bool_hyps; [done|].
  destruct (compileEntries _ _ names) as [rest|]; [|done]. intros [= <-].
  destruct (IH _ eq_refl) as [<- Hall]. split; [done|]. constructor; [|done]. simpl. split_and!; [done|lia|].
  by eexists _, _.
Qed.

Lemma ordered_before_asym o n o' n' : ordered_before o n o' n' = true → ordered_before o' n' o n = false.
Proof.
  unfold ordered_before. destruct (Z.eqb_spec o o') as [->|Hne]; simpl.
  - rewrite Z.eqb_refl. simpl. apply string_ltb_asym.
  - destruct (Z.eqb_spec o' o) as [->|_]; [done|]. simpl. lia.
Qed.

Lemma ordered_before_false_trans o n o' n' o'' n'' : ordered_before o' n' o n = false →
  ordered_before o'' n'' o' n' = false → ordered_before o'' n'' o n = false.
Proof.
  unfold ordered_before.
  destruct (Z.eqb_spec o' o), (Z.eqb_spec o'' o'), (Z.eqb_spec o'' o); simpl; try lia.
  intros Hn Hn'. by eapply string_ltb_false_trans.
Qed.

Lemma ordered_before_le o n o' n' : ordered_before o' n' o n = false → o ≤ o'.
Proof. unfold ordered_before. destruct (Z.eqb_spec o' o); simpl; lia. Qed.

Lemma StronglySorted_orders {A} (order : A → Z) (name : A → string) l :
  NoDup (order <$> l) →
  StronglySorted (not_after (fun a b => ordered_before (order a) (name a) (order b) (name b))) l →
  StronglySorted Z.lt (order <$> l).
Proof.
  intros Hnd Hs. induction Hs as [|a l Hs IH Ha]; simpl in *; [constructor|].
  apply NoDup_cons in Hnd as [Hni Hnd]. constructor; [by apply IH|].
  apply Forall_forall. intros o (b & -> & Hb)%list_elem_of_fmap. rewrite Forall_forall in Ha.
  pose proof (ordered_before_le _ _ _ _ (Ha _ Hb)).
  assert (order a ≠ order b); [|lia]. intros Heq. apply Hni. rewrite Heq. by apply list_elem_of_fmap_2.
Qed.

Lemma NoDup_omap_inj {A B} (f : A → option B) (g : B → Z) (h : A → Z) l :
  (∀ a b, f a = Some b → g b = h a) → NoDup (h <$> l) → NoDup (g <$> omap f l).
Proof.
  intros Hf. induction l as [|a l IH]; simpl; [done|]. intros [Hni Hnd]%NoDup_cons.
  destruct (f a) as [b|] eqn:Hb; [|by apply IH]. simpl. constructor; [|by apply IH].
  rewrite (Hf _ _ Hb). intros (b' & Heq & (a' & Ha' & Hb')%list_elem_of_omap)%list_elem_of_fmap.
  apply Hni. rewrite Heq, (Hf _ _ Hb'). by apply list_elem_of_fmap_2.
Qed.

Lemma entries_orders (definitions : gmap string PluginDefinition) entries (order : PluginDefinition → Z) : NoDup (ce_name <$> entries) →
  Forall (fun e => definitions !! ce_name e = Some (ce_definition e)) entries →
  (∀ n n' d d', definitions !! n = Some d → definitions !! n' = Some d' → order d = order d' → n = n') →
  NoDup ((fun e => order (ce_definition e)) <$> entries).
Proof.
  intros Hnd Hall Hinj. induction entries as [|e entries IH]; simpl in *; [constructor|].
  apply NoDup_cons in Hnd as [Hni Hnd]. apply Forall_cons in Hall as [He Hall]. constructor; [|by apply IH].
  intros (e' & Heq & Hin)%list_elem_of_fmap. apply Hni. rewrite Forall_forall in Hall.
  rewrite (Hinj _ _ _ _ He (Hall _ Hin) Heq). by apply list_elem_of_fmap_2.
Qed.

(** The request and response hooks of a chain run in increasing order. *)
Lemma buildChain_orders definitions entries : registry_wf definitions → NoDup (ce_name <$> entries) →
  Forall (fun e => definitions !! ce_name e = Some (ce_definition e)) entries →
  StronglySorted Z.lt (qe_order <$> ch_request (buildChain entries)) ∧
  StronglySorted Z.lt (se_order <$> ch_response (buildChain entries)).
Proof.
  intros [_ Hreq Hresp] Hnd Hall. unfold buildChain. cbn [ch_request ch_response].
  set (sorted := sort_slice entry_before entries).
  assert (Hperm : sorted ≡ₚ entries) by apply sort_slice_perm.
  assert (Hall' : Forall (fun e => definitions !! ce_name e = Some (ce_definition e)) sorted) by (by rewrite Hperm).
  assert (Hnd' : NoDup (ce_name <$> sorted)) by (by rewrite Hperm). split.
  - assert (Hs : StronglySorted Z.lt ((fun e => def_requestOrder (ce_definition e)) <$> sorted)).
    { apply (StronglySorted_orders _ ce_name); [by eapply entries_orders|]. apply sort_slice_sorted.
      - intros x y. apply ordered_before_asym.
      - intros x y z Hxy Hyz. by eapply ordered_before_false_trans. }
    clear -Hs. induction sorted as [|e l IH]; simpl in *; [constructor|].
    apply StronglySorted_inv in Hs as [Hs He]. unfold requestEntryOf at 1.
    destruct (cpl_request (ce_plugin e)) as [hook|]; simpl; [|by apply IH]. constructor; [by apply IH|].
    apply Forall_forall. intros o (q & -> & (e' & Hin & Hq)%list_elem_of_omap)%list_elem_of_fmap.
    unfold requestEntryOf in Hq. apply fmap_Some in Hq as (h & _ & ->). simpl.
    rewrite Forall_forall in He. apply He.
    by apply (list_elem_of_fmap_2 (fun e => def_requestOrder (ce_definition e))).
  - apply (StronglySorted_orders _ se_name).
    + rewrite sort_slice_perm.
      apply (NoDup_omap_inj _ _ (fun e => def_responseOrder (ce_definition e))); [|by eapply entries_orders].
      intros e b Hb. unfold responseEntryOf in Hb. by apply fmap_Some in Hb as (h & _ & ->).
    + apply sort_slice_sorted.
      * intros x y. apply ordered_before_asym.
      * intros x y z Hxy Hyz. by eapply ordered_before_false_trans.
Qed.

Lemma buildChain_names entries : ch_names (buildChain entries) ≡ₚ ce_name <$> entries.
Proof. simpl. by rewrite sort_slice_perm. Qed.

Lemma buildChain_scratch entries : Forall (fun e => 0 ≤ cpl_scratchSlots (ce_plugin e)) entries →
  0 ≤ ch_scratchSlots (buildChain entries).
Proof.
  intros Hall. simpl. assert (Hall' : Forall (fun e => 0 ≤ cpl_scratchSlots (ce_plugin e)) (sort_slice entry_before entries))
    by (by rewrite sort_slice_perm).
  clear Hall. assert (Hgen : ∀ n, 0 ≤ n →
    0 ≤ foldl (fun slots e => slots + cpl_scratchSlots (ce_plugin e)) n (sort_slice entry_before entries)); [|by apply Hgen].
  induction Hall' as [|e l He Hl IH]; intros n Hn; simpl; [done|]. apply IH. lia.
Qed.

(** A map iteration meets every key once. *)
Definition iterates (iterate : gmap string PluginAttachment → list string) : Prop :=
  ∀ m, iterate m ≡ₚ elements (dom m).

Lemma sorted_names iterate m : iterates iterate → sortStrings (iterate m) = sort_strings (elements (dom m)).
Proof.
  intros Hit. rewrite sortStrings_sorts. apply (StronglySorted_unique String.le); try apply sort_strings_sorted.
  unfold sort_strings. rewrite !sort_slice_perm. apply Hit.
Qed.

Lemma CompileChain_ok iterate definitions service route chain : iterates iterate →
  CompileChain iterate definitions service route = Ok chain ↔
  (Forall (fun a => trim_space (pa_name a) ≠ "") service ∧ NoDup (pa_name <$> service)) ∧
  (Forall (fun a => trim_space (pa_name a) ≠ "") route ∧ NoDup (pa_name <$> route)) ∧
  ∃ entries, compileEntries definitions (effectiveAttachments service route)
               (sort_strings (elements (dom (effectiveAttachments service route)))) = Ok entries ∧
    chain = buildChain entries.
Proof.
  intros Hit. unfold CompileChain, compileEffective. rewrite (sorted_names _ _ Hit).
  rewrite <-!(validateAttachmentScope_spec "service" service), <-!(validateAttachmentScope_spec "route" route).
  destruct (validateAttachmentScope "service" service) as [[]|]; [|by split; [|intros [? _]]].
  destruct (validateAttachmentScope "route" route) as [[]|]; [|by split; [|intros (_ & ? & _)]]. cbn [mbind result_bind].
  destruct (compileEntries _ _ _) as [entries|]; simpl; split.
  - intros [= <-]. split_and!; [done..|]. by exists entries.
  - by intros (_ & _ & ? & [= <-] & ->).
  - done.
  - by intros (_ & _ & ? & [=] & _).
Qed.

Lemma effective_perm service service' route route' :
  NoDup (pa_name <$> service) → NoDup (pa_name <$> route) → service ≡ₚ service' → route ≡ₚ route' →
  effectiveAttachments service' route' = effectiveAttachments service route.
Proof.
  intros Hs Hr Hps Hpr. apply map_eq. intros n. apply option_eq. intros a.
  rewrite !effective_lookup by (by rewrite <-?Hps, <-?Hpr). unfold in_effect. by rewrite Hps, Hpr.
Qed.

(** Where the response hooks of a chain come from. *)
Lemma CompileChain_response iterate definitions service route chain e : iterates iterate →
  CompileChain iterate definitions service route = Ok chain → e ∈ ch_response chain →
  ∃ d compile raw p hook, definitions !! se_name e = Some d ∧ def_compile d = Some compile ∧
    compile raw = Ok p ∧ cpl_response p = Some hook ∧ e = mkResponseEntry (se_name e) (def_responseOrder d) hook.
Proof.
  intros Hit (_ & _ & entries & Hentries & ->)%CompileChain_ok He; [|done].
  destruct (compileEntries_spec _ _ _ _ Hentries) as [_ Hall]. simpl in He.
  rewrite elem_of_sort_slice in He. apply list_elem_of_omap in He as (c & Hc & Hr).
  rewrite elem_of_sort_slice in Hc. rewrite Forall_forall in Hall.
  destruct (Hall _ Hc) as (Hd & _ & compile & raw & Hcomp & Hp).
  unfold responseEntryOf in Hr. apply fmap_Some in Hr as (hook & Hhook & ->). simpl. by eauto 10.
Qed.

(** A plugin of the chain contributes its response hook. *)
Lemma CompileChain_response_of iterate definitions service route chain n : iterates iterate →
  CompileChain iterate definitions service route = Ok chain → n ∈ ch_names chain →
  ∃ d compile raw p, definitions !! n = Some d ∧ def_compile d = Some compile ∧ compile raw = Ok p ∧
    ∀ hook, cpl_response p = Some hook → mkResponseEntry n (def_responseOrder d) hook ∈ ch_response chain.
Proof.
  intros Hit (_ & _ & entries & Hentries & ->)%CompileChain_ok Hn; [|done].
  destruct (compileEntries_spec _ _ _ _ Hentries) as [_ Hall]. rewrite buildChain_names in Hn.
  apply list_elem_of_fmap in Hn as (c & -> & Hc). rewrite Forall_forall in Hall.
  destruct (Hall _ Hc) as (Hd & _ & compile & raw & Hcomp & Hp).
  exists (ce_definition c), compile, raw, (ce_plugin c). split_and!; [done..|]. intros hook Hhook. simpl.
  rewrite elem_of_sort_slice. apply list_elem_of_omap. exists c. rewrite elem_of_sort_slice. split; [done|].
  unfold responseEntryOf. by rewrite Hhook.
Qed.

Lemma CompileChain_response_sorted ds definitions iterate service route chain : iterates iterate →
  NewPluginRegistry ds = Ok definitions → CompileChain iterate definitions service route = Ok chain →
  StronglySorted Z.lt (se_order <$> ch_response chain).
Proof.
  intros Hit Hreg%NewPluginRegistry_wf Hc.
  apply (CompileChain_ok _ _ _ _ _ Hit) in Hc as (_ & _ & entries & Hentries & ->).
  destruct (compileEntries_spec _ _ _ _ Hentries) as [Hnames Hall].
  apply (buildChain_orders definitions); [done|rewrite Hnames; apply NoDup_sort_strings, NoDup_elements|].
  eapply Forall_impl; [exact Hall|]. by intros e (? & _).
Qed.


(** ** Running a chain *)

(** Every hook of the list continued, taking [q] to [q']. *)
Inductive passes : list requestEntry → Q → Q → Prop :=
| passes_nil q : passes [] q q
| passes_cons e l q r q1 q' : qe_hook e q = (r, q1) → rr_err r = None → rr_action r = Continue →
    passes l q1 q' → passes (e :: l) q q'.

(** The hook that stopped the request, after the ones before it continued. *)
Definition stopped_at (l : list requestEntry) (q : Q) (e : requestEntry) (r : RequestResult) (q' : Q) : Prop :=
  ∃ before after q1, l = before ++ e :: after ∧ passes before q q1 ∧ qe_hook e q1 = (r, q').

Lemma stopped_at_cons e l q r q1 e' r' q' : qe_hook e q = (r, q1) → rr_err r = None →
  rr_action r = Continue → stopped_at l q1 e' r' q' → stopped_at (e :: l) q e' r' q'.
Proof.
  intros He Herr Hact (before & after & q2 & -> & Hp & Hh). exists (e :: before), after, q2.
  split_and!; [done| |done]. by eapply passes_cons.
Qed.

(** The request phase runs the hooks of the chain in order, each on what
    the previous ones left, up to the first that fails or short-circuits, and
    no hook after it; a short-circuit response it hands on has a status between
    100 and 599 and a body of at most 64 KiB. *)
Theorem RunRequest_phase chain q :
  match RunRequest (Some chain) q with
  | (Ok None, q') => passes (ch_request chain) q q'
  | (Ok (Some response), q') => ∃ e r, stopped_at (ch_request chain) q e r q' ∧ rr_err r = None ∧
      rr_action r = ShortCircuit ∧ rr_response r = Some response ∧ 100 ≤ sc_status response ≤ 599 ∧
      Z.of_nat (String.length (sc_body response)) ≤ 65536
  | (Err _, q') => ∃ e r, stopped_at (ch_request chain) q e r q' ∧
      (rr_err r ≠ None ∨ rr_action r ≠ Continue)
  end.
Proof.
  unfold RunRequest. revert q. induction (ch_request chain) as [|e l IH]; intros q; simpl; [constructor|].
  destruct (qe_hook e q) as [r q1] eqn:He.
  assert (Hhere : stopped_at (e :: l) q e r q1) by (exists [], l, q; split_and!; [done|constructor|done]).
  destruct (rr_err r) as [cause|] eqn:Herr.
  { exists e, r. split; [done|]. left. congruence. }
  destruct (rr_action r) eqn:Hact; [| |exists e, r; split; [done|]; right; congruence].
  - specialize (IH q1). destruct (runRequestHooks l q1) as [[[response|]|err] q'].
    + destruct IH as (e' & r' & Hs & Hrest). exists e', r'. split; [|done]. by eapply stopped_at_cons.
    + by eapply passes_cons.
    + destruct IH as (e' & r' & Hs & Hrest). exists e', r'. split; [|done]. by eapply stopped_at_cons.
  - unfold cloneAndValidateShortCircuit. destruct (rr_response r) as [response|] eqn:Hresp; simpl.
    2: { exists e, r. split; [done|]. right. congruence. }
    destruct ((sc_status response <? 100) || (599 <? sc_status response)) eqn:Es; simpl.
    { exists e, r. split; [done|]. right. congruence. }
    destruct (maxShortCircuitBodyBytes <? Z.of_nat (String.length (sc_body response))) eqn:Eb; simpl; bool_hyps.
    { exists e, r. split; [done|]. right. congruence. }
    unfold maxShortCircuitBodyBytes in *. exists e, r. by split_and!; try lia.
Qed.
End Plugins.
