(* ===== verification/BuiltinPlugins.v ===== *)
(** * The built-in plugins ([internal/plugin/header_rewrite.go], [request_id.go])

    The header-rewrite plugin compiles static remove, set and add operations;
    the request-id plugin keeps a valid inbound identifier or generates a
    version 4 UUID.  Their configurations are taken after JSON decoding. *)

From S2P Require Import Prelude GoStrings NetAddr HttpHeader Plugins.
#[local] Open Scope string_scope.
#[local] Open Scope Z_scope.
#[local] Open Scope list_scope.

(** ** Header names *)

Definition separators : string := "()<>@,;:\/[]?={} " +:+ String (ascii_of_nat 34) (String (ascii_of_nat 9) "").

Definition headerTokenByte (c : ascii) : bool :=
  is_ascii_byte c && (32 <=? byte_val c)%N && negb (byte_val c =? 127)%N && negb (contains_byte c separators).

(** A rune outside ASCII is invalid, and so is every byte that encodes one. *)
Definition validHeaderToken (value : string) : bool :=
  if String.eqb value "" || has_prefix value ":" then false else string_forallb headerTokenByte value.

Definition reservedMutableHeaders : list string :=
  ["connection"; "content-length"; "host"; "keep-alive"; "proxy-authenticate"; "proxy-authorization";
   "proxy-connection"; "te"; "trailer"; "transfer-encoding"; "upgrade"].

Section Rewrite.
Context `{Unicode}.

Definition validateMutableHeaderName (raw : string) : option string :=
  let name := canonical_header_key raw in
  if String.eqb name "" || negb (validHeaderToken raw) then None
  else if bool_decide (to_lower name ∈ reservedMutableHeaders) then None
  else Some name.

(** ** Header rewriting *)

(** A decoded direction; [rd_set] and [rd_add] list the entries of the maps in
    the order the loops meet them. *)
Record rewriteDirection := mkDirection {
  rd_remove : list string;
  rd_set : list (string * list string);
  rd_add : list (string * list string);
}.

Record headerOperation := mkOperation { ho_name : string; ho_values : list string }.

Record compiledDirection := mkCompiledDirection {
  cd_remove : list string;
  cd_set : list headerOperation;
  cd_add : list headerOperation;
}.

Definition staticValueByte (c : ascii) : bool :=
  negb ((byte_val c =? 13)%N || (byte_val c =? 10)%N || (byte_val c =? 127)%N
        || ((byte_val c <? 32)%N && negb (byte_val c =? 9)%N)).

Definition validStaticHeaderValue (value : string) : bool := string_forallb staticValueByte value.

Fixpoint compileRemovals (raw : list string) (seen : gset string) : option (list string * gset string) :=
  match raw with
  | [] => Some ([], seen)
  | rawName :: raw =>
      name ← validateMutableHeaderName rawName;
      if bool_decide (name ∈ seen) then None
      else
        '(names, seen) ← compileRemovals raw ({[name]} ∪ seen);
        Some (name :: names, seen)
  end.

Fixpoint compileHeaderOperations (raw : list (string * list string)) (seen : gset string)
    : option (list headerOperation * gset string) :=
  match raw with
  | [] => Some ([], seen)
  | (rawName, rawValues) :: raw =>
      name ← validateMutableHeaderName rawName;
      if bool_decide (name ∈ seen) then None
      else if Nat.eqb (length rawValues) 0 then None
      else if negb (forallb validStaticHeaderValue rawValues) then None
      else
        '(operations, seen) ← compileHeaderOperations raw ({[name]} ∪ seen);
        Some (mkOperation name rawValues :: operations, seen)
  end.

Definition operation_before (a b : headerOperation) : bool := String.ltb (ho_name a) (ho_name b).

Definition compileRewriteDirection (d : rewriteDirection) : option compiledDirection :=
  '(remove, seen) ← compileRemovals (rd_remove d) ∅;
  '(sets, seen) ← compileHeaderOperations (rd_set d) seen;
  '(adds, seen) ← compileHeaderOperations (rd_add d) seen;
  Some (mkCompiledDirection (sort_strings remove) (sort_slice operation_before sets)
          (sort_slice operation_before adds)).

Definition setOperation (h : Header) (o : headerOperation) : Header := <[ho_name o := ho_values o]> h.

Definition addOperation (h : Header) (o : headerOperation) : Header :=
  foldl (fun h value => header_Add h (ho_name o) value) h (ho_values o).

Definition applyCompiledDirection (h : Header) (d : compiledDirection) : Header :=
  foldl addOperation (foldl setOperation (foldl header_Del h (cd_remove d)) (cd_set d)) (cd_add d).
(** ** What a compiled direction does *)

Definition names_of (raw : list (string * list string)) : list string := canonical_header_key <$> raw.*1.

Definition operation_of (p : string * list string) : headerOperation :=
  mkOperation (canonical_header_key p.1) p.2.

(** A name that may be rewritten. *)
Definition mutable (raw : string) : Prop := validateMutableHeaderName raw = Some (canonical_header_key raw).

Definition entry_ok (p : string * list string) : Prop :=
  mutable p.1 ∧ p.2 ≠ [] ∧ forallb validStaticHeaderValue p.2 = true.

Lemma mutable_spec raw name : validateMutableHeaderName raw = Some name ↔
  mutable raw ∧ name = canonical_header_key raw.
Proof.
  unfold mutable, validateMutableHeaderName. destruct (_ || _); [by split; [|intros [? _]]|].
  case_bool_decide; [by split; [|intros [? _]]|]. split; [by intros [= <-]|by intros [_ ->]].
Qed.

Lemma mutable_not_reserved raw : mutable raw → ¬ (to_lower (canonical_header_key raw) ∈ reservedMutableHeaders).
Proof. unfold mutable, validateMutableHeaderName. destruct (_ || _); [done|]. by case_bool_decide. Qed.

(** [fresh names seen]: distinct names none of which was seen. *)
Definition fresh (names : list string) (seen : gset string) : Prop :=
  NoDup names ∧ ∀ n, n ∈ names → ¬ (n ∈ seen).

Lemma fresh_cons n names seen : fresh (n :: names) seen ↔ ¬ (n ∈ seen) ∧ fresh names ({[n]} ∪ seen).
Proof.
  unfold fresh. rewrite NoDup_cons. split.
  - intros [[Hni Hnd] Hseen]. split_and!; [apply Hseen; by left|done|].
    intros m Hm [->%elem_of_singleton|Hs]%elem_of_union; [done|]. by apply (Hseen m); [right|].
  - intros (Hn & Hnd & Hseen). split_and!; [|done|].
    + intros Hin. apply (Hseen _ Hin). apply elem_of_union. left. by apply elem_of_singleton.
    + intros m [->|Hm]%elem_of_cons; [done|]. intros Hs. apply (Hseen _ Hm). apply elem_of_union. by right.
Qed.

Lemma compileRemovals_spec raw seen names seen' : compileRemovals raw seen = Some (names, seen') ↔
  names = canonical_header_key <$> raw ∧ Forall mutable raw ∧ fresh names seen ∧
  seen' = list_to_set names ∪ seen.
Proof.
  revert seen names seen'. induction raw as [|r raw IH]; intros seen names seen'; simpl.
  { split; [intros [= <- <-]|intros (-> & _ & _ & ->)].
    - split_and!; [done|done| |set_solver]. split; [constructor|]. by intros n Hn%elem_of_nil.
    - do 2 f_equal. set_solver. }
  rewrite Forall_cons. destruct (validateMutableHeaderName r) as [name|] eqn:E; simpl.
  - apply mutable_spec in E as [Hm ->]. case_bool_decide as Hseen.
    { split; [done|]. intros (-> & _ & Hf & _). by apply fresh_cons in Hf as [? _]. }
    destruct (compileRemovals raw _) as [[names1 seen1]|] eqn:Er; simpl.
    + apply IH in Er as (-> & Hall & Hf & ->). split.
      * intros [= <- <-]. split_and!; [done|done|done|by apply fresh_cons|]. set_solver.
      * intros (-> & _ & _ & ->). do 2 f_equal. set_solver.
    + split; [done|]. intros (-> & [_ Hall] & [Hn Hf]%fresh_cons & _).
      assert (compileRemovals raw ({[canonical_header_key r]} ∪ seen) ≠ None) as []; [|done].
      rewrite (proj2 (IH _ _ _)) by (by split_and!). done.
  - split; [done|]. intros (_ & [Hm _] & _). unfold mutable in Hm. congruence.
Qed.

Lemma compileHeaderOperations_spec raw seen ops seen' : compileHeaderOperations raw seen = Some (ops, seen') ↔
  ops = operation_of <$> raw ∧ Forall entry_ok raw ∧ fresh (names_of raw) seen ∧
  seen' = list_to_set (names_of raw) ∪ seen.
Proof.
  revert seen ops seen'. induction raw as [|[r vs] raw IH]; intros seen ops seen'; simpl.
  { split; [intros [= <- <-]|intros (-> & _ & _ & ->)].
    - split_and!; [done|done| |set_solver]. split; [constructor|]. by intros n Hn%elem_of_nil.
    - do 2 f_equal. set_solver. }
  rewrite Forall_cons. unfold names_of in *. simpl. rewrite fresh_cons.
  destruct (validateMutableHeaderName r) as [name|] eqn:E; simpl.
  2: { split; [done|]. intros (_ & [[Hm _] _] & _). unfold mutable in Hm. simpl in Hm. congruence. }
  apply mutable_spec in E as [Hm ->]. case_bool_decide as Hseen.
  { split; [done|]. by intros (_ & _ & [? _] & _). }
  destruct (Nat.eqb_spec (length vs) 0) as [Hz|Hz].
  { split; [done|]. intros (_ & [(_ & Hne & _) _] & _). by apply nil_length_inv in Hz. }
  assert (vs ≠ []) by (by destruct vs).
  destruct (forallb validStaticHeaderValue vs) eqn:Ev; simpl.
  2: { split; [done|]. intros (_ & [(_ & _ & Hv) _] & _). simpl in Hv. congruence. }
  destruct (compileHeaderOperations raw _) as [[ops1 seen1]|] eqn:Er; simpl.
  - apply IH in Er as (-> & Hall & Hf & ->). split.
    + intros [= <- <-]. split_and!; try done. set_solver.
    + intros (-> & _ & _ & ->). do 2 f_equal. set_solver.
  - split; [done|]. intros (-> & [_ Hall] & [_ Hf] & _).
    assert (compileHeaderOperations raw ({[canonical_header_key r]} ∪ seen) ≠ None) as []; [|done].
    rewrite (proj2 (IH _ _ _)) by (by split_and!). done.
Qed.
Lemma set_operations_lookup (h : Header) ops k : NoDup (ho_name <$> ops) →
  (∀ o, o ∈ ops → foldl setOperation h ops !! ho_name o = Some (ho_values o)) ∧
  (¬ (k ∈ ho_name <$> ops) → foldl setOperation h ops !! k = h !! k).
Proof.
  revert h. induction ops as [|o ops IH]; intros h; simpl.
  { intros _. split; [|done]. by intros o Ho%elem_of_nil. }
  intros [Hni Hnd]%NoDup_cons. split.
  - intros o' [->|Ho']%elem_of_cons; [|by apply IH].
    assert (Hk : ∀ h, foldl setOperation h ops !! ho_name o = h !! ho_name o).
    { clear -Hni. revert Hni. induction ops as [|p ops IH]; intros Hni h; simpl; [done|].
      simpl in Hni. apply not_elem_of_cons in Hni as [Hne Hni]. rewrite IH by done. by apply lookup_insert_ne. }
    rewrite Hk. apply lookup_insert_eq.
  - intros Hk. apply not_elem_of_cons in Hk as [Hne Hk]. destruct (IH (setOperation h o)) as [_ IHk]; [done|].
    rewrite IHk by done. by apply lookup_insert_ne.
Qed.

Lemma addOperation_lookup (h : Header) o k : canonical_header_key (ho_name o) = ho_name o → ho_values o ≠ [] →
  addOperation h o !! k =
    if decide (k = ho_name o) then Some (default [] (h !! k) ++ ho_values o) else h !! k.
Proof.
  intros Hc. unfold addOperation. destruct (ho_values o) as [|v vs]; [done|]. intros _. simpl.
  assert (Hgen : ∀ (h : Header) l, h !! ho_name o = Some l →
    ∀ k, foldl (fun h value => header_Add h (ho_name o) value) h vs !! k =
      if decide (k = ho_name o) then Some (l ++ vs) else h !! k).
  { induction vs as [|w vs IH]; intros h' l Hl k'; simpl.
    - rewrite app_nil_r. by case_decide as E; [rewrite E|].
    - rewrite (IH _ (l ++ [w])).
      + case_decide; [by rewrite <-app_assoc|]. unfold header_Add. rewrite Hc. by rewrite lookup_insert_ne by done.
      + unfold header_Add, header_Values. rewrite Hc, Hl, lookup_insert_eq. done. }
  rewrite (Hgen _ (default [] (h !! ho_name o) ++ [v])).
  - case_decide as E; [by rewrite E, <-app_assoc|]. unfold header_Add. rewrite Hc. by rewrite lookup_insert_ne by done.
  - unfold header_Add, header_Values. by rewrite Hc, lookup_insert_eq.
Qed.

Lemma add_operations_lookup (h : Header) ops k : NoDup (ho_name <$> ops) →
  Forall (fun o => canonical_header_key (ho_name o) = ho_name o ∧ ho_values o ≠ []) ops →
  (∀ o, o ∈ ops → foldl addOperation h ops !! ho_name o = Some (default [] (h !! ho_name o) ++ ho_values o)) ∧
  (¬ (k ∈ ho_name <$> ops) → foldl addOperation h ops !! k = h !! k).
Proof.
  intros Hnd Hall. revert h k Hnd. induction Hall as [|o ops [Hc Hne] Hall IH]; intros h k; simpl.
  { intros _. split; [|done]. by intros o Ho%elem_of_nil. }
  intros [Hni Hnd]%NoDup_cons. split.
  - intros o' [->|Ho']%elem_of_cons.
    + destruct (IH (addOperation h o) (ho_name o) Hnd) as [_ IHk]. rewrite IHk by done.
      by rewrite addOperation_lookup, decide_True.
    + destruct (IH (addOperation h o) k Hnd) as [IHo _]. rewrite IHo by done.
      rewrite addOperation_lookup, decide_False; [done| |done|done].
      intros E. apply Hni. rewrite <-E. by apply list_elem_of_fmap_2.
  - intros [Hk Hk']%not_elem_of_cons. destruct (IH (addOperation h o) k Hnd) as [_ IHk].
    rewrite IHk by done. by rewrite addOperation_lookup, decide_False.
Qed.

(** What compilation accepts. *)
Record direction_ok (d : rewriteDirection) : Prop := {
  do_remove : Forall mutable (rd_remove d);
  do_set : Forall entry_ok (rd_set d);
  do_add : Forall entry_ok (rd_add d);
  do_distinct : NoDup ((canonical_header_key <$> rd_remove d) ++ names_of (rd_set d) ++ names_of (rd_add d));
}.

Lemma fresh_app names names' seen : fresh names seen → fresh names' (list_to_set names ∪ seen) →
  fresh (names ++ names') seen.
Proof.
  intros [Hnd Hs] [Hnd' Hs']. split.
  - apply NoDup_app. split_and!; [done| |done]. intros n Hn Hn'. apply (Hs' _ Hn'). apply elem_of_union. left.
    by apply elem_of_list_to_set.
  - intros n [Hn|Hn]%elem_of_app; [by apply Hs|]. intros Hin. apply (Hs' _ Hn). apply elem_of_union. by right.
Qed.

Lemma fresh_app_inv names names' seen : fresh (names ++ names') seen →
  fresh names seen ∧ fresh names' (list_to_set names ∪ seen).
Proof.
  intros [(Hnd & Hd & Hnd')%NoDup_app Hs]. split; split; [done| |done|].
  - intros n Hn. apply Hs, elem_of_app. by left.
  - intros n Hn [Hin%elem_of_list_to_set|Hin]%elem_of_union; [by apply (Hd n)|].
    apply (Hs n); [apply elem_of_app; by right|done].
Qed.

Lemma compileRewriteDirection_spec d c : compileRewriteDirection d = Some c ↔ direction_ok d ∧
  c = mkCompiledDirection (sort_strings (canonical_header_key <$> rd_remove d))
        (sort_slice operation_before (operation_of <$> rd_set d))
        (sort_slice operation_before (operation_of <$> rd_add d)).
Proof.
  unfold compileRewriteDirection. split.
  - destruct (compileRemovals (rd_remove d) ∅) as [[rs s1]|] eqn:E1; [|done]. simpl.
    destruct (compileHeaderOperations (rd_set d) s1) as [[ss s2]|] eqn:E2; [|done]. simpl.
    destruct (compileHeaderOperations (rd_add d) s2) as [[aa s3]|] eqn:E3; [|done]. simpl. intros [= <-].
    apply compileRemovals_spec in E1 as (-> & R1 & F1 & ->).
    apply compileHeaderOperations_spec in E2 as (-> & R2 & F2 & ->).
    apply compileHeaderOperations_spec in E3 as (-> & R3 & F3 & ->).
    split; [|done]. split; [done..|]. apply (fresh_app _ _ ∅ F1). by apply fresh_app.
  - intros [[R1 R2 R3 Hnd] ->].
    assert (Hf : fresh ((canonical_header_key <$> rd_remove d) ++ names_of (rd_set d) ++ names_of (rd_add d)) ∅)
      by (split; [done|]; intros; apply not_elem_of_empty).
    apply fresh_app_inv in Hf as [F1 [F2 F3]%fresh_app_inv].
    rewrite (proj2 (compileRemovals_spec _ _ _ _)) by (by split_and!). simpl.
    rewrite (proj2 (compileHeaderOperations_spec _ _ _ _)) by (by split_and!). simpl.
    by rewrite (proj2 (compileHeaderOperations_spec _ _ _ _)) by (by split_and!).
Qed.

Lemma sorted_operations_names raw :
  ho_name <$> sort_slice operation_before (operation_of <$> raw) ≡ₚ names_of raw.
Proof. rewrite sort_slice_perm. unfold names_of. by rewrite <-!list_fmap_compose. Qed.

Lemma operations_sorted ops : StronglySorted (not_after operation_before) (sort_slice operation_before ops).
Proof.
  apply sort_slice_sorted; unfold operation_before.
  - intros x y. apply string_ltb_asym.
  - intros x y z Hxy Hyz. by eapply string_ltb_false_trans.
Qed.

Lemma sorted_operations_unique raw raw' : NoDup (names_of raw) → raw ≡ₚ raw' →
  sort_slice operation_before (operation_of <$> raw') = sort_slice operation_before (operation_of <$> raw).
Proof.
  intros Hnd Hp. apply (StronglySorted_unique_strong (not_after operation_before)).
  - intros x y Hx Hy. unfold not_after, operation_before. intros H1 H2.
    assert (Hn : ho_name x = ho_name y) by (by apply string_ltb_total).
    assert (Hnd' : NoDup (ho_name <$> (operation_of <$> raw))) by (by unfold names_of in Hnd; rewrite <-!list_fmap_compose in *).
    assert (Hx' : x ∈ operation_of <$> raw) by (rewrite elem_of_sort_slice in Hx; by rewrite Hp).
    assert (Hy' : y ∈ operation_of <$> raw) by (by rewrite elem_of_sort_slice in Hy).
    clear -Hn Hnd' Hx' Hy'. revert Hnd' Hx' Hy'. generalize (operation_of <$> raw) as l.
    induction l as [|o l IH]; simpl; intros Hnd' Hx' Hy'; [by apply elem_of_nil in Hx'|].
    apply NoDup_cons in Hnd' as [Hni Hnd']. apply elem_of_cons in Hx' as [->|Hx']; apply elem_of_cons in Hy' as [->|Hy'];
      [done| | |by apply IH]; destruct Hni; [rewrite Hn|rewrite <-Hn]; by apply list_elem_of_fmap_2.
  - apply operations_sorted.
  - apply operations_sorted.
  - by rewrite !sort_slice_perm, Hp.
Qed.
(** The compiled form of an accepted direction. *)
Definition compiled_of (d : rewriteDirection) : compiledDirection :=
  mkCompiledDirection (sort_strings (canonical_header_key <$> rd_remove d))
    (sort_slice operation_before (operation_of <$> rd_set d))
    (sort_slice operation_before (operation_of <$> rd_add d)).

Lemma remove_phase d (h : Header) k : foldl header_Del h (cd_remove (compiled_of d)) !! k =
  if decide (k ∈ canonical_header_key <$> rd_remove d) then None else h !! k.
Proof.
  rewrite header_Del_all. apply decide_ext. simpl. unfold sort_strings. rewrite sort_slice_perm.
  rewrite <-list_fmap_compose, (list_fmap_ext (canonical_header_key ∘ canonical_header_key) canonical_header_key); [done|].
  intros. apply canonical_header_key_idemp.
Qed.

Lemma set_phase d (h : Header) : direction_ok d →
  (∀ n vs, (n, vs) ∈ rd_set d →
     foldl setOperation h (cd_set (compiled_of d)) !! canonical_header_key n = Some vs) ∧
  (∀ k, ¬ (k ∈ names_of (rd_set d)) → foldl setOperation h (cd_set (compiled_of d)) !! k = h !! k).
Proof.
  intros [_ _ _ (_ & _ & (N2 & _ & _)%NoDup_app)%NoDup_app].
  assert (Hnd : NoDup (ho_name <$> cd_set (compiled_of d))) by (simpl; by rewrite sorted_operations_names).
  split.
  - intros n vs Hin. destruct (set_operations_lookup h _ "" Hnd) as [Hs _].
    apply (Hs (operation_of (n, vs))). apply elem_of_sort_slice. by apply list_elem_of_fmap_2.
  - intros k Hk. apply (set_operations_lookup h _ k Hnd). simpl. by rewrite sorted_operations_names.
Qed.

Lemma add_phase d (h : Header) : direction_ok d →
  (∀ n vs, (n, vs) ∈ rd_add d →
     foldl addOperation h (cd_add (compiled_of d)) !! canonical_header_key n = Some (header_Values h n ++ vs)) ∧
  (∀ k, ¬ (k ∈ names_of (rd_add d)) → foldl addOperation h (cd_add (compiled_of d)) !! k = h !! k).
Proof.
  intros [_ _ R3 (_ & _ & (_ & _ & N3)%NoDup_app)%NoDup_app].
  assert (Hnd : NoDup (ho_name <$> cd_add (compiled_of d))) by (simpl; by rewrite sorted_operations_names).
  assert (Hall : Forall (fun o => canonical_header_key (ho_name o) = ho_name o ∧ ho_values o ≠ []) (cd_add (compiled_of d))).
  { simpl. rewrite sort_slice_perm. apply Forall_fmap. eapply Forall_impl; [exact R3|].
    intros [n vs] (_ & Hne & _). simpl. split; [apply canonical_header_key_idemp|done]. }
  split.
  - intros n vs Hin. destruct (add_operations_lookup h _ "" Hnd Hall) as [Hs _].
    apply (Hs (operation_of (n, vs))). apply elem_of_sort_slice. by apply list_elem_of_fmap_2.
  - intros k Hk. apply (add_operations_lookup h _ k Hnd Hall). simpl. by rewrite sorted_operations_names.
Qed.

Lemma name_of_entry n vs raw : (n, vs) ∈ raw → canonical_header_key n ∈ names_of raw.
Proof. intros Hin. unfold names_of. apply list_elem_of_fmap_2. by apply (list_elem_of_fmap_2 fst _ _ Hin). Qed.

(** The fields a direction names are none of the reserved ones. *)
Lemma direction_names_mutable d k : direction_ok d →
  k ∈ (canonical_header_key <$> rd_remove d) ++ names_of (rd_set d) ++ names_of (rd_add d) →
  ¬ (to_lower k ∈ reservedMutableHeaders).
Proof.
  intros [R1 R2 R3 _]. assert (Hraw : ∀ raw, Forall entry_ok raw → k ∈ names_of raw →
    ¬ (to_lower k ∈ reservedMutableHeaders)).
  { intros raw Hall (n & -> & (p & -> & Hp)%list_elem_of_fmap)%list_elem_of_fmap.
    rewrite Forall_forall in Hall. destruct (Hall _ Hp) as [Hm _]. by apply mutable_not_reserved. }
  rewrite !elem_of_app. intros [(n & -> & Hn)%list_elem_of_fmap|[Hin|Hin]]; [|exact (Hraw _ R2 Hin)|exact (Hraw _ R3 Hin)].
  rewrite Forall_forall in R1. by apply mutable_not_reserved, R1.
Qed.

(** A compiled rewrite removes, sets and extends exactly the configured
    fields under their canonical names: a removed field is absent, a set field
    has exactly the configured values, an added field keeps its values and
    gains the configured ones, every other field (and so every reserved one) is
    untouched; and the iteration order of the configuration maps is
    irrelevant. *)
Theorem rewriteDirection_exact d c : compileRewriteDirection d = Some c →
  (∀ h n, n ∈ rd_remove d → applyCompiledDirection h c !! canonical_header_key n = None) ∧
  (∀ h n vs, (n, vs) ∈ rd_set d → applyCompiledDirection h c !! canonical_header_key n = Some vs) ∧
  (∀ h n vs, (n, vs) ∈ rd_add d →
     applyCompiledDirection h c !! canonical_header_key n = Some (header_Values h n ++ vs)) ∧
  (∀ (h : Header) k,
     ¬ (k ∈ (canonical_header_key <$> rd_remove d) ++ names_of (rd_set d) ++ names_of (rd_add d)) →
     applyCompiledDirection h c !! k = h !! k) ∧
  (∀ (h : Header) k, to_lower k ∈ reservedMutableHeaders → applyCompiledDirection h c !! k = h !! k) ∧
  (∀ sets adds, rd_set d ≡ₚ sets → rd_add d ≡ₚ adds →
     compileRewriteDirection (mkDirection (rd_remove d) sets adds) = Some c).
Proof.
  intros [Hok ->]%compileRewriteDirection_spec. fold (compiled_of d).
  pose proof (do_distinct _ Hok) as (_ & D1 & (_ & D2 & _)%NoDup_app)%NoDup_app.
  assert (Hother : ∀ (h : Header) k,
    ¬ (k ∈ (canonical_header_key <$> rd_remove d) ++ names_of (rd_set d) ++ names_of (rd_add d)) →
    applyCompiledDirection h (compiled_of d) !! k = h !! k).
  { intros h k Hk. rewrite !elem_of_app in Hk. unfold applyCompiledDirection.
    rewrite (proj2 (add_phase d _ Hok)), (proj2 (set_phase d _ Hok)), remove_phase, decide_False by tauto. done. }
  unfold applyCompiledDirection in *. split_and!; [| | |done| |].
  - intros h n Hn. assert (Hin : canonical_header_key n ∈ canonical_header_key <$> rd_remove d) by (by apply list_elem_of_fmap_2).
    pose proof (D1 _ Hin) as Hd. rewrite not_elem_of_app in Hd.
    rewrite (proj2 (add_phase d _ Hok)), (proj2 (set_phase d _ Hok)), remove_phase, decide_True by tauto. done.
  - intros h n vs Hin. pose proof (D2 _ (name_of_entry _ _ _ Hin)) as Hd.
    rewrite (proj2 (add_phase d _ Hok)) by done. by apply (proj1 (set_phase d _ Hok)).
  - intros h n vs Hin. rewrite (proj1 (add_phase d _ Hok) n vs Hin). pose proof (name_of_entry _ _ _ Hin) as Hn.
    assert (Hns : ¬ (canonical_header_key n ∈ names_of (rd_set d))) by (intros Hs; by apply (D2 _ Hs)).
    assert (Hnr : ¬ (canonical_header_key n ∈ canonical_header_key <$> rd_remove d)).
    { intros Hr. apply (D1 _ Hr). apply elem_of_app. by right. }
    unfold header_Values. by rewrite (proj2 (set_phase d _ Hok)), remove_phase, decide_False.
  - intros h k Hk. apply Hother. intros Hin. by apply (direction_names_mutable d k Hok Hin).
  - intros sets adds Hs Ha. apply compileRewriteDirection_spec. simpl. destruct Hok as [R1 R2 R3 Hnd].
    unfold names_of in *. split.
    + split; simpl; [done|by rewrite <-Hs|by rewrite <-Ha|]. unfold names_of. by rewrite <-Hs, <-Ha.
    + pose proof Hnd as (_ & _ & (N2 & _ & N3)%NoDup_app)%NoDup_app. unfold compiled_of.
      by rewrite (sorted_operations_unique _ _ N2 Hs), (sorted_operations_unique _ _ N3 Ha).
Qed.
End Rewrite.

(** ** Request identifiers *)

Definition requestIDByte (c : ascii) : bool :=
  is_lower c || is_upper c || is_digit c || contains_byte c "._:-".

Definition validInboundRequestID (value : string) (maxLength : Z) : bool :=
  if Nat.eqb (String.length value) 0 || (maxLength <? Z.of_nat (String.length value)) then false
  else string_forallb requestIDByte value.

Definition hexByte (n : Z) : string :=
  String (hex_digit_lower (Z.to_N (Z.shiftr n 4)))
    (String (hex_digit_lower (Z.to_N (Z.land n 15))) EmptyString).

Definition hexEncode (l : list Z) : string := foldr (fun n s => hexByte n +:+ s) "" l.

(** [source] are the sixteen bytes read; [None] is a failed read. *)
Definition generateUUIDv4 (random : option (list Z)) : option string :=
  source ← random;
  let source := <[6%nat := Z.lor (Z.land (nth 6 source 0) 15) 64]> source in
  let source := <[8%nat := Z.lor (Z.land (nth 8 source 0) 63) 128]> source in
  let part a b := hexEncode (take (b - a) (drop a source)) in
  Some (part 0 4 +:+ "-" +:+ part 4 6 +:+ "-" +:+ part 6 8 +:+ "-" +:+ part 8 10 +:+ "-"
        +:+ part 10 16)%nat.

Record requestIDPlugin := mkRequestID { ri_headerName : string; ri_maxLength : Z }.

(** The request header and the identifier recorded in the request state. *)
Definition requestID_OnRequest (p : requestIDPlugin) (random : option (list Z)) (h : Header)
    : option (Header * string) :=
  let values := header_Values h (ri_headerName p) in
  match values with
  | [value] =>
      if validInboundRequestID value (ri_maxLength p)
      then Some (header_Set h (ri_headerName p) value, value)
      else id ← generateUUIDv4 random; Some (header_Set h (ri_headerName p) id, id)
  | _ => id ← generateUUIDv4 random; Some (header_Set h (ri_headerName p) id, id)
  end.

Definition requestID_OnResponse (p : requestIDPlugin) (requestID : string) (h : Header) : Header :=
  header_Set h (ri_headerName p) requestID.

(** ** Generated identifiers *)

Lemma byte_cases (P : Z → bool) : forallb P (seqZ 0 256) = true → ∀ x, 0 ≤ x < 256 → P x = true.
Proof.
  intros Hall x Hx. rewrite forallb_forall in Hall. apply Hall, list_elem_of_In, elem_of_seqZ. lia.
Qed.

Lemma hexByte_valid x : 0 ≤ x < 256 → string_forallb requestIDByte (hexByte x) = true.
Proof. by apply (byte_cases (fun x => string_forallb requestIDByte (hexByte x))). Qed.

(** The version and variant bytes. *)
Lemma version_byte x : 0 ≤ x < 256 → let y := Z.lor (Z.land x 15) 64 in
  0 ≤ y < 256 ∧ byte_at (hexByte y) 0 = Some "4"%char.
Proof.
  intros Hx. pose proof (byte_cases (fun x => let y := Z.lor (Z.land x 15) 64 in
    (0 <=? y) && (y <? 256) && bool_decide (byte_at (hexByte y) 0 = Some "4"%char)) eq_refl x Hx) as Hy.
  simpl in Hy. bool_hyps. by split; [lia|].
Qed.

Lemma variant_byte x : 0 ≤ x < 256 → let y := Z.lor (Z.land x 63) 128 in
  0 ≤ y < 256 ∧ from_option (fun c => contains_byte c "89ab") false (byte_at (hexByte y) 0) = true.
Proof.
  intros Hx. pose proof (byte_cases (fun x => let y := Z.lor (Z.land x 63) 128 in
    (0 <=? y) && (y <? 256) && from_option (fun c => contains_byte c "89ab") false (byte_at (hexByte y) 0))
    eq_refl x Hx) as Hy.
  simpl in Hy. bool_hyps. split; [lia|done].
Qed.

(** The shape of a version 4 UUID in its text form. *)
Definition uuid_v4 (id : string) : Prop :=
  String.length id = 36%nat ∧ string_forallb requestIDByte id = true ∧
  Forall (fun i => byte_at id i = Some "-"%char) [8; 13; 18; 23]%nat ∧
  byte_at id 14 = Some "4"%char ∧
  from_option (fun c => contains_byte c "89ab") false (byte_at id 19) = true.

Lemma hexEncode_valid l : Forall (fun x => 0 ≤ x < 256) l → string_forallb requestIDByte (hexEncode l) = true.
Proof.
  induction 1 as [|x l Hx Hl IH]; [done|]. cbn [hexEncode foldr]. fold (hexEncode l).
  by rewrite string_forallb_app, hexByte_valid, IH.
Qed.

Lemma generateUUIDv4_shape source : length source = 16%nat → Forall (fun x => 0 ≤ x < 256) source →
  ∃ id, generateUUIDv4 (Some source) = Some id ∧ uuid_v4 id.
Proof.
  intros Hlen Hall. do 16 (destruct source as [|? source]; [done|]). destruct source; [|done]. clear Hlen.
  repeat (apply Forall_cons in Hall as [? Hall]).
  destruct (version_byte z5) as [Hv Hv4]; [done|]. destruct (variant_byte z7) as [Hw Hw8]; [done|].
  eexists. split; [reflexivity|]. split; [reflexivity|]. split; [|split; [by repeat constructor|by split]].
  cbn [take drop nth Nat.sub insert list_insert]. rewrite !string_forallb_app, !hexEncode_valid; [done|..];
    repeat constructor; lia.
Qed.

Lemma validInboundRequestID_uuid id maxLength : uuid_v4 id → 36 ≤ maxLength → validInboundRequestID id maxLength = true.
Proof.
  intros (Hlen & Hall & _) Hmax. unfold validInboundRequestID. rewrite Hlen. simpl.
  rewrite (proj2 (Z.ltb_ge _ _)) by lia. done.
Qed.

Lemma requestID_OnRequest_kept p random h id : header_Values h (ri_headerName p) = [id] →
  validInboundRequestID id (ri_maxLength p) = true →
  requestID_OnRequest p random h = Some (header_Set h (ri_headerName p) id, id).
Proof. intros Hv Hid. unfold requestID_OnRequest. by rewrite Hv, Hid. Qed.

(** With a working random source the request-id plugin always gives the
    request one identifier, in the request state and as the only value of its
    header: the inbound one if it was single and valid, else a well-formed
    version 4 UUID; other fields are untouched, and (when the length limit
    admits a UUID) the next gateway on the path keeps the identifier. *)
Theorem requestID_assigned p source h : length source = 16%nat → Forall (fun x => 0 ≤ x < 256) source →
  ∃ h' id, requestID_OnRequest p (Some source) h = Some (h', id) ∧
    h' !! canonical_header_key (ri_headerName p) = Some [id] ∧
    (∀ k, k ≠ canonical_header_key (ri_headerName p) → h' !! k = h !! k) ∧
    (header_Values h (ri_headerName p) = [id] ∧ validInboundRequestID id (ri_maxLength p) = true ∨ uuid_v4 id) ∧
    (36 ≤ ri_maxLength p → ∀ random, requestID_OnRequest p random h' = Some (h', id)).
Proof.
  intros Hlen Hall. destruct (generateUUIDv4_shape source Hlen Hall) as (uuid & Hgen & Huuid).
  set (name := ri_headerName p). set (kept := fun id => header_Values h name = [id] ∧ validInboundRequestID id (ri_maxLength p) = true).
  assert (Hid : ∃ id, requestID_OnRequest p (Some source) h = Some (header_Set h name id, id) ∧ (kept id ∨ uuid_v4 id)).
  { unfold requestID_OnRequest. fold name. rewrite Hgen. simpl. unfold kept.
    destruct (header_Values h name) as [|v [|w vs]]; [by exists uuid; auto| |by exists uuid; auto].
    destruct (validInboundRequestID v (ri_maxLength p)) eqn:Hv; [by exists v; auto|by exists uuid; auto]. }
  destruct Hid as (id & Heq & Hor). exists (header_Set h name id), id. split_and!; [done|apply lookup_insert_eq| |done|].
  - intros k Hk. by apply lookup_insert_ne.
  - intros Hmax random. assert (Hvalid : validInboundRequestID id (ri_maxLength p) = true).
    { destruct Hor as [[_ ?]|?]; [done|by apply validInboundRequestID_uuid]. }
    rewrite (requestID_OnRequest_kept p random _ id); [|unfold header_Values, header_Set; by rewrite lookup_insert_eq|done].
    unfold header_Set. by rewrite insert_insert_eq.
Qed.

Lemma requestID_assigned_witness : ∃ h' id,
  requestID_OnRequest (mkRequestID "X-Request-Id" 128) (Some (replicate 16 171)) ∅ = Some (h', id) ∧ uuid_v4 id.
Proof.
  destruct (requestID_assigned (mkRequestID "X-Request-Id" 128) (replicate 16 171) ∅)
    as (h' & id & Heq & _ & _ & [[Hv _]|Hu] & _); [reflexivity|by repeat constructor| |].
  - vm_compute in Hv. discriminate Hv.
  - exists h', id. split; [exact Heq|exact Hu].
Defined.

Lemma rewriteDirection_exact_witness :
  ∃ c, @compileRewriteDirection ascii_only_unicode
         (mkDirection ["x-old"] [("x-new", ["1"])] [("x-more", ["2"; "3"])]) = Some c ∧
  applyCompiledDirection {["X-Old" := ["a"]; "X-More" := ["b"]]} c !! "X-More" = Some ["b"; "2"; "3"].
Proof.
  destruct (@compileRewriteDirection ascii_only_unicode
    (mkDirection ["x-old"] [("x-new", ["1"])] [("x-more", ["2"; "3"])])) as [c|] eqn:E; [|vm_compute in E; discriminate E].
  exists c. split; [reflexivity|].
  destruct (@rewriteDirection_exact ascii_only_unicode _ c E) as (_ & _ & Hadd & _).
  exact (Hadd {["X-Old" := ["a"]; "X-More" := ["b"]]} "x-more" ["2"; "3"] ltac:(simpl; left)).
Defined.

(** ** The built-in registry *)

(** What the hooks read and change: header fields, the identifier of the
    request state, and the reads left of the random source. *)
Record requestView := mkRequestView { rv_header : Header; rv_requestID : string; rv_reads : list (list Z) }.
Record responseView := mkResponseView { sv_header : Header; sv_requestID : string }.

Record requestIDConfig := mkRequestIDConfig { rc_HeaderName : string; rc_MaxInputLength : Z }.
Record rewriteConfig := mkRewriteConfig { wc_Request : rewriteDirection; wc_Response : rewriteDirection }.

Definition passed (q : requestView) : RequestResult * requestView := (mkRequestResult Continue None None, q).

Section Builtin.
Context `{Unicode}.
(** [decodeStrictPluginJSON] on the two configurations. *)
Context (decodeRequestID : string → result string requestIDConfig).
Context (decodeRewrite : string → result string rewriteConfig).

Definition requestID_request (p : requestIDPlugin) (q : requestView) : RequestResult * requestView :=
  let random := head (rv_reads q) in
  match requestID_OnRequest p random (rv_header q) with
  | None => (mkRequestResult Continue None (Some "generate request ID"), q)
  | Some (h, id) =>
      let kept := match header_Values (rv_header q) (ri_headerName p) with
                  | [value] => validInboundRequestID value (ri_maxLength p)
                  | _ => false
                  end in
      passed (mkRequestView h id (if kept then rv_reads q else tail (rv_reads q)))
  end.

Definition requestID_response (p : requestIDPlugin) (r : responseView) : option string * responseView :=
  (None, mkResponseView (requestID_OnResponse p (sv_requestID r) (sv_header r)) (sv_requestID r)).

Definition requestIDCompile (raw : string) : result string (@CompiledPlugin requestView responseView) :=
  config ← decodeRequestID raw;
  match validateMutableHeaderName (rc_HeaderName config) with
  | None => Err "header_name"
  | Some headerName =>
      if (rc_MaxInputLength config <? 1) || (1024 <? rc_MaxInputLength config) then Err "max_input_length"
      else let plugin := mkRequestID headerName (rc_MaxInputLength config) in
           Ok (mkCompiledPlugin (Some (requestID_request plugin)) (Some (requestID_response plugin)) 0)
  end.

Definition requestIDDefinition : PluginDefinition :=
  mkDefinition "request-id" "1.0.0" 100 900 (Some requestIDCompile).

Definition rewrite_request (c : compiledDirection) (q : requestView) : RequestResult * requestView :=
  passed (mkRequestView (applyCompiledDirection (rv_header q) c) (rv_requestID q) (rv_reads q)).

Definition rewrite_response (c : compiledDirection) (r : responseView) : option string * responseView :=
  (None, mkResponseView (applyCompiledDirection (sv_header r) c) (sv_requestID r)).

Definition headerRewriteCompile (raw : string) : result string (@CompiledPlugin requestView responseView) :=
  config ← decodeRewrite raw;
  match compileRewriteDirection (wc_Request config) with
  | None => Err "request"
  | Some request =>
      match compileRewriteDirection (wc_Response config) with
      | None => Err "response"
      | Some response =>
          Ok (mkCompiledPlugin (Some (rewrite_request request)) (Some (rewrite_response response)) 0)
      end
  end.

Definition headerRewriteDefinition : PluginDefinition :=
  mkDefinition "header-rewrite" "1.0.0" 200 800 (Some headerRewriteCompile).

Definition NewBuiltinRegistry : result pluginError (gmap string (@PluginDefinition requestView responseView)) :=
  NewPluginRegistry [requestIDDefinition; headerRewriteDefinition].

Lemma NewBuiltinRegistry_value : NewBuiltinRegistry =
  Ok (<["header-rewrite" := headerRewriteDefinition]> {["request-id" := requestIDDefinition]}).
Proof. reflexivity. Qed.

Lemma builtin_definition n d (definitions : gmap string (@PluginDefinition requestView responseView)) :
  NewBuiltinRegistry = Ok definitions → definitions !! n = Some d →
  n = "request-id" ∧ d = requestIDDefinition ∨ n = "header-rewrite" ∧ d = headerRewriteDefinition.
Proof.
  rewrite NewBuiltinRegistry_value. intros [= <-]. rewrite lookup_insert_Some, lookup_singleton_Some.
  intros [[<- <-]|[_ [<- <-]]]; auto.
Qed.

Definition is_response_hook (hook : @ResponseHook responseView) : Prop :=
  (∃ p, hook = requestID_response p) ∨ (∃ c, hook = rewrite_response c).

Lemma requestIDCompile_response raw p : requestIDCompile raw = Ok p →
  ∃ plugin, cpl_response p = Some (requestID_response plugin).
Proof.
  unfold requestIDCompile. destruct (decodeRequestID raw) as [config|]; [|done]. simpl.
  destruct (validateMutableHeaderName _) as [name|]; [|done]. destruct (_ || _); [done|]. intros [= <-]. simpl. by eexists.
Qed.

Lemma headerRewriteCompile_response raw p : headerRewriteCompile raw = Ok p →
  ∃ c, cpl_response p = Some (rewrite_response c).
Proof.
  unfold headerRewriteCompile. destruct (decodeRewrite raw) as [config|]; [|done]. simpl.
  destruct (compileRewriteDirection _) as [c|]; [|done]. destruct (compileRewriteDirection _) as [c'|]; [|done].
  intros [= <-]. by eexists.
Qed.

Lemma runResponseHooks_app (l l' : list (@responseEntry responseView)) r r' :
  runResponseHooks l r = (None, r') → runResponseHooks (l ++ l') r = runResponseHooks l' r'.
Proof.
  revert r. induction l as [|e l IH]; intros r; simpl; [by intros [= <-]|].
  destruct (se_hook e r) as [[cause|] r1]; [done|]. apply IH.
Qed.

Lemma builtin_hooks_pass (l : list (@responseEntry responseView)) r : Forall (fun e => is_response_hook (se_hook e)) l →
  ∃ r', runResponseHooks l r = (None, r') ∧ sv_requestID r' = sv_requestID r.
Proof.
  intros Hall. revert r. induction Hall as [|e l He _ IH]; intros r; simpl; [by eexists|].
  destruct He as [[p ->]|[c ->]]; cbn [requestID_response rewrite_response];
    match goal with |- context [runResponseHooks l ?r1] => destruct (IH r1) as (r' & Hr & Hid) end; by exists r'.
Qed.

(** In a list sorted by order, an element of greatest order comes last. *)
Lemma sorted_last (l : list (@responseEntry responseView)) e : StronglySorted Z.lt (se_order <$> l) → e ∈ l →
  Forall (fun e' => se_order e' ≤ se_order e) l → ∃ l', l = l' ++ [e].
Proof.
  intros Hs (l1 & l2 & ->)%list_elem_of_split Hall. exists l1. f_equal. f_equal.
  destruct l2 as [|e2 l2]; [done|exfalso]. rewrite fmap_app in Hs. apply StronglySorted_app in Hs as (_ & _ & Hs).
  simpl in Hs. apply StronglySorted_inv in Hs as [_ Hlt]. rewrite Forall_app in Hall. destruct Hall as [_ Hall].
  inversion Hlt; inversion Hall as [|? ? ? Hall']; inversion Hall'; subst. lia.
Qed.

(** On every route on which the request-id plugin is in effect, the
    response phase of the built-in plugins succeeds and leaves the identifier
    of the request as the only value of the plugin's response header, whatever
    the upstream answered and whatever header-rewrite removes, sets or adds. *)
Theorem response_carries_request_id definitions iterate service route chain : iterates iterate →
  NewBuiltinRegistry = Ok definitions → CompileChain iterate definitions service route = Ok chain →
  "request-id" ∈ ch_names chain →
  ∃ plugin, ∀ r, ∃ r', RunResponse (Some chain) r = (None, r') ∧ sv_requestID r' = sv_requestID r ∧
    sv_header r' !! canonical_header_key (ri_headerName plugin) = Some [sv_requestID r].
Proof.
  intros Hit Hreg Hc Hn.
  assert (Hall : Forall (fun e => is_response_hook (se_hook e) ∧ se_order e ≤ 900) (ch_response chain)).
  { apply Forall_forall. intros e He.
    destruct (CompileChain_response _ _ _ _ _ _ Hit Hc He) as (d & compile & raw & p & hook & Hd & Hf & Hp & Hr & ->).
    destruct (builtin_definition _ _ _ Hreg Hd) as [[_ ->]|[_ ->]]; injection Hf as <-; simpl.
    - destruct (requestIDCompile_response _ _ Hp) as [q Hq]. rewrite Hq in Hr. injection Hr as <-. split; [|lia]. left. by eexists.
    - destruct (headerRewriteCompile_response _ _ Hp) as [q Hq]. rewrite Hq in Hr. injection Hr as <-. split; [|lia]. right. by eexists. }
  destruct (CompileChain_response_of _ _ _ _ _ _ Hit Hc Hn) as (d & compile & raw & p & Hd & Hf & Hp & Hin).
  destruct (builtin_definition _ _ _ Hreg Hd) as [[_ ->]|[[=] _]]. injection Hf as <-.
  destruct (requestIDCompile_response _ _ Hp) as [plugin Hplugin]. apply Hin in Hplugin. exists plugin. intros r.
  destruct (sorted_last _ _ (CompileChain_response_sorted _ _ _ _ _ _ Hit Hreg Hc) Hplugin) as [l Hl].
  { eapply Forall_impl; [exact Hall|]. intros e [_ ?]. done. }
  rewrite Hl in Hall. apply Forall_app in Hall as [Hall _].
  destruct (builtin_hooks_pass l r) as (r1 & Hrun & Hid); [eapply Forall_impl; [exact Hall|]; by intros e []|].
  unfold RunResponse. rewrite Hl, (runResponseHooks_app _ _ _ _ Hrun). simpl. eexists. split_and!; [reflexivity|done|].
  simpl. rewrite Hid. apply lookup_insert_eq.
Qed.
End Builtin.

Section BuiltinWitness.
#[local] Existing Instance ascii_only_unicode.

(** Decoders that accept one configuration each. *)
Definition defaultRequestID (raw : string) : result string requestIDConfig := Ok (mkRequestIDConfig "X-Request-ID" 128).
Definition removeRequestID (raw : string) : result string rewriteConfig :=
  Ok (mkRewriteConfig (mkDirection [] [] []) (mkDirection ["x-request-id"] [("x-served-by", ["g"])] [])).
Definition in_key_order (m : gmap string PluginAttachment) : list string := elements (dom m).

Lemma in_key_order_iterates : iterates in_key_order.
Proof. by intros m. Qed.

Lemma response_carries_request_id_witness : ∃ definitions chain plugin,
  NewBuiltinRegistry defaultRequestID removeRequestID = Ok definitions ∧
  CompileChain in_key_order definitions [mkAttachment "request-id" true "{}"] [mkAttachment "header-rewrite" true "{}"]
    = Ok chain ∧
  ∀ r, ∃ r', RunResponse (Some chain) r = (None, r') ∧ sv_requestID r' = sv_requestID r ∧
    sv_header r' !! canonical_header_key (ri_headerName plugin) = Some [sv_requestID r].
Proof.
  eexists _, _.
  destruct (@response_carries_request_id ascii_only_unicode defaultRequestID removeRequestID _ in_key_order
    [mkAttachment "request-id" true "{}"] [mkAttachment "header-rewrite" true "{}"] _
    in_key_order_iterates eq_refl eq_refl) as [plugin Hp].
  - vm_compute. left.
  - exists plugin. split; [reflexivity|]. split; [reflexivity|exact Hp].
Defined.

End BuiltinWitness.
