(* ===== verification/DownstreamTLS.v ===== *)
(** * Downstream certificate selection ([internal/downstreamtls])

    [Compile] turns the SNI bindings of a policy into an exact and a wildcard
    index after checking every certificate and every bound name; [Select]
    answers one TLS handshake. The name scanner works on byte positions of a
    fixed buffer; the theorems relate it to the labels of the name, show that
    selection follows the policy, and that a certificate selected by name is
    valid and verifies for that name. *)

From S2P Require Import Prelude GoStrings NetAddr X509.
#[local] Open Scope string_scope.
#[local] Open Scope nat_scope.
#[local] Open Scope list_scope.
#[local] Arguments Ascii.eqb : simpl never.

(** ** Server names ([hostname.go]) *)

Definition isDNSLabelCharacter (c : ascii) : bool := is_lower c || is_digit c || Ascii.eqb c "-".

Definition couldBeIPv4Literal (canonical : string) : bool :=
  string_forallb (fun c => is_digit c || Ascii.eqb c ".") canonical.

(** The check of a finished label; [scratch] are the bytes written so far. *)
Definition badLabel (scratch : string) (labelStart index : nat) : bool :=
  Nat.eqb index labelStart || (63 <? index - labelStart)
  || bool_decide (byte_at scratch labelStart = Some "-"%char)
  || bool_decide (byte_at scratch (index - 1) = Some "-"%char).

(** Ranging over a string steps by runes; the first byte outside ASCII already
    ends the loop, so bytes and runes agree. *)
Fixpoint canonicalLoop (raw scratch : string) (labelStart : nat) : option (string * nat) :=
  match raw with
  | EmptyString => Some (scratch, labelStart)
  | String c raw =>
      let index := String.length scratch in
      let c := lower_byte c in
      let scratch' := scratch +:+ String c EmptyString in
      if Ascii.eqb c "."
      then if badLabel scratch labelStart index then None else canonicalLoop raw scratch' (S index)
      else if isDNSLabelCharacter c then canonicalLoop raw scratch' labelStart else None
  end.

Definition canonicalizeServerName (raw : string) : option string :=
  let raw := trim_suffix_dot raw in
  if Nat.eqb (String.length raw) 0 || (253 <? String.length raw) then None
  else
    match canonicalLoop raw "" 0 with
    | None => None
    | Some (canonical, labelStart) =>
        if badLabel canonical labelStart (String.length raw) then None
        else if couldBeIPv4Literal canonical && bool_decide (is_Some (parse_addr canonical)) then None
        else Some canonical
    end.

Definition normalizeBindingHost (raw : string) : option (string * bool) :=
  let wildcard := has_prefix raw "*." in
  let raw := if wildcard then sdrop 2 raw else raw in
  match canonicalizeServerName raw with
  | None => None
  | Some canonical =>
      if wildcard && negb (contains_byte "." canonical) then None else Some (canonical, wildcard)
  end.

(** ** The selector ([selector.go]) *)

Record SNIBinding := mkSNIBinding { sb_certificateRef : string; sb_hosts : list string }.

Record DownstreamTLSPolicy := mkDownstreamTLS {
  dt_defaultCertificateRef : string;
  dt_sniBindings : list SNIBinding;
}.

Definition MaxSNINames : nat := 10000.

(** Codes, resource and field of [ConfigError]. *)
Record selectorError := mkSelectorError { se_code : string; se_resourceID : string; se_field : string }.

Inductive certificateSelection := SelectionExact | SelectionWildcard | SelectionDefault | SelectionError.

Record selectorStats := mkSelectorStats {
  ss_certificateCount : nat;
  ss_exactCount : nat;
  ss_wildcardCount : nat;
  ss_earliestExpiry : Z;
}.

Record CertificateSelector := mkSelector {
  sel_default : option tlsCertificate;
  sel_exact : gmap string tlsCertificate;
  sel_wildcard : gmap string tlsCertificate;
  sel_stats : selectorStats;
}.

Definition wildcardSANVerifies (pattern suffix : string) : bool :=
  VerifyHostname (mkLeaf "" 0 0 [pattern] []) ("a." +:+ suffix).

Definition sanCovers (canonical dnsName : string) : bool :=
  match normalizeBindingHost dnsName with
  | Some (suffix, true) => String.eqb suffix canonical && wildcardSANVerifies dnsName canonical
  | _ => false
  end.

Definition certificateCoversHost (certificate : tlsCertificate) (canonical : string) (wildcard : bool) : bool :=
  match tc_leaf certificate with
  | None => false
  | Some leaf =>
      if wildcard then existsb (sanCovers canonical) (lf_dnsNames leaf) else VerifyHostname leaf canonical
  end.

Fixpoint withinNameLimit (count : nat) (bindings : list SNIBinding) : bool :=
  match bindings with
  | [] => true
  | b :: bindings =>
      let count := count + length (sb_hosts b) in
      if MaxSNINames <? count then false else withinNameLimit count bindings
  end.

Fixpoint indexCertificates (materials : list (option Certificate)) (index : gmap string Certificate)
    : result selectorError (gmap string Certificate) :=
  match materials with
  | [] => Ok index
  | None :: _ => Err (mkSelectorError "SNI_BINDING_INVALID" "certificate" "certificates")
  | Some material :: materials =>
      if String.eqb (cert_id material) ""
      then Err (mkSelectorError "SNI_BINDING_INVALID" "certificate" "certificates")
      else if bool_decide (is_Some (index !! cert_id material))
      then Err (mkSelectorError "SNI_BINDING_INVALID" (cert_id material) "certificates")
      else indexCertificates materials (<[cert_id material := material]> index)
  end.

(** The certificates compiled so far, the two indexes and the statistics. *)
Record compileState := mkCompileState {
  cp_compiled : gmap string tlsCertificate;
  cp_exact : gmap string tlsCertificate;
  cp_wildcard : gmap string tlsCertificate;
  cp_stats : selectorStats;
}.

Definition zeroStats : selectorStats := mkSelectorStats 0 0 0 0.

Section Compile.
Context (now : Z).

Definition countCertificate (s : selectorStats) (notAfter : Z) : selectorStats :=
  mkSelectorStats (S (ss_certificateCount s)) (ss_exactCount s) (ss_wildcardCount s)
    (if (ss_earliestExpiry s =? 0)%Z || (notAfter <? ss_earliestExpiry s)%Z then notAfter
     else ss_earliestExpiry s).

Definition compileCertificate (material : Certificate) (st : compileState)
    : result selectorError (tlsCertificate * compileState) :=
  let id := cert_id material in
  match cp_compiled st !! id with
  | Some certificate => Ok (certificate, st)
  | None =>
      let certificate := cert_certificate material in
      match tc_leaf certificate, tc_chain certificate with
      | Some leaf, _ :: _ =>
          if (now <? lf_notBefore leaf)%Z then Err (mkSelectorError "CERTIFICATE_NOT_YET_VALID" id "not_before")
          else if (lf_notAfter leaf <? now)%Z then Err (mkSelectorError "CERTIFICATE_EXPIRED" id "not_after")
          else Ok (certificate,
                   mkCompileState (<[id := certificate]> (cp_compiled st)) (cp_exact st) (cp_wildcard st)
                     (countCertificate (cp_stats st) (lf_notAfter leaf)))
      | _, _ => Err (mkSelectorError "SNI_BINDING_INVALID" id "certificate")
      end
  end.

Definition cp_index (st : compileState) (wildcard : bool) : gmap string tlsCertificate :=
  if wildcard then cp_wildcard st else cp_exact st.

Definition addName (st : compileState) (canonical : string) (wildcard : bool) (certificate : tlsCertificate)
    : compileState :=
  let s := cp_stats st in
  if wildcard
  then mkCompileState (cp_compiled st) (cp_exact st) (<[canonical := certificate]> (cp_wildcard st))
         (mkSelectorStats (ss_certificateCount s) (ss_exactCount s) (S (ss_wildcardCount s)) (ss_earliestExpiry s))
  else mkCompileState (cp_compiled st) (<[canonical := certificate]> (cp_exact st)) (cp_wildcard st)
         (mkSelectorStats (ss_certificateCount s) (S (ss_exactCount s)) (ss_wildcardCount s) (ss_earliestExpiry s)).

Definition bindHost (ref : string) (certificate : tlsCertificate) (st : compileState) (rawHost : string)
    : result selectorError compileState :=
  match normalizeBindingHost rawHost with
  | None => Err (mkSelectorError "SNI_BINDING_INVALID" ref "hosts")
  | Some (canonical, wildcard) =>
      if bool_decide (is_Some (cp_index st wildcard !! canonical))
      then Err (mkSelectorError "SNI_BINDING_CONFLICT" ref "hosts")
      else if negb (certificateCoversHost certificate canonical wildcard)
      then Err (mkSelectorError "CERTIFICATE_HOSTNAME_MISMATCH" ref "hosts")
      else Ok (addName st canonical wildcard certificate)
  end.

Fixpoint bindHosts (ref : string) (certificate : tlsCertificate) (st : compileState) (hosts : list string)
    : result selectorError compileState :=
  match hosts with
  | [] => Ok st
  | h :: hosts => st ← bindHost ref certificate st h; bindHosts ref certificate st hosts
  end.

Definition compileBinding (materials : gmap string Certificate) (st : compileState) (b : SNIBinding)
    : result selectorError compileState :=
  let ref := sb_certificateRef b in
  if String.eqb ref "" || Nat.eqb (length (sb_hosts b)) 0
  then Err (mkSelectorError "SNI_BINDING_INVALID" ref "sni_bindings")
  else
    match materials !! ref with
    | None => Err (mkSelectorError "SNI_BINDING_INVALID" ref "certificate_ref")
    | Some material =>
        '(certificate, st) ← compileCertificate material st;
        bindHosts ref certificate st (sb_hosts b)
    end.

Fixpoint compileBindings (materials : gmap string Certificate) (st : compileState) (bindings : list SNIBinding)
    : result selectorError compileState :=
  match bindings with
  | [] => Ok st
  | b :: bindings => st ← compileBinding materials st b; compileBindings materials st bindings
  end.

Definition compileSelector (policy : option DownstreamTLSPolicy) (materials : list (option Certificate))
    : result selectorError CertificateSelector :=
  match policy with
  | None => Err (mkSelectorError "DOWNSTREAM_TLS_REQUIRED" "downstream_tls" "downstream_tls")
  | Some policy =>
      if negb (withinNameLimit 0 (dt_sniBindings policy))
      then Err (mkSelectorError "SNI_INDEX_LIMIT_EXCEEDED" "downstream_tls" "sni_bindings")
      else
        materials ← indexCertificates materials ∅;
        let ref := dt_defaultCertificateRef policy in
        match (if String.eqb ref "" then None else materials !! ref) with
        | None => Err (mkSelectorError "DEFAULT_CERTIFICATE_NOT_FOUND" ref "default_certificate_ref")
        | Some material =>
            '(certificate, st) ← compileCertificate material (mkCompileState ∅ ∅ ∅ zeroStats);
            st ← compileBindings materials st (dt_sniBindings policy);
            Ok (mkSelector (Some certificate) (cp_exact st) (cp_wildcard st) (cp_stats st))
        end
  end.
End Compile.

(** The lookups of [Select] for a canonical name. *)
Definition parentName (canonical : string) : option string :=
  match index_byte "." canonical with
  | Some separator =>
      if (0 <? separator) && (S separator <? String.length canonical) then Some (sdrop (S separator) canonical)
      else None
  | None => None
  end.

(** A nil hello is [None]; a missing certificate is the error. *)
Definition Select (s : option CertificateSelector) (serverName : option string)
    : option tlsCertificate * certificateSelection :=
  match s with
  | None => (None, SelectionError)
  | Some s =>
      match sel_default s with
      | None => (None, SelectionError)
      | Some default =>
          let fallback := (Some default, SelectionDefault) in
          match serverName with
          | None | Some EmptyString => fallback
          | Some name =>
              match canonicalizeServerName name with
              | None => fallback
              | Some canonical =>
                  match sel_exact s !! canonical with
                  | Some certificate => (Some certificate, SelectionExact)
                  | None =>
                      match parentName canonical ≫= fun suffix => sel_wildcard s !! suffix with
                      | Some certificate => (Some certificate, SelectionWildcard)
                      | None => fallback
                      end
                  end
              end
          end
      end
  end.

(** [StaticProvider.Select]: a certificate without chain is unavailable. *)
Definition static_Select (certificate : option tlsCertificate) : option tlsCertificate * certificateSelection :=
  match certificate with
  | Some c => match tc_chain c with [] => (None, SelectionError) | _ => (Some c, SelectionDefault) end
  | None => (None, SelectionError)
  end.

(** ** Labels *)

(** The reference: what a label of a canonical name looks like. *)
Definition validDNSLabel (l : string) : bool :=
  negb (Nat.eqb (String.length l) 0) && (String.length l <=? 63) && string_forallb isDNSLabelCharacter l
  && negb (bool_decide (byte_at l 0 = Some "-"%char))
  && negb (bool_decide (byte_at l (String.length l - 1) = Some "-"%char)).

Lemma byte_at_app_r s t i : byte_at (s +:+ t) (String.length s + i) = byte_at t i.
Proof. unfold byte_at. induction s as [|c s IH]; simpl; auto. Qed.

Lemma label_no_dot l : string_forallb isDNSLabelCharacter l = true → contains_byte "." l = false.
Proof.
  induction l as [|c l IH]; simpl; [done|]. intros [Hc Hl]%andb_prop. rewrite (IH Hl), orb_false_r.
  apply Ascii.eqb_neq. by intros <-.
Qed.

(** The positional check is the check of the label written last. *)
Lemma badLabel_label pre cur : string_forallb isDNSLabelCharacter cur = true →
  badLabel (pre +:+ cur) (String.length pre) (String.length (pre +:+ cur)) = negb (validDNSLabel cur).
Proof.
  intros Hcur. unfold badLabel, validDNSLabel. rewrite Hcur, length_string_app.
  replace (String.length pre + String.length cur - String.length pre) with (String.length cur) by lia.
  rewrite !negb_andb, !negb_involutive, <-(byte_at_app_r pre cur 0), Nat.add_0_r. simpl. rewrite orb_false_r.
  destruct (String.length cur) as [|n] eqn:Hn.
  { rewrite Nat.add_0_r, Nat.eqb_refl. done. }
  rewrite <-(byte_at_app_r pre cur).
  replace (String.length pre + S n - 1) with (String.length pre + (S n - 1)) by lia.
  rewrite (proj2 (Nat.eqb_neq _ _)) by lia. simpl. rewrite Nat.leb_antisym, negb_involutive. done.
Qed.

Lemma split_chars P c s :
  forallb (string_forallb P) (split_byte c s) = string_forallb (fun d => Ascii.eqb c d || P d) s.
Proof.
  induction s as [|d s IH]; simpl; [done|]. destruct (Ascii.eqb c d); simpl; [done|].
  rewrite <-IH. destruct (split_byte c s) as [|l ls] eqn:E; [by destruct (split_byte_nonempty _ _ E)|].
  simpl. by rewrite andb_assoc.
Qed.

Lemma validDNSLabel_chars l : validDNSLabel l = true → string_forallb isDNSLabelCharacter l = true.
Proof. unfold validDNSLabel. rewrite !andb_true_iff. tauto. Qed.

Lemma labels_chars s : forallb validDNSLabel (split_byte "." s) = true →
  string_forallb (fun c => Ascii.eqb "." c || isDNSLabelCharacter c) s = true.
Proof.
  rewrite <-split_chars, !forallb_forall. intros Hall l Hl. by apply validDNSLabel_chars, Hall.
Qed.

Lemma split_invalid c s t : isDNSLabelCharacter c = false → Ascii.eqb "." c = false →
  forallb validDNSLabel (split_byte "." (s +:+ String c t)) = false.
Proof.
  intros Hc Hdot. apply not_true_is_false. intros H%labels_chars.
  rewrite string_forallb_app in H. simpl in H. rewrite Hc, Hdot in H. by rewrite andb_false_r in H.
Qed.

Definition canonicalResult (r : option (string * nat)) : option string :=
  match r with
  | None => None
  | Some (out, labelStart) => if badLabel out labelStart (String.length out) then None else Some out
  end.

(** The byte loop accepts exactly the names whose labels are valid. *)
Lemma canonicalLoop_labels raw pre cur : string_forallb isDNSLabelCharacter cur = true →
  canonicalResult (canonicalLoop raw (pre +:+ cur) (String.length pre)) =
    if forallb validDNSLabel (split_byte "." (cur +:+ to_lower_ascii raw))
    then Some (pre +:+ cur +:+ to_lower_ascii raw) else None.
Proof.
  revert pre cur. induction raw as [|c raw IH]; intros pre cur Hcur.
  - cbn [canonicalLoop canonicalResult to_lower_ascii string_map].
    rewrite badLabel_label, string_app_nil_r by done.
    rewrite split_byte_no_sep by (by apply label_no_dot). simpl. rewrite andb_true_r. by destruct (validDNSLabel cur).
  - cbn [canonicalLoop to_lower_ascii string_map]. set (d := lower_byte c). change (string_map lower_byte raw) with (to_lower_ascii raw).
    destruct (Ascii.eqb_spec d ".") as [Hd|Hd].
    + rewrite badLabel_label, Hd, split_byte_app by (done || by apply label_no_dot). cbn [forallb].
      destruct (validDNSLabel cur); simpl; [|done].
      assert (Hlen : S (String.length (pre +:+ cur)) = String.length ((pre +:+ cur) +:+ "."))
        by (rewrite !length_string_app; simpl; lia).
      rewrite Hlen, <-(string_app_nil_r ((pre +:+ cur) +:+ ".")) at 1. rewrite IH by done. simpl.
      by rewrite !string_app_assoc.
    + destruct (isDNSLabelCharacter d) eqn:Hc.
      * rewrite string_app_assoc, IH by (by rewrite string_forallb_app, Hcur; simpl; rewrite Hc).
        rewrite !string_app_assoc. done.
      * rewrite split_invalid; [done..|]. apply Ascii.eqb_neq. congruence.
Qed.

(** ** Literals *)

Lemma parse_ipv4_loop_chars s prev_dot digits val fields fs :
  parse_ipv4_loop s prev_dot digits val fields = Some fs →
  string_forallb (fun c => is_digit c || Ascii.eqb c ".") s = true.
Proof.
  revert prev_dot digits val fields. induction s as [|c s IH]; intros prev_dot digits val fields; simpl; [done|].
  destruct (is_digit c); simpl.
  - destruct (_ && _); [done|]. destruct (255 <? _)%N; [done|]. apply IH.
  - destruct (Ascii.eqb c "."); [|done]. destruct (prev_dot || _); [done|]. destruct (Nat.eqb _ 3); [done|]. apply IH.
Qed.

(** An address without colon is made of digits and dots, so the guard of the
    literal test only saves the call. *)
Lemma parse_addr_literal s : contains_byte ":" s = false → is_Some (parse_addr s) → couldBeIPv4Literal s = true.
Proof.
  unfold parse_addr. intros Hcolon. assert (Hscan : ∀ t, contains_byte ":" t = false →
    is_Some (parse_addr_scan s t) → couldBeIPv4Literal s = true); [|by apply Hscan].
  induction t as [|c t IH]; simpl; [by intros _ [? [=]]|]. rewrite orb_false_iff. intros [Hc Ht].
  destruct (Ascii.eqb c "."); [|].
  - destruct (parse_ipv4_fields s) eqn:E; [|by intros [? [=]]]. intros _. by eapply parse_ipv4_loop_chars.
  - rewrite Ascii.eqb_sym, Hc. destruct (Ascii.eqb c "%"); [by intros [? [=]]|by apply IH].
Qed.

(** ** Canonical names *)

Lemma length_string_map f s : String.length (string_map f s) = String.length s.
Proof. induction s; simpl; auto. Qed.

Definition canonical_name (s : string) : Prop :=
  1 ≤ String.length s ≤ 253 ∧ forallb validDNSLabel (split_byte "." s) = true ∧ parse_addr s = None.

Lemma labels_no_colon s : forallb validDNSLabel (split_byte "." s) = true → contains_byte ":" s = false.
Proof.
  intros H%labels_chars. induction s as [|c s IH]; simpl in *; [done|]. apply andb_prop in H as [Hc Hs].
  rewrite (IH Hs), orb_false_r. apply Ascii.eqb_neq. by intros <-.
Qed.

Lemma canonicalLoop_length raw scratch labelStart out start :
  canonicalLoop raw scratch labelStart = Some (out, start) → String.length out = String.length scratch + String.length raw.
Proof.
  revert scratch labelStart. induction raw as [|c raw IH]; intros scratch labelStart; simpl; [intros [= <- <-]; lia|].
  destruct (Ascii.eqb _ _); [destruct (badLabel _ _ _); [done|]|destruct (isDNSLabelCharacter _); [|done]];
    intros H%IH; rewrite length_string_app in H; simpl in H; lia.
Qed.

Lemma canonicalizeServerName_spec raw s :
  canonicalizeServerName raw = Some s ↔ s = to_lower_ascii (trim_suffix_dot raw) ∧ canonical_name s.
Proof.
  unfold canonicalizeServerName, canonical_name. set (r := trim_suffix_dot raw).
  assert (Hlen : String.length (to_lower_ascii r) = String.length r) by apply length_string_map.
  pose proof (canonicalLoop_labels r "" "" eq_refl) as Hloop. cbn [String.append String.length] in Hloop.
  destruct (Nat.eqb_spec (String.length r) 0); simpl; [split; [done|]; intros (-> & ? & _); lia|].
  destruct (Nat.ltb_spec 253 (String.length r)); [split; [done|]; intros (-> & ? & _); lia|].
  destruct (canonicalLoop r "" 0) as [[out start]|] eqn:E.
  2: { destruct (forallb _ _) eqn:Hv in Hloop; [done|]. split; [done|]. intros (-> & _ & Hv' & _). congruence. }
  apply canonicalLoop_length in E. simpl in E, Hloop. rewrite E in Hloop.
  destruct (badLabel _ _ _).
  { destruct (forallb _ _) eqn:Hv in Hloop; [done|]. split; [done|]. intros (-> & _ & Hv' & _). congruence. }
  destruct (forallb _ _) eqn:Hv in Hloop; [|done]. injection Hloop as ->.
  pose proof (parse_addr_literal _ (labels_no_colon _ Hv)) as Hlit.
  destruct (parse_addr (to_lower_ascii r)) as [a|] eqn:Ha.
  - rewrite Hlit by (by eexists). rewrite bool_decide_true by (by eexists). split; [done|]. intros (-> & _ & _ & ?). congruence.
  - rewrite bool_decide_false by (by intros [? ?]). rewrite andb_false_r.
    split; [intros [= <-]; split_and!; try done; lia|]. by intros (-> & _).
Qed.

Lemma label_byte_lower c : Ascii.eqb "." c || isDNSLabelCharacter c = true → lower_byte c = c.
Proof. by destruct c as [[] [] [] [] [] [] [] []]. Qed.

Lemma canonical_lower s : canonical_name s → to_lower_ascii s = s.
Proof.
  intros (_ & H%labels_chars & _). induction s as [|c s IH]; [done|]. cbn [string_forallb] in H.
  apply andb_prop in H as [Hc Hs]. unfold to_lower_ascii in *. cbn [string_map]. by rewrite IH, label_byte_lower.
Qed.

Lemma labels_trim s : forallb validDNSLabel (split_byte "." s) = true → trim_suffix_dot s = s.
Proof.
  intros H. unfold trim_suffix_dot. destruct (has_suffix s ".") eqn:E; [|done].
  apply has_suffix_spec in E as [t ->]. rewrite split_byte_join, forallb_app in H. apply andb_prop in H as [_ H].
  done.
Qed.

Lemma canonical_trim s : canonical_name s → trim_suffix_dot s = s.
Proof. intros (_ & H & _). by apply labels_trim. Qed.

(** The scanner of server names accepts a name exactly when, with one
    trailing dot removed and ASCII letters lowered, it has 1 to 253 bytes, is
    no IP literal and all its dot-separated labels have 1 to 63 letters, digits
    or inner hyphens; it returns that form, which it maps to itself. *)
Theorem canonicalizeServerName_exact raw s :
  (canonicalizeServerName raw = Some s ↔ s = to_lower_ascii (trim_suffix_dot raw) ∧ canonical_name s) ∧
  (canonicalizeServerName raw = Some s → canonicalizeServerName s = Some s).
Proof.
  split; [apply canonicalizeServerName_spec|]. intros [_ Hs]%canonicalizeServerName_spec.
  apply canonicalizeServerName_spec. by rewrite canonical_trim, canonical_lower.
Qed.

Lemma canonical_fixed s : canonical_name s → canonicalizeServerName s = Some s.
Proof. intros Hs. apply canonicalizeServerName_spec. by rewrite canonical_trim, canonical_lower. Qed.

(** ** Host name verification of canonical names *)

Lemma validDNSLabel_part l : validDNSLabel l = true → validPart l = true.
Proof.
  unfold validDNSLabel. rewrite !andb_true_iff. intros [[[[Hlen _] Hall] Hfirst] _].
  destruct l as [|c l]; [done|]. cbn [string_forallb validPart] in *. apply andb_prop in Hall as [Hc Hall].
  apply andb_true_intro. split.
  - apply negb_true_iff, bool_decide_eq_false in Hfirst. unfold hostnameByte, isDNSLabelCharacter in *.
    apply orb_prop in Hc as [Hc|Hc]; [|apply Ascii.eqb_eq in Hc; simpl in Hfirst; congruence].
    apply orb_prop in Hc as [-> | ->]; by rewrite ?orb_true_r.
  - rewrite string_forallb_forall in *. intros i d Hd. specialize (Hall i d Hd). unfold hostnameByte, isDNSLabelCharacter in *.
    apply orb_prop in Hall as [Hc'|Hc']; [|rewrite Hc'; by rewrite !orb_true_r].
    apply orb_prop in Hc' as [-> | ->]; by rewrite ?orb_true_r.
Qed.

Lemma canonical_validHostname s : canonical_name s → validHostname s false = true.
Proof.
  intros Hs. unfold validHostname. rewrite canonical_trim by done. destruct Hs as (Hlen & Hv & _).
  destruct (String.eqb_spec s "") as [->|]; [simpl in Hlen; lia|].
  destruct (String.eqb_spec s "*") as [->|]; [done|]. simpl.
  destruct (split_byte "." s) as [|l ls]; [done|]. simpl in *. apply andb_prop in Hv as [Hl Hls].
  rewrite validDNSLabel_part by done. simpl. rewrite forallb_forall in *. intros x Hx. by apply validDNSLabel_part, Hls.
Qed.

Lemma canonical_unbracketed s : canonical_name s → unbracketed s = s.
Proof.
  intros (_ & H%labels_chars & _). unfold unbracketed. destruct s as [|c s]; [done|]. cbn [string_forallb] in H.
  apply andb_prop in H as [Hc _]. replace (has_prefix (String c s) "[") with false; [by rewrite andb_false_r|].
  symmetry. apply not_true_is_false. intros [t [= -> _]]%has_prefix_spec. done.
Qed.

(** Verification of a canonical name looks at the DNS names only. *)
Lemma VerifyHostname_canonical leaf s : canonical_name s → VerifyHostname leaf s = existsb (fun pattern =>
  if validHostname pattern true then matchHostnames pattern s else matchExactly pattern s) (lf_dnsNames leaf).
Proof.
  intros Hs. unfold VerifyHostname, ParseIP. rewrite canonical_unbracketed by done.
  pose proof Hs as (_ & _ & Ha). by rewrite Ha, canonical_lower, canonical_validHostname by done.
Qed.

Lemma equalParts_eq l k : equalParts l k = true ↔ l = k.
Proof.
  revert k. induction l as [|x l IH]; intros [|y k]; simpl; try done.
  rewrite andb_true_iff, String.eqb_eq, IH. split; [by intros [-> ->]|by intros [= -> ->]].
Qed.

Lemma normalizeBindingHost_canonical raw c wildcard : normalizeBindingHost raw = Some (c, wildcard) → canonical_name c.
Proof.
  unfold normalizeBindingHost. destruct (canonicalizeServerName _) as [c'|] eqn:E; [|done].
  destruct (_ && _); [done|]. intros [= <- _]. by apply canonicalizeServerName_spec in E as [_ ?].
Qed.

Lemma split_label label suffix : contains_byte "." label = false →
  split_byte "." (label +:+ "." +:+ suffix) = label :: split_byte "." suffix.
Proof. intros Hl. by apply split_byte_app. Qed.

(** A pattern that matches "a.suffix" and is no literal name matches every
    name one label below the suffix. *)
Lemma wildcardSAN_matches dnsName suffix label : canonical_name suffix → wildcardSANVerifies dnsName suffix = true →
  has_prefix dnsName "*." = true → contains_byte "." label = false → canonical_name (label +:+ "." +:+ suffix) →
  validHostname dnsName true = true ∧ matchHostnames dnsName (label +:+ "." +:+ suffix) = true.
Proof.
  intros Hsuffix Hver [r Hr]%has_prefix_spec Hlabel Hname. unfold wildcardSANVerifies, VerifyHostname in Hver.
  destruct (ParseIP _); [done|]. cbn [lf_dnsNames existsb] in Hver. rewrite orb_false_r in Hver.
  change ("a." +:+ suffix) with ("a" +:+ "." +:+ suffix) in Hver.
  assert (Hsplit : split_byte "." ("a" +:+ "." +:+ suffix) = "a" :: split_byte "." suffix) by (by apply split_label).
  assert (Ha : to_lower_ascii ("a" +:+ "." +:+ suffix) = "a" +:+ "." +:+ suffix).
  { change (to_lower_ascii ("a" +:+ "." +:+ suffix)) with ("a" +:+ "." +:+ to_lower_ascii suffix). by rewrite canonical_lower. }
  assert (Ht : trim_suffix_dot ("a" +:+ "." +:+ suffix) = "a" +:+ "." +:+ suffix).
  { apply labels_trim. rewrite Hsplit. cbn [forallb]. by destruct Hsuffix as (_ & -> & _). }
  assert (Hexact : matchExactly dnsName ("a" +:+ "." +:+ suffix) = false).
  { unfold matchExactly. destruct (_ || _); [done|]. by rewrite Ha, Hr. }
  rewrite Ha, Hexact in Hver. destruct (validHostname dnsName true); [|by rewrite andb_false_r in Hver].
  split; [done|]. destruct (validHostname _ false) in Hver; [|done]. simpl andb in Hver. cbv iota in Hver.
  unfold matchHostnames in *. rewrite Ht, Ha, Hsplit in Hver.
  rewrite (canonical_trim _ Hname), (canonical_lower _ Hname), split_label by done.
  assert (Hp : split_byte "." (to_lower_ascii dnsName) = "*" :: split_byte "." (to_lower_ascii r)) by (by rewrite Hr).
  rewrite Hp in *. destruct (String.eqb (to_lower_ascii dnsName) ""); [done|]. simpl in Hver |- *.
  destruct (String.eqb_spec (label +:+ String "." suffix) "") as [He|_]; [|exact Hver].
  apply (f_equal String.length) in He. rewrite length_string_app in He. simpl in He. lia.
Qed.

(** The certificate of a wildcard index entry verifies for every name one
    label below it. *)
Lemma wildcard_covers certificate suffix label : canonical_name suffix →
  certificateCoversHost certificate suffix true = true → contains_byte "." label = false →
  canonical_name (label +:+ "." +:+ suffix) →
  ∃ leaf, tc_leaf certificate = Some leaf ∧ VerifyHostname leaf (label +:+ "." +:+ suffix) = true.
Proof.
  intros Hs Hcov Hlabel Hname. unfold certificateCoversHost in Hcov.
  destruct (tc_leaf certificate) as [leaf|]; [|done]. exists leaf. split; [done|].
  rewrite VerifyHostname_canonical by done. apply existsb_exists in Hcov as (dnsName & Hin & Hcov).
  apply existsb_exists. exists dnsName. split; [done|]. unfold sanCovers in Hcov.
  destruct (normalizeBindingHost dnsName) as [[c []]|] eqn:Hn; [|done..].
  apply andb_prop in Hcov as [->%String.eqb_eq Hver].
  assert (Hpre : has_prefix dnsName "*." = true).
  { unfold normalizeBindingHost in Hn. destruct (has_prefix dnsName "*."); [done|]. simpl in Hn.
    by destruct (canonicalizeServerName dnsName). }
  destruct (wildcardSAN_matches dnsName suffix label Hs Hver Hpre Hlabel Hname) as [-> ->]. done.
Qed.

(** ** What compilation establishes *)

(** The bound names of a policy, with the certificate they refer to. *)
Definition bindingNames (b : SNIBinding) : list (string * string) := pair (sb_certificateRef b) <$> sb_hosts b.

Fixpoint bound (names : list (string * string)) (canonical : string) (wildcard : bool) : option string :=
  match names with
  | [] => None
  | (ref, host) :: names =>
      if bool_decide (normalizeBindingHost host = Some (canonical, wildcard)) then Some ref
      else bound names canonical wildcard
  end.

Lemma bound_app P ref host c w : bound (P ++ [(ref, host)]) c w =
  match bound P c w with
  | Some r => Some r
  | None => if bool_decide (normalizeBindingHost host = Some (c, w)) then Some ref else None
  end.
Proof.
  induction P as [|[r h] P IH]; cbn [app bound]; [done|].
  by destruct (bool_decide (normalizeBindingHost h = _)).
Qed.

Definition valid_at (now : Z) (certificate : tlsCertificate) : Prop :=
  tc_chain certificate ≠ [] ∧
  ∃ leaf, tc_leaf certificate = Some leaf ∧ (lf_notBefore leaf ≤ now ≤ lf_notAfter leaf)%Z.

Definition certificate_of (materials : gmap string Certificate) (ref : string) : option tlsCertificate :=
  cert_certificate <$> materials !! ref.

Section Invariant.
Context (now : Z) (materials : gmap string Certificate).
Context (Hids : ∀ id m, materials !! id = Some m → cert_id m = id).

Record compiled_ok (names : list (string * string)) (st : compileState) : Prop := {
  co_compiled id c : cp_compiled st !! id = Some c → certificate_of materials id = Some c ∧ valid_at now c;
  co_index w c : match bound names c w with
    | None => cp_index st w !! c = None
    | Some ref => ∃ cert, certificate_of materials ref = Some cert ∧ cp_index st w !! c = Some cert
    end;
  co_covers w c cert : cp_index st w !! c = Some cert →
    canonical_name c ∧ certificateCoversHost cert c w = true ∧ valid_at now cert;
  co_counts : cp_stats st = mkSelectorStats (size (cp_compiled st)) (size (cp_exact st)) (size (cp_wildcard st))
    (ss_earliestExpiry (cp_stats st));
}.

Lemma compileCertificate_ok names material st certificate st' ref : materials !! ref = Some material →
  compiled_ok names st → compileCertificate now material st = Ok (certificate, st') →
  compiled_ok names st' ∧ certificate_of materials ref = Some certificate ∧ valid_at now certificate.
Proof.
  intros Hm Hok. pose proof (Hids _ _ Hm) as Hid. unfold compileCertificate. rewrite Hid.
  destruct (cp_compiled st !! ref) as [c|] eqn:Hc.
  { intros [= -> ->]. destruct (co_compiled _ _ Hok _ _ Hc). auto. }
  destruct (tc_leaf (cert_certificate material)) as [leaf|] eqn:Hleaf; [|done].
  destruct (tc_chain (cert_certificate material)) as [|der ders] eqn:Hchain; [done|].
  destruct (Z.ltb_spec now (lf_notBefore leaf)); [done|]. destruct (Z.ltb_spec (lf_notAfter leaf) now); [done|].
  intros [= <- <-].
  assert (Hcert : certificate_of materials ref = Some (cert_certificate material)) by (unfold certificate_of; by rewrite Hm).
  assert (Hvalid : valid_at now (cert_certificate material)) by (split; [by rewrite Hchain|by exists leaf]).
  split; [|done]. destruct Hok as [Hc1 Hc2 Hc3 Hc4]. split; simpl; [|exact Hc2|exact Hc3|].
  - intros id c [[<- <-]|[_ ?]]%lookup_insert_Some; [done|by apply Hc1].
  - rewrite map_size_insert_None by done. rewrite Hc4. done.
Qed.

Lemma cp_index_addName st c w cert w' : cp_index (addName st c w cert) w' =
  if bool_decide (w = w') then <[c := cert]> (cp_index st w') else cp_index st w'.
Proof. by destruct w, w'. Qed.

Lemma bindHost_ok names ref certificate st host st' : certificate_of materials ref = Some certificate →
  valid_at now certificate → compiled_ok names st → bindHost ref certificate st host = Ok st' →
  compiled_ok (names ++ [(ref, host)]) st'.
Proof.
  intros Hcert Hvalid [Hc1 Hc2 Hc3 Hc4]. unfold bindHost.
  destruct (normalizeBindingHost host) as [[c w]|] eqn:Hn; [|done].
  case_bool_decide as Hdup; [done|]. apply eq_None_not_Some in Hdup.
  destruct (certificateCoversHost certificate c w) eqn:Hcov; [|done]. intros [= <-]. split.
  - intros id c'. destruct w; apply Hc1.
  - intros w' c'. rewrite bound_app, cp_index_addName, Hn. specialize (Hc2 w' c').
    destruct (bound names c' w') as [r|].
    + destruct Hc2 as (cert & ? & Hi). exists cert. split; [done|]. case_bool_decide as Hw; [|done].
      subst w'. apply lookup_insert_Some. right. split; [|done]. intros ->. congruence.
    + repeat case_bool_decide; simplify_eq.
      * exists certificate. split; [done|]. apply lookup_insert_eq.
      * rewrite lookup_insert_ne; [done|]. congruence.
      * done.
  - intros w' c' cert. rewrite cp_index_addName. case_bool_decide as Hw; [|apply Hc3]. subst w'.
    intros [[<- <-]|[_ Hi]]%lookup_insert_Some; [|by apply Hc3]. split_and!; [|done..].
    by eapply normalizeBindingHost_canonical.
  - destruct w; simpl in *; rewrite map_size_insert_None by done; rewrite Hc4; done.
Qed.

Lemma bindHosts_ok names ref certificate st hosts st' : certificate_of materials ref = Some certificate →
  valid_at now certificate → compiled_ok names st → bindHosts ref certificate st hosts = Ok st' →
  compiled_ok (names ++ (pair ref <$> hosts)) st'.
Proof.
  intros Hcert Hvalid. revert names st. induction hosts as [|h hosts IH]; intros names st Hok; cbn [bindHosts].
  { intros [= <-]. by rewrite app_nil_r. }
  destruct (bindHost ref certificate st h) as [st1|] eqn:E; [|done]. cbn [mbind result_bind]. intros Hrun.
  rewrite fmap_cons, cons_middle, app_assoc. eapply IH; [|exact Hrun]. by eapply bindHost_ok.
Qed.

Lemma compileBindings_ok names st bindings st' : compiled_ok names st →
  compileBindings now materials st bindings = Ok st' → compiled_ok (names ++ (bindings ≫= bindingNames)) st'.
Proof.
  revert names st. induction bindings as [|b bindings IH]; intros names st Hok; simpl.
  { intros [= <-]. by rewrite app_nil_r. }
  unfold compileBinding. destruct (_ || _); [done|].
  destruct (materials !! sb_certificateRef b) as [material|] eqn:Hm; [|done].
  destruct (compileCertificate now material st) as [[certificate st1]|] eqn:Hc; [|done].
  destruct (compileCertificate_ok _ _ _ _ _ _ Hm Hok Hc) as (Hok1 & Hcert & Hvalid). cbn [mbind result_bind].
  destruct (bindHosts _ _ _ _) as [st2|] eqn:Hh; [|done]. cbn [mbind result_bind]. intros Hrun.
  rewrite app_assoc. eapply IH; [|exact Hrun]. by eapply bindHosts_ok.
Qed.
End Invariant.

(** The material of a list with a given identifier. *)
Definition materialNamed (materials : list (option Certificate)) (ref : string) : option Certificate :=
  head (filter (fun m => cert_id m = ref) (omap id materials)).

Lemma indexCertificates_ok materials index index' : (∀ id m, index !! id = Some m → cert_id m = id) →
  indexCertificates materials index = Ok index' → (∀ id m, index' !! id = Some m → cert_id m = id) ∧
  ∀ ref, index' !! ref = match index !! ref with Some m => Some m | None => materialNamed materials ref end.
Proof.
  revert index. induction materials as [|[m|] materials IH]; intros index Hids; cbn [indexCertificates]; [| |done].
  { intros [= <-]. split; [done|]. intros ref. by destruct (index !! ref). }
  destruct (String.eqb _ ""); [done|]. case_bool_decide as Hdup; [done|]. apply eq_None_not_Some in Hdup.
  intros Hrun%IH; [|by intros id m' [[<- <-]|[_ ?]]%lookup_insert_Some; [|apply Hids]].
  destruct Hrun as [Hids' Hlookup]. split; [done|]. intros ref. rewrite Hlookup. unfold materialNamed. simpl.
  destruct (decide (cert_id m = ref)) as [<-|Hne].
  - rewrite lookup_insert_eq, Hdup, filter_cons_True by done. done.
  - rewrite lookup_insert_ne, filter_cons_False by done. done.
Qed.

Lemma compileSelector_ok now policy materials sel : compileSelector now (Some policy) materials = Ok sel →
  ∃ index st certificate,
    (∀ ref, index !! ref = materialNamed materials ref) ∧
    compiled_ok now index (dt_sniBindings policy ≫= bindingNames) st ∧
    certificate_of index (dt_defaultCertificateRef policy) = Some certificate ∧ valid_at now certificate ∧
    sel = mkSelector (Some certificate) (cp_exact st) (cp_wildcard st) (cp_stats st).
Proof.
  unfold compileSelector. destruct (negb _); [done|].
  destruct (indexCertificates materials ∅) as [index|] eqn:Hindex; [|done]. cbn [mbind result_bind].
  apply indexCertificates_ok in Hindex as [Hids Hlookup]; [|by intros ? ? ?].
  destruct (String.eqb _ ""); [done|]. destruct (index !! _) as [material|] eqn:Hm; [|done].
  destruct (compileCertificate _ _ _) as [[certificate st]|] eqn:Hc; [|done]. cbn [mbind result_bind].
  assert (Hempty : compiled_ok now index [] (mkCompileState ∅ ∅ ∅ zeroStats))
    by (split; [by intros ? ? ?|by intros []|by intros [] ? ? ?|done]).
  destruct (compileCertificate_ok _ _ Hids _ _ _ _ _ _ Hm Hempty Hc) as (Hok & Hcert & Hvalid).
  destruct (compileBindings _ _ st _) as [st'|] eqn:Hb; [|done]. intros [= <-].
  exists index, st', certificate. split_and!; [|by eapply (compileBindings_ok _ _ Hids [])|done..].
  intros ref. by rewrite Hlookup, lookup_empty.
Qed.

(** ** Selection *)

(** What a policy says about a name. *)
Definition policyChoice (policy : DownstreamTLSPolicy) (name : string) : string * certificateSelection :=
  let names := dt_sniBindings policy ≫= bindingNames in
  let default := (dt_defaultCertificateRef policy, SelectionDefault) in
  match canonicalizeServerName name with
  | None => default
  | Some canonical =>
      match bound names canonical false with
      | Some ref => (ref, SelectionExact)
      | None =>
          match parentName canonical ≫= fun suffix => bound names suffix true with
          | Some ref => (ref, SelectionWildcard)
          | None => default
          end
      end
  end.

Lemma canonicalize_empty : canonicalizeServerName "" = None.
Proof. reflexivity. Qed.

(** A selector compiled from a policy answers every handshake with the
    certificate the policy binds to the canonical server name, else to its
    parent domain as a wildcard, else with the default one, and reports which
    of the three applied; a handshake without name gets the default. *)
Theorem Select_follows_policy now policy materials sel : compileSelector now (Some policy) materials = Ok sel →
  (∀ name, let (ref, class) := policyChoice policy name in
     ∃ material, materialNamed materials ref = Some material ∧
       Select (Some sel) (Some name) = (Some (cert_certificate material), class)) ∧
  ∃ material, materialNamed materials (dt_defaultCertificateRef policy) = Some material ∧
    Select (Some sel) None = (Some (cert_certificate material), SelectionDefault).
Proof.
  intros (index & st & certificate & Hlookup & Hok & Hcert & _ & ->)%compileSelector_ok.
  assert (Hnamed : ∀ ref cert, certificate_of index ref = Some cert →
    ∃ material, materialNamed materials ref = Some material ∧ cert = cert_certificate material).
  { intros ref cert. unfold certificate_of. rewrite Hlookup. intros (m & ? & ->)%fmap_Some. by exists m. }
  destruct (Hnamed _ _ Hcert) as (default & Hdefault & ->).
  split; [|by exists default]. intros name. unfold policyChoice, Select. cbn [sel_default sel_exact sel_wildcard].
  destruct name as [|a name]; [by exists default|].
  destruct (canonicalizeServerName (String a name)) as [c|]; [|by exists default].
  pose proof (co_index _ _ _ _ Hok false c) as Hexact. cbn [cp_index] in Hexact.
  destruct (bound _ c false) as [ref|].
  { destruct Hexact as (cert & (m & Hm & ->)%Hnamed & ->). by exists m. }
  rewrite Hexact. destruct (parentName c) as [suffix|]; [|by exists default]. cbn [mbind option_bind].
  pose proof (co_index _ _ _ _ Hok true suffix) as Hwild. cbn [cp_index] in Hwild.
  destruct (bound _ suffix true) as [ref|].
  - destruct Hwild as (cert & (m & Hm & ->)%Hnamed & ->). by exists m.
  - rewrite Hwild. by exists default.
Qed.

Lemma parentName_split c suffix : parentName c = Some suffix →
  ∃ label, c = label +:+ "." +:+ suffix ∧ contains_byte "." label = false.
Proof.
  unfold parentName. destruct (index_byte "." c) as [k|] eqn:E; [|done].
  destruct (_ && _); [|done]. intros [= <-]. apply index_byte_some in E as (_ & Hno & Hd).
  exists (stake k c). split; [|done]. rewrite <-(stake_sdrop_app k c) at 1. by rewrite Hd.
Qed.

(** A handshake is never answered with a certificate outside its validity
    period at compile time, and a certificate chosen by an exact or wildcard
    binding verifies, by the rules of [crypto/x509], for the canonical form of
    the server name the client asked for. *)
Lemma selected_certificate_verifies now policy materials sel hello certificate class :
  compileSelector now (Some policy) materials = Ok sel → Select (Some sel) hello = (Some certificate, class) →
  valid_at now certificate ∧
  (class = SelectionDefault ∨
   ∃ name c leaf, hello = Some name ∧ canonicalizeServerName name = Some c ∧
     tc_leaf certificate = Some leaf ∧ VerifyHostname leaf c = true).
Proof.
  intros (index & st & default & _ & Hok & _ & Hvalid & ->)%compileSelector_ok. unfold Select.
  cbn [sel_default sel_exact sel_wildcard]. destruct hello as [[|a name]|]; [by intros [= <- <-]; auto| |by intros [= <- <-]; auto].
  destruct (canonicalizeServerName (String a name)) as [c|] eqn:Hc; [|by intros [= <- <-]; auto].
  destruct (cp_exact st !! c) as [cert|] eqn:He.
  { intros [= <- <-]. destruct (co_covers _ _ _ _ Hok false _ _ He) as (_ & Hcov & Hv). split; [done|]. right.
    unfold certificateCoversHost in Hcov. destruct (tc_leaf cert) as [leaf|] eqn:Hl; [|done].
    by exists (String a name), c, leaf. }
  destruct (parentName c) as [suffix|] eqn:Hp; [|by intros [= <- <-]; auto]. cbn [mbind option_bind].
  destruct (cp_wildcard st !! suffix) as [cert|] eqn:Hw; [|by intros [= <- <-]; auto]. intros [= <- <-].
  destruct (co_covers _ _ _ _ Hok true _ _ Hw) as (Hs & Hcov & Hv). split; [done|]. right.
  apply parentName_split in Hp as (label & -> & Hlabel). pose proof Hc as [_ Hname]%canonicalizeServerName_spec.
  destruct (wildcard_covers _ _ _ Hs Hcov Hlabel Hname) as (leaf & Hl & Hver). by exists (String a name), (label +:+ "." +:+ suffix), leaf.
Qed.

(** ** A concrete policy *)

Definition demo_leaf (names : list string) : Leaf := mkLeaf "der" 10 90 names [].
Definition demo_material (id : string) (names : list string) : option Certificate :=
  Some (mkCertificate id (mkTLSCertificate ["der"] (Some (demo_leaf names))) "").
Definition demo_materials : list (option Certificate) :=
  [demo_material "site" ["shop.example.com"; "*.example.com"]; demo_material "default" ["gateway.local"]].
Definition demo_policy : DownstreamTLSPolicy :=
  mkDownstreamTLS "default" [mkSNIBinding "site" ["Shop.example.com."; "*.example.com"]].

Lemma Select_follows_policy_witness : ∃ sel material, compileSelector 50 (Some demo_policy) demo_materials = Ok sel ∧
  policyChoice demo_policy "API.example.com" = ("site", SelectionWildcard) ∧
  Select (Some sel) (Some "API.example.com") = (Some (cert_certificate material), SelectionWildcard).
Proof.
  destruct (compileSelector 50 (Some demo_policy) demo_materials) as [sel|] eqn:E; [|vm_compute in E; discriminate E].
  destruct (Select_follows_policy 50 demo_policy demo_materials sel E) as [Hs _]. specialize (Hs "API.example.com").
  assert (Hp : policyChoice demo_policy "API.example.com" = ("site", SelectionWildcard)) by (vm_compute; reflexivity).
  rewrite Hp in Hs. destruct Hs as (material & _ & Hs). exists sel, material. split; [reflexivity|]. split; [exact Hp|exact Hs].
Defined.
