(* ===== verification/Builder.v ===== *)
(** * Snapshot building ([internal/runtime/{validate,builder,snapshot}.go])

    A configuration revision is validated, its references are resolved against
    the prepared upstream plans, the plugin chain of every route is compiled,
    and the routes are handed to the router under their position. The theorems
    show that a snapshot is built only from a well-formed resource set, that
    every compiled route carries the plan, chain and policies its resource
    names, and that matching a request never leaves the route table and finds
    the route the router's precedence prescribes. Cloning resources is the
    identity here; error causes are left out. *)

From S2P Require Import Prelude GoStrings NetAddr Pattern Predicate Router RouterTrie RouterSearch RouterCorrect HttpHeader Plugins.
From S2P Require Import Apportion Wrr HashKey Chash Url Resources UpstreamConfig X509 Fingerprint Health Budget RefTable Plan Registry DownstreamTLS.
#[local] Open Scope string_scope.
#[local] Open Scope Z_scope.
#[local] Open Scope list_scope.

(** ** Resources ([internal/model/resources.go]) *)

Record WebSocketPolicyOverride := mkWebSocketOverride {
  wo_enabled : option bool;
  wo_idleTimeout : option Z;
}.

Record WebSocketPolicy := mkWebSocketPolicy { ws_enabled : bool; ws_idleTimeout : Z }.

Record RouteResiliencePolicy := mkResilience {
  rr_totalTimeout : option Z;
  rr_maxAttempts : option Z;
  rr_methods : option (list string);
  rr_retryOn : option RetryOnPolicy;
}.

Record Route := mkRoute {
  rt_id : string;
  rt_priority : Z;
  rt_match : RouteMatch;
  rt_serviceRef : string;
  rt_upstreamRef : string;
  rt_plugins : list PluginAttachment;
  rt_resilience : RouteResiliencePolicy;
  rt_webSocket : WebSocketPolicyOverride;
}.

Record Service := mkService {
  sv_id : string;
  sv_upstreamRef : string;
  sv_plugins : list PluginAttachment;
  sv_webSocket : WebSocketPolicyOverride;
}.

Record ResourceSet := mkResourceSet {
  rs_routes : list Route;
  rs_services : list Service;
  rs_upstreams : list Upstream;
  rs_certificates : list (option Certificate);
  rs_downstreamTLS : option DownstreamTLSPolicy;
  rs_trustBundles : list (option TrustBundle);
}.

Definition DefaultWebSocketIdleTimeout : Z := 60 * 1000000000.

(** ** Errors ([errors.go]) *)

Inductive BuildStage := StageValidate | StageResolve | StagePlugin | StageRouter.

Record BuildError := mkBuildError {
  be_code : string;
  be_stage : BuildStage;
  be_revision : Z;
  be_resourceKind : string;
  be_resourceID : string;
  be_field : string;
}.

(** ** Validation ([validate.go]) *)

Section Validate.
Context (revision : Z).

Definition reject (code : string) (stage : BuildStage) (kind id field : string) : result BuildError unit :=
  Err (mkBuildError code stage revision kind id field).

Fixpoint checkIDs (all : list (string * string)) (seen : gset (string * string)) : result BuildError unit :=
  match all with
  | [] => Ok tt
  | (kind, id) :: all =>
      if String.eqb (trim_space id) "" || negb (String.eqb (trim_space id) id)
      then reject "RESOURCE_ID_INVALID" StageValidate kind id "id"
      else if bool_decide ((kind, id) ∈ seen)
      then reject "RESOURCE_ID_DUPLICATE" StageValidate kind id "id"
      else checkIDs all ({[(kind, id)]} ∪ seen)
  end.

Definition resourceIDs (resources : ResourceSet) : list (string * string) :=
  (pair "route" ∘ rt_id <$> rs_routes resources) ++ (pair "service" ∘ sv_id <$> rs_services resources)
  ++ (pair "upstream" ∘ up_id <$> rs_upstreams resources).

Definition validateResourceIDs (resources : ResourceSet) : result BuildError unit :=
  checkIDs (resourceIDs resources) ∅.

Fixpoint pluginScopeLoop (seen : gset string) (plugins : list PluginAttachment) : bool :=
  match plugins with
  | [] => true
  | a :: plugins =>
      if String.eqb (trim_space (pa_name a)) "" then false
      else if bool_decide (pa_name a ∈ seen) then false
      else pluginScopeLoop ({[pa_name a]} ∪ seen) plugins
  end.

(** Whether [validatePluginScope] returns no error. *)
Definition validatePluginScope (plugins : list PluginAttachment) : bool := pluginScopeLoop ∅ plugins.

Definition negativeTimeout (o : WebSocketPolicyOverride) : bool :=
  match wo_idleTimeout o with Some t => t <? 0 | None => false end.

Definition validateService (upstreams : gset string) (s : Service) : result BuildError unit :=
  if negb (bool_decide (sv_upstreamRef s ∈ upstreams))
  then reject "REFERENCE_NOT_FOUND" StageResolve "service" (sv_id s) "upstream_ref"
  else if negb (validatePluginScope (sv_plugins s))
  then reject "PLUGIN_SCOPE_INVALID" StageValidate "service" (sv_id s) "plugins"
  else if negativeTimeout (sv_webSocket s)
  then reject "WEBSOCKET_POLICY_INVALID" StageValidate "service" (sv_id s) "websocket.idle_timeout"
  else Ok tt.

Definition validateRoute (upstreams services : gset string) (r : Route) : result BuildError unit :=
  if Bool.eqb (String.eqb (rt_serviceRef r) "") (String.eqb (rt_upstreamRef r) "")
  then reject "ROUTE_TARGET_INVALID" StageValidate "route" (rt_id r) ""
  else if negb (String.eqb (rt_serviceRef r) "") && negb (bool_decide (rt_serviceRef r ∈ services))
  then reject "REFERENCE_NOT_FOUND" StageResolve "route" (rt_id r) "service_ref"
  else if negb (String.eqb (rt_upstreamRef r) "") && negb (bool_decide (rt_upstreamRef r ∈ upstreams))
  then reject "REFERENCE_NOT_FOUND" StageResolve "route" (rt_id r) "upstream_ref"
  else if negb (validatePluginScope (rt_plugins r))
  then reject "PLUGIN_SCOPE_INVALID" StageValidate "route" (rt_id r) "plugins"
  else if negativeTimeout (rt_webSocket r)
  then reject "WEBSOCKET_POLICY_INVALID" StageValidate "route" (rt_id r) "websocket.idle_timeout"
  else Ok tt.

Fixpoint validateEach {A} (check : A → result BuildError unit) (l : list A) : result BuildError unit :=
  match l with
  | [] => Ok tt
  | x :: l => _ ← check x; validateEach check l
  end.

Definition validateResources (resources : ResourceSet) : result BuildError unit :=
  if revision =? 0 then Err (mkBuildError "REVISION_INVALID" StageValidate 0 "" "" "")
  else
    match rs_routes resources with
    | [] => reject "ROUTES_EMPTY" StageValidate "" "" ""
    | _ =>
        _ ← validateResourceIDs resources;
        let upstreams := list_to_set (up_id <$> rs_upstreams resources) in
        _ ← validateEach (validateService upstreams) (rs_services resources);
        let services := list_to_set (sv_id <$> rs_services resources) in
        validateEach (validateRoute upstreams services) (rs_routes resources)
    end.
End Validate.

(** ** Effective policies ([builder.go]) *)

Definition effectiveWebSocketPolicy (service route : WebSocketPolicyOverride) : WebSocketPolicy :=
  let out := mkWebSocketPolicy false DefaultWebSocketIdleTimeout in
  let out := mkWebSocketPolicy (default (ws_enabled out) (wo_enabled service)) (ws_idleTimeout out) in
  let out := mkWebSocketPolicy (ws_enabled out) (default (ws_idleTimeout out) (wo_idleTimeout service)) in
  let out := mkWebSocketPolicy (default (ws_enabled out) (wo_enabled route)) (ws_idleTimeout out) in
  mkWebSocketPolicy (ws_enabled out) (default (ws_idleTimeout out) (wo_idleTimeout route)).

Definition effectiveRetryPolicy (base : RetryPolicy) (override : RouteResiliencePolicy) : RetryPolicy :=
  let maxAttempts := if rp_maxAttempts base =? 0 then 1 else rp_maxAttempts base in
  mkRetryPolicy (default maxAttempts (rr_maxAttempts override))
    (default (rp_methods base) (rr_methods override)) (default (rp_retryOn base) (rr_retryOn override))
    (rp_budget base) (default (rp_totalTimeout base) (rr_totalTimeout override)).

(** ** Snapshots ([snapshot.go]) *)

Inductive certificateProvider :=
| StaticProvider (certificate : tlsCertificate)
| SelectorProvider (selector : CertificateSelector).

Record SnapshotStats := mkSnapshotStats {
  st_revision : Z;
  st_routeCount : nat;
  st_serviceCount : nat;
  st_upstreamCount : nat;
  st_pluginCount : nat;
  st_downstream : selectorStats;
}.

Definition noService : Service := mkService "" "" [] (mkWebSocketOverride None None).

Section Build.
Context {Q R : Type} `{Unicode}.

Record CompiledRoute := mkCompiledRoute {
  cr_meta : string;
  cr_service : option string;
  cr_upstreamMeta : string;
  cr_plan : Plan;
  cr_plugins : @Chain Q R;
  cr_retry : RetryPolicy;
  cr_websocket : WebSocketPolicy;
}.

Record Snapshot := mkSnapshot {
  sn_revision : Z;
  sn_router : Router;
  sn_routes : list CompiledRoute;
  sn_downstreamTLS : option certificateProvider;
  sn_stats : SnapshotStats;
}.

Record Match_ := mkMatch {
  m_found : bool;
  m_methodNotAllowed : bool;
  m_route : option CompiledRoute;
  m_params : list ParamSpan;
  m_allow : list string;
}.

(** [Snapshot.Match]; the outer [None] is an index out of range. *)
Definition snapshot_Match (s : Snapshot) (r : request) : option (result matchError Match_) :=
  match Match (sn_router s) r with
  | Err e => Some (Err e)
  | Ok res =>
      let m route := Some (Ok (mkMatch (Found res) (MethodNotAllowed res) route (Params res) (Allow res))) in
      if Found res then
        if RouteIndex res <? 0 then None
        else match sn_routes s !! Z.to_nat (RouteIndex res) with None => None | Some route => m (Some route) end
      else m None
  end.

(** [Candidate.Plan]; a nil candidate is [None]. *)
Definition candidate_Plan (candidate : option Candidate) (id : string) : option Plan :=
  match candidate with None => None | Some c => c_plans c !! id end.

(** The builder: its plugin registry, the order its maps are traversed in and
    the legacy provider; [now] is the instant [Build] reads. *)
Context (definitions : gmap string (@PluginDefinition Q R)).
Context (iterate : gmap string PluginAttachment → list string).
Context (legacy : option certificateProvider) (now : Z).

Section Revision.
Context (revision : Z).

Definition resolveRoute (services : gmap string Service) (route : Route)
    : option string * list PluginAttachment * WebSocketPolicyOverride * string :=
  if negb (String.eqb (rt_serviceRef route) "") then
    let service := default noService (services !! rt_serviceRef route) in
    (Some (sv_id service), sv_plugins service, sv_webSocket service, sv_upstreamRef service)
  else (None, [], mkWebSocketOverride None None, rt_upstreamRef route).

(** One round of the route loop. *)
Definition compileResourceRoute (services : gmap string Service) (upstreams : gmap string Upstream)
    (candidate : option Candidate) (route : Route) : result BuildError CompiledRoute :=
  let '(serviceMeta, servicePlugins, serviceSocket, upstreamID) := resolveRoute services route in
  match candidate_Plan candidate upstreamID with
  | None => Err (mkBuildError "REFERENCE_NOT_FOUND" StageResolve revision "route" (rt_id route) "upstream_ref")
  | Some plan =>
      let webSocketPolicy := effectiveWebSocketPolicy serviceSocket (rt_webSocket route) in
      let upstream := upstreams !! upstreamID in
      if ws_enabled webSocketPolicy
         && bool_decide (tc_protocol ∘ up_transport <$> upstream = Some TransportProtocolHTTP2)
      then Err (mkBuildError "WEBSOCKET_UPSTREAM_PROTOCOL_INVALID" StageResolve revision "route" (rt_id route)
                  "websocket.enabled")
      else
        match CompileChain iterate definitions servicePlugins (rt_plugins route) with
        | Err _ => Err (mkBuildError "PLUGIN_COMPILE_FAILED" StagePlugin revision "route" (rt_id route) "plugins")
        | Ok chain =>
            let retry := default (mkRetryPolicy 0 [] (mkRetryOn false false false []) (mkRetryBudget 0 0 0) 0)
                           (up_retry <$> upstream) in
            Ok (mkCompiledRoute (rt_id route) serviceMeta upstreamID plan chain
                  (effectiveRetryPolicy retry (rt_resilience route)) webSocketPolicy)
        end
  end.

Definition routeSpec (index : nat) (route : Route) : RouteSpec :=
  mkRouteSpec (Z.of_nat index) (rt_id route) (rt_priority route) (rt_match route).

(** The route loop: the compiled routes, the router's specifications and the
    number of plugins. *)
Fixpoint compileResourceRoutes (services : gmap string Service) (upstreams : gmap string Upstream)
    (candidate : option Candidate) (todo : list Route) (routes : list CompiledRoute) (specs : list RouteSpec)
    (pluginCount : nat) : result BuildError (list CompiledRoute * list RouteSpec * nat) :=
  match todo with
  | [] => Ok (routes, specs, pluginCount)
  | route :: todo =>
      compiled ← compileResourceRoute services upstreams candidate route;
      compileResourceRoutes services upstreams candidate todo (routes ++ [compiled])
        (specs ++ [routeSpec (length routes) route]) (pluginCount + length (ch_names (cr_plugins compiled)))%nat
  end.

(** Every error of the selector is a [ConfigError], so the other branch of the
    source cannot be taken. *)
Definition compileDownstream (resources : ResourceSet)
    : result BuildError (option certificateProvider * selectorStats) :=
  match rs_downstreamTLS resources with
  | None => Ok (legacy, zeroStats)
  | Some policy =>
      match compileSelector now (Some policy) (rs_certificates resources) with
      | Err e => Err (mkBuildError (se_code e) StageValidate revision "certificate" (se_resourceID e) (DownstreamTLS.se_field e))
      | Ok selector => Ok (Some (SelectorProvider selector), sel_stats selector)
      end
  end.

Definition byID {A} (id : A → string) (l : list A) : gmap string A :=
  foldl (fun m x => <[id x := x]> m) ∅ l.

Definition Build (resources : ResourceSet) (candidate : option Candidate) : result BuildError Snapshot :=
  _ ← validateResources revision resources;
  match candidate with
  | None => Err (mkBuildError "UPSTREAM_CANDIDATE_MISSING" StageResolve revision "" "" "upstreams")
  | Some _ =>
      '(provider, downstreamStats) ← compileDownstream resources;
      '(routes, specs, pluginCount) ← compileResourceRoutes (byID sv_id (rs_services resources))
        (byID up_id (rs_upstreams resources)) candidate (rs_routes resources) [] [] 0;
      match Compile specs with
      | Err _ => Err (mkBuildError "ROUTER_COMPILE_FAILED" StageRouter revision "" "" "routes")
      | Ok router =>
          Ok (mkSnapshot revision router routes provider
                (mkSnapshotStats revision (length routes) (length (rs_services resources))
                   (length (rs_upstreams resources)) pluginCount downstreamStats))
      end
  end.
End Revision.
End Build.

(** ** Well-formed resources *)

Definition id_ok (id : string) : Prop := id ≠ "" ∧ trim_space id = id.
Definition scope_ok (plugins : list PluginAttachment) : Prop :=
  Forall (fun a => trim_space (pa_name a) ≠ "") plugins ∧ NoDup (pa_name <$> plugins).
Definition timeout_ok (o : WebSocketPolicyOverride) : Prop := ∀ t, wo_idleTimeout o = Some t → 0 ≤ t.

(** The service, if any, and the upstream a route leads to. *)
Inductive resolves (resources : ResourceSet) (route : Route) : option Service → Upstream → Prop :=
| resolves_service s u : rt_serviceRef route ≠ "" → rt_upstreamRef route = "" → s ∈ rs_services resources →
    sv_id s = rt_serviceRef route → u ∈ rs_upstreams resources → up_id u = sv_upstreamRef s →
    resolves resources route (Some s) u
| resolves_upstream u : rt_serviceRef route = "" → rt_upstreamRef route ≠ "" → u ∈ rs_upstreams resources →
    up_id u = rt_upstreamRef route → resolves resources route None u.

Record resources_wf (resources : ResourceSet) : Prop := {
  rw_nonempty : rs_routes resources ≠ [];
  rw_route_ids : Forall id_ok (rt_id <$> rs_routes resources) ∧ NoDup (rt_id <$> rs_routes resources);
  rw_service_ids : Forall id_ok (sv_id <$> rs_services resources) ∧ NoDup (sv_id <$> rs_services resources);
  rw_upstream_ids : Forall id_ok (up_id <$> rs_upstreams resources) ∧ NoDup (up_id <$> rs_upstreams resources);
  rw_services s : s ∈ rs_services resources →
    sv_upstreamRef s ∈ up_id <$> rs_upstreams resources ∧ scope_ok (sv_plugins s) ∧ timeout_ok (sv_webSocket s);
  rw_routes route : route ∈ rs_routes resources →
    (∃ s u, resolves resources route s u) ∧ scope_ok (rt_plugins route) ∧ timeout_ok (rt_webSocket route);
}.

Section Validation.
Context (revision : Z).

Lemma checkIDs_ok all seen : checkIDs revision all seen = Ok tt ↔
  Forall (fun p => id_ok p.2 ∧ p ∉ seen) all ∧ NoDup all.
Proof.
  revert seen. induction all as [|[kind id] all IH]; intros seen; cbn [checkIDs].
  { split; [|done]. intros _. split; [done|apply NoDup_nil_2]. }
  rewrite Forall_cons, NoDup_cons. unfold id_ok at 1. simpl.
  destruct (String.eqb_spec (trim_space id) id) as [Ht|Ht]; [|rewrite orb_true_r; split; [done|]; tauto].
  rewrite Ht, orb_false_r. destruct (String.eqb_spec id "") as [Hid|Hid]; [split; [done|]; tauto|].
  case_bool_decide as Hin; [split; [done|]; tauto|]. rewrite IH. rewrite !Forall_forall. split.
  - intros [Hall Hnd]. split_and!; try done.
    + intros p Hp. destruct (Hall p Hp) as [? Hn]. split; [done|]. set_solver.
    + intros Hin'. destruct (Hall _ Hin') as [_ Hn]. set_solver.
  - intros ((_ & Hall) & Hni & Hnd). split; [|done]. intros p Hp.
    destruct (Hall p Hp) as [? Hn]. split; [done|]. intros [->%elem_of_singleton|]%elem_of_union; done.
Qed.

Lemma pluginScopeLoop_ok seen plugins : pluginScopeLoop seen plugins = true ↔
  Forall (fun a => trim_space (pa_name a) ≠ "" ∧ pa_name a ∉ seen) plugins ∧ NoDup (pa_name <$> plugins).
Proof.
  revert seen. induction plugins as [|a plugins IH]; intros seen; cbn [pluginScopeLoop].
  { split; [|done]. intros _. split; [done|apply NoDup_nil_2]. }
  rewrite fmap_cons, Forall_cons, NoDup_cons.
  destruct (String.eqb_spec (trim_space (pa_name a)) "") as [He|He]; [split; [done|]; tauto|].
  case_bool_decide as Hin; [split; [done|]; tauto|]. rewrite IH, !Forall_forall. split.
  - intros [Hall Hnd]. split_and!; try done.
    + intros b Hb. destruct (Hall b Hb) as [? Hn]. split; [done|]. set_solver.
    + intros (b & Hab & Hb)%list_elem_of_fmap. destruct (Hall b Hb) as [_ Hn]. rewrite <-Hab in Hn. set_solver.
  - intros ((_ & Hall) & Hni & Hnd). split; [|done]. intros b Hb. destruct (Hall b Hb) as [? Hn].
    split; [done|]. intros [Heq%elem_of_singleton|]%elem_of_union; [|done]. destruct Hni. rewrite <-Heq.
    by apply list_elem_of_fmap_2.
Qed.

Lemma validatePluginScope_ok plugins : validatePluginScope plugins = true ↔ scope_ok plugins.
Proof.
  unfold validatePluginScope, scope_ok. rewrite pluginScopeLoop_ok, !Forall_forall.
  split; intros [Hall ?]; (split; [|done]); intros a Ha; [by apply Hall|]. split; [by apply Hall|]. set_solver.
Qed.

Lemma negativeTimeout_ok o : negativeTimeout o = false ↔ timeout_ok o.
Proof.
  unfold negativeTimeout, timeout_ok. destruct (wo_idleTimeout o) as [t|]; [|by split].
  rewrite Z.ltb_ge. split; [by intros ? ? [= <-]|auto].
Qed.

Lemma validateEach_ok {A} (check : A → result BuildError unit) l :
  validateEach check l = Ok tt ↔ Forall (fun x => check x = Ok tt) l.
Proof.
  induction l as [|x l IH]; cbn [validateEach]; [done|]. rewrite Forall_cons.
  destruct (check x) as [[]|]; simpl; [rewrite IH; tauto|]. split; [done|]. by intros [? _].
Qed.

Lemma validateService_ok upstreams s : validateService revision upstreams s = Ok tt ↔
  sv_upstreamRef s ∈ upstreams ∧ scope_ok (sv_plugins s) ∧ timeout_ok (sv_webSocket s).
Proof.
  unfold validateService. rewrite <-validatePluginScope_ok, <-negativeTimeout_ok.
  case_bool_decide; simpl; [|split; [done|]; tauto]. destruct (validatePluginScope _); simpl; [|split; [done|]; by intros (_ & ? & _)].
  destruct (negativeTimeout _); [split; [done|]; by intros (_ & _ & ?)|tauto].
Qed.

Lemma validateRoute_ok upstreams services r : validateRoute revision upstreams services r = Ok tt ↔
  ((rt_serviceRef r ≠ "" ∧ rt_upstreamRef r = "" ∧ rt_serviceRef r ∈ services) ∨
   (rt_serviceRef r = "" ∧ rt_upstreamRef r ≠ "" ∧ rt_upstreamRef r ∈ upstreams)) ∧
  scope_ok (rt_plugins r) ∧ timeout_ok (rt_webSocket r).
Proof.
  unfold validateRoute. rewrite <-validatePluginScope_ok, <-negativeTimeout_ok.
  destruct (String.eqb_spec (rt_serviceRef r) ""), (String.eqb_spec (rt_upstreamRef r) ""); simpl;
    repeat case_bool_decide; simpl; try (split; [done|]; tauto);
    (destruct (validatePluginScope _); simpl; [|split; [done|]; by intros (_ & ? & _)]);
    (destruct (negativeTimeout _); [split; [done|]; by intros (_ & _ & ?)|tauto]).
Qed.

Lemma resourceIDs_ok resources : Forall (fun p => id_ok p.2) (resourceIDs resources) ∧ NoDup (resourceIDs resources) ↔
  (Forall id_ok (rt_id <$> rs_routes resources) ∧ NoDup (rt_id <$> rs_routes resources)) ∧
  (Forall id_ok (sv_id <$> rs_services resources) ∧ NoDup (sv_id <$> rs_services resources)) ∧
  (Forall id_ok (up_id <$> rs_upstreams resources) ∧ NoDup (up_id <$> rs_upstreams resources)).
Proof.
  assert (Htag : ∀ {A} (tag : string) (f : A → string) (l : list A), NoDup (pair tag ∘ f <$> l) ↔ NoDup (f <$> l)).
  { intros A tag f l. rewrite list_fmap_compose. split; [apply NoDup_fmap_1|apply NoDup_fmap_2; by intros ? ? [=]]. }
  unfold resourceIDs. rewrite !Forall_app, !NoDup_app, !Forall_fmap, !Htag. split; [tauto|].
  intros (? & ? & ?). split_and!; try tauto.
  - intros p (x & -> & _)%list_elem_of_fmap [(y & [=] & _)%list_elem_of_fmap|(y & [=] & _)%list_elem_of_fmap]%elem_of_app.
  - intros p (x & -> & _)%list_elem_of_fmap (y & [=] & _)%list_elem_of_fmap.
Qed.

Lemma resolves_iff resources route :
  (∀ s, s ∈ rs_services resources → sv_upstreamRef s ∈ up_id <$> rs_upstreams resources) →
  (∃ s u, resolves resources route s u) ↔
  (rt_serviceRef route ≠ "" ∧ rt_upstreamRef route = "" ∧ rt_serviceRef route ∈ sv_id <$> rs_services resources) ∨
  (rt_serviceRef route = "" ∧ rt_upstreamRef route ≠ "" ∧ rt_upstreamRef route ∈ up_id <$> rs_upstreams resources).
Proof.
  intros Hrefs. split.
  - intros (s & u & [s' u' ? ? Hs Hid _ _|u' ? ? Hu Hid]); [left|right]; (split; [done|]); (split; [done|]);
      rewrite <-Hid; by apply list_elem_of_fmap_2.
  - intros [(? & ? & (s & Hid & Hs)%list_elem_of_fmap)|(? & ? & (u & Hid & Hu)%list_elem_of_fmap)].
    + destruct (proj1 (list_elem_of_fmap _ _ _) (Hrefs s Hs)) as (u & Hu & Hin). exists (Some s), u. by constructor.
    + exists None, u. by constructor.
Qed.

Lemma validateResources_wf resources : validateResources revision resources = Ok tt ↔
  revision ≠ 0 ∧ resources_wf resources.
Proof.
  unfold validateResources. destruct (Z.eqb_spec revision 0) as [->|Hrev]; [split; [done|]; by intros [? _]|].
  destruct (rs_routes resources) as [|r0 rest] eqn:Hroutes.
  { split; [done|]. intros [_ Hwf]. by destruct (rw_nonempty _ Hwf). }
  rewrite <-Hroutes. unfold validateResourceIDs.
  pose proof (resourceIDs_ok resources) as Hids. pose proof (checkIDs_ok (resourceIDs resources) ∅) as Hcheck.
  assert (Hempty : Forall (fun p => id_ok p.2 ∧ p ∉ (∅ : gset (string * string))) (resourceIDs resources) ↔
    Forall (fun p => id_ok p.2) (resourceIDs resources)).
  { rewrite !Forall_forall. split; intros Hall p Hp; [by apply Hall|]. split; [by apply Hall|]. apply not_elem_of_empty. }
  rewrite Hempty, Hids in Hcheck. clear Hids Hempty.
  destruct (checkIDs revision (resourceIDs resources) ∅) as [[]|e]; cbn [mbind result_bind].
  2: { split; [done|]. intros [_ [_ H1 H2 H3 _ _]]. assert (Herr : Err e = Ok tt) by tauto. done. }
  destruct (proj1 Hcheck eq_refl) as (H1 & H2 & H3). clear Hcheck.
  set (ups := list_to_set (up_id <$> rs_upstreams resources) : gset string).
  set (svs := list_to_set (sv_id <$> rs_services resources) : gset string).
  pose proof (validateEach_ok (validateService revision ups) (rs_services resources)) as Hs.
  pose proof (validateEach_ok (validateRoute revision ups svs) (rs_routes resources)) as Hr.
  rewrite Forall_forall in Hs. rewrite Forall_forall in Hr. setoid_rewrite validateService_ok in Hs. setoid_rewrite validateRoute_ok in Hr.
  split.
  - intros (u & Hs' & Hr')%bind_ok_inv. destruct u. split; [done|].
    assert (Hs2 : ∀ s, s ∈ rs_services resources → sv_upstreamRef s ∈ up_id <$> rs_upstreams resources ∧
      scope_ok (sv_plugins s) ∧ timeout_ok (sv_webSocket s)).
    { intros s Hin. destruct (proj1 Hs Hs' s Hin) as (Hu & ? & ?). unfold ups in Hu. by rewrite elem_of_list_to_set in Hu. }
    split; [by rewrite Hroutes|done..|]. intros route Hin.
    destruct (proj1 Hr Hr' route Hin) as (Ht & ? & ?). split; [|done].
    apply resolves_iff; [intros s Hin'; by apply Hs2|]. unfold ups, svs in Ht. by rewrite !elem_of_list_to_set in Ht.
  - intros [_ Hwf]. rewrite (proj2 Hs), (proj2 Hr); [done| |].
    + intros route Hin. destruct (rw_routes _ Hwf _ Hin) as (Ht & ? & ?). split; [|done].
      apply resolves_iff in Ht; [|intros s Hin'; by apply (rw_services _ Hwf)].
      unfold ups, svs. by rewrite !elem_of_list_to_set.
    + intros s Hin. destruct (rw_services _ Hwf _ Hin) as (? & ? & ?). unfold ups. by rewrite elem_of_list_to_set.
Qed.
End Validation.

(** ** Lookups by identifier *)

Lemma byID_app {A} (id : A → string) l x : byID id (l ++ [x]) = <[id x := x]> (byID id l).
Proof. unfold byID. by rewrite foldl_app. Qed.

Lemma byID_lookup {A} (id : A → string) (l : list A) x : NoDup (id <$> l) → x ∈ l → byID id l !! id x = Some x.
Proof.
  induction l as [|y l IH] using rev_ind; [by intros _ ?%elem_of_nil|].
  rewrite fmap_app, byID_app. simpl. intros (Hnd & Hni & _)%NoDup_app Hin.
  destruct (decide (id y = id x)) as [Heq|Hne].
  - rewrite Heq, lookup_insert_eq. apply elem_of_app in Hin as [Hin| ->%list_elem_of_singleton]; [|done].
    destruct (Hni (id x)); [by apply list_elem_of_fmap_2|]. rewrite Heq. by left.
  - rewrite lookup_insert_ne by done. apply IH; [done|].
    apply elem_of_app in Hin as [Hin| ->%list_elem_of_singleton]; done.
Qed.

(** ** What [Build] produces *)

Section Built.
Context {Q R : Type} `{Unicode}.
Context (definitions : gmap string (@PluginDefinition Q R)).
Context (iterate : gmap string PluginAttachment → list string).
Context (legacy : option certificateProvider) (now : Z).

(** A compiled route carries what its resource names. *)
Record compiled_from (resources : ResourceSet) (candidate : Candidate) (route : Route) (c : @CompiledRoute Q R)
    (s : option Service) (u : Upstream) : Prop := {
  cf_resolves : resolves resources route s u;
  cf_meta : cr_meta c = rt_id route;
  cf_service : cr_service c = sv_id <$> s;
  cf_upstream : cr_upstreamMeta c = up_id u;
  cf_plan : c_plans candidate !! up_id u = Some (cr_plan c);
  cf_plugins : CompileChain iterate definitions (from_option sv_plugins [] s) (rt_plugins route) = Ok (cr_plugins c);
  cf_retry : cr_retry c = effectiveRetryPolicy (up_retry u) (rt_resilience route);
  cf_websocket : cr_websocket c =
    effectiveWebSocketPolicy (from_option sv_webSocket (mkWebSocketOverride None None) s) (rt_webSocket route);
  cf_protocol : ws_enabled (cr_websocket c) = true → tc_protocol (up_transport u) ≠ TransportProtocolHTTP2;
}.

Lemma compileResourceRoute_ok revision resources candidate route c : resources_wf resources →
  route ∈ rs_routes resources →
  compileResourceRoute definitions iterate revision (byID sv_id (rs_services resources))
    (byID up_id (rs_upstreams resources)) (Some candidate) route = Ok c →
  ∃ s u, compiled_from resources candidate route c s u.
Proof.
  intros Hwf Hroute. destruct (rw_routes _ Hwf _ Hroute) as ((s & u & Hres) & _).
  destruct (rw_service_ids _ Hwf) as [_ Hsv]. destruct (rw_upstream_ids _ Hwf) as [_ Hup].
  assert (Hresolve : resolveRoute (byID sv_id (rs_services resources)) route =
    (sv_id <$> s, from_option sv_plugins [] s, from_option sv_webSocket (mkWebSocketOverride None None) s, up_id u)).
  { unfold resolveRoute. destruct Hres as [s u Hne _ Hs Hid _ Hu|u He _ _ Hu].
    - rewrite (proj2 (String.eqb_neq _ _)) by done. simpl. rewrite <-Hid, byID_lookup by done. simpl. by rewrite Hu.
    - rewrite He, Hu. done. }
  assert (Hu : byID up_id (rs_upstreams resources) !! up_id u = Some u)
    by (apply byID_lookup; [done|]; by destruct Hres).
  unfold compileResourceRoute. rewrite Hresolve, Hu. cbn [candidate_Plan].
  destruct (c_plans candidate !! up_id u) as [plan|] eqn:Hplan; [|done].
  destruct (_ && _) eqn:Hproto; [done|]. destruct (CompileChain _ _ _ _) as [chain|] eqn:Hchain; [|done].
  intros [= <-]. exists s, u. split; try done. cbn [cr_websocket]. intros Hen Heq. apply andb_false_iff in Hproto as [Hp|Hp].
  - by rewrite Hen in Hp.
  - apply bool_decide_eq_false in Hp. apply Hp. simpl. by rewrite Heq.
Qed.

Lemma compileResourceRoutes_ok revision services upstreams candidate todo routes specs count routes' specs' count' :
  length routes = length specs →
  compileResourceRoutes definitions iterate revision services upstreams candidate todo routes specs count =
    Ok (routes', specs', count') →
  ∃ compiled, routes' = routes ++ compiled ∧ specs' = specs ++ imap (fun i => routeSpec (length routes + i)) todo ∧
    Forall2 (fun route c => compileResourceRoute definitions iterate revision services upstreams candidate route = Ok c)
      todo compiled.
Proof.
  revert routes specs count. induction todo as [|route todo IH]; intros routes specs count Hlen; cbn [compileResourceRoutes].
  { intros [= <- <- <-]. exists []. by rewrite !app_nil_r. }
  intros (c & Hc & Hrest)%bind_ok_inv. apply IH in Hrest as (compiled & -> & -> & Hall);
    [|rewrite !length_app; simpl; lia].
  exists (c :: compiled). rewrite <-!app_assoc. split; [done|]. split; [|by constructor]. simpl. f_equal. f_equal.
  { f_equal. lia. }
  apply imap_ext. intros i x _. simpl. f_equal. rewrite length_app. simpl. lia.
Qed.

Lemma Build_ok revision resources candidate snapshot :
  Build definitions iterate legacy now revision resources candidate = Ok snapshot →
  revision ≠ 0 ∧ resources_wf resources ∧ ∃ c, candidate = Some c ∧
    sn_revision snapshot = revision ∧
    Compile (imap routeSpec (rs_routes resources)) = Ok (sn_router snapshot) ∧
    Forall2 (fun route compiled => ∃ s u, compiled_from resources c route compiled s u)
      (rs_routes resources) (sn_routes snapshot).
Proof.
  unfold Build. intros ([] & [Hrev Hwf]%validateResources_wf & Hb)%bind_ok_inv. split; [done|]. split; [done|].
  destruct candidate as [c|]; [|done]. exists c. split; [done|].
  apply bind_ok_inv in Hb as ([provider stats] & _ & ([[routes specs] count] & Hroutes & Hb)%bind_ok_inv).
  apply compileResourceRoutes_ok in Hroutes as (compiled & -> & -> & Hall); [|done].
  simpl in Hb. change (imap (fun i => routeSpec i) (rs_routes resources)) with (imap routeSpec (rs_routes resources)) in Hb.
  destruct (Compile _) as [router|] eqn:Hrouter; [|done]. injection Hb as <-. simpl. split_and!; [done..|].
  apply Forall2_same_length_lookup. split; [by eapply Forall2_length|]. intros i route cr Hr Hcr.
  eapply compileResourceRoute_ok; [done|by eapply list_elem_of_lookup_2|].
  by eapply (Forall2_lookup_lr _ _ _ i _ _ Hall).
Qed.

(** Certificates come from the legacy provider or from a selector compiled at
    build time. *)
Lemma Build_downstream revision resources candidate snapshot :
  Build definitions iterate legacy now revision resources candidate = Ok snapshot →
  sn_downstreamTLS snapshot = legacy ∨
  ∃ policy sel, rs_downstreamTLS resources = Some policy ∧
    compileSelector now (Some policy) (rs_certificates resources) = Ok sel ∧
    sn_downstreamTLS snapshot = Some (SelectorProvider sel).
Proof.
  unfold Build. intros ([] & _ & Hb)%bind_ok_inv. destruct candidate as [c|]; [|done].
  apply bind_ok_inv in Hb as ([provider stats] & Hd & ([[routes specs] count] & _ & Hb)%bind_ok_inv).
  simpl in Hb. destruct (Compile _); [|done]. injection Hb as <-. simpl. unfold compileDownstream in Hd.
  destruct (rs_downstreamTLS resources) as [policy|]; [|injection Hd as <- _; by left].
  destruct (compileSelector _ _ _) as [sel|] eqn:Hs; [|done]. injection Hd as <- _. right. by exists policy, sel.
Qed.

(** C25: A snapshot is built only for a non-zero revision of a well-formed
    resource set (non-blank distinct identifiers, every reference resolved,
    exactly one target per route, valid plugin scopes and timeouts) and has one
    compiled route per route resource, in order, carrying the prepared plan of
    its upstream, the chain of its service's and its own plugins and its
    effective retry and WebSocket policies, upgrades never being enabled on a
    strict HTTP/2 upstream. *)
Theorem Build_well_formed revision resources candidate snapshot :
  Build definitions iterate legacy now revision resources candidate = Ok snapshot →
  revision ≠ 0 ∧ resources_wf resources ∧ sn_revision snapshot = revision ∧ ∃ c, candidate = Some c ∧
    Forall2 (fun route compiled => ∃ s u, compiled_from resources c route compiled s u)
      (rs_routes resources) (sn_routes snapshot).
Proof. intros (? & ? & c & ? & ? & _ & ?)%Build_ok. split_and!; [done..|]. by exists c. Qed.

(** The index the router returns is in range, so matching never fails. *)
Lemma snapshot_Match_total revision resources candidate snapshot r res :
  Build definitions iterate legacy now revision resources candidate = Ok snapshot → Match (sn_router snapshot) r = Ok res →
  (Found res = true → ∃ route compiled, rs_routes resources !! Z.to_nat (RouteIndex res) = Some route ∧
     sn_routes snapshot !! Z.to_nat (RouteIndex res) = Some compiled ∧ cr_meta compiled = rt_id route) ∧
  snapshot_Match snapshot r = Some (Ok (mkMatch (Found res) (MethodNotAllowed res)
    (if Found res then sn_routes snapshot !! Z.to_nat (RouteIndex res) else None) (Params res) (Allow res))).
Proof.
  intros (_ & Hwf & c & _ & _ & Hrouter & Hall)%Build_ok Hm.
  assert (Hindex : Found res = true →
    0 ≤ RouteIndex res ∧ ∃ route compiled, rs_routes resources !! Z.to_nat (RouteIndex res) = Some route ∧
      sn_routes snapshot !! Z.to_nat (RouteIndex res) = Some compiled ∧ cr_meta compiled = rt_id route).
  { intros Hf. destruct (Match_index _ _ _ _ Hrouter Hm Hf) as (spec & Hspec & ->).
    apply elem_of_lookup_imap in Hspec as (i & route & -> & Hi). simpl. split; [lia|]. rewrite Nat2Z.id.
    destruct (Forall2_lookup_l _ _ _ _ _ Hall Hi) as (compiled & Hc & s & u & Hcf). exists route, compiled.
    split_and!; [done..|]. apply (cf_meta _ _ _ _ _ _ Hcf). }
  split; [intros Hf; apply (Hindex Hf)|]. unfold snapshot_Match. rewrite Hm. destruct (Found res) eqn:Hf; [|done].
  destruct (Hindex eq_refl) as (Hz & route & compiled & _ & Hc & _).
  rewrite (proj2 (Z.ltb_ge _ _)) by done. by rewrite Hc.
Qed.

(** Matching a request against a built snapshot never indexes outside its
    route table; a match carries the compiled route of a route resource, and
    for a request with a valid host and query it is the one the precedence
    reference over all route resources selects. *)
Theorem snapshot_Match_exact revision resources candidate snapshot r :
  Build definitions iterate legacy now revision resources candidate = Ok snapshot →
  (∃ res, snapshot_Match snapshot r = Some res ∧
     ∀ m, res = Ok m → m_found m = true →
       ∃ i route compiled, rs_routes resources !! i = Some route ∧ sn_routes snapshot !! i = Some compiled ∧
         cr_meta compiled = rt_id route ∧ m_route m = Some compiled) ∧
  ∀ host query, NormalizeRequestHost (req_host r) = Ok host → scanRawQuery (req_rawQuery r) = Ok query →
    let reference := reference_match r query (candidates_for (imap routeSpec (rs_routes resources)) host) in
    ∃ m, snapshot_Match snapshot r = Some (Ok m) ∧ m_found m = Found reference ∧
      m_methodNotAllowed m = MethodNotAllowed reference ∧ m_params m = Params reference ∧ m_allow m = Allow reference ∧
      (Found reference = true → m_route m = sn_routes snapshot !! Z.to_nat (RouteIndex reference)).
Proof.
  intros Hbuild. split.
  - destruct (Match (sn_router snapshot) r) as [res|e] eqn:Hm; [|exists (Err e); unfold snapshot_Match; by rewrite Hm].
    destruct (snapshot_Match_total _ _ _ _ _ _ Hbuild Hm) as [Hindex Htotal]. eexists. split; [done|]. intros m [= <-] Hf. simpl in Hf.
    destruct (Hindex Hf) as (route & compiled & Hr & Hc & Hid).
    exists (Z.to_nat (RouteIndex res)), route, compiled. simpl. by rewrite Hf.
  - intros host query Hh Hq reference. destruct (Build_ok _ _ _ _ Hbuild) as (_ & _ & c & _ & _ & Hrouter & _).
    pose proof (Match_is_reference _ _ r host query Hrouter Hh Hq) as Hm. fold reference in Hm.
    eexists. split; [by apply (snapshot_Match_total _ _ _ _ _ _ Hbuild Hm)|]. simpl. split_and!; try done. by intros ->.
Qed.
End Built.
