(* ===== verification/Config.v ===== *)
(** * Configuration files ([internal/config])

    A configuration file is one YAML document of a supported version. Every
    version converts to the one before it and adds its own fields; the result
    is validated and its upstreams are normalized. The YAML decoder, the JSON
    encoder of plugin options, the resolver and the file system are parameters;
    the documents are the structs the decoder fills. *)

From S2P Require Import Prelude GoStrings NetAddr HashKey Url Duration Resources UpstreamConfig X509 TlsMaterial MaterialLoad Predicate Router Plugins DownstreamTLS Builder.
#[local] Open Scope string_scope.
#[local] Open Scope Z_scope.
#[local] Open Scope list_scope.

(** ** Settings ([types.go]) *)

Definition DefaultMaxRetiredSnapshots : Z := 64.
Definition DefaultHealthWorkers : Z := 16.
Definition DefaultHealthQueueCapacity : Z := 4096.

Record HealthRuntimeConfig := mkHealthRuntime { hr_workers : Z; hr_readyQueueCapacity : Z }.
Record RuntimeConfig := mkRuntime { rc_maxRetiredSnapshots : Z; rc_health : HealthRuntimeConfig }.
Record TLSListenerConfig := mkTLSListener { tl_address : string; tl_certificateFile : string; tl_privateKeyFile : string }.
Record ServerConfig := mkServer {
  sc_readHeaderTimeout : Z;
  sc_idleTimeout : Z;
  sc_shutdownTimeout : Z;
  sc_maxHeaderBytes : Z;
  sc_maxRequestBodyBytes : Z;
}.
Record TelemetryConfig := mkTelemetry { te_requestMetricsEnabled : bool; te_profilingEnabled : bool }.
Record BootstrapConfig := mkBootstrap {
  bc_http : string;
  bc_https : TLSListenerConfig;
  bc_admin : string;
  bc_server : ServerConfig;
  bc_telemetry : TelemetryConfig;
  bc_runtime : RuntimeConfig;
}.

(** ** Documents *)

Record serverDocument := mkServerDocument {
  sd_readHeaderTimeout : string;
  sd_idleTimeout : string;
  sd_shutdownTimeout : string;
  sd_maxHeaderBytes : Z;
  sd_maxRequestBodyBytes : Z;
}.

(** The listener addresses and the telemetry switches have the shape of their
    settings. *)
Record listenersDocument := mkListenersDocument { ld_http : string; ld_https : TLSListenerConfig; ld_admin : string }.

Record transportDocument := mkTransportDocument {
  td_dialTimeout : string;
  td_responseHeaderTimeout : string;
  td_idleConnectionTimeout : string;
  td_maxIdleConnections : Z;
  td_maxIdleConnectionsPerHost : Z;
}.

Record upstreamDocument := mkUpstreamDocument { ud_id : string; ud_endpoints : list string; ud_transport : transportDocument }.
Record routeDocument := mkRouteDocument { rd_id : string; rd_path : string; rd_methods : list string; rd_upstreamRef : string }.

Record document := mkDocument {
  d1_apiVersion : string;
  d1_listeners : listenersDocument;
  d1_server : serverDocument;
  d1_telemetry : TelemetryConfig;
  d1_routes : list routeDocument;
  d1_upstreams : list upstreamDocument;
}.

Record predicateDocumentV2 := mkPredicateDocument { pd_name : string; pd_operator : string; pd_values : list string }.
Record routeMatchDocumentV2 := mkMatchDocument {
  md_hosts : list string;
  md_path : string;
  md_methods : list string;
  md_headers : list predicateDocumentV2;
  md_queries : list predicateDocumentV2;
}.

Record endpointDocumentV3 := mkEndpointDocument { ed_url : string; ed_weight : option Z }.
Record hashKeySourceDocumentV3 := mkSourceDocument { hd_type : string; hd_name : string; hd_value : string }.
Record balancerDocumentV3 := mkBalancerDocument { bd_type : string; bd_sources : list hashKeySourceDocumentV3 }.
Record upstreamDocumentV3 := mkUpstreamDocumentV3 {
  u3_id : string;
  u3_endpoints : list endpointDocumentV3;
  u3_balancer : balancerDocumentV3;
  u3_transport : transportDocument;
}.

Record runtimeDocumentV4 := mkRuntimeDocument {
  rn_maxRetiredSnapshots : option Z;
  rn_workers : option Z;
  rn_readyQueueCapacity : option Z;
}.
Record retryOnDocumentV4 := mkRetryOnDocument {
  od_connectFailure : option bool;
  od_connectionFailure : option bool;
  od_responseHeaderTimeout : option bool;
  od_statuses : option (list Z);
}.
Record retryBudgetDocumentV4 := mkBudgetDocument { gd_ratioPer1000 : option Z; gd_burst : option Z; gd_maxInflight : option Z }.
Record retryDocumentV4 := mkRetryDocument {
  yd_maxAttempts : option Z;
  yd_methods : option (list string);
  yd_retryOn : option retryOnDocumentV4;
  yd_budget : option retryBudgetDocumentV4;
  yd_totalTimeout : option string;
}.
Record resilienceDocumentV4 := mkResilienceDocument {
  zd_totalTimeout : option string;
  zd_maxAttempts : option Z;
  zd_methods : option (list string);
  zd_retryOn : option retryOnDocumentV4;
}.
Record activeHealthDocumentV4 := mkActiveDocument {
  ad_type : option string;
  ad_timeout : option string;
  ad_healthyInterval : option string;
  ad_unhealthyInterval : option string;
  ad_healthySuccesses : option Z;
  ad_httpFailures : option Z;
  ad_transportFailures : option Z;
  ad_timeouts : option Z;
  ad_healthyStatuses : option (list Z);
  ad_unhealthyStatuses : option (list Z);
  ad_path : option string;
  ad_host : option string;
}.
Record passiveHealthDocumentV4 := mkPassiveDocument {
  vd_httpFailures : option Z;
  vd_transportFailures : option Z;
  vd_timeouts : option Z;
  vd_unhealthyStatuses : option (list Z);
}.
Record healthDocumentV4 := mkHealthDocument { xd_active : option activeHealthDocumentV4; xd_passive : option passiveHealthDocumentV4 }.
Record upstreamDocumentV4 := mkUpstreamDocumentV4 { u4_upstream : upstreamDocumentV3; u4_health : healthDocumentV4; u4_retry : retryDocumentV4 }.

Record certificateDocumentV5 := mkCertificateDocument { cd_id : string; cd_certificateFile : string; cd_privateKeyFile : string }.
Record trustBundleDocumentV5 := mkBundleDocument { kd_id : string; kd_caFile : string }.
Record transportDocumentV5 := mkTransportDocumentV5 { t5_protocol : string; t5_tls : option UpstreamTLSPolicy; t5_transport : transportDocument }.
Record upstreamDocumentV5 := mkUpstreamDocumentV5 {
  u5_id : string;
  u5_endpoints : list endpointDocumentV3;
  u5_balancer : balancerDocumentV3;
  u5_transport : transportDocumentV5;
  u5_health : healthDocumentV4;
  u5_retry : retryDocumentV4;
}.

Record websocketDocumentV6 := mkWebSocketDocument { wd_enabled : option bool; wd_idleTimeout : option string }.

Section Documents.
(** [C] is the type of decoded plugin options. *)
Context {C : Type}.

Record pluginDocumentV2 := mkPluginDocument { fd_name : string; fd_enabled : option bool; fd_config : C }.
Record routeDocumentV2 := mkRouteDocumentV2 {
  r2_id : string;
  r2_priority : Z;
  r2_match : routeMatchDocumentV2;
  r2_serviceRef : string;
  r2_upstreamRef : string;
  r2_plugins : list pluginDocumentV2;
}.
Record serviceDocumentV2 := mkServiceDocument { s2_id : string; s2_upstreamRef : string; s2_plugins : list pluginDocumentV2 }.
Record documentV2 := mkDocumentV2 {
  d2_apiVersion : string;
  d2_listeners : listenersDocument;
  d2_server : serverDocument;
  d2_telemetry : TelemetryConfig;
  d2_routes : list routeDocumentV2;
  d2_services : list serviceDocumentV2;
  d2_upstreams : list upstreamDocument;
}.

Record documentV3 := mkDocumentV3 {
  d3_apiVersion : string;
  d3_maxRetiredSnapshots : option Z;
  d3_listeners : listenersDocument;
  d3_server : serverDocument;
  d3_telemetry : TelemetryConfig;
  d3_routes : list routeDocumentV2;
  d3_services : list serviceDocumentV2;
  d3_upstreams : list upstreamDocumentV3;
}.

Record routeDocumentV4 := mkRouteDocumentV4 { r4_route : routeDocumentV2; r4_resilience : resilienceDocumentV4 }.
Record documentV4 := mkDocumentV4 {
  d4_apiVersion : string;
  d4_runtime : runtimeDocumentV4;
  d4_listeners : listenersDocument;
  d4_server : serverDocument;
  d4_telemetry : TelemetryConfig;
  d4_routes : list routeDocumentV4;
  d4_services : list serviceDocumentV2;
  d4_upstreams : list upstreamDocumentV4;
}.

Record documentV5 := mkDocumentV5 {
  d5_apiVersion : string;
  d5_runtime : runtimeDocumentV4;
  d5_listeners : listenersDocument;
  d5_server : serverDocument;
  d5_telemetry : TelemetryConfig;
  d5_trustBundles : list trustBundleDocumentV5;
  d5_certificates : list certificateDocumentV5;
  d5_routes : list routeDocumentV4;
  d5_services : list serviceDocumentV2;
  d5_upstreams : list upstreamDocumentV5;
}.

Record routeDocumentV6 := mkRouteDocumentV6 { r6_route : routeDocumentV4; r6_webSocket : websocketDocumentV6 }.
Record serviceDocumentV6 := mkServiceDocumentV6 { s6_service : serviceDocumentV2; s6_webSocket : websocketDocumentV6 }.
Record documentV6 := mkDocumentV6 {
  d6_apiVersion : string;
  d6_runtime : runtimeDocumentV4;
  d6_listeners : listenersDocument;
  d6_server : serverDocument;
  d6_telemetry : TelemetryConfig;
  d6_trustBundles : list trustBundleDocumentV5;
  d6_certificates : list certificateDocumentV5;
  d6_routes : list routeDocumentV6;
  d6_services : list serviceDocumentV6;
  d6_upstreams : list upstreamDocumentV5;
}.

(** The downstream TLS document has the shape of its policy. *)
Record documentV7 := mkDocumentV7 {
  d7_apiVersion : string;
  d7_runtime : runtimeDocumentV4;
  d7_listeners : listenersDocument;
  d7_server : serverDocument;
  d7_telemetry : TelemetryConfig;
  d7_trustBundles : list trustBundleDocumentV5;
  d7_certificates : list certificateDocumentV5;
  d7_downstreamTLS : option DownstreamTLSPolicy;
  d7_routes : list routeDocumentV6;
  d7_services : list serviceDocumentV6;
  d7_upstreams : list upstreamDocumentV5;
}.
End Documents.
Arguments pluginDocumentV2 : clear implicits.
Arguments routeDocumentV2 : clear implicits.
Arguments serviceDocumentV2 : clear implicits.
Arguments documentV2 : clear implicits.
Arguments documentV3 : clear implicits.
Arguments routeDocumentV4 : clear implicits.
Arguments documentV4 : clear implicits.
Arguments documentV5 : clear implicits.
Arguments routeDocumentV6 : clear implicits.
Arguments serviceDocumentV6 : clear implicits.
Arguments documentV6 : clear implicits.
Arguments documentV7 : clear implicits.

(** ** Errors *)

(** The field or resource an error names; causes are text. *)
Inductive configError :=
| FileUnreadable
| DocumentInvalid
| VersionUnsupported (version : string)
| VersionMismatch (got want : string)
| FieldInvalid (field : string)
| ListenerConflict (address previous name : string)
| IDDuplicate (kind id : string)
| PluginDuplicate (field name : string)
| MethodDuplicate (field method : string)
| MaterialCount (count : Z)
| MaterialDuplicate (field id previous : string)
| MaterialBytes (bytes : Z)
| MaterialFailed (field : string) (e : loadError)
| UpstreamFailed (e : ConfigError).

Definition invalid {A} (field : string) : result configError A := Err (FieldInvalid field).

(** A loop over a slice that builds another one and stops at the first error. *)
Fixpoint convertEach {A B} (f : nat → A → result configError B) (index : nat) (l : list A) : result configError (list B) :=
  match l with
  | [] => Ok []
  | x :: l => y ← f index x; ys ← convertEach f (S index) l; Ok (y :: ys)
  end.

(** ** Conversion ([load.go]) *)

Definition parseDuration (field raw : string) : result configError Z :=
  match ParseDuration raw with Some d => Ok d | None => invalid field end.

(** A duration that may be absent. *)
Definition parseOptional (field : string) (raw : option string) (default : Z) : result configError Z :=
  match raw with None => Ok default | Some raw => parseDuration field raw end.

Definition convertTransport (index : nat) (wire : transportDocument) : result configError TransportConfig :=
  let field := indexed "upstreams" index +:+ ".transport" in
  dialTimeout ← parseDuration (field +:+ ".dial_timeout") (td_dialTimeout wire);
  responseHeaderTimeout ← parseDuration (field +:+ ".response_header_timeout") (td_responseHeaderTimeout wire);
  idleConnectionTimeout ← parseDuration (field +:+ ".idle_connection_timeout") (td_idleConnectionTimeout wire);
  Ok (mkTransport TransportProtocolHTTP1 None dialTimeout responseHeaderTimeout idleConnectionTimeout
        (td_maxIdleConnections wire) (td_maxIdleConnectionsPerHost wire)).

(** The zero values of the policies a version does not know. *)
Definition noHealth : HealthPolicy := mkHealthPolicy None None.
Definition legacyRetry : RetryPolicy := mkRetryPolicy 1 [] (mkRetryOn false false false []) (mkRetryBudget 0 0 0) 0.
Definition noResilience : RouteResiliencePolicy := mkResilience None None None None.
Definition noWebSocket : WebSocketPolicyOverride := mkWebSocketOverride None None.

Definition convertUpstream (index : nat) (wire : upstreamDocument) : result configError Upstream :=
  transport ← convertTransport index (ud_transport wire);
  Ok (mkUpstream (ud_id wire) ((fun rawURL => mkEndpoint rawURL 1) <$> ud_endpoints wire)
        (mkBalancer BalancerWeightedRoundRobin []) transport noHealth legacyRetry).

Definition convertServer (wire : serverDocument) : result configError ServerConfig :=
  readHeaderTimeout ← parseDuration "server.read_header_timeout" (sd_readHeaderTimeout wire);
  idleTimeout ← parseDuration "server.idle_timeout" (sd_idleTimeout wire);
  shutdownTimeout ← parseDuration "server.shutdown_timeout" (sd_shutdownTimeout wire);
  Ok (mkServer readHeaderTimeout idleTimeout shutdownTimeout (sd_maxHeaderBytes wire) (sd_maxRequestBodyBytes wire)).

Definition defaultRuntime : RuntimeConfig :=
  mkRuntime DefaultMaxRetiredSnapshots (mkHealthRuntime DefaultHealthWorkers DefaultHealthQueueCapacity).

Definition convertRoute (wire : routeDocument) : Route :=
  mkRoute (rd_id wire) 0 (mkRouteMatch [] (rd_path wire) (rd_methods wire) [] []) "" (rd_upstreamRef wire) [] noResilience noWebSocket.

Definition convert (wire : document) : result configError (BootstrapConfig * ResourceSet) :=
  server ← convertServer (d1_server wire);
  let bootstrap := mkBootstrap (ld_http (d1_listeners wire)) (ld_https (d1_listeners wire)) (ld_admin (d1_listeners wire))
    server (d1_telemetry wire) defaultRuntime in
  upstreams ← convertEach convertUpstream 0 (d1_upstreams wire);
  Ok (bootstrap, mkResourceSet (convertRoute <$> d1_routes wire) [] upstreams [] None []).

Definition with_runtime (b : BootstrapConfig) (runtime : RuntimeConfig) : BootstrapConfig :=
  mkBootstrap (bc_http b) (bc_https b) (bc_admin b) (bc_server b) (bc_telemetry b) runtime.

Definition set_upstreams (rs : ResourceSet) (upstreams : list Upstream) : ResourceSet :=
  mkResourceSet (rs_routes rs) (rs_services rs) upstreams (rs_certificates rs) (rs_downstreamTLS rs) (rs_trustBundles rs).
Definition set_routes (rs : ResourceSet) (routes : list Route) : ResourceSet :=
  mkResourceSet routes (rs_services rs) (rs_upstreams rs) (rs_certificates rs) (rs_downstreamTLS rs) (rs_trustBundles rs).
Definition set_services (rs : ResourceSet) (services : list Service) : ResourceSet :=
  mkResourceSet (rs_routes rs) services (rs_upstreams rs) (rs_certificates rs) (rs_downstreamTLS rs) (rs_trustBundles rs).

(** ** Version 2 ([wire_v1alpha2.go]) *)

Definition operator_of_string (s : string) : PredicateOperator :=
  if String.eqb s "exists" then PredicateExists
  else if String.eqb s "not_exists" then PredicateNotExists
  else if String.eqb s "equals" then PredicateEquals
  else if String.eqb s "not_equals" then PredicateNotEquals
  else if String.eqb s "one_of" then PredicateOneOf
  else PredicateUnsupported s.

Definition convertPredicates (wire : list predicateDocumentV2) : list Predicate :=
  (fun p => mkPredicate (pd_name p) (operator_of_string (pd_operator p)) (pd_values p)) <$> wire.

Definition convertMatch (wire : routeMatchDocumentV2) : RouteMatch :=
  mkRouteMatch (md_hosts wire) (md_path wire) (md_methods wire) (convertPredicates (md_headers wire)) (convertPredicates (md_queries wire)).

Section Convert.
Context {C : Type} (Marshal : C → option string).

Definition convertPlugin (field : string) (raw : pluginDocumentV2 C) : result configError PluginAttachment :=
  match Marshal (fd_config raw) with
  | None => invalid field
  | Some encoded => Ok (mkAttachment (fd_name raw) (default true (fd_enabled raw)) encoded)
  end.

Definition convertPlugins (field : string) (wire : list (pluginDocumentV2 C)) : result configError (list PluginAttachment) :=
  convertEach (fun _ => convertPlugin field) 0 wire.

Definition convertRouteV2 (index : nat) (wire : routeDocumentV2 C) : result configError Route :=
  plugins ← convertPlugins (indexed "routes" index) (r2_plugins wire);
  Ok (mkRoute (r2_id wire) (r2_priority wire) (convertMatch (r2_match wire)) (r2_serviceRef wire) (r2_upstreamRef wire) plugins
        noResilience noWebSocket).

Definition convertServiceV2 (index : nat) (wire : serviceDocumentV2 C) : result configError Service :=
  plugins ← convertPlugins (indexed "services" index) (s2_plugins wire);
  Ok (mkService (s2_id wire) (s2_upstreamRef wire) plugins noWebSocket).

Definition convertV2 (wire : documentV2 C) : result configError (BootstrapConfig * ResourceSet) :=
  '(bootstrap, resources) ← convert (mkDocument (d2_apiVersion wire) (d2_listeners wire) (d2_server wire) (d2_telemetry wire) [] (d2_upstreams wire));
  routes ← convertEach convertRouteV2 0 (d2_routes wire);
  services ← convertEach convertServiceV2 0 (d2_services wire);
  Ok (bootstrap, set_services (set_routes resources routes) services).

(** ** Version 3 ([wire_v1alpha3.go]) *)

Definition convertEndpoint (wire : endpointDocumentV3) : Endpoint := mkEndpoint (ed_url wire) (default 1 (ed_weight wire)).

Definition convertBalancer (wire : balancerDocumentV3) : BalancerPolicy :=
  mkBalancer (bd_type wire) ((fun s => mkHashSource (hd_type s) (hd_name s) (hd_value s)) <$> bd_sources wire).

Definition convertUpstreamV3 (index : nat) (wire : upstreamDocumentV3) : result configError Upstream :=
  transport ← convertTransport index (u3_transport wire);
  Ok (mkUpstream (u3_id wire) (convertEndpoint <$> u3_endpoints wire) (convertBalancer (u3_balancer wire)) transport noHealth legacyRetry).

Definition convertV3 (wire : documentV3 C) : result configError (BootstrapConfig * ResourceSet) :=
  '(bootstrap, resources) ← convertV2 (mkDocumentV2 (d3_apiVersion wire) (d3_listeners wire) (d3_server wire) (d3_telemetry wire)
    (d3_routes wire) (d3_services wire) []);
  let bootstrap := match d3_maxRetiredSnapshots wire with
    | None => bootstrap
    | Some max => with_runtime bootstrap (mkRuntime max (rc_health (bc_runtime bootstrap)))
    end in
  upstreams ← convertEach convertUpstreamV3 0 (d3_upstreams wire);
  Ok (bootstrap, set_upstreams resources upstreams).

(** ** Version 4 ([wire_v1alpha4.go]) *)

Definition convertRetryOnV4 (w : retryOnDocumentV4) (out : RetryOnPolicy) : RetryOnPolicy :=
  mkRetryOn (default (ro_connectFailure out) (od_connectFailure w)) (default (ro_connectionFailure out) (od_connectionFailure w))
    (default (ro_responseHeaderTimeout out) (od_responseHeaderTimeout w)) (default (ro_statuses out) (od_statuses w)).

Definition defaultRetry : RetryPolicy :=
  mkRetryPolicy 1 ["GET"; "HEAD"; "OPTIONS"] (mkRetryOn true true true []) (mkRetryBudget 100 10 32) (30 * Second).

Definition convertRetryV4 (index : nat) (wire : retryDocumentV4) : result configError RetryPolicy :=
  let out := defaultRetry in
  let budget := rp_budget out in
  let budget := match yd_budget wire with
    | None => budget
    | Some b => mkRetryBudget (default (rb_ratioPer1000 budget) (gd_ratioPer1000 b)) (default (rb_burst budget) (gd_burst b))
        (default (rb_maxInflight budget) (gd_maxInflight b))
    end in
  totalTimeout ← parseOptional (indexed "upstreams" index +:+ ".retry.total_timeout") (yd_totalTimeout wire) (rp_totalTimeout out);
  Ok (mkRetryPolicy (default (rp_maxAttempts out) (yd_maxAttempts wire)) (default (rp_methods out) (yd_methods wire))
        (match yd_retryOn wire with None => rp_retryOn out | Some w => convertRetryOnV4 w (rp_retryOn out) end) budget totalTimeout).

Definition convertRouteResilienceV4 (index : nat) (wire : resilienceDocumentV4) : result configError RouteResiliencePolicy :=
  totalTimeout ← match zd_totalTimeout wire with
    | None => Ok None
    | Some raw => value ← parseDuration (indexed "routes" index +:+ ".resilience.total_timeout") raw; Ok (Some value)
    end;
  Ok (mkResilience totalTimeout (zd_maxAttempts wire) (zd_methods wire)
        (match zd_retryOn wire with None => None | Some w => Some (convertRetryOnV4 w (mkRetryOn false false false [])) end)).

Definition convertActiveHealthV4 (index : nat) (wire : activeHealthDocumentV4) : result configError ActiveHealthPolicy :=
  let kind := default HealthCheckHTTP (ad_type wire) in
  let http := String.eqb kind HealthCheckHTTP in
  let field := indexed "upstreams" index +:+ ".health.active" in
  timeout ← parseOptional (field +:+ ".timeout") (ad_timeout wire) Second;
  healthyInterval ← parseOptional (field +:+ ".healthy_interval") (ad_healthyInterval wire) (5 * Second);
  unhealthyInterval ← parseOptional (field +:+ ".unhealthy_interval") (ad_unhealthyInterval wire) (2 * Second);
  Ok (mkActiveHealth kind timeout healthyInterval unhealthyInterval
        (default 2 (ad_healthySuccesses wire)) (default (if http then 3 else 0) (ad_httpFailures wire))
        (default 2 (ad_transportFailures wire)) (default 2 (ad_timeouts wire))
        (default (if http then [200; 204] else []) (ad_healthyStatuses wire))
        (default (if http then [429; 500; 502; 503; 504] else []) (ad_unhealthyStatuses wire))
        (default (if http then "/" else "") (ad_path wire)) (default "" (ad_host wire))).

Definition convertPassiveHealthV4 (wire : passiveHealthDocumentV4) : PassiveHealthPolicy :=
  mkPassiveHealth (default 5 (vd_httpFailures wire)) (default 2 (vd_transportFailures wire)) (default 2 (vd_timeouts wire))
    (default [429; 500; 502; 503; 504] (vd_unhealthyStatuses wire)).

Definition convertHealthV4 (index : nat) (wire : healthDocumentV4) : result configError HealthPolicy :=
  active ← match xd_active wire with
    | None => Ok None
    | Some w => active ← convertActiveHealthV4 index w; Ok (Some active)
    end;
  Ok (mkHealthPolicy active (convertPassiveHealthV4 <$> xd_passive wire)).

Definition set_resilience (r : Route) (resilience : RouteResiliencePolicy) : Route :=
  mkRoute (rt_id r) (rt_priority r) (rt_match r) (rt_serviceRef r) (rt_upstreamRef r) (rt_plugins r) resilience (rt_webSocket r).
Definition set_health (u : Upstream) (health : HealthPolicy) (retry : RetryPolicy) : Upstream :=
  mkUpstream (up_id u) (up_endpoints u) (up_balancer u) (up_transport u) health retry.

(** The routes and upstreams of the resources are those of the document, in its
    order; each pair is one round of the loop. *)
Definition resilienceLoop (index : nat) (pair : Route * routeDocumentV4 C) : result configError Route :=
  override ← convertRouteResilienceV4 index (r4_resilience pair.2); Ok (set_resilience pair.1 override).

Definition healthLoop (index : nat) (pair : Upstream * upstreamDocumentV4) : result configError Upstream :=
  health ← convertHealthV4 index (u4_health pair.2);
  retry ← convertRetryV4 index (u4_retry pair.2);
  Ok (set_health pair.1 health retry).

Definition apiVersionV1Alpha1 : string := "gateway/v1alpha1".
Definition apiVersionV1Alpha2 : string := "gateway/v1alpha2".
Definition apiVersionV1Alpha3 : string := "gateway/v1alpha3".
Definition apiVersionV1Alpha4 : string := "gateway/v1alpha4".
Definition apiVersionV1Alpha5 : string := "gateway/v1alpha5".
Definition apiVersionV1Alpha6 : string := "gateway/v1alpha6".
Definition apiVersionV1Alpha7 : string := "gateway/v1alpha7".

Definition convertV4 (wire : documentV4 C) : result configError (BootstrapConfig * ResourceSet) :=
  let runtime := d4_runtime wire in
  '(bootstrap, resources) ← convertV3 (mkDocumentV3 apiVersionV1Alpha3 (rn_maxRetiredSnapshots runtime) (d4_listeners wire) (d4_server wire)
    (d4_telemetry wire) (r4_route <$> d4_routes wire) (d4_services wire) (u4_upstream <$> d4_upstreams wire));
  let health := rc_health (bc_runtime bootstrap) in
  let health := mkHealthRuntime (default (hr_workers health) (rn_workers runtime))
    (default (hr_readyQueueCapacity health) (rn_readyQueueCapacity runtime)) in
  let bootstrap := with_runtime bootstrap (mkRuntime (rc_maxRetiredSnapshots (bc_runtime bootstrap)) health) in
  routes ← convertEach resilienceLoop 0 (zip (rs_routes resources) (d4_routes wire));
  upstreams ← convertEach healthLoop 0 (zip (rs_upstreams resources) (d4_upstreams wire));
  Ok (bootstrap, set_upstreams (set_routes resources routes) upstreams).

(** ** Version 5 ([wire_v1alpha5.go]) *)

Definition validateMaterialID (field id : string) (seen : gmap string string) : result configError (gmap string string) :=
  if String.eqb id "" || negb (String.eqb (trim_space id) id) then invalid field
  else
    match seen !! id with
    | Some previous => Err (MaterialDuplicate field id previous)
    | None => Ok (<[id := field]> seen)
    end.

Fixpoint validateBundles (index : nat) (bundles : list trustBundleDocumentV5) (seen : gmap string string) : result configError (gmap string string) :=
  match bundles with
  | [] => Ok seen
  | b :: bundles =>
    let field := indexed "trust_bundles" index in
    seen ← validateMaterialID (field +:+ ".id") (kd_id b) seen;
    if String.eqb (trim_space (kd_caFile b)) "" then invalid (field +:+ ".ca_file")
    else validateBundles (S index) bundles seen
  end.

Fixpoint validateCertificates (index : nat) (certificates : list certificateDocumentV5) (seen : gmap string string)
    : result configError (gmap string string) :=
  match certificates with
  | [] => Ok seen
  | c :: certificates =>
    let field := indexed "certificates" index in
    seen ← validateMaterialID (field +:+ ".id") (cd_id c) seen;
    if String.eqb (trim_space (cd_certificateFile c)) "" then invalid (field +:+ ".certificate_file")
    else if String.eqb (trim_space (cd_privateKeyFile c)) "" then invalid (field +:+ ".private_key_file")
    else validateCertificates (S index) certificates seen
  end.

Definition validateMaterialDocumentsV5 (certificates : list certificateDocumentV5) (bundles : list trustBundleDocumentV5) : result configError unit :=
  let count := zlen certificates + zlen bundles in
  if MaxMaterialResources <? count then Err (MaterialCount count)
  else
    seen ← validateBundles 0 bundles ∅;
    _ ← validateCertificates 0 certificates seen;
    Ok tt.

Definition upstreamV4_of_V5 (u : upstreamDocumentV5) : upstreamDocumentV4 :=
  mkUpstreamDocumentV4 (mkUpstreamDocumentV3 (u5_id u) (u5_endpoints u) (u5_balancer u) (t5_transport (u5_transport u))) (u5_health u) (u5_retry u).

Definition set_transport (u : Upstream) (transport : TransportConfig) : Upstream :=
  mkUpstream (up_id u) (up_endpoints u) (up_balancer u) transport (up_health u) (up_retry u).

Definition transportV5 (u : Upstream) (wire : upstreamDocumentV5) : Upstream :=
  let t := up_transport u in
  let w := u5_transport wire in
  let protocol := if String.eqb (t5_protocol w) "" then TransportProtocolAuto else t5_protocol w in
  set_transport u (mkTransport protocol (match t5_tls w with None => tc_tls t | Some policy => Some policy end) (tc_dialTimeout t)
    (tc_responseHeaderTimeout t) (tc_idleConnectionTimeout t) (tc_maxIdleConnections t) (tc_maxIdleConnectionsPerHost t)).

Section Load.
Context (loadTrustBundle : string → string → result loadError (TrustBundle * Z)).
Context (loadCertificate : string → string → string → result loadError (Certificate * Z)).

Definition addBytes (sourceBytes count : Z) : result configError Z :=
  let sourceBytes := sourceBytes + count in
  if MaxCandidateSourceBytes <? sourceBytes then Err (MaterialBytes sourceBytes) else Ok sourceBytes.

Fixpoint loadBundles (index : nat) (sourceBytes : Z) (bundles : list trustBundleDocumentV5) : result configError (Z * list (option TrustBundle)) :=
  match bundles with
  | [] => Ok (sourceBytes, [])
  | b :: bundles =>
    '(bundle, count) ← map_err (MaterialFailed (indexed "trust_bundles" index)) (loadTrustBundle (kd_id b) (kd_caFile b));
    sourceBytes ← addBytes sourceBytes count;
    '(sourceBytes, rest) ← loadBundles (S index) sourceBytes bundles;
    Ok (sourceBytes, Some bundle :: rest)
  end.

Fixpoint loadCertificates (index : nat) (sourceBytes : Z) (certificates : list certificateDocumentV5)
    : result configError (Z * list (option Certificate)) :=
  match certificates with
  | [] => Ok (sourceBytes, [])
  | c :: certificates =>
    '(certificate, count) ← map_err (MaterialFailed (indexed "certificates" index))
      (loadCertificate (cd_id c) (cd_certificateFile c) (cd_privateKeyFile c));
    sourceBytes ← addBytes sourceBytes count;
    '(sourceBytes, rest) ← loadCertificates (S index) sourceBytes certificates;
    Ok (sourceBytes, Some certificate :: rest)
  end.

Definition convertV5 (wire : documentV5 C) : result configError (BootstrapConfig * ResourceSet) :=
  _ ← validateMaterialDocumentsV5 (d5_certificates wire) (d5_trustBundles wire);
  '(bootstrap, resources) ← convertV4 (mkDocumentV4 apiVersionV1Alpha4 (d5_runtime wire) (d5_listeners wire) (d5_server wire) (d5_telemetry wire)
    (d5_routes wire) (d5_services wire) (upstreamV4_of_V5 <$> d5_upstreams wire));
  let upstreams := zip_with transportV5 (rs_upstreams resources) (d5_upstreams wire) in
  '(sourceBytes, bundles) ← loadBundles 0 0 (d5_trustBundles wire);
  '(_, certificates) ← loadCertificates 0 sourceBytes (d5_certificates wire);
  Ok (bootstrap, mkResourceSet (rs_routes resources) (rs_services resources) upstreams certificates (rs_downstreamTLS resources) bundles).

(** ** Versions 6 and 7 ([wire_v1alpha6.go], [wire_v1alpha7.go]) *)

Definition convertWebSocketV6 (field : string) (wire : websocketDocumentV6) : result configError WebSocketPolicyOverride :=
  match wd_idleTimeout wire with
  | None => Ok (mkWebSocketOverride (wd_enabled wire) None)
  | Some raw =>
    duration ← parseDuration (field +:+ ".idle_timeout") raw;
    if duration <? 0 then invalid (field +:+ ".idle_timeout") else Ok (mkWebSocketOverride (wd_enabled wire) (Some duration))
  end.

Definition set_routeWebSocket (r : Route) (policy : WebSocketPolicyOverride) : Route :=
  mkRoute (rt_id r) (rt_priority r) (rt_match r) (rt_serviceRef r) (rt_upstreamRef r) (rt_plugins r) (rt_resilience r) policy.
Definition set_serviceWebSocket (s : Service) (policy : WebSocketPolicyOverride) : Service :=
  mkService (sv_id s) (sv_upstreamRef s) (sv_plugins s) policy.

Definition routeWebSocketLoop (index : nat) (pair : Route * routeDocumentV6 C) : result configError Route :=
  policy ← convertWebSocketV6 (indexed "routes" index +:+ ".websocket") (r6_webSocket pair.2); Ok (set_routeWebSocket pair.1 policy).
Definition serviceWebSocketLoop (index : nat) (pair : Service * serviceDocumentV6 C) : result configError Service :=
  policy ← convertWebSocketV6 (indexed "services" index +:+ ".websocket") (s6_webSocket pair.2); Ok (set_serviceWebSocket pair.1 policy).

Definition convertV6 (wire : documentV6 C) : result configError (BootstrapConfig * ResourceSet) :=
  '(bootstrap, resources) ← convertV5 (mkDocumentV5 apiVersionV1Alpha5 (d6_runtime wire) (d6_listeners wire) (d6_server wire) (d6_telemetry wire)
    (d6_trustBundles wire) (d6_certificates wire) (r6_route <$> d6_routes wire) (s6_service <$> d6_services wire) (d6_upstreams wire));
  routes ← convertEach routeWebSocketLoop 0 (zip (rs_routes resources) (d6_routes wire));
  services ← convertEach serviceWebSocketLoop 0 (zip (rs_services resources) (d6_services wire));
  Ok (bootstrap, set_services (set_routes resources routes) services).

Definition set_downstreamTLS (rs : ResourceSet) (policy : option DownstreamTLSPolicy) : ResourceSet :=
  mkResourceSet (rs_routes rs) (rs_services rs) (rs_upstreams rs) (rs_certificates rs) policy (rs_trustBundles rs).

Definition convertV7 (wire : documentV7 C) : result configError (BootstrapConfig * ResourceSet) :=
  '(bootstrap, resources) ← convertV6 (mkDocumentV6 apiVersionV1Alpha6 (d7_runtime wire) (d7_listeners wire) (d7_server wire) (d7_telemetry wire)
    (d7_trustBundles wire) (d7_certificates wire) (d7_routes wire) (d7_services wire) (d7_upstreams wire));
  match d7_downstreamTLS wire with
  | None => Ok (bootstrap, resources)
  | Some policy => Ok (bootstrap, set_downstreamTLS resources (Some policy))
  end.
End Load.
End Convert.

(** ** Validation ([validate.go]) *)

(** A resolved TCP address: the text of its IP, if any, and whether it is the
    unspecified address. *)
Record tcpAddr := mkTCPAddr { ta_ip : option string; ta_unspecified : bool; ta_port : Z }.

Section Validate.
Context `{Unicode}.
Context (ResolveTCPAddr : string → option tcpAddr) (open : string → option file).

Definition normalizedListenAddress (raw : string) : option string :=
  if String.eqb (trim_space raw) "" then None
  else
    address ← ResolveTCPAddr raw;
    let host := match ta_ip address with
      | Some ip => if ta_unspecified address then "*" else ip
      | None => "*"
      end in
    Some (joinHostPort host (pretty (ta_port address))).

Definition validateReadableRegularFile (field path : string) : result configError unit :=
  if String.eqb (trim_space path) "" then invalid field
  else
    match open path with
    | None => invalid field
    | Some file =>
      match f_stat file with
      | None => invalid field
      | Some (regular, _) => if regular then Ok tt else invalid field
      end
    end.

Fixpoint validateAddresses (listeners : list (string * string)) (seen : gmap string string) : result configError unit :=
  match listeners with
  | [] => Ok tt
  | (name, address) :: listeners =>
    match normalizedListenAddress address with
    | None => invalid name
    | Some key =>
      match seen !! key with
      | Some previous => Err (ListenerConflict address previous name)
      | None => validateAddresses listeners (<[key := name]> seen)
      end
    end
  end.

Definition validateListeners (b : BootstrapConfig) : result configError unit :=
  _ ← validateAddresses [("listeners.http.address", bc_http b); ("listeners.https.address", tl_address (bc_https b));
                         ("listeners.admin.address", bc_admin b)] ∅;
  _ ← validateReadableRegularFile "listeners.https.certificate_file" (tl_certificateFile (bc_https b));
  validateReadableRegularFile "listeners.https.private_key_file" (tl_privateKeyFile (bc_https b)).

Fixpoint validateChecks (checks : list (string * bool)) : result configError unit :=
  match checks with [] => Ok tt | (field, valid) :: checks => if valid then validateChecks checks else invalid field end.

Definition validateServer (s : ServerConfig) : result configError unit :=
  validateChecks [("server.read_header_timeout", 0 <? sc_readHeaderTimeout s); ("server.idle_timeout", 0 <? sc_idleTimeout s);
    ("server.shutdown_timeout", 0 <? sc_shutdownTimeout s); ("server.max_header_bytes", 0 <? sc_maxHeaderBytes s);
    ("server.max_request_body_bytes", 0 <? sc_maxRequestBodyBytes s)].

Definition validateBootstrap (b : BootstrapConfig) : result configError unit :=
  _ ← validateListeners b; validateServer (bc_server b).

(** [url.Parse] fails or gives another scheme. *)
Definition legacyScheme (e : Endpoint) : bool :=
  match url_Parse (ep_url e) with Some parsed => String.eqb (u_scheme parsed) "http" | None => false end.

Fixpoint validateSchemes (field : string) (index : nat) (endpoints : list Endpoint) : result configError unit :=
  match endpoints with
  | [] => Ok tt
  | e :: endpoints => if legacyScheme e then validateSchemes field (S index) endpoints else invalid (indexed field index +:+ ".url")
  end.

Fixpoint validateLegacyUpstreamSchemes (index : nat) (upstreams : list Upstream) : result configError unit :=
  match upstreams with
  | [] => Ok tt
  | u :: upstreams =>
    _ ← validateSchemes (indexed "upstreams" index +:+ ".endpoints") 0 (up_endpoints u);
    validateLegacyUpstreamSchemes (S index) upstreams
  end.

(** One of the three loops of [validateResourceIDs]. *)
Fixpoint validateIDs (kind : string) (field : string) (index : nat) (ids : list string) (seen : gset string) : result configError unit :=
  match ids with
  | [] => Ok tt
  | raw :: ids =>
    let id := trim_space raw in
    if String.eqb id "" then invalid (indexed field index +:+ ".id")
    else if bool_decide (id ∈ seen) then Err (IDDuplicate kind id)
    else validateIDs kind field (S index) ids ({[id]} ∪ seen)
  end.

Definition config_validateResourceIDs (rs : ResourceSet) : result configError unit :=
  _ ← validateIDs "route" "routes" 0 (rt_id <$> rs_routes rs) ∅;
  _ ← validateIDs "service" "services" 0 (sv_id <$> rs_services rs) ∅;
  validateIDs "upstream" "upstreams" 0 (up_id <$> rs_upstreams rs) ∅.

Definition token_separators : string := "()<>@,;:\/[]?={} " +:+ String (ascii_of_nat 34) (String (ascii_of_nat 9) "").

(** A rune beyond ASCII starts with, or is, a byte beyond ASCII. *)
Definition token_byte (c : ascii) : bool :=
  is_ascii_byte c && (32 <=? byte_val c)%N && negb (byte_val c =? 127)%N && negb (contains_byte c token_separators).

Definition config_validHTTPToken (value : string) : bool := negb (String.eqb value "") && string_forallb token_byte value.

Fixpoint validateMethods (field : string) (index : nat) (methods : list string) (seen : gset string) : result configError (list string) :=
  match methods with
  | [] => Ok []
  | raw :: methods =>
    if negb (config_validHTTPToken raw) then invalid (indexed field index)
    else
      let method := to_upper raw in
      if bool_decide (method ∈ seen) then Err (MethodDuplicate field method)
      else
        rest ← validateMethods field (S index) methods ({[method]} ∪ seen);
        Ok (method :: rest)
  end.

(** The match with its methods in upper case. *)
Definition validateRouteMatch (index : nat) (m : RouteMatch) : result configError RouteMatch :=
  let field := indexed "routes" index +:+ ".match" in
  if negb (has_prefix (match_path m) "/") then invalid (field +:+ ".path")
  else if contains_any "?#" (match_path m) then invalid (field +:+ ".path")
  else
    match match_methods m with
    | [] => invalid (field +:+ ".methods")
    | _ =>
      methods ← validateMethods (field +:+ ".methods") 0 (match_methods m) ∅;
      Ok (mkRouteMatch (match_hosts m) (match_path m) methods (match_headers m) (match_queries m))
    end.

Definition validatePredicate (field : string) (p : Predicate) : result configError unit :=
  if String.eqb (trim_space (pred_name p)) "" then invalid (field +:+ ".name")
  else
    let values := pred_values p in
    match pred_operator p with
    | PredicateExists | PredicateNotExists => if Nat.eqb (length values) 0 then Ok tt else invalid (field +:+ ".values")
    | PredicateEquals | PredicateNotEquals => if Nat.eqb (length values) 1 then Ok tt else invalid (field +:+ ".values")
    | PredicateOneOf => if Nat.eqb (length values) 0 then invalid (field +:+ ".values") else Ok tt
    | PredicateUnsupported _ => invalid (field +:+ ".operator")
    end.

Fixpoint validatePredicates (field : string) (index : nat) (predicates : list Predicate) : result configError unit :=
  match predicates with
  | [] => Ok tt
  | p :: predicates => _ ← validatePredicate (indexed field index) p; validatePredicates field (S index) predicates
  end.

Fixpoint validatePluginAttachments (field : string) (index : nat) (plugins : list PluginAttachment) (seen : gset string) : result configError unit :=
  match plugins with
  | [] => Ok tt
  | a :: plugins =>
    if String.eqb (trim_space (pa_name a)) "" then invalid (indexed field index +:+ ".name")
    else if bool_decide (pa_name a ∈ seen) then Err (PluginDuplicate field (pa_name a))
    else validatePluginAttachments field (S index) plugins ({[pa_name a]} ∪ seen)
  end.

Definition serviceExists (services : list Service) (id : string) : bool := existsb (fun s => String.eqb (sv_id s) id) services.
Definition upstreamExists (upstreams : list Upstream) (id : string) : bool := existsb (fun u => String.eqb (up_id u) id) upstreams.

Definition set_match (r : Route) (m : RouteMatch) : Route :=
  mkRoute (rt_id r) (rt_priority r) m (rt_serviceRef r) (rt_upstreamRef r) (rt_plugins r) (rt_resilience r) (rt_webSocket r).

Definition validateRouteV2 (services : list Service) (upstreams : list Upstream) (index : nat) (r : Route) : result configError Route :=
  let field := indexed "routes" index in
  m ← validateRouteMatch index (rt_match r);
  let r := set_match r m in
  if Bool.eqb (String.eqb (rt_serviceRef r) "") (String.eqb (rt_upstreamRef r) "") then invalid field
  else if negb (String.eqb (rt_serviceRef r) "") && negb (serviceExists services (rt_serviceRef r)) then invalid (field +:+ ".service_ref")
  else if negb (String.eqb (rt_upstreamRef r) "") && negb (upstreamExists upstreams (rt_upstreamRef r)) then invalid (field +:+ ".upstream_ref")
  else
    _ ← validatePredicates (field +:+ ".match.headers") 0 (match_headers m);
    _ ← validatePredicates (field +:+ ".match.queries") 0 (match_queries m);
    _ ← validatePluginAttachments (field +:+ ".plugins") 0 (rt_plugins r) ∅;
    Ok r.

Definition config_validateRoute (upstreams : list Upstream) (index : nat) (r : Route) : result configError Route :=
  m ← validateRouteMatch index (rt_match r);
  if negb (upstreamExists upstreams (rt_upstreamRef r)) then invalid (indexed "routes" index +:+ ".upstream_ref")
  else Ok (set_match r m).

Definition config_validateService (upstreams : list Upstream) (index : nat) (s : Service) : result configError Service :=
  let field := indexed "services" index in
  if negb (upstreamExists upstreams (sv_upstreamRef s)) then invalid (field +:+ ".upstream_ref")
  else _ ← validatePluginAttachments (field +:+ ".plugins") 0 (sv_plugins s) ∅; Ok s.

Definition config_validateUpstream (index : nat) (u : Upstream) : result configError Upstream :=
  let field := indexed "upstreams" index +:+ ".endpoints" in
  match up_endpoints u with
  | [e] =>
    if negb (ep_weight e =? 1) then invalid (field +:+ "[0].weight")
    else
      normalized ← map_err UpstreamFailed (Normalize [u]);
      match normalized with u :: _ => Ok u | [] => invalid field end
  | _ => invalid field
  end.

Definition checkVersion (got want : string) : result configError unit :=
  if String.eqb got want then Ok tt else Err (VersionMismatch got want).

Definition inRange (field : string) (got low high : Z) : result configError unit :=
  if (got <? low) || (high <? got) then invalid field else Ok tt.

Definition notEmpty {A} (field : string) (l : list A) : result configError unit :=
  match l with [] => invalid field | _ => Ok tt end.

Definition validateV1 (version : string) (b : BootstrapConfig) (rs : ResourceSet) : result configError ResourceSet :=
  _ ← checkVersion version apiVersionV1Alpha1;
  _ ← validateBootstrap b;
  _ ← config_validateResourceIDs rs;
  _ ← validateLegacyUpstreamSchemes 0 (rs_upstreams rs);
  match rs_routes rs, rs_upstreams rs with
  | [route], [upstream] =>
    upstream ← config_validateUpstream 0 upstream;
    route ← config_validateRoute [upstream] 0 route;
    Ok (set_upstreams (set_routes rs [route]) [upstream])
  | [_], _ => invalid "upstreams"
  | _, _ => invalid "routes"
  end.

(** The services and routes against the normalized upstreams. *)
Definition validateReferences (rs : ResourceSet) (upstreams : list Upstream) : result configError ResourceSet :=
  services ← convertEach (config_validateService upstreams) 0 (rs_services rs);
  routes ← convertEach (validateRouteV2 services upstreams) 0 (rs_routes rs);
  Ok (set_upstreams (set_services (set_routes rs routes) services) upstreams).

Definition validateV2 (version : string) (b : BootstrapConfig) (rs : ResourceSet) : result configError ResourceSet :=
  _ ← checkVersion version apiVersionV1Alpha2;
  _ ← validateBootstrap b;
  _ ← config_validateResourceIDs rs;
  _ ← validateLegacyUpstreamSchemes 0 (rs_upstreams rs);
  _ ← notEmpty "routes" (rs_routes rs);
  _ ← notEmpty "upstreams" (rs_upstreams rs);
  upstreams ← convertEach config_validateUpstream 0 (rs_upstreams rs);
  validateReferences rs upstreams.

Definition validateV3 (version : string) (b : BootstrapConfig) (rs : ResourceSet) : result configError ResourceSet :=
  _ ← checkVersion version apiVersionV1Alpha3;
  _ ← validateBootstrap b;
  _ ← inRange "runtime.max_retired_snapshots" (rc_maxRetiredSnapshots (bc_runtime b)) 1 1024;
  _ ← config_validateResourceIDs rs;
  _ ← validateLegacyUpstreamSchemes 0 (rs_upstreams rs);
  _ ← notEmpty "routes" (rs_routes rs);
  _ ← notEmpty "upstreams" (rs_upstreams rs);
  normalized ← map_err UpstreamFailed (Normalize (rs_upstreams rs));
  validateReferences rs normalized.

Definition validateHealthRuntime (b : BootstrapConfig) : result configError unit :=
  _ ← inRange "runtime.health.workers" (hr_workers (rc_health (bc_runtime b))) 1 256;
  inRange "runtime.health.ready_queue_capacity" (hr_readyQueueCapacity (rc_health (bc_runtime b))) 1 65536.

Definition validateV4 (version : string) (b : BootstrapConfig) (rs : ResourceSet) : result configError ResourceSet :=
  _ ← checkVersion version apiVersionV1Alpha4;
  _ ← validateHealthRuntime b;
  validateV3 apiVersionV1Alpha3 b rs.

Definition validateV5 (version : string) (b : BootstrapConfig) (rs : ResourceSet) : result configError ResourceSet :=
  _ ← checkVersion version apiVersionV1Alpha5;
  _ ← validateHealthRuntime b;
  _ ← validateBootstrap b;
  _ ← inRange "runtime.max_retired_snapshots" (rc_maxRetiredSnapshots (bc_runtime b)) 1 1024;
  _ ← config_validateResourceIDs rs;
  _ ← notEmpty "routes" (rs_routes rs);
  _ ← notEmpty "upstreams" (rs_upstreams rs);
  normalized ← map_err UpstreamFailed (Normalize (rs_upstreams rs));
  validateReferences rs normalized.

Definition validateV6 (version : string) (b : BootstrapConfig) (rs : ResourceSet) : result configError ResourceSet :=
  _ ← checkVersion version apiVersionV1Alpha6;
  validateV5 apiVersionV1Alpha5 b rs.

Fixpoint validateBindings (index : nat) (bindings : list SNIBinding) : result configError unit :=
  match bindings with
  | [] => Ok tt
  | binding :: bindings =>
    let field := indexed "downstream_tls.sni_bindings" index in
    if String.eqb (trim_space (sb_certificateRef binding)) "" then invalid (field +:+ ".certificate_ref")
    else match sb_hosts binding with [] => invalid (field +:+ ".hosts") | _ => validateBindings (S index) bindings end
  end.

Definition validateV7 (version : string) (b : BootstrapConfig) (rs : ResourceSet) : result configError ResourceSet :=
  _ ← checkVersion version apiVersionV1Alpha7;
  match rs_downstreamTLS rs with
  | None => invalid "downstream_tls"
  | Some policy =>
    if String.eqb (trim_space (dt_defaultCertificateRef policy)) "" then invalid "downstream_tls.default_certificate_ref"
    else _ ← validateBindings 0 (dt_sniBindings policy); validateV6 apiVersionV1Alpha6 b rs
  end.
End Validate.

(** ** Decoding ([load.go])

    [header] decodes the version alone; [strict_n] is [decodeStrict] for the
    documents of version [n], failing on unknown fields and further documents. *)

Record decoders (C : Type) := mkDecoders {
  header : string → option string;
  strict1 : string → option document;
  strict2 : string → option (documentV2 C);
  strict3 : string → option (documentV3 C);
  strict4 : string → option (documentV4 C);
  strict5 : string → option (documentV5 C);
  strict6 : string → option (documentV6 C);
  strict7 : string → option (documentV7 C);
}.
Arguments header {C} _ _.
Arguments strict1 {C} _ _.
Arguments strict2 {C} _ _.
Arguments strict3 {C} _ _.
Arguments strict4 {C} _ _.
Arguments strict5 {C} _ _.
Arguments strict6 {C} _ _.
Arguments strict7 {C} _ _.

Section Decode.
Context `{Unicode} {C : Type} (yaml : decoders C) (Marshal : C → option string).
Context (ResolveTCPAddr : string → option tcpAddr) (open : string → option file).
Context (sha256 : string → string) (ParseCertificate : string → option Leaf).
Context (pem_Decode : string → option (string * string * string)).
Context (X509KeyPair : string → string → option tlsCertificate).
Context (iterate : gmap string Leaf → list string).

(** One case of the switch. *)
Definition decodeVersion {D} (strict : option D) (convert : D → result configError (BootstrapConfig * ResourceSet))
    (validate : string → BootstrapConfig → ResourceSet → result configError ResourceSet) (version : D → string)
    : result configError (BootstrapConfig * ResourceSet) :=
  match strict with
  | None => Err DocumentInvalid
  | Some wire =>
    '(bootstrap, resources) ← convert wire;
    resources ← validate (version wire) bootstrap resources;
    Ok (bootstrap, resources)
  end.

Definition Decode (data : string) : result configError (BootstrapConfig * ResourceSet) :=
  let bundle := LoadTrustBundle open sha256 ParseCertificate pem_Decode iterate in
  let certificate := LoadCertificate open sha256 ParseCertificate X509KeyPair in
  let resolve := ResolveTCPAddr in
  match header yaml data with
  | None => Err DocumentInvalid
  | Some version =>
    if String.eqb version apiVersionV1Alpha1 then decodeVersion (strict1 yaml data) convert (validateV1 resolve open) d1_apiVersion
    else if String.eqb version apiVersionV1Alpha2 then decodeVersion (strict2 yaml data) (convertV2 Marshal) (validateV2 resolve open) d2_apiVersion
    else if String.eqb version apiVersionV1Alpha3 then decodeVersion (strict3 yaml data) (convertV3 Marshal) (validateV3 resolve open) d3_apiVersion
    else if String.eqb version apiVersionV1Alpha4 then decodeVersion (strict4 yaml data) (convertV4 Marshal) (validateV4 resolve open) d4_apiVersion
    else if String.eqb version apiVersionV1Alpha5 then
      decodeVersion (strict5 yaml data) (convertV5 Marshal bundle certificate) (validateV5 resolve open) d5_apiVersion
    else if String.eqb version apiVersionV1Alpha6 then
      decodeVersion (strict6 yaml data) (convertV6 Marshal bundle certificate) (validateV6 resolve open) d6_apiVersion
    else if String.eqb version apiVersionV1Alpha7 then
      decodeVersion (strict7 yaml data) (convertV7 Marshal bundle certificate) (validateV7 resolve open) d7_apiVersion
    else Err (VersionUnsupported version)
  end.

(** A file that cannot be opened or read to its end is an error. *)
Definition Load (path : string) : result configError (BootstrapConfig * ResourceSet) :=
  match open path with
  | None => Err FileUnreadable
  | Some file => match f_content file with None => Err FileUnreadable | Some data => Decode data end
  end.
End Decode.
