(* ===== verification/ConfigCorrect.v ===== *)
(** * What accepted configurations guarantee

    A configuration that [Decode] accepts has settings the gateway can be
    constructed from, canonical upstreams and resources that pass the
    validation of the snapshot builder; and every document of a version has an
    equivalent of the next one. *)

From S2P Require Import Prelude GoStrings NetAddr HashKey Url Duration Resources UpstreamConfig X509 TlsMaterial MaterialLoad Health HealthScheduler Registry.
From S2P Require Import Predicate Router Plugins DownstreamTLS Builder Config.
#[local] Open Scope string_scope.
#[local] Open Scope Z_scope.
#[local] Open Scope list_scope.

(** ** Loops *)

Lemma convertEach_ok {A B} (f : nat → A → result configError B) index l l' :
  convertEach f index l = Ok l' → Forall2 (fun x y => ∃ k, f k x = Ok y) l l'.
Proof.
  revert index l'. induction l as [|x l IH]; intros index l'; simpl; [intros [= <-]; constructor|].
  intros (y & Hy & (ys & Hys & [= <-])%bind_ok_inv)%bind_ok_inv. constructor; [by eexists|by eapply IH].
Qed.

(** A loop that keeps an attribute of every element. *)
Lemma convertEach_keeps {A B K} (f : nat → A → result configError B) (a : A → K) (b : B → K) index l l' :
  (∀ k x y, f k x = Ok y → b y = a x) → convertEach f index l = Ok l' → b <$> l' = a <$> l.
Proof.
  intros Hf Hl%convertEach_ok. induction Hl as [|x y l l' [k Hk] _ IH]; [done|]. rewrite !fmap_cons, IH. by rewrite (Hf _ _ _ Hk).
Qed.

(** A loop all of whose results have a property. *)
Lemma convertEach_all {A B} (f : nat → A → result configError B) (P : A → Prop) (R : B → Prop) index l l' :
  (∀ k x y, P x → f k x = Ok y → R y) → Forall P l → convertEach f index l = Ok l' → Forall R l'.
Proof.
  intros Hf HP Hl%convertEach_ok. induction Hl as [|x y l l' [k Hk] _ IH]; [constructor|].
  apply Forall_cons in HP as [Hx HP]. constructor; [by eapply Hf|by apply IH].
Qed.

(** ** Conversion *)

(** No WebSocket idle timeout is negative. *)
Definition calm (rs : ResourceSet) : Prop :=
  Forall (fun r => timeout_ok (rt_webSocket r)) (rs_routes rs) ∧ Forall (fun s => timeout_ok (sv_webSocket s)) (rs_services rs).

Lemma noWebSocket_ok : timeout_ok noWebSocket.
Proof. by intros t [=]. Qed.

Lemma zip_fst {A B} (P : A → Prop) (l : list A) (k : list B) : Forall P l → Forall (fun p => P p.1) (zip l k).
Proof. intros Hl. revert k. induction Hl; intros [|y k]; constructor; auto. Qed.

Lemma convert_calm d b rs : convert d = Ok (b, rs) → calm rs.
Proof.
  unfold convert. intros (server & _ & (ups & _ & [= _ <-])%bind_ok_inv)%bind_ok_inv. split; simpl; [|constructor].
  apply Forall_fmap, Forall_true. intros r. apply noWebSocket_ok.
Qed.

Section Conversion.
Context {C : Type} (Marshal : C → option string).

Lemma convertRouteV2_ok k w r : convertRouteV2 Marshal k w = Ok r → rt_webSocket r = noWebSocket.
Proof. unfold convertRouteV2. by intros (? & _ & [= <-])%bind_ok_inv. Qed.
Lemma convertServiceV2_ok k w s : convertServiceV2 Marshal k w = Ok s → sv_webSocket s = noWebSocket.
Proof. unfold convertServiceV2. by intros (? & _ & [= <-])%bind_ok_inv. Qed.

Lemma convertV2_calm d b rs : convertV2 Marshal d = Ok (b, rs) → calm rs.
Proof.
  unfold convertV2. intros ([b0 rs0] & _ & (routes & Hr & (services & Hs & [= _ <-])%bind_ok_inv)%bind_ok_inv)%bind_ok_inv.
  split; simpl; (eapply (convertEach_all _ (fun _ => True)); [|by apply Forall_true|done]); intros k x y _ Hy.
  - rewrite (convertRouteV2_ok _ _ _ Hy). apply noWebSocket_ok.
  - rewrite (convertServiceV2_ok _ _ _ Hy). apply noWebSocket_ok.
Qed.

Lemma convertV3_calm d b rs : convertV3 Marshal d = Ok (b, rs) → calm rs.
Proof. unfold convertV3. by intros ([b0 rs0] & H%convertV2_calm & (ups & _ & [= _ <-])%bind_ok_inv)%bind_ok_inv. Qed.

Lemma convertV4_calm d b rs : convertV4 Marshal d = Ok (b, rs) → calm rs.
Proof.
  unfold convertV4. intros ([b0 rs0] & [Hr Hs]%convertV3_calm & (routes & Hroutes & (ups & _ & [= _ <-])%bind_ok_inv)%bind_ok_inv)%bind_ok_inv.
  split; [|done]. refine (convertEach_all _ (fun p => timeout_ok (rt_webSocket p.1)) _ _ _ _ _ (zip_fst _ _ _ Hr) Hroutes).
  unfold resilienceLoop. by intros k x y Hx (? & _ & [= <-])%bind_ok_inv.
Qed.

Context (loadBundle : string → string → result loadError (TrustBundle * Z)).
Context (loadCertificate : string → string → string → result loadError (Certificate * Z)).

Lemma convertV5_calm d b rs : convertV5 Marshal loadBundle loadCertificate d = Ok (b, rs) → calm rs.
Proof.
  unfold convertV5. intros (u & _ & ([b0 rs0] & H%convertV4_calm & ([n bundles] & _ & ([m certs] & _ & [= _ <-])%bind_ok_inv)%bind_ok_inv)%bind_ok_inv)%bind_ok_inv.
  exact H.
Qed.

Lemma convertWebSocketV6_ok field w o : convertWebSocketV6 field w = Ok o → timeout_ok o.
Proof.
  unfold convertWebSocketV6. destruct (wd_idleTimeout w) as [raw|]; [|by intros [= <-] t [=]].
  intros (d & _ & Hd)%bind_ok_inv. destruct (Z.ltb_spec d 0); [done|]. injection Hd as <-. intros t [= <-]. lia.
Qed.

Lemma convertV6_calm d b rs : convertV6 Marshal loadBundle loadCertificate d = Ok (b, rs) → calm rs.
Proof.
  unfold convertV6. intros ([b0 rs0] & _ & (routes & Hr & (services & Hs & [= _ <-])%bind_ok_inv)%bind_ok_inv)%bind_ok_inv.
  split; simpl; (eapply (convertEach_all _ (fun _ => True)); [|by apply Forall_true|done]); intros k x y _.
  - unfold routeWebSocketLoop. by intros (o & Ho%convertWebSocketV6_ok & [= <-])%bind_ok_inv.
  - unfold serviceWebSocketLoop. by intros (o & Ho%convertWebSocketV6_ok & [= <-])%bind_ok_inv.
Qed.

Lemma convertV7_calm d b rs : convertV7 Marshal loadBundle loadCertificate d = Ok (b, rs) → calm rs.
Proof.
  unfold convertV7. intros ([b0 rs0] & H%convertV6_calm & E)%bind_ok_inv. destruct (d7_downstreamTLS d); by injection E as _ <-.
Qed.
End Conversion.

(** ** Validation *)

(** Identifiers that are distinct after trimming. *)
Definition ids_ok (ids : list string) : Prop := Forall (fun id => trim_space id ≠ "") ids ∧ NoDup (trim_space <$> ids).

Lemma validateIDs_ok kind field index ids seen : validateIDs kind field index ids seen = Ok tt →
  ids_ok ids ∧ Forall (fun id => trim_space id ∉ seen) ids.
Proof.
  revert index seen. induction ids as [|id ids IH]; intros index seen; cbn [validateIDs]; [intros _; split; [split|]; constructor|].
  destruct (String.eqb_spec (trim_space id) "") as [|Hne]; [done|]. case_bool_decide as Hin; [done|].
  intros [[H1 H2] H3]%IH. rewrite Forall_forall in H3. split; [split|].
  - by constructor.
  - rewrite fmap_cons. constructor; [|done]. intros (x & E & Hx)%list_elem_of_fmap. specialize (H3 x Hx). rewrite E in H3. set_solver.
  - constructor; [done|]. apply Forall_forall. intros x Hx. specialize (H3 x Hx). set_solver.
Qed.

Lemma ids_trimmed ids : ids_ok ids → Forall (fun id => trim_space id = id) ids → Forall id_ok ids ∧ NoDup ids.
Proof.
  intros [H1 H2] Ht. split; [|by apply NoDup_fmap_1 in H2]. apply Forall_forall. intros id Hid. rewrite Forall_forall in H1, Ht.
  specialize (H1 id Hid). specialize (Ht id Hid). split; congruence.
Qed.

Lemma validatePluginAttachments_ok field index plugins seen : validatePluginAttachments field index plugins seen = Ok tt →
  scope_ok plugins ∧ Forall (fun a => pa_name a ∉ seen) plugins.
Proof.
  revert index seen. induction plugins as [|a plugins IH]; intros index seen; cbn [validatePluginAttachments]; [intros _; split; [split|]; constructor|].
  destruct (String.eqb_spec (trim_space (pa_name a)) "") as [|Hne]; [done|]. case_bool_decide as Hin; [done|].
  intros [[H1 H2] H3]%IH. rewrite Forall_forall in H3. split; [split|].
  - by constructor.
  - rewrite fmap_cons. constructor; [|done]. intros (x & E & Hx)%list_elem_of_fmap. specialize (H3 x Hx). rewrite <-E in H3. set_solver.
  - constructor; [done|]. apply Forall_forall. intros x Hx. specialize (H3 x Hx). set_solver.
Qed.

Lemma upstreamExists_ok upstreams id : upstreamExists upstreams id = true → id ∈ up_id <$> upstreams.
Proof.
  unfold upstreamExists. intros (u & Hu & E%String.eqb_eq)%existsb_exists. apply list_elem_of_fmap. exists u. split; [done|by apply list_elem_of_In].
Qed.

Lemma serviceExists_ok services id : serviceExists services id = true → id ∈ sv_id <$> services.
Proof.
  unfold serviceExists. intros (s & Hs & E%String.eqb_eq)%existsb_exists. apply list_elem_of_fmap. exists s. split; [done|by apply list_elem_of_In].
Qed.

Section Validation.
Context `{Unicode}.

(** Methods in upper case, distinct and valid. *)
Definition methods_ok (methods : list string) : Prop :=
  methods ≠ [] ∧ NoDup methods ∧ Forall (fun m => to_upper m = m ∧ m ≠ "") methods.

Lemma upper_byte_idem c : upper_byte (upper_byte c) = upper_byte c.
Proof. by destruct c as [[] [] [] [] [] [] [] []]. Qed.

Lemma to_upper_ascii_idem s : to_upper_ascii (to_upper_ascii s) = to_upper_ascii s.
Proof. unfold to_upper_ascii. induction s as [|c s IH]; simpl; [done|]. by rewrite upper_byte_idem, IH. Qed.

Lemma token_is_ascii value : config_validHTTPToken value = true → is_ascii value = true ∧ value ≠ "".
Proof.
  unfold config_validHTTPToken. intros [Hne Ht]%andb_true_iff. split; [|intros ->; done]. unfold is_ascii. clear Hne.
  induction value as [|c value IH]; [done|]. simpl in *. apply andb_true_iff in Ht as [Hc Ht]. unfold token_byte in Hc.
  bool_hyps. apply andb_true_iff. by split; [|apply IH].
Qed.

Lemma upper_is_ascii s : is_ascii s = true → is_ascii (to_upper_ascii s) = true.
Proof.
  unfold is_ascii, to_upper_ascii. induction s as [|c s IH]; simpl; [done|]. intros [Hc Hs]%andb_true_iff. apply andb_true_iff. split; [|by apply IH].
  by destruct c as [[] [] [] [] [] [] [] []].
Qed.

Lemma token_upper raw : config_validHTTPToken raw = true → to_upper (to_upper raw) = to_upper raw ∧ to_upper raw ≠ "".
Proof.
  intros [Ha Hne]%token_is_ascii. unfold to_upper. rewrite Ha, (upper_is_ascii _ Ha), to_upper_ascii_idem. split; [done|]. by destruct raw.
Qed.

Lemma validateMethods_ok field index methods seen out : validateMethods field index methods seen = Ok out →
  length out = length methods ∧ NoDup out ∧ Forall (fun m => to_upper m = m ∧ m ≠ "") out ∧ Forall (fun m => m ∉ seen) out.
Proof.
  revert index seen out. induction methods as [|raw methods IH]; intros index seen out; cbn [validateMethods].
  { intros [= <-]. split_and!; try done; constructor. }
  destruct (config_validHTTPToken raw) eqn:Hraw; [|done]. cbn [negb]. case_bool_decide as Hin; [done|].
  intros (rest & (H1 & H2 & H3 & H4)%IH & [= <-])%bind_ok_inv. rewrite Forall_forall in H4. split_and!.
  - simpl. by rewrite H1.
  - constructor; [|done]. intros Hx. specialize (H4 _ Hx). set_solver.
  - constructor; [by apply token_upper|done].
  - constructor; [done|]. apply Forall_forall. intros x Hx. specialize (H4 _ Hx). set_solver.
Qed.

Lemma validateRouteMatch_ok index m m' : validateRouteMatch index m = Ok m' →
  methods_ok (match_methods m') ∧ has_prefix (match_path m') "/" = true.
Proof.
  unfold validateRouteMatch. destruct (has_prefix (match_path m) "/") eqn:Hp; [|done]. cbn [negb]. destruct (contains_any _ _); [done|].
  destruct (match_methods m) as [|x l] eqn:Em; [done|]. intros (out & (H1 & H2 & H3 & _)%validateMethods_ok & [= <-])%bind_ok_inv.
  split; [|done]. simpl. split_and!; try done. by destruct out.
Qed.

(** A route whose target is among the given services and upstreams. *)
Definition target_ok (services : list Service) (upstreams : list Upstream) (r : Route) : Prop :=
  (rt_serviceRef r ≠ "" ∧ rt_upstreamRef r = "" ∧ rt_serviceRef r ∈ sv_id <$> services) ∨
  (rt_serviceRef r = "" ∧ rt_upstreamRef r ≠ "" ∧ rt_upstreamRef r ∈ up_id <$> upstreams).

Definition route_ok (services : list Service) (upstreams : list Upstream) (r : Route) : Prop :=
  target_ok services upstreams r ∧ scope_ok (rt_plugins r) ∧ timeout_ok (rt_webSocket r) ∧ methods_ok (match_methods (rt_match r)).

Lemma validateRouteV2_ok services upstreams k r r' : timeout_ok (rt_webSocket r) → validateRouteV2 services upstreams k r = Ok r' →
  rt_id r' = rt_id r ∧ route_ok services upstreams r'.
Proof.
  intros Ht. unfold validateRouteV2. intros (m & [Hm _]%validateRouteMatch_ok & Hv)%bind_ok_inv. cbn [set_match rt_serviceRef rt_upstreamRef rt_plugins] in Hv.
  unfold route_ok, target_ok.
  destruct (String.eqb_spec (rt_serviceRef r) "") as [Es|Es], (String.eqb_spec (rt_upstreamRef r) "") as [Eu|Eu]; try done; cbn [negb andb Bool.eqb] in Hv.
  - destruct (upstreamExists _ _) eqn:Hex; [|done]. apply upstreamExists_ok in Hex. cbn [negb] in Hv.
    apply bind_ok_inv in Hv as (? & _ & (? & _ & ([] & [Hp _]%validatePluginAttachments_ok & [= <-])%bind_ok_inv)%bind_ok_inv). simpl. split_and!; auto.
  - destruct (serviceExists _ _) eqn:Hex; [|done]. apply serviceExists_ok in Hex. cbn [negb] in Hv.
    apply bind_ok_inv in Hv as (? & _ & (? & _ & ([] & [Hp _]%validatePluginAttachments_ok & [= <-])%bind_ok_inv)%bind_ok_inv). simpl. split_and!; auto.
Qed.

Definition service_ok (upstreams : list Upstream) (s : Service) : Prop :=
  sv_upstreamRef s ∈ up_id <$> upstreams ∧ scope_ok (sv_plugins s) ∧ timeout_ok (sv_webSocket s).

Lemma config_validateService_ok upstreams k s s' : config_validateService upstreams k s = Ok s' →
  s' = s ∧ sv_upstreamRef s ∈ up_id <$> upstreams ∧ scope_ok (sv_plugins s).
Proof.
  unfold config_validateService. destruct (upstreamExists _ _) eqn:Hex; [|done]. apply upstreamExists_ok in Hex. cbn [negb].
  by intros ([] & [Hp _]%validatePluginAttachments_ok & [= <-])%bind_ok_inv.
Qed.

(** Resources the snapshot builder accepts up to untrimmed identifiers. *)
Record resources_ok (rs : ResourceSet) : Prop := {
  rk_nonempty : rs_routes rs ≠ [];
  rk_route_ids : ids_ok (rt_id <$> rs_routes rs);
  rk_service_ids : ids_ok (sv_id <$> rs_services rs);
  rk_upstream_ids : ids_ok (up_id <$> rs_upstreams rs);
  rk_upstreams : Forall upstream_ok (rs_upstreams rs);
  rk_services : Forall (service_ok (rs_upstreams rs)) (rs_services rs);
  rk_routes : Forall (route_ok (rs_services rs) (rs_upstreams rs)) (rs_routes rs);
}.

Lemma config_validateResourceIDs_ok rs : config_validateResourceIDs rs = Ok tt →
  ids_ok (rt_id <$> rs_routes rs) ∧ ids_ok (sv_id <$> rs_services rs) ∧ ids_ok (up_id <$> rs_upstreams rs).
Proof.
  unfold config_validateResourceIDs. intros ([] & [? _]%validateIDs_ok & ([] & [? _]%validateIDs_ok & [? _]%validateIDs_ok)%bind_ok_inv)%bind_ok_inv. done.
Qed.

Lemma validateReferences_ok rs upstreams rs' : calm rs → config_validateResourceIDs rs = Ok tt → rs_routes rs ≠ [] →
  up_id <$> upstreams = up_id <$> rs_upstreams rs → Forall upstream_ok upstreams →
  validateReferences rs upstreams = Ok rs' → resources_ok rs'.
Proof.
  intros [Hcr Hcs] (Hi1 & Hi2 & Hi3)%config_validateResourceIDs_ok Hne Hids Hups. unfold validateReferences.
  intros (services & Hs & (routes & Hr & [= <-])%bind_ok_inv)%bind_ok_inv.
  assert (Hsame : sv_id <$> services = sv_id <$> rs_services rs).
  { eapply convertEach_keeps; [|exact Hs]. by intros k x y [-> _]%config_validateService_ok. }
  assert (Hrids : rt_id <$> routes = rt_id <$> rs_routes rs).
  { eapply convertEach_keeps; [|exact Hr]. intros k x y. unfold validateRouteV2. intros (m & _ & Hv)%bind_ok_inv.
    destruct (Bool.eqb _ _); [done|]. destruct (_ && _); [done|]. destruct (_ && _); [done|].
    by apply bind_ok_inv in Hv as (? & _ & (? & _ & (? & _ & [= <-])%bind_ok_inv)%bind_ok_inv). }
  split; simpl; rewrite ?Hsame, ?Hrids, ?Hids; try done.
  - intros ->. symmetry in Hrids. by apply fmap_nil_inv in Hrids.
  - eapply (convertEach_all _ (fun s => timeout_ok (sv_webSocket s))); [|exact Hcs|exact Hs]. intros k x y Hx [-> [? ?]]%config_validateService_ok. by split_and!.
  - eapply (convertEach_all _ (fun r => timeout_ok (rt_webSocket r))); [|exact Hcr|exact Hr]. intros k x y Hx Hy. exact (proj2 (validateRouteV2_ok _ _ _ _ _ Hx Hy)).
Qed.

Lemma Normalize_each us ns : Normalize us = Ok ns → up_id <$> ns = up_id <$> us ∧ Forall upstream_ok ns.
Proof. unfold Normalize. destruct (_ <? _); [done|]. by intros (? & _ & _ & _ & ?)%normalizeUpstreams_ok. Qed.

Lemma config_validateUpstream_ok k u u' : config_validateUpstream k u = Ok u' → up_id u' = up_id u ∧ upstream_ok u'.
Proof.
  unfold config_validateUpstream. destruct (up_endpoints u) as [|e [|]]; [done| |done]. destruct (negb _); [done|].
  intros (ns & Hn%map_err_ok_inv & Hu)%bind_ok_inv. apply Normalize_each in Hn as [Hids Hok]. destruct ns as [|n ns]; [done|].
  injection Hu as <-. simpl in Hids. apply Forall_cons in Hok as [? _]. split; [congruence|done].
Qed.

Context (ResolveTCPAddr : string → option tcpAddr) (open : string → option file).

(** ** Settings *)

Record settings_ok (b : BootstrapConfig) : Prop := {
  sk_listeners : ∃ http https admin, normalizedListenAddress ResolveTCPAddr (bc_http b) = Some http ∧
    normalizedListenAddress ResolveTCPAddr (tl_address (bc_https b)) = Some https ∧
    normalizedListenAddress ResolveTCPAddr (bc_admin b) = Some admin ∧ NoDup [http; https; admin];
  sk_server : 0 < sc_readHeaderTimeout (bc_server b) ∧ 0 < sc_idleTimeout (bc_server b) ∧ 0 < sc_shutdownTimeout (bc_server b) ∧
    0 < sc_maxHeaderBytes (bc_server b) ∧ 0 < sc_maxRequestBodyBytes (bc_server b);
  sk_registry observer : NewRegistry (rc_maxRetiredSnapshots (bc_runtime b)) (hr_workers (rc_health (bc_runtime b)))
    (hr_readyQueueCapacity (rc_health (bc_runtime b))) observer ≠ None;
  sk_coordinator now : newHealthCoordinator (hr_workers (rc_health (bc_runtime b))) (hr_readyQueueCapacity (rc_health (bc_runtime b))) now ≠ None;
}.

Lemma validateListeners_ok b : validateListeners ResolveTCPAddr open b = Ok tt →
  ∃ http https admin, normalizedListenAddress ResolveTCPAddr (bc_http b) = Some http ∧
    normalizedListenAddress ResolveTCPAddr (tl_address (bc_https b)) = Some https ∧
    normalizedListenAddress ResolveTCPAddr (bc_admin b) = Some admin ∧ NoDup [http; https; admin].
Proof.
  unfold validateListeners. intros (u & Ha & _)%bind_ok_inv. cbn [validateAddresses] in Ha.
  destruct (normalizedListenAddress _ (bc_http b)) as [k1|]; [|done]. rewrite lookup_empty in Ha.
  destruct (normalizedListenAddress _ (tl_address _)) as [k2|]; [|done]. destruct (decide (k2 = k1)) as [->|H12]; [by rewrite lookup_insert_eq in Ha|].
  rewrite lookup_insert_ne, lookup_empty in Ha by done. destruct (normalizedListenAddress _ (bc_admin b)) as [k3|]; [|done].
  destruct (decide (k3 = k2)) as [->|H23]; [by rewrite lookup_insert_eq in Ha|].
  destruct (decide (k3 = k1)) as [->|H13]; [by rewrite lookup_insert_ne, lookup_insert_eq in Ha by done|].
  exists k1, k2, k3. split_and!; try done. repeat constructor; set_solver.
Qed.

Lemma validateServer_ok s : validateServer s = Ok tt → 0 < sc_readHeaderTimeout s ∧ 0 < sc_idleTimeout s ∧ 0 < sc_shutdownTimeout s ∧
    0 < sc_maxHeaderBytes s ∧ 0 < sc_maxRequestBodyBytes s.
Proof.
  unfold validateServer. cbn [validateChecks].
  repeat match goal with |- context [if 0 <? ?x then _ else _] => destruct (Z.ltb_spec 0 x); [|done] end. by intros _.
Qed.

(** The limits of the registry and the coordinator. *)
Definition limits_ok (r : RuntimeConfig) : Prop :=
  1 ≤ rc_maxRetiredSnapshots r ≤ 1024 ∧ 1 ≤ hr_workers (rc_health r) ≤ 256 ∧ 1 ≤ hr_readyQueueCapacity (rc_health r) ≤ 65536.

Lemma settings b : validateBootstrap ResolveTCPAddr open b = Ok tt → limits_ok (bc_runtime b) → settings_ok b.
Proof.
  unfold validateBootstrap. intros ([] & Hl%validateListeners_ok & Hs%validateServer_ok)%bind_ok_inv (H1 & H2 & H3).
  assert (Hr : ∀ x low high, low ≤ x ≤ high → (x <? low) || (high <? x) = false).
  { intros x low high Hx. apply orb_false_iff. split; apply Z.ltb_ge; lia. }
  split; try done; intros; unfold NewRegistry, newHealthCoordinator; by rewrite !Hr by done.
Qed.

Lemma inRange_ok field got low high : inRange field got low high = Ok tt → low ≤ got ≤ high.
Proof. unfold inRange. destruct (Z.ltb_spec got low); [done|]. destruct (Z.ltb_spec high got); [done|]. lia. Qed.

Lemma notEmpty_ok {A} field (l : list A) : notEmpty field l = Ok tt → l ≠ [].
Proof. by destruct l. Qed.

(** Accepted by a version's validation. *)
Definition accepted (b : BootstrapConfig) (rs : ResourceSet) : Prop := settings_ok b ∧ resources_ok rs.

Lemma validateV1_ok version b rs rs' : bc_runtime b = defaultRuntime → calm rs → validateV1 ResolveTCPAddr open version b rs = Ok rs' → rs_services rs = [] →
  Forall (fun r => rt_serviceRef r = "" ∧ rt_plugins r = []) (rs_routes rs) → accepted b rs'.
Proof.
  intros Hrt [Hcr _]. unfold validateV1.
  intros ([] & _ & ([] & Hb & ([] & Hids & ([] & _ & Hv)%bind_ok_inv)%bind_ok_inv)%bind_ok_inv)%bind_ok_inv Hsv Hplain.
  split; [apply settings; [done|]; rewrite Hrt; split_and!; done|]. apply config_validateResourceIDs_ok in Hids as (Hi1 & Hi2 & Hi3).
  destruct (rs_routes rs) as [|r [|]]; [done| |done]. destruct (rs_upstreams rs) as [|u [|]]; [done| |done].
  apply bind_ok_inv in Hv as (u' & [Hid Hu]%config_validateUpstream_ok & (r' & Hr & [= <-])%bind_ok_inv).
  unfold config_validateRoute in Hr. apply bind_ok_inv in Hr as (m & [Hm _]%validateRouteMatch_ok & Hr).
  destruct (upstreamExists _ _) eqn:Hex; [|done]. injection Hr as <-. apply upstreamExists_ok in Hex.
  apply Forall_cons in Hcr as [Hc _]. apply Forall_cons in Hplain as [[Hs Hp] _].
  split; simpl; rewrite ?Hsv, ?Hid; try done; [by rewrite Hsv in Hi2|by constructor|]. constructor; [|constructor]. split_and!; simpl; try done.
  - right. split_and!; try done. intros E. simpl in E, Hex. rewrite E in Hex. apply list_elem_of_singleton in Hex. by destruct (uo_id _ Hu).
  - rewrite Hp. split; constructor.
Qed.

Lemma validateV2_ok version b rs rs' : bc_runtime b = defaultRuntime → calm rs → validateV2 ResolveTCPAddr open version b rs = Ok rs' → accepted b rs'.
Proof.
  intros Hrt Hcalm. unfold validateV2. intros ([] & _ & ([] & Hb & ([] & Hids & ([] & _ & ([] & Hr%notEmpty_ok & ([] & _ & (ups & Hups & Hv)%bind_ok_inv)%bind_ok_inv)
    %bind_ok_inv)%bind_ok_inv)%bind_ok_inv)%bind_ok_inv)%bind_ok_inv.
  split; [apply settings; [done|]; rewrite Hrt; split_and!; done|]. eapply validateReferences_ok; [done..| | |exact Hv].
  - eapply convertEach_keeps; [|exact Hups]. by intros k x y [? _]%config_validateUpstream_ok.
  - eapply (convertEach_all _ (fun _ => True)); [|by apply Forall_true|exact Hups]. by intros k x y _ [_ ?]%config_validateUpstream_ok.
Qed.

(** The common end of versions 3 to 7. *)
Lemma normalized_ok b rs rs' normalized : calm rs → limits_ok (bc_runtime b) → validateBootstrap ResolveTCPAddr open b = Ok tt →
  config_validateResourceIDs rs = Ok tt → rs_routes rs ≠ [] → Normalize (rs_upstreams rs) = Ok normalized →
  validateReferences rs normalized = Ok rs' → accepted b rs'.
Proof.
  intros Hcalm Hl Hb Hids Hr [Hid Hn]%Normalize_each Hv. split; [by apply settings|]. by eapply validateReferences_ok.
Qed.

Lemma validateV3_ok version b rs rs' : rc_health (bc_runtime b) = rc_health defaultRuntime ∨ validateHealthRuntime b = Ok tt → calm rs →
  validateV3 ResolveTCPAddr open version b rs = Ok rs' → accepted b rs'.
Proof.
  intros Hrt Hcalm. unfold validateV3. intros ([] & _ & ([] & Hb & ([] & Hm%inRange_ok & ([] & Hids & ([] & _ & ([] & Hr%notEmpty_ok &
    ([] & _ & (ups & Hups%map_err_ok_inv & Hv)%bind_ok_inv)%bind_ok_inv)%bind_ok_inv)%bind_ok_inv)%bind_ok_inv)%bind_ok_inv)%bind_ok_inv)%bind_ok_inv.
  eapply normalized_ok; try done. split; [done|]. destruct Hrt as [->|Hh]; [done|]. unfold validateHealthRuntime in Hh.
  by apply bind_ok_inv in Hh as ([] & ?%inRange_ok & ?%inRange_ok).
Qed.

Lemma validateV4_ok version b rs rs' : calm rs → validateV4 ResolveTCPAddr open version b rs = Ok rs' → accepted b rs'.
Proof.
  intros Hcalm. unfold validateV4. intros ([] & _ & ([] & Hh & Hv)%bind_ok_inv)%bind_ok_inv. eapply validateV3_ok; [by right|done|exact Hv].
Qed.

Lemma validateV5_ok version b rs rs' : calm rs → validateV5 ResolveTCPAddr open version b rs = Ok rs' → accepted b rs'.
Proof.
  intros Hcalm. unfold validateV5. intros ([] & _ & ([] & Hh & ([] & Hb & ([] & Hm%inRange_ok & ([] & Hids & ([] & Hr%notEmpty_ok &
    ([] & _ & (ups & Hups%map_err_ok_inv & Hv)%bind_ok_inv)%bind_ok_inv)%bind_ok_inv)%bind_ok_inv)%bind_ok_inv)%bind_ok_inv)%bind_ok_inv)%bind_ok_inv.
  eapply normalized_ok; try done. split; [done|]. unfold validateHealthRuntime in Hh. by apply bind_ok_inv in Hh as ([] & ?%inRange_ok & ?%inRange_ok).
Qed.

Lemma validateV6_ok version b rs rs' : calm rs → validateV6 ResolveTCPAddr open version b rs = Ok rs' → accepted b rs'.
Proof. intros Hcalm. unfold validateV6. intros (? & _ & Hv)%bind_ok_inv. by eapply validateV5_ok. Qed.

Lemma validateV7_ok version b rs rs' : calm rs → validateV7 ResolveTCPAddr open version b rs = Ok rs' → accepted b rs'.
Proof.
  intros Hcalm. unfold validateV7. intros (? & _ & Hv)%bind_ok_inv. destruct (rs_downstreamTLS rs); [|done]. destruct (String.eqb _ _); [done|].
  apply bind_ok_inv in Hv as (? & _ & Hv). by eapply validateV6_ok.
Qed.
End Validation.

(** ** The settings conversion leaves alone *)

Lemma convert_runtime d b rs : convert d = Ok (b, rs) → bc_runtime b = defaultRuntime ∧ rs_services rs = [] ∧
  Forall (fun r => rt_serviceRef r = "" ∧ rt_plugins r = []) (rs_routes rs).
Proof.
  unfold convert. intros (server & _ & (ups & _ & [= <- <-])%bind_ok_inv)%bind_ok_inv. split_and!; try done. simpl.
  apply Forall_fmap, Forall_true. done.
Qed.

Lemma convertV2_runtime {C} (Marshal : C → option string) d b rs : convertV2 Marshal d = Ok (b, rs) → bc_runtime b = defaultRuntime.
Proof.
  unfold convertV2. intros ([b0 rs0] & [Hb _]%convert_runtime & (? & _ & (? & _ & [= <- _])%bind_ok_inv)%bind_ok_inv)%bind_ok_inv. done.
Qed.

Lemma convertV3_runtime {C} (Marshal : C → option string) d b rs : convertV3 Marshal d = Ok (b, rs) →
  rc_health (bc_runtime b) = rc_health defaultRuntime.
Proof.
  unfold convertV3. intros ([b0 rs0] & Hb%convertV2_runtime & (? & _ & [= <- _])%bind_ok_inv)%bind_ok_inv.
  destruct (d3_maxRetiredSnapshots d); simpl; by rewrite Hb.
Qed.

(** ** Accepted configurations *)

Section Accepted.
Context `{Unicode} {C : Type} (yaml : decoders C) (Marshal : C → option string).
Context (ResolveTCPAddr : string → option tcpAddr) (open : string → option file).
Context (sha256 : string → string) (ParseCertificate : string → option Leaf).
Context (pem_Decode : string → option (string * string * string)).
Context (X509KeyPair : string → string → option tlsCertificate).
Context (iterate : gmap string Leaf → list string).

Notation decode := (Decode yaml Marshal ResolveTCPAddr open sha256 ParseCertificate pem_Decode X509KeyPair iterate).

Lemma decodeVersion_ok {D} (strict : option D) conv validate (version : D → string) b rs :
  decodeVersion strict conv validate version = Ok (b, rs) → ∃ wire rs0, conv wire = Ok (b, rs0) ∧ validate (version wire) b rs0 = Ok rs.
Proof.
  unfold decodeVersion. destruct strict as [wire|]; [|done]. intros ([b0 rs0] & Hc & (rs1 & Hv & [= <- <-])%bind_ok_inv)%bind_ok_inv. by exists wire, rs0.
Qed.

Lemma Decode_accepted data b rs : decode data = Ok (b, rs) → accepted ResolveTCPAddr b rs.
Proof.
  unfold Decode. destruct (header yaml data) as [version|]; [|done].
  repeat (destruct (String.eqb version _); [intros (wire & rs0 & Hc & Hv)%decodeVersion_ok|]); [..|done].
  - destruct (convert_runtime _ _ _ Hc) as (? & ? & ?). eapply validateV1_ok; [done|by eapply convert_calm|exact Hv|done..].
  - eapply validateV2_ok; [by eapply convertV2_runtime|by eapply convertV2_calm|exact Hv].
  - eapply validateV3_ok; [left; by eapply convertV3_runtime|by eapply convertV3_calm|exact Hv].
  - eapply validateV4_ok; [by eapply convertV4_calm|exact Hv].
  - eapply validateV5_ok; [by eapply convertV5_calm|exact Hv].
  - eapply validateV6_ok; [by eapply convertV6_calm|exact Hv].
  - eapply validateV7_ok; [by eapply convertV7_calm|exact Hv].
Qed.

(** Accepted resources pass the validation of the builder. *)
Lemma resources_ok_wf rs : resources_ok rs → Forall (fun id => trim_space id = id) ((rt_id <$> rs_routes rs) ++ (sv_id <$> rs_services rs)) → resources_wf rs.
Proof.
  intros [H1 H2 H3 H4 H5 H6 H7] [Hr Hs]%Forall_app. rewrite Forall_forall in H6. rewrite Forall_forall in H7.
  assert (Hu : Forall (fun id => trim_space id = id) (up_id <$> rs_upstreams rs)).
  { apply Forall_fmap. eapply Forall_impl; [exact H5|]. intros u [[_ ?]]. done. }
  split; [done|by apply ids_trimmed..| |].
  - intros s Hin. exact (H6 s Hin).
  - intros r Hin. destruct (H7 r Hin) as (Ht & Hp & Hw & _). split_and!; try done. apply resolves_iff; [|exact Ht].
    intros s Hin'. exact (proj1 (H6 s Hin')).
Qed.

End Accepted.

(** ** Versions *)

(** The document of the next version that says what a document means. *)
Section Upgrade.
Context {C : Type}.

Definition upgradeRoute (r : routeDocument) : routeDocumentV2 C :=
  mkRouteDocumentV2 (rd_id r) 0 (mkMatchDocument [] (rd_path r) (rd_methods r) [] []) "" (rd_upstreamRef r) [].
Definition upgrade1 (d : document) : documentV2 C :=
  mkDocumentV2 apiVersionV1Alpha2 (d1_listeners d) (d1_server d) (d1_telemetry d) (upgradeRoute <$> d1_routes d) [] (d1_upstreams d).

Definition upgradeUpstream (u : upstreamDocument) : upstreamDocumentV3 :=
  mkUpstreamDocumentV3 (ud_id u) ((fun url => mkEndpointDocument url None) <$> ud_endpoints u) (mkBalancerDocument BalancerWeightedRoundRobin [])
    (ud_transport u).
Definition upgrade2 (d : documentV2 C) : documentV3 C :=
  mkDocumentV3 apiVersionV1Alpha3 None (d2_listeners d) (d2_server d) (d2_telemetry d) (d2_routes d) (d2_services d) (upgradeUpstream <$> d2_upstreams d).

(** One attempt, and a zero for everything about retries. *)
Definition explicitLegacyRetry : retryDocumentV4 :=
  mkRetryDocument (Some 1) (Some []) (Some (mkRetryOnDocument (Some false) (Some false) (Some false) (Some [])))
    (Some (mkBudgetDocument (Some 0) (Some 0) (Some 0))) (Some "0s").
Definition upgrade3 (d : documentV3 C) : documentV4 C :=
  mkDocumentV4 apiVersionV1Alpha4 (mkRuntimeDocument (d3_maxRetiredSnapshots d) None None) (d3_listeners d) (d3_server d) (d3_telemetry d)
    ((fun r => mkRouteDocumentV4 r (mkResilienceDocument None None None None)) <$> d3_routes d) (d3_services d)
    ((fun u => mkUpstreamDocumentV4 u (mkHealthDocument None None) explicitLegacyRetry) <$> d3_upstreams d).

Definition upgradeTransport (u : upstreamDocumentV4) : upstreamDocumentV5 :=
  let v := u4_upstream u in
  mkUpstreamDocumentV5 (u3_id v) (u3_endpoints v) (u3_balancer v) (mkTransportDocumentV5 "http1" None (u3_transport v)) (u4_health u) (u4_retry u).
Definition upgrade4 (d : documentV4 C) : documentV5 C :=
  mkDocumentV5 apiVersionV1Alpha5 (d4_runtime d) (d4_listeners d) (d4_server d) (d4_telemetry d) [] [] (d4_routes d) (d4_services d)
    (upgradeTransport <$> d4_upstreams d).

Definition upgrade5 (d : documentV5 C) : documentV6 C :=
  mkDocumentV6 apiVersionV1Alpha6 (d5_runtime d) (d5_listeners d) (d5_server d) (d5_telemetry d) (d5_trustBundles d) (d5_certificates d)
    ((fun r => mkRouteDocumentV6 r (mkWebSocketDocument None None)) <$> d5_routes d)
    ((fun s => mkServiceDocumentV6 s (mkWebSocketDocument None None)) <$> d5_services d) (d5_upstreams d).

Definition upgrade6 (d : documentV6 C) : documentV7 C :=
  mkDocumentV7 apiVersionV1Alpha7 (d6_runtime d) (d6_listeners d) (d6_server d) (d6_telemetry d) (d6_trustBundles d) (d6_certificates d) None
    (d6_routes d) (d6_services d) (d6_upstreams d).
End Upgrade.

Lemma convertEach_pure {A B} (f : nat → A → result configError B) (g : A → B) index l :
  (∀ k x, x ∈ l → f k x = Ok (g x)) → convertEach f index l = Ok (g <$> l).
Proof.
  revert index. induction l as [|x l IH]; intros index Hf; simpl; [done|]. rewrite (Hf index x) by (by left). simpl.
  rewrite IH; [done|]. intros k y Hy. apply Hf. by right.
Qed.

Lemma convertEach_fmap {A A' B} (f : nat → A' → result configError B) (g : A → A') index l :
  convertEach f index (g <$> l) = convertEach (fun k x => f k (g x)) index l.
Proof. revert index. induction l as [|x l IH]; intros index; simpl; [done|]. by rewrite IH. Qed.

Lemma convertEach_ext {A B} (f g : nat → A → result configError B) index l :
  (∀ k x, f k x = g k x) → convertEach f index l = convertEach g index l.
Proof. intros Hfg. revert index. induction l as [|x l IH]; intros index; simpl; [done|]. by rewrite Hfg, IH. Qed.

(** A loop over paired lists that changes nothing. *)
Lemma convertEach_zip {A B} (f : nat → A * B → result configError A) index (l : list A) (k : list B) :
  length l = length k → (∀ i x y, x ∈ l → y ∈ k → f i (x, y) = Ok x) → convertEach f index (zip l k) = Ok l.
Proof.
  intros Hlen Hf. rewrite (convertEach_pure _ fst); [|intros i [x y] Hin; apply Hf; [by eapply elem_of_zip_l|by eapply elem_of_zip_r]].
  by rewrite fst_zip by lia.
Qed.

Lemma with_same_runtime b : with_runtime b (mkRuntime (rc_maxRetiredSnapshots (bc_runtime b))
  (mkHealthRuntime (hr_workers (rc_health (bc_runtime b))) (hr_readyQueueCapacity (rc_health (bc_runtime b))))) = b.
Proof. by destruct b as [? ? ? ? ? [? []]]. Qed.

Lemma same_resources rs : set_upstreams (set_routes rs (rs_routes rs)) (rs_upstreams rs) = rs ∧ set_services (set_routes rs (rs_routes rs)) (rs_services rs) = rs.
Proof. by destruct rs. Qed.

Section Embed.
Context {C : Type} (Marshal : C → option string).

Lemma upgrade1_ok d : convertV2 Marshal (upgrade1 d) = convert d.
Proof.
  unfold convertV2, convert. cbn [upgrade1 d2_apiVersion d2_listeners d2_server d2_telemetry d2_upstreams d2_routes d2_services d1_listeners d1_server d1_telemetry d1_routes d1_upstreams].
  destruct (convertServer _) as [server|]; [|done]. cbn [mbind result_bind]. destruct (convertEach convertUpstream 0 _) as [ups|]; [|done]. cbn [mbind result_bind].
  rewrite convertEach_fmap, (convertEach_pure _ convertRoute) by done. done.
Qed.

Lemma upgrade2_ok d x : convertV3 Marshal (upgrade2 d) = Ok x ↔ convertV2 Marshal d = Ok x.
Proof.
  unfold convertV3, convertV2, convert. cbn [upgrade2 d3_apiVersion d3_listeners d3_server d3_telemetry d3_routes d3_services d3_upstreams d3_maxRetiredSnapshots
    d2_apiVersion d2_listeners d2_server d2_telemetry d2_upstreams d2_routes d2_services d1_listeners d1_server d1_telemetry d1_routes d1_upstreams].
  rewrite convertEach_fmap, (convertEach_ext (fun k x => convertUpstreamV3 k (upgradeUpstream x)) convertUpstream).
  2: { intros k u. unfold convertUpstreamV3, convertUpstream. destruct (convertTransport _ _); [|done]. cbn. by rewrite <-list_fmap_compose. }
  destruct (convertServer _) as [server|]; [|done]. cbn [mbind result_bind convertEach].
  destruct (convertEach (convertRouteV2 Marshal) 0 _) as [routes|], (convertEach (convertServiceV2 Marshal) 0 _) as [services|],
    (convertEach convertUpstream 0 _) as [ups|]; cbn; done.
Qed.

Lemma convert_material d b rs : convert d = Ok (b, rs) → rs_certificates rs = [] ∧ rs_trustBundles rs = [].
Proof. unfold convert. by intros (? & _ & (? & _ & [= _ <-])%bind_ok_inv)%bind_ok_inv. Qed.

(** What a resource set has when its version does not know the rest. *)
Record plain (routes services upstreams : nat) (rs : ResourceSet) : Prop := {
  pl_routes : length (rs_routes rs) = routes;
  pl_services : length (rs_services rs) = services;
  pl_upstreams : length (rs_upstreams rs) = upstreams;
  pl_material : rs_certificates rs = [] ∧ rs_trustBundles rs = [];
  pl_routeWebSocket : Forall (fun r => rt_webSocket r = noWebSocket) (rs_routes rs);
  pl_serviceWebSocket : Forall (fun s => sv_webSocket s = noWebSocket) (rs_services rs);
  pl_transport : Forall (fun u => tc_protocol (up_transport u) = TransportProtocolHTTP1 ∧ tc_tls (up_transport u) = None) (rs_upstreams rs);
}.

Lemma convertV3_shape d b rs : convertV3 Marshal d = Ok (b, rs) →
  plain (length (d3_routes d)) (length (d3_services d)) (length (d3_upstreams d)) rs ∧
  Forall (fun r => rt_resilience r = noResilience) (rs_routes rs) ∧
  Forall (fun u => up_health u = noHealth ∧ up_retry u = legacyRetry) (rs_upstreams rs).
Proof.
  unfold convertV3, convertV2. intros ([b0 rs0] & ([b1 rs1] & Hm%convert_material & (routes & Hr & (services & Hs & [= _ <-])%bind_ok_inv)%bind_ok_inv)%bind_ok_inv & (ups & Hu & [= _ <-])%bind_ok_inv)%bind_ok_inv.
  assert (Hups : Forall (fun u => (up_health u = noHealth ∧ up_retry u = legacyRetry) ∧ tc_protocol (up_transport u) = TransportProtocolHTTP1 ∧ tc_tls (up_transport u) = None) ups).
  { eapply (convertEach_all _ (fun _ => True)); [|by apply Forall_true|exact Hu]. unfold convertUpstreamV3, convertTransport.
    by intros k x y _ (? & (? & _ & (? & _ & (? & _ & [= <-])%bind_ok_inv)%bind_ok_inv)%bind_ok_inv & [= <-])%bind_ok_inv. }
  apply Forall_and in Hups as [H1 H2]. split_and!; [split; simpl; try done|simpl|done].
  - symmetry. eapply Forall2_length, convertEach_ok, Hr.
  - symmetry. eapply Forall2_length, convertEach_ok, Hs.
  - symmetry. eapply Forall2_length, convertEach_ok, Hu.
  - eapply (convertEach_all _ (fun _ => True)); [|by apply Forall_true|exact Hr]. intros k x y _. by apply convertRouteV2_ok.
  - eapply (convertEach_all _ (fun _ => True)); [|by apply Forall_true|exact Hs]. intros k x y _. by apply convertServiceV2_ok.
  - eapply (convertEach_all _ (fun _ => True)); [|by apply Forall_true|exact Hr]. unfold convertRouteV2. by intros k x y _ (? & _ & [= <-])%bind_ok_inv.
Qed.

Lemma zip_length {A B} (l : list A) (k : list B) : length l = length k → length (zip l k) = length l.
Proof. intros Hlen. rewrite length_zip_with. lia. Qed.

Lemma convertV4_shape d b rs : convertV4 Marshal d = Ok (b, rs) →
  plain (length (d4_routes d)) (length (d4_services d)) (length (d4_upstreams d)) rs.
Proof.
  unfold convertV4. intros ([b0 rs0] & [[L1 L2 L3 Hm Hr Hs Hu] _]%convertV3_shape & (routes & Hroutes & (ups & Hups & [= _ <-])%bind_ok_inv)%bind_ok_inv)%bind_ok_inv.
  cbn [d3_routes d3_services d3_upstreams] in L1, L2, L3. rewrite length_fmap in L1. rewrite length_fmap in L3.
  pose proof (Forall2_length _ _ _ (convertEach_ok _ _ _ _ Hroutes)) as L4. pose proof (Forall2_length _ _ _ (convertEach_ok _ _ _ _ Hups)) as L5.
  rewrite zip_length in L4 by done. rewrite zip_length in L5 by done. split; simpl; try done; try congruence.
  - refine (convertEach_all _ (fun p => rt_webSocket p.1 = noWebSocket) _ _ _ _ _ (zip_fst _ _ _ Hr) Hroutes).
    unfold resilienceLoop. by intros k x y Hx (? & _ & [= <-])%bind_ok_inv.
  - refine (convertEach_all _ (fun p => tc_protocol (up_transport p.1) = TransportProtocolHTTP1 ∧ tc_tls (up_transport p.1) = None) _ _ _ _ _ (zip_fst _ _ _ Hu) Hups).
    unfold healthLoop. by intros k x y Hx (? & _ & (? & _ & [= <-])%bind_ok_inv)%bind_ok_inv.
Qed.

Lemma upgrade3_ok d : convertV4 Marshal (upgrade3 d) = convertV3 Marshal d.
Proof.
  unfold convertV4. cbn [upgrade3 d4_runtime rn_maxRetiredSnapshots rn_workers rn_readyQueueCapacity d4_listeners d4_server d4_telemetry d4_routes d4_services d4_upstreams].
  rewrite <-!list_fmap_compose.
  assert (Hd : convertV3 Marshal (mkDocumentV3 apiVersionV1Alpha3 (d3_maxRetiredSnapshots d) (d3_listeners d) (d3_server d) (d3_telemetry d)
    ((r4_route ∘ (fun r => mkRouteDocumentV4 r (mkResilienceDocument None None None None))) <$> d3_routes d) (d3_services d)
    ((u4_upstream ∘ (fun u => mkUpstreamDocumentV4 u (mkHealthDocument None None) explicitLegacyRetry)) <$> d3_upstreams d)) = convertV3 Marshal d).
  { rewrite !(list_fmap_ext (_ ∘ _) id), !list_fmap_id by done. done. }
  rewrite Hd. destruct (convertV3 Marshal d) as [[b rs]|] eqn:E; [|done]. cbn [mbind result_bind].
  destruct (convertV3_shape _ _ _ E) as ([L1 _ L2 _ _ _ _] & Hr & Hu). rewrite Forall_forall in Hr. rewrite Forall_forall in Hu.
  rewrite (convertEach_zip resilienceLoop); [|by rewrite length_fmap|]. 2: { intros i r w Hin (w0 & -> & _)%list_elem_of_fmap. specialize (Hr r Hin). destruct r; cbn in *. by rewrite Hr. }
  cbn [mbind result_bind]. rewrite (convertEach_zip healthLoop); [|by rewrite length_fmap|].
  2: { intros i u w Hin (w0 & -> & _)%list_elem_of_fmap. destruct (Hu u Hin) as [E1 E2]. destruct u; cbn in *. by rewrite E1, E2. }
  cbn [mbind result_bind]. unfold default. by rewrite with_same_runtime, (proj1 (same_resources rs)).
Qed.

Context (loadBundle : string → string → result loadError (TrustBundle * Z)).
Context (loadCertificate : string → string → string → result loadError (Certificate * Z)).

Lemma upgrade4_ok d : convertV5 Marshal loadBundle loadCertificate (upgrade4 d) = convertV4 Marshal d.
Proof.
  unfold convertV5. cbn [upgrade4 d5_runtime d5_listeners d5_server d5_telemetry d5_routes d5_services d5_upstreams d5_certificates d5_trustBundles].
  change (validateMaterialDocumentsV5 [] []) with (@Ok configError unit tt). cbn [mbind result_bind loadBundles loadCertificates]. rewrite <-list_fmap_compose.
  assert (Hd : convertV4 Marshal (mkDocumentV4 apiVersionV1Alpha4 (d4_runtime d) (d4_listeners d) (d4_server d) (d4_telemetry d)
    (d4_routes d) (d4_services d) ((upstreamV4_of_V5 ∘ upgradeTransport) <$> d4_upstreams d)) = convertV4 Marshal d).
  { rewrite !(list_fmap_ext (_ ∘ _) id), !list_fmap_id; [done|]. by intros ? [[] ? ?] _. }
  rewrite Hd. destruct (convertV4 Marshal d) as [[b rs]|] eqn:E; [|done]. cbn [mbind result_bind]. destruct (convertV4_shape _ _ _ E) as [_ _ L [Hc Ht] _ _ Hu].
  f_equal. f_equal. destruct rs as [routes services ups certs down bundles]. cbn in *. subst. f_equal.
  apply list_eq_same_length with (length ups); [done|rewrite length_zip_with, length_fmap; lia|].
  intros i u u' _ (x & y & -> & Hx & Hy)%lookup_zip_with_Some Hu'. rewrite Hx in Hu'. injection Hu' as ->. rewrite Forall_forall in Hu.
  destruct (Hu u' (list_elem_of_lookup_2 _ _ _ Hx)) as [E1 E2]. apply list_lookup_fmap_Some in Hy as (w & -> & Hy).
  destruct u' as [? ? ? [] ? ?]. cbn in *. by rewrite E1, E2.
Qed.

Lemma convertV5_shape d b rs : convertV5 Marshal loadBundle loadCertificate d = Ok (b, rs) →
  length (rs_routes rs) = length (d5_routes d) ∧ length (rs_services rs) = length (d5_services d) ∧
  Forall (fun r => rt_webSocket r = noWebSocket) (rs_routes rs) ∧ Forall (fun s => sv_webSocket s = noWebSocket) (rs_services rs).
Proof.
  unfold convertV5. intros (? & _ & ([b0 rs0] & [L1 L2 _ _ Hr Hs _]%convertV4_shape & ([? ?] & _ & ([? ?] & _ & [= _ <-])%bind_ok_inv)%bind_ok_inv)%bind_ok_inv)%bind_ok_inv. done.
Qed.

Lemma upgrade5_ok d : convertV6 Marshal loadBundle loadCertificate (upgrade5 d) = convertV5 Marshal loadBundle loadCertificate d.
Proof.
  unfold convertV6. cbn [upgrade5 d6_runtime d6_listeners d6_server d6_telemetry d6_trustBundles d6_certificates d6_routes d6_services d6_upstreams].
  rewrite <-!list_fmap_compose.
  assert (Hd : convertV5 Marshal loadBundle loadCertificate (mkDocumentV5 apiVersionV1Alpha5 (d5_runtime d) (d5_listeners d) (d5_server d) (d5_telemetry d)
    (d5_trustBundles d) (d5_certificates d) ((r6_route ∘ (fun r => mkRouteDocumentV6 r (mkWebSocketDocument None None))) <$> d5_routes d)
    ((s6_service ∘ (fun s => mkServiceDocumentV6 s (mkWebSocketDocument None None))) <$> d5_services d) (d5_upstreams d))
    = convertV5 Marshal loadBundle loadCertificate d).
  { rewrite !(list_fmap_ext (_ ∘ _) id), !list_fmap_id by done. done. }
  rewrite Hd. destruct (convertV5 _ _ _ d) as [[b rs]|] eqn:E; [|done]. cbn [mbind result_bind].
  destruct (convertV5_shape _ _ _ E) as (L1 & L2 & Hr & Hs). rewrite Forall_forall in Hr. rewrite Forall_forall in Hs.
  rewrite (convertEach_zip routeWebSocketLoop); [|by rewrite length_fmap|].
  2: { intros i r w Hin (w0 & -> & _)%list_elem_of_fmap. specialize (Hr r Hin). destruct r; cbn in *. by rewrite Hr. }
  cbn [mbind result_bind]. rewrite (convertEach_zip serviceWebSocketLoop); [|by rewrite length_fmap|].
  2: { intros i s w Hin (w0 & -> & _)%list_elem_of_fmap. specialize (Hs s Hin). destruct s; cbn in *. by rewrite Hs. }
  cbn [mbind result_bind]. by rewrite (proj2 (same_resources rs)).
Qed.

Lemma upgrade6_ok d : convertV7 Marshal loadBundle loadCertificate (upgrade6 d) = convertV6 Marshal loadBundle loadCertificate d.
Proof.
  unfold convertV7. cbn [upgrade6 d7_runtime d7_listeners d7_server d7_telemetry d7_trustBundles d7_certificates d7_routes d7_services d7_upstreams d7_downstreamTLS].
  change (convertV6 Marshal loadBundle loadCertificate (mkDocumentV6 apiVersionV1Alpha6 (d6_runtime d) (d6_listeners d) (d6_server d) (d6_telemetry d)
    (d6_trustBundles d) (d6_certificates d) (d6_routes d) (d6_services d) (d6_upstreams d))) with (convertV6 Marshal loadBundle loadCertificate d).
  by destruct (convertV6 Marshal loadBundle loadCertificate d) as [[b rs]|].
Qed.

(** The wire versions are one language: every document has an equivalent of
    the next version that converts to exactly the same settings and resources,
    namely the document with the defaults of its own version written out (an
    explicit balancer and unit weights, a single attempt without retry budget,
    HTTP/1 transports without TLS material, no WebSocket policy). *)
Theorem versions_embed :
  (∀ d, convertV2 Marshal (upgrade1 d) = convert d) ∧
  (∀ d x, convertV3 Marshal (upgrade2 d) = Ok x ↔ convertV2 Marshal d = Ok x) ∧
  (∀ d, convertV4 Marshal (upgrade3 d) = convertV3 Marshal d) ∧
  (∀ d, convertV5 Marshal loadBundle loadCertificate (upgrade4 d) = convertV4 Marshal d) ∧
  (∀ d, convertV6 Marshal loadBundle loadCertificate (upgrade5 d) = convertV5 Marshal loadBundle loadCertificate d) ∧
  (∀ d, convertV7 Marshal loadBundle loadCertificate (upgrade6 d) = convertV6 Marshal loadBundle loadCertificate d).
Proof.
  split_and!; [exact upgrade1_ok|exact upgrade2_ok|exact upgrade3_ok|exact upgrade4_ok|exact upgrade5_ok|exact upgrade6_ok].
Qed.
End Embed.

(** ** A concrete configuration *)

Definition demo_document : documentV7 string :=
  mkDocumentV7 apiVersionV1Alpha7 (mkRuntimeDocument None (Some 4) None)
    (mkListenersDocument ":80" (mkTLSListener ":443" "tls.crt" "tls.key") "127.0.0.1:9000")
    (mkServerDocument "5s" "1m30s" "20s" 65536 1048576) (mkTelemetry true false)
    [] [mkCertificateDocument "site" "site.crt" "site.key"] (Some (mkDownstreamTLS "site" [mkSNIBinding "site" ["a.example"]]))
    [mkRouteDocumentV6 (mkRouteDocumentV4 (mkRouteDocumentV2 "users" 0 (mkMatchDocument [] "/users" ["get"; "HEAD"] [] []) "api" "" [])
       (mkResilienceDocument None None None None)) (mkWebSocketDocument (Some true) (Some "1.5m"))]
    [mkServiceDocumentV6 (mkServiceDocument "api" "backend" [mkPluginDocument "request-id" None "{}"]) (mkWebSocketDocument None None)]
    [mkUpstreamDocumentV5 "backend" [mkEndpointDocument "http://10.0.0.1:8080" None; mkEndpointDocument "http://10.0.0.2:8080" (Some 3)]
       (mkBalancerDocument "weighted_round_robin" []) (mkTransportDocumentV5 "" None (mkTransportDocument "1s" "5s" "90s" 100 10))
       (mkHealthDocument (Some (mkActiveDocument None None None None None None None None None None None None)) None)
       (mkRetryDocument (Some 2) None None None None)].

Definition demo_yaml : decoders string :=
  mkDecoders string (fun _ => Some apiVersionV1Alpha7) (fun _ => None) (fun _ => None) (fun _ => None) (fun _ => None) (fun _ => None) (fun _ => None)
    (fun _ => Some demo_document).

Definition demo_resolve (raw : string) : option tcpAddr :=
  if String.eqb raw ":80" then Some (mkTCPAddr None false 80)
  else if String.eqb raw ":443" then Some (mkTCPAddr None false 443)
  else Some (mkTCPAddr (Some "127.0.0.1") false 9000).

Definition demo_open (_ : string) : option file := Some (mkFile (Some (true, 3)) (Some "pem")).

Definition demo_decode : result configError (BootstrapConfig * ResourceSet) :=
  @Decode ascii_only_unicode string demo_yaml Some demo_resolve demo_open (fun s => s) demo_parse (fun _ => None)
    (fun _ _ => Some (mkTLSCertificate ["der"] None)) demo_iterate "".

Definition demo_accepted : bool := match demo_decode with Ok (_, rs) => Nat.eqb (length (rs_certificates rs)) 1 | Err _ => false end.

Lemma demo_decode_ok : demo_accepted = true.
Proof. vm_compute. reflexivity. Qed.

