(* ===== verification/Manager.v ===== *)
(** * The snapshot manager ([internal/runtime/manager.go])

    [Apply] prepares, builds and publishes revisions one at a time; requests
    acquire the published snapshot without a lock and keep its plan set alive
    until they release their lease; [Close] withdraws the snapshot. The mutex
    [applyMu] serialises [Apply] and [Close], whose goroutine is a program
    counter here; every access to a shared atomic is one step, and the steps of
    the upstream registry are those of the lifecycle model, so that the
    theorems hold for every interleaving of configuration changes, requests,
    the reaper, tunnels and health traffic. The manager has its builder and its
    registry, as the gateway constructs it; observers are left out. *)

From S2P Require Import Prelude GoStrings NetAddr Pattern Predicate Router RouterTrie RouterSearch RouterCorrect HttpHeader Plugins.
From S2P Require Import Apportion Wrr HashKey Chash Url Resources UpstreamConfig X509 Fingerprint Health Budget RefTable Plan Registry RegistryTx Lifecycle LifecycleSafe DownstreamTLS Builder.
#[local] Open Scope Z_scope.
#[local] Open Scope list_scope.

Section Manager.
Context (xxh64 : string → Z) (sha256 : string → string) `{Unicode}.
Context {Q R : Type} (definitions : gmap string (@PluginDefinition Q R)).
Context (iterate : gmap string PluginAttachment → list string).
Context (legacy : option certificateProvider).

(** ** State *)

(** A snapshot after [snapshot.plans = plans]; the plan set is its identity. *)
Record published := mkPublished { pb_snapshot : @Snapshot Q R; pb_set : nat }.

(** What the holder of [applyMu] does next; [candidate] is the one whose
    deferred rollback is still to run. *)
Inductive applyPC :=
| Unlocked
| ToPrepare (revision : Z) (resources : ResourceSet)
| ToBuild (revision : Z) (resources : ResourceSet) (candidate : nat)
| ToCommit (snapshot : @Snapshot Q R) (candidate : nat)
| ToSwap (snapshot : @Snapshot Q R) (set candidate : nat)
| ToRetire (old : nat) (candidate : option nat)
| ToReleaseOwner (old : nat) (candidate : option nat)
| ToRollback (candidate : nat).

(** A goroutine inside [Acquire]: at the head of its loop, after loading the
    active snapshot, or after a failed [TryAcquire]. *)
Inductive acquirer := Loading | Trying (p : published) | Rechecking (p : published).

(** [LeaseDropping]: the flag is set, [plans.Release] not yet called. *)
Inductive leaseState := LeaseHeld | LeaseDropping | LeaseReleased.
Record Lease := mkManagerLease { le_published : published; le_state : leaseState }.

(** [mg_revisions] lists the published revisions and [mg_outcomes] what the
    calls of [Apply] return, with their revisions, the latest first. *)
Record managed := mkManaged {
  mg_world : world;
  mg_active : option published;
  mg_closed : bool;
  mg_pc : applyPC;
  mg_acquirers : gmap nat acquirer;
  mg_leases : gmap nat Lease;
  mg_next : nat;
  mg_revisions : list Z;
  mg_outcomes : list (Z * option BuildError);
}.

Definition with_world (m : managed) (w : world) : managed :=
  mkManaged w (mg_active m) (mg_closed m) (mg_pc m) (mg_acquirers m) (mg_leases m) (mg_next m) (mg_revisions m) (mg_outcomes m).
Definition with_pc (m : managed) (pc : applyPC) : managed :=
  mkManaged (mg_world m) (mg_active m) (mg_closed m) pc (mg_acquirers m) (mg_leases m) (mg_next m) (mg_revisions m) (mg_outcomes m).
Definition with_acquirers (m : managed) (a : gmap nat acquirer) : managed :=
  mkManaged (mg_world m) (mg_active m) (mg_closed m) (mg_pc m) a (mg_leases m) (mg_next m) (mg_revisions m) (mg_outcomes m).
Definition with_leases (m : managed) (l : gmap nat Lease) : managed :=
  mkManaged (mg_world m) (mg_active m) (mg_closed m) (mg_pc m) (mg_acquirers m) l (mg_next m) (mg_revisions m) (mg_outcomes m).
Definition next_id (m : managed) : managed :=
  mkManaged (mg_world m) (mg_active m) (mg_closed m) (mg_pc m) (mg_acquirers m) (mg_leases m) (S (mg_next m)) (mg_revisions m) (mg_outcomes m).

(** [Apply] has decided what it returns. *)
Definition returns (m : managed) (revision : Z) (e : option BuildError) : managed :=
  mkManaged (mg_world m) (mg_active m) (mg_closed m) (mg_pc m) (mg_acquirers m) (mg_leases m) (mg_next m) (mg_revisions m)
    ((revision, e) :: mg_outcomes m).

Inductive mreaction := MBlocked | MPanicked | MDone (m : managed).

(** Runs a registry event and continues. *)
Definition on_registry (m : managed) (e : event) (k : managed → mreaction) : mreaction :=
  match exec xxh64 sha256 (mg_world m) e with
  | Blocked => MBlocked
  | Panicked => MPanicked
  | Done w => k (with_world m w)
  end.

(** ** Apply and Close *)

(** [Apply] with the mutex: the closed and stale-revision checks. *)
Definition Apply (m : managed) (revision : Z) (resources : ResourceSet) : mreaction :=
  match mg_pc m with
  | Unlocked =>
      if mg_closed m
      then MDone (returns m revision (Some (mkBuildError "MANAGER_CLOSED" StageValidate revision "" "" "")))
      else if from_option (fun p => revision <=? sn_revision (pb_snapshot p)) false (mg_active m)
      then MDone (returns m revision (Some (mkBuildError "STALE_REVISION" StageValidate revision "" "" "revision")))
      else MDone (with_pc m (ToPrepare revision resources))
  | _ => MBlocked
  end.

(** [Close] up to the retirement of the snapshot it withdraws. *)
Definition Close (m : managed) : mreaction :=
  match mg_pc m with
  | Unlocked =>
      let pc := match mg_active m with None => Unlocked | Some p => ToRetire (pb_set p) None end in
      MDone (mkManaged (mg_world m) None true pc (mg_acquirers m) (mg_leases m) (mg_next m) (mg_revisions m) (mg_outcomes m))
  | _ => MBlocked
  end.

Definition returning (candidate : option nat) : applyPC :=
  match candidate with None => Unlocked | Some c => ToRollback c end.

Definition upstreamBuildError (revision : Z) (e : prepareError) : BuildError :=
  match e with
  | ConfigFailure e => mkBuildError (ce_code e) StageValidate revision "upstream" (ce_upstream e) (ce_field e)
  | PlainFailure => mkBuildError "UPSTREAM_PREPARE_FAILED" StageValidate revision "" "" "upstreams"
  end.

(** The error of the [Prepare] that has just failed. *)
Definition prepareFailure (w : world) (resources : ResourceSet) : prepareError :=
  match Prepare xxh64 sha256 (w_registry w) (rs_upstreams resources) (rs_certificates resources)
          (rs_trustBundles resources) with
  | Some (_, _, Err e) => e
  | _ => PlainFailure
  end.

Definition invariantFailed (revision : Z) : BuildError :=
  mkBuildError "SNAPSHOT_INVARIANT_FAILED" StageValidate revision "" "" "".

(** The next action of the goroutine that holds [applyMu]; [now] is the clock
    [Build] reads. *)
Definition apply_step (m : managed) (now : Z) : mreaction :=
  match mg_pc m with
  | Unlocked => MBlocked
  | ToPrepare revision resources =>
      let candidate := w_next (mg_world m) in
      let failure := upstreamBuildError revision (prepareFailure (mg_world m) resources) in
      on_registry m (EPrepare (rs_upstreams resources) (rs_certificates resources) (rs_trustBundles resources))
        (fun m => MDone
           match w_candidates (mg_world m) !! candidate with
           | None => returns (with_pc m Unlocked) revision (Some failure)
           | Some _ => with_pc m (ToBuild revision resources candidate)
           end)
  | ToBuild revision resources candidate =>
      match Build definitions iterate legacy now revision resources (w_candidates (mg_world m) !! candidate) with
      | Err e => MDone (returns (with_pc m (ToRollback candidate)) revision (Some e))
      | Ok snapshot =>
          MDone (if sn_revision snapshot =? revision then with_pc m (ToCommit snapshot candidate)
                 else returns (with_pc m (ToRollback candidate)) revision (Some (invariantFailed revision)))
      end
  | ToCommit snapshot candidate =>
      let set := w_next (mg_world m) in
      on_registry m (ECommit candidate) (fun m => MDone
        match w_sets (mg_world m) !! set with
        | None => returns (with_pc m (ToRollback candidate)) (sn_revision snapshot)
                    (Some (invariantFailed (sn_revision snapshot)))
        | Some _ => with_pc m (ToSwap snapshot set candidate)
        end)
  | ToSwap snapshot set candidate =>
      let pc := match mg_active m with
                | None => ToRollback candidate
                | Some old => ToRetire (pb_set old) (Some candidate)
                end in
      MDone (mkManaged (mg_world m) (Some (mkPublished snapshot set)) (mg_closed m) pc (mg_acquirers m)
               (mg_leases m) (mg_next m) (sn_revision snapshot :: mg_revisions m)
               ((sn_revision snapshot, None) :: mg_outcomes m))
  | ToRetire old candidate =>
      on_registry m (ERetire old) (fun m => MDone (with_pc m (ToReleaseOwner old candidate)))
  | ToReleaseOwner old candidate =>
      on_registry m (ERelease old) (fun m => MDone (with_pc m (returning candidate)))
  | ToRollback candidate =>
      on_registry m (ERollback candidate) (fun m => MDone (with_pc m Unlocked))
  end.

(** ** Leases *)

Definition Acquire (m : managed) : mreaction :=
  MDone (next_id (with_acquirers m (<[mg_next m := Loading]> (mg_acquirers m)))).

(** The load at the head of the loop; without a snapshot the call fails. *)
Definition acquire_load (m : managed) (a : nat) : mreaction :=
  match mg_acquirers m !! a with
  | Some Loading =>
      MDone (with_acquirers m
        match mg_active m with
        | None => delete a (mg_acquirers m)
        | Some p => <[a := Trying p]> (mg_acquirers m)
        end)
  | _ => MBlocked
  end.

(** Whether [TryAcquire] succeeded is seen from the count. *)
Definition acquire_try (m : managed) (a : nat) : mreaction :=
  match mg_acquirers m !! a with
  | Some (Trying p) =>
      match w_sets (mg_world m) !! pb_set p with
      | None => MBlocked
      | Some (s, _) =>
          on_registry m (ETryAcquire (pb_set p)) (fun m =>
            match TryAcquire s with
            | Some _ => MDone (with_leases (with_acquirers m (delete a (mg_acquirers m)))
                                 (<[a := mkManagerLease p LeaseHeld]> (mg_leases m)))
            | None => MDone (with_acquirers m (<[a := Rechecking p]> (mg_acquirers m)))
            end)
      end
  | _ => MBlocked
  end.

(** The second load of a round: the call fails when nothing changed, else it
    starts over. *)
Definition acquire_recheck (m : managed) (a : nat) : mreaction :=
  match mg_acquirers m !! a with
  | Some (Rechecking p) =>
      MDone (with_acquirers m
        (if bool_decide (pb_set <$> mg_active m = Some (pb_set p)) then delete a (mg_acquirers m)
         else <[a := Loading]> (mg_acquirers m)))
  | _ => MBlocked
  end.

(** [Lease.Release]: the flag, then the reference. *)
Definition lease_flag (m : managed) (l : nat) : mreaction :=
  match mg_leases m !! l with
  | None => MBlocked
  | Some (mkManagerLease p LeaseHeld) => MDone (with_leases m (<[l := mkManagerLease p LeaseDropping]> (mg_leases m)))
  | Some _ => MDone m
  end.

Definition lease_drop (m : managed) (l : nat) : mreaction :=
  match mg_leases m !! l with
  | Some (mkManagerLease p LeaseDropping) =>
      on_registry m (ERelease (pb_set p)) (fun m =>
        MDone (with_leases m (<[l := mkManagerLease p LeaseReleased]> (mg_leases m))))
  | _ => MBlocked
  end.

(** ** Everything else *)

(** Registry events that neither the manager nor a lease issues. *)
Definition background (e : event) : bool :=
  match e with
  | EReapBegin | EReapCheck | EReapFinish | EAcquireLease _ _ | EReleaseLease _ | ETail _
  | ESelect _ _ _ _ | EObserve _ _ | EActivate _ _ _ => true
  | _ => false
  end.

Inductive mevent :=
| MApply (revision : Z) (resources : ResourceSet)
| MApplyStep (now : Z)
| MClose
| MCloseRegistry
| MAcquire
| MLoad (a : nat)
| MTry (a : nat)
| MRecheck (a : nat)
| MFlag (l : nat)
| MDrop (l : nat)
| MBackground (e : event).

Definition mexec (m : managed) (e : mevent) : mreaction :=
  match e with
  | MApply revision resources => Apply m revision resources
  | MApplyStep now => apply_step m now
  | MClose => Close m
  | MCloseRegistry => if mg_closed m then on_registry m EClose MDone else MBlocked
  | MAcquire => Acquire m
  | MLoad a => acquire_load m a
  | MTry a => acquire_try m a
  | MRecheck a => acquire_recheck m a
  | MFlag l => lease_flag m l
  | MDrop l => lease_drop m l
  | MBackground e => if background e then on_registry m e MDone else MBlocked
  end.

Definition NewManager (r : Registry) : managed := mkManaged (initial r) None false Unlocked ∅ ∅ 0 [] [].

Inductive mreachable : managed → Prop :=
| mreach_initial maxRetired workers queue observer r :
    NewRegistry maxRetired workers queue observer = Some r → mreachable (NewManager r)
| mreach_step m e m' : mreachable m → mexec m e = MDone m' → mreachable m'.

(** [Manager.GetCertificate]: selection from the active snapshot. *)
Definition GetCertificate (m : managed) (serverName : option string) : option tlsCertificate * certificateSelection :=
  match mg_active m ≫= fun p => sn_downstreamTLS (pb_snapshot p) with
  | None => (None, SelectionError)
  | Some (StaticProvider c) => static_Select (Some c)
  | Some (SelectorProvider s) => Select (Some s) serverName
  end.
End Manager.
