(* ===== verification/ManagerSafe.v ===== *)
(** * Correctness of the snapshot manager

    The invariant of the manager relates its fields to the plan sets and
    candidates of the upstream registry: the active snapshot is the only one
    whose set is not retired (but for the one being swapped in or out), the
    references handed out on a set are those of its leases and of the retiring
    goroutine, and every snapshot a request can reach has all its plans in its
    set. *)

From S2P Require Import Prelude GoStrings NetAddr Pattern Predicate Router RouterTrie RouterSearch RouterCorrect HttpHeader Plugins.
From S2P Require Import Apportion Wrr HashKey Chash Url Resources UpstreamConfig X509 Fingerprint Health Budget RefTable Plan Registry RegistryTx Lifecycle LifecycleSafe DownstreamTLS Builder Manager.
#[local] Open Scope Z_scope.
#[local] Open Scope list_scope.

(** ** What the manager sees of the registry *)

(** Plans, retirement and handed-out references of a set; plans and state of a
    candidate. *)
Definition core (h : PlanSet * Z) : gmap string Plan * bool * Z := (set_plans h.1, set_retired h.1, h.2).
Definition ccore (c : Candidate) : gmap string Plan * bool := (c_plans c, c_done c).

Notation cores w := (core <$> w_sets w).
Notation ccores w := (ccore <$> w_candidates w).

Section Cores.
Context (xxh64 : string → Z) (sha256 : string → string) `{Unicode}.

Lemma core_insert (sets : handles) i s held s' : sets !! i = Some (s, held) →
  set_plans s' = set_plans s → set_retired s' = set_retired s → core <$> <[i := (s', held)]> sets = core <$> sets.
Proof.
  intros Hi Hp Hr. rewrite fmap_insert. apply insert_id. rewrite lookup_fmap, Hi. simpl. unfold core. simpl. by rewrite Hp, Hr.
Qed.

Lemma reapFinalized_cores ids r sets cleanup closing r' sets' cleanup' closing' :
  reapFinalized r sets ids cleanup closing = Some (r', sets', cleanup', closing') → core <$> sets' = core <$> sets.
Proof.
  intros (Hsets & _)%reapFinalized_sets. apply map_eq. intros j. rewrite !lookup_fmap, Hsets.
  destruct (decide _); [|done]. by destruct (sets !! j).
Qed.

(** Background events do not concern the manager. *)
Lemma background_cores w e w' : background e = true → exec xxh64 sha256 w e = Done w' →
  cores w' = cores w ∧ ccores w' = ccores w.
Proof.
  destruct e; try done; intros _; cbn [exec].
  - unfold exec_ReapBegin, locked. destruct (w_reaper w); [done|]. by destruct (r_retired _); intros [= <-].
  - unfold exec_ReapCheck. destruct (w_reaper w) as [q|]; [|done]. simpl. destruct (q_todo q) as [|i todo]; [done|].
    destruct (w_sets w !! i) as [[s held]|] eqn:Hi; [|done]. simpl. destruct (checkSet s) as [s' final] eqn:Hc.
    intros [= <-]. simpl. split; [|done]. unfold checkSet in Hc. apply (core_insert _ _ s); [done|..];
      destruct (_ || _); by injection Hc as <- <-.
  - unfold exec_ReapFinish. destruct (w_reaper w) as [q|]; [|done]. simpl. destruct (q_todo q); [|done].
    unfold reapFinish. destruct (reapFinalized _ _ _ _ _) as [[[[r sets] cleanup] closing]|] eqn:Hf; [|done].
    simpl. intros [= <-]. simpl. split; [|done]. by eapply reapFinalized_cores.
  - unfold locked, exec_AcquireLease. destruct (w_reaper w); [done|].
    destruct (AcquireTunnelLease _ _ _) as [[r l]|]; by intros [= <-].
  - unfold locked, exec_ReleaseLease. destruct (w_reaper w); [done|]. destruct (w_leases w !! _) as [l|]; [|done]. simpl.
    destruct (lease_Release _ l) as [[[r l'] tl]|]; [|done]. by intros [= <-].
  - unfold exec_Tail. destruct (w_tails w !! _) as [tl|]; [|done]. simpl.
    destruct (tl_close tl); [destruct (tl_notify tl); [done|]|]; by intros [= <-].
  - unfold on_plan. destruct (w_sets w !! _) as [[s held]|]; [|done]. simpl. destruct (set_plans s !! _); [|done]. by intros [= <-].
  - by intros [= <-].
  - unfold on_plan. destruct (w_sets w !! _) as [[s held]|]; [|done]. simpl. destruct (set_plans s !! _); [|done]. by intros [= <-].
Qed.

Lemma Close_cores w w' : exec xxh64 sha256 w EClose = Done w' → cores w' = cores w ∧ ccores w' = ccores w.
Proof. cbn [exec]. unfold locked. destruct (w_reaper w); [done|]. by intros [= <-]. Qed.

Lemma Prepare_cores w us cs tbs w' : world_ok w → exec xxh64 sha256 w (EPrepare us cs tbs) = Done w' →
  cores w' = cores w ∧
  (ccores w' = ccores w ∧ w_candidates w' !! w_next w = None ∨
   ∃ plans, ccores w' = <[w_next w := (plans, false)]> (ccores w) ∧ is_Some (w_candidates w' !! w_next w)).
Proof.
  intros Hw. destruct (wo_unused _ Hw) as (U & _ & _). cbn [exec]. unfold locked, exec_Prepare. destruct (w_reaper w); [done|].
  destruct (Prepare_spec xxh64 sha256 (w_registry w) us cs tbs (rs_registry _ (wo_resources _ Hw)))
    as (r & ns & res & -> & _ & _ & Hcase). simpl. destruct res as [c|e]; intros [= <-]; simpl; (split; [done|]).
  - right. exists (c_plans c). rewrite fmap_insert, lookup_insert_eq. split; [|by eexists].
    f_equal. unfold ccore. by rewrite (pre_pending _ _ _ _ _ Hcase).
  - left. split; [done|]. apply U. lia.
Qed.

Lemma Commit_cores w i c w' : world_ok w → w_candidates w !! i = Some c → c_done c = false →
  exec xxh64 sha256 w (ECommit i) = Done w' →
  cores w' = <[w_next w := (c_plans c, false, 0)]> (cores w) ∧ ccores w' = <[i := (c_plans c, true)]> (ccores w).
Proof.
  intros Hw Hi Hd. cbn [exec]. unfold locked, exec_Commit. destruct (w_reaper w); [done|]. rewrite Hi. simpl.
  unfold Commit. rewrite Hd. intros [= <-]. simpl. by rewrite !fmap_insert.
Qed.

Lemma Rollback_cores w i c w' : w_candidates w !! i = Some c → exec xxh64 sha256 w (ERollback i) = Done w' →
  cores w' = cores w ∧ ccores w' = <[i := (c_plans c, true)]> (ccores w).
Proof.
  intros Hi. cbn [exec]. unfold locked, exec_Rollback. destruct (w_reaper w); [done|]. rewrite Hi. simpl.
  unfold Rollback. destruct (c_done c) eqn:Hd; simpl.
  - intros [= <-]. simpl. rewrite fmap_insert. unfold ccore at 1. by rewrite Hd.
  - destruct (releaseRefs _ _) as [[[r cleanup] ts]|]; [|done]. simpl. intros [= <-]. simpl. by rewrite fmap_insert.
Qed.

Lemma TryAcquire_cores w i s held w' : w_sets w !! i = Some (s, held) → exec xxh64 sha256 w (ETryAcquire i) = Done w' →
  ccores w' = ccores w ∧
  match TryAcquire s with
  | Some _ => cores w' = <[i := (set_plans s, set_retired s, held + 1)]> (cores w)
  | None => cores w' = cores w
  end.
Proof.
  intros Hi. cbn [exec]. unfold exec_TryAcquire. rewrite Hi. simpl. unfold TryAcquire.
  destruct (_ <=? 0); intros [= <-]; [done|]. simpl. by rewrite fmap_insert.
Qed.

Lemma Release_cores w i s held w' : w_sets w !! i = Some (s, held) → exec xxh64 sha256 w (ERelease i) = Done w' →
  ccores w' = ccores w ∧ cores w' = <[i := (set_plans s, set_retired s, held - 1)]> (cores w).
Proof.
  intros Hi. cbn [exec]. unfold exec_Release. rewrite Hi. simpl. destruct (held <=? 0); [done|]. unfold set_Release.
  destruct (_ <=? 0); [done|]. simpl. intros [= <-]. simpl. by rewrite fmap_insert.
Qed.

Lemma Retire_cores w i s held w' : w_sets w !! i = Some (s, held) → set_retired s = false →
  exec xxh64 sha256 w (ERetire i) = Done w' →
  ccores w' = ccores w ∧ cores w' = <[i := (set_plans s, true, held + 1)]> (cores w).
Proof.
  intros Hi Hr. cbn [exec]. unfold exec_Retire. rewrite Hi. simpl. rewrite Hr. unfold locked. destruct (w_reaper w); [done|].
  destruct (registerRetired _ _); [|done]. simpl. intros [= <-]. simpl. by rewrite fmap_insert.
Qed.
End Cores.

Section Safe.
Context (xxh64 : string → Z) (sha256 : string → string) `{Unicode}.
Context {Q R : Type} (definitions : gmap string (@PluginDefinition Q R)).
Context (iterate : gmap string PluginAttachment → list string).
Context (legacy : option certificateProvider).

#[local] Abbreviation managed := (@managed Q R).
#[local] Abbreviation published := (@published Q R).
#[local] Abbreviation Lease := (@Lease Q R).
#[local] Abbreviation applyPC := (@applyPC Q R).
#[local] Abbreviation acquirer := (@acquirer Q R).
#[local] Abbreviation setCore := (gmap string Plan * bool * Z)%type.

(** ** The invariant *)

(** All plans of the snapshot are in the collection. *)
Definition covered (snapshot : @Snapshot Q R) (plans : gmap string Plan) : Prop :=
  Forall (fun c => plans !! cr_upstreamMeta c = Some (cr_plan c)) (sn_routes snapshot).

Definition known (C : gmap nat setCore) (p : published) : Prop :=
  ∃ plans retired held, C !! pb_set p = Some (plans, retired, held) ∧ covered (pb_snapshot p) plans.

Definition lease_ref (i : nat) (l : Lease) : Z :=
  match le_state l with
  | LeaseReleased => 0
  | _ => if decide (pb_set (le_published l) = i) then 1 else 0
  end.

(** The reference the retiring goroutine has taken over from the manager. *)
Definition owner_ref (pc : applyPC) (i : nat) : Z :=
  match pc with ToReleaseOwner old _ => if decide (old = i) then 1 else 0 | _ => 0 end.

(** The sets that are not retired. *)
Definition unretired (active : option published) (pc : applyPC) : list nat :=
  match active with Some p => [pb_set p] | None => [] end ++
  match pc with ToSwap _ set _ => [set] | ToRetire old _ => [old] | _ => [] end.

(** The candidate that is not terminal. *)
Definition pending (pc : applyPC) : option nat :=
  match pc with ToBuild _ _ c | ToCommit _ c | ToRollback c => Some c | _ => None end.

(** The revision on its way to publication. *)
Definition upcoming (pc : applyPC) : option Z :=
  match pc with
  | ToPrepare revision _ | ToBuild revision _ _ => Some revision
  | ToCommit snapshot _ | ToSwap snapshot _ _ => Some (sn_revision snapshot)
  | _ => None
  end.

Definition pc_ok (C : gmap nat setCore) (K : gmap nat (gmap string Plan * bool)) (pc : applyPC) : Prop :=
  match pc with
  | ToBuild _ _ c => ∃ plans, K !! c = Some (plans, false)
  | ToCommit snapshot c => ∃ plans, K !! c = Some (plans, false) ∧ covered snapshot plans
  | ToSwap snapshot set c => known C (mkPublished snapshot set) ∧ is_Some (K !! c)
  | ToRetire old c => is_Some (C !! old) ∧ (∀ j, c = Some j → is_Some (K !! j))
  | ToReleaseOwner old c => is_Some (C !! old) ∧ (∀ j, c = Some j → is_Some (K !! j))
  | ToRollback c => is_Some (K !! c)
  | _ => True
  end.

Definition acquirer_ok (C : gmap nat setCore) (a : acquirer) : Prop :=
  match a with
  | Loading => True
  | Trying p => known C p
  | Rechecking p => known C p ∧ ∃ plans held, C !! pb_set p = Some (plans, true, held)
  end.

Definition descending (revisions : list Z) : Prop := StronglySorted (fun x y => y < x) revisions.

Definition revisions_ok (active : option published) (closed : bool) (pc : applyPC) (revisions : list Z) : Prop :=
  descending revisions ∧
  (∀ p, active = Some p → head revisions = Some (sn_revision (pb_snapshot p))) ∧
  (active = None → closed = false → revisions = []) ∧
  (∀ n, upcoming pc = Some n → closed = false ∧ ∀ x, x ∈ revisions → x < n) ∧
  (closed = true → active = None).

Record managed_ok (C : gmap nat setCore) (K : gmap nat (gmap string Plan * bool)) (m : managed) : Prop := {
  mo_held i plans retired held : C !! i = Some (plans, retired, held) →
    held = map_sum (lease_ref i) (mg_leases m) + owner_ref (mg_pc m) i;
  mo_retired i plans retired held : C !! i = Some (plans, retired, held) →
    retired = false ↔ i ∈ unretired (mg_active m) (mg_pc m);
  mo_distinct : NoDup (unretired (mg_active m) (mg_pc m));
  mo_pending j plans : K !! j = Some (plans, false) → pending (mg_pc m) = Some j;
  mo_pc : pc_ok C K (mg_pc m);
  mo_active p : mg_active m = Some p → known C p;
  mo_leases l x : mg_leases m !! l = Some x → known C (le_published x);
  mo_acquirers a x : mg_acquirers m !! a = Some x → acquirer_ok C x;
  mo_revisions : revisions_ok (mg_active m) (mg_closed m) (mg_pc m) (mg_revisions m);
  mo_fresh : (∀ a, (mg_next m ≤ a)%nat → mg_acquirers m !! a = None ∧ mg_leases m !! a = None) ∧
    ∀ a, is_Some (mg_acquirers m !! a) → mg_leases m !! a = None;
}.

Definition manager_ok (m : managed) : Prop :=
  world_ok (mg_world m) ∧ managed_ok (cores (mg_world m)) (ccores (mg_world m)) m.

Definition mgood (o : @mreaction Q R) : Prop :=
  match o with MBlocked => True | MPanicked => False | MDone m => manager_ok m end.

(** ** Elementary facts *)

Lemma lease_ref_nonneg i l : 0 ≤ lease_ref i l.
Proof. unfold lease_ref. destruct (le_state l); [destruct (decide _); lia..|lia]. Qed.

(** Changing a set but for its plans keeps snapshots known. *)
Lemma known_update C i plans retired held retired' held' p : C !! i = Some (plans, retired, held) →
  known C p → known (<[i := (plans, retired', held')]> C) p.
Proof.
  intros Hi (plans' & r & h & Hp & Hc). destruct (decide (i = pb_set p)) as [->|Hne].
  - rewrite Hi in Hp. simplify_eq. exists plans', retired', held'. by rewrite lookup_insert_eq.
  - exists plans', r, h. by rewrite lookup_insert_ne.
Qed.

Lemma known_new C i x p : C !! i = None → known C p → known (<[i := x]> C) p.
Proof.
  intros Hi (plans & r & h & Hp & Hc). exists plans, r, h. rewrite lookup_insert_ne; [done|]. by intros ->; rewrite Hi in Hp.
Qed.

Lemma acquirer_ok_update C i plans retired held retired' held' a : C !! i = Some (plans, retired, held) →
  (retired = true → retired' = true) → acquirer_ok C a → acquirer_ok (<[i := (plans, retired', held')]> C) a.
Proof.
  intros Hi Hr. destruct a as [|p|p]; simpl; [done|by eapply known_update|].
  intros [Hk (plans' & h & Hp)]. split; [by eapply known_update|].
  destruct (decide (i = pb_set p)) as [->|Hne].
  - rewrite Hi in Hp. simplify_eq. rewrite Hr by done. exists plans', held'. by rewrite lookup_insert_eq.
  - exists plans', h. by rewrite lookup_insert_ne.
Qed.

Lemma acquirer_ok_new C i x a : C !! i = None → acquirer_ok C a → acquirer_ok (<[i := x]> C) a.
Proof.
  intros Hi. destruct a as [|p|p]; simpl; [done|by apply known_new|].
  intros [Hk (plans' & h & Hp)]. split; [by apply known_new|]. exists plans', h. rewrite lookup_insert_ne; [done|].
  intros ->. by rewrite Hi in Hp.
Qed.

Lemma is_Some_update {A} (m : gmap nat A) i x j : is_Some (m !! j) → is_Some (<[i := x]> m !! j).
Proof. rewrite lookup_insert_is_Some'. auto. Qed.

Lemma pc_ok_update C K pc i plans retired held retired' held' : C !! i = Some (plans, retired, held) →
  pc_ok C K pc → pc_ok (<[i := (plans, retired', held')]> C) K pc.
Proof.
  intros Hi. destruct pc; simpl; try done; intros [Hk Hc]; (split; [|done]);
    [by eapply known_update|by apply is_Some_update|by apply is_Some_update].
Qed.

(** The sum of references when one lease changes. *)
Lemma lease_sum_update (leases : gmap nat Lease) (l : nat) (x y : Lease) i : leases !! l = Some x →
  map_sum (lease_ref i) (<[l := y]> leases) = map_sum (lease_ref i) leases - lease_ref i x + lease_ref i y.
Proof. intros Hl. rewrite (map_sum_update _ _ _ _ _ Hl). lia. Qed.

Lemma lookup_core w i x : cores w !! i = Some x → ∃ s held, w_sets w !! i = Some (s, held) ∧ x = (set_plans s, set_retired s, held).
Proof. rewrite lookup_fmap. intros ([s held] & Hi & ->)%fmap_Some. by exists s, held. Qed.

Lemma lookup_ccore w j plans d : ccores w !! j = Some (plans, d) →
  ∃ c, w_candidates w !! j = Some c ∧ c_plans c = plans ∧ c_done c = d.
Proof. rewrite lookup_fmap. intros (c & Hj & [= -> ->])%fmap_Some. by exists c. Qed.

(** Nobody refers to a set that does not exist. *)
Lemma absent_unreferenced C K m i : managed_ok C K m → C !! i = None → map_sum (lease_ref i) (mg_leases m) = 0.
Proof.
  intros Hm Hi. apply map_sum_zero. intros l x Hl. destruct (mo_leases _ _ _ Hm _ _ Hl) as (plans & r & h & Hp & _).
  unfold lease_ref. destruct (le_state x); try done; (rewrite decide_False; [done|]); congruence.
Qed.

Lemma on_registry_good m e k : world_ok (mg_world m) →
  (∀ w, exec xxh64 sha256 (mg_world m) e = Done w → world_ok w → mgood (k (with_world m w))) →
  mgood (on_registry xxh64 sha256 m e k).
Proof.
  intros Hw Hk. unfold on_registry. pose proof (exec_good xxh64 sha256 _ e Hw) as Hg.
  destruct (exec xxh64 sha256 (mg_world m) e) as [| |w] eqn:E; [done|done|]. by apply Hk.
Qed.

(** ** Steps that leave the registry alone *)

Lemma returns_ok m revision e : manager_ok m → manager_ok (returns m revision e).
Proof. intros [Hw Hm]. split; [done|]. by destruct Hm. Qed.

Lemma Apply_good m revision resources : manager_ok m → mgood (Apply m revision resources).
Proof.
  intros Hok. pose proof Hok as [Hw Hm]. unfold Apply. destruct (mg_pc m) eqn:Hpc; try done.
  destruct (mg_closed m) eqn:Hcl; [by apply returns_ok|]. destruct (from_option _ _ _) eqn:Hst; [by apply returns_ok|]. split; [done|].
  destruct Hm as [H1 H2 H3 H4 H5 H6 H7 H8 H9 H10]. rewrite Hpc in *. split; simpl; try done.
  destruct H9 as (Hd & Ha & Hn & _ & Hc). split_and!; try done. intros n [= <-]. split; [done|]. intros x Hx.
  destruct (mg_active m) as [p|]; [|rewrite Hn in Hx by done; by apply elem_of_nil in Hx]. simpl in Hst. apply Z.leb_gt in Hst.
  specialize (Ha p eq_refl). destruct (mg_revisions m) as [|y l]; [done|]. injection Ha as ->.
  apply elem_of_cons in Hx as [->|Hx]; [done|]. apply StronglySorted_inv in Hd as [_ Hd].
  rewrite Forall_forall in Hd. specialize (Hd x Hx). lia.
Qed.

Lemma Close_good m : manager_ok m → mgood (Close m).
Proof.
  intros [Hw Hm]. unfold Close. destruct (mg_pc m) eqn:Hpc; try done. split; [done|].
  destruct Hm as [H1 H2 H3 H4 H5 H6 H7 H8 H9 H10]. rewrite Hpc in *. destruct H9 as (Hd & Ha & Hn & _ & Hc).
  split; simpl; try done.
  - intros i plans retired held Hi. rewrite (H1 _ _ _ _ Hi). by destruct (mg_active m).
  - intros i plans retired held Hi. rewrite (H2 _ _ _ _ Hi). by destruct (mg_active m).
  - by destruct (mg_active m).
  - intros j plans Hj. by specialize (H4 _ _ Hj).
  - destruct (mg_active m) as [p|]; [|done]. simpl. split; [|done].
    destruct (H6 p eq_refl) as (plans & r & h & Hp & _). by eexists.
  - split_and!; try done. intros n Hn'. by destruct (mg_active m).
Qed.

Lemma Acquire_good m : manager_ok m → mgood (Acquire m).
Proof.
  intros [Hw Hm]. split; [done|]. destruct Hm as [H1 H2 H3 H4 H5 H6 H7 H8 H9 [H10 H11]]. split; simpl; try done.
  - intros a x [[<- <-]|[_ Ha]]%lookup_insert_Some; [done|by eapply H8].
  - split.
    + intros a Ha. rewrite lookup_insert_ne by lia. apply H10. lia.
    + intros a. destruct (decide (mg_next m = a)) as [<-|Hne]; [intros _; by apply H10|].
      rewrite lookup_insert_ne by done. apply H11.
Qed.

(** Updating or removing one acquirer. *)
Lemma acquirer_step m a x y : manager_ok m → mg_acquirers m !! a = Some x →
  (∀ z, y = Some z → acquirer_ok (cores (mg_world m)) z) →
  manager_ok (with_acquirers m (match y with Some z => <[a := z]> (mg_acquirers m) | None => delete a (mg_acquirers m) end)).
Proof.
  intros [Hw Hm] Ha Hy. split; [done|]. destruct Hm as [H1 H2 H3 H4 H5 H6 H7 H8 H9 [H10 H11]].
  assert (Hlook : ∀ b, (match y with Some z => <[a := z]> (mg_acquirers m) | None => delete a (mg_acquirers m) end) !! b =
    if decide (a = b) then y else mg_acquirers m !! b).
  { intros b. destruct (decide (a = b)) as [<-|Hne]; destruct y; by simplify_map_eq. }
  split; simpl; try done.
  - intros b z. rewrite Hlook. destruct (decide (a = b)); [intros ->; by apply Hy|apply H8].
  - split.
    + intros b Hb. rewrite Hlook. destruct (H10 b Hb) as [Hn Hl]. split; [|done].
      destruct (decide (a = b)) as [<-|]; [congruence|done].
    + intros b. rewrite Hlook. destruct (decide (a = b)) as [<-|]; [intros _; apply H11; by eexists|apply H11].
Qed.

Lemma load_good m a : manager_ok m → mgood (acquire_load m a).
Proof.
  intros Hm. unfold acquire_load. destruct (mg_acquirers m !! a) as [[| |]|] eqn:Ha; try done. simpl.
  pose proof (acquirer_step m a _ (Trying <$> mg_active m) Hm Ha) as Hstep.
  destruct (mg_active m) as [p|] eqn:Hp; apply Hstep; [|done]. intros z [= <-]. simpl.
  by apply (mo_active _ _ _ (proj2 Hm)).
Qed.

Lemma recheck_good m a : manager_ok m → mgood (acquire_recheck m a).
Proof.
  intros Hm. unfold acquire_recheck. destruct (mg_acquirers m !! a) as [[| |p]|] eqn:Ha; try done. simpl.
  pose proof (acquirer_step m a _ (if bool_decide (pb_set <$> mg_active m = Some (pb_set p)) then None else Some Loading) Hm Ha) as Hstep.
  destruct (bool_decide _); apply Hstep; [done|by intros z [= <-]].
Qed.

(** Updating one lease together with the count of its set. *)
Lemma flag_good m l : manager_ok m → mgood (lease_flag m l).
Proof.
  intros Hok. pose proof Hok as [Hw Hm]. unfold lease_flag. destruct (mg_leases m !! l) as [[p []]|] eqn:Hl; try done. split; [done|].
  destruct Hm as [H1 H2 H3 H4 H5 H6 H7 H8 H9 [H10 H11]]. split; simpl; try done.
  - intros i plans retired held Hi. rewrite (lease_sum_update _ _ _ _ _ Hl), (H1 _ _ _ _ Hi). unfold lease_ref at 3 4. simpl. lia.
  - intros k x [[<- <-]|[_ Hk]]%lookup_insert_Some; [apply (H7 _ _ Hl)|by eapply H7].
  - split.
    + intros k Hk. destruct (H10 k Hk) as [? Hn]. split; [done|]. rewrite lookup_insert_ne; [done|]. congruence.
    + intros k Hk. rewrite lookup_insert_ne; [by apply H11|]. intros <-. rewrite (H11 _ Hk) in Hl. done.
Qed.
(** ** Steps of the registry *)

Lemma same_cores_good m w : manager_ok m → world_ok w → cores w = cores (mg_world m) →
  ccores w = ccores (mg_world m) → manager_ok (with_world m w).
Proof.
  intros [_ Hm] Hw HC HK. split; [done|]. cbn [mg_world with_world]. rewrite HC, HK. by destruct Hm.
Qed.

Lemma try_good m a : manager_ok m → mgood (acquire_try xxh64 sha256 m a).
Proof.
  intros Hok. pose proof Hok as [Hw Hm]. unfold acquire_try.
  destruct (mg_acquirers m !! a) as [[|p|]|] eqn:Ha; try done.
  destruct (w_sets (mg_world m) !! pb_set p) as [[s held]|] eqn:Hs; [|done].
  apply on_registry_good; [done|]. intros w Hexec Hw'.
  destruct (TryAcquire_cores _ _ _ _ _ _ _ Hs Hexec) as [HK HC].
  assert (HCi : cores (mg_world m) !! pb_set p = Some (set_plans s, set_retired s, held)) by (by rewrite lookup_fmap, Hs).
  destruct (TryAcquire s) as [s'|] eqn:Htry.
  - split; [done|]. cbn [mg_world with_world with_acquirers with_leases]. rewrite HC, HK.
    destruct Hm as [H1 H2 H3 H4 H5 H6 H7 H8 H9 [H10 H11]]. assert (Hla : mg_leases m !! a = None) by (apply H11; by eexists).
    split; simpl; try done.
    + intros i plans retired h. rewrite map_sum_insert_new by done. unfold lease_ref at 1. simpl.
      intros [[<- [= <- <- <-]]|[Hne Hi]]%lookup_insert_Some.
      * rewrite decide_True by done. rewrite (H1 _ _ _ _ HCi). lia.
      * rewrite decide_False by done. rewrite (H1 _ _ _ _ Hi). lia.
    + intros i plans retired h [[<- [= <- <- <-]]|[Hne Hi]]%lookup_insert_Some; [by apply (H2 _ _ _ _ HCi)|by apply (H2 _ _ _ _ Hi)].
    + by eapply pc_ok_update.
    + intros q Hq. eapply known_update; [done|by apply H6].
    + intros l x [[<- <-]|[_ Hl]]%lookup_insert_Some; (eapply known_update; [done|]); [apply (H8 _ _ Ha)|by eapply H7].
    + intros b x [Hne Hb]%lookup_delete_Some. eapply acquirer_ok_update; [done|done|by eapply H8].
    + split.
      * intros b Hb. destruct (H10 b Hb) as [Hn Hl]. rewrite lookup_delete_None, lookup_insert_ne by (by intros ->; congruence). auto.
      * intros b [x [Hne Hb]%lookup_delete_Some]. rewrite lookup_insert_ne by done. apply H11. by eexists.
  - apply (acquirer_step (with_world m w) a (Trying p) (Some (Rechecking p))); [by apply same_cores_good|done|].
    intros z [= <-]. cbn [mg_world with_world]. rewrite HC. split; [by apply (mo_acquirers _ _ _ Hm _ _ Ha)|].
    exists (set_plans s), held. rewrite HCi. f_equal. f_equal. f_equal.
    destruct (so_refs _ _ _ _ (wo_sets _ Hw) _ _ _ Hs) as [Hh Hr]. unfold TryAcquire in Htry.
    destruct (set_refs s <=? 0) eqn:E; [|done]. apply Z.leb_le in E. destruct (set_retired s); [done|lia].
Qed.

Lemma drop_good m l : manager_ok m → mgood (lease_drop xxh64 sha256 m l).
Proof.
  intros Hok. pose proof Hok as [Hw Hm]. unfold lease_drop.
  destruct (mg_leases m !! l) as [[p []]|] eqn:Hl; try done. apply on_registry_good; [done|]. intros w Hexec Hw'.
  destruct (mo_leases _ _ _ Hm _ _ Hl) as (plans & ret & held & HCi & _). simpl in HCi.
  destruct (lookup_core _ _ _ HCi) as (s & held' & Hs & [= -> -> <-]).
  destruct (Release_cores _ _ _ _ _ _ _ Hs Hexec) as [HK HC].
  split; [done|]. cbn [mg_world with_world with_leases]. rewrite HC, HK.
  destruct Hm as [H1 H2 H3 H4 H5 H6 H7 H8 H9 [H10 H11]]. split; simpl; try done.
  - intros i plans retired h. rewrite (lease_sum_update _ _ _ _ _ Hl). unfold lease_ref at 2 3. simpl.
    intros [[<- [= <- <- <-]]|[Hne Hi]]%lookup_insert_Some.
    + rewrite decide_True by done. rewrite (H1 _ _ _ _ HCi). lia.
    + rewrite decide_False by done. rewrite (H1 _ _ _ _ Hi). lia.
  - intros i plans retired h [[<- [= <- <- <-]]|[Hne Hi]]%lookup_insert_Some; [by apply (H2 _ _ _ _ HCi)|by apply (H2 _ _ _ _ Hi)].
  - by eapply pc_ok_update.
  - intros q Hq. eapply known_update; [done|by apply H6].
  - intros k x [[<- <-]|[_ Hk]]%lookup_insert_Some; (eapply known_update; [done|]); [apply (H7 _ _ Hl)|by eapply H7].
  - intros b x Hb. eapply acquirer_ok_update; [done|done|by eapply H8].
  - split.
    + intros k Hk. destruct (H10 k Hk) as [? Hn]. split; [done|]. rewrite lookup_insert_ne; [done|]. congruence.
    + intros k Hk. rewrite lookup_insert_ne; [by apply H11|]. intros <-. rewrite (H11 _ Hk) in Hl. done.
Qed.
(** ** Steps of [Apply] and [Close] *)

Lemma prepare_step_good m now revision resources : manager_ok m → mg_pc m = ToPrepare revision resources →
  mgood (apply_step xxh64 sha256 definitions iterate legacy m now).
Proof.
  intros Hok Hpc. pose proof Hok as [Hw Hm]. unfold apply_step. rewrite Hpc. apply on_registry_good; [done|]. intros w Hexec Hw'.
  destruct (Prepare_cores _ _ _ _ _ _ _ Hw Hexec) as [HC HK].
  destruct Hm as [H1 H2 H3 H4 H5 H6 H7 H8 H9 H10]. rewrite Hpc in *. destruct H9 as (Hd & Ha & Hn & Hu & Hc). cbn [mg_world with_world].
  destruct HK as [[HK ->]|(plans & HK & [c Hcand])].
  - apply returns_ok. split; [done|]. cbn [mg_world with_world with_pc]. rewrite HC, HK. split; simpl; try done.
  - rewrite Hcand. split; [done|]. cbn [mg_world with_world with_pc]. rewrite HC, HK. split; simpl; try done.
    + intros j plans' [[<- _]|[_ Hj]]%lookup_insert_Some; [done|]. by specialize (H4 _ _ Hj).
    + exists plans. apply lookup_insert_eq.
Qed.

Lemma build_step_good m now revision resources candidate : manager_ok m → mg_pc m = ToBuild revision resources candidate →
  mgood (apply_step xxh64 sha256 definitions iterate legacy m now).
Proof.
  intros Hok Hpc. pose proof Hok as [Hw Hm]. unfold apply_step. rewrite Hpc.
  destruct Hm as [H1 H2 H3 H4 H5 H6 H7 H8 H9 H10]. rewrite Hpc in *. destruct H9 as (Hd & Ha & Hn & Hu & Hc).
  destruct H5 as [plans Hplans].
  assert (Hroll : manager_ok (with_pc m (ToRollback candidate))).
  { split; [done|]. split; simpl; try done. }
  destruct (Build _ _ _ _ _ _ _) as [snapshot|] eqn:Hb; [|by apply returns_ok].
  destruct (Z.eqb_spec (sn_revision snapshot) revision) as [Hrev|]; [|by apply returns_ok].
  apply Build_ok in Hb as (_ & _ & c & Hcand & _ & _ & Hall). split; [done|]. split; simpl; try done.
  - exists plans. split; [done|]. apply lookup_ccore in Hplans as (c' & Hc' & <- & _). rewrite Hcand in Hc'. injection Hc' as <-.
    unfold covered. rewrite Forall_forall. intros cr (i & Hi)%list_elem_of_lookup.
    destruct (Forall2_lookup_r _ _ _ _ _ Hall Hi) as (route & _ & sv & u & Hcf).
    rewrite (cf_upstream _ _ _ _ _ _ _ _ Hcf). apply (cf_plan _ _ _ _ _ _ _ _ Hcf).
  - split_and!; try done. intros n [= <-]. rewrite Hrev. by apply Hu.
Qed.

Lemma commit_step_good m now snapshot candidate : manager_ok m → mg_pc m = ToCommit snapshot candidate →
  mgood (apply_step xxh64 sha256 definitions iterate legacy m now).
Proof.
  intros Hok Hpc. pose proof Hok as [Hw Hm]. unfold apply_step. rewrite Hpc.
  pose proof (mo_pc _ _ _ Hm) as Hpcok. rewrite Hpc in Hpcok. destruct Hpcok as (plans & Hplans & Hcov).
  destruct (lookup_ccore _ _ _ _ Hplans) as (c & Hc & <- & Hdone).
  apply on_registry_good; [done|]. intros w Hexec Hw'.
  destruct (Commit_cores _ _ _ _ _ _ Hw Hc Hdone Hexec) as [HC HK].
  set (n := w_next (mg_world m)) in *.
  assert (Hnew : cores (mg_world m) !! n = None).
  { destruct (wo_unused _ Hw) as (_ & U & _). rewrite lookup_fmap, U; [done|]. unfold n. lia. }
  assert (Hset : is_Some (w_sets w !! n)).
  { assert (Hl : cores w !! n = Some (c_plans c, false, 0)) by (rewrite HC; apply lookup_insert_eq).
    apply lookup_core in Hl as (s & held & -> & _). by eexists. }
  destruct Hset as [x Hx]. cbn [mg_world with_world]. rewrite Hx. split; [done|]. cbn [mg_world with_world with_pc]. rewrite HC, HK.
  pose proof (absent_unreferenced _ _ _ _ Hm Hnew) as Hzero.
  destruct Hm as [H1 H2 H3 H4 H5 H6 H7 H8 H9 H10]. rewrite Hpc in *. destruct H9 as (Hd & Ha & Hn & Hu & Hcl).
  assert (Hactive : ∀ p, mg_active m = Some p → pb_set p ≠ n).
  { intros p Hp Heq. destruct (H6 p Hp) as (? & ? & ? & Hl & _). rewrite Heq in Hl. congruence. }
  split; simpl; try done.
  - intros i plans retired held [[<- [= <- <- <-]]|[_ Hi]]%lookup_insert_Some; [by rewrite Hzero|by apply (H1 _ _ _ _ Hi)].
  - intros i plans retired held. unfold unretired. rewrite elem_of_app, list_elem_of_singleton.
    intros [[<- [= <- <- <-]]|[Hne Hi]]%lookup_insert_Some; [by split; [right|]|].
    rewrite (H2 _ _ _ _ Hi). unfold unretired. rewrite app_nil_r. split; [by left|]. intros [?|?]; [done|congruence].
  - unfold unretired. destruct (mg_active m) as [p|]; simpl; [|apply NoDup_singleton].
    apply NoDup_cons. split; [|apply NoDup_singleton]. intros Hin%list_elem_of_singleton. by apply (Hactive p).
  - intros j plans [[<- [=]]|[Hne Hj]]%lookup_insert_Some. specialize (H4 _ _ Hj). simpl in H4. congruence.
  - split; [|by rewrite lookup_insert_eq; eexists]. exists (c_plans c), false, 0. simpl. by rewrite lookup_insert_eq.
  - intros p Hp. apply known_new; [done|by apply H6].
  - intros l y Hl. apply known_new; [done|by eapply H7].
  - intros a y Hy. apply acquirer_ok_new; [done|by eapply H8].
Qed.

Lemma swap_step_good m now snapshot set candidate : manager_ok m → mg_pc m = ToSwap snapshot set candidate →
  mgood (apply_step xxh64 sha256 definitions iterate legacy m now).
Proof.
  intros Hok Hpc. pose proof Hok as [Hw Hm]. unfold apply_step. rewrite Hpc. split; [done|].
  destruct Hm as [H1 H2 H3 H4 H5 H6 H7 H8 H9 H10]. rewrite Hpc in *. destruct H9 as (Hd & Ha & Hn & Hu & Hcl).
  destruct H5 as [Hknown HK]. destruct (Hu _ eq_refl) as [Hopen Hmax].
  split; simpl; try done.
  - intros i plans retired held Hi. rewrite (H1 _ _ _ _ Hi). by destruct (mg_active m).
  - intros i plans retired held Hi. rewrite (H2 _ _ _ _ Hi). unfold unretired. destruct (mg_active m); simpl.
    + rewrite !elem_of_cons. tauto.
    + done.
  - unfold unretired in *. destruct (mg_active m); simpl in *; [|done]. eapply NoDup_Permutation_proper; [|exact H3].
    apply Permutation_swap.
  - intros j plans Hj. by specialize (H4 _ _ Hj).
  - destruct (mg_active m) as [old|]; simpl; [|done]. split; [|by intros j [= <-]].
    destruct (H6 old eq_refl) as (plans & r & h & Hp & _). by eexists.
  - by intros p [= <-].
  - split_and!; try done.
    + constructor; [done|]. by apply Forall_forall.
    + by intros p [= <-].
    + intros n Hn'. by destruct (mg_active m).
    + congruence.
Qed.

Lemma retire_step_good m now old candidate : manager_ok m → mg_pc m = ToRetire old candidate →
  mgood (apply_step xxh64 sha256 definitions iterate legacy m now).
Proof.
  intros Hok Hpc. pose proof Hok as [Hw Hm]. unfold apply_step. rewrite Hpc.
  pose proof (mo_pc _ _ _ Hm) as Hpcok. rewrite Hpc in Hpcok. destruct Hpcok as [[x Hx] HKc].
  destruct (lookup_core _ _ _ Hx) as (s & held & Hs & ->).
  assert (Hr : set_retired s = false).
  { apply (mo_retired _ _ _ Hm _ _ _ _ Hx). rewrite Hpc. unfold unretired. rewrite elem_of_app, list_elem_of_singleton. by right. }
  apply on_registry_good; [done|]. intros w Hexec Hw'.
  destruct (Retire_cores _ _ _ _ _ _ _ Hs Hr Hexec) as [HK HC].
  split; [done|]. cbn [mg_world with_world with_pc]. rewrite HC, HK.
  destruct Hm as [H1 H2 H3 H4 H5 H6 H7 H8 H9 H10]. rewrite Hpc in *. destruct H9 as (Hd & Ha & Hn & Hu & Hcl).
  assert (Hold : ∀ p, mg_active m = Some p → pb_set p ≠ old).
  { intros p Hp Heq. unfold unretired in H3. rewrite Hp in H3. simpl in H3. apply NoDup_cons in H3 as [Hni _].
    apply Hni. rewrite Heq. by left. }
  split; simpl; try done.
  - intros i plans retired h [[<- [= <- <- <-]]|[Hne Hi]]%lookup_insert_Some; simpl.
    + rewrite decide_True, (H1 _ _ _ _ Hx) by done. simpl. lia.
    + rewrite decide_False, (H1 _ _ _ _ Hi) by done. done.
  - intros i plans retired h. unfold unretired. rewrite app_nil_r.
    intros [[<- [= <- <- <-]]|[Hne Hi]]%lookup_insert_Some.
    + split; [done|]. destruct (mg_active m) as [p|]; [|by intros ?%elem_of_nil].
      intros Hin%list_elem_of_singleton. by destruct (Hold p).
    + rewrite (H2 _ _ _ _ Hi). unfold unretired. rewrite elem_of_app, list_elem_of_singleton. split; [|by left].
      intros [?|?]; [done|congruence].
  - unfold unretired in *. rewrite app_nil_r. by apply NoDup_app in H3 as (? & _).
  - split; [by apply is_Some_update; eexists|done].
  - intros p Hp. eapply known_update; [done|by apply H6].
  - intros l y Hl. eapply known_update; [done|by eapply H7].
  - intros a y Hy. eapply acquirer_ok_update; [done|done|by eapply H8].
Qed.

Lemma release_step_good m now old candidate : manager_ok m → mg_pc m = ToReleaseOwner old candidate →
  mgood (apply_step xxh64 sha256 definitions iterate legacy m now).
Proof.
  intros Hok Hpc. pose proof Hok as [Hw Hm]. unfold apply_step. rewrite Hpc.
  pose proof (mo_pc _ _ _ Hm) as Hpcok. rewrite Hpc in Hpcok. destruct Hpcok as [[x Hx] HKc].
  destruct (lookup_core _ _ _ Hx) as (s & held & Hs & ->).
  apply on_registry_good; [done|]. intros w Hexec Hw'.
  destruct (Release_cores _ _ _ _ _ _ _ Hs Hexec) as [HK HC].
  split; [done|]. cbn [mg_world with_world with_pc]. rewrite HC, HK.
  destruct Hm as [H1 H2 H3 H4 H5 H6 H7 H8 H9 H10]. rewrite Hpc in *. destruct H9 as (Hd & Ha & Hn & Hu & Hcl).
  assert (Hret : ∀ pc, pc = returning candidate → unretired (mg_active m) pc = unretired (mg_active m) (ToReleaseOwner old candidate)
    ∧ (∀ i, owner_ref pc i = 0) ∧ upcoming pc = None ∧ pc_ok (<[old := (set_plans s, set_retired s, held - 1)]> (cores (mg_world m)))
         (ccores (mg_world m)) pc).
  { intros pc ->. destruct candidate as [c|]; simpl; split_and!; try done. by apply HKc. }
  destruct (Hret _ eq_refl) as (Hun & Hown & Hup & Hpc'). split; simpl; try done.
  - intros i plans retired h [[<- [= <- <- <-]]|[Hne Hi]]%lookup_insert_Some; rewrite Hown.
    + rewrite (H1 _ _ _ _ Hx). simpl. rewrite decide_True by done. lia.
    + rewrite (H1 _ _ _ _ Hi). simpl. rewrite decide_False by done. done.
  - intros i plans retired h. rewrite Hun. intros [[<- [= <- <- <-]]|[Hne Hi]]%lookup_insert_Some; [by apply (H2 _ _ _ _ Hx)|by apply (H2 _ _ _ _ Hi)].
  - by rewrite Hun.
  - intros j plans Hj. by specialize (H4 _ _ Hj).
  - intros p Hp. eapply known_update; [done|by apply H6].
  - intros l y Hl. eapply known_update; [done|by eapply H7].
  - intros a y Hy. eapply acquirer_ok_update; [done|done|by eapply H8].
  - split_and!; try done. intros n. by rewrite Hup.
Qed.

Lemma rollback_step_good m now candidate : manager_ok m → mg_pc m = ToRollback candidate →
  mgood (apply_step xxh64 sha256 definitions iterate legacy m now).
Proof.
  intros Hok Hpc. pose proof Hok as [Hw Hm]. unfold apply_step. rewrite Hpc.
  pose proof (mo_pc _ _ _ Hm) as Hpcok. rewrite Hpc in Hpcok. destruct Hpcok as [[plans d] Hx].
  destruct (lookup_ccore _ _ _ _ Hx) as (c & Hc & <- & _). apply on_registry_good; [done|]. intros w Hexec Hw'.
  destruct (Rollback_cores _ _ _ _ _ _ Hc Hexec) as [HC HK].
  split; [done|]. cbn [mg_world with_world with_pc]. rewrite HC, HK.
  destruct Hm as [H1 H2 H3 H4 H5 H6 H7 H8 H9 H10]. rewrite Hpc in *. destruct H9 as (Hd & Ha & Hn & Hu & Hcl).
  split; simpl; try done.
  - intros j plans [[<- [=]]|[Hne Hj]]%lookup_insert_Some. specialize (H4 _ _ Hj). simpl in H4. congruence.
Qed.

Lemma mexec_good m e : manager_ok m → mgood (mexec xxh64 sha256 definitions iterate legacy m e).
Proof.
  intros Hok. destruct e as [revision resources|now| | | |a|a|a|l|l|e]; cbn [mexec].
  - by apply Apply_good.
  - destruct (mg_pc m) eqn:Hpc; [unfold apply_step; by rewrite Hpc|by eapply prepare_step_good|by eapply build_step_good|
      by eapply commit_step_good|by eapply swap_step_good|by eapply retire_step_good|by eapply release_step_good|
      by eapply rollback_step_good].
  - by apply Close_good.
  - destruct (mg_closed m); [|done]. apply on_registry_good; [apply Hok|]. intros w Hexec Hw'.
    destruct (Close_cores _ _ _ _ Hexec). by apply same_cores_good.
  - by apply Acquire_good.
  - by apply load_good.
  - by apply try_good.
  - by apply recheck_good.
  - by apply flag_good.
  - by apply drop_good.
  - destruct (background e) eqn:Hb; [|done]. apply on_registry_good; [apply Hok|]. intros w Hexec Hw'.
    destruct (background_cores _ _ _ _ _ Hb Hexec). by apply same_cores_good.
Qed.

Lemma NewManager_ok maxRetired workers queue observer r : NewRegistry maxRetired workers queue observer = Some r →
  manager_ok (NewManager r).
Proof.
  intros Hr. split; [by eapply initial_ok|]. split; simpl; try done.
  - apply NoDup_nil_2.
  - split_and!; try done. constructor.
Qed.

Lemma mreachable_ok m : mreachable xxh64 sha256 definitions iterate legacy m → manager_ok m.
Proof.
  induction 1 as [maxRetired workers queue observer r Hr|m e m' _ IH Hexec]; [by eapply NewManager_ok|].
  pose proof (mexec_good m e IH) as Hg. by rewrite Hexec in Hg.
Qed.
(** ** Requests *)

(** The runtimes of a compiled route are usable. *)
Definition route_live (w : world) (c : @CompiledRoute Q R) : Prop :=
  live_transport (r_store (w_registry w)) (p_transportKey (cr_plan c)) (p_transport (cr_plan c)) ∧
  Forall (fun e => ∀ h, pe_health e = Some h → ∃ tracker,
    s_trackers (r_store (w_registry w)) !! h = Some tracker ∧ eh_retired tracker = false) (p_endpoints (cr_plan c)).

Lemma known_live m p : manager_ok m → known (cores (mg_world m)) p →
  (∃ l x, mg_leases m !! l = Some x ∧ le_published x = p ∧ le_state x = LeaseHeld) ∨ mg_active m = Some p →
  Forall (route_live (mg_world m)) (sn_routes (pb_snapshot p)).
Proof.
  intros [Hw Hm] (plans & retired & held & HC & Hcov) Huse.
  destruct (lookup_core _ _ _ HC) as (s & held' & Hs & [= -> -> <-]).
  unfold covered in Hcov. eapply Forall_impl; [exact Hcov|]. intros c Hc.
  eapply plan_in_service; [done|exact Hs| |exact Hc]. destruct Huse as [(l & x & Hl & Hp & Hst)|Ha].
  - left. rewrite (mo_held _ _ _ Hm _ _ _ _ HC).
    pose proof (map_sum_elem_le (lease_ref (pb_set p)) _ _ _ (lease_ref_nonneg _) Hl) as Hle.
    unfold lease_ref at 1 in Hle. rewrite Hst, Hp, decide_True in Hle by done.
    assert (0 ≤ owner_ref (mg_pc m) (pb_set p)); [|lia].
    unfold owner_ref. destruct (mg_pc m); try done. by destruct (decide _).
  - right. apply (mo_retired _ _ _ Hm _ _ _ _ HC). unfold unretired. rewrite Ha. by left.
Qed.

(** C1: While a request holds its lease, every route of its snapshot has an
    open transport and unretired health trackers, whatever revisions are
    applied, retired and reaped meanwhile; so does the published snapshot, and
    a match against the leased snapshot yields such a route. *)
Theorem leased_routes_live m : mreachable xxh64 sha256 definitions iterate legacy m →
  (∀ l p, mg_leases m !! l = Some (mkManagerLease p LeaseHeld) →
     Forall (route_live (mg_world m)) (sn_routes (pb_snapshot p)) ∧
     ∀ r x c, snapshot_Match (pb_snapshot p) r = Some (Ok x) → m_route x = Some c → route_live (mg_world m) c) ∧
  (∀ p, mg_active m = Some p → Forall (route_live (mg_world m)) (sn_routes (pb_snapshot p))).
Proof.
  intros Hok%mreachable_ok. pose proof Hok as [_ Hm]. split.
  - intros l p Hl. assert (Hlive : Forall (route_live (mg_world m)) (sn_routes (pb_snapshot p))).
    { apply known_live; [done|by apply (mo_leases _ _ _ Hm _ _ Hl)|]. left. by exists l, (mkManagerLease p LeaseHeld). }
    split; [done|]. intros r x c. unfold snapshot_Match. destruct (Match _ r) as [res|]; [|done].
    destruct (Found res); [|by intros [= <-]]. destruct (_ <? 0); [done|].
    destruct (sn_routes (pb_snapshot p) !! _) as [c'|] eqn:Hc; [|done]. intros [= <-] [= <-].
    rewrite Forall_forall in Hlive. apply Hlive. by eapply list_elem_of_lookup_2.
  - intros p Ha. apply known_live; [done|by apply (mo_active _ _ _ Hm)|by right].
Qed.

(** [Acquire] fails only when no snapshot is published: retaining the
    published snapshot always succeeds, and after a failed attempt another
    snapshot (or none) has been published, so the call never gives up on an
    unchanged one. *)
Theorem acquire_reliable m a : mreachable xxh64 sha256 definitions iterate legacy m →
  (∀ p, mg_acquirers m !! a = Some (Rechecking p) → pb_set <$> mg_active m ≠ Some (pb_set p)) ∧
  (∀ p, mg_acquirers m !! a = Some (Trying p) → mg_active m = Some p →
     ∃ m', mexec xxh64 sha256 definitions iterate legacy m (MTry a) = MDone m' ∧
       mg_leases m' !! a = Some (mkManagerLease p LeaseHeld)).
Proof.
  intros [Hw Hm]%mreachable_ok.
  assert (Hactive : ∀ p, mg_active m = Some p → ∃ plans held, cores (mg_world m) !! pb_set p = Some (plans, false, held)).
  { intros p Hp. destruct (mo_active _ _ _ Hm p Hp) as (plans & retired & held & HC & _). exists plans, held. rewrite HC.
    f_equal. f_equal. f_equal. apply (mo_retired _ _ _ Hm _ _ _ _ HC). unfold unretired. rewrite Hp. by left. }
  split.
  - intros p Ha (q & Hq & Heq)%fmap_Some. destruct (Hactive q Hq) as (plans & held & HC).
    destruct (mo_acquirers _ _ _ Hm _ _ Ha) as [_ (plans' & held' & HC')]. rewrite Heq in HC'. congruence.
  - intros p Ha Hp. destruct (Hactive p Hp) as (plans & held & HC).
    destruct (lookup_core _ _ _ HC) as (s & held' & Hs & [= -> Hr <-]).
    destruct (so_refs _ _ _ _ (wo_sets _ Hw) _ _ _ Hs) as [Hh Href]. rewrite <-Hr in Href.
    cbn [mexec]. unfold acquire_try, on_registry. rewrite Ha, Hs. cbn [exec]. unfold exec_TryAcquire. rewrite Hs. simpl.
    unfold TryAcquire. rewrite (proj2 (Z.leb_gt _ _)) by lia. eexists. split; [done|]. simpl. apply lookup_insert_eq.
Qed.

(** ** Revisions *)

(** What one step does to the published snapshot and to the results of
    [Apply]. *)
Inductive transition (m : managed) : mevent → managed → Prop :=
| transition_none e m' : mg_active m' = mg_active m → mg_revisions m' = mg_revisions m →
    mg_outcomes m' = mg_outcomes m → transition m e m'
| transition_rejected e m' n err : mg_active m' = mg_active m → mg_revisions m' = mg_revisions m →
    mg_outcomes m' = (n, Some err) :: mg_outcomes m → transition m e m'
| transition_published now m' snapshot set c : mg_pc m = ToSwap snapshot set c →
    mg_active m' = Some (mkPublished snapshot set) → mg_revisions m' = sn_revision snapshot :: mg_revisions m →
    mg_outcomes m' = (sn_revision snapshot, None) :: mg_outcomes m → transition m (MApplyStep now) m'
| transition_closed m' : mg_active m' = None → mg_closed m' = true → mg_revisions m' = mg_revisions m →
    mg_outcomes m' = mg_outcomes m → transition m MClose m'.

Lemma on_registry_transition m e k ev m' : (∀ w m', k (with_world m w) = MDone m' → transition (with_world m w) ev m') →
  on_registry xxh64 sha256 m e k = MDone m' → transition m ev m'.
Proof.
  intros Hk. unfold on_registry. destruct (exec _ _ _ e) as [| |w]; [done|done|]. intros Hm%Hk.
  destruct Hm; [by apply transition_none|by eapply transition_rejected|by eapply transition_published|by apply transition_closed].
Qed.

Lemma apply_step_transition m now m' : apply_step xxh64 sha256 definitions iterate legacy m now = MDone m' →
  transition m (MApplyStep now) m'.
Proof.
  unfold apply_step. destruct (mg_pc m) eqn:Hpc; try done.
  - apply on_registry_transition. intros w m'' [= <-]. destruct (w_candidates _ !! _); [by apply transition_none|by eapply transition_rejected].
  - destruct (Build _ _ _ _ _ _ _); intros [= <-]; [|by eapply transition_rejected].
    destruct (_ =? _); [by apply transition_none|by eapply transition_rejected].
  - apply on_registry_transition. intros w m'' [= <-]. destruct (w_sets _ !! _); [by apply transition_none|by eapply transition_rejected].
  - intros [= <-]. by eapply transition_published.
  - apply on_registry_transition. intros w m'' [= <-]. by apply transition_none.
  - apply on_registry_transition. intros w m'' [= <-]. by apply transition_none.
  - apply on_registry_transition. intros w m'' [= <-]. by apply transition_none.
Qed.

Lemma mexec_transition m e m' : mexec xxh64 sha256 definitions iterate legacy m e = MDone m' → transition m e m'.
Proof.
  destruct e as [revision resources|now| | | |a|a|a|l|l|e]; cbn [mexec].
  - unfold Apply. destruct (mg_pc m); try done. destruct (mg_closed m); [intros [= <-]; by eapply transition_rejected|].
    destruct (from_option _ _ _); intros [= <-]; [by eapply transition_rejected|by apply transition_none].
  - apply apply_step_transition.
  - unfold Close. destruct (mg_pc m); try done. intros [= <-]. by apply transition_closed.
  - destruct (mg_closed m); [|done]. apply on_registry_transition. intros w m'' [= <-]. by apply transition_none.
  - intros [= <-]. by apply transition_none.
  - unfold acquire_load. destruct (mg_acquirers m !! a) as [[]|]; try done. intros [= <-]. by apply transition_none.
  - unfold acquire_try. destruct (mg_acquirers m !! a) as [[]|]; try done. destruct (w_sets _ !! _) as [[s h]|]; [|done].
    apply on_registry_transition. intros w m''. destruct (TryAcquire s); intros [= <-]; by apply transition_none.
  - unfold acquire_recheck. destruct (mg_acquirers m !! a) as [[]|]; try done. intros [= <-]. by apply transition_none.
  - unfold lease_flag. destruct (mg_leases m !! l) as [[p []]|]; try done; intros [= <-]; by apply transition_none.
  - unfold lease_drop. destruct (mg_leases m !! l) as [[p []]|]; try done.
    apply on_registry_transition. intros w m'' [= <-]. by apply transition_none.
  - destruct (background e); [|done]. apply on_registry_transition. intros w m'' [= <-]. by apply transition_none.
Qed.

(** The revisions [Apply] has accepted. *)
Definition accepted (outcomes : list (Z * option BuildError)) : list Z :=
  omap (fun '(n, e) => match e with None => Some n | Some _ => None end) outcomes.

Lemma accepted_revisions m : mreachable xxh64 sha256 definitions iterate legacy m → mg_revisions m = accepted (mg_outcomes m).
Proof.
  induction 1 as [maxRetired workers queue observer r Hr|m e m' _ IH Hexec]; [done|].
  apply mexec_transition in Hexec.
  destruct Hexec as [e m' _ Hr Ho|e m' n err _ Hr Ho|now m' snapshot set c _ _ Hr Ho|m' _ _ Hr Ho]; by rewrite Hr, Ho, IH.
Qed.

(** C11: Published revisions strictly increase, the published snapshot carries
    the latest of them and the published revisions are those for which [Apply]
    returns success; a rejected revision leaves the published snapshot in
    place, and only the swap of a newer revision and [Close] ever replace it. *)
Theorem revisions_increase m : mreachable xxh64 sha256 definitions iterate legacy m →
  descending (mg_revisions m) ∧
  (∀ p, mg_active m = Some p → head (mg_revisions m) = Some (sn_revision (pb_snapshot p))) ∧
  mg_revisions m = accepted (mg_outcomes m) ∧
  (∀ e m', mexec xxh64 sha256 definitions iterate legacy m e = MDone m' → transition m e m') ∧
  (∀ snapshot set c, mg_pc m = ToSwap snapshot set c →
     mg_closed m = false ∧ ∀ x, x ∈ mg_revisions m → x < sn_revision snapshot).
Proof.
  intros Hr. pose proof (mreachable_ok m Hr) as [Hw Hm]. destruct (mo_revisions _ _ _ Hm) as (Hd & Ha & _ & Hu & _).
  split_and!; [done|done|by apply accepted_revisions|by apply mexec_transition|].
  intros snapshot set c Hpc. apply Hu. by rewrite Hpc.
Qed.

(** ** Handshakes *)

Definition built (snapshot : @Snapshot Q R) : Prop := ∃ now revision resources candidate,
  Build definitions iterate legacy now revision resources candidate = Ok snapshot.

(** The snapshot on its way to publication. *)
Definition carried (pc : applyPC) : option (@Snapshot Q R) :=
  match pc with ToCommit snapshot _ | ToSwap snapshot _ _ => Some snapshot | _ => None end.

Definition all_built (m : managed) : Prop :=
  (∀ snapshot, carried (mg_pc m) = Some snapshot → built snapshot) ∧ (∀ p, mg_active m = Some p → built (pb_snapshot p)).

Lemma on_registry_built m e k m' : (∀ w m', k (with_world m w) = MDone m' → all_built m') →
  on_registry xxh64 sha256 m e k = MDone m' → all_built m'.
Proof. intros Hk. unfold on_registry. destruct (exec _ _ _ e) as [| |w]; [done|done|apply Hk]. Qed.

Lemma apply_step_built m now m' : all_built m → apply_step xxh64 sha256 definitions iterate legacy m now = MDone m' → all_built m'.
Proof.
  intros [Hpc Ha]. unfold apply_step. destruct (mg_pc m) as [|revision resources|revision resources c|snapshot c|snapshot set c|old c|old c|c] eqn:E; [done|..].
  - apply on_registry_built. intros w m'' [= <-]. by destruct (w_candidates _ !! _).
  - destruct (Build _ _ _ _ _ _ _) as [snapshot|] eqn:Hb; intros [= <-]; [|done].
    destruct (_ =? _); [|done]. split; [|done]. intros s [= <-]. by exists now, revision, resources, (w_candidates (mg_world m) !! c).
  - apply on_registry_built. intros w m'' [= <-]. by destruct (w_sets _ !! _).
  - intros [= <-]. split; simpl.
    + by destruct (mg_active m).
    + intros p [= <-]. by apply Hpc.
  - apply on_registry_built. by intros w m'' [= <-].
  - apply on_registry_built. intros w m'' [= <-]. split; [by destruct c|done].
  - apply on_registry_built. by intros w m'' [= <-].
Qed.

Lemma mexec_built m e m' : all_built m → mexec xxh64 sha256 definitions iterate legacy m e = MDone m' → all_built m'.
Proof.
  intros Hb. destruct e as [revision resources|now| | | |a|a|a|l|l|e]; cbn [mexec].
  - unfold Apply. destruct (mg_pc m) eqn:Hpc; try done. destruct (mg_closed m); [by intros [= <-]|].
    destruct (from_option _ _ _); intros [= <-]; [done|]. split; [done|apply Hb].
  - by apply apply_step_built.
  - unfold Close. destruct (mg_pc m); try done. intros [= <-]. split; [|done]. by destruct (mg_active m).
  - destruct (mg_closed m); [|done]. apply on_registry_built. by intros w m'' [= <-].
  - by intros [= <-].
  - unfold acquire_load. destruct (mg_acquirers m !! a) as [[]|]; try done. by intros [= <-].
  - unfold acquire_try. destruct (mg_acquirers m !! a) as [[]|]; try done. destruct (w_sets _ !! _) as [[s h]|]; [|done].
    apply on_registry_built. intros w m''. destruct (TryAcquire s); by intros [= <-].
  - unfold acquire_recheck. destruct (mg_acquirers m !! a) as [[]|]; try done. by intros [= <-].
  - unfold lease_flag. destruct (mg_leases m !! l) as [[p []]|]; try done; by intros [= <-].
  - unfold lease_drop. destruct (mg_leases m !! l) as [[p []]|]; try done. apply on_registry_built. by intros w m'' [= <-].
  - destruct (background e); [|done]. apply on_registry_built. by intros w m'' [= <-].
Qed.

Lemma mreachable_built m : mreachable xxh64 sha256 definitions iterate legacy m → all_built m.
Proof. induction 1 as [maxRetired workers queue observer r Hr|m e m' _ IH Hexec]; [done|by eapply mexec_built]. Qed.


(** ** Progress of [Apply] *)

(** The steps [Apply] or [Close] still has to make. *)
Definition rank (pc : applyPC) : nat :=
  match pc with
  | Unlocked => 0 | ToRollback _ => 1 | ToReleaseOwner _ _ => 2 | ToRetire _ _ => 3 | ToSwap _ _ _ => 4
  | ToCommit _ _ => 5 | ToBuild _ _ _ => 6 | ToPrepare _ _ => 7
  end.

(** A step either leaves the pending call without a result or decides it. *)
Definition decides (m m' : managed) : Prop :=
  (upcoming (mg_pc m') = upcoming (mg_pc m) ∧ mg_outcomes m' = mg_outcomes m) ∨
  ∃ n e, upcoming (mg_pc m) = Some n ∧ upcoming (mg_pc m') = None ∧ mg_outcomes m' = (n, e) :: mg_outcomes m.

Definition progresses (m : managed) (o : @mreaction Q R) : Prop :=
  match o with
  | MDone m' => (rank (mg_pc m') < rank (mg_pc m))%nat ∧ w_reaper (mg_world m') = None ∧ decides m m'
  | _ => False
  end.

Lemma on_registry_progresses m e k : world_ok (mg_world m) →
  exec xxh64 sha256 (mg_world m) e ≠ Blocked →
  (∀ w, exec xxh64 sha256 (mg_world m) e = Done w → progresses m (k (with_world m w))) →
  progresses m (on_registry xxh64 sha256 m e k).
Proof.
  intros Hw Hb Hk. unfold on_registry. pose proof (exec_good xxh64 sha256 _ e Hw) as Hg.
  destruct (exec xxh64 sha256 (mg_world m) e) as [| |w] eqn:E; [done|done|]. by apply Hk.
Qed.
(** The registry calls of [Apply] run to completion while the reaper is not at
    work, and do not start it. *)
Definition runs (w : world) (e : event) : Prop :=
  exec xxh64 sha256 w e ≠ Blocked ∧ ∀ w', exec xxh64 sha256 w e = Done w' → w_reaper w' = None.

Lemma prepare_runs w us cs tbs : w_reaper w = None → runs w (EPrepare us cs tbs).
Proof.
  intros Hq. unfold runs, exec, locked, exec_Prepare, call. rewrite Hq.
  destruct (Prepare _ _ _ _ _ _) as [[[r ns] [c|e]]|]; (split; [done|]); try done; by intros w' [= <-].
Qed.

Lemma commit_runs w i : w_reaper w = None → is_Some (w_candidates w !! i) → runs w (ECommit i).
Proof.
  intros Hq [c Hc]. unfold runs, exec, locked, exec_Commit, on. rewrite Hq, Hc.
  destruct (Commit _ _) as [[[r c'] s]|]; (split; [done|]); by intros w' [= <-].
Qed.

Lemma rollback_runs w i : w_reaper w = None → is_Some (w_candidates w !! i) → runs w (ERollback i).
Proof.
  intros Hq [c Hc]. unfold runs, exec, locked, exec_Rollback, on, call. rewrite Hq, Hc.
  destruct (Rollback _ _) as [[[r c'] tl]|]; (split; [done|]); try done; by intros w' [= <-].
Qed.

Lemma retire_runs w i : w_reaper w = None → is_Some (w_sets w !! i) → runs w (ERetire i).
Proof.
  intros Hq [[s held] Hs]. unfold runs, exec, exec_Retire, on, locked, call. rewrite Hs, Hq.
  destruct (set_retired s); [by split; [|intros w' [= <-]]|].
  destruct (registerRetired _ _); (split; [done|]); try done; by intros w' [= <-].
Qed.

Lemma release_runs w i s held : w_reaper w = None → w_sets w !! i = Some (s, held) → 0 < held → runs w (ERelease i).
Proof.
  intros Hq Hs Hh. unfold runs, exec, exec_Release, on, call. rewrite Hs, (proj2 (Z.leb_gt held 0)) by done.
  destruct (set_Release s); (split; [done|]); try done; by intros w' [= <-].
Qed.

Lemma candidate_is_Some w j : is_Some (ccores w !! j) → is_Some (w_candidates w !! j).
Proof. rewrite lookup_fmap, fmap_is_Some. done. Qed.

Lemma set_is_Some w i : is_Some (cores w !! i) → is_Some (w_sets w !! i).
Proof. rewrite lookup_fmap, fmap_is_Some. done. Qed.

(** Closes the goals of [apply_progresses]: the result has a smaller rank. *)
Ltac settle Hpc := unfold progresses, decides; simpl; rewrite ?Hpc; simpl; split_and!; [lia|done|]; first [by left | right; eauto].

Lemma apply_progresses m now : manager_ok m → w_reaper (mg_world m) = None → mg_pc m ≠ Unlocked →
  progresses m (apply_step xxh64 sha256 definitions iterate legacy m now).
Proof.
  intros [Hw Hm] Hq Hpc. pose proof (mo_pc _ _ _ Hm) as Hpcok. unfold apply_step.
  destruct (mg_pc m) as [|rev resources|rev resources c|snapshot c|snapshot set c|old c|old c|c] eqn:E; [done|..]; clear Hpc.
  - destruct (prepare_runs (mg_world m) (rs_upstreams resources) (rs_certificates resources) (rs_trustBundles resources) Hq) as [Hb Hd].
    apply on_registry_progresses; [done|done|]. intros w Hexec. apply Hd in Hexec as Hq'. cbn [mg_world with_world].
    destruct (w_candidates w !! _); settle E.
  - destruct (Build _ _ _ _ _ _ _) as [snapshot|e] eqn:Hbuild; [|settle E].
    destruct (Z.eqb_spec (sn_revision snapshot) rev) as [<-|]; settle E.
  - destruct Hpcok as (plans & Hc & _). destruct (commit_runs (mg_world m) c Hq) as [Hb Hd]; [apply candidate_is_Some; by eexists|].
    apply on_registry_progresses; [done|done|]. intros w Hexec. apply Hd in Hexec as Hq'. cbn [mg_world with_world].
    destruct (w_sets w !! _); settle E.
  - destruct (mg_active m); settle E.
  - destruct Hpcok as [Hset _]. destruct (retire_runs (mg_world m) old Hq) as [Hb Hd]; [by apply set_is_Some|].
    apply on_registry_progresses; [done|done|]. intros w Hexec. apply Hd in Hexec as Hq'. settle E.
  - destruct Hpcok as [[x Hx] _]. destruct (lookup_core _ _ _ Hx) as (s & held & Hs & ->).
    assert (Hheld : 0 < held).
    { rewrite (mo_held _ _ _ Hm _ _ _ _ Hx), E. simpl. rewrite decide_True by done.
      pose proof (map_sum_nonneg (lease_ref old) (mg_leases m) (lease_ref_nonneg old)). lia. }
    destruct (release_runs (mg_world m) old s held Hq Hs Hheld) as [Hb Hd].
    apply on_registry_progresses; [done|done|]. intros w Hexec. apply Hd in Hexec as Hq'. destruct c; settle E.
  - destruct (rollback_runs (mg_world m) c Hq) as [Hb Hd]; [by apply candidate_is_Some|].
    apply on_registry_progresses; [done|done|]. intros w Hexec. apply Hd in Hexec as Hq'. settle E.
Qed.

(** The lock holder runs until it unlocks; [clock] gives the instants it reads. *)
Fixpoint finish_apply (fuel : nat) (clock : nat → Z) (m : managed) : option managed :=
  match mg_pc m, fuel with
  | Unlocked, _ => Some m
  | _, O => None
  | _, S fuel =>
      match apply_step xxh64 sha256 definitions iterate legacy m (clock fuel) with
      | MDone m => finish_apply fuel clock m
      | _ => None
      end
  end.

Lemma finish_apply_total fuel clock m : manager_ok m → w_reaper (mg_world m) = None → (rank (mg_pc m) ≤ fuel)%nat →
  ∃ m', finish_apply fuel clock m = Some m' ∧ mg_pc m' = Unlocked ∧ w_reaper (mg_world m') = None ∧ decides m m'.
Proof.
  revert m. induction fuel as [|fuel IH]; intros m Hok Hq Hrank.
  - assert (Hpc : mg_pc m = Unlocked) by (destruct (mg_pc m); simpl in Hrank; [done|lia..]).
    exists m. simpl. rewrite Hpc. split; [done|]. split; [done|]. split; [done|by left].
  - assert (Hcase : mg_pc m = Unlocked ∨ mg_pc m ≠ Unlocked) by (destruct (mg_pc m); [by left|by right..]).
    destruct Hcase as [Hpc|Hpc].
    + exists m. simpl. rewrite Hpc. split; [done|]. split; [done|]. split; [done|by left].
    + pose proof (apply_progresses m (clock fuel) Hok Hq Hpc) as Hp.
      pose proof (mexec_good m (MApplyStep (clock fuel)) Hok) as Hg. cbn [mexec] in Hg.
      destruct (apply_step _ _ _ _ _ m _) as [| |m1] eqn:Estep; [done|done|]. destruct Hp as (Hr & Hq1 & Hd1).
      destruct (IH m1 Hg Hq1) as (m' & Hrun & Hpc' & Hq' & Hd'); [lia|]. exists m'.
      split; [|split; [done|split; [done|]]].
      * cbn [finish_apply]. rewrite Estep. destruct (mg_pc m); [done|exact Hrun..].
      * unfold decides in *. destruct Hd1 as [[Hu1 Ho1]|(n & e & Hu1 & Hn1 & Ho1)], Hd' as [[Hu' Ho']|(n' & e' & Hu' & Hn' & Ho')].
        -- left. split; congruence.
        -- right. exists n', e'. split; [congruence|]. split; [done|]. congruence.
        -- right. exists n, e. split; [done|]. split; congruence.
        -- congruence.
Qed.

(** C19: [Apply] terminates with a result: once a call has been admitted, the
    steps of its goroutine are enabled whenever the reaper is not at work, at
    most seven of them lead to its return, and they log exactly one result for
    its revision. A call in progress for [Close] finishes likewise. *)
Theorem apply_completes m clock : mreachable xxh64 sha256 definitions iterate legacy m → w_reaper (mg_world m) = None →
  ∃ m', finish_apply 7 clock m = Some m' ∧ mg_pc m' = Unlocked ∧
    (∀ revision resources, mg_pc m = ToPrepare revision resources →
       ∃ outcome, mg_outcomes m' = (revision, outcome) :: mg_outcomes m) ∧
    (upcoming (mg_pc m) = None → mg_outcomes m' = mg_outcomes m).
Proof.
  intros Hok%mreachable_ok Hq. destruct (finish_apply_total 7 clock m Hok Hq) as (m' & Hrun & Hpc & _ & Hd).
  { destruct (mg_pc m); simpl; lia. }
  exists m'. split; [done|]. split; [done|]. unfold decides in Hd. rewrite Hpc in Hd. split.
  - intros revision resources E. rewrite E in Hd. destruct Hd as [[? _]|(n & e & [= <-] & _ & Ho)]; [done|by exists e].
  - intros Hu. rewrite Hu in Hd. by destruct Hd as [[_ ?]|(n & e & ? & _)].
Qed.

(** ** Shutdown *)

Lemma closed_drains m : manager_ok m →
  mg_closed m = true → mg_pc m = Unlocked →
  (∀ l x, mg_leases m !! l = Some x → le_state x = LeaseReleased) →
  (∀ i l, w_leases (mg_world m) !! i = Some l → l_released l = true) → w_reaper (mg_world m) = None →
  ∃ w', run xxh64 sha256 (mg_world m) (reapNow (mg_world m)) = Some w' ∧
    r_tables (w_registry w') = emptyTables ∧ closeReady (statsLocked (w_registry w')) = true ∧ w_reaper w' = None.
Proof.
  intros [Hw Hm] Hclosed Hpc Hleases Htunnels Hq. apply drained_closes; [done| |done].
  destruct (mo_revisions _ _ _ Hm) as (_ & _ & _ & _ & Hnone). specialize (Hnone Hclosed). split; [| |done].
  - intros i s held Hi. assert (HC : cores (mg_world m) !! i = Some (set_plans s, set_retired s, held)) by (by rewrite lookup_fmap, Hi).
    split.
    + destruct (set_retired s) eqn:Hr; [done|]. assert (Hin : i ∈ unretired (mg_active m) (mg_pc m))
        by (apply (mo_retired _ _ _ Hm _ _ _ _ HC); done).
      rewrite Hnone, Hpc in Hin. by apply elem_of_nil in Hin.
    + rewrite (mo_held _ _ _ Hm _ _ _ _ HC), Hpc, map_sum_zero; [done|].
      intros l x Hl. unfold lease_ref. by rewrite (Hleases _ _ Hl).
  - intros j c Hj. destruct (c_done c) eqn:Hd; [done|].
    assert (Hp : pending (mg_pc m) = Some j).
    { apply (mo_pending _ _ _ Hm j (c_plans c)). rewrite lookup_fmap, Hj. simpl. unfold ccore. by rewrite Hd. }
    by rewrite Hpc in Hp.
Qed.

(** After [Close] has withdrawn the snapshot, once every lease and tunnel
    lease is released, nothing keeps the registry alive: the next reaper pass
    releases every runtime and lets the registry's [Close] return. *)
Theorem closed_manager_drains m : mreachable xxh64 sha256 definitions iterate legacy m →
  mg_closed m = true → mg_pc m = Unlocked →
  (∀ l x, mg_leases m !! l = Some x → le_state x = LeaseReleased) →
  (∀ i l, w_leases (mg_world m) !! i = Some l → l_released l = true) → w_reaper (mg_world m) = None →
  ∃ w', run xxh64 sha256 (mg_world m) (reapNow (mg_world m)) = Some w' ∧
    r_tables (w_registry w') = emptyTables ∧ closeReady (statsLocked (w_registry w')) = true.
Proof. intros Hok%mreachable_ok ? ? ? ? ?. destruct (closed_drains m Hok) as (w' & ? & ? & ? & _); [done..|]. by exists w'. Qed.

(** No interleaving of applies, closes, requests, the reaper, tunnels and
    health traffic makes a step of the manager panic. *)
Theorem manager_never_panics m e : mreachable xxh64 sha256 definitions iterate legacy m →
  mexec xxh64 sha256 definitions iterate legacy m e ≠ MPanicked.
Proof.
  intros Hok%mreachable_ok. pose proof (mexec_good m e Hok) as Hg. by destruct (mexec _ _ _ _ _ _ _).
Qed.
End Safe.
