(* ===== verification/ManagerFrame.v ===== *)
(** * What steps of the manager leave alone

    Leases appear only by an acquisition and end only by a release, and a
    closed manager whose registry is empty stays so. These are the facts the
    gateway's composition needs of every step. *)

From S2P Require Import Prelude GoStrings NetAddr Pattern Predicate Router Plugins Wrr HashKey Chash Url Resources X509 Fingerprint Health Budget RefTable Plan Registry RegistryTx.
From S2P Require Import Lifecycle LifecycleSafe DownstreamTLS Builder Manager ManagerSafe.
#[local] Open Scope Z_scope.
#[local] Open Scope list_scope.

(** Opens the definition of a step in [H : step = Done w'] and follows it to
    every place where it succeeds. *)
Ltac open_step H :=
  unfold exec_Prepare, exec_Commit, exec_Rollback, exec_TryAcquire, exec_Release, exec_Retire, exec_ReapBegin, exec_ReapCheck,
    exec_ReapFinish, exec_AcquireLease, exec_ReleaseLease, exec_Tail, on_plan, on, call, locked in H;
  repeat (case_match; simplify_eq/=); simplify_eq/=.

Section Registry.
Context (xxh64 : string → Z) (sha256 : string → string) `{Unicode}.

(** ** Tunnel leases *)

Definition unreleased (w : world) (i : nat) : Prop := ∃ l, w_leases w !! i = Some l ∧ l_released l = false.

Lemma lease_Release_done r l r' l' tl : lease_Release r l = Some (r', l', tl) → l_released l' = true.
Proof.
  unfold lease_Release. destruct (l_released l) eqn:E; [by intros [= _ <- _]|]. destruct (t_transports _ !! _) as [e|]; [|done].
  destruct (_ || _); [done|]. destruct (table_release _ _) as [[ts dropped]|]; [|done]. by intros [= _ <- _].
Qed.

Lemma exec_leases w e w' i : exec xxh64 sha256 w e = Done w' → unreleased w' i →
  unreleased w i ∨ ∃ key transport, e = EAcquireLease key transport ∧ i = w_next w.
Proof.
  intros He Hi. assert (Hcase : w_leases w' = w_leases w ∨ (∃ key transport, e = EAcquireLease key transport) ∨ ∃ j, e = EReleaseLease j).
  { destruct e; cbn [exec] in He; [..|right; left; eauto|right; right; eauto| | | | |]; left; by open_step He. }
  unfold unreleased in *. destruct Hcase as [Hl|[(key & transport & ->)|[j ->]]]; [rewrite Hl in Hi; by left|..]; cbn [exec] in He; open_step He.
  - destruct Hi as (l & [[<- _]|[_ Hl]]%lookup_insert_Some & Hr); [right|left]; eauto.
  - by left.
  - left. destruct Hi as (l' & [[<- <-]|[_ Hl]]%lookup_insert_Some & Hr); [|eauto].
    erewrite lease_Release_done in Hr by done. done.
Qed.

Lemma exec_ReleaseLease_done w i w' : exec xxh64 sha256 w (EReleaseLease i) = Done w' → ¬ unreleased w' i.
Proof.
  cbn [exec]. intros He (l & Hl & Hr). open_step He. rewrite lookup_insert_eq in Hl. injection Hl as ->.
  erewrite lease_Release_done in Hr by done. done.
Qed.

(** ** An empty registry *)

Lemma closeReady_empty r : closeReady (statsLocked r) = true → t_transports (r_tables r) = ∅ ∧ r_retired r = [].
Proof.
  unfold closeReady, statsLocked. cbn [LiveEndpoints LiveTransports LiveSelectionStates LiveHealthTrackers
    LiveRetryBudgets ActivePlanSets RetiredPlanSets LiveTunnelLeases].
  intros Hclose. repeat (apply andb_prop in Hclose as [Hclose ?]). rewrite !Z.eqb_eq in *. unfold msize, UpstreamConfig.zlen in *. split.
  - apply map_size_empty_inv. lia.
  - apply nil_length_inv. lia.
Qed.

(** While the test of [Close] succeeds and no candidate is prepared, committed,
    rolled back or retired, it goes on succeeding. *)
Lemma exec_ready w e w' : world_ok w → w_reaper w = None → closeReady (statsLocked (w_registry w)) = true →
  match e with EPrepare _ _ _ | ECommit _ | ERollback _ | ERetire _ => False | _ => True end →
  exec xxh64 sha256 w e = Done w' → w_reaper w' = None ∧ closeReady (statsLocked (w_registry w')) = true.
Proof.
  intros Hw Hq Hclose Hev He. pose proof (closeReady_unused w Hw Hclose Hq) as (_ & Hleases & _).
  destruct (closeReady_empty _ Hclose) as [Ht Hr].
  destruct e; try done; cbn [exec] in He.
  all: unfold exec_ReapBegin, exec_AcquireLease, exec_ReleaseLease, AcquireTunnelLease, locked in He; rewrite ?Hq, ?Ht, ?Hr, ?lookup_empty in He.
  all: try (open_step He; done).
  destruct (w_leases w !! lease) as [l|] eqn:Hl; [|done]. unfold lease_Release in He. simpl in He. rewrite (Hleases _ _ Hl) in He. by injection He as <-.
Qed.
End Registry.

(** ** Leases of the manager *)

Section Manager.
Context (xxh64 : string → Z) (sha256 : string → string) `{Unicode}.
Context {Q R : Type} (definitions : gmap string (@PluginDefinition Q R)).
Context (iterate : gmap string PluginAttachment → list string).
Context (legacy : option certificateProvider).
#[local] Abbreviation mexec := (mexec xxh64 sha256 definitions iterate legacy).
Implicit Types (m : @managed Q R).

Definition outstanding m (l : nat) : Prop := ∃ x, mg_leases m !! l = Some x ∧ le_state x ≠ LeaseReleased.

(** A step of the manager is a step of the registry, or leaves it alone; both
    may change what the manager itself holds. *)
Lemma on_registry_done m e k m' : on_registry xxh64 sha256 m e k = MDone m' → ∃ w, exec xxh64 sha256 (mg_world m) e = Done w ∧ k (with_world m w) = MDone m'.
Proof. unfold on_registry. destruct (exec _ _ _ _) as [| |w]; try done. by exists w. Qed.

Lemma mexec_world m e m' : mexec m e = MDone m' → mg_world m' = mg_world m ∨
  ∃ e', exec xxh64 sha256 (mg_world m) e' = Done (mg_world m') ∧
    ((∃ key transport, e' = EAcquireLease key transport) → e = MBackground e').
Proof.
  destruct e; cbn [Manager.mexec]; intros He.
  - unfold Apply in He. repeat case_match; simplify_eq/=; by left.
  - unfold apply_step in He. destruct (mg_pc m) eqn:Hpc; try done.
    + apply on_registry_done in He as (w & Hw & [= <-]). right. eexists. split; [case_match; exact Hw|]. by intros (? & ? & ?).
    + repeat case_match; simplify_eq/=; by left.
    + apply on_registry_done in He as (w & Hw & [= <-]). right. eexists. split; [case_match; exact Hw|]. by intros (? & ? & ?).
    + simplify_eq/=. by left.
    + apply on_registry_done in He as (w & Hw & [= <-]). right. eexists. split; [exact Hw|]. by intros (? & ? & ?).
    + apply on_registry_done in He as (w & Hw & [= <-]). right. eexists. split; [exact Hw|]. by intros (? & ? & ?).
    + apply on_registry_done in He as (w & Hw & [= <-]). right. eexists. split; [exact Hw|]. by intros (? & ? & ?).
  - unfold Close in He. repeat case_match; simplify_eq/=; by left.
  - case_match; [|done]. apply on_registry_done in He as (w & Hw & [= <-]). right. eexists. split; [exact Hw|]. by intros (? & ? & ?).
  - unfold Acquire in He. simplify_eq/=. by left.
  - unfold acquire_load in He. repeat case_match; simplify_eq/=; by left.
  - unfold acquire_try in He. destruct (mg_acquirers m !! a) as [[]|]; try done. destruct (w_sets _ !! _) as [[s h]|]; [|done].
    apply on_registry_done in He as (w & Hw & He). right. exists (ETryAcquire (pb_set p)). split; [|by intros (? & ? & ?)].
    destruct (TryAcquire s); simplify_eq/=; exact Hw.
  - unfold acquire_recheck in He. repeat case_match; simplify_eq/=; by left.
  - unfold lease_flag in He. repeat case_match; simplify_eq/=; by left.
  - unfold lease_drop in He. destruct (mg_leases m !! l) as [[p []]|]; try done.
    apply on_registry_done in He as (w & Hw & [= <-]). right. eexists. split; [exact Hw|]. by intros (? & ? & ?).
  - destruct (background e) eqn:Hb; [|done]. apply on_registry_done in He as (w & Hw & [= <-]). right. by exists e.
Qed.

Lemma mexec_unreleased m e m' i : mexec m e = MDone m' → unreleased (mg_world m') i →
  unreleased (mg_world m) i ∨ ∃ key transport, e = MBackground (EAcquireLease key transport) ∧ i = w_next (mg_world m).
Proof.
  intros [->|(e' & He' & Hback)]%mexec_world Hi; [by left|].
  destruct (exec_leases _ _ _ _ _ i He' Hi) as [?|(key & transport & -> & ->)]; [by left|right]. exists key, transport. split; [|done]. eauto.
Qed.

Lemma mexec_release m i m' : mexec m (MBackground (EReleaseLease i)) = MDone m' → ¬ unreleased (mg_world m') i.
Proof. cbn [Manager.mexec background]. intros (w & Hw & [= <-])%on_registry_done. by eapply exec_ReleaseLease_done. Qed.

(** ** What the manager holds *)

(** The events that change acquirers and leases. *)
Inductive holding m : mevent → managed → Prop :=
| holding_same e m' : mg_acquirers m' = mg_acquirers m → mg_leases m' = mg_leases m → holding m e m'
| holding_begin m' : mg_acquirers m' = <[mg_next m := Loading]> (mg_acquirers m) → mg_leases m' = mg_leases m → holding m MAcquire m'
| holding_goes_on e a x y m' : mg_acquirers m !! a = Some x → mg_acquirers m' = <[a := y]> (mg_acquirers m) →
    mg_leases m' = mg_leases m → holding m e m'
| holding_fails e a x m' : mg_acquirers m !! a = Some x → mg_acquirers m' = delete a (mg_acquirers m) →
    mg_leases m' = mg_leases m → holding m e m'
| holding_acquired e a x y m' : mg_acquirers m !! a = Some x → mg_acquirers m' = delete a (mg_acquirers m) →
    mg_leases m' = <[a := y]> (mg_leases m) → holding m e m'
| holding_flag l p m' : mg_leases m !! l = Some (mkManagerLease p LeaseHeld) → mg_acquirers m' = mg_acquirers m →
    mg_leases m' = <[l := mkManagerLease p LeaseDropping]> (mg_leases m) → holding m (MFlag l) m'
| holding_drop l p m' : mg_leases m !! l = Some (mkManagerLease p LeaseDropping) → mg_acquirers m' = mg_acquirers m →
    mg_leases m' = <[l := mkManagerLease p LeaseReleased]> (mg_leases m) → holding m (MDrop l) m'.

Lemma mexec_holding m e m' : mexec m e = MDone m' → holding m e m'.
Proof.
  destruct e; cbn [Manager.mexec]; intros He.
  - unfold Apply in He. repeat case_match; simplify_eq/=; by apply holding_same.
  - unfold apply_step in He. destruct (mg_pc m) eqn:Hpc; try done.
    all: try (apply on_registry_done in He as (w & Hw & [= <-]); first [case_match; by apply holding_same|by apply holding_same]).
    all: repeat case_match; simplify_eq/=; by apply holding_same.
  - unfold Close in He. repeat case_match; simplify_eq/=; by apply holding_same.
  - case_match; [|done]. apply on_registry_done in He as (w & Hw & [= <-]). by apply holding_same.
  - unfold Acquire in He. simplify_eq/=. by apply holding_begin.
  - unfold acquire_load in He. destruct (mg_acquirers m !! a) as [[]|] eqn:Ha; try done. injection He as <-.
    destruct (mg_active m); [by eapply holding_goes_on|by eapply holding_fails].
  - unfold acquire_try in He. destruct (mg_acquirers m !! a) as [[]|] eqn:Ha; try done. destruct (w_sets _ !! _) as [[s h]|]; [|done].
    apply on_registry_done in He as (w & Hw & He). destruct (TryAcquire s); injection He as <-; [by eapply holding_acquired|by eapply holding_goes_on].
  - unfold acquire_recheck in He. destruct (mg_acquirers m !! a) as [[]|] eqn:Ha; try done. injection He as <-.
    case_bool_decide; [by eapply holding_fails|by eapply holding_goes_on].
  - unfold lease_flag in He. destruct (mg_leases m !! l) as [[p []]|] eqn:Hl; try done; injection He as <-; [by eapply holding_flag|by apply holding_same..].
  - unfold lease_drop in He. destruct (mg_leases m !! l) as [[p []]|] eqn:Hl; try done.
    apply on_registry_done in He as (w & Hw & [= <-]). by eapply holding_drop.
  - destruct (background e) eqn:Hb; [|done]. apply on_registry_done in He as (w & Hw & [= <-]). by apply holding_same.
Qed.

Lemma mexec_acquirers m e m' a : mexec m e = MDone m' → is_Some (mg_acquirers m' !! a) →
  is_Some (mg_acquirers m !! a) ∨ e = MAcquire ∧ a = mg_next m.
Proof.
  intros He%mexec_holding. destruct He as [e m' -> _|m' -> _|e b x y m' Hb -> _|e b x m' Hb -> _|e b x y m' Hb -> _|l p m' _ -> _|l p m' _ -> _]; auto.
  - rewrite lookup_insert_is_Some. intros [->|[_ ?]]; auto.
  - rewrite lookup_insert_is_Some. intros [<-|[_ ?]]; eauto.
  - rewrite lookup_delete_is_Some. intros [_ ?]; auto.
  - rewrite lookup_delete_is_Some. intros [_ ?]; auto.
Qed.

Lemma mexec_outstanding m e m' l : mexec m e = MDone m' → outstanding m' l → outstanding m l ∨ is_Some (mg_acquirers m !! l).
Proof.
  intros He%mexec_holding (x & Hx & Hr). unfold outstanding.
  destruct He as [e m' _ Hl|m' _ Hl|e b z y m' Hb _ Hl|e b z m' Hb _ Hl|e b z y m' Hb _ Hl|l' p m' Hp _ Hl|l' p m' Hp _ Hl]; rewrite Hl in Hx; eauto.
  - rewrite lookup_insert_Some in Hx. destruct Hx as [[<- _]|[_ Hx]]; eauto.
  - rewrite lookup_insert_Some in Hx. destruct Hx as [[<- _]|[_ Hx]]; eauto.
  - rewrite lookup_insert_Some in Hx. destruct Hx as [[<- <-]|[_ Hx]]; eauto.
Qed.

Lemma mexec_dropped m l m' : mexec m (MDrop l) = MDone m' → ¬ outstanding m' l.
Proof.
  cbn [Manager.mexec]. unfold lease_drop. destruct (mg_leases m !! l) as [[p []]|]; try done.
  intros (w & _ & [= <-])%on_registry_done (x & Hx & Hr). simpl in Hx. rewrite lookup_insert_eq in Hx. injection Hx as <-. done.
Qed.

(** ** A closed manager *)

Lemma mexec_closed m e m' : mexec m e = MDone m' → mg_closed m = true → mg_closed m' = true.
Proof.
  intros He Hc. destruct e; cbn [Manager.mexec] in He.
  - unfold Apply in He. repeat case_match; by simplify_eq/=.
  - unfold apply_step in He. destruct (mg_pc m) eqn:Hpc; try done.
    all: try (apply on_registry_done in He as (w & Hw & [= <-]); first [done|case_match; done]).
    all: repeat case_match; by simplify_eq/=.
  - unfold Close in He. repeat case_match; by simplify_eq/=.
  - rewrite Hc in He. by apply on_registry_done in He as (w & Hw & [= <-]).
  - unfold Acquire in He. by simplify_eq/=.
  - unfold acquire_load in He. repeat case_match; by simplify_eq/=.
  - unfold acquire_try in He. destruct (mg_acquirers m !! a) as [[]|]; try done. destruct (w_sets _ !! _) as [[s h]|]; [|done].
    apply on_registry_done in He as (w & Hw & He). destruct (TryAcquire s); by simplify_eq/=.
  - unfold acquire_recheck in He. repeat case_match; by simplify_eq/=.
  - unfold lease_flag in He. repeat case_match; by simplify_eq/=.
  - unfold lease_drop in He. destruct (mg_leases m !! l) as [[p []]|]; try done. by apply on_registry_done in He as (w & Hw & [= <-]).
  - destruct (background e); [|done]. by apply on_registry_done in He as (w & Hw & [= <-]).
Qed.

(** [Apply] and [Close] have nothing more to do. *)
Definition idle m : Prop := mg_closed m = true ∧ mg_pc m = Unlocked.

Lemma closed_inactive m : manager_ok m → mg_closed m = true → mg_active m = None.
Proof. intros [_ Hm]. by destruct (mo_revisions _ _ _ Hm) as (_ & _ & _ & _ & ?). Qed.

Lemma mexec_idle m e m' : manager_ok m → idle m → mexec m e = MDone m' → idle m' ∧
  (mg_world m' = mg_world m ∨ ∃ e', exec xxh64 sha256 (mg_world m) e' = Done (mg_world m') ∧
    match e' with EPrepare _ _ _ | ECommit _ | ERollback _ | ERetire _ => False | _ => True end).
Proof.
  intros Hok [Hc Hpc] He. pose proof (mexec_closed _ _ _ He Hc) as Hc'. pose proof (closed_inactive _ Hok Hc) as Ha.
  unfold idle. rewrite Hc'. destruct e; cbn [Manager.mexec] in He.
  - unfold Apply in He. rewrite Hpc, Hc in He. injection He as <-. auto.
  - unfold apply_step in He. by rewrite Hpc in He.
  - unfold Close in He. rewrite Hpc, Ha in He. injection He as <-. auto.
  - rewrite Hc in He. apply on_registry_done in He as (w & Hw & [= <-]). split; [done|]. right. by exists EClose.
  - unfold Acquire in He. injection He as <-. auto.
  - unfold acquire_load in He. destruct (mg_acquirers m !! a) as [[]|]; try done. injection He as <-. auto.
  - unfold acquire_try in He. destruct (mg_acquirers m !! a) as [[]|]; try done. destruct (w_sets _ !! _) as [[s h]|]; [|done].
    apply on_registry_done in He as (w & Hw & He). destruct (TryAcquire s); injection He as <-; (split; [done|]; right; by eexists).
  - unfold acquire_recheck in He. destruct (mg_acquirers m !! a) as [[]|]; try done. injection He as <-. auto.
  - unfold lease_flag in He. repeat case_match; simplify_eq/=; auto.
  - unfold lease_drop in He. destruct (mg_leases m !! l) as [[p []]|]; try done.
    apply on_registry_done in He as (w & Hw & [= <-]). split; [done|]. right. by eexists.
  - destruct (background e) eqn:Hb; [|done]. apply on_registry_done in He as (w & Hw & [= <-]). split; [done|]. right. exists e.
    split; [done|]. by destruct e.
Qed.

(** The registry of a closed manager is empty. *)
Definition quiet m : Prop :=
  idle m ∧ w_reaper (mg_world m) = None ∧ closeReady (statsLocked (w_registry (mg_world m))) = true.

Lemma mexec_quiet m e m' : manager_ok m → quiet m → mexec m e = MDone m' → quiet m'.
Proof.
  intros Hok (Hi & Hq & Hr) He. destruct (mexec_idle _ _ _ Hok Hi He) as [Hi' [Hw|(e' & Hw & Hev)]]; (split; [done|]).
  - by rewrite Hw.
  - exact (exec_ready _ _ _ _ _ (proj1 Hok) Hq Hr Hev Hw).
Qed.

(** Nobody holds anything of it. *)
Lemma quiet_free m : manager_ok m → quiet m → mg_active m = None ∧ (∀ l, ¬ outstanding m l) ∧ ∀ i, ¬ unreleased (mg_world m) i.
Proof.
  intros Hok ([Hc Hpc] & Hq & Hr). pose proof (closed_inactive _ Hok Hc) as Ha. destruct Hok as [Hw Hm].
  destruct (closeReady_unused _ Hw Hr Hq) as (Hsets & Hleases & _). split_and!; [done| |].
  - intros l (x & Hx & Hs). destruct (mo_leases _ _ _ Hm _ _ Hx) as (plans & retired & held & HC & _).
    destruct (lookup_core _ _ _ HC) as (s & held' & Hin & [= -> -> ->]). destruct (Hsets _ _ _ Hin) as (_ & -> & _).
    pose proof (mo_held _ _ _ Hm _ _ _ _ HC) as Hheld. rewrite Hpc in Hheld. simpl in Hheld.
    pose proof (map_sum_elem_le (lease_ref (pb_set (le_published x))) _ _ _ (lease_ref_nonneg _) Hx) as Hle.
    unfold lease_ref at 1 in Hle. destruct (le_state x); [..|done]; rewrite decide_True in Hle by done; lia.
  - intros i (l & Hl & Hrel). rewrite (Hleases _ _ Hl) in Hrel. done.
Qed.
End Manager.
