(* ===== verification/ManagerExamples.v ===== *)
(** * Configuration and requests on a concrete gateway

    One revision is applied, a request leases it, a second revision replaces
    it, the gateway closes and drains; the theorems of the builder and of the
    manager are instantiated along this history. *)

From S2P Require Import Prelude GoStrings NetAddr Pattern Predicate Router RouterTrie RouterSearch RouterCorrect HttpHeader Plugins.
From S2P Require Import Apportion Wrr HashKey Chash Url Resources UpstreamConfig X509 Fingerprint Health Budget RefTable Plan Registry RegistryTx Lifecycle LifecycleSafe DownstreamTLS Builder Manager ManagerSafe.
#[local] Open Scope string_scope.
#[local] Open Scope Z_scope.
#[local] Open Scope list_scope.
#[local] Existing Instance ascii_only_unicode.

Definition inherit_socket : WebSocketPolicyOverride := mkWebSocketOverride None None.
Definition inherit_retry : RouteResiliencePolicy := mkResilience None None None None.

Definition users_route : Route :=
  mkRoute "users-route" 0 (mkRouteMatch [] "/users/{id}" ["GET"] [] []) "" "users" [] inherit_retry inherit_socket.
Definition demo_resources : ResourceSet := mkResourceSet [users_route] [] [demo_upstream] [] None [].

Definition no_hash (s : string) : Z := 0.
Definition no_digest (s : string) : string := s.
Definition no_plugins : gmap string (@PluginDefinition unit unit) := ∅.
Definition key_order (m : gmap string PluginAttachment) : list string := elements (dom m).

(** ** Building *)

Definition demo_candidate : option Candidate :=
  match Prepare no_hash no_digest demo_registry [demo_upstream] [] [] with
  | Some (_, _, Ok c) => Some c
  | _ => None
  end.

Definition demo_build : result BuildError (@Snapshot unit unit) :=
  Build no_plugins key_order None 0 1 demo_resources demo_candidate.

Definition demo_user : request := mkRequest "GET" "example.org" "/users/7" "" ∅ "".

Definition build_is_ok : bool := match demo_build with Ok _ => true | Err _ => false end.
Lemma demo_build_ok : build_is_ok = true.
Proof. vm_compute. reflexivity. Qed.

Lemma Build_well_formed_witness : ∃ snapshot, demo_build = Ok snapshot ∧ resources_wf demo_resources ∧
  sn_revision snapshot = 1.
Proof.
  pose proof demo_build_ok as Hok. unfold build_is_ok in Hok.
  destruct demo_build as [snapshot|] eqn:E; [|discriminate Hok]. unfold demo_build in E. exists snapshot.
  destruct (Build_well_formed no_plugins key_order None 0 1 demo_resources demo_candidate snapshot E) as (_ & Hwf & Hrev & _).
  split; [reflexivity|]. split; [exact Hwf|exact Hrev].
Defined.

Lemma snapshot_Match_exact_witness : ∃ snapshot res, demo_build = Ok snapshot ∧
  snapshot_Match snapshot demo_user = Some res.
Proof.
  pose proof demo_build_ok as Hok. unfold build_is_ok in Hok.
  destruct demo_build as [snapshot|] eqn:E; [|discriminate Hok]. unfold demo_build in E. exists snapshot.
  destruct (snapshot_Match_exact no_plugins key_order None 0 1 demo_resources demo_candidate snapshot demo_user E)
    as [(res & Hres & _) _].
  exists res. split; [reflexivity|exact Hres].
Defined.

(** ** A history *)

#[local] Abbreviation step := (mexec no_hash no_digest no_plugins key_order None).

Fixpoint mrun (m : @managed unit unit) (es : list mevent) : option managed :=
  match es with
  | [] => Some m
  | e :: es => match step m e with MDone m => mrun m es | _ => None end
  end.

Lemma mrun_reachable m es m' : mreachable no_hash no_digest no_plugins key_order None m → mrun m es = Some m' →
  mreachable no_hash no_digest no_plugins key_order None m'.
Proof.
  revert m. induction es as [|e es IH]; intros m Hm; cbn [mrun]; [by intros [= <-]|].
  destruct (step m e) eqn:E; [done|done|]. apply IH. by eapply mreach_step.
Qed.

Definition apply_revision (n : Z) (steps : nat) : list mevent := MApply n demo_resources :: replicate steps (MApplyStep 0).

(** A request leases revision 1, then revision 2 replaces it. *)
Definition history_leased : list mevent :=
  apply_revision 1 5 ++ [MAcquire; MLoad 0; MTry 0] ++ apply_revision 2 7.

(** A second request loads revision 2 while revision 3 is on its way. *)
Definition history_trying : list mevent := history_leased ++ [MAcquire; MLoad 1].

Definition history_closed : list mevent :=
  history_leased ++ [MFlag 0; MDrop 0; MClose; MApplyStep 0; MApplyStep 0; MCloseRegistry].

Definition start : @managed unit unit := NewManager demo_registry.

Lemma start_reachable : mreachable no_hash no_digest no_plugins key_order None start.
Proof. exact (mreach_initial _ _ _ _ _ 4 1 1 true demo_registry eq_refl). Qed.

Lemma history_reachable es m : mrun start es = Some m → mreachable no_hash no_digest no_plugins key_order None m.
Proof. apply mrun_reachable, start_reachable. Qed.

Definition is_held (o : option (@Lease unit unit)) : bool :=
  match o with Some (mkManagerLease _ LeaseHeld) => true | _ => false end.
Definition is_trying (m : @managed unit unit) (a : nat) : bool :=
  match mg_acquirers m !! a, mg_active m with
  | Some (Trying p), Some q => Nat.eqb (pb_set p) (pb_set q)
  | _, _ => false
  end.

Definition leased_ok : bool :=
  match mrun start history_leased with
  | Some m => is_held (mg_leases m !! 0%nat) && bool_decide (mg_revisions m = [2; 1])
  | None => false
  end.
Lemma leased_ok_true : leased_ok = true.
Proof. vm_compute. reflexivity. Qed.

#[local] Instance leaseState_eq_dec : EqDecision leaseState.
Proof. solve_decision. Defined.

Definition closed_ok : bool :=
  match mrun start history_closed with
  | Some m =>
      mg_closed m && match mg_pc m with Unlocked => true | _ => false end
      && bool_decide (map_Forall (fun _ x => le_state x = LeaseReleased) (mg_leases m))
      && bool_decide (w_leases (mg_world m) = ∅) && bool_decide (w_reaper (mg_world m) = None)
  | None => false
  end.
Lemma closed_ok_true : closed_ok = true.
Proof. vm_compute. reflexivity. Qed.

Lemma leased_routes_live_witness : ∃ m p, mrun start history_leased = Some m ∧
  mg_leases m !! 0%nat = Some (mkManagerLease p LeaseHeld) ∧
  Forall (route_live (mg_world m)) (sn_routes (pb_snapshot p)).
Proof.
  pose proof leased_ok_true as Hok. unfold leased_ok in Hok.
  destruct (mrun start history_leased) as [m|] eqn:E; [|discriminate Hok].
  destruct (mg_leases m !! 0%nat) as [[p []]|] eqn:Hl; try discriminate Hok.
  exists m, p. split; [reflexivity|]. split; [exact Hl|].
  exact (proj1 (proj1 (leased_routes_live no_hash no_digest no_plugins key_order None m (history_reachable _ _ E)) 0%nat p Hl)).
Defined.

Lemma revisions_increase_witness : ∃ m, mrun start history_leased = Some m ∧ descending (mg_revisions m).
Proof.
  pose proof leased_ok_true as Hok. unfold leased_ok in Hok.
  destruct (mrun start history_leased) as [m|] eqn:E; [|discriminate Hok].
  exists m. split; [reflexivity|].
  exact (proj1 (revisions_increase no_hash no_digest no_plugins key_order None m (history_reachable _ _ E))).
Defined.

Lemma manager_never_panics_witness : ∃ m, mrun start history_leased = Some m ∧ step m (MFlag 0) ≠ MPanicked.
Proof.
  pose proof leased_ok_true as Hok. unfold leased_ok in Hok.
  destruct (mrun start history_leased) as [m|] eqn:E; [|discriminate Hok].
  exists m. split; [reflexivity|].
  exact (manager_never_panics no_hash no_digest no_plugins key_order None m (MFlag 0) (history_reachable _ _ E)).
Defined.

Definition trying_ok : bool :=
  match mrun start history_trying with Some m => is_trying m 1 | None => false end.
Lemma trying_ok_true : trying_ok = true.
Proof. vm_compute. reflexivity. Qed.

Lemma acquire_reliable_witness : ∃ m, mrun start history_trying = Some m ∧ is_trying m 1 = true ∧
  ∀ p, mg_acquirers m !! 1%nat = Some (Rechecking p) → pb_set <$> mg_active m ≠ Some (pb_set p).
Proof.
  pose proof trying_ok_true as Hok. unfold trying_ok in Hok.
  destruct (mrun start history_trying) as [m|] eqn:E; [|discriminate Hok].
  exists m. split; [reflexivity|]. split; [exact Hok|].
  exact (proj1 (acquire_reliable no_hash no_digest no_plugins key_order None m 1 (history_reachable _ _ E))).
Defined.

Lemma closed_manager_drains_witness : ∃ m w', mrun start history_closed = Some m ∧
  run no_hash no_digest (mg_world m) (reapNow (mg_world m)) = Some w' ∧
  r_tables (w_registry w') = emptyTables ∧ closeReady (statsLocked (w_registry w')) = true.
Proof.
  pose proof closed_ok_true as Hok. unfold closed_ok in Hok.
  destruct (mrun start history_closed) as [m|] eqn:E; [|discriminate Hok].
  apply andb_prop in Hok as [Hok Hq]. apply andb_prop in Hok as [Hok Ht]. apply andb_prop in Hok as [Hok Hl].
  apply andb_prop in Hok as [Hc Hpc]. apply bool_decide_eq_true in Hq, Ht, Hl.
  assert (Hun : mg_pc m = Unlocked) by (destruct (mg_pc m); [reflexivity|discriminate Hpc..]).
  assert (Htun : ∀ i l, w_leases (mg_world m) !! i = Some l → l_released l = true)
    by (intros i l; rewrite Ht, lookup_empty; discriminate).
  destruct (closed_manager_drains no_hash no_digest no_plugins key_order None m (history_reachable _ _ E) Hc Hun Hl Htun Hq)
    as (w' & Hrun & Hempty & Hready).
  exists m, w'. split; [reflexivity|]. split; [exact Hrun|]. split; [exact Hempty|exact Hready].
Defined.

(** Revision 3 is admitted while revision 2 serves. *)
Definition history_admitted : list mevent := history_leased ++ [MApply 3 demo_resources].
Definition admitted_ok : bool :=
  match mrun start history_admitted with
  | Some m => bool_decide (w_reaper (mg_world m) = None) && match mg_pc m with ToPrepare 3 _ => true | _ => false end
  | None => false
  end.
Lemma admitted_ok_true : admitted_ok = true.
Proof. vm_compute. reflexivity. Qed.

Lemma apply_completes_witness : ∃ m m' outcome, mrun start history_admitted = Some m ∧
  finish_apply no_hash no_digest no_plugins key_order None 7 (fun _ => 0) m = Some m' ∧
  mg_outcomes m' = (3, outcome) :: mg_outcomes m.
Proof.
  pose proof admitted_ok_true as Hok. unfold admitted_ok in Hok.
  destruct (mrun start history_admitted) as [m|] eqn:E; [|discriminate Hok].
  apply andb_prop in Hok as [Hq Hpc]. apply bool_decide_eq_true in Hq.
  destruct (apply_completes no_hash no_digest no_plugins key_order None m (fun _ => 0) (history_reachable _ _ E) Hq)
    as (m' & Hrun & _ & Ho & _).
  assert (Hp : ∃ resources, mg_pc m = ToPrepare 3 resources).
  { destruct (mg_pc m) as [|n resources| | | | | |]; try discriminate Hpc. exists resources.
    destruct n as [|[[]|[]|]|]; first [discriminate Hpc | reflexivity]. }
  destruct Hp as [resources Hp]. destruct (Ho 3 resources Hp) as [outcome Hout].
  exists m, m', outcome. split; [reflexivity|]. split; [exact Hrun|exact Hout].
Defined.

(** A revision with a certificate policy, built within the validity period. *)
Definition tls_resources : ResourceSet :=
  mkResourceSet [users_route] [] [demo_upstream] DownstreamTLS.demo_materials (Some DownstreamTLS.demo_policy) [].
Definition history_tls : list mevent := MApply 1 tls_resources :: replicate 5 (MApplyStep 50).
Definition is_wildcard (o : option tlsCertificate * certificateSelection) : bool :=
  match o with (Some _, SelectionWildcard) => true | _ => false end.
Definition tls_ok : bool :=
  match mrun start history_tls with
  | Some m => is_wildcard (GetCertificate m (Some "API.example.com"))
  | None => false
  end.
Lemma tls_ok_true : tls_ok = true.
Proof. vm_compute. reflexivity. Qed.

