(* ===== verification/Commit.v ===== *)
(** * Committing an upgrade ([internal/proxy/websocket_commit.go])

    The controller that arbitrates between cancellation (the client's context,
    the total timeout) and the commit of a switching response. Its methods run
    under its mutex, each a step here; the handler calls [setPending] once it
    owns the connection and [finishCommit] after the flush, cancellations come
    at any time and in any order of their clock readings. *)

From S2P Require Import Prelude.
#[local] Open Scope Z_scope.
#[local] Open Scope list_scope.

(** [None] is the zero time. [cc_pending] tells whether a connection is pending,
    [cc_writeDeadline] is the write deadline it has, [cc_tunnelCanceled] the
    state of the tunnel's context. *)
Record controller := mkController {
  cc_totalDeadline : option Z;
  cc_canceledAt : option Z;
  cc_pending : bool;
  cc_committed : bool;
  cc_writeDeadline : option Z;
  cc_tunnelCanceled : bool;
}.

Definition newCommitController (totalDeadline : option Z) : controller := mkController totalDeadline None false false None false.

(** [at.Before(deadline)], true for the zero deadline. *)
Definition in_time (at_ : Z) (deadline : option Z) : bool := match deadline with Some d => at_ <? d | None => true end.

Definition cancelAt (c : controller) (at_ : Z) : controller :=
  if cc_committed c then c
  else
    let canceledAt := match cc_canceledAt c with None => Some at_ | some => some end in
    if cc_pending c then
      let writeDeadline := match cc_totalDeadline c with Some d => if d <? at_ then d else at_ | None => at_ end in
      mkController (cc_totalDeadline c) canceledAt true (cc_committed c) (Some writeDeadline) (cc_tunnelCanceled c)
    else mkController (cc_totalDeadline c) canceledAt false (cc_committed c) (cc_writeDeadline c) true.

Definition canContinue (c : controller) (requestErr : bool) (now : Z) : bool :=
  bool_decide (cc_canceledAt c = None) && negb (cc_tunnelCanceled c) && negb requestErr && in_time now (cc_totalDeadline c).

(** The answer, [None] for an error of [SetWriteDeadline], and the controller. *)
Definition setPending (c : controller) (requestErr : bool) (now : Z) (deadlineSet : bool) : option bool * controller :=
  if negb (canContinue c requestErr now) then (Some false, c)
  else
    match cc_totalDeadline c with
    | Some d =>
      if negb deadlineSet then (None, c)
      else (Some true, mkController (cc_totalDeadline c) (cc_canceledAt c) true (cc_committed c) (Some d) (cc_tunnelCanceled c))
    | None => (Some true, mkController (cc_totalDeadline c) (cc_canceledAt c) true (cc_committed c) (cc_writeDeadline c) (cc_tunnelCanceled c))
    end.

Definition finishCommit (c : controller) (flushedAt : Z) : bool * controller :=
  if negb (in_time flushedAt (cc_totalDeadline c)) || negb (in_time flushedAt (cc_canceledAt c)) then (false, c)
  else (true, mkController (cc_totalDeadline c) (cc_canceledAt c) false true
    (if cc_pending c then None else cc_writeDeadline c) (cc_tunnelCanceled c)).

(** ** One upgrade *)

(** How far the handler is. *)
Inductive stage := Preparing | Pending | Aborted | Committed (flushedAt : Z).

Inductive cevent := CCancel (at_ : Z) | CSetPending (requestErr : bool) (now : Z) (deadlineSet : bool) | CFinish (flushedAt : Z).

Definition cexec (s : stage * controller) (e : cevent) : option (stage * controller) :=
  let '(st, c) := s in
  match e, st with
  | CCancel at_, _ => Some (st, cancelAt c at_)
  | CSetPending requestErr now ok, Preparing =>
    let '(answer, c) := setPending c requestErr now ok in
    Some (match answer with Some true => Pending | _ => Aborted end, c)
  | CFinish flushedAt, Pending =>
    let '(ok, c) := finishCommit c flushedAt in Some (if ok then Committed flushedAt else Aborted, c)
  | _, _ => None
  end.

Inductive creachable : stage * controller → Prop :=
| creach_new totalDeadline : creachable (Preparing, newCommitController totalDeadline)
| creach_step s e s' : creachable s → cexec s e = Some s' → creachable s'.

(** The invariant: how the controller's fields go with the stage. *)
Definition commit_ok (s : stage * controller) : Prop :=
  let '(st, c) := s in
  match st with
  | Preparing | Aborted => cc_committed c = false ∧ (st = Preparing → cc_pending c = false)
  | Pending => cc_committed c = false ∧ cc_pending c = true ∧ cc_tunnelCanceled c = false ∧
      ∀ d, cc_totalDeadline c = Some d → ∃ w, cc_writeDeadline c = Some w ∧ w ≤ d
  | Committed t => cc_committed c = true ∧ cc_pending c = false ∧ cc_tunnelCanceled c = false ∧ cc_writeDeadline c = None ∧
      in_time t (cc_totalDeadline c) = true ∧ in_time t (cc_canceledAt c) = true
  end.

Lemma cancelAt_ok st c at_ : commit_ok (st, c) → commit_ok (st, cancelAt c at_).
Proof.
  intros Hok. unfold cancelAt. destruct (cc_committed c) eqn:Hc; [done|]. destruct st as [| | |t]; simpl in *.
  - destruct Hok as [_ Hp]. rewrite (Hp eq_refl). done.
  - destruct Hok as (_ & -> & -> & Hw). simpl. split_and!; try done. intros d Hd. rewrite Hd. eexists. split; [done|].
    destruct (Z.ltb_spec d at_); lia.
  - by destruct (cc_pending c).
  - destruct Hok as [? _]. congruence.
Qed.

Lemma cexec_ok s e s' : commit_ok s → cexec s e = Some s' → commit_ok s'.
Proof.
  destruct s as [st c]. intros Hok. destruct e as [at_|requestErr now ok|flushedAt]; simpl.
  - intros [= <-]. by apply cancelAt_ok.
  - destruct st; try done. unfold setPending. simpl in Hok. destruct Hok as [Hc Hp].
    destruct (canContinue c requestErr now) eqn:Hcan; cbn [negb]; [|intros [= <-]; done].
    unfold canContinue in Hcan. bool_hyps. destruct (cc_totalDeadline c) as [d|] eqn:Hd.
    + destruct ok; cbn [negb]; intros [= <-]; simpl; [|done]. split_and!; try done. intros d' [= <-]. by eexists.
    + intros [= <-]. simpl. split_and!; try done. 
  - destruct st; try done. unfold finishCommit. simpl in Hok. destruct Hok as (Hc & Hp & Ht & Hw).
    destruct (in_time flushedAt (cc_totalDeadline c)) eqn:H1; cbn [negb orb]; [|intros [= <-]; done].
    destruct (in_time flushedAt (cc_canceledAt c)) eqn:H2; cbn [negb]; [|intros [= <-]; done].
    intros [= <-]. rewrite Hp. simpl. by split_and!.
Qed.

Lemma creachable_ok s : creachable s → commit_ok s.
Proof. induction 1 as [d|s e s' _ IH He]; [done|by eapply cexec_ok]. Qed.

(** C22: Commit and cancellation exclude each other under every interleaving: a
    committed upgrade was flushed before the total deadline and before the
    first cancellation, its tunnel's context has not been canceled and no later
    cancellation has any effect on it, and its connection has no write deadline
    left. While the commit is pending, the connection never has a write
    deadline after the total one, and cancellation leaves the decision to the
    handler; a canceled upgrade that was not pending never becomes so. *)
Theorem commit_exclusive st c : creachable (st, c) →
  (∀ t, st = Committed t →
     (∀ d, cc_totalDeadline c = Some d → t < d) ∧ (∀ a, cc_canceledAt c = Some a → t < a) ∧
     cc_tunnelCanceled c = false ∧ cc_writeDeadline c = None ∧ ∀ at_, cancelAt c at_ = c) ∧
  (st = Pending → cc_tunnelCanceled c = false ∧ ∀ d, cc_totalDeadline c = Some d → ∃ w, cc_writeDeadline c = Some w ∧ w ≤ d) ∧
  (cc_tunnelCanceled c = true → ∀ requestErr now ok, (setPending c requestErr now ok).1 = Some false).
Proof.
  intros Hok%creachable_ok. split_and!.
  - intros t ->. destruct Hok as (Hc & _ & Ht & Hw & H1 & H2). split_and!; try done.
    + intros d Hd. rewrite Hd in H1. by apply Z.ltb_lt.
    + intros a Ha. rewrite Ha in H2. by apply Z.ltb_lt.
    + intros at_. unfold cancelAt. by rewrite Hc.
  - intros ->. by destruct Hok as (_ & _ & ? & ?).
  - intros Ht requestErr now ok. unfold setPending, canContinue. rewrite Ht. by rewrite andb_false_r.
Qed.

Fixpoint crun (s : stage * controller) (es : list cevent) : option (stage * controller) :=
  match es with [] => Some s | e :: es => match cexec s e with Some s => crun s es | None => None end end.

Lemma crun_reachable s es s' : creachable s → crun s es = Some s' → creachable s'.
Proof.
  revert s. induction es as [|e es IH]; intros s Hs; cbn [crun]; [by intros [= <-]|].
  destruct (cexec s e) eqn:E; [|done]. apply IH. by eapply creach_step.
Qed.

(** The client goes away just after the flush. *)
Definition demo_commit : list cevent := [CSetPending false 10 true; CCancel 21; CFinish 20; CCancel 30].

Lemma commit_exclusive_witness : ∃ c, crun (Preparing, newCommitController (Some 100)) demo_commit = Some (Committed 20, c) ∧
  cc_canceledAt c = Some 21 ∧ cc_tunnelCanceled c = false.
Proof.
  eexists. split; [reflexivity|]. split; [reflexivity|].
  exact (proj1 (proj2 (proj2 (proj1 (commit_exclusive (Committed 20) _
    (crun_reachable (Preparing, newCommitController (Some 100)) demo_commit _ (creach_new (Some 100)) eq_refl)) 20 eq_refl)))).
Defined.
