(* ===== verification/Handler.v ===== *)
(** * The proxy handler ([internal/proxy/handler.go], [websocket.go], [response_forward.go], [errors.go])

    [ServeHTTP], the upgrade path and the writing of responses, as programs:
    every call that reads or changes something outside the handler is an
    effect. Matching, handshake validation and the choice of the response are
    the definitions of the other files. *)

From S2P Require Import Prelude Effects GoErrors GoStrings NetAddr Pattern Predicate Router Wrr HashKey Chash Url Resources X509 Fingerprint Health Budget Plan Attempts.
From S2P Require Import HttpHeader ProxyHeaders WebSocket Session Plugins Builder.
#[local] Open Scope string_scope.
#[local] Open Scope Z_scope.
#[local] Open Scope list_scope.

(** ** Responses *)

Record failure := mkFailure { fl_status : Z; fl_code : string; fl_message : string }.

Definition gatewayNotReady : failure := mkFailure 503 "GATEWAY_NOT_READY" "gateway not ready".
Definition invalidRequest : failure := mkFailure 400 "INVALID_REQUEST" "invalid request".
Definition invalidQuery : failure := mkFailure 400 "INVALID_QUERY" "invalid query".
Definition methodNotAllowed : failure := mkFailure 405 "METHOD_NOT_ALLOWED" "method not allowed".
Definition routeNotFound : failure := mkFailure 404 "ROUTE_NOT_FOUND" "route not found".
Definition contextMissing : failure := mkFailure 500 "REQUEST_CONTEXT_MISSING" "request context missing".
Definition bodyTooLarge : failure := mkFailure 413 "REQUEST_BODY_TOO_LARGE" "request body too large".
Definition pluginRequestFailed : failure := mkFailure 500 "PLUGIN_REQUEST_FAILED" "request plugin failed".
Definition pluginResponseFailed : failure := mkFailure 500 "PLUGIN_RESPONSE_FAILED" "response plugin failed".
Definition invalidHandshake : failure := mkFailure 400 "INVALID_WEBSOCKET_HANDSHAKE" "invalid WebSocket handshake".
Definition connectionFailed : failure := mkFailure 502 "UPSTREAM_CONNECTION_FAILED" "upstream connection failed".
Definition upstreamUnhealthy : failure := mkFailure 503 "UPSTREAM_UNHEALTHY" "upstream unhealthy".
Definition upstreamTimeout : failure := mkFailure 504 "UPSTREAM_TIMEOUT" "upstream timeout".
Definition upstreamTLSFailed : failure := mkFailure 502 "UPSTREAM_TLS_FAILED" "upstream TLS failed".
Definition upstreamHandshakeInvalid : failure :=
  mkFailure 502 "UPSTREAM_WEBSOCKET_HANDSHAKE_INVALID" "upstream WebSocket handshake invalid".
Definition hijackUnsupported : failure := mkFailure 500 "DOWNSTREAM_HIJACK_UNSUPPORTED" "downstream hijack unsupported".
Definition gatewayDraining : failure := mkFailure 503 "GATEWAY_DRAINING" "gateway draining".

Definition quoted (s : string) : string := String (ascii_of_nat 34) (s +:+ String (ascii_of_nat 34) "").

(** The JSON body; the codes and messages above need no escapes. *)
Definition mustErrorBody (f : failure) : string :=
  "{" +:+ quoted "code" +:+ ":" +:+ quoted (fl_code f) +:+ "," +:+ quoted "message" +:+ ":" +:+ quoted (fl_message f) +:+ "}"
  +:+ String (ascii_of_nat 10) "".

(** A response on its way to the client; its body is known, or the stream the
    upstream sends. *)
Inductive bodySource := Bytes (body : string) | UpstreamBody.
Record response := mkResponse { rp_status : Z; rp_header : Header; rp_body : bodySource }.

Definition jsonHeader : Header := {["Content-Type" := ["application/json"]]}.

(** ** Upstream failures *)

Definition isUpstreamTimeout (err : goError) : bool := errors_Is err DeadlineExceeded || networkTimeout err.

Definition publicUpstreamErrorClass (err : goError) : string :=
  if errors_Is err NoHealthyEndpoint then "unhealthy"
  else if isUpstreamTimeout err then "timeout"
  else if IsTLSFailure err then "tls"
  else "connection".

(** The response for a failed exchange with the upstream. *)
Definition upstreamFailure (err : goError) : failure :=
  if errors_Is err NoHealthyEndpoint then upstreamUnhealthy
  else if isUpstreamTimeout err then upstreamTimeout
  else if IsTLSFailure err then upstreamTLSFailed
  else connectionFailed.

(** [errorLogLimiter.Allow]: the answer and the time of the next log. *)
Definition Allow (nextLog now : Z) : bool * Z := if now <? nextLog then (false, nextLog) else (true, now + 1000000000).

Definition is_responsePlugin (t : errType) : option unit := match t with ResponsePluginError => Some tt | _ => None end.
Definition is_responseStream (t : errType) : option unit := match t with ResponseStreamError => Some tt | _ => None end.
Definition is_maxBytes (t : errType) : option unit := match t with MaxBytesError => Some tt | _ => None end.

(** ** Requests *)

Record incoming := mkIncoming {
  in_url : bool;
  in_request : request;
  in_tls : bool;
  in_protoMajor : Z;
  in_protoMinor : Z;
  in_contentLength : Z;
  in_hasBody : bool;
  in_noBody : bool;
}.

(** What the handshake reads of it, with the header as plugins have left it. *)
Definition upgradeRequest (q : incoming) (header : Header) : wsRequest :=
  mkWsRequest (in_protoMajor q) (in_protoMinor q) (req_method (in_request q)) header (in_contentLength q)
    (in_hasBody q && negb (in_noBody q)).

Inductive contextState := ContextLive | ContextCanceled | ContextExpired.

(** ** Effects *)

Section Handler.
Context {Q R : Type}.

Inductive effect : Type → Type :=
| AcquireSnapshot : effect (option (@Snapshot Q R))
| ReleaseSnapshot : effect unit
| HasRequestState : effect bool
| EnterRoute (revision : Z) (route : @CompiledRoute Q R) (params : list ParamSpan) : effect unit
| RequestContextErr : effect contextState
| SetHeader (name value : string) : effect unit
| CopyHeaders (header : Header) : effect unit
| WriteStatus (status : Z) : effect unit
| WriteBody (body : bodySource) : effect bool
| AnnounceTrailers : effect unit
| CopyTrailers : effect unit
| RecordResponse (status : Z) (code : string) : effect unit
| RecordStatus (status : Z) : effect unit
| RecordError (code : string) : effect unit
| RunRequestHooks (route : @CompiledRoute Q R) : effect (result hookError (option ShortCircuitResponse) * (request * URL))
| RunResponseHooks (r : response) : effect (option hookError * response)
| LogAllowed : effect bool
| LogFailure (class : string) : effect unit
| ReverseProxy (r : request) (timeout : option Z) (bodyLimit : option Z) : effect unit
| Panic : effect unit
(* the upgrade path *)
| ObserveHandshake (result : string) : effect unit
| LinkClient : effect unit
| StartTimer (timeout : Z) : effect unit
| StopClientLink : effect unit
| StopTimer : effect unit
| CancelTunnel : effect unit
| ExecuteAttempts (attempts : calls) : effect (result goError (option reply))
| CloseBody : effect unit
| CanContinue : effect bool
| AcquireTunnelLease : effect bool
| ReleaseTunnelLease : effect unit
| Hijack : effect bool
| BodyIsStream : effect bool
| CloseWriters : effect (bool * bool * Z)
| SetWriteDeadline : effect bool
| ClearWriteDeadline : effect unit
| WriteHijacked (f : failure) : effect unit
| CloseConnection : effect unit
| SetPending : effect (option bool)
| SessionForceClose (reason : CloseReason) : effect unit
| RegisterTunnel : effect bool
| WriteHandshake (r : response) : effect bool
| FlushHandshake : effect bool
| FinishCommit : effect bool
| RollbackTunnel : effect unit
| ActivateTunnel : effect bool.

#[local] Abbreviation prog := (program effect).

(** ** Writing responses *)

(** [writeError] *)
Definition writeError (f : failure) : prog unit :=
  call (SetHeader "Content-Type" "application/json");; call (WriteStatus (fl_status f));;
  call (WriteBody (Bytes (mustErrorBody f)));; Ret tt.

Definition writeMatchedHTTPResponse (status : Z) (code : string) (headers : Header) (body : string) (runHooks : bool) : prog unit :=
  let synthetic := mkResponse status headers (Bytes body) in
  let emit (r : response) (code : string) :=
    call (RecordResponse (rp_status r) code);; call (CopyHeaders (rp_header r));;
    call (WriteStatus (rp_status r));; call (WriteBody (rp_body r));; Ret tt in
  if runHooks then
    '(err, synthetic) ← call (RunResponseHooks synthetic);
    match err with
    | Some _ => emit (mkResponse 500 jsonHeader (Bytes (mustErrorBody pluginResponseFailed))) "PLUGIN_RESPONSE_FAILED"
    | None => emit synthetic code
    end
  else emit synthetic code.

Definition writeMatchedResponse (f : failure) : prog unit :=
  writeMatchedHTTPResponse (fl_status f) (fl_code f) jsonHeader (mustErrorBody f) true.

Definition writeMatchedErrorWithoutHooks (f : failure) : prog unit :=
  writeMatchedHTTPResponse (fl_status f) (fl_code f) jsonHeader (mustErrorBody f) false.

Definition writeShortCircuit (r : ShortCircuitResponse) : prog unit :=
  writeMatchedHTTPResponse (sc_status r) (sc_code r) (sc_headers r) (sc_body r) true.

(** [handleProxyError]; [matched] tells whether the request has a route. *)
Definition handleProxyError (q : incoming) (matched : bool) (err : goError) : prog unit :=
  ctx ← call RequestContextErr;
  match ctx with
  | ContextCanceled => Ret tt
  | _ =>
    (if (in_protoMajor q =? 1) && negb (in_contentLength q =? 0) then call (SetHeader "Connection" "close") else Ret tt);;
    if GoErrors.found (errors_As is_responsePlugin err) then writeMatchedErrorWithoutHooks pluginResponseFailed
    else if GoErrors.found (errors_As is_maxBytes err) then
      if matched then writeMatchedResponse bodyTooLarge else writeError bodyTooLarge
    else
      allowed ← call LogAllowed;
      (if (allowed : bool) then call (LogFailure (publicUpstreamErrorClass err)) else Ret tt);;
      if matched then writeMatchedResponse (upstreamFailure err) else writeError (upstreamFailure err)
  end.

(** ** Upgrades *)

(** [forwardResponse] with its error; of a failed copy it is only asked that it
    is a [responseStreamError]. *)
Definition forwardResponse (r : reply) : prog (option goError) :=
  match ry_body r with
  | None => Ret (Some [mkErr [] None OtherError])
  | Some _ =>
    '(err, r) ← call (RunResponseHooks (mkResponse (ry_status r) (ry_header r) UpstreamBody));
    out ← match err with
      | Some _ => Ret (Some [mkErr [] None ResponsePluginError])
      | None =>
        call (CopyHeaders (removeHopByHopHeaders (rp_header r)));; call AnnounceTrailers;;
        if rp_status r <? 100 then Ret (Some [mkErr [] None OtherError])
        else
          call (RecordStatus (rp_status r));; call (WriteStatus (rp_status r));;
          copied ← call (WriteBody (rp_body r));
          if negb copied then Ret (Some [mkErr [] None ResponseStreamError])
          else call CopyTrailers;; Ret None
      end;
    call CloseBody;; Ret out
  end.

Definition handleForwardResponseError (q : incoming) (err : goError) : prog unit :=
  if GoErrors.found (errors_As is_responsePlugin err) then
    call (ObserveHandshake "plugin_failure");; writeMatchedErrorWithoutHooks pluginResponseFailed
  else if GoErrors.found (errors_As is_responseStream err) then call (RecordError "UPSTREAM_RESPONSE_STREAM_FAILED")
  else handleProxyError q true err.

Definition writeWebSocketUpstreamError (err : goError) : prog unit := writeMatchedResponse (upstreamFailure err).

Definition downstreamEndpoint (closeWrite : bool) : Endpoint := mkEndpoint true true true closeWrite.
Definition upstreamEndpoint (closeWrite : bool) : Endpoint := mkEndpoint true true true closeWrite.

Context `{Unicode} (sha1 : string → string).

(** The upstream's answer as the handshake sees it. *)
Definition wsReply (r : reply) : wsResponse := mkWsResponse (ry_status r) (ry_header r).

Definition refusedSwitch (captured : RequestHandshake) (response : option reply) (err : option goError) : bool :=
  match err, response with
  | None, Some r => (ry_status r =? 101) && negb (is_ok (ValidateResponse sha1 captured (Some (wsReply r))))
  | _, _ => false
  end.

Definition classifyWebSocketAttempt (captured : RequestHandshake) : classifier :=
  mkClassifier
    (fun policy response err =>
      if refusedSwitch captured response err
      then mkDecision (ro_connectionFailure (rp_retryOn policy)) retryReasonConnectionFailure
        (mkObservation SourcePassive OutcomeTransportFailure 0)
      else classifyAttempt policy response err)
    (fun policy response err =>
      if refusedSwitch captured response err && ro_connectionFailure (rp_retryOn policy) then response ≫= ry_body else None).

Definition fail (result : string) (p : prog unit) : prog bool := call (ObserveHandshake result);; p;; Ret false.

(** Errors after the hijack go to the connection; what its writes return is ignored. *)
Definition writeHijackedError (f : failure) : prog unit :=
  call (RecordResponse (fl_status f) (fl_code f));; call (WriteHijacked f).

Definition writeHijackedErrorBounded (f : failure) : prog unit :=
  bounded ← call SetWriteDeadline;
  if negb bounded then Ret tt else writeHijackedError f;; call ClearWriteDeadline.

(** The part of [serveWebSocket] after the connection has been hijacked, with
    the response to send; the result tells whether the tunnel runs. *)
Definition commitUpgrade (tunnels : bool) (idle : Z) (timed : bool) (r : response) : prog bool :=
  stream ← call BodyIsStream;
  if negb stream then
    call ReleaseTunnelLease;; call CloseBody;; writeHijackedError upstreamHandshakeInvalid;;
    call CloseConnection;; call (ObserveHandshake "upstream_failure");; Ret false
  else
    '(down, up, now) ← call CloseWriters;
    match NewSession (downstreamEndpoint down) (upstreamEndpoint up) idle now with
    | None =>
      call ReleaseTunnelLease;; call CloseBody;; writeHijackedError hijackUnsupported;;
      call CloseConnection;; call (ObserveHandshake "upstream_failure");; Ret false
    | Some _ =>
      pending ← call SetPending;
      match pending with
      | None =>
        call (SessionForceClose ReasonIOError);; call ReleaseTunnelLease;; call (ObserveHandshake "upstream_failure");; Ret false
      | Some false =>
        call (SessionForceClose ReasonShutdown);; call ReleaseTunnelLease;; call (ObserveHandshake "upstream_failure");; Ret false
      | Some true =>
        registered ← (if tunnels then call RegisterTunnel else Ret false);
        if negb registered then
          call (ObserveHandshake "draining");; writeHijackedErrorBounded gatewayDraining;;
          call (SessionForceClose ReasonShutdown);; call ReleaseTunnelLease;; Ret false
        else
          written ← call (WriteHandshake r);
          if negb written then call (SessionForceClose ReasonIOError);; call RollbackTunnel;; Ret false
          else
            flushed ← call FlushHandshake;
            if negb flushed then call (SessionForceClose ReasonIOError);; call RollbackTunnel;; Ret false
            else
              call StopClientLink;; (if timed then call StopTimer else Ret tt);;
              finished ← call FinishCommit;
              if negb finished then
                call (SessionForceClose ReasonShutdown);; call RollbackTunnel;; call (ObserveHandshake "upstream_failure");; Ret false
              else
                call (RecordStatus 101);;
                active ← call ActivateTunnel;
                if negb active then call (SessionForceClose ReasonShutdown);; call (ObserveHandshake "draining");; Ret false
                else call (ObserveHandshake "success");; Ret true
      end
    end.

(** The part with the upstream's answer, up to the hijack. *)
Definition acceptUpgrade (tunnels : bool) (idle : Z) (timed : bool) (q : incoming) (captured : RequestHandshake) (r : reply) : prog bool :=
  if negb (ry_status r =? 101) then
    call (ObserveHandshake "upstream_rejected");;
    err ← forwardResponse r;
    match err with Some err => handleForwardResponseError q err;; Ret false | None => Ret false end
  else
    match ValidateResponse sha1 captured (Some (wsReply r)) with
    | Err _ => call CloseBody;; fail "upstream_failure" (writeMatchedResponse upstreamHandshakeInvalid)
    | Ok negotiated =>
      '(err, r) ← call (RunResponseHooks (mkResponse (ry_status r) (ry_header r) UpstreamBody));
      match err with
      | Some _ => call CloseBody;; fail "plugin_failure" (writeMatchedErrorWithoutHooks pluginResponseFailed)
      | None =>
        match ValidateFinalResponse negotiated (Some (mkWsResponse (rp_status r) (rp_header r))) with
        | Some _ => call CloseBody;; fail "plugin_failure" (writeMatchedErrorWithoutHooks pluginResponseFailed)
        | None =>
          continue ← call CanContinue;
          if negb continue then
            call CloseBody;; call (ObserveHandshake "upstream_failure");;
            ctx ← call RequestContextErr;
            match ctx with
            | ContextLive => writeMatchedErrorWithoutHooks upstreamTimeout;; Ret false
            | _ => Ret false
            end
          else
            leased ← call AcquireTunnelLease;
            if negb leased then call CloseBody;; fail "upstream_failure" (writeMatchedErrorWithoutHooks connectionFailed)
            else
              hijacked ← call Hijack;
              if negb hijacked then
                call ReleaseTunnelLease;; call CloseBody;; fail "upstream_failure" (writeMatchedErrorWithoutHooks hijackUnsupported)
              else commitUpgrade tunnels idle timed r
        end
      end
    end.

(** The attempt state of a request that has made no attempt. *)
Definition freshState : attemptState := mkAttemptState 0 None "" "".

(** [serveWebSocket]; [tunnels] tells whether the handler has a registry. *)
Definition serveWebSocket (tunnels : bool) (q : incoming) (route : @CompiledRoute Q R) : prog unit :=
  match ValidateRequest (upgradeRequest q (req_header (in_request q))) with
  | Err _ => call (ObserveHandshake "invalid_request");; writeMatchedResponse invalidHandshake
  | Ok captured =>
    '(result, (r, url)) ← call (RunRequestHooks route);
    match result with
    | Err _ => call (ObserveHandshake "plugin_failure");; writeMatchedResponse pluginRequestFailed
    | Ok (Some sc) => call (ObserveHandshake "plugin_failure");; writeShortCircuit sc
    | Ok None =>
      let mutated := ValidateRequest (mkWsRequest (in_protoMajor q) (in_protoMinor q) (req_method r) (req_header r) (in_contentLength q)
        (in_hasBody q && negb (in_noBody q))) in
      if negb (match mutated with Ok mutated => handshake_Equal captured mutated | Err _ => false end)
      then call (ObserveHandshake "plugin_failure");; writeMatchedResponse pluginRequestFailed
      else
        let timeout := rp_totalTimeout (cr_retry route) in
        let timed := 0 <? timeout in
        call LinkClient;; (if timed then call (StartTimer timeout) else Ret tt);;
        let header := wsOutboundHeader (req_header r) r (in_tls q) captured in
        let outbound := mkOutgoing (mkRequest (req_method r) (req_host r) (req_path r) (req_rawQuery r) header (req_remoteAddr r)) url NoBody in
        answer ← call (ExecuteAttempts (executeAttempts (classifyWebSocketAttempt captured) (cr_retry route) outbound freshState));
        committed ← match answer with
          | Err err => fail "upstream_failure" (writeWebSocketUpstreamError err)
          | Ok None => fail "upstream_failure" (writeMatchedResponse connectionFailed)
          | Ok (Some reply) => acceptUpgrade tunnels (ws_idleTimeout (cr_websocket route)) timed q captured reply
          end;
        if (committed : bool) then Ret tt
        else call StopClientLink;; (if timed then call StopTimer else Ret tt);; call CancelTunnel
    end
  end.

(** ** [ServeHTTP] *)

Definition join_allow (methods : list string) : string := String.concat ", " methods.

Section Serve.
Context (tunnels : bool) (maxRequestBodyBytes : Z) (q : incoming).

Definition serveRoute (revision : Z) (route : @CompiledRoute Q R) (params : list ParamSpan) : prog unit :=
  hasState ← call HasRequestState;
  if negb hasState then writeError contextMissing
  else
    call (EnterRoute revision route params);;
    if wsCandidate (req_header (in_request q)) && ws_enabled (cr_websocket route) then serveWebSocket tunnels q route
    else if maxRequestBodyBytes <? in_contentLength q then writeMatchedResponse bodyTooLarge
    else
      '(result, (r, _)) ← call (RunRequestHooks route);
      match result with
      | Err _ => writeMatchedResponse pluginRequestFailed
      | Ok (Some sc) => writeShortCircuit sc
      | Ok None =>
        let timeout := rp_totalTimeout (cr_retry route) in
        call (ReverseProxy r (if 0 <? timeout then Some timeout else None) (if in_hasBody q then Some maxRequestBodyBytes else None))
      end.

Definition serveLeased (snapshot : @Snapshot Q R) : prog unit :=
  let r := in_request q in
  if negb (in_url q) || negb (has_prefix (req_path r) "/") || String.eqb (req_method r) "" then writeError invalidRequest
  else
    match snapshot_Match snapshot r with
    | None => call Panic
    | Some (Err (MatchQuery _)) => writeError invalidQuery
    | Some (Err _) => writeError invalidRequest
    | Some (Ok m) =>
      if negb (m_found m) then
        if m_methodNotAllowed m then call (SetHeader "Allow" (join_allow (m_allow m)));; writeError methodNotAllowed
        else writeError routeNotFound
      else
        match m_route m with
        | None => call Panic
        | Some route => serveRoute (sn_revision snapshot) route (m_params m)
        end
    end.

Definition ServeHTTP : prog unit :=
  lease ← call AcquireSnapshot;
  match lease with
  | None => writeError gatewayNotReady
  | Some snapshot => serveLeased snapshot;; call ReleaseSnapshot
  end.
End Serve.
End Handler.
