(* ===== verification/Telemetry.v ===== *)
(** * Telemetry ([internal/telemetry/{telemetry,websocket}.go])

    Which Prometheus series the gateway touches. An observation becomes a list
    of calls on series, each a metric family with the values of its labels; the
    series of the bounded families are bound once, in arrays, and an observation
    looks its index up. The registry of the Prometheus client, the encoding of
    the exposition and profiling are library code. Durations are nanoseconds. *)

From S2P Require Import Prelude GoErrors GoStrings NetAddr Pattern Predicate Router Plugins.
From S2P Require Import HashKey Url Resources X509 DownstreamTLS Registry Session Tunnel Builder.
#[local] Open Scope string_scope.
#[local] Open Scope Z_scope.
#[local] Open Scope list_scope.

(** A series: a family and the values of its labels. *)
Record series := mkSeries { sr_family : string; sr_labels : list string }.
#[global] Instance series_eq_dec : EqDecision series.
Proof. solve_decision. Defined.

(** A call on a counter, gauge or histogram. *)
Inductive metricCall :=
| Inc (s : series)
| Dec (s : series)
| Add (s : series) (value : Z)
| SetGauge (s : series) (value : Z)
| ObserveDuration (s : series) (duration : Z).

(** The families, with the namespace and the subsystem. *)
Definition tlsHandshake : string := "gateway_upstream_tls_handshake_total".
Definition tlsFailures : string := "gateway_upstream_tls_failure_total".
Definition transportLifecycle : string := "gateway_upstream_transport_generation_total".
Definition downstreamSelections : string := "gateway_downstream_tls_certificate_selections_total".
Definition webSocketHandshakes : string := "gateway_websocket_handshakes_total".
Definition webSocketClosed : string := "gateway_websocket_tunnels_closed_total".
Definition webSocketBytes : string := "gateway_websocket_bytes_total".
Definition webSocketActive : series := mkSeries "gateway_websocket_active_tunnels" [].
Definition webSocketDuration : series := mkSeries "gateway_websocket_tunnel_duration_seconds" [].
Definition snapshotApplyTotal : string := "gateway_runtime_snapshot_apply_total".
Definition snapshotApplyDuration : series := mkSeries "gateway_runtime_snapshot_apply_duration_seconds" [].
Definition registryResources : string := "gateway_upstream_registry_resources_total".
Definition gauge (family : string) : series := mkSeries family [].
Definition requestsTotal : string := "gateway_http_requests_total".
Definition requestDuration : string := "gateway_http_request_duration_seconds".
Definition balancerSelections : string := "gateway_upstream_balancer_selections_total".
Definition hashFallbacks : string := "gateway_upstream_hash_fallback_total".

(** ** Indices of the bound series *)

Definition tlsResultIndex (result : string) : option nat :=
  if String.eqb result "success" then Some 0%nat else if String.eqb result "failure" then Some 1%nat else None.

Definition tlsModeIndex (mode : string) : option nat :=
  if String.eqb mode "server_auth" then Some 0%nat else if String.eqb mode "mtls" then Some 1%nat else None.

Definition transportProtocolIndex (protocol : string) : option nat :=
  if String.eqb protocol TransportProtocolAuto then Some 0%nat
  else if String.eqb protocol TransportProtocolHTTP1 then Some 1%nat
  else if String.eqb protocol TransportProtocolHTTP2 then Some 2%nat
  else None.

Definition transportActionIndex (action : string) : option nat :=
  if String.eqb action "create" then Some 0%nat
  else if String.eqb action "reuse" then Some 1%nat
  else if String.eqb action "retire" then Some 2%nat
  else None.

Definition downstreamTLSSelectionIndex (selection : certificateSelection) : option nat :=
  match selection with
  | SelectionExact => Some 0%nat
  | SelectionWildcard => Some 1%nat
  | SelectionDefault => Some 2%nat
  | SelectionError => Some 3%nat
  end.

Definition tlsFailureIndex (class : TLSFailureClass) : option nat :=
  match class with
  | TLSFailureTrust => Some 0%nat
  | TLSFailureHostname => Some 1%nat
  | TLSFailureClientIdentity => Some 2%nat
  | TLSFailureProtocol => Some 3%nat
  | TLSFailureHandshake => Some 4%nat
  end.

Definition webSocketHandshakeIndex (result : string) : option nat :=
  if String.eqb result "success" then Some 0%nat
  else if String.eqb result "invalid_request" then Some 1%nat
  else if String.eqb result "upstream_rejected" then Some 2%nat
  else if String.eqb result "upstream_failure" then Some 3%nat
  else if String.eqb result "plugin_failure" then Some 4%nat
  else if String.eqb result "draining" then Some 5%nat
  else None.

(** The zero [CloseReason] is no reason. *)
Definition webSocketCloseReasonIndex (reason : option CloseReason) : option nat :=
  match reason with
  | Some ReasonClientEOF => Some 0%nat
  | Some ReasonUpstreamEOF => Some 1%nat
  | Some ReasonIdleTimeout => Some 2%nat
  | Some ReasonShutdown => Some 3%nat
  | Some ReasonIOError => Some 4%nat
  | None => None
  end.

Definition webSocketDirectionIndex (direction : Direction) : option nat :=
  match direction with
  | DirectionDownstreamToUpstream => Some 0%nat
  | DirectionUpstreamToDownstream => Some 1%nat
  end.

(** ** The bound series, in the order [New] binds them *)

Definition boundHandshakeResults : list string :=
  ["success"; "invalid_request"; "upstream_rejected"; "upstream_failure"; "plugin_failure"; "draining"].
Definition boundCloseReasons : list string := ["client_eof"; "upstream_eof"; "idle_timeout"; "shutdown"; "io_error"].
Definition boundDirections : list string := ["downstream_to_upstream"; "upstream_to_downstream"].
Definition boundSelections : list string := ["exact"; "wildcard"; "default"; "error"].
Definition boundFailureClasses : list string := ["trust"; "hostname"; "client_identity"; "protocol"; "handshake"].
Definition boundTLSResults : list string := ["success"; "failure"].
Definition boundTLSModes : list string := ["server_auth"; "mtls"].
Definition boundProtocols : list string := ["auto"; "http1"; "http2"].
Definition boundActions : list string := ["create"; "reuse"; "retire"].
Definition boundTLSLabels : list string := ["false"; "true"].

(** The element of a one-dimensional array of series. *)
Definition bound1 (family : string) (labels : list string) (index : nat) : option series :=
  label ← labels !! index; Some (mkSeries family [label]).

(** The element of a three-dimensional array. *)
Definition bound3 (family : string) (a b c : list string) (i j k : nat) : option series :=
  x ← a !! i; y ← b !! j; z ← c !! k; Some (mkSeries family [x; y; z]).

(** A call on an array element; there is none outside the array. *)
Definition on (s : option series) (f : series → metricCall) : list metricCall :=
  match s with Some s => [f s] | None => [] end.

(** ** Observations *)

Definition ObserveWebSocketHandshake (result : string) : list metricCall :=
  match webSocketHandshakeIndex result with
  | None => []
  | Some index => on (bound1 webSocketHandshakes boundHandshakeResults index) Inc
  end.

Definition telemetry_TunnelOpened : list metricCall := [Inc webSocketActive].

Definition telemetry_TunnelBytes (direction : Direction) (count : Z) : list metricCall :=
  match webSocketDirectionIndex direction with
  | None => []
  | Some index => on (bound1 webSocketBytes boundDirections index) (fun s => Add s count)
  end.

Definition telemetry_TunnelClosed (result : tunnelResult) : list metricCall :=
  match webSocketCloseReasonIndex (rs_Reason <$> result) with
  | None => []
  | Some index =>
      [Dec webSocketActive] ++ on (bound1 webSocketClosed boundCloseReasons index) Inc
      ++ [ObserveDuration webSocketDuration (default 0 (rs_Duration <$> result))]
  end.

Definition DownstreamTLSSelection (selection : certificateSelection) : list metricCall :=
  match downstreamTLSSelectionIndex selection with
  | None => []
  | Some index => on (bound1 downstreamSelections boundSelections index) Inc
  end.

Definition TLSHandshake (result mode protocol : string) : list metricCall :=
  match tlsResultIndex result with
  | None => []
  | Some resultIndex =>
    match tlsModeIndex mode with
    | None => []
    | Some modeIndex =>
      match transportProtocolIndex protocol with
      | None => []
      | Some protocolIndex =>
        on (bound3 tlsHandshake boundTLSResults boundTLSModes boundProtocols resultIndex modeIndex protocolIndex) Inc
      end
    end
  end.

Definition TLSFailure (class : TLSFailureClass) : list metricCall :=
  match tlsFailureIndex class with
  | None => []
  | Some index => on (bound1 tlsFailures boundFailureClasses index) Inc
  end.

Definition addTransportGeneration (delta : TransportGenerationDelta) : list metricCall :=
  match transportActionIndex (d_action delta) with
  | None => []
  | Some actionIndex =>
    if d_count delta <=? 0 then []
    else
      match transportProtocolIndex (d_protocol delta) with
      | None => []
      | Some protocolIndex =>
        let tlsIndex := if d_tls delta then 1%nat else 0%nat in
        on (bound3 transportLifecycle boundActions boundTLSLabels boundProtocols actionIndex tlsIndex protocolIndex)
          (fun s => Add s (d_count delta))
      end
  end.

Definition addTransportGenerations (deltas : list TransportGenerationDelta) : list metricCall :=
  deltas ≫= addTransportGeneration.

Definition setRegistryStats (stats : RegistryStats) : list metricCall :=
  [SetGauge (gauge "gateway_upstream_live_endpoints") (LiveEndpoints stats);
   SetGauge (gauge "gateway_upstream_live_transports") (LiveTransports stats);
   SetGauge (gauge "gateway_upstream_live_selection_states") (LiveSelectionStates stats);
   SetGauge (gauge "gateway_runtime_retired_snapshots") (RetiredPlanSets stats)].

Definition zeroRegistryStats : RegistryStats := mkRegistryStats 0 0 0 0 0 0 0 0.

(** The notifications of the upstream registry; telemetry ignores its errors. *)
Definition registryObserved (n : notification) : list metricCall :=
  match n with
  | RegistryPrepared stats =>
      let resource action kind c := Add (mkSeries registryResources [action; kind]) (ps_count stats c) in
      [resource "created" "endpoint" CreatedEndpoints; resource "reused" "endpoint" ReusedEndpoints;
       resource "created" "transport" CreatedTransports; resource "reused" "transport" ReusedTransports;
       resource "created" "selection_state" CreatedSelections; resource "reused" "selection_state" ReusedSelections]
      ++ addTransportGenerations (ps_transportGenerations stats) ++ setRegistryStats (default zeroRegistryStats (ps_current stats))
  | RegistryRolledBack stats =>
      [Inc (gauge "gateway_upstream_registry_rollbacks_total")]
      ++ addTransportGenerations (ps_transportGenerations stats) ++ setRegistryStats (default zeroRegistryStats (ps_current stats))
  | RegistryRetired stats => setRegistryStats stats
  | RegistryCleaned stats current =>
      [Add (mkSeries registryResources ["released"; "endpoint"]) (ReleasedEndpoints stats);
       Add (mkSeries registryResources ["released"; "transport"]) (ReleasedTransports stats);
       Add (gauge "gateway_upstream_transport_cleanup_total") (ClosedTransports stats)]
      ++ addTransportGenerations (cs_transportGenerations stats) ++ setRegistryStats current
  | RegistryError _ => []
  end.

(** [SnapshotApplied]: the calls and the new [downstreamExpiryUnixNano]; the
    zero time is 0. *)
Definition SnapshotApplied (stats : SnapshotStats) (buildDuration : Z) : list metricCall * Z :=
  let d := st_downstream stats in
  ([SetGauge (gauge "gateway_runtime_active_revision") (st_revision stats);
    SetGauge (gauge "gateway_runtime_compiled_routes") (Z.of_nat (st_routeCount stats));
    SetGauge (gauge "gateway_runtime_compiled_services") (Z.of_nat (st_serviceCount stats));
    SetGauge (gauge "gateway_runtime_compiled_plugins") (Z.of_nat (st_pluginCount stats));
    SetGauge (gauge "gateway_downstream_tls_active_certificates") (Z.of_nat (ss_certificateCount d));
    SetGauge (gauge "gateway_downstream_tls_exact_bindings") (Z.of_nat (ss_exactCount d));
    SetGauge (gauge "gateway_downstream_tls_wildcard_bindings") (Z.of_nat (ss_wildcardCount d));
    ObserveDuration snapshotApplyDuration buildDuration;
    Inc (mkSeries snapshotApplyTotal ["applied"; ""; ""])], ss_earliestExpiry d).

Definition stage_string (stage : BuildStage) : string :=
  match stage with
  | StageValidate => "validate" | StageResolve => "resolve" | StagePlugin => "plugin_compile" | StageRouter => "router_compile"
  end.

Definition SnapshotRejected (buildErr : option BuildError) (duration : Z) : list metricCall :=
  let '(stage, code) :=
    match buildErr with Some e => (stage_string (be_stage e), be_code e) | None => ("", "") end in
  [ObserveDuration snapshotApplyDuration duration; Inc (mkSeries snapshotApplyTotal ["rejected"; stage; code])].

(** The gauge of the earliest certificate expiry, in nanoseconds. *)
Definition downstreamExpiry (expiresAt now : Z) : Z := if expiresAt =? 0 then 0 else Z.max 0 (expiresAt - now).

(** What the tunnel registry announces. *)
Definition tunnelObserved (e : tunnelEvent) : list metricCall :=
  match e with
  | TunnelOpened _ => telemetry_TunnelOpened
  | TunnelBytes _ down up =>
      telemetry_TunnelBytes DirectionDownstreamToUpstream down ++ telemetry_TunnelBytes DirectionUpstreamToDownstream up
  | TunnelClosed _ result => telemetry_TunnelClosed result
  | LeaseReleased _ | ForceClosed _ => []
  end.

(** ** Requests *)

(** [metricsResponseWriter] *)
Definition writer_WriteHeader (status code : Z) : Z := if (200 <=? code) && (status =? 0) then code else status.
Definition writer_Write (status : Z) : Z := if status =? 0 then 200 else status.
Definition writer_statusCode (status : Z) : Z := if status =? 0 then 200 else status.

(** What a handler does with the writer. *)
Inductive writeCall := HeaderCall (code : Z) | BodyCall.

Definition writerAfter (calls : list writeCall) : Z :=
  foldl (fun status c => match c with HeaderCall code => writer_WriteHeader status code | BodyCall => writer_Write status end)
    0 calls.

(** The parts of the request context that telemetry reads once the handler has
    returned; [rc_selection] is the balancer of a valid selection and whether
    its hash key was the fallback. *)
Record requestContext := mkRequestContext {
  rc_responseCode : Z;
  rc_route : option string;
  rc_upstream : option string;
  rc_selection : option (string * bool);
}.

(** An identifier that is set and not empty. *)
Definition identified (id : option string) : option string :=
  match id with Some id => if String.eqb id "" then None else Some id | None => None end.

(** What [Wrap] records after [next] has served a request; [requestMetricsEnabled]
    is fixed when telemetry is constructed. *)
Definition Wrap (requestMetricsEnabled : bool) (method : string) (calls : list writeCall) (state : option requestContext)
    (elapsed : Z) : list metricCall :=
  if negb requestMetricsEnabled then [] else
  let status := writer_statusCode (writerAfter calls) in
  let status := if bool_decide (rc_responseCode <$> state = Some 101) then 101 else status in
  let statusClass := pretty (Z.quot status 100) +:+ "xx" in
  let routeID := default "__unmatched__" (state ≫= fun state => identified (rc_route state)) in
  let labels := [routeID; method; statusClass] in
  [Inc (mkSeries requestsTotal labels); ObserveDuration (mkSeries requestDuration labels) elapsed]
  ++ match state with
     | None => []
     | Some state =>
       match identified (rc_upstream state), rc_selection state with
       | Some upstreamID, Some (balancer, fallback) =>
           [Inc (mkSeries balancerSelections [upstreamID; balancer])]
           ++ (if (fallback : bool) then [Inc (mkSeries hashFallbacks [upstreamID])] else [])
       | _, _ => []
       end
     end.

(** The readiness endpoint: status and body. *)
Definition readyz (ready : bool) : Z * string :=
  if negb ready then (503, "not ready" +:+ String (ascii_of_N 10) "") else (200, "ready" +:+ String (ascii_of_N 10) "").
