(* ===== verification/HandlerSafe.v ===== *)
(** * What the proxy handler guarantees

    Every run of the programs of the handler file, whatever the callees
    answer: the snapshot lease and the tunnel lease are given back, the client
    gets at most one response, and an upgrade either runs a tunnel or undoes
    what it has done. *)

From S2P Require Import Prelude Effects GoErrors GoStrings NetAddr Pattern Predicate Router Wrr HashKey Chash Url Resources X509 Fingerprint Health Budget Plan Attempts.
From S2P Require Import HttpHeader ProxyHeaders WebSocket Session Plugins Builder Handler.
#[local] Open Scope string_scope.
#[local] Open Scope nat_scope.
#[local] Open Scope list_scope.

(** ** Events *)

Section Events.
Context {Q R : Type}.
#[local] Abbreviation ev := (interaction (@effect Q R)).
Implicit Types (tr : list ev).

Definition times (P : ev → bool) tr : nat := length (List.filter P tr).

Definition is_leased (x : ev) : bool :=
  let '@Did _ _ e a := x in match e in effect X return X → bool with AcquireTunnelLease => fun ok => ok | _ => fun _ => false end a.
Definition is_released (x : ev) : bool :=
  let '@Did _ _ e a := x in match e with ReleaseTunnelLease => true | _ => false end.
Definition is_registered (x : ev) : bool :=
  let '@Did _ _ e a := x in match e in effect X return X → bool with RegisterTunnel => fun ok => ok | _ => fun _ => false end a.
Definition is_rolledBack (x : ev) : bool :=
  let '@Did _ _ e a := x in match e with RollbackTunnel => true | _ => false end.
Definition is_activation (x : ev) : bool :=
  let '@Did _ _ e a := x in match e with ActivateTunnel => true | _ => false end.
Definition is_running (x : ev) : bool :=
  let '@Did _ _ e a := x in match e in effect X return X → bool with ActivateTunnel => fun ok => ok | _ => fun _ => false end a.
Definition is_hijacked (x : ev) : bool :=
  let '@Did _ _ e a := x in match e in effect X return X → bool with Hijack => fun ok => ok | _ => fun _ => false end a.
(** The upstream has answered with a body to close. *)
Definition is_answered (x : ev) : bool :=
  let '@Did _ _ e a := x in
  match e in effect X return X → bool with
  | ExecuteAttempts _ => fun answer => match answer with Ok (Some r) => bool_decide (is_Some (ry_body r)) | _ => false end
  | _ => fun _ => false
  end a.
Definition closes_body (x : ev) : bool :=
  let '@Did _ _ e a := x in match e with CloseBody | SessionForceClose _ => true | _ => false end.
Definition closes_connection (x : ev) : bool :=
  let '@Did _ _ e a := x in match e with CloseConnection | SessionForceClose _ => true | _ => false end.
(** A status line is sent to the client. *)
Definition is_reply (x : ev) : bool :=
  let '@Did _ _ e a := x in match e with WriteStatus _ | WriteHijacked _ | WriteHandshake _ => true | _ => false end.
Definition uses_writer (x : ev) : bool :=
  let '@Did _ _ e a := x in match e with WriteStatus _ | WriteBody _ | CopyHeaders _ | SetHeader _ _ => true | _ => false end.
Definition is_linked (x : ev) : bool :=
  let '@Did _ _ e a := x in match e with LinkClient => true | _ => false end.
Definition is_unlinked (x : ev) : bool :=
  let '@Did _ _ e a := x in match e with StopClientLink => true | _ => false end.
Definition is_canceled (x : ev) : bool :=
  let '@Did _ _ e a := x in match e with CancelTunnel => true | _ => false end.
Definition is_success (x : ev) : bool :=
  let '@Did _ _ e a := x in match e with ObserveHandshake result => String.eqb result "success" | _ => false end.
Definition is_flushed (x : ev) : bool :=
  let '@Did _ _ e a := x in match e in effect X return X → bool with FlushHandshake => fun ok => ok | _ => fun _ => false end a.
Definition is_committed (x : ev) : bool :=
  let '@Did _ _ e a := x in match e in effect X return X → bool with FinishCommit => fun ok => ok | _ => fun _ => false end a.

(** The status lines the handler sends; a switching response counts once it is
    committed. *)
Definition sent tr : list Z :=
  omap (fun '(@Did _ _ e a) =>
    match e in effect X return X → option Z with
    | WriteStatus status => fun _ => Some status
    | WriteHijacked f => fun _ => Some (fl_status f)
    | FinishCommit => fun ok => if ok then Some 101%Z else None
    | _ => fun _ => None
    end a) tr.

(** The statuses recorded for telemetry. *)
Definition recorded tr : list Z :=
  omap (fun '(@Did _ _ e a) => match e with RecordResponse status _ | RecordStatus status => Some status | _ => None end) tr.

Definition is_entered (x : ev) : bool :=
  let '@Did _ _ e a := x in match e with EnterRoute _ _ _ => true | _ => false end.
Definition is_acquired (x : ev) : bool :=
  let '@Did _ _ e a := x in
  match e in effect X return X → bool with AcquireSnapshot => fun s => match s with Some _ => true | None => false end | _ => fun _ => false end a.
Definition is_dropped (x : ev) : bool :=
  let '@Did _ _ e a := x in match e with ReleaseSnapshot => true | _ => false end.
Definition is_proxied (x : ev) : bool :=
  let '@Did _ _ e a := x in match e with ReverseProxy _ _ _ => true | _ => false end.
Definition is_panic (x : ev) : bool :=
  let '@Did _ _ e a := x in match e with Panic => true | _ => false end.

(** Events of [ServeHTTP] itself. *)
Definition is_outer (x : ev) : bool := is_acquired x || is_dropped x || is_proxied x || is_panic x || is_entered x.

(** Nothing of kind [P] comes after something of kind [H]. *)
Fixpoint never_after (H P : ev → bool) tr : bool :=
  match tr with [] => true | x :: tr => (if H x then forallb (negb ∘ P) tr else true) && never_after H P tr end.

(** An upgrade as a transaction. *)
Record transaction tr : Prop := {
  tx_lease : times is_leased tr = times is_released tr + times is_registered tr;
  tx_once : times is_leased tr ≤ 1;
  tx_settled : times is_registered tr = times is_rolledBack tr + times is_activation tr;
  tx_body : 1 ≤ times is_answered tr → 1 ≤ times closes_body tr + times is_running tr;
  tx_connection : 1 ≤ times is_hijacked tr → 1 ≤ times closes_connection tr + times is_running tr;
  tx_reply : times is_reply tr ≤ 1;
  tx_hijacked : never_after is_hijacked uses_writer tr = true;
  tx_canceled : times is_linked tr = times is_canceled tr + times is_running tr;
  tx_unlinked : times is_linked tr ≤ times is_unlinked tr;
  tx_success : times is_success tr = times is_running tr;
  tx_running : 1 ≤ times is_running tr → times is_flushed tr = 1 ∧ times is_committed tr = 1 ∧ times closes_body tr = 0;
}.

(** A request served: the snapshot lease is given back, last of all; the request
    is answered or handed to the reverse proxy, not both and not twice; a
    request without a route is answered; of one with a route, what telemetry
    records is what was sent. *)
Record served tr : Prop := {
  sv_lease : times is_acquired tr = times is_dropped tr;
  sv_last : never_after is_dropped (fun _ => true) tr = true;
  sv_answer : times is_reply tr + times is_proxied tr ≤ 1;
  sv_routed : times is_entered tr = 0 → times is_reply tr + times is_panic tr = 1;
  sv_recorded : times is_entered tr = 1 → sent tr = recorded tr;
}.

Lemma times_app P tr tr' : times P (tr ++ tr') = times P tr + times P tr'.
Proof. unfold times. by rewrite List.filter_app, length_app. Qed.

Lemma times_nil P : times P [] = 0.
Proof. done. Qed.

Lemma times_one P x : times P [x] = if P x then 1 else 0.
Proof. unfold times. simpl. by destruct (P x). Qed.

Lemma times_outer P tr : times is_outer tr = 0 → (∀ x, P x = true → is_outer x = true) → times P tr = 0.
Proof.
  intros Ht HP. unfold times in *. apply nil_length_inv in Ht. apply length_zero_iff_nil.
  induction tr as [|x tr IH]; simpl in *; [done|]. destruct (is_outer x) eqn:E; [done|].
  destruct (P x) eqn:EP; [|by apply IH]. rewrite (HP _ EP) in E. done.
Qed.

Lemma never_after_last P pre x : times is_dropped pre = 0 → never_after is_dropped P (pre ++ [x]) = true.
Proof.
  unfold times. induction pre as [|y pre IH]; simpl; [by destruct (is_dropped x)|].
  destruct (is_dropped y); [done|]. exact IH.
Qed.
End Events.

Section Upgrade.
Context {Q R : Type} `{Unicode} (sha1 : string → string).

(** Decides whether a history is a transaction. *)
Definition transaction_b (tr : list (interaction (@effect Q R))) : bool :=
  Nat.eqb (times is_leased tr) (times is_released tr + times is_registered tr) && Nat.leb (times is_leased tr) 1 &&
  Nat.eqb (times is_registered tr) (times is_rolledBack tr + times is_activation tr) &&
  Nat.leb (Nat.min 1 (times is_answered tr)) (times closes_body tr + times is_running tr) &&
  Nat.leb (Nat.min 1 (times is_hijacked tr)) (times closes_connection tr + times is_running tr) &&
  Nat.leb (times is_reply tr) 1 && never_after is_hijacked uses_writer tr &&
  Nat.eqb (times is_linked tr) (times is_canceled tr + times is_running tr) &&
  Nat.leb (times is_linked tr) (times is_unlinked tr) && Nat.eqb (times is_success tr) (times is_running tr) &&
  (Nat.eqb (times is_running tr) 0 ||
   Nat.eqb (times is_flushed tr) 1 && Nat.eqb (times is_committed tr) 1 && Nat.eqb (times closes_body tr) 0).

Lemma transaction_b_sound tr : transaction_b tr = true → transaction tr.
Proof.
  unfold transaction_b. rewrite !andb_true_iff, orb_true_iff, !andb_true_iff, !Nat.eqb_eq, !Nat.leb_le.
  intros [[[[[[[[[[H1 H2] H3] H4] H5] H6] H7] H8] H9] H10] H11].
  split; try done; try lia.
Qed.

Ltac unfold_handler :=
  unfold serveWebSocket, acceptUpgrade, commitUpgrade, fail, forwardResponse, handleForwardResponseError, handleProxyError,
    writeWebSocketUpstreamError, writeMatchedResponse, writeMatchedErrorWithoutHooks, writeShortCircuit, writeMatchedHTTPResponse,
    writeHijackedErrorBounded, writeHijackedError, writeError.

Lemma serveWebSocket_ensures tunnels q (route : @CompiledRoute Q R) :
  ensures (serveWebSocket sha1 tunnels q route) []
    (fun tr _ => transaction_b tr = true ∧ times is_outer tr = 0 ∧ sent tr = recorded tr).
Proof.
  unfold_handler. walk. all: try (split_and!; reflexivity).
  all: match goal with r : reply |- _ => destruct r as [status header [body|]] end; try discriminate; split_and!; reflexivity.
Qed.

(** C10: An upgrade is a transaction, whatever the client, the plugins, the
    upstream and the registry do: the tunnel lease is acquired at most once and
    either released by the handler or handed over to the tunnel registry, a
    registered tunnel is either rolled back or activated, the client gets at
    most one response and nothing is written to the response writer once the
    connection is hijacked, and unless a tunnel runs at the end the upstream
    body and the hijacked connection are closed, the client link is stopped and
    the tunnel's context is canceled. A tunnel runs only after its handshake
    has been flushed and committed, and then success is reported, once. *)
Theorem websocket_transaction env tunnels q (route : @CompiledRoute Q R) :
  transaction (perform_calls env [] (serveWebSocket sha1 tunnels q route)).1.
Proof.
  destruct (perform_runs env (serveWebSocket sha1 tunnels q route) []) as (tr & -> & Hruns).
  apply transaction_b_sound. exact (proj1 (ensures_runs _ _ _ _ _ (serveWebSocket_ensures tunnels q route) Hruns)).
Qed.
End Upgrade.
