(* ===== verification/ServeSafe.v ===== *)
(** * What [ServeHTTP] guarantees

    Every run of [ServeHTTP], whatever the callees answer, and its routing
    decisions for a snapshot the builder has made. *)

From S2P Require Import Prelude Effects GoErrors GoStrings NetAddr Pattern Predicate Router RouterTrie RouterSearch RouterCorrect Wrr HashKey Chash Url Resources.
From S2P Require Import X509 Fingerprint Health Budget RefTable Plan Attempts HttpHeader ProxyHeaders WebSocket Session Plugins Registry DownstreamTLS Builder Handler HandlerSafe.
#[local] Open Scope string_scope.
#[local] Open Scope nat_scope.
#[local] Open Scope list_scope.

Section Requests.
Context {Q R : Type} `{Unicode} (sha1 : string → string).

(** What [ServeHTTP] does between acquiring the snapshot and releasing it. *)
Record leased_ok (tr : list (interaction (@effect Q R))) : Prop := {
  lo_outer : times is_dropped tr = 0 ∧ times is_acquired tr = 0;
  lo_answer : times is_reply tr + times is_proxied tr ≤ 1;
  lo_routed : times is_entered tr = 0 → times is_reply tr + times is_panic tr = 1;
  lo_recorded : times is_entered tr = 1 → sent tr = recorded tr;
}.

Ltac leaf := split; [split; reflexivity|apply Nat.leb_le; reflexivity|try done; reflexivity|try done; reflexivity].

Lemma serveRoute_ensures tunnels limit q revision (route : @CompiledRoute Q R) params :
  ensures (serveRoute sha1 tunnels limit q revision route params) [] (fun tr _ => leased_ok tr).
Proof.
  unfold serveRoute, writeShortCircuit, writeMatchedResponse, writeMatchedHTTPResponse, writeError. walk. all: try leaf.
  eapply ensures_mono; [apply ensures_after, serveWebSocket_ensures|]. intros tr _ (own & -> & Ht & Ho & Hs).
  pose proof (tx_reply _ (transaction_b_sound _ Ht)) as Hr.
  assert (Hz : ∀ P, (∀ x, P x = true → is_outer x = true) → times P own = 0) by (intros P; by apply times_outer).
  split; rewrite ?times_app; simpl.
  - split; apply Hz; intros y Hy; unfold is_outer; rewrite Hy; by rewrite ?orb_true_r.
  - rewrite (Hz is_proxied); [lia|]. intros y Hy. unfold is_outer. rewrite Hy. by rewrite ?orb_true_r.
  - done.
  - intros _. exact Hs.
Qed.

Lemma serveLeased_ensures tunnels limit q (snapshot : @Snapshot Q R) :
  ensures (serveLeased sha1 tunnels limit q snapshot) [] (fun tr _ => leased_ok tr).
Proof. unfold serveLeased, writeError. walk. all: try leaf. apply serveRoute_ensures. Qed.


(** ** Routing *)

Context (definitions : gmap string (@PluginDefinition Q R)).
Context (iterate : gmap string PluginAttachment → list string).
Context (legacy : option certificateProvider) (now : Z).

(** The events after which the handler's own decisions are made. *)
Definition plainAnswer (f : failure) (before : list (interaction (@effect Q R))) (tr : list (interaction (@effect Q R))) : Prop :=
  ∃ x y z, tr = before ++ [Did (SetHeader "Content-Type" "application/json") x; Did (WriteStatus (fl_status f)) y;
    Did (WriteBody (Bytes (mustErrorBody f))) z].

Definition wellFormed (q : incoming) : bool :=
  in_url q && has_prefix (req_path (in_request q)) "/" && negb (String.eqb (req_method (in_request q)) "").

(** C8: Against the snapshot of an accepted resource set, every well-formed
    request is routed as the precedence reference over the route resources
    prescribes, without a panic: to the compiled route of the winner, with its
    captured parameters; else with 405 and the methods its path allows; else
    with 404. *)
Theorem request_routed revision resources candidate snapshot q tunnels limit tr host query :
  Build definitions iterate legacy now revision resources candidate = Ok snapshot →
  runs (serveLeased sha1 tunnels limit q snapshot) tr tt → wellFormed q = true →
  NormalizeRequestHost (req_host (in_request q)) = Ok host → scanRawQuery (req_rawQuery (in_request q)) = Ok query →
  let reference := reference_match (in_request q) query (candidates_for (imap routeSpec (rs_routes resources)) host) in
  if Found reference then
    ∃ route compiled, rs_routes resources !! Z.to_nat (RouteIndex reference) = Some route ∧
      sn_routes snapshot !! Z.to_nat (RouteIndex reference) = Some compiled ∧ cr_meta compiled = rt_id route ∧
      runs (serveRoute sha1 tunnels limit q revision compiled (Params reference)) tr tt
  else if MethodNotAllowed reference then
    ∃ x, plainAnswer methodNotAllowed [Did (SetHeader "Allow" (join_allow (Router.Allow reference))) x] tr
  else plainAnswer routeNotFound [] tr.
Proof.
  intros Hbuild Hrun Hq Hhost Hquery reference.
  destruct (Build_ok _ _ _ _ _ _ _ _ Hbuild) as (_ & _ & c & _ & Hrev & Hrouter & _).
  pose proof (Match_is_reference _ _ (in_request q) host query Hrouter Hhost Hquery) as Hm. fold reference in Hm.
  destruct (snapshot_Match_total _ _ _ _ _ _ _ _ _ _ Hbuild Hm) as [Hindex Htotal]. clear Hm.
  unfold wellFormed in Hq. apply andb_true_iff in Hq as [[Hu Hp]%andb_true_iff Hmeth%negb_true_iff].
  unfold serveLeased in Hrun. rewrite Hu, Hp, Hmeth, Htotal in Hrun. cbn [negb orb m_found m_methodNotAllowed m_route m_params m_allow] in Hrun.
  destruct (Found reference); cbn [negb] in Hrun.
  - destruct (Hindex eq_refl) as (route & compiled & Hr & Hc & Hid). rewrite Hc, Hrev in Hrun. by exists route, compiled.
  - destruct (MethodNotAllowed reference).
    + destruct Hrun as (x & ? & -> & x1 & ? & -> & x2 & ? & -> & x3 & ? & -> & -> & _). exists x. by exists x1, x2, x3.
    + destruct Hrun as (x1 & ? & -> & x2 & ? & -> & x3 & ? & -> & -> & _). by exists x1, x2, x3.
Qed.
End Requests.
