(* ===== verification/ServeExamples.v ===== *)
(** * A request on a concrete gateway

    The routing theorem of the handler applied to the snapshot of the example
    resources, for a request to one of their routes. *)

From S2P Require Import Prelude Effects GoErrors GoStrings NetAddr Pattern Predicate Router RouterTrie RouterSearch RouterCorrect HttpHeader Plugins.
From S2P Require Import Apportion Wrr HashKey Chash Url Resources X509 Fingerprint Plan Attempts Session DownstreamTLS Builder ManagerExamples Handler HandlerSafe ServeSafe.
#[local] Open Scope string_scope.
#[local] Open Scope Z_scope.
#[local] Open Scope list_scope.
#[local] Existing Instance ascii_only_unicode.

Definition demo_incoming : incoming := mkIncoming true demo_user false 1 1 0 false false.

(** Callees of a gateway with a request context, whose plugins pass and whose
    other answers are negative. *)
Definition demo_callees : @callees (@effect unit unit) :=
  fun X _ e => match e in effect X return X with
    | AcquireSnapshot => None
    | HasRequestState => true
    | RequestContextErr => ContextLive
    | RunRequestHooks _ => (Ok None, (demo_user, mkURL "" "" false "" "" "" "" ""))
    | RunResponseHooks r => (None, r)
    | ExecuteAttempts _ => Ok None
    | CloseWriters => (false, false, 0)
    | SetPending => None
    | WriteBody _ | LogAllowed | CanContinue | AcquireTunnelLease | Hijack | BodyIsStream | SetWriteDeadline
    | RegisterTunnel | WriteHandshake _ | FlushHandshake | FinishCommit | ActivateTunnel => false
    | _ => tt
    end.

Lemma request_routed_witness : ∃ snapshot tr route (compiled : @CompiledRoute unit unit), demo_build = Ok snapshot ∧
  rs_routes demo_resources !! 0%nat = Some route ∧ cr_meta compiled = rt_id route ∧
  runs (serveRoute no_digest false 1024 demo_incoming 1 compiled [mkSpan "id" 7 8]) tr tt.
Proof.
  pose proof demo_build_ok as Hok. unfold build_is_ok in Hok.
  destruct demo_build as [snapshot|] eqn:E; [|discriminate Hok]. unfold demo_build in E.
  destruct (perform_runs demo_callees (serveLeased no_digest false 1024 demo_incoming snapshot) []) as (tr & _ & Hrun).
  destruct (perform_calls demo_callees [] (serveLeased no_digest false 1024 demo_incoming snapshot)).2 in Hrun.
  pose proof (request_routed no_digest no_plugins key_order None 0 1 demo_resources demo_candidate snapshot demo_incoming false 1024 tr
    "example.org" ∅ E Hrun eq_refl eq_refl eq_refl) as Hr.
  set (reference := reference_match _ _ _) in Hr.
  assert (Hf : Found reference = true) by (vm_compute; reflexivity).
  assert (Hi : RouteIndex reference = 0) by (vm_compute; reflexivity).
  assert (Hp : Params reference = [mkSpan "id" 7 8]) by (vm_compute; reflexivity). clearbody reference. cbv zeta in Hr. rewrite Hf, Hi, Hp in Hr. destruct Hr as (route & compiled & H1 & H2 & H3 & H4).
  exists snapshot, tr, route, compiled. split; [reflexivity|]. split; [exact H1|]. split; [exact H3|exact H4].
Defined.
