(* ===== verification/TelemetryCorrect.v ===== *)
(** * What telemetry counts

    An observation touches exactly the series labelled with the observed
    value. The gauge of active tunnels counts the sessions that run or whose
    clean-up is on its way, under every interleaving of the tunnel registry.
    Every upgrade reports one handshake result, with two exceptions, both of
    which are spelled out. *)

From S2P Require Import Prelude GoErrors GoStrings NetAddr Pattern Predicate Router Plugins.
From S2P Require Import HashKey Url Resources X509 DownstreamTLS Registry Session Tunnel Builder.
From S2P Require Import Effects Attempts HttpHeader ProxyHeaders WebSocket Handler HandlerSafe ManagerExamples ServeExamples Telemetry.
#[local] Open Scope string_scope.
#[local] Open Scope Z_scope.
#[local] Open Scope list_scope.

(** ** Series *)

(** Compares a label with the values the code knows. *)
Ltac compare_label x :=
  repeat match goal with |- context [String.eqb x ?s] => destruct (String.eqb_spec x s) as [->|?] end.

Lemma handshake_series result : ObserveWebSocketHandshake result
  = if bool_decide (result ∈ boundHandshakeResults) then [Inc (mkSeries webSocketHandshakes [result])] else [].
Proof.
  unfold ObserveWebSocketHandshake, webSocketHandshakeIndex. 
  compare_label result; try (by vm_compute).
  rewrite bool_decide_eq_false_2; [done|]. unfold boundHandshakeResults. rewrite !elem_of_cons, elem_of_nil. naive_solver.
Qed.

(** The TLS handshake series: bounded in every label. *)
Lemma tls_handshake_series result mode protocol : TLSHandshake result mode protocol
  = if bool_decide (result ∈ boundTLSResults ∧ mode ∈ boundTLSModes ∧ protocol ∈ boundProtocols)
    then [Inc (mkSeries tlsHandshake [result; mode; protocol])] else [].
Proof.
  unfold TLSHandshake, tlsResultIndex, tlsModeIndex, transportProtocolIndex,
    TransportProtocolAuto, TransportProtocolHTTP1, TransportProtocolHTTP2.
  unfold boundTLSResults, boundTLSModes, boundProtocols.
  compare_label result. all: compare_label mode. all: compare_label protocol.
  all: try (by vm_compute). all: rewrite bool_decide_eq_false_2; [done|]; rewrite !elem_of_cons, !elem_of_nil; naive_solver.
Qed.

(** ** Requests *)

(** The first final status a handler sends, explicitly or by writing a body. *)
Fixpoint firstFinal (calls : list writeCall) : Z :=
  match calls with
  | [] => 200
  | BodyCall :: _ => 200
  | HeaderCall code :: calls => if 200 <=? code then code else firstFinal calls
  end.

Lemma writer_settled calls status : status ≠ 0 →
  foldl (fun status c => match c with HeaderCall code => writer_WriteHeader status code | BodyCall => writer_Write status end)
    status calls = status.
Proof.
  intros Hs. assert (He : (status =? 0) = false) by (by apply Z.eqb_neq).
  induction calls as [|[code|] calls IH]; simpl; [done|..]; unfold writer_WriteHeader, writer_Write; by rewrite He, ?andb_false_r.
Qed.

(** Telemetry classifies a request by the first final status it is answered
    with; informational responses do not count. *)
Theorem recorded_status calls : writer_statusCode (writerAfter calls) = firstFinal calls.
Proof.
  unfold writerAfter. induction calls as [|[code|] calls IH]; [done|..]; cbn [foldl firstFinal].
  - replace (writer_WriteHeader 0 code) with (if 200 <=? code then code else 0)
      by (unfold writer_WriteHeader; by destruct (200 <=? code)).
    destruct (Z.leb_spec 200 code); [|exact IH].
    rewrite writer_settled by lia. unfold writer_statusCode. by destruct (Z.eqb_spec code 0); [lia|].
  - change (writer_Write 0) with 200. by rewrite writer_settled.
Qed.

(** The family of the series a call is on. *)
Definition family_of (c : metricCall) : string :=
  match c with
  | Inc s | Dec s | Add s _ | SetGauge s _ | ObserveDuration s _ => sr_family s
  end.

(** With request metrics every request is counted in exactly one series, under
    its route and the class of its first final status or of a protocol switch,
    and its latency is observed once under the same labels. *)
Theorem request_recorded method calls state elapsed :
  let status := if bool_decide (rc_responseCode <$> state = Some 101) then 101 else firstFinal calls in
  let labels := [default "__unmatched__" (state ≫= fun state => identified (rc_route state)); method;
                 pretty (Z.quot status 100) +:+ "xx"] in
  let recorded := Wrap true method calls state elapsed in
  filter (fun c => family_of c = requestsTotal) recorded = [Inc (mkSeries requestsTotal labels)]
  ∧ filter (fun c => family_of c = requestDuration) recorded = [ObserveDuration (mkSeries requestDuration labels) elapsed].
Proof.
  cbv zeta. unfold Wrap. rewrite recorded_status. cbn [negb]. cbv zeta.
  generalize [default "__unmatched__" (state ≫= fun state => identified (rc_route state)); method;
              pretty (Z.quot (if bool_decide (rc_responseCode <$> state = Some 101) then 101 else firstFinal calls) 100) +:+ "xx"].
  intros labels. destruct state as [[code route upstream [[balancer fallback]|]]|]; cbn [rc_upstream rc_selection];
    try destruct (identified upstream); try destruct fallback; by split.
Qed.

(** ** The value of a series *)

Definition change (s : series) (c : metricCall) : Z :=
  match c with
  | Inc s' => if bool_decide (s' = s) then 1 else 0
  | Dec s' => if bool_decide (s' = s) then -1 else 0
  | Add s' value => if bool_decide (s' = s) then value else 0
  | SetGauge _ _ | ObserveDuration _ _ => 0
  end.

(** What a counter, or a gauge that is only incremented and decremented, shows
    after some calls. *)
Definition value (s : series) (calls : list metricCall) : Z := zsum (change s) calls.

(** ** Active tunnels *)

Definition running (g : Registration) : Z := if bool_decide (rg_state g = registrationActive) then 1 else 0.

Definition closing (x : task) : bool := match x with ToFinish _ active _ => active | ToForceClose _ => false end.

(** The calls for everything the registry has announced. *)
Definition tunnelCalls (t : tunnels) : list metricCall := tn_log t ≫= tunnelObserved.

Record gauge_ok (t : tunnels) : Prop := {
  ga_value : value webSocketActive (tunnelCalls t) = map_sum running (tn_objects t) + occurrences closing (tn_tasks t);
  ga_results id result : ToFinish id true result ∈ tn_tasks t → is_Some result;
}.

Lemma tunnelCalls_app (l k : list tunnelEvent) : (l ++ k) ≫= tunnelObserved = (l ≫= tunnelObserved) ++ (k ≫= tunnelObserved).
Proof. apply bind_app. Qed.

Lemma value_app s l k : value s (l ++ k) = value s l + value s k.
Proof. apply zsum_app. Qed.

Lemma not_running g : rg_state g ≠ registrationActive → running g = 0.
Proof. intros Hs. unfold running. by rewrite bool_decide_eq_false_2. Qed.

Lemma closing_one x : occurrences closing [x] = if closing x then 1 else 0.
Proof. unfold occurrences. simpl. by destruct (closing x). Qed.

Lemma retire_gauge t id g (active : bool) (result : tunnelResult) : gauge_ok t → tn_objects t !! id = Some g →
  running g = (if active then 1 else 0) → (active = true → is_Some result) → gauge_ok (retire t id g active result).
Proof.
  intros [Hv Hr] Hg Ha Hres. split; cbn [retire tn_objects tn_tasks tunnelCalls tn_log].
  - rewrite (map_sum_update _ _ _ _ _ Hg), occurrences_app. unfold tunnelCalls in *. cbn [retire tn_log]. rewrite Hv, Ha.
    rewrite (not_running (set_state g registrationDone)), closing_one by done. destruct active; cbn [closing]; lia.
  - intros j r [Hin|Hin]%elem_of_app; [by eapply Hr|]. apply list_elem_of_singleton in Hin as [= _ Hact ->]. by apply Hres.
Qed.

Lemma force_gauge t session : gauge_ok t →
  gauge_ok (mkTunnels (tn_admissionClosed t) (tn_nextID t) (tn_registrations t) (tn_objects t) (tn_wait t)
    (tn_tasks t ++ [ToForceClose session]) (tn_log t)).
Proof.
  intros [Hv Hr]. split; simpl.
  - rewrite occurrences_app. unfold tunnelCalls in *. simpl. rewrite Hv, closing_one. cbn [closing]. lia.
  - intros id result [Hin|Hin]%elem_of_app; [by eapply Hr|]. by apply list_elem_of_singleton in Hin.
Qed.

Lemma sweepOne_gauge t id : gauge_ok t → gauge_ok (sweepOne t id).
Proof.
  intros Ht. unfold sweepOne. destruct (tn_objects t !! id) as [g|] eqn:Hg; [|done].
  destruct (rg_state g) eqn:Hs; [|by apply force_gauge|done].
  apply (force_gauge (retire t id g false noResult)). apply retire_gauge; try done. apply not_running. congruence.
Qed.

Lemma sweep_gauge t : gauge_ok t → gauge_ok (sweep t).
Proof.
  unfold sweep. generalize (elements (tn_registrations t)). intros ids. revert t.
  induction ids as [|id ids IH]; intros t Ht; simpl; [done|]. by apply IH, sweepOne_gauge.
Qed.

Lemma closed_change id (result : tunnelResult) : is_Some result →
  value webSocketActive (tunnelObserved (TunnelClosed id result)) = -1.
Proof. intros [r ->]. unfold tunnelObserved, telemetry_TunnelClosed. simpl. by destruct (rs_Reason r). Qed.

Lemma bytes_change id down up : value webSocketActive (tunnelObserved (TunnelBytes id down up)) = 0.
Proof. done. Qed.

Lemma perform_gauge t k t' : tunnels_ok true t → gauge_ok t → perform true t k = Some t' → gauge_ok t'.
Proof.
  intros Ht [Hv Hr] Hp. unfold perform in Hp. destruct (tn_tasks t !! k) as [[id active result|session]|] eqn:Hk.
  - destruct (queued_finish _ _ _ _ _ _ Ht Hk) as (g & Hg & Hd & Hc & Hw & _). unfold finish in Hp. simpl in Hp.
    rewrite Hg, Hc in Hp. destruct (tn_wait t - 1 <? 0); [done|]. injection Hp as <-. split; simpl.
    + rewrite (map_sum_update _ _ _ _ _ Hg), (occurrences_delete _ _ _ _ Hk).
      rewrite !(not_running _) by (simpl; congruence). unfold tunnelCalls in *. simpl.
      rewrite tunnelCalls_app, value_app, Hv. destruct active; simpl; [|lia].
      assert (Hres : is_Some result) by (eapply Hr, list_elem_of_lookup_2, Hk).
      destruct Hres as [r ->]. destruct (rs_Reason r) eqn:Hreason; unfold telemetry_TunnelClosed; simpl; rewrite Hreason; vm_compute (value _ _); lia.
    + intros j res Hin. eapply Hr, in_delete, Hin.
  - injection Hp as <-. split; simpl.
    + rewrite (occurrences_delete _ _ _ _ Hk). unfold tunnelCalls in *. simpl. rewrite tunnelCalls_app, value_app, Hv. simpl. lia.
    + intros j res Hin. eapply Hr, in_delete, Hin.
  - injection Hp as <-. by split.
Qed.

Lemma texec_gauge t e t' : tunnels_ok true t → gauge_ok t → texec true t e = TDone t' → gauge_ok t'.
Proof.
  intros Ht Hok He. destruct e as [session|id|id|id result|k| |]; cbn [texec] in He.
  - injection He as <-. unfold Register. destruct (tn_admissionClosed t); [done|]. cbn [fst]. destruct Hok as [Hv Hr].
    split; [|done]. cbn [tn_objects tn_tasks tunnelCalls tn_log]. rewrite map_sum_insert_new by (apply (tk_fresh _ _ Ht); lia).
    unfold tunnelCalls in *. simpl. rewrite Hv, not_running by done. lia.
  - injection He as <-. unfold Activate. destruct (tn_objects t !! id) as [g|] eqn:Hg; [|done].
    case_bool_decide as Hp; [|done]. cbn [fst]. destruct Hok as [Hv Hr]. split; [|done]. cbn [tn_objects tn_tasks].
    rewrite (map_sum_update _ _ _ _ _ Hg). unfold tunnelCalls in *. cbn [tn_log]. rewrite tunnelCalls_app, value_app, Hv.
    rewrite (not_running g) by congruence. change (running (set_state g registrationActive)) with 1.
    change (value webSocketActive _) with 1 at 1. lia.
  - injection He as <-. unfold tunnel_Rollback. destruct (tn_objects t !! id) as [g|] eqn:Hg; [|done].
    case_bool_decide as Hp; [|done]. apply retire_gauge; try done. apply not_running. congruence.
  - unfold runReturned in He. destruct (tn_objects t !! id) as [g|] eqn:Hg; [|done]. case_bool_decide as Hp; [|done].
    injection He as <-. apply retire_gauge; try done. unfold running. by rewrite bool_decide_eq_true_2.
  - destruct (perform true t k) as [t1|] eqn:Hp; [|done]. injection He as <-. by eapply perform_gauge.
  - injection He as <-. destruct Hok. by split.
  - destruct (tn_admissionClosed t); [|done]. injection He as <-. by apply sweep_gauge.
Qed.


(** ** Handshake results *)

Section Handshakes.
Context {Q R : Type}.
#[local] Abbreviation ev := (interaction (@effect Q R)).

(** The results a handler reports, in order. *)
Definition handshakeResults (tr : list ev) : list string :=
  omap (fun '(@Did _ _ e a) =>
    match e with ObserveHandshake result => Some result | _ => None end) tr.

(** The switching response could not be sent to the client. *)
Definition unsent (x : ev) : bool :=
  let '@Did _ _ e a := x in
  match e in effect X return X → bool with WriteHandshake _ | FlushHandshake => fun ok => negb ok | _ => fun _ => false end a.

(** The results so far, all of them with a series, and whether the response
    could not be sent. *)
Definition counted X (s : list string * bool) (e : @effect Q R X) : X → option (list string * bool) :=
  match e in effect X return X → option (list string * bool) with
  | ObserveHandshake result => fun _ => if bool_decide (result ∈ boundHandshakeResults) then Some (s.1 ++ [result], s.2) else None
  | WriteHandshake _ | FlushHandshake => fun ok => Some (s.1, s.2 || negb ok)
  | _ => fun _ => Some s
  end.

Lemma counted_step X (e : @effect Q R X) x s s' : counted X s e x = Some s' →
  s'.1 = s.1 ++ handshakeResults [Did e x] ∧ s'.2 = s.2 || unsent (Did e x) ∧
  Forall (fun r => r ∈ boundHandshakeResults) (handshakeResults [Did e x]).
Proof.
  destruct e; cbn; intros He; try case_bool_decide; simplify_eq/=; rewrite ?app_nil_r, ?orb_false_r; try done.
  split_and!; [done..|]. by constructor.
Qed.

Lemma counted_trace {A} (p : program (@effect Q R) A) s (P : list string * bool → A → Prop) tr a :
  follows counted s p P → runs p tr a →
  P (s.1 ++ handshakeResults tr, s.2 || existsb unsent tr) a ∧ Forall (fun r => r ∈ boundHandshakeResults) (handshakeResults tr).
Proof.
  revert s tr. induction p as [b|X e k IH]; intros s tr Hf Hr; cbn [follows runs] in *.
  { destruct Hr as [-> ->]. cbn. rewrite app_nil_r, orb_false_r. split; [by destruct s|constructor]. }
  destruct Hr as (x & rest & -> & Hr). specialize (Hf x). destruct (counted X s e x) as [s'|] eqn:Hc; [|done].
  destruct (counted_step _ _ _ _ _ Hc) as (H1 & H2 & H3). destruct (IH x s' rest Hf Hr) as [HP Hall].
  change (Did e x :: rest) with ([Did e x] ++ rest). unfold handshakeResults in *. rewrite omap_app.
  cbn [existsb app]. rewrite H1, H2 in HP. rewrite <-app_assoc, <-orb_assoc in HP. split; [exact HP|]. by apply Forall_app.
Qed.

#[local] Abbreviation silent s p := (follows counted s p (fun s' _ => s' = s)).
#[local] Abbreviation one_result p := (follows counted ([], false) p (fun s _ => ∃ r, s = ([r], false))).

(** How an upgrade is counted. *)
Definition upgrade_counted (s : list string * bool) : Prop :=
  (∃ r, s = ([r], false)) ∨ s = ([], true) ∨ s = (["upstream_rejected"; "plugin_failure"], false).

Ltac counting := obey ltac:(cbn [counted fst snd app orb negb]; try match goal with |- context [bool_decide (?r ∈ boundHandshakeResults)] => change (bool_decide (r ∈ boundHandshakeResults)) with true end; cbn [app fst snd orb negb]); try done; auto.

Context `{Unicode} (sha1 : string → string).

Lemma writeError_silent s f : silent s (writeError f).
Proof. unfold writeError. counting. Qed.

Lemma writeMatchedHTTPResponse_silent s status code headers body runHooks : silent s (writeMatchedHTTPResponse status code headers body runHooks).
Proof. unfold writeMatchedHTTPResponse. counting. Qed.

Lemma handleProxyError_silent s q matched err : silent s (handleProxyError q matched err).
Proof.
  unfold handleProxyError, writeMatchedErrorWithoutHooks, writeMatchedResponse. counting.
  all: first [apply writeError_silent|apply writeMatchedHTTPResponse_silent].
Qed.

Lemma forwardResponse_silent s r : silent s (forwardResponse r).
Proof. unfold forwardResponse. counting. Qed.

Lemma fail_counted result p : result ∈ boundHandshakeResults → (∀ s, silent s p) → one_result (fail (Q:=Q) (R:=R) result p).
Proof.
  intros Hr Hp. unfold fail. apply follows_call. intros x. cbn [counted]. rewrite bool_decide_eq_true_2 by done.
  apply follows_bind. eapply follows_mono; [apply Hp|]. intros s a ->. simpl. by eexists.
Qed.

Lemma commitUpgrade_counted tunnels idle timed r :
  follows counted ([], false) (commitUpgrade tunnels idle timed r) (fun s _ => upgrade_counted s).
Proof.
  unfold commitUpgrade, writeHijackedErrorBounded, writeHijackedError, upgrade_counted. counting.
  all: try (left; by eexists). all: by right; left.
Qed.

Lemma handleForwardResponseError_counted q err :
  follows counted (["upstream_rejected"], false) (handleForwardResponseError q err) (fun s _ => upgrade_counted s).
Proof.
  unfold handleForwardResponseError, writeMatchedErrorWithoutHooks. counting.
  - eapply follows_mono; [apply writeMatchedHTTPResponse_silent|]. intros s a ->. by right; right.
  - left. by eexists.
  - eapply follows_mono; [apply handleProxyError_silent|]. intros s a ->. left. by eexists.
Qed.

Lemma one_counted {A} (p : program (@effect Q R) A) : one_result p → follows counted ([], false) p (fun s _ => upgrade_counted s).
Proof. intros Hp. eapply follows_mono; [exact Hp|]. intros s a Hs. by left. Qed.

Lemma acceptUpgrade_counted tunnels idle timed q captured r :
  follows counted ([], false) (acceptUpgrade sha1 tunnels idle timed q captured r) (fun s _ => upgrade_counted s).
Proof.
  unfold acceptUpgrade. counting.
  all: try apply commitUpgrade_counted.
  all: try (apply one_counted, fail_counted; [by apply (bool_decide_eq_true_1 _)|intros; apply writeMatchedHTTPResponse_silent]).
  - eapply follows_mono; [apply writeMatchedHTTPResponse_silent|]. intros s a ->. counting. left. by eexists.
  - left. by eexists.
  - left. by eexists.
  - eapply follows_mono; [apply forwardResponse_silent|]. intros s [err|] ->; [|left; by eexists].
    apply follows_bind. eapply follows_mono; [apply handleForwardResponseError_counted|]. intros s a Hs. exact Hs.
Qed.

Lemma serveWebSocket_counted tunnels q route :
  follows counted ([], false) (serveWebSocket sha1 tunnels q route) (fun s _ => upgrade_counted s).
Proof.
  unfold serveWebSocket, writeWebSocketUpstreamError, writeMatchedResponse, writeShortCircuit. counting.
  all: eapply follows_mono;
    [first [apply writeMatchedHTTPResponse_silent|apply acceptUpgrade_counted|apply one_counted, fail_counted]|].
  all: try (by apply (bool_decide_eq_true_1 _)). all: try (intros; apply writeMatchedHTTPResponse_silent).
  all: intros state a Hs; try (destruct a; counting). all: subst state; left; by eexists.
Qed.

End Handshakes.

(** ** Concrete instances *)


#[local] Existing Instance ascii_only_unicode.

Definition demo_route : option (@CompiledRoute unit unit) :=
  match demo_build with Ok s => head (sn_routes s) | Err _ => None end.

