(* ===== verification/Transport.v ===== *)
(** * Upstream connections ([internal/upstream/transport.go])

    The configuration of the HTTP transports and the dialer they open TLS
    connections with. A dial is the list of what it does, and its result. The
    network and [crypto/tls] are parameters: [dialContext] opens a TCP connection
    and [handshakeContext] runs the handshake on it, giving the protocol it has
    negotiated. *)

From S2P Require Import Prelude GoErrors GoStrings NetAddr Resources UpstreamConfig X509 TlsMaterial Fingerprint Registry Telemetry.
#[local] Open Scope string_scope.
#[local] Open Scope Z_scope.
#[local] Open Scope list_scope.

(** ** Configuration *)

(** [http.Protocols]. *)
Record Protocols := mkProtocols { ptc_http1 : bool; ptc_http2 : bool; ptc_unencryptedHTTP2 : bool }.

(** The fields of [tls.Config] that are set, and the one that would disable
    verification. *)
Record tlsConfig := mkTlsConfig {
  tcf_minVersion : Z;
  tcf_sessionCache : Z;
  tcf_serverName : string;
  tcf_nextProtos : list string;
  tcf_rootCAs : option TrustBundle;
  tcf_certificates : list Certificate;
  tcf_insecureSkipVerify : bool;
}.

Record httpTransport := mkHttpTransport {
  ht_dialTimeout : Z;
  ht_keepAlive : Z;
  ht_forceAttemptHTTP2 : bool;
  ht_protocols : Protocols;
  ht_disableCompression : bool;
  ht_maxIdleConns : Z;
  ht_maxIdleConnsPerHost : Z;
  ht_idleConnTimeout : Z;
  ht_responseHeaderTimeout : Z;
  ht_tls : option tlsConfig;
}.

Definition transportProtocols (scheme protocol : string) : Protocols :=
  if String.eqb scheme "http" && String.eqb protocol TransportProtocolHTTP2 then mkProtocols false false true
  else if String.eqb scheme "http" then mkProtocols true false false
  else if String.eqb protocol TransportProtocolAuto then mkProtocols true true false
  else if String.eqb protocol TransportProtocolHTTP1 then mkProtocols true false false
  else if String.eqb protocol TransportProtocolHTTP2 then mkProtocols false true false
  else mkProtocols false false false.

Definition nextProtos (protocol : string) : list string :=
  if String.eqb protocol TransportProtocolAuto then ["h2"; "http/1.1"]
  else if String.eqb protocol TransportProtocolHTTP1 then ["http/1.1"]
  else if String.eqb protocol TransportProtocolHTTP2 then ["h2"]
  else [].

Definition newHTTPTransport (profile : transportProfile) (key : transportKey) : httpTransport :=
  let https := String.eqb (pr_scheme profile) "https" in
  mkHttpTransport (tk_dialTimeout key) 30000000000
    (https && negb (String.eqb (pr_protocol profile) TransportProtocolHTTP1))
    (transportProtocols (pr_scheme profile) (pr_protocol profile))
    (tk_disableCompression key) (tk_maxIdleConnections key) (tk_maxIdleConnectionsPerHost key)
    (tk_idleConnectionTimeout key) (tk_responseHeaderTimeout key)
    (if negb https then None
     else Some (mkTlsConfig VersionTLS12 64 (pr_serverName profile) (nextProtos (pr_protocol profile)) (pr_trustBundle profile)
       (option_list (pr_clientCertificate profile)) false)).

(** The transports of a runtime: production, probes and, where HTTP/1.1 can be
    spoken, upgrades. *)
Definition upgradeProfile (profile : transportProfile) : transportProfile :=
  let '(mkTransport _ tls dial header idle conns perHost) := pr_transport profile in
  mkProfile (pr_scheme profile) TransportProtocolHTTP1 (mkTransport TransportProtocolHTTP1 tls dial header idle conns perHost)
    (pr_trustBundle profile) (pr_clientCertificate profile) (pr_serverName profile).

Record transportPools := mkPools { pl_production : httpTransport; pl_probe : httpTransport; pl_upgrade : option httpTransport }.

Definition transportRuntimePools (profile : transportProfile) : transportPools :=
  let key := makeTransportKey profile in
  let production := newHTTPTransport profile key in
  mkPools production (newHTTPTransport profile key)
    (if String.eqb (pr_protocol profile) TransportProtocolAuto then Some (newHTTPTransport (upgradeProfile profile) key)
     else if String.eqb (pr_protocol profile) TransportProtocolHTTP1 then Some production
     else None).

(** ** The dialer *)

Inductive dialStep :=
| Connected (address : string)
| CloseRaw
| CloseTLS
| ObserveTLSHandshake (result mode protocol : string)
| ObserveTLSFailure (class : TLSFailureClass).

Definition observeTLSHandshake (observer : bool) (result mode protocol : string) : list dialStep :=
  if observer then [ObserveTLSHandshake result mode protocol] else [].
Definition observeTLSFailure (observer : bool) (class : TLSFailureClass) : list dialStep :=
  if observer then [ObserveTLSFailure class] else [].

(** [errHTTP2Required] *)
Definition errHTTP2Required : goError := [mkErr [HTTP2Required] None OtherError].

Definition dialMode (profile : transportProfile) : string :=
  if bool_decide (is_Some (pr_clientCertificate profile)) then "mtls" else "server_auth".

Definition with_serverName (c : tlsConfig) (name : string) : tlsConfig :=
  mkTlsConfig (tcf_minVersion c) (tcf_sessionCache c) name (tcf_nextProtos c) (tcf_rootCAs c) (tcf_certificates c) (tcf_insecureSkipVerify c).

Section Dial.
Context {connection : Type}.
Context (dialContext : string → result goError connection).
Context (handshakeContext : connection → tlsConfig → result goError string).
Context (addressError : goError).

(** The dial once the server name is known. *)
Definition dialServer (baseTLS : tlsConfig) (profile : transportProfile) (observer : bool) (address serverName : string)
    : list dialStep * result goError (connection * string) :=
  let mtls := bool_decide (is_Some (pr_clientCertificate profile)) in
  let mode := dialMode profile in
  match dialContext address with
  | Err err => ([], Err err)
  | Ok raw =>
      match handshakeContext raw (with_serverName baseTLS serverName) with
      | Err err =>
          let failed := observeTLSHandshake observer "failure" mode (pr_protocol profile) in
          match classifyTLSFailure (Some err) mtls with
          | Some (class, failure) => ([Connected address; CloseRaw] ++ failed ++ observeTLSFailure observer class, Err failure)
          | None => ([Connected address; CloseRaw] ++ failed ++ [], Err err)
          end
      | Ok negotiated =>
          if String.eqb (pr_protocol profile) TransportProtocolHTTP2 && negb (String.eqb negotiated "h2") then
            ([Connected address; CloseTLS] ++ observeTLSHandshake observer "failure" mode (pr_protocol profile) ++
               observeTLSFailure observer TLSFailureProtocol,
             Err (tlsFailure TLSFailureProtocol errHTTP2Required))
          else
            ([Connected address] ++ observeTLSHandshake observer "success" mode (pr_protocol profile), Ok (raw, negotiated))
      end
  end.

(** The function [newVerifiedTLSDialer] returns, applied to an address. The base
    configuration is the one of the transport when the dial starts. *)
Definition newVerifiedTLSDialer (baseTLS : tlsConfig) (profile : transportProfile) (observer : bool) (address : string)
    : list dialStep * result goError (connection * string) :=
  if String.eqb (pr_serverName profile) "" then
    match split_host_port address with
    | None => ([], Err addressError)
    | Some (host, _) => dialServer baseTLS profile observer address host
    end
  else dialServer baseTLS profile observer address (pr_serverName profile).

(** ** Round trips *)

(** [RoundTrip], [roundTripUpgrade] and the probe transport: the response, or the
    error with its classification, and what is observed. *)
Definition classified {A} (observer mtls : bool) (r : result goError A) : list dialStep * result goError A :=
  match r with
  | Ok response => ([], Ok response)
  | Err err =>
      let '(error, report) := classifyRoundTripError mtls (Some err) in
      (match report with Some class => observeTLSFailure observer class | None => [] end, Err (default err error))
  end.

Definition roundTripUpgrade {A} (observer mtls : bool) (upgrade : option (result goError A)) : list dialStep * result goError A :=
  match upgrade with
  | None => ([], Err [mkErr [UpgradeProtocol] None OtherError])
  | Some r => classified observer mtls r
  end.

(** ** What a dial guarantees *)

(** [crypto/tls]: a client whose configuration does not skip verification
    completes a handshake only with a peer whose chain leads to the roots and
    whose certificate is for the server name, and negotiates one of the protocols
    it offers, if any. *)
Context (peer : connection → Leaf) (trusted : option TrustBundle → connection → Prop).
Definition tls_verifies : Prop := ∀ conn config negotiated, handshakeContext conn config = Ok negotiated →
  tcf_insecureSkipVerify config = false →
  trusted (tcf_rootCAs config) conn ∧ VerifyHostname (peer conn) (tcf_serverName config) = true ∧
  (negotiated = "" ∨ negotiated ∈ tcf_nextProtos config).

(** The configuration at the time of a dial: [net/http] adds protocols to the
    configuration of a transport that may speak HTTP/2. *)
Definition dial_config (profile : transportProfile) (config : tlsConfig) : Prop :=
  ∃ base protos, ht_tls (newHTTPTransport profile (makeTransportKey profile)) = Some base ∧
    config = mkTlsConfig (tcf_minVersion base) (tcf_sessionCache base) (tcf_serverName base) protos (tcf_rootCAs base) (tcf_certificates base)
      (tcf_insecureSkipVerify base) ∧
    (pr_protocol profile = TransportProtocolHTTP1 → protos = tcf_nextProtos base).

(** The name a connection to an address is verified for. *)
Definition verified_name (profile : transportProfile) (address : string) : option string :=
  if String.eqb (pr_serverName profile) "" then fst <$> split_host_port address else Some (pr_serverName profile).

Definition opened (steps : list dialStep) : Z := zsum (fun s => match s with Connected _ => 1 | CloseRaw | CloseTLS => -1 | _ => 0 end) steps.
Definition connected (steps : list dialStep) : Prop := ∃ address, Connected address ∈ steps.
Definition handshakes (steps : list dialStep) : list (string * string * string) :=
  omap (fun s => match s with ObserveTLSHandshake r m p => Some (r, m, p) | _ => None end) steps.
Definition observedFailures (steps : list dialStep) : list TLSFailureClass :=
  omap (fun s => match s with ObserveTLSFailure class => Some class | _ => None end) steps.

Lemma existingFailure_class err class rest : existingFailure err = Some (class, rest) → TLSFailureClassOf rest = Some class.
Proof.
  induction err as [|n err IH]; [done|]. cbn [existingFailure]. destruct (en_type n) eqn:E; try exact IH. intros [= <- <-].
  unfold TLSFailureClassOf. cbn [errors_As]. by rewrite E.
Qed.

Lemma classifyTLSFailure_class err mtls class failure : classifyTLSFailure err mtls = Some (class, failure) → TLSFailureClassOf failure = Some class.
Proof.
  unfold classifyTLSFailure. destruct err as [err|]; [|done]. cbv zeta. intros Hc.
  repeat case_match; simplify_eq; try done; by eapply existingFailure_class.
Qed.

(** The outcome of a dial. *)
Definition dial_outcome (profile : transportProfile) (observer : bool) (address : string) (steps : list dialStep)
    (r : result goError (connection * string)) : Prop :=
  match r with
  | Ok (conn, negotiated) =>
      (∃ name, verified_name profile address = Some name ∧ VerifyHostname (peer conn) name = true) ∧ trusted (pr_trustBundle profile) conn ∧
      (pr_protocol profile = TransportProtocolHTTP2 → negotiated = "h2") ∧ (pr_protocol profile = TransportProtocolHTTP1 → negotiated ≠ "h2") ∧
      opened steps = 1 ∧ observedFailures steps = [] ∧
      (observer = true → handshakes steps = [("success", dialMode profile, pr_protocol profile)])
  | Err err =>
      opened steps = 0 ∧
      (observer = true → handshakes steps = [] ∧ ¬ connected steps ∨
         handshakes steps = [("failure", dialMode profile, pr_protocol profile)] ∧ connected steps) ∧
      (observedFailures steps = [] ∨ ∃ class, observedFailures steps = [class] ∧ TLSFailureClassOf err = Some class)
  end.

Lemma dial_failed profile observer address close extra err : close = CloseRaw ∨ close = CloseTLS →
  (extra = [] ∨ ∃ class, extra = observeTLSFailure observer class ∧ TLSFailureClassOf err = Some class) →
  dial_outcome profile observer address ([Connected address; close] ++ observeTLSHandshake observer "failure" (dialMode profile) (pr_protocol profile) ++ extra)
    (Err err).
Proof.
  intros Hclose Hextra. cbn [dial_outcome]. assert (Hc : connected ([Connected address; close] ++ observeTLSHandshake observer "failure"
    (dialMode profile) (pr_protocol profile) ++ extra)) by (exists address; by left).
  destruct Hclose as [->| ->], observer, Hextra as [->|(class & -> & Hclass)]; cbn; split_and!; try done; eauto.
Qed.

Lemma dial_unconnected profile observer address err : dial_outcome profile observer address [] (Err err).
Proof. cbn. split_and!; auto. intros _. left. split; [done|]. by intros [? ?%elem_of_nil]. Qed.

Lemma dialServer_outcome profile observer address name config : tls_verifies → dial_config profile config →
  verified_name profile address = Some name →
  let '(steps, r) := dialServer config profile observer address name in dial_outcome profile observer address steps r.
Proof.
  intros Hv (base & protos & Hbase & -> & Hp) Hname. unfold newHTTPTransport in Hbase. cbn [ht_tls] in Hbase. destruct (negb _); [done|].
  injection Hbase as <-. unfold dialServer, with_serverName. cbv zeta.
  cbn [tcf_minVersion tcf_sessionCache tcf_serverName tcf_rootCAs tcf_certificates tcf_insecureSkipVerify tcf_nextProtos] in *.
  destruct (dialContext address) as [raw|err]; [|apply dial_unconnected].
  destruct (handshakeContext raw _) as [negotiated|err] eqn:Hh.
  - destruct (Hv _ _ _ Hh eq_refl) as (Ht & Hn & Hproto). cbn [tcf_rootCAs tcf_serverName tcf_nextProtos] in *.
    destruct (String.eqb_spec (pr_protocol profile) TransportProtocolHTTP2) as [E2|N2]; cbn [andb].
    + destruct (String.eqb_spec negotiated "h2") as [->|Hneq]; cbn [negb].
      * cbn [dial_outcome]. split_and!; eauto; [intros E1; by rewrite E1 in E2|by destruct observer|by destruct observer|by intros ->].
      * apply dial_failed; [by right|]. right. by eexists.
    + cbn [dial_outcome]. split_and!; eauto; [by intros ?| |by destruct observer|by destruct observer|by intros ->]. intros E1 ->. rewrite Hp in Hproto by done.
      rewrite E1 in Hproto. change (nextProtos TransportProtocolHTTP1) with ["http/1.1"] in Hproto. set_solver.
  - destruct (classifyTLSFailure _ _) as [[class failure]|] eqn:Hc; (apply dial_failed; [by left|]); [right|by left].
    apply classifyTLSFailure_class in Hc. by eexists.
Qed.

Lemma dial_outcome_of profile observer address config : tls_verifies → dial_config profile config →
  let '(steps, r) := newVerifiedTLSDialer config profile observer address in dial_outcome profile observer address steps r.
Proof.
  intros Hv Hc. unfold newVerifiedTLSDialer. pose proof (dialServer_outcome profile observer address) as Hd. unfold verified_name in Hd.
  destruct (String.eqb (pr_serverName profile) ""); [|by apply Hd].
  destruct (split_host_port address) as [[host port]|]; [by apply Hd|apply dial_unconnected].
Qed.


Lemma IsTLSFailure_wrapped wrap err class : TLSFailureClassOf err = Some class → IsTLSFailure (wrap ++ err) = true.
Proof.
  unfold IsTLSFailure, TLSFailureClassOf. intros He. induction wrap as [|n wrap IH]; cbn [app errors_As]; [by rewrite He|].
  by destruct (is_tlsFailure (en_type n)).
Qed.

(** a TLS failure that a dial has reported is not reported again by the round
    trip it fails, however [net/http] has wrapped its error, and reaches the
    proxy unchanged. *)
Lemma tls_failure_once {A} profile observer address config err wrap : tls_verifies → dial_config profile config →
  let '(steps, r) := newVerifiedTLSDialer config profile observer address in
  r = Err err → observedFailures steps ≠ [] →
  classified (A := A) observer (bool_decide (is_Some (pr_clientCertificate profile))) (Err (wrap ++ err)) = ([], Err (wrap ++ err)) ∧
  length (observedFailures steps) = 1%nat.
Proof.
  intros Hv Hc. pose proof (dial_outcome_of profile observer address config Hv Hc) as Hd.
  destruct (newVerifiedTLSDialer _ _ _ _) as [steps r]. intros -> Hne. destruct Hd as (_ & _ & [?|(class & -> & Hclass)]); [done|].
  split; [|done]. unfold classified, classifyRoundTripError. by rewrite (IsTLSFailure_wrapped _ _ _ Hclass).
Qed.
End Dial.

(** ** Example *)

(** A server for one host that offers HTTP/2 and is trusted. *)
Definition demo_peer : Leaf := mkLeaf "" 0 100 ["api.example.com"] [].
Definition demo_handshake_context (_ : unit) (config : tlsConfig) : result goError string :=
  if VerifyHostname demo_peer (tcf_serverName config) && bool_decide ("h2" ∈ tcf_nextProtos config) then Ok "h2"
  else Err [mkErr [] None HostnameError].
Definition demo_profile : transportProfile :=
  mkProfile "https" TransportProtocolHTTP2 (mkTransport TransportProtocolHTTP2 None 0 0 0 0 0) None None "".
Definition demo_dial_config : tlsConfig := mkTlsConfig VersionTLS12 64 "" ["h2"; "http/1.1"] None [] false.

Lemma demo_verifies : tls_verifies demo_handshake_context (fun _ => demo_peer) (fun _ _ => True).
Proof.
  intros conn config negotiated. unfold demo_handshake_context. destruct (VerifyHostname _ _) eqn:E; [|done]. cbn [andb].
  case_bool_decide as Hin; [|done]. intros [= <-] _. auto.
Qed.

Lemma demo_dial : dial_config demo_profile demo_dial_config.
Proof. eexists _, _. split; [reflexivity|]. split; [reflexivity|]. intros E. discriminate E. Qed.

