(* ===== verification/LifecycleObserver.v ===== *)
(** * The lifecycle observer ([internal/gateway/lifecycle_observer.go])

    The observer of the runtime manager and of the upstream registry: every event
    goes to telemetry and, with the same numbers and labels, to the log. A log
    record is its level, message and attributes. *)

From S2P Require Import Prelude GoErrors GoStrings NetAddr Resources X509 TlsMaterial Fingerprint Registry DownstreamTLS Builder.
From S2P Require Import Telemetry TelemetryCorrect Transport.
#[local] Open Scope string_scope.
#[local] Open Scope Z_scope.
#[local] Open Scope list_scope.

(** ** Log records *)

Inductive logLevel := LevelInfo | LevelWarn | LevelError.
Inductive logValue := LogInt (x : Z) | LogString (s : string) | LogBool (b : bool) | LogSeconds (nanoseconds : Z).
Record logRecord := mkLogRecord { lg_level : logLevel; lg_message : string; lg_attributes : list (string * logValue) }.

(** What a callback does. *)
Definition observed : Type := list metricCall * list logRecord.

(** ** Callbacks *)

Definition liveAttributes (stats : RegistryStats) : list (string * logValue) :=
  [("live_endpoints", LogInt (LiveEndpoints stats)); ("live_transports", LogInt (LiveTransports stats));
   ("live_selection_states", LogInt (LiveSelectionStates stats)); ("active_plan_sets", LogInt (ActivePlanSets stats));
   ("retired_plan_sets", LogInt (RetiredPlanSets stats)); ("live_tunnel_leases", LogInt (LiveTunnelLeases stats))].

Definition logTransportGenerations (deltas : list TransportGenerationDelta) : list logRecord :=
  (fun delta => mkLogRecord LevelInfo "upstream_transport_generation"
     [("action", LogString (d_action delta)); ("tls", LogBool (d_tls delta)); ("protocol", LogString (d_protocol delta));
      ("count", LogInt (d_count delta))]) <$> deltas.

Definition observer_SnapshotApplied (stats : SnapshotStats) (buildDuration now : Z) : observed :=
  let d := st_downstream stats in
  ((SnapshotApplied stats buildDuration).1,
   [mkLogRecord LevelInfo "runtime_snapshot_applied"
      [("revision", LogInt (st_revision stats)); ("routes", LogInt (Z.of_nat (st_routeCount stats)));
       ("services", LogInt (Z.of_nat (st_serviceCount stats))); ("upstreams", LogInt (Z.of_nat (st_upstreamCount stats)));
       ("plugins", LogInt (Z.of_nat (st_pluginCount stats))); ("downstream_certificates", LogInt (Z.of_nat (ss_certificateCount d)));
       ("downstream_exact_bindings", LogInt (Z.of_nat (ss_exactCount d))); ("downstream_wildcard_bindings", LogInt (Z.of_nat (ss_wildcardCount d)));
       ("downstream_earliest_expiry_seconds", LogSeconds (Z.max 0 (ss_earliestExpiry d - now))); ("duration_seconds", LogSeconds buildDuration)]]).

Definition observer_DownstreamTLSSelection (selection : certificateSelection) : observed := (DownstreamTLSSelection selection, []).

Definition observer_SnapshotRejected (buildErr : option BuildError) (duration : Z) : observed :=
  let '(revision, code, stage, kind) :=
    match buildErr with
    | Some e => (be_revision e, be_code e, stage_string (be_stage e), be_resourceKind e)
    | None => (0, "", "", "")
    end in
  (SnapshotRejected buildErr duration,
   [mkLogRecord LevelWarn "runtime_snapshot_rejected"
      [("revision", LogInt revision); ("code", LogString code); ("stage", LogString stage); ("resource_kind", LogString kind);
       ("duration_seconds", LogSeconds duration)]]).

(** The callbacks of the registry. *)
Definition observer_registry (n : notification) : observed :=
  (registryObserved n,
   match n with
   | RegistryPrepared stats =>
       let count c := LogInt (ps_count stats c) in
       logTransportGenerations (ps_transportGenerations stats) ++
       [mkLogRecord LevelInfo "upstream_registry_prepared"
          ([("created_endpoints", count CreatedEndpoints); ("reused_endpoints", count ReusedEndpoints);
            ("created_transports", count CreatedTransports); ("reused_transports", count ReusedTransports);
            ("created_selection_states", count CreatedSelections); ("reused_selection_states", count ReusedSelections);
            ("wrr_slots", count WRRSlots); ("hash_points", count HashPoints)]
           ++ liveAttributes (default zeroRegistryStats (ps_current stats)))]
   | RegistryRolledBack stats =>
       let count c := LogInt (ps_count stats c) in
       logTransportGenerations (ps_transportGenerations stats) ++
       [mkLogRecord LevelWarn "upstream_registry_rolled_back"
          ([("created_endpoints", count CreatedEndpoints); ("created_transports", count CreatedTransports);
            ("created_selection_states", count CreatedSelections)]
           ++ liveAttributes (default zeroRegistryStats (ps_current stats)))]
   | RegistryRetired _ => []
   | RegistryCleaned stats current =>
       logTransportGenerations (cs_transportGenerations stats) ++
       [mkLogRecord LevelInfo "upstream_registry_cleaned"
          ([("released_endpoints", LogInt (ReleasedEndpoints stats)); ("released_transports", LogInt (ReleasedTransports stats));
            ("closed_transports", LogInt (ClosedTransports stats))] ++ liveAttributes current)]
   | RegistryError code => [mkLogRecord LevelError "upstream_registry_error" [("code", LogString code)]]
   end).

Definition observer_TLSHandshake (result mode protocol : string) : observed :=
  (TLSHandshake result mode protocol,
   [mkLogRecord LevelInfo "upstream_tls_handshake" [("result", LogString result); ("mode", LogString mode); ("protocol", LogString protocol)]]).

Definition failureClassText (class : TLSFailureClass) : string :=
  match class with
  | TLSFailureTrust => "trust"
  | TLSFailureHostname => "hostname"
  | TLSFailureClientIdentity => "client_identity"
  | TLSFailureProtocol => "protocol"
  | TLSFailureHandshake => "handshake"
  end.

Definition observer_TLSFailure (class : TLSFailureClass) : observed :=
  (TLSFailure class, [mkLogRecord LevelWarn "upstream_tls_failure" [("class", LogString (failureClassText class))]]).

Definition ShutdownCleanup (stats : RegistryStats) : observed :=
  ([], [mkLogRecord LevelInfo "upstream_shutdown_cleanup" (liveAttributes stats)]).

(** ** What a dial leaves behind *)

(** The registry hands the observations of a dial to its observer. *)
Definition observeStep (s : dialStep) : observed :=
  match s with
  | ObserveTLSHandshake result mode protocol => observer_TLSHandshake result mode protocol
  | ObserveTLSFailure class => observer_TLSFailure class
  | _ => ([], [])
  end.

Definition dialMetrics (steps : list dialStep) : list metricCall := steps ≫= fun s => (observeStep s).1.
Definition dialLog (steps : list dialStep) : list logRecord := steps ≫= fun s => (observeStep s).2.

Definition handshakeRecord (result mode protocol : string) : logRecord :=
  mkLogRecord LevelInfo "upstream_tls_handshake" [("result", LogString result); ("mode", LogString mode); ("protocol", LogString protocol)].
Definition failureRecord (class : TLSFailureClass) : logRecord :=
  mkLogRecord LevelWarn "upstream_tls_failure" [("class", LogString (failureClassText class))].

Lemma TLSHandshake_series result mode protocol : result ∈ boundTLSResults → mode ∈ boundTLSModes → protocol ∈ boundProtocols →
  TLSHandshake result mode protocol = [Inc (mkSeries tlsHandshake [result; mode; protocol])].
Proof. intros Hr Hm Hp. unfold boundTLSResults, boundTLSModes, boundProtocols in *. set_unfold. naive_solver. Qed.

Lemma TLSFailure_series class : TLSFailure class = [Inc (mkSeries tlsFailures [failureClassText class])].
Proof. by destruct class. Qed.

(** Metrics and log say the same. *)
Lemma dial_traced steps : Forall (fun '(r, m, p) => r ∈ boundTLSResults ∧ m ∈ boundTLSModes ∧ p ∈ boundProtocols) (handshakes steps) →
  filter (fun c => family_of c = tlsHandshake) (dialMetrics steps) =
    (fun '(r, m, p) => Inc (mkSeries tlsHandshake [r; m; p])) <$> handshakes steps ∧
  filter (fun c => family_of c = tlsFailures) (dialMetrics steps) = (fun class => Inc (mkSeries tlsFailures [failureClassText class])) <$> observedFailures steps ∧
  filter (fun l => lg_message l = "upstream_tls_handshake") (dialLog steps) = (fun '(r, m, p) => handshakeRecord r m p) <$> handshakes steps ∧
  filter (fun l => lg_message l = "upstream_tls_failure") (dialLog steps) = failureRecord <$> observedFailures steps.
Proof.
  induction steps as [|s steps IH]; [done|]. unfold dialMetrics, dialLog in *. rewrite !bind_cons, !filter_app.
  destruct s as [address| | |r m p|class]; cbn [handshakes observedFailures omap list_omap]; try exact IH.
  - fold (handshakes steps) (observedFailures steps). intros [(Hr & Hm & Hp) Hall]%Forall_cons. destruct (IH Hall) as (-> & -> & -> & ->).
    cbn [observeStep observer_TLSHandshake fst snd]. rewrite TLSHandshake_series by done. done.
  - fold (handshakes steps) (observedFailures steps). intros Hall. destruct (IH Hall) as (-> & -> & -> & ->).
    cbn [observeStep observer_TLSFailure fst snd]. rewrite TLSFailure_series. done.
Qed.

Section Dial.
Context {connection : Type} (dialContext : string → result goError connection) (handshakeContext : connection → tlsConfig → result goError string).
Context (addressError : goError) (peer : connection → Leaf) (trusted : option TrustBundle → connection → Prop).

(** every TLS connection the gateway makes to an upstream is counted in exactly
    one handshake series and logged once, with the same result, mode and
    protocol, and counted as a success exactly when the connection is used; a
    failure class is counted and logged at most once, and then it is the one the
    error carries. *)
Lemma dial_recorded profile address config : tls_verifies handshakeContext peer trusted → dial_config profile config →
  pr_protocol profile ∈ boundProtocols →
  let '(steps, r) := newVerifiedTLSDialer dialContext handshakeContext addressError config profile true address in
  let result := if is_ok r then "success" else "failure" in
  (connected steps →
    filter (fun c => family_of c = tlsHandshake) (dialMetrics steps) = [Inc (mkSeries tlsHandshake [result; dialMode profile; pr_protocol profile])] ∧
    filter (fun l => lg_message l = "upstream_tls_handshake") (dialLog steps) = [handshakeRecord result (dialMode profile) (pr_protocol profile)]) ∧
  (filter (fun c => family_of c = tlsFailures) (dialMetrics steps) = [] ∨
   ∃ err class, r = Err err ∧ TLSFailureClassOf err = Some class ∧
     filter (fun c => family_of c = tlsFailures) (dialMetrics steps) = [Inc (mkSeries tlsFailures [failureClassText class])] ∧
     filter (fun l => lg_message l = "upstream_tls_failure") (dialLog steps) = [failureRecord class]).
Proof.
  intros Hv Hc Hp. pose proof (dial_outcome_of dialContext handshakeContext addressError peer trusted profile true address config Hv Hc) as Hd.
  destruct (newVerifiedTLSDialer _ _ _ _ _ _ _) as [steps r]. cbv zeta.
  assert (Hmode : dialMode profile ∈ boundTLSModes) by (unfold dialMode, boundTLSModes; case_bool_decide; set_solver).
  destruct r as [[conn negotiated]|err]; cbn [is_ok dial_outcome] in *.
  - destruct Hd as (_ & _ & _ & _ & _ & Hf & Hh). specialize (Hh eq_refl). pose proof (dial_traced steps) as Ht. rewrite Hh, Hf in Ht.
    destruct Ht as (-> & -> & -> & _); [|by split; [|left]]. constructor; [|done]. split_and!; [|done|done]. unfold boundTLSResults. set_solver.
  - destruct Hd as (_ & Hh & Hf). specialize (Hh eq_refl). pose proof (dial_traced steps) as Ht. destruct Hh as [[Hh Hn]|[Hh Hn]]; rewrite Hh in Ht.
    + destruct Ht as (-> & -> & -> & Hl); [done|]. split; [done|]. destruct Hf as [->|(class & E & Hclass)]; [by left|right].
      exists err, class. rewrite Hl, E. done.
    + destruct Ht as (-> & -> & -> & Hl); [constructor; [|done]; split_and!; [unfold boundTLSResults; set_solver|done|done]|]. split; [done|].
      destruct Hf as [->|(class & E & Hclass)]; [by left|right]. exists err, class. rewrite Hl, E. done.
Qed.
End Dial.

Lemma dial_recorded_witness :
  let steps := (newVerifiedTLSDialer (fun _ => Ok tt) demo_handshake_context [] demo_dial_config demo_profile true "other.example.com:443").1 in
  filter (fun c => family_of c = tlsHandshake) (dialMetrics steps) = [Inc (mkSeries tlsHandshake ["failure"; "server_auth"; "http2"])].
Proof.
  assert (Hp : pr_protocol demo_profile ∈ boundProtocols) by (right; right; left).
  pose proof (dial_recorded (fun _ => Ok tt) demo_handshake_context [] (fun _ => demo_peer) (fun _ _ => True) demo_profile "other.example.com:443"
    demo_dial_config demo_verifies demo_dial Hp) as Hd.
  destruct (newVerifiedTLSDialer _ _ _ _ _ _ _) as [steps r] eqn:E. destruct Hd as [Hd _].
  assert (Hc : connected steps) by (vm_compute in E; injection E as <- _; exists "other.example.com:443"; left).
  assert (Hr : is_ok r = false) by (vm_compute in E; injection E as _ <-; reflexivity).
  destruct (Hd Hc) as [Hm _]. rewrite Hr in Hm. exact Hm.
Defined.
