(* ===== verification/Resilience.v ===== *)
(** * Resilience gauges ([Registry.ResilienceStats], [internal/telemetry/resilience.go])

    The registry counts endpoints by public health state and sums retry budgets
    per upstream; the Prometheus collector turns one such snapshot into metrics.
    The maps of the registry are visited in any order: the entries visited are
    arguments. *)

From stdpp Require Import gmap strings.
From Stdlib Require Import Floats.SpecFloat.
From S2P Require Import Prelude GoStrings Predicate Resources UpstreamConfig Fingerprint Duration FloatMath Health Budget RefTable Plan Registry.
#[local] Open Scope string_scope.
#[local] Open Scope Z_scope.
#[local] Open Scope list_scope.

(** ** The snapshot *)

Record ResilienceStats := mkResilienceStats {
  rs_upstreamID : string;
  rs_unknown : Z;
  rs_healthy : Z;
  rs_unhealthy : Z;
  rs_retryInflight : Z;
  rs_retryBudgetTokens : float64;
}.

Definition zeroResilience (id : string) : ResilienceStats := mkResilienceStats id 0 0 0 0 (float_of_Z 0).

(** The upstream an endpoint identity belongs to. *)
Definition identityUpstream (identity : string) : string :=
  match index_byte Ascii.zero identity with Some separator => stake separator identity | None => identity end.

Section Stats.
Context (state : nat → HealthState) (inflight credits : nat → Z).

Definition countEndpoint (byUpstream : gmap string ResilienceStats) (kv : healthKey * entry (nat * nat)) : gmap string ResilienceStats :=
  let id := identityUpstream kv.1.1 in
  let '(mkResilienceStats i unknown healthy unhealthy running tokens) := default (zeroResilience id) (byUpstream !! id) in
  <[id := match state (e_runtime kv.2).1 with
          | HealthHealthy => mkResilienceStats i unknown (healthy + 1) unhealthy running tokens
          | HealthUnhealthy => mkResilienceStats i unknown healthy (unhealthy + 1) running tokens
          | HealthUnknown => mkResilienceStats i (unknown + 1) healthy unhealthy running tokens
          end]> byUpstream.

Definition sumBudget (byUpstream : gmap string ResilienceStats) (kv : budgetKey * entry nat) : gmap string ResilienceStats :=
  let id := kv.1.1 in
  let '(mkResilienceStats i unknown healthy unhealthy running tokens) := default (zeroResilience id) (byUpstream !! id) in
  <[id := mkResilienceStats i unknown healthy unhealthy (wrap32 (running + inflight (e_runtime kv.2)))
            (float_add tokens (float_div (float_of_Z (credits (e_runtime kv.2))) (float_of_Z retryCreditUnit)))]> byUpstream.

Definition statsByUpstream (health : list (healthKey * entry (nat * nat))) (budgets : list (budgetKey * entry nat)) : gmap string ResilienceStats :=
  foldl sumBudget (foldl countEndpoint ∅ health) budgets.

Definition stats_before (a b : ResilienceStats) : bool := String.ltb (rs_upstreamID a) (rs_upstreamID b).

Definition Registry_ResilienceStats (health : list (healthKey * entry (nat * nat))) (budgets : list (budgetKey * entry nat)) : list ResilienceStats :=
  sort_slice stats_before (map_to_list (statsByUpstream health budgets)).*2.
End Stats.

(** ** The collector *)

Inductive valueKind := GaugeValue | CounterValue | HistogramValue.
Record constMetric := mkConstMetric { mc_family : string; mc_kind : valueKind; mc_value : float64; mc_labels : list string }.

(** [HealthCoordinatorStats], as far as it is exported. *)
Record coordinatorStats := mkCoordinatorStats { hc_readyQueue : Z; hc_reschedules : Z }.

Definition healthEndpoints : string := "gateway_upstream_health_endpoints".
Definition healthTransitions : string := "gateway_upstream_health_transitions_total".
Definition healthProbes : string := "gateway_upstream_health_probes_total".
Definition healthProbeDuration : string := "gateway_upstream_health_probe_duration_seconds".
Definition schedulerQueue : string := "gateway_upstream_health_scheduler_queue".
Definition schedulerReschedules : string := "gateway_upstream_health_scheduler_reschedules_total".
Definition attemptsTotal : string := "gateway_upstream_attempts_total".
Definition retriesTotal : string := "gateway_upstream_retries_total".
Definition retrySuppressed : string := "gateway_upstream_retry_suppressed_total".
Definition retryInflight : string := "gateway_upstream_retry_inflight".
Definition retryBudgetTokens : string := "gateway_upstream_retry_budget_tokens".

Definition Describe : list string :=
  [healthEndpoints; healthTransitions; healthProbes; healthProbeDuration; schedulerQueue; schedulerReschedules; attemptsTotal; retriesTotal;
   retrySuppressed; retryInflight; retryBudgetTokens].

Definition collectUpstream (current : ResilienceStats) : list constMetric :=
  let id := rs_upstreamID current in
  [mkConstMetric healthEndpoints GaugeValue (float_of_Z (rs_unknown current)) [id; "unknown"];
   mkConstMetric healthEndpoints GaugeValue (float_of_Z (rs_healthy current)) [id; "healthy"];
   mkConstMetric healthEndpoints GaugeValue (float_of_Z (rs_unhealthy current)) [id; "unhealthy"];
   mkConstMetric attemptsTotal CounterValue (float_of_Z 0) [id; "success"];
   mkConstMetric retriesTotal CounterValue (float_of_Z 0) [id; "attempted"];
   mkConstMetric retryInflight GaugeValue (float_of_Z (rs_retryInflight current)) [id];
   mkConstMetric retryBudgetTokens GaugeValue (rs_retryBudgetTokens current) [id]].

Definition Collect (stats : list ResilienceStats) (coordinator : coordinatorStats) : list constMetric :=
  let stats := match stats with [] => [zeroResilience "__none__"] | _ => stats end in
  (stats ≫= collectUpstream) ++
  [mkConstMetric healthTransitions CounterValue (float_of_Z 0) ["active"; "unknown"];
   mkConstMetric healthProbes CounterValue (float_of_Z 0) ["http"; "success"];
   mkConstMetric healthProbeDuration HistogramValue (float_of_Z 0) ["http"];
   mkConstMetric schedulerQueue GaugeValue (float_of_Z (hc_readyQueue coordinator)) [];
   mkConstMetric schedulerReschedules CounterValue (float_of_Z (hc_reschedules coordinator)) ["queue_full"];
   mkConstMetric retrySuppressed CounterValue (float_of_Z 0) ["none"]].

(** ** The gauges are right *)

Section Correct.
Context (state : nat → HealthState) (inflight credits : nat → Z).
Implicit Types (health : list (healthKey * entry (nat * nat))) (budgets : list (budgetKey * entry nat)) (m : gmap string ResilienceStats).

(** The endpoints of an upstream that are in a state. *)
Definition tally health (st : HealthState) (id : string) : Z :=
  Z.of_nat (length (filter (fun kv => identityUpstream kv.1.1 = id ∧ state (e_runtime kv.2).1 = st) health)).

Definition stats_right health (id : string) (s : ResilienceStats) : Prop :=
  rs_upstreamID s = id ∧ rs_unknown s = tally health HealthUnknown id ∧ rs_healthy s = tally health HealthHealthy id ∧
  rs_unhealthy s = tally health HealthUnhealthy id.

Definition tallied health m : Prop := ∀ id, match m !! id with
  | Some s => stats_right health id s
  | None => ∀ st, tally health st id = 0
  end.

Lemma tallied_default health m id : tallied health m → stats_right health id (default (zeroResilience id) (m !! id)).
Proof. intros Hm. specialize (Hm id). destruct (m !! id) as [s|]; [done|]. unfold stats_right. cbn. by rewrite !Hm. Qed.

Lemma tally_snoc health kv st id : tally (health ++ [kv]) st id =
  tally health st id + (if bool_decide (identityUpstream kv.1.1 = id ∧ state (e_runtime kv.2).1 = st) then 1 else 0).
Proof.
  unfold tally. rewrite filter_app, length_app, filter_cons, filter_nil.
  case_decide as Hd; [rewrite bool_decide_eq_true_2 by done|rewrite bool_decide_eq_false_2 by done]; by rewrite Nat2Z.inj_add.
Qed.

Lemma countEndpoint_tallied health kv m : tallied health m → tallied (health ++ [kv]) (countEndpoint state m kv).
Proof.
  intros Hm id. unfold countEndpoint. pose proof (tallied_default health m (identityUpstream kv.1.1) Hm) as (Hi & Hu & Hh & Hx).
  destruct (default _ _) as [i unknown healthy unhealthy running tokens]. cbn in Hi, Hu, Hh, Hx. subst.
  destruct (decide (identityUpstream kv.1.1 = id)) as [<-|Hne].
  - rewrite lookup_insert_eq. unfold stats_right. rewrite !tally_snoc.
    destruct (state (e_runtime kv.2).1) eqn:Hs; cbn; split_and!; try done; rewrite ?bool_decide_eq_true_2 by done;
      rewrite ?bool_decide_eq_false_2 by (by intros [_ ?]); lia.
  - rewrite lookup_insert_ne by done. specialize (Hm id). unfold stats_right in *.
    assert (Hsame : ∀ st, tally (health ++ [kv]) st id = tally health st id) by (intros st; rewrite tally_snoc, bool_decide_eq_false_2; [lia|tauto]).
    destruct (m !! id); [by rewrite !Hsame|]. intros st. by rewrite Hsame.
Qed.

Lemma sumBudget_tallied health kv m : tallied health m → tallied health (sumBudget inflight credits m kv).
Proof.
  intros Hm id. unfold sumBudget. pose proof (tallied_default health m kv.1.1 Hm) as Hr. destruct (default _ _) as [i unknown healthy unhealthy running tokens].
  destruct (decide (kv.1.1 = id)) as [<-|Hne]; [by rewrite lookup_insert_eq|]. rewrite lookup_insert_ne by done. apply Hm.
Qed.

Lemma statsByUpstream_tallied health budgets : tallied health (statsByUpstream state inflight credits health budgets).
Proof.
  unfold statsByUpstream. induction budgets as [|kv budgets IH] using rev_ind.
  - cbn [foldl]. induction health as [|kv health IH] using rev_ind; [intros id; cbn [foldl]; by rewrite lookup_empty|]. rewrite foldl_snoc. by apply countEndpoint_tallied.
  - rewrite foldl_snoc. by apply sumBudget_tallied.
Qed.

(** All endpoints of a snapshot. *)
Definition endpoint_total (s : ResilienceStats) : Z := rs_unknown s + rs_healthy s + rs_unhealthy s.

Lemma update_total m id s : map_sum endpoint_total (<[id := s]> m) =
  map_sum endpoint_total m - endpoint_total (default (zeroResilience id) (m !! id)) + endpoint_total s.
Proof.
  destruct (m !! id) as [old|] eqn:Hm; [by apply map_sum_update|]. rewrite map_sum_insert_new by done. cbn [default from_option].
  change (endpoint_total (zeroResilience id)) with 0. lia.
Qed.

Lemma statsByUpstream_total health budgets : map_sum endpoint_total (statsByUpstream state inflight credits health budgets) = Z.of_nat (length health).
Proof.
  unfold statsByUpstream. induction budgets as [|kv budgets IH] using rev_ind.
  - cbn [foldl]. induction health as [|kv health IH] using rev_ind; [apply map_sum_empty|]. rewrite foldl_snoc, length_app. unfold countEndpoint at 1.
    set (m := foldl _ _ _) in *. set (id := identityUpstream _). pose proof (update_total m id) as Hu.
    destruct (default _ (m !! id)) as [i unknown healthy unhealthy running tokens].
    destruct (state _); rewrite Hu, IH; unfold endpoint_total; cbn; lia.
  - rewrite foldl_snoc. unfold sumBudget at 1. set (m := foldl _ _ _) in *. pose proof (update_total m kv.1.1) as Hu.
    destruct (default _ (m !! kv.1.1)) as [i unknown healthy unhealthy running tokens]. rewrite Hu, IH. unfold endpoint_total; cbn. lia.
Qed.

Lemma stats_elem health budgets s : s ∈ Registry_ResilienceStats state inflight credits health budgets ↔
  statsByUpstream state inflight credits health budgets !! rs_upstreamID s = Some s.
Proof.
  unfold Registry_ResilienceStats. rewrite elem_of_sort_slice, list_elem_of_fmap. split.
  - intros ([id s'] & -> & Hin). apply elem_of_map_to_list in Hin. pose proof (statsByUpstream_tallied health budgets id) as Ht. rewrite Hin in Ht.
    destruct Ht as [Hid _]. cbn [snd]. by rewrite Hid.
  - intros Hs. exists (rs_upstreamID s, s). split; [done|]. by apply elem_of_map_to_list.
Qed.

Lemma endpointIdentity_upstream id url : contains_byte Ascii.zero id = false → identityUpstream (endpointIdentity id url) = id.
Proof.
  intros Hid. unfold identityUpstream, endpointIdentity. rewrite index_byte_app by done. apply stake_app.
Qed.

(** the gauges a scrape exports count every tracked endpoint once, under its
    upstream and its public state: for every upstream that has a tracked endpoint
    there is one series per state, with the number of its endpoints in that
    state, and all of them add up to the size of the health table; upstreams come
    in order, each once. *)
Lemma resilience_gauges t health budgets : health ≡ₚ map_to_list (t_health t) →
  let stats := Registry_ResilienceStats state inflight credits health budgets in
  zsum endpoint_total stats = msize (t_health t) ∧ NoDup (rs_upstreamID <$> stats) ∧ StronglySorted (not_after stats_before) stats ∧
  (∀ key e id url, t_health t !! key = Some e → key.1 = endpointIdentity id url → contains_byte Ascii.zero id = false →
     ∃ s, s ∈ stats ∧ rs_upstreamID s = id ∧ 0 < tally health (state (e_runtime e).1) id ∧
       ∀ coordinator, [mkConstMetric healthEndpoints GaugeValue (float_of_Z (tally health HealthUnknown id)) [id; "unknown"];
         mkConstMetric healthEndpoints GaugeValue (float_of_Z (tally health HealthHealthy id)) [id; "healthy"];
         mkConstMetric healthEndpoints GaugeValue (float_of_Z (tally health HealthUnhealthy id)) [id; "unhealthy"]] ⊆ Collect stats coordinator).
Proof.
  intros Hperm. cbv zeta. split_and!.
  - unfold Registry_ResilienceStats. rewrite (zsum_perm _ _ _ (sort_slice_perm _ _)), zsum_fmap.
    change (map_sum endpoint_total (statsByUpstream state inflight credits health budgets) = msize (t_health t)).
    rewrite statsByUpstream_total, Hperm, length_map_to_list. done.
  - unfold Registry_ResilienceStats. rewrite sort_slice_perm. rewrite <-list_fmap_compose.
    assert (E : (rs_upstreamID ∘ snd <$> map_to_list (statsByUpstream state inflight credits health budgets)) =
      (map_to_list (statsByUpstream state inflight credits health budgets)).*1).
    { apply list_fmap_ext. intros i [id s] Hi. apply list_elem_of_lookup_2, elem_of_map_to_list in Hi.
      pose proof (statsByUpstream_tallied health budgets id) as Ht. rewrite Hi in Ht. by destruct Ht as [? _]. }
    rewrite E. apply NoDup_fst_map_to_list.
  - apply sort_slice_sorted; unfold stats_before; intros *; [apply string_ltb_asym|]. intros. by eapply string_ltb_false_trans.
  - intros key e id url Hk Hid Hz.
    assert (Hpos : 0 < tally health (state (e_runtime e).1) id).
    { assert (Hin : (key, e) ∈ filter (fun kv => identityUpstream kv.1.1 = id ∧ state (e_runtime kv.2).1 = state (e_runtime e).1) health).
      { apply list_elem_of_filter. split; [|rewrite Hperm; by apply elem_of_map_to_list]. cbn [fst snd]. rewrite Hid. split; [|done].
        by apply endpointIdentity_upstream. }
      unfold tally. destruct (filter _ health); [by apply elem_of_nil in Hin|]. simpl. lia. }
    pose proof (statsByUpstream_tallied health budgets id) as Ht. destruct (_ !! id) as [s|] eqn:Hs; [|by rewrite Ht in Hpos].
    destruct Ht as (Hsid & Hu & Hh & Hx). assert (Hin : s ∈ Registry_ResilienceStats state inflight credits health budgets).
    { apply stats_elem. by rewrite Hsid. }
    exists s. split_and!; [done|done|done|]. intros coordinator metric Hm. unfold Collect.
    apply elem_of_app. left. destruct (Registry_ResilienceStats _ _ _ _ _) as [|s' stats]; [by apply elem_of_nil in Hin|].
    apply list_elem_of_bind. exists s. split; [|done]. unfold collectUpstream. rewrite Hu, Hh, Hx, Hsid. set_solver.
Qed.
End Correct.

(** The families whose value is fixed. *)
Definition constantFamilies : list string := [attemptsTotal; retriesTotal; retrySuppressed; healthTransitions; healthProbes; healthProbeDuration].

(** the counters of attempts, retries, suppressed retries, health transitions and
    probes are exported but never counted: whatever has happened, a scrape shows
    zero for each of them. *)
Lemma resilience_constants stats coordinator metric : metric ∈ Collect stats coordinator → mc_family metric ∈ constantFamilies →
  mc_value metric = S754_zero false.
Proof.
  unfold Collect. intros [(s & Hm & _)%list_elem_of_bind|Hm]%elem_of_app Hf; unfold constantFamilies in Hf.
  - unfold collectUpstream in Hm. set_unfold. naive_solver.
  - set_unfold. naive_solver.
Qed.

(** Two tracked endpoints of one upstream. *)
Definition demo_health : gmap healthKey (entry (nat * nat)) :=
  {[(endpointIdentity "api" "http://a", "policy") := mkEntry (0%nat, 0%nat) 1; (endpointIdentity "api" "http://b", "policy") := mkEntry (1%nat, 1%nat) 2]}.
Definition demo_state (tracker : nat) : HealthState := match tracker with O => HealthHealthy | _ => HealthUnhealthy end.

Lemma resilience_gauges_witness :
  let stats := Registry_ResilienceStats demo_state (fun _ => 0) (fun _ => 0) (map_to_list demo_health) [] in
  zsum endpoint_total stats = 2 ∧ ∃ s, s ∈ stats ∧ rs_upstreamID s = "api" ∧ rs_healthy s = 1.
Proof.
  cbv zeta. destruct (resilience_gauges demo_state (fun _ => 0) (fun _ => 0) (mkTables ∅ ∅ ∅ demo_health ∅) (map_to_list demo_health) []
    (Permutation_refl _)) as (Hsum & _ & _ & Hall).
  split; [rewrite Hsum; vm_compute; reflexivity|].
  destruct (Hall (endpointIdentity "api" "http://a", "policy") (mkEntry (0%nat, 0%nat) 1) "api" "http://a") as (s & Hs & Hid & _ & _);
    [vm_compute; reflexivity|reflexivity|reflexivity|].
  exists s. split; [exact Hs|]. split; [exact Hid|]. apply stats_elem in Hs. rewrite Hid in Hs. vm_compute in Hs. injection Hs as <-. reflexivity.
Defined.
