(* ===== verification/Gateway.v ===== *)
(** * The gateway ([internal/gateway/gateway.go])

    The composition of the runtime manager, the tunnel registry, the request
    handlers and [Shutdown]. A request handler is the rest of its program; its
    next call is performed on the components it talks to, or answered by the
    environment when it goes elsewhere. All goroutines of the gateway are
    events of one machine: handlers, configuration changes, the reaper, tunnel
    sessions and their clean-ups, and the steps of [Shutdown]. Nothing is
    assumed about when the HTTP servers call the handler: they may do so even
    after their own [Shutdown] or [Close] has returned. *)

From S2P Require Import Prelude GoErrors GoStrings NetAddr Pattern Predicate Router Wrr HashKey Chash Url Resources X509 Fingerprint Health Budget RefTable Plan Registry.
From S2P Require Import Lifecycle Plugins DownstreamTLS Builder Manager.
From S2P Require Import Effects Attempts HttpHeader ProxyHeaders WebSocket Session Tunnel Handler.
#[local] Open Scope Z_scope.
#[local] Open Scope list_scope.

(** ** Shutdown *)

(** What [shutdown] does next. [own]: the manager is closed under a context of
    its own, because the caller's had expired. *)
Inductive shutdownPC :=
| NotShutdown
| ToUnready
| ToCloseAdmission
| ToStopHealth
| StoppingServers (returned : nat)
| ForcingServers (closed : nat)
| ToDrain
| Draining (swept : bool)
| AwaitingTraffic
| ToCloseManager
| RetiringSnapshot (own : bool)
| AwaitingRegistry (own : bool)
| StoppingAdmin
| ForcingAdmin
| Finished.

(** [sd_context] is [ctx.Err()]. *)
Record shutdown := mkShutdown {
  sd_pc : shutdownPC;
  sd_context : option sentinel;
  sd_errs : list goError;
  sd_contextRecorded : bool;
}.

Definition goto (s : shutdown) (pc : shutdownPC) : shutdown := mkShutdown pc (sd_context s) (sd_errs s) (sd_contextRecorded s).

(** [context.Canceled] and [context.DeadlineExceeded]; the latter is a
    [net.Error]. *)
Definition contextError (c : sentinel) : goError :=
  [mkErr [c] (if bool_decide (c = DeadlineExceeded) then Some true else None) OtherError].

Definition appendError (s : shutdown) (err : option goError) : shutdown :=
  match err with
  | None => s
  | Some e =>
    let other := mkShutdown (sd_pc s) (sd_context s) (sd_errs s ++ [e]) (sd_contextRecorded s) in
    match sd_context s with
    | None => other
    | Some c =>
      if errors_Is e c then
        if sd_contextRecorded s then s else mkShutdown (sd_pc s) (sd_context s) (sd_errs s ++ [contextError c]) true
      else other
    end
  end.

(** ** State *)

Section Gateway.
Context (xxh64 : string → Z) (sha256 sha1 : string → string) `{Unicode}.
Context {Q R : Type} (definitions : gmap string (@PluginDefinition Q R)).
Context (iterate : gmap string PluginAttachment → list string).
Context (legacy : option certificateProvider).
Context (observer : bool) (maxRequestBodyBytes : Z).

#[local] Abbreviation prog := (program (@effect Q R) unit).
#[local] Abbreviation managed := (@managed Q R).

(** Whether the goroutine of a handler is inside [Acquire], inside [Release]
    after its flag, or elsewhere. *)
Inductive activity := Computing | Acquiring (a : nat) | Dropping.

(** A running handler: what it still has to do, and what its variables hold. *)
Record handler := mkHandler {
  hd_program : prog;
  hd_activity : activity;
  hd_lease : option nat;
  hd_tunnelLease : option nat;
  hd_registration : option nat;
}.

(** [gw_owner] maps a tunnel registration to the tunnel lease its release
    callback gives back; [gw_applying] holds the calls of [Apply] that have
    passed the test of [closing]; the handlers are those [trafficRequests]
    counts. *)
Record gateway := mkGateway {
  gw_manager : managed;
  gw_tunnels : tunnels;
  gw_owner : gmap nat nat;
  gw_handlers : gmap nat handler;
  gw_nextHandler : nat;
  gw_applying : list (Z * ResourceSet);
  gw_started : bool;
  gw_ready : bool;
  gw_closing : bool;
  gw_healthStopped : bool;
  gw_shutdown : shutdown;
}.

Definition with_manager (g : gateway) (m : managed) : gateway :=
  mkGateway m (gw_tunnels g) (gw_owner g) (gw_handlers g) (gw_nextHandler g) (gw_applying g) (gw_started g) (gw_ready g)
    (gw_closing g) (gw_healthStopped g) (gw_shutdown g).
Definition with_tunnels (g : gateway) (t : tunnels) : gateway :=
  mkGateway (gw_manager g) t (gw_owner g) (gw_handlers g) (gw_nextHandler g) (gw_applying g) (gw_started g) (gw_ready g)
    (gw_closing g) (gw_healthStopped g) (gw_shutdown g).
Definition with_owner (g : gateway) (o : gmap nat nat) : gateway :=
  mkGateway (gw_manager g) (gw_tunnels g) o (gw_handlers g) (gw_nextHandler g) (gw_applying g) (gw_started g) (gw_ready g)
    (gw_closing g) (gw_healthStopped g) (gw_shutdown g).
Definition with_handlers (g : gateway) (hs : gmap nat handler) : gateway :=
  mkGateway (gw_manager g) (gw_tunnels g) (gw_owner g) hs (gw_nextHandler g) (gw_applying g) (gw_started g) (gw_ready g)
    (gw_closing g) (gw_healthStopped g) (gw_shutdown g).
Definition with_applying (g : gateway) (l : list (Z * ResourceSet)) : gateway :=
  mkGateway (gw_manager g) (gw_tunnels g) (gw_owner g) (gw_handlers g) (gw_nextHandler g) l (gw_started g) (gw_ready g)
    (gw_closing g) (gw_healthStopped g) (gw_shutdown g).
Definition with_ready (g : gateway) (ready : bool) : gateway :=
  mkGateway (gw_manager g) (gw_tunnels g) (gw_owner g) (gw_handlers g) (gw_nextHandler g) (gw_applying g) (gw_started g) ready
    (gw_closing g) (gw_healthStopped g) (gw_shutdown g).
Definition with_shutdown (g : gateway) (s : shutdown) : gateway :=
  mkGateway (gw_manager g) (gw_tunnels g) (gw_owner g) (gw_handlers g) (gw_nextHandler g) (gw_applying g) (gw_started g) (gw_ready g)
    (gw_closing g) (gw_healthStopped g) s.

Definition put (g : gateway) (i : nat) (h : handler) : gateway := with_handlers g (<[i := h]> (gw_handlers g)).

Inductive greaction := GBlocked | GPanicked | GDone (g : gateway).

Definition on_manager (g : gateway) (e : mevent) (k : managed → greaction) : greaction :=
  match mexec xxh64 sha256 definitions iterate legacy (gw_manager g) e with
  | MBlocked => GBlocked
  | MPanicked => GPanicked
  | MDone m => k m
  end.

(** ** Requests *)

(** What a handler leaves open: the transport of the selected endpoint, the
    session of a new tunnel, and the answers to all other calls. *)
Record choice := mkChoice {
  ch_key : transportKey;
  ch_transport : nat;
  ch_session : nat;
  ch_answers : ∀ X, @effect Q R X → X;
}.

(** The call returns and its caller goes on. *)
Definition answered (g : gateway) (i : nat) (h : handler) (p : prog) : greaction :=
  GDone (put g i (mkHandler p Computing (hd_lease h) (hd_tunnelLease h) (hd_registration h))).

(** The goroutine of handler [i] takes a step of the call [e]. *)
Definition callStep {X} (g : gateway) (i : nat) (h : handler) (c : choice) (e : @effect Q R X) : (X → prog) → greaction :=
  match e in effect X return (X → prog) → greaction with
  | AcquireSnapshot => fun k =>
    match hd_activity h with
    | Acquiring a =>
      match mg_acquirers (gw_manager g) !! a with
      | Some _ => GBlocked
      | None =>
        let lease := mg_leases (gw_manager g) !! a in
        GDone (put g i (mkHandler (k ((fun l => pb_snapshot (le_published l)) <$> lease)) Computing ((fun _ => a) <$> lease)
          (hd_tunnelLease h) (hd_registration h)))
      end
    | _ => on_manager g MAcquire (fun m =>
        GDone (put (with_manager g m) i (mkHandler (hd_program h) (Acquiring (mg_next (gw_manager g))) (hd_lease h)
          (hd_tunnelLease h) (hd_registration h))))
    end
  | ReleaseSnapshot => fun k =>
    match hd_lease h with
    | None => answered g i h (k tt)
    | Some l =>
      match hd_activity h with
      | Dropping => on_manager g (MDrop l) (fun m =>
          GDone (put (with_manager g m) i (mkHandler (k tt) Computing None (hd_tunnelLease h) (hd_registration h))))
      | _ => on_manager g (MFlag l) (fun m =>
          GDone (put (with_manager g m) i (mkHandler (hd_program h) Dropping (hd_lease h) (hd_tunnelLease h) (hd_registration h))))
      end
    end
  | AcquireTunnelLease => fun k =>
    let number := w_next (mg_world (gw_manager g)) in
    on_manager g (MBackground (EAcquireLease (ch_key c) (ch_transport c))) (fun m =>
      let leased := bool_decide (is_Some (w_leases (mg_world m) !! number)) in
      GDone (put (with_manager g m) i (mkHandler (k leased) Computing (hd_lease h) (if leased then Some number else hd_tunnelLease h)
        (hd_registration h))))
  | ReleaseTunnelLease => fun k =>
    match hd_tunnelLease h with
    | None => answered g i h (k tt)
    | Some l => on_manager g (MBackground (EReleaseLease l)) (fun m =>
        GDone (put (with_manager g m) i (mkHandler (k tt) Computing (hd_lease h) None (hd_registration h))))
    end
  | RegisterTunnel => fun k =>
    let '(t, id) := Register (gw_tunnels g) (ch_session c) in
    match id with
    | None => answered g i h (k false)
    | Some id =>
      let owner := match hd_tunnelLease h with Some l => <[id := l]> (gw_owner g) | None => gw_owner g end in
      GDone (put (with_owner (with_tunnels g t) owner) i (mkHandler (k true) Computing (hd_lease h) None (Some id)))
    end
  | RollbackTunnel => fun k =>
    match hd_registration h with
    | None => answered g i h (k tt)
    | Some id => answered (with_tunnels g (tunnel_Rollback (gw_tunnels g) id)) i h (k tt)
    end
  | ActivateTunnel => fun k =>
    match hd_registration h with
    | None => answered g i h (k false)
    | Some id => let '(t, active) := Activate observer (gw_tunnels g) id in answered (with_tunnels g t) i h (k active)
    end
  | e => fun k => answered g i h (k (ch_answers c _ e))
  end.

(** [trackTraffic]: a handler begins, goes on with its next call, or returns. *)
Definition beginRequest (g : gateway) (q : incoming) : greaction :=
  let h := mkHandler (ServeHTTP sha1 true maxRequestBodyBytes q) Computing None None None in
  GDone (mkGateway (gw_manager g) (gw_tunnels g) (gw_owner g) (<[gw_nextHandler g := h]> (gw_handlers g)) (S (gw_nextHandler g))
    (gw_applying g) (gw_started g) (gw_ready g) (gw_closing g) (gw_healthStopped g) (gw_shutdown g)).

Definition handlerStep (g : gateway) (i : nat) (c : choice) : greaction :=
  match gw_handlers g !! i with
  | None => GBlocked
  | Some h =>
    match hd_program h with
    | Ret _ => GDone (with_handlers g (delete i (gw_handlers g)))
    | Call e k => callStep g i h c e k
    end
  end.

(** ** Tunnels *)

(** A goroutine performs a pending call of the tunnel registry; the clean-up of
    a registration gives its lease back. *)
Definition tunnelTask (g : gateway) (k : nat) : greaction :=
  match tn_tasks (gw_tunnels g) !! k with
  | None => GBlocked
  | Some task =>
    match perform observer (gw_tunnels g) k with
    | None => GPanicked
    | Some t =>
      match task with
      | ToForceClose _ => GDone (with_tunnels g t)
      | ToFinish id _ _ =>
        match (r ← tn_objects (gw_tunnels g) !! id; if rg_cleaned r then None else gw_owner g !! id) with
        | None => GDone (with_tunnels g t)
        | Some l => on_manager g (MBackground (EReleaseLease l)) (fun m => GDone (with_tunnels (with_manager g m) t))
        end
      end
    end
  end.

(** ** Configuration changes *)

(** [Apply] up to the manager's; a refused call changes nothing. *)
Definition gateway_Apply (g : gateway) (revision : Z) (resources : ResourceSet) : greaction :=
  if gw_closing g then GDone g else GDone (with_applying g (gw_applying g ++ [(revision, resources)])).

Definition enterApply (g : gateway) (k : nat) : greaction :=
  match gw_applying g !! k with
  | None => GBlocked
  | Some (revision, resources) =>
    on_manager g (MApply revision resources) (fun m => GDone (with_applying (with_manager g m) (delete k (gw_applying g))))
  end.

(** Steps of the manager and its registry that no handler and no tunnel takes,
    and those inside [Acquire]. *)
Definition spontaneous (healthStopped : bool) (e : mevent) : bool :=
  match e with
  | MApplyStep _ | MLoad _ | MTry _ | MRecheck _ => true
  | MBackground (EAcquireLease _ _) | MBackground (EReleaseLease _) => false
  | MBackground (EActivate _ _ stopped) => Bool.eqb stopped healthStopped
  | MBackground _ => true
  | _ => false
  end.

(** ** [Start] and [Shutdown] *)

(** [Start] after its three binds; it is not called during [Shutdown]. *)
Definition startServing (g : gateway) : greaction :=
  if gw_started g || gw_closing g then GBlocked
  else GDone (mkGateway (gw_manager g) (gw_tunnels g) (gw_owner g) (gw_handlers g) (gw_nextHandler g) (gw_applying g) true true
    (gw_closing g) (gw_healthStopped g) (gw_shutdown g)).

(** [Shutdown] up to [shutdownOnce]; later calls wait for the first. *)
Definition Shutdown (g : gateway) : greaction :=
  let s := gw_shutdown g in
  GDone (mkGateway (gw_manager g) (gw_tunnels g) (gw_owner g) (gw_handlers g) (gw_nextHandler g) (gw_applying g) (gw_started g)
    (gw_ready g) true (gw_healthStopped g) (match sd_pc s with NotShutdown => goto s ToUnready | _ => s end)).

(** The caller's context expires, once. *)
Definition expire (g : gateway) (c : sentinel) : greaction :=
  let s := gw_shutdown g in
  match sd_context s with
  | Some _ => GBlocked
  | None =>
    if negb (bool_decide (c = Canceled ∨ c = DeadlineExceeded)) then GBlocked
    else GDone (with_shutdown g (mkShutdown (sd_pc s) (Some c) (sd_errs s) (sd_contextRecorded s)))
  end.

Definition expired (s : shutdown) : bool := bool_decide (is_Some (sd_context s)).

(** The critical section of [Drain] after the context has expired. *)
Definition sweepTunnels (g : gateway) : greaction :=
  match sd_pc (gw_shutdown g) with
  | Draining false =>
    if expired (gw_shutdown g) then GDone (with_shutdown (with_tunnels g (sweep (gw_tunnels g))) (goto (gw_shutdown g) (Draining true)))
    else GBlocked
  | _ => GBlocked
  end.

(** What the context of [Manager.Close] has expired with, if it has. *)
Definition managerContext (s : shutdown) (own : bool) : option sentinel := if own then Some DeadlineExceeded else sd_context s.

(** The next step of the goroutine in [shutdown]; [err] is what the call it
    waits for returns: of an HTTP server anything, of the registry [nil] when
    its test succeeds and else the error of its context. *)
Definition shutdownStep (g : gateway) (err : option goError) : greaction :=
  let s := gw_shutdown g in
  match sd_pc s with
  | NotShutdown | Finished => GBlocked
  | ToUnready => GDone (with_shutdown (with_ready g false) (goto s ToCloseAdmission))
  | ToCloseAdmission => GDone (with_shutdown (with_tunnels g (CloseAdmission (gw_tunnels g))) (goto s ToStopHealth))
  | ToStopHealth =>
    GDone (mkGateway (gw_manager g) (gw_tunnels g) (gw_owner g) (gw_handlers g) (gw_nextHandler g) (gw_applying g) (gw_started g)
      (gw_ready g) (gw_closing g) true (goto s (StoppingServers 0)))
  | StoppingServers O => GDone (with_shutdown g (goto (appendError s err) (StoppingServers 1)))
  | StoppingServers _ => GDone (with_shutdown g (goto (appendError s err) (if expired s then ForcingServers 0 else ToDrain)))
  | ForcingServers O => GDone (with_shutdown g (goto (appendError s err) (ForcingServers 1)))
  | ForcingServers _ => GDone (with_shutdown g (goto (appendError s err) ToDrain))
  | ToDrain => GDone (with_shutdown (with_tunnels g (CloseAdmission (gw_tunnels g))) (goto s (Draining false)))
  | Draining swept =>
    if drainReturns (gw_tunnels g) then
      let result := if swept then contextError <$> sd_context s else None in
      GDone (with_shutdown g (goto (appendError s result) AwaitingTraffic))
    else GBlocked
  | AwaitingTraffic => if bool_decide (gw_handlers g = ∅) then GDone (with_shutdown g (goto s ToCloseManager)) else GBlocked
  | ToCloseManager => on_manager g MClose (fun m => GDone (with_shutdown (with_manager g m) (goto s (RetiringSnapshot (expired s)))))
  | RetiringSnapshot own =>
    match mg_pc (gw_manager g) with
    | Unlocked => on_manager g MCloseRegistry (fun m => GDone (with_shutdown (with_manager g m) (goto s (AwaitingRegistry own))))
    | _ => GBlocked
    end
  | AwaitingRegistry own =>
    let w := mg_world (gw_manager g) in
    match err with
    | None =>
      match w_reaper w with
      | None => if closeReady (statsLocked (w_registry w)) then GDone (with_shutdown g (goto s StoppingAdmin)) else GBlocked
      | Some _ => GBlocked
      end
    | Some _ =>
      match managerContext s own with
      | None => GBlocked
      | Some c => GDone (with_shutdown g (goto (appendError s (Some (contextError c))) StoppingAdmin))
      end
    end
  | StoppingAdmin =>
    let s := appendError s err in
    GDone (with_shutdown g (goto s (if bool_decide (is_Some err) && expired s then ForcingAdmin else Finished)))
  | ForcingAdmin => GDone (with_shutdown g (goto (appendError s err) Finished))
  end.

(** ** The machine *)

Inductive gevent :=
| GStart
| GServeFailed
| GApply (revision : Z) (resources : ResourceSet)
| GEnterApply (k : nat)
| GManager (e : mevent)
| GBegin (q : incoming)
| GHandler (i : nat) (c : choice)
| GRunReturned (id : nat) (result : sessionResult)
| GTask (k : nat)
| GShutdown
| GExpire (c : sentinel)
| GSweep
| GStep (err : option goError).

Definition gexec (g : gateway) (e : gevent) : greaction :=
  match e with
  | GStart => startServing g
  | GServeFailed => if gw_started g then GDone (with_ready g false) else GBlocked
  | GApply revision resources => gateway_Apply g revision resources
  | GEnterApply k => enterApply g k
  | GManager e => if spontaneous (gw_healthStopped g) e then on_manager g e (fun m => GDone (with_manager g m)) else GBlocked
  | GBegin q => beginRequest g q
  | GHandler i c => handlerStep g i c
  | GRunReturned id result =>
    match runReturned (gw_tunnels g) id result with Some t => GDone (with_tunnels g t) | None => GBlocked end
  | GTask k => tunnelTask g k
  | GShutdown => Shutdown g
  | GExpire c => expire g c
  | GSweep => sweepTunnels g
  | GStep err => shutdownStep g err
  end.

(** The gateway [New] returns, before its initial configuration. *)
Definition NewGateway (r : Registry) : gateway :=
  mkGateway (NewManager r) NewTunnels ∅ ∅ 0 [] false false false false (mkShutdown NotShutdown None [] false).

Inductive greachable : gateway → Prop :=
| greach_initial maxRetired workers queue notified r :
    NewRegistry maxRetired workers queue notified = Some r → greachable (NewGateway r)
| greach_step g e g' : greachable g → gexec g e = GDone g' → greachable g'.
End Gateway.
