(* ===== verification/GatewaySafe.v ===== *)
(** * What the composed gateway guarantees

    Every lease is owned: a snapshot lease by the handler that acquired it, a
    tunnel lease by the handler or by the tunnel it was handed to. [Shutdown]
    therefore gets everything back. *)

From S2P Require Import Prelude GoErrors GoStrings NetAddr Pattern Predicate Router Wrr HashKey Chash Url Resources X509 Fingerprint Health Budget RefTable Plan Registry.
From S2P Require Import RegistryTx Lifecycle LifecycleSafe Plugins DownstreamTLS Builder Manager ManagerSafe ManagerFrame.
From S2P Require Import Effects Attempts HttpHeader ProxyHeaders WebSocket Session Tunnel Handler Gateway.
#[local] Open Scope Z_scope.
#[local] Open Scope list_scope.

(** ** The protocol of handlers *)

(** How far a handler is with its tunnel. *)
Inductive tunnelStage := NoTunnel | HoldsLease | Registered | Settled.
Record stage := mkStage { sg_lease : bool; sg_tunnel : tunnelStage }.

Section Protocol.
Context {Q R : Type}.

(** A snapshot is acquired when none is held and a tunnel lease while one is
    held; a tunnel lease is released or handed to a registration, which is
    rolled back or activated. *)
Definition handlerCalls X (s : stage) (e : @effect Q R X) : X → option stage :=
  match e in effect X return X → option stage with
  | AcquireSnapshot => fun x => if sg_lease s then None else Some (mkStage (match x with Some _ => true | None => false end) (sg_tunnel s))
  | ReleaseSnapshot => fun _ => if sg_lease s then Some (mkStage false (sg_tunnel s)) else None
  | AcquireTunnelLease => fun ok =>
    match s with mkStage true NoTunnel => Some (mkStage true (if ok then HoldsLease else NoTunnel)) | _ => None end
  | ReleaseTunnelLease => fun _ => match sg_tunnel s with HoldsLease => Some (mkStage (sg_lease s) NoTunnel) | _ => None end
  | RegisterTunnel => fun ok =>
    match sg_tunnel s with HoldsLease => Some (mkStage (sg_lease s) (if ok then Registered else HoldsLease)) | _ => None end
  | RollbackTunnel => fun _ => match sg_tunnel s with Registered => Some (mkStage (sg_lease s) Settled) | _ => None end
  | ActivateTunnel => fun _ => match sg_tunnel s with Registered => Some (mkStage (sg_lease s) Settled) | _ => None end
  | _ => fun _ => Some s
  end.

(** Nothing is held any more. *)
Definition released (s : stage) : Prop := sg_lease s = false ∧ (sg_tunnel s = NoTunnel ∨ sg_tunnel s = Settled).

#[local] Abbreviation keeps s p := (follows (@handlerCalls) s p (fun s' _ => s' = s)).
#[local] Abbreviation start := (mkStage true NoTunnel).
#[local] Abbreviation settles p := (follows (@handlerCalls) start p (fun s _ => s = start ∨ s = mkStage true Settled)).

Ltac follow := obey ltac:(cbn [handlerCalls sg_lease sg_tunnel]); try done; auto.

Context `{Unicode} (sha1 : string → string).

Lemma writeError_keeps s f : keeps s (writeError f).
Proof. unfold writeError. follow. Qed.

Lemma writeMatchedHTTPResponse_keeps s status code headers body runHooks : keeps s (writeMatchedHTTPResponse status code headers body runHooks).
Proof. unfold writeMatchedHTTPResponse. follow. Qed.

(** A part that keeps the state, with what comes after it. *)
Lemma keeps_then {A B} s (p : program (@effect Q R) A) (f : A → program (@effect Q R) B) P :
  keeps s p → (∀ a, follows (@handlerCalls) s (f a) P) → follows (@handlerCalls) s (p ≫= f) P.
Proof. intros Hp Hf. apply follows_bind. eapply follows_mono; [exact Hp|]. intros s' a ->. apply Hf. Qed.

Lemma keeps_settles {A} (p : program (@effect Q R) A) : keeps start p → settles p.
Proof. intros Hp. eapply follows_mono; [exact Hp|]. intros s a ->. by left. Qed.

Lemma handleProxyError_keeps s q matched err : keeps s (handleProxyError q matched err).
Proof. unfold handleProxyError, writeMatchedErrorWithoutHooks, writeMatchedResponse. follow. all: first [apply writeError_keeps|apply writeMatchedHTTPResponse_keeps]. Qed.

Lemma forwardResponse_keeps s r : keeps s (forwardResponse r).
Proof. unfold forwardResponse. follow. Qed.

Lemma handleForwardResponseError_keeps s q err : keeps s (handleForwardResponseError q err).
Proof. unfold handleForwardResponseError. follow. all: first [apply writeMatchedHTTPResponse_keeps|apply handleProxyError_keeps]. Qed.

Lemma commitUpgrade_settles tunnels idle timed r : follows (@handlerCalls) (mkStage true HoldsLease) (commitUpgrade tunnels idle timed r)
  (fun s _ => s = start ∨ s = mkStage true Settled).
Proof. unfold commitUpgrade, writeHijackedErrorBounded, writeHijackedError. follow. Qed.

Lemma fail_settles result p : keeps start p → settles (fail (Q:=Q) (R:=R) result p).
Proof. intros Hp. unfold fail. obey ltac:(cbn [handlerCalls]). eapply follows_mono; [exact Hp|]. intros s a ->. by left. Qed.

Lemma acceptUpgrade_settles tunnels idle timed q captured r : settles (acceptUpgrade sha1 tunnels idle timed q captured r).
Proof.
  unfold acceptUpgrade. follow.
  all: first [apply commitUpgrade_settles|apply fail_settles, writeMatchedHTTPResponse_keeps|eapply follows_mono].
  - apply writeMatchedHTTPResponse_keeps.
  - intros s a ->. by left.
  - apply forwardResponse_keeps.
  - intros s [err|] ->; [|by left]. apply keeps_then; [apply handleForwardResponseError_keeps|]. by left.
Qed.

Lemma serveWebSocket_settles tunnels q route : settles (serveWebSocket sha1 tunnels q route).
Proof.
  unfold serveWebSocket, writeWebSocketUpstreamError, writeMatchedResponse, writeShortCircuit. follow.
  all: try apply keeps_settles, writeMatchedHTTPResponse_keeps.
  all: eapply follows_mono; [first [apply acceptUpgrade_settles|apply fail_settles, writeMatchedHTTPResponse_keeps]|].
  all: intros s [] [->| ->]; follow.
Qed.

Lemma serveLeased_settles tunnels limit q (snapshot : @Snapshot Q R) : settles (serveLeased sha1 tunnels limit q snapshot).
Proof.
  unfold serveLeased, serveRoute, writeMatchedResponse, writeShortCircuit. follow.
  all: first [apply serveWebSocket_settles|apply keeps_settles, writeMatchedHTTPResponse_keeps|apply keeps_settles, writeError_keeps].
Qed.

(** Every request obeys the protocol and ends with nothing held. *)
Lemma ServeHTTP_follows tunnels limit q :
  follows (@handlerCalls) (mkStage false NoTunnel) (ServeHTTP (Q:=Q) (R:=R) sha1 tunnels limit q) (fun s _ => released s).
Proof.
  unfold ServeHTTP. apply follows_call. intros [snapshot|]; cbn [handlerCalls sg_lease sg_tunnel].
  - apply follows_bind. eapply follows_mono; [apply serveLeased_settles|]. intros s _ [->| ->]; follow.
    all: split; cbn; auto.
  - eapply follows_mono; [apply writeError_keeps|]. intros s _ ->. split; cbn; auto.
Qed.
End Protocol.

(** ** Tunnels *)

Section Tunnels.
Context (observer : bool).

(** A registration whose clean-up is still to run. *)
Definition owned (t : tunnels) (id : nat) : Prop := ∃ r, tn_objects t !! id = Some r ∧ rg_cleaned r = false.

Lemma owned_insert t t' id r j : tn_objects t' = <[id := r]> (tn_objects t) → (owned t id → rg_cleaned r = false) → owned t j → owned t' j.
Proof.
  intros Ht Hr Hj. unfold owned. rewrite Ht. destruct (decide (id = j)) as [->|Hne].
  - rewrite lookup_insert_eq. eauto.
  - by rewrite lookup_insert_ne.
Qed.

(** Changing the state of a registration. *)
Lemma owned_state t t' id g s j : tn_objects t !! id = Some g → tn_objects t' = <[id := set_state g s]> (tn_objects t) → owned t j → owned t' j.
Proof. intros Hg Ht. apply (owned_insert _ _ _ _ _ Ht). intros (g' & Hg' & Hc). rewrite Hg in Hg'. by injection Hg' as ->. Qed.

Lemma Register_owned t session j : owned t j → owned (Register t session).1 j.
Proof. unfold Register. destruct (tn_admissionClosed t); [done|]. by apply (owned_insert t _ (S (tn_nextID t)) (mkRegistrationT session registrationPending false)). Qed.

Lemma Activate_owned t id j : owned t j → owned (Activate observer t id).1 j.
Proof.
  unfold Activate. destruct (tn_objects t !! id) as [g|] eqn:Hg; [|done]. case_bool_decide; [|done]. by apply (owned_state _ _ _ _ registrationActive _ Hg).
Qed.

Lemma Rollback_owned t id j : owned t j → owned (tunnel_Rollback t id) j.
Proof.
  unfold tunnel_Rollback. destruct (tn_objects t !! id) as [g|] eqn:Hg; [|done]. case_bool_decide; [|done]. by apply (owned_state _ _ _ _ registrationDone _ Hg).
Qed.

Lemma runReturned_owned t id result t' j : runReturned t id result = Some t' → owned t j → owned t' j.
Proof.
  unfold runReturned. destruct (tn_objects t !! id) as [g|] eqn:Hg; [|done]. case_bool_decide; [|done]. intros [= <-]. by apply (owned_state _ _ _ _ registrationDone _ Hg).
Qed.

Lemma sweep_owned t j : owned t j → owned (sweep t) j.
Proof.
  unfold sweep. generalize (elements (tn_registrations t)) as ids. intros ids. revert t. induction ids as [|id ids IH]; intros t Hj; [done|]. simpl.
  apply IH. unfold sweepOne. destruct (tn_objects t !! id) as [g|] eqn:Hg; [|done]. destruct (rg_state g); try done.
  by apply (owned_state _ _ _ _ registrationDone _ Hg).
Qed.

(** Only the clean-up of a registration ends its ownership. *)
Lemma perform_owned t k task t' j : tn_tasks t !! k = Some task → perform observer t k = Some t' → owned t j →
  (∀ active result, task ≠ ToFinish j active result) → owned t' j.
Proof.
  intros Hk. unfold perform. rewrite Hk. destruct task as [id active result|session]; [|by intros [= <-]].
  unfold finish. simpl. intros Hp Hj Hne. destruct (tn_objects t !! id) as [g|] eqn:Hg; [|by injection Hp as <-].
  destruct (rg_cleaned g) eqn:Hc; [by injection Hp as <-|]. destruct (_ <? 0); [done|]. injection Hp as <-.
  destruct Hj as (r & Hr & Hrc). exists r. split; [|done]. simpl. rewrite lookup_insert_ne; [done|]. intros ->. by apply (Hne active result).
Qed.

(** Nothing is owned once the wait group is down to zero, and after admission
    has closed it does not go up again. *)
Lemma drained_unowned t j : tunnels_ok observer t → tn_wait t = 0 → ¬ owned t j.
Proof.
  intros Ht Hw (r & Hr & Hc). rewrite (tk_wait _ _ Ht) in Hw.
  assert (Hn : ∀ g, 0 ≤ uncleaned g) by (intros g; unfold uncleaned; destruct (rg_cleaned g); lia).
  pose proof (map_sum_elem_le uncleaned _ _ _ Hn Hr) as Hle. unfold uncleaned at 1 in Hle. rewrite Hc in Hle. lia.
Qed.

Lemma sweep_wait t : tn_admissionClosed (sweep t) = tn_admissionClosed t ∧ tn_wait (sweep t) = tn_wait t.
Proof.
  unfold sweep. generalize (elements (tn_registrations t)) as ids. intros ids. revert t. induction ids as [|id ids IH]; intros t; [done|]. simpl.
  destruct (IH (sweepOne t id)) as [-> ->]. unfold sweepOne. destruct (tn_objects t !! id) as [g|]; [|done]. by destruct (rg_state g).
Qed.

Lemma texec_wait t e t' : texec observer t e = TDone t' → tn_admissionClosed t = true → tn_admissionClosed t' = true ∧ tn_wait t' ≤ tn_wait t.
Proof.
  intros He Hc. destruct e; cbn [texec] in He.
  - unfold Register in He. rewrite Hc in He. by injection He as <-.
  - unfold Activate in He. repeat case_match; by simplify_eq/=.
  - unfold tunnel_Rollback in He. repeat case_match; by simplify_eq/=.
  - unfold runReturned in He. repeat case_match; by simplify_eq/=.
  - unfold perform, finish in He. repeat case_match; simplify_eq/=; split; try done; lia.
  - by injection He as <-.
  - rewrite Hc in He. injection He as <-. destruct (sweep_wait t) as [-> ->]. split; [done|lia].
Qed.

Lemma texec_drained t e t' : tunnels_ok observer t → tn_admissionClosed t = true → tn_wait t = 0 → texec observer t e = TDone t' →
  tn_admissionClosed t' = true ∧ tn_wait t' = 0.
Proof.
  intros Ht Hc Hw He. destruct (texec_wait _ _ _ He Hc) as [Hc' Hle]. split; [done|].
  pose proof (texec_good observer t e Ht) as Hg. rewrite He in Hg.
  assert (0 ≤ tn_wait t'); [|lia]. rewrite (tk_wait _ _ Hg). apply map_sum_nonneg. intros g. unfold uncleaned. destruct (rg_cleaned g); lia.
Qed.
End Tunnels.

(** ** Ownership *)

Section Gateway.
Context (xxh64 : string → Z) (sha256 sha1 : string → string) `{Unicode}.
Context {Q R : Type} (definitions : gmap string (@PluginDefinition Q R)).
Context (iterate : gmap string PluginAttachment → list string).
Context (legacy : option certificateProvider).
Context (observer : bool) (maxRequestBodyBytes : Z).

#[local] Abbreviation gexec := (gexec xxh64 sha256 sha1 definitions iterate legacy observer maxRequestBodyBytes).
#[local] Abbreviation greachable := (greachable xxh64 sha256 sha1 definitions iterate legacy observer maxRequestBodyBytes).
#[local] Abbreviation mexec := (mexec xxh64 sha256 definitions iterate legacy).
#[local] Abbreviation mreachable := (mreachable xxh64 sha256 definitions iterate legacy).
#[local] Abbreviation managed := (@managed Q R).
#[local] Abbreviation handler := (@handler Q R).
#[local] Abbreviation gateway := (@gateway Q R).
#[local] Abbreviation obeys s p := (follows (A:=unit) (@handlerCalls Q R) s p (fun final _ => released final)).

Definition acquires (p : program (@effect Q R) unit) : bool :=
  match p with Ret _ => false | Call e _ => match e with AcquireSnapshot => true | _ => false end end.
Definition drops (p : program (@effect Q R) unit) : bool :=
  match p with Ret _ => false | Call e _ => match e with ReleaseSnapshot => true | _ => false end end.

(** The variables of a handler agree with the protocol. *)
Definition agrees (s : stage) (h : handler) : Prop :=
  sg_lease s = bool_decide (is_Some (hd_lease h)) ∧ (sg_tunnel s = HoldsLease ↔ is_Some (hd_tunnelLease h)).

Record handler_ok (h : handler) : Prop := {
  hk_stage : ∃ s, obeys s (hd_program h) ∧ agrees s h;
  hk_acquiring a : hd_activity h = Acquiring a → acquires (hd_program h) = true;
  hk_dropping : hd_activity h = Dropping → drops (hd_program h) = true;
}.

(** The leases a handler has, or is about to get. *)
Definition holds (h : handler) (l : nat) : Prop := hd_lease h = Some l ∨ hd_activity h = Acquiring l.

Record composed (m : managed) (t : tunnels) (owner : gmap nat nat) (hs : gmap nat handler) (next : nat) : Prop := {
  cp_manager : mreachable m;
  cp_tunnels : treachable observer t;
  cp_handlers i h : hs !! i = Some h → handler_ok h;
  cp_fresh i : (next ≤ i)%nat → hs !! i = None;
  cp_acquirers a : is_Some (mg_acquirers m !! a) → ∃ i h, hs !! i = Some h ∧ hd_activity h = Acquiring a;
  cp_leases l : outstanding m l → ∃ i h, hs !! i = Some h ∧ holds h l;
  cp_tunnelLeases n : unreleased (mg_world m) n →
    (∃ i h, hs !! i = Some h ∧ hd_tunnelLease h = Some n) ∨ ∃ id, owned t id ∧ owner !! id = Some n;
}.

(** A step of the manager that acquires nothing. *)
Lemma composed_manager m t owner hs next e m' : composed m t owner hs next → mexec m e = MDone m' → e ≠ MAcquire →
  (∀ key transport, e ≠ MBackground (EAcquireLease key transport)) → composed m' t owner hs next.
Proof.
  intros [C1 C2 C3 C4 C5 C6 C7] He Ha Hl. split; [by eapply mreach_step|done..| | |].
  - intros a Hs. apply (mexec_acquirers _ _ _ _ _ _ _ _ _ He) in Hs as [?|[? _]]; [by apply C5|done].
  - intros l Ho. apply (mexec_outstanding _ _ _ _ _ _ _ _ _ He) in Ho as [?|(i & h & Hi & Hact)%C5]; [by apply C6|]. exists i, h. split; [done|by right].
  - intros n Hn. apply (mexec_unreleased _ _ _ _ _ _ _ _ _ He) in Hn as [?|(key & transport & -> & _)]; [by apply C7|]. by destruct (Hl key transport).
Qed.

(** A step of the tunnel registry that cleans nothing up. *)
Lemma composed_tunnels m t owner hs next t' : composed m t owner hs next → treachable observer t' → (∀ id, owned t id → owned t' id) →
  composed m t' owner hs next.
Proof.
  intros [C1 C2 C3 C4 C5 C6 C7] Ht Ho. split; try done.
  intros n Hn. destruct (C7 n Hn) as [?|(id & Hid & Hown)]; [by left|right]. exists id. auto.
Qed.

(** A step of a handler, with what it does to the components. *)
Lemma composed_step m t owner hs next m' t' owner' i h h' : composed m t owner hs next → hs !! i = Some h → handler_ok h' →
  mreachable m' → treachable observer t' →
  (∀ a, is_Some (mg_acquirers m' !! a) → hd_activity h' = Acquiring a ∨ is_Some (mg_acquirers m !! a) ∧ hd_activity h ≠ Acquiring a) →
  (∀ l, outstanding m' l → holds h' l ∨ (outstanding m l ∨ is_Some (mg_acquirers m !! l)) ∧ ¬ holds h l) →
  (∀ n, unreleased (mg_world m') n → hd_tunnelLease h' = Some n ∨ (∃ id, owned t' id ∧ owner' !! id = Some n) ∨
     unreleased (mg_world m) n ∧ hd_tunnelLease h ≠ Some n) →
  (∀ id n, unreleased (mg_world m') n → owned t id → owner !! id = Some n → owned t' id ∧ owner' !! id = Some n) →
  composed m' t' owner' (<[i := h']> hs) next.
Proof.
  intros [C1 C2 C3 C4 C5 C6 C7] Hi Hok Hm Ht Hacq Hlease Htl Hown.
  assert (Hput : ∀ P : handler → Prop, P h' ∨ (∃ j x, hs !! j = Some x ∧ P x) ∧ ¬ P h → ∃ j x, <[i := h']> hs !! j = Some x ∧ P x).
  { intros P [HP|[(j & x & Hj & HP) Hn]]; [exists i, h'; by rewrite lookup_insert_eq|]. exists j, x.
    rewrite lookup_insert_ne; [done|]. intros ->. rewrite Hi in Hj. by injection Hj as ->. }
  split; [done|done| | | | |].
  - intros j x [[_ <-]|[_ Hj]]%lookup_insert_Some; [done|by eapply C3].
  - intros j Hj. rewrite lookup_insert_ne; [by apply C4|]. intros ->. rewrite C4 in Hi by done. done.
  - intros a Ha. apply Hput. destruct (Hacq a Ha) as [?|[Ha' Hn]]; [by left|right]. split; [by apply C5|done].
  - intros l Hl. apply Hput. destruct (Hlease l Hl) as [?|[[Hl'|Hl'] Hn]]; [by left|right..]; (split; [|done]); [by apply C6|].
    destruct (C5 l Hl') as (j & x & Hj & Hx). exists j, x. split; [done|by right].
  - intros n Hn. destruct (Htl n Hn) as [Heq|[?|[Hn' Hne]]]; [left; exists i, h'; by rewrite lookup_insert_eq|by right|].
    destruct (C7 n Hn') as [Hh|(id & Ho & Hn'')]; [left; apply Hput; by right|right]. exists id. by apply Hown.
Qed.
(** ** Steps of a handler *)

Definition gateway_ok (g : gateway) : Prop :=
  composed (gw_manager g) (gw_tunnels g) (gw_owner g) (gw_handlers g) (gw_nextHandler g).

Lemma next_ok s p lease tl reg : obeys s p → sg_lease s = bool_decide (is_Some lease) →
  (sg_tunnel s = HoldsLease ↔ is_Some tl) → handler_ok (mkHandler p Computing lease tl reg).
Proof. intros Hf Hl Ht. split; [|done..]. exists s. by split. Qed.

Lemma not_acquiring h a : handler_ok h → acquires (hd_program h) = false → hd_activity h ≠ Acquiring a.
Proof. intros Hh Hp Ha. rewrite (hk_acquiring _ Hh a Ha) in Hp. done. Qed.

Lemma holds_lease h l : handler_ok h → acquires (hd_program h) = false → holds h l → hd_lease h = Some l.
Proof. intros Hh Hp [?|Ha]; [done|]. by destruct (not_acquiring h l Hh Hp). Qed.

(** A call that concerns neither the manager nor the lease of the handler. *)
Lemma composed_answer m t owner hs next t' i h p reg : composed m t owner hs next → hs !! i = Some h → acquires (hd_program h) = false →
  treachable observer t' → (∀ id, owned t id → owned t' id) →
  (∀ s, obeys s (hd_program h) → agrees s h →
     ∃ s', obeys s' p ∧ agrees s' h) →
  composed m t' owner (<[i := mkHandler p Computing (hd_lease h) (hd_tunnelLease h) reg]> hs) next.
Proof.
  intros Hc Hi Hp Ht Ho Hs. pose proof (cp_handlers _ _ _ _ _ Hc _ _ Hi) as Hh.
  destruct (hk_stage _ Hh) as (s & Hf & Hag). destruct (Hs s Hf Hag) as (s' & Hf' & [Hl' Ht']).
  eapply composed_step; [exact Hc|exact Hi|by eapply next_ok|exact (cp_manager _ _ _ _ _ Hc)|done|..].
  - intros a Ha. right. split; [done|]. by apply not_acquiring.
  - intros l Hl. destruct (decide (hd_lease h = Some l)) as [E|E]; [left; by left|right]. split; [by left|].
    intros Hh'%holds_lease; done.
  - intros n Hn. destruct (decide (hd_tunnelLease h = Some n)) as [E|E]; [by left|right]. right. done.
  - intros id n _ Hid Hn. split; [by apply Ho|done].
Qed.

(** What a step does to everything but the handlers. *)
Record kept (g g' : gateway) : Prop := {
  kp_shutdown : gw_shutdown g' = gw_shutdown g;
  kp_ready : gw_ready g' = gw_ready g;
  kp_closing : gw_closing g' = gw_closing g;
  kp_health : gw_healthStopped g' = gw_healthStopped g;
  kp_manager : gw_manager g' = gw_manager g ∨ ∃ e, mexec (gw_manager g) e = MDone (gw_manager g');
  kp_tunnels : gw_tunnels g' = gw_tunnels g ∨ ∃ e, texec observer (gw_tunnels g) e = TDone (gw_tunnels g');
}.

Lemma on_manager_done g e k g' : on_manager xxh64 sha256 definitions iterate legacy g e k = GDone g' →
  ∃ m, mexec (gw_manager g) e = MDone m ∧ k m = GDone g'.
Proof. unfold on_manager. destruct (mexec (gw_manager g) e) as [| |m]; try done. by exists m. Qed.

(** Splits the claims of a step and opens the new state. *)
Ltac stepped :=
  split; [unfold gateway_ok; cbn [gw_manager gw_tunnels gw_owner gw_handlers gw_nextHandler put with_manager with_handlers with_tunnels with_owner]
         |split; cbn; eauto].

(** A tunnel lease the handler keeps, or that somebody else has. *)
Lemma same_tunnelLease (m : managed) t (owner : gmap nat nat) (h h' : handler) n : hd_tunnelLease h' = hd_tunnelLease h → unreleased (mg_world m) n →
  hd_tunnelLease h' = Some n ∨ (∃ id, owned t id ∧ owner !! id = Some n) ∨ unreleased (mg_world m) n ∧ hd_tunnelLease h ≠ Some n.
Proof. intros -> Hn. destruct (decide (hd_tunnelLease h = Some n)); [by left|by right; right]. Qed.

Lemma begin_acquire_ok g i h g' : gateway_ok g → gw_handlers g !! i = Some h → acquires (hd_program h) = true → hd_lease h = None →
  (∀ a, hd_activity h ≠ Acquiring a) →
  on_manager xxh64 sha256 definitions iterate legacy g MAcquire (fun m =>
    GDone (put (with_manager g m) i (mkHandler (hd_program h) (Acquiring (mg_next (gw_manager g))) (hd_lease h)
      (hd_tunnelLease h) (hd_registration h)))) = GDone g' → gateway_ok g' ∧ kept g g'.
Proof.
  intros Hg Hi Hp Hl Hact (m & Hm & [= <-])%on_manager_done. stepped.
  destruct (cp_handlers _ _ _ _ _ Hg _ _ Hi) as [(s & Hf & Hag) _ _].
  eapply composed_step; [exact Hg|exact Hi| |by eapply mreach_step, Hm; apply (cp_manager _ _ _ _ _ Hg)|exact (cp_tunnels _ _ _ _ _ Hg)|..]; cbn [hd_activity].
  - split; cbn [hd_program hd_activity]; [by exists s|done..].
  - intros a Ha. apply (mexec_acquirers _ _ _ _ _ _ _ _ _ Hm) in Ha as [?|[_ ->]]; [right|by left]. split; [done|apply Hact].
  - intros l Ho. right. split; [by apply (mexec_outstanding _ _ _ _ _ _ _ _ _ Hm)|]. intros [?|?]; [congruence|by eapply Hact].
  - intros n Hn. apply (mexec_unreleased _ _ _ _ _ _ _ _ _ Hm) in Hn as [Hn|(? & ? & ? & _)]; [|done]. by apply same_tunnelLease.
  - done.
Qed.

Lemma acquireSnapshot_ok g i h c k g' : gateway_ok g → gw_handlers g !! i = Some h → hd_program h = Call AcquireSnapshot k →
  callStep xxh64 sha256 definitions iterate legacy observer g i h c AcquireSnapshot k = GDone g' → gateway_ok g' ∧ kept g g'.
Proof.
  intros Hg Hi Hp. pose proof (cp_handlers _ _ _ _ _ Hg _ _ Hi) as Hh. destruct (hk_stage _ Hh) as (s & Hf & [Hsl Hst]). rewrite Hp in Hf.
  assert (Hnone : sg_lease s = false) by (specialize (Hf None); cbn in Hf; by destruct (sg_lease s)).
  assert (Hlease : hd_lease h = None) by (destruct (hd_lease h); [rewrite Hnone in Hsl; done|done]).
  cbn [callStep]. destruct (hd_activity h) as [|a|] eqn:Hact.
  1,3: apply begin_acquire_ok; [done|done|by rewrite Hp|done|by rewrite Hact].
  destruct (mg_acquirers (gw_manager g) !! a) eqn:Ha; [done|]. intros [= <-]. stepped.
  set (lease := mg_leases (gw_manager g) !! a). specialize (Hf ((fun l => pb_snapshot (le_published l)) <$> lease)).
  cbn [handlerCalls] in Hf. rewrite Hnone in Hf.
  eapply composed_step; [exact Hg|exact Hi| |exact (cp_manager _ _ _ _ _ Hg)|exact (cp_tunnels _ _ _ _ _ Hg)|..]; cbn [hd_activity].
  - eapply next_ok; [exact Hf|cbn; by destruct lease|exact Hst].
  - intros b Hb. right. split; [done|]. intros E. assert (b = a) as -> by congruence. cbn in Hb. rewrite Ha in Hb. by destruct Hb.
  - intros l Hl. destruct (decide (l = a)) as [->|Hne].
    + left. left. destruct Hl as (x & Hx & _). unfold lease. cbn. by rewrite Hx.
    + right. split; [by left|]. intros [E|E]; congruence.
  - intros n Hn. by apply same_tunnelLease.
  - done.
Qed.

(** A step of the manager in a handler, after its snapshot was acquired. *)
Lemma composed_hstep m t owner hs next e m' i h h' : composed m t owner hs next → hs !! i = Some h → acquires (hd_program h) = false →
  mexec m e = MDone m' → e ≠ MAcquire → (∀ key transport, e ≠ MBackground (EAcquireLease key transport)) → handler_ok h' →
  (∀ l, outstanding m' l → hd_lease h = Some l → hd_lease h' = Some l) →
  (∀ n, unreleased (mg_world m') n → hd_tunnelLease h = Some n → hd_tunnelLease h' = Some n) →
  composed m' t owner (<[i := h']> hs) next.
Proof.
  intros Hc Hi Hp Hm Hne Hnl Hok Hl Ht. pose proof (cp_handlers _ _ _ _ _ Hc _ _ Hi) as Hh.
  eapply composed_step; [exact Hc|exact Hi|done|by eapply mreach_step, Hm; apply (cp_manager _ _ _ _ _ Hc)|exact (cp_tunnels _ _ _ _ _ Hc)|..].
  - intros a Ha. apply (mexec_acquirers _ _ _ _ _ _ _ _ _ Hm) in Ha as [?|[? _]]; [right|done]. split; [done|by apply not_acquiring].
  - intros l Ho. destruct (decide (hd_lease h = Some l)) as [E|E]; [left; left; by apply Hl|right].
    split; [by apply (mexec_outstanding _ _ _ _ _ _ _ _ _ Hm)|]. by intros ?%holds_lease.
  - intros n Hn. destruct (decide (hd_tunnelLease h = Some n)) as [E|E]; [left; by apply Ht|right; right].
    apply (mexec_unreleased _ _ _ _ _ _ _ _ _ Hm) in Hn as [Hn|(key & transport & -> & _)]; [done|]. by destruct (Hnl key transport).
  - done.
Qed.

Lemma releaseSnapshot_ok g i h c k g' : gateway_ok g → gw_handlers g !! i = Some h → hd_program h = Call ReleaseSnapshot k →
  callStep xxh64 sha256 definitions iterate legacy observer g i h c ReleaseSnapshot k = GDone g' → gateway_ok g' ∧ kept g g'.
Proof.
  intros Hg Hi Hp. destruct (cp_handlers _ _ _ _ _ Hg _ _ Hi) as [(s & Hf & [Hsl Hst]) _ _].
  assert (Hna : acquires (hd_program h) = false) by (by rewrite Hp).
  assert (Hf' := Hf). rewrite Hp in Hf'. specialize (Hf' tt). cbn [handlerCalls] in Hf'. destruct (sg_lease s) eqn:Hs; [|done].
  cbn [callStep]. destruct (hd_lease h) as [l|] eqn:Hl; [|done].
  assert (Hflag : ∀ g', on_manager xxh64 sha256 definitions iterate legacy g (MFlag l) (fun m =>
      GDone (put (with_manager g m) i (mkHandler (hd_program h) Dropping (Some l) (hd_tunnelLease h) (hd_registration h)))) = GDone g' →
      gateway_ok g' ∧ kept g g').
  { intros g1 (m & Hm & [= <-])%on_manager_done. stepped.
    eapply composed_hstep; [exact Hg|exact Hi|done|exact Hm|done|done| |by rewrite Hl|done].
    split; cbn [hd_program hd_activity]; [|done|by rewrite Hp]. exists s. split; [done|]. split; cbn; [by rewrite Hs|done]. }
  destruct (hd_activity h) as [|a|] eqn:Hact; [apply Hflag|apply Hflag|].
  intros (m & Hm & [= <-])%on_manager_done. stepped.
  eapply composed_hstep; [exact Hg|exact Hi|done|exact Hm|done|done| | |done].
  - eapply next_ok; [exact Hf'|done|exact Hst].
  - rewrite Hl. intros l' Ho [= <-]. by apply (mexec_dropped _ _ _ _ _ _ _ _ Hm) in Ho.
Qed.

(** ** Tunnels of a handler *)

Lemma acquireLease_ok g i h c k g' : gateway_ok g → gw_handlers g !! i = Some h → hd_program h = Call Handler.AcquireTunnelLease k →
  callStep xxh64 sha256 definitions iterate legacy observer g i h c Handler.AcquireTunnelLease k = GDone g' → gateway_ok g' ∧ kept g g'.
Proof.
  intros Hg Hi Hp. pose proof (cp_handlers _ _ _ _ _ Hg _ _ Hi) as Hh. destruct (hk_stage _ Hh) as (s & Hf & [Hsl Hst]). rewrite Hp in Hf.
  assert (Hna : acquires (hd_program h) = false) by (by rewrite Hp).
  cbn [callStep]. intros (m & Hm & [= <-])%on_manager_done. stepped.
  set (number := w_next (mg_world (gw_manager g))). set (leased := bool_decide _). specialize (Hf leased). cbn [handlerCalls] in Hf.
  destruct s as [[] []]; try done. cbn [sg_tunnel sg_lease] in *.
  assert (Htl : hd_tunnelLease h = None) by (apply eq_None_not_Some; by intros ?%Hst).
  eapply composed_step; [exact Hg|exact Hi| |by eapply mreach_step, Hm; apply (cp_manager _ _ _ _ _ Hg)|exact (cp_tunnels _ _ _ _ _ Hg)|..].
  - eapply next_ok; [exact Hf|done|]. rewrite Htl. destruct leased; cbn; split; [by eexists|done|done|by intros []].
  - intros a Ha. apply (mexec_acquirers _ _ _ _ _ _ _ _ _ Hm) in Ha as [?|[? _]]; [right|done]. split; [done|by apply not_acquiring].
  - intros l Ho. destruct (decide (hd_lease h = Some l)) as [E|E]; [left; by left|right].
    split; [by apply (mexec_outstanding _ _ _ _ _ _ _ _ _ Hm)|]. by intros ?%holds_lease.
  - intros n Hn. cbn [hd_tunnelLease]. rewrite Htl. assert (Hn' := Hn). apply (mexec_unreleased _ _ _ _ _ _ _ _ _ Hm) in Hn as [Hn|(_ & _ & _ & ->)]; [by right; right|].
    left. unfold leased. rewrite bool_decide_eq_true_2; [done|]. destruct Hn' as (x & Hx & _). by exists x.
  - done.
Qed.

Lemma releaseLease_ok g i h c k g' : gateway_ok g → gw_handlers g !! i = Some h → hd_program h = Call ReleaseTunnelLease k →
  callStep xxh64 sha256 definitions iterate legacy observer g i h c ReleaseTunnelLease k = GDone g' → gateway_ok g' ∧ kept g g'.
Proof.
  intros Hg Hi Hp. destruct (cp_handlers _ _ _ _ _ Hg _ _ Hi) as [(s & Hf & [Hsl Hst]) _ _]. rewrite Hp in Hf.
  specialize (Hf tt). cbn [handlerCalls] in Hf. destruct (sg_tunnel s) eqn:Hs; try done. cbn [callStep].
  destruct (hd_tunnelLease h) as [n|] eqn:Hn; [|by destruct (proj1 Hst)].
  intros (m & Hm & [= <-])%on_manager_done. stepped.
  eapply composed_hstep; [exact Hg|exact Hi|by rewrite Hp|exact Hm|done|done| |done|].
  - eapply next_ok; [exact Hf|done|]. cbn. split; [done|by intros []].
  - rewrite Hn. intros n' Hu [= <-]. by apply (mexec_release _ _ _ _ _ _ _ _ Hm) in Hu.
Qed.

(** The lease passes from the handler to the new registration. *)
Lemma register_ok g i h c k g' : gateway_ok g → gw_handlers g !! i = Some h → hd_program h = Call RegisterTunnel k →
  callStep xxh64 sha256 definitions iterate legacy observer g i h c RegisterTunnel k = GDone g' → gateway_ok g' ∧ kept g g'.
Proof.
  intros Hg Hi Hp. pose proof (cp_handlers _ _ _ _ _ Hg _ _ Hi) as Hh. destruct (hk_stage _ Hh) as (s & Hf & [Hsl Hst]). rewrite Hp in Hf.
  assert (Hna : acquires (hd_program h) = false) by (by rewrite Hp).
  assert (Hs : sg_tunnel s = HoldsLease) by (specialize (Hf true); cbn in Hf; by destruct (sg_tunnel s)).
  destruct (proj1 Hst Hs) as [n Hn]. cbn [callStep]. unfold Register. destruct (tn_admissionClosed (gw_tunnels g)) eqn:Hclosed.
  - intros [= <-]. stepped. eapply composed_answer; [exact Hg|exact Hi|done|exact (cp_tunnels _ _ _ _ _ Hg)|done|].
    intros _ _ _. exists s. split; [|done]. specialize (Hf false). cbn [handlerCalls] in Hf. rewrite Hs in Hf. by destruct s; simplify_eq/=.
  - set (id := S (tn_nextID (gw_tunnels g))). set (t' := mkTunnels _ _ _ _ _ _ _).
    assert (Ht : texec observer (gw_tunnels g) (TRegister (ch_session c)) = TDone t') by (cbn; unfold Register; by rewrite Hclosed).
    rewrite Hn. intros [= <-]. stepped. specialize (Hf true). cbn [handlerCalls] in Hf. rewrite Hs in Hf.
    assert (Hnew : owned t' id) by (exists (mkRegistrationT (ch_session c) registrationPending false); cbn; by rewrite lookup_insert_eq).
    assert (Hfresh : tn_objects (gw_tunnels g) !! id = None).
    { apply (tk_fresh _ _ (treachable_ok _ _ (cp_tunnels _ _ _ _ _ Hg))). unfold id. lia. }
    eapply composed_step; [exact Hg|exact Hi| |exact (cp_manager _ _ _ _ _ Hg)|by eapply treach_step, Ht; apply (cp_tunnels _ _ _ _ _ Hg)|..].
    + eapply next_ok; [exact Hf|done|]. cbn. split; [done|by intros []].
    + intros a Ha. right. split; [done|by apply not_acquiring].
    + intros l Hl. destruct (decide (hd_lease h = Some l)) as [E|E]; [left; by left|right]. split; [by left|]. by intros ?%holds_lease.
    + intros n' Hn'. right. destruct (decide (n' = n)) as [->|Hne]; [left|right; split; [done|congruence]].
      exists id. by rewrite lookup_insert_eq.
    + intros j n' _ Hj Hown. split; [by apply (owned_insert (gw_tunnels g) t' id (mkRegistrationT (ch_session c) registrationPending false))|].
      rewrite lookup_insert_ne; [done|]. intros <-. destruct Hj as (r & Hr & _). congruence.
Qed.

(** Rolling back and activating leave the lease with the registration. *)
Lemma settle_ok g i h p t' : gateway_ok g → gw_handlers g !! i = Some h → acquires (hd_program h) = false → 
  (t' = gw_tunnels g ∨ ∃ e, texec observer (gw_tunnels g) e = TDone t') → (∀ id, owned (gw_tunnels g) id → owned t' id) →
  (∀ s, obeys s (hd_program h) → agrees s h →
     ∃ s', obeys s' p ∧ agrees s' h) →
  let g' := put (with_tunnels g t') i (mkHandler p Computing (hd_lease h) (hd_tunnelLease h) (hd_registration h)) in
  gateway_ok g' ∧ kept g g'.
Proof.
  intros Hg Hi Hp Ht Ho Hs. stepped. eapply composed_answer; [exact Hg|exact Hi|done| |done|done].
  destruct Ht as [->|[e He]]; [exact (cp_tunnels _ _ _ _ _ Hg)|eapply treach_step, He; exact (cp_tunnels _ _ _ _ _ Hg)].
Qed.

(** From a pending registration to a settled one. *)
Lemma settled_stage (h : handler) s p : sg_tunnel s = Registered → obeys (mkStage (sg_lease s) Settled) p →
  agrees s h → ∃ s', obeys s' p ∧ agrees s' h.
Proof. intros Hs Hf [Hl Ht]. eexists. split; [exact Hf|]. split; [exact Hl|]. cbn. rewrite <-Ht, Hs. done. Qed.

Lemma rollback_ok g i h c k g' : gateway_ok g → gw_handlers g !! i = Some h → hd_program h = Call RollbackTunnel k →
  callStep xxh64 sha256 definitions iterate legacy observer g i h c RollbackTunnel k = GDone g' → gateway_ok g' ∧ kept g g'.
Proof.
  intros Hg Hi Hp. cbn [callStep]. intros Hstep.
  assert (Hs : ∀ s, obeys s (hd_program h) → agrees s h →
     ∃ s', obeys s' (k tt) ∧ agrees s' h).
  { intros s Hf Hag. rewrite Hp in Hf. specialize (Hf tt). cbn [handlerCalls] in Hf. destruct (sg_tunnel s) eqn:Hs; try done. by eapply settled_stage. }
  destruct (hd_registration h) as [id|] eqn:Hr; injection Hstep as <-.
  - apply settle_ok; [done|done|by rewrite Hp| |intros j; by apply Rollback_owned|done]. right. by exists (TRollback id).
  - apply (settle_ok g i h (k tt) (gw_tunnels g)); [done|done|by rewrite Hp|by left|done|done].
Qed.

Lemma activate_ok g i h c k g' : gateway_ok g → gw_handlers g !! i = Some h → hd_program h = Call ActivateTunnel k →
  callStep xxh64 sha256 definitions iterate legacy observer g i h c ActivateTunnel k = GDone g' → gateway_ok g' ∧ kept g g'.
Proof.
  intros Hg Hi Hp. cbn [callStep]. intros Hstep.
  assert (Hs : ∀ x s, obeys s (hd_program h) → agrees s h →
     ∃ s', obeys s' (k x) ∧ agrees s' h).
  { intros x s Hf Hag. rewrite Hp in Hf. specialize (Hf x). cbn [handlerCalls] in Hf. destruct (sg_tunnel s) eqn:Hs; try done. by eapply settled_stage. }
  destruct (hd_registration h) as [id|] eqn:Hr.
  - destruct (Activate observer (gw_tunnels g) id) as [t' ok] eqn:Ha. injection Hstep as <-.
    assert (Ht : t' = (Activate observer (gw_tunnels g) id).1) by (by rewrite Ha).
    apply settle_ok; [done|done|by rewrite Hp| |intros j; rewrite Ht; by apply Activate_owned|by apply Hs]. right. exists (TActivate id). cbn. by rewrite Ha.
  - injection Hstep as <-. apply (settle_ok g i h (k false) (gw_tunnels g)); [done|done|by rewrite Hp|by left|done|by apply Hs].
Qed.

Lemma neutral_call_ok g i h p : gateway_ok g → gw_handlers g !! i = Some h → acquires (hd_program h) = false →
  (∀ s, obeys s (hd_program h) → obeys s p) →
  let g' := put g i (mkHandler p Computing (hd_lease h) (hd_tunnelLease h) (hd_registration h)) in gateway_ok g' ∧ kept g g'.
Proof.
  intros Hg Hi Hp Hs. apply (settle_ok g i h p (gw_tunnels g)); [done|done|done|by left|done|]. intros s Hf Hag. exists s. split; [by apply Hs|done].
Qed.

Lemma callStep_ok {X} g i h c (e : @effect Q R X) k g' : gateway_ok g → gw_handlers g !! i = Some h → hd_program h = Call e k →
  callStep xxh64 sha256 definitions iterate legacy observer g i h c e k = GDone g' → gateway_ok g' ∧ kept g g'.
Proof.
  intros Hg Hi Hp. destruct e.
  all: first [by apply acquireSnapshot_ok|by apply releaseSnapshot_ok|by apply acquireLease_ok|by apply releaseLease_ok|by apply register_ok
             |by apply rollback_ok|by apply activate_ok|idtac].
  all: cbn [callStep]; intros [= <-]; apply neutral_call_ok; [done|done|by rewrite Hp|].
  all: intros s Hf; rewrite Hp in Hf; exact (Hf _).
Qed.

Lemma handlerStep_ok g i c g' : gateway_ok g → handlerStep xxh64 sha256 definitions iterate legacy observer g i c = GDone g' → gateway_ok g' ∧ kept g g'.
Proof.
  intros Hg. unfold handlerStep. destruct (gw_handlers g !! i) as [h|] eqn:Hi; [|done]. destruct (hd_program h) as [u|X e k] eqn:Hp; [|by apply callStep_ok].
  intros [= <-]. stepped. destruct (cp_handlers _ _ _ _ _ Hg _ _ Hi) as [(s & Hf & [Hsl Hst]) Hacq _]. rewrite Hp in Hf, Hacq. destruct Hf as [Hrl Hrt].
  assert (Hl : hd_lease h = None) by (apply eq_None_not_Some; intros Hs; rewrite bool_decide_eq_true_2 in Hsl by done; congruence).
  assert (Ht : hd_tunnelLease h = None) by (apply eq_None_not_Some; intros Hs%Hst; destruct Hrt; congruence).
  assert (Hother : ∀ P : handler → Prop, ¬ P h → (∃ j x, gw_handlers g !! j = Some x ∧ P x) → ∃ j x, delete i (gw_handlers g) !! j = Some x ∧ P x).
  { intros P Hn (j & x & Hj & HP). exists j, x. rewrite lookup_delete_ne; [done|]. intros ->. rewrite Hi in Hj. by injection Hj as ->. }
  destruct Hg as [C1 C2 C3 C4 C5 C6 C7]. split; [done|done| | | | |].
  - intros j x [_ Hj]%lookup_delete_Some. by eapply C3.
  - intros j Hj. apply lookup_delete_None. right. by apply C4.
  - intros a Ha. apply Hother; [|by apply C5]. intros Hact. by apply Hacq in Hact.
  - intros l Ho. apply Hother; [|by apply C6]. intros [?|Hact]; [congruence|by apply Hacq in Hact].
  - intros n Hn. destruct (C7 n Hn) as [Hh|?]; [left|by right]. apply Hother; [congruence|done].
Qed.

(** ** Everything else *)

(** The clean-up of a registration gives its lease back. *)
Lemma tunnelTask_ok g k g' : gateway_ok g → tunnelTask xxh64 sha256 definitions iterate legacy observer g k = GDone g' → gateway_ok g' ∧ kept g g'.
Proof.
  intros Hg. unfold tunnelTask. destruct (tn_tasks (gw_tunnels g) !! k) as [task|] eqn:Hk; [|done].
  destruct (perform observer (gw_tunnels g) k) as [t|] eqn:Hp; [|done].
  assert (Ht : texec observer (gw_tunnels g) (TPerform k) = TDone t) by (cbn; by rewrite Hp).
  assert (Hr : treachable observer t) by (eapply treach_step, Ht; exact (cp_tunnels _ _ _ _ _ Hg)).
  destruct task as [id active result|session].
  - destruct (_ ≫= _) as [l|] eqn:Hl.
    + intros (m & Hm & [= <-])%on_manager_done. stepped.
      assert (Hc := composed_manager _ _ _ _ _ _ _ Hg Hm ltac:(done) ltac:(done)). destruct Hc as [C1 C2 C3 C4 C5 C6 C7]. split; [done..|].
      intros n Hn. destruct (C7 n Hn) as [?|(j & Hj & Hown)]; [by left|right]. exists j. split; [|done].
      eapply perform_owned; [exact Hk|exact Hp|done|]. intros ? ? [= -> _ _].
      destruct (tn_objects (gw_tunnels g) !! j) as [r|]; [|done]. simpl in Hl. destruct (rg_cleaned r); [done|].
      rewrite Hown in Hl. injection Hl as ->. by apply (mexec_release _ _ _ _ _ _ _ _ Hm) in Hn.
    + intros [= <-]. stepped. destruct Hg as [C1 C2 C3 C4 C5 C6 C7]. split; [done..|].
      intros n Hn. destruct (C7 n Hn) as [?|(j & Hj & Hown)]; [by left|right]. exists j. split; [|done].
      eapply perform_owned; [exact Hk|exact Hp|done|]. intros ? ? [= -> _ _].
      destruct Hj as (r & Hr' & Hc). rewrite Hr' in Hl. simpl in Hl. rewrite Hc in Hl. congruence.
  - intros [= <-]. stepped. eapply composed_tunnels; [exact Hg|done|]. intros j Hj. by eapply perform_owned.
Qed.

Lemma spontaneous_ok g e g' : gateway_ok g → spontaneous (gw_healthStopped g) e = true →
  on_manager xxh64 sha256 definitions iterate legacy g e (fun m => GDone (with_manager g m)) = GDone g' → gateway_ok g' ∧ kept g g'.
Proof.
  intros Hg He (m & Hm & [= <-])%on_manager_done. stepped. eapply composed_manager; [exact Hg|exact Hm|by intros ->|by intros ? ? ->].
Qed.

Lemma beginRequest_ok g q g' : gateway_ok g → beginRequest sha1 maxRequestBodyBytes g q = GDone g' → gateway_ok g' ∧ kept g g'.
Proof.
  intros [C1 C2 C3 C4 C5 C6 C7] [= <-]. stepped.
  assert (Hkeep : ∀ i (x : handler), gw_handlers g !! i = Some x → i ≠ gw_nextHandler g) by (intros i x Hx ->; rewrite C4 in Hx by lia; done).
  split; [done|done| | | | |].
  - intros i h [[_ <-]|[_ Hi]]%lookup_insert_Some; [|by eapply C3].
    apply (next_ok (mkStage false NoTunnel)); [apply ServeHTTP_follows|done|]. cbn. split; [done|by intros []].
  - intros i Hi. rewrite lookup_insert_ne by lia. apply C4. lia.
  - intros a (i & h & Hi & Ha)%C5. exists i, h. rewrite lookup_insert_ne; [done|]. intros <-. by eapply Hkeep.
  - intros l (i & h & Hi & Hl)%C6. exists i, h. rewrite lookup_insert_ne; [done|]. intros <-. by eapply Hkeep.
  - intros n [(i & h & Hi & Hn)|?]%C7; [left|by right]. exists i, h. rewrite lookup_insert_ne; [done|]. intros <-. by eapply Hkeep.
Qed.

(** ** The phases of [Shutdown] *)

Definition phase (pc : shutdownPC) : nat :=
  match pc with
  | NotShutdown => 0 | ToUnready => 1 | ToCloseAdmission => 2 | ToStopHealth => 3 | StoppingServers _ => 4 | ForcingServers _ => 5
  | ToDrain => 6 | Draining _ => 7 | AwaitingTraffic => 8 | ToCloseManager => 9 | RetiringSnapshot _ => 10 | AwaitingRegistry _ => 11
  | StoppingAdmin => 12 | ForcingAdmin => 13 | Finished => 14
  end%nat.

Definition reached (g : gateway) (n : nat) : Prop := (n ≤ phase (sd_pc (gw_shutdown g)))%nat.

Record phase_ok (g : gateway) : Prop := {
  ph_closing : reached g 1 → gw_closing g = true;
  ph_ready : reached g 2 → gw_ready g = false;
  ph_admission : reached g 3 → tn_admissionClosed (gw_tunnels g) = true;
  ph_health : reached g 4 → gw_healthStopped g = true;
  ph_drained : reached g 8 → tn_wait (gw_tunnels g) = 0;
  ph_closed : reached g 10 → mg_closed (gw_manager g) = true;
  ph_idle : reached g 11 → idle (gw_manager g);
  ph_quiet : reached g 12 → sd_errs (gw_shutdown g) = [] → quiet (gw_manager g);
  ph_recorded : sd_contextRecorded (gw_shutdown g) = true → sd_errs (gw_shutdown g) ≠ [];
}.

(** Steps of the components keep them. *)
Lemma kept_phase g g' : gateway_ok g → phase_ok g → kept g g' → phase_ok g'.
Proof.
  intros Hg [P1 P2 P3 P4 P5 P6 P7 P8 P9] [K1 K2 K3 K4 K5 K6]. pose proof (mreachable_ok _ _ _ _ _ _ (cp_manager _ _ _ _ _ Hg)) as Hm.
  pose proof (treachable_ok _ _ (cp_tunnels _ _ _ _ _ Hg)) as Ht. unfold reached in *. rewrite <-K1 in *. split; unfold reached; rewrite ?K2, ?K3, ?K4; auto.
  - intros Hp. destruct K6 as [->|[e He]]; [auto|]. by apply (texec_wait _ _ _ _ He), P3.
  - intros Hp. destruct K6 as [->|[e He]]; [auto|]. eapply texec_drained; [exact Ht|apply P3; lia|auto|exact He].
  - intros Hp. destruct K5 as [->|[e He]]; [auto|]. by eapply mexec_closed, P6.
  - intros Hp. destruct K5 as [->|[e He]]; [auto|]. eapply mexec_idle; [exact Hm|auto|exact He].
  - intros Hp Herr. destruct K5 as [->|[e He]]; [auto|]. eapply mexec_quiet; [exact Hm|auto|exact He].
Qed.

Lemma appendError_kept s err : sd_pc (appendError s err) = sd_pc s ∧ sd_context (appendError s err) = sd_context s ∧
  (sd_errs (appendError s err) = [] → sd_errs s = []) ∧
  ((sd_contextRecorded s = true → sd_errs s ≠ []) → sd_contextRecorded (appendError s err) = true → sd_errs (appendError s err) ≠ []) ∧
  ((sd_contextRecorded s = true → sd_errs s ≠ []) → is_Some err → sd_errs (appendError s err) ≠ []).
Proof.
  assert (Happ : ∀ (l : list goError) e, l ++ [e] ≠ []) by (by intros []).
  unfold appendError. destruct err as [e|]; [|split_and!; try done; by intros _ []].
  destruct (sd_context s) as [c|] eqn:Hc; [destruct (errors_Is e c); [destruct (sd_contextRecorded s) eqn:Hr|]|]; cbn; split_and!; auto.
  all: try (intros E; by apply Happ in E).
Qed.

Lemma closeAdmission_ok m t owner hs next : composed m t owner hs next → composed m (CloseAdmission t) owner hs next.
Proof.
  intros Hc. eapply composed_tunnels; [exact Hc| |done]. eapply (treach_step _ _ TCloseAdmission); [exact (cp_tunnels _ _ _ _ _ Hc)|done].
Qed.

(** Opens the fields of [phase_ok] after a move of the program counter. *)
Ltac phases :=
  split; unfold reached; cbn; intros;
  first [reflexivity|assumption|match goal with P : _ |- _ => apply P; first [assumption|lia] end|lia
        |match goal with P : _ → _ → quiet _ |- _ => apply P; [lia|auto] end|auto].

Lemma shutdownStep_ok g err g' : gateway_ok g → phase_ok g → shutdownStep xxh64 sha256 definitions iterate legacy g err = GDone g' →
  gateway_ok g' ∧ phase_ok g'.
Proof.
  intros Hg [P1 P2 P3 P4 P5 P6 P7 P8 P9]. unfold reached in *. destruct (appendError_kept (gw_shutdown g) err) as (A1 & A2 & A3 & A4 & A5).
  unfold shutdownStep. destruct (sd_pc (gw_shutdown g)) as [| | | |[|n]|[|n]| |swept| | |own|own| | |] eqn:Hpc; cbn [phase] in *; try done.
  - intros [= <-]. split; [done|phases].
  - intros [= <-]. split; [by apply closeAdmission_ok|phases].
  - intros [= <-]. split; [done|phases].
  - intros [= <-]. split; [done|phases].
  - intros [= <-]. split; [done|]. destruct (expired _); phases.
  - intros [= <-]. split; [done|phases].
  - intros [= <-]. split; [done|phases].
  - intros [= <-]. split; [by apply closeAdmission_ok|phases].
  - destruct (drainReturns (gw_tunnels g)) eqn:Hd; [|done]. apply Z.eqb_eq in Hd. intros [= <-]. split; [done|].
    destruct (appendError_kept (gw_shutdown g) (if swept then contextError <$> sd_context (gw_shutdown g) else None)) as (_ & _ & _ & A4' & _). phases.
  - case_bool_decide; [|done]. intros [= <-]. split; [done|phases].
  - intros (m & Hm & [= <-])%on_manager_done. split; [by eapply composed_manager|].
    assert (Hclosed : mg_closed m = true) by (cbn in Hm; unfold Close in Hm; repeat case_match; by simplify_eq/=). phases.
  - destruct (mg_pc (gw_manager g)) eqn:Hmpc; try done. intros (m & Hm & [= <-])%on_manager_done. split; [by eapply composed_manager|].
    assert (Hidle : idle m).
    { eapply mexec_idle; [eapply mreachable_ok, (cp_manager _ _ _ _ _ Hg)|split; [apply P6; lia|exact Hmpc]|exact Hm]. }
    pose proof (proj1 Hidle) as Hclosed. phases.
  - assert (Hi : idle (gw_manager g)) by (apply P7; lia). destruct err as [e|].
    + destruct (managerContext _ _) as [c|]; [|done]. intros [= <-]. split; [done|].
      destruct (appendError_kept (gw_shutdown g) (Some (contextError c))) as (_ & _ & A3' & A4' & A5'). phases.
      exfalso. by apply (A5' P9).
    + destruct (w_reaper _) eqn:Hq; [done|]. destruct (closeReady _) eqn:Hr; [|done]. intros [= <-]. split; [done|].
      assert (Hquiet : quiet (gw_manager g)) by done. phases.
  - intros [= <-]. split; [done|]. destruct (_ && _); phases.
  - intros [= <-]. split; [done|phases].
Qed.

(** ** Every step *)

Lemma same_phase g g' : phase_ok g → gw_shutdown g' = gw_shutdown g → gw_closing g' = gw_closing g → gw_healthStopped g' = gw_healthStopped g →
  gw_manager g' = gw_manager g → gw_tunnels g' = gw_tunnels g → (reached g 2 → gw_ready g' = false) → phase_ok g'.
Proof.
  intros [P1 P2 P3 P4 P5 P6 P7 P8 P9] K1 K2 K3 K4 K5 Hr. unfold reached in *. split; unfold reached; rewrite ?K1, ?K2, ?K3, ?K4, ?K5; auto.
Qed.

Lemma sweepTunnels_ok g g' : gateway_ok g → phase_ok g → sweepTunnels g = GDone g' → gateway_ok g' ∧ phase_ok g'.
Proof.
  intros Hg [P1 P2 P3 P4 P5 P6 P7 P8 P9]. unfold reached, sweepTunnels in *.
  destruct (sd_pc (gw_shutdown g)) as [| | | | | | |[]| | | | | | |] eqn:Hpc; try done. cbn [phase] in *. destruct (expired _); [|done]. intros [= <-].
  assert (Hc : tn_admissionClosed (gw_tunnels g) = true) by (apply P3; lia). split.
  - unfold gateway_ok. cbn. eapply composed_tunnels; [exact Hg| |intros id; apply sweep_owned].
    eapply (treach_step _ _ TSweep); [exact (cp_tunnels _ _ _ _ _ Hg)|]. cbn. by rewrite Hc.
  - destruct (sweep_wait (gw_tunnels g)) as [Hc' _]. rewrite Hc in Hc'. phases.
Qed.

Lemma gexec_ok g e g' : gateway_ok g → phase_ok g → gexec g e = GDone g' → gateway_ok g' ∧ phase_ok g'.
Proof.
  intros Hg Hp. assert (Hkept : gateway_ok g' ∧ kept g g' → gateway_ok g' ∧ phase_ok g') by (intros [? Hk]; split; [done|exact (kept_phase _ _ Hg Hp Hk)]).
  destruct e; cbn [Gateway.gexec]; intros He.
  - unfold startServing in He. destruct (gw_started g || gw_closing g) eqn:Hs; [done|]. injection He as <-. apply orb_false_elim in Hs as [_ Hs].
    split; [done|]. eapply same_phase; [exact Hp|done..|]. intros Hr. unfold reached in Hr. rewrite (ph_closing _ Hp) in Hs; [done|]. unfold reached. lia.
  - destruct (gw_started g); [|done]. injection He as <-. split; [done|]. by eapply same_phase.
  - unfold gateway_Apply in He. destruct (gw_closing g) eqn:Hcl; injection He as <-; [done|]. split; [done|]. eapply same_phase; [exact Hp|done..|apply (ph_ready _ Hp)].
  - apply Hkept. unfold enterApply in He. destruct (gw_applying g !! k) as [[revision resources]|]; [|done].
    apply on_manager_done in He as (m & Hm & [= <-]). split; [by eapply composed_manager|split; cbn; eauto].
  - apply Hkept. destruct (spontaneous _ e) eqn:Hs; [|done]. by eapply spontaneous_ok.
  - apply Hkept. by eapply beginRequest_ok.
  - apply Hkept. by eapply handlerStep_ok.
  - apply Hkept. destruct (runReturned (gw_tunnels g) id result) as [t|] eqn:Hr; [|done]. injection He as <-.
    assert (Ht : texec observer (gw_tunnels g) (TRunReturned id result) = TDone t) by (cbn; by rewrite Hr).
    stepped. eapply composed_tunnels; [exact Hg|eapply treach_step, Ht; exact (cp_tunnels _ _ _ _ _ Hg)|]. intros j. by eapply runReturned_owned.
  - apply Hkept. by eapply tunnelTask_ok.
  - injection He as <-. split; [done|]. destruct Hp as [P1 P2 P3 P4 P5 P6 P7 P8 P9]. unfold reached in *.
    destruct (sd_pc (gw_shutdown g)) eqn:Hpc; cbn [phase] in *; split; unfold reached; cbn; rewrite ?Hpc; auto; cbn [phase]; lia.
  - unfold expire in He. destruct (sd_context _); [done|]. destruct (negb _); [done|]. injection He as <-. split; [done|].
    destruct Hp as [P1 P2 P3 P4 P5 P6 P7 P8 P9]. by split.
  - exact (sweepTunnels_ok _ _ Hg Hp He).
  - by eapply shutdownStep_ok.
Qed.

Lemma greachable_ok g : greachable g → gateway_ok g ∧ phase_ok g.
Proof.
  induction 1 as [maxRetired workers queue notified r Hr|g e g' _ [IH1 IH2] He]; [|by eapply gexec_ok]. split.
  - split; cbn; try done; [by eapply mreach_initial|constructor|by intros a []|by intros l (x & Hx & _)|by intros n (x & Hx & _)].
  - split; unfold reached; cbn; try lia; done.
Qed.

(** ** No leaks *)

Lemma nothing_leased g : gateway_ok g → gw_handlers g = ∅ → tn_wait (gw_tunnels g) = 0 →
  (∀ l, ¬ outstanding (gw_manager g) l) ∧ ∀ n, ¬ unreleased (mg_world (gw_manager g)) n.
Proof.
  intros Hg Hh Hw. split.
  - intros l (i & h & Hi & _)%(cp_leases _ _ _ _ _ Hg). rewrite Hh in Hi. done.
  - intros n [(i & h & Hi & _)|(id & Ho & _)]%(cp_tunnelLeases _ _ _ _ _ Hg); [by rewrite Hh in Hi|].
    by eapply drained_unowned in Ho; [|eapply treachable_ok, (cp_tunnels _ _ _ _ _ Hg)|].
Qed.

(** C2: Across all components of the running gateway, under every interleaving of
    requests, configuration changes, tunnels, the reaper and shutdown, nothing
    leaks: every snapshot lease that has not been given back belongs to a running
    request, every transport lease of a tunnel to a running request or to a
    registered tunnel whose clean-up is still to come, and when no request runs
    and the tunnels are drained, none of either is left. *)
Theorem leases_owned g : greachable g →
  (∀ l, outstanding (gw_manager g) l → ∃ i h, gw_handlers g !! i = Some h ∧ holds h l) ∧
  (∀ n, unreleased (mg_world (gw_manager g)) n →
     (∃ i h, gw_handlers g !! i = Some h ∧ hd_tunnelLease h = Some n) ∨
     ∃ id, owned (gw_tunnels g) id ∧ gw_owner g !! id = Some n) ∧
  (gw_handlers g = ∅ → tn_wait (gw_tunnels g) = 0 →
     (∀ l, ¬ outstanding (gw_manager g) l) ∧ ∀ n, ¬ unreleased (mg_world (gw_manager g)) n).
Proof.
  intros [Hg _]%greachable_ok. split_and!; [apply (cp_leases _ _ _ _ _ Hg)|apply (cp_tunnelLeases _ _ _ _ _ Hg)|by apply nothing_leased].
Qed.

(** C6: When [Shutdown] has returned, whatever its result, the gateway is not
    ready, admits no tunnel, has cleaned up every tunnel and has withdrawn its
    snapshot for good; and when it has returned no error, no request holds a
    snapshot lease, no tunnel lease is left and the upstream registry is empty,
    even if an HTTP server still calls the handler. *)
Theorem shutdown_result g : greachable g → sd_pc (gw_shutdown g) = Finished →
  gw_ready g = false ∧ tn_admissionClosed (gw_tunnels g) = true ∧ (∀ id, ¬ owned (gw_tunnels g) id) ∧ mg_active (gw_manager g) = None ∧
  (sd_errs (gw_shutdown g) = [] →
     (∀ l, ¬ outstanding (gw_manager g) l) ∧ (∀ n, ¬ unreleased (mg_world (gw_manager g)) n) ∧
     closeReady (statsLocked (w_registry (mg_world (gw_manager g)))) = true).
Proof.
  intros [Hg [P1 P2 P3 P4 P5 P6 P7 P8 P9]]%greachable_ok Hpc. unfold reached in *. rewrite Hpc in *. cbn [phase] in *.
  pose proof (mreachable_ok _ _ _ _ _ _ (cp_manager _ _ _ _ _ Hg)) as Hm. split_and!.
  - apply P2. lia.
  - apply P3. lia.
  - intros id. eapply drained_unowned; [eapply treachable_ok, (cp_tunnels _ _ _ _ _ Hg)|apply P5; lia].
  - apply closed_inactive; [done|apply P6; lia].
  - intros He. assert (Hq : quiet (gw_manager g)) by (apply P8; [lia|done]). destruct (quiet_free _ Hm Hq) as (_ & H1 & H2). split_and!; [done..|apply Hq].
Qed.

(** No step of the gateway panics. *)
Theorem gateway_never_panics g e : greachable g → gexec g e ≠ GPanicked.
Proof.
  intros [Hg _]%greachable_ok.
  assert (Hm : ∀ e k, (∀ m, k m ≠ GPanicked) → on_manager xxh64 sha256 definitions iterate legacy g e k ≠ GPanicked).
  { intros e' k Hk. unfold on_manager. pose proof (mexec_good xxh64 sha256 definitions iterate legacy (gw_manager g) e') as Hgood.
    destruct (mexec (gw_manager g) e'); [done| |apply Hk]. intros _. apply Hgood. eapply mreachable_ok, (cp_manager _ _ _ _ _ Hg). }
  destruct e; cbn [Gateway.gexec]; try done.
  - unfold startServing. by destruct (_ || _).
  - by destruct (gw_started g).
  - unfold gateway_Apply. by destruct (gw_closing g).
  - unfold enterApply. destruct (gw_applying g !! k) as [[]|]; [by apply Hm|done].
  - destruct (spontaneous _ e); [by apply Hm|done].
  - unfold handlerStep. destruct (gw_handlers g !! i) as [h|]; [|done]. destruct (hd_program h) as [|X e k]; [done|].
    destruct e; cbn [callStep]; try done; repeat case_match; try done; by apply Hm.
  - by destruct (runReturned _ _ _).
  - unfold tunnelTask. destruct (tn_tasks (gw_tunnels g) !! k) as [task|] eqn:Hk; [|done].
    pose proof (texec_good observer (gw_tunnels g) (TPerform k) (treachable_ok _ _ (cp_tunnels _ _ _ _ _ Hg))) as Hgood. cbn in Hgood.
    destruct (perform _ _ k); [|done]. destruct task; [|done]. destruct (_ ≫= _); [by apply Hm|done].
  - unfold expire. by repeat case_match.
  - unfold sweepTunnels. by repeat case_match.
  - unfold shutdownStep. repeat case_match; try done; by apply Hm.
Qed.
End Gateway.
