(* ===== verification/GatewayLive.v ===== *)
(** * Shutdown comes to an end

    Once the requests have returned and the tunnels are drained, [Shutdown] can
    run to its end and leaves an empty registry: the composition of the
    ownership of leases with the progress of the manager and of the reaper. *)

From S2P Require Import Prelude GoErrors GoStrings NetAddr Pattern Predicate Router Wrr HashKey Chash Url Resources X509 Fingerprint Health Budget RefTable Plan Registry.
From S2P Require Import RegistryTx Lifecycle LifecycleSafe Plugins DownstreamTLS Builder Manager ManagerSafe ManagerFrame ManagerExamples.
From S2P Require Import Effects Attempts HttpHeader ProxyHeaders WebSocket Session Tunnel Handler Gateway GatewaySafe.
#[local] Open Scope Z_scope.
#[local] Open Scope list_scope.

Section Live.
Context (xxh64 : string → Z) (sha256 sha1 : string → string) `{Unicode}.
Context {Q R : Type} (definitions : gmap string (@PluginDefinition Q R)).
Context (iterate : gmap string PluginAttachment → list string).
Context (legacy : option certificateProvider).
Context (observer : bool) (maxRequestBodyBytes : Z).

#[local] Abbreviation gexec := (gexec xxh64 sha256 sha1 definitions iterate legacy observer maxRequestBodyBytes).
#[local] Abbreviation greachable := (greachable xxh64 sha256 sha1 definitions iterate legacy observer maxRequestBodyBytes).
#[local] Abbreviation gateway := (@gateway Q R).

Fixpoint grun (g : gateway) (es : list gevent) : option gateway :=
  match es with
  | [] => Some g
  | e :: es => match gexec g e with GDone g => grun g es | _ => None end
  end.

Lemma grun_app g es es' : grun g (es ++ es') = grun g es ≫= fun g => grun g es'.
Proof. revert g. induction es as [|e es IH]; intros g; simpl; [done|]. by destruct (gexec g e). Qed.

Lemma grun_reachable g es g' : greachable g → grun g es = Some g' → greachable g'.
Proof.
  revert g. induction es as [|e es IH]; intros g Hg; simpl; [by intros [= <-]|]. destruct (gexec g e) as [| |g1] eqn:He; try done.
  apply IH. by eapply greach_step.
Qed.

(** [g] can get to [g']. *)
Definition leads (g g' : gateway) : Prop := ∃ es, grun g es = Some g'.

Lemma leads_trans g1 g2 g3 : leads g1 g2 → leads g2 g3 → leads g1 g3.
Proof. intros [es1 H1] [es2 H2]. exists (es1 ++ es2). by rewrite grun_app, H1. Qed.

Lemma leads_step g e g1 g' : gexec g e = GDone g1 → leads g1 g' → leads g g'.
Proof. intros He [es Hes]. exists (e :: es). simpl. by rewrite He. Qed.

Lemma leads_refl g : leads g g.
Proof. by exists []. Qed.

(** ** Up to the manager *)

(** The steps [shutdown] has before it closes the manager. *)
Definition steps_left (pc : shutdownPC) : nat :=
  match pc with
  | ToUnready => 10 | ToCloseAdmission => 9 | ToStopHealth => 8 | StoppingServers O => 7 | StoppingServers _ => 6
  | ForcingServers O => 5 | ForcingServers _ => 4 | ToDrain => 3 | Draining _ => 2 | AwaitingTraffic => 1 | _ => 0
  end%nat.

(** The same gateway as far as requests, tunnels, the manager and the result
    are concerned. *)
Record settled_like (g g' : gateway) : Prop := {
  sl_manager : gw_manager g' = gw_manager g;
  sl_handlers : gw_handlers g' = gw_handlers g;
  sl_wait : tn_wait (gw_tunnels g') = tn_wait (gw_tunnels g);
  sl_context : sd_context (gw_shutdown g') = sd_context (gw_shutdown g);
  sl_errs : sd_context (gw_shutdown g) = None → sd_errs (gw_shutdown g') = sd_errs (gw_shutdown g);
}.

Lemma settled_trans g1 g2 g3 : settled_like g1 g2 → settled_like g2 g3 → settled_like g1 g3.
Proof. intros [A1 A2 A3 A4 A5] [B1 B2 B3 B4 B5]. split; try congruence. intros Hc. rewrite B5, A5; congruence. Qed.

Lemma shutdown_advances g : (0 < steps_left (sd_pc (gw_shutdown g)))%nat → gw_handlers g = ∅ → tn_wait (gw_tunnels g) = 0 →
  ∃ g', gexec g (GStep None) = GDone g' ∧ settled_like g g' ∧
    (steps_left (sd_pc (gw_shutdown g')) < steps_left (sd_pc (gw_shutdown g)))%nat ∧
    (sd_pc (gw_shutdown g') = ToCloseManager ∨ 0 < steps_left (sd_pc (gw_shutdown g')))%nat.
Proof.
  intros Hpos Hh Hw. cbn [Gateway.gexec]. unfold shutdownStep, drainReturns.
  destruct (sd_pc (gw_shutdown g)) as [| | | |[|n]|[|n]| |swept| | |own|own| | |] eqn:Hpc; cbn [steps_left] in *; try lia.
  all: rewrite ?Hw, ?bool_decide_eq_true_2 by done; cbn [Z.eqb]; eexists; split; [reflexivity|].
  all: unfold expired; repeat case_bool_decide; cbn; (split; [split; cbn; try done|split; [lia|first [by left|right; lia]]]).
  all: destruct swept; cbn; destruct (sd_context (gw_shutdown g)) eqn:Hc; cbn; rewrite ?Hc; try done.
  by repeat case_match.
Qed.

Lemma leads_closing n : ∀ g, steps_left (sd_pc (gw_shutdown g)) = n → sd_pc (gw_shutdown g) = ToCloseManager ∨ (0 < n)%nat →
  gw_handlers g = ∅ → tn_wait (gw_tunnels g) = 0 → ∃ g', leads g g' ∧ settled_like g g' ∧ sd_pc (gw_shutdown g') = ToCloseManager.
Proof.
  induction n as [n IH] using lt_wf_ind. intros g <- [Hpc|Hpos] Hh Hw; [exists g; split; [apply leads_refl|by split]|].
  destruct (shutdown_advances g Hpos Hh Hw) as (g1 & Hstep & Hs & Hlt & Hnext).
  destruct (IH _ Hlt g1 eq_refl Hnext) as (g' & Hl & Hs' & Hpc); [rewrite (sl_handlers _ _ Hs); done|rewrite (sl_wait _ _ Hs); done|].
  exists g'. split; [by eapply leads_step|]. split; [by eapply settled_trans|done].
Qed.

(** ** The manager *)

Lemma same_manager (g : gateway) : with_manager g (gw_manager g) = g.
Proof. by destruct g. Qed.

(** Whoever holds the lock of the manager finishes. *)
Lemma leads_finish fuel clock : ∀ g m', finish_apply xxh64 sha256 definitions iterate legacy fuel clock (gw_manager g) = Some m' →
  leads g (with_manager g m') ∧ (mg_closed (gw_manager g) = true → mg_closed m' = true).
Proof.
  assert (Hdone : ∀ g m', Some (gw_manager g) = Some m' → leads g (with_manager g m') ∧ (mg_closed (gw_manager g) = true → mg_closed m' = true)).
  { intros g m' [= <-]. rewrite same_manager. split; [apply leads_refl|done]. }
  induction fuel as [|fuel IH]; intros g m' Hf; cbn [finish_apply] in Hf; destruct (mg_pc (gw_manager g)) eqn:Hpc; try done; try (by apply Hdone in Hf).
  all: destruct (apply_step _ _ _ _ _ (gw_manager g) (clock fuel)) as [| |m1] eqn:Hstep; try done.
  all: destruct (IH (with_manager g m1) m' Hf) as [Hl Hc]; split; [|intros Hclosed; apply Hc; by eapply (mexec_closed _ _ _ _ _ _ (MApplyStep (clock fuel)))].
  all: eapply (leads_step _ (GManager (MApplyStep (clock fuel)))); [|exact Hl]; cbn; unfold on_manager; cbn; by rewrite Hstep.
Qed.

Definition reaps (e : event) : bool := match e with EReapBegin | EReapCheck | EReapFinish => true | _ => false end.

Lemma reapNow_reaps w : forallb reaps (reapNow w) = true.
Proof.
  unfold reapNow. cbn [forallb reaps andb]. destruct (r_retired _) as [|i l]; [done|]. rewrite forallb_app. apply andb_true_intro. split; [|done].
  generalize (length (i :: l)) as n. by induction n.
Qed.

Lemma leads_reap es : ∀ g w', forallb reaps es = true → run xxh64 sha256 (mg_world (gw_manager g)) es = Some w' →
  leads g (with_manager g (with_world (gw_manager g) w')).
Proof.
  induction es as [|e es IH]; intros g w' Hr; cbn [run].
  - intros [= <-]. assert (with_world (gw_manager g) (mg_world (gw_manager g)) = gw_manager g) as -> by (by destruct (gw_manager g)).
    rewrite same_manager. apply leads_refl.
  - simpl in Hr. apply andb_prop in Hr as [He Hr]. destruct (exec xxh64 sha256 (mg_world (gw_manager g)) e) as [| |w] eqn:Hw; try done. intros Hrun.
    eapply (leads_step _ (GManager (MBackground e))); [|exact (IH (with_manager g (with_world (gw_manager g) w)) w' Hr Hrun)].
    cbn [Gateway.gexec]. destruct e; try done; cbn [spontaneous]; unfold on_manager; cbn [mexec background]; unfold on_registry; by rewrite Hw.
Qed.

(** ** The result *)

Lemma leads_reachable g g' : greachable g → leads g g' → greachable g'.
Proof. intros Hg [es Hes]. by eapply grun_reachable. Qed.

Lemma unlock_completes g : greachable g → w_reaper (mg_world (gw_manager g)) = None →
  ∃ m, leads g (with_manager g m) ∧ mg_pc m = Unlocked ∧ w_reaper (mg_world m) = None ∧ (mg_closed (gw_manager g) = true → mg_closed m = true).
Proof.
  intros Hg Hq. destruct (greachable_ok _ _ _ _ _ _ _ _ _ Hg) as [Hok _].
  destruct (finish_apply_total xxh64 sha256 definitions iterate legacy 7 (fun _ => 0) (gw_manager g)) as (m & Hrun & Hu & Hq' & _);
    [by eapply mreachable_ok, (cp_manager _ _ _ _ _ _ _ _ _ _ _ Hok)|done|destruct (mg_pc _); simpl; lia|].
  exists m. destruct (leads_finish _ _ _ _ Hrun). done.
Qed.

(** One reaper pass lets [Registry.Close] return, and [Shutdown] with it. *)
Lemma registry_completes g own : greachable g → sd_pc (gw_shutdown g) = AwaitingRegistry own → gw_handlers g = ∅ →
  tn_wait (gw_tunnels g) = 0 → w_reaper (mg_world (gw_manager g)) = None →
  ∃ g', leads g g' ∧ sd_pc (gw_shutdown g') = Finished ∧ sd_errs (gw_shutdown g') = sd_errs (gw_shutdown g) ∧ quiet (gw_manager g').
Proof.
  intros Hg Hpc Hh Hw Hq. destruct (greachable_ok _ _ _ _ _ _ _ _ _ Hg) as [Hok Hph].
  assert (Hidle : idle (gw_manager g)) by (apply (ph_idle _ Hph); unfold reached; by rewrite Hpc).
  destruct (nothing_leased _ _ _ _ _ _ _ Hok Hh Hw) as [Hl Ht].
  destruct (closed_drains xxh64 sha256 (gw_manager g)) as (w & Hrun & _ & Hready & Hq');
    [by eapply mreachable_ok, (cp_manager _ _ _ _ _ _ _ _ _ _ _ Hok)|apply Hidle|apply Hidle| | |done|].
  { intros l x Hx. destruct (le_state x) eqn:E; [..|done]; destruct (Hl l); exists x; by rewrite E. }
  { intros i l Hi. destruct (l_released l) eqn:E; [done|]. destruct (Ht i). by exists l. }
  assert (Hreap := leads_reap _ g w (reapNow_reaps _) Hrun). eexists. split_and!.
  - eapply leads_trans; [exact Hreap|]. eapply (leads_step _ (GStep None)).
    { cbn. unfold shutdownStep. cbn. rewrite Hpc, Hq', Hready. reflexivity. }
    eapply (leads_step _ (GStep None)); [reflexivity|]. apply leads_refl.
  - done.
  - done.
  - done.
Qed.

(** From the moment the manager is to be closed, when nothing is leased. *)
Lemma close_completes g : greachable g → sd_pc (gw_shutdown g) = ToCloseManager → gw_handlers g = ∅ → tn_wait (gw_tunnels g) = 0 →
  w_reaper (mg_world (gw_manager g)) = None →
  ∃ g', leads g g' ∧ sd_pc (gw_shutdown g') = Finished ∧ sd_errs (gw_shutdown g') = sd_errs (gw_shutdown g) ∧ quiet (gw_manager g').
Proof.
  intros Hg Hpc Hh Hw Hq. destruct (unlock_completes g Hg Hq) as (m1 & Hl1 & Hu1 & Hq1 & _). set (g1 := with_manager g m1) in *.
  destruct (Close m1) as [| |m2] eqn:Hclose; [by unfold Close in Hclose; rewrite Hu1 in Hclose..|].
  set (g2 := with_shutdown (with_manager g1 m2) (goto (gw_shutdown g) (RetiringSnapshot (expired (gw_shutdown g))))).
  assert (Hl2 : leads g g2).
  { eapply leads_trans; [exact Hl1|]. eapply (leads_step _ (GStep None)); [|apply leads_refl]. cbn. unfold shutdownStep. cbn. rewrite Hpc.
    unfold on_manager. cbn. by rewrite Hclose. }
  assert (Hm2 : mg_world m2 = mg_world m1 ∧ mg_closed m2 = true) by (unfold Close in Hclose; rewrite Hu1 in Hclose; by injection Hclose as <-).
  destruct Hm2 as [Hw2 Hc2].
  destruct (unlock_completes g2 (leads_reachable _ _ Hg Hl2)) as (m3 & Hl3 & Hu3 & Hq3 & Hc3); [cbn; by rewrite Hw2|].
  set (m4 := with_world m3 (with_registry (mg_world m3) (markClosed (w_registry (mg_world m3))))).
  set (g4 := with_shutdown (with_manager g2 m4) (goto (gw_shutdown g) (AwaitingRegistry (expired (gw_shutdown g))))).
  assert (Hl4 : leads g g4).
  { eapply leads_trans; [exact Hl2|]. eapply leads_trans; [exact Hl3|]. eapply (leads_step _ (GStep None)); [|apply leads_refl].
    cbn. unfold shutdownStep. cbn. rewrite Hu3. unfold on_manager. cbn. rewrite Hc3 by done. unfold on_registry. cbn. unfold locked. by rewrite Hq3. }
  destruct (registry_completes g4 (expired (gw_shutdown g)) (leads_reachable _ _ Hg Hl4)) as (g' & Hl' & Hr); [done..|].
  exists g'. split; [by eapply leads_trans|exact Hr].
Qed.

End Live.
