(* ===== verification/GatewayExamples.v ===== *)
(** * A gateway from start to shutdown

    The example resources are applied, a request is served under a lease, and
    [Shutdown] runs to its end; the theorems on the composed gateway apply to
    the states on the way. *)

From S2P Require Import Prelude GoErrors GoStrings NetAddr Pattern Predicate Router Wrr HashKey Chash Url Resources X509 Fingerprint Health Budget RefTable Plan Registry.
From S2P Require Import RegistryTx Lifecycle LifecycleSafe Plugins DownstreamTLS Builder Manager ManagerSafe ManagerFrame ManagerExamples.
From S2P Require Import Effects Attempts HttpHeader ProxyHeaders WebSocket Session Tunnel Handler ServeExamples Gateway GatewaySafe GatewayLive.
#[local] Open Scope Z_scope.
#[local] Open Scope list_scope.
#[local] Existing Instance ascii_only_unicode.

#[local] Abbreviation demo_grun := (grun no_hash no_digest no_digest no_plugins key_order None true 1024).
#[local] Abbreviation demo_greachable := (greachable no_hash no_digest no_digest no_plugins key_order None true 1024).

Definition gstart : @gateway unit unit := NewGateway demo_registry.

Lemma gstart_reachable : demo_greachable gstart.
Proof. exact (greach_initial _ _ _ _ _ _ _ _ 4 1 1 true demo_registry eq_refl). Qed.

Lemma ghistory_reachable es g : demo_grun gstart es = Some g → demo_greachable g.
Proof. apply grun_reachable, gstart_reachable. Qed.

Definition demo_key : transportKey := mkTransportKey "" "" "" 0 0 0 0 0 false 0 false "" "" 0 false.
Definition demo_choice : @choice unit unit := mkChoice demo_key 0 0 (fun X e => demo_callees X [] e).

(** Revision 1 is published and a request has leased it. *)
Definition history_serving : list gevent :=
  GApply 1 demo_resources :: GEnterApply 0 :: replicate 5 (GManager (MApplyStep 0)) ++
  [GStart; GBegin demo_incoming; GHandler 0 demo_choice; GManager (MLoad 0); GManager (MTry 0); GHandler 0 demo_choice].

Definition serving_ok : bool :=
  match demo_grun gstart history_serving with
  | Some g => is_held (mg_leases (gw_manager g) !! 0%nat) && gw_ready g
  | None => false
  end.
Lemma serving_ok_true : serving_ok = true.
Proof. vm_compute. reflexivity. Qed.

Lemma leases_owned_witness : ∃ g, demo_grun gstart history_serving = Some g ∧ ∃ i h, gw_handlers g !! i = Some h ∧ holds h 0%nat.
Proof.
  pose proof serving_ok_true as Hok. unfold serving_ok in Hok. destruct (demo_grun gstart history_serving) as [g|] eqn:E; [|discriminate Hok].
  exists g. split; [reflexivity|]. destruct (mg_leases (gw_manager g) !! 0%nat) as [[p []]|] eqn:Hl; try discriminate Hok.
  apply (proj1 (leases_owned no_hash no_digest no_digest no_plugins key_order None true 1024 g (ghistory_reachable _ _ E)) 0%nat).
  exists (mkManagerLease p LeaseHeld). split; [exact Hl|discriminate].
Defined.

(** The request is proxied and returns; [Shutdown] is called. *)
Definition history_closing : list gevent := history_serving ++ replicate 7 (GHandler 0 demo_choice) ++ [GShutdown].

Definition closing_ok : bool :=
  match demo_grun gstart history_closing with
  | Some g =>
      match sd_pc (gw_shutdown g) with ToUnready => true | _ => false end && Nat.eqb (size (gw_handlers g)) 0
      && (tn_wait (gw_tunnels g) =? 0) && bool_decide (w_reaper (mg_world (gw_manager g)) = None)
      && bool_decide (sd_context (gw_shutdown g) = None) && Nat.eqb (length (sd_errs (gw_shutdown g))) 0
  | None => false
  end.
Lemma closing_ok_true : closing_ok = true.
Proof. vm_compute. reflexivity. Qed.


(** The steps of [Shutdown] up to the manager, the retirement of the snapshot,
    one reaper pass and the rest. *)
Definition history_finished : list gevent :=
  history_closing ++ replicate 9 (GStep None) ++ replicate 2 (GManager (MApplyStep 0)) ++ [GStep None] ++
  [GManager (MBackground EReapBegin); GManager (MBackground EReapCheck); GManager (MBackground EReapFinish); GStep None; GStep None].

Definition finished_ok : bool :=
  match demo_grun gstart history_finished with
  | Some g => match sd_pc (gw_shutdown g) with Finished => true | _ => false end && Nat.eqb (length (sd_errs (gw_shutdown g))) 0
  | None => false
  end.
Lemma finished_ok_true : finished_ok = true.
Proof. vm_compute. reflexivity. Qed.

Lemma shutdown_result_witness : ∃ g, demo_grun gstart history_finished = Some g ∧ gw_ready g = false ∧ mg_active (gw_manager g) = None ∧
  ∀ l, ¬ outstanding (gw_manager g) l.
Proof.
  pose proof finished_ok_true as Hok. unfold finished_ok in Hok. destruct (demo_grun gstart history_finished) as [g|] eqn:E; [|discriminate Hok].
  apply andb_prop in Hok as [Hpc He]. exists g. split; [reflexivity|].
  destruct (shutdown_result no_hash no_digest no_digest no_plugins key_order None true 1024 g (ghistory_reachable _ _ E)) as (Hr & _ & _ & Ha & Hnone).
  - destruct (sd_pc (gw_shutdown g)); try discriminate Hpc. reflexivity.
  - split; [exact Hr|]. split; [exact Ha|]. apply Hnone. apply nil_length_inv, Nat.eqb_eq, He.
Defined.
