(* ===== verification/GatewayStart.v ===== *)
(** * Construction and start of the gateway ([internal/gateway/gateway.go])

    [New] builds the components one after another and undoes what it has built
    when one of them fails; [Start] binds three listeners or none; [recoverPanics]
    turns a panic of a handler into a response when none has been sent. *)

From S2P Require Import Prelude Effects GoStrings NetAddr Resources X509 Fingerprint Health Budget RefTable Plan Registry HealthScheduler Config ConfigCorrect HttpHeader Handler.
#[local] Open Scope string_scope.
#[local] Open Scope Z_scope.
#[local] Open Scope list_scope.

(** ** [New] *)

(** Constructors that may fail, and the clean-ups. The upstream registry and the
    proxy handler check their bounds. *)
Inductive construction : Type → Type :=
| NewTelemetry : construction bool
| LoadStatic : construction bool
| NewTunnelRegistry : construction unit
| NewPluginRegistry : construction bool
| NewUpstreamRegistry (maxRetired workers queue : Z) : construction unit
| RegisterResilienceProvider : construction bool
| NewBuilder : construction bool
| NewRuntimeManager : construction unit
| ApplyInitial : construction bool
| NewProxyHandler (maxRequestBodyBytes : Z) : construction unit
| CloseTunnelAdmission : construction unit
| DrainTunnels : construction unit
| CloseUpstreamRegistry : construction unit
| CloseManager : construction unit
| LogShutdownCleanup : construction unit.

Definition closeTunnels : program construction unit := call CloseTunnelAdmission;; call DrainTunnels.
Definition closeRegistry : program construction unit := call CloseUpstreamRegistry.
Definition closeManager : program construction unit := call CloseManager;; call LogShutdownCleanup.

Definition orDefault (got default : Z) : Z := if got =? 0 then default else got.

Definition New (b : BootstrapConfig) (logger : bool) : program construction bool :=
  if negb logger then Ret false
  else
    telemetry ← call NewTelemetry;
    if negb telemetry then Ret false
    else
      provider ← call LoadStatic;
      if negb provider then Ret false
      else
        call NewTunnelRegistry;;
        plugins ← call NewPluginRegistry;
        if negb plugins then Ret false
        else
          let maxRetired := orDefault (rc_maxRetiredSnapshots (bc_runtime b)) DefaultMaxRetiredSnapshots in
          let workers := orDefault (hr_workers (rc_health (bc_runtime b))) DefaultHealthWorkers in
          let queue := orDefault (hr_readyQueueCapacity (rc_health (bc_runtime b))) DefaultHealthQueueCapacity in
          match NewRegistry maxRetired workers queue true with
          | None => closeTunnels;; Ret false
          | Some _ =>
            call (NewUpstreamRegistry maxRetired workers queue);;
            registered ← call RegisterResilienceProvider;
            if negb registered then closeTunnels;; closeRegistry;; Ret false
            else
              builder ← call NewBuilder;
              if negb builder then closeTunnels;; closeRegistry;; Ret false
              else
                call NewRuntimeManager;;
                applied ← call ApplyInitial;
                if negb applied then closeTunnels;; closeManager;; Ret false
                else
                  let limit := sc_maxRequestBodyBytes (bc_server b) in
                  if limit <=? 0 then closeTunnels;; closeManager;; Ret false
                  else call (NewProxyHandler limit);; Ret true
          end.

(** ** [Start] *)

Inductive listener := AdminListener | HTTPListener | HTTPSListener.
#[global] Instance listener_eq_dec : EqDecision listener.
Proof. solve_decision. Defined.

Inductive startEffect : Type → Type :=
| Listen (l : listener) : startEffect bool
| CloseListener (l : listener) : startEffect unit
| Serve (l : listener) : startEffect unit
| SetReady (ready : bool) : startEffect unit.

(** [started] is the flag of an earlier call. *)
Definition Start (started : bool) : program startEffect bool :=
  if started then Ret false
  else
    admin ← call (Listen AdminListener);
    if negb admin then Ret false
    else
      http ← call (Listen HTTPListener);
      if negb http then call (CloseListener AdminListener);; Ret false
      else
        https ← call (Listen HTTPSListener);
        if negb https then call (CloseListener HTTPListener);; call (CloseListener AdminListener);; Ret false
        else
          call (Serve AdminListener);; call (Serve HTTPListener);; call (Serve HTTPSListener);;
          call (SetReady true);; Ret true.

(** ** Panics ([response_state.go]) *)

(** How a handler ends; [Aborted] is a panic with [http.ErrAbortHandler]. *)
Inductive ending := Returns | Aborted | Panics.

(** What reaches the underlying writer: a status with the header at that time,
    or bytes of the body. *)
Inductive sentPart := SentStatus (status : Z) (header : Header) | SentBody (data : string).

(** [responseState]: whether the response is committed, the header and what was
    forwarded. *)
Record responseState := mkResponseState { rs_committed : bool; rs_header : Header; rs_sent : list sentPart }.

Definition state_WriteHeader (w : responseState) (status : Z) : responseState :=
  mkResponseState true (rs_header w) (rs_sent w ++ [SentStatus status (rs_header w)]).

Definition state_Write (w : responseState) (data : string) : responseState :=
  let w := if rs_committed w then w else state_WriteHeader w 200 in
  mkResponseState (rs_committed w) (rs_header w) (rs_sent w ++ [SentBody data]).

(** What a handler does with its writer. *)
Inductive writerCall := SetResponseHeader (header : Header) | CallWriteHeader (status : Z) | CallWrite (data : string).

Definition writerStep (w : responseState) (c : writerCall) : responseState :=
  match c with
  | SetResponseHeader header => mkResponseState (rs_committed w) header (rs_sent w)
  | CallWriteHeader status => state_WriteHeader w status
  | CallWrite data => state_Write w data
  end.

(** [clear]; [names] are the keys in the order of the iteration. *)
Definition clearHeader (header : Header) (names : list string) : Header := foldl header_Del header names.

Definition internalError : failure := mkFailure 500 "INTERNAL_ERROR" "internal server error".

(** [recoverPanics] around a handler that makes [calls] and ends with [e]. *)
Definition recoverPanics (keys : Header → list string) (calls : list writerCall) (e : ending) : responseState * ending :=
  let w := foldl writerStep (mkResponseState false ∅ []) calls in
  match e with
  | Returns => (w, Returns)
  | Aborted => (w, Aborted)
  | Panics =>
    if rs_committed w then (w, Aborted)
    else
      let header := header_Set (clearHeader (rs_header w) (keys (rs_header w))) "Content-Type" "application/json" in
      let w := state_WriteHeader (mkResponseState (rs_committed w) header (rs_sent w)) 500 in
      (state_Write w (mustErrorBody internalError), Returns)
  end.

(** ** What they guarantee *)

Section Counting.
Context {E : Type → Type}.
Definition count (P : interaction E → bool) (tr : list (interaction E)) : nat := length (List.filter P tr).
End Counting.

Definition is_registry (x : interaction construction) : bool := let '@Did _ _ e _ := x in match e with NewUpstreamRegistry _ _ _ => true | _ => false end.
Definition is_closed (x : interaction construction) : bool :=
  let '@Did _ _ e _ := x in match e with CloseUpstreamRegistry | CloseManager => true | _ => false end.
Definition is_manager (x : interaction construction) : bool := let '@Did _ _ e _ := x in match e with NewRuntimeManager => true | _ => false end.
Definition closes_manager (x : interaction construction) : bool := let '@Did _ _ e _ := x in match e with CloseManager => true | _ => false end.
Definition closes_admission (x : interaction construction) : bool := let '@Did _ _ e _ := x in match e with CloseTunnelAdmission => true | _ => false end.
Definition drains (x : interaction construction) : bool := let '@Did _ _ e _ := x in match e with DrainTunnels => true | _ => false end.

(** The constructed components are closed exactly once on failure and kept on
    success. *)
Record constructed (tr : list (interaction construction)) (ok : bool) : Prop := {
  ct_kept : ok = true → count is_registry tr = 1%nat ∧ count is_manager tr = 1%nat ∧
    count is_closed tr = 0%nat ∧ count closes_admission tr = 0%nat ∧ count drains tr = 0%nat;
  ct_registry : ok = false → count is_closed tr = count is_registry tr;
  ct_manager : ok = false → count closes_manager tr = count is_manager tr;
  ct_tunnels : ok = false → (count is_registry tr ≤ count closes_admission tr)%nat ∧ count drains tr = count closes_admission tr ∧
    (count closes_admission tr ≤ 1)%nat;
}.

Lemma New_ensures b logger : ensures (New b logger) [] constructed.
Proof. unfold New, closeTunnels, closeRegistry, closeManager. walk. all: split; cbn; try done; try (intros _); lia. Qed.

(** [New] builds a gateway completely or not at all: on success exactly one
    upstream registry and one manager are constructed and nothing is closed;
    when any later constructor fails, the registry is closed exactly once,
    through the manager if there is one, and the tunnel registry is closed and
    drained once. *)
Theorem New_cleans_up env b logger : constructed (perform_calls env [] (New b logger)).1 (perform_calls env [] (New b logger)).2.
Proof. destruct (perform_runs env (New b logger) []) as (tr & -> & Hruns). exact (ensures_runs _ _ _ _ _ (New_ensures b logger) Hruns). Qed.

Definition is_bound (l : listener) (x : interaction startEffect) : bool :=
  let '@Did _ _ e a := x in match e in startEffect X return X → bool with Listen l' => fun ok => bool_decide (l = l') && ok | _ => fun _ => false end a.
Definition is_unbound (l : listener) (x : interaction startEffect) : bool :=
  let '@Did _ _ e _ := x in match e with CloseListener l' => bool_decide (l = l') | _ => false end.
Definition is_served (l : listener) (x : interaction startEffect) : bool :=
  let '@Did _ _ e _ := x in match e with Serve l' => bool_decide (l = l') | _ => false end.
Definition is_ready (x : interaction startEffect) : bool := let '@Did _ _ e _ := x in match e with SetReady r => r | _ => false end.

Record all_or_nothing (tr : list (interaction startEffect)) (ok : bool) : Prop := {
  an_served : ok = true → (∀ l, count (is_bound l) tr = 1%nat ∧ count (is_served l) tr = 1%nat ∧ count (is_unbound l) tr = 0%nat) ∧
    ∃ before x, tr = before ++ [Did (SetReady true) x] ∧ count is_ready before = 0%nat;
  an_none : ok = false → (∀ l, count (is_bound l) tr = count (is_unbound l) tr ∧ count (is_served l) tr = 0%nat) ∧ count is_ready tr = 0%nat;
}.

Lemma Start_ensures started : ensures (Start started) [] all_or_nothing.
Proof.
  unfold Start. walk. all: split; intros Hok; try discriminate Hok; (split; [intros []; done|]); try done.
  eexists _, _. split; [reflexivity|done].
Qed.

(** [Start] serves all three listeners and then reports the gateway ready, or it
    serves none, closes every listener it has bound and never reports it
    ready. *)
Theorem Start_all_or_nothing env started : all_or_nothing (perform_calls env [] (Start started)).1 (perform_calls env [] (Start started)).2.
Proof. destruct (perform_runs env (Start started) []) as (tr & -> & Hruns). exact (ensures_runs _ _ _ _ _ (Start_ensures started) Hruns). Qed.

(** ** Accepted configurations *)

Definition is_failure (x : interaction construction) : bool :=
  let '@Did _ _ e a := x in match e in construction X return X → bool with
    | NewTelemetry | LoadStatic | NewPluginRegistry | RegisterResilienceProvider | NewBuilder | ApplyInitial => negb
    | _ => fun _ => false
    end a.

(** The bounds of a valid configuration never make [New] fail: with a logger it
    fails only when one of the constructors outside the configuration's reach
    does, or the initial configuration is rejected. *)
Theorem New_accepts ResolveTCPAddr env b : settings_ok ResolveTCPAddr b →
  let '(tr, ok) := perform_calls env [] (New b true) in ok = false → existsb is_failure tr = true.
Proof.
  intros [_ Hs Hr _]. destruct (perform_runs env (New b true) []) as (tr & Htr & Hruns).
  destruct (perform_calls env [] (New b true)) as [tr' ok]. simpl in Htr, Hruns. subst tr'.
  assert (He : ensures (New b true) [] (fun tr ok => ok = false → existsb is_failure tr = true)); [|exact (ensures_runs _ _ _ _ _ He Hruns)].
  specialize (Hr true). unfold New.
  assert (Hnz : ∀ x d, (x <? 1) = false → orDefault x d = x) by (intros x d Hx%Z.ltb_ge; unfold orDefault; destruct (Z.eqb_spec x 0); [lia|done]).
  assert (H1 := Hr). unfold NewRegistry in H1.
  destruct (rc_maxRetiredSnapshots (bc_runtime b) <? 1) eqn:E1; [done|]. destruct (1024 <? _); [done|]. cbn [orb] in H1.
  destruct (hr_workers (rc_health (bc_runtime b)) <? 1) eqn:E2; [done|]. destruct (256 <? _); [done|]. cbn [orb] in H1.
  destruct (hr_readyQueueCapacity (rc_health (bc_runtime b)) <? 1) eqn:E3; [done|]. rewrite !Hnz by done.
  destruct (NewRegistry _ _ _ true); [|done]. rewrite (proj2 (Z.leb_gt _ _)) by lia.
  unfold closeTunnels, closeRegistry, closeManager. walk. all: try done.
Qed.

(** ** Recovered panics *)

Lemma writerStep_sent w c : ∃ own, rs_sent (writerStep w c) = rs_sent w ++ own ∧
  rs_committed (writerStep w c) = rs_committed w || negb (Nat.eqb (length own) 0).
Proof.
  destruct c as [header|status|data]; simpl.
  - exists []. by rewrite app_nil_r, orb_false_r.
  - eexists [_]. split; [done|]. by rewrite orb_true_r.
  - unfold state_Write. destruct (rs_committed w) eqn:E; [exists [SentBody data]; by rewrite E|]. exists [SentStatus 200 (rs_header w); SentBody data].
    split; [|done]. simpl. by rewrite <-app_assoc.
Qed.

(** A response is committed exactly when something was sent. *)
Lemma committed_sent calls w : rs_committed w = negb (Nat.eqb (length (rs_sent w)) 0) →
  let w' := foldl writerStep w calls in rs_committed w' = negb (Nat.eqb (length (rs_sent w')) 0).
Proof.
  revert w. induction calls as [|c calls IH]; intros w Hw; [done|]. apply IH. destruct (writerStep_sent w c) as (own & -> & ->).
  rewrite Hw, length_app. destruct (length (rs_sent w)); simpl; [|done]. by destruct (length own).
Qed.

Lemma clearHeader_empty header names : (∀ k, k ∈ dom header → k ∈ names ∧ canonical_header_key k = k) → clearHeader header names = ∅.
Proof.
  intros Hk. apply map_empty. intros k. unfold clearHeader. rewrite header_Del_all.
  destruct (header !! k) as [v|] eqn:E; [|by case_decide]. destruct (Hk k) as [Hin Hc]; [by apply elem_of_dom|].
  rewrite decide_True; [done|]. apply list_elem_of_fmap. exists k. done.
Qed.

(** A client never gets the error response on top of another one: what a handler
    that panics has sent is all the client gets before the connection is
    aborted, and if it has sent nothing, the client gets exactly the internal
    error, with none of the header fields the handler has set. *)
Theorem recovered_response keys calls : (∀ header k, k ∈ dom header ↔ k ∈ keys header) →
  let w := foldl writerStep (mkResponseState false ∅ []) calls in
  (∀ k, k ∈ dom (rs_header w) → canonical_header_key k = k) →
  (rs_sent w ≠ [] → recoverPanics keys calls Panics = (w, Aborted)) ∧
  (rs_sent w = [] → ∃ w', recoverPanics keys calls Panics = (w', Returns) ∧
     rs_sent w' = [SentStatus 500 {["Content-Type" := ["application/json"]]}; SentBody (mustErrorBody internalError)]).
Proof.
  intros Hkeys w Hcanon. pose proof (committed_sent calls (mkResponseState false ∅ []) eq_refl) as Hc. cbv zeta in Hc. fold w in Hc.
  unfold recoverPanics. fold w. split; intros Hs.
  - destruct (rs_sent w); [done|]. by rewrite Hc.
  - rewrite Hs in Hc. cbn [length Nat.eqb negb] in Hc. rewrite Hc. eexists. split; [reflexivity|]. cbn. rewrite Hs.
    rewrite clearHeader_empty; [done|]. intros k Hk. split; [by apply Hkeys|by apply Hcanon].
Qed.
