(* ===== verification/Dataset.v ===== *)
(** * Benchmark datasets ([internal/benchdataset/generator.go])

    The generator of the routes the gateway is measured with. A standard
    dataset reserves three positions for sentinel routes, hands the categories
    of hosts, paths and methods out to the others in turn, selects the routes
    with predicates, services and plugins, and shuffles the result with a seeded
    source; its metadata states how many routes are of each kind.

    The source of random indices, the JSON encoding of a resource set and the
    digest are parameters. [int] is 64 bits wide. *)

From S2P Require Import Prelude GoStrings NetAddr Decimal Json Pattern Predicate Router Plugins.
From S2P Require Import HashKey Url Resources Builder.
#[local] Open Scope string_scope.
#[local] Open Scope Z_scope.
#[local] Open Scope list_scope.

Definition SchemaVersion : Z := 1.
Definition benchmarkService : string := "bench-service".
Definition benchmarkUpstream : string := "bench-upstream".

Record Options := mkOptions {
  op_routeCount : Z;
  op_seed : Z;
  op_endpoint : string;
  op_baselineSentinel : string;
}.

Record HostCounts := mkHostCounts { hc_exact : Z; hc_wildcard : Z; hc_hostless : Z }.
Record PathCounts := mkPathCounts { pc_static : Z; pc_parameter : Z; pc_prefix : Z; pc_catchAll : Z }.
Record MethodCounts := mkMethodCounts { mc_standard : Z; mc_custom : Z }.

Record Sentinel := mkSentinel { sn_routeID : string; sn_host : string; sn_path : string; sn_url : string }.

Record Metadata := mkMetadata {
  md_schemaVersion : Z;
  md_seed : Z;
  md_routeCount : Z;
  md_checksum : string;
  md_hostCounts : HostCounts;
  md_pathCounts : PathCounts;
  md_methodCounts : MethodCounts;
  md_predicateRoutes : Z;
  md_serviceRoutes : Z;
  md_pluginCounts : gmap string Z;
  md_sentinels : gmap string Sentinel;
}.

Inductive generateError :=
| RouteCountNotPositive
| TooFewRoutes
| EndpointInvalid
| BaselineRequired
| BaselineUnexpected
| EncodeDataset.

(** ** The pieces of a dataset *)

(** A value of the 64-bit type [int]. *)
Definition wrap_int (x : Z) : Z := (x + 2 ^ 63) mod 2 ^ 64 - 2 ^ 63.

Definition ratioCount (total percentage : Z) : Z := Z.quot (wrap_int (total * percentage)) 100.

(** The verb [%06d] on a number that is not negative. *)
Definition format06 (index : Z) : string :=
  let digits := pretty index in zeros (6 - String.length digits) +:+ digits.

Definition standardSentinels : gmap string Sentinel :=
  list_to_map
    [("first", mkSentinel "sentinel-first" "sentinel-first.bench.test" "/__sentinel/first"
        "http://sentinel-first.bench.test/__sentinel/first");
     ("middle", mkSentinel "sentinel-middle" "sentinel-middle.bench.test" "/__sentinel/middle"
        "http://sentinel-middle.bench.test/__sentinel/middle");
     ("last", mkSentinel "sentinel-last" "sentinel-last.bench.test" "/__sentinel/last"
        "http://sentinel-last.bench.test/__sentinel/last")].

Definition noSentinel : Sentinel := mkSentinel "" "" "" "".

Definition noOverride : WebSocketPolicyOverride := mkWebSocketOverride None None.

(** A route with the fields the generator sets; the others are zero. *)
Definition benchRoute (id : string) (m : RouteMatch) : Route :=
  mkRoute id 0 m "" benchmarkUpstream [] (mkResilience None None None None) noOverride.

Definition sentinelRoute (sentinel : Sentinel) : Route :=
  benchRoute (sn_routeID sentinel) (mkRouteMatch [sn_host sentinel] (sn_path sentinel) ["GET"] [] []).

Definition second : Z := 1000000000.

Definition baseUpstream (endpoint : string) : Upstream :=
  mkUpstream benchmarkUpstream [mkEndpoint endpoint 1] (mkBalancer BalancerWeightedRoundRobin [])
    (mkTransport "" None (3 * second) (10 * second) (90 * second) 1024 1024)
    (mkHealthPolicy None None)
    (mkRetryPolicy 0 [] (mkRetryOn false false false []) (mkRetryBudget 0 0 0) 0).

Definition baseResources (endpoint : string) (includeService : bool) : ResourceSet :=
  mkResourceSet []
    (if includeService then [mkService benchmarkService benchmarkUpstream [] noOverride] else [])
    [baseUpstream endpoint] [] None [].

Definition set_routes (resources : ResourceSet) (routes : list Route) : ResourceSet :=
  mkResourceSet routes (rs_services resources) (rs_upstreams resources) (rs_certificates resources)
    (rs_downstreamTLS resources) (rs_trustBundles resources).

(** [values[index%len(values)]] *)
Definition pick {A} (d : A) (values : list A) (index : Z) : A :=
  default d (values !! Z.to_nat (Z.rem index (Z.of_nat (length values)))).

Definition benchMethods : list string := ["GET"; "POST"; "PUT"; "DELETE"].

Definition generatedRoute (index : Z) (hostKind pathKind methodKind : nat) : Route :=
  let digits := format06 index in
  let hosts :=
    match hostKind with
    | 0%nat => ["route-" +:+ digits +:+ ".bench.test"]
    | 1%nat => ["*.group-" +:+ digits +:+ ".bench.test"]
    | _ => []
    end in
  let path :=
    match pathKind with
    | 0%nat => "/static/" +:+ digits
    | 1%nat => "/parameter/" +:+ digits +:+ "/{id}"
    | 2%nat => "/prefix/" +:+ digits +:+ "/*"
    | _ => "/catch/" +:+ digits +:+ "/{*path}"
    end in
  let method :=
    match methodKind with
    | 0%nat => pick "" benchMethods index
    | _ => "BENCH" +:+ pretty (Z.rem index 10)
    end in
  benchRoute ("route-" +:+ digits) (mkRouteMatch hosts path [method] [] []).

Definition benchOperators : list PredicateOperator :=
  [PredicateExists; PredicateNotExists; PredicateEquals; PredicateNotEquals; PredicateOneOf].

Definition set_predicates (route : Route) (headers queries : list Predicate) : Route :=
  let m := rt_match route in
  mkRoute (rt_id route) (rt_priority route)
    (mkRouteMatch (match_hosts m) (match_path m) (match_methods m) headers queries)
    (rt_serviceRef route) (rt_upstreamRef route) (rt_plugins route) (rt_resilience route) (rt_webSocket route).

Definition addPredicate (route : Route) (index : Z) : Route :=
  let operator := pick PredicateExists benchOperators index in
  let value := "value-" +:+ format06 index in
  let values :=
    match operator with
    | PredicateExists | PredicateNotExists => []
    | PredicateOneOf => [value; "alternate-" +:+ format06 index]
    | _ => [value]
    end in
  if Z.rem index 2 =? 0
  then set_predicates route [mkPredicate ("X-Bench-" +:+ format06 index) operator values]
         (match_queries (rt_match route))
  else set_predicates route (match_headers (rt_match route))
         [mkPredicate ("q" +:+ format06 index) operator values].

Definition useService (route : Route) : Route :=
  mkRoute (rt_id route) (rt_priority route) (rt_match route) benchmarkService "" (rt_plugins route)
    (rt_resilience route) (rt_webSocket route).

Definition addPlugin (route : Route) (plugin : PluginAttachment) : Route :=
  mkRoute (rt_id route) (rt_priority route) (rt_match route) (rt_serviceRef route) (rt_upstreamRef route)
    (rt_plugins route ++ [plugin]) (rt_resilience route) (rt_webSocket route).

Definition requestIDPlugin : PluginAttachment :=
  mkAttachment "request-id" true (json_object [("header_name", quoted "X-Bench-Request-ID")]).

Definition headerRewritePlugin (id : string) : PluginAttachment :=
  mkAttachment "header-rewrite" true
    (json_object
       [("request", json_object [("set", json_object [("X-Bench-Route", quoted id)])]);
        ("response", json_object [("set", json_object [("X-Bench-Gateway", quoted "g-gateway")])])]).

(** ** Assignments *)

(** [for category < len(remaining) && remaining[category] == 0]; as many rounds
    as there are categories are enough. *)
Fixpoint nextCategory (fuel : nat) (remaining : list Z) (category : nat) : nat :=
  match fuel with
  | 0%nat => category
  | S fuel =>
      match remaining !! category with
      | Some count => if count =? 0 then nextCategory fuel remaining (S category) else category
      | None => category
      end
  end.

Fixpoint assignLoop (sentinels : gmap Z string) (indices : list Z) (remaining : list Z) (category : nat) : list nat :=
  match indices with
  | [] => []
  | index :: indices =>
      match sentinels !! index with
      | Some _ => 0%nat :: assignLoop sentinels indices remaining category
      | None =>
          let category := nextCategory (length remaining) remaining category in
          category :: assignLoop sentinels indices (alter Z.pred category remaining) category
      end
  end.

Definition categoryAssignments (total : Z) (sentinels : gmap Z string) (counts : list Z) : list nat :=
  let remaining := alter (fun count => count - Z.of_nat (size sentinels)) 0%nat counts in
  assignLoop sentinels (seqZ 0 total) remaining 0.

(** The loop stops once [count] is used up; the rest of [selected] is false. *)
Fixpoint selectLoop (sentinels : gmap Z string) (indices : list Z) (offset seen count : Z) : list bool :=
  match indices with
  | [] => []
  | index :: indices' =>
      if count <=? 0 then replicate (length indices) false
      else
        match sentinels !! index with
        | Some _ => false :: selectLoop sentinels indices' offset seen count
        | None =>
            if seen <? offset then false :: selectLoop sentinels indices' offset (seen + 1) count
            else true :: selectLoop sentinels indices' offset seen (count - 1)
        end
  end.

Definition selectNonSentinels (total : Z) (sentinels : gmap Z string) (offset count : Z) : list bool :=
  selectLoop sentinels (seqZ 0 total) offset 0 count.

(** ** Generation *)

Definition validateOptions (options : Options) : result generateError unit :=
  if op_routeCount options <=? 0 then Err RouteCountNotPositive
  else if (1 <? op_routeCount options) && (op_routeCount options <? 5) then Err TooFewRoutes
  else
    match url_Parse (op_endpoint options) with
    | None => Err EndpointInvalid
    | Some endpoint =>
        if negb (String.eqb (u_scheme endpoint) "http") || String.eqb (u_host endpoint) "" then Err EndpointInvalid
        else if op_routeCount options =? 1
        then match standardSentinels !! op_baselineSentinel options with
             | None => Err BaselineRequired
             | Some _ => Ok tt
             end
        else if negb (String.eqb (op_baselineSentinel options) "") then Err BaselineUnexpected
        else Ok tt
    end.

Definition sentinelPositions (routeCount : Z) : gmap Z string :=
  <[routeCount - 1 := "last"]> (<[Z.quot routeCount 2 := "middle"]> (<[0 := "first"]> ∅)).

(** The metadata of a standard dataset, its checksum still empty. *)
Definition standardMetadata (options : Options) : Metadata :=
  let n := op_routeCount options in
  let exact := ratioCount n 60 in
  let wildcard := ratioCount n 20 in
  let static := ratioCount n 50 in
  let parameter := ratioCount n 20 in
  let prefix := ratioCount n 15 in
  let standard := ratioCount n 90 in
  mkMetadata SchemaVersion (op_seed options) n ""
    (mkHostCounts exact wildcard (n - exact - wildcard))
    (mkPathCounts static parameter prefix (n - static - parameter - prefix))
    (mkMethodCounts standard (n - standard))
    (ratioCount n 20) (ratioCount n 50)
    (list_to_map [("request-id", ratioCount n 10); ("header-rewrite", ratioCount n 10)])
    standardSentinels.

Definition set_checksum (m : Metadata) (checksum : string) : Metadata :=
  mkMetadata (md_schemaVersion m) (md_seed m) (md_routeCount m) checksum (md_hostCounts m) (md_pathCounts m)
    (md_methodCounts m) (md_predicateRoutes m) (md_serviceRoutes m) (md_pluginCounts m) (md_sentinels m).

(** One round of the route loop. *)
Definition decorate (index : Z) (predicate service requestID headerRewrite : bool) (route : Route) : Route :=
  let route := if predicate then addPredicate route index else route in
  let route := if service then useService route else route in
  let route := if requestID then addPlugin route requestIDPlugin else route in
  if headerRewrite then addPlugin route (headerRewritePlugin (rt_id route)) else route.

(** The routes of a standard dataset in generation order. *)
Definition standardRoutes (n : Z) (metadata : Metadata) : list Route :=
  let sentinels := sentinelPositions n in
  let hosts := md_hostCounts metadata in
  let paths := md_pathCounts metadata in
  let plugin name := default 0 (md_pluginCounts metadata !! name) in
  let hostKinds := categoryAssignments n sentinels [hc_exact hosts; hc_wildcard hosts] in
  let pathKinds := categoryAssignments n sentinels [pc_static paths; pc_parameter paths; pc_prefix paths] in
  let methodKinds := categoryAssignments n sentinels [mc_standard (md_methodCounts metadata)] in
  let predicateRoutes := selectNonSentinels n sentinels 0 (md_predicateRoutes metadata) in
  let serviceRoutes := selectNonSentinels n sentinels 0 (md_serviceRoutes metadata) in
  let requestIDRoutes := selectNonSentinels n sentinels 0 (plugin "request-id") in
  let headerRewriteRoutes := selectNonSentinels n sentinels (plugin "request-id") (plugin "header-rewrite") in
  let at_ {A} (d : A) (l : list A) index := default d (l !! Z.to_nat index) in
  (fun index =>
     match sentinels !! index with
     | Some position => sentinelRoute (default noSentinel (md_sentinels metadata !! position))
     | None =>
         decorate index (at_ false predicateRoutes index) (at_ false serviceRoutes index)
           (at_ false requestIDRoutes index) (at_ false headerRewriteRoutes index)
           (generatedRoute index (at_ 0%nat hostKinds index) (at_ 0%nat pathKinds index) (at_ 0%nat methodKinds index))
     end) <$> seqZ 0 n.

(** [rand.New(rand.NewSource(seed))]: the index [Shuffle] of [n] elements
    draws for position [i]. *)
Class Rand := {
  draw : Z → nat → nat → nat;
  draw_range seed n i : (draw seed n i ≤ i)%nat;
}.

Definition swap {A} (l : list A) (i j : nat) : list A :=
  match l !! i, l !! j with Some x, Some y => <[j := x]> (<[i := y]> l) | _, _ => l end.

(** [Shuffle]: positions [i], [i-1], ..., 1 are swapped with a drawn one. *)
Fixpoint shuffleFrom `{Rand} {A} (seed : Z) (n i : nat) (l : list A) : list A :=
  match i with
  | 0%nat => l
  | S i' => shuffleFrom seed n i' (swap l i (draw seed n i))
  end.

Definition Shuffle `{Rand} {A} (seed : Z) (l : list A) : list A :=
  shuffleFrom seed (length l) (length l - 1) l.

Section Generate.
Context `{Rand} (marshal : ResourceSet → option string) (sha256hex : string → string).

(** The resources with each kind sorted by identifier. *)
Definition canonicalResources (resources : ResourceSet) : ResourceSet :=
  mkResourceSet (sort_slice (fun a b => String.ltb (rt_id a) (rt_id b)) (rs_routes resources))
    (sort_slice (fun a b => String.ltb (sv_id a) (sv_id b)) (rs_services resources))
    (sort_slice (fun a b => String.ltb (up_id a) (up_id b)) (rs_upstreams resources))
    (rs_certificates resources) (rs_downstreamTLS resources) (rs_trustBundles resources).

Definition resourceChecksum (resources : ResourceSet) : result generateError string :=
  match marshal (canonicalResources resources) with
  | None => Err EncodeDataset
  | Some encoded => Ok (sha256hex encoded)
  end.

Definition generateBaseline (options : Options) : result generateError (ResourceSet * Metadata) :=
  let sentinel := default noSentinel (standardSentinels !! op_baselineSentinel options) in
  let resources := set_routes (baseResources (op_endpoint options) false) [sentinelRoute sentinel] in
  checksum ← resourceChecksum resources;
  Ok (resources,
      mkMetadata SchemaVersion (op_seed options) 1 checksum (mkHostCounts 1 0 0) (mkPathCounts 1 0 0 0)
        (mkMethodCounts 1 0) 0 0 (list_to_map [("request-id", 0); ("header-rewrite", 0)])
        {[op_baselineSentinel options := sentinel]}).

Definition Generate (options : Options) : result generateError (ResourceSet * Metadata) :=
  _ ← validateOptions options;
  if op_routeCount options =? 1 then generateBaseline options
  else
    let metadata := standardMetadata options in
    let resources := baseResources (op_endpoint options) (0 <? md_serviceRoutes metadata) in
    let routes := Shuffle (op_seed options) (standardRoutes (op_routeCount options) metadata) in
    let resources := set_routes resources routes in
    checksum ← resourceChecksum resources;
    Ok (resources, set_checksum metadata checksum).
End Generate.
