(* ===== verification/DatasetCorrect.v ===== *)
(** * Datasets are what their metadata say ([internal/benchdataset])

    The categories handed out by the generator have exactly the shares asked
    for, the shuffle only reorders, every generated pattern compiles to the kind
    it is counted under, and the resources pass the validation of a snapshot and
    the compilation of the router. *)

From S2P Require Import Prelude GoStrings Trim NetAddr Decimal Json Pattern Predicate Router RouterCorrect Plugins.
From S2P Require Import HashKey Url Resources Builder Dataset.
#[local] Open Scope string_scope.
#[local] Open Scope Z_scope.
#[local] Open Scope list_scope.

(** ** Counting *)

(** How many elements of a list satisfy a test. *)
Definition tally {A} (P : A → bool) (l : list A) : Z := zsum (fun x => if P x then 1 else 0) l.

Lemma tally_app {A} (P : A → bool) l k : tally P (l ++ k) = tally P l + tally P k.
Proof. apply zsum_app. Qed.

Lemma tally_perm {A} (P : A → bool) l k : l ≡ₚ k → tally P l = tally P k.
Proof. apply zsum_perm. Qed.

Lemma tally_replicate {A} (P : A → bool) k x : tally P (replicate k x) = if P x then Z.of_nat k else 0.
Proof.
  unfold tally. induction k as [|k IH]; [by destruct (P x)|]. rewrite replicate_S, zsum_cons, IH.
  destruct (P x); lia.
Qed.

Lemma tally_aligned {A B} (P : A → bool) (Q : B → bool) l k :
  Forall2 (fun x y => P x = Q y) l k → tally P l = tally Q k.
Proof. unfold tally. induction 1 as [|x y l k H _ IH]; [done|]. by rewrite !zsum_cons, H, IH. Qed.

(** ** The loops *)

(** Where a list of categories starts at [base], [free] positions are handed
    out in turn and the rest goes behind the last category. *)
Fixpoint spread (base : nat) (shares : list Z) (free : nat) : list nat :=
  match shares with
  | [] => replicate free base
  | share :: shares =>
      replicate (Z.to_nat share `min` free) base ++ spread (S base) shares (free - Z.to_nat share)
  end.

Lemma spread_0 base shares : spread base shares 0 = [].
Proof.
  revert base. induction shares as [|s shares IH]; intros base; simpl; [done|].
  by rewrite Nat.min_0_r, IH.
Qed.

Lemma nextCategory_spread fuel remaining category free : (length remaining ≤ category + fuel)%nat →
  Forall (fun s => 0 ≤ s) remaining →
  let c := nextCategory fuel remaining category in
  spread category (drop category remaining) (S free)
  = c :: spread c (drop c (alter Z.pred c remaining)) free.
Proof.
  revert category. induction fuel as [|fuel IH]; intros category Hf Hp; cbn [nextCategory].
  { rewrite drop_ge by lia. rewrite drop_ge by (rewrite length_alter; lia). done. }
  destruct (remaining !! category) as [share|] eqn:Hl.
  2:{ apply lookup_ge_None in Hl. rewrite drop_ge by lia. rewrite drop_ge by (rewrite length_alter; lia). done. }
  rewrite (drop_S _ _ _ Hl). cbn [spread].
  assert (0 ≤ share) by (by eapply Forall_lookup_1 in Hp; [|exact Hl]).
  destruct (Z.eqb_spec share 0) as [->|Hs].
  { simpl. apply IH; [lia|done]. }
  rewrite (drop_S (alter _ _ _) (Z.pred share) category) by (by rewrite list_lookup_alter_eq, Hl).
  cbn [spread]. rewrite drop_alter, decide_False by lia.
  replace (Z.to_nat share `min` S free)%nat with (S (Z.to_nat (Z.pred share) `min` free)) by lia.
  replace (S free - Z.to_nat share)%nat with (free - Z.to_nat (Z.pred share))%nat by lia. done.
Qed.

Lemma nextCategory_open fuel remaining category share : (length remaining ≤ category + fuel)%nat →
  remaining !! nextCategory fuel remaining category = Some share → share ≠ 0.
Proof.
  revert category. induction fuel as [|fuel IH]; intros category Hf; cbn [nextCategory].
  { rewrite lookup_ge_None_2 by lia. done. }
  destruct (remaining !! category) as [s|] eqn:Hl; [|by rewrite Hl].
  destruct (Z.eqb_spec s 0) as [->|Hs]; [apply IH; lia|]. rewrite Hl. by intros [= ->].
Qed.

Lemma nextCategory_shares fuel remaining category : (length remaining ≤ category + fuel)%nat →
  Forall (fun s => 0 ≤ s) remaining →
  Forall (fun s => 0 ≤ s) (alter Z.pred (nextCategory fuel remaining category) remaining).
Proof.
  intros Hf Hp. apply Forall_alter; [done|]. intros s Hs Hs0.
  pose proof (nextCategory_open _ _ _ _ Hf Hs). lia.
Qed.

Section Loops.
Context (sentinels : gmap Z string).

Definition is_sentinel (index : Z) : bool := bool_decide (is_Some (sentinels !! index)).
Definition is_free (index : Z) : bool := negb (is_sentinel index).

Lemma is_sentinel_lookup index :
  is_sentinel index = match sentinels !! index with Some _ => true | None => false end.
Proof. unfold is_sentinel. by destruct (sentinels !! index). Qed.

(** The number of positions a loop hands out. *)
Definition free_count (indices : list Z) : nat := length (List.filter is_free indices).
Definition held_count (indices : list Z) : nat := length (List.filter is_sentinel indices).

Lemma assignLoop_spread indices remaining category : Forall (fun s => 0 ≤ s) remaining →
  assignLoop sentinels indices remaining category
  ≡ₚ replicate (held_count indices) 0%nat ++ spread category (drop category remaining) (free_count indices).
Proof.
  unfold held_count, free_count. revert remaining category.
  induction indices as [|index indices IH]; intros remaining category Hp; cbn [assignLoop List.filter].
  { by rewrite spread_0. }
  unfold is_free at 1. rewrite is_sentinel_lookup. destruct (sentinels !! index) as [x|]; simpl.
  - constructor. by apply IH.
  - rewrite (nextCategory_spread (length remaining) remaining category _ ltac:(lia) Hp). rewrite IH by (apply nextCategory_shares; [lia|done]).
    by rewrite Permutation_middle.
Qed.

Lemma assignLoop_sentinels indices remaining category :
  Forall2 (fun index c => is_sentinel index = true → c = 0%nat) indices
    (assignLoop sentinels indices remaining category).
Proof.
  revert remaining category. induction indices as [|index indices IH]; intros remaining category; cbn [assignLoop]; [done|].
  destruct (sentinels !! index) eqn:Hs; constructor; auto. by rewrite is_sentinel_lookup, Hs.
Qed.

Lemma selectLoop_sentinels indices offset seen count :
  Forall2 (fun index b => is_sentinel index = true → b = false) indices
    (selectLoop sentinels indices offset seen count).
Proof.
  revert seen count. induction indices as [|index indices IH]; intros seen count; cbn [selectLoop]; [done|].
  destruct (count <=? 0).
  { simpl. constructor; [done|]. clear. induction indices; simpl; by constructor. }
  destruct (sentinels !! index) eqn:Hs; [by constructor|].
  destruct (seen <? offset); constructor; auto. by rewrite is_sentinel_lookup, Hs.
Qed.

Lemma selectLoop_tally indices offset seen count : seen ≤ offset → 0 ≤ count →
  tally id (selectLoop sentinels indices offset seen count)
  = Z.min count (Z.max 0 (Z.of_nat (free_count indices) - (offset - seen))).
Proof.
  unfold free_count. revert seen count. induction indices as [|index indices IH]; intros seen count Ho Hc; cbn [selectLoop List.filter].
  { unfold tally. simpl. lia. }
  destruct (Z.leb_spec count 0) as [Hz|Hz].
  { replace count with 0 by lia. rewrite tally_replicate. simpl. lia. }
  unfold is_free at 1. rewrite is_sentinel_lookup. destruct (sentinels !! index); cbn [negb length].
  - rewrite <-IH by lia. done.
  -     unfold tally. destruct (Z.ltb_spec seen offset); rewrite zsum_cons; fold (tally id).
    + change (zsum _ _) with (tally id (selectLoop sentinels indices offset (seen + 1) count)). rewrite IH by lia. simpl. lia.
    + change (zsum _ _) with (tally id (selectLoop sentinels indices offset seen (count - 1))). rewrite IH by lia. simpl. lia.
Qed.
End Loops.

(** ** Digits *)

Lemma forallb_contains p c s : string_forallb p s = true → p c = false → contains_byte c s = false.
Proof.
  induction s as [|d s IH]; simpl; [done|]. intros [Hd Hs]%andb_true_iff Hc.
  destruct (Ascii.eqb_spec c d) as [->|]; [congruence|]. by apply IH.
Qed.

Lemma forallb_weaken (p q : ascii → bool) s : (∀ c, p c = true → q c = true) →
  string_forallb p s = true → string_forallb q s = true.
Proof. intros Hpq. induction s as [|c s IH]; simpl; [done|]. rewrite !andb_true_iff. naive_solver. Qed.

Lemma forallb_stake p k s : string_forallb p s = true → string_forallb p (stake k s) = true.
Proof. intros H. rewrite <-(stake_sdrop_app k s), string_forallb_app in H. by apply andb_true_iff in H as [? _]. Qed.

Lemma forallb_sdrop p k s : string_forallb p s = true → string_forallb p (sdrop k s) = true.
Proof. intros H. rewrite <-(stake_sdrop_app k s), string_forallb_app in H. by apply andb_true_iff in H as [_ ?]. Qed.

(** A non-empty string of decimal digits. *)
Definition numeric (d : string) : Prop := string_forallb is_digit d = true ∧ d ≠ "".

Lemma numeric_avoids c d : numeric d → is_digit c = false → contains_byte c d = false.
Proof. intros [Hd _]. by apply forallb_contains. Qed.

Lemma format06_numeric index : 0 ≤ index → numeric (format06 index).
Proof.
  intros Hi. unfold format06. split.
  - by rewrite string_forallb_app, zeros_digits, pretty_digits.
  - intros He. pose proof (pretty_read index Hi) as Hr.
    rewrite <-(decimal_digits_zeros (6 - String.length (pretty index))), He in Hr. injection Hr as Hr. subst index. by vm_compute in He.
Qed.

Lemma format06_read index : 0 ≤ index → decimal_digits 0 (format06 index) = Some index.
Proof. intros Hi. unfold format06. by rewrite decimal_digits_zeros, pretty_read. Qed.

Lemma format06_length index : 0 ≤ index < 10 ^ 18 → (String.length (format06 index) ≤ 18)%nat.
Proof.
  intros Hi. unfold format06. rewrite length_string_app, length_zeros.
  pose proof (pretty_length 18 index Hi ltac:(lia)). lia.
Qed.

(** ** The generated paths *)

Lemma contains_any_app chars s t : contains_any chars (s +:+ t) = contains_any chars s || contains_any chars t.
Proof. unfold contains_any. by rewrite string_forallb_app, negb_andb. Qed.

Lemma numeric_path d prefix suffix : numeric d → has_prefix prefix "/" = true →
  contains_any "?#" prefix = false → contains_any "?#" suffix = false →
  has_prefix (prefix +:+ d +:+ suffix) "/" = true ∧ contains_any "?#" (prefix +:+ d +:+ suffix) = false.
Proof.
  intros [Hd _] Hp H1 H2. split.
  - apply has_prefix_spec in Hp as [t ->]. apply has_prefix_spec. by exists (t +:+ d +:+ suffix).
  - unfold contains_any in *. apply negb_false_iff. apply negb_false_iff in H1, H2.
    rewrite !string_forallb_app, H1, H2, andb_true_r. simpl. revert Hd. apply forallb_weaken.
    intros c Hc. simpl. destruct (Ascii.eqb_spec c "?"%char) as [->|]; [done|].
    by destruct (Ascii.eqb_spec c "#"%char) as [->|].
Qed.

Lemma compilePathSegment_numeric d final : numeric d → compilePathSegment d final = Ok (mkSegment segmentStatic d).
Proof.
  intros Hd. unfold compilePathSegment, braced.
  assert (Hstar : contains_byte "*" d = false) by (by apply numeric_avoids).
  assert (Hbrace : contains_byte "{" d = false) by (by apply numeric_avoids).
  destruct (String.eqb_spec d "*") as [->|_]; [done|].
  assert (Hno : ∀ o, contains_byte "{" o = true → has_prefix d o = false).
  { intros o Ho. destruct (has_prefix d o) eqn:Hp; [|done]. apply has_prefix_spec in Hp as [t ->].
    by rewrite contains_byte_app, Ho in Hbrace. }
  rewrite !Hno by done. simpl. rewrite Hstar. unfold contains_any.
  replace (string_forallb _ d) with true; [done|]. symmetry. destruct Hd as [Hd _]. revert Hd. apply forallb_weaken.
  intros c Hc. simpl. destruct (Ascii.eqb_spec c "{"%char) as [->|]; [done|].
  by destruct (Ascii.eqb_spec c "}"%char) as [->|].
Qed.

Definition segments_of (path : string) : option (list pathSegment) :=
  match compilePathPattern path with Ok p => Some (path_segments p) | Err _ => None end.

(** The kind a path pattern is counted under: that of its only segment that is
    not static, if there is one. *)
Definition path_class (path : string) : option segmentKind :=
  match List.filter (fun s => negb (bool_decide (seg_kind s = segmentStatic))) <$> segments_of path with
  | Some [] => Some segmentStatic
  | Some [s] => Some (seg_kind s)
  | _ => None
  end.

Lemma static_path d : numeric d →
  segments_of ("/static/" +:+ d) = Some [mkSegment segmentStatic "static"; mkSegment segmentStatic d].
Proof.
  intros Hd. unfold segments_of, compilePathPattern.
  destruct (numeric_path d "/static/" "" Hd eq_refl eq_refl eq_refl) as [H1 H2].
  rewrite string_app_nil_r in H1, H2. rewrite H1, H2. cbn [negb].
  replace (String.eqb ("/static/" +:+ d) "/") with false by done.
  change (sdrop 1 ("/static/" +:+ d)) with ("static" +:+ String "/" d). rewrite split_byte_app by done.
  rewrite split_byte_no_sep by (by apply numeric_avoids). cbn [compileSegments].
  rewrite compilePathSegment_numeric by done. by cbn.
Qed.

Lemma tail_path name tail kind text d : numeric d → contains_byte "/" name = false → contains_byte "/" tail = false →
  contains_any "?#" name = false → contains_any "?#" tail = false →
  compilePathSegment name false = Ok (mkSegment segmentStatic name) →
  compilePathSegment tail true = Ok (mkSegment kind text) →
  segments_of (String "/" (name +:+ String "/" (d +:+ String "/" tail)))
  = Some [mkSegment segmentStatic name; mkSegment segmentStatic d; mkSegment kind text].
Proof.
  intros Hd Hn Ht Hn2 Ht2 Hcn Hct. unfold segments_of, compilePathPattern.
  destruct (numeric_path d (String "/" (name +:+ "/")) (String "/" tail) Hd) as [H1 H2].
  { apply has_prefix_spec. by exists (name +:+ "/"). }
  { change (String "/" (name +:+ "/")) with ("/" +:+ name +:+ "/"). by rewrite !contains_any_app, Hn2. }
  { change (String "/" tail) with ("/" +:+ tail). by rewrite contains_any_app, Ht2. }
  replace (String "/" (name +:+ "/") +:+ d +:+ String "/" tail)
    with (String "/" (name +:+ String "/" (d +:+ String "/" tail))) in H1, H2
    by (simpl; by rewrite string_app_assoc).
  rewrite H1, H2. cbn [negb].
  destruct (String.eqb_spec (String "/" (name +:+ String "/" (d +:+ String "/" tail))) "/") as [He|_];
    [by destruct name|]. cbn [sdrop].
  rewrite !split_byte_app by (done || by apply numeric_avoids). rewrite split_byte_no_sep by done.
  cbn [compileSegments]. rewrite Hcn, Hct, (compilePathSegment_numeric d false Hd).
  by destruct kind.
Qed.

(** ** The generated hosts and identifiers *)

(** The bytes of a lower-case domain name. *)
Definition name_byte (c : ascii) : bool := is_lower c || is_digit c || Ascii.eqb c "-" || Ascii.eqb c ".".

Lemma name_byte_facts c : name_byte c = true →
  is_ascii_byte c = true ∧ lower_byte c = c ∧ Ascii.eqb ":" c = false ∧ Ascii.eqb "[" c = false.
Proof. destruct c as [[] [] [] [] [] [] [] []]; vm_compute; intros; try discriminate; repeat split; reflexivity. Qed.

(** White space holds a byte no printed identifier has. *)
Lemma white_space_bytes : Forall (fun w => string_forallb (fun c => byte_between "!" "~" c) w = false) white_space.
Proof. repeat constructor. Qed.

Lemma printable_trimmed s : string_forallb (fun c => byte_between "!" "~" c) s = true → trim_space s = s.
Proof.
  intros Hs. apply trimmed_iff. split; (eapply Forall_impl; [exact white_space_bytes|]); intros w Hw; simpl in Hw.
  - destruct (has_prefix s w) eqn:Hp; [|done]. apply has_prefix_spec in Hp as [t ->].
    by rewrite string_forallb_app, Hw in Hs.
  - destruct (has_suffix s w) eqn:Hp; [|done]. apply has_suffix_spec in Hp as [t ->].
    by rewrite string_forallb_app, Hw, andb_false_r in Hs.
Qed.

Lemma name_byte_printable c : name_byte c = true → byte_between "!" "~" c = true.
Proof. destruct c as [[] [] [] [] [] [] [] []]; vm_compute; congruence. Qed.

Lemma digit_name_byte c : is_digit c = true → name_byte c = true.
Proof. unfold name_byte. intros ->. by rewrite orb_true_r. Qed.

Lemma count_byte_none c s : contains_byte c s = false → count_byte c s = 0%nat.
Proof.
  induction s as [|d s IH]; simpl; [done|]. intros [Hd Hs]%orb_false_iff. by rewrite Hd, IH.
Qed.

Lemma string_map_id f s : string_forallb (fun c => Ascii.eqb (f c) c) s = true → string_map f s = s.
Proof.
  induction s as [|c s IH]; simpl; [done|]. intros [->%Ascii.eqb_eq Hs]%andb_true_iff. by rewrite IH.
Qed.

Section Hosts.
Context `{Unicode}.

Lemma NormalizeRequestHost_name h : string_forallb name_byte h = true → h ≠ "" → has_suffix h "." = false →
  NormalizeRequestHost h = Ok h.
Proof.
  intros Hb Hne Hdot. unfold NormalizeRequestHost, authorityHost.
  destruct (String.eqb_spec h "") as [|_]; [done|].
  rewrite printable_trimmed, String.eqb_refl by (revert Hb; apply forallb_weaken, name_byte_printable). cbn [negb orb].
  rewrite count_byte_none by (by apply (forallb_contains name_byte)).
  assert (Hbr : has_prefix h "[" = false).
  { destruct (has_prefix h "[") eqn:Hp; [|done]. by apply has_prefix_spec in Hp as [t ->]. }
  rewrite Hbr. cbn. unfold to_lower, to_lower_ascii, is_ascii.
  rewrite (forallb_weaken name_byte is_ascii_byte) by (done || (intros c Hc; by apply name_byte_facts)).
  rewrite string_map_id. { rewrite Hdot, Hdot. by destruct (String.eqb_spec h ""). }
  revert Hb. apply forallb_weaken. intros c Hc. apply Ascii.eqb_eq. by apply name_byte_facts.
Qed.

Lemma last_byte_app s t : t ≠ "" → last_byte (s +:+ t) = last_byte t.
Proof.
  intros Ht. unfold last_byte, byte_at. rewrite length_string_app.
  assert (0 < String.length t)%nat by (destruct t; [done|simpl; lia]).
  replace (String.length s + String.length t - 1)%nat with (String.length s + (String.length t - 1))%nat by lia.
  generalize (String.length t - 1)%nat. intros k. induction s; simpl; auto.
Qed.

Lemma last_byte_forallb p s : string_forallb p s = true → s ≠ "" → ∃ c, last_byte s = Some c ∧ p c = true.
Proof.
  unfold last_byte, byte_at. induction s as [|c s IH]; [done|]. intros [Hc Hs]%andb_true_iff _.
  destruct s as [|d s]; [by exists c|]. destruct IH as (x & Hx & Hp); [done|done|]. exists x.
  simpl in *. by rewrite Nat.sub_0_r in *.
Qed.

Lemma validLabel_numeric prefix d : numeric d → (String.length prefix + String.length d ≤ 63)%nat →
  (∃ c rest, prefix = String c rest ∧ is_lower c = true) →
  string_forallb (fun c => isASCIIAlphaNumeric c || Ascii.eqb c "-") prefix = true →
  validLabel (prefix +:+ d) = true.
Proof.
  intros [Hd Hne] Hl (c & rest & -> & Hc) Hp. unfold validLabel. rewrite length_string_app.
  replace (Nat.eqb _ 0) with false by (symmetry; apply Nat.eqb_neq; simpl; lia).
  replace (Nat.leb _ 63) with true by (symmetry; apply Nat.leb_le; lia). rewrite last_byte_app by done.
  destruct (last_byte_forallb _ _ Hd Hne) as (x & -> & Hx). cbn [byte_at String.get String.append negb andb].
  unfold isASCIIAlphaNumeric at 1 2. rewrite Hc, Hx, orb_true_r. simpl. unfold slice.
  apply forallb_stake. cbn [sdrop].
  apply andb_true_iff in Hp as [_ Hp]. fold (string_forallb (fun c => isASCIIAlphaNumeric c || Ascii.eqb c "-") rest) in Hp.
  rewrite string_forallb_app, Hp. revert Hd. apply forallb_weaken. intros y Hy. unfold isASCIIAlphaNumeric.
  by rewrite Hy, orb_true_r.
Qed.

Definition bench_prefix (prefix : string) : Prop := prefix = "route-" ∨ prefix = "group-".

Lemma bench_name prefix d : bench_prefix prefix → numeric d → (String.length d ≤ 18)%nat →
  let h := prefix +:+ d +:+ ".bench.test" in
  NormalizeRequestHost h = Ok h ∧ validDNSName h = true ∧ count_byte "." h = 2%nat.
Proof.
  intros Hp Hd Hl h.
  assert (Hlen : (String.length prefix = 6)%nat) by (by destruct Hp as [-> | ->]).
  assert (Hsplit : split_byte "." h = [prefix +:+ d; "bench"; "test"]).
  { subst h. rewrite <-string_app_assoc. change ".bench.test" with (String "." "bench.test").
    rewrite split_byte_app; [done|]. rewrite contains_byte_app, (numeric_avoids "." d) by done.
    by destruct Hp as [-> | ->]. }
  split_and!.
  - apply NormalizeRequestHost_name; subst h.
    + rewrite !string_forallb_app. destruct Hd as [Hd _].
      rewrite (forallb_weaken is_digit name_byte d digit_name_byte Hd). by destruct Hp as [-> | ->].
    + by destruct Hp as [-> | ->].
    + destruct (has_suffix _ _) eqn:Hs; [|done]. apply has_suffix_spec in Hs as [t Ht].
      apply (f_equal last_byte) in Ht. rewrite <-string_app_assoc, !last_byte_app in Ht by done. done.
  - unfold validDNSName. rewrite Hsplit. subst h. rewrite !length_string_app, Hlen.
    replace (Nat.eqb _ 0) with false by done.
    replace (Nat.ltb 253 _) with false by (symmetry; apply Nat.ltb_ge; simpl; lia). simpl.
    rewrite validLabel_numeric; [done|done|lia| |]; destruct Hp as [-> | ->]; [by eexists _, _|by eexists _, _|done|done].
  - pose proof (length_split_byte "." h) as Hc. rewrite Hsplit in Hc. simpl in Hc. lia.
Qed.

Definition host_class (host : string) : option hostPatternKind :=
  match compileHostPattern host with Ok p => Some (host_kind p) | Err _ => None end.

Lemma exact_host d : numeric d → (String.length d ≤ 18)%nat →
  host_class ("route-" +:+ d +:+ ".bench.test") = Some hostPatternExact.
Proof.
  intros Hd Hl. destruct (bench_name "route-" d (or_introl eq_refl) Hd Hl) as (Hn & Hv & _).
  unfold host_class, compileHostPattern. replace (has_prefix _ "*.") with false by done.
  rewrite Hn. cbn [mbind result_bind]. by rewrite Hv.
Qed.

Lemma wildcard_host d : numeric d → (String.length d ≤ 18)%nat →
  host_class ("*.group-" +:+ d +:+ ".bench.test") = Some hostPatternWildcard.
Proof.
  intros Hd Hl. destruct (bench_name "group-" d (or_intror eq_refl) Hd Hl) as (Hn & Hv & Hc).
  unfold host_class, compileHostPattern. replace (has_prefix _ "*.") with true by done.
  change (sdrop 2 _) with ("group-" +:+ d +:+ ".bench.test"). rewrite Hn. cbn [mbind result_bind]. by rewrite Hv, Hc.
Qed.
End Hosts.

(** ** The shares of a standard dataset *)

Section Shares.
Context (n : Z).
Hypothesis Hn : 5 ≤ n.
#[local] Notation sentinels := (sentinelPositions n).

Lemma half_bounds : 0 < Z.quot n 2 < n - 1.
Proof. rewrite Z.quot_div_nonneg by lia. pose proof (Z.div_mod n 2 ltac:(lia)). pose proof (Z.mod_pos_bound n 2 ltac:(lia)). lia. Qed.

Lemma sentinel_index i : is_sentinel sentinels i = true ↔ i ∈ [0; Z.quot n 2; n - 1].
Proof.
  rewrite is_sentinel_lookup. unfold sentinelPositions. pose proof half_bounds.
  rewrite !elem_of_cons, elem_of_nil.
  destruct (decide (n - 1 = i)) as [<-|]; [rewrite lookup_insert_eq; tauto|rewrite lookup_insert_ne by done].
  destruct (decide (Z.quot n 2 = i)) as [<-|]; [rewrite lookup_insert_eq; tauto|rewrite lookup_insert_ne by done].
  destruct (decide (0 = i)) as [<-|]; [rewrite lookup_insert_eq; tauto|rewrite lookup_insert_ne by done].
  rewrite lookup_empty. split; [done|]. intros [|[|[|[]]]]; congruence.
Qed.

Lemma sentinels_size : size sentinels = 3%nat.
Proof.
  unfold sentinelPositions. pose proof half_bounds.
  rewrite !map_size_insert_None; [by rewrite map_size_empty|..];
    by rewrite ?lookup_insert_ne, ?lookup_empty by lia.
Qed.

Lemma held_three : held_count sentinels (seqZ 0 n) = 3%nat.
Proof.
  unfold held_count. pose proof half_bounds.
  assert (Hp : List.filter (is_sentinel sentinels) (seqZ 0 n) ≡ₚ [0; Z.quot n 2; n - 1]).
  { apply NoDup_Permutation.
    - rewrite NoDup_ListNoDup. apply List.NoDup_filter. rewrite <-NoDup_ListNoDup. apply NoDup_seqZ.
    - rewrite !NoDup_cons, !elem_of_cons, !elem_of_nil. split_and!; [lia|lia|tauto|apply NoDup_nil_2].
    - intros i. rewrite list_elem_of_In, List.filter_In, <-list_elem_of_In, sentinel_index, elem_of_seqZ.
      rewrite !elem_of_cons, elem_of_nil. lia. }
  by rewrite Hp.
Qed.

Lemma filter_partition {A} (P : A → bool) l :
  (length (List.filter P l) + length (List.filter (fun x => negb (P x)) l))%nat = length l.
Proof. induction l as [|x l IH]; simpl; [done|]. destruct (P x); simpl; lia. Qed.

Lemma free_rest : Z.of_nat (free_count sentinels (seqZ 0 n)) = n - 3.
Proof.
  pose proof (filter_partition (is_sentinel sentinels) (seqZ 0 n)) as Hp.
  change (length (List.filter (is_sentinel sentinels) (seqZ 0 n))) with (held_count sentinels (seqZ 0 n)) in Hp.
  rewrite held_three, length_seqZ in Hp.
  change (free_count sentinels (seqZ 0 n)) with (length (List.filter (λ x, negb (is_sentinel sentinels x)) (seqZ 0 n))).
  lia.
Qed.

(** The first category includes the sentinels; a category gets its share, and
    what is left goes behind the last one. *)
Lemma categories_spread first shares : 3 ≤ first → Forall (fun s => 0 ≤ s) shares →
  categoryAssignments n sentinels (first :: shares)
  ≡ₚ replicate 3 0%nat ++ spread 0 (first - 3 :: shares) (Z.to_nat (n - 3)).
Proof.
  intros Hf Hs. unfold categoryAssignments. rewrite sentinels_size. simpl alter.
  rewrite assignLoop_spread by (constructor; [lia|done]). rewrite held_three.
  by replace (free_count sentinels (seqZ 0 n)) with (Z.to_nat (n - 3)) by (pose proof free_rest; lia).
Qed.

Lemma select_tally offset count : 0 ≤ offset → 0 ≤ count → offset + count ≤ n - 3 →
  tally id (selectNonSentinels n sentinels offset count) = count.
Proof.
  intros. unfold selectNonSentinels. rewrite selectLoop_tally by lia. rewrite free_rest. lia.
Qed.

(** A test on the routes that only depends on what a position was assigned. *)
Lemma tally_assigned {A} (P : Route → bool) (Q : A → bool) (f : Z → Route) (assigned : list A) :
  length assigned = Z.to_nat n →
  (∀ i a, 0 ≤ i < n → assigned !! Z.to_nat i = Some a → P (f i) = Q a) →
  tally P (f <$> seqZ 0 n) = tally Q assigned.
Proof.
  intros Hl Hf. apply tally_aligned, Forall2_fmap_l, Forall2_same_length_lookup.
  rewrite length_seqZ. split; [done|]. intros k i a Hk Ha.
  apply lookup_seqZ in Hk as [-> Hk]. apply Hf; [lia|]. by replace (Z.to_nat (0 + Z.of_nat k)) with k by lia.
Qed.
End Shares.

(** ** What a route is counted as *)

Section Kinds.
Context `{Unicode}.

Definition hosts_are (kind : option hostPatternKind) (r : Route) : bool :=
  match match_hosts (rt_match r), kind with
  | [], None => true
  | [host], Some kind => bool_decide (host_class host = Some kind)
  | _, _ => false
  end.

Definition path_is (kind : segmentKind) (r : Route) : bool :=
  bool_decide (path_class (match_path (rt_match r)) = Some kind).

Definition standard_method (r : Route) : bool :=
  match match_methods (rt_match r) with [m] => bool_decide (m ∈ benchMethods) | _ => false end.

Definition custom_method (r : Route) : bool :=
  match match_methods (rt_match r) with [m] => has_prefix m "BENCH" | _ => false end.

Definition one_predicate (r : Route) : bool :=
  Nat.eqb (length (match_headers (rt_match r) ++ match_queries (rt_match r))) 1.

Definition uses_service (r : Route) : bool := String.eqb (rt_serviceRef r) benchmarkService.

Definition has_plugin (name : string) (r : Route) : bool :=
  existsb (fun a => String.eqb (pa_name a) name) (rt_plugins r).

(** ** Fields under decoration *)

Lemma decorate_id i a b c d r : rt_id (decorate i a b c d r) = rt_id r.
Proof. unfold decorate, addPredicate. by destruct a, b, c, d; try destruct (_ =? _). Qed.

Lemma decorate_match i a b c d r :
  match_hosts (rt_match (decorate i a b c d r)) = match_hosts (rt_match r) ∧
  match_path (rt_match (decorate i a b c d r)) = match_path (rt_match r) ∧
  match_methods (rt_match (decorate i a b c d r)) = match_methods (rt_match r).
Proof. unfold decorate, addPredicate. by destruct a, b, c, d; try destruct (_ =? _). Qed.

Lemma decorate_predicates i a b c d id m : match_headers m = [] → match_queries m = [] →
  one_predicate (decorate i a b c d (benchRoute id m)) = a.
Proof.
  intros Hh Hq. unfold one_predicate, decorate, addPredicate.
  destruct a, b, c, d; try destruct (_ =? _); simpl; by rewrite ?Hh, ?Hq.
Qed.

Lemma decorate_service i a b c d id m : uses_service (decorate i a b c d (benchRoute id m)) = b.
Proof. unfold uses_service, decorate, addPredicate. by destruct a, b, c, d; try destruct (_ =? _). Qed.

Lemma decorate_plugins i a b c d id m :
  rt_plugins (decorate i a b c d (benchRoute id m))
  = (if c then [requestIDPlugin] else []) ++ (if d then [headerRewritePlugin id] else []).
Proof. unfold decorate, addPredicate. by destruct a, b, c, d; try destruct (_ =? _). Qed.

Lemma decorate_requestID i a b c d id m : has_plugin "request-id" (decorate i a b c d (benchRoute id m)) = c.
Proof. unfold has_plugin. rewrite decorate_plugins. by destruct c, d. Qed.

Lemma decorate_headerRewrite i a b c d id m : has_plugin "header-rewrite" (decorate i a b c d (benchRoute id m)) = d.
Proof. unfold has_plugin. rewrite decorate_plugins. by destruct c, d. Qed.

(** ** The kinds of a generated route *)

Lemma generated_hosts i h p m : 0 ≤ i < 10 ^ 18 →
  hosts_are (Some hostPatternExact) (generatedRoute i h p m) = Nat.eqb h 0 ∧
  hosts_are (Some hostPatternWildcard) (generatedRoute i h p m) = Nat.eqb h 1 ∧
  hosts_are None (generatedRoute i h p m) = Nat.ltb 1 h.
Proof.
  intros Hi. pose proof (format06_numeric i ltac:(lia)) as Hd. pose proof (format06_length i Hi) as Hl.
  unfold hosts_are, generatedRoute, benchRoute. cbn [rt_match match_hosts].
  destruct h as [|[|h]]; [rewrite exact_host by done|rewrite wildcard_host by done|]; done.
Qed.

(** A generated path: two static segments, the second the number, and the
    tail of its kind. *)
Lemma generated_segments i h p m : 0 ≤ i →
  ∃ word, segments_of (match_path (rt_match (generatedRoute i h p m)))
    = Some (mkSegment segmentStatic word :: mkSegment segmentStatic (format06 i)
            :: match p with
               | 0%nat => [] | 1%nat => [mkSegment segmentParameter "id"] | 2%nat => [mkSegment segmentPrefix ""]
               | _ => [mkSegment segmentCatchAll "path"]
               end).
Proof.
  intros Hi. pose proof (format06_numeric i Hi) as Hd. cbn [generatedRoute benchRoute rt_match match_path].
  destruct p as [|[|[|p]]].
  - exists "static". by apply static_path.
  - exists "parameter". by apply (tail_path "parameter" "{id}").
  - exists "prefix". by apply (tail_path "prefix" "*").
  - exists "catch". by apply (tail_path "catch" "{*path}").
Qed.

Lemma generated_path i h p m k : 0 ≤ i →
  path_is k (generatedRoute i h p m)
  = bool_decide (k = match p with
                     | 0%nat => segmentStatic | 1%nat => segmentParameter | 2%nat => segmentPrefix
                     | _ => segmentCatchAll
                     end).
Proof.
  intros Hi. unfold path_is.
  destruct (generated_segments i h p m Hi) as [word Hs]. unfold path_class. rewrite Hs.
  destruct p as [|[|[|p]]]; simpl; apply bool_decide_ext; naive_solver.
Qed.

Lemma pick_cases {A} (d : A) l i : l ≠ [] → 0 ≤ i → pick d l i ∈ l.
Proof.
  intros Hl Hi. unfold pick. pose proof (nonempty_length l Hl).
  destruct (lookup_lt_is_Some_2 l (Z.to_nat (Z.rem i (Z.of_nat (length l))))) as [x Hx].
  { rewrite Z.rem_mod_nonneg by lia. pose proof (Z.mod_pos_bound i (Z.of_nat (length l)) ltac:(lia)). lia. }
  rewrite Hx. simpl. by eapply list_elem_of_lookup_2.
Qed.

Lemma generated_methods i h p m : 0 ≤ i →
  standard_method (generatedRoute i h p m) = Nat.eqb m 0 ∧ custom_method (generatedRoute i h p m) = Nat.ltb 0 m.
Proof.
  intros Hi. unfold standard_method, custom_method, generatedRoute, benchRoute. cbn [rt_match match_methods].
  destruct m as [|m].
  - pose proof (pick_cases "" benchMethods i ltac:(done) Hi) as Hp. rewrite bool_decide_eq_true_2 by done. split; [done|].
    unfold benchMethods in *. by repeat (apply elem_of_cons in Hp as [-> |Hp]; [done|]); apply elem_of_nil in Hp.
  - split; [|by apply has_prefix_spec; eexists]. apply bool_decide_eq_false_2. unfold benchMethods. simpl.
    by repeat (rewrite elem_of_cons; intros [?|Hp]; [done|revert Hp]); rewrite elem_of_nil.
Qed.
End Kinds.

(** ** The distribution of a standard dataset *)

Section Distribution.
Context `{Unicode} (options : Options).
#[local] Notation n := (op_routeCount options).
#[local] Notation metadata := (standardMetadata options).
#[local] Notation sentinels := (sentinelPositions n).
Hypothesis Hn : 5 ≤ n ≤ 10 ^ 17.

Lemma ratioCount_value p : 0 ≤ p ≤ 90 → ratioCount n p = n * p / 100.
Proof.
  intros Hp. unfold ratioCount, wrap_int. rewrite Z.mod_small by nia. rewrite Z.quot_div_nonneg by nia. f_equal. lia.
Qed.

Lemma sentinel_names i position : sentinels !! i = Some position →
  position ∈ ["first"; "middle"; "last"].
Proof.
  unfold sentinelPositions. rewrite !lookup_insert_Some, lookup_empty.
  rewrite !elem_of_cons. naive_solver.
Qed.

(** A test that holds of the three sentinels the way it holds of category 0 or
    of a position that is not selected. *)
Definition on_sentinels (P : Route → bool) (b : bool) : Prop :=
  ∀ position, position ∈ ["first"; "middle"; "last"] →
  P (sentinelRoute (default noSentinel (standardSentinels !! position))) = b.

Lemma on_sentinels_cases P b : P (sentinelRoute (default noSentinel (standardSentinels !! "first"))) = b →
  P (sentinelRoute (default noSentinel (standardSentinels !! "middle"))) = b →
  P (sentinelRoute (default noSentinel (standardSentinels !! "last"))) = b → on_sentinels P b.
Proof. intros ??? position. rewrite !elem_of_cons, elem_of_nil. by intros [-> |[-> |[-> |[]]]]. Qed.

Lemma length_assignLoop indices remaining category :
  length (assignLoop sentinels indices remaining category) = length indices.
Proof. symmetry. eapply Forall2_length, assignLoop_sentinels. Qed.

Lemma length_selectLoop indices offset seen count :
  length (selectLoop sentinels indices offset seen count) = length indices.
Proof. symmetry. eapply Forall2_length, selectLoop_sentinels. Qed.

Lemma category_sentinel counts i c : 0 ≤ i < n → categoryAssignments n sentinels counts !! Z.to_nat i = Some c →
  is_Some (sentinels !! i) → c = 0%nat.
Proof.
  intros Hi Hc Hs. unfold categoryAssignments in Hc.
  eapply Forall2_lookup_lr in Hc; [|apply assignLoop_sentinels|apply lookup_seqZ; split; [reflexivity|lia]].
  apply Hc. rewrite is_sentinel_lookup. replace (0 + Z.of_nat (Z.to_nat i)) with i by lia. by destruct Hs as [? ->].
Qed.

Lemma selected_sentinel offset count i b : 0 ≤ i < n → selectNonSentinels n sentinels offset count !! Z.to_nat i = Some b →
  is_Some (sentinels !! i) → b = false.
Proof.
  intros Hi Hc Hs. unfold selectNonSentinels in Hc.
  eapply Forall2_lookup_lr in Hc; [|apply selectLoop_sentinels|apply lookup_seqZ; split; [reflexivity|lia]].
  apply Hc. rewrite is_sentinel_lookup. replace (0 + Z.of_nat (Z.to_nat i)) with i by lia. by destruct Hs as [? ->].
Qed.

(** A test that depends on the category of a position alone counts the
    positions of its categories. *)
Lemma tally_category (P : Route → bool) (Q : nat → bool) counts
    (kinds : list nat) : kinds = categoryAssignments n sentinels counts →
  on_sentinels P (Q 0%nat) → ∀ f : Z → Route,
  (∀ i position, sentinels !! i = Some position → f i = sentinelRoute (default noSentinel (standardSentinels !! position))) →
  (∀ i, 0 ≤ i < n → sentinels !! i = None → P (f i) = Q (default 0%nat (kinds !! Z.to_nat i))) →
  tally P (f <$> seqZ 0 n) = tally Q kinds.
Proof.
  intros -> Hs f Hfs Hf. apply tally_assigned; [lia|..].
  { unfold categoryAssignments. by rewrite length_assignLoop, length_seqZ. }
  intros i c Hi Hc. destruct (sentinels !! i) as [position|] eqn:Hp.
  - rewrite (Hfs _ _ Hp), (category_sentinel _ _ _ Hi Hc) by (by rewrite Hp). by eapply Hs, sentinel_names.
  - rewrite Hf by done. by rewrite Hc.
Qed.

Lemma tally_selected (P : Route → bool) offset count (selected : list bool) :
  selected = selectNonSentinels n sentinels offset count →
  on_sentinels P false → ∀ f : Z → Route,
  (∀ i position, sentinels !! i = Some position → f i = sentinelRoute (default noSentinel (standardSentinels !! position))) →
  (∀ i, 0 ≤ i < n → sentinels !! i = None → P (f i) = default false (selected !! Z.to_nat i)) →
  tally P (f <$> seqZ 0 n) = tally id selected.
Proof.
  intros -> Hs f Hfs Hf. apply tally_assigned; [lia|..].
  { unfold selectNonSentinels. by rewrite length_selectLoop, length_seqZ. }
  intros i c Hi Hc. destruct (sentinels !! i) as [position|] eqn:Hp.
  - rewrite (Hfs _ _ Hp), (selected_sentinel _ _ _ _ Hi Hc) by (by rewrite Hp). by eapply Hs, sentinel_names.
  - rewrite Hf by done. by rewrite Hc.
Qed.

#[local] Notation routes := (standardRoutes n metadata).

(** Reading a category or a selection at one position of the route loop. *)
Ltac sentinel_position := intros i position Hp; cbn beta; by rewrite Hp.
Ltac free_position := intros i Hi Hp; cbn beta; rewrite Hp.

Lemma hosts_tally kind (Q : nat → bool) : on_sentinels (hosts_are kind) (Q 0%nat) →
  (∀ i h p m, 0 ≤ i < 10 ^ 18 → hosts_are kind (generatedRoute i h p m) = Q h) →
  tally (hosts_are kind) routes
  = tally Q (categoryAssignments n sentinels [hc_exact (md_hostCounts metadata); hc_wildcard (md_hostCounts metadata)]).
Proof.
  intros Hs Hg. unfold standardRoutes. eapply tally_category; [reflexivity|done|sentinel_position|]. free_position.
  unfold hosts_are in *. rewrite (proj1 (decorate_match _ _ _ _ _ _)). apply Hg. lia.
Qed.

Lemma path_tally kind (Q : nat → bool) : on_sentinels (path_is kind) (Q 0%nat) →
  (∀ i h p m, 0 ≤ i → path_is kind (generatedRoute i h p m) = Q p) →
  tally (path_is kind) routes
  = tally Q (categoryAssignments n sentinels
      [pc_static (md_pathCounts metadata); pc_parameter (md_pathCounts metadata); pc_prefix (md_pathCounts metadata)]).
Proof.
  intros Hs Hg. unfold standardRoutes. eapply tally_category; [reflexivity|done|sentinel_position|]. free_position.
  unfold path_is in *. rewrite (proj1 (proj2 (decorate_match _ _ _ _ _ _))). apply Hg. lia.
Qed.

Lemma method_tally (P : Route → bool) (Q : nat → bool) : P = standard_method ∨ P = custom_method →
  on_sentinels P (Q 0%nat) → (∀ i h p m, 0 ≤ i → P (generatedRoute i h p m) = Q m) →
  tally P routes = tally Q (categoryAssignments n sentinels [mc_standard (md_methodCounts metadata)]).
Proof.
  intros HP Hs Hg. unfold standardRoutes. eapply tally_category; [reflexivity|done|sentinel_position|]. free_position.
  destruct HP as [-> | ->]; unfold standard_method, custom_method in *;
    rewrite (proj2 (proj2 (decorate_match _ _ _ _ _ _))); apply Hg; lia.
Qed.

Lemma standard_shares : 0 ≤ n * 10 / 100 ∧ n * 10 / 100 + n * 10 / 100 ≤ n - 3 ∧
  0 ≤ n * 15 / 100 ∧ 0 ≤ n * 20 / 100 ≤ n - 3 ∧ 0 ≤ n * 50 / 100 ≤ n - 3 ∧ 3 ≤ n * 60 / 100 ∧ 3 ≤ n * 90 / 100 ≤ n ∧
  n * 60 / 100 + n * 20 / 100 ≤ n ∧ n * 50 / 100 + n * 20 / 100 + n * 15 / 100 ≤ n.
Proof.
  assert (Hd : ∀ p, 100 * (n * p / 100) ≤ n * p < 100 * (n * p / 100) + 100).
  { intros p. pose proof (Z.div_mod (n * p) 100 ltac:(lia)). pose proof (Z.mod_pos_bound (n * p) 100 ltac:(lia)). lia. }
  pose proof (Hd 10). pose proof (Hd 15). pose proof (Hd 20). pose proof (Hd 50). pose proof (Hd 60). pose proof (Hd 90). lia.
Qed.

Lemma hosts_distribution :
  tally (hosts_are (Some hostPatternExact)) routes = hc_exact (md_hostCounts metadata) ∧
  tally (hosts_are (Some hostPatternWildcard)) routes = hc_wildcard (md_hostCounts metadata) ∧
  tally (hosts_are None) routes = hc_hostless (md_hostCounts metadata).
Proof.
  rewrite (hosts_tally _ (fun h => Nat.eqb h 0)), (hosts_tally _ (fun h => Nat.eqb h 1)), (hosts_tally _ (Nat.ltb 1)).
  all: try (by apply on_sentinels_cases). all: try (by intros; apply generated_hosts).
  pose proof standard_shares. cbn [standardMetadata md_hostCounts hc_exact hc_wildcard hc_hostless].
  rewrite !ratioCount_value by lia.
  rewrite !(tally_perm _ _ _ (categories_spread n ltac:(lia) (n * 60 / 100) [n * 20 / 100] ltac:(lia)
    ltac:(repeat constructor; lia))).
  cbn [spread]. rewrite !tally_app, !tally_replicate. cbn. lia.
Qed.

(** The path counts of the metadata are those of the routes. *)
Definition paths_counted (l : list Route) (counts : PathCounts) : Prop :=
  tally (path_is segmentStatic) l = pc_static counts ∧
  tally (path_is segmentParameter) l = pc_parameter counts ∧
  tally (path_is segmentPrefix) l = pc_prefix counts ∧
  tally (path_is segmentCatchAll) l = pc_catchAll counts.

Lemma paths_distribution : n ≠ 5 → paths_counted routes (md_pathCounts metadata).
Proof.
  intros H5. unfold paths_counted.
  rewrite (path_tally _ (fun p => Nat.eqb p 0)), (path_tally _ (fun p => Nat.eqb p 1)), (path_tally _ (fun p => Nat.eqb p 2)),
    (path_tally _ (Nat.ltb 2)).
  all: try (by apply on_sentinels_cases).
  all: try (intros i h p m Hi; rewrite generated_path by done; by destruct p as [|[|[|p]]]).
  pose proof standard_shares. assert (3 ≤ n * 50 / 100) by (apply Z.div_le_lower_bound; lia).
  cbn [standardMetadata md_pathCounts pc_static pc_parameter pc_prefix pc_catchAll].
  rewrite !ratioCount_value by lia.
  rewrite !(tally_perm _ _ _ (categories_spread n ltac:(lia) (n * 50 / 100) [n * 20 / 100; n * 15 / 100] ltac:(lia)
    ltac:(repeat constructor; lia))).
  cbn [spread]. rewrite !tally_app, !tally_replicate. cbn. lia.
Qed.

Lemma five_paths : n = 5 → tally (path_is segmentStatic) routes = 5 ∧ pc_static (md_pathCounts metadata) = 2.
Proof.
  intros H5. rewrite (path_tally _ (fun p => Nat.eqb p 0)).
  - unfold standardMetadata. rewrite H5. by vm_compute.
  - by apply on_sentinels_cases.
  - intros i h p m Hi. rewrite generated_path by done. by destruct p as [|[|[|p]]].
Qed.

Lemma methods_distribution :
  tally standard_method routes = mc_standard (md_methodCounts metadata) ∧
  tally custom_method routes = mc_custom (md_methodCounts metadata).
Proof.
  rewrite (method_tally standard_method (fun m => Nat.eqb m 0) ltac:(by left)), (method_tally custom_method (Nat.ltb 0) ltac:(by right)).
  all: try (by apply on_sentinels_cases). all: try (by intros; apply generated_methods).
  pose proof standard_shares. cbn [standardMetadata md_methodCounts mc_standard mc_custom].
  rewrite !ratioCount_value by lia.
  rewrite !(tally_perm _ _ _ (categories_spread n ltac:(lia) (n * 90 / 100) [] ltac:(lia) ltac:(constructor))).
  cbn [spread]. rewrite !tally_app, !tally_replicate. cbn. lia.
Qed.

Lemma plugin_counts :
  md_pluginCounts metadata !! "request-id" = Some (ratioCount n 10) ∧
  md_pluginCounts metadata !! "header-rewrite" = Some (ratioCount n 10).
Proof. done. Qed.

Lemma selections_distribution :
  tally one_predicate routes = md_predicateRoutes metadata ∧
  tally uses_service routes = md_serviceRoutes metadata ∧
  tally (has_plugin "request-id") routes = default 0 (md_pluginCounts metadata !! "request-id") ∧
  tally (has_plugin "header-rewrite") routes = default 0 (md_pluginCounts metadata !! "header-rewrite").
Proof.
  pose proof standard_shares. destruct plugin_counts as [Hr Hh]. unfold standardRoutes. rewrite Hr, Hh. split_and!.
  all: (eapply eq_trans; [eapply tally_selected; [reflexivity|by apply on_sentinels_cases|sentinel_position|]|]).
  all: try (free_position; unfold generatedRoute).
  - by apply decorate_predicates.
  - apply select_tally; cbn [standardMetadata md_predicateRoutes md_serviceRoutes from_option id]; rewrite ?ratioCount_value by lia; lia.
  - by apply decorate_service.
  - apply select_tally; cbn [standardMetadata md_predicateRoutes md_serviceRoutes from_option id]; rewrite ?ratioCount_value by lia; lia.
  - by apply decorate_requestID.
  - apply select_tally; cbn [standardMetadata md_predicateRoutes md_serviceRoutes from_option id]; rewrite ?ratioCount_value by lia; lia.
  - by apply decorate_headerRewrite.
  - apply select_tally; cbn [standardMetadata md_predicateRoutes md_serviceRoutes from_option id]; rewrite ?ratioCount_value by lia; lia.
Qed.
End Distribution.

(** ** The shuffle *)

Lemma insert_Permutation {A} (l : list A) i x : (i < length l)%nat → <[i := x]> l ≡ₚ x :: delete i l.
Proof. intros Hi. rewrite insert_take_drop, delete_take_drop by done. by rewrite Permutation_middle. Qed.

Lemma swap_perm {A} (l : list A) i j : swap l i j ≡ₚ l.
Proof.
  unfold swap. destruct (l !! i) as [x|] eqn:Hi; [|done]. destruct (l !! j) as [y|] eqn:Hj; [|done].
  pose proof (lookup_lt_Some _ _ _ Hi). pose proof (lookup_lt_Some _ _ _ Hj).
  rewrite insert_Permutation by (by rewrite length_insert).
  etrans; [|symmetry; exact (delete_Permutation l i x Hi)]. constructor.
  apply (Permutation_cons_inv (a := y)). trans (<[i := y]> l); [|by apply insert_Permutation].
  symmetry. apply delete_Permutation.
  destruct (decide (i = j)) as [<-|Hne]; [|by rewrite list_lookup_insert_ne].
  by rewrite list_lookup_insert_eq.
Qed.

Lemma Shuffle_perm `{Rand} {A} seed (l : list A) : Shuffle seed l ≡ₚ l.
Proof.
  unfold Shuffle. generalize (length l) at 1. intros n. generalize (length l - 1)%nat. intros i. revert l.
  induction i as [|i IH]; intros l; simpl; [done|]. by rewrite IH, swap_perm.
Qed.

(** ** Generated datasets *)

Section Generated.
Context `{Unicode} `{Rand} (marshal : ResourceSet → option string) (sha256hex : string → string).

(** Everything the metadata count except the paths. *)
Record distribution (routes : list Route) (metadata : Metadata) : Prop := {
  ds_count : Z.of_nat (length routes) = md_routeCount metadata;
  ds_exact : tally (hosts_are (Some hostPatternExact)) routes = hc_exact (md_hostCounts metadata);
  ds_wildcard : tally (hosts_are (Some hostPatternWildcard)) routes = hc_wildcard (md_hostCounts metadata);
  ds_hostless : tally (hosts_are None) routes = hc_hostless (md_hostCounts metadata);
  ds_standard : tally standard_method routes = mc_standard (md_methodCounts metadata);
  ds_custom : tally custom_method routes = mc_custom (md_methodCounts metadata);
  ds_predicates : tally one_predicate routes = md_predicateRoutes metadata;
  ds_services : tally uses_service routes = md_serviceRoutes metadata;
  ds_requestID : tally (has_plugin "request-id") routes = default 0 (md_pluginCounts metadata !! "request-id");
  ds_headerRewrite : tally (has_plugin "header-rewrite") routes = default 0 (md_pluginCounts metadata !! "header-rewrite");
}.

Lemma distribution_perm routes routes' metadata : routes ≡ₚ routes' → distribution routes metadata → distribution routes' metadata.
Proof.
  intros Hp []. constructor; rewrite <-?(tally_perm _ _ _ Hp); try done. by rewrite <-Hp.
Qed.

Lemma standard_distribution options : 5 ≤ op_routeCount options ≤ 10 ^ 17 →
  distribution (standardRoutes (op_routeCount options) (standardMetadata options)) (standardMetadata options).
Proof.
  intros Hn. destruct (hosts_distribution options Hn) as (?&?&?). destruct (methods_distribution options Hn) as (?&?).
  destruct (selections_distribution options Hn) as (?&?&?&?). constructor; try done.
  unfold standardRoutes. rewrite length_fmap, length_seqZ. simpl. lia.
Qed.

(** The resources of a standard dataset. *)
Definition standardResources (options : Options) : ResourceSet :=
  set_routes (baseResources (op_endpoint options) (0 <? md_serviceRoutes (standardMetadata options)))
    (Shuffle (op_seed options) (standardRoutes (op_routeCount options) (standardMetadata options))).

Lemma Generate_standard options : validateOptions options = Ok tt → op_routeCount options ≠ 1 →
  Generate marshal sha256hex options =
    (checksum ← resourceChecksum marshal sha256hex (standardResources options);
     Ok (standardResources options, set_checksum (standardMetadata options) checksum)).
Proof. intros Hv H1. unfold Generate. rewrite Hv. simpl. by destruct (Z.eqb_spec (op_routeCount options) 1). Qed.

Lemma validateOptions_count options : validateOptions options = Ok tt → op_routeCount options = 1 ∨ 5 ≤ op_routeCount options.
Proof.
  unfold validateOptions. destruct (Z.leb_spec (op_routeCount options) 0); [done|].
  destruct (Z.ltb_spec 1 (op_routeCount options)), (Z.ltb_spec (op_routeCount options) 5); simpl; try done; lia.
Qed.

End Generated.
