(* ===== verification/DatasetAccepted.v ===== *)
(** * The gateway accepts every dataset ([internal/benchdataset])

    The routes of a dataset have distinct identifiers and distinct paths and
    compile one by one, so the resources pass the validation of a snapshot and
    the router takes them; and since identifiers are distinct, the checksum of
    the sorted resources does not depend on the seed of the shuffle. *)

From S2P Require Import Prelude GoStrings Trim NetAddr Decimal Json Pattern Predicate Router RouterTrie RouterSearch RouterCorrect Plugins.
From S2P Require Import HashKey Url Resources Builder Dataset DatasetCorrect.
#[local] Open Scope string_scope.
#[local] Open Scope Z_scope.
#[local] Open Scope list_scope.

(** ** Names of positions *)

Section Positions.
Context (n : Z).
#[local] Notation sentinels := (sentinelPositions n).

(** What tells the route at a position apart: its number or its sentinel. *)
Definition position_name (i : Z) : string :=
  match sentinels !! i with Some position => position | None => format06 i end.

Lemma sentinel_not_numeric i position : sentinels !! i = Some position → ¬ numeric position.
Proof.
  unfold sentinelPositions. rewrite !lookup_insert_Some, lookup_empty. intros Hp [Hd _].
  by destruct Hp as [[_ <-]|[_ [[_ <-]|[_ [[_ <-]|[_ ?]]]]]].
Qed.

Lemma position_name_inj i j : 0 ≤ i → 0 ≤ j → position_name i = position_name j → i = j.
Proof.
  unfold position_name. intros Hi Hj.
  destruct (sentinels !! i) as [p|] eqn:Hp, (sentinels !! j) as [q|] eqn:Hq.
  - intros ->. unfold sentinelPositions in *. rewrite !lookup_insert_Some, lookup_empty in Hp, Hq. naive_solver.
  - intros ->. destruct (sentinel_not_numeric _ _ Hp). by apply format06_numeric.
  - intros <-. destruct (sentinel_not_numeric _ _ Hq). by apply format06_numeric.
  - intros He. apply (f_equal (decimal_digits 0)) in He. rewrite !format06_read in He by done. congruence.
Qed.
End Positions.

(** ** The routes one by one *)

Definition bench_id (name : string) : string :=
  (if string_forallb is_digit name then "route-" else "sentinel-") +:+ name.

Lemma bench_id_inj name name' : bench_id name = bench_id name' → name = name'.
Proof. unfold bench_id. destruct (string_forallb is_digit name), (string_forallb is_digit name'); by intros [= ->]. Qed.

(** What the gateway needs of a route called [name]. *)
Record bench_route `{Unicode} (name : string) (r : Route) : Prop := {
  br_id : rt_id r = bench_id name;
  br_printable : string_forallb (fun c => byte_between "!" "~" c) (rt_id r) = true;
  br_path : split_byte "/" (match_path (rt_match r)) !! 2%nat = Some name;
  br_plain : string_forallb (fun c => is_ascii_byte c && String.eqb (json_ascii c) (String c "")) (match_path (rt_match r)) = true;
  br_segments : ∃ word rest, segments_of (match_path (rt_match r))
                  = Some (mkSegment segmentStatic word :: mkSegment segmentStatic name :: rest);
  br_hosts : match match_hosts (rt_match r) with
             | [] => True | [h] => is_Some (host_class h) | _ => False end;
  br_methods : is_ok (compileMethods (match_methods (rt_match r))) = true;
  br_predicates : is_ok (compilePredicates (match_headers (rt_match r)) (match_queries (rt_match r))) = true;
  br_target : (rt_serviceRef r = benchmarkService ∧ rt_upstreamRef r = "") ∨
              (rt_serviceRef r = "" ∧ rt_upstreamRef r = benchmarkUpstream);
  br_priority : rt_priority r = 0;
  br_scope : scope_ok (rt_plugins r);
  br_socket : rt_webSocket r = noOverride;
}.

Lemma digit_plain c : is_digit c = true →
  byte_between "!" "~" c = true ∧ is_ascii_byte c && String.eqb (json_ascii c) (String c "") = true.
Proof. destruct c as [[] [] [] [] [] [] [] []]; vm_compute; intros; try discriminate; done. Qed.

Lemma scope_none : scope_ok [].
Proof. split; [constructor|apply NoDup_nil_2]. Qed.

Section Routes.
Context `{Unicode}.

Lemma sentinel_bench position : position ∈ ["first"; "middle"; "last"] →
  bench_route position (sentinelRoute (default noSentinel (standardSentinels !! position))).
Proof.
  rewrite !elem_of_cons, elem_of_nil. intros [-> |[-> |[-> |[]]]]; constructor; try done.
  all: try (by exists "__sentinel", []). all: try (by eexists).
  all: try (by right). all: apply scope_none.
Qed.

Lemma custom_methods i : 0 ≤ i → is_ok (compileMethods ["BENCH" +:+ pretty (Z.rem i 10)]) = true.
Proof.
  intros Hi. rewrite Z.rem_mod_nonneg by lia. pose proof (Z.mod_pos_bound i 10 ltac:(lia)) as Hm.
  assert (i mod 10 = 0 ∨ i mod 10 = 1 ∨ i mod 10 = 2 ∨ i mod 10 = 3 ∨ i mod 10 = 4 ∨ i mod 10 = 5 ∨ i mod 10 = 6 ∨
          i mod 10 = 7 ∨ i mod 10 = 8 ∨ i mod 10 = 9) as Hcases by lia.
  repeat (destruct Hcases as [-> |Hcases]; [by vm_compute|]). rewrite Hcases. by vm_compute.
Qed.

Lemma generated_method_ok i h p m : 0 ≤ i → is_ok (compileMethods (match_methods (rt_match (generatedRoute i h p m)))) = true.
Proof.
  intros Hi. cbn [generatedRoute benchRoute rt_match match_methods]. destruct m as [|m]; [|by apply custom_methods].
  pose proof (pick_cases "" benchMethods i ltac:(done) Hi) as Hp. unfold benchMethods in *.
  repeat (apply elem_of_cons in Hp as [-> |Hp]; [by vm_compute|]). by apply elem_of_nil in Hp.
Qed.

Lemma predicate_ok kind name operator d : string_forallb (fun c => byte_between "!" "~" c) name = true → name ≠ "" →
  operator ∈ benchOperators →
  is_ok (compilePredicate kind (mkPredicate name operator
    (match operator with
     | PredicateExists | PredicateNotExists => []
     | PredicateOneOf => ["value-" +:+ d; "alternate-" +:+ d]
     | _ => ["value-" +:+ d]
     end))) = true.
Proof.
  intros Hp Hne Ho. unfold compilePredicate. cbn [pred_name]. rewrite printable_trimmed by done.
  destruct (String.eqb_spec name "") as [|_]; [done|].
  assert (Hc : canonical_header_key name ≠ "").
  { unfold canonical_header_key. destruct (string_forallb is_token_byte name); [|done]. by destruct name. }
  apply String.eqb_neq in Hc. unfold benchOperators in Ho.
  repeat (apply elem_of_cons in Ho as [-> |Ho]; [destruct kind; simpl; by rewrite ?Hc|]). by apply elem_of_nil in Ho.
Qed.

Lemma numeric_printable prefix d : numeric d → string_forallb (fun c => byte_between "!" "~" c) prefix = true →
  string_forallb (fun c => byte_between "!" "~" c) (prefix +:+ d) = true.
Proof.
  intros [Hd _] Hp. rewrite string_forallb_app, Hp. revert Hd. apply forallb_weaken. intros c Hc. by apply digit_plain.
Qed.

Lemma single_header p : is_ok (compilePredicate fieldHeader p) = true → is_ok (compilePredicates [p] []) = true.
Proof. unfold compilePredicates. cbn [compilePredicateList]. by destruct (compilePredicate fieldHeader p). Qed.

Lemma single_query p : is_ok (compilePredicate fieldQuery p) = true → is_ok (compilePredicates [] [p]) = true.
Proof. unfold compilePredicates. cbn [compilePredicateList]. by destruct (compilePredicate fieldQuery p). Qed.

Definition predicates_ok (m : RouteMatch) : Prop := is_ok (compilePredicates (match_headers m) (match_queries m)) = true.

Lemma addPredicate_ok i r : 0 ≤ i → match_headers (rt_match r) = [] → match_queries (rt_match r) = [] →
  predicates_ok (rt_match (addPredicate r i)).
Proof.
  intros Hi Hh Hq. pose proof (format06_numeric i Hi) as Hd.
  pose proof (pick_cases PredicateExists benchOperators i ltac:(done) Hi) as Ho. unfold addPredicate, predicates_ok.
  destruct (Z.rem i 2 =? 0); cbn [set_predicates rt_match match_headers match_queries]; rewrite ?Hh, ?Hq.
  - by apply single_header, predicate_ok; [apply (numeric_printable "X-Bench-")|..].
  - by apply single_query, predicate_ok; [apply (numeric_printable "q")|..].
Qed.

Lemma decorate_predicates_ok i a b c d r : 0 ≤ i → match_headers (rt_match r) = [] → match_queries (rt_match r) = [] →
  predicates_ok (rt_match (decorate i a b c d r)).
Proof.
  intros Hi Hh Hq.
  assert (Hm : rt_match (decorate i a b c d r) = rt_match (if a then addPredicate r i else r)) by (by destruct a, b, c, d).
  rewrite Hm. destruct a; [by apply addPredicate_ok|]. unfold predicates_ok. by rewrite Hh, Hq.
Qed.

Lemma generated_path_facts i h p m : 0 ≤ i →
  split_byte "/" (match_path (rt_match (generatedRoute i h p m))) !! 2%nat = Some (format06 i) ∧
  string_forallb (fun c => is_ascii_byte c && String.eqb (json_ascii c) (String c ""))
    (match_path (rt_match (generatedRoute i h p m))) = true.
Proof.
  intros Hi. pose proof (format06_numeric i Hi) as Hd. cbn [generatedRoute benchRoute rt_match match_path].
  assert (Hplain : string_forallb (fun c => is_ascii_byte c && String.eqb (json_ascii c) (String c "")) (format06 i) = true).
  { destruct Hd as [Hd _]. revert Hd. apply forallb_weaken. intros c Hc. by apply digit_plain. }
  assert (Hs : contains_byte "/" (format06 i) = false) by (by apply numeric_avoids).
  assert (Hsplit : ∀ word tail, contains_byte "/" word = false →
    split_byte "/" (String "/" (word +:+ String "/" (format06 i +:+ String "/" tail))) !! 2%nat = Some (format06 i)).
  { intros word tail Hw. change (String "/" ?x) with ("" +:+ String "/" x). rewrite (split_byte_app "/" "") by done.
    rewrite !split_byte_app by done. done. }
  destruct p as [|[|[|p]]]; rewrite !string_forallb_app, Hplain; (split; [|done]).
  - change ("/static/" +:+ format06 i) with ("" +:+ String "/" ("static" +:+ String "/" (format06 i))).
    rewrite !split_byte_app, split_byte_no_sep by done. done.
  - by apply (Hsplit "parameter").
  - by apply (Hsplit "prefix").
  - by apply (Hsplit "catch").
Qed.

Lemma decorate_target i a b c d id m :
  let r := decorate i a b c d (benchRoute id m) in
  ((rt_serviceRef r = benchmarkService ∧ rt_upstreamRef r = "") ∨ (rt_serviceRef r = "" ∧ rt_upstreamRef r = benchmarkUpstream)) ∧
  rt_priority r = 0 ∧ rt_webSocket r = noOverride.
Proof. unfold decorate, addPredicate. destruct a, b, c, d; try destruct (_ =? _); by (split; [(by left) || (by right)|]). Qed.

Lemma decorate_scope i a b c d id m : scope_ok (rt_plugins (decorate i a b c d (benchRoute id m))).
Proof.
  rewrite decorate_plugins. unfold scope_ok. destruct c, d; simpl; (split; [repeat constructor; by vm_compute|]).
  all: rewrite ?NoDup_cons, ?elem_of_cons, ?elem_of_nil; (split_and! || idtac); try apply NoDup_nil_2; try tauto.
  by intros [?|[]].
Qed.

Lemma generated_bench i a b c d h p m : 0 ≤ i < 10 ^ 18 →
  bench_route (format06 i) (decorate i a b c d (generatedRoute i h p m)).
Proof.
  intros Hi. pose proof (format06_numeric i ltac:(lia)) as Hd.
  destruct (decorate_match i a b c d (generatedRoute i h p m)) as (Hh & Hp & Hm).
  destruct (generated_path_facts i h p m ltac:(lia)) as [Hsplit Hplain].
  destruct (decorate_target i a b c d ("route-" +:+ format06 i) (rt_match (generatedRoute i h p m))) as (Ht & Hpr & Hws).
  constructor; rewrite ?decorate_id, ?Hh, ?Hp, ?Hm; try done.
  - unfold bench_id. by destruct Hd as [-> _].
  - by apply (numeric_printable "route-").
  - destruct (generated_segments i h p m ltac:(lia)) as [word Hs]. by eexists _, _.
  - pose proof (format06_length i Hi). cbn [generatedRoute benchRoute rt_match match_hosts].
    destruct h as [|[|h]]; [rewrite exact_host by done; by eexists|rewrite wildcard_host by done; by eexists|done].
  - apply generated_method_ok. lia.
  - apply decorate_predicates_ok; [lia|done|done].
  - apply decorate_scope.
Qed.

(** ** Compiling a route *)

Lemma bench_compiles name r index : bench_route name r →
  ∃ base hosts, compileRoute (routeSpec index r) = Ok (base, hosts) ∧
    path_raw (cand_path base) = match_path (rt_match r) ∧ cand_priority base = 0.
Proof.
  intros []. unfold compileRoute, routeSpec. cbn [spec_id spec_match spec_index spec_priority].
  destruct br_segments0 as (word & rest & Hk). unfold segments_of in Hk.
  destruct (compilePathPattern (match_path (rt_match r))) as [path|] eqn:Hpath; [|done]. cbn [map_err mbind result_bind].
  destruct (compileMethods _) as [methods|]; [|done]. destruct (compilePredicates _ _) as [predicates|]; [|done].
  cbn [map_err mbind result_bind].
  assert (Hhosts : ∃ hosts, compileRouteHosts (rt_id r) (match_hosts (rt_match r)) = Ok hosts).
  { unfold compileRouteHosts. destruct (match_hosts (rt_match r)) as [|h [|]]; [by eexists| |done]. cbn [compileHostLoop].
    unfold host_class in br_hosts0. destruct (compileHostPattern h) as [host|]; [|by destruct br_hosts0]. cbn. by eexists. }
  destruct Hhosts as [hosts ->]. eexists _, _. split; [done|]. cbn.
  split; [by apply compilePathPattern_source in Hpath as [? _]|done].
Qed.

Lemma json_body_plain s :
  string_forallb (fun c => is_ascii_byte c && String.eqb (json_ascii c) (String c "")) s = true → json_body s 0 = s.
Proof.
  induction s as [|c s IH]; [done|]. cbn [string_forallb json_body]. intros [[Ha Hj%String.eqb_eq]%andb_true_iff Hs]%andb_true_iff.
  rewrite Ha, Hj, IH by done. done.
Qed.

Lemma plain_no_quote s :
  string_forallb (fun c => is_ascii_byte c && String.eqb (json_ascii c) (String c "")) s = true → contains_byte quote s = false.
Proof. intros Hs. by eapply forallb_contains. Qed.

(** A signature starts with the priority and the path. *)
Lemma bench_signature name r index : bench_route name r →
  ∃ rest, route_signature (routeSpec index r)
          = ("{" +:+ quoted "priority" +:+ ":0," +:+ quoted "path" +:+ ":") +:+ String quote (match_path (rt_match r) +:+ String quote rest).
Proof.
  intros Hr. destruct (bench_compiles name r index Hr) as (base & hosts & Hc & Hraw & Hprio).
  unfold route_signature. rewrite Hc. unfold signature_of, routeSignature. rewrite Hraw, Hprio.
  unfold json_object. cbn [fmap list_fmap join_byte].
  unfold json_string at 1. rewrite (json_body_plain (match_path (rt_match r))) by apply Hr.
  generalize (match_path (rt_match r)). intros path.
  eexists. unfold quoted. simpl. rewrite !string_app_assoc. simpl. reflexivity.
Qed.

Lemma quoted_cut a b s t : contains_byte quote a = false → contains_byte quote b = false →
  a +:+ String quote s = b +:+ String quote t → a = b.
Proof.
  intros Ha Hb He. pose proof (index_byte_app quote a s Ha) as Hi. rewrite He, index_byte_app in Hi by done.
  injection Hi as Hl. apply (f_equal (stake (String.length a))) in He. rewrite stake_app in He.
  by rewrite <-Hl, stake_app in He.
Qed.

Lemma bench_signature_inj name name' r r' i j : bench_route name r → bench_route name' r' →
  route_signature (routeSpec i r) = route_signature (routeSpec j r') → name = name'.
Proof.
  intros Hr Hr' He. destruct (bench_signature name r i Hr) as [s Hs]. destruct (bench_signature name' r' j Hr') as [t Ht].
  rewrite Hs, Ht in He. injection He as He.
  apply quoted_cut in He; [|apply plain_no_quote, Hr|apply plain_no_quote, Hr'].
  pose proof (br_path _ _ Hr) as H1. pose proof (br_path _ _ Hr') as H2. rewrite He in H1. congruence.
Qed.

(** ** Whole datasets *)

Definition dataset_routes (routes : list Route) : Prop :=
  routes ≠ [] ∧ (∀ r, r ∈ routes → ∃ name, bench_route name r) ∧ NoDup (rt_id <$> routes).

Lemma dataset_routes_perm routes routes' : routes ≡ₚ routes' → dataset_routes routes → dataset_routes routes'.
Proof.
  intros Hp (Hne & Hb & Hnd). split_and!; [|by intros r; rewrite <-Hp; apply Hb|by rewrite <-Hp].
  intros ->. by apply Permutation_nil_r in Hp.
Qed.

Lemma standard_dataset_routes options : 5 ≤ op_routeCount options ≤ 10 ^ 17 →
  dataset_routes (standardRoutes (op_routeCount options) (standardMetadata options)).
Proof.
  intros Hn. unfold standardRoutes.
  match goal with |- dataset_routes (?g <$> _) => set (f := g) end.
  assert (Hb : ∀ i, 0 ≤ i < op_routeCount options → bench_route (position_name (op_routeCount options) i) (f i)).
  { intros i Hi. unfold position_name. subst f. cbn beta. destruct (sentinelPositions _ !! i) as [position|] eqn:Hs.
    - by eapply sentinel_bench, sentinel_names.
    - apply generated_bench. lia. }
  split_and!.
  - intros He%fmap_nil_inv. apply (f_equal length) in He. rewrite length_seqZ in He. simpl in He. lia.
  - intros r (i & -> & Hi%elem_of_seqZ)%list_elem_of_fmap. eexists. apply Hb. lia.
  - rewrite <-list_fmap_compose. apply NoDup_fmap_2_strong; [|apply NoDup_seqZ].
    intros i j Hi%elem_of_seqZ Hj%elem_of_seqZ He. simpl in He.
    rewrite (br_id _ _ (Hb i ltac:(lia))), (br_id _ _ (Hb j ltac:(lia))) in He. apply bench_id_inj in He.
    by apply position_name_inj in He; [|lia|lia].
Qed.

Lemma dataset_compile routes : dataset_routes routes → is_ok (Compile (imap routeSpec routes)) = true.
Proof.
  intros (Hne & Hb & Hnd). apply Compile_ok_iff. split_and!.
  - by destruct routes.
  - apply Forall_lookup. intros k spec Hk. rewrite list_lookup_imap in Hk.
    destruct (routes !! k) as [r|] eqn:Hr; [|done]. injection Hk as <-.
    destruct (Hb r) as [name Hname]; [by eapply list_elem_of_lookup_2|]. split.
    + cbn [routeSpec spec_id]. rewrite printable_trimmed by apply Hname. rewrite (br_id _ _ Hname). unfold bench_id.
      by destruct (string_forallb _ name).
    + by destruct (bench_compiles name r k Hname) as (? & ? & -> & _).
  - replace (spec_id <$> imap routeSpec routes) with (rt_id <$> routes); [done|].
    rewrite fmap_imap. symmetry. by erewrite imap_ext, imap_const.
  - apply NoDup_alt. intros k l x Hk Hl. rewrite list_lookup_fmap, list_lookup_imap in Hk, Hl.
    destruct (routes !! k) as [r|] eqn:Hrk; [|done]. destruct (routes !! l) as [r'|] eqn:Hrl; [|done].
    injection Hk as Hk. injection Hl as Hl. destruct (Hb r) as [name Hname]; [by eapply list_elem_of_lookup_2|].
    destruct (Hb r') as [name' Hname']; [by eapply list_elem_of_lookup_2|].
    assert (name = name') as <- by (by apply (bench_signature_inj name name' r r' k l); [..|rewrite Hk, Hl]).
    eapply NoDup_lookup; [exact Hnd|..]; rewrite list_lookup_fmap.
    + rewrite Hrk. simpl. by rewrite (br_id _ _ Hname).
    + rewrite Hrl. simpl. by rewrite (br_id _ _ Hname').
Qed.

Lemma baseline_dataset_routes position : position ∈ ["first"; "middle"; "last"] →
  dataset_routes [sentinelRoute (default noSentinel (standardSentinels !! position))].
Proof.
  intros Hp. split_and!; [done| |apply NoDup_singleton].
  intros r ->%list_elem_of_singleton. exists position. by apply sentinel_bench.
Qed.

Lemma bench_id_ok name r : bench_route name r → id_ok (rt_id r).
Proof.
  intros Hr. split; [|by apply printable_trimmed, Hr]. rewrite (br_id _ _ Hr). unfold bench_id.
  by destruct (string_forallb _ name).
Qed.

Definition benchService : Service := mkService benchmarkService benchmarkUpstream [] noOverride.

Lemma no_negative_timeout : timeout_ok noOverride.
Proof. by intros t. Qed.

(** A dataset whose routes name the service has it. *)
Lemma dataset_wf endpoint includeService routes : dataset_routes routes →
  (includeService = true ∨ ∀ r, r ∈ routes → rt_serviceRef r = "") →
  resources_wf (set_routes (baseResources endpoint includeService) routes).
Proof.
  intros (Hne & Hb & Hnd) Hsvc. unfold set_routes, baseResources. constructor; cbn [rs_routes rs_services rs_upstreams].
  - done.
  - split; [|done]. apply Forall_fmap, Forall_forall. intros r Hr. destruct (Hb r Hr) as [name ?]. by eapply bench_id_ok.
  - destruct includeService; simpl; (split; [|by apply NoDup_singleton || apply NoDup_nil_2]); repeat constructor; by vm_compute.
  - split; [repeat constructor; by vm_compute|apply NoDup_singleton].
  - intros s Hs. destruct includeService; [|by apply elem_of_nil in Hs]. apply list_elem_of_singleton in Hs as ->.
    split_and!; [by apply list_elem_of_singleton|apply scope_none|apply no_negative_timeout].
  - intros r Hr. destruct (Hb r Hr) as [name Hname].
    split_and!; [|apply Hname|rewrite (br_socket _ _ Hname); apply no_negative_timeout].
    destruct (br_target _ _ Hname) as [[Hs Hu]|[Hs Hu]].
    + destruct Hsvc as [-> |Hnone]; [|by rewrite (Hnone r Hr) in Hs].
      exists (Some benchService), (baseUpstream endpoint).
      apply resolves_service; rewrite ?Hs, ?Hu; try done; by apply list_elem_of_singleton.
    + exists None, (baseUpstream endpoint). apply resolves_upstream; rewrite ?Hs, ?Hu; try done. by apply list_elem_of_singleton.
Qed.
End Routes.

(** ** Sentinels are served *)

Section Serve.
Context `{Unicode} (routes : list Route) (Hd : dataset_routes routes).

Definition sentinel_of (position : string) : Sentinel := default noSentinel (standardSentinels !! position).

(** A request for a sentinel. *)
Definition sentinel_request (sentinel : Sentinel) (header : gmap string (list string)) (remote : string) : request :=
  mkRequest "GET" (sn_host sentinel) (sn_path sentinel) "" header remote.

Lemma sentinel_pieces position : position ∈ ["first"; "middle"; "last"] →
  has_prefix (sn_path (sentinel_of position)) "/" = true ∧
  split_byte "/" (sdrop 1 (sn_path (sentinel_of position))) = ["__sentinel"; position].
Proof. rewrite !elem_of_cons, elem_of_nil. by intros [-> |[-> |[-> |[]]]]. Qed.

(** Only the route of its name matches the path of a sentinel. *)
Lemma sentinel_path_only position name r index base hosts : position ∈ ["first"; "middle"; "last"] →
  bench_route name r → compileRoute (routeSpec index r) = Ok (base, hosts) →
  (pattern_match (cand_path base) (sn_path (sentinel_of position))).1 = true → name = position.
Proof.
  intros Hp Hr Hc Hm. pose proof (pattern_match_reference (cand_path base) (sn_path (sentinel_of position))) as Href.
  unfold match_bindings in Href. rewrite Hm in Href. unfold path_reference in Href.
  destruct (sentinel_pieces _ Hp) as [Hpre Hsplit]. rewrite Hpre, Hsplit in Href.
  assert (Hs : segments_of (match_path (rt_match r)) = Some (path_segments (cand_path base))).
  { unfold compileRoute in Hc. inv_ok. unfold segments_of. simpl in *.
    destruct (compilePathPattern _); [|done]. simpl in *. by inv_ok. }
  destruct (br_segments _ _ Hr) as (word & rest & Hw). rewrite Hw in Hs. injection Hs as Hs. rewrite <-Hs in Href.
  cbn [segment_bindings seg_kind seg_text] in Href. destruct (String.eqb _ word); [|done].
  by destruct (String.eqb_spec position name).
Qed.

(** The compiled form of a sentinel's route, and that it takes its request. *)
Lemma sentinel_compiled position index : position ∈ ["first"; "middle"; "last"] →
  ∃ base h, compileRoute (routeSpec index (sentinelRoute (sentinel_of position))) = Ok (base, [h]) ∧
    cand_routeIndex base = Z.of_nat index ∧ cand_predicates base = [] ∧
    method_contains (cand_methods base) "GET" = true ∧ host_match h (sn_host (sentinel_of position)) = true ∧
    pattern_match (cand_path base) (sn_path (sentinel_of position)) = (true, []) ∧
    NormalizeRequestHost (sn_host (sentinel_of position)) = Ok (sn_host (sentinel_of position)).
Proof.
  rewrite !elem_of_cons, elem_of_nil. intros [-> |[-> |[-> |[]]]]; eexists _, _; (split; [reflexivity|]); split_and!; done.
Qed.

Lemma sentinel_hit position index header remote : position ∈ ["first"; "middle"; "last"] →
  routes !! index = Some (sentinelRoute (sentinel_of position)) →
  let r := sentinel_request (sentinel_of position) header remote in
  ∃ c, c ∈ candidates_for (imap routeSpec routes) (sn_host (sentinel_of position)) ∧ hits r (effective_path r) ∅ c = true.
Proof.
  intros Hp Hi r. destruct (sentinel_compiled position index Hp) as (base & h & Hc & _ & Hpred & Hm & Hh & Hpath & _).
  exists (with_host_rank base (host_kindRank (host_specificity h))). split.
  - apply list_elem_of_fmap. exists (Some h, with_host_rank base (host_kindRank (host_specificity h))). split; [done|].
    apply list_elem_of_filter. split; [done|]. unfold all_entries. apply list_elem_of_bind.
    exists (routeSpec index (sentinelRoute (sentinel_of position))). unfold route_entries. rewrite Hc. split; [by left|].
    apply list_elem_of_lookup. exists index. by rewrite list_lookup_imap, Hi.
  - unfold hits, eligible. replace (effective_path r) with (sn_path (sentinel_of position)).
    + cbn [with_host_rank cand_path cand_predicates cand_methods]. rewrite Hpath, Hpred.
      change (req_method r) with "GET". by rewrite Hm.
    + revert Hp. rewrite !elem_of_cons, elem_of_nil. by intros [-> |[-> |[-> |[]]]].
Qed.

(** A candidate that takes the request of a sentinel is the sentinel's. *)
Lemma sentinel_hit_only position index header remote c : position ∈ ["first"; "middle"; "last"] →
  routes !! index = Some (sentinelRoute (sentinel_of position)) →
  let r := sentinel_request (sentinel_of position) header remote in
  c ∈ candidates_for (imap routeSpec routes) (sn_host (sentinel_of position)) → hits r (effective_path r) ∅ c = true →
  cand_routeIndex c = Z.of_nat index ∧ pattern_match (cand_path c) (effective_path r) = (true, []).
Proof.
  intros Hp Hi r ([h c'] & -> & [_ Hc]%list_elem_of_filter)%list_elem_of_fmap Hh. simpl in *.
  assert (Hpath : effective_path r = sn_path (sentinel_of position))
    by (revert Hp; rewrite !elem_of_cons, elem_of_nil; by intros [-> |[-> |[-> |[]]]]).
  rewrite Hpath in *. apply all_entries_route in Hc as (route & base & hosts & Hr & Hcomp & Hidx & Hcp & _ & _).
  rewrite Hcp, Hidx. apply list_elem_of_lookup in Hr as [k Hk]. rewrite list_lookup_imap in Hk.
  destruct (routes !! k) as [rk|] eqn:Hrk; [|done]. injection Hk as <-.
  unfold hits, eligible in Hh. rewrite Hcp in Hh. apply andb_true_iff in Hh as [[Hm _]%andb_true_iff _].
  destruct Hd as (_ & Hb & Hnd). destruct (Hb rk) as [name Hname]; [by eapply list_elem_of_lookup_2|].
  pose proof (sentinel_path_only position name rk k base hosts Hp Hname Hcomp Hm) as ->.
  assert (k = index) as ->.
  { eapply NoDup_lookup; [exact Hnd|..]; rewrite list_lookup_fmap; [by rewrite Hrk|]. rewrite Hi.
    apply (f_equal Some). rewrite (br_id _ _ Hname). exact (br_id _ _ (sentinel_bench position Hp)). }
  rewrite Hi in Hrk. injection Hrk as <-.
  destruct (sentinel_compiled position index Hp) as (base' & h' & Hc' & Hix & _ & _ & _ & Hpm & _).
  rewrite Hc' in Hcomp. by injection Hcomp as <- <-.
Qed.

Lemma sentinel_served router position index header remote : position ∈ ["first"; "middle"; "last"] →
  routes !! index = Some (sentinelRoute (sentinel_of position)) → Compile (imap routeSpec routes) = Ok router →
  Match router (sentinel_request (sentinel_of position) header remote) = Ok (mkResult true false (Z.of_nat index) [] []).
Proof.
  intros Hp Hi Hc. destruct (sentinel_compiled position index Hp) as (_ & _ & _ & _ & _ & _ & _ & _ & Hn).
  set (r := sentinel_request (sentinel_of position) header remote).
  rewrite (Match_is_reference _ router r (sn_host (sentinel_of position)) ∅ Hc Hn eq_refl). f_equal.
  unfold reference_match. cbv zeta.
  match goal with |- context [foldl better None ?l] => pose proof (foldl_better l None) as Hf end.
  destruct (foldl better None _) as [c|].
  - destruct Hf as [[Hin|?] _]; [|done]. apply list_elem_of_filter in Hin as [Hh Hin].
    destruct (sentinel_hit_only position index header remote c Hp Hi Hin Hh) as [-> Hpm]. fold r in Hpm. by rewrite Hpm.
  - destruct Hf as [Hnil _]. destruct (sentinel_hit position index header remote Hp Hi) as (c & Hin & Hh).
    assert (Hc' : c ∈ filter (fun c => hits r (effective_path r) ∅ c = true)
      (candidates_for (imap routeSpec routes) (sn_host (sentinel_of position)))) by (by apply list_elem_of_filter).
    rewrite Hnil in Hc'. by apply elem_of_nil in Hc'.
Qed.
End Serve.

(** ** Generated datasets *)

Section Generated.
Context `{Unicode} `{Rand} (marshal : ResourceSet → option string) (sha256hex : string → string).

Lemma baseline_position options : validateOptions options = Ok tt → op_routeCount options = 1 →
  op_baselineSentinel options ∈ ["first"; "middle"; "last"].
Proof.
  unfold validateOptions. intros Hv Hn. rewrite Hn in Hv. simpl in Hv. destruct (url_Parse _); [|done].
  destruct (_ || _); [done|]. destruct (standardSentinels !! _) eqn:Hs; [|done].
  unfold standardSentinels in Hs. apply elem_of_list_to_map_2 in Hs. rewrite !elem_of_cons, elem_of_nil in Hs.
  rewrite !elem_of_cons. destruct Hs as [[= -> _]|[[= -> _]|[[= -> _]|[]]]]; tauto.
Qed.

(** The resources of a dataset before their checksum. *)
Definition datasetResources (options : Options) : ResourceSet :=
  if op_routeCount options =? 1
  then set_routes (baseResources (op_endpoint options) false)
         [sentinelRoute (default noSentinel (standardSentinels !! op_baselineSentinel options))]
  else standardResources options.

Lemma Generate_resources options resources metadata : Generate marshal sha256hex options = Ok (resources, metadata) →
  validateOptions options = Ok tt ∧ resources = datasetResources options ∧
  resourceChecksum marshal sha256hex resources = Ok (md_checksum metadata).
Proof.
  unfold Generate, generateBaseline, datasetResources. intros Hg. destruct (validateOptions options) as [[]|]; [|done]. simpl in Hg.
  split; [done|]. destruct (op_routeCount options =? 1).
  - destruct (resourceChecksum _ _ _) eqn:Hc; [|done]. simpl in Hg. by injection Hg as <- <-.
  - fold (standardResources options) in Hg. destruct (resourceChecksum _ _ _) eqn:Hc; [|done]. simpl in Hg. by injection Hg as <- <-.
Qed.

Lemma datasetResources_ok options : validateOptions options = Ok tt → op_routeCount options ≤ 10 ^ 17 →
  dataset_routes (rs_routes (datasetResources options)) ∧ resources_wf (datasetResources options).
Proof.
  intros Hv Hn. unfold datasetResources. destruct (Z.eqb_spec (op_routeCount options) 1) as [H1|H1].
  - pose proof (baseline_dataset_routes _ (baseline_position _ Hv H1)) as Hd. split; [done|].
    apply dataset_wf; [done|]. right. by intros r ->%list_elem_of_singleton.
  - destruct (validateOptions_count _ Hv) as [|Hn5]; [done|].
    assert (Hd : dataset_routes (rs_routes (standardResources options))).
    { eapply dataset_routes_perm; [symmetry; apply Shuffle_perm|]. by apply standard_dataset_routes. }
    split; [done|]. apply dataset_wf; [done|]. left. apply Z.ltb_lt. cbn [standardMetadata md_serviceRoutes].
    rewrite ratioCount_value by lia. pose proof (Z.div_le_lower_bound (op_routeCount options * 50) 100 2). lia.
Qed.

Lemma sentinel_at options position : 5 ≤ op_routeCount options → position ∈ ["first"; "middle"; "last"] →
  ∃ i, 0 ≤ i < op_routeCount options ∧ sentinelPositions (op_routeCount options) !! i = Some position.
Proof.
  intros Hn. pose proof (half_bounds _ Hn). rewrite !elem_of_cons, elem_of_nil. unfold sentinelPositions.
  intros [-> |[-> |[-> |[]]]].
  - exists 0. split; [lia|]. by rewrite !lookup_insert_ne, lookup_insert_eq by lia.
  - exists (Z.quot (op_routeCount options) 2). split; [lia|]. by rewrite lookup_insert_ne, lookup_insert_eq by lia.
  - exists (op_routeCount options - 1). split; [lia|]. by rewrite lookup_insert_eq.
Qed.

Lemma standardSentinels_position position sentinel : standardSentinels !! position = Some sentinel →
  position ∈ ["first"; "middle"; "last"] ∧ sentinel = sentinel_of position.
Proof.
  intros Hs. unfold sentinel_of. rewrite Hs. split; [|done]. unfold standardSentinels in Hs.
  apply elem_of_list_to_map_2 in Hs. rewrite !elem_of_cons, elem_of_nil in Hs. rewrite !elem_of_cons.
  destruct Hs as [[= -> _]|[[= -> _]|[[= -> _]|[]]]]; tauto.
Qed.

(** The sentinels of the metadata are routes of the dataset. *)
Lemma dataset_sentinels options resources metadata position sentinel :
  Generate marshal sha256hex options = Ok (resources, metadata) → md_sentinels metadata !! position = Some sentinel →
  position ∈ ["first"; "middle"; "last"] ∧ sentinel = sentinel_of position ∧ sentinelRoute sentinel ∈ rs_routes resources.
Proof.
  intros Hg Hs. destruct (Generate_resources _ _ _ Hg) as (Hv & -> & _). unfold Generate in Hg. rewrite Hv in Hg. simpl in Hg.
  unfold datasetResources. destruct (Z.eqb_spec (op_routeCount options) 1) as [H1|H1].
  - unfold generateBaseline in Hg. destruct (resourceChecksum _ _ _); [|done]. simpl in Hg. injection Hg as _ <-. simpl in Hs.
    apply lookup_singleton_Some in Hs as [<- <-]. split_and!; [by apply baseline_position|done|by left].
  - destruct (validateOptions_count _ Hv) as [|Hn]; [done|].
    assert (Hm : md_sentinels metadata = standardSentinels).
    { destruct (resourceChecksum _ _ _); [|done]. simpl in Hg. by injection Hg as _ <-. }
    rewrite Hm in Hs. apply standardSentinels_position in Hs as [Hp ->]. split_and!; [done..|].
    unfold standardResources, set_routes. cbn [rs_routes]. rewrite Shuffle_perm. unfold standardRoutes.
    destruct (sentinel_at options position Hn Hp) as (i & Hi & Hpos). apply list_elem_of_fmap. exists i.
    split; [by rewrite Hpos|]. apply elem_of_seqZ. lia.
Qed.

Lemma Generate_errors options e : Generate marshal sha256hex options = Err e →
  validateOptions options = Err e ∨ (e = EncodeDataset ∧ marshal (canonicalResources (datasetResources options)) = None).
Proof.
  unfold Generate, generateBaseline, datasetResources, resourceChecksum. destruct (validateOptions options) as [[]|e']; simpl; [|by left; congruence].
  intros Hg. right. destruct (op_routeCount options =? 1).
  - destruct (marshal _) eqn:Hm; simpl in Hg; [done|]. by injection Hg as <-.
  - fold (standardResources options) in Hg. destruct (marshal _) eqn:Hm; simpl in Hg; [done|]. by injection Hg as <-.
Qed.

(** the gateway accepts every dataset the generator returns: its resources pass
    the validation of a snapshot under any revision, the router compiles its
    routes, and a request for any sentinel of the metadata is routed to that
    sentinel's route. The generator fails only on invalid options or when the
    resources cannot be encoded. *)
Theorem dataset_accepted options revision : op_routeCount options ≤ 10 ^ 17 → revision ≠ 0 →
  match Generate marshal sha256hex options with
  | Ok (resources, metadata) =>
      validateResources revision resources = Ok tt ∧
      ∃ router, Compile (imap routeSpec (rs_routes resources)) = Ok router ∧
        ∀ position sentinel header remote, md_sentinels metadata !! position = Some sentinel →
          ∃ index, rs_routes resources !! index = Some (sentinelRoute sentinel) ∧
            Match router (sentinel_request sentinel header remote) = Ok (mkResult true false (Z.of_nat index) [] [])
  | Err e =>
      validateOptions options = Err e ∨
      (e = EncodeDataset ∧ marshal (canonicalResources (datasetResources options)) = None)
  end.
Proof.
  intros Hn Hrev. destruct (Generate marshal sha256hex options) as [[resources metadata]|e] eqn:Hg; [|by apply Generate_errors].
  destruct (Generate_resources _ _ _ Hg) as (Hv & Hr & _). destruct (datasetResources_ok options Hv Hn) as [Hd Hwf]. rewrite <-Hr in Hd, Hwf.
  split; [by apply validateResources_wf|]. pose proof (dataset_compile _ Hd) as Hok.
  destruct (Compile (imap routeSpec (rs_routes resources))) as [router|] eqn:Hc; [|done]. exists router. split; [done|].
  intros position sentinel header remote Hs.
  destruct (dataset_sentinels _ _ _ _ _ Hg Hs) as (Hp & -> & [index Hi]%list_elem_of_lookup). exists index.
  split; [done|]. by apply (sentinel_served (rs_routes resources) Hd router).
Qed.
End Generated.

(** ** The checksum *)

Lemma sort_by_id_perm {A} (id : A → string) l k : NoDup (id <$> l) → l ≡ₚ k →
  sort_slice (fun a b => String.ltb (id a) (id b)) l = sort_slice (fun a b => String.ltb (id a) (id b)) k.
Proof.
  intros Hnd Hp. set (less := fun a b => String.ltb (id a) (id b)).
  assert (Hsorted : ∀ m, StronglySorted (not_after less) (sort_slice less m)).
  { intros m. apply sort_slice_sorted; unfold less; [intros x y; apply string_ltb_asym|]. intros x y z H1 H2. exact (string_ltb_false_trans _ _ _ H2 H1). }
  apply (StronglySorted_unique_strong (not_after less)); [|done|done|by rewrite !sort_slice_perm].
  intros x y Hx Hy H1 H2. rewrite elem_of_sort_slice in Hx, Hy. rewrite <-Hp in Hy.
  assert (Hid : id x = id y) by (by apply string_ltb_total).
  apply list_elem_of_lookup in Hx as [i Hi]. apply list_elem_of_lookup in Hy as [j Hj].
  assert (i = j) as ->; [|congruence].
  eapply NoDup_lookup; [exact Hnd|..]; rewrite list_lookup_fmap; [by rewrite Hi|]. rewrite Hj. simpl. by rewrite Hid.
Qed.

Lemma canonical_perm resources routes routes' : NoDup (rt_id <$> routes) → routes ≡ₚ routes' →
  canonicalResources (set_routes resources routes) = canonicalResources (set_routes resources routes').
Proof. intros Hnd Hp. unfold canonicalResources, set_routes. cbn. f_equal. by apply sort_by_id_perm. Qed.

Definition set_seed (options : Options) (seed : Z) : Options :=
  mkOptions (op_routeCount options) seed (op_endpoint options) (op_baselineSentinel options).

(** The checksum identifies the dataset, not its order: another seed, and
    another source of random numbers, gives the same routes and checksum. *)
Theorem checksum_seed_independent `{Unicode} (rand rand' : Rand) marshal sha256hex options seed resources metadata :
  op_routeCount options ≤ 10 ^ 17 → @Generate rand marshal sha256hex options = Ok (resources, metadata) →
  ∃ resources' metadata', @Generate rand' marshal sha256hex (set_seed options seed) = Ok (resources', metadata') ∧
    rs_routes resources' ≡ₚ rs_routes resources ∧ md_checksum metadata' = md_checksum metadata.
Proof.
  intros Hn Hg. destruct (Generate_resources _ _ _ _ _ Hg) as (Hv & Hr & Hck).
  destruct (@datasetResources_ok _ rand options Hv Hn) as [(_ & _ & Hnd) _].
  assert (Hc : canonicalResources (@datasetResources rand' (set_seed options seed)) = canonicalResources resources ∧
               rs_routes (@datasetResources rand' (set_seed options seed)) ≡ₚ rs_routes resources).
  { subst resources. unfold datasetResources in *. cbn [set_seed op_routeCount] in *. destruct (op_routeCount options =? 1); [done|].
    assert (Hp : rs_routes (@standardResources rand' (set_seed options seed)) ≡ₚ rs_routes (@standardResources rand options)).
    { unfold standardResources. cbn [set_routes rs_routes]. by rewrite !Shuffle_perm. }
    split; [|done]. symmetry. unfold standardResources in *. cbn [set_routes rs_routes] in Hnd, Hp.
    change (baseResources (op_endpoint (set_seed options seed)) (0 <? md_serviceRoutes (standardMetadata (set_seed options seed))))
      with (baseResources (op_endpoint options) (0 <? md_serviceRoutes (standardMetadata options))).
    by apply canonical_perm. }
  destruct Hc as [Hc Hp]. unfold resourceChecksum in Hck. rewrite <-Hc in Hck.
  destruct (@Generate rand' marshal sha256hex (set_seed options seed)) as [[resources' metadata']|e] eqn:Hg'.
  - destruct (Generate_resources _ _ _ _ _ Hg') as (_ & Hr' & Hck'). exists resources', metadata'. split; [done|].
    subst resources'. split; [done|]. unfold resourceChecksum in Hck'. destruct (marshal _); [congruence|done].
  - destruct (Generate_errors _ _ _ _ Hg') as [He|[_ He]]; [|by rewrite He in Hck].
    change (validateOptions (set_seed options seed)) with (validateOptions options) in He. congruence.
Qed.

(** ** Concrete datasets *)

(** A source that always draws the middle. *)
#[local] Instance halving_rand : Rand.
Proof. refine {| draw := fun _ _ i => (i / 2)%nat |}. intros _ _ i. apply Nat.Div0.div_le_upper_bound. lia. Defined.

#[local] Instance demo_unicode : Unicode := ascii_only_unicode.

Definition demo_options (count : Z) : Options := mkOptions count 7 "http://upstream:8080" "".

(** An encoding by the routes' identifiers. *)
Definition demo_marshal (resources : ResourceSet) : option string :=
  Some (foldr (fun r s => rt_id r +:+ "," +:+ s) "" (rs_routes resources)).

Definition demo_dataset (count : Z) : result generateError (ResourceSet * Metadata) :=
  Generate demo_marshal (fun encoded => encoded) (demo_options count).

Example demo_dataset_order :
  match demo_dataset 6 with
  | Ok (resources, metadata) =>
      (rt_id <$> rs_routes resources)
        = ["route-000004"; "sentinel-first"; "sentinel-middle"; "route-000001"; "sentinel-last"; "route-000002"] ∧
      md_checksum metadata = "route-000001,route-000002,route-000004,sentinel-first,sentinel-last,sentinel-middle,"
  | Err _ => False
  end.
Proof. by vm_compute. Qed.


Lemma dataset_accepted_witness :
  op_routeCount (demo_options 6) ≤ 10 ^ 17 ∧
  match Generate demo_marshal (fun encoded => encoded) (demo_options 6) with
  | Ok (resources, metadata) =>
      validateResources 1 resources = Ok tt ∧
      ∃ router, Compile (imap routeSpec (rs_routes resources)) = Ok router ∧
        ∀ position sentinel header remote, md_sentinels metadata !! position = Some sentinel →
          ∃ index, rs_routes resources !! index = Some (sentinelRoute sentinel) ∧
            Match router (sentinel_request sentinel header remote) = Ok (mkResult true false (Z.of_nat index) [] [])
  | Err e =>
      validateOptions (demo_options 6) = Err e ∨
      (e = EncodeDataset ∧ demo_marshal (canonicalResources (datasetResources (demo_options 6))) = None)
  end.
Proof.
  split; [by vm_compute|].
  apply (dataset_accepted demo_marshal (fun encoded => encoded) (demo_options 6) 1); [by vm_compute|done].
Defined.

Lemma checksum_seed_independent_witness :
  ∃ resources metadata, demo_dataset 6 = Ok (resources, metadata) ∧
  ∃ resources' metadata',
    Generate demo_marshal (fun encoded => encoded) (set_seed (demo_options 6) 8) = Ok (resources', metadata') ∧
    rs_routes resources' ≡ₚ rs_routes resources ∧ md_checksum metadata' = md_checksum metadata.
Proof.
  destruct (demo_dataset 6) as [[resources metadata]|e] eqn:Hg; [|by vm_compute in Hg].
  exists resources, metadata. split; [done|].
  apply (checksum_seed_independent halving_rand halving_rand demo_marshal (fun encoded => encoded) (demo_options 6) 8); [by vm_compute|exact Hg].
Defined.
