(* ===== verification/Render.v ===== *)
(** * Rendered benchmark configurations ([internal/benchdataset/render.go])

    A dataset is measured twice, behind this gateway and behind APISIX. The
    renderer writes it as a [gateway/v1alpha2] configuration and as an APISIX
    standalone configuration, with the metadata in leading comments.

    The documents are the structs handed to the YAML encoder. The encoder is a
    parameter, and so is the JSON decoder of plugin options. *)

From S2P Require Import Prelude GoStrings NetAddr Json Pattern Predicate Router Plugins.
From S2P Require Import HashKey Url DurationText Resources Builder Dataset.
#[local] Open Scope string_scope.
#[local] Open Scope Z_scope.
#[local] Open Scope list_scope.

(** ** Values of type [any]

    A number keeps its literal; the keys of a map are distinct. *)

Inductive anyValue :=
| AnyNull
| AnyBool (b : bool)
| AnyNumber (literal : string)
| AnyString (s : string)
| AnyList (items : list anyValue)
| AnyMap (entries : list (string * anyValue)).

(** [map[string]any] *)
Definition anyMap : Type := list (string * anyValue).

Definition map_entry (m : anyMap) (key : string) : option anyValue :=
  snd <$> find (fun entry => String.eqb entry.1 key) m.

(** [value, _ := m[key].(string)] *)
Definition string_entry (m : anyMap) (key : string) : string :=
  match map_entry m key with Some (AnyString s) => s | _ => "" end.

(** [value, ok := m[key].(map[string]any)] with [len(value) > 0] *)
Definition filled_entry (m : anyMap) (key : string) : option anyMap :=
  match map_entry m key with Some (AnyMap (entry :: entries)) => Some (entry :: entries) | _ => None end.

(** [m[key] = value] *)
Definition set_entry (m : anyMap) (key : string) (value : anyValue) : anyMap :=
  List.filter (fun entry => negb (String.eqb entry.1 key)) m ++ [(key, value)].

(** A run-time panic is an error of its own. *)
Inductive renderError :=
| RoutePluginFailed (route : string) (plugin : string)
| ServicePluginFailed (service : string) (plugin : string)
| UpstreamEndpointInvalid (upstream endpoint : string)
| EncodeYAML
| IndexPanic.

(** ** The gateway's document *)

Record GatewayRenderOptions := mkRenderOptions {
  go_httpAddress : string;
  go_httpsAddress : string;
  go_adminAddress : string;
  go_certificateFile : string;
  go_privateKeyFile : string;
}.

Record gatewayTLSListener := mkGatewayTLS { gt_address : string; gt_certificateFile : string; gt_privateKeyFile : string }.
Record gatewayListeners := mkGatewayListeners { gl_http : string; gl_https : gatewayTLSListener; gl_admin : string }.
Record gatewayServer := mkGatewayServer {
  gs_readHeaderTimeout : string;
  gs_idleTimeout : string;
  gs_shutdownTimeout : string;
  gs_maxHeaderBytes : Z;
  gs_maxRequestBodyBytes : Z;
}.
Record gatewayTelemetry := mkGatewayTelemetry { gm_requestMetricsEnabled : bool; gm_profilingEnabled : bool }.
Record gatewayPredicate := mkGatewayPredicate { gp_name : string; gp_operator : string; gp_values : list string }.
Record gatewayPlugin := mkGatewayPlugin { gx_name : string; gx_enabled : bool; gx_config : anyMap }.
Record gatewayRouteMatch := mkGatewayMatch {
  gh_hosts : list string;
  gh_path : string;
  gh_methods : list string;
  gh_headers : list gatewayPredicate;
  gh_queries : list gatewayPredicate;
}.
Record gatewayRoute := mkGatewayRoute {
  gr_id : string;
  gr_priority : Z;
  gr_match : gatewayRouteMatch;
  gr_serviceRef : string;
  gr_upstreamRef : string;
  gr_plugins : list gatewayPlugin;
}.
Record gatewayService := mkGatewayService { gv_id : string; gv_upstreamRef : string; gv_plugins : list gatewayPlugin }.
Record gatewayTransport := mkGatewayTransport {
  gn_dialTimeout : string;
  gn_responseHeaderTimeout : string;
  gn_idleConnectionTimeout : string;
  gn_maxIdleConnections : Z;
  gn_maxIdleConnectionsPerHost : Z;
}.
Record gatewayUpstream := mkGatewayUpstream { gu_id : string; gu_endpoints : list string; gu_transport : gatewayTransport }.
Record gatewayDocument := mkGatewayDocument {
  gd_apiVersion : string;
  gd_listeners : gatewayListeners;
  gd_server : gatewayServer;
  gd_telemetry : gatewayTelemetry;
  gd_routes : list gatewayRoute;
  gd_services : list gatewayService;
  gd_upstreams : list gatewayUpstream;
}.

(** ** The document of APISIX *)

Record apisixRoute := mkApisixRoute {
  ar_id : string;
  ar_uri : string;
  ar_host : string;
  ar_hosts : list string;
  ar_methods : list string;
  ar_priority : Z;
  ar_vars : list (list anyValue);
  ar_serviceID : string;
  ar_upstreamID : string;
  ar_plugins : anyMap;
}.
Record apisixService := mkApisixService { as_id : string; as_upstreamID : string; as_plugins : anyMap }.
Record apisixUpstream := mkApisixUpstream { au_id : string; au_type : string; au_scheme : string; au_nodes : gmap string Z }.
Record apisixDocument := mkApisixDocument {
  ad_role : string;
  ad_configProvider : string;
  ad_routerHTTP : string;
  ad_routes : list apisixRoute;
  ad_services : list apisixService;
  ad_upstreams : list apisixUpstream;
}.

(** ** Shared pieces *)

Definition orDefault (value fallback : string) : string := if String.eqb value "" then fallback else value.

Definition defaultGatewayRenderOptions (options : GatewayRenderOptions) : GatewayRenderOptions :=
  mkRenderOptions (orDefault (go_httpAddress options) ":8080") (orDefault (go_httpsAddress options) ":8443")
    (orDefault (go_adminAddress options) ":9090") (orDefault (go_certificateFile options) "/certs/server.crt")
    (orDefault (go_privateKeyFile options) "/certs/server.key").

Definition newline : string := String (ascii_of_nat 10) "".

(** The three leading comments. *)
Definition metadataComments (metadata : Metadata) : list string :=
  ["# benchmark_schema_version: " +:+ pretty (md_schemaVersion metadata);
   "# benchmark_checksum: " +:+ md_checksum metadata;
   "# benchmark_route_count: " +:+ pretty (md_routeCount metadata)].

Definition with_lines (lines : list string) (rest : string) : string :=
  foldr (fun line rest => line +:+ newline +:+ rest) rest lines.

Definition addMetadataComments (rendered : string) (metadata : Metadata) (endMarker : bool) : string :=
  let output := with_lines (metadataComments metadata) rendered in
  if endMarker then
    output +:+ (if negb (String.eqb output "") && negb (has_suffix output newline) then newline else "") +:+ "#END" +:+ newline
  else output.

(** A loop that stops at the first error. *)
Fixpoint renderEach {A B} (f : A → result renderError B) (l : list A) : result renderError (list B) :=
  match l with
  | [] => Ok []
  | x :: l => y ← f x; rest ← renderEach f l; Ok (y :: rest)
  end.

Section Render.
(** [json.Unmarshal] into a [map[string]any]. *)
Context (Unmarshal : string → option anyMap).

(** The options of an attachment; blank options are an empty map. *)
Definition pluginConfig (raw : string) : option anyMap :=
  if Nat.ltb 0 (String.length (trim_space raw)) then Unmarshal raw else Some [].

(** ** The gateway *)

Definition gatewayPredicates (predicates : list Predicate) : list gatewayPredicate :=
  (fun p => mkGatewayPredicate (pred_name p) (operator_string (pred_operator p)) (pred_values p)) <$> predicates.

Definition gatewayPlugins (failed : string → renderError) (attachments : list PluginAttachment)
    : result renderError (list gatewayPlugin) :=
  renderEach (fun a =>
    match pluginConfig (pa_rawConfig a) with
    | None => Err (failed (pa_name a))
    | Some config => Ok (mkGatewayPlugin (pa_name a) (pa_enabled a) config)
    end) attachments.

Definition renderRoute (route : Route) : result renderError gatewayRoute :=
  let m := rt_match route in
  plugins ← gatewayPlugins (RoutePluginFailed (rt_id route)) (rt_plugins route);
  Ok (mkGatewayRoute (rt_id route) (rt_priority route)
        (mkGatewayMatch (match_hosts m) (match_path m) (match_methods m) (gatewayPredicates (match_headers m))
           (gatewayPredicates (match_queries m)))
        (rt_serviceRef route) (rt_upstreamRef route) plugins).

Definition renderService (service : Service) : result renderError gatewayService :=
  plugins ← gatewayPlugins (ServicePluginFailed (sv_id service)) (sv_plugins service);
  Ok (mkGatewayService (sv_id service) (sv_upstreamRef service) plugins).

Definition renderUpstream (upstream : Upstream) : gatewayUpstream :=
  let t := up_transport upstream in
  mkGatewayUpstream (up_id upstream) (ep_url <$> up_endpoints upstream)
    (mkGatewayTransport (Duration_String (tc_dialTimeout t)) (Duration_String (tc_responseHeaderTimeout t))
       (Duration_String (tc_idleConnectionTimeout t)) (tc_maxIdleConnections t) (tc_maxIdleConnectionsPerHost t)).

Definition gatewayDocumentOf (resources : ResourceSet) (options : GatewayRenderOptions) : result renderError gatewayDocument :=
  let options := defaultGatewayRenderOptions options in
  routes ← renderEach renderRoute (rs_routes resources);
  services ← renderEach renderService (rs_services resources);
  Ok (mkGatewayDocument "gateway/v1alpha2"
        (mkGatewayListeners (go_httpAddress options)
           (mkGatewayTLS (go_httpsAddress options) (go_certificateFile options) (go_privateKeyFile options))
           (go_adminAddress options))
        (mkGatewayServer "5s" "1m" "30s" (Z.shiftl 1 20) (Z.shiftl 64 20)) (mkGatewayTelemetry true false)
        routes services (renderUpstream <$> rs_upstreams resources)).

Definition RenderGateway (yaml_Marshal : gatewayDocument → option string) (resources : ResourceSet) (metadata : Metadata)
    (options : GatewayRenderOptions) : result renderError string :=
  document ← gatewayDocumentOf resources options;
  match yaml_Marshal document with
  | None => Err EncodeYAML
  | Some rendered => Ok (addMetadataComments rendered metadata false)
  end.

(** ** APISIX *)

Definition apisixSegment (segment : string) : string :=
  if has_prefix segment "{*" && has_suffix segment "}" then "*"
  else if has_prefix segment "{" && has_suffix segment "}" then
    ":" +:+ slice segment 1 (String.length segment - 1)
  else segment.

Definition apisixPath (path : string) : string := join_byte "/" (apisixSegment <$> split_byte "/" path).

Context `{Unicode} (isLetterOrDigit : string → bool).

(** The loop over the runes of a lower-case name; [isLetterOrDigit] decides the
    runes beyond ASCII, and an invalid byte is none. *)
Fixpoint variableName (s : string) (skip : nat) : string :=
  match s with
  | EmptyString => ""
  | String c rest =>
      match skip with
      | S skip => variableName rest skip
      | O =>
          if is_ascii_byte c then
            String (if is_lower c || is_upper c || is_digit c then c else "_") (variableName rest 0)
          else
            match rune_length (byte_val c) (byte_values (stake 3 rest)) with
            | None => String "_" (variableName rest 0)
            | Some size =>
                let rune := stake size s in
                (if isLetterOrDigit rune then rune else "_") +:+ variableName rest (size - 1)
            end
      end
  end.

Definition apisixVariableName (name : string) : string := variableName (to_lower name) 0.

Definition apisixPredicate (variable : string) (p : Predicate) : result renderError (list anyValue) :=
  let first (operator : string) :=
    match pred_values p with
    | value :: _ => Ok [AnyString variable; AnyString operator; AnyString value]
    | [] => Err IndexPanic
    end in
  match pred_operator p with
  | PredicateExists => Ok [AnyString variable; AnyString "~="; AnyNull]
  | PredicateNotExists => Ok [AnyString variable; AnyString "=="; AnyNull]
  | PredicateEquals => first "=="
  | PredicateNotEquals => first "~="
  | PredicateOneOf => Ok [AnyString variable; AnyString "in"; AnyList (AnyString <$> pred_values p)]
  | PredicateUnsupported _ => Ok [AnyString variable; AnyString "=="; AnyString ""]
  end.

Definition apisixPredicates (headers queries : list Predicate) : result renderError (list (list anyValue)) :=
  h ← renderEach (fun p => apisixPredicate ("http_" +:+ apisixVariableName (pred_name p)) p) headers;
  q ← renderEach (fun p => apisixPredicate ("arg_" +:+ apisixVariableName (pred_name p)) p) queries;
  Ok (h ++ q).

(** One round of the plugin loop. *)
Definition apisixPlugin (failed : string → renderError) (rendered : anyMap) (a : PluginAttachment) : result renderError anyMap :=
  if negb (pa_enabled a) then Ok rendered
  else
    match pluginConfig (pa_rawConfig a) with
    | None => Err (failed (pa_name a))
    | Some config =>
      if String.eqb (pa_name a) "request-id" then
        let headerName := orDefault (string_entry config "header_name") "X-Request-ID" in
        Ok (set_entry rendered "request-id"
              (AnyMap [("header_name", AnyString headerName); ("include_in_response", AnyBool true); ("algorithm", AnyString "uuid")]))
      else if String.eqb (pa_name a) "header-rewrite" then
        let rendered := match filled_entry config "request" with
          | Some request => set_entry rendered "proxy-rewrite" (AnyMap [("headers", AnyMap request)])
          | None => rendered
          end in
        Ok (match filled_entry config "response" with
            | Some response => set_entry rendered "response-rewrite" (AnyMap [("headers", AnyMap response)])
            | None => rendered
            end)
      else Err (failed (pa_name a))
    end.

(** An empty result and a nil one are both left out of the document. *)
Fixpoint apisixPlugins (failed : string → renderError) (rendered : anyMap) (attachments : list PluginAttachment)
    : result renderError anyMap :=
  match attachments with
  | [] => Ok rendered
  | a :: attachments => rendered ← apisixPlugin failed rendered a; apisixPlugins failed rendered attachments
  end.

Definition renderApisixRoute (route : Route) : result renderError apisixRoute :=
  let m := rt_match route in
  plugins ← apisixPlugins (RoutePluginFailed (rt_id route)) [] (rt_plugins route);
  vars ← apisixPredicates (match_headers m) (match_queries m);
  let '(host, hosts) :=
    match match_hosts m with
    | [] => ("", [])
    | [host] => (host, [])
    | hosts => ("", hosts)
    end in
  Ok (mkApisixRoute (rt_id route) (apisixPath (match_path m)) host hosts (match_methods m) (rt_priority route) vars
        (rt_serviceRef route) (rt_upstreamRef route) plugins).

Definition renderApisixService (service : Service) : result renderError apisixService :=
  plugins ← apisixPlugins (ServicePluginFailed (sv_id service)) [] (sv_plugins service);
  Ok (mkApisixService (sv_id service) (sv_upstreamRef service) plugins).

(** The loop over the endpoints: the last scheme, and a weight per host. *)
Fixpoint apisixNodes (upstream : string) (endpoints : list Endpoint) (scheme : string) (nodes : gmap string Z)
    : result renderError (string * gmap string Z) :=
  match endpoints with
  | [] => Ok (scheme, nodes)
  | e :: endpoints =>
    match url_Parse (ep_url e) with
    | None => Err (UpstreamEndpointInvalid upstream (ep_url e))
    | Some parsed =>
      if String.eqb (u_host parsed) "" then Err (UpstreamEndpointInvalid upstream (ep_url e))
      else apisixNodes upstream endpoints (u_scheme parsed) (<[u_host parsed := ep_weight e]> nodes)
    end
  end.

Definition renderApisixUpstream (upstream : Upstream) : result renderError apisixUpstream :=
  '(scheme, nodes) ← apisixNodes (up_id upstream) (up_endpoints upstream) "http" ∅;
  Ok (mkApisixUpstream (up_id upstream) "roundrobin" scheme nodes).

Definition apisixDocumentOf (resources : ResourceSet) : result renderError apisixDocument :=
  routes ← renderEach renderApisixRoute (rs_routes resources);
  services ← renderEach renderApisixService (rs_services resources);
  upstreams ← renderEach renderApisixUpstream (rs_upstreams resources);
  Ok (mkApisixDocument "data_plane" "yaml" "radixtree_uri_with_parameter" routes services upstreams).

Definition RenderAPISIX (yaml_Marshal : apisixDocument → option string) (resources : ResourceSet) (metadata : Metadata)
    : result renderError string :=
  document ← apisixDocumentOf resources;
  match yaml_Marshal document with
  | None => Err EncodeYAML
  | Some rendered => Ok (addMetadataComments rendered metadata true)
  end.
End Render.
