(* ===== verification/RenderCorrect.v ===== *)
(** * What the renderer writes, the gateway reads ([internal/benchdataset/render.go])

    The gateway's loader decodes a rendered configuration to the validation of
    the resources that were rendered, as far as [gateway/v1alpha2] can express
    them; for a generated dataset these are exactly its routes and services and
    the normalized form of its upstream. Neither rendering of a dataset can
    fail before the YAML encoder does. *)

From S2P Require Import Prelude GoStrings Trim NetAddr Decimal Json Pattern Predicate Router Plugins.
From S2P Require Import HashKey Url Duration DurationText Resources UpstreamConfig X509 MaterialLoad Builder Config ConfigCorrect Dataset DatasetCorrect DatasetAccepted Render.
#[local] Open Scope string_scope.
#[local] Open Scope Z_scope.
#[local] Open Scope list_scope.

(** ** The document as the loader's struct

    The fields that carry the same YAML keys. *)

Definition predicate_read (p : gatewayPredicate) : predicateDocumentV2 :=
  mkPredicateDocument (gp_name p) (gp_operator p) (gp_values p).
Definition plugin_read (p : gatewayPlugin) : pluginDocumentV2 anyMap :=
  mkPluginDocument (gx_name p) (Some (gx_enabled p)) (gx_config p).
Definition match_read (m : gatewayRouteMatch) : routeMatchDocumentV2 :=
  mkMatchDocument (gh_hosts m) (gh_path m) (gh_methods m) (predicate_read <$> gh_headers m) (predicate_read <$> gh_queries m).
Definition route_read (r : gatewayRoute) : routeDocumentV2 anyMap :=
  mkRouteDocumentV2 (gr_id r) (gr_priority r) (match_read (gr_match r)) (gr_serviceRef r) (gr_upstreamRef r) (plugin_read <$> gr_plugins r).
Definition service_read (s : gatewayService) : serviceDocumentV2 anyMap :=
  mkServiceDocument (gv_id s) (gv_upstreamRef s) (plugin_read <$> gv_plugins s).
Definition upstream_read (u : gatewayUpstream) : upstreamDocument :=
  let t := gu_transport u in
  mkUpstreamDocument (gu_id u) (gu_endpoints u)
    (mkTransportDocument (gn_dialTimeout t) (gn_responseHeaderTimeout t) (gn_idleConnectionTimeout t) (gn_maxIdleConnections t)
       (gn_maxIdleConnectionsPerHost t)).
Definition document_read (d : gatewayDocument) : documentV2 anyMap :=
  let l := gd_listeners d in let s := gd_server d in
  mkDocumentV2 (gd_apiVersion d)
    (mkListenersDocument (gl_http l)
       (mkTLSListener (gt_address (gl_https l)) (gt_certificateFile (gl_https l)) (gt_privateKeyFile (gl_https l))) (gl_admin l))
    (mkServerDocument (gs_readHeaderTimeout s) (gs_idleTimeout s) (gs_shutdownTimeout s) (gs_maxHeaderBytes s) (gs_maxRequestBodyBytes s))
    (mkTelemetry (gm_requestMetricsEnabled (gd_telemetry d)) (gm_profilingEnabled (gd_telemetry d)))
    (route_read <$> gd_routes d) (service_read <$> gd_services d) (upstream_read <$> gd_upstreams d).

(** ** What the codecs promise *)

(** Numbers may come back from YAML in another notation. *)
Fixpoint number_free (v : anyValue) : bool :=
  match v with
  | AnyNumber _ => false
  | AnyList items => forallb number_free items
  | AnyMap entries => forallb (fun entry => number_free entry.2) entries
  | _ => true
  end.

Definition document_configs (d : gatewayDocument) : list anyMap :=
  gx_config <$> ((gd_routes d ≫= gr_plugins) ++ (gd_services d ≫= gv_plugins)).

(** A line that YAML ignores. *)
Definition comment_line (line : string) : bool :=
  has_prefix line "#" && string_forallb (fun c => byte_between " " "~" c) line.

(** The YAML decoder reads what the encoder has written of a document, and skips
    comments. *)
Definition yaml_reads (yaml : decoders anyMap) (yaml_Marshal : gatewayDocument → option string) (d : gatewayDocument) : Prop :=
  ∀ rendered comments, yaml_Marshal d = Some rendered →
    forallb (fun config => number_free (AnyMap config)) (document_configs d) = true → forallb comment_line comments = true →
    header yaml (with_lines comments rendered) = Some (gd_apiVersion d) ∧
    strict2 yaml (with_lines comments rendered) = Some (document_read d).

(** ** What [gateway/v1alpha2] expresses of resources *)

Section View.
Context (Unmarshal : string → option anyMap) (Marshal : anyMap → option string).

(** The options as the loader encodes them again. *)
Definition plugin_view (a : PluginAttachment) : option PluginAttachment :=
  config ← pluginConfig Unmarshal (pa_rawConfig a);
  encoded ← Marshal config;
  Some (mkAttachment (pa_name a) (pa_enabled a) encoded).

Definition predicate_view (p : Predicate) : Predicate :=
  mkPredicate (pred_name p) (operator_of_string (operator_string (pred_operator p))) (pred_values p).

Definition match_view (m : RouteMatch) : RouteMatch :=
  mkRouteMatch (match_hosts m) (match_path m) (match_methods m) (predicate_view <$> match_headers m) (predicate_view <$> match_queries m).

Definition route_view (r : Route) : option Route :=
  plugins ← mapM plugin_view (rt_plugins r);
  Some (mkRoute (rt_id r) (rt_priority r) (match_view (rt_match r)) (rt_serviceRef r) (rt_upstreamRef r) plugins noResilience noWebSocket).

Definition service_view (s : Service) : option Service :=
  plugins ← mapM plugin_view (sv_plugins s);
  Some (mkService (sv_id s) (sv_upstreamRef s) plugins noWebSocket).

Definition upstream_view (u : Upstream) : Upstream :=
  let t := up_transport u in
  mkUpstream (up_id u) ((fun e => mkEndpoint (ep_url e) 1) <$> up_endpoints u) (mkBalancer BalancerWeightedRoundRobin [])
    (mkTransport TransportProtocolHTTP1 None (tc_dialTimeout t) (tc_responseHeaderTimeout t) (tc_idleConnectionTimeout t)
       (tc_maxIdleConnections t) (tc_maxIdleConnectionsPerHost t)) noHealth legacyRetry.

Definition resources_view (rs : ResourceSet) : option ResourceSet :=
  routes ← mapM route_view (rs_routes rs);
  services ← mapM service_view (rs_services rs);
  Some (mkResourceSet routes services (upstream_view <$> rs_upstreams rs) [] None []).

(** The fixed settings of a rendered configuration. *)
Definition bench_bootstrap (options : GatewayRenderOptions) : BootstrapConfig :=
  let options := defaultGatewayRenderOptions options in
  mkBootstrap (go_httpAddress options) (mkTLSListener (go_httpsAddress options) (go_certificateFile options) (go_privateKeyFile options))
    (go_adminAddress options) (mkServer (5 * Second) (60 * Second) (30 * Second) 1048576 67108864) (mkTelemetry true false) defaultRuntime.

(** A 64-bit duration. *)
Definition int64 (d : Z) : Prop := - 2 ^ 63 ≤ d < 2 ^ 63.

Definition transport_ok (u : Upstream) : Prop :=
  let t := up_transport u in
  int64 (tc_dialTimeout t) ∧ int64 (tc_responseHeaderTimeout t) ∧ int64 (tc_idleConnectionTimeout t).

(** ** Conversion undoes rendering *)

Lemma renderEach_read {A B C D} (f : A → result renderError B) (read : B → C) (conv : nat → C → result configError D)
    (view : A → option D) : (∀ x y z k, f x = Ok y → view x = Some z → conv k (read y) = Ok z) →
  ∀ l l' v k, renderEach f l = Ok l' → mapM view l = Some v → convertEach conv k (read <$> l') = Ok v.
Proof.
  intros Hf l. induction l as [|x l IH]; intros l' v k Hl Hv; simpl in *.
  - injection Hl as <-. by injection Hv as <-.
  - inv_ok. destruct (view x) as [z|] eqn:Hz; [|done]. simpl in Hv. destruct (mapM view l) as [zs|] eqn:Hzs; [|done]. injection Hv as <-.
    rewrite fmap_cons. cbn [convertEach]. erewrite Hf by done. cbn [mbind result_bind]. by erewrite IH.
Qed.

Lemma plugins_read failed field attachments rendered view : gatewayPlugins Unmarshal failed attachments = Ok rendered →
  mapM plugin_view attachments = Some view → convertPlugins Marshal field (plugin_read <$> rendered) = Ok view.
Proof.
  unfold gatewayPlugins, convertPlugins. apply renderEach_read. intros a g v k Hg Hv. unfold plugin_view in Hv.
  destruct (pluginConfig Unmarshal (pa_rawConfig a)) as [config|]; [|done]. injection Hg as <-. simpl in Hv.
  unfold convertPlugin, plugin_read. cbn [gx_name gx_enabled gx_config fd_name fd_enabled fd_config].
  destruct (Marshal config); [|done]. by injection Hv as <-.
Qed.

Lemma predicates_read predicates : convertPredicates (predicate_read <$> gatewayPredicates predicates) = predicate_view <$> predicates.
Proof. unfold convertPredicates, gatewayPredicates. by rewrite <-!list_fmap_compose. Qed.

Lemma rendered_route_read r g v k : renderRoute Unmarshal r = Ok g → route_view r = Some v → convertRouteV2 Marshal k (route_read g) = Ok v.
Proof.
  unfold renderRoute, route_view. intros Hg Hv. inv_ok. destruct (mapM plugin_view (rt_plugins r)) as [plugins|] eqn:Hp; [|done]. injection Hv as <-.
  unfold convertRouteV2, route_read. cbn [r2_plugins gr_plugins]. erewrite plugins_read by done. cbn [mbind result_bind].
  unfold convertMatch, match_read. cbn. by rewrite !predicates_read.
Qed.

Lemma rendered_service_read s g v k : renderService Unmarshal s = Ok g → service_view s = Some v → convertServiceV2 Marshal k (service_read g) = Ok v.
Proof.
  unfold renderService, service_view. intros Hg Hv. inv_ok. destruct (mapM plugin_view (sv_plugins s)) as [plugins|] eqn:Hp; [|done]. injection Hv as <-.
  unfold convertServiceV2, service_read. cbn [s2_plugins gv_plugins]. by erewrite plugins_read.
Qed.

Lemma parse_rendered field d : int64 d → parseDuration field (Duration_String d) = Ok d.
Proof. intros Hd. unfold parseDuration. by rewrite duration_roundtrip. Qed.

Lemma rendered_upstream_read k u : transport_ok u → convertUpstream k (upstream_read (renderUpstream u)) = Ok (upstream_view u).
Proof.
  intros (Hd & Hr & Hi). unfold convertUpstream, convertTransport. cbn. rewrite !parse_rendered by done. cbn.
  unfold upstream_view. by rewrite <-list_fmap_compose.
Qed.

Lemma rendered_upstreams_read k us : Forall transport_ok us →
  convertEach convertUpstream k (upstream_read <$> (renderUpstream <$> us)) = Ok (upstream_view <$> us).
Proof.
  intros Hu. revert k. induction Hu as [|u us Hu _ IH]; intros k; [done|]. rewrite !fmap_cons. cbn [convertEach].
  rewrite rendered_upstream_read by done. cbn [mbind result_bind]. by rewrite IH.
Qed.

(** The loader converts the rendered document to the view of the resources. *)
Lemma rendered_document_read rs options d view : Forall transport_ok (rs_upstreams rs) →
  gatewayDocumentOf Unmarshal rs options = Ok d → resources_view rs = Some view →
  gd_apiVersion d = apiVersionV1Alpha2 ∧ convertV2 Marshal (document_read d) = Ok (bench_bootstrap options, view).
Proof.
  intros Hu Hd Hv. unfold gatewayDocumentOf in Hd. inv_ok. rename x into routes, x0 into services. split; [done|].
  unfold resources_view in Hv. destruct (mapM route_view (rs_routes rs)) as [vr|] eqn:Hvr; [|done]. cbn [mbind option_bind] in Hv.
  destruct (mapM service_view (rs_services rs)) as [vs|] eqn:Hvs; [|done]. injection Hv as <-.
  unfold convertV2, document_read, convert. cbn [d2_server d2_listeners d2_telemetry d2_upstreams d2_apiVersion d1_server d1_listeners d1_telemetry
    d1_upstreams d1_routes gd_server gd_upstreams gd_listeners gd_telemetry].
  change (convertServer _) with (Ok (mkServer (5 * Second) (60 * Second) (30 * Second) 1048576 67108864) : result configError ServerConfig).
  cbn [mbind result_bind]. rewrite rendered_upstreams_read by done. cbn [mbind result_bind d2_routes d2_services gd_routes gd_services].
  erewrite (renderEach_read (renderRoute Unmarshal) route_read (convertRouteV2 Marshal) route_view); [|intros; by eapply rendered_route_read|done|done].
  cbn [mbind result_bind].
  erewrite (renderEach_read (renderService Unmarshal) service_read (convertServiceV2 Marshal) service_view); [|intros; by eapply rendered_service_read|done|done].
  done.
Qed.
End View.

(** ** Decoding a rendered configuration *)

Section Decode.
Context `{Unicode} (yaml : decoders anyMap) (yaml_Marshal : gatewayDocument → option string).
Context (Unmarshal : string → option anyMap) (Marshal : anyMap → option string).
Context (ResolveTCPAddr : string → option tcpAddr) (open : string → option file).
Context (sha256 : string → string) (ParseCertificate : string → option Leaf).
Context (pem_Decode : string → option (string * string * string)).
Context (X509KeyPair : string → string → option tlsCertificate).
Context (iterate : gmap string Leaf → list string).

#[local] Notation decode := (Decode yaml Marshal ResolveTCPAddr open sha256 ParseCertificate pem_Decode X509KeyPair iterate).

(** The metadata can stand in comments. *)
Definition metadata_printable (metadata : Metadata) : Prop := forallb comment_line (metadataComments metadata) = true.

(** Plugin options without numbers. *)
Definition options_number_free (rs : ResourceSet) : Prop :=
  ∀ a config, a ∈ (rs_routes rs ≫= rt_plugins) ++ (rs_services rs ≫= sv_plugins) →
    pluginConfig Unmarshal (pa_rawConfig a) = Some config → number_free (AnyMap config) = true.

Lemma renderEach_elem {A B} (f : A → result renderError B) l l' y : renderEach f l = Ok l' → y ∈ l' → ∃ x, x ∈ l ∧ f x = Ok y.
Proof.
  revert l'. induction l as [|x l IH]; intros l' Hl Hy; simpl in Hl; inv_ok; [by apply elem_of_nil in Hy|].
  apply elem_of_cons in Hy as [-> |Hy]; [exists x; split; [by left|done]|].
  destruct (IH _ H1 Hy) as (x' & Hx & Hf). exists x'. split; [by right|done].
Qed.

Lemma rendered_plugin failed attachments rendered g : gatewayPlugins Unmarshal failed attachments = Ok rendered → g ∈ rendered →
  ∃ a, a ∈ attachments ∧ pluginConfig Unmarshal (pa_rawConfig a) = Some (gx_config g).
Proof.
  intros Hr Hg. destruct (renderEach_elem _ _ _ _ Hr Hg) as (a & Ha & He). exists a. split; [done|].
  destruct (pluginConfig Unmarshal (pa_rawConfig a)); [|done]. by injection He as <-.
Qed.

Lemma rendered_configs rs options d : options_number_free rs → gatewayDocumentOf Unmarshal rs options = Ok d →
  forallb (fun config => number_free (AnyMap config)) (document_configs d) = true.
Proof.
  intros Hn Hd. unfold gatewayDocumentOf in Hd. inv_ok. apply forallb_forall. intros config Hc%list_elem_of_In.
  unfold document_configs in Hc. apply list_elem_of_fmap in Hc as (g & -> & Hg). cbn [gd_routes gd_services] in Hg.
  apply elem_of_app in Hg as [(r & Hg & Hr)%list_elem_of_bind|(r & Hg & Hr)%list_elem_of_bind].
  - destruct (renderEach_elem _ _ _ _ H0 Hr) as (route & Hin & He). unfold renderRoute in He. inv_ok.
    destruct (rendered_plugin _ _ _ _ H2 Hg) as (a & Ha & Hc). apply (Hn a); [|done]. apply elem_of_app. left.
    apply list_elem_of_bind. by exists route.
  - destruct (renderEach_elem _ _ _ _ H1 Hr) as (service & Hin & He). unfold renderService in He. inv_ok.
    destruct (rendered_plugin _ _ _ _ H2 Hg) as (a & Ha & Hc). apply (Hn a); [|done]. apply elem_of_app. right.
    apply list_elem_of_bind. by exists service.
Qed.

(** A rendered configuration is decoded to the validation of the resources it
    was rendered from, seen through [gateway/v1alpha2]. *)
Lemma rendered_decodes rs metadata options d text view : Forall transport_ok (rs_upstreams rs) → metadata_printable metadata →
  options_number_free rs → resources_view Unmarshal Marshal rs = Some view →
  gatewayDocumentOf Unmarshal rs options = Ok d → yaml_reads yaml yaml_Marshal d →
  RenderGateway Unmarshal yaml_Marshal rs metadata options = Ok text →
  decode text = (rs ← validateV2 ResolveTCPAddr open apiVersionV1Alpha2 (bench_bootstrap options) view; Ok (bench_bootstrap options, rs)).
Proof.
  intros Hu Hm Hn Hv Hd yaml_ok Hr. unfold RenderGateway in Hr. rewrite Hd in Hr. cbn [mbind result_bind] in Hr.
  destruct (yaml_Marshal d) as [rendered|] eqn:Hy; [|done]. 
  assert (Ht : text = with_lines (metadataComments metadata) rendered) by (by injection Hr as <-). clear Hr. subst text.
  destruct (yaml_ok rendered (metadataComments metadata) Hy) as [Hh Hs]; [by eapply rendered_configs|done|].
  destruct (rendered_document_read Unmarshal Marshal rs options d view Hu Hd Hv) as [Hversion Hconv].
  unfold Decode. rewrite Hh, Hs, Hversion. cbv zeta.
  change (String.eqb apiVersionV1Alpha2 apiVersionV1Alpha1) with false. change (String.eqb apiVersionV1Alpha2 apiVersionV1Alpha2) with true. cbv iota.
  unfold decodeVersion. rewrite Hconv. cbn [mbind result_bind document_read d2_apiVersion]. by rewrite Hversion.
Qed.
End Decode.

(** ** Datasets *)

(** The options of the two plugins a dataset attaches. *)
Definition requestIDConfig : anyMap := [("header_name", AnyString "X-Bench-Request-ID")].
Definition headerRewriteConfig (id : string) : anyMap :=
  [("request", AnyMap [("set", AnyMap [("X-Bench-Route", AnyString id)])]);
   ("response", AnyMap [("set", AnyMap [("X-Bench-Gateway", AnyString "g-gateway")])])].

(** JSON decoding and encoding of these options: no field is lost, and an object
    with sorted keys and no bytes to escape is written as it was read. *)
Definition json_reads (Unmarshal : string → option anyMap) (Marshal : anyMap → option string) : Prop :=
  (Unmarshal (pa_rawConfig requestIDPlugin) = Some requestIDConfig ∧
   Marshal requestIDConfig = Some (pa_rawConfig requestIDPlugin)) ∧
  ∀ digits, string_forallb is_digit digits = true → let id := "route-" +:+ digits in
    Unmarshal (pa_rawConfig (headerRewritePlugin id)) = Some (headerRewriteConfig id) ∧
    Marshal (headerRewriteConfig id) = Some (pa_rawConfig (headerRewritePlugin id)).

(** What validation and rendering need of a route. *)
Record rendered_route `{Unicode} (r : Route) : Prop := {
  rr_methods : ∃ m, match_methods (rt_match r) = [m] ∧ config_validHTTPToken m = true ∧ to_upper m = m;
  rr_hosts : "" ∉ match_hosts (rt_match r);
  rr_path : has_prefix (match_path (rt_match r)) "/" = true ∧ contains_any "?#" (match_path (rt_match r)) = false;
  rr_predicates : ∀ p, p ∈ match_headers (rt_match r) ++ match_queries (rt_match r) →
    predicate_view p = p ∧ (∀ field, validatePredicate field p = Ok tt) ∧ ∀ variable, is_ok (apisixPredicate variable p) = true;
  rr_plugins : ∃ c d digits, string_forallb is_digit digits = true ∧
    rt_plugins r = (if (c : bool) then [requestIDPlugin] else []) ++ (if (d : bool) then [headerRewritePlugin ("route-" +:+ digits)] else []);
  rr_resilience : rt_resilience r = noResilience;
  rr_webSocket : rt_webSocket r = noWebSocket;
}.

Section Dataset.
Context `{Unicode}.

Lemma sentinel_rendered position : position ∈ ["first"; "middle"; "last"] →
  rendered_route (sentinelRoute (default noSentinel (standardSentinels !! position))).
Proof.
  intros Hp. rewrite !elem_of_cons, elem_of_nil in Hp. destruct Hp as [-> |[-> |[-> |[]]]]; constructor; try done.
  all: try (by exists "GET"). all: try (by intros ?%list_elem_of_singleton). all: try (by intros p Hp%elem_of_nil). all: by exists false, false, "".
Qed.

Lemma custom_method_token i : 0 ≤ i → config_validHTTPToken ("BENCH" +:+ pretty (Z.rem i 10)) = true ∧
  to_upper ("BENCH" +:+ pretty (Z.rem i 10)) = "BENCH" +:+ pretty (Z.rem i 10).
Proof.
  intros Hi. rewrite Z.rem_mod_nonneg by lia. pose proof (Z.mod_pos_bound i 10 ltac:(lia)) as Hm.
  assert (i mod 10 = 0 ∨ i mod 10 = 1 ∨ i mod 10 = 2 ∨ i mod 10 = 3 ∨ i mod 10 = 4 ∨ i mod 10 = 5 ∨ i mod 10 = 6 ∨
          i mod 10 = 7 ∨ i mod 10 = 8 ∨ i mod 10 = 9) as Hcases by lia.
  destruct_or! Hcases; rewrite Hcases; by vm_compute.
Qed.

Lemma generated_method i h p m : 0 ≤ i → ∃ method, match_methods (rt_match (generatedRoute i h p m)) = [method] ∧
  config_validHTTPToken method = true ∧ to_upper method = method.
Proof.
  intros Hi. cbn [generatedRoute benchRoute rt_match match_methods]. eexists. split; [reflexivity|].
  destruct m as [|m]; [|by apply custom_method_token].
  pose proof (pick_cases "" benchMethods i ltac:(done) Hi) as Hp. unfold benchMethods in *.
  repeat (apply elem_of_cons in Hp as [-> |Hp]; [by vm_compute|]). by apply elem_of_nil in Hp.
Qed.

Lemma generated_path_ok i h p m : 0 ≤ i → has_prefix (match_path (rt_match (generatedRoute i h p m))) "/" = true ∧
  contains_any "?#" (match_path (rt_match (generatedRoute i h p m))) = false.
Proof.
  intros Hi. pose proof (format06_numeric i Hi) as Hd. cbn [generatedRoute benchRoute rt_match match_path].
  destruct p as [|[|[|p]]]; [|by apply numeric_path..].
  rewrite <-(string_app_nil_r (format06 i)). by apply numeric_path.
Qed.

Definition simple_predicate (p : Predicate) : Prop :=
  predicate_view p = p ∧ (∀ field, validatePredicate field p = Ok tt) ∧ ∀ variable, is_ok (apisixPredicate variable p) = true.

Lemma bench_predicate name operator d : trim_space name ≠ "" → operator ∈ benchOperators →
  simple_predicate (mkPredicate name operator
    (match operator with
     | PredicateExists | PredicateNotExists => []
     | PredicateOneOf => ["value-" +:+ d; "alternate-" +:+ d]
     | _ => ["value-" +:+ d]
     end)).
Proof.
  intros Hne%String.eqb_neq Ho. unfold simple_predicate, validatePredicate. cbn [pred_name]. unfold benchOperators in Ho.
  repeat (apply elem_of_cons in Ho as [-> |Ho]; [split_and!; [done|intros field; by rewrite Hne|done]|]). by apply elem_of_nil in Ho.
Qed.

Lemma addPredicate_simple i r p : 0 ≤ i → match_headers (rt_match r) = [] → match_queries (rt_match r) = [] →
  p ∈ match_headers (rt_match (addPredicate r i)) ++ match_queries (rt_match (addPredicate r i)) → simple_predicate p.
Proof.
  intros Hi Hh Hq. pose proof (format06_numeric i Hi) as Hd.
  pose proof (pick_cases PredicateExists benchOperators i ltac:(done) Hi) as Ho. unfold addPredicate.
  assert (Hname : ∀ prefix, string_forallb (fun c => byte_between "!" "~" c) prefix = true → prefix ≠ "" → trim_space (prefix +:+ format06 i) ≠ "").
  { intros prefix Hp Hne. rewrite printable_trimmed by (by apply numeric_printable). by destruct prefix. }
  destruct (Z.rem i 2 =? 0); cbn [set_predicates rt_match match_headers match_queries]; rewrite ?Hh, ?Hq; cbn [app];
    intros ->%list_elem_of_singleton; (apply bench_predicate; [|done]); [by apply (Hname "X-Bench-")|by apply (Hname "q")].
Qed.

Lemma generated_rendered i a b c d h p m : 0 ≤ i → rendered_route (decorate i a b c d (generatedRoute i h p m)).
Proof.
  intros Hi. destruct (decorate_match i a b c d (generatedRoute i h p m)) as (Hh & Hp & Hm).
  constructor; rewrite ?Hh, ?Hp, ?Hm.
  - by apply generated_method.
  - cbn [generatedRoute benchRoute rt_match match_hosts]. destruct h as [|[|h]]; [by intros ?%list_elem_of_singleton..|by intros ?%elem_of_nil].
  - by apply generated_path_ok.
  - assert (He : rt_match (decorate i a b c d (generatedRoute i h p m)) = rt_match (if a then addPredicate (generatedRoute i h p m) i else generatedRoute i h p m))
      by (by destruct a, b, c, d).
    rewrite He. intros q Hq. destruct a; [by apply (addPredicate_simple i (generatedRoute i h p m))|by apply elem_of_nil in Hq].
  - exists c, d, (format06 i). destruct (format06_numeric i Hi) as [? _]. split; [done|].
    unfold generatedRoute. by rewrite decorate_plugins.
  - unfold decorate, addPredicate. by destruct a, b, c, d; try destruct (_ =? _).
  - unfold decorate, addPredicate. by destruct a, b, c, d; try destruct (_ =? _).
Qed.

Section Codec.
Context (Unmarshal : string → option anyMap) (Marshal : anyMap → option string) (json_ok : json_reads Unmarshal Marshal).

Lemma bench_plugin a : a = requestIDPlugin ∨ (∃ digits, string_forallb is_digit digits = true ∧ a = headerRewritePlugin ("route-" +:+ digits)) →
  ∃ config, pluginConfig Unmarshal (pa_rawConfig a) = Some config ∧ number_free (AnyMap config) = true ∧
    plugin_view Unmarshal Marshal a = Some a ∧ pa_enabled a = true ∧ pa_name a ∈ ["request-id"; "header-rewrite"].
Proof.
  destruct json_ok as [[Hu Hm] Hh].
  assert (Hgo : ∀ config, Nat.ltb 0 (String.length (trim_space (pa_rawConfig a))) = true → Unmarshal (pa_rawConfig a) = Some config →
    Marshal config = Some (pa_rawConfig a) → pluginConfig Unmarshal (pa_rawConfig a) = Some config ∧ plugin_view Unmarshal Marshal a = Some a).
  { intros config Hl Hc He. unfold plugin_view, pluginConfig. rewrite Hl, Hc. cbn [mbind option_bind]. rewrite He. by destruct a. }
  intros [-> |(digits & Hd & ->)].
  - exists requestIDConfig. destruct (Hgo requestIDConfig) as [? ?]; [done..|]. split_and!; [done..|by left].
  - destruct (Hh digits Hd) as [Hc He]. exists (headerRewriteConfig ("route-" +:+ digits)).
    assert (Hl : Nat.ltb 0 (String.length (trim_space (pa_rawConfig (headerRewritePlugin ("route-" +:+ digits))))) = true).
    { apply Nat.ltb_lt. rewrite printable_trimmed; [simpl; lia|]. unfold headerRewritePlugin, json_object. cbn [pa_rawConfig fmap list_fmap join_byte].
      unfold quoted. repeat first [rewrite string_forallb_app|progress cbn [string_forallb]].
      rewrite (forallb_weaken is_digit _ digits) by (done || intros c Hdc; by apply digit_plain). done. }
    destruct (Hgo (headerRewriteConfig ("route-" +:+ digits)) Hl Hc He) as [? ?]. split_and!; [done..|by right; left].
Qed.

Lemma rendered_route_plugin r a : rendered_route r → a ∈ rt_plugins r →
  a = requestIDPlugin ∨ (∃ digits, string_forallb is_digit digits = true ∧ a = headerRewritePlugin ("route-" +:+ digits)).
Proof.
  intros Hr Ha. destruct (rr_plugins _ Hr) as (c & d & digits & Hd & Hp). rewrite Hp in Ha.
  apply elem_of_app in Ha as [Ha|Ha]; [destruct c|destruct d]; try (by apply elem_of_nil in Ha); apply list_elem_of_singleton in Ha as ->; [by left|right; by exists digits].
Qed.

Lemma mapM_self {A} (f : A → option A) (l : list A) : (∀ x, x ∈ l → f x = Some x) → mapM f l = Some l.
Proof.
  induction l as [|x l IH]; intros Hf; [done|]. simpl. rewrite Hf by (by left). cbn [mbind option_bind].
  by rewrite IH by (intros; apply Hf; by right).
Qed.

Lemma fmap_self {A} (f : A → A) (l : list A) : (∀ x, x ∈ l → f x = x) → f <$> l = l.
Proof. intros Hf. rewrite <-(list_fmap_id l) at 2. apply list_fmap_ext. intros i x Hx. apply Hf. by eapply list_elem_of_lookup_2. Qed.

Lemma route_view_self r : rendered_route r → route_view Unmarshal Marshal r = Some r.
Proof.
  intros Hr. unfold route_view. rewrite mapM_self.
  2:{ intros a Ha. by destruct (bench_plugin a (rendered_route_plugin r a Hr Ha)) as (? & _ & _ & ? & _). }
  cbn [mbind option_bind]. rewrite <-(rr_resilience _ Hr), <-(rr_webSocket _ Hr). unfold match_view.
  rewrite !fmap_self by (intros p Hp; apply (rr_predicates _ Hr); apply elem_of_app; tauto). destruct r as [? ? [] ? ? ? ? ?]. done.
Qed.

Lemma validatePredicates_all field index ps : (∀ p field, p ∈ ps → validatePredicate field p = Ok tt) → validatePredicates field index ps = Ok tt.
Proof.
  revert index. induction ps as [|p ps IH]; intros index Hp; [done|]. cbn [validatePredicates]. rewrite Hp by (by left). cbn [mbind result_bind].
  apply IH. intros q f Hq. apply Hp. by right.
Qed.

Lemma rendered_plugins_valid field r : rendered_route r → validatePluginAttachments field 0 (rt_plugins r) ∅ = Ok tt.
Proof. intros Hr. destruct (rr_plugins _ Hr) as (c & d & digits & _ & ->). by destruct c, d. Qed.

Lemma rendered_route_valid services upstreams k r : rendered_route r →
  (rt_serviceRef r = benchmarkService ∧ rt_upstreamRef r = "" ∧ serviceExists services benchmarkService = true ∨
   rt_serviceRef r = "" ∧ rt_upstreamRef r = benchmarkUpstream ∧ upstreamExists upstreams benchmarkUpstream = true) →
  validateRouteV2 services upstreams k r = Ok r.
Proof.
  intros Hr Ht. unfold validateRouteV2, validateRouteMatch. destruct (rr_path _ Hr) as [-> ->]. cbn [negb].
  destruct (rr_methods _ Hr) as (m & Hm & Htok & Hup). rewrite Hm. cbn [validateMethods]. rewrite Htok, Hup. cbn [negb mbind result_bind].
  rewrite bool_decide_eq_false_2 by set_solver. cbn [mbind result_bind].
  assert (Hself : set_match r (mkRouteMatch (match_hosts (rt_match r)) (match_path (rt_match r)) [m] (match_headers (rt_match r)) (match_queries (rt_match r))) = r)
    by (rewrite <-Hm; by destruct r as [? ? [] ? ? ? ? ?]).
  rewrite Hself. cbn [match_headers match_queries].
  assert (Hps : ∀ field, validatePredicates field 0 (match_headers (rt_match r)) = Ok tt ∧ validatePredicates field 0 (match_queries (rt_match r)) = Ok tt).
  { intros field. split; apply validatePredicates_all; intros p f Hp; apply (rr_predicates _ Hr); apply elem_of_app; tauto. }
  destruct Ht as [(-> & -> & Hs)|(-> & -> & Hu)].
  - rewrite Hs. cbn [negb String.eqb Bool.eqb andb]. change (String.eqb benchmarkService "") with false. cbn [Bool.eqb negb andb].
    by rewrite !(proj1 (Hps _)), !(proj2 (Hps _)), rendered_plugins_valid.
  - rewrite Hu. change (String.eqb benchmarkUpstream "") with false. cbn [String.eqb Bool.eqb negb andb].
    by rewrite !(proj1 (Hps _)), !(proj2 (Hps _)), rendered_plugins_valid.
Qed.

(** ** Neither rendering fails *)

Lemma renderEach_total {A B} (f : A → result renderError B) l : (∀ x, x ∈ l → is_ok (f x) = true) → ∃ l', renderEach f l = Ok l'.
Proof.
  induction l as [|x l IH]; intros Hf; [by exists []|]. cbn [renderEach]. specialize (Hf x ltac:(by left)) as Hx.
  destruct (f x) as [y|]; [|done]. destruct IH as [ys ->]; [intros; apply Hf; by right|]. by exists (y :: ys).
Qed.

Lemma gatewayPlugins_total failed r : rendered_route r → ∃ plugins, gatewayPlugins Unmarshal failed (rt_plugins r) = Ok plugins.
Proof.
  intros Hr. apply renderEach_total. intros a Ha.
  by destruct (bench_plugin a (rendered_route_plugin r a Hr Ha)) as (config & -> & _).
Qed.

Lemma apisixPlugins_total failed r : rendered_route r → ∃ plugins, apisixPlugins Unmarshal failed [] (rt_plugins r) = Ok plugins.
Proof.
  intros Hr. assert (Hgo : ∀ l rendered, (∀ a, a ∈ l → a ∈ rt_plugins r) → ∃ plugins, apisixPlugins Unmarshal failed rendered l = Ok plugins).
  { induction l as [|a l IH]; intros rendered Hl; [by eexists|]. cbn [apisixPlugins].
    destruct (bench_plugin a (rendered_route_plugin r a Hr (Hl a ltac:(by left)))) as (config & Hc & _ & _ & He & Hn).
    assert (Hok : ∃ rendered', apisixPlugin Unmarshal failed rendered a = Ok rendered').
    { unfold apisixPlugin. rewrite He, Hc. cbn [negb]. apply elem_of_cons in Hn as [-> |Hn]; [by eexists|]. apply list_elem_of_singleton in Hn as ->.
      by eexists. }
    destruct Hok as [rendered' ->]. apply IH. intros b Hb. apply Hl. by right. }
  by apply Hgo.
Qed.

Context (isLetterOrDigit : string → bool).

(** What the APISIX route of a route has in common with it. *)
Record same_route (r : Route) (a : apisixRoute) : Prop := {
  sr_id : ar_id a = rt_id r;
  sr_uri : ar_uri a = apisixPath (match_path (rt_match r));
  sr_methods : ar_methods a = match_methods (rt_match r);
  sr_hosts : (if String.eqb (ar_host a) "" then ar_hosts a else [ar_host a]) = match_hosts (rt_match r);
  sr_target : ar_serviceID a = rt_serviceRef r ∧ ar_upstreamID a = rt_upstreamRef r;
  sr_vars : length (ar_vars a) = length (match_headers (rt_match r) ++ match_queries (rt_match r));
}.

Lemma renderEach_length {A B} (f : A → result renderError B) l l' : renderEach f l = Ok l' → length l' = length l.
Proof. revert l'. induction l as [|x l IH]; intros l' Hl; simpl in Hl; inv_ok; [done|]. simpl. by erewrite IH. Qed.

Lemma apisix_route_total r : rendered_route r →
  ∃ a, renderApisixRoute Unmarshal isLetterOrDigit r = Ok a ∧ same_route r a.
Proof.
  intros Hr. pose proof (rr_hosts _ Hr) as Hne. unfold renderApisixRoute. destruct (apisixPlugins_total (RoutePluginFailed (rt_id r)) r Hr) as [plugins ->]. cbn [mbind result_bind].
  assert (Hp : ∃ vars, apisixPredicates isLetterOrDigit (match_headers (rt_match r)) (match_queries (rt_match r)) = Ok vars ∧
    length vars = length (match_headers (rt_match r) ++ match_queries (rt_match r))).
  { unfold apisixPredicates.
    destruct (renderEach_total (fun p => apisixPredicate ("http_" +:+ apisixVariableName isLetterOrDigit (pred_name p)) p) (match_headers (rt_match r))) as [h Hh].
    { intros p Hp. apply (rr_predicates _ Hr). apply elem_of_app. by left. }
    destruct (renderEach_total (fun p => apisixPredicate ("arg_" +:+ apisixVariableName isLetterOrDigit (pred_name p)) p) (match_queries (rt_match r))) as [q Hq].
    { intros p Hp. apply (rr_predicates _ Hr). apply elem_of_app. by right. }
    rewrite Hh, Hq. exists (h ++ q). split; [done|]. rewrite !length_app. by rewrite (renderEach_length _ _ _ Hh), (renderEach_length _ _ _ Hq). }
  destruct Hp as (vars & -> & Hlen). cbn [mbind result_bind].
  destruct (match_hosts (rt_match r)) as [|host [|host' hosts]] eqn:Hhosts; eexists; (split; [reflexivity|]); constructor; cbn; try done; rewrite ?Hhosts; try done.
  destruct (String.eqb_spec host "") as [-> |]; [|done]. destruct Hne. by left.
Qed.

(** ** Whole datasets *)

Lemma validateIDs_complete kind field ids : ∀ index seen, Forall id_ok ids → NoDup ids → (∀ id, id ∈ ids → id ∉ seen) →
  validateIDs kind field index ids seen = Ok tt.
Proof.
  induction ids as [|id ids IH]; intros index seen Hok Hnd Hs; [done|]. apply Forall_cons in Hok as [[Hne Ht] Hok].
  apply NoDup_cons in Hnd as [Hni Hnd]. cbn [validateIDs]. rewrite Ht. destruct (String.eqb_spec id "") as [|_]; [done|].
  rewrite bool_decide_eq_false_2 by (apply Hs; by left). apply IH; [done..|]. intros id' Hin Hu.
  apply elem_of_union in Hu as [->%elem_of_singleton|Hu]; [done|]. by apply (Hs id'); [right|].
Qed.

Lemma wf_ids_valid rs : resources_wf rs → config_validateResourceIDs rs = Ok tt.
Proof.
  intros Hwf. destruct (rw_route_ids _ Hwf), (rw_service_ids _ Hwf), (rw_upstream_ids _ Hwf). unfold config_validateResourceIDs.
  by rewrite !validateIDs_complete by (done || (intros ? _; apply not_elem_of_empty)).
Qed.

(** What the renderer knows of a dataset. *)
Record dataset_resources (endpoint : string) (rs : ResourceSet) : Prop := {
  dr_wf : resources_wf rs;
  dr_routes : ∀ r, r ∈ rs_routes rs → rendered_route r ∧
    (rt_serviceRef r = benchmarkService ∧ rt_upstreamRef r = "" ∨ rt_serviceRef r = "" ∧ rt_upstreamRef r = benchmarkUpstream);
  dr_upstreams : rs_upstreams rs = [baseUpstream endpoint];
  dr_services : rs_services rs = [] ∨ rs_services rs = [benchService];
  dr_material : rs_certificates rs = [] ∧ rs_downstreamTLS rs = None ∧ rs_trustBundles rs = [];
  dr_endpoint : ∃ parsed, url_Parse endpoint = Some parsed ∧ u_scheme parsed = "http" ∧ u_host parsed ≠ "";
}.

Lemma validated_endpoint options : validateOptions options = Ok tt →
  ∃ parsed, url_Parse (op_endpoint options) = Some parsed ∧ u_scheme parsed = "http" ∧ u_host parsed ≠ "".
Proof.
  unfold validateOptions. intros Hv. destruct (_ <=? 0); [done|]. destruct (_ && _); [done|]. destruct (url_Parse _) as [parsed|]; [|done].
  exists parsed. destruct (String.eqb_spec (u_scheme parsed) "http"); [|discriminate Hv].
  destruct (String.eqb_spec (u_host parsed) ""); [discriminate Hv|done].
Qed.

Lemma generated_dataset `{Rand} options : validateOptions options = Ok tt → op_routeCount options ≤ 10 ^ 17 →
  dataset_resources (op_endpoint options) (datasetResources options).
Proof.
  intros Hv Hn. destruct (datasetResources_ok options Hv Hn) as [(_ & Hb & _) Hwf].
  constructor; [done| | | | |by apply validated_endpoint].
  - intros r Hr. destruct (Hb r Hr) as [name Hname]. split; [|apply (br_target _ _ Hname)].
    unfold datasetResources in Hr. destruct (Z.eqb_spec (op_routeCount options) 1) as [H1|H1].
    + apply list_elem_of_singleton in Hr as ->. by apply sentinel_rendered, baseline_position.
    + unfold standardResources in Hr. cbn [set_routes rs_routes] in Hr. rewrite Shuffle_perm in Hr.
      apply list_elem_of_fmap in Hr as (i & -> & Hi%elem_of_seqZ).
      destruct (sentinelPositions _ !! i) as [position|] eqn:Hs; [|apply generated_rendered; lia].
      destruct (validateOptions_count _ Hv) as [|Hn5]; [done|]. apply (sentinel_rendered position). by eapply (sentinel_names options).
  - unfold datasetResources. by destruct (_ =? _).
  - unfold datasetResources. destruct (_ =? _); [by left|]. unfold standardResources. cbn. destruct (0 <? _); [by right|by left].
  - unfold datasetResources. by destruct (_ =? _).
Qed.

(** Both forms of the upstream are normalized alike. *)
Lemma view_normalizes endpoint : Normalize [upstream_view (baseUpstream endpoint)] = Normalize [baseUpstream endpoint].
Proof.
  unfold Normalize. cbn [zlen length]. cbn [normalizeUpstreams]. unfold normalizeUpstream.
  change (up_endpoints (upstream_view (baseUpstream endpoint))) with (up_endpoints (baseUpstream endpoint)).
  change (up_id (upstream_view (baseUpstream endpoint))) with (up_id (baseUpstream endpoint)).
  destruct (scanEndpoints _ _ _ _ _) as [[configs scan]|e]; [|done]. cbn [mbind result_bind]. by destruct (es_active scan =? 0).
Qed.

Lemma normalized_single (u : Upstream) us : Normalize [u] = Ok us → ∃ u', us = [u'] ∧ up_id u' = up_id u.
Proof.
  intros Hn. destruct (Normalize_each _ _ Hn) as [Hid _]. destruct us as [|u' [|]]; [done| |done]. exists u'. by injection Hid as ->.
Qed.

Lemma dataset_service endpoint rs s : dataset_resources endpoint rs → s ∈ rs_services rs → s = benchService.
Proof.
  intros Hd Hs. destruct (dr_services _ _ Hd) as [He|He]; rewrite He in Hs; [by apply elem_of_nil in Hs|by apply list_elem_of_singleton in Hs].
Qed.

(** [gateway/v1alpha2] expresses everything of a dataset but the upstream's
    defaults. *)
Lemma dataset_view endpoint rs : dataset_resources endpoint rs →
  resources_view Unmarshal Marshal rs = Some (Config.set_upstreams rs (upstream_view <$> rs_upstreams rs)).
Proof.
  intros Hd. destruct (dr_material _ _ Hd) as (Hc & Ht & Hk). unfold resources_view, Config.set_upstreams. rewrite Hc, Ht, Hk.
  rewrite (mapM_self (route_view Unmarshal Marshal)) by (intros r Hr; by apply route_view_self, (dr_routes _ _ Hd)). cbn [mbind option_bind].
  by rewrite (mapM_self (service_view Unmarshal Marshal)) by (intros s Hs; by rewrite (dataset_service _ _ _ Hd Hs)).
Qed.

Lemma dataset_upstreams_valid endpoint rs u : dataset_resources endpoint rs → Normalize [baseUpstream endpoint] = Ok [u] →
  validateLegacyUpstreamSchemes 0 [upstream_view (baseUpstream endpoint)] = Ok tt ∧
  convertEach config_validateUpstream 0 [upstream_view (baseUpstream endpoint)] = Ok [u].
Proof.
  intros Hd Hn. destruct (dr_endpoint _ _ Hd) as (parsed & Hparse & Hscheme & _). split.
  - cbn [validateLegacyUpstreamSchemes upstream_view baseUpstream up_endpoints fmap list_fmap validateSchemes]. unfold legacyScheme. cbn [ep_url].
    by rewrite Hparse, Hscheme.
  - cbn [convertEach]. unfold config_validateUpstream. cbn [upstream_view baseUpstream up_endpoints fmap list_fmap ep_weight].
    change (mkUpstream _ _ _ _ noHealth legacyRetry) with (upstream_view (baseUpstream endpoint)). by rewrite view_normalizes, Hn.
Qed.

Lemma dataset_references endpoint rs u : dataset_resources endpoint rs → up_id u = benchmarkUpstream →
  validateReferences (Config.set_upstreams rs (upstream_view <$> rs_upstreams rs)) [u] = Ok (Config.set_upstreams rs [u]).
Proof.
  intros Hd Hu. unfold validateReferences. cbn [Config.set_upstreams rs_routes rs_services].
  assert (He : upstreamExists [u] benchmarkUpstream = true) by (unfold upstreamExists; cbn [existsb]; by rewrite Hu).
  rewrite (convertEach_pure _ (fun s => s)), list_fmap_id.
  2:{ intros k s Hs. rewrite (dataset_service _ _ _ Hd Hs). unfold config_validateService. cbn [benchService sv_upstreamRef sv_plugins]. by rewrite He. }
  cbn [mbind result_bind]. rewrite (convertEach_pure _ (fun r => r)), list_fmap_id; [done|].
  intros k r Hr. destruct (dr_routes _ _ Hd r Hr) as [Hrr [[Hs Hu']|[Hs Hu']]]; (apply rendered_route_valid; [exact Hrr|]); [left|by right].
  split_and!; [done..|]. destruct (rw_routes _ (dr_wf _ _ Hd) r Hr) as [(so & uo & Hres) _].
  destruct (dr_services _ _ Hd) as [Hsn|Hsn]; [|by rewrite Hsn]. exfalso. inversion Hres; subst; [|congruence].
  rewrite Hsn in *. by eapply elem_of_nil.
Qed.

(** The validation of a configuration rendered from a dataset. *)
Lemma dataset_validates ResolveTCPAddr open endpoint rs b upstreams : dataset_resources endpoint rs →
  validateBootstrap ResolveTCPAddr open b = Ok tt → Normalize (rs_upstreams rs) = Ok upstreams →
  validateV2 ResolveTCPAddr open apiVersionV1Alpha2 b (Config.set_upstreams rs (upstream_view <$> rs_upstreams rs)) = Ok (Config.set_upstreams rs upstreams).
Proof.
  intros Hd Hb Hn. rewrite (dr_upstreams _ _ Hd) in Hn. destruct (normalized_single _ _ Hn) as (u & -> & Hu).
  destruct (dataset_upstreams_valid endpoint rs u Hd Hn) as [Hleg Hup]. pose proof (dataset_references endpoint rs u Hd Hu) as Href.
  assert (Hids : config_validateResourceIDs (Config.set_upstreams rs (upstream_view <$> rs_upstreams rs)) = Ok tt).
  { rewrite <-(wf_ids_valid rs (dr_wf _ _ Hd)). unfold config_validateResourceIDs, Config.set_upstreams. cbn [rs_routes rs_services rs_upstreams].
    by rewrite (dr_upstreams _ _ Hd). }
  assert (Hne : notEmpty "routes" (rs_routes rs) = Ok tt) by (pose proof (rw_nonempty _ (dr_wf _ _ Hd)); by destruct (rs_routes rs)).
  rewrite (dr_upstreams _ _ Hd) in *. unfold validateV2. change (checkVersion apiVersionV1Alpha2 apiVersionV1Alpha2) with (Ok tt : result configError unit).
  cbn [mbind result_bind]. rewrite Hb. cbn [mbind result_bind]. rewrite Hids.
  cbn [mbind result_bind]. cbn [Config.set_upstreams rs_routes rs_upstreams] in Href |- *. change (upstream_view <$> [baseUpstream endpoint]) with [upstream_view (baseUpstream endpoint)] in *.
  rewrite Hleg. cbn [mbind result_bind]. rewrite Hne. cbn [mbind result_bind notEmpty]. rewrite Hup. exact Href.
Qed.

Lemma dataset_number_free endpoint rs : dataset_resources endpoint rs → options_number_free Unmarshal rs.
Proof.
  intros Hd a config Ha Hc. apply elem_of_app in Ha as [(r & Ha & Hr)%list_elem_of_bind|(s & Ha & Hs)%list_elem_of_bind].
  - destruct (bench_plugin a) as (config' & Hc' & Hf & _); [eapply rendered_route_plugin; [by apply (dr_routes _ _ Hd)|done]|]. congruence.
  - rewrite (dataset_service _ _ _ Hd Hs) in Ha. by apply elem_of_nil in Ha.
Qed.

Lemma dataset_document endpoint rs options : dataset_resources endpoint rs → ∃ d, gatewayDocumentOf Unmarshal rs options = Ok d.
Proof.
  intros Hd. unfold gatewayDocumentOf.
  destruct (renderEach_total (renderRoute Unmarshal) (rs_routes rs)) as [routes ->].
  { intros r Hr. unfold renderRoute. by destruct (gatewayPlugins_total (RoutePluginFailed (rt_id r)) r) as [plugins ->]; [apply (dr_routes _ _ Hd)|]. }
  destruct (renderEach_total (renderService Unmarshal) (rs_services rs)) as [services ->].
  { intros s Hs. by rewrite (dataset_service _ _ _ Hd Hs). }
  by eexists.
Qed.

Lemma dataset_apisix endpoint rs : dataset_resources endpoint rs →
  ∃ d, apisixDocumentOf Unmarshal isLetterOrDigit rs = Ok d ∧ Forall2 same_route (rs_routes rs) (ad_routes d) ∧
    ∃ host, au_nodes <$> ad_upstreams d = [{[host := 1]}].
Proof.
  intros Hd. unfold apisixDocumentOf.
  assert (Hr : ∃ routes, renderEach (renderApisixRoute Unmarshal isLetterOrDigit) (rs_routes rs) = Ok routes ∧ Forall2 same_route (rs_routes rs) routes).
  { assert (Hall : ∀ r, r ∈ rs_routes rs → rendered_route r) by (intros r Hr; by apply (dr_routes _ _ Hd)).
    induction (rs_routes rs) as [|r l IH]; [by exists []|]. cbn [renderEach].
    destruct (apisix_route_total r) as (a & -> & Ha); [apply Hall; by left|]. destruct IH as (as_ & -> & Has); [intros; apply Hall; by right|].
    exists (a :: as_). split; [done|by constructor]. }
  destruct Hr as (routes & -> & Hsame). cbn [mbind result_bind].
  destruct (renderEach_total (renderApisixService Unmarshal) (rs_services rs)) as [services ->].
  { intros s Hs. by rewrite (dataset_service _ _ _ Hd Hs). }
  cbn [mbind result_bind]. destruct (dr_endpoint _ _ Hd) as (parsed & Hp & _ & Hh%String.eqb_neq). rewrite (dr_upstreams _ _ Hd).
  cbn [renderEach]. unfold renderApisixUpstream. cbn [baseUpstream up_endpoints apisixNodes ep_url ep_weight]. rewrite Hp, Hh. cbn [mbind result_bind].
  eexists. split; [reflexivity|]. split; [done|]. by exists (u_host parsed).
Qed.
End Codec.
End Dataset.

(** ** Generating, rendering and loading *)

Section Loaded.
Context `{Unicode} `{Rand} (marshal : ResourceSet → option string) (sha256hex : string → string).
Context (yaml : decoders anyMap) (yaml_Marshal : gatewayDocument → option string).
Context (Unmarshal : string → option anyMap) (Marshal : anyMap → option string) (isLetterOrDigit : string → bool).
Context (ResolveTCPAddr : string → option tcpAddr) (open : string → option file).
Context (sha256 : string → string) (ParseCertificate : string → option Leaf).
Context (pem_Decode : string → option (string * string * string)).
Context (X509KeyPair : string → string → option tlsCertificate).
Context (iterate : gmap string Leaf → list string).

#[local] Notation decode := (Decode yaml Marshal ResolveTCPAddr open sha256 ParseCertificate pem_Decode X509KeyPair iterate).

Lemma digits_printable n : 0 ≤ n → string_forallb (fun c => byte_between " " "~" c) (pretty n) = true.
Proof.
  intros Hn. apply (forallb_weaken is_digit); [|by apply pretty_digits]. intros c. destruct c as [[] [] [] [] [] [] [] []]; by vm_compute.
Qed.

Lemma generated_metadata options resources metadata : Generate marshal sha256hex options = Ok (resources, metadata) →
  md_schemaVersion metadata = 1 ∧ 0 ≤ md_routeCount metadata ∧ ∃ encoded, md_checksum metadata = sha256hex encoded.
Proof.
  intros Hg. destruct (Generate_resources _ _ _ _ _ Hg) as (Hv & _ & Hc). unfold resourceChecksum in Hc.
  destruct (marshal _) as [encoded|]; [|done]. injection Hc as Hc. unfold Generate, generateBaseline in Hg. rewrite Hv in Hg. cbn [mbind result_bind] in Hg.
  destruct (Z.eqb_spec (op_routeCount options) 1).
  - destruct (resourceChecksum _ _ _); [|done]. injection Hg as _ <-. split_and!; [done..|by exists encoded].
  - destruct (validateOptions_count _ Hv); [done|]. destruct (resourceChecksum _ _ _); [|done]. injection Hg as _ <-.
    split_and!; [done|cbn; lia|by exists encoded].
Qed.

End Loaded.

(** ** A concrete dataset *)

#[local] Instance render_unicode : Unicode := ascii_only_unicode.

(** The JSON text around the identifier of a route. *)
Definition rewrite_before : string :=
  "{" +:+ quoted "request" +:+ ":{" +:+ quoted "set" +:+ ":{" +:+ quoted "X-Bench-Route" +:+ ":" +:+ String quote "".
Definition rewrite_after : string :=
  String quote "}},"  +:+ quoted "response" +:+ ":{" +:+ quoted "set" +:+ ":{" +:+ quoted "X-Bench-Gateway" +:+ ":" +:+ quoted "g-gateway" +:+ "}}}".

Lemma rewrite_text id : pa_rawConfig (headerRewritePlugin id) = rewrite_before +:+ id +:+ rewrite_after.
Proof. unfold rewrite_before, rewrite_after, quoted. cbn. by repeat (rewrite string_app_assoc; cbn). Qed.

Definition demo_Unmarshal (raw : string) : option anyMap :=
  if String.eqb raw (pa_rawConfig requestIDPlugin) then Some requestIDConfig
  else Some (headerRewriteConfig (slice raw (String.length rewrite_before) (String.length raw - String.length rewrite_after))).

Definition demo_Marshal (config : anyMap) : option string :=
  match config with
  | [(_, AnyMap [(_, AnyMap [(_, AnyString id)])]); _] => Some (pa_rawConfig (headerRewritePlugin id))
  | _ => Some (pa_rawConfig requestIDPlugin)
  end.

Lemma demo_json : json_reads demo_Unmarshal demo_Marshal.
Proof.
  split; [done|]. intros digits _. cbv zeta. split; [|done]. unfold demo_Unmarshal. rewrite rewrite_text.
  destruct (String.eqb_spec (rewrite_before +:+ ("route-" +:+ digits) +:+ rewrite_after) (pa_rawConfig requestIDPlugin)) as [He|_]; [discriminate He|].
  by rewrite slice_between.
Qed.

Definition demo_renderOptions : GatewayRenderOptions := mkRenderOptions "" "" "" "" "".

Definition demo_addresses (raw : string) : option tcpAddr :=
  if String.eqb raw ":8080" then Some (mkTCPAddr None false 8080)
  else if String.eqb raw ":8443" then Some (mkTCPAddr None false 8443)
  else Some (mkTCPAddr None false 9090).

(** Ten routes, one of each plugin among them. *)
Definition demo_resources : ResourceSet := @datasetResources halving_rand (demo_options 10).

Definition demo_rendered : option gatewayDocument :=
  match gatewayDocumentOf demo_Unmarshal demo_resources demo_renderOptions with Ok d => Some d | Err _ => None end.

(** A decoder that knows one document. *)
Definition demo_reader : decoders anyMap :=
  mkDecoders anyMap (fun _ => Some "gateway/v1alpha2") (fun _ => None) (fun _ => document_read <$> demo_rendered) (fun _ => None) (fun _ => None)
    (fun _ => None) (fun _ => None) (fun _ => None).

