(* ===== verification/TestUpstream.v ===== *)
(** * The test upstream ([internal/testupstream/server.go])

    The server behind the gateway in its own tests: endpoints of fixed size,
    status and delay, counters of what it has seen, and a WebSocket endpoint
    that echoes frames. Bytes are integers below 256. The request multiplexer,
    the encoding of JSON answers and the socket belong to the standard library;
    whether a timer or a cancellation comes first is the environment's choice. *)

From S2P Require Import Prelude GoStrings Trim NetAddr Decimal HttpHeader WebSocket Duration UpstreamConfig DatasetCorrect.
#[local] Open Scope string_scope.
#[local] Open Scope Z_scope.
#[local] Open Scope list_scope.

(** ** Frames *)

Definition maxFixedBodyBytes : Z := 64 * 1024.
Definition maxWebSocketFrameBytes : Z := Z.shiftl 1 20.

Inductive frameError := FrameIO | FrameNotMasked | FrameTooLarge.

Record frame := mkFrame { fr_fin : bool; fr_opcode : Z; fr_payload : list Z }.

(** [io.ReadFull]: the bytes and the rest of the stream. *)
Definition readFull (n : nat) (input : list Z) : result frameError (list Z * list Z) :=
  if Nat.ltb (length input) n then Err FrameIO else Ok (take n input, drop n input).

(** [binary.BigEndian] *)
Definition bigEndian (bytes : list Z) : Z := foldl (fun value byte => Z.lor (Z.shiftl value 8) byte) 0 bytes.

Fixpoint putBigEndian (size : nat) (value : Z) : list Z :=
  match size with
  | O => []
  | S size => Z.land (Z.shiftr value (8 * Z.of_nat size)) 255 :: putBigEndian size value
  end.

(** The loop that removes the mask. *)
Definition unmask (mask payload : list Z) : list Z :=
  imap (fun index byte => Z.lxor byte (default 0 (mask !! (index mod length mask)%nat))) payload.

Definition readLength (short : Z) (input : list Z) : result frameError (Z * list Z) :=
  if short =? 126 then '(encoded, input) ← readFull 2 input; Ok (bigEndian encoded, input)
  else if short =? 127 then '(encoded, input) ← readFull 8 input; Ok (bigEndian encoded, input)
  else Ok (short, input).

Definition readMaskedWebSocketFrame (input : list Z) : result frameError (frame * list Z) :=
  '(prefix, input) ← readFull 2 input;
  let first := default 0 (prefix !! 0%nat) in
  let second := default 0 (prefix !! 1%nat) in
  if Z.land second 128 =? 0 then Err FrameNotMasked
  else
    '(size, input) ← readLength (Z.land second 127) input;
    if maxWebSocketFrameBytes <? size then Err FrameTooLarge
    else
      '(mask, input) ← readFull 4 input;
      '(payload, input) ← readFull (Z.to_nat size) input;
      Ok (mkFrame (negb (Z.land first 128 =? 0)) (Z.land first 15) (unmask mask payload), input).

(** The bytes written for a frame. *)
Definition writeUnmaskedWebSocketFrame (f : frame) : list Z :=
  let first := Z.land (fr_opcode f) 15 in
  let first := if fr_fin f then Z.lor first 128 else first in
  let size := Z.of_nat (length (fr_payload f)) in
  [first]
  ++ (if size <? 126 then [Z.land size 255]
      else if size <=? 65535 then 126 :: putBigEndian 2 (Z.land size 65535)
      else 127 :: putBigEndian 8 size)
  ++ fr_payload f.

(** The loop of the echo endpoint. A write or flush that fails ends it like a
    read that fails; [accepted] is how many frames the client takes. Every frame
    has at least two bytes, so the length of the input is fuel enough. *)
Fixpoint echoLoop (fuel accepted : nat) (input : list Z) : list Z :=
  match fuel with
  | O => []
  | S fuel =>
    match readMaskedWebSocketFrame input with
    | Err _ => []
    | Ok (f, input) =>
      match accepted with
      | O => []
      | S accepted =>
        writeUnmaskedWebSocketFrame f ++ (if fr_opcode f =? 8 then [] else echoLoop fuel accepted input)
      end
    end
  end.

(** ** The handshake of the echo endpoint *)

Section Echo.
Context `{Unicode} (sha1 : string → string).

(** The fields of the response as they stand in the map: the extensions are
    stored under a key that is not canonical. *)
Definition echoFields (handshake : RequestHandshake) : list (string * list string) :=
  [(canonical_header_key "Connection", ["Upgrade"]); (canonical_header_key "Upgrade", ["websocket"]);
   (canonical_header_key "Sec-WebSocket-Accept", [accept sha1 (rh_key handshake)])]
  ++ match rh_protocols handshake with
     | protocol :: _ => [(canonical_header_key "Sec-WebSocket-Protocol", [protocol])]
     | [] => []
     end
  ++ match rh_extensions handshake with
     | [] => []
     | extensions => [("Sec-WebSocket-Extensions", extensions)]
     end.

(** What the other side reads: [textproto] brings keys into canonical form. *)
Definition receivedHeader (fields : list (string * list string)) : Header :=
  list_to_map ((fun field => (canonical_header_key field.1, field.2)) <$> fields).

Inductive echoAnswer :=
| EchoRefused (status : Z) (body : string)
| EchoSwitched (fields : list (string * list string)) (output : list Z).

(** [hijacked] and [flushed]: whether hijacking and writing the response work. *)
Definition serveWebSocketEcho (q : wsRequest) (hijacked flushed : bool) (accepted : nat) (input : list Z) : echoAnswer :=
  match ValidateRequest q with
  | Err _ => EchoRefused 400 "invalid websocket handshake"
  | Ok handshake =>
    if negb hijacked then EchoRefused 500 "hijack unavailable"
    else EchoSwitched (echoFields handshake) (if flushed then echoLoop (length input) accepted input else [])
  end.
End Echo.

(** ** The other endpoints *)

(** The counters of the server. *)
Record server := mkTestServer { ts_requests : Z; ts_cancellations : Z; ts_connections : gset string }.

Definition newServer : server := mkTestServer 0 0 ∅.

Record answer := mkAnswer { an_status : Z; an_headers : list (string * string); an_body : string }.

(** [http.Error] *)
Definition http_Error (message : string) (status : Z) : answer :=
  mkAnswer status [("Content-Type", "text/plain; charset=utf-8"); ("X-Content-Type-Options", "nosniff")]
    (message +:+ String (ascii_of_nat 10) "").

Fixpoint repeatByte (c : ascii) (n : nat) : string := match n with O => "" | S n => String c (repeatByte c n) end.

Definition fixed (bytes : string) : answer :=
  match atoi bytes with
  | Some size =>
    if (size <? 0) || (maxFixedBodyBytes <? size) then http_Error "invalid fixed body size" 400
    else mkAnswer 200 [("Content-Type", "application/octet-stream"); ("Content-Length", pretty size)] (repeatByte "x" (Z.to_nat size))
  | None => http_Error "invalid fixed body size" 400
  end.

Definition status (code : string) : answer :=
  match atoi code with
  | Some code => if (code <? 100) || (599 <? code) then http_Error "invalid status code" 400 else mkAnswer code [] ""
  | None => http_Error "invalid status code" 400
  end.

Definition boundedDelay (raw : string) : option Z :=
  match ParseDuration raw with
  | Some duration => if (duration <? 0) || (30 * Second <? duration) then None else Some duration
  | None => None
  end.

Definition cancelled (s : server) : server := mkTestServer (ts_requests s) (ts_cancellations s + 1) (ts_connections s).

(** [delay] and [headerDelay]; [expired] tells that the timer came first. *)
Definition delay (raw : string) (expired : bool) (s : server) : server * option answer :=
  match boundedDelay raw with
  | None => (s, Some (http_Error "invalid delay" 400))
  | Some _ => if expired then (s, Some (mkAnswer 204 [] "")) else (cancelled s, None)
  end.

(** [streamDelay]; the first line is already flushed when the wait begins. *)
Definition streamDelay (raw : string) (flushed expired : bool) (s : server) : server * answer :=
  let line text := text +:+ String (ascii_of_nat 10) "" in
  let text := mkAnswer 200 [("Content-Type", "text/plain; charset=utf-8")] in
  match boundedDelay raw with
  | None => (s, http_Error "invalid delay" 400)
  | Some _ =>
    if negb flushed then (s, text (line "first"))
    else if expired then (s, text (line "first" +:+ line "second"))
    else (cancelled s, text (line "first"))
  end.

(** [ServeHTTP] before the request goes to its endpoint. *)
Definition countRequest (path remoteAddr : string) (s : server) : server :=
  if has_prefix path "/debug/" then s
  else mkTestServer (ts_requests s + 1) (ts_cancellations s)
         (if String.eqb remoteAddr "" then ts_connections s else {[remoteAddr]} ∪ ts_connections s).

Definition debugState (s : server) : Z * Z * Z := (ts_requests s, Z.of_nat (size (ts_connections s)), ts_cancellations s).

Definition reset (_ : server) : server := newServer.

(** ** Clients ([RFC 6455], section 5.2)

    The frames a client sends, and how it reads those of a server. *)

Definition frame_ok (f : frame) : Prop :=
  0 ≤ fr_opcode f < 16 ∧ Forall (fun b => 0 ≤ b < 256) (fr_payload f) ∧ Z.of_nat (length (fr_payload f)) ≤ maxWebSocketFrameBytes.

Definition mask_ok (mask : list Z) : Prop := length mask = 4%nat.

Definition client_frame (f : frame) (mask : list Z) : list Z :=
  let size := Z.of_nat (length (fr_payload f)) in
  [Z.lor (fr_opcode f) (if fr_fin f then 128 else 0)]
  ++ (if size <? 126 then [Z.lor size 128]
      else if size <=? 65535 then Z.lor 126 128 :: putBigEndian 2 size
      else Z.lor 127 128 :: putBigEndian 8 size)
  ++ mask ++ unmask mask (fr_payload f).

(** A server's frame, if the input starts with one. *)
Definition client_read (input : list Z) : option (frame * list Z) :=
  match input with
  | first :: second :: input =>
    if second <? 128 then
      match readLength second input with
      | Ok (size, input) =>
        if Nat.ltb (length input) (Z.to_nat size) then None
        else Some (mkFrame (negb (Z.land first 128 =? 0)) (Z.land first 15) (take (Z.to_nat size) input), drop (Z.to_nat size) input)
      | Err _ => None
      end
    else None
  | _ => None
  end.

Fixpoint client_reads (fuel : nat) (input : list Z) : list frame :=
  match fuel with
  | O => []
  | S fuel => match client_read input with None => [] | Some (f, input) => f :: client_reads fuel input end
  end.

(** The frames up to the first close frame, which is included. *)
Fixpoint until_close (frames : list frame) : list frame :=
  match frames with
  | [] => []
  | f :: frames => f :: (if fr_opcode f =? 8 then [] else until_close frames)
  end.

(** ** Byte arithmetic *)

(** A byte that carries a flag above [n] bits. *)
Lemma flagged x n m : 0 ≤ n → 0 ≤ m ≤ n → 0 ≤ x < 2 ^ m → ∀ flag : bool,
  let byte := if flag then Z.lor x (2 ^ n) else x in
  Z.land byte (2 ^ n) = (if flag then 2 ^ n else 0) ∧ Z.land byte (Z.ones m) = x.
Proof.
  intros Hn Hm Hx flag. assert (Hhigh : ∀ k, m ≤ k → Z.testbit x k = false).
  { intros k Hk. destruct (Z.eq_dec x 0) as [-> |]; [apply Z.bits_0|]. apply Z.bits_above_log2; [lia|].
    apply Z.log2_lt_pow2; [lia|]. apply Z.lt_le_trans with (2 ^ m); [lia|]. by apply Z.pow_le_mono_r. }
  assert (Hlow : ∀ k, 0 ≤ k → Z.testbit x k = Z.testbit x k && (k <? m)).
  { intros k Hk. destruct (Z.ltb_spec k m); [by rewrite andb_true_r|]. by rewrite Hhigh, andb_false_r. }
  cbv zeta. split; apply Z.bits_inj'; intros k Hk; rewrite Z.land_spec.
  - rewrite Z.pow2_bits_eqb by lia. destruct flag; rewrite ?Z.lor_spec, ?Z.pow2_bits_eqb, ?Z.bits_0 by lia; destruct (Z.eqb_spec n k) as [<-|];
      rewrite ?andb_true_r, ?andb_false_r, ?orb_true_r; try done; apply Hhigh; lia.
  - rewrite Z.testbit_ones_nonneg by lia. destruct flag; rewrite ?Z.lor_spec, ?Z.pow2_bits_eqb by lia; [|by rewrite <-Hlow].
    destruct (Z.ltb_spec k m) as [Hlt|Hge]; rewrite ?andb_false_r, ?andb_true_r; [|by rewrite Hhigh].
    destruct (Z.eqb_spec n k); [lia|]. by rewrite orb_false_r.
Qed.

Lemma shift_in value byte : 0 ≤ byte < 256 → Z.lor (Z.shiftl value 8) byte = value * 256 + byte.
Proof.
  intros Hb. assert (Hd : Z.land (Z.shiftl value 8) byte = 0).
  { apply Z.bits_inj'. intros k Hk. rewrite Z.land_spec, Z.bits_0. destruct (Z.lt_ge_cases k 8) as [Hlt|Hge]; [by rewrite Z.shiftl_spec_low|].
    destruct (Z.eq_dec byte 0) as [-> |]; [by rewrite Z.bits_0, andb_false_r|].
    rewrite (Z.bits_above_log2 byte), andb_false_r; [done|lia|]. apply Z.log2_lt_pow2; [lia|]. apply Z.lt_le_trans with (2 ^ 8); [lia|]. by apply Z.pow_le_mono_r. }
  rewrite <-Z.lxor_lor, <-Z.add_nocarry_lxor by done. rewrite Z.shiftl_mul_pow2 by lia. done.
Qed.

Lemma bigEndian_read size value acc : 0 ≤ value →
  foldl (fun value byte => Z.lor (Z.shiftl value 8) byte) acc (putBigEndian size value)
  = acc * 256 ^ Z.of_nat size + value mod 256 ^ Z.of_nat size.
Proof.
  intros Hv. revert acc. induction size as [|size IH]; intros acc; [simpl; rewrite Z.mod_1_r; lia|].
  cbn [putBigEndian foldl]. change 255 with (Z.ones 8). rewrite Z.land_ones by lia.
  pose proof (Z.mod_pos_bound (Z.shiftr value (8 * Z.of_nat size)) (2 ^ 8) ltac:(lia)) as Hb.
  rewrite shift_in by (change (2 ^ 8) with 256 in Hb; done). rewrite IH, Z.shiftr_div_pow2 by lia. rewrite Z.pow_mul_r by lia. change (2 ^ 8) with 256.
  rewrite Nat2Z.inj_succ, Z.pow_succ_r by lia. rewrite (Z.mul_comm 256), Z.rem_mul_r by lia. lia.
Qed.

Lemma bigEndian_put size value : 0 ≤ value < 256 ^ Z.of_nat size → bigEndian (putBigEndian size value) = value.
Proof. intros Hv. unfold bigEndian. rewrite bigEndian_read by lia. rewrite Z.mod_small by lia. lia. Qed.

Lemma length_put size value : length (putBigEndian size value) = size.
Proof. induction size as [|size IH]; simpl; [done|]. by rewrite IH. Qed.

(** ** Frames are read back *)

Lemma readFull_app a b : readFull (length a) (a ++ b) = Ok (a, b).
Proof.
  unfold readFull. destruct (Nat.ltb_spec (length (a ++ b)) (length a)) as [Hl|_]; [rewrite length_app in Hl; lia|].
  by rewrite take_app_length, drop_app_length.
Qed.

(** The length field: its first byte without the flag, and the rest of it. *)
Definition length_field (size : Z) : Z * list Z :=
  if size <? 126 then (size, []) else if size <=? 65535 then (126, putBigEndian 2 size) else (127, putBigEndian 8 size).

Lemma length_field_read size rest : 0 ≤ size ≤ maxWebSocketFrameBytes →
  0 ≤ (length_field size).1 < 128 ∧ readLength (length_field size).1 ((length_field size).2 ++ rest) = Ok (size, rest).
Proof.
  intros Hs. change maxWebSocketFrameBytes with 1048576 in Hs. unfold length_field, readLength.
  destruct (Z.ltb_spec size 126); [|destruct (Z.leb_spec size 65535)]; cbn [fst snd]; (split; [lia|]).
  - destruct (Z.eqb_spec size 126); [lia|]. by destruct (Z.eqb_spec size 127); [lia|].
  - change (126 =? 126) with true. cbv iota. rewrite <-(length_put 2 size) at 1. rewrite readFull_app. cbn [mbind result_bind].
    rewrite bigEndian_put; [done|]. change (256 ^ Z.of_nat 2) with 65536. lia.
  - change (127 =? 126) with false. change (127 =? 127) with true. cbv iota. rewrite <-(length_put 8 size) at 1. rewrite readFull_app. cbn [mbind result_bind].
    rewrite bigEndian_put; [done|]. change (256 ^ Z.of_nat 8) with 18446744073709551616. lia.
Qed.

Lemma length_unmask mask payload : length (unmask mask payload) = length payload.
Proof. unfold unmask. apply length_imap. Qed.

Lemma unmask_twice mask payload : unmask mask (unmask mask payload) = payload.
Proof.
  apply list_eq. intros i. unfold unmask. rewrite !list_lookup_imap. destruct (payload !! i); [|done]. cbn.
  by rewrite Z.lxor_assoc, Z.lxor_nilpotent, Z.lxor_0_r.
Qed.

Lemma client_frame_read f mask rest : frame_ok f → mask_ok mask → readMaskedWebSocketFrame (client_frame f mask ++ rest) = Ok (f, rest).
Proof.
  intros (Hop & _ & Hlen) Hmask. set (size := Z.of_nat (length (fr_payload f))) in *.
  destruct (length_field_read size (mask ++ unmask mask (fr_payload f) ++ rest) ltac:(lia)) as [Hfirst Hread].
  set (b0 := Z.lor (fr_opcode f) (if fr_fin f then 128 else 0)). set (b1 := Z.lor (length_field size).1 128).
  assert (Hframe : client_frame f mask ++ rest = [b0; b1] ++ (length_field size).2 ++ mask ++ unmask mask (fr_payload f) ++ rest).
  { unfold client_frame. fold size. unfold length_field in b1 |- *. subst b0 b1. destruct (size <? 126); [|destruct (size <=? 65535)]; cbn [fst snd]; simpl; by rewrite <-?app_assoc. }
  rewrite Hframe. unfold readMaskedWebSocketFrame. rewrite (readFull_app [b0; b1] _ : readFull 2 _ = _). cbn [mbind result_bind lookup list_lookup default from_option id].
  destruct (flagged (length_field size).1 7 7 ltac:(lia) ltac:(lia) Hfirst true) as [Hm Hl]. change (2 ^ 7) with 128 in *. change (Z.ones 7) with 127 in Hl. fold b1 in Hm, Hl.
  rewrite Hm, Hl. change (128 =? 0) with false. cbv iota. rewrite Hread. cbn [mbind result_bind]. destruct (Z.ltb_spec maxWebSocketFrameBytes size); [lia|].
  unfold mask_ok in Hmask. rewrite <-Hmask at 1. rewrite readFull_app. cbn [mbind result_bind]. subst size. rewrite Nat2Z.id, <-(length_unmask mask (fr_payload f)), readFull_app. cbn [mbind result_bind].
  rewrite unmask_twice. destruct (flagged (fr_opcode f) 7 4 ltac:(lia) ltac:(lia) Hop (fr_fin f)) as [Hfin Hopc]. change (2 ^ 7) with 128 in *. change (Z.ones 4) with 15 in Hopc.
  assert (Hb0 : b0 = (if fr_fin f then Z.lor (fr_opcode f) 128 else fr_opcode f)) by (subst b0; destruct (fr_fin f); [done|apply Z.lor_0_r]).
  rewrite Hb0, Hfin, Hopc. destruct f as [[] op payload]; done.
Qed.

Lemma server_frame_read f rest : frame_ok f → client_read (writeUnmaskedWebSocketFrame f ++ rest) = Some (f, rest).
Proof.
  intros (Hop & _ & Hlen). set (size := Z.of_nat (length (fr_payload f))) in *.
  destruct (length_field_read size (fr_payload f ++ rest) ltac:(lia)) as [Hfirst Hread].
  destruct (flagged (fr_opcode f) 7 4 ltac:(lia) ltac:(lia) Hop (fr_fin f)) as [Hfin Hopc]. change (2 ^ 7) with 128 in *. change (Z.ones 4) with 15 in Hopc.
  set (b0 := if fr_fin f then Z.lor (fr_opcode f) 128 else fr_opcode f) in *.
  assert (Hframe : writeUnmaskedWebSocketFrame f ++ rest = b0 :: (length_field size).1 :: (length_field size).2 ++ fr_payload f ++ rest).
  { unfold writeUnmaskedWebSocketFrame. fold size. change 15 with (Z.ones 4). rewrite Z.land_ones, Z.mod_small by lia. fold b0. unfold length_field.
    change maxWebSocketFrameBytes with 1048576 in Hlen. destruct (Z.ltb_spec size 126); [|destruct (Z.leb_spec size 65535)]; cbn [fst snd].
    - change 255 with (Z.ones 8). rewrite Z.land_ones, Z.mod_small by lia. simpl. done.
    - change 65535 with (Z.ones 16). rewrite Z.land_ones, Z.mod_small by lia. by rewrite <-!app_assoc.
    - by rewrite <-!app_assoc. }
  rewrite Hframe. cbn [client_read]. destruct (Z.ltb_spec (length_field size).1 128); [|lia]. rewrite Hread. subst size. rewrite Nat2Z.id.
  destruct (Nat.ltb_spec (length (fr_payload f ++ rest)) (length (fr_payload f))) as [Hl|_]; [rewrite length_app in Hl; lia|].
  rewrite take_app_length, drop_app_length, Hfin, Hopc. destruct f as [[] op payload]; done.
Qed.

(** ** The echo endpoint *)

Definition client_stream (frames : list (frame * list Z)) : list Z := frames ≫= fun fm => client_frame fm.1 fm.2.
Definition sendable (frames : list (frame * list Z)) : Prop := Forall (fun fm => frame_ok fm.1 ∧ mask_ok fm.2) frames.

Lemma client_frame_length f mask : (2 ≤ length (client_frame f mask))%nat.
Proof. unfold client_frame. destruct (_ <? _); [|destruct (_ <=? _)]; simpl; lia. Qed.

Lemma server_frame_length f : (1 ≤ length (writeUnmaskedWebSocketFrame f))%nat.
Proof. simpl. lia. Qed.

Lemma echo_frames frames : ∀ fuel accepted, sendable frames → (length (client_stream frames) ≤ fuel)%nat →
  echoLoop fuel accepted (client_stream frames) = take accepted (until_close frames.*1) ≫= writeUnmaskedWebSocketFrame.
Proof.
  induction frames as [|[f mask] frames IH]; intros fuel accepted Hs Hf.
  - simpl. rewrite take_nil. destruct fuel; done.
  - apply Forall_cons in Hs as [[Hok Hm] Hs]. change (client_stream ((f, mask) :: frames)) with (client_frame f mask ++ client_stream frames) in *.
    cbn [fst snd] in Hok, Hm. rewrite length_app in Hf. pose proof (client_frame_length f mask). destruct fuel as [|fuel]; [lia|]. cbn [echoLoop].
    rewrite client_frame_read by done. destruct accepted as [|accepted]; [done|]. cbn [fmap list_fmap fst until_close take]. rewrite bind_cons. f_equal.
    destruct (fr_opcode f =? 8); [by rewrite take_nil|]. apply IH; [done|lia].
Qed.

Lemma reads_frames frames : ∀ fuel, Forall frame_ok frames → (length frames ≤ fuel)%nat →
  client_reads fuel (frames ≫= writeUnmaskedWebSocketFrame) = frames.
Proof.
  induction frames as [|f frames IH]; intros fuel Hs Hf; [by destruct fuel|]. apply Forall_cons in Hs as [Hok Hs]. destruct fuel as [|fuel]; [simpl in Hf; lia|].
  rewrite bind_cons. cbn [client_reads]. rewrite server_frame_read by done. f_equal. apply IH; [done|simpl in Hf; lia].
Qed.

Lemma frames_length frames : (length frames ≤ length (frames ≫= writeUnmaskedWebSocketFrame))%nat.
Proof. induction frames as [|f frames IH]; [done|]. rewrite bind_cons, length_app. pose proof (server_frame_length f). simpl length at 1. lia. Qed.

Lemma until_close_ok frames : Forall frame_ok frames → Forall frame_ok (until_close frames).
Proof. induction 1 as [|f frames Hf _ IH]; [done|]. simpl. constructor; [done|]. by destruct (_ =? _). Qed.

Section Endpoint.
Context `{Unicode} (sha1 : string → string).

Lemma echo_values handshake : let values := header_Values (receivedHeader (echoFields sha1 handshake)) in
  values "Connection" = ["Upgrade"] ∧ values "Upgrade" = ["websocket"] ∧ values "Sec-WebSocket-Accept" = [accept sha1 (rh_key handshake)] ∧
  values "Sec-WebSocket-Protocol" = match rh_protocols handshake with protocol :: _ => [protocol] | [] => [] end ∧
  values "Sec-WebSocket-Extensions" = rh_extensions handshake.
Proof.
  unfold receivedHeader, echoFields. cbv zeta. destruct (rh_protocols handshake) as [|protocol protocols], (rh_extensions handshake) as [|extension extensions];
    split_and!; done.
Qed.

Lemma base64_digit_printable v : byte_between "!" "~" (base64_digit v) = true.
Proof.
  destruct (N.lt_ge_cases v 64) as [Hv|Hv].
  - assert (Hall : forallb (fun n => byte_between "!" "~" (base64_digit (N.of_nat n))) (seq 0 64) = true) by (by vm_compute).
    rewrite forallb_forall in Hall. specialize (Hall (N.to_nat v)). rewrite N2Nat.id in Hall. apply Hall. apply in_seq. lia.
  - unfold base64_digit. destruct (N.ltb_spec v 26); [lia|]. destruct (N.ltb_spec v 52); [lia|]. destruct (N.ltb_spec v 62); [lia|].
    destruct (N.eqb_spec v 62); [lia|done].
Qed.

Lemma base64_printable s : string_forallb (fun c => byte_between "!" "~" c) (base64_encode s) = true.
Proof.
  assert (Hgo : ∀ n s, (String.length s ≤ n)%nat → string_forallb (fun c => byte_between "!" "~" c) (base64_encode s) = true).
  { induction n as [|n IH]; intros t Ht; destruct t as [|a [|b [|c t]]]; try done; try (simpl in Ht; lia);
      cbn [base64_encode string_forallb]; rewrite ?base64_digit_printable; try done. cbn [andb]. apply IH. simpl in Ht. lia. }
  by apply (Hgo (String.length s)).
Qed.

Lemma parts_self l : Forall part_ok l → parts l = l.
Proof.
  induction 1 as [|p l [Hc Ht] _ IH]; [done|]. unfold parts in *. rewrite bind_cons, IH, split_byte_no_sep by done. cbn [fmap list_fmap app]. apply trimmed_iff in Ht. by rewrite Ht.
Qed.

Lemma commaValues_self values tokensOnly l : commaValues values tokensOnly = Some l → commaValues l tokensOnly = Some l.
Proof.
  unfold commaValues. destruct (forallb _ (parts values)) eqn:Hf; [|done]. intros [= <-]. rewrite parts_self by apply parts_ok. by rewrite Hf.
Qed.

(** The answer of the echo endpoint is one the gateway accepts. *)
Lemma echo_accepted q c c' : ValidateRequest q = Ok c → rh_key c' = rh_key c → rh_protocols c' = rh_protocols c → rh_extensions c' = rh_extensions c →
  ValidateResponse sha1 c (Some (mkWsResponse 101 (receivedHeader (echoFields sha1 c')))) =
    Ok (mkResponseHandshake (accept sha1 (rh_key c)) (hd "" (rh_protocols c)) (rh_extensions c)).
Proof.
  intros [_ _ _ _ _ _ _ Hp [_ Htok] He]%ValidateRequest_iff Hk Hpr Hex. destruct (echo_values c') as (V1 & V2 & V3 & V4 & V5).
  unfold ValidateResponse. cbn [wr_status wr_header]. cbv zeta. rewrite V1, V2, V3, V4, V5, Hk, Hpr, Hex. change (negb (101 =? 101)%Z) with false.
  change (negb (hasToken ["Upgrade"] "upgrade")) with false. change (negb (hasToken ["websocket"] "websocket")) with false. cbv iota.
  rewrite printable_trimmed by apply base64_printable. rewrite !String.eqb_refl. cbn [negb orb].
  apply commaValues_self in He. rewrite He. destruct (rh_protocols c) as [|protocol protocols] eqn:Hps; [done|].
  assert (Hone : commaValues [protocol] true = Some [protocol]).
  { unfold commaValues in Hp |- *. destruct (forallb _ (parts _)) eqn:Hf; [|done]. injection Hp as Hp.
    pose proof (parts_ok (header_Values (wq_header q) "Sec-WebSocket-Protocol")) as Hok. rewrite Hp in Hf, Hok. apply Forall_cons in Hok as [Hok _].
    rewrite parts_self by (by constructor). cbn [forallb] in Hf |- *. apply andb_true_iff in Hf as [-> _]. done. }
  rewrite Hone. cbn [forallb] in Htok. apply andb_true_iff in Htok as [-> _]. rewrite bool_decide_eq_true_2 by (by left). done.
Qed.

End Endpoint.

(** A greeting in two fragments and a close frame. *)
Definition demo_frames : list (frame * list Z) :=
  [(mkFrame false 1 [72; 101], [1; 2; 3; 4]); (mkFrame true 0 [108; 108; 111], [255; 0; 17; 9]); (mkFrame true 8 [], [0; 0; 0; 0]);
   (mkFrame true 1 [33], [5; 5; 5; 5])].

Lemma demo_sendable : sendable demo_frames.
Proof. unfold sendable, demo_frames, frame_ok, mask_ok. repeat constructor; vm_compute; done. Qed.

