(* ===== verification/Report.v ===== *)
(** * The benchmark report ([internal/benchreport/report.go])

    Every [raw-run.json] below the input directory describes one run of a
    generator against one target. Its evidence files are read again, the runs
    are grouped by scenario and payload, and each group is compared: one direct
    control run against the medians of the two gateways.

    The disk and the JSON codec are parameters: [disk] gives what the file system
    calls return, [codec] the next value a decoder reads and the text of a
    summary. Numbers are doubles and 64-bit integers as in the source. *)

From stdpp Require Import gmap strings pretty.
From Stdlib Require Import Floats.SpecFloat.
From S2P Require Import Prelude GoStrings NetAddr Url Duration FloatMath FilePath.
#[local] Open Scope string_scope.
#[local] Open Scope Z_scope.
#[local] Open Scope list_scope.

(** ** Data *)

Inductive Verdict := VerdictInvalid | VerdictProvisionalPass | VerdictProvisionalMiss.

Definition verdictText (v : Verdict) : string :=
  match v with
  | VerdictInvalid => "invalid"
  | VerdictProvisionalPass => "provisional_pass"
  | VerdictProvisionalMiss => "provisional_miss"
  end.

Definition EnvironmentProvisional : string := "provisional".
Definition EnvironmentDedicatedLinux : string := "dedicated_linux".

Record Options := mkOptions { op_inputDir : string; op_outputDir : string }.

Record DirectSummary := mkDirectSummary {
  ds_requestsPerSecond : float64;
  ds_requiredHeadroomFactor : float64;
  ds_headroomRatio : float64;
}.

Record TargetSummary := mkTargetSummary {
  ts_runCount : Z;
  ts_medianRequestsPerSecond : float64;
  ts_medianTransferBytesPerSecond : float64;
  ts_medianP50US : float64;
  ts_medianP95US : float64;
  ts_medianP99US : float64;
  ts_requests : Z;
  ts_requestErrors : Z;
  ts_timeouts : Z;
  ts_non2xx : Z;
  ts_errorRate : float64;
}.

Record Comparison := mkComparison {
  cm_scenario : string;
  cm_payloadBytes : Z;
  cm_generator : string;
  cm_protocol : string;
  cm_tls : bool;
  cm_verdict : Verdict;
  cm_reasons : list string;
  cm_direct : DirectSummary;
  cm_go : TargetSummary;
  cm_apisix : TargetSummary;
}.

Record Summary := mkSummary {
  sm_schemaVersion : string;
  sm_environmentClass : string;
  sm_verdict : Verdict;
  sm_comparisons : list Comparison;
}.

Record metricSet := mkMetricSet {
  mt_requestsPerSecond : float64;
  mt_transferBytesPerSecond : float64;
  mt_p50US : float64;
  mt_p95US : float64;
  mt_p99US : float64;
}.

Record errorSet := mkErrorSet { es_requestErrors : Z; es_timeouts : Z; es_non2xx : Z }.

#[global] Instance errorSet_eq_dec : EqDecision errorSet.
Proof. solve_decision. Defined.

Record runTarget := mkRunTarget { tg_name : string; tg_version : string; tg_apisixCommit : string }.
Record runImages := mkRunImages { im_target : string; im_upstream : string; im_generator : string }.
Record runScenario := mkRunScenario { sc_name : string; sc_generator : string; sc_protocol : string; sc_tls : bool }.

Record runSettings := mkRunSettings {
  gs_generatorVersion : string;
  gs_generatorRevision : string;
  gs_threads : Z;
  gs_connections : Z;
  gs_clients : Z;
  gs_streamsPerClient : Z;
  gs_warmupSeconds : Z;
  gs_durationSeconds : Z;
  gs_repetition : Z;
}.

Record runLimits := mkRunLimits { li_cpus : float64; li_memoryBytes : Z; li_workers : Z }.
Record runEnvironment := mkRunEnvironment { en_dockerVersion : string; en_operatingSystem : string; en_cpu : string }.
Record runControl := mkRunControl { dc_requestsPerSecond : float64; dc_requiredHeadroomFactor : float64 }.
Record runArtifacts := mkRunArtifacts { ar_stdout : string; ar_stderr : string; ar_structured : string; ar_requestLog : string }.

Record rawRun := mkRawRun {
  rr_schemaVersion : string;
  rr_timestampUTC : string;
  rr_environmentClass : string;
  rr_gatewayGitCommit : string;
  rr_target : runTarget;
  rr_imageIDs : runImages;
  rr_scenario : runScenario;
  rr_payloadBytes : Z;
  rr_generatorSettings : runSettings;
  rr_targetLimits : runLimits;
  rr_environment : runEnvironment;
  rr_directControl : runControl;
  rr_artifacts : runArtifacts;
  rr_metrics : metricSet;
  rr_errors : errorSet;
}.

Record parsedRun := mkParsedRun { pr_raw : rawRun; pr_metrics : metricSet; pr_errors : errorSet; pr_requests : Z }.

(** A scenario and a payload size. *)
Definition comparisonKey : Type := string * Z.

(** The structured output of the generators. *)
Record wrkDocument := mkWrkDocument {
  wd_schemaVersion : string;
  wd_requests : Z;
  wd_bytes : Z;
  wd_durationUS : Z;
  wd_requestsPerSecond : float64;
  wd_transferBytesPerSecond : float64;
  wd_p50US : float64;
  wd_p95US : float64;
  wd_p99US : float64;
  wd_connect : Z;
  wd_read : Z;
  wd_write : Z;
  wd_timeout : Z;
  wd_non2xx : Z;
}.

Record h2loadDocument := mkH2loadDocument {
  hd_version : string;
  hd_requestPerSecond : float64;
  hd_bytesPerSecond : float64;
  hd_total : Z;
  hd_started : Z;
  hd_done : Z;
  hd_succeeded : Z;
  hd_failed : Z;
  hd_errored : Z;
  hd_timeout : Z;
  hd_twoXX : Z;
  hd_threeXX : Z;
  hd_fourXX : Z;
  hd_fiveXX : Z;
}.

(** ** Errors *)

Inductive runError :=
| UnsupportedSchema (version : string)
| InvalidRun
| UnknownTarget (name : string)
| UnknownGenerator (name : string)
| UnknownEnvironment (class : string)
| InvalidDirectControl
| NegativeErrors
| EmptyArtifact
| EmptyRequestLogPath
| ArtifactNotRelative (path : string)
| ArtifactEscapes (path : string)
| ArtifactMissing (path : string)
| ArtifactNotRegular (path : string)
| OpenFailed (path : string)
| MalformedJSON (path : string)
| MultipleValues (path : string)
| InvalidWrk
| InvalidWrkMetrics
| InvalidH2Load
| InvalidH2LoadMetrics
| RequestLogFields (line : Z)
| RequestLogDuration (line : Z)
| RequestLogTooLong
| RequestLogEmpty
| RequestLogCount (records done : Z)
| ErrorsDiffer (raw parsed : errorSet).

Inductive reportError :=
| InputRequired
| OutputRequired
| InputMissing
| InputNotDirectory
| WalkFailed
| NoRuns
| DecodeRun (path : string) (err : runError)
| ValidateRun (path : string) (err : runError)
| DuplicateRun (identity previous path : string)
| ParseRun (path : string) (err : runError)
| CreateOutput
| MarshalSummary
| WriteFailed (path : string)
| InvalidEvidence.

(** ** The disk and the codec *)

Inductive nodeKind := RegularFile | Directory | OtherNode.

Record dirEntry := mkDirEntry { de_path : string; de_name : string; de_isDir : bool }.

Record disk := mkDisk {
  dk_cwd : string;
  dk_stat : string → option nodeKind;
  dk_read : string → option string;
  dk_walk : string → option (list dirEntry);
  dk_mkdirAll : string → bool;
  dk_writeFile : string → bool;
}.

(** What [Decoder.Decode] finds: a value and the input after it, the end, or an
    error. *)
Inductive decoded (A : Type) := NextValue (value : A) (rest : string) | NextEOF | NextError.
Arguments NextValue {A} _ _.
Arguments NextEOF {A}.
Arguments NextError {A}.

Record codec := mkCodec {
  cd_raw : string → decoded rawRun;
  cd_wrk : string → decoded wrkDocument;
  cd_h2load : string → decoded h2loadDocument;
  cd_any : string → decoded unit;
  cd_marshal : Summary → option string;
}.

(** ** Integers and text *)

(** Wrap-around of [int64]. *)
Definition wrap_int64 (x : Z) : Z := (x + 2 ^ 63) mod 2 ^ 64 - 2 ^ 63.
Definition add64 (x y : Z) : Z := wrap_int64 (x + y).

(** [strings.Fields]: [skip] bytes of white space are still to be dropped and
    [word] is the field read so far. *)
Fixpoint fields_scan (skip : nat) (word s : string) : list string :=
  let flush := match word with EmptyString => [] | _ => [word] end in
  match s with
  | EmptyString => flush
  | String c t =>
      match skip with
      | S skip => fields_scan skip word t
      | O =>
          match list_find (fun w => has_prefix s w = true) white_space with
          | Some (_, w) => flush ++ fields_scan (String.length w - 1) "" t
          | None => fields_scan 0 (word +:+ String c "") t
          end
      end
  end.

Definition strings_Fields (s : string) : list string := fields_scan 0 "" s.

(** The lines of a [bufio.Scanner]; one that fills the buffer stops it. *)
Definition newline : ascii := "010".
Definition return_byte : ascii := "013".
Definition maxScanTokenSize : nat := Z.to_nat 65536.

Definition scannerLines (s : string) : list string :=
  let pieces := split_byte newline s in
  match last pieces with Some EmptyString => take (length pieces - 1) pieces | _ => pieces end.

Definition dropCR (line : string) : string :=
  if has_suffix line (String return_byte "") then stake (String.length line - 1) line else line.

(** ** Validation *)

Definition finiteNonNegative (value : float64) : bool := float_leb (S754_zero false) value && negb (isNaN value) && negb (isInf value).

Definition validMetrics (metrics : metricSet) : bool :=
  finiteNonNegative (mt_requestsPerSecond metrics) && finiteNonNegative (mt_transferBytesPerSecond metrics) &&
  finiteNonNegative (mt_p50US metrics) && finiteNonNegative (mt_p95US metrics) && finiteNonNegative (mt_p99US metrics).

Definition validateRaw (raw : rawRun) : result runError () :=
  let errors := rr_errors raw in
  let artifacts := rr_artifacts raw in
  if negb (String.eqb (rr_schemaVersion raw) "1.0.0") then Err (UnsupportedSchema (rr_schemaVersion raw))
  else if String.eqb (sc_name (rr_scenario raw)) "" || (rr_payloadBytes raw <? 0) || (gs_repetition (rr_generatorSettings raw) <? 1) then
    Err InvalidRun
  else if negb (String.eqb (tg_name (rr_target raw)) "direct") && negb (String.eqb (tg_name (rr_target raw)) "go") &&
      negb (String.eqb (tg_name (rr_target raw)) "apisix") then
    Err (UnknownTarget (tg_name (rr_target raw)))
  else if negb (String.eqb (sc_generator (rr_scenario raw)) "wrk") && negb (String.eqb (sc_generator (rr_scenario raw)) "h2load") then
    Err (UnknownGenerator (sc_generator (rr_scenario raw)))
  else if negb (String.eqb (rr_environmentClass raw) EnvironmentProvisional) &&
      negb (String.eqb (rr_environmentClass raw) EnvironmentDedicatedLinux) then
    Err (UnknownEnvironment (rr_environmentClass raw))
  else if float_leb (dc_requiredHeadroomFactor (rr_directControl raw)) (float_of_Z 1) ||
      negb (finiteNonNegative (dc_requestsPerSecond (rr_directControl raw))) then
    Err InvalidDirectControl
  else if (es_requestErrors errors <? 0) || (es_timeouts errors <? 0) || (es_non2xx errors <? 0) then Err NegativeErrors
  else if String.eqb (ar_stdout artifacts) "" || String.eqb (ar_stderr artifacts) "" || String.eqb (ar_structured artifacts) "" then
    Err EmptyArtifact
  else if String.eqb (sc_generator (rr_scenario raw)) "h2load" && String.eqb (ar_requestLog artifacts) "" then Err EmptyRequestLogPath
  else Ok ().

(** ** Evidence files *)

Section Reading.
Context (dk : disk) (cd : codec).

(** Two dots, or two dots and a separator in front. *)
Definition resolveArtifact (input relative : string) : result runError string :=
  if filepath_IsAbs relative then Err (ArtifactNotRelative relative)
  else
    let path := filepath_Join [input; relative] in
    let rel := filepath_Rel input path in
    if goes_up rel then Err (ArtifactEscapes relative)
    else
      match dk_stat dk path with
      | None => Err (ArtifactMissing relative)
      | Some RegularFile => Ok path
      | Some _ => Err (ArtifactNotRegular relative)
      end.

(** [decodeFile] and [decodeStrictFile]: one value and nothing after it. *)
Definition decodeFileWithMode {A} (next : string → decoded A) (path : string) : result runError A :=
  match dk_read dk path with
  | None => Err (OpenFailed path)
  | Some text =>
      match next text with
      | NextEOF | NextError => Err (MalformedJSON path)
      | NextValue value rest =>
          match cd_any cd rest with
          | NextEOF => Ok value
          | NextValue _ _ => Err (MultipleValues path)
          | NextError => Err (MalformedJSON path)
          end
      end
  end.

Definition parseWrk (path : string) : result runError (metricSet * errorSet * Z) :=
  doc ← decodeFileWithMode (cd_wrk cd) path;
  if negb (String.eqb (wd_schemaVersion doc) "wrk-1") || (wd_requests doc <=? 0) || (wd_durationUS doc <=? 0) then Err InvalidWrk
  else
    let metrics := mkMetricSet (wd_requestsPerSecond doc) (wd_transferBytesPerSecond doc) (wd_p50US doc) (wd_p95US doc) (wd_p99US doc) in
    if negb (validMetrics metrics) then Err InvalidWrkMetrics
    else
      let errors := mkErrorSet (add64 (add64 (wd_connect doc) (wd_read doc)) (wd_write doc)) (wd_timeout doc) (wd_non2xx doc) in
      Ok (metrics, errors, wd_requests doc).

(** The third field of a line of the log; a blank line has none. *)
Definition requestLogLine (line : Z) (raw : string) : result runError (option Z) :=
  let text := trim_space (dropCR raw) in
  if String.eqb text "" then Ok None
  else
    match strings_Fields text with
    | [_; _; third] =>
        match atoi third with
        | Some duration => if duration <? 0 then Err (RequestLogDuration line) else Ok (Some duration)
        | None => Err (RequestLogDuration line)
        end
    | _ => Err (RequestLogFields line)
    end.

Fixpoint requestLogLines (line : Z) (lines : list string) : result runError (list Z) :=
  match lines with
  | [] => Ok []
  | raw :: rest =>
      if (maxScanTokenSize <=? String.length raw)%nat then Err RequestLogTooLong
      else
        duration ← requestLogLine line raw;
        durations ← requestLogLines (line + 1) rest;
        Ok (option_list duration ++ durations)
  end.

Definition parseH2LoadRequestLog (path : string) : result runError (list Z) :=
  match dk_read dk path with
  | None => Err (OpenFailed path)
  | Some text =>
      durations ← requestLogLines 1 (scannerLines text);
      if Nat.eqb (length durations) 0 then Err RequestLogEmpty else Ok (sort_slice Z.ltb durations)
  end.

(** The rank is computed in double precision; an index out of range gives
    [None]. *)
Definition nearestRank (sorted : list Z) (percentile : Z) : option float64 :=
  let rank := ceilInt (float_mul (float_div (float_of_Z percentile) (float_of_Z 100)) (float_of_Z (Z.of_nat (length sorted)))) in
  let rank := if rank <? 1 then 1 else rank in
  float_of_Z <$> (sorted !! Z.to_nat (rank - 1)).

(** [None] is the panic of an index out of range. *)
Definition h2loadMetrics (doc : h2loadDocument) (durations : list Z) : option metricSet :=
  p50 ← nearestRank durations 50;
  p95 ← nearestRank durations 95;
  p99 ← nearestRank durations 99;
  Some (mkMetricSet (hd_requestPerSecond doc) (hd_bytesPerSecond doc) p50 p95 p99).

Definition parseH2Load (structuredPath requestLogPath : string) : result runError (option (metricSet * errorSet * Z)) :=
  doc ← decodeFileWithMode (cd_h2load cd) structuredPath;
  if negb (String.eqb (hd_version doc) "v1") || (hd_done doc <=? 0) then Err InvalidH2Load
  else
    durations ← parseH2LoadRequestLog requestLogPath;
    if negb (Z.of_nat (length durations) =? hd_done doc) then Err (RequestLogCount (Z.of_nat (length durations)) (hd_done doc))
    else
      match h2loadMetrics doc durations with
      | None => Ok None
      | Some metrics =>
          if negb (validMetrics metrics) then Err InvalidH2LoadMetrics
          else
            let errors := mkErrorSet (add64 (hd_failed doc) (hd_errored doc)) (hd_timeout doc)
              (add64 (add64 (hd_threeXX doc) (hd_fourXX doc)) (hd_fiveXX doc)) in
            Ok (Some (metrics, errors, hd_done doc))
      end.

(** [None]: the process has panicked. *)
Definition parseRun (input : string) (raw : rawRun) : result runError (option parsedRun) :=
  let artifacts := rr_artifacts raw in
  _ ← resolveArtifact input (ar_stdout artifacts);
  _ ← resolveArtifact input (ar_stderr artifacts);
  structured ← resolveArtifact input (ar_structured artifacts);
  parsed ←
    (if String.eqb (sc_generator (rr_scenario raw)) "wrk" then Some <$> parseWrk structured
     else
       requestLog ← resolveArtifact input (ar_requestLog artifacts);
       parseH2Load structured requestLog);
  match parsed with
  | None => Ok None
  | Some (metrics, errors, requests) =>
      if negb (bool_decide (errors = rr_errors raw)) then Err (ErrorsDiffer (rr_errors raw) errors)
      else Ok (Some (mkParsedRun raw metrics errors requests))
  end.

(** ** All runs *)

Definition runIdentity (raw : rawRun) : string :=
  sc_name (rr_scenario raw) +:+ "/" +:+ pretty (rr_payloadBytes raw) +:+ "/" +:+ tg_name (rr_target raw) +:+ "/" +:+
    pretty (gs_repetition (rr_generatorSettings raw)).

Fixpoint readPaths (input : string) (seen : gmap string string) (paths : list string) : result reportError (option (list parsedRun)) :=
  match paths with
  | [] => Ok (Some [])
  | path :: rest =>
      raw ← map_err (DecodeRun path) (decodeFileWithMode (cd_raw cd) path);
      _ ← map_err (ValidateRun path) (validateRaw raw);
      let identity := runIdentity raw in
      match seen !! identity with
      | Some previous => Err (DuplicateRun identity previous path)
      | None =>
          parsed ← map_err (ParseRun path) (parseRun input raw);
          match parsed with
          | None => Ok None
          | Some parsed =>
              runs ← readPaths input (<[identity := path]> seen) rest;
              Ok (option_map (cons parsed) runs)
          end
      end
  end.

(** The order of the runs: scenario, payload, target, repetition. *)
Definition run_before (x y : parsedRun) : bool :=
  let a := pr_raw x in
  let b := pr_raw y in
  if negb (String.eqb (sc_name (rr_scenario a)) (sc_name (rr_scenario b))) then String.ltb (sc_name (rr_scenario a)) (sc_name (rr_scenario b))
  else if negb (rr_payloadBytes a =? rr_payloadBytes b) then rr_payloadBytes a <? rr_payloadBytes b
  else if negb (String.eqb (tg_name (rr_target a)) (tg_name (rr_target b))) then String.ltb (tg_name (rr_target a)) (tg_name (rr_target b))
  else gs_repetition (rr_generatorSettings a) <? gs_repetition (rr_generatorSettings b).

Definition rawRunPaths (entries : list dirEntry) : list string :=
  de_path <$> filter (fun entry => negb (de_isDir entry) && String.eqb (de_name entry) "raw-run.json" = true) entries.

Definition readRuns (input : string) : result reportError (option (list parsedRun)) :=
  match dk_walk dk input with
  | None => Err WalkFailed
  | Some entries =>
      let paths := rawRunPaths entries in
      if Nat.eqb (length paths) 0 then Err NoRuns
      else
        runs ← readPaths input ∅ (sort_strings paths);
        Ok (option_map (sort_slice run_before) runs)
  end.
End Reading.

(** ** Aggregation *)

Definition median (values : list float64) : float64 :=
  let copyOfValues := sort_floats values in
  let middle := (length copyOfValues / 2)%nat in
  let at' i := nth i copyOfValues S754_nan in
  if Nat.eqb (length copyOfValues mod 2) 1 then at' middle
  else float_div (float_add (at' (middle - 1)%nat) (at' middle)) (float_of_Z 2).

(** A sum of [int64] counts. *)
Definition count64 (f : parsedRun → Z) (runs : list parsedRun) : Z := foldl (fun sum run => add64 sum (f run)) 0 runs.

Definition errorTotal (requestErrors timeouts non2xx : Z) : Z := add64 (add64 requestErrors timeouts) non2xx.

Definition aggregateTarget (runs : list parsedRun) : TargetSummary :=
  let requests := count64 pr_requests runs in
  let requestErrors := count64 (es_requestErrors ∘ pr_errors) runs in
  let timeouts := count64 (es_timeouts ∘ pr_errors) runs in
  let non2xx := count64 (es_non2xx ∘ pr_errors) runs in
  mkTargetSummary (Z.of_nat (length runs))
    (median (mt_requestsPerSecond ∘ pr_metrics <$> runs)) (median (mt_transferBytesPerSecond ∘ pr_metrics <$> runs))
    (median (mt_p50US ∘ pr_metrics <$> runs)) (median (mt_p95US ∘ pr_metrics <$> runs)) (median (mt_p99US ∘ pr_metrics <$> runs))
    requests requestErrors timeouts non2xx
    (if 0 <? requests then float_div (float_of_Z (errorTotal requestErrors timeouts non2xx)) (float_of_Z requests) else S754_zero false).

Definition zeroTarget : TargetSummary :=
  let zero := S754_zero false in mkTargetSummary 0 zero zero zero zero zero 0 0 0 0 zero.
Definition zeroDirect : DirectSummary := let zero := S754_zero false in mkDirectSummary zero zero zero.

Definition targetRuns (name : string) (runs : list parsedRun) : list parsedRun :=
  filter (fun run => tg_name (rr_target (pr_raw run)) = name) runs.

(** The constant [1.10]. *)
Definition latencyTolerance : float64 := float_div (float_of_Z 11) (float_of_Z 10).

Definition invalidReasons (direct : parsedRun) (control : DirectSummary) (go apisix : TargetSummary) : list string :=
  let failures summary := errorTotal (ts_requestErrors summary) (ts_timeouts summary) (ts_non2xx summary) in
  (if 0 <? errorTotal (es_requestErrors (pr_errors direct)) (es_timeouts (pr_errors direct)) (es_non2xx (pr_errors direct))
   then ["direct control reported request errors, timeouts, or non-2xx responses"] else []) ++
  (if (0 <? failures go) || (0 <? failures apisix)
   then ["gateway measurement reported request errors, timeouts, or non-2xx responses"] else []) ++
  (if float_ltb (ds_headroomRatio control) (ds_requiredHeadroomFactor control)
   then ["direct headroom " +:+ formatFixed 4 (ds_headroomRatio control) +:+ "x is below required " +:+
         formatFixed 4 (ds_requiredHeadroomFactor control) +:+ "x"] else []).

(** The verdict on measurements that are valid. *)
Definition parity (go apisix : TargetSummary) : Verdict * list string :=
  let throughputPass := float_leb (ts_medianRequestsPerSecond apisix) (ts_medianRequestsPerSecond go) in
  let latencyPass := float_leb (ts_medianP99US go) (float_mul (ts_medianP99US apisix) latencyTolerance) in
  let errorPass := float_leb (ts_errorRate go) (ts_errorRate apisix) in
  if throughputPass && latencyPass && errorPass then
    (VerdictProvisionalPass, ["Go meets throughput, p99, and error-rate parity thresholds"])
  else
    (VerdictProvisionalMiss,
      (if throughputPass then [] else ["Go median throughput is below APISIX"]) ++
      (if latencyPass then [] else ["Go median p99 exceeds 110% of APISIX"]) ++
      (if errorPass then [] else ["Go error rate exceeds APISIX"])).

Definition runCounts (direct go apisix : list parsedRun) : string :=
  "expected one direct run and at least one run per gateway; found direct=" +:+ pretty (length direct) +:+
  " go=" +:+ pretty (length go) +:+ " apisix=" +:+ pretty (length apisix).

Definition compareGroup (key : comparisonKey) (runs : list parsedRun) : Comparison :=
  let scenario := from_option (rr_scenario ∘ pr_raw) (mkRunScenario "" "" "" false) (last runs) in
  let comparison := mkComparison key.1 key.2 (sc_generator scenario) (sc_protocol scenario) (sc_tls scenario) in
  let directRuns := targetRuns "direct" runs in
  let goRuns := targetRuns "go" runs in
  let apisixRuns := targetRuns "apisix" runs in
  match directRuns, goRuns, apisixRuns with
  | [direct], _ :: _, _ :: _ =>
      let go := aggregateTarget goRuns in
      let apisix := aggregateTarget apisixRuns in
      let fastest := math_Max (ts_medianRequestsPerSecond go) (ts_medianRequestsPerSecond apisix) in
      let control := mkDirectSummary (mt_requestsPerSecond (pr_metrics direct)) (dc_requiredHeadroomFactor (rr_directControl (pr_raw direct)))
        (float_div (mt_requestsPerSecond (pr_metrics direct)) fastest) in
      match invalidReasons direct control go apisix with
      | [] => let '(verdict, reasons) := parity go apisix in comparison verdict reasons control go apisix
      | reasons => comparison VerdictInvalid reasons control go apisix
      end
  | _, _, _ => comparison VerdictInvalid [runCounts directRuns goRuns apisixRuns] zeroDirect zeroTarget zeroTarget
  end.

(** The groups of the runs, each in the order of the runs, and the environment. *)
Definition runKey (run : parsedRun) : comparisonKey := (sc_name (rr_scenario (pr_raw run)), rr_payloadBytes (pr_raw run)).

Definition groupRuns (runs : list parsedRun) : gmap comparisonKey (list parsedRun) :=
  foldl (fun groups run => <[runKey run := default [] (groups !! runKey run) ++ [run]]> groups) ∅ runs.

Definition key_before (a b : comparisonKey) : bool :=
  if negb (String.eqb a.1 b.1) then String.ltb a.1 b.1 else a.2 <? b.2.

Definition worst (comparisons : list Comparison) : Verdict :=
  if existsb (fun comparison => match cm_verdict comparison with VerdictInvalid => true | _ => false end) comparisons then VerdictInvalid
  else if existsb (fun comparison => match cm_verdict comparison with VerdictProvisionalMiss => true | _ => false end) comparisons
  then VerdictProvisionalMiss else VerdictProvisionalPass.

Section Aggregate.
Context `{Unicode}.

Definition provisionalRun (run : parsedRun) : bool :=
  negb (String.eqb (rr_environmentClass (pr_raw run)) EnvironmentDedicatedLinux) ||
  match index_string "docker desktop" (to_lower (en_operatingSystem (rr_environment (pr_raw run)))) with Some _ => true | None => false end.

(** The summary, and whether a comparison is invalid. *)
Definition aggregate (runs : list parsedRun) : Summary * bool :=
  let groups := groupRuns runs in
  let environment := if existsb provisionalRun runs then EnvironmentProvisional else EnvironmentDedicatedLinux in
  let keys := sort_slice key_before (elements (dom groups)) in
  let comparisons := (fun key => compareGroup key (default [] (groups !! key))) <$> keys in
  let verdict := worst comparisons in
  (mkSummary "1.0.0" environment verdict comparisons, match verdict with VerdictInvalid => true | _ => false end).
End Aggregate.

(** ** Output *)

Definition formatFloat (value : float64) : string := formatFixed 9 value.
Definition formatBool (b : bool) : string := if b then "true" else "false".

Definition csvQuote : ascii := "034".

(** [encoding/csv]: a field is quoted when it has a separator, a quote or a line
    break in it, starts with white space, or is the end marker of some
    databases; quotes are doubled. *)
Definition fieldNeedsQuotes (field : string) : bool :=
  if String.eqb field "" then false
  else if String.eqb field "\." then true
  else
    contains_byte newline field || contains_byte return_byte field || contains_byte csvQuote field || contains_byte "," field ||
    existsb (fun w => has_prefix field w) white_space.

Fixpoint doubleQuotes (s : string) : string :=
  match s with
  | EmptyString => EmptyString
  | String c t => if Ascii.eqb c csvQuote then String c (String c (doubleQuotes t)) else String c (doubleQuotes t)
  end.

Definition csvField (field : string) : string :=
  if fieldNeedsQuotes field then String csvQuote (doubleQuotes field +:+ String csvQuote "") else field.

Definition csvRecord (fields : list string) : string := join_byte "," (csvField <$> fields) +:+ String newline "".
Definition csvText (rows : list (list string)) : string := foldr (fun row text => csvRecord row +:+ text) "" rows.

Definition joinReasons (reasons : list string) : string :=
  match reasons with [] => "" | reason :: rest => foldl (fun text r => text +:+ "; " +:+ r) reason rest end.

Definition csvHeader : list string :=
  ["environment_class"; "overall_verdict"; "scenario"; "payload_bytes"; "generator"; "protocol"; "tls"; "verdict";
   "direct_rps"; "headroom_ratio"; "go_median_rps"; "apisix_median_rps"; "go_median_p99_us"; "apisix_median_p99_us";
   "go_error_rate"; "apisix_error_rate"; "reasons"].

Definition csvRow (summary : Summary) (comparison : Comparison) : list string :=
  [sm_environmentClass summary; verdictText (sm_verdict summary); cm_scenario comparison; pretty (cm_payloadBytes comparison);
   cm_generator comparison; cm_protocol comparison; formatBool (cm_tls comparison); verdictText (cm_verdict comparison);
   formatFloat (ds_requestsPerSecond (cm_direct comparison)); formatFloat (ds_headroomRatio (cm_direct comparison));
   formatFloat (ts_medianRequestsPerSecond (cm_go comparison)); formatFloat (ts_medianRequestsPerSecond (cm_apisix comparison));
   formatFloat (ts_medianP99US (cm_go comparison)); formatFloat (ts_medianP99US (cm_apisix comparison));
   formatFloat (ts_errorRate (cm_go comparison)); formatFloat (ts_errorRate (cm_apisix comparison)); joinReasons (cm_reasons comparison)].

Definition writeCSV (summary : Summary) : string := csvText (csvHeader :: (csvRow summary <$> sm_comparisons summary)).

Definition line (s : string) : string := s +:+ String newline "".

Definition markdownRow (comparison : Comparison) : string :=
  line ("| " +:+ cm_scenario comparison +:+ " | " +:+ pretty (cm_payloadBytes comparison) +:+ " | " +:+ verdictText (cm_verdict comparison) +:+
    " | " +:+ formatFixed 2 (ds_requestsPerSecond (cm_direct comparison)) +:+ " | " +:+ formatFixed 2 (ds_headroomRatio (cm_direct comparison)) +:+
    "x | " +:+ formatFixed 2 (ts_medianRequestsPerSecond (cm_go comparison)) +:+ " | " +:+
    formatFixed 2 (ts_medianRequestsPerSecond (cm_apisix comparison)) +:+ " | " +:+ formatFixed 2 (ts_medianP99US (cm_go comparison)) +:+
    " | " +:+ formatFixed 2 (ts_medianP99US (cm_apisix comparison)) +:+ " |").

Definition markdownReasons (comparison : Comparison) : string :=
  line ("- `" +:+ cm_scenario comparison +:+ "/" +:+ pretty (cm_payloadBytes comparison) +:+ "`: " +:+ joinReasons (cm_reasons comparison)).

Definition concatenate (l : list string) : string := foldr String.app "" l.

Definition renderMarkdown (summary : Summary) : string :=
  line "# Benchmark summary" +:+ line "" +:+
  line ("- Environment: `" +:+ sm_environmentClass summary +:+ "`") +:+
  line ("- Verdict: `" +:+ verdictText (sm_verdict summary) +:+ "`") +:+ line "" +:+
  line "| Scenario | Payload | Verdict | Direct RPS | Headroom | Go RPS | APISIX RPS | Go p99 (us) | APISIX p99 (us) |" +:+
  line "|---|---:|---|---:|---:|---:|---:|---:|---:|" +:+
  concatenate (markdownRow <$> sm_comparisons summary) +:+ line "" +:+
  concatenate (markdownReasons <$> sm_comparisons summary).

(** ** The report *)

Definition resolveOptions (dk : disk) `{Unicode} (opts : Options) : result reportError (string * string) :=
  if String.eqb (trim_space (op_inputDir opts)) "" then Err InputRequired
  else if String.eqb (trim_space (op_outputDir opts)) "" then Err OutputRequired
  else
    let input := filepath_Abs (dk_cwd dk) (op_inputDir opts) in
    match dk_stat dk input with
    | None => Err InputMissing
    | Some Directory => Ok (input, filepath_Abs (dk_cwd dk) (op_outputDir opts))
    | Some _ => Err InputNotDirectory
    end.

(** Writes the files in turn, up to the first that fails. *)
Fixpoint writeFiles (dk : disk) (files : list (string * string)) : list (string * string) * option reportError :=
  match files with
  | [] => ([], None)
  | (path, text) :: rest =>
      if dk_writeFile dk path then let '(written, err) := writeFiles dk rest in ((path, text) :: written, err)
      else ([], Some (WriteFailed path))
  end.

Definition writeReports (dk : disk) (cd : codec) (output : string) (summary : Summary) : list (string * string) * option reportError :=
  if negb (dk_mkdirAll dk output) then ([], Some CreateOutput)
  else
    match cd_marshal cd summary with
    | None => ([], Some MarshalSummary)
    | Some jsonData =>
        writeFiles dk [(filepath_Join [output; "summary.json"], line jsonData);
                       (filepath_Join [output; "summary.csv"], writeCSV summary);
                       (filepath_Join [output; "summary.md"], renderMarkdown summary)]
    end.

(** The files written, the summary returned and the error; [None] is a panic. *)
Record generated := mkGenerated { gn_files : list (string * string); gn_summary : option Summary; gn_err : option reportError }.

Definition Generate (dk : disk) (cd : codec) `{Unicode} (opts : Options) : option generated :=
  match resolveOptions dk opts with
  | Err err => Some (mkGenerated [] None (Some err))
  | Ok (input, output) =>
      match readRuns dk cd input with
      | Err err => Some (mkGenerated [] None (Some err))
      | Ok None => None
      | Ok (Some runs) =>
          let '(summary, invalid) := aggregate runs in
          let '(files, err) := writeReports dk cd output summary in
          match err with
          | Some err => Some (mkGenerated files None (Some err))
          | None => Some (mkGenerated files (Some summary) (if invalid : bool then Some InvalidEvidence else None))
          end
      end
  end.
