(* ===== verification/ReportCorrect.v ===== *)
(** * The benchmark report is sound ([internal/benchreport/report.go])

    Percentiles are the nearest-rank percentiles of the log although the rank is
    computed in double precision; evidence files are inside the input directory;
    no run is counted twice; and a report without an error says what it should:
    every group has its control run, both gateways, no failed request and the
    headroom it requires. *)

From stdpp Require Import gmap strings pretty sorting.
From Stdlib Require Import Floats.SpecFloat.
From S2P Require Import Prelude GoStrings NetAddr Decimal Url Duration DurationText FloatMath FilePath Report.
#[local] Open Scope string_scope.
#[local] Open Scope Z_scope.
#[local] Open Scope list_scope.

(** ** Lists *)

Lemma filter_full {A} (P : A → Prop) `{∀ x, Decision (P x)} (l : list A) : Forall P l → filter P l = l.
Proof. induction 1 as [|x l Hx _ IH]; [done|]. by rewrite filter_cons_True, IH. Qed.

Lemma filter_empty {A} (P : A → Prop) `{∀ x, Decision (P x)} (l : list A) : Forall (fun x => ¬ P x) l → filter P l = [].
Proof. induction 1 as [|x l Hx _ IH]; [done|]. by rewrite filter_cons_False. Qed.

(** Distinct under a function, distinct under one at least as fine. *)
Lemma NoDup_keys {A B C} (f : A → B) (g : A → C) (l : list A) : (∀ x y, x ∈ l → y ∈ l → g x = g y → f x = f y) → NoDup (f <$> l) → NoDup (g <$> l).
Proof.
  induction l as [|x l IH]; intros Hfg; [constructor|]. rewrite !fmap_cons, !NoDup_cons. intros [Hx Hl]. split.
  - intros (y & E & Hy)%list_elem_of_fmap. apply Hx. rewrite (Hfg x y); [by apply list_elem_of_fmap_2|by left|by right|done].
  - apply IH; [|done]. intros a b Ha Hb. apply Hfg; by right.
Qed.

(** ** Lexicographic orders *)

(** What sorting by an order needs. *)
Record strict_order {A} (less : A → A → bool) : Prop := {
  so_asym : ∀ x y, less x y = true → less y x = false;
  so_trans : ∀ x y z, less y x = false → less z y = false → less z x = false;
}.

Record key_order {K} (eqb ltb : K → K → bool) : Prop := {
  ko_eqb : ∀ x y, eqb x y = true ↔ x = y;
  ko_order : strict_order ltb;
  ko_total : ∀ x y, ltb x y = false → ltb y x = false → x = y;
}.

Definition lex {A K} (eqb ltb : K → K → bool) (k : A → K) (less : A → A → bool) (x y : A) : bool :=
  if negb (eqb (k x) (k y)) then ltb (k x) (k y) else less x y.

Lemma lex_false {A K} (eqb ltb : K → K → bool) (k : A → K) less x y : key_order eqb ltb →
  lex eqb ltb k less x y = false ↔ ltb (k y) (k x) = true ∨ (k x = k y ∧ less x y = false).
Proof.
  intros [He [Ha _] Ht]. unfold lex. destruct (eqb (k x) (k y)) eqn:E; cbn [negb].
  - apply He in E. rewrite E. split; [auto|]. intros [Hl|[_ ?]]; [|done]. pose proof (Ha _ _ Hl). congruence.
  - assert (k x ≠ k y) by (intros Hk; apply He in Hk; congruence). split; [|intros [?|[? _]]; [auto|done]].
    intros Hl. left. destruct (ltb (k y) (k x)) eqn:Hl'; [done|]. by destruct (Ht _ _ Hl Hl').
Qed.

Lemma lex_order {A K} (eqb ltb : K → K → bool) (k : A → K) less : key_order eqb ltb → strict_order less → strict_order (lex eqb ltb k less).
Proof.
  intros Hk [Ha Ht]. pose proof Hk as [He [Hka Hkt] Htot]. split.
  - intros x y Hl. apply lex_false; [done|]. unfold lex in Hl. destruct (eqb (k x) (k y)) eqn:E; cbn [negb] in Hl; [|auto].
    apply He in E. right. split; [done|]. by apply Ha.
  - intros x y z H1 H2. apply lex_false in H1, H2; try done. apply lex_false; [done|].
    destruct H1 as [H1|[E1 H1]], H2 as [H2|[E2 H2]].
    + left. destruct (ltb (k x) (k z)) eqn:E; [done|]. pose proof (Hkt _ _ _ (Hka _ _ H2) E) as Hc. congruence.
    + left. by rewrite E2.
    + left. by rewrite <-E1.
    + right. split; [congruence|by eapply Ht].
Qed.

Lemma string_key : key_order String.eqb String.ltb.
Proof.
  split; [apply String.eqb_eq| |apply string_ltb_total]. split; [apply string_ltb_asym|]. intros. by eapply string_ltb_false_trans.
Qed.

Lemma integer_key : key_order Z.eqb Z.ltb.
Proof. split; [apply Z.eqb_eq|split|]; intros; rewrite ?Z.ltb_lt, ?Z.ltb_ge in *; lia. Qed.

(** ** Percentiles *)

Lemma sorted_take (l : list Z) i v : StronglySorted Z.le l → l !! i = Some v → Forall (fun x => x ≤ v) (take (S i) l).
Proof.
  intros Hs. revert i. induction Hs as [|x l Hs IH Hx]; intros [|i] Hi; try done.
  - injection Hi as ->. simpl. by constructor.
  - cbn [take]. constructor; [|by apply IH]. rewrite Forall_forall in Hx. apply Hx. by eapply list_elem_of_lookup_2.
Qed.

Lemma sorted_drop (l : list Z) i v : StronglySorted Z.le l → l !! i = Some v → Forall (fun x => v ≤ x) (drop i l).
Proof.
  intros Hs. revert i. induction Hs as [|x l Hs IH Hx]; intros [|i] Hi; try done.
  - injection Hi as ->. simpl. by constructor.
  - by apply IH.
Qed.

(** How many values are at most, and below, a bound. *)
Definition at_most (v : Z) (l : list Z) : Z := Z.of_nat (length (filter (fun x => x ≤ v) l)).
Definition below (v : Z) (l : list Z) : Z := Z.of_nat (length (filter (fun x => x < v) l)).

Lemma sorted_counts (l : list Z) i v : StronglySorted Z.le l → l !! i = Some v → Z.of_nat i + 1 ≤ at_most v l ∧ below v l ≤ Z.of_nat i.
Proof.
  intros Hs Hi. pose proof (lookup_lt_Some _ _ _ Hi) as Hlt. unfold at_most, below. split.
  - rewrite <-(take_drop (S i) l), filter_app, length_app. pose proof (sorted_take l i v Hs Hi) as Ht.
    rewrite (filter_full _ (take (S i) l)) by done. rewrite length_take. lia.
  - rewrite <-(take_drop i l), filter_app, length_app. pose proof (sorted_drop l i v Hs Hi) as Hd.
    assert (filter (fun x => x < v) (drop i l) = []) as ->.
    { apply filter_empty. eapply Forall_impl; [exact Hd|]. intros x Hx Hc. simpl in Hx. lia. }
    pose proof (length_filter (fun x => x < v) (take i l)). rewrite length_take in *. simpl. lia.
Qed.

Lemma sort_Z_sorted l : StronglySorted Z.le (sort_slice Z.ltb l).
Proof.
  eapply StronglySorted_weaken; [|apply sort_slice_sorted].
  - intros x y. unfold not_after. intros ?%Z.ltb_ge. lia.
  - intros x y ?%Z.ltb_lt. apply Z.ltb_ge. lia.
  - intros x y z ?%Z.ltb_ge ?%Z.ltb_ge. apply Z.ltb_ge. lia.
Qed.

Lemma percentile_bounds p : p ∈ [50; 95; 99] → 1 ≤ p ≤ 99.
Proof. intros Hp. set_unfold. lia. Qed.

Lemma nearestRank_value (l : list Z) p : StronglySorted Z.le l → p ∈ [50; 95; 99] → 0 < Z.of_nat (length l) < 2 ^ 46 →
  ∃ v, nearestRank l p = Some (float_of_Z v) ∧ v ∈ l ∧ p * Z.of_nat (length l) ≤ 100 * at_most v l ∧ 100 * below v l < p * Z.of_nat (length l).
Proof.
  intros Hs Hp Hn. unfold nearestRank. fold (percent_float p). rewrite percent_rank by done.
  destruct (proj1 (ceil_div_spec (p * Z.of_nat (length l)) 100 _ ltac:(lia)) eq_refl) as [Hlow Hup].
  set (c := ceil_div _ _) in *. pose proof (percentile_bounds p Hp). rewrite (proj2 (Z.ltb_ge c 1)) by nia.
  destruct (lookup_lt_is_Some_2 l (Z.to_nat (c - 1))) as [v Hv]; [nia|]. exists v. rewrite Hv. split; [done|].
  split; [by eapply list_elem_of_lookup_2|]. destruct (sorted_counts l _ v Hs Hv). nia.
Qed.

Section Reading.
Context (dk : disk) (cd : codec).

Lemma requestLog_inv path durations : parseH2LoadRequestLog dk path = Ok durations → StronglySorted Z.le durations ∧ 0 < Z.of_nat (length durations).
Proof.
  unfold parseH2LoadRequestLog. destruct (dk_read dk path); [|done]. intros (l & _ & Hl)%bind_ok_inv.
  destruct (Nat.eqb_spec (length l) 0); [done|]. injection Hl as <-. split; [apply sort_Z_sorted|]. rewrite length_sort_slice. lia.
Qed.

(** C38: the percentiles of a request log are its nearest-rank percentiles: the value
    is a duration of the log, at least the given part of the requests took at
    most as long, and less than that part took less; the rank, computed in double
    precision, never leaves the log. *)
Theorem percentile_exact path durations p : parseH2LoadRequestLog dk path = Ok durations → Z.of_nat (length durations) < 2 ^ 46 →
  p ∈ [50; 95; 99] →
  ∃ v, nearestRank durations p = Some (float_of_Z v) ∧ v ∈ durations ∧
    p * Z.of_nat (length durations) ≤ 100 * at_most v durations ∧ 100 * below v durations < p * Z.of_nat (length durations).
Proof. intros [Hs Hn]%requestLog_inv Hlt Hp. by apply nearestRank_value. Qed.

(** ** Evidence files *)

(** An artifact path resolves to a regular file inside the directory, and only to
    that. *)
Definition artifact_inside (dir : list string) (relative : string) (path : string) : Prop :=
  filepath_IsAbs relative = false ∧ path = rooted_path (walk dir relative) ∧ dir `prefix_of` walk dir relative ∧ dk_stat dk path = Some RegularFile.

Lemma resolveArtifact_iff dir relative path : Forall plain_element dir →
  resolveArtifact dk (rooted_path dir) relative = Ok path ↔ artifact_inside dir relative path.
Proof.
  intros Hd. unfold resolveArtifact, artifact_inside. rewrite join_rooted by done. pose proof (walk_plain dir relative Hd) as Hw.
  destruct (filepath_IsAbs relative); [split; [done|naive_solver]|]. pose proof (rel_inside dir (walk dir relative) Hd Hw) as Hin.
  destruct (goes_up _) eqn:Hup.
  - split; [done|]. intros (_ & _ & Hp & _). apply Hin in Hp. done.
  - destruct (dk_stat dk (rooted_path (walk dir relative))) as [[]|] eqn:Hstat; split; try done; try naive_solver.
Qed.

(** The artifacts of a run, and where they are. *)
Definition evidence_inside (dir : list string) (raw : rawRun) : Prop :=
  let inside relative := ∃ path, artifact_inside dir relative path in
  inside (ar_stdout (rr_artifacts raw)) ∧ inside (ar_stderr (rr_artifacts raw)) ∧ inside (ar_structured (rr_artifacts raw)) ∧
  (sc_generator (rr_scenario raw) ≠ "wrk" → inside (ar_requestLog (rr_artifacts raw))).

(** ** One run *)

Record run_sound (dir : list string) (run : parsedRun) : Prop := {
  rs_valid : validateRaw (pr_raw run) = Ok ();
  rs_inside : evidence_inside dir (pr_raw run);
  rs_errors : pr_errors run = rr_errors (pr_raw run);
  rs_metrics : validMetrics (pr_metrics run) = true;
  rs_requests : 0 < pr_requests run;
}.

Lemma parseWrk_inv path metrics errors requests : parseWrk dk cd path = Ok (metrics, errors, requests) → validMetrics metrics = true ∧ 0 < requests.
Proof.
  unfold parseWrk. intros (doc & _ & Hp)%bind_ok_inv. cbv zeta in Hp. destruct (_ || (wd_durationUS doc <=? 0)) eqn:Hg; [done|].
  destruct (validMetrics _) eqn:Hm; [|done]. injection Hp as <- <- <-. split; [done|]. bool_hyps. lia.
Qed.

Lemma parseH2Load_inv s r metrics errors requests : parseH2Load dk cd s r = Ok (Some (metrics, errors, requests)) →
  validMetrics metrics = true ∧ 0 < requests.
Proof.
  unfold parseH2Load. intros (doc & _ & Hp)%bind_ok_inv. destruct (_ || (hd_done doc <=? 0)) eqn:Hg; [done|].
  apply bind_ok_inv in Hp as (durations & _ & Hp). destruct (Z.of_nat (length durations) =? hd_done doc); [|done]. destruct (h2loadMetrics doc durations); [|done].
  destruct (validMetrics _) eqn:Hm; [|done]. injection Hp as <- <- <-. split; [done|]. bool_hyps. lia.
Qed.

Lemma parseRun_inv dir raw run : Forall plain_element dir → validateRaw raw = Ok () → parseRun dk cd (rooted_path dir) raw = Ok (Some run) →
  pr_raw run = raw ∧ run_sound dir run.
Proof.
  intros Hd Hv. unfold parseRun. intros (p1 & H1 & Hp)%bind_ok_inv. apply bind_ok_inv in Hp as (p2 & H2 & Hp).
  apply bind_ok_inv in Hp as (p3 & H3 & Hp). apply bind_ok_inv in Hp as (parsed & Hparse & Hp).
  destruct parsed as [[[metrics errors] requests]|]; [|done]. destruct (bool_decide_reflect (errors = rr_errors raw)) as [->|]; [|done].
  injection Hp as <-. split; [done|]. apply resolveArtifact_iff in H1, H2, H3; try done.
  assert (Hfacts : (validMetrics metrics = true ∧ 0 < requests) ∧
    (sc_generator (rr_scenario raw) ≠ "wrk" → ∃ path, artifact_inside dir (ar_requestLog (rr_artifacts raw)) path)).
  { destruct (String.eqb_spec (sc_generator (rr_scenario raw)) "wrk") as [Hw|Hw].
    - destruct (parseWrk dk cd p3) as [[[m e] n]|] eqn:Hw'; [|done]. injection Hparse as -> -> ->. split; [by eapply parseWrk_inv|done].
    - apply bind_ok_inv in Hparse as (log & Hlog & Hparse). apply resolveArtifact_iff in Hlog; [|done]. split; [by eapply parseH2Load_inv|eauto]. }
  destruct Hfacts as [[Hm Hn] Hlog]. split; try done. by split_and!; eauto.
Qed.

(** ** Run identities *)

(** What tells a run apart. *)
Definition run_key (raw : rawRun) : string * Z * string * Z :=
  (sc_name (rr_scenario raw), rr_payloadBytes raw, tg_name (rr_target raw), gs_repetition (rr_generatorSettings raw)).

Record raw_fields (raw : rawRun) : Prop := {
  rf_payload : 0 ≤ rr_payloadBytes raw;
  rf_repetition : 1 ≤ gs_repetition (rr_generatorSettings raw);
  rf_target : tg_name (rr_target raw) ∈ ["direct"; "go"; "apisix"];
  rf_errors : 0 ≤ es_requestErrors (rr_errors raw) ∧ 0 ≤ es_timeouts (rr_errors raw) ∧ 0 ≤ es_non2xx (rr_errors raw);
}.

Lemma validateRaw_fields raw : validateRaw raw = Ok () → raw_fields raw.
Proof.
  unfold validateRaw. cbv zeta. repeat (case_match; [done|]). intros _. bool_hyps. split; [lia|lia| |lia].
  match goal with H : _ && negb (String.eqb (tg_name _) "apisix") = false |- _ => rename H into Ht end.
  set_unfold. rewrite !andb_false_iff, !negb_false_iff, !String.eqb_eq in Ht. tauto.
Qed.

Lemma digits_no_slash s : string_forallb is_digit s = true → contains_byte "/" s = false.
Proof. induction s as [|c s IH]; [done|]. cbn [string_forallb contains_byte]. intros [Hc Hs]%andb_true_iff. rewrite IH by done.
  by destruct c as [[] [] [] [] [] [] [] []]. Qed.

Lemma runIdentity_split raw : raw_fields raw → split_byte "/" (runIdentity raw) =
  split_byte "/" (sc_name (rr_scenario raw)) ++ [pretty (rr_payloadBytes raw); tg_name (rr_target raw); pretty (gs_repetition (rr_generatorSettings raw))].
Proof.
  intros [Hp Hr Ht _]. unfold runIdentity.
  assert (Hsep : ∀ s t, split_byte "/" (s +:+ "/" +:+ t) = split_byte "/" s ++ split_byte "/" t) by (intros; apply split_byte_join).
  rewrite !Hsep. rewrite !(split_byte_no_sep _ (pretty _)) by (apply digits_no_slash, pretty_digits; lia).
  rewrite (split_byte_no_sep _ (tg_name _)); [done|]. set_unfold. by destruct Ht as [->|[->|[->|[]]]].
Qed.

(** The identity of a run is injective although scenario names may have slashes
    in them. *)
Lemma runIdentity_inj a b : raw_fields a → raw_fields b → runIdentity a = runIdentity b ↔ run_key a = run_key b.
Proof.
  intros Ha Hb. split.
  - intros E. apply (f_equal (split_byte "/")) in E. rewrite !runIdentity_split in E by done.
    apply app_inj_2 in E as [En [= Ep Et Er]]; [|done]. unfold run_key.
    apply (f_equal (join_byte "/")) in En. rewrite !join_split_byte in En. simplify_eq. by rewrite En, Ep, Et, Er.
  - unfold run_key, runIdentity. by intros [= -> -> -> ->].
Qed.

(** ** All runs *)

Lemma readPaths_inv dir seen paths runs : Forall plain_element dir → readPaths dk cd (rooted_path dir) seen paths = Ok (Some runs) →
  Forall2 (fun path run => decodeFileWithMode dk cd (cd_raw cd) path = Ok (pr_raw run) ∧ run_sound dir run) paths runs ∧
  NoDup (runIdentity ∘ pr_raw <$> runs) ∧ Forall (fun run => seen !! runIdentity (pr_raw run) = None) runs.
Proof.
  intros Hd. revert seen runs. induction paths as [|path paths IH]; intros seen runs; cbn [readPaths].
  { intros [= <-]. split_and!; constructor. }
  intros (raw & Hraw & Hp)%bind_ok_inv. apply bind_ok_inv in Hp as ([] & Hv & Hp). cbv zeta in Hp.
  destruct (seen !! runIdentity raw) eqn:Hseen; [done|]. apply bind_ok_inv in Hp as (parsed & Hparse & Hp). destruct parsed as [run|]; [|done].
  apply bind_ok_inv in Hp as (rest & Hrest & Hp). destruct rest as [rest|]; [|done]. injection Hp as <-.
  apply map_err_ok_inv in Hraw, Hv, Hparse. apply parseRun_inv in Hparse as [<- Hsound]; [|done|done].
  apply IH in Hrest as (H1 & H2 & H3). split_and!.
  - by constructor.
  - rewrite fmap_cons. constructor; [|done]. intros (run' & E & Hin)%list_elem_of_fmap. rewrite Forall_forall in H3. specialize (H3 _ Hin).
    cbn [compose] in E. rewrite <-E, lookup_insert_eq in H3. done.
  - constructor; [done|]. eapply Forall_impl; [exact H3|]. intros run' Hn. by apply lookup_insert_None in Hn as [? _].
Qed.

(** What the files of a tree amount to. *)
Record runs_sound (dir : list string) (runs : list parsedRun) : Prop := {
  rn_sound : Forall (run_sound dir) runs;
  rn_distinct : NoDup (run_key ∘ pr_raw <$> runs);
  rn_sorted : StronglySorted (not_after run_before) runs;
  rn_files : ∃ entries read, dk_walk dk (rooted_path dir) = Some entries ∧ runs ≡ₚ read ∧ read ≠ [] ∧
    Forall2 (fun path run => decodeFileWithMode dk cd (cd_raw cd) path = Ok (pr_raw run)) (sort_strings (rawRunPaths entries)) read;
}.

Lemma run_order : strict_order run_before.
Proof.
  apply (lex_order String.eqb String.ltb (fun run => sc_name (rr_scenario (pr_raw run)))); [apply string_key|].
  apply (lex_order Z.eqb Z.ltb (fun run => rr_payloadBytes (pr_raw run))); [apply integer_key|].
  apply (lex_order String.eqb String.ltb (fun run => tg_name (rr_target (pr_raw run)))); [apply string_key|].
  split; intros; rewrite ?Z.ltb_lt, ?Z.ltb_ge in *; lia.
Qed.

Lemma readRuns_sound dir runs : Forall plain_element dir → readRuns dk cd (rooted_path dir) = Ok (Some runs) → runs_sound dir runs.
Proof.
  intros Hd. unfold readRuns. destruct (dk_walk dk (rooted_path dir)) as [entries|] eqn:Hw; [|done].
  destruct (Nat.eqb_spec (length (rawRunPaths entries)) 0) as [|Hne]; [done|]. intros (read & Hread & E)%bind_ok_inv.
  destruct read as [read|]; [|done]. injection E as <-. apply readPaths_inv in Hread as (H1 & H2 & _); [|done].
  assert (Hall : Forall (run_sound dir) read).
  { eapply Forall2_Forall_r; [exact H1|]. apply Forall_forall. by intros path _ run [_ ?]. }
  split.
  - by rewrite sort_slice_perm.
  - rewrite sort_slice_perm. eapply NoDup_keys; [|exact H2]. intros x y Hx Hy. rewrite Forall_forall in Hall. cbn [compose].
    intros E. apply runIdentity_inj; [| |done]; by apply validateRaw_fields, (rs_valid dir), Hall.
  - apply sort_slice_sorted; apply run_order.
  - exists entries, read. split_and!; [done|apply sort_slice_perm| |].
    + intros ->. apply Forall2_length in H1. unfold sort_strings in H1; rewrite length_sort_slice in H1. done.
    + eapply Forall2_impl; [exact H1|]. naive_solver.
Qed.
End Reading.

(** ** Counts *)

Definition failures (run : parsedRun) : Z :=
  es_requestErrors (pr_errors run) + es_timeouts (pr_errors run) + es_non2xx (pr_errors run).

Definition counts_ok (run : parsedRun) : Prop :=
  0 ≤ es_requestErrors (pr_errors run) ∧ 0 ≤ es_timeouts (pr_errors run) ∧ 0 ≤ es_non2xx (pr_errors run).

Lemma wrap_int64_id x : - 2 ^ 63 ≤ x < 2 ^ 63 → wrap_int64 x = x.
Proof. intros Hx. unfold wrap_int64. rewrite Z.mod_small; lia. Qed.

Lemma zsum_nonneg_elem {A} (f : A → Z) (l : list A) : (∀ x, x ∈ l → 0 ≤ f x) → 0 ≤ zsum f l.
Proof.
  induction l as [|x l IH]; intros Hf; [done|]. rewrite zsum_cons. pose proof (Hf x ltac:(by left)). pose proof (IH (fun y Hy => Hf y ltac:(by right))). lia.
Qed.

Lemma zsum_filter {A} (f : A → Z) (P : A → Prop) `{∀ x, Decision (P x)} (l : list A) : (∀ x, x ∈ l → 0 ≤ f x) → zsum f (filter P l) ≤ zsum f l.
Proof.
  induction l as [|x l IH]; intros Hf; [done|]. pose proof (Hf x ltac:(by left)). pose proof (IH (fun y Hy => Hf y ltac:(by right))).
  rewrite filter_cons. case_decide; rewrite !zsum_cons; lia.
Qed.

Lemma count64_exact f runs : (∀ run, run ∈ runs → 0 ≤ f run) → zsum f runs < 2 ^ 63 → count64 f runs = zsum f runs.
Proof.
  intros Hf Hb. unfold count64.
  assert (Hgo : ∀ start, 0 ≤ start → start + zsum f runs < 2 ^ 63 → foldl (fun sum run => add64 sum (f run)) start runs = start + zsum f runs).
  { clear Hb. induction runs as [|run runs IH]; intros start Hs Hb; [cbn; lia|]. rewrite zsum_cons in Hb |- *. cbn [foldl].
    assert (Hf' : ∀ x, x ∈ runs → 0 ≤ f x) by (intros; apply Hf; by right). pose proof (zsum_nonneg_elem f runs Hf').
    pose proof (Hf run ltac:(by left)). unfold add64. rewrite wrap_int64_id by lia. rewrite IH by (done || lia). lia. }
  rewrite Hgo; lia.
Qed.

Lemma errorTotal_exact a b c : 0 ≤ a → 0 ≤ b → 0 ≤ c → a + b + c < 2 ^ 63 → errorTotal a b c = a + b + c.
Proof. intros. unfold errorTotal, add64. rewrite (wrap_int64_id (a + b)) by lia. apply wrap_int64_id. lia. Qed.

Definition summary_failures (summary : TargetSummary) : Z :=
  errorTotal (ts_requestErrors summary) (ts_timeouts summary) (ts_non2xx summary).

Lemma failures_split runs : zsum failures runs =
  zsum (es_requestErrors ∘ pr_errors) runs + zsum (es_timeouts ∘ pr_errors) runs + zsum (es_non2xx ∘ pr_errors) runs.
Proof. unfold failures. by rewrite <-!zsum_add. Qed.

(** The failures of a target are those of its runs, unless they overflow. *)
Lemma aggregate_failures runs : (∀ run, run ∈ runs → counts_ok run) → zsum failures runs < 2 ^ 63 →
  summary_failures (aggregateTarget runs) = zsum failures runs.
Proof.
  intros Hc Hb. assert (H1 : ∀ run, run ∈ runs → 0 ≤ (es_requestErrors ∘ pr_errors) run) by (intros run Hr; apply Hc, Hr).
  assert (H2 : ∀ run, run ∈ runs → 0 ≤ (es_timeouts ∘ pr_errors) run) by (intros run Hr; apply Hc, Hr).
  assert (H3 : ∀ run, run ∈ runs → 0 ≤ (es_non2xx ∘ pr_errors) run) by (intros run Hr; apply Hc, Hr).
  pose proof (zsum_nonneg_elem _ _ H1). pose proof (zsum_nonneg_elem _ _ H2). pose proof (zsum_nonneg_elem _ _ H3).
  rewrite failures_split in Hb |- *. unfold summary_failures, aggregateTarget. cbn [ts_requestErrors ts_timeouts ts_non2xx].
  rewrite !count64_exact by (done || lia). by apply errorTotal_exact.
Qed.

Lemma zsum_zero {A} (f : A → Z) (l : list A) x : (∀ x, x ∈ l → 0 ≤ f x) → zsum f l ≤ 0 → x ∈ l → f x = 0.
Proof.
  intros Hf Hs Hx. apply list_elem_of_split in Hx as (l1 & l2 & ->). rewrite zsum_app, zsum_cons in Hs.
  pose proof (zsum_nonneg_elem f l1 ltac:(set_solver)). pose proof (zsum_nonneg_elem f l2 ltac:(set_solver)). pose proof (Hf x ltac:(set_solver)). lia.
Qed.

(** ** One group *)

(** What a comparison that is not invalid says of its group. *)
Record group_valid (key : comparisonKey) (runs : list parsedRun) : Prop := {
  gv_direct : length (targetRuns "direct" runs) = 1%nat;
  gv_gateways : targetRuns "go" runs ≠ [] ∧ targetRuns "apisix" runs ≠ [];
  gv_failures : ∀ run, run ∈ runs → failures run = 0;
  gv_headroom : let control := cm_direct (compareGroup key runs) in
    float_ltb (ds_headroomRatio control) (ds_requiredHeadroomFactor control) = false;
}.

Definition target_known (run : parsedRun) : Prop := tg_name (rr_target (pr_raw run)) ∈ ["direct"; "go"; "apisix"].

Lemma elem_targetRuns name runs run : run ∈ targetRuns name runs ↔ tg_name (rr_target (pr_raw run)) = name ∧ run ∈ runs.
Proof. unfold targetRuns. by rewrite list_elem_of_filter. Qed.

Lemma app_nil_inv {A} (l k : list A) : l ++ k = [] → l = [] ∧ k = [].
Proof. by destruct l, k. Qed.

Lemma invalidReasons_nil direct control go apisix : invalidReasons direct control go apisix = [] →
  errorTotal (es_requestErrors (pr_errors direct)) (es_timeouts (pr_errors direct)) (es_non2xx (pr_errors direct)) ≤ 0 ∧
  summary_failures go ≤ 0 ∧ summary_failures apisix ≤ 0 ∧ float_ltb (ds_headroomRatio control) (ds_requiredHeadroomFactor control) = false.
Proof.
  unfold invalidReasons. cbv zeta. intros [H1 [H2 H3]%app_nil_inv]%app_nil_inv. unfold summary_failures.
  repeat match goal with H : (if ?b then _ else _) = [] |- _ => destruct b eqn:?; [done|clear H] end. bool_hyps. done.
Qed.

Lemma compareGroup_valid key runs : (∀ run, run ∈ runs → counts_ok run ∧ target_known run) → zsum failures runs < 2 ^ 63 →
  cm_verdict (compareGroup key runs) ≠ VerdictInvalid → group_valid key runs.
Proof.
  intros Hok Hb Hv. assert (Hc : ∀ run, run ∈ runs → 0 ≤ failures run).
  { intros run Hr. destruct (Hok run Hr) as [(?&?&?) _]. unfold failures. lia. }
  assert (Hsub : ∀ name, (∀ run, run ∈ targetRuns name runs → counts_ok run) ∧ zsum failures (targetRuns name runs) < 2 ^ 63).
  { intros name. split; [intros run [_ Hr]%elem_targetRuns; by apply Hok|]. pose proof (zsum_filter failures (fun run => tg_name (rr_target (pr_raw run)) = name) runs Hc).
    unfold targetRuns. lia. }
  assert (Hcontrol : ∃ direct g gs a as', targetRuns "direct" runs = [direct] ∧ targetRuns "go" runs = g :: gs ∧ targetRuns "apisix" runs = a :: as' ∧
    invalidReasons direct (cm_direct (compareGroup key runs)) (aggregateTarget (targetRuns "go" runs)) (aggregateTarget (targetRuns "apisix" runs)) = []).
  { unfold compareGroup in Hv |- *. destruct (targetRuns "direct" runs) as [|direct [|]], (targetRuns "go" runs) as [|g gs], (targetRuns "apisix" runs) as [|a as'];
      try done. exists direct, g, gs, a, as'. split_and!; [done..|]. cbv zeta in Hv |- *. set (reasons := invalidReasons _ _ _ _) in *.
    destruct reasons eqn:Hr; [|done]. destruct (parity _ _). cbn [cm_direct]. exact Hr. }
  destruct Hcontrol as (direct & g & gs & a & as' & Ed & Eg & Ea & (F1 & F2 & F3 & F4)%invalidReasons_nil).
  rewrite aggregate_failures in F2, F3 by apply Hsub.
  split; [by rewrite Ed|by rewrite Eg, Ea| |done]. intros run Hr. destruct (Hok run Hr) as [_ Ht]. unfold target_known in Ht. set_unfold in Ht.
  assert (Hz : ∀ name, tg_name (rr_target (pr_raw run)) = name → zsum failures (targetRuns name runs) ≤ 0 → failures run = 0).
  { intros name Hn Hs. eapply zsum_zero; [|exact Hs|by apply elem_targetRuns]. intros x [_ Hx]%elem_targetRuns. by apply Hc. }
  destruct Ht as [Ht|[Ht|[Ht|[]]]]; eapply Hz; try done. rewrite Ed. cbn. rewrite Z.add_0_r.
  destruct (Hsub "direct") as [Hd1 Hd2]. rewrite Ed in Hd1, Hd2. cbn in Hd2. destruct (Hd1 direct ltac:(by left)) as (?&?&?).
  rewrite errorTotal_exact in F1 by (unfold failures in Hd2; lia). unfold failures. lia.
Qed.

(** ** All groups *)

(** The runs of a scenario and payload, in order. *)
Definition group (key : comparisonKey) (runs : list parsedRun) : list parsedRun := filter (fun run => runKey run = key) runs.

Lemma groupRuns_lookup runs key : groupRuns runs !! key = match group key runs with [] => None | g => Some g end.
Proof.
  unfold groupRuns. induction runs as [|run runs IH] using rev_ind; [done|]. rewrite foldl_app. cbn [foldl]. unfold group in *.
  rewrite filter_app, filter_cons, filter_nil. destruct (decide (runKey run = key)) as [<-|Hne].
  - rewrite lookup_insert_eq. rewrite IH. by destruct (filter _ runs).
  - rewrite lookup_insert_ne, app_nil_r by done. apply IH.
Qed.

Lemma group_elem key runs run : run ∈ group key runs ↔ runKey run = key ∧ run ∈ runs.
Proof. unfold group. by rewrite list_elem_of_filter. Qed.

Lemma key_before_order : strict_order key_before.
Proof.
  apply (lex_order String.eqb String.ltb (@fst string Z)); [apply string_key|].
  split; intros; rewrite ?Z.ltb_lt, ?Z.ltb_ge in *; lia.
Qed.

Section Aggregate.
Context `{Unicode}.

Definition summary_of (runs : list parsedRun) : Summary := (aggregate runs).1.

(** There is one comparison per scenario and payload, of all the runs with it. *)
Lemma aggregate_comparisons runs : ∃ keys, sm_comparisons (summary_of runs) = (fun key => compareGroup key (group key runs)) <$> keys ∧
  NoDup keys ∧ StronglySorted (not_after key_before) keys ∧ (∀ key, key ∈ keys ↔ ∃ run, run ∈ runs ∧ runKey run = key).
Proof.
  set (keys := sort_slice key_before (elements (dom (groupRuns runs)))). exists keys.
  assert (Hkeys : ∀ key, key ∈ keys ↔ ∃ run, run ∈ runs ∧ runKey run = key).
  { intros key. unfold keys. rewrite elem_of_sort_slice, elem_of_elements, elem_of_dom, groupRuns_lookup. destruct (group key runs) as [|run g] eqn:Hg.
    - split; [by intros [? ?]|]. intros (run & Hr & Hk). assert (run ∈ group key runs) by (by apply group_elem). rewrite Hg in *. set_solver.
    - split; [intros _|by intros _; eexists]. exists run. assert (run ∈ group key runs) as [? ?]%group_elem by (rewrite Hg; by left). done. }
  split_and!; [|unfold keys; rewrite sort_slice_perm; apply NoDup_elements|apply sort_slice_sorted; apply key_before_order|done].
  unfold summary_of, aggregate. cbn [fst sm_comparisons]. fold keys. apply list_fmap_ext. intros i key Hi.
  apply list_elem_of_lookup_2, Hkeys in Hi as (run & Hr & Hk). rewrite groupRuns_lookup. destruct (group key runs) eqn:Hg; [|done].
  assert (run ∈ group key runs) by (by apply group_elem). rewrite Hg in *. set_solver.
Qed.

Lemma worst_valid comparisons comparison : worst comparisons ≠ VerdictInvalid → comparison ∈ comparisons → cm_verdict comparison ≠ VerdictInvalid.
Proof.
  unfold worst. destruct (existsb _ comparisons) eqn:E; [done|]. intros _ Hin Hv. apply not_true_iff_false in E. apply E.
  apply existsb_exists. exists comparison. split; [by apply list_elem_of_In|]. by rewrite Hv.
Qed.

Lemma run_facts dk dir run : run_sound dk dir run → counts_ok run ∧ target_known run.
Proof.
  intros [Hv _ He _ _]. apply validateRaw_fields in Hv as [_ _ Ht Hc]. unfold counts_ok. rewrite He. done.
Qed.

Lemma aggregate_valid dk cd dir runs run : runs_sound dk cd dir runs → zsum failures runs < 2 ^ 63 →
  sm_verdict (summary_of runs) ≠ VerdictInvalid → run ∈ runs → group_valid (runKey run) (group (runKey run) runs).
Proof.
  intros [Hs _ _ _] Hb Hv Hr. rewrite Forall_forall in Hs.
  assert (Hok : ∀ x, x ∈ runs → counts_ok x ∧ target_known x) by (intros x Hx; eapply run_facts; by apply Hs).
  apply compareGroup_valid.
  - intros x [_ Hx]%group_elem. by apply Hok.
  - eapply Z.le_lt_trans; [|exact Hb]. apply zsum_filter. intros x Hx. destruct (Hok x Hx) as [(?&?&?) _]. unfold failures. lia.
  - destruct (aggregate_comparisons runs) as (keys & Hc & _ & _ & Hk). apply (worst_valid (sm_comparisons (summary_of runs))); [exact Hv|].
    rewrite Hc. apply list_elem_of_fmap. exists (runKey run). split; [done|]. apply Hk. eauto.
Qed.

(** ** The report *)

Definition report_files (output : string) (text : string) (summary : Summary) : list (string * string) :=
  [(filepath_Join [output; "summary.json"], line text); (filepath_Join [output; "summary.csv"], writeCSV summary);
   (filepath_Join [output; "summary.md"], renderMarkdown summary)].

Lemma writeReports_ok dk cd output summary files : writeReports dk cd output summary = (files, None) →
  ∃ text, cd_marshal cd summary = Some text ∧ files = report_files output text summary.
Proof.
  unfold writeReports. destruct (dk_mkdirAll dk output); [|done]. destruct (cd_marshal cd summary) as [text|]; [|done].
  cbn [negb writeFiles]. intros Hw. exists text. split; [done|]. repeat (case_match; simplify_eq; try done).
Qed.

(** The report of a disk: where it reads, what it reads and what it writes. *)
Lemma Generate_inv dk cd opts out summary : filepath_IsAbs (dk_cwd dk) = true → Generate dk cd opts = Some out → gn_summary out = Some summary →
  ∃ dir runs text, Forall plain_element dir ∧ filepath_Abs (dk_cwd dk) (op_inputDir opts) = rooted_path dir ∧
    readRuns dk cd (rooted_path dir) = Ok (Some runs) ∧ summary = summary_of runs ∧ cd_marshal cd summary = Some text ∧
    gn_files out = report_files (filepath_Abs (dk_cwd dk) (op_outputDir opts)) text summary ∧
    gn_err out = match sm_verdict summary with VerdictInvalid => Some InvalidEvidence | _ => None end.
Proof.
  intros Hcwd. unfold Generate, resolveOptions. destruct (String.eqb _ _); [by intros [= <-]|]. destruct (String.eqb _ _); [by intros [= <-]|].
  destruct (abs_rooted _ (op_inputDir opts) Hcwd) as (dir & -> & Hd). destruct (dk_stat dk (rooted_path dir)) as [[]|]; try by intros [= <-].
  destruct (readRuns dk cd (rooted_path dir)) as [[runs|]|] eqn:Hruns; [|done|by intros [= <-]].
  destruct (aggregate runs) as [s invalid] eqn:Hagg. destruct (writeReports _ _ _ s) as [files [err|]] eqn:Hw; [by intros [= <-]|].
  intros [= <-] [= ->]. apply writeReports_ok in Hw as (text & Ht & ->). exists dir, runs, text.
  assert (Hs : summary = summary_of runs) by (unfold summary_of; by rewrite Hagg). split_and!; try done. cbn [gn_err].
  unfold aggregate in Hagg. injection Hagg as <- <-. cbn [sm_verdict]. by destruct (worst _).
Qed.


(** ** No index leaves a log *)

Lemma requestLogLines_length n lines durations : requestLogLines n lines = Ok durations → (length durations ≤ length lines)%nat.
Proof.
  revert n durations. induction lines as [|raw lines IH]; intros n durations; cbn [requestLogLines]; [by intros [= <-]|].
  destruct (maxScanTokenSize <=? _)%nat; [done|]. intros (d & _ & Hp)%bind_ok_inv. apply bind_ok_inv in Hp as (rest & Hrest & Hp).
  injection Hp as <-. apply IH in Hrest. rewrite length_app. destruct d; simpl; lia.
Qed.

Lemma count_byte_length c s : (count_byte c s ≤ String.length s)%nat.
Proof. induction s as [|d s IH]; simpl; [done|]. destruct (Ascii.eqb c d); simpl; lia. Qed.

Lemma scannerLines_length s : (length (scannerLines s) ≤ S (String.length s))%nat.
Proof.
  unfold scannerLines. pose proof (length_split_byte newline s) as Hl. pose proof (count_byte_length newline s).
  destruct (last _) as [[]|]; rewrite ?length_take; lia.
Qed.

(** Files that fit: a log with fewer than 2^46 bytes. *)
Definition logs_fit (dk : disk) : Prop := ∀ path text, dk_read dk path = Some text → Z.of_nat (String.length text) < 2 ^ 46 - 1.

Lemma parseH2Load_returns dk cd s r : logs_fit dk → parseH2Load dk cd s r ≠ Ok None.
Proof.
  intros Hfit. unfold parseH2Load. intros (doc & _ & Hp)%bind_ok_inv. destruct (_ || (hd_done doc <=? 0)); [done|].
  apply bind_ok_inv in Hp as (durations & Hlog & Hp). destruct (Z.of_nat (length durations) =? hd_done doc); [|done].
  destruct (requestLog_inv dk r durations Hlog) as [Hs Hn].
  assert (Hlt : Z.of_nat (length durations) < 2 ^ 46).
  { unfold parseH2LoadRequestLog in Hlog. destruct (dk_read dk r) as [text|] eqn:Hr; [|done]. apply Hfit in Hr.
    apply bind_ok_inv in Hlog as (l & Hl & E). destruct (Nat.eqb _ _); [done|]. injection E as <-. rewrite length_sort_slice.
    apply requestLogLines_length in Hl. pose proof (scannerLines_length text). lia. }
  unfold h2loadMetrics in Hp. destruct (nearestRank_value durations 50 Hs ltac:(set_solver)) as (v1 & E1 & _); [lia|].
  destruct (nearestRank_value durations 95 Hs ltac:(set_solver)) as (v2 & E2 & _); [lia|].
  destruct (nearestRank_value durations 99 Hs ltac:(set_solver)) as (v3 & E3 & _); [lia|].
  rewrite E1, E2, E3 in Hp. cbn [mbind option_bind] in Hp. by destruct (validMetrics _).
Qed.

Lemma parseRun_returns dk cd input raw : logs_fit dk → parseRun dk cd input raw ≠ Ok None.
Proof.
  intros Hfit. unfold parseRun. intros (p1 & _ & Hp)%bind_ok_inv. apply bind_ok_inv in Hp as (p2 & _ & Hp).
  apply bind_ok_inv in Hp as (p3 & _ & Hp). apply bind_ok_inv in Hp as (parsed & Hparse & Hp).
  destruct parsed as [[[m e] n]|]; [by destruct (bool_decide _)|]. destruct (String.eqb _ _).
  - by destruct (parseWrk dk cd p3).
  - apply bind_ok_inv in Hparse as (log & _ & Hparse). by eapply parseH2Load_returns.
Qed.

Lemma readPaths_returns dk cd input seen paths : logs_fit dk → readPaths dk cd input seen paths ≠ Ok None.
Proof.
  intros Hfit. revert seen. induction paths as [|path paths IH]; intros seen; [done|]. cbn [readPaths].
  intros (raw & _ & Hp)%bind_ok_inv. apply bind_ok_inv in Hp as ([] & _ & Hp). cbv zeta in Hp. destruct (seen !! _); [done|].
  apply bind_ok_inv in Hp as (parsed & Hparse & Hp). destruct parsed as [run|].
  - apply bind_ok_inv in Hp as (rest & Hrest & Hp). destruct rest; [done|]. by eapply IH.
  - apply map_err_ok_inv in Hparse. by eapply parseRun_returns.
Qed.

(** a report is always generated, or the error returned that stopped it: the
    percentile of a log is never looked up outside it. *)
Lemma Generate_returns dk cd opts : logs_fit dk → is_Some (Generate dk cd opts).
Proof.
  intros Hfit. unfold Generate. destruct (resolveOptions dk opts) as [[input output]|]; [|done].
  destruct (readRuns dk cd input) as [[runs|]|] eqn:Hr; [| |done].
  - destruct (aggregate runs), (writeReports _ _ _ _) as [? []]; done.
  - unfold readRuns in Hr. destruct (dk_walk dk input); [|done]. destruct (Nat.eqb _ _); [done|].
    apply bind_ok_inv in Hr as (read & Hread & E). destruct read; [done|]. by apply readPaths_returns in Hread.
Qed.

(** ** Targets without throughput *)

Definition idle (run : parsedRun) : Prop := mt_requestsPerSecond (pr_metrics run) = S754_zero false ∧ pr_errors run = mkErrorSet 0 0 0.

Lemma median_zeros l : l ≠ [] → Forall (fun x => x = S754_zero false) l → median l = S754_zero false.
Proof.
  intros Hne Hl. unfold median. assert (Hs : Forall (fun x => x = S754_zero false) (sort_floats l)) by (unfold sort_floats; by rewrite sort_slice_perm).
  assert (Hlen : (0 < length (sort_floats l))%nat) by (unfold sort_floats; rewrite length_sort_slice; by destruct l; [|simpl; lia]).
  assert (Hnth : ∀ i, (i < length (sort_floats l))%nat → nth i (sort_floats l) S754_nan = S754_zero false).
  { intros i Hi. rewrite Forall_forall in Hs. apply Hs. apply list_elem_of_In, nth_In, Hi. }
  cbv zeta. set (n := length (sort_floats l)) in *. pose proof (Nat.div_lt n 2 Hlen ltac:(lia)).
  destruct (Nat.eqb _ _); rewrite !Hnth by lia; done.
Qed.

Lemma zsum_all_zero {A} (f : A → Z) (l : list A) : (∀ x, x ∈ l → f x = 0) → zsum f l = 0.
Proof. induction l as [|x l IH]; intros Hf; [done|]. rewrite zsum_cons, Hf, IH; [done| |by left]. intros; apply Hf; by right. Qed.

Lemma count64_zero f runs : (∀ run, run ∈ runs → f run = 0) → count64 f runs = 0.
Proof. intros Hf. pose proof (zsum_all_zero f runs Hf) as Hz. rewrite count64_exact, Hz; [done| |lia]. intros run Hr. by rewrite Hf. Qed.

Lemma idle_target name runs : (∀ run, run ∈ runs → idle run) → targetRuns name runs ≠ [] →
  ts_medianRequestsPerSecond (aggregateTarget (targetRuns name runs)) = S754_zero false ∧ summary_failures (aggregateTarget (targetRuns name runs)) = 0.
Proof.
  intros Hi Hne. assert (Hi' : ∀ run, run ∈ targetRuns name runs → idle run) by (intros run [_ ?]%elem_targetRuns; by apply Hi).
  unfold summary_failures, aggregateTarget. cbn [ts_medianRequestsPerSecond ts_requestErrors ts_timeouts ts_non2xx]. split.
  - apply median_zeros; [by destruct (targetRuns name runs)|]. apply Forall_fmap, Forall_forall. intros run Hr. by apply Hi'.
  - rewrite !count64_zero; [done|..]; intros run Hr; destruct (Hi' run Hr) as [_ E]; cbn [compose]; by rewrite E.
Qed.

(** Without throughput the headroom is not a number, which is not below the
    factor that is required. *)
Lemma compareGroup_idle key runs : (∀ run, run ∈ runs → idle run) → length (targetRuns "direct" runs) = 1%nat →
  targetRuns "go" runs ≠ [] → targetRuns "apisix" runs ≠ [] →
  cm_verdict (compareGroup key runs) ≠ VerdictInvalid ∧ ds_headroomRatio (cm_direct (compareGroup key runs)) = S754_nan.
Proof.
  intros Hi Hd Hg Ha. destruct (idle_target "go" runs Hi Hg) as [Mg Fg]. destruct (idle_target "apisix" runs Hi Ha) as [Ma Fa].
  assert (Hdirect : ∀ run, run ∈ targetRuns "direct" runs → idle run) by (intros run [_ ?]%elem_targetRuns; by apply Hi).
  unfold compareGroup. destruct (targetRuns "direct" runs) as [|direct [|]]; try done. destruct (Hdirect direct ltac:(by left)) as [Rd Ed].
  destruct (targetRuns "go" runs) as [|g gs]; [done|]. destruct (targetRuns "apisix" runs) as [|a as']; [done|]. cbv zeta.
  rewrite Mg, Ma, Rd. unfold invalidReasons. cbv zeta. unfold summary_failures in Fg, Fa. rewrite Fg, Fa, Ed.
  cbn [ds_headroomRatio ds_requiredHeadroomFactor]. change (float_div (S754_zero false) (math_Max (S754_zero false) (S754_zero false))) with S754_nan.
  change (float_ltb S754_nan _) with false. cbn. unfold parity. cbv zeta. by destruct (_ && _ && _).
Qed.

(** [json.Marshal] has no text for a number that is not one. *)
Definition marshal_rejects_nan (cd : codec) : Prop := ∀ summary comparison, comparison ∈ sm_comparisons summary →
  ds_headroomRatio (cm_direct comparison) = S754_nan → cd_marshal cd summary = None.

End Aggregate.

(** ** Examples *)

(** A tree with one direct run and one of each gateway; the text of a file is its
    path, and the throughput is a parameter. *)
Definition demo_errors : errorSet := mkErrorSet 0 0 0.
Definition demo_zero : float64 := S754_zero false.
Definition demo_metrics (rps : Z) : metricSet := mkMetricSet (float_of_Z rps) demo_zero (float_of_Z 10) (float_of_Z 20) (float_of_Z 30).

Definition demo_run (target : string) : rawRun :=
  mkRawRun "1.0.0" "" EnvironmentDedicatedLinux "" (mkRunTarget target "" "") (mkRunImages "" "" "") (mkRunScenario "http1/keep-alive" "wrk" "h1" false)
    1024 (mkRunSettings "" "" 1 1 1 1 1 1 1) (mkRunLimits demo_zero 0 0) (mkRunEnvironment "" "Linux" "") (mkRunControl demo_zero (float_of_Z 2))
    (mkRunArtifacts "out.txt" "err.txt" (target +:+ ".json") "") (demo_metrics 0) demo_errors.

Definition demo_wrk (rps : Z) : wrkDocument :=
  mkWrkDocument "wrk-1" 100 100 100 (float_of_Z rps) demo_zero (float_of_Z 10) (float_of_Z 20) (float_of_Z 30) 0 0 0 0 0.

Definition demo_disk : disk :=
  mkDisk "/work" (fun path => if String.eqb path "/work/in" then Some Directory else Some RegularFile) Some
    (fun _ => Some [mkDirEntry "/work/in" "in" true; mkDirEntry "/work/in/go/raw-run.json" "raw-run.json" false;
                    mkDirEntry "/work/in/direct/raw-run.json" "raw-run.json" false; mkDirEntry "/work/in/apisix/raw-run.json" "raw-run.json" false;
                    mkDirEntry "/work/in/notes.txt" "notes.txt" false])
    (fun _ => true) (fun _ => true).

Definition demo_codec (direct gateway : Z) : codec :=
  mkCodec
    (fun text => if has_prefix text "/work/in/go" then NextValue (demo_run "go") ""
                 else if has_prefix text "/work/in/direct" then NextValue (demo_run "direct") "" else NextValue (demo_run "apisix") "")
    (fun text => if String.eqb text "/work/in/direct.json" then NextValue (demo_wrk direct) "" else NextValue (demo_wrk gateway) "")
    (fun _ => NextError) (fun _ => NextEOF)
    (fun summary => if existsb (fun comparison => isNaN (ds_headroomRatio (cm_direct comparison))) (sm_comparisons summary) then None else Some "{}").

Definition demo_opts : Options := mkOptions "in" "report".


Lemma demo_rejects direct gateway : marshal_rejects_nan (demo_codec direct gateway).
Proof.
  intros summary comparison Hin Hn. unfold demo_codec. cbn [cd_marshal]. rewrite (proj2 (existsb_exists _ _)); [done|].
  exists comparison. split; [by apply list_elem_of_In|]. by rewrite Hn.
Qed.


Lemma Generate_returns_witness : is_Some (@Generate (mkDisk "/" (fun _ => Some Directory) (fun _ => None) (fun _ => Some []) (fun _ => true) (fun _ => true))
  (demo_codec 1 1) ascii_only_unicode demo_opts).
Proof. apply (@Generate_returns ascii_only_unicode). intros path text Ht. discriminate Ht. Defined.

(** Two hundred requests. *)
Definition demo_log : string := concatenate (List.map (fun n => line ("1 200 " +:+ pretty (Z.of_nat ((n * 37) mod 200)))) (seq 0 200)).
Definition demo_log_disk : disk := mkDisk "/" (fun _ => None) (fun _ => Some demo_log) (fun _ => None) (fun _ => true) (fun _ => true).

Lemma percentile_exact_witness : ∃ durations v, parseH2LoadRequestLog demo_log_disk "log" = Ok durations ∧
  nearestRank durations 95 = Some (float_of_Z v) ∧ 95 * 200 ≤ 100 * at_most v durations ∧ 100 * below v durations < 95 * 200.
Proof.
  destruct (parseH2LoadRequestLog demo_log_disk "log") as [durations|] eqn:E; [|vm_compute in E; discriminate E].
  assert (Hlen : Z.of_nat (length durations) = 200) by (vm_compute in E; injection E as <-; reflexivity).
  destruct (percentile_exact demo_log_disk "log" durations 95 E) as (v & Hv & _ & H1 & H2).
  - rewrite Hlen. reflexivity.
  - right. left.
  - exists durations, v. rewrite Hlen in H1, H2. split; [reflexivity|]. split; [exact Hv|]. split; [exact H1|exact H2].
Defined.
